(* ===== verification/_CoqProject ===== *)
-Q . S2P
Prelude.v
Groups.v
GoStrings.v
Utf8.v
ConfigJson.v
GoJson.v
Shares.v
NetIP.v
GoPath.v
NfsConfig.v
SmbConfig.v
FileService.v
IscsiPolicy.v
NasPolicy.v
NetworkPolicy.v
Accounts.v
Unix.v
Store.v
PolicyStores.v
Register.v
NativeJournal.v
SambaJournal.v
Base64.v
Password.v
Sessions.v
Panel.v
PanelHTTP.v
Versions.v
McuProto.v
Gpt.v
MdMetadata.v
DosPrimary.v
UImage.v
MountInfo.v
BlockTopology.v
BlockInventory.v
StorageDiscovery.v
TrustedStorage.v
VolumeProbe.v
GoFloat.v
MdRaid.v
PartitionIdentity.v
MdIdentity.v
HashInput.v
SambaNss.v
FilePlan.v
PlanCandidates.v
MountOwner.v
MountedSet.v
SetLeases.v
OwnerEvidence.v
OwnerLeases.v
ServiceRuntime.v
