(* ===== verification/Prelude.v ===== *)
(** * PhantoWD EX4: verification of the NAS control plane

    PhantoWD EX4 is replacement firmware for a four-bay NAS.  Its control plane
    is a Go program, [src/src/phantowd-api]: an HTTP panel with one
    administrator, durable documents for desired state (share policy, service
    accounts, credentials, journals), and two journals that drive privileged
    commands, one creating native Unix identities, one enrolling Samba accounts.
    A second Go module, [src/tools/phantowd-lab], inspects captures, disk images
    and releases on a host.  Every state-changing part follows the same
    discipline: validate strictly, record the intent durably, act once, confirm,
    and refuse to guess after a failure.

    This library is a shallow embedding of that code: pure functions are
    functions, methods are state-passing functions that return the new state and
    a result ([res], below), loops with early return are [for_range], faults of
    the system (reads, writes, syncs, crashes, randomness, clocks) are explicit
    arguments, and concurrency and restarts are step relations.

    ** Files and what they model

    - [Prelude.v]: results, loops, slices, 64-bit wrap-around, tactics and the
      generic lemmas on loops, lists, sets and maps.  [Groups.v]: grouping by a
      key in a map of lists, and marking the members of the large groups.
    - [GoStrings.v]: Go strings as bytes, UTF-8 decoding, and the functions of
      [strings], [strconv], [io] and [encoding/hex] that the code calls.
      [Utf8.v]: UTF-8 encoding and its inverse.
    - [ConfigJson.v]: [internal/configjson/] and the duplicate-key scanner of
      [auth_controller.go], over any token stream.  [GoJson.v]: the part of
      [encoding/json] the documents need: a parser, the compact printer with its
      escapes, and typed decoding of struct fields; it instantiates
      [ConfigJson.v].
    - [NetIP.v]: addresses and prefixes of [net/netip].  [GoPath.v]: [path],
      [io/fs.ValidPath] and [slices.SortFunc] by a key.
    - [Shares.v], module [ShareConfig]: [shareconfig/config.go], the share policy,
      its validator and its codec.
    - [NfsConfig.v]: [nfsconfig/], the NFS policy, its codec and the rendered
      exports table.  [SmbConfig.v]: [smbconfig/], the rendered share sections.
    - [FileService.v]: [fileservice/], the two policies as one configuration,
      its rebasing, backup and restore.
    - [IscsiPolicy.v], module [Iscsi]: [internal/iscsipolicy/].  [NasPolicy.v]:
      [internal/naspolicy/], the NAS document that embeds the file services and
      the iSCSI policy, its edits and its restore.  [NetworkPolicy.v]:
      [internal/networkpolicy/].
    - [PolicyStores.v]: the revision stores of those documents, over a class of
      faithful codecs, and an edit of the NAS document through its store.
    - [Accounts.v], module [ServiceAccounts]: [serviceaccounts/registry.go], the
      registry of native service accounts and its four operations.
    - [Unix.v], module [UnixIdentity]: [unixidentity/], parsing passwd and group
      files, inspecting the snapshot, the NSS profile.
    - [Store.v], module [RevisionStore]: [internal/revisionstore/], the
      single-document store.  A [disk] is what reads see and the states a crash
      may leave; [Store_Commit] is the protocol write, sync, rename, sync.
    - [Register.v]: the interface between the store and its clients: a
      [Register] of operations with the class [RegisterSpec] of its laws,
      implemented by the revision store and by a one-cell memory.
    - [NativeJournal.v], module [IdentityProvision]: [identityprovision/], the
      journal that creates Unix identities.
    - [SambaJournal.v], module [SmbProvision]: [internal/smbprovision/], the
      Samba enrolment journal.
    - [Base64.v], [Password.v] (module [PasswordHash]): [passwordhash/], password
      verifiers over an abstract key derivation.
    - [Sessions.v], module [PanelSessions]: [auth_session.go].
    - [Panel.v], module [PanelAuth]: [admincredentials/], [account_store.go],
      [account_backend_linux.go] and the login windows; requests interleave
      between the locked sections ([panel_step]).
    - [PanelHTTP.v]: the handlers of [auth_controller.go] and
      [auth_password.go], from request to response.
    - [Versions.v]: [releaseverify/version.go].  [McuProto.v]: [mcuproto/].
      [Gpt.v], [DosPrimary.v]: [diskimage/gpt.go] and [dos_primary.go].
      [UImage.v]: [uimage/uimage.go].
    - [MdMetadata.v]: [mdmetadata/], the RAID superblocks a member carries.
      [GoFloat.v]: [strconv.ParseFloat] on binary64.  [MdRaid.v]: [mdraid.go],
      the arrays of [/proc/mdstat] confirmed by sysfs.  [MdIdentity.v]:
      [storage_identity.go], members bound to arrays.
    - [MountInfo.v]: [mounts.go].  [BlockTopology.v]: [storage.go], the block
      nodes, their holders and what is mounted above them.  [BlockInventory.v]:
      the inventory that [storage.go] collects from sysfs.
    - [StorageDiscovery.v]: the candidates and the probe plan of
      [storage_discovery.go].  [TrustedStorage.v]: [discoverTrustedStorageWith],
      observe, open, verify, observe again, with the descriptors it opens and
      closes as a trace.  [VolumeProbe.v]: [volumeprobe/], the answer a
      probe gives for one descriptor.
    - [PartitionIdentity.v]: [storage_partition_correlation.go],
      [storage_partition_classification.go], [storage_partition_observation.go]
      and [storage_partition_type.go]: the entries of a partition table bound to
      the kernel's partitions, classified, and summarised for the panel.
    - [HashInput.v]: the byte strings that are hashed, as prefix codes.
      [SambaNss.v]: the lookup files of Samba
      ([internal/fileserviceplan/samba_nss.go]).  [FilePlan.v]: the rest of
      [internal/fileserviceplan/]: evidence, plan and candidates; a class
      [MapOrder] stands for the order in which Go visits a map.
      [PlanCandidates.v]: what the candidates of a plan say.
    - [MountOwner.v]: [internal/mountowner/owner_linux.go].  A [sys] is one owner
      with the qualification tokens, the leases and the trace of what was asked
      of the kernel; a [world] has many owners that share tokens and leases.
      [MountedSet.v]: [set_linux.go], [lease_linux.go] and [root_pin_linux.go],
      sets of owners, their generations, leases on a whole set and pins.
      [SetLeases.v]: the runs of a leased set.
    - [OwnerEvidence.v]: the evidence that [identityowner/] collects from its
      ledger, journals and Samba's database, and the planner's conversions of it
      and of a mounted set.  [OwnerLeases.v]: the leases on that evidence, the
      disabling of an account under a lease, and the enrolment lookup.
    - [ServiceRuntime.v]: [internal/mountowner/service_linux.go], the processes
      of a service around its storage handoff.

    ** What the theorems show

    - Validators are exact: [Config_Validate_exact], [Registry_Validate_exact],
      [validSID_exact], [Decode_exact], [rejectDuplicateJSONKeys_exact],
      [validSurrogates_exact], [Nfs_Validate_exact], [Iscsi_Validate_exact] and
      [Network_Validate_exact] characterise what is accepted, in both directions;
      [scanners_terminate]: the JSON scanners end on every token stream.
    - Rendered configuration means the policy: [Build_table_exact] and
      [Build_sections_exact] read the generated text back with a reader of the
      format and get exactly the exports and the shares of the policy.
    - Documents: [backup_roundtrip] (restoring a backup gives the configuration
      back), [Nas_RestoreCandidate_sound] and [retained_exports_keep_source] (a
      restore or an edit never moves a retained export to another source),
      [ReplaceFileServices_exact] (an edit of the file services keeps the volumes
      the LUNs need); [policy_commit_read_back] and [edit_commits] take them
      through the store to the bytes on disk and back.
    - The registry: [registry_reachable] (every change advances the revision by one
      and numbers and names are never reused, over any history), exact behaviour of [Create], [SetState] and [BindShares], and
      [create_from_snapshot], which composes it with the parsed local files.
    - The store: [commit_durable] (a commit that reported success survives every
      later crash, fault and reopening until a later commit), the outcomes of
      success and failure, and progress without faults.
    - The journals: no command is ever replayed ([native_commands_once],
      [smb_commands_fresh]) over any interleaving of requests, faults, crashes
      and restarts; a command runs only after a successful write of its own intent,
      under a revision no earlier command had; success means
      the observed state matches; a journal in review is final.  These are proved
      against [RegisterSpec], which [revision_spec] discharges for the store.
    - The panel: [no_stale_sessions] (no session outlives the credentials that
      authorised it, whatever interleaves), [quarantine_final],
      [changePassword_outcomes], [setup_then_login], [revokeAll_final],
      [session_lifetime], [allow_limits]; at the HTTP boundary
      [serve_unforgeable] and [session_cookie_sound].
    - The lab tools: [CompareVersions_total_order], [Push_exact] (the stream
      decoder finds exactly the frames of the stream, however it is cut),
      [Inspect_valid] and [InspectDOSPrimary_valid] (reported partitions are
      disjoint and inside the disk), [UInspect_detects_change] (the checksums
      catch every changed byte).
    - Storage: [parseMountInfo_exact], [CompareComponents_exact],
      [validateObservedStorageTopology_exact] and [collectStorage_exact] say what
      a collection accepts and reports; [visible_dependent_mount_exact] and
      [plan_candidates_unused] that nothing mounted, stacked or excluded is ever
      a candidate; [discovery_trusted], [discovery_descriptors] and
      [discovery_succeeds] that a discovery answers only for an unchanged world,
      closes every descriptor it does not return, that of [/dev] included, and
      answers when nothing fails; [InspectPartition_candidate] and [InspectPartition_confined] that a
      member's superblock is read inside the member only and that its place is
      computed without wrapping; [probe_answers_exact]
      for the probe.
    - Arrays and partitions: [md_inventory_exact] and
      [healthy_arrays_confirmed] (an array is healthy only when mdstat and sysfs
      agree and no member is missing), [md_arrays_bound] (an array is bound to
      exactly the disks below its members, none twice, and no other disk shows
      their identity), [candidates_correlated] (a candidate's
      geometry is the kernel's), [gpt_identities_exact] and [gpt_summary_exact]
      (repeated identifiers are never called unique, and each count is that of the
      set).
    - File services: [Build_plan_exact] (a plan exists exactly for complete,
      consistent evidence, which determines every field of it, and does not depend
      on the order of a map),
      [samba_candidate_exact], [lookup_files_exact] (every row of the lookup files
      is that of an account, locked and without a shell), [fresh_storage_same] (a candidate is fresh only
      against the storage it was planned for, or SHA-256 collides).
    - Mounts: [owners_hold_exactly] and [mount_quarantine_final] over every
      interleaving of the owners of a process, [Mount_outcomes],
      [generation_identifies] (a generation of a set stands for one evidence),
      [acquire_all_or_none] and [leased_never_unmounted] (a leased volume is not
      unmounted, and a pinned lease not closed), [handoff_outlives_processes] (storage is
      given back only when no process can be using it).
    - Evidence: [owner_evidence_planned] and [owner_storage_planned] (what the
      two owners show satisfies the planner's own checks, and when),
      [disable_changes_only] and [lease_binds_evidence] (a lease gives out only
      the evidence it was taken for, and nothing once a use of it was refused or it
      was released; disabling one account changes nothing else).

    ** Bounds and fuel

    Machine integers are [Z]; [u64_add], [u32_add] and [wrap] write out the
    wrap-around of unguarded arithmetic, and the theorems show where it cannot
    happen.  Few functions are fuelled.  A JSON scanner consumes a token every
    second call, so [scan_fuel] (twice the tokens plus three) always suffices and
    the theorems prove that it never runs out.  The JSON parser consumes a byte
    per call and its fuel is the length of the text; [parse_print] proves it
    enough for every printed value.  An IPv6 address has at most eight groups,
    and twenty digits print every 64-bit integer.  The walks over holders and
    slaves are fuelled with one more than the nodes of the inventory; each call
    visits a new node, and [validateObservedStorageTopology_exact] and
    [md_arrays_bound] state that the fuel never runs out, on any inventory.
    The planner, the mount owners, the sets, the leases and the service runtime
    are loops over finite lists and need no fuel.

    ** Parameters

    Argon2id, SHA-256, the media-type parser, the origin check of [transport.go],
    the commands the journals run, and, for the panel and the journals, the
    encodings of their documents are arguments; the policy documents are encoded
    and decoded by the modelled JSON.  What is assumed of them is stated where it is
    used: the key derivation returns 32 bytes, decoding an encoded document gives
    it back and the decoder validates, a [json.Decoder] delivers the tokens of
    the text.  What the kernel answers (sysfs, procfs, descriptors) is an
    argument of every observation, and the opener of devices satisfies the class
    [OpenerSpec].  For the mount owners these are the answers of the driver, the
    observer and the guards, and whether the context was cancelled; for the
    identity owner those of its directories, stores and Samba's database, and the
    digest of the evidence.

    ** Not modelled

    Code that is a protocol of system calls: the attach and detach of a storage
    handoff, isolated roots, processowner, mountguard, backingpin and
    runtimebundle; the sockets, the execution of commands, the recovery of
    interrupted journals and the reservations of the identity owner; the storage
    broker's process, network discovery, HTTP routing and TLS.  Locks are taken to
    be exclusive: an operation that holds one is a step.  The QEMU fixtures,
    vendored code and the C programs are left out.  Not done although it could be:
    the volume registry, iSCSI previews and credentials, SMART reports, the origin
    policy, the HTTP handlers of the service state and the release manifest. *)

From Stdlib Require Export ZArith Lia Ascii.
From stdpp Require Export base tactics decidable numbers list gmap strings sorting.
#[export] Set Default Goal Selector "!".
#[export] Set Warnings "-clear-no-such-hyp,-level-tolerance".

Open Scope Z_scope.

(** ** Go results

    A Go function that returns [(T, error)] becomes a function into [res E T];
    a function that returns only [error] becomes one into [res E unit].  The
    type [E] lists the error values the callers distinguish with [errors.Is]. *)
Inductive res (E A : Type) : Type :=
| Ok (a : A)
| Err (e : E).
Arguments Ok {E A} a.
Arguments Err {E A} e.

#[export] Instance res_ret E : MRet (res E) := λ A a, Ok a.
#[export] Instance res_bind E : MBind (res E) := λ A B f m,
  match m with Ok a => f a | Err e => Err e end.
#[export] Instance res_fmap E : FMap (res E) := λ A B f m,
  match m with Ok a => Ok (f a) | Err e => Err e end.

#[export] Instance res_eq_dec {E A} `{EqDecision E, EqDecision A} :
  EqDecision (res E A).
Proof. solve_decision. Defined.

Definition is_ok {E A} (r : res E A) : bool :=
  match r with Ok _ => true | Err _ => false end.

(** [err == nil] tests on a redacted error, and the replacement of any error
    by the single sentinel the caller is allowed to see. *)
Definition redact {E E' A} (e : E') (r : res E A) : res E' A :=
  match r with Ok a => Ok a | Err _ => Err e end.

(** ** Go notations *)
Declare Scope go_scope.
Delimit Scope go_scope with go.

Notation "a == b" := (bool_decide (a = b)) (at level 70, no associativity) : go_scope.
Notation "a != b" := (negb (bool_decide (a = b))) (at level 70, no associativity) : go_scope.
Notation "x ∈? s" := (bool_decide (x ∈ s)) (at level 70, no associativity) : go_scope.
(** [if c { return e }; k] *)
Notation "'refuse' c => e ;; k" := (if c then Err e else k)
  (at level 10, c at level 99, e at level 99, k at level 200,
   format "'[v' 'refuse'  c  =>  e  ;; '/' k ']'") : go_scope.
Open Scope go_scope.

(** ** Machine integers

    Unsigned Go integers are carried as [Z]; the wrap-around of the arithmetic
    the source performs without a guard is written out with [wrap]. *)
Definition max_uint16 : Z := 2 ^ 16 - 1.
Definition max_uint32 : Z := 2 ^ 32 - 1.
Definition max_uint64 : Z := 2 ^ 64 - 1.
Definition max_int64 : Z := 2 ^ 63 - 1.
Definition wrap (w z : Z) : Z := z mod 2 ^ w.
Definition u64_add (a b : Z) : Z := wrap 64 (a + b).
Definition u32_add (a b : Z) : Z := wrap 32 (a + b).
(** [^uint64(0) - 1] style complements never occur on values the model keeps;
    conversion to a signed 32-bit integer does. *)
Definition to_int32 (z : Z) : Z := if z <? 2 ^ 31 then z else z - 2 ^ 32.

(** ** Slices: a nil slice is distinct from an empty one *)
Definition slice (A : Type) : Type := option (list A).
Definition elems {A} (s : slice A) : list A := default [] s.
Definition is_nil {A} (s : slice A) : bool := match s with None => true | Some _ => false end.
Definition len {A} (l : list A) : Z := Z.of_nat (length l).
Definition slen {A} (s : slice A) : Z := len (elems s).

(** ** [for i, x := range l] with early return

    The loop state [S] is what the body assigns (the [seen] maps, the counters,
    the accumulated result); [Err] is the early [return]. *)
Fixpoint for_range {E S A} (body : Z → S → A → res E S) (i : Z) (s : S) (l : list A) : res E S :=
  match l with
  | [] => Ok s
  | x :: l' => match body i s x with
               | Ok s' => for_range body (i + 1) s' l'
               | Err e => Err e
               end
  end.

(** ** Tactics *)

(** Case analysis on every [match]/[if] of the context, closing the branches
    whose equations clash. *)
Ltac go_cases :=
  repeat (case_match; try discriminate); simplify_eq/=.

(** Turn the boolean tests of the code into propositions. *)
Create Rewrite HintDb go_bool.
#[export] Hint Rewrite andb_true_iff orb_true_iff orb_false_iff andb_false_iff
  negb_true_iff negb_false_iff bool_decide_eq_true bool_decide_eq_false
  Z.ltb_lt Z.ltb_ge Z.leb_le Z.leb_gt Z.eqb_eq Z.eqb_neq : go_bool.
Ltac go_bool := repeat (autorewrite with go_bool in *).
Tactic Notation "go_bool" "in" hyp(H) := repeat (autorewrite with go_bool in H).

(** Split the conjunctions of the context. *)
Ltac split_hyps := repeat match goal with
  | H : _ ∧ _ |- _ => destruct H
  | H : ∃ _, _ |- _ => destruct H
  end.

(** Close a conjunction (or a record of facts) whose parts are immediate. *)
Ltac finish := repeat first [done | lia | progress split_and! | split].

(** ** Results *)
Lemma res_bind_Ok {E A B} (m : res E A) (f : A → res E B) b :
  m ≫= f = Ok b ↔ ∃ a, m = Ok a ∧ f a = Ok b.
Proof. destruct m; simpl; naive_solver. Qed.

Lemma redact_Ok {E E' A} (e : E') (r : res E A) a : redact e r = Ok a ↔ r = Ok a.
Proof. destruct r; simpl; naive_solver. Qed.

Lemma is_ok_true {E A} (r : res E A) : is_ok r = true ↔ ∃ a, r = Ok a.
Proof. destruct r; simpl; naive_solver. Qed.

Lemma is_ok_unit {E} (r : res E unit) : is_ok r = true ↔ r = Ok tt.
Proof. destruct r as [[]|]; simpl; naive_solver. Qed.

(** A guard is passed exactly when its test is false. *)
Lemma refuse_Ok {E A} (c : bool) (e : E) (k : res E A) a :
  (if c then Err e else k) = Ok a ↔ c = false ∧ k = Ok a.
Proof. destruct c; naive_solver. Qed.

Lemma guard_Some {A} (c : bool) (k : option A) a : (if c then None else k) = Some a ↔ c = false ∧ k = Some a.
Proof. destruct c; naive_solver. Qed.

(** ** Loops *)
Section for_range.
Context {E S A : Type} (body : Z → S → A → res E S).

Lemma for_range_cons_Ok i s x l s' :
  for_range body i s (x :: l) = Ok s' ↔
  ∃ s1, body i s x = Ok s1 ∧ for_range body (i + 1) s1 l = Ok s'.
Proof. simpl. destruct (body i s x); naive_solver. Qed.

Lemma for_range_app i s l1 l2 s' :
  for_range body i s (l1 ++ l2) = Ok s' ↔
  ∃ s1, for_range body i s l1 = Ok s1 ∧
        for_range body (i + len l1) s1 l2 = Ok s'.
Proof.
  revert i s. induction l1 as [|x l1 IH]; intros i s.
  - simpl. replace (i + len []) with i by (unfold len; simpl; lia). naive_solver.
  - rewrite <- app_comm_cons, for_range_cons_Ok.
    setoid_rewrite IH. setoid_rewrite for_range_cons_Ok.
    replace (i + 1 + len l1) with (i + len (x :: l1)) by (unfold len; simpl; lia).
    naive_solver.
Qed.

(** Invariant rule: what every iteration preserves holds at the end. *)
Lemma for_range_inv (I : S → Prop) i s l s' :
  (∀ j st x st', x ∈ l → I st → body j st x = Ok st' → I st') →
  I s → for_range body i s l = Ok s' → I s'.
Proof.
  revert i s. induction l as [|x l IH]; intros i s Hstep HI; simpl.
  - intros [= <-]. done.
  - destruct (body i s x) as [s1|] eqn:Hb; [|done].
    apply IH; [|eapply Hstep; eauto; set_solver].
    intros j st y st' Hy. apply Hstep. set_solver.
Qed.

(** Two bodies that agree on the elements of the list give the same loop. *)
Lemma for_range_ext (body' : Z → S → A → res E S) i s l :
  (∀ j st x, x ∈ l → body j st x = body' j st x) →
  for_range body i s l = for_range body' i s l.
Proof.
  revert i s. induction l as [|x l IH]; intros i s Heq; simpl; [done|].
  rewrite Heq by set_solver. destruct (body' i s x); [|done].
  apply IH. intros. apply Heq. set_solver.
Qed.
End for_range.

(** ** Duplicate checks

    The validators share one loop shape: the state collects the keys seen so
    far, and an element is accepted when it is well formed and its keys are
    fresh.  [chain fresh] says that every element is fresh when its turn comes. *)
Section chain.
Context {S A : Type} (add : S → A → S).

Fixpoint chain (fresh : S → A → Prop) (s : S) (l : list A) : Prop :=
  match l with [] => True | x :: l' => fresh s x ∧ chain fresh (add s x) l' end.

Lemma chain_and (P Q : S → A → Prop) s l :
  chain (λ s x, P s x ∧ Q s x) s l ↔ chain P s l ∧ chain Q s l.
Proof. revert s. induction l as [|x l IH]; intros s; simpl; [naive_solver|]. rewrite IH. naive_solver. Qed.

(** The loop of the validators: accepted exactly when every element is good
    and fresh, and then the state is the fold of the additions. *)
Lemma for_range_chain {E} (body : Z → S → A → res E S) (good : A → Prop) fresh i s l s' :
  (∀ j st x st', body j st x = Ok st' ↔ good x ∧ fresh st x ∧ st' = add st x) →
  for_range body i s l = Ok s' ↔
  Forall good l ∧ chain fresh s l ∧ s' = fold_left add l s.
Proof.
  intros Hb. revert i s. induction l as [|x l IH]; intros i s.
  - simpl. rewrite Forall_nil. naive_solver.
  - rewrite for_range_cons_Ok, Forall_cons. setoid_rewrite Hb. setoid_rewrite IH.
    simpl. naive_solver.
Qed.

Section key.
Context `{Countable K} (π : S → gset K) (k : A → K).
Hypothesis Hadd : ∀ s x, π (add s x) = {[k x]} ∪ π s.

(** Freshness of one key along the loop is absence of duplicates. *)
Lemma chain_key s l :
  chain (λ s x, k x ∉ π s) s l ↔ NoDup (k <$> l) ∧ (∀ x, x ∈ l → k x ∉ π s).
Proof using Hadd.
  revert s. induction l as [|x l IH]; intros s; simpl.
  - split; [|done]. intros _. split; [constructor|set_solver].
  - rewrite IH, NoDup_cons, Hadd, list_elem_of_fmap. split.
    + intros (Hx & HN & Hd). split_and!; [|done|].
      * intros (y & Hk & Hy). apply (Hd y Hy). set_solver.
      * intros y [->|Hy]%elem_of_cons; [done|]. specialize (Hd y Hy). set_solver.
    + intros ((Hx & HN) & Hd). split_and!; [apply Hd; set_solver|done|].
      intros y Hy [Hk%elem_of_singleton|Hk]%elem_of_union.
      * apply Hx. exists y. done.
      * eapply Hd; [|done]. set_solver.
Qed.

Lemma fold_key s l : π (fold_left add l s) = list_to_set (k <$> l) ∪ π s.
Proof using Hadd.
  revert s. induction l as [|x l IH]; intros s; simpl; [set_solver|].
  rewrite IH, Hadd. set_solver.
Qed.
End key.
End chain.

Lemma not_elem_of_empty_all {A K} `{Countable K} (k : A → K) (l : list A) :
  ∀ x, x ∈ l → k x ∉ (∅ : gset K).
Proof. set_solver. Qed.

(** ** Nested loops and maps built by a loop *)

(** A body that ignores its index may be run over the concatenated lists. *)
Lemma for_range_nested {E S A B} (body : S → B → res E S) (f : A → list B) i s l :
  for_range (λ _ s x, for_range (λ _, body) 0 s (f x)) i s l = for_range (λ _, body) 0 s (l ≫= f).
Proof.
  revert i s. induction l as [|x l IH]; intros i s; [done|].
  assert (Hix : ∀ k j j' st, for_range (λ _, body) j st k = for_range (λ _, body) j' st k).
  { intros k. induction k as [|y k IHk]; intros j j' st; simpl; [done|]. by destruct (body st y). }
  assert (Happ : ∀ k j st, for_range (λ _, body) j st (k ++ (l ≫= f))
     = match for_range (λ _, body) j st k with
       | Ok st' => for_range (λ _, body) 0 st' (l ≫= f) | Err e => Err e end).
  { intros k. induction k as [|y k IHk]; intros j st; simpl; [apply Hix|]. by destruct (body st y). }
  cbn [mbind list_bind]. rewrite Happ. cbn [for_range].
  destruct (for_range _ 0 s (f x)); [apply IH|done].
Qed.

(** [m[k(x)] = v(x)] for every [x] in order. *)
Lemma fold_insert_lookup {A K V} `{Countable K} (k : A → K) (v : A → V) l (m : gmap K V) i w :
  NoDup (k <$> l) →
  fold_left (λ m x, <[k x := v x]> m) l m !! i = Some w ↔
  (∃ x, x ∈ l ∧ k x = i ∧ v x = w) ∨ (i ∉ k <$> l ∧ m !! i = Some w).
Proof.
  revert m. induction l as [|x l IH]; intros m; simpl; [set_solver|].
  intros [Hx HN]%NoDup_cons. rewrite IH, lookup_insert_Some, not_elem_of_cons by done.
  setoid_rewrite elem_of_cons. split.
  - intros [?|(Hi & [[<- <-]|[? ?]])]; naive_solver.
  - intros [(y & [->|Hy] & <- & <-)|?]; naive_solver.
Qed.

(** Elements with distinct keys are found by their key. *)
Lemma NoDup_fmap_inj {A B} (f : A → B) l x y : NoDup (f <$> l) → x ∈ l → y ∈ l → f x = f y → x = y.
Proof.
  intros HN [i Hi]%list_elem_of_lookup [j Hj]%list_elem_of_lookup Hf.
  assert (i = j) as ->; [|congruence].
  eapply NoDup_lookup; [done|by rewrite list_lookup_fmap, Hi|rewrite list_lookup_fmap, Hj; by rewrite Hf].
Qed.

(** A loop that appends one result per element is a pointwise relation. *)
Lemma for_range_append {E A B} (body : list B → A → res E (list B)) (R : A → B → Prop) i acc l out :
  (∀ acc x acc', body acc x = Ok acc' ↔ ∃ y, R x y ∧ acc' = acc ++ [y]) →
  for_range (λ _, body) i acc l = Ok out ↔ ∃ ys, Forall2 R l ys ∧ out = acc ++ ys.
Proof.
  intros Hb. revert i acc. induction l as [|x l IH]; intros i acc.
  - simpl. split; [intros [= <-]; exists []; by rewrite app_nil_r|].
    intros (ys & ->%Forall2_nil_inv_l & ->). by rewrite app_nil_r.
  - rewrite for_range_cons_Ok. setoid_rewrite Hb. setoid_rewrite IH. split.
    + intros (s1 & (y & Hy & ->) & ys & HF & ->). exists (y :: ys). rewrite <- app_assoc. by repeat constructor.
    + intros (ys & (y & ys' & Hy & HF & ->)%Forall2_cons_inv_l & ->).
      eexists. split; [by exists y|]. exists ys'. by rewrite <- app_assoc.
Qed.

(** A test that looks at one component of the state. *)
Lemma chain_proj {S T A} (add : S → A → S) (addT : T → A → T) (π : S → T) (Q : T → A → Prop) s l :
  (∀ s x, π (add s x) = addT (π s) x) → chain add (λ s x, Q (π s) x) s l ↔ chain addT Q (π s) l.
Proof.
  intros Hadd. revert s. induction l as [|x l IH]; intros s; cbn [chain]; [done|]. by rewrite IH, Hadd.
Qed.

(** Keys that come in groups: every group is fresh and has no duplicates. *)
Lemma chain_keys {S A} `{Countable K} (add : S → A → S) (π : S → gset K) (k : A → list K) s l :
  (∀ s x, π (add s x) = list_to_set (k x) ∪ π s) →
  Forall (λ x, NoDup (k x)) l ∧ chain add (λ s x, ∀ y, y ∈ k x → y ∉ π s) s l ↔
  NoDup (l ≫= k) ∧ ∀ y, y ∈ l ≫= k → y ∉ π s.
Proof.
  intros Hadd. revert s. induction l as [|x l IH]; intros s; cbn [chain mbind list_bind].
  - split; [|done]. intros _. split; [constructor|set_solver].
  - specialize (IH (add s x)). rewrite Hadd in IH. rewrite Forall_cons, NoDup_app. split.
    + intros ((Hx & HF) & Hfr & Hch). destruct (proj1 IH (conj HF Hch)) as [HN Hd]. set_solver.
    + intros ((Hx & Hdis & HN) & Hd). destruct (proj2 IH) as [HF Hch]; [split; [done|set_solver]|]. set_solver.
Qed.

Lemma fold_keys {S A} `{Countable K} (add : S → A → S) (π : S → gset K) (k : A → list K) s l :
  (∀ s x, π (add s x) = list_to_set (k x) ∪ π s) → π (fold_left add l s) = list_to_set (l ≫= k) ∪ π s.
Proof.
  intros Hadd. revert s. induction l as [|x l IH]; intros s; cbn [fold_left mbind list_bind]; [set_solver|].
  rewrite IH, Hadd, list_to_set_app_L. set_solver.
Qed.

Lemma fold_snoc {S A B} (add : S → A → S) (π : S → list B) (f : A → B) s l :
  (∀ s x, π (add s x) = π s ++ [f x]) → π (fold_left add l s) = π s ++ (f <$> l).
Proof.
  intros Hadd. revert s. induction l as [|x l IH]; intros s; cbn [fold_left fmap list_fmap]; [by rewrite app_nil_r|].
  by rewrite IH, Hadd, <- app_assoc.
Qed.

(** A loop that compares every element with those before it. *)
Lemma chain_pairs {A B} (f : A → B) (R : B → B → Prop) acc l :
  chain (λ s x, s ++ [f x]) (λ s x, Forall (λ y, R y (f x)) s) acc l ↔
  ForallOrdPairs (λ x y, R (f x) (f y)) l ∧ Forall (λ y, Forall (λ x, R y (f x)) l) acc.
Proof.
  revert acc. induction l as [|x l IH]; intros acc; cbn [chain].
  - split; [intros _; split; [constructor|apply Forall_true; constructor]|done].
  - rewrite IH, Forall_app, Forall_singleton.
    rewrite (Forall_iff (λ y, Forall (λ x, R y (f x)) (x :: l)) acc (λ y, R y (f x) ∧ Forall (λ x, R y (f x)) l))
      by (intros y; by rewrite Forall_cons).
    rewrite Forall_and. split.
    + intros (H1 & H2 & H3 & H4). split; [by constructor|done].
    + intros (Hp & H1 & H3). inv Hp. done.
Qed.

Lemma ForallOrdPairs_iff {A} (P : A → Prop) (R S : A → A → Prop) l :
  (∀ x y, P x → P y → R x y ↔ S x y) → Forall P l → ForallOrdPairs R l ↔ ForallOrdPairs S l.
Proof.
  intros H HF. induction HF as [|x l Hx HF IH]; [split; constructor|].
  assert (Hl : Forall (R x) l ↔ Forall (S x) l).
  { rewrite !Forall_forall. rewrite Forall_forall in HF. naive_solver. }
  split; intros Hp; inv Hp; constructor; naive_solver.
Qed.

(** The set of a list has at most as many elements as the list. *)
Lemma size_list_to_set_le `{Countable K} (l : list K) : (size (list_to_set l : gset K) ≤ length l)%nat.
Proof.
  induction l as [|x l IH]; cbn [list_to_set length]; [by rewrite size_empty|].
  rewrite size_union_alt, size_singleton.
  pose proof (subseteq_size (list_to_set l ∖ {[x]}) (list_to_set l : gset K) ltac:(set_solver)). lia.
Qed.

Lemma Forall2_fmap_eq {A B C} (f : A → C) (g : B → C) (R : A → B → Prop) l k :
  (∀ x y, R x y → f x = g y) → Forall2 R l k → f <$> l = g <$> k.
Proof. intros HR HF. induction HF; simpl; [done|]. f_equal; auto. Qed.

(** A scan that stops at the first bad element and remembers whether it met a
    hit is a pair of existence tests. *)
Lemma for_range_scan {E A} (body : bool → A → res E bool) (bad hit : A → bool) (e : E) i b l :
  (∀ b x, x ∈ l → body b x = if bad x then Err e else Ok (b || hit x)) →
  for_range (λ _, body) i b l = if existsb bad l then Err e else Ok (b || existsb hit l).
Proof.
  revert i b. induction l as [|x l IH]; intros i b Hb; simpl; [by rewrite orb_false_r|].
  rewrite Hb by set_solver. destruct (bad x); simpl; [done|].
  rewrite IH by (intros; apply Hb; set_solver). by rewrite orb_assoc.
Qed.

(** Loops that only check. *)
Lemma for_range_all {E A} (body : A → res E unit) i l : for_range (λ _ _, body) i tt l = Ok tt ↔ ∀ x, x ∈ l → body x = Ok tt.
Proof.
  revert i. induction l as [|x l IH]; intros i; [split; [set_solver|done]|]. rewrite for_range_cons_Ok. setoid_rewrite elem_of_cons. split.
  - intros ([] & Hx & Hl). rewrite IH in Hl. naive_solver.
  - intros H. exists tt. rewrite IH. naive_solver.
Qed.
Lemma check_Ok {E A} (bad : A → bool) (e : E) i l : for_range (λ _ _ x, if bad x then Err e else Ok tt) i tt l = Ok tt ↔ ∀ x, x ∈ l → bad x = false.
Proof. rewrite (for_range_all (λ x, if bad x then Err e else Ok tt)). setoid_rewrite refuse_Ok. naive_solver. Qed.

Lemma length_filter_impl {A} (P Q : A → Prop) `{∀ x, Decision (P x)} `{∀ x, Decision (Q x)} l :
  (∀ x, x ∈ l → P x → Q x) → (length (filter P l) ≤ length (filter Q l))%nat.
Proof.
  induction l as [|x l IH]; intros HPQ; [done|]. specialize (IH ltac:(set_solver)). rewrite !filter_cons.
  destruct (decide (P x)) as [Hx|], (decide (Q x)) as [|Hq]; cbn [length]; try lia. destruct Hq. apply HPQ; [set_solver|done].
Qed.
Lemma NoDup_fmap_filter {A B} (f : A → B) (P : A → Prop) `{∀ x, Decision (P x)} l : NoDup (f <$> l) → NoDup (f <$> filter P l).
Proof.
  intros HN. apply NoDup_fmap_2_strong; [|by eapply NoDup_filter, NoDup_fmap_1].
  intros x y [_ Hx]%list_elem_of_filter [_ Hy]%list_elem_of_filter. by apply (NoDup_fmap_inj f l).
Qed.

Lemma existsb_True {A} (P : A → bool) l : existsb P l = true ↔ ∃ x, x ∈ l ∧ P x = true.
Proof. rewrite existsb_exists. by setoid_rewrite list_elem_of_In. Qed.

Lemma existsb_False {A} (P : A → bool) l : existsb P l = false ↔ ∀ x, x ∈ l → P x = false.
Proof.
  rewrite <- not_true_iff_false, existsb_True. split.
  - intros H x Hx. apply not_true_is_false. intros HP. apply H. by exists x.
  - intros H (x & Hx & HP). rewrite H in HP; done.
Qed.

Lemma filter_ext_elem {A} (P Q : A → Prop) `{∀ x, Decision (P x)} `{∀ x, Decision (Q x)} (l : list A) :
  (∀ x, x ∈ l → P x ↔ Q x) → filter P l = filter Q l.
Proof.
  induction l as [|x l IH]; intros He; [done|]. rewrite !filter_cons. rewrite IH by (intros; apply He; by right).
  destruct (decide (P x)) as [HP|HP], (decide (Q x)) as [HQ|HQ]; try done; exfalso; pose proof (He x ltac:(left)); tauto.
Qed.
