(* ===== verification/Groups.v ===== *)
(** * Positions grouped by key, and the marking of repeated groups

    Several collectors number the things they see, group the numbers by an
    identifier and then mark every member of a group of two or more.  A container
    with addressable elements is an instance of [Positions]; lists and lists of
    lists are.  [mark_exact] says what the marking does, for any of them. *)

From S2P Require Import Prelude.

(** Elements that are read and changed at a position. *)
Class Positions (C Ix A : Type) := { pos_lookup : Ix → C → option A; pos_alter : (A → A) → Ix → C → C }.
Class PositionsSpec (C Ix A : Type) `{!Positions C Ix A} : Prop := {
  pos_alter_eq : ∀ f (i : Ix) (c : C), pos_lookup i (pos_alter f i c) = f <$> pos_lookup i c;
  pos_alter_ne : ∀ f (i j : Ix) (c : C), i ≠ j → pos_lookup j (pos_alter f i c) = pos_lookup j c }.

#[export] Instance list_positions {A} : Positions (list A) nat A := { pos_lookup i l := l !! i; pos_alter f i l := alter f i l }.
#[export] Instance list_positions_spec {A} : PositionsSpec (list A) nat A.
Proof. split; cbn; [intros; apply list_lookup_alter_eq|intros; by apply list_lookup_alter_ne]. Qed.
#[export] Instance nested_positions {A} : Positions (list (list A)) (nat * nat) A := {
  pos_lookup p ll := ll !! p.1 ≫= (.!! p.2); pos_alter f p ll := alter (alter f p.2) p.1 ll }.
#[export] Instance nested_positions_spec {A} : PositionsSpec (list (list A)) (nat * nat) A.
Proof.
  split; cbn.
  - intros f [i j] ll. cbn. rewrite list_lookup_alter_eq. destruct (ll !! i) as [l|]; [|done]. cbn. apply list_lookup_alter_eq.
  - intros f [i j] [i' j'] ll Hne. cbn. destruct (decide (i = i')) as [->|]; [|by rewrite list_lookup_alter_ne].
    rewrite list_lookup_alter_eq. destruct (ll !! i') as [l|]; [|done]. cbn. apply list_lookup_alter_ne. congruence.
Qed.

(** [for _, owners := range groups { if len(owners) < 2 { continue }; for ... }] *)
Definition mark_all {C Ix A} `{Positions C Ix A} (f : A → A) (l : list Ix) (c : C) : C := fold_left (λ c i, pos_alter f i c) l c.
Definition mark_groups {C Ix A K} `{Positions C Ix A} (f : A → A) (gs : list (K * list Ix)) (c : C) : C :=
  fold_left (λ c g, if (length g.2 <? 2)%nat then c else mark_all f g.2 c) gs c.
(** [groups[key] = append(groups[key], position)] *)
Definition append_to `{Countable K} {Ix} (m : gmap K (list Ix)) (k : K) (i : Ix) : gmap K (list Ix) := <[k := default [] (m !! k) ++ [i]]> m.

Section marks.
Context {C Ix A : Type} `{PositionsSpec C Ix A} `{EqDecision Ix}.
Context (f : A → A) (Hidem : ∀ a, f (f a) = f a).

Lemma mark_all_lookup (l : list Ix) (c : C) (i : Ix) :
  pos_lookup i (mark_all f l c) = (if decide (i ∈ l) then f <$> pos_lookup i c else pos_lookup i c).
Proof using All.
  unfold mark_all. revert c. induction l as [|j l IH]; intros c; cbn [fold_left]; [by rewrite decide_False by set_solver|].
  rewrite IH. destruct (decide (j = i)) as [->|Hne].
  - rewrite pos_alter_eq. rewrite (decide_True (P := i ∈ i :: l)) by set_solver. destruct (decide (i ∈ l)); [|done].
    destruct (pos_lookup i c); cbn; [by rewrite Hidem|done].
  - rewrite pos_alter_ne by done. destruct (decide (i ∈ l)); [by rewrite decide_True by set_solver|by rewrite decide_False by set_solver].
Qed.

Context {K : Type}.
Definition repeated (i : Ix) (g : K * list Ix) : Prop := (2 ≤ length g.2)%nat ∧ i ∈ g.2.
Lemma mark_groups_lookup (gs : list (K * list Ix)) (c : C) (i : Ix) :
  pos_lookup i (mark_groups f gs c) = (if decide (Exists (repeated i) gs) then f <$> pos_lookup i c else pos_lookup i c).
Proof using All.
  unfold mark_groups. revert c. induction gs as [|g gs IH]; intros c; cbn [fold_left]; [by rewrite decide_False by (intros E; by apply Exists_nil in E)|].
  rewrite IH. clear IH. destruct (Nat.ltb_spec (length g.2) 2) as [Hl|Hl].
  - destruct (decide (Exists (repeated i) gs)) as [He|He]; [by rewrite decide_True by (by right)|].
    rewrite decide_False; [done|]. intros [[? _]|?]%Exists_cons; [lia|done].
  - rewrite mark_all_lookup. destruct (decide (i ∈ g.2)) as [Hi|Hi].
    + rewrite (decide_True (P := Exists (repeated i) (g :: gs))) by (left; done). destruct (decide (Exists (repeated i) gs)); [|done].
      destruct (pos_lookup i c); cbn; [by rewrite Hidem|done].
    + destruct (decide (Exists (repeated i) gs)) as [He|He]; [by rewrite decide_True by (by right)|].
      rewrite decide_False; [done|]. intros [[_ ?]|?]%Exists_cons; done.
Qed.
End marks.

(** Marking every group with a mark of its own, when an element is in groups of
    one key only. *)
Section each.
Context {C Ix A K : Type} `{PositionsSpec C Ix A} `{EqDecision Ix} (f : K → A → A) (Hid : ∀ k a, f k (f k a) = f k a).
Lemma mark_each_lookup (gs : list (K * list Ix)) (c : C) (i : Ix) k : (∀ g, g ∈ gs → i ∈ g.2 → g.1 = k) →
  pos_lookup i (fold_left (λ c g, mark_all (f g.1) g.2 c) gs c) = (if decide (Exists (λ g, i ∈ g.2) gs) then f k <$> pos_lookup i c else pos_lookup i c).
Proof using All.
  revert c. induction gs as [|g gs IH]; intros c Hk; cbn [fold_left]; [by rewrite decide_False by (intros E; by apply Exists_nil in E)|].
  rewrite IH by (intros; apply Hk; set_solver). rewrite mark_all_lookup by apply Hid. destruct (decide (i ∈ g.2)) as [Hi|Hi].
  - rewrite (decide_True (P := Exists _ (g :: gs))) by (left; done). rewrite (Hk g) by (done || set_solver). destruct (decide (Exists _ gs)); [|done].
    destruct (pos_lookup i c); cbn; [by rewrite Hid|done].
  - destruct (decide (Exists _ gs)) as [He|He]; [by rewrite decide_True by (by right)|]. rewrite decide_False; [done|]. intros [?|?]%Exists_cons; done.
Qed.
End each.

Section groups.
Context {C Ix A : Type} `{Positions C Ix A} `{EqDecision Ix} `{Countable K} (key : A → option K).

(** The map lists, without repetition, the positions of every key. *)
Definition grouped (c : C) (m : gmap K (list Ix)) : Prop :=
  ∀ k, NoDup (default [] (m !! k)) ∧ ∀ p, p ∈ default [] (m !! k) ↔ ∃ a, pos_lookup p c = Some a ∧ key a = Some k.
(** an element shares its key with another one *)
Definition shared (c : C) (i : Ix) : Prop :=
  ∃ j a b k, i ≠ j ∧ pos_lookup i c = Some a ∧ pos_lookup j c = Some b ∧ key a = Some k ∧ key b = Some k.
Lemma shared_repeated c m i : grouped c m → Exists (repeated i) (map_to_list m) ↔ shared c i.
Proof.
  intros Hg. rewrite Exists_exists. split.
  - intros ([k l] & Hin & Hlen & Hil). apply elem_of_map_to_list in Hin. cbn in Hlen, Hil. destruct (Hg k) as [HN He].
    rewrite Hin in HN, He. cbn in HN, He. destruct (proj1 (He i) Hil) as (a & Ha & Hk).
    assert (Hj : ∃ j, j ∈ l ∧ i ≠ j).
    { destruct l as [|x [|y l]]; simpl in Hlen; [lia|lia|]. apply NoDup_cons in HN as [Hx _].
      destruct (decide (i = x)) as [->|]; [exists y; set_solver|exists x; set_solver]. }
    destruct Hj as (j & Hj & Hne). destruct (proj1 (He j) Hj) as (b & Hb & Hk'). exists j, a, b, k. done.
  - intros (j & a & b & k & Hne & Ha & Hb & Hk & Hk'). destruct (Hg k) as [HN He].
    assert (H1 : i ∈ default [] (m !! k)) by (apply He; eauto). assert (H2 : j ∈ default [] (m !! k)) by (apply He; eauto).
    destruct (m !! k) as [l|] eqn:Hm; cbn in H1, H2; [|by apply not_elem_of_nil in H1]. exists (k, l). rewrite elem_of_map_to_list. split; [done|].
    split; cbn; [|done]. destruct l as [|x [|y l]]; [by apply not_elem_of_nil in H1| |cbn; lia].
    apply list_elem_of_singleton in H1 as ->. apply list_elem_of_singleton in H2 as ->. done.
Qed.
Lemma grouped_decide c m i : grouped c m → Decision (shared c i).
Proof. intros Hg. destruct (decide (Exists (repeated i) (map_to_list m))) as [E|E];
  [left; by apply (shared_repeated c m i Hg)|right; intros Hs; apply E; by apply (shared_repeated c m i Hg)]. Qed.
(** The groups of a container whose elements changed, without their keys. *)
Lemma grouped_same c c' m : (∀ p, (λ a, key a) <$> pos_lookup p c = (λ a, key a) <$> pos_lookup p c') → grouped c m → grouped c' m.
Proof.
  intros Hc Hg k. destruct (Hg k) as [HN He]. split; [done|]. intros p. rewrite He. specialize (Hc p).
  destruct (pos_lookup p c) as [a|], (pos_lookup p c') as [b|]; try done. injection Hc as Hc.
  split; intros (x & [= <-] & Hk); eexists; (split; [reflexivity|congruence]).
Qed.
Lemma shared_same c c' i : (∀ p, (λ a, key a) <$> pos_lookup p c = (λ a, key a) <$> pos_lookup p c') → shared c i → shared c' i.
Proof.
  intros Hc (j & a & b & k & Hne & Ha & Hb & Hka & Hkb). pose proof (Hc i) as Hi. pose proof (Hc j) as Hj. rewrite Ha in Hi. rewrite Hb in Hj.
  destruct (pos_lookup i c') as [a'|] eqn:Ea; [|done]. destruct (pos_lookup j c') as [b'|] eqn:Eb; [|done]. injection Hi as Hi. injection Hj as Hj.
  exists j, a', b', k. split_and!; congruence.
Qed.
Lemma grouped_add c c' m p a : pos_lookup p c = None → pos_lookup p c' = Some a → (∀ q, q ≠ p → pos_lookup q c' = pos_lookup q c) → grouped c m →
  grouped c' (match key a with Some k => append_to m k p | None => m end).
Proof.
  intros Hn Ha Hq Hg k. destruct (Hg k) as [HN He].
  assert (Hp : p ∉ default [] (m !! k)) by (rewrite He; intros (x & Hx & _); congruence).
  assert (Hsame : ∀ q, q ≠ p → q ∈ default [] (m !! k) ↔ ∃ a, pos_lookup q c' = Some a ∧ key a = Some k) by (intros q Hne; rewrite He, Hq by done; done).
  destruct (key a) as [k'|] eqn:Hk.
  - unfold append_to. destruct (decide (k' = k)) as [->|Hne].
    + rewrite lookup_insert_eq. cbn. split; [apply NoDup_app; split_and!; [done|set_solver|apply NoDup_singleton]|].
      intros q. rewrite elem_of_app, list_elem_of_singleton. destruct (decide (q = p)) as [->|Hqp]; [|rewrite Hsame by done; tauto]. naive_solver.
    + rewrite lookup_insert_ne by done. split; [done|]. intros q. destruct (decide (q = p)) as [->|Hqp]; [|by apply Hsame]. naive_solver.
  - split; [done|]. intros q. destruct (decide (q = p)) as [->|Hqp]; [|by apply Hsame]. naive_solver.
Qed.
End groups.

Section mark_exact.
Context {C C' Ix A A' : Type} `{Positions C' Ix A'} `{PositionsSpec C Ix A} `{EqDecision Ix} `{Countable K} (key : A' → option K) (f : A → A).
(** With the groups of [c'], the elements of [c] whose position shares its key
    are marked, and nothing else changes. *)
Lemma mark_exact (c' : C') (c : C) (m : gmap K (list Ix)) i a' : (∀ a, f (f a) = f a) → grouped key c' m →
  pos_lookup i (mark_groups f (map_to_list m) c) = Some a' →
  ∃ a, pos_lookup i c = Some a ∧ (shared key c' i → a' = f a) ∧ (¬ shared key c' i → a' = a).
Proof.
  intros Hid Hg. rewrite (mark_groups_lookup f Hid). pose proof (shared_repeated key c' m i Hg) as Hs. destruct (decide _) as [E|E].
  - intros (a & Ha & ->)%fmap_Some. exists a. split_and!; [done|done|]. intros Hn. exfalso. tauto.
  - intros Ha. exists a'. split_and!; [done| |done]. tauto.
Qed.
End mark_exact.
(** lists keep their length *)
Lemma length_mark_all {A} (f : A → A) (js : list nat) (l : list A) : length (mark_all f js l) = length l.
Proof. unfold mark_all. revert l. induction js as [|j js IH]; intros l; cbn [fold_left]; [done|]. rewrite IH. apply length_alter. Qed.
Lemma length_mark_groups {A K} (f : A → A) (gs : list (K * list nat)) (l : list A) : length (mark_groups f gs l) = length l.
Proof. unfold mark_groups. revert l. induction gs as [|g gs IH]; intros l; cbn [fold_left]; [done|]. rewrite IH. case_match; [done|apply length_mark_all]. Qed.
Lemma length_mark_each {A K} (f : K → A → A) (gs : list (K * list nat)) (l : list A) :
  length (fold_left (λ l g, mark_all (f g.1) g.2 l) gs l) = length l.
Proof. revert l. induction gs as [|g gs IH]; intros l; cbn [fold_left]; [done|]. rewrite IH. apply length_mark_all. Qed.
Lemma grouped_nil {A Ix K} `{Countable K} `{EqDecision Ix} `{Positions C Ix A} (key : A → option K) (c : C) :
  (∀ p, pos_lookup p c = None) → grouped key c ∅.
Proof. intros Hc k. rewrite lookup_empty. cbn. split; [constructor|]. intros p. rewrite Hc. set_solver. Qed.
Lemma grouped_snoc {A K} `{Countable K} (key : A → option K) (l : list A) m a : grouped key l m →
  grouped key (l ++ [a]) (match key a with Some k => append_to m k (length l) | None => m end).
Proof.
  apply grouped_add; cbn; [by apply lookup_ge_None|by rewrite lookup_app_r, Nat.sub_diag by lia|].
  intros q Hq. destruct (decide (q < length l)%nat) as [Hl|Hl]; [by rewrite lookup_app_l|].
  rewrite !lookup_ge_None_2; [done|lia|]. rewrite length_app. simpl. lia.
Qed.
