(* ===== verification/GoStrings.v ===== *)
(** * Go strings: bytes, UTF-8 decoding and the [strings] functions in use

    A Go string is an immutable byte sequence: the model keeps it as Rocq's
    [string] (eight-bit [ascii] characters).  [range_string] is the semantics of
    [for i, r := range s]; the other functions are the parts of packages
    [strings], [unicode/utf8], [io/fs] and [strconv] that the validators call. *)

From S2P Require Import Prelude.

(** ** Bytes of a string *)
Definition code (c : ascii) : Z := Z.of_N (N_of_ascii c).
Definition codes (s : string) : list Z := code <$> String.list_ascii_of_string s.
Definition slength (s : string) : Z := Z.of_nat (String.length s).
(** [s[i]], for an index the caller has already bounded *)
Definition byte_at (s : string) (i : nat) : Z := default 0 (codes s !! i).

(** ** Character classes *)
Definition is_lower (c : Z) : bool := (97 <=? c) && (c <=? 122).
Definition is_upper (c : Z) : bool := (65 <=? c) && (c <=? 90).
Definition is_digit (c : Z) : bool := (48 <=? c) && (c <=? 57).
Definition is_lower_hex (c : Z) : bool := is_digit c || ((97 <=? c) && (c <=? 102)).
(** membership of a rune in a literal: [strings.ContainsRune(lit, r)] *)
Definition in_set (c : Z) (lit : string) : bool := c ∈? codes lit.

(** ** UTF-8, as [utf8.DecodeRune] *)
Definition RuneError : Z := 65533.
Definition continuation (b : Z) : bool := (128 <=? b) && (b <=? 191).

(** The admissible second byte depends on the first: it excludes overlong
    forms, surrogates and values above U+10FFFF. *)
Definition second_ok (b0 b1 : Z) : bool :=
  if b0 =? 224 then (160 <=? b1) && (b1 <=? 191)
  else if b0 =? 237 then (128 <=? b1) && (b1 <=? 159)
  else if b0 =? 240 then (144 <=? b1) && (b1 <=? 191)
  else if b0 =? 244 then (128 <=? b1) && (b1 <=? 143)
  else continuation b1.

(** Returns the rune and the number of bytes; [(RuneError, 1)] on an invalid
    encoding and [(RuneError, 0)] on empty input. *)
Definition decode_rune (bs : list Z) : Z * nat :=
  match bs with
  | [] => (RuneError, 0%nat)
  | b0 :: t =>
    if b0 <? 128 then (b0, 1%nat)
    else if (194 <=? b0) && (b0 <=? 223) then
      match t with
      | b1 :: _ => if continuation b1 then (Z.land b0 31 * 64 + Z.land b1 63, 2%nat)
                   else (RuneError, 1%nat)
      | _ => (RuneError, 1%nat)
      end
    else if (224 <=? b0) && (b0 <=? 239) then
      match t with
      | b1 :: b2 :: _ =>
        if second_ok b0 b1 && continuation b2
        then (Z.land b0 15 * 4096 + Z.land b1 63 * 64 + Z.land b2 63, 3%nat)
        else (RuneError, 1%nat)
      | _ => (RuneError, 1%nat)
      end
    else if (240 <=? b0) && (b0 <=? 244) then
      match t with
      | b1 :: b2 :: b3 :: _ =>
        if second_ok b0 b1 && continuation b2 && continuation b3
        then (Z.land b0 7 * 262144 + Z.land b1 63 * 4096 + Z.land b2 63 * 64 + Z.land b3 63, 4%nat)
        else (RuneError, 1%nat)
      | _ => (RuneError, 1%nat)
      end
    else (RuneError, 1%nat)
  end.

(** One entry per rune: byte index, rune, encoded size. *)
Fixpoint range_from (skip : nat) (i : Z) (bs : list Z) : list (Z * Z * nat) :=
  match bs with
  | [] => []
  | _ :: t =>
    match skip with
    | S k => range_from k (i + 1) t
    | O => let '(r, n) := decode_rune bs in (i, r, n) :: range_from (pred n) (i + 1) t
    end
  end.
Definition range_string (s : string) : list (Z * Z * nat) := range_from 0 0 (codes s).
Definition runes (s : string) : list Z := (λ e, e.1.2) <$> range_string s.

Definition invalid_rune (e : Z * Z * nat) : bool := (e.1.2 =? RuneError) && (e.2 =? 1)%nat.
(** [utf8.ValidString] and [utf8.RuneCountInString] *)
Definition utf8_valid (s : string) : bool := forallb (λ e, negb (invalid_rune e)) (range_string s).
Definition rune_count (s : string) : Z := len (range_string s).

(** ** Package [strings] on ASCII data *)
Definition lower_ascii (c : ascii) : ascii :=
  if is_upper (code c) then ascii_of_N (N_of_ascii c + 32) else c.
Fixpoint smap (f : ascii → ascii) (s : string) : string :=
  match s with EmptyString => EmptyString | String c s' => String (f c) (smap f s') end.
(** [strings.ToLower], for the inputs whose non-ASCII forms the callers refuse *)
Definition to_lower (s : string) : string := smap lower_ascii s.

(** [strings.Split(s, sep)] for a one-byte separator *)
Fixpoint split_on (sep : ascii) (s : string) : list string :=
  match s with
  | EmptyString => [EmptyString]
  | String c s' =>
    if c == sep then EmptyString :: split_on sep s'
    else match split_on sep s' with
         | w :: ws => String c w :: ws
         | [] => [String c EmptyString]
         end
  end.
(** [strings.Join] for a one-byte separator *)
Fixpoint join_with (sep : ascii) (l : list string) : string :=
  match l with
  | [] => EmptyString
  | [w] => w
  | w :: l' => String.append w (String sep (join_with sep l'))
  end.

(** [strings.Cut(s, sep)] for a one-byte separator *)
Fixpoint cut (sep : ascii) (s : string) : string * string * bool :=
  match s with
  | EmptyString => (EmptyString, EmptyString, false)
  | String c s' =>
    if c == sep then (EmptyString, s', true)
    else let '(a, b, f) := cut sep s' in (String c a, b, f)
  end.

Definition has_prefix (p s : string) : bool := String.prefix p s.
Fixpoint last_code (l : list Z) : option Z :=
  match l with [] => None | [x] => Some x | _ :: l' => last_code l' end.
(** [strings.HasSuffix(s, c)] for a one-byte suffix *)
Definition ends_with (c : Z) (s : string) : bool := last_code (codes s) == Some c.

(** the white space [strings.TrimSpace] removes inside ASCII *)
Definition is_space (c : Z) : bool := ((9 <=? c) && (c <=? 13)) || (c =? 32).
(** [strings.TrimSpace(s) == s] *)
Definition trimmed (s : string) : bool :=
  match codes s with
  | [] => true
  | c :: _ => negb (is_space c) && negb (default false (is_space <$> last_code (codes s)))
  end.

(** [strings.TrimSpace] inside ASCII *)
Fixpoint trim_left (s : string) : string :=
  match s with
  | EmptyString => EmptyString
  | String c s' => if is_space (code c) then trim_left s' else s
  end.
Fixpoint trim_right (s : string) : string :=
  match s with
  | EmptyString => EmptyString
  | String c s' => match trim_right s' with
                   | EmptyString => if is_space (code c) then EmptyString else String c EmptyString
                   | t => String c t
                   end
  end.
Definition trim_space (s : string) : string := trim_right (trim_left s).

(** ** Unicode white space

    The runes of a string with their bytes; an encoding never extends into the
    first byte of another, so trimming from the right may use the same cut. *)
Definition segments (s : string) : list (Z * string) :=
  (λ e, (e.1.2, String.substring (Z.to_nat e.1.1) e.2 s)) <$> range_string s.
(** [unicode.IsSpace] *)
Definition IsSpace (r : Z) : bool :=
  is_space r || (r =? 133) || (r =? 160) || (r =? 5760) || ((8192 <=? r) && (r <=? 8202)) || (r =? 8232) || (r =? 8233)
  || (r =? 8239) || (r =? 8287) || (r =? 12288).
Fixpoint concat_bytes (l : list (Z * string)) : string :=
  match l with [] => EmptyString | e :: l' => String.append e.2 (concat_bytes l') end.
Fixpoint drop_spaces (l : list (Z * string)) : list (Z * string) :=
  match l with [] => [] | e :: l' => if IsSpace e.1 then drop_spaces l' else l end.
(** [strings.TrimSpace] *)
Definition TrimSpace (s : string) : string :=
  concat_bytes (reverse (drop_spaces (reverse (drop_spaces (segments s))))).
(** [strings.Fields] *)
Fixpoint fields_from (word : string) (l : list (Z * string)) : list string :=
  match l with
  | [] => if word == EmptyString then [] else [word]
  | e :: l' =>
    if IsSpace e.1 then (if word == EmptyString then [] else [word]) ++ fields_from EmptyString l'
    else fields_from (String.append word e.2) l'
  end.
Definition Fields (s : string) : list string := fields_from EmptyString (segments s).

(** the first [n] bytes *)
Fixpoint stake (n : Z) (s : string) : string :=
  match s with
  | EmptyString => EmptyString
  | String c s' => if n <=? 0 then EmptyString else String c (stake (n - 1) s')
  end.

(** [strings.ContainsAny(s, lit)] for an ASCII literal *)
Definition contains_any (s lit : string) : bool := existsb (λ c, in_set c lit) (runes s).

(** ** [io.ReadAll(io.LimitReader(input, n))]

    A reader delivers some bytes and then end of file or an error. *)
Record reader := mkReader { rd_data : string; rd_fails : bool }.
Definition limit_read (n : Z) (r : reader) : option string :=
  if n <=? slength (rd_data r) then Some (stake n (rd_data r))
  else if rd_fails r then None else Some (rd_data r).

(** ** [io/fs.ValidPath] *)
Definition path_element (w : string) : bool :=
  (w != "") && (w != ".") && (w != "..").
Definition ValidPath (s : string) : bool :=
  if negb (utf8_valid s) then false
  else if s == "." then true
  else forallb path_element (split_on "/" s).

(** ** Decimal numbers, as [strconv.ParseUint(s, 10, w)] on digit strings *)
Definition digits_value (l : list Z) : Z := fold_left (λ acc d, acc * 10 + (d - 48)) l 0.
Definition ParseUint (w : Z) (s : string) : option Z :=
  if s == EmptyString then None
  else if forallb is_digit (codes s) then
    let n := digits_value (codes s) in
    if n <? 2 ^ w then Some n else None
  else None.
(** [strconv.ParseInt(s, 10, w)] *)
Definition ParseInt (w : Z) (s : string) : option Z :=
  match s with
  | EmptyString => None
  | String c rest =>
    let neg := code c =? 45 in
    n ← ParseUint w (if neg || (code c =? 43) then rest else s);
    if neg then (if n <=? 2 ^ (w - 1) then Some (- n) else None)
    else if n <? 2 ^ (w - 1) then Some n else None
  end.
(** [strconv.FormatUint(n, 10)] *)
Fixpoint format_digits (fuel : nat) (n : Z) (acc : string) : string :=
  match fuel with
  | O => acc
  | S f => let acc' := String (ascii_of_N (Z.to_N (48 + n mod 10))) acc in
           if n <? 10 then acc' else format_digits f (n / 10) acc'
  end.
Definition FormatUint (n : Z) : string := format_digits 20 n EmptyString.

Definition hex_nibble (n : Z) : ascii := ascii_of_N (Z.to_N (if n <? 10 then 48 + n else 87 + n)).
(** [hex.EncodeToString] *)
Definition hex_encode (bs : list Z) : string :=
  foldr (λ b s, String (hex_nibble (b / 16)) (String (hex_nibble (b mod 16)) s)) EmptyString bs.
(** [hex.DecodeString] *)
Definition hex_value (c : ascii) : option Z :=
  let n := code c in
  if is_digit n then Some (n - 48)
  else if (97 <=? n) && (n <=? 102) then Some (n - 87)
  else if (65 <=? n) && (n <=? 70) then Some (n - 55)
  else None.
Fixpoint hex_decode (s : string) : option (list Z) :=
  match s with
  | EmptyString => Some []
  | String a (String b s') =>
    match hex_value a, hex_value b, hex_decode s' with
    | Some h, Some l, Some bs => Some (h * 16 + l :: bs)
    | _, _, _ => None
    end
  | String _ EmptyString => None
  end.

(** ** Lemmas *)

(** Every encoding of two bytes or more decodes to a rune above ASCII, and so
    does an invalid byte. *)
Lemma decode_rune_high b0 t : 128 ≤ b0 → 128 ≤ (decode_rune (b0 :: t)).1.
Proof.
  intros Hb. unfold decode_rune, second_ok, continuation, RuneError.
  assert (Hl : ∀ x n, 0 ≤ n → Z.land x (2 ^ n - 1) = x mod 2 ^ n)
    by (intros; rewrite <- Z.land_ones, Z.ones_equiv by lia; f_equal; lia).
  pose proof (λ x, Hl x 6 ltac:(lia)) as H63. pose proof (λ x, Hl x 5 ltac:(lia)) as H31.
  pose proof (λ x, Hl x 4 ltac:(lia)) as H15. pose proof (λ x, Hl x 3 ltac:(lia)) as H7.
  simpl in H63, H31, H15, H7. clear Hl.
  repeat case_match; simpl; go_bool; rewrite ?H63, ?H31, ?H15, ?H7; try lia;
    Z.div_mod_to_equations; lia.
Qed.

(** For a test that refuses every rune above ASCII, ranging over runes and
    ranging over bytes agree.  Every syntax predicate of the validators is of
    this kind. *)
Lemma forallb_runes (P : Z → bool) (s : string) :
  (∀ r, 128 ≤ r → P r = false) → forallb P (runes s) = forallb P (codes s).
Proof.
  intros HP. unfold runes, range_string. generalize 0 at 1 as i.
  induction (codes s) as [|b0 t IH]; intros i; [done|].
  destruct (decide (b0 < 128)) as [Hb|Hb].
  - simpl. rewrite (proj2 (Z.ltb_lt b0 128)) by lia. simpl. by rewrite IH.
  - pose proof (decode_rune_high b0 t ltac:(lia)) as Hr. cbn [range_from].
    destruct (decode_rune (b0 :: t)) as [r n].
    cbn [fmap list_fmap forallb fst snd] in *. rewrite (HP r), (HP b0) by lia. done.
Qed.

Lemma codes_String c s : codes (String c s) = code c :: codes s.
Proof. done. Qed.

Lemma code_range c : 0 ≤ code c < 256.
Proof.
  unfold code. pose proof (N_ascii_bounded c) as H.
  split; [lia|]. apply (N2Z.inj_lt _ 256). done.
Qed.

Lemma code_inj c d : code c = code d → c = d.
Proof.
  unfold code. intros H%N2Z.inj. rewrite <- (ascii_N_embedding c), <- (ascii_N_embedding d).
  by rewrite H.
Qed.

Lemma length_codes s : length (codes s) = String.length s.
Proof. unfold codes. rewrite length_fmap. induction s; simpl; congruence. Qed.

Lemma codes_inj s1 s2 : codes s1 = codes s2 → s1 = s2.
Proof.
  revert s2. induction s1 as [|c s1 IH]; intros [|d s2]; try done.
  rewrite !codes_String. intros [= Hc%code_inj Hs]. subst. f_equal. auto.
Qed.

Lemma append_String c s t : String.append (String c s) t = String c (String.append s t).
Proof. done. Qed.

Lemma append_Empty t : String.append "" t = t.
Proof. done. Qed.

(** [Split] and [Join] are inverse. *)
Lemma join_split sep s : join_with sep (split_on sep s) = s.
Proof.
  induction s as [|c s IH]; [done|]. simpl. case_bool_decide as Hc.
  - subst. simpl. destruct (split_on sep s) eqn:Hs; [|by rewrite IH].
    destruct s; simpl in Hs; repeat case_match; discriminate.
  - revert IH. destruct (split_on sep s) as [|w ws] eqn:Hs; intros IH.
    + destruct s; simpl in Hs; repeat case_match; discriminate.
    + destruct ws; cbn in IH |- *; [congruence|]. rewrite append_String. congruence.
Qed.

Lemma split_on_cons sep s : ∃ w ws, split_on sep s = w :: ws.
Proof. destruct s; simpl; repeat case_match; eauto. Qed.

Definition no_sep (sep : ascii) (w : string) : Prop := code sep ∉ codes w.

(** The words of a split contain no separator. *)
Lemma split_on_no_sep sep s : Forall (no_sep sep) (split_on sep s).
Proof.
  unfold no_sep. induction s as [|c s IH]; simpl.
  - constructor; [set_solver|done].
  - case_bool_decide as Hc.
    + constructor; [set_solver|done].
    + destruct (split_on sep s) as [|w ws]; inv IH; constructor;
        try done; rewrite codes_String, elem_of_cons; intros [Hx%code_inj|Hx]; naive_solver set_solver.
Qed.

Lemma split_join sep ws :
  ws ≠ [] → Forall (no_sep sep) ws → split_on sep (join_with sep ws) = ws.
Proof.
  assert (Hword : ∀ w rest, no_sep sep w →
    split_on sep (String.append w rest) =
    match split_on sep rest with v :: vs => String.append w v :: vs | [] => [w] end).
  { unfold no_sep. induction w as [|c w IH]; intros rest Hw; rewrite ?append_String, ?append_Empty.
    - destruct (split_on_cons sep rest) as (v & vs & ->). done.
    - rewrite codes_String in Hw. cbn [split_on]. rewrite bool_decide_eq_false_2 by set_solver.
      rewrite IH by set_solver. destruct (split_on_cons sep rest) as (v & vs & ->). done. }
  assert (Hnil : ∀ w, String.append w "" = w) by (induction w as [|? ? IHw]; [done|]; by rewrite append_String, IHw).
  intros Hne HF. induction HF as [|w ws Hw HF IH]; [done|]. destruct ws as [|w' ws].
  - simpl. rewrite <- (Hnil w) at 1. rewrite Hword by done. simpl. by rewrite Hnil.
  - change (join_with sep (w :: w' :: ws))
      with (String.append w (String sep (join_with sep (w' :: ws)))).
    rewrite Hword by done. cbn [split_on].
    rewrite bool_decide_eq_true_2 by done. rewrite Hnil, IH by done. done.
Qed.

(** [FormatUint] prints digits that [ParseUint] reads back. *)
Lemma format_digits_codes fuel n acc :
  0 ≤ n → forallb is_digit (codes acc) = true →
  forallb is_digit (codes (format_digits fuel n acc)) = true.
Proof.
  revert n acc. induction fuel as [|f IH]; intros n acc Hn Hacc; [done|]. simpl.
  assert (Hd : forallb is_digit
    (codes (String (ascii_of_N (Z.to_N (48 + n mod 10))) acc)) = true).
  { rewrite codes_String. simpl. rewrite Hacc, andb_true_r.
    pose proof (Z.mod_pos_bound n 10 ltac:(lia)). unfold code.
    rewrite N_ascii_embedding by lia. rewrite Z2N.id by lia.
    unfold is_digit. lia. }
  case_match; [done|]. apply IH; [|done]. apply Z.div_pos; lia.
Qed.

Lemma digits_value_cons d l : digits_value (d :: l) = (d - 48) * 10 ^ len l + digits_value l.
Proof.
  unfold digits_value, len. simpl.
  assert (H : ∀ l a, fold_left (λ acc x, acc * 10 + (x - 48)) l a =
    a * 10 ^ Z.of_nat (length l) + fold_left (λ acc x, acc * 10 + (x - 48)) l 0).
  { clear. induction l as [|x l IH]; intros a; simpl length; cbn [fold_left].
    - rewrite Z.pow_0_r. lia.
    - rewrite IH, (IH (0 * 10 + (x - 48))). rewrite Nat2Z.inj_succ, Z.pow_succ_r by lia. nia. }
  rewrite H. simpl. lia.
Qed.

Lemma slength_nonneg s : 0 ≤ slength s.
Proof. unfold slength. lia. Qed.

Lemma slength_String c s : slength (String c s) = slength s + 1.
Proof. unfold slength. simpl. lia. Qed.

Lemma slength_stake n s : 0 ≤ n → slength (stake n s) = Z.min n (slength s).
Proof.
  revert n. induction s as [|c s IH]; intros n Hn.
  - simpl. unfold slength. simpl. lia.
  - pose proof (slength_nonneg s). cbn [stake]. destruct (Z.leb_spec n 0).
    + rewrite slength_String. unfold slength at 1. simpl. lia.
    + rewrite !slength_String, IH by lia. lia.
Qed.

Lemma digits_value_bounds l : forallb is_digit l = true → 0 ≤ digits_value l < 10 ^ len l.
Proof.
  induction l as [|d l IH]; intros H; [done|]. simpl in H. go_bool. destruct H as [Hd Hl].
  specialize (IH Hl). rewrite digits_value_cons. unfold is_digit in Hd. go_bool.
  unfold len in *. simpl length. rewrite Nat2Z.inj_succ, Z.pow_succ_r by lia. nia.
Qed.

(** ASCII data decodes byte by byte. *)
Lemma range_from_ascii bs i :
  Forall (λ b, b < 128) bs →
  (λ e, e.1.2) <$> range_from 0 i bs = bs ∧ Forall (λ e, e.1.2 < 128) (range_from 0 i bs).
Proof.
  intros HF. revert i. induction HF as [|b bs Hb HF IH]; intros i; [done|]. cbn [range_from].
  unfold decode_rune. rewrite (proj2 (Z.ltb_lt b 128)) by lia. cbn [pred].
  destruct (IH (i + 1)) as [He HF']. split; [rewrite fmap_cons; by rewrite He|by constructor].
Qed.

Lemma runes_ascii s : Forall (λ b, b < 128) (codes s) → runes s = codes s.
Proof. intros H. apply range_from_ascii, H. Qed.

Lemma utf8_valid_ascii s : Forall (λ b, b < 128) (codes s) → utf8_valid s = true.
Proof.
  intros H. unfold utf8_valid. apply forallb_forall. intros e He%list_elem_of_In.
  destruct (range_from_ascii (codes s) 0 H) as [_ HF]. rewrite Forall_forall in HF.
  specialize (HF e He). unfold invalid_rune, RuneError. go_bool. lia.
Qed.

Lemma stake_all n s : slength s ≤ n → stake n s = s.
Proof.
  revert n. induction s as [|c s IH]; intros n Hn; [done|]. rewrite slength_String in Hn.
  pose proof (slength_nonneg s). cbn [stake]. destruct (Z.leb_spec n 0); [lia|]. by rewrite IH by lia.
Qed.

Lemma format_digits_value fuel n acc :
  0 ≤ n < 10 ^ Z.of_nat fuel →
  digits_value (codes (format_digits fuel n acc)) = n * 10 ^ len (codes acc) + digits_value (codes acc).
Proof.
  revert n acc. induction fuel as [|f IH]; intros n acc Hn.
  - assert (n = 0) as -> by (simpl in Hn; lia). done.
  - cbn [format_digits]. set (c := ascii_of_N _).
    assert (Hc : code c = 48 + n mod 10).
    { unfold c, code. pose proof (Z.mod_pos_bound n 10 ltac:(lia)).
      rewrite N_ascii_embedding by lia. lia. }
    assert (Hp : 10 ^ len (codes (String c acc)) = 10 * 10 ^ len (codes acc)).
    { unfold len. rewrite codes_String. simpl length. by rewrite Nat2Z.inj_succ, Z.pow_succ_r by lia. }
    assert (Hv : digits_value (codes (String c acc)) =
                 n mod 10 * 10 ^ len (codes acc) + digits_value (codes acc))
      by (rewrite codes_String, digits_value_cons, Hc; lia).
    destruct (Z.ltb_spec n 10).
    + rewrite Hv, Z.mod_small by lia. done.
    + rewrite IH, Hv, Hp.
      * pose proof (Z.div_mod n 10 ltac:(lia)). nia.
      * rewrite Nat2Z.inj_succ, Z.pow_succ_r in Hn by lia.
        split; [apply Z.div_pos; lia|]. apply Z.div_lt_upper_bound; lia.
Qed.

(** Printing and reading back a number of at most 64 bits. *)
Lemma ParseUint_FormatUint w n :
  0 ≤ n < 2 ^ w → n < 2 ^ 64 → ParseUint w (FormatUint n) = Some n.
Proof.
  intros Hn Hn64. unfold ParseUint, FormatUint.
  assert (Hd := format_digits_codes 20 n EmptyString ltac:(lia) eq_refl).
  assert (Hv := format_digits_value 20 n EmptyString ltac:(simpl; lia)).
  destruct (format_digits 20 n EmptyString) as [|c t] eqn:Hf.
  - exfalso. revert Hf. generalize 19%nat as fuel. clear. intros fuel. cbn [format_digits].
    case_match; [done|]. revert n H. generalize EmptyString at 1 as a. intros a n _.
    revert n a. induction fuel as [|f IH]; intros n a; [done|]. cbn [format_digits].
    case_match; [done|]. apply IH.
  - rewrite bool_decide_eq_false_2 by done. rewrite Hd, Hv.
    replace (n * 10 ^ len (codes EmptyString) + digits_value (codes EmptyString)) with n
      by (change (10 ^ len (codes EmptyString)) with 1; change (digits_value (codes EmptyString)) with 0; lia).
    rewrite (proj2 (Z.ltb_lt n (2 ^ w))) by lia. done.
Qed.

Lemma ParseUint_bounds w s n : ParseUint w s = Some n → 0 ≤ n < 2 ^ w.
Proof.
  unfold ParseUint. destruct (s == ""); [done|].
  destruct (forallb is_digit (codes s)) eqn:Hd; [|done].
  pose proof (digits_value_bounds _ Hd). destruct (Z.ltb_spec (digits_value (codes s)) (2 ^ w)); [|done].
  intros [= <-]. lia.
Qed.

(** A printed number contains no separator that is not a digit. *)
Lemma FormatUint_no_sep sep n : 0 ≤ n → is_digit (code sep) = false → no_sep sep (FormatUint n).
Proof.
  intros Hn Hs Hin. pose proof (format_digits_codes 20 n EmptyString Hn eq_refl) as Hd.
  rewrite forallb_forall in Hd. apply list_elem_of_In, Hd in Hin. congruence.
Qed.

Lemma codes_append a b : codes (String.append a b) = codes a ++ codes b.
Proof.
  induction a as [|c a IH]; [done|]. by rewrite append_String, !codes_String, IH.
Qed.

Lemma slength_append a b : slength (String.append a b) = slength a + slength b.
Proof. unfold slength. rewrite <- !length_codes, codes_append, length_app. lia. Qed.

Lemma slength_format_digits fuel n acc : slength (format_digits fuel n acc) ≤ Z.of_nat fuel + slength acc.
Proof.
  revert n acc. induction fuel as [|f IH]; intros n acc; cbn [format_digits]; [lia|].
  case_match; [rewrite slength_String; lia|].
  pose proof (IH (n / 10) (String (ascii_of_N (Z.to_N (48 + n mod 10))) acc)) as H'.
  rewrite slength_String in H'. lia.
Qed.

(** ** Strings over an alphabet *)
Definition all_chars (P : Z → bool) (s : string) : Prop := forallb P (codes s) = true.

Section all_chars.
Context (P : Z → bool).
Lemma all_chars_String c s : all_chars P (String c s) ↔ P (code c) = true ∧ all_chars P s.
Proof. unfold all_chars. rewrite codes_String. cbn [forallb]. by rewrite andb_true_iff. Qed.
Lemma all_chars_app a b : all_chars P a → all_chars P b → all_chars P (String.append a b).
Proof. unfold all_chars. intros Ha Hb. by rewrite codes_append, forallb_app, Ha, Hb. Qed.
Lemma all_chars_join sep ws : P (code sep) = true → Forall (all_chars P) ws → all_chars P (join_with sep ws).
Proof.
  intros Hs. induction 1 as [|w ws Hw HF IH]; [done|]. destruct ws as [|w' ws]; [done|].
  change (all_chars P (String.append w (String sep (join_with sep (w' :: ws))))). apply all_chars_app; [done|].
  by apply all_chars_String.
Qed.
Lemma all_chars_no_sep sep s : P (code sep) = false → all_chars P s → no_sep sep s.
Proof.
  unfold all_chars, no_sep. intros Hs H Hin. rewrite forallb_forall in H. apply list_elem_of_In, H in Hin. congruence.
Qed.
Lemma all_chars_impl (Q : Z → bool) s : (∀ c, P c = true → Q c = true) → all_chars P s → all_chars Q s.
Proof. unfold all_chars. rewrite !forallb_forall. auto. Qed.
Lemma all_chars_uint n : (∀ c, is_digit c = true → P c = true) → 0 ≤ n → all_chars P (FormatUint n).
Proof.
  intros HP Hn. pose proof (format_digits_codes 20 n "" Hn eq_refl) as Hd. unfold all_chars, FormatUint.
  rewrite forallb_forall in *. auto.
Qed.
End all_chars.

(** [cut] at the first separator. *)
Lemma cut_app sep a b : no_sep sep a → cut sep (String.append a (String sep b)) = (a, b, true).
Proof.
  unfold no_sep. induction a as [|c a IH]; intros H.
  - rewrite append_Empty. cbn [cut]. by rewrite bool_decide_eq_true_2.
  - rewrite append_String. rewrite codes_String in H. cbn [cut].
    rewrite bool_decide_eq_false_2 by (intros ->; set_solver). rewrite IH by set_solver. done.
Qed.

(** ** Trimming *)
Lemma trim_right_fixed s : default false (is_space <$> last_code (codes s)) = false → trim_right s = s.
Proof.
  induction s as [|c s IH]; [done|]. rewrite codes_String. cbn [trim_right]. destruct s as [|d s].
  - cbn. by intros ->.
  - intros H. rewrite IH by (rewrite codes_String in *; done). done.
Qed.
Lemma trim_space_fixed s : trimmed s = true → trim_space s = s.
Proof.
  unfold trimmed, trim_space. intros H. assert (Hl : trim_left s = s).
  { destruct s as [|c s]; [done|]. rewrite codes_String in H. cbn [trim_left]. apply andb_true_iff in H as [H _].
    by rewrite (proj1 (negb_true_iff _) H). }
  rewrite Hl. destruct (codes s) as [|c l] eqn:Hc; [by destruct s|]. rewrite <- Hc in *. apply trim_right_fixed.
  apply andb_true_iff in H as [_ H]. by apply negb_true_iff.
Qed.
Lemma trim_space_blank s : trim_space (String " " s) = trim_space s.
Proof. done. Qed.

Lemma cut_spec sep s a b f :
  cut sep s = (a, b, f) → s = String.append a (if f then String sep b else EmptyString) ∧ (f = false → b = EmptyString).
Proof.
  revert a b f. induction s as [|c s IH]; intros a b f; simpl.
  - by intros [= <- <- <-].
  - destruct (c == sep) eqn:Hc; [go_bool in Hc; subst; by intros [= <- <- <-]|].
    destruct (cut sep s) as [[a' b'] f'] eqn:Hs. intros [= <- <- <-]. destruct (IH _ _ _ eq_refl) as [-> ?]. done.
Qed.

Lemma hex_value_nibble n : 0 ≤ n < 16 → hex_value (hex_nibble n) = Some n.
Proof.
  intros Hn. assert (H : forallb (λ k, bool_decide (hex_value (hex_nibble (Z.of_nat k)) = Some (Z.of_nat k))) (seq 0 16) = true)
    by reflexivity.
  rewrite forallb_forall in H. specialize (H (Z.to_nat n)). rewrite Z2Nat.id in H by lia.
  apply (bool_decide_unpack _), Is_true_true, H, in_seq. lia.
Qed.

Lemma hex_decode_encode bs : Forall (λ b, 0 ≤ b < 256) bs → hex_decode (hex_encode bs) = Some bs.
Proof.
  induction 1 as [|b bs Hb HF IH]; [done|]. cbn [hex_encode foldr hex_decode]. fold (hex_encode bs).
  rewrite !hex_value_nibble, IH by (Z.div_mod_to_equations; lia). do 2 f_equal. Z.div_mod_to_equations; lia.
Qed.

Lemma slength_hex_encode bs : slength (hex_encode bs) = 2 * len bs.
Proof.
  induction bs as [|b bs IH]; [done|]. cbn [hex_encode foldr]. fold (hex_encode bs).
  rewrite !slength_String, IH. unfold len. simpl length. lia.
Qed.

(** ** White space in ASCII *)
Definition chars (s : string) : list (Z * string) := (λ c, (code c, String c EmptyString)) <$> String.list_ascii_of_string s.

Lemma segments_ascii s : Forall (λ b, b < 128) (codes s) → segments s = chars s.
Proof.
  intros HF. unfold segments, range_string, chars.
  assert (H : ∀ pre, (λ e : Z * Z * nat, (e.1.2, String.substring (Z.to_nat e.1.1) e.2 (String.append pre s)))
      <$> range_from 0 (slength pre) (codes s) = (λ c, (code c, String c EmptyString)) <$> String.list_ascii_of_string s);
    [|apply (H EmptyString)].
  induction s as [|c s IH]; intros pre; [done|]. rewrite codes_String in HF |- *. apply Forall_cons in HF as [Hc HF].
  cbn [range_from]. unfold decode_rune. rewrite (proj2 (Z.ltb_lt (code c) 128)) by lia.
  cbn [pred fmap list_fmap String.list_ascii_of_string fst snd]. f_equal.
  - f_equal. unfold slength. rewrite Nat2Z.id. clear. induction pre as [|d pre IH]; [by destruct s|]. apply IH.
  - assert (Hs : String.append pre (String c s) = String.append (String.append pre (String c EmptyString)) s).
    { clear. induction pre as [|d pre IH]; [done|]. rewrite !append_String. by rewrite IH. }
    assert (Hl : slength pre + 1 = slength (String.append pre (String c EmptyString))) by (by rewrite slength_append).
    rewrite Hs, Hl. by apply IH.
Qed.

Lemma fields_word pre w l : Forall (λ b, IsSpace b = false) (codes w) →
  fields_from pre (chars w ++ l) = fields_from (String.append pre w) l.
Proof.
  revert pre. induction w as [|c w IH]; intros pre HF.
  - cbn. f_equal. clear. induction pre as [|d pre IH]; [done|]. by rewrite append_String, <- IH.
  - rewrite codes_String in HF. apply Forall_cons in HF as [Hc HF]. cbn [chars String.list_ascii_of_string fmap list_fmap app].
    fold (chars w). cbn [fields_from fst snd]. rewrite Hc, IH by done. f_equal.
    clear. induction pre as [|d pre IH]; [done|]. by rewrite !append_String, IH.
Qed.
Lemma chars_append s t : chars (String.append s t) = chars s ++ chars t.
Proof. induction s as [|c s IH]; [done|]. rewrite append_String. unfold chars in *. cbn. by rewrite IH. Qed.

(** [Fields] of words joined by spaces. *)
Lemma Fields_join ws :
  Forall (λ w, w ≠ EmptyString ∧ Forall (λ b, b < 128 ∧ IsSpace b = false) (codes w)) ws → Fields (join_with " " ws) = ws.
Proof.
  intros HF. unfold Fields.
  assert (Ha : Forall (λ b, b < 128) (codes (join_with " " ws))).
  { clear -HF. induction HF as [|w ws [Hn Hw] HF IH]; [constructor|]. assert (Hw' : Forall (λ b, b < 128) (codes w)).
    { eapply Forall_impl; [exact Hw|]. naive_solver. }
    destruct ws as [|v ws]; [done|]. change (join_with " " (w :: v :: ws)) with (String.append w (String " " (join_with " " (v :: ws)))).
    rewrite codes_append, codes_String. apply Forall_app_2; [done|]. constructor; [done|exact IH]. }
  rewrite segments_ascii by done. clear Ha.
  induction HF as [|w ws [Hn Hw] HF IH]; [done|]. assert (Hw' : Forall (λ b, IsSpace b = false) (codes w)).
  { eapply Forall_impl; [exact Hw|]. naive_solver. }
  destruct ws as [|v ws].
  - cbn [join_with]. rewrite <- (app_nil_r (chars w)), fields_word by done. cbn [fields_from]. rewrite append_Empty.
    by rewrite bool_decide_eq_false_2.
  - change (join_with " " (w :: v :: ws)) with (String.append w (String " " (join_with " " (v :: ws)))).
    rewrite chars_append, fields_word by done. cbn [chars String.list_ascii_of_string fmap list_fmap].
    fold (chars (join_with " " (v :: ws))). cbn [fields_from fst snd]. change (IsSpace (code " ")) with true. cbv iota.
    rewrite append_Empty, bool_decide_eq_false_2, IH by done. done.
Qed.

Lemma TrimSpace_word w : Forall (λ b, b < 128 ∧ IsSpace b = false) (codes w) → TrimSpace w = w.
Proof.
  intros HF. unfold TrimSpace. rewrite segments_ascii by (eapply Forall_impl; [exact HF|naive_solver]).
  assert (Hd : ∀ l, Forall (λ e, IsSpace e.1 = false) l → drop_spaces l = l).
  { intros l Hl. destruct Hl as [|e l He Hl]; [done|]. cbn [drop_spaces]. by rewrite He. }
  assert (Hc : Forall (λ e, IsSpace e.1 = false) (chars w)).
  { unfold chars. apply Forall_fmap. unfold codes in HF. rewrite Forall_fmap in HF. eapply Forall_impl; [exact HF|].
    cbn. naive_solver. }
  rewrite (Hd (chars w)), Hd by (done || by apply Forall_reverse). rewrite reverse_involutive. clear.
  induction w as [|c w IH]; [done|]. unfold chars in *. cbn. by rewrite IH.
Qed.

Lemma TrimSpace_head c s : Forall (λ b, b < 128) (codes (String c s)) → IsSpace (code c) = false → TrimSpace (String c s) ≠ EmptyString.
Proof.
  intros HF Hc. unfold TrimSpace. rewrite segments_ascii by done.
  change (chars (String c s)) with ((code c, String c EmptyString) :: chars s). cbn [drop_spaces fst]. rewrite Hc.
  assert (Hd : ∀ l e, IsSpace e.1 = false → ∃ l', drop_spaces (l ++ [e]) = l' ++ [e]).
  { intros l e He. induction l as [|x l IH]; cbn [app drop_spaces]; [exists []; by rewrite He|].
    case_match; [done|]. by exists (x :: l). }
  rewrite reverse_cons. destruct (Hd (reverse (chars s)) (code c, String c EmptyString) Hc) as (l' & ->).
  rewrite reverse_app. done.
Qed.
