(* ===== verification/Utf8.v ===== *)
(** * UTF-8 encoding, the inverse of the decoding of [GoStrings]

    [encode_rune] is [utf8.EncodeRune]; [valid_bytes] is [utf8.Valid].  The lemmas
    relate the runes of a string to its bytes: encoding the decoded runes of a
    valid string gives its bytes back, and a concatenation of encoded runes and
    ASCII bytes is valid. *)

From S2P Require Import Prelude GoStrings.

(** ** Bytes and text *)
Definition str_of (l : list Z) : string := foldr (λ z s, String (ascii_of_N (Z.to_N z)) s) EmptyString l.
Definition byte (z : Z) : Prop := 0 ≤ z < 256.

(** [utf8.EncodeRune] *)
Definition encode_rune (r : Z) : list Z :=
  if r <? 128 then [r]
  else if r <? 2048 then [192 + r / 64; 128 + r mod 64]
  else if r <? 65536 then [224 + r / 4096; 128 + (r / 64) mod 64; 128 + r mod 64]
  else [240 + r / 262144; 128 + (r / 4096) mod 64; 128 + (r / 64) mod 64; 128 + r mod 64].

(** ** Decoding and encoding *)
Lemma codes_str_of l : Forall byte l → codes (str_of l) = l.
Proof.
  unfold byte. induction 1 as [|z l Hz Hl IH]; [done|]. cbn [str_of foldr]. rewrite codes_String.
  fold (str_of l). rewrite IH. f_equal. unfold code. rewrite N_ascii_embedding by lia. lia.
Qed.

Lemma str_of_codes s : str_of (codes s) = s.
Proof.
  induction s as [|c s IH]; [done|]. rewrite codes_String. cbn [str_of foldr]. fold (str_of (codes s)).
  rewrite IH. f_equal. unfold code. by rewrite N2Z.id, ascii_N_embedding.
Qed.

Lemma codes_bytes s : Forall byte (codes s).
Proof. unfold codes. apply Forall_fmap, Forall_true. intros c. apply code_range. Qed.

Lemma land_low x n : 0 ≤ n → Z.land x (2 ^ n - 1) = x mod 2 ^ n.
Proof. intros. rewrite <- Z.land_ones, Z.ones_equiv by lia. f_equal. Qed.

(** The branches of [decode_rune], from an equation on its result. *)
Ltac decode_cases Hd :=
  unfold decode_rune in Hd;
  repeat match type of Hd with
  | context [if ?x then _ else _] => destruct x eqn:?
  | context [match ?x with [] => _ | _ :: _ => _ end] => is_var x; destruct x as [|? ?]
  end; injection Hd as <- <-.

(** Encoding the decoded rune gives the bytes back. *)
Lemma encode_decode b0 t r n :
  Forall byte (b0 :: t) → decode_rune (b0 :: t) = (r, n) → negb ((r =? RuneError) && (n =? 1)%nat) = true →
  encode_rune r = b0 :: take (pred n) t.
Proof.
  intros HB Hd Hv. unfold byte, encode_rune in *.
  pose proof (λ x, land_low x 6 ltac:(lia)) as H63. pose proof (λ x, land_low x 5 ltac:(lia)) as H31.
  pose proof (λ x, land_low x 4 ltac:(lia)) as H15. pose proof (λ x, land_low x 3 ltac:(lia)) as H7.
  change (2 ^ 6) with 64 in H63. change (2 ^ 5) with 32 in H31. change (2 ^ 4) with 16 in H15. change (2 ^ 3) with 8 in H7.
  simpl in H63, H31, H15, H7.
  decode_cases Hd; try discriminate Hv; cbn [pred take]; unfold second_ok, continuation in *; rewrite !Forall_cons in HB;
    rewrite ?H63, ?H31, ?H15, ?H7; clear H63 H31 H15 H7 Hv.
  - by rewrite Heqb.
  - destruct HB as (? & ? & _). go_bool. replace (b0 mod 32) with (b0 - 192) by (Z.div_mod_to_equations; lia).
    replace (z mod 64) with (z - 128) by (Z.div_mod_to_equations; lia).
    rewrite (proj2 (Z.ltb_ge _ 128)), (proj2 (Z.ltb_lt _ 2048)) by lia.
    repeat (f_equal; try (Z.div_mod_to_equations; lia)).
  - destruct HB as (? & ? & ? & _). 
    assert (128 ≤ z < 192 ∧ 128 ≤ z0 < 192 ∧ (b0 = 224 → 160 ≤ z)) by (repeat case_match; go_bool; lia).
    go_bool. replace (b0 mod 16) with (b0 - 224) by (Z.div_mod_to_equations; lia).
    replace (z mod 64) with (z - 128) by (Z.div_mod_to_equations; lia).
    replace (z0 mod 64) with (z0 - 128) by (Z.div_mod_to_equations; lia).
    rewrite (proj2 (Z.ltb_ge _ 128)), (proj2 (Z.ltb_ge _ 2048)), (proj2 (Z.ltb_lt _ 65536)) by lia.
    repeat (f_equal; try (Z.div_mod_to_equations; lia)).
  - destruct HB as (? & ? & ? & ? & _). 
    assert (128 ≤ z < 192 ∧ 128 ≤ z0 < 192 ∧ 128 ≤ z1 < 192 ∧ (b0 = 240 → 144 ≤ z)) by (repeat case_match; go_bool; lia).
    go_bool. replace (b0 mod 8) with (b0 - 240) by (Z.div_mod_to_equations; lia).
    replace (z mod 64) with (z - 128) by (Z.div_mod_to_equations; lia).
    replace (z0 mod 64) with (z0 - 128) by (Z.div_mod_to_equations; lia).
    replace (z1 mod 64) with (z1 - 128) by (Z.div_mod_to_equations; lia).
    rewrite (proj2 (Z.ltb_ge _ 128)), (proj2 (Z.ltb_ge _ 2048)), (proj2 (Z.ltb_ge _ 65536)) by lia.
    repeat (f_equal; try (Z.div_mod_to_equations; lia)).
Qed.

Lemma range_encode bs : Forall byte bs → ∀ k i,
  forallb (λ e, negb (invalid_rune e)) (range_from k i bs) = true →
  concat (map (λ e, encode_rune e.1.2) (range_from k i bs)) = drop k bs.
Proof.
  induction 1 as [|b0 t Hb Ht IH]; intros k i Hv; [by destruct k|].
  destruct k as [|k]; [|apply IH; done]. cbn [range_from] in *.
  destruct (decode_rune (b0 :: t)) as [r n] eqn:Hd. cbn [forallb map concat fst snd] in *.
  apply andb_true_iff in Hv as [Hv Hrest]. unfold invalid_rune in Hv. cbn [fst snd] in Hv.
  rewrite (encode_decode b0 t r n) by (done || by constructor). rewrite IH by done.
  cbn [drop app]. f_equal. apply take_drop.
Qed.

Lemma utf8_encode s : utf8_valid s = true → concat (map (λ e, encode_rune e.1.2) (range_string s)) = codes s.
Proof. intros H. unfold range_string. rewrite (range_encode _ (codes_bytes s)); done. Qed.

Lemma encode_rune_high r : 128 ≤ r → Forall (λ c, 128 ≤ c) (encode_rune r).
Proof.
  intros Hr. unfold encode_rune. rewrite (proj2 (Z.ltb_ge r 128)) by lia.
  repeat case_match; rewrite !Forall_cons; split_and!; try done; Z.div_mod_to_equations; lia.
Qed.

Lemma encode_rune_low r : r < 128 → encode_rune r = [r].
Proof. intros. unfold encode_rune. by rewrite (proj2 (Z.ltb_lt r 128)). Qed.

Lemma decode_rune_nonneg bs : Forall byte bs → 0 ≤ (decode_rune bs).1.
Proof.
  intros HB. destruct bs as [|b0 t]; [done|]. inv HB. unfold byte in *.
  destruct (decide (b0 < 128)) as [Hb|Hb].
  - unfold decode_rune. rewrite (proj2 (Z.ltb_lt b0 128)) by lia. simpl. lia.
  - pose proof (decode_rune_high b0 t). lia.
Qed.

Lemma range_nonneg bs : Forall byte bs → ∀ k i, Forall (λ e, 0 ≤ e.1.2) (range_from k i bs).
Proof.
  induction 1 as [|b0 t Hb Ht IH]; intros k i; [by destruct k|]. destruct k as [|k]; [|apply IH].
  cbn [range_from]. pose proof (decode_rune_nonneg (b0 :: t) ltac:(by constructor)) as Hr.
  destruct (decode_rune (b0 :: t)) as [r n]. constructor; [done|apply IH].
Qed.

(** ** Validity of concatenations *)
Definition valid_bytes (bs : list Z) : bool := forallb (λ e, negb (invalid_rune e)) (range_from 0 0 bs).

Lemma range_index k i j bs :
  forallb (λ e, negb (invalid_rune e)) (range_from k i bs) = forallb (λ e, negb (invalid_rune e)) (range_from k j bs).
Proof.
  revert k i j. induction bs as [|b bs IH]; intros k i j; [done|]. destruct k as [|k]; cbn [range_from]; [|apply IH].
  destruct (decode_rune (b :: bs)) as [r n]. cbn [forallb]. unfold invalid_rune at 1 3. cbn [fst snd]. f_equal. apply IH.
Qed.

Lemma valid_skip l i t :
  forallb (λ e, negb (invalid_rune e)) (range_from (length l) i (l ++ t)) = valid_bytes t.
Proof.
  revert i. induction l as [|c l IH]; intros i; [|apply IH]. cbn [length app].
  destruct t; [done|]. apply range_index.
Qed.

(** A valid encoding is decoded the same whatever follows it. *)
Lemma decode_prefix b0 t r n u : decode_rune (b0 :: t) = (r, n) → negb ((r =? RuneError) && (n =? 1)%nat) = true →
  decode_rune ((b0 :: take (pred n) t) ++ u) = (r, n) ∧ n = S (length (take (pred n) t)).
Proof.
  intros Hd Hv. decode_cases Hd; try discriminate Hv; (split; [|done]); cbn [pred take app decode_rune];
    repeat match goal with H : ?b = _ |- context [if ?b then _ else _] => rewrite H end; done.
Qed.

Lemma valid_encoded e u : (∃ bs, Forall byte bs ∧ bs ≠ [] ∧ (e.1.2, e.2) = decode_rune bs) →
  negb (invalid_rune e) = true → valid_bytes (encode_rune e.1.2 ++ u) = valid_bytes u.
Proof.
  intros (bs & HB & Hne & Hd) Hv. destruct bs as [|b0 t]; [done|]. symmetry in Hd.
  destruct e as [[i r] n]. cbn [fst snd] in *. unfold invalid_rune in Hv. cbn [fst snd] in Hv.
  rewrite (encode_decode b0 t r n) by done. destruct (decode_prefix b0 t r n u Hd Hv) as [Hp Hn].
  unfold valid_bytes at 1. cbn [app range_from] in *. rewrite Hp. cbn [forallb]. unfold invalid_rune at 1. cbn [fst snd].
  rewrite Hv. cbn [andb]. rewrite Hn at 1. cbn [pred]. apply valid_skip.
Qed.

Lemma range_decoded bs : Forall byte bs → ∀ k i,
  Forall (λ e, ∃ bs, Forall byte bs ∧ bs ≠ [] ∧ (e.1.2, e.2) = decode_rune bs) (range_from k i bs).
Proof.
  induction 1 as [|b0 t Hb Ht IH]; intros k i; [by destruct k|]. destruct k as [|k]; [|apply IH].
  cbn [range_from]. destruct (decode_rune (b0 :: t)) as [r n] eqn:Hd. constructor; [|apply IH].
  exists (b0 :: t). split_and!; [by constructor|done|done].
Qed.

Lemma valid_ascii c u : c < 128 → valid_bytes (c :: u) = valid_bytes u.
Proof.
  intros Hc. unfold valid_bytes at 1. cbn [range_from decode_rune]. rewrite (proj2 (Z.ltb_lt c 128)) by lia.
  cbn [forallb pred]. unfold invalid_rune at 1, RuneError. cbn [fst snd]. rewrite (proj2 (Z.eqb_neq c 65533)) by lia.
  cbn [andb negb]. destruct u; [done|]. apply range_index.
Qed.
Lemma valid_asciis l u : Forall (λ c, c < 128) l → valid_bytes (l ++ u) = valid_bytes u.
Proof. induction 1; [done|]. cbn [app]. by rewrite valid_ascii. Qed.

(** In valid text, an ASCII byte is a rune. *)
Lemma ascii_byte_rune s b : utf8_valid s = true → b ∈ codes s → b < 128 → b ∈ runes s.
Proof.
  intros Hv Hb Hl. rewrite <- (utf8_encode s Hv) in Hb. unfold runes.
  apply list_elem_of_In, in_concat in Hb as (l & Hl' & Hb). apply in_map_iff in Hl' as (e & <- & He).
  destruct (decide (e.1.2 < 128)) as [Hr|Hr].
  - rewrite encode_rune_low in Hb by done. destruct Hb as [<-|[]].
    apply list_elem_of_fmap. exists e. split; [done|by apply list_elem_of_In].
  - pose proof (encode_rune_high e.1.2 ltac:(lia)) as HF. rewrite Forall_forall in HF.
    apply list_elem_of_In, HF in Hb. lia.
Qed.

(** A trailing ASCII byte is a rune of its own, in any byte sequence. *)
Lemma decode_continuations b0 t r n : decode_rune (b0 :: t) = (r, n) →
  (pred n ≤ length t)%nat ∧ Forall (λ c, 128 ≤ c) (take (pred n) t).
Proof.
  intros Hd. unfold decode_rune in Hd.
  repeat match type of Hd with
  | context [if ?x then _ else _] => destruct x eqn:?
  | context [match ?x with [] => _ | _ :: _ => _ end] => is_var x; destruct x as [|? ?]
  end; injection Hd as <- <-; cbn [pred take length]; (split; [lia|]); try constructor;
    unfold second_ok, continuation in *; repeat constructor; repeat case_match; go_bool; lia.
Qed.

Lemma last_ascii_rune bs b : b < 128 → ∀ k i, Forall (λ c, 128 ≤ c) (take k bs) → (k ≤ length bs)%nat →
  last_code ((λ e : Z * Z * nat, e.1.2) <$> range_from k i (bs ++ [b])) = Some b.
Proof.
  intros Hb. induction bs as [|c bs IH]; intros k i HF Hk.
  - cbn [length] in Hk. assert (k = 0%nat) as -> by lia. cbn [app range_from decode_rune].
    rewrite (proj2 (Z.ltb_lt b 128)) by done. done.
  - cbn [app]. destruct k as [|k].
    + cbn [range_from]. destruct (decode_rune (c :: bs ++ [b])) as [r n] eqn:Hd.
      destruct (decode_continuations _ _ _ _ Hd) as [Hn HF']. rewrite length_app in Hn. cbn [length] in Hn.
      assert (Hn' : (pred n ≤ length bs)%nat).
      { destruct (decide (pred n ≤ length bs)%nat); [done|]. exfalso.
        rewrite take_ge in HF' by (rewrite length_app; cbn [length]; lia).
        apply Forall_app in HF' as [_ HF']. inv HF'. lia. }
      rewrite take_app_le in HF' by done. specialize (IH (pred n) (i + 1) HF' Hn').
      rewrite fmap_cons. destruct ((λ e : Z * Z * nat, e.1.2) <$> range_from (pred n) (i + 1) (bs ++ [b])); [done|].
      exact IH.
    + cbn [range_from take] in *. inv HF. apply IH; [done|cbn [length] in Hk; lia].
Qed.

Lemma last_code_app l k : k ≠ [] → last_code (l ++ k) = last_code k.
Proof.
  intros Hk. induction l as [|x l IH]; [done|]. cbn [app last_code]. rewrite IH.
  destruct (l ++ k) eqn:He; [|done]. by apply app_nil in He as [_ ->].
Qed.

Lemma last_code_split l b : last_code l = Some b → ∃ k, l = k ++ [b].
Proof.
  induction l as [|x l IH]; [done|]. cbn [last_code]. destruct l as [|y l]; [intros [= ->]; by exists []|].
  intros H. destruct (IH H) as (k & ->). by exists (x :: k).
Qed.

Lemma last_byte_rune s b : last_code (codes s) = Some b → b < 128 → last_code (runes s) = Some b.
Proof.
  intros Hl Hb. destruct (last_code_split _ _ Hl) as (k & Hk). unfold runes, range_string. rewrite Hk.
  apply (last_ascii_rune k b Hb 0 0); [constructor|lia].
Qed.
