(* ===== verification/ConfigJson.v ===== *)
(** * Strict JSON envelopes: [internal/configjson/] and the scanner of
      [auth_controller.go]

    Both scanners walk the token stream of a [json.Decoder].  The decoder itself
    is the standard library's: a [decoder] here is the sequence of tokens it will
    deliver and whether the input then ends cleanly.  The recursion of the
    scanners is bounded by fuel; [scan_fuel] is always enough. *)

From S2P Require Import Prelude GoStrings.
#[local] Set Warnings "-register-all".

Module ConfigJson.

(** ** Tokens *)
Inductive token :=
| TDelim (c : ascii)       (* json.Delim: one of [ ] { } *)
| TNull
| TString (s : string)
| TScalar.                 (* a number or a boolean *)

Record decoder := mkDecoder { dc_tokens : list token; dc_clean : bool }.

Inductive scan_error := Refused | OutOfFuel.
#[export] Instance scan_error_eq_dec : EqDecision scan_error. Proof. solve_decision. Defined.

(** [Decoder.Token]: [None] is an error, end of input included. *)
Definition Token (d : decoder) : option (token * decoder) :=
  match dc_tokens d with
  | [] => None
  | t :: ts => Some (t, mkDecoder ts (dc_clean d))
  end.
(** [Decoder.Token] returns [io.EOF] *)
Definition at_EOF (d : decoder) : bool := match dc_tokens d with [] => dc_clean d | _ => false end.

Definition is_close (t : token) : bool :=
  match t with TDelim c => (c == "]"%char) || (c == "}"%char) | _ => false end.
(** [Decoder.More]: another element follows.  Before malformed input the answer
    depends on the offending byte; the next [Token] is an error either way. *)
Definition More (d : decoder) : bool :=
  match dc_tokens d with [] => negb (dc_clean d) | t :: _ => negb (is_close t) end.

(** ** [configjson.scanValue] *)
Section scan.
Context (maxDepth : Z) (keys : option (string → bool)).

Definition key_allowed (key : string) : bool := match keys with None => true | Some k => k key end.

Fixpoint scanValue (fuel : nat) (d : decoder) (depth : Z) {struct fuel} : res scan_error decoder :=
  match fuel with
  | O => Err OutOfFuel
  | S fuel =>
    refuse maxDepth <? depth => Refused ;;
    match Token d with
    | None => Err Refused
    | Some (TNull, _) => Err Refused
    | Some (TDelim c, d1) =>
      d2 ← (if c == "{"%char then scan_members fuel d1 depth []
            else if c == "["%char then scan_elements fuel d1 depth
            else Err Refused);
      match Token d2 with None => Err Refused | Some (_, d3) => Ok d3 end
    | Some (_, d1) => Ok d1
    end
  end
(** the loop over the members of an object; [seen] are the keys so far *)
with scan_members (fuel : nat) (d : decoder) (depth : Z) (seen : list string) {struct fuel} :
  res scan_error decoder :=
  match fuel with
  | O => Err OutOfFuel
  | S fuel =>
    if negb (More d) then Ok d
    else match Token d with
    | Some (TString key, d1) =>
      refuse (key ∈? seen) || negb (key_allowed key) => Refused ;;
      d2 ← scanValue fuel d1 (depth + 1);
      scan_members fuel d2 depth (key :: seen)
    | _ => Err Refused
    end
  end
with scan_elements (fuel : nat) (d : decoder) (depth : Z) {struct fuel} : res scan_error decoder :=
  match fuel with
  | O => Err OutOfFuel
  | S fuel =>
    if negb (More d) then Ok d
    else d2 ← scanValue fuel d (depth + 1); scan_elements fuel d2 depth
  end.
End scan.

(** Enough recursion for any decoder: every second call consumes a token. *)
Definition scan_fuel (d : decoder) : nat := 2 * length (dc_tokens d) + 3.

(** ** [scanJSONValue] of [auth_controller.go] *)

(** [closing, err := decoder.Token()] against the expected delimiter *)
Definition closing (d : decoder) (c : ascii) : res scan_error decoder :=
  match Token d with
  | Some (TDelim x, d') => if x == c then Ok d' else Err Refused
  | _ => Err Refused
  end.

Fixpoint scanJSONValue (fuel : nat) (d : decoder) {struct fuel} : res scan_error decoder :=
  match fuel with
  | O => Err OutOfFuel
  | S fuel =>
    match Token d with
    | None => Err Refused
    | Some (TDelim c, d1) =>
      if c == "{"%char then
        d2 ← scanJSON_members fuel d1 [];
        closing d2 "}"%char
      else if c == "["%char then
        d2 ← scanJSON_elements fuel d1;
        closing d2 "]"%char
      else Err Refused
    | Some (_, d1) => Ok d1
    end
  end
with scanJSON_members (fuel : nat) (d : decoder) (seen : list string) {struct fuel} : res scan_error decoder :=
  match fuel with
  | O => Err OutOfFuel
  | S fuel =>
    if negb (More d) then Ok d
    else match Token d with
    | Some (TString key, d1) =>
      refuse key ∈? seen => Refused ;;
      d2 ← scanJSONValue fuel d1;
      scanJSON_members fuel d2 (key :: seen)
    | _ => Err Refused
    end
  end
with scanJSON_elements (fuel : nat) (d : decoder) {struct fuel} : res scan_error decoder :=
  match fuel with
  | O => Err OutOfFuel
  | S fuel =>
    if negb (More d) then Ok d
    else d2 ← scanJSONValue fuel d; scanJSON_elements fuel d2
  end.

Definition rejectDuplicateJSONKeys (d : decoder) : res scan_error unit :=
  d1 ← scanJSONValue (scan_fuel d) d;
  if at_EOF d1 then Ok tt else Err Refused.

(** ** [validSurrogates] *)
Definition hex_digit (c : Z) : option Z :=
  if is_digit c then Some (c - 48)
  else if (97 <=? c) && (c <=? 102) then Some (c - 87)
  else if (65 <=? c) && (c <=? 70) then Some (c - 55)
  else None.
(** [strconv.ParseUint(s, 16, 16)] on four bytes *)
Definition parse_hex4 (a b c d : Z) : option Z :=
  x ← hex_digit a; y ← hex_digit b; z ← hex_digit c; w ← hex_digit d;
  Some (((x * 16 + y) * 16 + z) * 16 + w).

Definition low_surrogate (v : Z) : bool := (56320 <=? v) && (v <=? 57343).
Definition high_surrogate (v : Z) : bool := (55296 <=? v) && (v <=? 56319).

(** 34 is the quote, 92 the backslash, 117 the letter u. *)
Fixpoint surrogates_from (inString : bool) (data : list Z) : bool :=
  match data with
  | [] => true
  | c :: rest =>
    if c =? 34 then surrogates_from (negb inString) rest
    else if negb inString || negb (c =? 92) then surrogates_from inString rest
    else match rest with
    | [] => false
    | e :: rest =>
      if negb (e =? 117) then surrogates_from inString rest
      else match rest with
      | h1 :: h2 :: h3 :: h4 :: rest =>
        match parse_hex4 h1 h2 h3 h4 with
        | None => false
        | Some value =>
          if low_surrogate value then false
          else if high_surrogate value then
            match rest with
            | b :: u :: l1 :: l2 :: l3 :: l4 :: rest =>
              if negb (b =? 92) || negb (u =? 117) then false
              else match parse_hex4 l1 l2 l3 l4 with
              | None => false
              | Some low => if negb (low_surrogate low) then false else surrogates_from inString rest
              end
            | _ => false
            end
          else surrogates_from inString rest
        end
      | _ => false
      end
    end
  end.
Definition validSurrogates (data : string) : bool := surrogates_from false (codes data).

(** ** [Decode] and [DecodeEnvelope] *)
Inductive decode_error := ErrLimits | ErrRead | ErrJSON | ErrTrailing | ErrFields.
#[export] Instance decode_error_eq_dec : EqDecision decode_error. Proof. solve_decision. Defined.

Section decode.
(** The standard library's decoder on a byte sequence, and its decoding into the
    target type with unknown fields refused. *)
Context (NewDecoder : string → decoder) {T : Type} (unmarshal : string → option T).

Definition Decode (input : reader) (maxBytes maxDepth : Z) (keys : option (string → bool)) : res decode_error T :=
  refuse (maxBytes <=? 0) || (maxDepth <=? 0) || (match keys with None => true | Some _ => false end) => ErrLimits ;;
  match limit_read (maxBytes + 1) input with
  | None => Err ErrRead
  | Some data =>
    refuse (maxBytes <? slength data) || negb (utf8_valid data) || negb (validSurrogates data) => ErrRead ;;
    let d := NewDecoder data in
    match scanValue maxDepth keys (scan_fuel d) d 0 with
    | Err _ => Err ErrJSON
    | Ok d1 =>
      refuse negb (at_EOF d1) => ErrTrailing ;;
      match unmarshal data with None => Err ErrFields | Some x => Ok x end
    end
  end.

(** [raw_fields]: [json.Unmarshal] into a map of raw messages. *)
Definition DecodeEnvelope (raw_fields : string → option (gmap string T)) (data : string)
  (maxBytes maxDepth : Z) (required : list string) : option (gmap string T) :=
  if (maxBytes <=? 0) || (maxDepth <=? 0) || (len required =? 0) || (32 <? len required)
     || (maxBytes <? slength data) || negb (utf8_valid data) || negb (validSurrogates data) then None
  else match for_range (λ _ allowed name, refuse (name == "") || (name ∈? allowed) => tt ;; Ok (name :: allowed))
               0 [] required with
  | Err _ => None
  | Ok allowed =>
    let d := NewDecoder data in
    match scanValue maxDepth None (scan_fuel d) d 0 with
    | Err _ => None
    | Ok d1 =>
      if negb (at_EOF d1) then None
      else match raw_fields data with
      | None => None
      | Some fields =>
        if negb (Z.of_nat (size fields) =? len required) then None
        else if forallb (λ kv, kv.1 ∈? allowed) (map_to_list fields) then Some fields else None
      end
    end
  end.
End decode.

(** ** JSON values, their tokens, and what a scanner should accept *)
Inductive json :=
| JNull | JScalar | JString (s : string)
| JArray (vs : list json) | JObject (ms : list (string * json)).

Fixpoint json_tokens (v : json) : list token :=
  match v with
  | JNull => [TNull]
  | JScalar => [TScalar]
  | JString s => [TString s]
  | JArray vs => TDelim "["%char :: concat (map json_tokens vs) ++ [TDelim "]"%char]
  | JObject ms => TDelim "{"%char :: concat (map (λ kv, TString kv.1 :: json_tokens kv.2) ms) ++ [TDelim "}"%char]
  end.

(** Within the depth limit, no null, no duplicate and only allowed keys. *)
Fixpoint json_ok (maxDepth : Z) (keys : option (string → bool)) (depth : Z) (v : json) : bool :=
  (depth <=? maxDepth)
  && match v with
     | JNull => false
     | JScalar | JString _ => true
     | JArray vs => forallb (json_ok maxDepth keys (depth + 1)) vs
     | JObject ms => bool_decide (NoDup (ms.*1)) && forallb (key_allowed keys) (ms.*1)
                     && forallb (λ kv, json_ok maxDepth keys (depth + 1) kv.2) ms
     end.

(** No object, at any depth, repeats a key. *)
Fixpoint json_nodup (v : json) : bool :=
  match v with
  | JArray vs => forallb json_nodup vs
  | JObject ms => bool_decide (NoDup (ms.*1)) && forallb (λ kv, json_nodup kv.2) ms
  | _ => true
  end.

Section json_ind.
Context (P : json → Prop) (Hn : P JNull) (Hs : P JScalar) (Ht : ∀ s, P (JString s))
  (Ha : ∀ vs, Forall P vs → P (JArray vs)) (Ho : ∀ ms, Forall (λ kv, P kv.2) ms → P (JObject ms)).
Fixpoint json_rect' (v : json) : P v :=
  match v with
  | JNull => Hn | JScalar => Hs | JString s => Ht s
  | JArray vs => Ha vs ((fix go l : Forall P l :=
      match l with [] => Forall_nil_2 P | x :: l => Forall_cons_2 P x l (json_rect' x) (go l) end) vs)
  | JObject ms => Ho ms ((fix go l : Forall (λ kv, P kv.2) l :=
      match l with
      | [] => Forall_nil_2 _
      | kv :: l => Forall_cons_2 (λ kv, P kv.2) kv l (json_rect' kv.2) (go l)
      end) ms)
  end.
End json_ind.

Lemma json_tokens_head v : ∃ t ts, json_tokens v = t :: ts ∧ is_close t = false.
Proof. destruct v; simpl; eexists _, _; (split; [reflexivity|reflexivity]). Qed.

Lemma More_value v rest clean : More (mkDecoder (json_tokens v ++ rest) clean) = true.
Proof. destruct (json_tokens_head v) as (t & ts & -> & Hc). unfold More. simpl. by rewrite Hc. Qed.

(** *** [scanValue] on the tokens of a value *)
Section scan_exact.
Context (maxDepth : Z) (keys : option (string → bool)).
Local Abbreviation ok := (json_ok maxDepth keys).

Definition scans (v : json) : Prop := ∀ fuel depth rest clean,
  (2 * length (json_tokens v) ≤ fuel)%nat →
  scanValue maxDepth keys fuel (mkDecoder (json_tokens v ++ rest) clean) depth =
  if ok depth v then Ok (mkDecoder rest clean) else Err Refused.

Lemma scan_elements_exact vs : Forall scans vs → ∀ fuel depth rest clean,
  (1 + 2 * length (concat (map json_tokens vs)) ≤ fuel)%nat →
  scan_elements maxDepth keys fuel (mkDecoder (concat (map json_tokens vs) ++ TDelim "]"%char :: rest) clean) depth =
  if forallb (ok (depth + 1)) vs then Ok (mkDecoder (TDelim "]"%char :: rest) clean) else Err Refused.
Proof.
  induction 1 as [|v vs Hv Hvs IH]; intros [|fuel] depth rest clean Hf; simpl in Hf; [lia|done|lia|].
  cbn [map concat scan_elements]. rewrite <- app_assoc, More_value. cbn [negb].
  rewrite length_app in Hf. destruct (json_tokens_head v) as (t & ts & Ht & _).
  assert (1 ≤ length (json_tokens v))%nat by (rewrite Ht; simpl; lia).
  rewrite (Hv fuel) by lia. cbn [forallb]. destruct (ok (depth + 1) v); [|done]. apply IH. lia.
Qed.

Fixpoint members_ok (depth : Z) (seen : list string) (ms : list (string * json)) : bool :=
  match ms with
  | [] => true
  | (k, v) :: ms => negb (k ∈? seen) && key_allowed keys k && ok (depth + 1) v && members_ok depth (k :: seen) ms
  end.

Lemma members_ok_eq depth seen ms :
  members_ok depth seen ms =
  bool_decide (NoDup (ms.*1)) && forallb (λ k, negb (k ∈? seen)) (ms.*1) && forallb (key_allowed keys) (ms.*1)
  && forallb (λ kv, ok (depth + 1) kv.2) ms.
Proof.
  revert seen. induction ms as [|[k v] ms IH]; intros seen; cbn [members_ok fmap list_fmap forallb fst snd].
  - by rewrite bool_decide_eq_true_2 by constructor.
  - rewrite IH. apply eq_true_iff_eq. go_bool. rewrite !forallb_forall, NoDup_cons.
    setoid_rewrite negb_true_iff. setoid_rewrite bool_decide_eq_false. setoid_rewrite <- list_elem_of_In.
    setoid_rewrite elem_of_cons. naive_solver.
Qed.

Lemma scan_members_exact ms : Forall (λ kv, scans kv.2) ms → ∀ fuel depth seen rest clean,
  (1 + 2 * length (concat (map (λ kv, TString kv.1 :: json_tokens kv.2) ms)) ≤ fuel)%nat →
  scan_members maxDepth keys fuel
    (mkDecoder (concat (map (λ kv, TString kv.1 :: json_tokens kv.2) ms) ++ TDelim "}"%char :: rest) clean) depth seen =
  if members_ok depth seen ms then Ok (mkDecoder (TDelim "}"%char :: rest) clean) else Err Refused.
Proof.
  induction 1 as [|[k v] ms Hv Hvs IH]; intros [|fuel] depth seen rest clean Hf; simpl in Hf; [lia|done|lia|].
  cbn [map concat scan_members fst snd]. rewrite <- app_assoc. cbn [More dc_tokens is_close negb Token dc_clean app].
  rewrite length_app in Hf. simpl in Hv. cbn [members_ok].
  destruct (k ∈? seen); [done|]. destruct (key_allowed keys k); [|done]. cbn [orb negb andb].
  rewrite (Hv fuel) by lia. destruct (ok (depth + 1) v); [|done]. apply IH. lia.
Qed.

Lemma scanValue_exact_gen v : scans v.
Proof.
  induction v as [| |s|vs IH|ms IH] using json_rect'; intros [|fuel] depth rest clean Hf; simpl in Hf; try lia;
    cbn [scanValue json_ok json_tokens app Token dc_tokens dc_clean];
    (destruct (Z.ltb_spec maxDepth depth) as [Hd|Hd]; destruct (Z.leb_spec depth maxDepth) as [Hd'|Hd']; try lia); try done.
  - rewrite length_app in Hf. simpl in Hf.
    rewrite bool_decide_eq_false_2 by done. rewrite bool_decide_eq_true_2 by done. rewrite <- app_assoc. cbn [app].
    rewrite (scan_elements_exact vs IH) by lia. cbn [andb]. by destruct (forallb _ vs).
  - rewrite length_app in Hf. simpl in Hf.
    rewrite bool_decide_eq_true_2 by done. rewrite <- app_assoc. cbn [app].
    rewrite (scan_members_exact ms IH), members_ok_eq by lia. cbn [andb].
    assert (forallb (λ k, negb (k ∈? [])) ms.*1 = true) as ->
      by (apply forallb_forall; intros k _; by rewrite bool_decide_eq_false_2 by apply not_elem_of_nil).
    rewrite andb_true_r. by destruct (bool_decide _ && _ && _).
Qed.
End scan_exact.

(** *** Termination: every scan consumes tokens *)
Definition ends_within {A} (r : res scan_error A) (P : A → Prop) : Prop :=
  match r with Ok a => P a | Err e => e ≠ OutOfFuel end.
Definition tokens_left (d : decoder) : nat := length (dc_tokens d).

Lemma Token_tokens_left d t d' : Token d = Some (t, d') → tokens_left d = S (tokens_left d').
Proof. unfold Token, tokens_left. destruct (dc_tokens d); by intros [= <- <-]. Qed.

Lemma ends_bind {A B} (r : res scan_error A) (f : A → res scan_error B) P Q :
  ends_within r P → (∀ a, P a → ends_within (f a) Q) → ends_within (a ← r; f a) Q.
Proof. destruct r; simpl; auto. Qed.

Lemma ends_impl {A} (r : res scan_error A) (P Q : A → Prop) :
  ends_within r P → (∀ a, P a → Q a) → ends_within r Q.
Proof. destruct r; simpl; auto. Qed.

Lemma scanValue_ends maxDepth keys fuel :
  (∀ d depth, (2 * tokens_left d + 2 ≤ fuel)%nat →
     ends_within (scanValue maxDepth keys fuel d depth) (λ d', (tokens_left d' < tokens_left d)%nat))
  ∧ (∀ d depth seen, (2 * tokens_left d + 3 ≤ fuel)%nat →
     ends_within (scan_members maxDepth keys fuel d depth seen) (λ d', (tokens_left d' ≤ tokens_left d)%nat))
  ∧ (∀ d depth, (2 * tokens_left d + 3 ≤ fuel)%nat →
     ends_within (scan_elements maxDepth keys fuel d depth) (λ d', (tokens_left d' ≤ tokens_left d)%nat)).
Proof.
  induction fuel as [|fuel (IHv & IHm & IHe)]; [split_and!; intros; lia|]. split_and!.
  - intros d depth Hf. cbn [scanValue]. destruct (_ <? _); [done|].
    destruct (Token d) as [[t d1]|] eqn:Ht; [|done]. apply Token_tokens_left in Ht.
    destruct t as [c| | |]; simpl; try done; try lia.
    apply (ends_bind _ _ (λ d', (tokens_left d' ≤ tokens_left d1)%nat)).
    + destruct (c == "{"%char); [apply IHm; lia|]. destruct (c == "["%char); [apply IHe; lia|done].
    + intros d2 Hd2. destruct (Token d2) as [[t3 d3]|] eqn:Ht3; [|done]. apply Token_tokens_left in Ht3. simpl. lia.
  - intros d depth seen Hf. cbn [scan_members]. destruct (More d); simpl; [|lia].
    destruct (Token d) as [[t d1]|] eqn:Ht; [|done]. apply Token_tokens_left in Ht. destruct t as [| |key|]; try done.
    destruct (_ || _); [done|]. eapply ends_bind; [apply IHv; lia|]. intros d2 Hd2; cbv beta in Hd2.
    eapply ends_impl; [apply IHm; lia|]. simpl. intros; lia.
  - intros d depth Hf. cbn [scan_elements]. destruct (More d); simpl; [|lia].
    eapply ends_bind; [apply IHv; lia|]. intros d2 Hd2; cbv beta in Hd2. eapply ends_impl; [apply IHe; lia|]. simpl. intros; lia.
Qed.

Lemma scanJSONValue_ends fuel :
  (∀ d, (2 * tokens_left d + 2 ≤ fuel)%nat → ends_within (scanJSONValue fuel d) (λ d', (tokens_left d' < tokens_left d)%nat))
  ∧ (∀ d seen, (2 * tokens_left d + 3 ≤ fuel)%nat →
     ends_within (scanJSON_members fuel d seen) (λ d', (tokens_left d' ≤ tokens_left d)%nat))
  ∧ (∀ d, (2 * tokens_left d + 3 ≤ fuel)%nat →
     ends_within (scanJSON_elements fuel d) (λ d', (tokens_left d' ≤ tokens_left d)%nat)).
Proof.
  assert (Hclose : ∀ c d1 d2, (tokens_left d2 ≤ tokens_left d1)%nat → ends_within (closing d2 c) (λ d', (tokens_left d' < S (tokens_left d1))%nat)).
  { intros c d1 d2 Hd. unfold closing. destruct (Token d2) as [[[x| | |] d3]|] eqn:Ht; try done.
    apply Token_tokens_left in Ht. destruct (x == c); simpl; [lia|done]. }
  induction fuel as [|fuel (IHv & IHm & IHe)]; [split_and!; intros; lia|]. split_and!.
  - intros d Hf. cbn [scanJSONValue]. destruct (Token d) as [[t d1]|] eqn:Ht; [|done]. apply Token_tokens_left in Ht.
    rewrite Ht. destruct t as [c| | |]; simpl; try lia.
    destruct (c == "{"%char); [|destruct (c == "["%char); [|done]].
    + eapply ends_bind; [apply IHm; lia|]. intros d2 Hd2. by apply Hclose.
    + eapply ends_bind; [apply IHe; lia|]. intros d2 Hd2. by apply Hclose.
  - intros d seen Hf. cbn [scanJSON_members]. destruct (More d); simpl; [|lia].
    destruct (Token d) as [[t d1]|] eqn:Ht; [|done]. apply Token_tokens_left in Ht. destruct t as [| |key|]; try done.
    destruct (_ ∈? _); [done|]. eapply ends_bind; [apply IHv; lia|]. intros d2 Hd2; cbv beta in Hd2.
    eapply ends_impl; [apply IHm; lia|]. simpl. intros; lia.
  - intros d Hf. cbn [scanJSON_elements]. destruct (More d); simpl; [|lia].
    eapply ends_bind; [apply IHv; lia|]. intros d2 Hd2; cbv beta in Hd2. eapply ends_impl; [apply IHe; lia|]. simpl. intros; lia.
Qed.

(** *** [scanJSONValue] on the tokens of a value *)
Definition scans_json (v : json) : Prop := ∀ fuel rest clean,
  (2 * length (json_tokens v) ≤ fuel)%nat →
  scanJSONValue fuel (mkDecoder (json_tokens v ++ rest) clean) =
  if json_nodup v then Ok (mkDecoder rest clean) else Err Refused.

Lemma scanJSON_elements_exact vs : Forall scans_json vs → ∀ fuel rest clean,
  (1 + 2 * length (concat (map json_tokens vs)) ≤ fuel)%nat →
  scanJSON_elements fuel (mkDecoder (concat (map json_tokens vs) ++ TDelim "]"%char :: rest) clean) =
  if forallb json_nodup vs then Ok (mkDecoder (TDelim "]"%char :: rest) clean) else Err Refused.
Proof.
  induction 1 as [|v vs Hv Hvs IH]; intros [|fuel] rest clean Hf; simpl in Hf; [lia|done|lia|].
  cbn [map concat scanJSON_elements]. rewrite <- app_assoc, More_value. cbn [negb].
  rewrite length_app in Hf. destruct (json_tokens_head v) as (t & ts & Ht & _).
  assert (1 ≤ length (json_tokens v))%nat by (rewrite Ht; simpl; lia).
  rewrite (Hv fuel) by lia. cbn [forallb]. destruct (json_nodup v); [|done]. apply IH. lia.
Qed.

Lemma scanJSON_members_exact ms : Forall (λ kv, scans_json kv.2) ms → ∀ fuel seen rest clean,
  (1 + 2 * length (concat (map (λ kv, TString kv.1 :: json_tokens kv.2) ms)) ≤ fuel)%nat →
  scanJSON_members fuel
    (mkDecoder (concat (map (λ kv, TString kv.1 :: json_tokens kv.2) ms) ++ TDelim "}"%char :: rest) clean) seen =
  if bool_decide (NoDup (ms.*1)) && forallb (λ k, negb (k ∈? seen)) (ms.*1) && forallb (λ kv, json_nodup kv.2) ms
  then Ok (mkDecoder (TDelim "}"%char :: rest) clean) else Err Refused.
Proof.
  induction 1 as [|[k v] ms Hv Hvs IH]; intros [|fuel] seen rest clean Hf; simpl in Hf; [lia|done|lia|].
  cbn [map concat scanJSON_members fst snd]. rewrite <- app_assoc. cbn [More dc_tokens is_close negb Token dc_clean app].
  rewrite length_app in Hf. simpl in Hv.
  assert (Heq : bool_decide (NoDup ((k, v) :: ms).*1) && forallb (λ k, negb (k ∈? seen)) ((k, v) :: ms).*1
                && forallb (λ kv, json_nodup kv.2) ((k, v) :: ms)
    = negb (k ∈? seen) && json_nodup v
      && (bool_decide (NoDup (ms.*1)) && forallb (λ x, negb (x ∈? (k :: seen))) (ms.*1)
          && forallb (λ kv, json_nodup kv.2) ms)).
  { cbn [fmap list_fmap forallb fst snd]. apply eq_true_iff_eq. go_bool. rewrite !forallb_forall, NoDup_cons.
    setoid_rewrite negb_true_iff. setoid_rewrite bool_decide_eq_false. setoid_rewrite <- list_elem_of_In.
    setoid_rewrite elem_of_cons. naive_solver. }
  rewrite Heq. destruct (k ∈? seen); [done|]. cbn [negb andb].
  rewrite (Hv fuel) by lia. destruct (json_nodup v); [|done]. apply IH. lia.
Qed.

Lemma scanJSONValue_exact_gen v : scans_json v.
Proof.
  induction v as [| |s|vs IH|ms IH] using json_rect'; intros [|fuel] rest clean Hf; simpl in Hf; try lia;
    cbn [scanJSONValue json_nodup json_tokens app Token dc_tokens dc_clean]; try done.
  - rewrite length_app in Hf. simpl in Hf.
    rewrite bool_decide_eq_false_2 by done. rewrite bool_decide_eq_true_2 by done. rewrite <- app_assoc. cbn [app].
    rewrite (scanJSON_elements_exact vs IH) by lia. by destruct (forallb _ vs).
  - rewrite length_app in Hf. simpl in Hf.
    rewrite bool_decide_eq_true_2 by done. rewrite <- app_assoc. cbn [app].
    rewrite (scanJSON_members_exact ms IH) by lia.
    assert (forallb (λ k, negb (k ∈? [])) ms.*1 = true) as ->
      by (apply forallb_forall; intros k _; by rewrite bool_decide_eq_false_2 by apply not_elem_of_nil).
    rewrite andb_true_r. by destruct (bool_decide _ && _).
Qed.

(** ** The text of a document, as far as quoting and escapes go *)

(** One element of a string literal. *)
Inductive item := Plain (c : Z) | Escape (c : Z) | Unicode (h1 h2 h3 h4 : Z).
Definition item_bytes (i : item) : list Z :=
  match i with Plain c => [c] | Escape c => [92; c] | Unicode h1 h2 h3 h4 => [92; 117; h1; h2; h3; h4] end.
(** Well-formed JSON: no bare quote or backslash, four hexadecimal digits. *)
Definition item_ok (i : item) : Prop :=
  match i with
  | Plain c => c ≠ 34 ∧ c ≠ 92
  | Escape c => c ≠ 117
  | Unicode h1 h2 h3 h4 => is_Some (parse_hex4 h1 h2 h3 h4)
  end.
Definition item_value (i : item) : option Z :=
  match i with Unicode h1 h2 h3 h4 => parse_hex4 h1 h2 h3 h4 | _ => None end.

(** Every high surrogate is followed at once by a low one, and no low surrogate
    stands alone. *)
Fixpoint well_paired (items : list item) : bool :=
  match items with
  | [] => true
  | i :: items =>
    match item_value i with
    | None => well_paired items
    | Some v =>
      if low_surrogate v then false
      else if high_surrogate v then
        match items with
        | j :: items' => match item_value j with
                         | Some w => low_surrogate w && well_paired items'
                         | None => false
                         end
        | [] => false
        end
      else well_paired items
    end
  end.

(** Text outside strings, then a string literal. *)
Definition segment : Type := list Z * list item.
Definition segment_bytes (g : segment) : list Z := g.1 ++ 34 :: concat (map item_bytes g.2) ++ [34].
Definition segment_ok (g : segment) : Prop := Forall (λ c, c ≠ 34) g.1 ∧ Forall item_ok g.2.

Lemma surrogates_outside bs rest :
  Forall (λ c, c ≠ 34) bs → surrogates_from false (bs ++ rest) = surrogates_from false rest.
Proof. induction 1 as [|c bs Hc Hbs IH]; [done|]. simpl. destruct (Z.eqb_spec c 34); [done|]. done. Qed.

Lemma surrogates_plain c rest :
  c ≠ 34 → c ≠ 92 → surrogates_from true (c :: rest) = surrogates_from true rest.
Proof. intros H1 H2. simpl. destruct (Z.eqb_spec c 34); [done|]. by destruct (Z.eqb_spec c 92). Qed.

(** After a high surrogate the text must go on with a low one. *)
Definition after_high (rest : list Z) : bool :=
  match rest with
  | b :: u :: l1 :: l2 :: l3 :: l4 :: rest =>
    if negb (b =? 92) || negb (u =? 117) then false
    else match parse_hex4 l1 l2 l3 l4 with
    | None => false
    | Some low => if negb (low_surrogate low) then false else surrogates_from true rest
    end
  | _ => false
  end.

Lemma surrogates_unicode h1 h2 h3 h4 rest v :
  parse_hex4 h1 h2 h3 h4 = Some v →
  surrogates_from true (item_bytes (Unicode h1 h2 h3 h4) ++ rest) =
  if low_surrogate v then false else if high_surrogate v then after_high rest else surrogates_from true rest.
Proof. intros Hv. cbn [item_bytes app surrogates_from]. by rewrite Hv. Qed.

(** A literal that does not continue with an escape in the right place is
    refused after a high surrogate. *)
Lemma after_high_items items rest :
  Forall item_ok items →
  (∀ h1 h2 h3 h4 items', items = Unicode h1 h2 h3 h4 :: items' → False) →
  after_high (concat (map item_bytes items) ++ 34 :: rest) = false.
Proof.
  intros HF Hn. destruct HF as [|i items Hi HF]; [destruct rest as [|? [|? [|? [|? [|? ?]]]]]; done|].
  destruct i as [c|c|h1 h2 h3 h4]; [| |by destruct (Hn h1 h2 h3 h4 items)]; cbn [map concat item_bytes app].
  - destruct Hi as [_ Hi]. unfold after_high. destruct (Z.eqb_spec c 92); [done|]. cbn [negb orb].
    by repeat (case_match; try done).
  - simpl in Hi. unfold after_high. destruct (Z.eqb_spec c 117); [done|]. cbn [negb orb].
    rewrite orb_true_r. by repeat (case_match; try done).
Qed.

Lemma surrogates_items items rest :
  Forall item_ok items →
  surrogates_from true (concat (map item_bytes items) ++ 34 :: rest) =
  well_paired items && surrogates_from false rest.
Proof.
  remember (length items) as n eqn:Hn. revert items Hn.
  induction (lt_wf n) as [n _ IH]. intros items -> HF.
  destruct HF as [|i items Hi HF]; [done|]. cbn [map concat]. rewrite <- app_assoc.
  destruct i as [c|c|h1 h2 h3 h4].
  - destruct Hi as [H1 H2]. cbn [item_bytes app]. rewrite surrogates_plain by done.
    cbn [well_paired item_value]. apply (IH (length items)); [simpl; lia|done|done].
  - cbn [item_bytes app well_paired item_value surrogates_from]. simpl in Hi.
    destruct (Z.eqb_spec c 117); [done|]. apply (IH (length items)); [simpl; lia|done|done].
  - destruct Hi as [v Hv]. rewrite (surrogates_unicode _ _ _ _ _ v) by done.
    cbn [well_paired item_value]. rewrite Hv. destruct (low_surrogate v); [done|].
    destruct (high_surrogate v); [|apply (IH (length items)); [simpl; lia|done|done]].
    destruct items as [|[c|c|l1 l2 l3 l4] items]; [by apply (after_high_items [])|by apply after_high_items..|].
    apply Forall_cons in HF as [[w Hw] HF]. cbn [map concat item_value]. rewrite <- app_assoc.
    cbn [item_bytes app after_high]. cbn [Z.eqb negb orb]. simpl (negb (92 =? 92)). rewrite Hw.
    destruct (low_surrogate w); [|done]. cbn [negb andb]. apply (IH (length items)); [simpl; lia|done|done].
Qed.

(** [Decode] on input whose tokens are those of a value followed by [rest]. *)
Lemma Decode_value {T} (NewDecoder : string → decoder) (unmarshal : string → option T)
  input maxBytes maxDepth keys data v rest clean x :
  limit_read (maxBytes + 1) input = Some data →
  NewDecoder data = mkDecoder (json_tokens v ++ rest) clean →
  Decode NewDecoder unmarshal input maxBytes maxDepth (Some keys) = Ok x
  ↔ 0 < maxBytes ∧ 0 < maxDepth ∧ slength data ≤ maxBytes ∧ utf8_valid data = true
    ∧ validSurrogates data = true ∧ json_ok maxDepth (Some keys) 0 v = true ∧ rest = [] ∧ clean = true
    ∧ unmarshal data = Some x.
Proof.
  intros Hr Hd. unfold Decode. rewrite Hr, Hd.
  rewrite (scanValue_exact_gen maxDepth (Some keys) v) by (unfold scan_fuel; cbn [dc_tokens]; rewrite length_app; lia).
  rewrite orb_false_r.
  destruct ((maxBytes <=? 0) || (maxDepth <=? 0)) eqn:H1; [split; [done|]; go_bool; lia|].
  destruct (_ || _ || _) eqn:H2 in |- *.
  { split; [done|]. intros (_ & _ & Hl & Hu & Hs & _). apply orb_true_iff in H2 as [H2|H2];
      [apply orb_true_iff in H2 as [H2|H2]|]; [apply Z.ltb_lt in H2; lia|by rewrite Hu in H2|by rewrite Hs in H2]. }
  apply orb_false_iff in H1 as [Hb1%Z.leb_gt Hb2%Z.leb_gt].
  apply orb_false_iff in H2 as [[Hl%Z.ltb_ge Hu%negb_false_iff]%orb_false_iff Hs%negb_false_iff].
  destruct (json_ok maxDepth (Some keys) 0 v); [|naive_solver].
  unfold at_EOF. cbn [dc_tokens dc_clean]. destruct rest as [|t rest]; [|naive_solver].
  destruct clean; [|naive_solver]. cbn [negb]. destruct (unmarshal data); naive_solver.
Qed.

(** the loop over the required names, which collects them in reverse *)
Lemma required_loop required allowed :
  for_range (λ _ allowed name, refuse (name == "") || (name ∈? allowed) => tt ;; Ok (name :: allowed)) 0 [] required = Ok allowed
  ↔ (Forall (λ k, k ≠ "") required ∧ NoDup required) ∧ allowed = rev required.
Proof.
  rewrite (for_range_chain (λ l k, k :: l) _ (λ k, k ≠ "") (λ l k, k ∉ l)).
  2:{ intros j st k st'. rewrite refuse_Ok. go_bool. naive_solver. }
  assert (Hf : ∀ l acc : list string, fold_left (λ l k, k :: l) l acc = rev l ++ acc).
  { induction l as [|k l IH]; intros acc; simpl; [done|]. by rewrite IH, <- app_assoc. }
  assert (Hc : ∀ l acc, chain (λ l k, k :: l) (λ l (k : string), k ∉ l) acc l ↔ NoDup l ∧ ∀ k, k ∈ l → k ∉ acc).
  { induction l as [|k l IH]; intros acc; simpl; [split; [split; [constructor|set_solver]|done]|].
    rewrite IH, NoDup_cons. set_solver. }
  rewrite Hf, app_nil_r, Hc. set_solver.
Qed.

(** [DecodeEnvelope] on a document whose tokens are those of [v]. *)
Lemma DecodeEnvelope_value {T} (NewDecoder : string → decoder) (raw_fields : string → option (gmap string T))
  data maxBytes maxDepth required v fields :
  NewDecoder data = mkDecoder (json_tokens v) true →
  DecodeEnvelope NewDecoder raw_fields data maxBytes maxDepth required = Some fields
  ↔ (0 < maxBytes ∧ 0 < maxDepth ∧ 0 < len required ≤ 32 ∧ slength data ≤ maxBytes ∧ utf8_valid data = true
     ∧ validSurrogates data = true)
    ∧ (Forall (λ k, k ≠ "") required ∧ NoDup required) ∧ json_ok maxDepth None 0 v = true
    ∧ raw_fields data = Some fields ∧ Z.of_nat (size fields) = len required ∧ ∀ k, is_Some (fields !! k) → k ∈ required.
Proof.
  intros Hd. unfold DecodeEnvelope.
  pose proof (required_loop required) as Hreq.
  destruct (_ || _) eqn:H1 in |- *.
  { split; [done|]. intros ((? & ? & ? & ? & Hu & Hs) & _). rewrite Hu, Hs in H1. go_bool. lia. }
  assert (Hh : 0 < maxBytes ∧ 0 < maxDepth ∧ 0 < len required ≤ 32 ∧ slength data ≤ maxBytes ∧ utf8_valid data = true
     ∧ validSurrogates data = true).
  { go_bool. unfold len in *. split_hyps. split_and!; try lia; done. }
  destruct (for_range _ 0 [] required) as [allowed|] eqn:Hf in |- *.
  2:{ split; [done|]. intros (_ & HR & _). by rewrite (proj2 (Hreq (rev required)) (conj HR eq_refl)) in Hf. }
  apply Hreq in Hf as [HR ->]. rewrite Hd. rewrite <- (app_nil_r (json_tokens v)).
  rewrite (scanValue_exact_gen maxDepth None v) by (unfold scan_fuel; cbn [dc_tokens]; rewrite length_app; lia).
  destruct (json_ok maxDepth None 0 v); [|naive_solver]. cbn [at_EOF dc_tokens dc_clean negb].
  destruct (raw_fields data) as [fs|]; [|naive_solver].
  destruct (Z.eqb_spec (Z.of_nat (size fs)) (len required)) as [Hs|Hs]; [|naive_solver]. cbn [negb].
  assert (Hall : forallb (λ kv : string * T, kv.1 ∈? rev required) (map_to_list fs) = true ↔ ∀ k, is_Some (fs !! k) → k ∈ required).
  { rewrite forallb_forall. setoid_rewrite <- list_elem_of_In. setoid_rewrite bool_decide_eq_true. split.
    - intros H k [x Hx]. specialize (H (k, x) ltac:(by apply elem_of_map_to_list)). cbn in H. by apply list_elem_of_In, in_rev, list_elem_of_In.
    - intros H [k x] Hx%elem_of_map_to_list. apply list_elem_of_In, in_rev. rewrite rev_involutive. apply list_elem_of_In, H. by exists x. }
  destruct (forallb _ (map_to_list fs)); naive_solver.
Qed.

(** ** Properties *)

(** C34: [Decode] accepts exactly the strict documents. For input whose tokens
    are those of a JSON value followed by [rest], it succeeds if and only if the
    limits are positive, the text fits the byte limit and is valid UTF-8 without
    unpaired surrogate escapes, the value stays within the depth limit, holds no
    null, no duplicate and no unlisted key at any depth, nothing follows it, and
    the target type accepts it. *)
Theorem Decode_exact {T} (NewDecoder : string → decoder) (unmarshal : string → option T)
  input maxBytes maxDepth keys data v rest clean x :
  limit_read (maxBytes + 1) input = Some data →
  NewDecoder data = mkDecoder (json_tokens v ++ rest) clean →
  Decode NewDecoder unmarshal input maxBytes maxDepth (Some keys) = Ok x
  ↔ 0 < maxBytes ∧ 0 < maxDepth ∧ slength data ≤ maxBytes ∧ utf8_valid data = true
    ∧ validSurrogates data = true ∧ json_ok maxDepth (Some keys) 0 v = true ∧ rest = [] ∧ clean = true
    ∧ unmarshal data = Some x.
Proof. apply Decode_value. Qed.

(** Both JSON scanners terminate on every decoder, malformed input
    included: with [scan_fuel] they never run out of fuel, and a scan that
    succeeds has consumed at least one token. *)
Theorem scanners_terminate maxDepth keys d depth :
  scanValue maxDepth keys (scan_fuel d) d depth ≠ Err OutOfFuel
  ∧ scanJSONValue (scan_fuel d) d ≠ Err OutOfFuel
  ∧ (∀ d', scanValue maxDepth keys (scan_fuel d) d depth = Ok d' → (length (dc_tokens d') < length (dc_tokens d))%nat)
  ∧ (∀ d', scanJSONValue (scan_fuel d) d = Ok d' → (length (dc_tokens d') < length (dc_tokens d))%nat).
Proof.
  pose proof (proj1 (scanValue_ends maxDepth keys (scan_fuel d)) d depth ltac:(unfold scan_fuel, tokens_left; lia)) as H1.
  pose proof (proj1 (scanJSONValue_ends (scan_fuel d)) d ltac:(unfold scan_fuel, tokens_left; lia)) as H2.
  destruct (scanValue maxDepth keys (scan_fuel d) d depth) as [d1|e1]; destruct (scanJSONValue (scan_fuel d) d) as [d2|e2];
    simpl in *; split_and!; try done; naive_solver.
Qed.

Definition toy_tokens (v : json) (_ : string) : decoder := mkDecoder (json_tokens v) true.
Definition toy_value : json := JObject [("a", JScalar); ("b", JArray [JString "x"; JObject [("a", JScalar)]])].

Lemma Decode_exact_witness :
  Decode (toy_tokens toy_value) (λ s, Some s) (mkReader "{}" false) 16 3 (Some (λ k, (k == "a") || (k == "b"))) = Ok "{}"
  ∧ Decode (toy_tokens toy_value) (λ s, Some s) (mkReader "{}" false) 16 3 (Some (λ k, (k == "a"))) ≠ Ok "{}".
Proof.
  split.
  - apply (Decode_exact (toy_tokens toy_value) (λ s, Some s) (mkReader "{}" false) 16 3
      (λ k, (k == "a") || (k == "b")) "{}" toy_value [] true "{}").
    + reflexivity.
    + reflexivity.
    + split_and!; try reflexivity. vm_compute. discriminate.
  - intros Hk. apply (Decode_exact (toy_tokens toy_value) (λ s, Some s) (mkReader "{}" false) 16 3
      (λ k, (k == "a")) "{}" toy_value [] true "{}") in Hk as (_ & _ & _ & _ & _ & Hj & _); try reflexivity.
    vm_compute in Hj. discriminate Hj.
Defined.

(** [rejectDuplicateJSONKeys] accepts the tokens of a JSON value followed by
    [rest] if and only if no object of the value, at any depth, repeats a key
    and nothing follows the value; and on any tokens at all it ends with an
    answer. *)
Theorem rejectDuplicateJSONKeys_exact v rest clean d :
  (rejectDuplicateJSONKeys (mkDecoder (json_tokens v ++ rest) clean) = Ok tt
   ↔ json_nodup v = true ∧ rest = [] ∧ clean = true)
  ∧ rejectDuplicateJSONKeys d ≠ Err OutOfFuel.
Proof.
  split.
  - unfold rejectDuplicateJSONKeys.
    rewrite (scanJSONValue_exact_gen v) by (unfold scan_fuel; cbn [dc_tokens]; rewrite length_app; lia).
    destruct (json_nodup v); [|naive_solver]. simpl. unfold at_EOF. cbn [dc_tokens dc_clean].
    destruct rest; destruct clean; naive_solver.
  - unfold rejectDuplicateJSONKeys.
    pose proof (proj1 (scanJSONValue_ends (scan_fuel d)) d) as He.
    destruct (scanJSONValue (scan_fuel d) d) as [d1|e]; simpl.
    + by destruct (at_EOF d1).
    + intros [= ->]. apply He; [|done]. unfold scan_fuel, tokens_left. lia.
Qed.

(** [validSurrogates] accepts a well-formed text exactly when, in each of its
    string literals, every high surrogate escape is followed at once by a low
    surrogate escape and no low surrogate escape stands alone. *)
Theorem validSurrogates_exact data (segments : list segment) (tail : list Z) :
  codes data = concat (map segment_bytes segments) ++ tail →
  Forall segment_ok segments → Forall (λ c, c ≠ 34) tail →
  validSurrogates data = forallb (λ g, well_paired g.2) segments.
Proof.
  intros Hd HF Ht. unfold validSurrogates. rewrite Hd. clear Hd.
  induction HF as [|g segments [Ho Hi] HF IH]; simpl.
  - rewrite <- (app_nil_r tail). by rewrite surrogates_outside.
  - unfold segment_bytes at 1. rewrite <- !app_assoc. rewrite surrogates_outside by done.
    rewrite <- app_comm_cons. cbn [surrogates_from]. change (34 =? 34) with true. cbv iota. cbn [negb].
    rewrite <- !app_assoc. cbn [app]. rewrite surrogates_items by done. by rewrite IH.
Qed.

(** ["\ud83d\udc7b"] is accepted, ["\ud83d"] alone is not. *)
Definition ghost_pair : list item := [Unicode 100 56 51 100; Unicode 100 99 55 98].
Lemma validSurrogates_exact_witness :
  surrogates_from false (segment_bytes ([123], ghost_pair) ++ [125]) = true
  ∧ validSurrogates (String (ascii_of_nat 34) (String.append "\ud83d" (String (ascii_of_nat 34) ""))) = false.
Proof.
  split; [reflexivity|].
  rewrite (validSurrogates_exact _ [([], [Unicode 100 56 51 100])] []).
  - reflexivity.
  - reflexivity.
  - repeat constructor. vm_compute. eauto.
  - constructor.
Defined.

End ConfigJson.
