(* ===== verification/GoJson.v ===== *)
(** * Package [encoding/json], as the configuration documents use it

    [Marshal] prints a JSON value the way [json.Marshal] does (HTML-safe string
    escapes, no white space); [parse] reads the RFC 8259 grammar.  A document is
    text on the outside and a Go struct on the inside: the combinators [as_str],
    [as_uint], [as_slice] and [fld] are the decoding of values into struct
    fields.  The main lemma, [parse_print], is that parsing printed text gives
    the printed value back. *)

From S2P Require Import Prelude GoStrings Utf8 ConfigJson.
#[local] Set Warnings "-register-all".

Module GoJson.

(** ** Values.  A number keeps its literal, as with [UseNumber]. *)
Inductive jval :=
| JNull
| JBool (b : bool)
| JNum (lit : list Z)
| JStr (s : string)
| JArr (vs : list jval)
| JObj (ms : list (string * jval)).

Section jval_ind.
Context (P : jval → Prop) (Hn : P JNull) (Hb : ∀ b, P (JBool b)) (Hd : ∀ l, P (JNum l)) (Hs : ∀ s, P (JStr s))
  (Ha : ∀ vs, Forall P vs → P (JArr vs)) (Ho : ∀ ms, Forall (λ kv, P kv.2) ms → P (JObj ms)).
Fixpoint jval_rect' (v : jval) : P v :=
  match v with
  | JNull => Hn | JBool b => Hb b | JNum l => Hd l | JStr s => Hs s
  | JArr vs => Ha vs ((fix go l : Forall P l :=
      match l with [] => Forall_nil_2 P | x :: l => Forall_cons_2 P x l (jval_rect' x) (go l) end) vs)
  | JObj ms => Ho ms ((fix go l : Forall (λ kv, P kv.2) l :=
      match l with
      | [] => Forall_nil_2 _
      | kv :: l => Forall_cons_2 (λ kv, P kv.2) kv l (jval_rect' kv.2) (go l)
      end) ms)
  end.
End jval_ind.

(** ** Printing: [json.Marshal] with HTML escaping, its default *)
Definition hex_byte (n : Z) : Z := if n <? 10 then 48 + n else 87 + n.
Definition u_escape (r : Z) : list Z :=
  [92; 117; hex_byte (r / 4096); hex_byte ((r / 256) mod 16); hex_byte ((r / 16) mod 16); hex_byte (r mod 16)].
(** [htmlSafeSet]: printable ASCII less the quote, the backslash and < > & *)
Definition html_safe (r : Z) : bool :=
  (32 <=? r) && negb (r =? 34) && negb (r =? 92) && negb (r =? 60) && negb (r =? 62) && negb (r =? 38).
Definition escape_ascii (r : Z) : list Z :=
  if html_safe r then [r]
  else if (r =? 34) || (r =? 92) then [92; r]
  else if r =? 8 then [92; 98]
  else if r =? 12 then [92; 102]
  else if r =? 10 then [92; 110]
  else if r =? 13 then [92; 114]
  else if r =? 9 then [92; 116]
  else u_escape r.
(** One entry of the range over the string: invalid bytes become U+FFFD, the two
    line separators are escaped. *)
Definition escape_entry (e : Z * Z * nat) : list Z :=
  let r := e.1.2 in
  if r <? 128 then escape_ascii r
  else if invalid_rune e then u_escape RuneError
  else if (r =? 8232) || (r =? 8233) then u_escape r
  else encode_rune r.
Definition quote (s : string) : list Z := 34 :: concat (map escape_entry (range_string s)) ++ [34].

Fixpoint joined (ls : list (list Z)) : list Z :=
  match ls with
  | [] => []
  | [l] => l
  | l :: ls' => l ++ 44 :: joined ls'
  end.
Fixpoint print (v : jval) : list Z :=
  match v with
  | JNull => codes "null"
  | JBool true => codes "true"
  | JBool false => codes "false"
  | JNum lit => lit
  | JStr s => quote s
  | JArr vs => 91 :: joined (map print vs) ++ [93]
  | JObj ms => 123 :: joined (map (λ kv, quote kv.1 ++ 58 :: print kv.2) ms) ++ [125]
  end.
Definition Marshal (v : jval) : string := str_of (print v).

(** ** Parsing *)
Definition is_ws (c : Z) : bool := (c =? 32) || (c =? 9) || (c =? 10) || (c =? 13).
Fixpoint skip_ws (s : list Z) : list Z :=
  match s with c :: s' => if is_ws c then skip_ws s' else s | [] => [] end.

(** the escapes of one character *)
Definition simple_escape (e : Z) : option Z :=
  if (e =? 34) || (e =? 92) || (e =? 47) then Some e
  else if e =? 98 then Some 8
  else if e =? 102 then Some 12
  else if e =? 110 then Some 10
  else if e =? 114 then Some 13
  else if e =? 116 then Some 9
  else None.
Definition surrogate (v : Z) : bool := ConfigJson.high_surrogate v || ConfigJson.low_surrogate v.
Definition prepend (l : list Z) (r : option (list Z * list Z)) : option (list Z * list Z) :=
  '(a, rest) ← r; Some (l ++ a, rest).

(** After the opening quote: the characters up to the closing one and the text
    after it.  Bytes above ASCII are copied: the callers have checked that the
    text is valid UTF-8. *)
Fixpoint scan_string (s : list Z) : option (list Z * list Z) :=
  match s with
  | [] => None
  | c :: s1 =>
    if c =? 34 then Some ([], s1)
    else if c <? 32 then None
    else if negb (c =? 92) then prepend [c] (scan_string s1)
    else match s1 with
    | [] => None
    | e :: s2 =>
      if negb (e =? 117) then
        match simple_escape e with Some r => prepend [r] (scan_string s2) | None => None end
      else match s2 with
      | h1 :: h2 :: h3 :: h4 :: s3 =>
        match ConfigJson.parse_hex4 h1 h2 h3 h4 with
        | None => None
        | Some v =>
          if negb (surrogate v) then prepend (encode_rune v) (scan_string s3)
          else match s3 with
          | b :: u :: l1 :: l2 :: l3 :: l4 :: s4 =>
            match ConfigJson.parse_hex4 l1 l2 l3 l4 with
            | Some low =>
              if (b =? 92) && (u =? 117) && ConfigJson.high_surrogate v && ConfigJson.low_surrogate low
              then prepend (encode_rune ((v - 55296) * 1024 + (low - 56320) + 65536)) (scan_string s4)
              else prepend (encode_rune RuneError) (scan_string s3)
            | None => prepend (encode_rune RuneError) (scan_string s3)
            end
          | _ => prepend (encode_rune RuneError) (scan_string s3)
          end
        end
      | _ => None
      end
    end
  end.

Fixpoint scan_digits (s : list Z) : list Z * list Z :=
  match s with
  | c :: s' => if is_digit c then let '(ds, r) := scan_digits s' in (c :: ds, r) else ([], s)
  | [] => ([], [])
  end.
(** the digits of a fraction or an exponent: at least one *)
Definition some_digits (s : list Z) : option (list Z * list Z) :=
  match scan_digits s with ([], _) => None | r => Some r end.
Definition scan_integer (s : list Z) : option (list Z * list Z) :=
  match s with
  | c :: s' => if c =? 48 then Some ([48], s')
               else if is_digit c then Some (scan_digits s) else None
  | [] => None
  end.
Definition scan_fraction (s : list Z) : option (list Z * list Z) :=
  match s with
  | c :: s' => if c =? 46 then prepend [46] (some_digits s') else Some ([], s)
  | [] => Some ([], [])
  end.
Definition scan_exponent (s : list Z) : option (list Z * list Z) :=
  match s with
  | c :: s' =>
    if (c =? 101) || (c =? 69) then
      match s' with
      | d :: s'' => if (d =? 43) || (d =? 45) then prepend [c; d] (some_digits s'') else prepend [c] (some_digits s')
      | [] => None
      end
    else Some ([], s)
  | [] => Some ([], [])
  end.
Definition scan_number (s : list Z) : option (list Z * list Z) :=
  let '(sign, s0) := match s with c :: s' => if c =? 45 then ([45], s') else ([], s) | [] => ([], []) end in
  '(i, s1) ← scan_integer s0; '(f, s2) ← scan_fraction s1; '(e, s3) ← scan_exponent s2;
  Some (sign ++ i ++ f ++ e, s3).

Fixpoint strip (lit s : list Z) : option (list Z) :=
  match lit, s with
  | [], _ => Some s
  | c :: lit', d :: s' => if c =? d then strip lit' s' else None
  | _, [] => None
  end.

Section loops.
Context {V : Type} (pv : list Z → option (V * list Z)).
(** the elements of a nonempty array, up to the closing bracket *)
Fixpoint elements (n : nat) (s : list Z) : option (list V * list Z) :=
  match n with
  | O => None
  | S n =>
    '(v, s1) ← pv s;
    match skip_ws s1 with
    | c :: s2 => if c =? 44 then '(vs, s3) ← elements n s2; Some (v :: vs, s3)
                 else if c =? 93 then Some ([v], s2) else None
    | [] => None
    end
  end.
(** one member: key, colon, value *)
Definition member (s : list Z) : option ((string * V) * list Z) :=
  match skip_ws s with
  | c :: s1 =>
    if negb (c =? 34) then None
    else '(k, s2) ← scan_string s1;
    match skip_ws s2 with
    | d :: s3 => if d =? 58 then '(v, s4) ← pv s3; Some ((str_of k, v), s4) else None
    | [] => None
    end
  | [] => None
  end.
Fixpoint members (n : nat) (s : list Z) : option (list (string * V) * list Z) :=
  match n with
  | O => None
  | S n =>
    '(m, s1) ← member s;
    match skip_ws s1 with
    | c :: s2 => if c =? 44 then '(ms, s3) ← members n s2; Some (m :: ms, s3)
                 else if c =? 125 then Some ([m], s2) else None
    | [] => None
    end
  end.
End loops.

Fixpoint parse_value (n : nat) (s : list Z) : option (jval * list Z) :=
  match n with
  | O => None
  | S n =>
    match skip_ws s with
    | [] => None
    | c :: s1 =>
      if c =? 34 then '(a, s2) ← scan_string s1; Some (JStr (str_of a), s2)
      else if c =? 91 then
        match skip_ws s1 with
        | d :: s2 => if d =? 93 then Some (JArr [], s2)
                     else '(vs, s3) ← elements (parse_value n) n s1; Some (JArr vs, s3)
        | [] => None
        end
      else if c =? 123 then
        match skip_ws s1 with
        | d :: s2 => if d =? 125 then Some (JObj [], s2)
                     else '(ms, s3) ← members (parse_value n) n s1; Some (JObj ms, s3)
        | [] => None
        end
      else if c =? 110 then s2 ← strip (codes "null") (c :: s1); Some (JNull, s2)
      else if c =? 116 then s2 ← strip (codes "true") (c :: s1); Some (JBool true, s2)
      else if c =? 102 then s2 ← strip (codes "false") (c :: s1); Some (JBool false, s2)
      else '(l, s2) ← scan_number (c :: s1); Some (JNum l, s2)
    end
  end.

(** A value costs at most one unit per byte. *)
Definition parse (data : string) : option jval :=
  let s := codes data in
  '(v, rest) ← parse_value (S (length s)) s;
  match skip_ws rest with [] => Some v | _ => None end.

(** [json.Unmarshal] into a [map[string]json.RawMessage]: the members of the
    object with the exact text of each value. *)
Definition raw_value (n : nat) (s : list Z) : option (list Z * list Z) :=
  let s := skip_ws s in
  '(_, rest) ← parse_value n s;
  Some (take (length s - length rest)%nat s, rest).
Definition raw_members (data : string) : option (list (string * string)) :=
  let s := codes data in
  match skip_ws s with
  | c :: s1 =>
    if negb (c =? 123) then None
    else match skip_ws s1 with
    | d :: s2 =>
      '(ms, rest) ← (if d =? 125 then Some ([], s2) else members (raw_value (length s)) (length s) s1);
      match skip_ws rest with [] => Some ((λ kv, (kv.1, str_of kv.2)) <$> ms) | _ => None end
    | [] => None
    end
  | [] => None
  end.

(** ** The token stream of a decoder, for the scanners of [configjson]

    A text that is not one JSON document delivers no clean stream; which call
    reports the error does not matter to callers that redact it. *)
Fixpoint shape (v : jval) : ConfigJson.json :=
  match v with
  | JNull => ConfigJson.JNull
  | JBool _ | JNum _ => ConfigJson.JScalar
  | JStr s => ConfigJson.JString s
  | JArr vs => ConfigJson.JArray (map shape vs)
  | JObj ms => ConfigJson.JObject (map (λ kv, (kv.1, shape kv.2)) ms)
  end.
Definition NewDecoder (data : string) : ConfigJson.decoder :=
  match parse data with
  | Some v => ConfigJson.mkDecoder (ConfigJson.json_tokens (shape v)) true
  | None => ConfigJson.mkDecoder [] false
  end.

(** ** Decoding values into Go types; [null] leaves the zero value *)
Definition as_str (v : jval) : option string :=
  match v with JStr s => Some s | JNull => Some EmptyString | _ => None end.
Definition as_bool (v : jval) : option bool :=
  match v with JBool b => Some b | JNull => Some false | _ => None end.
(** a literal of digits in the range of the type; fractions and exponents are refused *)
Definition as_uint (w : Z) (v : jval) : option Z :=
  match v with JNum l => ParseUint w (str_of l) | JNull => Some 0 | _ => None end.
Definition as_int (v : jval) : option Z :=
  match v with
  | JNum (45 :: l) => n ← ParseUint 64 (str_of l); if n <=? 2 ^ 63 then Some (- n) else None
  | JNum l => ParseUint 63 (str_of l)
  | JNull => Some 0
  | _ => None
  end.
Definition as_slice {A} (dec : jval → option A) (v : jval) : option (slice A) :=
  match v with JArr vs => Some <$> mapM dec vs | JNull => Some None | _ => None end.
(** a pointer to a value *)
Definition as_ptr {A} (dec : jval → option A) (v : jval) : option (option A) :=
  match v with JNull => Some None | _ => Some <$> dec v end.

(** The scanners have refused repeated keys before a struct is filled. *)
Fixpoint get (k : string) (ms : list (string * jval)) : option jval :=
  match ms with [] => None | (k', v) :: ms' => if k' == k then Some v else get k ms' end.
(** a struct field: its zero value when the member is absent *)
Definition fld {A} (k : string) (dec : jval → option A) (zero : A) (ms : list (string * jval)) : option A :=
  match get k ms with None => Some zero | Some v => dec v end.
(** [DisallowUnknownFields] on one object *)
Definition known (names : list string) (ms : list (string * jval)) : bool :=
  forallb (λ kv, kv.1 ∈? names) ms.

(** ** Encoding Go values *)
Definition enc_uint (n : Z) : jval := JNum (codes (FormatUint n)).
Definition enc_int (n : Z) : jval := if n <? 0 then JNum (45 :: codes (FormatUint (- n))) else enc_uint n.
Definition enc_slice {A} (enc : A → jval) (s : slice A) : jval :=
  match s with None => JNull | Some l => JArr (map enc l) end.
(** [omitempty] on a string *)
Definition omit_empty (k s : string) : list (string * jval) := if s == "" then [] else [(k, JStr s)].
(** decoding into a struct: unknown members are refused, [null] leaves the zero
    value *)
Definition as_struct {A} (names : list string) (zero : A) (f : list (string * jval) → option A) (v : jval) : option A :=
  match v with
  | JNull => Some zero
  | JObj ms => if known names ms then f ms else None
  | _ => None
  end.

(** [configjson.Decode] into a Go type, and [configjson.DecodeEnvelope] with raw
    members. *)
Definition DecodeInto {T} (dec : jval → option T) (input : reader) (maxBytes maxDepth : Z) (keys : list string) :
  res ConfigJson.decode_error T :=
  ConfigJson.Decode NewDecoder (λ data, parse data ≫= dec) input maxBytes maxDepth (Some (λ k, k ∈? keys)).
Definition RawEnvelope (data : string) (maxBytes maxDepth : Z) (required : list string) : option (gmap string string) :=
  ConfigJson.DecodeEnvelope NewDecoder (λ data, list_to_map <$> raw_members data) data maxBytes maxDepth required.
(** [json.Unmarshal] of a raw member into a field *)
Definition Unmarshal {T} (dec : jval → option T) (data : string) : option T := parse data ≫= dec.
(** [bytes.NewReader] *)
Definition bytes_reader (data : string) : reader := mkReader data false.

(** ** Lemmas: strings *)
Lemma hex_digit_byte n : 0 ≤ n < 16 → ConfigJson.hex_digit (hex_byte n) = Some n.
Proof.
  intros Hn. unfold hex_byte, ConfigJson.hex_digit, is_digit. destruct (Z.ltb_spec n 10) as [H|H].
  - rewrite (proj2 (Z.leb_le 48 _)), (proj2 (Z.leb_le (48 + n) 57)) by lia. simpl. f_equal. lia.
  - rewrite (proj2 (Z.leb_le 48 _)), (proj2 (Z.leb_gt (87 + n) 57)) by lia.
    rewrite (proj2 (Z.leb_le 97 _)), (proj2 (Z.leb_le (87 + n) 102)) by lia. simpl. f_equal. lia.
Qed.

Lemma parse_hex4_escape r : 0 ≤ r < 65536 →
  ConfigJson.parse_hex4 (hex_byte (r / 4096)) (hex_byte ((r / 256) mod 16)) (hex_byte ((r / 16) mod 16)) (hex_byte (r mod 16))
  = Some r.
Proof.
  intros Hr. unfold ConfigJson.parse_hex4.
  rewrite !hex_digit_byte by (try (apply Z.mod_pos_bound; lia); Z.div_mod_to_equations; lia).
  simpl. f_equal. replace (r / 4096) with (r / 16 / 16 / 16) by (rewrite !Z.div_div by lia; done).
  replace (r / 256) with (r / 16 / 16) by (rewrite Z.div_div by lia; done). Z.div_mod_to_equations. lia.
Qed.

Lemma scan_u_escape r s : 0 ≤ r < 65536 → surrogate r = false →
  scan_string (u_escape r ++ s) = prepend (encode_rune r) (scan_string s).
Proof.
  intros Hr Hs. unfold u_escape. cbn [app scan_string].
  change (92 =? 34) with false. change (92 <? 32) with false. change (92 =? 92) with true.
  change (117 =? 117) with true. cbn [negb]. by rewrite parse_hex4_escape, Hs by done.
Qed.

Lemma prepend_nil r : prepend [] r = r.
Proof. by destruct r as [[]|]. Qed.
Lemma prepend_app a b r : prepend (a ++ b) r = prepend a (prepend b r).
Proof. destruct r as [[]|]; [|done]. simpl. by rewrite app_assoc. Qed.

Lemma scan_high l s : Forall (λ c, 128 ≤ c) l → scan_string (l ++ s) = prepend l (scan_string s).
Proof.
  induction 1 as [|c l Hc Hl IH]; [by rewrite prepend_nil|].
  cbn [app scan_string]. rewrite (proj2 (Z.eqb_neq c 34)), (proj2 (Z.ltb_ge c 32)), (proj2 (Z.eqb_neq c 92)) by lia.
  cbn [negb]. rewrite IH. by rewrite <- prepend_app.
Qed.

Lemma scan_escape_ascii r s : 0 ≤ r < 128 →
  scan_string (escape_ascii r ++ s) = prepend [r] (scan_string s).
Proof.
  intros Hr. unfold escape_ascii. destruct (html_safe r) eqn:Hs.
  - unfold html_safe in Hs. go_bool. split_hyps. cbn [app scan_string].
    rewrite (proj2 (Z.eqb_neq r 34)), (proj2 (Z.ltb_ge r 32)), (proj2 (Z.eqb_neq r 92)) by lia. done.
  - destruct (Z.eqb_spec r 34) as [->|]; [done|]. destruct (Z.eqb_spec r 92) as [->|]; [done|]. cbn [orb].
    destruct (Z.eqb_spec r 8) as [->|]; [done|]. destruct (Z.eqb_spec r 12) as [->|]; [done|].
    destruct (Z.eqb_spec r 10) as [->|]; [done|]. destruct (Z.eqb_spec r 13) as [->|]; [done|].
    destruct (Z.eqb_spec r 9) as [->|]; [done|].
    rewrite scan_u_escape, encode_rune_low; [done|lia|lia|].
    unfold surrogate, ConfigJson.high_surrogate, ConfigJson.low_surrogate. lia.
Qed.

Lemma scan_entries es s : Forall (λ e, 0 ≤ e.1.2) es → forallb (λ e, negb (invalid_rune e)) es = true →
  scan_string (concat (map escape_entry es) ++ s) = prepend (concat (map (λ e, encode_rune e.1.2) es)) (scan_string s).
Proof.
  induction 1 as [|e es He Hes IH]; cbn [forallb map concat]; intros Hv; [by rewrite prepend_nil|].
  apply andb_true_iff in Hv as [Hv Hes']. rewrite <- app_assoc.
  assert (H : ∀ t, scan_string (escape_entry e ++ t) = prepend (encode_rune e.1.2) (scan_string t)).
  { intros t. unfold escape_entry. apply negb_true_iff in Hv. rewrite Hv.
    destruct (Z.ltb_spec e.1.2 128); [rewrite scan_escape_ascii, encode_rune_low by lia; done|].
    destruct (Z.eqb_spec e.1.2 8232) as [->|]; [by apply scan_u_escape|].
    destruct (Z.eqb_spec e.1.2 8233) as [->|]; [by apply scan_u_escape|].
    apply scan_high, encode_rune_high. done. }
  by rewrite H, IH, prepend_app by done.
Qed.

Lemma scan_quote s rest : utf8_valid s = true → 
  scan_string (concat (map escape_entry (range_string s)) ++ 34 :: rest) = Some (codes s, rest).
Proof.
  intros Hv. rewrite scan_entries by (apply range_nonneg, codes_bytes || done).
  rewrite utf8_encode by done. simpl. by rewrite app_nil_r.
Qed.

(** ** The values the encoders produce: canonical unsigned numbers and valid
    UTF-8 strings *)
Definition num_ok (l : list Z) : bool :=
  match l with
  | [] => false
  | [d] => is_digit d
  | c :: _ => negb (c =? 48) && forallb is_digit l
  end.
Fixpoint jwf (v : jval) : bool :=
  match v with
  | JNull | JBool _ => true
  | JNum l => num_ok l
  | JStr s => utf8_valid s
  | JArr vs => forallb jwf vs
  | JObj ms => forallb (λ kv, utf8_valid kv.1 && jwf kv.2) ms
  end.
Fixpoint jsize (v : jval) : nat :=
  match v with
  | JArr vs => S (sum_list_with jsize vs)
  | JObj ms => S (sum_list_with (λ kv, jsize kv.2) ms)
  | _ => 1
  end.

(** what may follow a number *)
Definition stops (rest : list Z) : bool :=
  match rest with
  | [] => true
  | c :: _ => negb (is_digit c) && negb (c =? 46) && negb (c =? 101) && negb (c =? 69)
  end.

Lemma scan_digits_all ds rest : forallb is_digit ds = true → stops rest = true →
  scan_digits (ds ++ rest) = (ds, rest).
Proof.
  intros Hd Hr. induction ds as [|d ds IH]; cbn [app scan_digits forallb] in *.
  - destruct rest as [|c rest]; [done|]. cbn [scan_digits stops] in *. by destruct (is_digit c).
  - apply andb_true_iff in Hd as [-> Hd]. by rewrite IH.
Qed.

Lemma scan_number_ok l rest : num_ok l = true → stops rest = true → scan_number (l ++ rest) = Some (l, rest).
Proof.
  intros Hl Hr. destruct l as [|c l]; [done|].
  assert (Hc : is_digit c = true).
  { destruct l; [done|]. cbn [num_ok forallb] in Hl. go_bool. naive_solver. }
  assert (Hi : scan_integer (c :: l ++ rest) = Some (c :: l, rest)).
  { unfold scan_integer. destruct (Z.eqb_spec c 48) as [->|Hz].
    - destruct l; [done|]. cbn [num_ok] in Hl. done.
    - rewrite Hc. change (c :: l ++ rest) with ((c :: l) ++ rest). rewrite scan_digits_all; [done| |done].
      destruct l; cbn [num_ok forallb] in *; go_bool; naive_solver. }
  unfold scan_number. cbn [app]. destruct (Z.eqb_spec c 45) as [->|]; [done|]. rewrite Hi. cbn [mbind option_bind].
  assert (Hf : scan_fraction rest = Some ([], rest) ∧ scan_exponent rest = Some ([], rest)).
  { destruct rest as [|d rest]; [done|]. cbn [stops] in Hr. go_bool. split_hyps.
    unfold scan_fraction, scan_exponent.
    rewrite (proj2 (Z.eqb_neq d 46)), (proj2 (Z.eqb_neq d 101)), (proj2 (Z.eqb_neq d 69)) by done. done. }
  destruct Hf as [Hf He]. rewrite Hf. cbn [mbind option_bind]. rewrite He. cbn [mbind option_bind]. by rewrite !app_nil_r.
Qed.

(** The first byte of a printed value is not white space and closes nothing. *)
Definition opens (c : Z) : bool := negb (is_ws c) && negb (c =? 93) && negb (c =? 125) && negb (c =? 44).
Lemma print_head v : jwf v = true → ∃ c t, print v = c :: t ∧ opens c = true.
Proof.
  destruct v as [|[]|l|s|vs|ms]; cbn [print jwf]; intros Hw; try (eexists _, _; split; [reflexivity|done]).
  destruct l as [|c l]; [done|]. exists c, l. split; [done|].
  assert (Hc : is_digit c = true) by (destruct l; cbn [num_ok forallb] in Hw; go_bool; naive_solver).
  unfold opens, is_ws, is_digit in *. go_bool. lia.
Qed.

Lemma skip_ws_opens c t : opens c = true → skip_ws (c :: t) = c :: t.
Proof. unfold opens. cbn [skip_ws]. by destruct (is_ws c). Qed.

Lemma joined_cons l ls : ls ≠ [] → joined (l :: ls) = l ++ 44 :: joined ls.
Proof. by destruct ls. Qed.

Section loops_print.
Context (m : nat).
Definition reads_back (v : jval) : Prop :=
  ∀ rest, stops rest = true → parse_value m (print v ++ rest) = Some (v, rest).

Lemma elements_print vs rest : vs ≠ [] → Forall reads_back vs → ∀ n, (length vs ≤ n)%nat →
  elements (parse_value m) n (joined (map print vs) ++ 93 :: rest) = Some (vs, rest).
Proof.
  intros Hne HF. induction HF as [|v vs Hv HF IH]; [done|]. intros [|n] Hn; cbn [length] in Hn; [lia|].
  destruct vs as [|w vs].
  - cbn [map joined elements]. rewrite (Hv (93 :: rest)) by done. done.
  - cbn [map]. rewrite joined_cons by done. rewrite <- app_assoc. cbn [elements app].
    rewrite Hv by done. cbn [mbind option_bind]. change (skip_ws (44 :: ?x)) with (44 :: x). cbn iota.
    change (44 =? 44) with true. cbn iota. rewrite IH by (done || cbn [length] in *; lia). done.
Qed.

Lemma member_print k v rest : utf8_valid k = true → reads_back v → stops rest = true →
  member (parse_value m) (quote k ++ 58 :: print v ++ rest) = Some ((k, v), rest).
Proof.
  intros Hk Hv Hr. unfold member, quote. cbn [app]. rewrite skip_ws_opens by done.
  change (negb (34 =? 34)) with false. cbn iota. rewrite <- app_assoc. cbn [app].
  rewrite scan_quote by done. cbn [mbind option_bind]. rewrite skip_ws_opens by done.
  change (58 =? 58) with true. cbn iota. rewrite Hv by done. cbn [mbind option_bind]. by rewrite str_of_codes.
Qed.

Lemma members_print ms rest : ms ≠ [] → Forall (λ kv, utf8_valid kv.1 = true ∧ reads_back kv.2) ms → ∀ n, (length ms ≤ n)%nat →
  members (parse_value m) n (joined (map (λ kv, quote kv.1 ++ 58 :: print kv.2) ms) ++ 125 :: rest) = Some (ms, rest).
Proof.
  intros Hne HF. induction HF as [|[k v] ms [Hk Hv] HF IH]; [done|]. intros [|n] Hn; cbn [length] in Hn; [lia|].
  destruct ms as [|w ms].
  - cbn [map joined members fst snd]. rewrite <- app_assoc. cbn [app]. rewrite member_print by done. done.
  - cbn [map]. rewrite joined_cons by done. cbn [fst snd]. rewrite <- !app_assoc. cbn [members app].
    rewrite member_print by done. cbn [mbind option_bind]. change (skip_ws (44 :: ?x)) with (44 :: x).
    cbn iota. change (44 =? 44) with true. cbn iota. cbn [map fst snd] in IH. rewrite IH by (done || cbn [length] in *; lia). done.
Qed.
End loops_print.

Lemma jsize_pos v : (1 ≤ jsize v)%nat.
Proof. destruct v; simpl; lia. Qed.

Lemma sum_list_elem {A} (f : A → nat) l x : x ∈ l → (f x ≤ sum_list_with f l)%nat.
Proof. induction 1; simpl; lia. Qed.

Lemma sum_list_length {A} (f : A → nat) l : (∀ x, 1 ≤ f x)%nat → (length l ≤ sum_list_with f l)%nat.
Proof. intros Hf. induction l as [|x l IH]; simpl; [lia|]. specialize (Hf x). lia. Qed.

Lemma parse_array n vs rest : forallb jwf vs = true → Forall (reads_back n) vs → (length vs ≤ n)%nat →
  parse_value (S n) (print (JArr vs) ++ rest) = Some (JArr vs, rest).
Proof.
  intros Hw HF Hl. cbn [print app parse_value]. rewrite skip_ws_opens by done.
  change (91 =? 34) with false. change (91 =? 91) with true. cbn iota.
  destruct vs as [|v vs]; [done|]. rewrite <- app_assoc. cbn [app].
  assert (Hh : ∃ c t, joined (map print (v :: vs)) = c :: t ∧ opens c = true).
  { cbn [forallb] in Hw. apply andb_true_iff in Hw as [Hw _]. destruct (print_head v Hw) as (c & t & Hp & Ho).
    destruct vs; cbn [map]; [|rewrite joined_cons by done]; rewrite Hp; eexists _, _; split; try done; reflexivity. }
  destruct Hh as (c & t & Hj & Ho). rewrite Hj. cbn [app]. rewrite skip_ws_opens by done.
  unfold opens in Ho. go_bool. split_hyps.
  rewrite (proj2 (Z.eqb_neq c 93)) by done. change (c :: t ++ 93 :: rest) with ((c :: t) ++ 93 :: rest).
  rewrite <- Hj. by rewrite elements_print.
Qed.

Lemma members_head ms : ms ≠ [] → ∃ t, joined (map (λ kv, quote kv.1 ++ 58 :: print kv.2) ms) = 34 :: t.
Proof.
  destruct ms as [|kv ms]; [done|]. intros _.
  destruct ms; cbn [map]; [|rewrite joined_cons by done]; unfold quote at 1; eexists; reflexivity.
Qed.

Lemma parse_object n ms rest :
  Forall (λ kv, utf8_valid kv.1 = true ∧ reads_back n kv.2) ms → (length ms ≤ n)%nat →
  parse_value (S n) (print (JObj ms) ++ rest) = Some (JObj ms, rest).
Proof.
  intros HF Hl. cbn [print app parse_value]. rewrite skip_ws_opens by done.
  change (123 =? 34) with false. change (123 =? 91) with false. change (123 =? 123) with true. cbn iota.
  destruct ms as [|kv ms]; [done|]. rewrite <- app_assoc. cbn [app].
  destruct (members_head (kv :: ms) ltac:(done)) as (t & Hj). rewrite Hj. cbn [app].
  rewrite skip_ws_opens by done. change (34 =? 125) with false. cbn iota.
  change (34 :: t ++ 125 :: rest) with ((34 :: t) ++ 125 :: rest). rewrite <- Hj. by rewrite members_print.
Qed.

(** Parsing printed text gives the value back and leaves what follows. *)
Lemma parse_print v : jwf v = true → ∀ n rest, (jsize v ≤ n)%nat → stops rest = true →
  parse_value n (print v ++ rest) = Some (v, rest).
Proof.
  induction v as [|b|l|s|vs IH|ms IH] using jval_rect'; intros Hw [|n] rest Hn Hr; try (cbn [jsize] in Hn; lia).
  - done.
  - by destruct b.
  - destruct (print_head (JNum l) Hw) as (c & t & Hp & Ho). cbn [print jwf] in Hp, Hw.
    assert (Hc : is_digit c = true) by (subst l; destruct t; cbn [num_ok forallb] in Hw; go_bool; naive_solver).
    cbn [print]. subst l. cbn [app parse_value]. rewrite skip_ws_opens by done. unfold is_digit in Hc. go_bool.
    repeat match goal with |- context [c =? ?b] => rewrite (proj2 (Z.eqb_neq c b)) by lia end.
    change (c :: t ++ rest) with ((c :: t) ++ rest). by rewrite scan_number_ok.
  - cbn [print quote app parse_value]. rewrite skip_ws_opens by done. change (34 =? 34) with true. cbn iota.
    rewrite <- app_assoc. cbn [app]. rewrite scan_quote by done. cbn [mbind option_bind]. by rewrite str_of_codes.
  - cbn [jwf] in Hw. apply parse_array; [done| |pose proof (sum_list_length jsize vs jsize_pos); cbn [jsize] in Hn; lia].
    rewrite Forall_forall in IH |- *. intros x Hx rest' Hr'. rewrite forallb_forall in Hw.
    apply IH; [done|by apply Hw, list_elem_of_In| |done].
    pose proof (sum_list_elem jsize vs x Hx). cbn [jsize] in Hn. lia.
  - cbn [jwf] in Hw. apply parse_object.
    + rewrite Forall_forall in IH |- *. intros x Hx. rewrite forallb_forall in Hw.
      pose proof (Hw x ltac:(by apply list_elem_of_In)) as Hx'. apply andb_true_iff in Hx' as [Hk Hx'].
      split; [done|]. intros rest' Hr'. apply IH; [done|done| |done].
      pose proof (sum_list_elem (λ kv, jsize kv.2) ms x Hx). cbn [jsize] in Hn. cbn beta in *. lia.
    + pose proof (sum_list_length (λ kv : string * jval, jsize kv.2) ms (λ kv, jsize_pos kv.2)).
      cbn [jsize] in Hn. lia.
Qed.

(** The fuel of [parse] covers every printed value. *)
Lemma joined_length {A} (f : A → list Z) (g : A → nat) l :
  Forall (λ x, g x ≤ length (f x))%nat l → (sum_list_with g l ≤ length (joined (map f l)))%nat.
Proof.
  induction 1 as [|x l Hx Hl IH]; [simpl; lia|]. cbn [sum_list_with map].
  destruct l; [cbn in *; lia|]. cbn [map] in *. rewrite joined_cons, length_app by done. cbn [length]. lia.
Qed.

Lemma jsize_print v : jwf v = true → (jsize v ≤ length (print v))%nat.
Proof.
  induction v as [|b|l|s|vs IH|ms IH] using jval_rect'; cbn [jwf jsize print]; intros Hw; try solve [cbn; lia | destruct b; cbn; lia].
  - destruct l; [done|]. cbn. lia.
  - cbn [length]. rewrite length_app. cbn [length].
    assert (HF : Forall (λ x, jsize x ≤ length (print x))%nat vs); [|pose proof (joined_length print jsize vs HF); lia].
    rewrite Forall_forall in IH |- *. rewrite forallb_forall in Hw. intros x Hx. apply IH; [done|by apply Hw, list_elem_of_In].
  - cbn [length]. rewrite length_app. cbn [length].
    assert (HF : Forall (λ kv, jsize kv.2 ≤ length (quote kv.1 ++ 58%Z :: print kv.2))%nat ms);
      [|pose proof (joined_length (λ kv, quote kv.1 ++ 58 :: print kv.2) (λ kv, jsize kv.2) ms HF); lia].
    rewrite Forall_forall in IH |- *. rewrite forallb_forall in Hw. intros x Hx.
    rewrite length_app. cbn [length]. specialize (Hw x ltac:(by apply list_elem_of_In)). apply andb_true_iff in Hw as [_ Hw].
    specialize (IH x Hx Hw). lia.
Qed.

(** ** Printed text is bytes, valid UTF-8, and has only paired surrogates *)
Lemma Forall_concat_map {A B} (P : B → Prop) (f : A → list B) l : Forall (λ x, Forall P (f x)) l → Forall P (concat (map f l)).
Proof. induction 1; simpl; [constructor|]. by apply Forall_app. Qed.

Lemma hex_byte_ascii n : 0 ≤ n < 16 → 48 ≤ hex_byte n < 103.
Proof. unfold hex_byte. intros. case_match; go_bool; lia. Qed.

Lemma u_escape_ascii r : 0 ≤ r < 65536 → Forall (λ c, 32 < c < 128) (u_escape r).
Proof.
  intros Hr. unfold u_escape. rewrite !Forall_cons.
  pose proof (hex_byte_ascii (r / 4096) ltac:(Z.div_mod_to_equations; lia)).
  pose proof (hex_byte_ascii ((r / 256) mod 16) ltac:(apply Z.mod_pos_bound; lia)).
  pose proof (hex_byte_ascii ((r / 16) mod 16) ltac:(apply Z.mod_pos_bound; lia)).
  pose proof (hex_byte_ascii (r mod 16) ltac:(apply Z.mod_pos_bound; lia)).
  split_and!; try lia; done.
Qed.

Lemma escape_ascii_ascii r : 0 ≤ r < 128 → Forall (λ c, 0 ≤ c < 128) (escape_ascii r).
Proof.
  intros Hr. unfold escape_ascii. repeat case_match; rewrite ?Forall_cons; try (split_and!; done || lia).
  eapply Forall_impl; [apply u_escape_ascii; lia|]. simpl. lia.
Qed.

(** A test of a text is transparent for a piece that may be removed from its
    front.  Three tests are transparent for printed values: being bytes, valid
    UTF-8, and the surrogate check of [configjson]. *)
Section transparent.
Context (f : list Z → bool).
Definition transparent (l : list Z) : Prop := ∀ u, f (l ++ u) = f u.

Lemma transparent_nil : transparent [].
Proof. done. Qed.
Lemma transparent_app l k : transparent l → transparent k → transparent (l ++ k).
Proof. intros Hl Hk u. by rewrite <- app_assoc, Hl, Hk. Qed.

Context (Hc : ∀ c, 32 < c < 128 → c ≠ 34 → transparent [c]) (Hq : ∀ s, utf8_valid s = true → transparent (quote s)).

Lemma transparent_chars l : Forall (λ c, 32 < c < 128 ∧ c ≠ 34) l → transparent l.
Proof using Hc.
  induction 1 as [|c l [Hr Hn] Hl IH]; [apply transparent_nil|].
  change (c :: l) with ([c] ++ l). apply transparent_app; auto.
Qed.

Lemma transparent_joined {A} (g : A → list Z) l : Forall (λ x, transparent (g x)) l → transparent (joined (map g l)).
Proof using Hc.
  induction 1 as [|x l Hx Hl IH]; [apply transparent_nil|]. destruct l as [|y l]; [done|].
  cbn [map] in *. rewrite joined_cons by done. apply transparent_app; [done|].
  apply (transparent_app [44]); [apply Hc; lia|done].
Qed.

Lemma transparent_print v : jwf v = true → transparent (print v).
Proof using Hc Hq.
  induction v as [|b|l|s|vs IH|ms IH] using jval_rect'; cbn [jwf print]; intros Hw.
  - apply transparent_chars, (bool_decide_unpack _). by vm_compute.
  - destruct b; apply transparent_chars, (bool_decide_unpack _); by vm_compute.
  - apply transparent_chars. assert (Hd : forallb is_digit l = true).
    { destruct l as [|c [|d l]]; cbn [num_ok forallb] in *; go_bool; naive_solver. }
    apply Forall_forall. intros c Hin. rewrite forallb_forall in Hd. apply list_elem_of_In, Hd in Hin.
    unfold is_digit in Hin. go_bool. lia.
  - by apply Hq.
  - rewrite Forall_forall in IH. rewrite forallb_forall in Hw.
    apply (transparent_app [91]); [apply Hc; lia|]. apply transparent_app; [|apply Hc; lia].
    apply transparent_joined, Forall_forall. intros x Hx. apply IH; [done|by apply Hw, list_elem_of_In].
  - rewrite Forall_forall in IH. rewrite forallb_forall in Hw.
    apply (transparent_app [123]); [apply Hc; lia|]. apply transparent_app; [|apply Hc; lia].
    apply transparent_joined, Forall_forall. intros x Hx.
    specialize (Hw x ltac:(by apply list_elem_of_In)). apply andb_true_iff in Hw as [Hk Hw].
    apply transparent_app; [by apply Hq|]. apply (transparent_app [58]); [apply Hc; lia|]. by apply IH.
Qed.
End transparent.

(** The pieces of a quoted string. *)
Lemma transparent_quote (f : list Z → bool) s :
  transparent f [34] → (∀ c, 32 < c < 128 → c ≠ 34 → transparent f [c]) → utf8_valid s = true →
  transparent f (concat (map escape_entry (range_string s))) → transparent f (quote s).
Proof. intros H34 Hc Hv Hs. apply (transparent_app f [34]); [done|]. by apply transparent_app. Qed.

Lemma transparent_concat {A} (f : list Z → bool) (g : A → list Z) l :
  (∀ x, x ∈ l → transparent f (g x)) → transparent f (concat (map g l)).
Proof.
  induction l as [|x l IH]; intros H; [apply transparent_nil|]. cbn [map concat].
  apply transparent_app; [apply H; set_solver|apply IH; intros; apply H; set_solver].
Qed.

Lemma range_string_entry s e : e ∈ range_string s →
  0 ≤ e.1.2 ∧ ∃ bs, Forall byte bs ∧ bs ≠ [] ∧ (e.1.2, e.2) = decode_rune bs.
Proof.
  intros He. pose proof (range_decoded _ (codes_bytes s) 0 0) as Hd. pose proof (range_nonneg _ (codes_bytes s) 0 0) as Hn.
  rewrite Forall_forall in Hd, Hn. split; [by apply Hn|by apply Hd].
Qed.

Lemma valid_transparent_char c : c < 128 → transparent valid_bytes [c].
Proof. intros Hc u. by apply valid_ascii. Qed.

Lemma quote_valid s : utf8_valid s = true → transparent valid_bytes (quote s).
Proof.
  intros Hv. apply transparent_quote; [by apply valid_transparent_char|intros; apply valid_transparent_char; lia|done|].
  apply transparent_concat. intros e He u. destruct (range_string_entry s e He) as [Hn Hd].
  unfold utf8_valid in Hv. rewrite forallb_forall in Hv. specialize (Hv e ltac:(by apply list_elem_of_In)).
  unfold escape_entry. rewrite (proj1 (negb_true_iff _) Hv). destruct (Z.ltb_spec e.1.2 128).
  - apply valid_asciis. eapply Forall_impl; [apply escape_ascii_ascii; lia|]. simpl. lia.
  - destruct (Z.eqb_spec e.1.2 8232) as [->|]; [by rewrite valid_asciis by (repeat constructor)|].
    destruct (Z.eqb_spec e.1.2 8233) as [->|]; [by rewrite valid_asciis by (repeat constructor)|].
    by apply valid_encoded.
Qed.

Definition are_bytes (l : list Z) : bool := forallb (λ c, (0 <=? c) && (c <? 256)) l.
Lemma are_bytes_Forall l : are_bytes l = true ↔ Forall byte l.
Proof.
  unfold are_bytes. rewrite forallb_forall, Forall_forall. setoid_rewrite <- list_elem_of_In.
  split; intros H x Hx; specialize (H x Hx); unfold byte in *; go_bool; lia.
Qed.
Lemma transparent_bytes l : Forall byte l → transparent are_bytes l.
Proof. intros Hl%are_bytes_Forall u. unfold are_bytes in *. by rewrite forallb_app, Hl. Qed.

Lemma bytes_of_ascii l : Forall (λ c, 0 ≤ c < 128) l → Forall byte l.
Proof. intros H. eapply Forall_impl; [done|]. unfold byte. lia. Qed.

Lemma quote_bytes s : utf8_valid s = true → transparent are_bytes (quote s).
Proof.
  intros Hv. apply transparent_quote; try (intros; apply transparent_bytes; repeat constructor; lia); [done|].
  apply transparent_concat. intros e He. destruct (range_string_entry s e He) as [Hn (bs & HB & Hne & Hd)].
  unfold utf8_valid in Hv. rewrite forallb_forall in Hv. specialize (Hv e ltac:(by apply list_elem_of_In)).
  apply transparent_bytes. unfold escape_entry. rewrite (proj1 (negb_true_iff _) Hv). destruct (Z.ltb_spec e.1.2 128).
  - apply bytes_of_ascii, escape_ascii_ascii. lia.
  - destruct (Z.eqb_spec e.1.2 8232) as [->|]; [apply (bool_decide_unpack _); by vm_compute|].
    destruct (Z.eqb_spec e.1.2 8233) as [->|]; [apply (bool_decide_unpack _); by vm_compute|].
    destruct bs as [|b0 t]; [done|]. symmetry in Hd. cbn [orb]. rewrite (encode_decode b0 t _ _ HB Hd) by done.
    inv HB. constructor; [done|]. by apply Forall_take.
Qed.

Lemma print_bytes v : jwf v = true → Forall byte (print v).
Proof.
  intros Hw. apply are_bytes_Forall. rewrite <- (app_nil_r (print v)).
  apply (transparent_print are_bytes); [|apply quote_bytes|done].
  intros c ? ?. apply transparent_bytes. repeat constructor; lia.
Qed.

Lemma surrogates_u_escape r : 0 ≤ r < 65536 → surrogate r = false →
  transparent (ConfigJson.surrogates_from true) (u_escape r).
Proof.
  intros Hr Hs u. unfold u_escape. cbn [app ConfigJson.surrogates_from].
  change (92 =? 34) with false. change (92 =? 92) with true. change (117 =? 117) with true. cbn [negb orb].
  rewrite parse_hex4_escape by done. unfold surrogate in Hs. by apply orb_false_iff in Hs as [-> ->].
Qed.

Lemma surrogates_chars l : Forall (λ c, c ≠ 34 ∧ c ≠ 92) l → transparent (ConfigJson.surrogates_from true) l.
Proof.
  induction 1 as [|c l [H1 H2] Hl IH]; [done|]. intros u. cbn [app]. rewrite ConfigJson.surrogates_plain by done. apply IH.
Qed.

Lemma surrogates_escape r : 0 ≤ r < 128 → transparent (ConfigJson.surrogates_from true) (escape_ascii r).
Proof.
  intros Hr. unfold escape_ascii. destruct (html_safe r) eqn:Hs.
  - apply surrogates_chars. unfold html_safe in Hs. go_bool. split_hyps. by repeat constructor.
  - destruct (Z.eqb_spec r 34) as [->|]; [done|]. destruct (Z.eqb_spec r 92) as [->|]; [done|]. cbn [orb].
    repeat (case_match; [done|]). apply surrogates_u_escape; [lia|].
    unfold surrogate, ConfigJson.high_surrogate, ConfigJson.low_surrogate. lia.
Qed.

Lemma quote_surrogates s : utf8_valid s = true → transparent (ConfigJson.surrogates_from false) (quote s).
Proof.
  intros Hv u. unfold quote. rewrite <- app_comm_cons, <- app_assoc. cbn [app ConfigJson.surrogates_from].
  change (34 =? 34) with true. cbn iota. cbn [negb].
  enough (H : transparent (ConfigJson.surrogates_from true) (concat (map escape_entry (range_string s)))) by (rewrite H; done).
  apply transparent_concat. intros e He. destruct (range_string_entry s e He) as [Hn Hd].
  unfold utf8_valid in Hv. rewrite forallb_forall in Hv. specialize (Hv e ltac:(by apply list_elem_of_In)).
  unfold escape_entry. rewrite (proj1 (negb_true_iff _) Hv). destruct (Z.ltb_spec e.1.2 128); [apply surrogates_escape; lia|].
  destruct (Z.eqb_spec e.1.2 8232) as [->|]; [by apply surrogates_u_escape|].
  destruct (Z.eqb_spec e.1.2 8233) as [->|]; [by apply surrogates_u_escape|].
  apply surrogates_chars. eapply Forall_impl; [by apply encode_rune_high|]. simpl. lia.
Qed.

(** ** Documents: what a reader makes of [Marshal] *)
Section document.
Context (v : jval) (Hw : jwf v = true).

Lemma codes_Marshal : codes (Marshal v) = print v.
Proof using Hw. apply codes_str_of. by apply print_bytes. Qed.

Lemma slength_Marshal : slength (Marshal v) = len (print v).
Proof using Hw. unfold slength, len. by rewrite <- length_codes, codes_Marshal. Qed.

Lemma parse_Marshal : parse (Marshal v) = Some v.
Proof using Hw.
  unfold parse. rewrite codes_Marshal. pose proof (jsize_print v Hw) as Hs.
  rewrite <- (app_nil_r (print v)) at 2. by rewrite parse_print by (done || lia).
Qed.

Lemma Marshal_utf8 : utf8_valid (Marshal v) = true.
Proof using Hw.
  unfold utf8_valid, range_string. rewrite codes_Marshal, <- (app_nil_r (print v)).
  apply (transparent_print valid_bytes); [|apply quote_valid|done].
  intros c ? ?. apply valid_transparent_char. lia.
Qed.

Lemma Marshal_surrogates : ConfigJson.validSurrogates (Marshal v) = true.
Proof using Hw.
  unfold ConfigJson.validSurrogates. rewrite codes_Marshal, <- (app_nil_r (print v)).
  apply (transparent_print (ConfigJson.surrogates_from false)); [|apply quote_surrogates|done].
  intros c ? ? u. cbn [app ConfigJson.surrogates_from]. by rewrite (proj2 (Z.eqb_neq c 34)) by done.
Qed.
End document.

(** *** Strict decoding *)
Lemma limit_read_bytes n data : slength data < n → limit_read n (bytes_reader data) = Some data.
Proof. intros H. unfold limit_read. cbn. by rewrite (proj2 (Z.leb_gt _ _)) by lia. Qed.

Lemma DecodeInto_Ok {T} (dec : jval → option T) input maxBytes maxDepth keys x :
  DecodeInto dec input maxBytes maxDepth keys = Ok x ↔
  0 < maxBytes ∧ 0 < maxDepth ∧ ∃ data v, limit_read (maxBytes + 1) input = Some data ∧ slength data ≤ maxBytes
    ∧ utf8_valid data = true ∧ ConfigJson.validSurrogates data = true ∧ parse data = Some v
    ∧ ConfigJson.json_ok maxDepth (Some (λ k, k ∈? keys)) 0 (shape v) = true ∧ dec v = Some x.
Proof.
  unfold DecodeInto. destruct (limit_read (maxBytes + 1) input) as [data|] eqn:Hr.
  2:{ unfold ConfigJson.Decode. rewrite Hr. split; [by destruct (_ || _ || _)|naive_solver]. }
  destruct (parse data) as [v|] eqn:Hp.
  - rewrite (ConfigJson.Decode_value _ _ _ _ _ _ data (shape v) [] true).
    + rewrite Hp. cbn [mbind option_bind]. naive_solver.
    + done.
    + unfold NewDecoder. by rewrite Hp, app_nil_r.
  - split; [|naive_solver]. unfold ConfigJson.Decode. rewrite Hr, Hp.
    destruct (_ || _ || _) in |- *; [done|]. destruct (_ || _ || _) in |- *; [done|].
    case_match; [|done]. case_match; done.
Qed.

(** A document over the limit is refused. *)
Lemma DecodeInto_too_large {T} (dec : jval → option T) data maxBytes maxDepth keys :
  maxBytes < slength data → is_ok (DecodeInto dec (bytes_reader data) maxBytes maxDepth keys) = false.
Proof.
  intros Hl. destruct (DecodeInto _ _ _ _ _) eqn:Hd; [|done]. exfalso.
  apply DecodeInto_Ok in Hd as (Hm & _ & d & v & Hr & Hd & _). unfold limit_read in Hr. cbn [rd_data rd_fails bytes_reader] in Hr.
  rewrite (proj2 (Z.leb_le _ _)) in Hr by lia. injection Hr as <-. rewrite slength_stake in Hd; lia.
Qed.

Lemma Unmarshal_Marshal {T} (dec : jval → option T) v : jwf v = true → Unmarshal dec (Marshal v) = dec v.
Proof. intros Hw. unfold Unmarshal. by rewrite parse_Marshal. Qed.

Lemma Marshal_not_null v : jwf v = true → v ≠ JNull → Marshal v ≠ "null".
Proof. intros Hw Hv He. pose proof (parse_Marshal v Hw) as Hp. rewrite He in Hp. vm_compute in Hp. congruence. Qed.

Lemma DecodeInto_Marshal {T} (dec : jval → option T) v maxBytes maxDepth keys x :
  0 < maxBytes → 0 < maxDepth → jwf v = true → slength (Marshal v) ≤ maxBytes →
  ConfigJson.json_ok maxDepth (Some (λ k, k ∈? keys)) 0 (shape v) = true → dec v = Some x →
  DecodeInto dec (bytes_reader (Marshal v)) maxBytes maxDepth keys = Ok x.
Proof.
  intros ? ? Hw Hl Hk Hd. apply DecodeInto_Ok. split_and!; [done|done|]. exists (Marshal v), v.
  rewrite limit_read_bytes by lia. split_and!; try done; [by apply Marshal_utf8|by apply Marshal_surrogates|by apply parse_Marshal].
Qed.

Lemma raw_value_print n v rest : jwf v = true → (jsize v ≤ n)%nat → stops rest = true →
  raw_value n (print v ++ rest) = Some (print v, rest).
Proof.
  intros Hw Hn Hr. unfold raw_value. destruct (print_head v Hw) as (c & t & Hp & Ho).
  assert (Hsk : skip_ws (print v ++ rest) = print v ++ rest) by (rewrite Hp; by apply skip_ws_opens). rewrite Hsk.
  rewrite parse_print by done. cbn [mbind option_bind]. rewrite length_app.
  replace (length (print v) + length rest - length rest)%nat with (length (print v)) by lia. by rewrite take_app_length.
Qed.

(** The raw members of a printed object are its members, printed. *)
Lemma raw_members_loop m ms rest : ms ≠ [] → Forall (λ kv, utf8_valid kv.1 && jwf kv.2 = true ∧ jsize kv.2 ≤ m)%nat ms →
  ∀ n, (length ms ≤ n)%nat →
  members (raw_value m) n (joined (map (λ kv, quote kv.1 ++ 58 :: print kv.2) ms) ++ 125 :: rest)
  = Some ((λ kv, (kv.1, print kv.2)) <$> ms, rest).
Proof.
  assert (Hm : ∀ k v rest, utf8_valid k && jwf v = true → (jsize v ≤ m)%nat → stops rest = true →
    member (raw_value m) (quote k ++ 58 :: print v ++ rest) = Some ((k, print v), rest)).
  { intros k v rest' [Hk Hw]%andb_true_iff Hn Hr. unfold member, quote. cbn [app]. rewrite skip_ws_opens by done.
    change (negb (34 =? 34)) with false. cbn iota. rewrite <- app_assoc. cbn [app].
    rewrite scan_quote by done. cbn [mbind option_bind]. rewrite skip_ws_opens by done.
    change (58 =? 58) with true. cbn iota. rewrite raw_value_print by done. cbn [mbind option_bind]. by rewrite str_of_codes. }
  intros Hne HF. induction HF as [|[k v] ms [Hw Hs] HF IH]; [done|]. intros [|n] Hn; cbn [length] in Hn; [lia|].
  destruct ms as [|w ms].
  - cbn [map joined members fst snd]. rewrite <- app_assoc. cbn [app]. rewrite Hm by done. done.
  - cbn [map]. rewrite joined_cons by done. cbn [fst snd]. rewrite <- !app_assoc. cbn [members app].
    rewrite Hm by done. cbn [mbind option_bind]. change (skip_ws (44 :: ?x)) with (44 :: x).
    cbn iota. change (44 =? 44) with true. cbn iota. cbn [map fst snd] in IH. rewrite IH by (done || cbn [length] in *; lia). done.
Qed.

Lemma raw_members_Marshal ms : jwf (JObj ms) = true →
  raw_members (Marshal (JObj ms)) = Some ((λ kv, (kv.1, Marshal kv.2)) <$> ms).
Proof.
  intros Hw. unfold raw_members. rewrite codes_Marshal by done. pose proof (jsize_print _ Hw) as Hs.
  cbn [print] in *. rewrite skip_ws_opens by done. change (negb (123 =? 123)) with false. cbn iota.
  destruct ms as [|kv ms]; [done|]. destruct (members_head (kv :: ms) ltac:(done)) as (t & Hj).
  rewrite Hj. cbn [app]. rewrite skip_ws_opens by done. change (34 =? 125) with false. cbn iota.
  change (34 :: t ++ [125]) with ((34 :: t) ++ 125 :: []). rewrite <- Hj.
  rewrite raw_members_loop; [cbn [mbind option_bind skip_ws]; by rewrite <- list_fmap_compose|done| |].
  - apply Forall_forall. intros x Hx. split.
    + cbn [jwf] in Hw. rewrite forallb_forall in Hw. by apply Hw, list_elem_of_In.
    + pose proof (sum_list_elem (λ kv, jsize kv.2) (kv :: ms) x Hx). cbn [jsize] in Hs. cbn beta in *. lia.
  - pose proof (sum_list_length (λ kv : string * jval, jsize kv.2) (kv :: ms) (λ kv, jsize_pos kv.2)).
    cbn [jsize] in Hs. lia.
Qed.

Lemma RawEnvelope_Marshal ms maxBytes maxDepth required :
  0 < maxBytes → 0 < maxDepth → 0 < len required ≤ 32 → Forall (λ k, k ≠ "") required →
  NoDup (ms.*1) → ms.*1 = required → jwf (JObj ms) = true → slength (Marshal (JObj ms)) ≤ maxBytes →
  ConfigJson.json_ok maxDepth None 0 (shape (JObj ms)) = true →
  RawEnvelope (Marshal (JObj ms)) maxBytes maxDepth required
  = Some (list_to_map ((λ kv, (kv.1, Marshal kv.2)) <$> ms)).
Proof.
  intros ? ? ? ? HN <- Hw Hl Hk. unfold RawEnvelope.
  assert (Hk1 : ((λ kv : string * jval, (kv.1, Marshal kv.2)) <$> ms).*1 = ms.*1) by (by rewrite <- list_fmap_compose).
  rewrite (ConfigJson.DecodeEnvelope_value _ _ _ _ _ _ (shape (JObj ms)))
    by (unfold NewDecoder; by rewrite parse_Marshal).
  rewrite raw_members_Marshal by done. split_and!; try done; [lia|lia|by apply Marshal_utf8|by apply Marshal_surrogates| |].
  - rewrite map_size_list_to_map by (by rewrite Hk1). unfold len. by rewrite !length_fmap.
  - intros k [x Hx]. apply elem_of_list_to_map_2 in Hx. apply list_elem_of_fmap in Hx as ([k' v] & [= -> ->] & Hin).
    by apply (list_elem_of_fmap_2 fst) in Hin.
Qed.

(** *** Codecs *)
Lemma get_hd k v ms : get k ((k, v) :: ms) = Some v.
Proof. simpl. by rewrite bool_decide_eq_true_2. Qed.
Lemma get_nil k : get k [] = None.
Proof. done. Qed.
Lemma get_tl k k' v ms : k' ≠ k → get k ((k', v) :: ms) = get k ms.
Proof. intros H. simpl. by rewrite bool_decide_eq_false_2. Qed.

Lemma as_uint_enc w n : 0 ≤ n < 2 ^ w → n < 2 ^ 64 → as_uint w (enc_uint n) = Some n.
Proof. intros. unfold as_uint, enc_uint. rewrite str_of_codes. by apply ParseUint_FormatUint. Qed.
Lemma as_ptr_uint w n : 0 ≤ n < 2 ^ w → n < 2 ^ 64 → as_ptr (as_uint w) (enc_uint n) = Some (Some n).
Proof. intros H1 H2. unfold as_ptr. pose proof (as_uint_enc w n H1 H2) as H. unfold enc_uint in *. by rewrite H. Qed.

(** The leading digit of a printed number is zero only for zero. *)
Lemma format_digits_head fuel m acc : 0 ≤ m < 10 ^ Z.of_nat fuel → (0 < fuel)%nat →
  ∃ c t, codes (format_digits fuel m acc) = c :: t ∧ (m = 0 → t = codes acc) ∧ (m ≠ 0 → c ≠ 48).
Proof.
  revert m acc. induction fuel as [|f IH]; intros m acc Hm Hf; [lia|]. cbn [format_digits].
  assert (Hc : code (ascii_of_N (Z.to_N (48 + m mod 10))) = 48 + m mod 10).
  { unfold code. pose proof (Z.mod_pos_bound m 10 ltac:(lia)). rewrite N_ascii_embedding by lia. lia. }
  destruct (Z.ltb_spec m 10) as [Hl|Hl].
  - rewrite codes_String, Hc, Z.mod_small by lia. eexists _, _. split; [done|]. split; [done|lia].
  - rewrite Nat2Z.inj_succ, Z.pow_succ_r in Hm by lia. assert (Hd : 1 ≤ m / 10) by (Z.div_mod_to_equations; lia).
    destruct (IH (m / 10) (String (ascii_of_N (Z.to_N (48 + m mod 10))) acc)) as (c & t & -> & _ & Hn).
    + split; [lia|]. apply Z.div_lt_upper_bound; lia.
    + destruct f; [rewrite Z.pow_0_r in Hm; lia|lia].
    + exists c, t. split; [done|]. split; [lia|]. intros _. apply Hn. lia.
Qed.

Lemma FormatUint_num n : 0 ≤ n < 2 ^ 64 → num_ok (codes (FormatUint n)) = true.
Proof.
  intros Hn. unfold FormatUint.
  pose proof (format_digits_codes 20 n EmptyString ltac:(lia) eq_refl) as Hd.
  destruct (format_digits_head 20 n EmptyString ltac:(simpl; lia) ltac:(lia)) as (c & t & Hc & H0 & H1).
  rewrite Hc in *. unfold num_ok. destruct t as [|d t]; [cbn [forallb] in Hd; by rewrite andb_true_r in Hd|].
  rewrite Hd, andb_true_r. destruct (decide (n = 0)) as [->|Hz]; [by specialize (H0 eq_refl)|].
  apply negb_true_iff, Z.eqb_neq. auto.
Qed.

Lemma enc_uint_wf n : 0 ≤ n < 2 ^ 64 → jwf (enc_uint n) = true.
Proof. apply FormatUint_num. Qed.

Lemma enc_int_nonneg n : 0 ≤ n → enc_int n = enc_uint n.
Proof. intros. unfold enc_int. by rewrite (proj2 (Z.ltb_ge n 0)). Qed.

Lemma as_int_enc n : 0 ≤ n < 2 ^ 63 → as_int (enc_int n) = Some n.
Proof.
  intros Hn. rewrite enc_int_nonneg by lia. unfold as_int, enc_uint.
  pose proof (ParseUint_FormatUint 63 n ltac:(lia) ltac:(lia)) as Hp.
  pose proof (format_digits_codes 20 n EmptyString ltac:(lia) eq_refl) as Hd. unfold FormatUint in *.
  assert (Hs : ParseUint 63 (str_of (codes (format_digits 20 n ""))) = Some n) by (by rewrite str_of_codes).
  destruct (codes (format_digits 20 n "")) as [|c t]; [done|]. cbn [forallb] in Hd.
  apply andb_true_iff in Hd as [Hd _]. unfold is_digit in Hd. go_bool.
  destruct c as [|p|p]; try lia. repeat (destruct p as [p|p|]; try done); lia.
Qed.

Lemma as_slice_map {A B} (dec : jval → option B) (enc : A → jval) (f : A → B) (s : slice A) :
  (∀ x, x ∈ elems s → dec (enc x) = Some (f x)) → as_slice dec (enc_slice enc s) = Some (option_map (map f) s).
Proof.
  destruct s as [l|]; [|done]. cbn [elems default option_map from_option id]. unfold as_slice, enc_slice. intros Hl.
  assert (Hm : mapM dec (map enc l) = Some (map f l)).
  { apply mapM_Some. induction l as [|x l IH]; constructor; [apply Hl; set_solver|]. apply IH. set_solver. }
  by rewrite Hm.
Qed.
Lemma as_slice_enc {A} (dec : jval → option A) (enc : A → jval) (s : slice A) :
  (∀ x, x ∈ elems s → dec (enc x) = Some x) → as_slice dec (enc_slice enc s) = Some s.
Proof.
  intros H. destruct s as [l|]; [|done]. cbn. cut (mapM dec (map enc l) = Some l); [by intros ->|].
  cbn in H. induction l as [|x l IH]; [done|]. cbn. rewrite H by set_solver. cbn.
  rewrite IH by (intros; apply H; set_solver). done.
Qed.

Lemma enc_slice_wf {A} (enc : A → jval) (s : slice A) :
  (∀ x, x ∈ elems s → jwf (enc x) = true) → jwf (enc_slice enc s) = true.
Proof.
  intros H. destruct s as [l|]; [|done]. cbn in *. apply forallb_forall. intros v Hv%list_elem_of_In.
  apply list_elem_of_In, in_map_iff in Hv as (x & <- & Hx%list_elem_of_In). auto.
Qed.

(** ASCII strings are valid UTF-8. *)
Lemma ascii_utf8 s : Forall (λ c, c < 128) (codes s) → utf8_valid s = true.
Proof. intros H. pose proof (valid_asciis (codes s) [] H) as Hv. by rewrite app_nil_r in Hv. Qed.

(** *** The strictness test on encoded values *)
Section strict.
Context (maxDepth : Z) (keys : option (string → bool)).
Definition strict (depth : Z) (v : jval) : Prop := ConfigJson.json_ok maxDepth keys depth (shape v) = true.

Lemma strict_scalar depth v : depth ≤ maxDepth →
  match v with JBool _ | JNum _ | JStr _ => True | _ => False end → strict depth v.
Proof. intros Hd Hv. unfold strict. destruct v; try done; cbn; by rewrite (proj2 (Z.leb_le _ _)). Qed.

Lemma strict_array {A} depth (enc : A → jval) (s : slice A) : is_nil s = false → depth ≤ maxDepth →
  (∀ x, x ∈ elems s → strict (depth + 1) (enc x)) → strict depth (enc_slice enc s).
Proof.
  intros Hs Hd H. unfold strict in *. destruct s as [l|]; [|done]. cbn in *.
  rewrite (proj2 (Z.leb_le _ _)) by done. cbn. apply forallb_forall. intros v Hv.
  rewrite map_map in Hv. apply in_map_iff in Hv as (x & <- & Hx%list_elem_of_In). auto.
Qed.

Lemma strict_object depth ms : depth ≤ maxDepth → bool_decide (NoDup (ms.*1)) = true →
  forallb (ConfigJson.key_allowed keys) (ms.*1) = true → Forall (λ kv, strict (depth + 1) kv.2) ms →
  strict depth (JObj ms).
Proof.
  intros Hd HN Hk HF. unfold strict in *. cbn [shape ConfigJson.json_ok].
  assert (Hm : (map (λ kv : string * jval, (kv.1, shape kv.2)) ms).*1 = ms.*1).
  { change (map ?f ms) with (f <$> ms). by rewrite <- list_fmap_compose. }
  rewrite Hm, HN, Hk, (proj2 (Z.leb_le _ _)) by done. cbn [andb]. apply forallb_forall. intros v Hv.
  apply in_map_iff in Hv as (kv & <- & Hx%list_elem_of_In). rewrite Forall_forall in HF. by apply HF.
Qed.
End strict.

(** Dropping the key list and moving to another depth with at least as much room. *)
Lemma strict_envelope md md' ks d d' v : md - d ≤ md' - d' → strict md ks d v → strict md' None d' v.
Proof.
  unfold strict. revert d d'. induction v as [|b|l|s|vs IH|ms IH] using jval_rect'; intros d d' Hd;
    cbn [shape ConfigJson.json_ok]; rewrite ?andb_true_iff, ?Z.leb_le, ?forallb_forall; try (intros []; split; lia || done).
  - intros [Hl HF]. split; [lia|]. intros v Hv. pose proof (HF v Hv) as Hx.
    apply in_map_iff in Hv as (x & <- & Hin%list_elem_of_In). rewrite Forall_forall in IH.
    eapply (IH x Hin); [|done]. lia.
  - intros [Hl [[HN _] HF]]. split; [lia|]. split; [split; [done|by intros]|]. intros v Hv. pose proof (HF v Hv) as Hx.
    apply in_map_iff in Hv as (x & <- & Hin%list_elem_of_In). rewrite Forall_forall in IH.
    eapply (IH x Hin); [|done]. lia.
Qed.

(** Numbers that were read from a document are in the range of their type. *)
Lemma fld_uint_range w ms k n : 0 < w → fld k (as_uint w) 0 ms = Some n → 0 ≤ n < 2 ^ w.
Proof.
  intros Hw. unfold fld. assert (0 < 2 ^ w) by (apply Z.pow_pos_nonneg; lia).
  destruct (get k ms) as [[| |l| | |]|]; cbn; try done; try (intros [= <-]; lia). apply ParseUint_bounds.
Qed.

Lemma as_slice_elem {A} (dec : jval → option A) v s x : as_slice dec v = Some s → x ∈ elems s → ∃ w, dec w = Some x.
Proof.
  unfold as_slice. destruct v as [| | | |vs|]; try done; [by intros [= <-]; set_solver|].
  destruct (mapM dec vs) as [l|] eqn:Hm; [|done]. intros [= <-] Hx. cbn in Hx. apply mapM_Some in Hm.
  revert x Hx. induction Hm; set_solver.
Qed.

Lemma fld_slice_elem {A} (dec : jval → option A) k ms s x :
  fld k (as_slice dec) None ms = Some s → x ∈ elems s → ∃ w, dec w = Some x.
Proof. unfold fld. destruct (get k ms); [apply as_slice_elem|]. intros [= <-]. set_solver. Qed.

Lemma jwf_object ms : forallb utf8_valid (ms.*1) = true → Forall (λ kv, jwf kv.2 = true) ms → jwf (JObj ms) = true.
Proof.
  intros Hk HF. cbn [jwf]. apply forallb_forall. intros x Hx. rewrite Forall_forall in HF. rewrite forallb_forall in Hk.
  apply andb_true_iff. split; [|by apply HF, list_elem_of_In]. apply Hk. change (ms.*1) with (map fst ms). by apply in_map.
Qed.

Lemma as_str_enc s : as_str (JStr s) = Some s.
Proof. done. Qed.
Lemma as_bool_enc b : as_bool (JBool b) = Some b.
Proof. done. Qed.

Lemma uint_digits n : len (codes (FormatUint n)) ≤ 20.
Proof.
  pose proof (slength_format_digits 20 n "") as H. unfold slength, FormatUint in *.
  unfold len. rewrite length_codes. cbn in H |- *. lia.
Qed.

Lemma as_uint_range w v n : 0 < w → as_uint w v = Some n → 0 ≤ n < 2 ^ w.
Proof.
  intros Hw Hn. apply (fld_uint_range w [("", v)] ""); [done|]. unfold fld. by rewrite get_hd.
Qed.

End GoJson.

Create HintDb json.
Arguments GoJson.enc_uint : simpl never. Arguments GoJson.enc_int : simpl never. Arguments GoJson.as_uint : simpl never.
Arguments GoJson.as_int : simpl never. Arguments GoJson.as_slice : simpl never. Arguments GoJson.enc_slice : simpl never.
Arguments GoJson.as_str : simpl never. Arguments GoJson.fld : simpl never. Arguments GoJson.Marshal : simpl never.

(** Decode an encoded struct member by member; the codecs of the elements of
    slices come from the database [json]. *)
Ltac json_get := unfold GoJson.fld;
  repeat first [rewrite GoJson.get_hd | rewrite GoJson.get_tl by done | rewrite GoJson.get_nil]; cbn [mbind option_bind].
Ltac json_dec := unfold GoJson.as_struct;
  repeat match goal with |- context [GoJson.known ?a ?b] => change (GoJson.known a b) with true end; cbn iota; json_get;
  repeat (first [rewrite GoJson.as_str_enc | rewrite GoJson.as_bool_enc | rewrite GoJson.as_int_enc by lia
                | rewrite GoJson.as_uint_enc by lia
                | rewrite GoJson.as_slice_enc by (intros ? ?; solve [eauto with json nocore])]; cbn [mbind option_bind]).
(** The printed text of an encoded struct is well formed. *)
Ltac json_wf := apply GoJson.jwf_object; [by vm_compute|];
  repeat (apply Forall_cons_2; [cbn [snd GoJson.jwf]|]); try apply Forall_nil_2;
  try (by apply GoJson.enc_uint_wf);
  try (apply GoJson.enc_slice_wf; intros ? ?; solve [eauto with json nocore]);
  try solve [eauto with json nocore].
(** An encoded struct passes the strictness test. *)
Ltac json_strict := apply GoJson.strict_object; [lia|by vm_compute|by vm_compute|];
  repeat (apply Forall_cons_2; [cbn [snd]|]); try apply Forall_nil_2;
  try (apply GoJson.strict_scalar; [lia|done]);
  try (apply GoJson.strict_array; [done|lia|intros ? ?; solve [eauto with json nocore]]).
(** The lengths of the quoted constants of a document. *)
Ltac quote_sizes := repeat match goal with
  | |- context [length (GoJson.quote ?k)] => let n := eval vm_compute in (length (GoJson.quote k)) in
      replace (length (GoJson.quote k)) with n by (vm_compute; reflexivity)
  end.
(** Looking up a constant key in a literal map. *)
Ltac map_fields := cbn [list_to_map foldr fst snd];
  repeat (rewrite lookup_insert_eq || (rewrite lookup_insert_ne by done)); cbn [from_option id].
