(* ===== verification/Shares.v ===== *)
(** * Desired share policy: [shareconfig/config.go]

    [Config_Validate] is [Config.Validate]; the syntax predicates are the
    functions of the same names.  [wf_config] is the contract of the package:
    unique, well-formed identities and grants that only mention declared
    volumes and users.  [Decode] reads a document through [configjson] and the
    field layout of the Go structs; [enc_Config] is what [json.Marshal] prints. *)

From S2P Require Import Prelude GoStrings Utf8 ConfigJson GoJson.
Import GoJson.

Module ShareConfig.

(** ** Data *)
Record Volume := mkVolume { vol_ID : string; vol_FilesystemUUID : string }.
Record User := mkUser { user_ID : string; user_Name : string }.
Record Grant := mkGrant { grant_UserID : string; grant_Access : string }.
Record Share := mkShare {
  share_ID : string; share_Name : string; share_VolumeID : string;
  share_RelativePath : string; share_Grants : slice Grant }.
Record Config := mkConfig {
  cfg_Format : string; cfg_SchemaVersion : Z; cfg_Revision : Z;
  cfg_Volumes : slice Volume; cfg_Users : slice User; cfg_Shares : slice Share }.

#[export] Instance Volume_eq_dec : EqDecision Volume. Proof. solve_decision. Defined.
#[export] Instance User_eq_dec : EqDecision User. Proof. solve_decision. Defined.
#[export] Instance Grant_eq_dec : EqDecision Grant. Proof. solve_decision. Defined.
#[export] Instance Share_eq_dec : EqDecision Share. Proof. solve_decision. Defined.
#[export] Instance Config_eq_dec : EqDecision Config. Proof. solve_decision. Defined.

Definition Format : string := "phantowd-share-config".
Definition SchemaVersion : Z := 1.
Definition MaxVolumes : Z := 16.
Definition MaxUsers : Z := 128.
Definition MaxShares : Z := 128.
Definition VolumeMountRoot : string := "/srv/phantowd/volumes".

(** The errors of [Validate]; the indices are those of the formatted messages. *)
Inductive error :=
| ErrUnsupported
| ErrCollections
| ErrVolumeAt (i : Z)
| ErrUserAt (i : Z)
| ErrShareAt (i : Z)
| ErrGrantAt (i j : Z).

(** ** Syntax predicates *)
Definition identifier_char (c : Z) : bool := is_lower c || is_digit c || (c =? 45).
Definition identifier (s : string) : bool :=
  if (slength s =? 0) || (64 <? slength s) || (byte_at s 0 <? 97) || (122 <? byte_at s 0)
  then false
  else forallb identifier_char (runes s).

Definition account_char (c : Z) : bool := is_lower c || is_digit c || (c =? 45) || (c =? 95).
Definition accountName (s : string) : bool :=
  if (slength s =? 0) || (32 <? slength s) || (byte_at s 0 <? 97) || (122 <? byte_at s 0)
  then false
  else forallb account_char (runes s) && (s != "root") && (s != "nobody") && (s != "phantowd").

Definition reserved_share_names : list string :=
  ["."; ".."; "global"; "homes"; "printers"; "print$"; "ipc$"; "admin$"].
(** The double quote is code 34; it is kept apart from the literal. *)
Definition share_char (c : Z) : bool :=
  negb ((c <? 32) || (126 <? c) || in_set c "[]/\:;=<>|?*" || (c =? 34)).
(** [strings.TrimSpace] and [strings.ToLower] are only consulted for their
    effect on ASCII: a name with a rune above 126 is refused by the loop. *)
Definition shareName (s : string) : bool :=
  if (slength s =? 0) || (80 <? slength s) || negb (trimmed s) || ends_with 46 s then false
  else if to_lower s ∈? reserved_share_names then false
  else forallb share_char (runes s).

Definition relativePath (s : string) : bool :=
  if (slength s =? 0) || (1024 <? slength s) || negb (utf8_valid s) || negb (ValidPath s)
     || existsb (λ c, in_set c "\:") (runes s)
  then false
  else forallb (λ c, negb ((c <? 32) || (c =? 127))) (runes s).

(** The loop of [filesystemUUID]: positions 8, 13, 18 and 23 are hyphens, the
    others lower-case hexadecimal digits, not all of them zero. *)
Definition hyphen_position (i : Z) : bool := (i =? 8) || (i =? 13) || (i =? 18) || (i =? 23).
Definition filesystemUUID (s : string) : bool :=
  if negb (slength s =? 36) then false
  else match for_range (E := unit) (λ _ nonzero '(i, ch, _),
           if hyphen_position i
           then (refuse negb (ch =? 45) => tt ;; Ok nonzero)
           else (refuse negb (is_lower_hex ch) => tt ;; Ok (nonzero || negb (ch =? 48))))
         0 false (range_string s) with
       | Ok nonzero => nonzero
       | Err _ => false
       end.

(** ** Validation *)
Definition volume_step (i : Z) (st : gset string * gset string) (v : Volume) :
  res error (gset string * gset string) :=
  let '(volumes, uuids) := st in
  refuse negb (identifier (vol_ID v)) || (vol_ID v ∈? volumes)
         || negb (filesystemUUID (vol_FilesystemUUID v)) || (vol_FilesystemUUID v ∈? uuids)
    => ErrVolumeAt i ;;
  Ok ({[vol_ID v]} ∪ volumes, {[vol_FilesystemUUID v]} ∪ uuids).

Definition user_step (i : Z) (st : gset string * gset string) (u : User) :
  res error (gset string * gset string) :=
  let '(users, names) := st in
  refuse negb (identifier (user_ID u)) || (user_ID u ∈? users)
         || negb (accountName (user_Name u)) || (user_Name u ∈? names)
    => ErrUserAt i ;;
  Ok ({[user_ID u]} ∪ users, {[user_Name u]} ∪ names).

Definition bad_access (a : string) : bool := (a != "ro") && (a != "rw").
Definition grant_step (users : gset string) (i : Z) (j : Z) (grantees : gset string) (g : Grant) :
  res error (gset string) :=
  refuse negb (grant_UserID g ∈? users) || (grant_UserID g ∈? grantees) || bad_access (grant_Access g)
    => ErrGrantAt i j ;;
  Ok ({[grant_UserID g]} ∪ grantees).

Definition share_step (volumes users : gset string) (i : Z) (st : gset string * gset string)
  (s : Share) : res error (gset string * gset string) :=
  let '(shares, shareNames) := st in
  let foldedName := to_lower (share_Name s) in
  refuse negb (identifier (share_ID s)) || (share_ID s ∈? shares)
         || negb (shareName (share_Name s)) || (foldedName ∈? shareNames)
         || negb (share_VolumeID s ∈? volumes) || negb (relativePath (share_RelativePath s))
         || (slen (share_Grants s) =? 0) || (MaxUsers <? slen (share_Grants s))
    => ErrShareAt i ;;
  _ ← for_range (grant_step users i) 0 ∅ (elems (share_Grants s));
  Ok ({[share_ID s]} ∪ shares, {[foldedName]} ∪ shareNames).

Definition Config_Validate (c : Config) : res error unit :=
  refuse (cfg_Format c != Format) || negb (cfg_SchemaVersion c =? SchemaVersion)
         || (cfg_Revision c =? 0) => ErrUnsupported ;;
  refuse is_nil (cfg_Volumes c) || is_nil (cfg_Users c) || is_nil (cfg_Shares c)
         || (MaxVolumes <? slen (cfg_Volumes c)) || (MaxUsers <? slen (cfg_Users c))
         || (MaxShares <? slen (cfg_Shares c)) => ErrCollections ;;
  '(volumes, _) ← for_range volume_step 0 (∅, ∅) (elems (cfg_Volumes c));
  '(users, _) ← for_range user_step 0 (∅, ∅) (elems (cfg_Users c));
  _ ← for_range (share_step volumes users) 0 (∅, ∅) (elems (cfg_Shares c));
  Ok tt.

(** ** The contract of the package *)
Definition good_volume (v : Volume) : Prop :=
  identifier (vol_ID v) = true ∧ filesystemUUID (vol_FilesystemUUID v) = true.
Definition good_user (u : User) : Prop :=
  identifier (user_ID u) = true ∧ accountName (user_Name u) = true.
Definition good_grant (users : gset string) (g : Grant) : Prop :=
  grant_UserID g ∈ users ∧ (grant_Access g = "ro" ∨ grant_Access g = "rw").
Record good_share (volumes users : gset string) (s : Share) : Prop := {
  gs_id : identifier (share_ID s) = true;
  gs_name : shareName (share_Name s) = true;
  gs_volume : share_VolumeID s ∈ volumes;
  gs_path : relativePath (share_RelativePath s) = true;
  gs_grants : 1 ≤ slen (share_Grants s) ≤ MaxUsers;
  gs_access : Forall (good_grant users) (elems (share_Grants s));
  gs_grantees : NoDup (grant_UserID <$> elems (share_Grants s)) }.

Definition volume_ids (c : Config) : gset string := list_to_set (vol_ID <$> elems (cfg_Volumes c)).
Definition user_ids (c : Config) : gset string := list_to_set (user_ID <$> elems (cfg_Users c)).

Record wf_config (c : Config) : Prop := {
  wf_format : cfg_Format c = Format;
  wf_schema : cfg_SchemaVersion c = SchemaVersion;
  wf_revision : cfg_Revision c ≠ 0;
  wf_present : is_nil (cfg_Volumes c) = false ∧ is_nil (cfg_Users c) = false
               ∧ is_nil (cfg_Shares c) = false;
  wf_bounds : slen (cfg_Volumes c) ≤ MaxVolumes ∧ slen (cfg_Users c) ≤ MaxUsers
              ∧ slen (cfg_Shares c) ≤ MaxShares;
  wf_volumes : Forall good_volume (elems (cfg_Volumes c));
  wf_volume_ids : NoDup (vol_ID <$> elems (cfg_Volumes c));
  wf_volume_uuids : NoDup (vol_FilesystemUUID <$> elems (cfg_Volumes c));
  wf_users : Forall good_user (elems (cfg_Users c));
  wf_user_ids : NoDup (user_ID <$> elems (cfg_Users c));
  wf_user_names : NoDup (user_Name <$> elems (cfg_Users c));
  wf_shares : Forall (good_share (volume_ids c) (user_ids c)) (elems (cfg_Shares c));
  wf_share_ids : NoDup (share_ID <$> elems (cfg_Shares c));
  wf_share_names : NoDup ((to_lower ∘ share_Name) <$> elems (cfg_Shares c)) }.

(** ** The loops *)
Section loops.
Definition add2 {A} (k1 k2 : A → string) (st : gset string * gset string) (x : A) :
  gset string * gset string := ({[k1 x]} ∪ st.1, {[k2 x]} ∪ st.2).
Definition fresh2 {A} (k1 k2 : A → string) (st : gset string * gset string) (x : A) : Prop :=
  k1 x ∉ st.1 ∧ k2 x ∉ st.2.

Lemma chain2 {A} (k1 k2 : A → string) l :
  chain (add2 k1 k2) (fresh2 k1 k2) (∅, ∅) l ↔ NoDup (k1 <$> l) ∧ NoDup (k2 <$> l).
Proof.
  unfold fresh2. rewrite chain_and, (chain_key _ fst k1), (chain_key _ snd k2) by done.
  simpl. pose proof (not_elem_of_empty_all k1 l). pose proof (not_elem_of_empty_all k2 l).
  naive_solver.
Qed.

Lemma fold2_fst {A} (k1 k2 : A → string) l :
  (fold_left (add2 k1 k2) l (∅, ∅)).1 = list_to_set (k1 <$> l).
Proof. rewrite (fold_key _ fst k1) by done. simpl. set_solver. Qed.

Lemma volume_step_Ok j st v st' :
  volume_step j st v = Ok st' ↔
  good_volume v ∧ fresh2 vol_ID vol_FilesystemUUID st v ∧ st' = add2 vol_ID vol_FilesystemUUID st v.
Proof.
  unfold volume_step, good_volume, fresh2, add2. destruct st as [s1 s2]. rewrite refuse_Ok.
  go_bool. simpl. naive_solver.
Qed.

Lemma user_step_Ok j st u st' :
  user_step j st u = Ok st' ↔
  good_user u ∧ fresh2 user_ID user_Name st u ∧ st' = add2 user_ID user_Name st u.
Proof.
  unfold user_step, good_user, fresh2, add2. destruct st as [s1 s2]. rewrite refuse_Ok.
  go_bool. simpl. naive_solver.
Qed.

Lemma bad_access_false a : bad_access a = false ↔ a = "ro" ∨ a = "rw".
Proof. unfold bad_access. go_bool. naive_solver. Qed.

Lemma grants_Ok users i j l s' :
  for_range (grant_step users i) j ∅ l = Ok s' ↔
  Forall (good_grant users) l ∧ NoDup (grant_UserID <$> l)
  ∧ s' = fold_left (λ s g, {[grant_UserID g]} ∪ s) l ∅.
Proof.
  rewrite (for_range_chain (λ s g, {[grant_UserID g]} ∪ s) _ (good_grant users)
             (λ s g, grant_UserID g ∉ s)).
  - rewrite (chain_key _ id grant_UserID) by done.
    pose proof (not_elem_of_empty_all grant_UserID l). naive_solver.
  - intros k st g st'. unfold grant_step, good_grant. rewrite refuse_Ok. go_bool.
    rewrite bad_access_false. naive_solver.
Qed.

Lemma share_step_Ok volumes users j st s st' :
  share_step volumes users j st s = Ok st' ↔
  good_share volumes users s ∧ fresh2 share_ID (to_lower ∘ share_Name) st s
  ∧ st' = add2 share_ID (to_lower ∘ share_Name) st s.
Proof.
  unfold share_step, fresh2, add2. destruct st as [s1 s2].
  rewrite refuse_Ok, res_bind_Ok. setoid_rewrite grants_Ok. go_bool. simpl. split.
  - intros [Hc (g & (HF & HN & _) & [= <-])]. split_hyps. split_and!; try done.
    split; try done. unfold slen, len in *. lia.
  - intros ([? ? ? ? [? ?] ? ?] & [? ?] & ->). split.
    + split_and!; try done; lia.
    + eexists. split; [split_and!; [done|done|reflexivity]|done].
Qed.
End loops.

(** [Validate] accepts exactly the well-formed configurations. *)
Lemma Config_Validate_wf c : Config_Validate c = Ok tt ↔ wf_config c.
Proof.
  unfold Config_Validate. rewrite !refuse_Ok, res_bind_Ok.
  setoid_rewrite (for_range_chain _ _ _ _ _ _ _ _ volume_step_Ok).
  setoid_rewrite chain2. split.
  - intros (Hh & Hc & [vs us] & (HVF & [HV1 HV2] & Hvs) & Hrest).
    apply res_bind_Ok in Hrest as ([users ns] & Hu & Hrest).
    apply (for_range_chain _ _ _ _ _ _ _ _ user_step_Ok) in Hu as (HUF & [HU1 HU2]%chain2 & Hus).
    apply res_bind_Ok in Hrest as (st & Hs & _).
    apply (for_range_chain _ _ _ _ _ _ _ _ (share_step_Ok _ _)) in Hs as (HSF & [HS1 HS2]%chain2 & _).
    assert (vs = volume_ids c) as -> by (unfold volume_ids; erewrite <- fold2_fst, <- Hvs; done).
    assert (users = user_ids c) as -> by (unfold user_ids; erewrite <- fold2_fst, <- Hus; done).
    go_bool. split_hyps. split; naive_solver.
  - intros []. split_and!; [go_bool; naive_solver|go_bool; naive_solver lia|].
    eexists (_, _). split_and!; [done|done|done|symmetry; apply surjective_pairing|].
    apply res_bind_Ok. eexists (_, _). rewrite (for_range_chain _ _ _ _ _ _ _ _ user_step_Ok), chain2.
    split; [split_and!; [done|done|done|symmetry; apply surjective_pairing]|].
    apply res_bind_Ok. eexists.
    rewrite (for_range_chain _ _ _ _ _ _ _ _ (share_step_Ok _ _)), chain2, !fold2_fst.
    split_and!; done.
Qed.

(** ** Documents *)
Definition MaxInputBytes : Z := 262144.
Definition fields : list string :=
  ["format"; "schema_version"; "revision"; "volumes"; "users"; "shares"; "id"; "filesystem_uuid"; "name";
   "volume_id"; "relative_path"; "grants"; "user_id"; "access"].

Definition enc_Volume (v : Volume) : jval := JObj [("id", JStr (vol_ID v)); ("filesystem_uuid", JStr (vol_FilesystemUUID v))].
Definition enc_User (u : User) : jval := JObj [("id", JStr (user_ID u)); ("name", JStr (user_Name u))].
Definition enc_Grant (g : Grant) : jval := JObj [("user_id", JStr (grant_UserID g)); ("access", JStr (grant_Access g))].
Definition enc_Share (s : Share) : jval :=
  JObj [("id", JStr (share_ID s)); ("name", JStr (share_Name s)); ("volume_id", JStr (share_VolumeID s));
        ("relative_path", JStr (share_RelativePath s)); ("grants", enc_slice enc_Grant (share_Grants s))].
Definition enc_Config (c : Config) : jval :=
  JObj [("format", JStr (cfg_Format c)); ("schema_version", enc_int (cfg_SchemaVersion c));
        ("revision", enc_uint (cfg_Revision c)); ("volumes", enc_slice enc_Volume (cfg_Volumes c));
        ("users", enc_slice enc_User (cfg_Users c)); ("shares", enc_slice enc_Share (cfg_Shares c))].

Definition dec_Volume : jval → option Volume := as_struct ["id"; "filesystem_uuid"] (mkVolume "" "") (λ ms,
  i ← fld "id" as_str "" ms; u ← fld "filesystem_uuid" as_str "" ms; Some (mkVolume i u)).
Definition dec_User : jval → option User := as_struct ["id"; "name"] (mkUser "" "") (λ ms,
  i ← fld "id" as_str "" ms; n ← fld "name" as_str "" ms; Some (mkUser i n)).
Definition dec_Grant : jval → option Grant := as_struct ["user_id"; "access"] (mkGrant "" "") (λ ms,
  u ← fld "user_id" as_str "" ms; a ← fld "access" as_str "" ms; Some (mkGrant u a)).
Definition dec_Share : jval → option Share :=
  as_struct ["id"; "name"; "volume_id"; "relative_path"; "grants"] (mkShare "" "" "" "" None) (λ ms,
  i ← fld "id" as_str "" ms; n ← fld "name" as_str "" ms; v ← fld "volume_id" as_str "" ms;
  r ← fld "relative_path" as_str "" ms; g ← fld "grants" (as_slice dec_Grant) None ms; Some (mkShare i n v r g)).
Definition zero_Config : Config := mkConfig "" 0 0 None None None.
Definition dec_Config : jval → option Config :=
  as_struct ["format"; "schema_version"; "revision"; "volumes"; "users"; "shares"] zero_Config (λ ms,
  f ← fld "format" as_str "" ms; s ← fld "schema_version" as_int 0 ms; r ← fld "revision" (as_uint 64) 0 ms;
  v ← fld "volumes" (as_slice dec_Volume) None ms; u ← fld "users" (as_slice dec_User) None ms;
  h ← fld "shares" (as_slice dec_Share) None ms; Some (mkConfig f s r v u h)).

Inductive load_error := ErrFields | ErrConfig (e : error).
Definition Decode (input : reader) : res load_error Config :=
  match DecodeInto dec_Config input MaxInputBytes 8 fields with
  | Err _ => Err ErrFields
  | Ok config => match Config_Validate config with Err e => Err (ErrConfig e) | Ok _ => Ok config end
  end.

(** *** The strings of a valid configuration are valid UTF-8 *)
Lemma runes_bounded (P : Z → bool) s :
  (∀ r, 128 ≤ r → P r = false) → forallb P (runes s) = true → utf8_valid s = true.
Proof.
  intros HP H. rewrite forallb_runes in H by done. apply ascii_utf8, Forall_forall. intros c Hc.
  rewrite forallb_forall in H. specialize (H c ltac:(by apply list_elem_of_In)).
  destruct (decide (c < 128)); [done|]. by rewrite HP in H by lia.
Qed.

Lemma identifier_utf8 s : identifier s = true → utf8_valid s = true.
Proof.
  unfold identifier. destruct (_ || _); [done|]. apply runes_bounded.
  intros r Hr. unfold identifier_char, is_lower, is_digit. lia.
Qed.
Lemma accountName_utf8 s : accountName s = true → utf8_valid s = true.
Proof.
  unfold accountName. destruct (_ || _); [done|]. rewrite !andb_true_iff. intros [[[H _] _] _]. revert H.
  apply runes_bounded. intros r Hr. unfold account_char, is_lower, is_digit. lia.
Qed.
Lemma shareName_utf8 s : shareName s = true → utf8_valid s = true.
Proof.
  unfold shareName. destruct (_ || _); [done|]. case_match; [done|]. apply runes_bounded.
  intros r Hr. unfold share_char. rewrite (proj2 (Z.ltb_lt 126 r)) by lia. by rewrite orb_true_r.
Qed.
Lemma relativePath_utf8 s : relativePath s = true → utf8_valid s = true.
Proof. unfold relativePath. destruct (utf8_valid s); [done|]. by rewrite orb_true_r. Qed.

Lemma filesystemUUID_utf8 s : filesystemUUID s = true → utf8_valid s = true.
Proof.
  unfold filesystemUUID. case_match; [done|]. case_match eqn:Hf; [|done]. intros _.
  apply (runes_bounded (λ r, r <? 128)); [intros; lia|]. unfold runes.
  revert Hf. generalize 0 at 1 as i. generalize false as nz. induction (range_string s) as [|[[j ch] n] l IH]; [done|].
  intros nz i. rewrite for_range_cons_Ok. intros (s1 & Hb & Hr). cbn [fmap list_fmap forallb fst snd].
  apply andb_true_iff. split; [|by eapply IH].
  unfold is_lower_hex, is_digit in Hb. destruct (hyphen_position j); apply refuse_Ok in Hb as [Hb _]; go_bool; lia.
Qed.

(** *** Reading back an encoded configuration *)
Definition in_range (c : Config) : Prop := 0 ≤ cfg_Revision c < 2 ^ 64.

Lemma dec_enc_Volume v : dec_Volume (enc_Volume v) = Some v.
Proof. unfold dec_Volume, enc_Volume. json_dec. by destruct v. Qed.
Lemma dec_enc_User u : dec_User (enc_User u) = Some u.
Proof. unfold dec_User, enc_User. json_dec. by destruct u. Qed.
Lemma dec_enc_Grant g : dec_Grant (enc_Grant g) = Some g.
Proof. unfold dec_Grant, enc_Grant. json_dec. by destruct g. Qed.
#[export] Hint Resolve dec_enc_Volume dec_enc_User dec_enc_Grant : json.
Lemma dec_enc_Share s : dec_Share (enc_Share s) = Some s.
Proof. unfold dec_Share, enc_Share. json_dec. by destruct s. Qed.
#[export] Hint Resolve dec_enc_Share : json.

Lemma dec_enc_Config c : in_range c → cfg_SchemaVersion c = 1 → dec_Config (enc_Config c) = Some c.
Proof. intros [H0 H1] Hs. unfold dec_Config, enc_Config. json_dec. by destruct c. Qed.

(** The scanner of [configjson] accepts what a valid configuration prints. *)
Abbreviation strict_doc := (strict 8 (Some (λ k, k ∈? fields))).

Section documents.
Context (users : gset string) (Husers : ∀ u, u ∈ users → identifier u = true).

Lemma enc_Volume_wf v : good_volume v → jwf (enc_Volume v) = true.
Proof. intros [Hi Hu]. unfold enc_Volume. json_wf; auto using identifier_utf8, filesystemUUID_utf8 with nocore. Qed.
Lemma enc_User_wf u : good_user u → jwf (enc_User u) = true.
Proof. intros [Hi Hu]. unfold enc_User. json_wf; auto using identifier_utf8, accountName_utf8 with nocore. Qed.
Lemma enc_Grant_wf g : good_grant users g → jwf (enc_Grant g) = true.
Proof using Husers.
  intros [Hu Ha]. unfold enc_Grant. json_wf; [by apply identifier_utf8, Husers|]. by destruct Ha as [->| ->].
Qed.
Lemma enc_Share_wf volumes s : (∀ v, v ∈ volumes → identifier v = true) → good_share volumes users s → jwf (enc_Share s) = true.
Proof using Husers.
  intros Hv []. unfold enc_Share. json_wf; auto using identifier_utf8, shareName_utf8, relativePath_utf8 with nocore.
  apply enc_slice_wf. intros g Hg. apply enc_Grant_wf. rewrite Forall_forall in gs_access0. auto.
Qed.

Lemma strict_Volume v : strict_doc 2 (enc_Volume v).
Proof. json_strict. Qed.
Lemma strict_User u : strict_doc 2 (enc_User u).
Proof. json_strict. Qed.
Lemma strict_Grant g : strict_doc 4 (enc_Grant g).
Proof. json_strict. Qed.
Lemma strict_Share volumes s : good_share volumes users s → strict_doc 2 (enc_Share s).
Proof.
  intros []. json_strict. apply strict_array; [|lia|intros; apply strict_Grant].
  by destruct (share_Grants s); unfold slen, len in *; cbn in *; [|lia].
Qed.
End documents.

Lemma wf_ids c : wf_config c →
  (∀ u, u ∈ user_ids c → identifier u = true) ∧ (∀ v, v ∈ volume_ids c → identifier v = true).
Proof.
  intros []. rewrite Forall_forall in wf_users0. rewrite Forall_forall in wf_volumes0. unfold user_ids, volume_ids. split; intros x Hx.
  - apply elem_of_list_to_set, list_elem_of_fmap in Hx as (u & -> & Hu). by apply wf_users0.
  - apply elem_of_list_to_set, list_elem_of_fmap in Hx as (v & -> & Hv). by apply wf_volumes0.
Qed.

Lemma enc_Config_wf c : wf_config c → in_range c → jwf (enc_Config c) = true.
Proof.
  intros Hc Hr. destruct (wf_ids c Hc) as [Hu Hv]. destruct Hc. unfold in_range in Hr. unfold enc_Config.
  rewrite wf_format0, wf_schema0, enc_int_nonneg by (unfold SchemaVersion; lia). rewrite Forall_forall in wf_volumes0. rewrite Forall_forall in wf_users0. rewrite Forall_forall in wf_shares0. json_wf.
  - by vm_compute.
  - apply enc_slice_wf. intros v Hin. by apply enc_Volume_wf, wf_volumes0.
  - apply enc_slice_wf. intros u Hin. by apply enc_User_wf, wf_users0.
  - apply enc_slice_wf. intros s Hin. eapply (enc_Share_wf (user_ids c) Hu (volume_ids c)); eauto.
Qed.

Lemma strict_Config c : wf_config c → strict_doc 0 (enc_Config c).
Proof.
  intros []. destruct wf_present0 as (? & ? & ?). unfold enc_Config. rewrite wf_schema0, enc_int_nonneg by (unfold SchemaVersion; lia).
  rewrite Forall_forall in wf_shares0.
  json_strict; (apply strict_array; [done|lia|intros x Hx]);
    [apply strict_Volume|apply strict_User|eapply strict_Share; eauto].
Qed.

(** What is printed from a valid configuration within the limit is read back. *)
Lemma Shares_Decode_Marshal c : wf_config c → in_range c → slength (Marshal (enc_Config c)) ≤ MaxInputBytes →
  Decode (bytes_reader (Marshal (enc_Config c))) = Ok c.
Proof.
  intros Hc Hr Hl. unfold Decode. rewrite (DecodeInto_Marshal dec_Config (enc_Config c) _ _ _ c); try done.
  - by rewrite (proj2 (Config_Validate_wf c) Hc).
  - by apply enc_Config_wf.
  - by apply strict_Config.
  - apply dec_enc_Config; [done|]. by destruct Hc.
Qed.

Lemma Shares_Decode_sound input c : Decode input = Ok c → wf_config c ∧ in_range c.
Proof.
  unfold Decode. destruct (DecodeInto _ _ _ _ _) as [c'|] eqn:Hd; [|done].
  destruct (Config_Validate c') as [[]|] eqn:Hv; [|done]. intros [= ->]. split; [by apply Config_Validate_wf|].
  apply DecodeInto_Ok in Hd as (_ & _ & data & v & _ & _ & _ & _ & _ & _ & Hd).
  unfold dec_Config, as_struct in Hd. destruct v as [| | | | |ms]; try done; [by simplify_eq|]. case_match; [|done].
  repeat (apply bind_Some in Hd as (? & ? & Hd)). simplify_eq. by eapply fld_uint_range.
Qed.

(** ** Properties *)

(** [Config.Validate] accepts exactly the configurations that satisfy the
    contract of the package: supported format, schema and nonzero revision,
    present and bounded collections, well-formed and unique volumes (also by
    filesystem UUID), users (also by account name) and shares (also by
    case-folded name), and grants that each name a declared user once with a
    known access, on a declared volume and a valid relative path. *)
Theorem Config_Validate_exact c : Config_Validate c = Ok tt ↔ wf_config c.
Proof. apply Config_Validate_wf. Qed.

End ShareConfig.
