(* ===== verification/NetIP.v ===== *)
(** * Package [net/netip]: addresses and prefixes

    An address is its family and its value; an IPv6 address may carry a zone.
    [ParseAddr], [String] and [ParsePrefix] follow the package; [Contains] and
    [Overlaps] compare leading bits.  The lemmas give these the meaning clients
    rely on: a prefix is an interval of addresses, [Contains] is membership and
    [Overlaps] is a common address. *)

From S2P Require Import Prelude GoStrings.

Module NetIP.

(** The zero [Addr] is not a value of this type: parsing never returns it. *)
Inductive Addr :=
| Addr4 (v : Z)
| Addr6 (v : Z) (zone : string).
#[export] Instance Addr_eq_dec : EqDecision Addr. Proof. solve_decision. Defined.

Record Prefix := mkPrefix { pfx_addr : Addr; pfx_bits : Z }.
#[export] Instance Prefix_eq_dec : EqDecision Prefix. Proof. solve_decision. Defined.

Definition value (a : Addr) : Z := match a with Addr4 v | Addr6 v _ => v end.
Definition Zone (a : Addr) : string := match a with Addr4 _ => "" | Addr6 _ z => z end.
Definition Is4 (a : Addr) : bool := match a with Addr4 _ => true | Addr6 _ _ => false end.
Definition BitLen (a : Addr) : Z := if Is4 a then 32 else 128.
Definition Is4In6 (a : Addr) : bool := match a with Addr4 _ => false | Addr6 v _ => v / 2 ^ 32 =? 65535 end.
(** [As4()[i]] and [As16()[i]] *)
Definition byte_of (a : Addr) (i : Z) : Z := (value a / 2 ^ (BitLen a - 8 - 8 * i)) mod 256.
Definition Unmap (a : Addr) : Addr := if Is4In6 a then Addr4 (value a mod 2 ^ 32) else a.

Definition IsUnspecified (a : Addr) : bool := (a == Addr4 0) || (a == Addr6 0 "").
Definition IsLoopback (a : Addr) : bool :=
  match Unmap a with Addr4 v => v / 2 ^ 24 =? 127 | Addr6 v _ => v =? 1 end.
Definition IsMulticast (a : Addr) : bool :=
  match Unmap a with Addr4 v => v / 2 ^ 28 =? 14 | Addr6 v _ => v / 2 ^ 120 =? 255 end.
Definition IsLinkLocalUnicast (a : Addr) : bool :=
  match Unmap a with Addr4 v => v / 2 ^ 16 =? 43518 | Addr6 v _ => v / 2 ^ 118 =? 1018 end.
Definition IsGlobalUnicast (a : Addr) : bool :=
  let a := Unmap a in
  if Is4 a && ((a == Addr4 0) || (a == Addr4 (2 ^ 32 - 1))) then false
  else (a != Addr6 0 "") && negb (IsLoopback a) && negb (IsMulticast a) && negb (IsLinkLocalUnicast a).

(** ** Parsing *)

(** one field of an IPv4 address: one to three digits without leading zero, at
    most 255 *)
Definition octet (s : string) : option Z :=
  if (s == "") || negb (forallb is_digit (codes s)) then None
  else if (1 <? slength s) && (byte_at s 0 =? 48) then None
  else let n := digits_value (codes s) in if n <=? 255 then Some n else None.
Definition parseIPv4Fields (s : string) : option Z :=
  match split_on "." s with
  | [a; b; c; d] => w ← octet a; x ← octet b; y ← octet c; z ← octet d; Some (((w * 256 + x) * 256 + y) * 256 + z)
  | _ => None
  end.
Definition parseIPv4 (s : string) : option Addr := Addr4 <$> parseIPv4Fields s.

Definition hex_digit (c : Z) : option Z :=
  if is_digit c then Some (c - 48)
  else if (97 <=? c) && (c <=? 102) then Some (c - 87)
  else if (65 <=? c) && (c <=? 70) then Some (c - 55)
  else None.
(** the longest run of hexadecimal digits: value, count, rest *)
Fixpoint hex_run (acc n : Z) (s : string) : Z * Z * string :=
  match s with
  | EmptyString => (acc, n, s)
  | String c s' => match hex_digit (code c) with
                   | Some d => hex_run (acc * 16 + d) (n + 1) s'
                   | None => (acc, n, s)
                   end
  end.

(** [s[n:]] *)
Fixpoint sdrop (n : nat) (s : string) : string :=
  match n, s with S n, String _ s' => sdrop n s' | _, _ => s end.

(** The loop of [parseIPv6]: the groups so far, the position of the ellipsis,
    and the rest of the text.  The result is the groups, the ellipsis and the
    unread text. *)
Fixpoint groups (fuel : nat) (gs : list Z) (ellipsis : option Z) (s : string) : option (list Z * option Z * string) :=
  match fuel with
  | O => Some (gs, ellipsis, s)
  | S fuel =>
    let '(acc, off, rest) := hex_run 0 0 s in
    if (4 <? off) || (off =? 0) then None
    else match rest with
    | EmptyString => Some (gs ++ [acc], ellipsis, EmptyString)
    | String c rest' =>
      if c == "."%char then
        if (match ellipsis with None => negb (len gs =? 6) | Some _ => false end) || (8 <? len gs + 2) then None
        else v ← parseIPv4Fields s; Some (gs ++ [v / 65536; v mod 65536], ellipsis, EmptyString)
      else if c != ":"%char then None
      else match rest' with
      | EmptyString => None
      | String d rest'' =>
        if d == ":"%char then
          match ellipsis with
          | Some _ => None
          | None => if rest'' == "" then Some (gs ++ [acc], Some (len gs + 1), EmptyString)
                    else groups fuel (gs ++ [acc]) (Some (len gs + 1)) rest''
          end
        else groups fuel (gs ++ [acc]) ellipsis rest'
      end
    end
  end.

Definition assemble (gs : list Z) : Z := fold_left (λ acc g, acc * 65536 + g) gs 0.
Definition parseIPv6 (s0 : string) : option Addr :=
  let '(s, zone, found) := cut "%" s0 in
  if found && (zone == "") then None
  else
    let '(ellipsis, s) := if has_prefix "::" s then (Some 0, sdrop 2 s) else (None, s) in
    if (match ellipsis with Some _ => true | None => false end) && (s == "") then Some (Addr6 0 zone)
    else match groups 8 [] ellipsis s with
    | Some (gs, ellipsis, EmptyString) =>
      if len gs <? 8 then
        match ellipsis with
        | None => None
        | Some e =>
          let k := Z.to_nat e in
          Some (Addr6 (assemble (take k gs ++ replicate (8 - length gs) 0 ++ drop k gs)) zone)
        end
      else match ellipsis with Some _ => None | None => Some (Addr6 (assemble gs) zone) end
    | _ => None
    end.

(** the first of [.], [:] and [%] decides *)
Fixpoint address_kind (s : string) : option ascii :=
  match s with
  | EmptyString => None
  | String c s' => if (c == "."%char) || (c == ":"%char) || (c == "%"%char) then Some c else address_kind s'
  end.
Definition ParseAddr (s : string) : option Addr :=
  match address_kind s with
  | Some c => if c == "."%char then parseIPv4 s else if c == ":"%char then parseIPv6 s else None
  | None => None
  end.

(** ** Printing *)
Definition string4 (v : Z) : string :=
  join_with "." (FormatUint <$> [v / 2 ^ 24; (v / 2 ^ 16) mod 256; (v / 2 ^ 8) mod 256; v mod 256]).
(** [appendHex]: lower case, no leading zeros *)
Definition append_hex (g : Z) : string :=
  let d k := String (hex_nibble ((g / 16 ^ k) mod 16)) EmptyString in
  String.append (if 4096 <=? g then d 3 else "") (String.append (if 256 <=? g then d 2 else "")
    (String.append (if 16 <=? g then d 1 else "") (d 0))).
Definition v6_groups (v : Z) : list Z := (λ i, (v / 65536 ^ (7 - i)) mod 65536) <$> seqZ 0 8.
Fixpoint zero_run (gs : list Z) : Z :=
  match gs with g :: gs' => if g =? 0 then 1 + zero_run gs' else 0 | [] => 0 end.
(** The first longest run of at least two zero groups: its start and length. *)
Fixpoint longest_run (i : Z) (best : Z * Z) (gs : list Z) : Z * Z :=
  match gs with
  | [] => best
  | _ :: gs' => let l := zero_run gs in
                longest_run (i + 1) (if (2 <=? l) && (best.2 <? l) then (i, l) else best) gs'
  end.
Definition hex_groups (gs : list Z) : string := join_with ":" (append_hex <$> gs).
Definition string6 (v : Z) : string :=
  let gs := v6_groups v in
  let '(start, l) := longest_run 0 (255, 0) gs in
  if l =? 0 then hex_groups gs
  else String.append (hex_groups (take (Z.to_nat start) gs))
         (String.append "::" (hex_groups (drop (Z.to_nat (start + l)) gs))).
Definition with_zone (z s : string) : string := if z == "" then s else String.append s (String "%" z).
Definition String_ (a : Addr) : string :=
  match a with
  | Addr4 v => string4 v
  | Addr6 v z => with_zone z (if Is4In6 a then String.append "::ffff:" (string4 (v mod 2 ^ 32)) else string6 v)
  end.

(** ** Prefixes *)
Definition PrefixFrom (a : Addr) (bits : Z) : Prefix :=
  mkPrefix (match a with Addr6 v _ => Addr6 v "" | _ => a end) (if (bits <? 0) || (BitLen a <? bits) then -1 else bits).
Definition IsValid (p : Prefix) : bool := 0 <=? pfx_bits p.

(** [strings.LastIndexByte(s, '/')]: the text before and after *)
Definition cut_last (sep : ascii) (s : string) : option (string * string) :=
  match rev (split_on sep s) with
  | w :: (_ :: _) as ws => Some (join_with sep (rev ws), w)
  | _ => None
  end.
Definition ParsePrefix (s : string) : option Prefix :=
  '(addr, bits) ← cut_last "/" s;
  ip ← ParseAddr addr;
  if Zone ip != "" then None
  else if (1 <? slength bits) && ((byte_at bits 0 <? 49) || (57 <? byte_at bits 0)) then None
  else n ← ParseUint 63 bits;
  if BitLen ip <? n then None else Some (PrefixFrom ip n).
Definition Prefix_String (p : Prefix) : string :=
  if negb (IsValid p) then "invalid Prefix"
  else String.append (String_ (pfx_addr p)) (String "/" (FormatUint (pfx_bits p))).

(** the address with only its leading [bits] bits *)
Definition masked_value (w bits v : Z) : Z := v / 2 ^ (w - bits) * 2 ^ (w - bits).
Definition Masked_addr (a : Addr) (bits : Z) : Addr :=
  match a with Addr4 v => Addr4 (masked_value 32 bits v) | Addr6 v _ => Addr6 (masked_value 128 bits v) "" end.
Definition Masked (p : Prefix) : Prefix := mkPrefix (Masked_addr (pfx_addr p) (pfx_bits p)) (pfx_bits p).
Definition Contains (p : Prefix) (a : Addr) : bool :=
  if negb (IsValid p) || (Zone a != "") then false
  else if negb (BitLen (pfx_addr p) =? BitLen a) then false
  else Z.shiftr (Z.lxor (value a) (value (pfx_addr p))) (BitLen a - pfx_bits p) =? 0.
Definition Overlaps (p o : Prefix) : bool :=
  if negb (IsValid p) || negb (IsValid o) then false
  else if p == o then true
  else if negb (Bool.eqb (Is4 (pfx_addr p)) (Is4 (pfx_addr o))) then false
  else let minBits := Z.min (pfx_bits p) (pfx_bits o) in
  if minBits =? 0 then true
  else Masked_addr (pfx_addr p) minBits == Masked_addr (pfx_addr o) minBits.

(** *** Examples against the documented behaviour of the package *)
Example parse_examples :
  ParseAddr "192.0.2.1" = Some (Addr4 3221225985) ∧ ParseAddr "192.0.02.1" = None ∧ ParseAddr "256.0.0.1" = None
  ∧ ParseAddr "1.2.3" = None ∧ ParseAddr "::" = Some (Addr6 0 "") ∧ ParseAddr "::1%eth0" = Some (Addr6 1 "eth0")
  ∧ ParseAddr "fe80::1:2" = Some (Addr6 (65152 * 65536 ^ 7 + 65536 + 2) "")
  ∧ ParseAddr "1:2:3:4:5:6:7:8:9" = None ∧ ParseAddr "1:2:3:4:5:6:7::8" = None ∧ ParseAddr "1:::2" = None
  ∧ ParseAddr "::ffff:192.0.2.1" = Some (Addr6 (65535 * 2 ^ 32 + 3221225985) "") ∧ ParseAddr "1:2" = None.
Proof. vm_compute. by split_and!. Qed.
Example print_examples :
  String_ <$> ParseAddr "2001:DB8:0:0:1:0:0:1" = Some "2001:db8::1:0:0:1"
  ∧ String_ <$> ParseAddr "0:0:0:1::" = Some "0:0:0:1::" ∧ String_ <$> ParseAddr "1:0:0:2:0:0:0:3" = Some "1:0:0:2::3"
  ∧ String_ <$> ParseAddr "::FFFF:1.2.3.4" = Some "::ffff:1.2.3.4" ∧ String_ <$> ParseAddr "10.0.0.255" = Some "10.0.0.255"
  ∧ Prefix_String <$> ParsePrefix "10.0.0.0/8" = Some "10.0.0.0/8" ∧ ParsePrefix "10.0.0.0/08" = None
  ∧ ParsePrefix "10.0.0.0/33" = None ∧ ParsePrefix "fe80::1%x/64" = None ∧ String_ <$> ParseAddr "::1" = Some "::1".
Proof. vm_compute. by split_and!. Qed.

(** ** The meaning of prefixes *)
Definition addr_ok (a : Addr) : Prop := 0 ≤ value a < 2 ^ BitLen a.
Definition prefix_ok (p : Prefix) : Prop :=
  addr_ok (pfx_addr p) ∧ 0 ≤ pfx_bits p ≤ BitLen (pfx_addr p) ∧ Zone (pfx_addr p) = "".

(** A prefix is an interval of addresses of its family. *)
Definition host_bits (p : Prefix) : Z := BitLen (pfx_addr p) - pfx_bits p.
Definition first_value (p : Prefix) : Z := masked_value (BitLen (pfx_addr p)) (pfx_bits p) (value (pfx_addr p)).
Definition in_network (p : Prefix) (a : Addr) : Prop :=
  addr_ok a ∧ Zone a = "" ∧ Is4 a = Is4 (pfx_addr p) ∧ first_value p ≤ value a < first_value p + 2 ^ host_bits p.

Lemma same_block k x y : 0 ≤ k → (x / 2 ^ k = y / 2 ^ k ↔ y / 2 ^ k * 2 ^ k ≤ x < y / 2 ^ k * 2 ^ k + 2 ^ k).
Proof.
  intros Hk. assert (0 < 2 ^ k) by (apply Z.pow_pos_nonneg; lia). split.
  - intros <-. pose proof (Z.div_mod x (2 ^ k) ltac:(lia)). pose proof (Z.mod_pos_bound x (2 ^ k) ltac:(lia)). lia.
  - intros [H1 H2]. symmetry. apply (Z.div_unique_pos x (2 ^ k) (y / 2 ^ k) (x - y / 2 ^ k * 2 ^ k)); lia.
Qed.

Lemma BitLen_Is4 a b : BitLen a = BitLen b ↔ Is4 a = Is4 b.
Proof. unfold BitLen. destruct (Is4 a), (Is4 b); naive_solver. Qed.

Lemma Contains_blocks p a : prefix_ok p →
  Contains p a = true ↔ Zone a = "" ∧ Is4 a = Is4 (pfx_addr p)
    ∧ value a / 2 ^ host_bits p = value (pfx_addr p) / 2 ^ host_bits p.
Proof.
  intros (_ & Hb & Hz). unfold Contains, IsValid. rewrite (proj2 (Z.leb_le 0 _)) by lia. cbn [negb orb].
  destruct (decide (Zone a = "")) as [Hza|Hza].
  2:{ rewrite bool_decide_eq_false_2 by done. naive_solver. }
  rewrite bool_decide_eq_true_2 by done. cbn [negb].
  destruct (Z.eqb_spec (BitLen (pfx_addr p)) (BitLen a)) as [He|He]; cbn [negb].
  2:{ split; [done|]. intros (_ & H & _). apply BitLen_Is4 in H. congruence. }
  unfold host_bits. rewrite He in *. rewrite Z.eqb_eq, Z.shiftr_lxor, Z.lxor_eq_0_iff, !Z.shiftr_div_pow2 by lia.
  split; [intros H; split_and!; [done|by apply BitLen_Is4|done]|naive_solver].
Qed.

Lemma Contains_spec p a : prefix_ok p → addr_ok a → (Contains p a = true ↔ in_network p a).
Proof.
  intros Hp Ha. rewrite Contains_blocks by done. destruct Hp as (_ & Hb & _).
  unfold in_network, first_value, masked_value. fold (host_bits p).
  rewrite same_block by (unfold host_bits; lia). naive_solver.
Qed.

(** The addresses of a prefix are addresses. *)
Lemma own_address p : prefix_ok p → in_network p (pfx_addr p).
Proof.
  intros Hp. apply Contains_spec; [done|by destruct Hp|]. apply Contains_blocks; [done|].
  split_and!; [by destruct Hp as (_ & _ & ?)|done|done].
Qed.

Lemma same_block_coarser k j x y : 0 ≤ k ≤ j → x / 2 ^ k = y / 2 ^ k → x / 2 ^ j = y / 2 ^ j.
Proof.
  intros Hk H. replace j with (k + (j - k)) by lia. rewrite Z.pow_add_r by lia.
  rewrite <- !Z.div_div, H by (try apply Z.pow_nonzero; try apply Z.pow_pos_nonneg; lia). done.
Qed.

Lemma masked_equal w bits x y : 0 ≤ bits ≤ w → (masked_value w bits x = masked_value w bits y ↔ x / 2 ^ (w - bits) = y / 2 ^ (w - bits)).
Proof.
  intros Hb. unfold masked_value. assert (0 < 2 ^ (w - bits)) by (apply Z.pow_pos_nonneg; lia).
  split; [|congruence]. intros H'. by apply Z.mul_reg_r in H'; [|lia].
Qed.

Lemma Masked_addr_equal a b bits : Is4 a = Is4 b → 0 ≤ bits ≤ BitLen a →
  (Masked_addr a bits = Masked_addr b bits ↔ value a / 2 ^ (BitLen a - bits) = value b / 2 ^ (BitLen a - bits)).
Proof.
  intros H4 Hb. rewrite <- masked_equal by done.
  destruct a, b; try done; unfold BitLen, value, Masked_addr, Is4 in *; (split; [by intros [= ->]|by intros ->]).
Qed.

(** Two prefixes overlap exactly when they share an address. *)
Lemma Overlaps_spec p o : prefix_ok p → prefix_ok o →
  (Overlaps p o = true ↔ ∃ a, in_network p a ∧ in_network o a).
Proof.
  intros Hp Ho. pose proof Hp as (Hpa & Hpb & Hpz). pose proof Ho as (Hoa & Hob & Hoz).
  assert (Hsym : (∃ a, in_network p a ∧ in_network o a) ↔ Is4 (pfx_addr p) = Is4 (pfx_addr o)
    ∧ value (pfx_addr p) / 2 ^ Z.max (host_bits p) (host_bits o) = value (pfx_addr o) / 2 ^ Z.max (host_bits p) (host_bits o)).
  { split.
    - intros (a & Ha & Hb). assert (Hok : addr_ok a) by (by destruct Ha).
      apply Contains_spec, Contains_blocks in Ha as (_ & H1 & Ha); try done.
      apply Contains_spec, Contains_blocks in Hb as (_ & H2 & Hb); try done. split; [congruence|].
      etrans; [symmetry; apply (same_block_coarser (host_bits p)); [unfold host_bits; lia|done]|].
      apply (same_block_coarser (host_bits o)); [unfold host_bits; lia|done].
    - intros [H4 Hv]. destruct (Z.max_spec (host_bits p) (host_bits o)) as [[Hl Hm]|[Hl Hm]]; rewrite Hm in Hv.
      + exists (pfx_addr p). split; [by apply own_address|]. apply Contains_spec; [done|done|]. by apply Contains_blocks.
      + exists (pfx_addr o). split; [|by apply own_address]. apply Contains_spec; [done|done|]. by apply Contains_blocks. }
  rewrite Hsym. unfold Overlaps, IsValid. rewrite !(proj2 (Z.leb_le 0 _)) by lia. cbn [negb orb].
  destruct (decide (p = o)) as [->|Hne]; [rewrite bool_decide_eq_true_2 by done; naive_solver|].
  rewrite bool_decide_eq_false_2 by done.
  destruct (Bool.eqb_spec (Is4 (pfx_addr p)) (Is4 (pfx_addr o))) as [H4|H4]; cbn [negb]; [|naive_solver].
  assert (Hw : BitLen (pfx_addr o) = BitLen (pfx_addr p)) by (by apply BitLen_Is4).
  replace (Z.max (host_bits p) (host_bits o)) with (BitLen (pfx_addr p) - Z.min (pfx_bits p) (pfx_bits o))
    by (unfold host_bits; lia).
  rewrite <- Masked_addr_equal by (done || lia).
  destruct (Z.eqb_spec (Z.min (pfx_bits p) (pfx_bits o)) 0) as [Hz|Hz]; [|rewrite bool_decide_eq_true; naive_solver].
  split; [|done]. intros _. split; [done|]. rewrite Masked_addr_equal by (done || lia). rewrite Hz, Z.sub_0_r.
  unfold addr_ok in *. rewrite Hw in Hoa. by rewrite !Z.div_small by lia.
Qed.

(** ** Parsed addresses are in range *)
Lemma octet_range s n : octet s = Some n → 0 ≤ n < 256.
Proof.
  unfold octet. destruct (_ || _) eqn:H1; [done|]. destruct (_ && _); [done|].
  destruct (Z.leb_spec (digits_value (codes s)) 255); [|done]. intros [= <-]. go_bool. split_hyps.
  pose proof (digits_value_bounds (codes s) ltac:(done)). lia.
Qed.

Lemma parseIPv4Fields_range s v : parseIPv4Fields s = Some v → 0 ≤ v < 2 ^ 32.
Proof.
  unfold parseIPv4Fields. destruct (split_on "." s) as [|a [|b [|c [|d [|]]]]]; try done. intros H.
  repeat (apply bind_Some in H as (? & ?%octet_range & H)). simplify_eq. lia.
Qed.

Lemma hex_run_range acc n s : 0 ≤ n → 0 ≤ acc < 16 ^ n →
  let '(v, off, _) := hex_run acc n s in n ≤ off ∧ 0 ≤ v < 16 ^ off.
Proof.
  revert acc n. induction s as [|c s IH]; intros acc n Hn Ha; cbn [hex_run]; [lia|].
  destruct (hex_digit (code c)) as [d|] eqn:Hd; [|lia].
  assert (0 ≤ d < 16) by (unfold hex_digit, is_digit in Hd; repeat case_match; simplify_eq; go_bool; lia).
  assert (Hp : 16 ^ (n + 1) = 16 * 16 ^ n) by (rewrite Z.pow_add_r, Z.pow_1_r by lia; lia).
  specialize (IH (acc * 16 + d) (n + 1) ltac:(lia) ltac:(lia)).
  destruct (hex_run (acc * 16 + d) (n + 1) s) as [[v off] r]. lia.
Qed.

Definition group_ok (g : Z) : Prop := 0 ≤ g < 65536.
Lemma groups_range fuel gs e s gs' e' r : groups fuel gs e s = Some (gs', e', r) → Forall group_ok gs →
  len gs + Z.of_nat fuel ≤ 8 → Forall group_ok gs' ∧ len gs' ≤ 8.
Proof.
  revert gs e s. induction fuel as [|fuel IH]; intros gs e s; cbn [groups].
  - intros [= <- <- <-] HF Hl. split; [done|lia].
  - pose proof (hex_run_range 0 0 s ltac:(lia) ltac:(rewrite Z.pow_0_r; lia)) as Hr.
    destruct (hex_run 0 0 s) as [[acc off] rest]. destruct ((4 <? off) || (off =? 0)) eqn:Ho; [done|]. go_bool.
    assert (Ha : group_ok acc).
    { unfold group_ok. destruct Hr as [? Hr]. assert (16 ^ off ≤ 16 ^ 4) by (apply Z.pow_le_mono_r; lia). lia. }
    intros H HF Hl.
    assert (HF' : Forall group_ok (gs ++ [acc])) by (apply Forall_app_2; [done|by constructor]).
    assert (Hl' : len (gs ++ [acc]) = len gs + 1) by (unfold len; rewrite length_app; cbn [length]; lia).
    destruct rest as [|c rest']; [simplify_eq; split; [done|lia]|].
    destruct (c == _)%char; [|destruct (negb _); [done|]; destruct rest' as [|d rest'']; [done|]; destruct (d == _)%char].
    + destruct (_ || _) eqn:Hc in H; [done|]. apply bind_Some in H as (v & Hv%parseIPv4Fields_range & H). simplify_eq.
      apply orb_false_iff in Hc as [_ Hc]. apply Z.ltb_ge in Hc.
      split; [|unfold len in *; rewrite length_app; cbn [length]; lia].
      apply Forall_app_2; [done|]. rewrite !Forall_cons. unfold group_ok. split_and!; try done; Z.div_mod_to_equations; lia.
    + destruct e; [done|]. destruct (_ == _) in H; [simplify_eq; split; [done|lia]|].
      apply (IH _ _ _ H); [done|lia].
    + apply (IH _ _ _ H); [done|lia].
Qed.

Lemma assemble_range gs : Forall group_ok gs → 0 ≤ assemble gs < 65536 ^ len gs.
Proof.
  intros HF. unfold assemble.
  assert (H : ∀ acc k, 0 ≤ k → 0 ≤ acc < 65536 ^ k →
    0 ≤ fold_left (λ acc g, acc * 65536 + g) gs acc < 65536 ^ (k + len gs)).
  { induction HF as [|g gs Hg HF IH]; intros acc k Hk Ha; cbn [fold_left]; [by rewrite Z.add_0_r|].
    unfold group_ok in Hg. replace (k + len (g :: gs)) with (k + 1 + len gs) by (unfold len; cbn [length]; lia).
    apply IH; [lia|]. rewrite Z.pow_add_r, Z.pow_1_r by lia. lia. }
  apply (H 0 0); [lia|]. rewrite Z.pow_0_r. lia.
Qed.

Lemma expand_range gs (e : option Z) zone a : Forall group_ok gs → len gs ≤ 8 →
  (if len gs <? 8 then
     match e with
     | None => None
     | Some e => Some (Addr6 (assemble (take (Z.to_nat e) gs ++ replicate (8 - length gs) 0 ++ drop (Z.to_nat e) gs)) zone)
     end
   else match e with Some _ => None | None => Some (Addr6 (assemble gs) zone) end) = Some a →
  addr_ok a ∧ Is4 a = false.
Proof.
  intros HF Hl. unfold len in *.
  destruct (Z.ltb_spec (Z.of_nat (length gs)) 8); destruct e as [e|]; try done; intros [= <-]; split; try done;
    unfold addr_ok; cbn [value BitLen Is4].
  - assert (HF' : Forall group_ok (take (Z.to_nat e) gs ++ replicate (8 - length gs) 0 ++ drop (Z.to_nat e) gs)).
    { repeat apply Forall_app_2; [by apply Forall_take|apply Forall_replicate; unfold group_ok; lia|by apply Forall_drop]. }
    apply assemble_range in HF'. unfold len in HF'. rewrite !length_app, length_replicate, length_take, length_drop in HF'.
    replace (Z.of_nat _) with 8 in HF' by lia. done.
  - apply assemble_range in HF. unfold len in HF. replace (Z.of_nat _) with 8 in HF by lia. done.
Qed.

Lemma parseIPv6_range s a : parseIPv6 s = Some a → addr_ok a ∧ Is4 a = false.
Proof.
  unfold parseIPv6. destruct (cut "%" s) as [[s1 zone] found]. destruct (_ && _) in |- *; [done|].
  destruct (has_prefix "::" s1) in |- *; cbn [andb].
  - destruct (_ == _) in |- *; [intros [= <-]; split; [unfold addr_ok, BitLen; cbn [value Is4]; lia|done]|].
    destruct (groups 8 [] (Some 0) (sdrop 2 s1)) as [[[gs e] []]|] eqn:Hg; try done.
    apply groups_range in Hg as [HF Hl]; [|done|done]. by apply expand_range.
  - destruct (groups 8 [] None s1) as [[[gs e] []]|] eqn:Hg; try done.
    apply groups_range in Hg as [HF Hl]; [|done|done]. by apply expand_range.
Qed.

Lemma ParseAddr_ok s a : ParseAddr s = Some a → addr_ok a.
Proof.
  unfold ParseAddr. destruct (address_kind s); [|done]. case_match; [|case_match; [|done]].
  - unfold parseIPv4. destruct (parseIPv4Fields s) as [v|] eqn:Hv; [|done]. intros [= <-].
    unfold addr_ok, BitLen. cbn [value Is4]. by eapply parseIPv4Fields_range.
  - intros Ha. by destruct (parseIPv6_range s a Ha).
Qed.

Lemma ParsePrefix_ok s p : ParsePrefix s = Some p → prefix_ok p.
Proof.
  unfold ParsePrefix. intros H. apply bind_Some in H as ([addr bits] & _ & H).
  apply bind_Some in H as (ip & Ha%ParseAddr_ok & H).
  destruct (Zone ip != "") eqn:Hz; [done|]. destruct (_ && _) in H; [done|].
  apply bind_Some in H as (n & Hn%ParseUint_bounds & H).
  destruct (Z.ltb_spec (BitLen ip) n); [done|]. injection H as <-. unfold prefix_ok, PrefixFrom. cbn [pfx_addr pfx_bits].
  rewrite (proj2 (Z.ltb_ge n 0)), (proj2 (Z.ltb_ge (BitLen ip) n)) by lia. cbn [orb].
  destruct ip; cbn in *; split_and!; done || lia.
Qed.

(** ** The characters of printed addresses *)
Definition net_char (c : Z) : bool := is_lower_hex c || (c =? 46) || (c =? 58) || (c =? 47).
Abbreviation net_text := (all_chars net_char).

Lemma net_text_uint n : 0 ≤ n → net_text (FormatUint n).
Proof. apply all_chars_uint. intros c Hc. unfold net_char, is_lower_hex. by rewrite Hc. Qed.
Lemma net_text_nibble n : 0 ≤ n < 16 → net_text (String (hex_nibble n) "").
Proof.
  intros Hn. unfold all_chars. rewrite codes_String. cbn [codes forallb]. unfold hex_nibble, code.
  rewrite N_ascii_embedding by (case_match; lia). rewrite Z2N.id by (case_match; lia). rewrite andb_true_r.
  unfold net_char, is_lower_hex, is_digit. case_match; go_bool; lia.
Qed.
Lemma net_text_hex g : net_text (append_hex g).
Proof.
  unfold append_hex. assert (H : ∀ k, net_text (String (hex_nibble ((g / 16 ^ k) mod 16)) ""))
    by (intros k; apply net_text_nibble, Z.mod_pos_bound; lia).
  repeat apply all_chars_app; try apply H; case_match; try apply H; done.
Qed.
Lemma string4_text v : 0 ≤ v → net_text (string4 v).
Proof.
  intros Hv. apply all_chars_join; [done|]. cbn [fmap list_fmap]. rewrite !Forall_cons. split_and!; try done;
    apply net_text_uint; (apply Z.div_pos; lia) || (apply Z.mod_pos_bound; lia).
Qed.
Lemma hex_groups_text gs : net_text (hex_groups gs).
Proof. apply all_chars_join; [done|]. apply Forall_fmap, Forall_true. intros g. apply net_text_hex. Qed.
Lemma string6_text v : net_text (string6 v).
Proof.
  unfold string6. destruct (longest_run 0 (255, 0) (v6_groups v)) as [st l]. case_match; [apply hex_groups_text|].
  repeat apply all_chars_app; try apply hex_groups_text. done.
Qed.

Lemma Prefix_String_text p : prefix_ok p → net_text (Prefix_String p).
Proof.
  intros (Ha & Hb & Hz). unfold Prefix_String, IsValid. rewrite (proj2 (Z.leb_le 0 _)) by lia. cbn [negb].
  assert (Hs : net_text (String_ (pfx_addr p))).
  { unfold addr_ok in Ha. destruct (pfx_addr p) as [v|v z]; cbn [String_ value Zone] in *; [apply string4_text; lia|].
    subst z. unfold with_zone. rewrite bool_decide_eq_true_2 by done.
    destruct (Is4In6 _); [|apply string6_text]. apply all_chars_app; [done|]. apply string4_text, Z.mod_pos_bound. lia. }
  apply all_chars_app; [done|]. apply all_chars_String. split; [done|]. apply net_text_uint. lia.
Qed.

Lemma net_text_ascii s : net_text s → Forall (λ c, 32 < c < 128) (codes s).
Proof.
  unfold all_chars. rewrite forallb_forall, Forall_forall. intros H c Hc%list_elem_of_In. specialize (H c Hc).
  unfold net_char, is_lower_hex, is_digit in H. go_bool. lia.
Qed.

End NetIP.
