(* ===== verification/GoPath.v ===== *)
(** * Packages [path] and [slices]: lexical paths and sorting by string

    [Clean] and [Join] are the functions of package [path].  On the relative
    paths that [fs.ValidPath] accepts, a path is its list of names
    ([components]); joining is appending and the overlap tests of the
    configuration packages are prefix tests on these lists.  [sort_by] is
    [slices.SortFunc] with [strings.Compare] on a key. *)

From S2P Require Import Prelude GoStrings.

Module GoPath.

(** ** [path.Clean] and [path.Join] *)
Definition clean_step (rooted : bool) (out : list string) (w : string) : list string :=
  if (w == "") || (w == ".") then out
  else if w == ".." then
    match out with
    | [] => if rooted then [] else [w]
    | top :: out' => if top == ".." then w :: out else out'
    end
  else w :: out.
Definition Clean (s : string) : string :=
  if s == "" then "."
  else
    let rooted := has_prefix "/" s in
    let out := join_with "/" (rev (fold_left (clean_step rooted) (split_on "/" s) [])) in
    if rooted then String "/" out else if out == "" then "." else out.
Definition Join (a b : string) : string :=
  if (a == "") && (b == "") then ""
  else Clean (if a == "" then b else if b == "" then a else String.append a (String "/" b)).

(** [path.IsAbs], [path.Dir] and [path.Base] *)
Definition IsAbs (p : string) : bool := has_prefix "/" p.
Definition Dir (p : string) : string :=
  Clean (match removelast (split_on "/" p) with
         | [] => ""
         | ds => String.append (join_with "/" ds) "/"
         end).
Fixpoint skip_empty (ws : list string) : list string :=
  match ws with [] => [] | w :: ws' => if w == "" then skip_empty ws' else ws end.
Definition Base (p : string) : string :=
  if p == "" then "."
  else match skip_empty (rev (split_on "/" p)) with
       | [] => "/"
       | w :: _ => w
       end.

(** [a == b || a == "/" || b == "/" || HasPrefix(a, b+"/") || HasPrefix(b, a+"/")] *)
Definition under (a b : string) : bool := has_prefix (String.append b "/") a.
Definition nested (a b : string) : bool := (a == b) || under a b || under b a.

(** ** The names of a valid path *)
Definition components (p : string) : list string := if p == "." then [] else split_on "/" p.

Definition name_ok (w : string) : Prop := path_element w = true ∧ no_sep "/" w.
Lemma ValidPath_components p : ValidPath p = true → Forall name_ok (components p).
Proof.
  unfold ValidPath, components. destruct (utf8_valid p); [|done]. cbn [negb]. case_bool_decide as Hd; [constructor|].
  intros Hv. rewrite forallb_forall in Hv. pose proof (split_on_no_sep "/" p) as HF. rewrite Forall_forall in HF |- *.
  intros w Hw. split; [|by apply HF]. by apply Hv, list_elem_of_In.
Qed.

Lemma components_inj p q : components p = components q → p ≠ "." → q ≠ "." → p = q.
Proof.
  unfold components. intros H Hp Hq. rewrite !bool_decide_eq_false_2 in H by done.
  rewrite <- (join_split "/" p), <- (join_split "/" q). by rewrite H.
Qed.

Lemma name_ok_ne w : name_ok w → w ≠ "" ∧ w ≠ "." ∧ w ≠ "..".
Proof. intros [Hw _]. unfold path_element in Hw. go_bool. naive_solver. Qed.

Lemma clean_names rooted ws acc : Forall name_ok ws → fold_left (clean_step rooted) ws acc = rev ws ++ acc.
Proof.
  intros HF. revert acc. induction HF as [|w ws Hw HF IH]; intros acc; [done|]. cbn [fold_left rev].
  destruct (name_ok_ne w Hw) as (? & ? & ?). unfold clean_step at 2.
  rewrite !bool_decide_eq_false_2 by done. cbn [orb]. by rewrite IH, <- app_assoc.
Qed.

(** ** Strings and prefixes *)
Lemma append_assoc a b c : String.append (String.append a b) c = String.append a (String.append b c).
Proof. induction a as [|x a IH]; [done|]. by rewrite !append_String, IH. Qed.
Lemma append_nil_r a : String.append a "" = a.
Proof. induction a as [|x a IH]; [done|]. by rewrite append_String, IH. Qed.

Lemma has_prefix_spec p s : has_prefix p s = true ↔ ∃ t, s = String.append p t.
Proof.
  unfold has_prefix. revert s. induction p as [|c p IH]; intros s; cbn [String.prefix].
  - destruct s; split; try done; intros; eexists; reflexivity.
  - destruct s as [|d s].
    + split; [done|]. intros (t & H). by rewrite append_String in H.
    + cbn [String.prefix]. destruct (ascii_dec c d) as [->|Hn].
      * etrans; [apply IH|]. split; intros (t & Ht); exists t; rewrite append_String in *; congruence.
      * split; [done|]. intros (t & Ht). rewrite append_String in Ht. congruence.
Qed.

Lemma split_append_sep sep a t : split_on sep (String.append a (String sep t)) = split_on sep a ++ split_on sep t.
Proof.
  induction a as [|c a IH].
  - rewrite append_Empty. cbn [split_on]. by rewrite bool_decide_eq_true_2.
  - rewrite append_String. cbn [split_on]. destruct (c == sep); [by rewrite IH|]. rewrite IH.
    destruct (split_on_cons sep a) as (w & ws & ->). done.
Qed.

Lemma join_app sep us ws : us ≠ [] → ws ≠ [] →
  join_with sep (us ++ ws) = String.append (join_with sep us) (String sep (join_with sep ws)).
Proof.
  intros Hu Hw. induction us as [|u us IH]; [done|]. destruct us as [|u' us].
  - cbn [app]. by destruct ws.
  - change (join_with sep ((u :: u' :: us) ++ ws)) with (String.append u (String sep (join_with sep ((u' :: us) ++ ws)))).
    rewrite IH by done. change (join_with sep (u :: u' :: us)) with (String.append u (String sep (join_with sep (u' :: us)))).
    by rewrite append_assoc.
Qed.

(** A path under another is one whose names extend the other's. *)
Lemma under_split a b : under a b = true ↔ ∃ ws, ws ≠ [] ∧ split_on "/" a = split_on "/" b ++ ws.
Proof.
  unfold under. rewrite has_prefix_spec. split.
  - intros (t & ->). rewrite append_assoc. exists (split_on "/" t). cbn [String.append].
    destruct (split_on_cons "/" t) as (w & ws & Hw). split; [by rewrite Hw|]. apply split_append_sep.
  - intros (ws & Hne & Hs). exists (join_with "/" ws). rewrite append_assoc. cbn [String.append].
    rewrite <- (join_split "/" a), Hs, join_app, join_split; [done| |done].
    by destruct (split_on_cons "/" b) as (w & ws' & ->).
Qed.

Lemma under_prefix a b : a ≠ b → (under a b = true ↔ split_on "/" b `prefix_of` split_on "/" a).
Proof.
  intros Hne. rewrite under_split. split.
  - intros (ws & _ & ->). by apply prefix_app_r.
  - intros [ws Hs]. exists ws. split; [|done]. intros ->. rewrite app_nil_r in Hs.
    apply Hne. rewrite <- (join_split "/" a), <- (join_split "/" b). by rewrite Hs.
Qed.

(** The overlap test is the prefix test on names. *)
Lemma nested_split a b : nested a b = true ↔
  split_on "/" a `prefix_of` split_on "/" b ∨ split_on "/" b `prefix_of` split_on "/" a.
Proof.
  unfold nested. destruct (decide (a = b)) as [->|Hne].
  - rewrite bool_decide_eq_true_2 by done. cbn. split; [by left|done].
  - rewrite bool_decide_eq_false_2 by done. cbn [orb]. rewrite orb_true_iff, under_prefix, (under_prefix b a) by done.
    naive_solver.
Qed.

Lemma split_rooted p : split_on "/" (String "/" p) = "" :: split_on "/" p.
Proof. cbn [split_on]. by rewrite bool_decide_eq_true_2. Qed.

(** Joining the root and a valid path. *)
Definition rooted_path (p : string) : string := if p == "." then "/" else String "/" p.
Lemma Join_root p : ValidPath p = true → Join "/" p = rooted_path p.
Proof.
  intros Hv. pose proof (ValidPath_components p Hv) as HF. unfold rooted_path, components in *.
  assert (Hne : p ≠ "") by (intros ->; vm_compute in Hv; done).
  unfold Join. rewrite !(bool_decide_eq_false_2 (_ = "")) by done. cbn [andb String.append].
  case_bool_decide as Hd; [by subst|]. unfold Clean. rewrite bool_decide_eq_false_2 by done.
  rewrite append_String, append_Empty.
  assert (Hp : has_prefix "/" (String "/" (String "/" p)) = true) by (apply has_prefix_spec; by eexists).
  rewrite Hp. cbn iota.
    rewrite !split_rooted. cbn [fold_left].
  change (clean_step true (clean_step true [] "") "") with (@nil string).
  rewrite clean_names, app_nil_r, rev_involutive by done. by rewrite join_split.
Qed.

(** Joining a clean absolute directory and a valid path. *)
Definition clean_dir (d : string) : Prop := ∃ ws, ws ≠ [] ∧ Forall name_ok ws ∧ d = String "/" (join_with "/" ws).
Lemma Join_dir d p : clean_dir d → ValidPath p = true →
  Join d p = (if p == "." then d else String.append d (String "/" p)).
Proof.
  intros (ws & Hws & HF & ->) Hv. pose proof (ValidPath_components p Hv) as HP. unfold components in HP.
  assert (Hne : p ≠ "") by (intros ->; vm_compute in Hv; done).
  assert (Hsplit : split_on "/" (join_with "/" ws) = ws).
  { apply split_join; [done|]. eapply Forall_impl; [done|]. by intros w [_ Hw]. }
  unfold Join. rewrite !(bool_decide_eq_false_2 (_ = "")) by done. cbn [andb].
  unfold Clean. rewrite bool_decide_eq_false_2 by done.
  set (full := String.append (String "/" (join_with "/" ws)) (String "/" p)).
  change (has_prefix "/" full) with (has_prefix "/" (String "/" (String.append (join_with "/" ws) (String "/" p)))).
  assert (Hp : has_prefix "/" (String "/" (String.append (join_with "/" ws) (String "/" p))) = true)
    by (apply has_prefix_spec; by eexists). rewrite Hp. cbn iota.
  unfold full. rewrite append_String, split_rooted, split_append_sep, Hsplit. cbn [fold_left].
  change (clean_step true [] "") with (@nil string). rewrite fold_left_app, (clean_names true ws []), app_nil_r by done.
  case_bool_decide as Hd.
  - subst p. change (split_on "/" ".") with ["."]. cbn [fold_left]. change (clean_step true ?x ".") with x.
    by rewrite rev_involutive.
  - rewrite clean_names by done. rewrite rev_app_distr, !rev_involutive, join_app, join_split; [done|done|].
    by destruct (split_on_cons "/" p) as (w & ws' & ->).
Qed.
(** Overlap of two directories given by valid relative paths under one root. *)
Definition path_nested (p q : string) : Prop := components p `prefix_of` components q ∨ components q `prefix_of` components p.
Definition overlaps_root (a b : string) : bool := (a == b) || (a == "/") || (b == "/") || under a b || under b a.

Lemma prefix_cons_iff {A} (x : A) l k : x :: l `prefix_of` x :: k ↔ l `prefix_of` k.
Proof. split; [apply prefix_cons_inv_2|apply prefix_cons]. Qed.

Lemma overlaps_root_spec p q : ValidPath p = true → ValidPath q = true →
  (overlaps_root (Join "/" p) (Join "/" q) = true ↔ path_nested p q).
Proof.
  intros Hp Hq. rewrite !Join_root by done. unfold path_nested, components, rooted_path, overlaps_root.
  destruct (decide (p = ".")) as [->|Hpd].
  { rewrite (bool_decide_eq_true_2 ("." = ".")), (bool_decide_eq_true_2 ("/" = "/")) by done. rewrite orb_true_r. cbn.
    split; [left; apply prefix_nil|done]. }
  destruct (decide (q = ".")) as [->|Hqd].
  { rewrite (bool_decide_eq_true_2 ("." = ".")), (bool_decide_eq_true_2 ("/" = "/")) by done. rewrite orb_true_r. cbn.
    split; [right; apply prefix_nil|done]. }
  rewrite (bool_decide_eq_false_2 (p = ".")), (bool_decide_eq_false_2 (q = ".")) by done.
  assert (Hne : ∀ r, ValidPath r = true → String "/" r ≠ "/").
  { intros r Hr [= ->]. by vm_compute in Hr. }
  rewrite (bool_decide_eq_false_2 (String "/" p = "/")), (bool_decide_eq_false_2 (String "/" q = "/")) by auto.
  rewrite !orb_false_r. fold (nested (String "/" p) (String "/" q)). rewrite nested_split, !split_rooted.
  by rewrite !prefix_cons_iff.
Qed.

(** The same for paths joined below a clean directory. *)
Lemma nested_dir_spec d p q : clean_dir d → ValidPath p = true → ValidPath q = true →
  (nested (Join d p) (Join d q) = true ↔ path_nested p q).
Proof.
  intros Hd Hp Hq. rewrite !Join_dir by done. rewrite nested_split. unfold path_nested, components.
  assert (Hs : ∀ r, split_on "/" (if r == "." then d else String.append d (String "/" r))
                    = split_on "/" d ++ (if r == "." then [] else split_on "/" r)).
  { intros r. case_bool_decide; [by rewrite app_nil_r|apply split_append_sep]. }
  rewrite !Hs. split; intros [H|H]; [left|right|left|right];
    first [by apply prefix_app_inv in H | by apply prefix_app].
Qed.

(** ** [slices.SortFunc(l, func(a, b) int { return strings.Compare(key(a), key(b)) })]

    The sort of the library is not stable, but with distinct keys the sorted
    order is unique. *)
Fixpoint bytes_leb (a b : list Z) : bool :=
  match a, b with
  | [], _ => true
  | _ :: _, [] => false
  | x :: a', y :: b' => (x <? y) || ((x =? y) && bytes_leb a' b')
  end.
Definition str_leb (a b : string) : bool := bytes_leb (codes a) (codes b).

Section sort.
Context {A : Type} (key : A → string).
Definition key_le (x y : A) : Prop := str_leb (key x) (key y) = true.
#[export] Instance key_le_dec : RelDecision key_le.
Proof. unfold RelDecision, key_le. solve_decision. Defined.
Definition sort_by (l : list A) : list A := merge_sort key_le l.

Lemma bytes_leb_total a b : bytes_leb a b = true ∨ bytes_leb b a = true.
Proof.
  revert b. induction a as [|x a IH]; intros [|y b]; cbn [bytes_leb]; auto.
  destruct (Z.ltb_spec x y), (Z.ltb_spec y x); cbn; auto. assert (x = y) as -> by lia. rewrite Z.eqb_refl. apply IH.
Qed.
Lemma bytes_leb_trans a b c : bytes_leb a b = true → bytes_leb b c = true → bytes_leb a c = true.
Proof.
  revert b c. induction a as [|x a IH]; intros [|y b] [|z c]; cbn [bytes_leb]; try done.
  rewrite !orb_true_iff, !andb_true_iff, !Z.ltb_lt, !Z.eqb_eq. intros [?|[-> ?]] [?|[-> ?]]; try (left; lia).
  right. split; [done|]. by eapply IH.
Qed.
Lemma bytes_leb_antisym a b : bytes_leb a b = true → bytes_leb b a = true → a = b.
Proof.
  revert b. induction a as [|x a IH]; intros [|y b]; cbn [bytes_leb]; try done.
  rewrite !orb_true_iff, !andb_true_iff, !Z.ltb_lt, !Z.eqb_eq. intros [?|[-> ?]] [?|[? ?]]; try lia. f_equal. auto.
Qed.

#[export] Instance key_le_total : Total key_le.
Proof. intros x y. apply bytes_leb_total. Qed.
#[export] Instance key_le_trans : Transitive key_le.
Proof. intros x y z. apply bytes_leb_trans. Qed.

Lemma sort_by_perm l : sort_by l ≡ₚ l.
Proof. apply merge_sort_Permutation. Qed.
Lemma sort_by_sorted l : StronglySorted key_le (sort_by l).
Proof. apply (StronglySorted_merge_sort _). Qed.
Lemma sort_by_elem l x : x ∈ sort_by l ↔ x ∈ l.
Proof. by rewrite sort_by_perm. Qed.

(** Two sorted lists with the same elements and distinct keys are equal. *)
Lemma sorted_unique a b : StronglySorted key_le a → StronglySorted key_le b → NoDup (key <$> a) → a ≡ₚ b → a = b.
Proof.
  revert b. induction a as [|x a IH]; intros b Ha Hb HN Hp.
  - by apply Permutation_nil_l in Hp.
  - destruct b as [|y b]; [by symmetry in Hp; apply Permutation_nil_cons in Hp|].
    inv Ha. inv Hb. assert (Hxy : x = y).
    { assert (Hx : x ∈ y :: b) by (rewrite <- Hp; set_solver). assert (Hy : y ∈ x :: a) by (rewrite Hp; set_solver).
      apply elem_of_cons in Hx as [->|Hx]; [done|]. apply elem_of_cons in Hy as [->|Hy]; [done|].
      rewrite Forall_forall in H2. rewrite Forall_forall in H4.
      pose proof (codes_inj _ _ (bytes_leb_antisym _ _ (H2 _ Hy) (H4 _ Hx))) as He.
      rewrite fmap_cons, NoDup_cons in HN. destruct HN as [HN _]. exfalso. apply HN. rewrite He. by apply list_elem_of_fmap_2. }
    subst y. f_equal. apply IH; try done.
    + by rewrite fmap_cons, NoDup_cons in HN; destruct HN.
    + by apply Permutation_cons_inv in Hp.
Qed.
(** With distinct keys, sorting is independent of the order of the input. *)
Lemma sort_by_unique l k : NoDup (key <$> l) → l ≡ₚ k → sort_by l = sort_by k.
Proof. intros HN Hp. apply sorted_unique; [apply sort_by_sorted..|by rewrite sort_by_perm|by rewrite !sort_by_perm]. Qed.
End sort.
(** Sorting the images is sorting by the key of the image. *)
Lemma sort_by_fmap {A B} (key : B → string) (f : A → B) l : NoDup (key <$> (f <$> l)) → sort_by key (f <$> l) = f <$> sort_by (λ x, key (f x)) l.
Proof.
  intros HN. apply (sorted_unique key); [apply sort_by_sorted| |by rewrite sort_by_perm|by rewrite !sort_by_perm].
  generalize (sort_by_sorted (λ x, key (f x)) l). induction 1 as [|x k Hk IH HF]; [constructor|]. constructor; [done|]. by apply Forall_fmap.
Qed.


Example path_examples :
  Base "devices/pci0/sda" = "sda" ∧ Base "a/b//" = "b" ∧ Base "//" = "/" ∧ Base "" = "."
  ∧ Dir "devices/pci0/sda/sda1" = "devices/pci0/sda" ∧ Dir "a" = "." ∧ Dir "/a" = "/" ∧ Dir "a/../b/c" = "b".
Proof. vm_compute. repeat split; reflexivity. Qed.
End GoPath.
