(* ===== verification/NfsConfig.v ===== *)
(** * Desired NFS exports: [nfsconfig/policy.go]

    [Policy_Validate] is [Policy.Validate] against the share configuration whose
    volumes it uses, [Build] renders the candidate exports table.  [wf_policy] is
    the contract: exports of one volume are not nested and the client networks of
    one export have no address in common.  [read_table] is an independent reader
    of the exports format; the table read back gives the exports. *)

From S2P Require Import Prelude GoStrings Utf8 ConfigJson GoJson Shares NetIP GoPath.
Import GoJson NetIP GoPath.

Module NfsConfig.

Definition Format : string := "phantowd-nfs-policy".
Definition MaxInputBytes : Z := 262144.
Definition MaxExports : Z := 128.
Definition MaxClients : Z := 64.
Definition VolumeRoot : string := ShareConfig.VolumeMountRoot.

Record Client := mkClient {
  cl_Network : string; cl_Access : string; cl_Squash : string;
  cl_AnonymousUID : Z; cl_AnonymousGID : Z; cl_Security : string }.
Record Export := mkExport {
  ex_ID : string; ex_VolumeID : string; ex_RelativePath : string; ex_Clients : slice Client }.
Record Policy := mkPolicy {
  pol_Format : string; pol_SchemaVersion : Z; pol_Revision : Z; pol_VolumeRevision : Z;
  pol_Exports : slice Export }.
#[export] Instance Client_eq_dec : EqDecision Client. Proof. solve_decision. Defined.
#[export] Instance Export_eq_dec : EqDecision Export. Proof. solve_decision. Defined.
#[export] Instance Policy_eq_dec : EqDecision Policy. Proof. solve_decision. Defined.

Inductive error :=
| ErrJSON | ErrVolumes | ErrStale | ErrExports | ErrExportAt (i : Z) | ErrPaths
| ErrClientAt (i j : Z) | ErrNetworks | ErrSize.

(** ** Syntax *)
Definition anonymousID (id : Z) : bool := negb (id =? 0) && negb (id =? max_uint32).

Definition remove_hyphens (l : list Z) : list Z := filter (λ c, c ≠ 45) l.
(** [strings.ToLower] matters on ASCII only: a byte above it is refused by the
    hexadecimal decoder. *)
Definition uuid (s : string) : bool :=
  if negb (slength s =? 36) || negb (byte_at s 8 =? 45) || negb (byte_at s 13 =? 45) || negb (byte_at s 18 =? 45)
     || negb (byte_at s 23 =? 45) || (to_lower s != s) then false
  else
    let raw := remove_hyphens (codes s) in
    if negb (len raw =? 32) || (raw == replicate 32 48) then false
    else forallb (λ c, match hex_digit c with Some _ => true | None => false end) raw.

Definition relativePath (s : string) : bool :=
  if (slength s =? 0) || (1024 <? slength s) || negb (utf8_valid s) || negb (ValidPath s) || existsb (λ c, c =? 92) (codes s)
  then false
  else forallb (λ c, negb ((c <? 32) || (c =? 127))) (runes s).

(** the constants of [netip.MustParsePrefix] *)
Definition forbidden : list Prefix :=
  [mkPrefix (Addr4 (224 * 2 ^ 24)) 4; mkPrefix (Addr4 (240 * 2 ^ 24)) 4; mkPrefix (Addr6 (255 * 2 ^ 120) "") 8].
Definition validNetwork (p : Prefix) (spelling : string) : bool :=
  if negb (IsValid p) || (pfx_bits p =? 0) || (p != Masked p) || (Prefix_String p != spelling)
     || Is4In6 (pfx_addr p) || IsUnspecified (pfx_addr p) then false
  else negb (existsb (Overlaps p) forbidden).

Definition overlaps (a b : string) : bool :=
  (a == b) || (a == "/") || (b == "/") || has_prefix (String.append b "/") a || has_prefix (String.append a "/") b.

(** ** Documents *)
Definition enc_Client (c : Client) : jval :=
  JObj [("network", JStr (cl_Network c)); ("access", JStr (cl_Access c)); ("squash", JStr (cl_Squash c));
        ("anonymous_uid", enc_uint (cl_AnonymousUID c)); ("anonymous_gid", enc_uint (cl_AnonymousGID c));
        ("security", JStr (cl_Security c))].
Definition enc_Export (e : Export) : jval :=
  JObj [("id", JStr (ex_ID e)); ("volume_id", JStr (ex_VolumeID e)); ("relative_path", JStr (ex_RelativePath e));
        ("clients", enc_slice enc_Client (ex_Clients e))].
Definition enc_Policy (p : Policy) : jval :=
  JObj [("format", JStr (pol_Format p)); ("schema_version", enc_int (pol_SchemaVersion p));
        ("revision", enc_uint (pol_Revision p)); ("volume_revision", enc_uint (pol_VolumeRevision p));
        ("exports", enc_slice enc_Export (pol_Exports p))].

Definition fields : list string :=
  ["format"; "schema_version"; "revision"; "volume_revision"; "exports"; "id"; "volume_id"; "relative_path";
   "clients"; "network"; "access"; "squash"; "anonymous_uid"; "anonymous_gid"; "security"].
Definition dec_Client : jval → option Client :=
  as_struct ["network"; "access"; "squash"; "anonymous_uid"; "anonymous_gid"; "security"] (mkClient "" "" "" 0 0 "") (λ ms,
  n ← fld "network" as_str "" ms; a ← fld "access" as_str "" ms; q ← fld "squash" as_str "" ms;
  u ← fld "anonymous_uid" (as_uint 32) 0 ms; g ← fld "anonymous_gid" (as_uint 32) 0 ms;
  s ← fld "security" as_str "" ms; Some (mkClient n a q u g s)).
Definition dec_Export : jval → option Export :=
  as_struct ["id"; "volume_id"; "relative_path"; "clients"] (mkExport "" "" "" None) (λ ms,
  i ← fld "id" as_str "" ms; v ← fld "volume_id" as_str "" ms; r ← fld "relative_path" as_str "" ms;
  c ← fld "clients" (as_slice dec_Client) None ms; Some (mkExport i v r c)).
Definition dec_Policy : jval → option Policy :=
  as_struct ["format"; "schema_version"; "revision"; "volume_revision"; "exports"] (mkPolicy "" 0 0 0 None) (λ ms,
  f ← fld "format" as_str "" ms; s ← fld "schema_version" as_int 0 ms; r ← fld "revision" (as_uint 64) 0 ms;
  v ← fld "volume_revision" (as_uint 64) 0 ms; e ← fld "exports" (as_slice dec_Export) None ms;
  Some (mkPolicy f s r v e)).

(** ** Validation *)
Definition bad_client (c : Client) : bool :=
  ((cl_Access c != "ro") && (cl_Access c != "rw")) || ((cl_Squash c != "root") && (cl_Squash c != "all"))
  || negb (anonymousID (cl_AnonymousUID c)) || negb (anonymousID (cl_AnonymousGID c))
  || ((cl_Security c != "sys") && (cl_Security c != "krb5") && (cl_Security c != "krb5i") && (cl_Security c != "krb5p")).
Definition client_step (i j : Z) (prefixes : list Prefix) (c : Client) : res error (list Prefix) :=
  match ParsePrefix (cl_Network c) with
  | None => Err (ErrClientAt i j)
  | Some prefix =>
    refuse negb (validNetwork prefix (cl_Network c)) || bad_client c => ErrClientAt i j ;;
    refuse existsb (Overlaps prefix) prefixes => ErrNetworks ;;
    Ok (prefixes ++ [prefix])
  end.

(** [other.VolumeID == export.VolumeID && overlaps(...)] *)
Definition clash (other e : Export) : bool :=
  (ex_VolumeID other == ex_VolumeID e) && overlaps (Join "/" (ex_RelativePath other)) (Join "/" (ex_RelativePath e)).
Definition export_step (known : gset string) (i : Z) (st : gset string * list Export) (e : Export) :
  res error (gset string * list Export) :=
  let '(ids, earlier) := st in
  refuse negb (uuid (ex_ID e)) || (ex_ID e ∈? ids) || negb (ex_VolumeID e ∈? known) || negb (relativePath (ex_RelativePath e))
         || (slen (ex_Clients e) =? 0) || (MaxClients <? slen (ex_Clients e)) => ErrExportAt i ;;
  refuse existsb (λ other, clash other e) earlier => ErrPaths ;;
  _ ← for_range (client_step i) 0 [] (elems (ex_Clients e));
  Ok ({[ex_ID e]} ∪ ids, earlier ++ [e]).

Definition Policy_Validate (p : Policy) (volumes : ShareConfig.Config) : res error unit :=
  refuse negb (is_ok (ShareConfig.Config_Validate volumes)) => ErrVolumes ;;
  refuse (pol_Format p != Format) || negb (pol_SchemaVersion p =? 1) || (pol_Revision p =? 0)
         || negb (pol_VolumeRevision p =? ShareConfig.cfg_Revision volumes) => ErrStale ;;
  refuse is_nil (pol_Exports p) || (MaxExports <? slen (pol_Exports p)) => ErrExports ;;
  let known := list_to_set (ShareConfig.vol_ID <$> elems (ShareConfig.cfg_Volumes volumes)) in
  _ ← for_range (export_step known) 0 (∅, []) (elems (pol_Exports p));
  refuse MaxInputBytes <? slength (Marshal (enc_Policy p)) => ErrSize ;;
  Ok tt.

Definition Decode (input : reader) (volumes : ShareConfig.Config) : res error Policy :=
  match DecodeInto dec_Policy input MaxInputBytes 8 fields with
  | Err _ => Err ErrJSON
  | Ok p => match Policy_Validate p volumes with Err e => Err e | Ok _ => Ok p end
  end.

(** ** The candidate exports table *)
Record ExportPreview := mkExportPreview {
  xp_ID : string; xp_VolumeID : string; xp_FilesystemUUID : string; xp_MountPath : string; xp_Path : string;
  xp_Clients : list Client }.
Record Preview := mkPreview {
  pre_SchemaVersion : Z; pre_Revision : Z; pre_VolumeRevision : Z; pre_Exports : list ExportPreview;
  pre_Table : string; pre_UsesAUTH_SYS : bool; pre_RequiresKerberos : bool }.

Definition octal3 (b : Z) : string :=
  let d k := String (ascii_of_N (Z.to_N (48 + (b / 8 ^ k) mod 8))) EmptyString in
  String.append (d 2) (String.append (d 1) (d 0)).
Definition escape_byte (c : ascii) : string :=
  if (code c =? 32) || (code c =? 34) || (code c =? 35) || (code c =? 92)
  then String "\" (octal3 (code c)) else String c EmptyString.
Fixpoint escapePath (s : string) : string :=
  match s with EmptyString => EmptyString | String c s' => String.append (escape_byte c) (escapePath s') end.

(** the options of one client, in the order they are printed *)
Definition options (x : ExportPreview) (c : Client) : list string :=
  [cl_Access c; "sync"; "secure"; "root_squash"] ++ (if cl_Squash c == "all" then ["all_squash"] else [])
  ++ [if xp_Path x == xp_MountPath x then "no_subtree_check" else "subtree_check"; "nocrossmnt";
      String.append "sec=" (cl_Security c); String.append "anonuid=" (FormatUint (cl_AnonymousUID c));
      String.append "anongid=" (FormatUint (cl_AnonymousGID c)); String.append "fsid=" (xp_ID x);
      String.append "mountpoint=" (xp_MountPath x)].
Definition client_text (x : ExportPreview) (c : Client) : string :=
  String.append (cl_Network c) (String.append "(" (String.append (join_with "," (options x c)) ")")).
(** a line: the path, then the clients, separated by spaces *)
Definition export_line (x : ExportPreview) : string :=
  join_with " " (escapePath (xp_Path x) :: (client_text x <$> xp_Clients x)).
Definition newline : string := String (ascii_of_nat 10) EmptyString.
Definition banner : string :=
  "# PhantoWD candidate exports; verify identities, containment and credentials before activation.".
Definition table (xs : list ExportPreview) : string :=
  String.append banner (String.append newline (foldr (λ x s, String.append (export_line x) (String.append newline s)) "" xs)).

Definition export_preview (volumes : ShareConfig.Config) (e : Export) : ExportPreview :=
  let known : gmap string string :=
    fold_left (λ m v, <[ShareConfig.vol_ID v := ShareConfig.vol_FilesystemUUID v]> m) (elems (ShareConfig.cfg_Volumes volumes)) ∅ in
  let mount := Join VolumeRoot (ex_VolumeID e) in
  mkExportPreview (ex_ID e) (ex_VolumeID e) (default "" (known !! ex_VolumeID e)) mount (Join mount (ex_RelativePath e))
    (sort_by cl_Network (elems (ex_Clients e))).
Definition uses (test : string → bool) (xs : list ExportPreview) : bool :=
  existsb (λ x, existsb (λ c, test (cl_Security c)) (xp_Clients x)) xs.
Definition Build (p : Policy) (volumes : ShareConfig.Config) : res error Preview :=
  _ ← Policy_Validate p volumes;
  let xs := sort_by xp_ID (export_preview volumes <$> elems (pol_Exports p)) in
  Ok (mkPreview 1 (pol_Revision p) (pol_VolumeRevision p) xs (table xs)
        (uses (λ s, s == "sys") xs) (uses (λ s, s != "sys") xs)).

(** ** The contract *)

(** an address that a client entry admits *)
Definition admits (c : Client) (a : Addr) : Prop := ∃ p, ParsePrefix (cl_Network c) = Some p ∧ in_network p a.
Definition good_client (c : Client) : Prop :=
  (∃ p, ParsePrefix (cl_Network c) = Some p ∧ validNetwork p (cl_Network c) = true)
  ∧ (cl_Access c = "ro" ∨ cl_Access c = "rw") ∧ (cl_Squash c = "root" ∨ cl_Squash c = "all")
  ∧ anonymousID (cl_AnonymousUID c) = true ∧ anonymousID (cl_AnonymousGID c) = true
  ∧ (cl_Security c = "sys" ∨ cl_Security c = "krb5" ∨ cl_Security c = "krb5i" ∨ cl_Security c = "krb5p").
(** no address is admitted by two client entries *)
Definition clients_apart (c d : Client) : Prop := ∀ a, admits c a → admits d a → False.
Record good_export (known : gset string) (e : Export) : Prop := {
  ge_id : uuid (ex_ID e) = true;
  ge_volume : ex_VolumeID e ∈ known;
  ge_path : relativePath (ex_RelativePath e) = true;
  ge_count : 1 ≤ slen (ex_Clients e) ≤ MaxClients;
  ge_clients : Forall good_client (elems (ex_Clients e));
  ge_networks : ForallOrdPairs clients_apart (elems (ex_Clients e)) }.
(** two exports of one volume, neither below the other *)
Definition exports_apart (e f : Export) : Prop :=
  ex_VolumeID e = ex_VolumeID f → ¬ path_nested (ex_RelativePath e) (ex_RelativePath f).

Record wf_policy (volumes : ShareConfig.Config) (p : Policy) : Prop := {
  wp_volumes : ShareConfig.wf_config volumes;
  wp_format : pol_Format p = Format;
  wp_schema : pol_SchemaVersion p = 1;
  wp_revision : pol_Revision p ≠ 0;
  wp_bound : pol_VolumeRevision p = ShareConfig.cfg_Revision volumes;
  wp_present : is_nil (pol_Exports p) = false ∧ slen (pol_Exports p) ≤ MaxExports;
  wp_exports : Forall (good_export (ShareConfig.volume_ids volumes)) (elems (pol_Exports p));
  wp_ids : NoDup (ex_ID <$> elems (pol_Exports p));
  wp_apart : ForallOrdPairs exports_apart (elems (pol_Exports p));
  wp_size : slength (Marshal (enc_Policy p)) ≤ MaxInputBytes }.

(** ** The loops *)
Definition pfx (c : Client) : Prefix := default (mkPrefix (Addr4 0) 0) (ParsePrefix (cl_Network c)).

Lemma bad_client_false c : bad_client c = false ↔
  (cl_Access c = "ro" ∨ cl_Access c = "rw") ∧ (cl_Squash c = "root" ∨ cl_Squash c = "all")
  ∧ anonymousID (cl_AnonymousUID c) = true ∧ anonymousID (cl_AnonymousGID c) = true
  ∧ (cl_Security c = "sys" ∨ cl_Security c = "krb5" ∨ cl_Security c = "krb5i" ∨ cl_Security c = "krb5p").
Proof.
  unfold bad_client. rewrite !orb_false_iff, !andb_false_iff, !negb_false_iff, !bool_decide_eq_true. tauto.
Qed.

Lemma client_step_Ok i j st c st' :
  client_step i j st c = Ok st' ↔
  good_client c ∧ Forall (λ o, Overlaps (pfx c) o = false) st ∧ st' = st ++ [pfx c].
Proof.
  unfold client_step, good_client, pfx. destruct (ParsePrefix (cl_Network c)) as [q|]; cbn [default]; [|naive_solver].
  rewrite !refuse_Ok, orb_false_iff, negb_false_iff, bad_client_false, existsb_False, Forall_forall. naive_solver.
Qed.

Lemma pfx_admits c a : good_client c → (admits c a ↔ in_network (pfx c) a) ∧ prefix_ok (pfx c).
Proof.
  intros [(q & Hq & _) _]. unfold admits, pfx. rewrite Hq. cbn [default].
  split; [naive_solver|by apply ParsePrefix_ok in Hq].
Qed.

Lemma apart_Overlaps c d : good_client c → good_client d → (Overlaps (pfx d) (pfx c) = false ↔ clients_apart c d).
Proof.
  intros Hc Hd. rewrite <- not_true_iff_false.
  destruct (pfx_admits c (Addr4 0) Hc) as [_ Hco]. destruct (pfx_admits d (Addr4 0) Hd) as [_ Hdo].
  rewrite Overlaps_spec by done. unfold clients_apart.
  setoid_rewrite (λ a, proj1 (pfx_admits c a Hc)). setoid_rewrite (λ a, proj1 (pfx_admits d a Hd)). naive_solver.
Qed.

Lemma clients_Ok i l st : for_range (client_step i) 0 [] l = Ok st ↔
  Forall good_client l ∧ ForallOrdPairs clients_apart l ∧ st = pfx <$> l.
Proof.
  rewrite (for_range_chain (λ s c, s ++ [pfx c]) _ good_client (λ s c, Forall (λ o, Overlaps (pfx c) o = false) s))
    by (intros; apply client_step_Ok).
  rewrite (chain_pairs pfx (λ o q, Overlaps q o = false)).
  rewrite (fold_snoc _ (λ s, s) pfx) by done. cbn [app]. pose proof (Forall_nil_2 (λ y, Forall (λ c, Overlaps (pfx c) y = false) l)).
  split; intros (HF & Hp & ->); (split; [done|]); (split; [|done]).
  - destruct Hp as [Hp _]. exact (proj1 (ForallOrdPairs_iff good_client _ _ l apart_Overlaps HF) Hp).
  - split; [|done]. exact (proj2 (ForallOrdPairs_iff good_client _ _ l apart_Overlaps HF) Hp).
Qed.

Lemma relativePath_valid s : relativePath s = true → ValidPath s = true ∧ utf8_valid s = true.
Proof. unfold relativePath. destruct (ValidPath s), (utf8_valid s); cbn; rewrite ?orb_true_r; done. Qed.

Lemma clash_apart e f : relativePath (ex_RelativePath e) = true → relativePath (ex_RelativePath f) = true →
  (clash e f = false ↔ exports_apart e f).
Proof.
  intros [He _]%relativePath_valid [Hf _]%relativePath_valid. unfold exports_apart, clash.
  rewrite <- (overlaps_root_spec _ _ He Hf). unfold overlaps_root, under, overlaps.
  rewrite andb_false_iff, bool_decide_eq_false, <- not_true_iff_false. destruct (decide (ex_VolumeID e = ex_VolumeID f)); naive_solver.
Qed.

Definition export_add (st : gset string * list Export) (e : Export) : gset string * list Export :=
  ({[ex_ID e]} ∪ st.1, st.2 ++ [e]).
Lemma export_step_Ok known i st e st' :
  export_step known i st e = Ok st' ↔
  good_export known e ∧ (ex_ID e ∉ st.1 ∧ Forall (λ o, clash o e = false) st.2) ∧ st' = export_add st e.
Proof.
  unfold export_step, export_add. destruct st as [ids earlier]. cbn [fst snd].
  rewrite !refuse_Ok, res_bind_Ok, existsb_False, Forall_forall. setoid_rewrite clients_Ok.
  rewrite !orb_false_iff, !negb_false_iff, bool_decide_eq_false, bool_decide_eq_true, Z.eqb_neq, Z.ltb_ge.
  assert (0 ≤ slen (ex_Clients e)) by (unfold slen, len; lia). split.
  - intros ((((((? & ?) & ?) & ?) & ?) & ?) & ? & (st & (? & ? & _) & [= <-])). split; [|done]. split; try done. lia.
  - intros ([? ? ? ? ? ?] & [? ?] & ->). split; [split_and!; try done; lia|]. split; [done|]. by eexists.
Qed.

Lemma exports_Ok known l st : for_range (export_step known) 0 (∅, []) l = Ok st ↔
  Forall (good_export known) l ∧ NoDup (ex_ID <$> l) ∧ ForallOrdPairs exports_apart l
  ∧ st = fold_left export_add l (∅, []).
Proof.
  rewrite (for_range_chain export_add _ (good_export known) _) by (intros; apply export_step_Ok).
  rewrite chain_and, (chain_key _ fst ex_ID) by done. rewrite (chain_proj export_add (λ s e, s ++ [e]) snd (λ s e, Forall (λ o, clash o e = false) s)) by done.
  rewrite (chain_pairs id (λ o e, clash o e = false)).
  pose proof (not_elem_of_empty_all ex_ID l) as Hid. pose proof (Forall_nil_2 (λ y, Forall (λ x, clash y (id x) = false) l)) as Hnil.
  assert (Hiff : Forall (good_export known) l → ForallOrdPairs (λ o e, clash o e = false) l ↔ ForallOrdPairs exports_apart l).
  { apply ForallOrdPairs_iff. intros o e [] []. by apply clash_apart. }
  cbn [fst]. unfold id in *. split.
  - intros (HF & [[HN _] [Hp _]] & ->). split_and!; try done. by apply Hiff.
  - intros (HF & HN & Hp & ->). split_and!; try done. by apply Hiff.
Qed.

(** [Validate] accepts exactly the policies of the contract. *)
Lemma Policy_Validate_wf p volumes : Policy_Validate p volumes = Ok tt ↔ wf_policy volumes p.
Proof.
  unfold Policy_Validate. rewrite !refuse_Ok, res_bind_Ok. setoid_rewrite exports_Ok. setoid_rewrite refuse_Ok.
  rewrite negb_false_iff, is_ok_unit, ShareConfig.Config_Validate_wf.
  rewrite !orb_false_iff, !negb_false_iff, bool_decide_eq_true, Z.eqb_neq, !Z.eqb_eq.
  setoid_rewrite Z.ltb_ge. split.
  - intros (Hv & (((? & ?) & ?) & ?) & [? ?] & st & (? & ? & ? & _) & ? & _). by split.
  - intros []. destruct wp_present0. split_and!; try done. eexists. by split_and!.
Qed.

(** ** Characters of the parts of a valid policy *)

(** the alphabet of options: no space, newline, comma or parenthesis *)
Definition opt_char (c : Z) : bool := is_lower c || is_digit c || (c =? 45) || (c =? 95) || (c =? 61) || (c =? 47).
Abbreviation opt_text := (all_chars opt_char).

Lemma to_lower_fixed s : to_lower s = s → ∀ c, c ∈ codes s → is_upper c = false.
Proof.
  induction s as [|a s IH]; intros Hs c Hc; [set_solver|]. unfold to_lower in *. cbn [smap] in Hs.
  injection Hs as Ha Hs. rewrite codes_String in Hc. apply elem_of_cons in Hc as [->|Hc]; [|by apply IH].
  destruct (is_upper (code a)) eqn:Hu; [|done]. unfold lower_ascii in Ha. rewrite Hu in Ha.
  apply (f_equal code) in Ha. unfold is_upper in Hu. pose proof (code_range a). unfold code in *. go_bool.
  rewrite N_ascii_embedding in Ha by lia. lia.
Qed.

Lemma uuid_text s : uuid s = true → opt_text s.
Proof.
  unfold uuid. destruct (_ || _) eqn:Hl in |- *; [done|]. destruct (_ || _) in |- *; [done|].
  apply orb_false_iff in Hl as [_ Hl]. apply negb_false_iff, bool_decide_eq_true in Hl.
  unfold all_chars, remove_hyphens. rewrite !forallb_forall. intros H c Hc. apply list_elem_of_In in Hc.
  pose proof (to_lower_fixed s Hl c Hc) as Hu. destruct (decide (c = 45)) as [->|Hne]; [done|].
  specialize (H c ltac:(by apply list_elem_of_In, list_elem_of_filter)).
  unfold hex_digit, opt_char, is_upper, is_lower, is_digit in *. repeat case_match; try done; go_bool; lia.
Qed.

Lemma identifier_text s : ShareConfig.identifier s = true → opt_text s.
Proof.
  unfold ShareConfig.identifier. destruct (_ || _); [done|].
  rewrite forallb_runes by (intros r Hr; unfold ShareConfig.identifier_char, is_lower, is_digit; lia).
  apply all_chars_impl. intros c. unfold ShareConfig.identifier_char, opt_char. go_bool. naive_solver.
Qed.

Lemma opt_text_ascii s : opt_text s → utf8_valid s = true.
Proof.
  unfold all_chars. intros H. apply ascii_utf8, Forall_forall. intros c Hc%list_elem_of_In.
  rewrite forallb_forall in H. specialize (H c Hc). unfold opt_char, is_lower, is_digit in H. go_bool. lia.
Qed.

(** characters of a path: no newline *)
Definition path_char (c : Z) : bool := negb (c =? 10).
Lemma relativePath_text s : relativePath s = true → all_chars path_char s.
Proof.
  intros Hp. destruct (relativePath_valid s Hp) as [_ Hv]. unfold relativePath in Hp. destruct (_ || _) in Hp; [done|].
  unfold all_chars. rewrite forallb_forall in *. intros c Hc%list_elem_of_In. unfold path_char.
  apply negb_true_iff, Z.eqb_neq. intros ->.
  specialize (Hp 10 ltac:(apply list_elem_of_In; by apply ascii_byte_rune)). done.
Qed.

Lemma opt_path_text s : opt_text s → all_chars path_char s.
Proof. apply all_chars_impl. intros c. unfold opt_char, path_char, is_lower, is_digit. go_bool. lia. Qed.

(** *** Mount points *)
Lemma identifier_name v : ShareConfig.identifier v = true → name_ok v ∧ v ≠ "." ∧ v ≠ "".
Proof.
  intros Hv. pose proof (identifier_text v Hv) as Ht. unfold ShareConfig.identifier in Hv.
  destruct (_ || _) eqn:Hh in Hv; [done|]. go_bool. split_hyps.
  rewrite forallb_runes in Hv by (intros r Hr; unfold ShareConfig.identifier_char, is_lower, is_digit; lia).
  assert (Hne : v ≠ "" ∧ v ≠ "." ∧ v ≠ "..") by (split_and!; intros ->; vm_compute in *; done).
  split; [|naive_solver]. split; [unfold path_element; go_bool; naive_solver|].
  unfold no_sep. intros Hin. rewrite forallb_forall in Hv. by apply list_elem_of_In, Hv in Hin.
Qed.

Lemma mount_path v : ShareConfig.identifier v = true →
  Join VolumeRoot v = String.append "/srv/phantowd/volumes/" v ∧ clean_dir (Join VolumeRoot v)
  ∧ opt_text (Join VolumeRoot v).
Proof.
  intros Hv. destruct (identifier_name v Hv) as ([Hn Hs] & Hd & Hne). pose proof (identifier_text v Hv) as Ht.
  assert (Hroot : clean_dir VolumeRoot).
  { exists ["srv"; "phantowd"; "volumes"]. split_and!; [done| |done].
    repeat constructor; try done; unfold no_sep; by apply (bool_decide_unpack _). }
  assert (Hvalid : ValidPath v = true).
  { unfold ValidPath. rewrite opt_text_ascii by done. cbn [negb]. rewrite bool_decide_eq_false_2 by done.
    pose proof (split_join "/" [v] ltac:(done) ltac:(by constructor)) as Hj. cbn in Hj.
    change (join_with "/" [v]) with v in Hj. rewrite Hj. cbn. by rewrite Hn. }
  assert (HJ : Join VolumeRoot v = String.append "/srv/phantowd/volumes/" v).
  { rewrite Join_dir by done. rewrite bool_decide_eq_false_2 by done. done. }
  split; [done|]. rewrite HJ. split.
  - exists ["srv"; "phantowd"; "volumes"; v]. split_and!; [done| |done].
    repeat constructor; try done; unfold no_sep; by apply (bool_decide_unpack _).
  - by apply all_chars_app.
Qed.

(** ** Documents read back *)
Definition client_range (c : Client) : Prop := 0 ≤ cl_AnonymousUID c < 2 ^ 32 ∧ 0 ≤ cl_AnonymousGID c < 2 ^ 32.
Definition export_range (e : Export) : Prop := ∀ c, c ∈ elems (ex_Clients e) → client_range c.
Definition in_range (p : Policy) : Prop :=
  0 ≤ pol_Revision p < 2 ^ 64 ∧ 0 ≤ pol_VolumeRevision p < 2 ^ 64 ∧ ∀ e, e ∈ elems (pol_Exports p) → export_range e.

Lemma dec_enc_Client c : client_range c → dec_Client (enc_Client c) = Some c.
Proof. intros [[? ?] [? ?]]. unfold dec_Client, enc_Client. json_dec. by destruct c. Qed.
#[local] Hint Resolve dec_enc_Client : json.
Lemma dec_enc_Export e : export_range e → dec_Export (enc_Export e) = Some e.
Proof. intros H. unfold export_range in H. unfold dec_Export, enc_Export. json_dec. by destruct e. Qed.
#[local] Hint Resolve dec_enc_Export : json.
Lemma dec_enc_Policy p : in_range p → pol_SchemaVersion p = 1 → dec_Policy (enc_Policy p) = Some p.
Proof.
  intros (Hr & Hv & He) Hs. unfold dec_Policy, enc_Policy. json_dec. by destruct p.
Qed.

Abbreviation strict_doc := (strict 8 (Some (λ k, k ∈? fields))).

Lemma network_utf8 c : good_client c → net_text (cl_Network c).
Proof.
  intros [(q & Hq & Hn) _]. unfold validNetwork in Hn. destruct (_ || _) eqn:Hb in Hn; [done|].
  rewrite !orb_false_iff in Hb. destruct Hb as [[[_ Hs] _] _]. apply negb_false_iff, bool_decide_eq_true in Hs.
  rewrite <- Hs. apply Prefix_String_text. by eapply ParsePrefix_ok.
Qed.

Lemma enc_Client_wf c : good_client c → client_range c → jwf (enc_Client c) = true.
Proof.
  intros Hc [[? ?] [? ?]]. pose proof (network_utf8 c Hc) as Hn. destruct Hc as (_ & Ha & Hs & _ & _ & Hk).
  unfold enc_Client. json_wf.
  - apply ascii_utf8. eapply Forall_impl; [by apply net_text_ascii|]. simpl. lia.
  - by destruct Ha as [->| ->].
  - by destruct Hs as [->| ->].
  - apply enc_uint_wf. lia.
  - apply enc_uint_wf. lia.
  - by destruct Hk as [->|[->|[->| ->]]].
Qed.

Lemma enc_Export_wf known e : (∀ v, v ∈ known → ShareConfig.identifier v = true) →
  good_export known e → export_range e → jwf (enc_Export e) = true.
Proof.
  intros Hk [] Hr. unfold enc_Export. json_wf.
  - by apply opt_text_ascii, uuid_text.
  - by apply ShareConfig.identifier_utf8, Hk.
  - by apply relativePath_valid.
  - apply enc_slice_wf. intros c Hc. rewrite Forall_forall in ge_clients0. apply enc_Client_wf; auto.
Qed.

Lemma strict_Export known e : good_export known e → strict_doc 2 (enc_Export e).
Proof.
  intros []. json_strict. apply strict_array; [|lia|intros c _; json_strict].
  destruct (ex_Clients e); unfold slen, len in *; cbn in *; [done|lia].
Qed.

Lemma enc_Policy_wf volumes p : wf_policy volumes p → in_range p → jwf (enc_Policy p) = true.
Proof.
  intros [] (? & ? & Hr). unfold enc_Policy. rewrite wp_format0, wp_schema0. json_wf; [by vm_compute|].
  apply enc_slice_wf. intros e He. rewrite Forall_forall in wp_exports0.
  eapply enc_Export_wf; [|by apply wp_exports0|by apply Hr]. by apply (ShareConfig.wf_ids volumes).
Qed.

Lemma strict_Policy volumes p : wf_policy volumes p → strict_doc 0 (enc_Policy p).
Proof.
  intros []. destruct wp_present0. unfold enc_Policy. rewrite wp_schema0, enc_int_nonneg by lia. json_strict.
  apply strict_array; [done|lia|]. intros e He. rewrite Forall_forall in wp_exports0. eapply strict_Export; eauto.
Qed.

(** A valid policy is read back from its printed text. *)
Lemma Nfs_Decode_Marshal volumes p : wf_policy volumes p → in_range p →
  Decode (bytes_reader (Marshal (enc_Policy p))) volumes = Ok p.
Proof.
  intros Hp Hr. unfold Decode. rewrite (DecodeInto_Marshal dec_Policy (enc_Policy p) _ _ _ p); try done.
  - by rewrite (proj2 (Policy_Validate_wf p volumes) Hp).
  - by eapply enc_Policy_wf.
  - by destruct Hp.
  - by eapply strict_Policy.
  - apply dec_enc_Policy; [done|]. by destruct Hp.
Qed.

Lemma dec_Policy_range v p : dec_Policy v = Some p → in_range p.
Proof.
  unfold dec_Policy, as_struct. destruct v as [| | | | |ms]; try done.
  { intros [= <-]. split_and!; [cbn; lia..|set_solver]. }
  case_match; [|done]. intros Hd. repeat (apply bind_Some in Hd as (? & ? & Hd)). injection Hd as <-.
  split_and!; [by eapply (fld_uint_range 64)..|]. cbn [pol_Exports]. intros e He.
  edestruct (fld_slice_elem dec_Export) as (w & Hw); [done|done|].
  unfold dec_Export, as_struct in Hw. destruct w as [| | | | |ms']; try done.
  { injection Hw as <-. intros c Hc. cbn in Hc. set_solver. }
  case_match; [|done]. repeat (apply bind_Some in Hw as (? & ? & Hw)). injection Hw as <-. intros c Hc. cbn [ex_Clients] in Hc.
  edestruct (fld_slice_elem dec_Client) as (w & Hw); [done|done|].
  unfold dec_Client, as_struct in Hw. destruct w as [| | | | |ms'']; try done.
  { injection Hw as <-. split; cbn; lia. }
  case_match; [|done]. repeat (apply bind_Some in Hw as (? & ? & Hw)). injection Hw as <-.
  split; by eapply (fld_uint_range 32).
Qed.

Lemma Nfs_Decode_sound input volumes p : Decode input volumes = Ok p → wf_policy volumes p ∧ in_range p.
Proof.
  unfold Decode. destruct (DecodeInto _ _ _ _ _) as [p'|] eqn:Hd; [|done].
  destruct (Policy_Validate p' volumes) as [[]|] eqn:Hv; [|done]. intros [= ->]. split; [by apply Policy_Validate_wf|].
  apply DecodeInto_Ok in Hd as (_ & _ & data & v & _ & _ & _ & _ & _ & _ & Hd). by eapply dec_Policy_range.
Qed.

(** ** Reading the table back

    An exports file is read line by line: empty lines and comments are skipped, a
    line is the path followed by clients, separated by spaces, with octal escapes
    in the path and the options of a client in parentheses. *)
Fixpoint unescape (s : string) : string :=
  match s with
  | EmptyString => EmptyString
  | String c s1 =>
    if c == "\"%char then
      match s1 with
      | String a (String b (String d s2)) =>
        String (ascii_of_N (Z.to_N (((code a - 48) * 8 + (code b - 48)) * 8 + (code d - 48)))) (unescape s2)
      | _ => s
      end
    else String c (unescape s1)
  end.
(** What the options of a client grant, to a reader of exports(5): an option is a
    flag or [key=value]; writes must be synchronous, ports privileged and mounts
    below not crossed, the user options exclude each other, and an unsquashed
    superuser is not among the meanings. *)
Record rights := mkRights {
  rg_access : string; rg_squash : string; rg_security : string; rg_uid : Z; rg_gid : Z;
  rg_subtree : bool; rg_fsid : string; rg_mountpoint : string }.
Fixpoint strip (p s : string) : option string :=
  match p, s with
  | EmptyString, _ => Some s
  | String a p', String b s' => if Ascii.eqb a b then strip p' s' else None
  | String _ _, EmptyString => None
  end.
Definition flag (opts : list string) (f : string) : bool := existsb (String.eqb f) opts.
Definition value_of (opts : list string) (key : string) : option string :=
  match omap (strip (String.append key "=")) opts with [v] => Some v | _ => None end.
(** exactly one of two flags *)
Definition either {A} (opts : list string) (f g : string) (a b : A) : option A :=
  match flag opts f, flag opts g with
  | true, false => Some a
  | false, true => Some b
  | _, _ => None
  end.
Definition read_rights (opts : list string) : option rights :=
  if negb (forallb (flag opts) ["sync"; "secure"; "root_squash"; "nocrossmnt"])
     || existsb (flag opts) ["async"; "insecure"; "no_root_squash"; "crossmnt"; "no_all_squash"] then None
  else
    access ← either opts "rw" "ro" "rw" "ro";
    subtree ← either opts "subtree_check" "no_subtree_check" true false;
    security ← value_of opts "sec";
    uid ← value_of opts "anonuid" ≫= ParseUint 32;
    gid ← value_of opts "anongid" ≫= ParseUint 32;
    fsid ← value_of opts "fsid";
    mount ← value_of opts "mountpoint";
    Some (mkRights access (if flag opts "all_squash" then "all" else "root") security uid gid subtree fsid mount).
Definition read_client (t : string) : option (string * rights) :=
  let '(network, rest, open) := cut "(" t in
  let '(opts, tail, close) := cut ")" rest in
  if open && close && (tail == "") then rights ← read_rights (split_on "," opts); Some (network, rights) else None.
Definition read_line (l : string) : option (string * list (string * rights)) :=
  match split_on " " l with
  | path :: clients => cs ← mapM read_client clients; Some (unescape path, cs)
  | [] => None
  end.
Definition skipped (l : string) : bool := (l == "") || has_prefix "#" l.
Definition read_table (t : string) : option (list (string * list (string * rights))) :=
  mapM read_line (filter (λ l, skipped l = false) (split_on (ascii_of_nat 10) t)).

Lemma unescape_escape s : unescape (escapePath s) = s.
Proof.
  induction s as [|c s IH]; [done|]. cbn [escapePath]. unfold escape_byte.
  destruct (_ || _) eqn:Hc.
  - assert (Hcases : c = ascii_of_nat 32 ∨ c = ascii_of_nat 34 ∨ c = ascii_of_nat 35 ∨ c = ascii_of_nat 92).
    { go_bool. destruct Hc as [[[Hc|Hc]|Hc]|Hc]; [left|right; left|right; right; left|right; right; right];
        by apply code_inj. }
    rewrite <- IH at 2. by destruct Hcases as [->|[->|[->| ->]]].
  - rewrite append_String, append_Empty. cbn [unescape]. rewrite bool_decide_eq_false_2, IH; [done|].
    intros ->. vm_compute in Hc. done.
Qed.

(** An escaped path has neither space nor newline. *)
Definition word_char (c : Z) : bool := negb (c =? 32) && negb (c =? 10).
Lemma escapePath_text s : all_chars path_char s → all_chars word_char (escapePath s).
Proof.
  induction s as [|c s IH]; [done|]. rewrite all_chars_String. intros [Hc Hs]. cbn [escapePath].
  apply all_chars_app; [|by apply IH]. unfold escape_byte. destruct (_ || _) eqn:He.
  - assert (Hcases : c = ascii_of_nat 32 ∨ c = ascii_of_nat 34 ∨ c = ascii_of_nat 35 ∨ c = ascii_of_nat 92).
    { go_bool. destruct He as [[[He|He]|He]|He]; [left|right; left|right; right; left|right; right; right];
        by apply code_inj. }
    by destruct Hcases as [->|[->|[->| ->]]].
  - apply all_chars_String. split; [|done]. unfold word_char, path_char in *. go_bool. naive_solver.
Qed.

Record printable (x : ExportPreview) : Prop := {
  pr_id : opt_text (xp_ID x);
  pr_mount : opt_text (xp_MountPath x);
  pr_path : ∃ t, xp_Path x = String "/" t ∧ all_chars path_char t;
  pr_clients : Forall (λ c, good_client c ∧ client_range c) (xp_Clients x) }.

Lemma options_text x c : printable x → good_client c → client_range c → Forall opt_text (options x c).
Proof.
  intros [] (_ & Ha & Hs & _ & _ & Hk) [[? ?] [? ?]]. unfold options.
  assert (Hdig : ∀ n, 0 ≤ n → opt_text (FormatUint n)).
  { intros n. apply all_chars_uint. intros d Hd. unfold opt_char. rewrite Hd. by rewrite orb_true_r. }
  repeat apply Forall_app_2.
  - destruct Ha as [->| ->]; repeat constructor.
  - case_match; repeat constructor.
  - assert (opt_text (cl_Security c)) by (by destruct Hk as [->|[->|[->| ->]]]).
    repeat apply Forall_cons_2; try apply Forall_nil_2; try done; try (apply all_chars_app; [done|]); auto.
    by case_match.
Qed.

Lemma opt_text_not sep s : opt_char (code sep) = false → opt_text s → no_sep sep s.
Proof. apply all_chars_no_sep. Qed.

(** What the policy grants a client of an export. *)
Definition client_rights (x : ExportPreview) (c : Client) : rights :=
  mkRights (cl_Access c) (cl_Squash c) (cl_Security c) (cl_AnonymousUID c) (cl_AnonymousGID c)
    (negb (xp_Path x == xp_MountPath x)) (xp_ID x) (xp_MountPath x).

Lemma read_rights_options x c : good_client c → client_range c →
  read_rights (options x c) = Some (client_rights x c).
Proof.
  intros (_ & Ha & Hs & _ & _ & _) [Hu Hg]. unfold options, client_rights.
  destruct (bool_decide (xp_Path x = xp_MountPath x)) eqn:Hp.
  all: pose proof (ParseUint_FormatUint 32 _ Hu ltac:(lia)) as Pu; pose proof (ParseUint_FormatUint 32 _ Hg ltac:(lia)) as Pg.
  all: revert Pu Pg; generalize (FormatUint (cl_AnonymousUID c)), (FormatUint (cl_AnonymousGID c)); intros tu tg Pu Pg.
  all: destruct Ha as [->| ->], Hs as [->| ->]; cbv -[ParseUint]; rewrite Pu, Pg; done.
Qed.

Lemma read_client_text x c : printable x → good_client c → client_range c →
  read_client (client_text x c) = Some (cl_Network c, client_rights x c) ∧ all_chars word_char (client_text x c).
Proof.
  intros Hx Hc Hr. pose proof (options_text x c Hx Hc Hr) as HF. pose proof (network_utf8 c Hc) as Hn.
  assert (Hj : ∀ P, (∀ d, opt_char d = true → P d = true) → P 44 = true → all_chars P (join_with "," (options x c))).
  { intros P HP H44. apply all_chars_join; [done|]. eapply Forall_impl; [done|]. intros o. by apply all_chars_impl. }
  split.
  - unfold read_client, client_text. rewrite (append_String "(" ""), append_Empty.
    rewrite cut_app by (by apply (all_chars_no_sep net_char)).
    rewrite cut_app. 2:{ apply (all_chars_no_sep (λ d, opt_char d || (d =? 44))); [done|]. apply Hj; [|done]. by intros d ->. }
    cbn [andb]. rewrite bool_decide_eq_true_2 by done. rewrite split_join; [by rewrite read_rights_options|by unfold options|].
    eapply Forall_impl; [done|]. intros o. by apply opt_text_not.
  - unfold client_text. apply all_chars_app.
    + eapply all_chars_impl; [|done]. intros d. unfold net_char, word_char, is_lower_hex, is_digit. go_bool. lia.
    + apply all_chars_app; [done|]. apply all_chars_app; [|done]. apply Hj; [|done].
      intros d. unfold opt_char, word_char, is_lower, is_digit. go_bool. lia.
Qed.

(** What the table says of one export. *)
Definition entry (x : ExportPreview) : string * list (string * rights) :=
  (xp_Path x, (λ c, (cl_Network c, client_rights x c)) <$> xp_Clients x).

Lemma export_line_words x : printable x →
  split_on " " (export_line x) = escapePath (xp_Path x) :: (client_text x <$> xp_Clients x)
  ∧ all_chars (λ d, negb (d =? 10)) (export_line x) ∧ ∃ t, export_line x = String "/" t.
Proof.
  intros Hx. destruct (pr_path x Hx) as (t & Ht & Htc). pose proof (pr_clients x Hx) as HC.
  assert (HF : Forall (all_chars word_char) (escapePath (xp_Path x) :: (client_text x <$> xp_Clients x))).
  { constructor; [apply escapePath_text; rewrite Ht; by apply all_chars_String|].
    apply Forall_fmap. eapply Forall_impl; [done|]. intros c [Hg Hr]. by apply read_client_text. }
  split_and!.
  - unfold export_line. apply split_join; [done|]. eapply Forall_impl; [done|]. intros w. by apply all_chars_no_sep.
  - unfold export_line. apply all_chars_join; [done|]. eapply Forall_impl; [done|]. intros w. apply all_chars_impl.
    intros d. unfold word_char. go_bool. naive_solver.
  - unfold export_line. rewrite Ht. change (escapePath (String "/" t)) with (String "/" (escapePath t)).
    destruct (xp_Clients x); cbn [fmap list_fmap join_with]; eexists; [done|]. by rewrite append_String.
Qed.

Lemma read_line_export x : printable x → read_line (export_line x) = Some (entry x).
Proof.
  intros Hx. unfold read_line. destruct (export_line_words x Hx) as (-> & _ & _).
  assert (Hm : mapM read_client (client_text x <$> xp_Clients x) = Some ((λ c, (cl_Network c, client_rights x c)) <$> xp_Clients x)).
  { pose proof (pr_clients x Hx) as HC. apply mapM_Some. induction HC as [|c l [Hg Hr] HC IH]; constructor; [|done].
    by apply read_client_text. }
  rewrite Hm. cbn [mbind option_bind]. by rewrite unescape_escape.
Qed.

Lemma table_lines xs : Forall printable xs →
  split_on (ascii_of_nat 10) (table xs) = banner :: (export_line <$> xs) ++ [""].
Proof.
  intros HF. unfold table, newline.
  assert (Hone : ∀ l, no_sep (ascii_of_nat 10) l → split_on (ascii_of_nat 10) l = [l]).
  { intros l Hl. by apply (split_join (ascii_of_nat 10) [l]); [|constructor]. }
  rewrite append_String, append_Empty, split_append_sep, Hone by (apply (bool_decide_unpack _); by vm_compute).
  cbn [app]. f_equal. induction HF as [|x xs Hx HF IH]; [done|]. cbn [foldr fmap list_fmap].
  rewrite append_String, append_Empty, split_append_sep, IH. rewrite Hone; [done|].
  by apply (all_chars_no_sep (λ d, negb (d =? 10))); [|apply export_line_words].
Qed.

Lemma read_table_exports xs : Forall printable xs → read_table (table xs) = Some (entry <$> xs).
Proof.
  intros HF. unfold read_table. rewrite table_lines by done.
  assert (Hfilter : filter (λ l, skipped l = false) (banner :: (export_line <$> xs) ++ [""]) = export_line <$> xs).
  { rewrite filter_cons_False by done. rewrite filter_app. change (filter (λ l, skipped l = false) [""]) with (@nil string).
    rewrite app_nil_r. induction HF as [|x xs Hx HF IH]; [done|]. rewrite fmap_cons, filter_cons_True; [by rewrite IH|].
    destruct (export_line_words x Hx) as (_ & _ & t & ->). done. }
  rewrite Hfilter. apply mapM_Some, Forall2_fmap, Forall_Forall2_diag.
  eapply Forall_impl; [done|]. intros x Hx. by apply read_line_export.
Qed.

Lemma export_preview_printable volumes e : ShareConfig.wf_config volumes →
  good_export (ShareConfig.volume_ids volumes) e → export_range e → printable (export_preview volumes e).
Proof.
  intros Hv He Hr. destruct (ShareConfig.wf_ids volumes Hv) as [_ Hids]. destruct He.
  destruct (mount_path (ex_VolumeID e) ltac:(auto)) as (Hm & Hd & Ht).
  destruct (relativePath_valid _ ge_path0) as [Hvp _]. pose proof (relativePath_text _ ge_path0) as Hpt.
  split; cbn [export_preview xp_ID xp_MountPath xp_Path xp_Clients].
  - by apply uuid_text.
  - done.
  - rewrite Join_dir by done. rewrite Hm in *. case_bool_decide; rewrite !append_String; eexists; (split; [done|]).
    + eapply all_chars_app; [done|]. apply opt_path_text, identifier_text; auto.
    + apply all_chars_app; [apply all_chars_app; [done|]; apply opt_path_text, identifier_text; auto|].
      by apply all_chars_String.
  - apply Forall_forall. intros c Hc. apply sort_by_elem in Hc. rewrite Forall_forall in ge_clients0. auto.
Qed.

(** ** Properties *)

(** [Policy.Validate] accepts exactly the policies of the contract: bound to
    the revision of a valid share configuration, with unique identifiers, declared
    volumes and valid paths, such that of two exports of one volume neither path
    lies below the other, every client entry is a canonical network with known
    options, no address is admitted by two client entries of one export, and the
    printed document fits its limit. *)
Theorem Nfs_Validate_exact p volumes : Policy_Validate p volumes = Ok tt ↔ wf_policy volumes p.
Proof. apply Policy_Validate_wf. Qed.

(** C18: the rendered exports table says exactly what the policy says.  When
    [Build] succeeds on a document whose numbers fit their types, an independent
    reader of the exports format finds in the table one entry per export and
    nothing else: the path below the mount point of its volume, unescaped, and
    each client network with the rights the policy gives it (access, squashing,
    security flavour, anonymous identities, the identity of the filesystem and the
    mount point it must be); the exports are those of the policy, ordered by
    identifier. *)
Theorem Build_table_exact p volumes pre :
  in_range p → Build p volumes = Ok pre →
  read_table (pre_Table pre) = Some (entry <$> pre_Exports pre)
  ∧ pre_Exports pre ≡ₚ export_preview volumes <$> elems (pol_Exports p)
  ∧ StronglySorted (key_le xp_ID) (pre_Exports pre)
  ∧ ∀ e, e ∈ elems (pol_Exports p) →
      xp_Path (export_preview volumes e)
      = (let mount := String.append "/srv/phantowd/volumes/" (ex_VolumeID e) in
         if ex_RelativePath e == "." then mount else String.append mount (String "/" (ex_RelativePath e))).
Proof.
  intros (_ & _ & Hr) Hb. unfold Build in Hb. apply res_bind_Ok in Hb as ([] & Hv%Policy_Validate_wf & [= <-]).
  cbn [pre_Table pre_Exports]. pose proof (wp_exports _ _ Hv) as HE. rewrite Forall_forall in HE.
  pose proof (wp_volumes _ _ Hv) as Hvol. split_and!.
  - apply read_table_exports, Forall_forall. intros x Hx. apply sort_by_elem, list_elem_of_fmap in Hx as (e & -> & He).
    apply export_preview_printable; auto.
  - apply sort_by_perm.
  - apply sort_by_sorted.
  - intros e He. cbn [export_preview xp_Path]. destruct (ShareConfig.wf_ids volumes Hvol) as [_ Hids].
    destruct (HE e He). destruct (mount_path (ex_VolumeID e) ltac:(auto)) as (Hm & Hd & _).
    rewrite Join_dir by (done || by apply relativePath_valid). by rewrite Hm.
Qed.

Definition sample_volumes : ShareConfig.Config :=
  ShareConfig.mkConfig "phantowd-share-config" 1 2
    (Some [ShareConfig.mkVolume "bulk" "11111111-2222-3333-4444-555555555555"])
    (Some [ShareConfig.mkUser "writer" "alice"])
    (Some [ShareConfig.mkShare "books" "Books" "bulk" "books" (Some [ShareConfig.mkGrant "writer" "rw"])]).
Definition sample_policy : Policy :=
  mkPolicy "phantowd-nfs-policy" 1 1 2
    (Some [mkExport "aaaaaaaa-bbbb-cccc-dddd-eeeeeeeeeeee" "bulk" "my books"
             (Some [mkClient "192.0.2.0/24" "rw" "all" 101000 101000 "sys"; mkClient "2001:db8::/32" "ro" "root" 7 7 "krb5p"])]).

Lemma Build_table_exact_witness :
  in_range sample_policy ∧ ∃ pre, Build sample_policy sample_volumes = Ok pre
  ∧ read_table (pre_Table pre) = Some (entry <$> pre_Exports pre)
  ∧ (xp_Path <$> pre_Exports pre) = ["/srv/phantowd/volumes/bulk/my books"].
Proof.
  assert (Hr : in_range sample_policy).
  { split_and!; [cbn; lia..|]. intros e He. apply list_elem_of_singleton in He as ->. intros c Hc.
    apply elem_of_cons in Hc as [->|Hc]; [split; cbn; lia|]. apply list_elem_of_singleton in Hc as ->. split; cbn; lia. }
  split; [exact Hr|].
  destruct (Build sample_policy sample_volumes) as [pre|] eqn:Hb; [|vm_compute in Hb; discriminate].
  exists pre. split; [reflexivity|].
  destruct (Build_table_exact sample_policy sample_volumes pre Hr Hb) as (Ht & _).
  split; [exact Ht|]. vm_compute in Hb. injection Hb as <-. reflexivity.
Defined.
End NfsConfig.
