(* ===== verification/SmbConfig.v ===== *)
(** * Candidate Samba sections: [smbconfig/preview.go]

    [build] renders the share sections of a valid share configuration.
    [read_sections] is an independent reader of the configuration format: the
    text read back gives every share with its path and its lists of users, and
    the lists are exactly the grants of the configuration. *)

From S2P Require Import Prelude GoStrings Utf8 ConfigJson GoJson Shares NetIP GoPath NfsConfig.
Import GoJson GoPath.

Module SmbConfig.
Import ShareConfig.

Record VolumeRequirement := mkVolumeRequirement {
  vr_VolumeID : string; vr_FilesystemUUID : string; vr_MountPath : string }.
Record SharePreview := mkSharePreview {
  sp_ID : string; sp_Name : string; sp_VolumeID : string; sp_Path : string;
  sp_ReadOnly : list string; sp_ReadWrite : list string }.
Record Preview := mkPreview {
  pv_SchemaVersion : Z; pv_Revision : Z; pv_Volumes : list VolumeRequirement; pv_Shares : list SharePreview;
  pv_Sections : string }.

Inductive smb_error := ErrPolicy | ErrLimit | ErrIsolated | ErrUnsafeAt (i : Z) | ErrWhitespaceAt (i : Z) | ErrOverlap.

Definition VolumeRoot : string := VolumeMountRoot.

(** The characters are % (37), the double quote (34), # ; = [ ]. *)
Definition unsafe_char (c : Z) : bool := in_set c "%#;=[]" || (c =? 34).
Definition unsafeValue (s : string) : bool := existsb unsafe_char (runes s).
Definition overlaps (a b : string) : bool :=
  (a == b) || has_prefix (String.append b "/") a || has_prefix (String.append a "/") b.

(** [unicode.IsSpace] *)
Definition space_rune (r : Z) : bool :=
  is_space r || (r =? 133) || (r =? 160) || (r =? 5760) || ((8192 <=? r) && (r <=? 8202)) || (r =? 8232) || (r =? 8233)
  || (r =? 8239) || (r =? 8287) || (r =? 12288).
(** [strings.TrimSpace(s) == s]: neither the first nor the last rune is a space *)
Definition trim_fixed (s : string) : bool :=
  match runes s with
  | [] => true
  | r :: _ => negb (space_rune r) && negb (default false (space_rune <$> last_code (runes s)))
  end.

(** The maps built from the configuration. *)
Definition volume_requirement (v : Volume) : VolumeRequirement :=
  mkVolumeRequirement (vol_ID v) (vol_FilesystemUUID v) (Join VolumeRoot (vol_ID v)).
Definition volume_map (c : Config) : gmap string VolumeRequirement :=
  fold_left (λ m v, <[vol_ID v := volume_requirement v]> m) (elems (cfg_Volumes c)) ∅.
Definition name_map (c : Config) : gmap string string :=
  fold_left (λ m u, <[user_ID u := user_Name u]> m) (elems (cfg_Users c)) ∅.
Definition zero_requirement : VolumeRequirement := mkVolumeRequirement "" "" "".

(** the names granted one kind of access, in the order of the grants *)
Definition granted (names : gmap string string) (rw : bool) (gs : list Grant) : list string :=
  (λ g, default "" (names !! grant_UserID g)) <$> filter (λ g, bool_decide (grant_Access g = "rw") = rw) gs.

Definition share_body (volumes : gmap string VolumeRequirement) (names : gmap string string) (isolated : bool)
  (i : Z) (done_ : list SharePreview) (share : Share) : res smb_error (list SharePreview) :=
  refuse isolated && (share_RelativePath share == ".") => ErrIsolated ;;
  refuse unsafeValue (share_Name share) || unsafeValue (share_RelativePath share) => ErrUnsafeAt i ;;
  refuse negb (forallb trim_fixed (split_on "/" (share_RelativePath share))) => ErrWhitespaceAt i ;;
  let volume := default zero_requirement (volumes !! share_VolumeID share) in
  let resolved := Join (vr_MountPath volume) (share_RelativePath share) in
  refuse existsb (λ other, (sp_VolumeID other == share_VolumeID share) && overlaps (sp_Path other) resolved) done_ => ErrOverlap ;;
  Ok (done_ ++ [mkSharePreview (share_ID share) (share_Name share) (share_VolumeID share) resolved
                  (sort_by id (granted names false (elems (share_Grants share))))
                  (sort_by id (granted names true (elems (share_Grants share))))]).

(** ** The text *)
Definition nl : string := String (ascii_of_nat 10) EmptyString.
Definition line (s : string) : string := String.append s nl.
Definition setting (k v : string) : string := String.append "    " (String.append k (String.append " = " v)).
Definition settings (p : SharePreview) : list (string * string) :=
  [("path", sp_Path p); ("guest ok", "no"); ("guest only", "no"); ("read only", "yes"); ("browseable", "yes");
   ("valid users", join_with " " (sort_by id (sp_ReadOnly p ++ sp_ReadWrite p)));
   ("read list", join_with " " (sp_ReadOnly p)); ("write list", join_with " " (sp_ReadWrite p));
   ("wide links", "no"); ("follow symlinks", "no"); ("create mask", "0660"); ("directory mask", "0770")].
Definition section_lines (p : SharePreview) : list string :=
  "" :: String.append "[" (String.append (sp_Name p) "]") :: ((λ kv, setting kv.1 kv.2) <$> settings p).
Definition banner : list string :=
  ["# PhantoWD candidate share sections; not an activation authorization.";
   "# Verify filesystem identity, mount containment, accounts and POSIX ACLs first."].
Definition sections (ps : list SharePreview) : string :=
  foldr (λ l s, String.append (line l) s) "" (banner ++ (ps ≫= section_lines)).

Definition isolate (p : SharePreview) : SharePreview :=
  mkSharePreview (sp_ID p) (sp_Name p) (sp_VolumeID p) (String.append "/shares/" (sp_ID p)) (sp_ReadOnly p) (sp_ReadWrite p).
Definition build (config : Config) (isolated : bool) : res smb_error Preview :=
  refuse negb (is_ok (Config_Validate config)) => ErrPolicy ;;
  refuse MaxInputBytes <? slength (Marshal (enc_Config config)) => ErrLimit ;;
  let volumes := volume_map config in
  shares ← for_range (share_body volumes (name_map config) isolated) 0 [] (elems (cfg_Shares config));
  let used : gset string := list_to_set (share_VolumeID <$> elems (cfg_Shares config)) in
  let required := sort_by vr_VolumeID ((λ id, default zero_requirement (volumes !! id)) <$> base.elements used) in
  let sorted := sort_by sp_ID shares in
  let final := if isolated then isolate <$> sorted else sorted in
  Ok (mkPreview 1 (cfg_Revision config) required final (sections final)).
Definition Build (config : Config) : res smb_error Preview := build config false.
Definition BuildIsolated (config : Config) : res smb_error Preview := build config true.

(** ** Reading the sections back

    Lines that are empty or comments are skipped; a line in brackets opens a
    section; any other line is a key and a value around the first equals sign,
    both trimmed. *)
Definition header (l : string) : option string :=
  match l with
  | String c rest => if c == "["%char then let '(name, tail, found) := cut "]" rest in
                       if found && (tail == "") then Some name else None
                     else None
  | EmptyString => None
  end.
Definition read_setting (l : string) : option (string * string) :=
  let '(k, v, found) := cut "=" l in if found then Some (trim_space k, trim_space v) else None.
Fixpoint read_lines (ls : list string) : option (list (string * string) * list (string * list (string * string))) :=
  match ls with
  | [] => Some ([], [])
  | l :: ls' =>
    '(kvs, secs) ← read_lines ls';
    match header l with
    | Some name => Some ([], (name, kvs) :: secs)
    | None => kv ← read_setting l; Some (kv :: kvs, secs)
    end
  end.
Definition skipped (l : string) : bool := (l == "") || has_prefix "#" l.
Definition read_sections (t : string) : option (list (string * list (string * string))) :=
  '(kvs, secs) ← read_lines (filter (λ l, skipped l = false) (split_on (ascii_of_nat 10) t));
  if len kvs =? 0 then Some secs else None.

(** what the text says of one share *)
Definition section (p : SharePreview) : string * list (string * string) := (sp_Name p, settings p).

(** Values a reader gives back: on one line and without surrounding spaces. *)
Definition not_newline (c : Z) : bool := negb (c =? 10).
Record printable (p : SharePreview) : Prop := {
  pr_name : all_chars (λ c, not_newline c && negb (c =? 93)) (sp_Name p);
  pr_path : all_chars not_newline (sp_Path p) ∧ trimmed (sp_Path p) = true;
  pr_users : Forall (λ u, accountName u = true) (sp_ReadOnly p ++ sp_ReadWrite p) }.

Lemma read_setting_text k v : no_sep "=" k → trim_space (String.append "    " (String.append k " ")) = k → trimmed v = true →
  read_setting (setting k v) = Some (k, v).
Proof.
  intros Hk Ht Hv. unfold read_setting, setting.
  replace (String.append "    " (String.append k (String.append " = " v)))
    with (String.append (String.append "    " (String.append k " ")) (String "=" (String " " v)))
    by (rewrite !append_assoc; done).
  rewrite cut_app.
  - rewrite Ht, trim_space_blank. by rewrite trim_space_fixed.
  - unfold no_sep in *. rewrite !codes_append. change (codes "    ") with [32; 32; 32; 32]. change (codes " ") with [32].
    change (code "=") with 61 in *. set_solver.
Qed.

(** *** Lists of users *)
Lemma accountName_text u : accountName u = true →
  u ≠ "" ∧ all_chars (λ c, ShareConfig.account_char c) u.
Proof.
  unfold accountName. destruct (_ || _) eqn:Hh; [done|]. rewrite !andb_true_iff. intros [[[H _] _] _].
  rewrite forallb_runes in H by (intros r Hr; unfold account_char, is_lower, is_digit; lia). split; [|done].
  intros ->. vm_compute in Hh. done.
Qed.

Lemma account_char_not_space c : account_char c = true → is_space c = false ∧ not_newline c = true.
Proof. unfold account_char, is_space, not_newline, is_lower, is_digit. go_bool. lia. Qed.

Lemma join_head sep c w ws : ∃ t, join_with sep (String c w :: ws) = String c t.
Proof.
  destruct ws as [|w' ws]; [by exists w|].
  change (join_with sep (String c w :: w' :: ws)) with (String.append (String c w) (String sep (join_with sep (w' :: ws)))).
  rewrite append_String. by eexists.
Qed.

Lemma join_last sep ws : ws ≠ [] → Forall (λ w, w ≠ "") ws → ∃ w, w ∈ ws ∧ last_code (codes (join_with sep ws)) = last_code (codes w).
Proof.
  intros Hne HF. induction HF as [|w ws Hw HF IH]; [done|]. destruct ws as [|w' ws]; [exists w; set_solver|].
  destruct (IH ltac:(done)) as (u & Hu & Hl). exists u. split; [set_solver|]. rewrite <- Hl.
  change (join_with sep (w :: w' :: ws)) with (String.append w (String sep (join_with sep (w' :: ws)))).
  rewrite codes_append, codes_String, last_code_app by done.
  inv HF. destruct w' as [|c w']; [done|]. destruct (join_head sep c w' ws) as (t & ->). by rewrite codes_String.
Qed.

Lemma last_code_Some l : l ≠ [] → ∃ b, last_code l = Some b ∧ b ∈ l.
Proof.
  induction l as [|x l IH]; [done|]. intros _. destruct l as [|y l]; [exists x; set_solver|].
  destruct (IH ltac:(done)) as (b & Hb & Hin). exists b. split; [done|set_solver].
Qed.

Lemma users_text ws : Forall (λ u, accountName u = true) ws →
  trimmed (join_with " " ws) = true ∧ all_chars not_newline (join_with " " ws).
Proof.
  intros HF. assert (HF' : Forall (λ w, w ≠ "" ∧ all_chars account_char w) ws).
  { eapply Forall_impl; [done|]. intros u. apply accountName_text. }
  split.
  - destruct ws as [|w ws]; [done|]. unfold trimmed.
    destruct (join_last " " (w :: ws)) as (u & Hu & Hl); [done|eapply Forall_impl; [done|]; naive_solver|].
    rewrite Forall_forall in HF'. destruct (HF' u Hu) as [Hne Hc].
    assert (Hlast : default false (is_space <$> last_code (codes (join_with " " (w :: ws)))) = false).
    { rewrite Hl. destruct (last_code_Some (codes u)) as (b & -> & Hb); [by destruct u|]. cbn.
      unfold all_chars in Hc. rewrite forallb_forall in Hc. by apply account_char_not_space, Hc, list_elem_of_In. }
    destruct (codes (join_with " " (w :: ws))) as [|c l] eqn:He; [done|]. rewrite <- He in Hlast |- *. rewrite Hlast, andb_true_r.
    destruct (HF' w ltac:(set_solver)) as [Hwne Hw]. destruct w as [|d w]; [done|]. apply all_chars_String in Hw as [Hd _].
    destruct (join_head " " d w ws) as (t & Hj). rewrite Hj, codes_String in He. injection He as <- _.
    apply negb_true_iff. by apply account_char_not_space.
  - apply all_chars_join; [done|]. eapply Forall_impl; [done|]. intros w [_ Hw]. eapply all_chars_impl; [|done].
    intros c Hc. by apply account_char_not_space.
Qed.

Lemma setting_kv p k v : printable p → (k, v) ∈ settings p →
  read_setting (setting k v) = Some (k, v) ∧ header (setting k v) = None ∧ skipped (setting k v) = false
  ∧ all_chars not_newline (setting k v).
Proof.
  intros [Hn [Hp1 Hp2] Hu] Hin.
  pose proof (users_text (sp_ReadOnly p) ltac:(by apply Forall_app in Hu as [? _])) as [Hr1 Hr2].
  pose proof (users_text (sp_ReadWrite p) ltac:(by apply Forall_app in Hu as [_ ?])) as [Hw1 Hw2].
  pose proof (users_text (sort_by id (sp_ReadOnly p ++ sp_ReadWrite p)) ltac:(by rewrite sort_by_perm)) as [Ha1 Ha2].
  assert (Hv : trimmed v = true ∧ all_chars not_newline v ∧ all_chars not_newline k ∧ no_sep "=" k
    ∧ trim_space (String.append "    " (String.append k " ")) = k).
  { unfold settings in Hin. repeat (apply elem_of_cons in Hin as [[= -> ->]|Hin]; 
      [split_and!; try done; unfold no_sep; by apply (bool_decide_unpack _)|]). by apply not_elem_of_nil in Hin. }
  destruct Hv as (Hv1 & Hv2 & Hk1 & Hk2 & Hk3). split_and!; [by apply read_setting_text|done|done|].
  unfold setting. apply all_chars_app; [done|]. apply all_chars_app; [done|]. by apply all_chars_app.
Qed.

Lemma section_lines_ok p : printable p →
  Forall (all_chars not_newline) (section_lines p)
  ∧ ∀ ls secs, read_lines ls = Some ([], secs) →
      read_lines (filter (λ l, skipped l = false) (section_lines p) ++ ls) = Some ([], section p :: secs).
Proof.
  intros Hp. pose proof (setting_kv p) as Hkv. unfold section_lines. split.
  - constructor; [done|]. constructor.
    + rewrite append_String, append_Empty. apply all_chars_String. split; [done|]. apply all_chars_app; [|done].
      eapply all_chars_impl; [|apply (pr_name p Hp)]. intros c. go_bool. naive_solver.
    + apply Forall_fmap, Forall_forall. intros [k v] Hin. by apply (Hkv k v).
  - intros ls secs Hls. rewrite filter_cons_False by done. rewrite filter_cons_True.
    2:{ rewrite append_String. done. }
    assert (Hset : ∀ kvs, (∀ k v, (k, v) ∈ kvs → (k, v) ∈ settings p) →
      read_lines (filter (λ l, skipped l = false) ((λ kv : string * string, setting kv.1 kv.2) <$> kvs) ++ ls) = Some (kvs, secs)).
    { induction kvs as [|[k v] kvs IH]; intros Hin; [done|]. destruct (Hkv k v Hp (Hin k v ltac:(set_solver))) as (Hr & Hh & Hs & _).
      rewrite fmap_cons, filter_cons_True by done. cbn [app read_lines fst snd].
      rewrite IH by (intros; apply Hin; set_solver). cbn [mbind option_bind]. rewrite Hh, Hr. done. }
    cbn [app read_lines]. rewrite Hset by done. cbn [mbind option_bind].
    rewrite append_String, append_Empty. cbn [header]. rewrite bool_decide_eq_true_2 by done.
    rewrite cut_app; [done|]. eapply all_chars_no_sep; [|apply (pr_name p Hp)]. done.
Qed.

Lemma split_lines ls : Forall (all_chars not_newline) ls →
  split_on (ascii_of_nat 10) (foldr (λ l s, String.append (line l) s) "" ls) = ls ++ [""].
Proof.
  induction 1 as [|l ls Hl HF IH]; [done|]. cbn [foldr app]. unfold line at 1, nl.
  rewrite append_assoc, append_String, append_Empty, split_append_sep, IH.
  assert (Hone : split_on (ascii_of_nat 10) l = [l]).
  { apply (split_join (ascii_of_nat 10) [l]); [done|]. constructor; [|done]. by apply (all_chars_no_sep not_newline). }
  by rewrite Hone.
Qed.

Lemma read_sections_exact ps : Forall printable ps → read_sections (sections ps) = Some (section <$> ps).
Proof.
  intros HF. unfold read_sections, sections. rewrite split_lines.
  2:{ apply Forall_app_2; [repeat (apply Forall_cons_2; [done|]); apply Forall_nil_2|]. apply Forall_bind. eapply Forall_impl; [done|].
      intros p Hp. exact (proj1 (section_lines_ok p Hp)). }
  assert (Hr : read_lines (filter (λ l, skipped l = false) (ps ≫= section_lines)) = Some ([], section <$> ps)).
  { induction HF as [|p ps Hp HF IH]; [done|]. cbn [mbind list_bind]. rewrite filter_app. by apply (proj2 (section_lines_ok p Hp)). }
  rewrite !filter_app. change (filter (λ l, skipped l = false) banner) with (@nil string).
  change (filter (λ l, skipped l = false) [""]) with (@nil string). rewrite app_nil_r. cbn [app]. by rewrite Hr.
Qed.

(** What a section grants, to a reader of smb.conf(5): guests are refused, the
    share is read-only but for its write list, links are not followed, and the
    three user lists are words separated by spaces. *)
Record rights := mkRights {
  rg_path : string; rg_valid : list string; rg_read : list string; rg_write : list string }.
Definition value_of (kvs : list (string * string)) (k : string) : option string :=
  match filter (λ kv, String.eqb k kv.1 = true) kvs with [kv] => Some kv.2 | _ => None end.
Definition words (v : string) : list string := filter (λ w, w ≠ "") (split_on " " v).
Definition is_set (kvs : list (string * string)) (kv : string * string) : bool :=
  bool_decide (value_of kvs kv.1 = Some kv.2).
Definition read_rights (kvs : list (string * string)) : option rights :=
  if forallb (is_set kvs) [("guest ok", "no"); ("guest only", "no"); ("read only", "yes"); ("wide links", "no");
                           ("follow symlinks", "no")]
  then path ← value_of kvs "path"; valid ← value_of kvs "valid users";
       rd ← value_of kvs "read list"; wr ← value_of kvs "write list";
       Some (mkRights path (words valid) (words rd) (words wr))
  else None.
Definition read_shares (t : string) : option (list (string * rights)) :=
  secs ← read_sections t; mapM (λ sec, r ← read_rights sec.2; Some (sec.1, r)) secs.
(** What the preview grants. *)
Definition share_rights (p : SharePreview) : string * rights :=
  (sp_Name p, mkRights (sp_Path p) (sort_by id (sp_ReadOnly p ++ sp_ReadWrite p)) (sp_ReadOnly p) (sp_ReadWrite p)).

Lemma words_users ws : Forall (λ u, accountName u = true) ws → words (join_with " " ws) = ws.
Proof.
  intros HF. destruct ws as [|w ws]; [done|]. unfold words. rewrite split_join; [|done|].
  - induction HF as [|u us Hu HF IH]; [done|]. rewrite filter_cons_True by (by apply accountName_text). by rewrite IH.
  - eapply Forall_impl; [done|]. intros u Hu. eapply all_chars_no_sep; [|by apply accountName_text]. done.
Qed.

Lemma read_shares_exact ps : Forall printable ps → read_shares (sections ps) = Some (share_rights <$> ps).
Proof.
  intros HF. unfold read_shares. rewrite read_sections_exact by done. cbn [mbind option_bind].
  apply mapM_Some. induction HF as [|p ps [Hn Hp Hu] HF IH]; [constructor|]. constructor; [|done].
  pose proof (words_users (sp_ReadOnly p) ltac:(by apply Forall_app in Hu as [? _])) as Hr.
  pose proof (words_users (sp_ReadWrite p) ltac:(by apply Forall_app in Hu as [_ ?])) as Hw.
  pose proof (words_users (sort_by id (sp_ReadOnly p ++ sp_ReadWrite p)) ltac:(by rewrite sort_by_perm)) as Hv.
  cbn [section fst snd]. change (read_rights (settings p)) with
    (Some (mkRights (sp_Path p) (words (join_with " " (sort_by id (sp_ReadOnly p ++ sp_ReadWrite p))))
             (words (join_with " " (sp_ReadOnly p))) (words (join_with " " (sp_ReadWrite p))))).
  by rewrite Hr, Hw, Hv.
Qed.

(** ** What [build] renders *)
Definition preview_of (c : Config) (s : Share) : SharePreview :=
  mkSharePreview (share_ID s) (share_Name s) (share_VolumeID s)
    (Join (vr_MountPath (default zero_requirement (volume_map c !! share_VolumeID s))) (share_RelativePath s))
    (sort_by id (granted (name_map c) false (elems (share_Grants s))))
    (sort_by id (granted (name_map c) true (elems (share_Grants s)))).
Definition rendered (c : Config) (isolated : bool) (s : Share) : SharePreview :=
  if isolated then isolate (preview_of c s) else preview_of c s.

Record safe_share (isolated : bool) (s : Share) : Prop := {
  ss_isolated : isolated = true → share_RelativePath s ≠ ".";
  ss_values : unsafeValue (share_Name s) = false ∧ unsafeValue (share_RelativePath s) = false;
  ss_spaces : Forall (λ w, trim_fixed w = true) (split_on "/" (share_RelativePath s)) }.
Definition shares_apart (s t : Share) : Prop :=
  share_VolumeID s = share_VolumeID t → ¬ path_nested (share_RelativePath s) (share_RelativePath t).

Definition clash (other p : SharePreview) : bool :=
  (sp_VolumeID other == sp_VolumeID p) && overlaps (sp_Path other) (sp_Path p).
Lemma share_body_Ok c isolated i st s st' :
  share_body (volume_map c) (name_map c) isolated i st s = Ok st' ↔
  safe_share isolated s ∧ Forall (λ o, clash o (preview_of c s) = false) st ∧ st' = st ++ [preview_of c s].
Proof.
  unfold share_body. rewrite !refuse_Ok, existsb_False, Forall_forall, negb_false_iff, forallb_forall, andb_false_iff,
    orb_false_iff, bool_decide_eq_false. unfold clash. cbn [preview_of sp_VolumeID sp_Path]. split.
  - intros (Hi & ? & HF & ? & [= <-]). split; [|done]. split; [|done|].
    + intros ->. by destruct Hi.
    + apply Forall_forall. intros w Hw. by apply HF, list_elem_of_In.
  - intros ([Hi Hv HF] & ? & ->). split_and!; try done; [|by destruct Hv..|].
    + destruct isolated; [right|left]; auto.
    + intros w Hw. rewrite Forall_forall in HF. by apply HF, list_elem_of_In.
Qed.

(** *** The maps *)
Lemma volume_map_lookup c v : wf_config c → v ∈ elems (cfg_Volumes c) → volume_map c !! vol_ID v = Some (volume_requirement v).
Proof.
  intros [] Hv. unfold volume_map. apply fold_insert_lookup; [done|]. left. by exists v.
Qed.
Lemma name_map_lookup c u : wf_config c → u ∈ elems (cfg_Users c) → name_map c !! user_ID u = Some (user_Name u).
Proof. intros [] Hu. unfold name_map. apply fold_insert_lookup; [done|]. left. by exists u. Qed.

Lemma declared_volume c s : wf_config c → s ∈ elems (cfg_Shares c) →
  ∃ v, v ∈ elems (cfg_Volumes c) ∧ vol_ID v = share_VolumeID s
     ∧ vr_MountPath (default zero_requirement (volume_map c !! share_VolumeID s)) = Join VolumeRoot (share_VolumeID s).
Proof.
  intros Hc Hs. pose proof (wf_shares c Hc) as HF. rewrite Forall_forall in HF. destruct (HF s Hs).
  unfold volume_ids in gs_volume0. apply elem_of_list_to_set, list_elem_of_fmap in gs_volume0 as (v & Hv & Hin).
  exists v. split_and!; [done|done|]. rewrite Hv, (volume_map_lookup c v Hc Hin). done.
Qed.

Lemma relativePath_nfs p : relativePath p = true → NfsConfig.relativePath p = true.
Proof.
  unfold relativePath, NfsConfig.relativePath. destruct (_ || existsb _ (runes p)) eqn:H1; [done|].
  destruct (_ || existsb _ (codes p)) eqn:H2; [|done]. intros _. exfalso.
  rewrite !orb_false_iff, !negb_false_iff in H1. destruct H1 as ((((Hl & Hl') & Hu) & Hv) & Hb).
  rewrite Hl, Hl', Hu, Hv in H2. cbn [orb negb] in H2.
  apply existsb_True in H2 as (c & Hc & H92%Z.eqb_eq). subst c.
  rewrite existsb_False in Hb. specialize (Hb 92 ltac:(by apply ascii_byte_rune)). done.
Qed.

Lemma apart_clash c s t : wf_config c → s ∈ elems (cfg_Shares c) → t ∈ elems (cfg_Shares c) →
  (clash (preview_of c s) (preview_of c t) = false ↔ shares_apart s t).
Proof.
  intros Hc Hs Ht. pose proof (wf_shares c Hc) as HF. rewrite Forall_forall in HF.
  destruct (declared_volume c s Hc Hs) as (v & Hv & Hid & Hm). destruct (declared_volume c t Hc Ht) as (w & Hw & Hid' & Hm').
  destruct (HF s Hs), (HF t Ht).
  destruct (NfsConfig.relativePath_valid _ (relativePath_nfs _ gs_path0)) as [Hp _].
  destruct (NfsConfig.relativePath_valid _ (relativePath_nfs _ gs_path1)) as [Hq _].
  unfold clash, shares_apart, preview_of. cbn [sp_VolumeID sp_Path]. rewrite Hm, Hm'.
  destruct (decide (share_VolumeID s = share_VolumeID t)) as [He|He].
  - rewrite bool_decide_eq_true_2 by done. cbn [andb]. rewrite <- He.
    destruct (NfsConfig.mount_path (share_VolumeID s)) as (_ & Hd & _); [by apply (wf_ids c Hc)|].
    rewrite <- not_true_iff_false. change (overlaps ?a ?b) with (nested a b).
    rewrite (nested_dir_spec (Join VolumeRoot (share_VolumeID s))) by done. naive_solver.
  - rewrite bool_decide_eq_false_2 by done. cbn [andb]. naive_solver.
Qed.

Lemma build_Ok c isolated pre : build c isolated = Ok pre ↔
  wf_config c ∧ slength (Marshal (enc_Config c)) ≤ MaxInputBytes ∧ Forall (safe_share isolated) (elems (cfg_Shares c))
  ∧ ForallOrdPairs shares_apart (elems (cfg_Shares c))
  ∧ pre = mkPreview 1 (cfg_Revision c)
      (sort_by vr_VolumeID ((λ id, default zero_requirement (volume_map c !! id)) <$>
         base.elements (list_to_set (share_VolumeID <$> elems (cfg_Shares c)) : gset string)))
      ((if isolated then fmap isolate else id) (sort_by sp_ID (preview_of c <$> elems (cfg_Shares c))))
      (sections ((if isolated then fmap isolate else id) (sort_by sp_ID (preview_of c <$> elems (cfg_Shares c))))).
Proof.
  unfold build. rewrite !refuse_Ok, negb_false_iff, is_ok_unit, Config_Validate_wf, Z.ltb_ge, res_bind_Ok.
  setoid_rewrite (for_range_chain _ _ _ _ _ _ _ _ (share_body_Ok c isolated)).
  setoid_rewrite (chain_pairs (preview_of c) (λ o p, clash o p = false)).
  assert (Hf : ∀ acc, fold_left (λ st s, st ++ [preview_of c s]) (elems (cfg_Shares c)) acc = acc ++ (preview_of c <$> elems (cfg_Shares c))).
  { induction (elems (cfg_Shares c)) as [|s l IH]; intros acc; cbn; [by rewrite app_nil_r|]. by rewrite IH, <- app_assoc. }
  setoid_rewrite Hf. cbn [app].
  assert (Hp : wf_config c → ForallOrdPairs (λ s t, clash (preview_of c s) (preview_of c t) = false) (elems (cfg_Shares c))
               ↔ ForallOrdPairs shares_apart (elems (cfg_Shares c))).
  { intros Hc. apply (ForallOrdPairs_iff (λ s, s ∈ elems (cfg_Shares c))); [intros; by apply apart_clash|].
    by apply Forall_forall. }
  split.
  - intros (Hc & Hl & xs & (HF & [Hpairs _] & ->) & [= <-]). split_and!; try done; [by apply Hp|]. by destruct isolated.
  - intros (Hc & Hl & HF & Hpairs & ->). split_and!; try done. eexists. split; [split_and!; [done| |done|reflexivity]|].
    + by apply Hp.
    + by destruct isolated.
Qed.

(** *** The rendered shares can be read back *)
Lemma share_name_text n : shareName n = true → all_chars (λ c, not_newline c && negb (c =? 93)) n.
Proof.
  unfold shareName. destruct (_ || _); [done|]. case_match; [done|].
  rewrite forallb_runes. 2:{ intros r Hr. unfold share_char. rewrite (proj2 (Z.ltb_lt 126 r)) by lia. by rewrite orb_true_r. }
  apply all_chars_impl. intros c. unfold share_char, not_newline. rewrite negb_true_iff, !orb_false_iff.
  intros [[[H1 H2] H3] _]. apply Z.ltb_ge in H1. apply andb_true_iff. split; apply negb_true_iff, Z.eqb_neq; [lia|].
  intros ->. by vm_compute in H3.
Qed.

Lemma last_not_space w : trim_fixed w = true → default false (is_space <$> last_code (codes w)) = false.
Proof.
  intros Ht. destruct (last_code (codes w)) as [b|] eqn:Hl; [|done]. cbn. destruct (is_space b) eqn:Hb; [|done].
  assert (Hr : last_code (runes w) = Some b) by (apply last_byte_rune; [done|]; unfold is_space in Hb; go_bool; lia).
  unfold trim_fixed in Ht. rewrite Hr in Ht. destruct (runes w); [done|]. cbn in Ht. unfold space_rune in Ht.
  rewrite Hb in Ht. by rewrite andb_false_r in Ht.
Qed.

Lemma trimmed_rooted t : default false (is_space <$> last_code (codes (String "/" t))) = false → trimmed (String "/" t) = true.
Proof. intros H. unfold trimmed. rewrite codes_String in *. rewrite H. done. Qed.

Lemma identifier_last i : identifier i = true → ∀ l, default false (is_space <$> last_code (l ++ codes i)) = false.
Proof.
  intros Hi l. destruct (NfsConfig.identifier_name i Hi) as (_ & _ & Hne).
  assert (Hc : codes i ≠ []) by (by destruct i). rewrite last_code_app by done.
  destruct (last_code_Some (codes i) Hc) as (b & -> & Hb). cbn. apply NfsConfig.identifier_text in Hi. unfold all_chars in Hi.
  rewrite forallb_forall in Hi. specialize (Hi b ltac:(by apply list_elem_of_In)).
  unfold NfsConfig.opt_char, is_space, is_lower, is_digit in *. go_bool. lia.
Qed.

Lemma path_text c isolated s : wf_config c → s ∈ elems (cfg_Shares c) → safe_share isolated s →
  sp_Path (preview_of c s) = (let mount := String.append "/srv/phantowd/volumes/" (share_VolumeID s) in
    if share_RelativePath s == "." then mount else String.append mount (String "/" (share_RelativePath s)))
  ∧ all_chars not_newline (sp_Path (preview_of c s)) ∧ trimmed (sp_Path (preview_of c s)) = true.
Proof.
  intros Hc Hs [_ _ HF]. destruct (declared_volume c s Hc Hs) as (v & _ & _ & Hm).
  pose proof (wf_shares c Hc) as HFs. rewrite Forall_forall in HFs. destruct (HFs s Hs).
  assert (Hi : identifier (share_VolumeID s) = true) by (by apply (wf_ids c Hc)).
  destruct (NfsConfig.mount_path _ Hi) as (Hj & Hd & Ht). pose proof (relativePath_nfs _ gs_path0) as Hn.
  destruct (NfsConfig.relativePath_valid _ Hn) as [Hvp _]. pose proof (NfsConfig.relativePath_text _ Hn) as Hpt.
  pose proof (ValidPath_components _ Hvp) as Hcomp. unfold components in Hcomp.
  cbn [preview_of sp_Path]. rewrite Hm, Join_dir by done. change VolumeRoot with NfsConfig.VolumeRoot. rewrite Hj in *.
  split; [done|]. cbn zeta. apply NfsConfig.opt_path_text in Ht. case_bool_decide as He.
  - split; [done|]. rewrite append_String. apply trimmed_rooted. rewrite <- append_String, codes_append.
    by apply identifier_last.
  - split; [apply all_chars_app; [done|]; by apply all_chars_String|].
    rewrite !append_String. apply trimmed_rooted. rewrite <- !append_String, codes_append.
    assert (Hne : codes (String "/" (share_RelativePath s)) ≠ []) by done. rewrite last_code_app by done.
    rewrite <- (join_split "/" (share_RelativePath s)).
    destruct (join_last "/" (split_on "/" (share_RelativePath s))) as (w & Hw & Hl).
    + by destruct (split_on_cons "/" (share_RelativePath s)) as (? & ? & ->).
    + eapply Forall_impl; [done|]. intros w Hw. by apply name_ok_ne in Hw as [? _].
    + rewrite codes_String. rewrite Forall_forall in Hcomp. pose proof (name_ok_ne w (Hcomp w Hw)) as [Hwne _].
      assert (Hcne : codes (join_with "/" (split_on "/" (share_RelativePath s))) ≠ []).
      { rewrite join_split. intros H0. apply (f_equal length) in H0. rewrite length_codes in H0. cbn in H0.
        destruct (share_RelativePath s); [by vm_compute in Hvp|done]. }
      change (code "/" :: ?l) with ([code "/"] ++ l). rewrite last_code_app, Hl by done.
      apply last_not_space. rewrite Forall_forall in HF. by apply HF.
Qed.

(** A user holds an access on a share when a grant of the share names the user. *)
Definition granted_as (c : Config) (s : Share) (access name : string) : Prop :=
  ∃ g u, g ∈ elems (share_Grants s) ∧ u ∈ elems (cfg_Users c) ∧ grant_UserID g = user_ID u
         ∧ grant_Access g = access ∧ user_Name u = name.

Lemma granted_exact c s rw n : wf_config c → s ∈ elems (cfg_Shares c) →
  (n ∈ granted (name_map c) rw (elems (share_Grants s)) ↔ granted_as c s (if rw then "rw" else "ro") n).
Proof.
  intros Hc Hs. pose proof (wf_shares c Hc) as HF. rewrite Forall_forall in HF. destruct (HF s Hs).
  rewrite Forall_forall in gs_access0. unfold granted, granted_as. rewrite list_elem_of_fmap.
  assert (Hg : ∀ g, g ∈ elems (share_Grants s) → ∃ u, u ∈ elems (cfg_Users c) ∧ grant_UserID g = user_ID u
     ∧ default "" (name_map c !! grant_UserID g) = user_Name u
     ∧ (bool_decide (grant_Access g = "rw") = rw ↔ grant_Access g = if rw then "rw" else "ro")).
  { intros g Hg. destruct (gs_access0 g Hg) as [Hu Ha]. unfold user_ids in Hu.
    apply elem_of_list_to_set, list_elem_of_fmap in Hu as (u & Hu & Hin). exists u.
    rewrite Hu, (name_map_lookup c u Hc Hin). split_and!; try done. destruct Ha as [-> | ->], rw; done. }
  split.
  - intros (g & -> & Hin). apply list_elem_of_filter in Hin as [Ha Hin]. destruct (Hg g Hin) as (u & Hu & Hid & Hn & Hacc).
    exists g, u. split_and!; try done. by apply Hacc.
  - intros (g & u & Hin & Hu & Hid & Ha & <-). exists g. destruct (Hg g Hin) as (u' & Hu' & Hid' & Hn & Hacc). split.
    + rewrite Hid, (name_map_lookup c u Hc Hu). done.
    + apply list_elem_of_filter. split; [by apply Hacc|done].
Qed.

Lemma rendered_printable c isolated s : wf_config c → s ∈ elems (cfg_Shares c) → safe_share isolated s →
  printable (rendered c isolated s).
Proof.
  intros Hc Hs Hsafe. pose proof (wf_shares c Hc) as HF. rewrite Forall_forall in HF. destruct (HF s Hs).
  destruct (path_text c isolated s Hc Hs Hsafe) as (_ & Hp1 & Hp2).
  assert (Hu : Forall (λ u, accountName u = true) (sp_ReadOnly (preview_of c s) ++ sp_ReadWrite (preview_of c s))).
  { apply Forall_forall. intros n Hn. cbn [preview_of sp_ReadOnly sp_ReadWrite] in Hn.
    rewrite elem_of_app, !sort_by_elem, !granted_exact in Hn by done.
    pose proof (wf_users c Hc) as HU. rewrite Forall_forall in HU.
    destruct Hn as [(g & u & _ & Hu & _ & _ & <-)|(g & u & _ & Hu & _ & _ & <-)]; by apply HU. }
  unfold rendered. destruct isolated; (split; [by apply share_name_text| |done]); [|done].
  cbn [isolate sp_Path preview_of sp_ID]. split.
  - apply all_chars_app; [done|]. by apply NfsConfig.opt_path_text, NfsConfig.identifier_text.
  - rewrite append_String. apply trimmed_rooted. rewrite <- append_String, codes_append. by apply identifier_last.
Qed.

(** ** Properties *)

(** C20: the rendered Samba sections say exactly what the share configuration
    says.  When [build] succeeds, an independent reader of the format finds in
    the text one section per share and nothing else: no guests, no links followed,
    read-only but for the write list; the shares are those of the configuration;
    each has its path below
    the mount point of its volume (or its isolated directory), the write list
    holds exactly the users with a grant for writing, the read list exactly those
    with a grant for reading, [valid users] exactly both; no two shares of one
    volume are nested, and the required volumes are exactly the used ones. *)
Theorem Build_sections_exact c isolated pre :
  build c isolated = Ok pre →
  read_shares (pv_Sections pre) = Some (share_rights <$> pv_Shares pre)
  ∧ pv_Shares pre ≡ₚ rendered c isolated <$> elems (cfg_Shares c)
  ∧ (∀ s n, s ∈ elems (cfg_Shares c) → let p := rendered c isolated s in
       sp_Path p = (if isolated then String.append "/shares/" (share_ID s)
                    else let mount := String.append "/srv/phantowd/volumes/" (share_VolumeID s) in
                         if share_RelativePath s == "." then mount else String.append mount (String "/" (share_RelativePath s)))
       ∧ (n ∈ sp_ReadWrite p ↔ granted_as c s "rw" n) ∧ (n ∈ sp_ReadOnly p ↔ granted_as c s "ro" n)
       ∧ (n ∈ sort_by id (sp_ReadOnly p ++ sp_ReadWrite p) ↔ granted_as c s "rw" n ∨ granted_as c s "ro" n))
  ∧ ForallOrdPairs shares_apart (elems (cfg_Shares c))
  ∧ ∀ r, r ∈ pv_Volumes pre ↔
      ∃ v s, v ∈ elems (cfg_Volumes c) ∧ s ∈ elems (cfg_Shares c) ∧ share_VolumeID s = vol_ID v ∧ r = volume_requirement v.
Proof.
  intros (Hc & _ & HS & Hapart & ->)%build_Ok. rewrite Forall_forall in HS. cbn [pv_Sections pv_Shares pv_Volumes].
  set (items := (if isolated then fmap isolate else id) (sort_by sp_ID (preview_of c <$> elems (cfg_Shares c)))).
  assert (Hperm : items ≡ₚ rendered c isolated <$> elems (cfg_Shares c)).
  { unfold items, rendered. destruct isolated; cbn [id]; rewrite sort_by_perm; [by rewrite <- list_fmap_compose|done]. }
  split_and!; [|done| |done|].
  - apply read_shares_exact, Forall_forall. intros p Hp. rewrite Hperm in Hp. apply list_elem_of_fmap in Hp as (s & -> & Hs).
    apply rendered_printable; auto.
  - intros s n Hs. assert (Hw : ∀ rw, n ∈ sort_by id (granted (name_map c) rw (elems (share_Grants s)))
      ↔ granted_as c s (if rw then "rw" else "ro") n) by (intros rw; rewrite sort_by_elem; by apply granted_exact).
    destruct (path_text c isolated s Hc Hs ltac:(auto)) as (Hp & _).
    unfold rendered. destruct isolated; cbn zeta; cbn [isolate sp_Path sp_ReadOnly sp_ReadWrite sp_ID preview_of];
      rewrite (sort_by_elem id (sort_by id _ ++ sort_by id _)), elem_of_app, (Hw true), (Hw false); (split_and!; [done|done|done|tauto]).
  - intros r. rewrite sort_by_elem, list_elem_of_fmap. setoid_rewrite elem_of_elements.
    setoid_rewrite elem_of_list_to_set. setoid_rewrite list_elem_of_fmap. split.
    + intros (i & -> & s & -> & Hs). destruct (declared_volume c s Hc Hs) as (v & Hv & Hid & _).
      exists v, s. split_and!; try done. rewrite <- Hid. by rewrite (volume_map_lookup c v Hc Hv).
    + intros (v & s & Hv & Hs & Hid & ->). exists (vol_ID v). rewrite (volume_map_lookup c v Hc Hv). split; [done|]. by exists s.
Qed.

Lemma Build_sections_exact_witness :
  ∃ pre, build NfsConfig.sample_volumes false = Ok pre
  ∧ read_shares (pv_Sections pre) = Some (share_rights <$> pv_Shares pre)
  ∧ (sp_ReadWrite <$> pv_Shares pre) = [["alice"]].
Proof.
  destruct (build NfsConfig.sample_volumes false) as [pre|] eqn:Hb; [|vm_compute in Hb; discriminate].
  exists pre. split; [reflexivity|]. destruct (Build_sections_exact NfsConfig.sample_volumes false pre Hb) as (Ht & _).
  split; [exact Ht|]. vm_compute in Hb. injection Hb as <-. reflexivity.
Defined.
End SmbConfig.
