(* ===== verification/FileService.v ===== *)
(** * The combined file-service configuration: [fileservice/]

    One revision binds the share configuration and the NFS policy.  [Config_Validate]
    requires both previews to build; [DecodeConfig] reads the nested documents
    with their own strict decoders; [EncodeBackup] and [RestoreCandidate] are the
    backup format, restored at the next revision of the store. *)

From S2P Require Import Prelude GoStrings Utf8 ConfigJson GoJson Shares NetIP GoPath NfsConfig SmbConfig.
Import GoJson GoPath.

Module FileService.

Definition MaxInputBytes : Z := ShareConfig.MaxInputBytes + NfsConfig.MaxInputBytes + 256.
Definition ConfigFormat : string := "phantowd-file-service-config".
Definition MaxConfigBytes : Z := MaxInputBytes + 256.
Definition BackupFormat : string := "phantowd-file-service-backup".
Definition MaxBackupBytes : Z := MaxConfigBytes + 256.

Inductive preview_error := ErrEnvelope | ErrShares | ErrSamba | ErrNFS.
#[export] Instance preview_error_eq_dec : EqDecision preview_error. Proof. solve_decision. Defined.

(** ** Previews *)
Record Preview := mkPreview {
  fp_SchemaVersion : Z; fp_Scope : string; fp_Persisted : bool; fp_Applied : bool; fp_RuntimeValidated : bool;
  fp_ActivationAvailable : bool; fp_Requirements : list string; fp_Samba : SmbConfig.Preview; fp_NFS : NfsConfig.Preview }.

Definition configuredPathsOverlap (first second : string) : bool :=
  let first := Join "/" first in
  let second := Join "/" second in
  (first == second) || (first == "/") || (second == "/")
  || has_prefix (String.append second "/") first || has_prefix (String.append first "/") second.
Definition configuredCrossProtocolPathOverlap (shares : ShareConfig.Config) (nfs : NfsConfig.Policy) : bool :=
  existsb (λ share, existsb (λ export,
      (ShareConfig.share_VolumeID share == NfsConfig.ex_VolumeID export)
      && configuredPathsOverlap (ShareConfig.share_RelativePath share) (NfsConfig.ex_RelativePath export))
    (elems (NfsConfig.pol_Exports nfs))) (elems (ShareConfig.cfg_Shares shares)).

Definition base_requirements : list string :=
  ["runtime_volume_identity"; "path_and_mount_containment"; "unix_accounts_and_effective_access";
   "durable_configuration"; "service_activation_lifecycle"].
Definition Build (shares : ShareConfig.Config) (nfs : NfsConfig.Policy) : res preview_error Preview :=
  match SmbConfig.Build shares with
  | Err _ => Err ErrSamba
  | Ok sambaPreview =>
    match NfsConfig.Build nfs shares with
    | Err _ => Err ErrNFS
    | Ok nfsPreview =>
      let requirements := base_requirements
        ++ (if negb (slen (ShareConfig.cfg_Shares shares) =? 0) && negb (slen (NfsConfig.pol_Exports nfs) =? 0)
            then "cross_protocol_access_review"
                 :: (if configuredCrossProtocolPathOverlap shares nfs then ["cross_protocol_path_overlap"] else [])
            else [])
        ++ (if NfsConfig.pre_UsesAUTH_SYS nfsPreview then ["auth_sys_network_trust"] else [])
        ++ (if NfsConfig.pre_RequiresKerberos nfsPreview then ["kerberos_provisioning"] else []) in
      Ok (mkPreview 1 "desired-policy-only" false false false false requirements sambaPreview nfsPreview)
    end
  end.

(** ** Documents *)

(** [decodeEnvelope]: the members of one object, each allowed, present once and
    not null.  A text that is not one JSON object is refused by one of the token
    calls; all of them return the same error. *)
Definition envelope_step (allowed : list string) (_ : Z) (fields : gmap string string) (kv : string * string) :
  res unit (gmap string string) :=
  refuse negb (kv.1 ∈? allowed) || (match fields !! kv.1 with Some _ => true | None => false end) || (kv.2 == "null") => tt ;;
  Ok (<[kv.1 := kv.2]> fields).
Definition decodeEnvelope (data : string) (maxBytes : Z) (required : list string) : option (gmap string string) :=
  if maxBytes <? slength data then None
  else match raw_members data with
  | None => None
  | Some members =>
    match for_range (envelope_step required) 0 ∅ members with
    | Err _ => None
    | Ok fields => if Z.of_nat (size fields) =? len required then Some fields else None
    end
  end.

(** [fields[name]]; every required name is present *)
Definition raw (fields : gmap string string) (name : string) : string := default "" (fields !! name).
Definition decodePolicies (fields : gmap string string) : res preview_error (ShareConfig.Config * NfsConfig.Policy) :=
  match ShareConfig.Decode (bytes_reader (raw fields "shares")) with
  | Err _ => Err ErrShares
  | Ok shares =>
    match NfsConfig.Decode (bytes_reader (raw fields "nfs")) shares with
    | Err _ => Err ErrNFS
    | Ok nfs => Ok (shares, nfs)
    end
  end.
Definition Decode (data : string) : res preview_error Preview :=
  match decodeEnvelope data MaxInputBytes ["shares"; "nfs"] with
  | None => Err ErrEnvelope
  | Some fields => '(shares, nfs) ← decodePolicies fields; Build shares nfs
  end.

Record Config := mkConfig {
  fc_Format : string; fc_SchemaVersion : Z; fc_Revision : Z;
  fc_Shares : ShareConfig.Config; fc_NFS : NfsConfig.Policy }.
#[local] Existing Instances ShareConfig.Config_eq_dec NfsConfig.Policy_eq_dec.
#[export] Instance Config_eq_dec : EqDecision Config. Proof. solve_decision. Defined.

Definition Config_Validate (c : Config) : bool :=
  if (fc_Format c != ConfigFormat) || negb (fc_SchemaVersion c =? 1) || (fc_Revision c =? 0)
     || negb (ShareConfig.cfg_Revision (fc_Shares c) =? fc_Revision c)
     || negb (NfsConfig.pol_Revision (fc_NFS c) =? fc_Revision c)
     || negb (NfsConfig.pol_VolumeRevision (fc_NFS c) =? fc_Revision c) then false
  else is_ok (Build (fc_Shares c) (fc_NFS c)).

Definition required_fields : list string := ["format"; "schema_version"; "revision"; "shares"; "nfs"].
(** [DecodeConfig]; every failure is the one error [ErrConfig] *)
Definition DecodeConfig (input : reader) : option Config :=
  data ← limit_read (MaxConfigBytes + 1) input;
  fields ← decodeEnvelope data MaxConfigBytes required_fields;
  format ← Unmarshal as_str (raw fields "format");
  version ← Unmarshal as_int (raw fields "schema_version");
  revision ← Unmarshal (as_uint 64) (raw fields "revision");
  match decodePolicies fields with
  | Err _ => None
  | Ok (shares, nfs) =>
    let c := mkConfig format version revision shares nfs in
    if Config_Validate c then Some c else None
  end.

Definition enc_Config (c : Config) : jval :=
  JObj [("format", JStr (fc_Format c)); ("schema_version", enc_int (fc_SchemaVersion c));
        ("revision", enc_uint (fc_Revision c)); ("shares", ShareConfig.enc_Config (fc_Shares c));
        ("nfs", NfsConfig.enc_Policy (fc_NFS c))].

(** ** Backups *)
Definition enc_Backup (c : Config) : jval :=
  JObj [("format", JStr BackupFormat); ("schema_version", enc_int 1); ("configuration", enc_Config c)].
Definition EncodeBackup (c : Config) : option string :=
  if negb (Config_Validate c) then None
  else
    validated ← DecodeConfig (bytes_reader (Marshal (enc_Config c)));
    let data := Marshal (enc_Backup validated) in
    if MaxBackupBytes <? slength data then None else Some data.

(** all revisions of a configuration set to one value *)
Definition rebase (r : Z) (c : Config) : Config :=
  let s := fc_Shares c in
  let n := fc_NFS c in
  mkConfig (fc_Format c) (fc_SchemaVersion c) r
    (ShareConfig.mkConfig (ShareConfig.cfg_Format s) (ShareConfig.cfg_SchemaVersion s) r (ShareConfig.cfg_Volumes s)
       (ShareConfig.cfg_Users s) (ShareConfig.cfg_Shares s))
    (NfsConfig.mkPolicy (NfsConfig.pol_Format n) (NfsConfig.pol_SchemaVersion n) r r (NfsConfig.pol_Exports n)).
Definition RestoreCandidate (data : string) (expected : Z) : option Config :=
  if expected =? max_uint64 then None
  else
    fields ← RawEnvelope data MaxBackupBytes 12 ["format"; "schema_version"; "configuration"];
    format ← Unmarshal as_str (raw fields "format");
    if format != BackupFormat then None
    else
    version ← Unmarshal as_int (raw fields "schema_version");
    if negb (version =? 1) then None
    else
    c ← DecodeConfig (bytes_reader (raw fields "configuration"));
    DecodeConfig (bytes_reader (Marshal (enc_Config (rebase (u64_add expected 1) c)))).

(** ** Retained exports: [nfs_bindings.go] *)
Definition bindings (c : Config) : gmap string (string * string * string) :=
  fold_left (λ result export,
    fold_left (λ result volume,
      if ShareConfig.vol_ID volume == NfsConfig.ex_VolumeID export
      then <[NfsConfig.ex_ID export := (ShareConfig.vol_ID volume, ShareConfig.vol_FilesystemUUID volume,
                                        NfsConfig.ex_RelativePath export)]> result
      else result) (elems (ShareConfig.cfg_Volumes (fc_Shares c))) result)
    (elems (NfsConfig.pol_Exports (fc_NFS c))) ∅.
Definition ValidateRetainedNFSBindings (current next : Config) : bool :=
  if negb (Config_Validate current) || negb (Config_Validate next) then false
  else
    let previous := bindings current in
    forallb (λ kv, match previous !! kv.1 with Some old => bool_decide (old = kv.2) | None => true end)
      (map_to_list (bindings next)).

(** ** Validity *)
Record wf (c : Config) : Prop := {
  wf_format : fc_Format c = ConfigFormat;
  wf_schema : fc_SchemaVersion c = 1;
  wf_revision : fc_Revision c ≠ 0;
  wf_bound : ShareConfig.cfg_Revision (fc_Shares c) = fc_Revision c
             ∧ NfsConfig.pol_Revision (fc_NFS c) = fc_Revision c ∧ NfsConfig.pol_VolumeRevision (fc_NFS c) = fc_Revision c;
  wf_shares : ShareConfig.wf_config (fc_Shares c);
  wf_size : slength (Marshal (ShareConfig.enc_Config (fc_Shares c))) ≤ ShareConfig.MaxInputBytes;
  wf_safe : Forall (SmbConfig.safe_share false) (elems (ShareConfig.cfg_Shares (fc_Shares c)));
  wf_apart : ForallOrdPairs SmbConfig.shares_apart (elems (ShareConfig.cfg_Shares (fc_Shares c)));
  wf_nfs : NfsConfig.wf_policy (fc_Shares c) (fc_NFS c) }.

Lemma Build_Ok shares nfs : is_ok (Build shares nfs) = true ↔
  is_ok (SmbConfig.Build shares) = true ∧ is_ok (NfsConfig.Build nfs shares) = true.
Proof. unfold Build. destruct (SmbConfig.Build shares), (NfsConfig.Build nfs shares); naive_solver. Qed.

Lemma nfs_Build_ok nfs shares : is_ok (NfsConfig.Build nfs shares) = true ↔ NfsConfig.wf_policy shares nfs.
Proof.
  rewrite <- NfsConfig.Policy_Validate_wf. unfold NfsConfig.Build.
  destruct (NfsConfig.Policy_Validate nfs shares) as [[]|]; naive_solver.
Qed.

Lemma Fs_Validate_wf c : Config_Validate c = true ↔ wf c.
Proof.
  unfold Config_Validate. destruct (_ || _) eqn:Hh.
  - split; [done|]. intros []. destruct wf_bound0 as (Hb1 & Hb2 & Hb3).
    rewrite wf_format0, wf_schema0, Hb1, Hb2, Hb3, !Z.eqb_refl, (proj2 (Z.eqb_neq _ 0)) in Hh by done. done.
  - rewrite !orb_false_iff, !negb_false_iff, bool_decide_eq_true, !Z.eqb_eq, Z.eqb_neq in Hh.
    destruct Hh as (((((? & ?) & ?) & ?) & ?) & ?).
    rewrite Build_Ok, nfs_Build_ok, is_ok_true. unfold SmbConfig.Build. setoid_rewrite SmbConfig.build_Ok. split.
    + intros [(pre & ? & ? & ? & ? & _) ?]. by split.
    + intros []. split; [|done]. eexists. by split_and!.
Qed.

(** ** Printing and reading back *)
Definition in_range (c : Config) : Prop :=
  0 ≤ fc_Revision c < 2 ^ 64 ∧ ShareConfig.in_range (fc_Shares c) ∧ NfsConfig.in_range (fc_NFS c).

Lemma enc_FileConfig_wf c : wf c → in_range c → jwf (enc_Config c) = true.
Proof.
  intros [] (Hr & Hs & Hn). unfold enc_Config. rewrite wf_format0, wf_schema0, enc_int_nonneg by lia. json_wf.
  - by vm_compute.
  - by apply ShareConfig.enc_Config_wf.
  - by eapply NfsConfig.enc_Policy_wf.
Qed.

Lemma strict_FileConfig c d : wf c → 0 ≤ d ≤ 3 → strict 12 None d (enc_Config c).
Proof.
  intros [] Hd. unfold enc_Config. rewrite wf_schema0, enc_int_nonneg by lia. json_strict.
  - eapply (strict_envelope 8 12 _ 0); [lia|]. by apply ShareConfig.strict_Config.
  - eapply (strict_envelope 8 12 _ 0); [lia|]. by eapply NfsConfig.strict_Policy.
Qed.

(** The combined document always fits when its parts do. *)
Lemma Config_size c : wf c → in_range c → slength (Marshal (enc_Config c)) ≤ MaxConfigBytes.
Proof.
  intros Hc Hr. pose proof (enc_FileConfig_wf c Hc Hr) as Hw. destruct Hr as (Hrev & Hs & Hn). destruct Hc.
  assert (Hs' := ShareConfig.enc_Config_wf _ wf_shares0 Hs). assert (Hn' := NfsConfig.enc_Policy_wf _ _ wf_nfs0 Hn).
  rewrite slength_Marshal by done. rewrite slength_Marshal in wf_size0 by done.
  pose proof (NfsConfig.wp_size _ _ wf_nfs0) as Hns. rewrite slength_Marshal in Hns by done.
  pose proof (uint_digits (fc_Revision c)) as Hd. unfold enc_Config. rewrite wf_format0, wf_schema0, enc_int_nonneg by lia.
  cbn [print map joined fst snd]. unfold enc_uint. cbn [print].
  unfold len in *. repeat progress rewrite ?length_app, ?length_cons. cbn [length].
  quote_sizes. unfold MaxConfigBytes, MaxInputBytes. pose proof (uint_digits 1). unfold len in *. lia.
Qed.

Lemma envelope_fold allowed ms i fields :
  (∀ k, k ∈ ms.*1 → k ∈ allowed ∧ fields !! k = None) → NoDup (ms.*1) → (∀ kv, kv ∈ ms → kv.2 ≠ "null") →
  for_range (envelope_step allowed) i fields ms = Ok (list_to_map ms ∪ fields).
Proof.
  revert i fields. induction ms as [|[k v] ms IH]; intros i fields Hk HN Hv.
  { cbn [for_range list_to_map foldr]. by rewrite (left_id_L ∅ (∪)). }
  destruct (Hk k ltac:(set_solver)) as [Ha Hf]. apply NoDup_cons in HN as [Hnk HN].
  cbn [for_range]. unfold envelope_step at 1. cbn [fst snd]. rewrite Hf.
  rewrite (bool_decide_eq_true_2 _ Ha), bool_decide_eq_false_2 by (apply (Hv (k, v)); set_solver). cbn [negb orb].
  rewrite IH; [|intros k' Hk'; split; [apply Hk; set_solver|]|done|set_solver].
  - f_equal. cbn [list_to_map foldr fst snd]. apply map_eq. intros j. fold (list_to_map (M:=gmap string string) ms).
    rewrite <- insert_union_r by (by apply not_elem_of_list_to_map). by rewrite insert_union_l.
  - rewrite lookup_insert_ne by (intros ->; set_solver). apply Hk. set_solver.
Qed.

Lemma decodeEnvelope_Marshal ms maxBytes : NoDup (ms.*1) → jwf (JObj ms) = true → (∀ kv, kv ∈ ms → kv.2 ≠ JNull) →
  slength (Marshal (JObj ms)) ≤ maxBytes →
  decodeEnvelope (Marshal (JObj ms)) maxBytes (ms.*1) = Some (list_to_map ((λ kv, (kv.1, Marshal kv.2)) <$> ms)).
Proof.
  intros HN Hw Hnn Hl. unfold decodeEnvelope. rewrite (proj2 (Z.ltb_ge _ _)) by lia. rewrite raw_members_Marshal by done.
  assert (Hk1 : ((λ kv : string * jval, (kv.1, Marshal kv.2)) <$> ms).*1 = ms.*1) by (by rewrite <- list_fmap_compose).
  rewrite envelope_fold.
  - rewrite (right_id_L ∅ (∪)), map_size_list_to_map by (by rewrite Hk1). unfold len. rewrite !length_fmap. by rewrite Z.eqb_refl.
  - rewrite Hk1. set_solver.
  - by rewrite Hk1.
  - intros kv ([k v] & -> & Hin)%list_elem_of_fmap. cbn. apply Marshal_not_null; [|by apply (Hnn (k, v))].
    cbn [jwf] in Hw. rewrite forallb_forall in Hw. specialize (Hw (k, v)). rewrite <- list_elem_of_In in Hw. go_bool. naive_solver.
Qed.

Definition config_members (c : Config) : list (string * jval) :=
  [("format", JStr (fc_Format c)); ("schema_version", enc_int (fc_SchemaVersion c)); ("revision", enc_uint (fc_Revision c));
   ("shares", ShareConfig.enc_Config (fc_Shares c)); ("nfs", NfsConfig.enc_Policy (fc_NFS c))].

(** What [DecodeConfig] makes of a printed document that fits: the two nested
    decoders decide, then the validation of the whole. *)
Lemma DecodeConfig_parts c : jwf (enc_Config c) = true → 0 ≤ fc_Revision c < 2 ^ 64 → 0 ≤ fc_SchemaVersion c < 2 ^ 63 →
  slength (Marshal (enc_Config c)) ≤ MaxConfigBytes →
  DecodeConfig (bytes_reader (Marshal (enc_Config c)))
  = match ShareConfig.Decode (bytes_reader (Marshal (ShareConfig.enc_Config (fc_Shares c)))) with
    | Err _ => None
    | Ok shares =>
      match NfsConfig.Decode (bytes_reader (Marshal (NfsConfig.enc_Policy (fc_NFS c)))) shares with
      | Err _ => None
      | Ok nfs => let c' := mkConfig (fc_Format c) (fc_SchemaVersion c) (fc_Revision c) shares nfs in
                  if Config_Validate c' then Some c' else None
      end
    end.
Proof.
  intros Hw Hr Hv Hl. unfold DecodeConfig. rewrite limit_read_bytes by (unfold MaxConfigBytes in *; lia).
  cbn [mbind option_bind]. change (enc_Config c) with (JObj (config_members c)) in *.
  change required_fields with ((config_members c).*1). rewrite decodeEnvelope_Marshal; [| |done| |done].
  2:{ cbn [config_members fmap list_fmap fst]. apply (bool_decide_eq_true_1 _). by vm_compute. }
  2:{ intros kv Hkv. repeat (apply elem_of_cons in Hkv as [->|Hkv]); try done; [|set_solver].
      cbn [snd]. unfold enc_int. by case_match. }
  assert (Hf : utf8_valid (fc_Format c) = true).
  { cbn [config_members jwf forallb fst snd] in Hw. rewrite !andb_true_iff in Hw. tauto. }
  cbn [mbind option_bind]. unfold raw, config_members. cbn [fmap list_fmap fst snd]. map_fields.
  rewrite (Unmarshal_Marshal as_str) by done. rewrite as_str_enc. cbn [mbind option_bind].
  rewrite (Unmarshal_Marshal as_int) by (rewrite enc_int_nonneg by lia; apply enc_uint_wf; lia).
  rewrite as_int_enc by lia. cbn [mbind option_bind].
  rewrite (Unmarshal_Marshal (as_uint 64)) by (apply enc_uint_wf; lia). rewrite as_uint_enc by lia. cbn [mbind option_bind].
  unfold decodePolicies, raw. map_fields.
  destruct (ShareConfig.Decode _); [|done]. by destruct (NfsConfig.Decode _ _).
Qed.

(** A valid configuration is read back from its printed text. *)
Lemma DecodeConfig_Marshal c : wf c → in_range c → DecodeConfig (bytes_reader (Marshal (enc_Config c))) = Some c.
Proof.
  intros Hc Hr. pose proof (enc_FileConfig_wf c Hc Hr) as Hw. pose proof (Config_size c Hc Hr) as Hl.
  destruct (id Hc). destruct Hr as (Hrev & Hs & Hn). rewrite DecodeConfig_parts by (done || lia).
  rewrite ShareConfig.Shares_Decode_Marshal, NfsConfig.Nfs_Decode_Marshal by done.
  replace (mkConfig _ _ _ _ _) with c by (by destruct c). cbn zeta. by rewrite (proj2 (Fs_Validate_wf c) Hc).
Qed.

(** ** Restoring at another revision *)
Definition fits (c : Config) : bool :=
  (slength (Marshal (ShareConfig.enc_Config (fc_Shares c))) <=? ShareConfig.MaxInputBytes)
  && (slength (Marshal (NfsConfig.enc_Policy (fc_NFS c))) <=? NfsConfig.MaxInputBytes).

Lemma rebase_shares r c : ShareConfig.wf_config (fc_Shares c) → r ≠ 0 → ShareConfig.wf_config (fc_Shares (rebase r c)).
Proof. intros [] Hr. by split. Qed.

Lemma rebase_wf r c : wf c → r ≠ 0 → fits (rebase r c) = true → wf (rebase r c).
Proof.
  intros Hc Hr Hf. unfold fits in Hf. apply andb_true_iff in Hf as [Hf1%Z.leb_le Hf2%Z.leb_le].
  pose proof (rebase_shares r c (wf_shares c Hc) Hr). destruct Hc. destruct wf_nfs0. by do 2 (split; try done).
Qed.

Lemma rebase_range r c : in_range c → 0 ≤ r < 2 ^ 64 → in_range (rebase r c).
Proof. intros (_ & _ & _ & _ & He) Hr. split; [done|]. split; [done|]. by split; [|split]. Qed.

Lemma rebase_jwf r c : jwf (enc_Config c) = true → 0 ≤ r < 2 ^ 64 → jwf (enc_Config (rebase r c)) = true.
Proof.
  intros Hw Hr. pose proof (enc_uint_wf r Hr) as He.
  unfold enc_Config, ShareConfig.enc_Config, NfsConfig.enc_Policy, rebase in *.
  cbn [fc_Format fc_SchemaVersion fc_Revision fc_Shares fc_NFS ShareConfig.cfg_Format ShareConfig.cfg_SchemaVersion
       ShareConfig.cfg_Revision ShareConfig.cfg_Volumes ShareConfig.cfg_Users ShareConfig.cfg_Shares NfsConfig.pol_Format
       NfsConfig.pol_SchemaVersion NfsConfig.pol_Revision NfsConfig.pol_VolumeRevision NfsConfig.pol_Exports] in *.
  cbn [jwf forallb fst snd] in *. rewrite !andb_true_iff in *. tauto.
Qed.

(** A document one of whose parts is over its limit is refused. *)
Lemma DecodeConfig_too_large c : jwf (enc_Config c) = true → 0 ≤ fc_Revision c < 2 ^ 64 → fc_SchemaVersion c = 1 → fits c = false →
  DecodeConfig (bytes_reader (Marshal (enc_Config c))) = None.
Proof.
  intros Hw Hr Hs Hf. unfold fits in Hf. rewrite andb_false_iff, !Z.leb_gt in Hf.
  destruct (Z.ltb_spec MaxConfigBytes (slength (Marshal (enc_Config c)))) as [Hl|Hl].
  - unfold DecodeConfig. destruct (limit_read _ _) as [d|] eqn:Hd; [|done]. cbn [mbind option_bind].
    unfold limit_read in Hd. cbn [rd_data bytes_reader] in Hd. rewrite (proj2 (Z.leb_le _ _)) in Hd by lia. apply (inj Some) in Hd as <-.
    unfold decodeEnvelope. rewrite (proj2 (Z.ltb_lt MaxConfigBytes _)); [done|].
    rewrite slength_stake by (by vm_compute). lia.
  - rewrite DecodeConfig_parts by (done || lia). unfold ShareConfig.Decode, NfsConfig.Decode.
    pose proof (DecodeInto_too_large ShareConfig.dec_Config (Marshal (ShareConfig.enc_Config (fc_Shares c)))
      ShareConfig.MaxInputBytes 8 ShareConfig.fields) as H1.
    pose proof (DecodeInto_too_large NfsConfig.dec_Policy (Marshal (NfsConfig.enc_Policy (fc_NFS c)))
      NfsConfig.MaxInputBytes 8 NfsConfig.fields) as H2.
    destruct (DecodeInto ShareConfig.dec_Config _ _ _ _) as [s|]; [|done].
    destruct (ShareConfig.Config_Validate s); [|done].
    destruct (DecodeInto NfsConfig.dec_Policy _ _ _ _) as [n|]; [|done]. destruct Hf as [Hf|Hf]; [by specialize (H1 Hf)|by specialize (H2 Hf)].
Qed.

Lemma DecodeConfig_sound input c : DecodeConfig input = Some c → wf c ∧ in_range c.
Proof.
  unfold DecodeConfig. intros Hd. repeat (apply bind_Some in Hd as (? & ? & Hd)).
  unfold decodePolicies in Hd. destruct (ShareConfig.Decode _) as [s|] eqn:Hs; [|done].
  destruct (NfsConfig.Decode _ _) as [n|] eqn:Hn; [|done].
  destruct (Config_Validate _) eqn:Hv; [|done]. apply (inj Some) in Hd as <-. split; [by apply Fs_Validate_wf|].
  apply ShareConfig.Shares_Decode_sound in Hs as [_ Hs]. apply NfsConfig.Nfs_Decode_sound in Hn as [_ Hn].
  split; [|done]. cbn [fc_Revision]. unfold Unmarshal in *.
  match goal with H : _ ≫= as_uint 64 = Some ?x |- _ ≤ ?x < _ => apply bind_Some in H as (w & _ & H); by apply (as_uint_range 64 w) end.
Qed.

(** ** Bindings *)
Lemma fold_pairs {A B M} (g : A → M → B → M) (es : list A) (vs : list B) m :
  fold_left (λ m e, fold_left (g e) vs m) es m = fold_left (λ m p, g p.1 m p.2) (es ≫= λ e, (e,.) <$> vs) m.
Proof.
  revert m. induction es as [|e es IH]; intros m; [done|]. cbn [fold_left mbind list_bind]. rewrite IH, fold_left_app. f_equal.
  clear IH. revert m. induction vs as [|v vs IH]; intros m; [done|]. cbn. apply IH.
Qed.

Section fold_insert.
Context {A V : Type} (hit : A → bool) (key : A → string) (val : A → V).
Let step (m : gmap string V) (x : A) := if hit x then <[key x := val x]> m else m.

Lemma fold_insert_sound l m k b : fold_left step l m !! k = Some b →
  (∃ x, x ∈ l ∧ hit x = true ∧ key x = k ∧ val x = b) ∨ m !! k = Some b.
Proof.
  revert m. induction l as [|x l IH]; intros m Hl; [by right|]. apply IH in Hl as [(y & Hy & ?)|Hl]; [left; exists y; set_solver|].
  unfold step in Hl. destruct (hit x) eqn:Hx; [|by right].
  destruct (decide (key x = k)) as [<-|Hk]; [rewrite lookup_insert_eq in Hl; left; exists x; set_solver|].
  rewrite lookup_insert_ne in Hl by done. by right.
Qed.

Lemma fold_insert_complete l m x : x ∈ l ∨ is_Some (m !! key x) → hit x = true → is_Some (fold_left step l m !! key x).
Proof.
  revert m. induction l as [|y l IH]; intros m [Hm|Hm] Hx; [set_solver|done|..]; apply IH; try done; unfold step.
  - apply elem_of_cons in Hm as [<-|Hm]; [right; rewrite Hx, lookup_insert_eq; by eexists|by left].
  - right. case_match; [|done]. destruct (decide (key y = key x)) as [->|]; [rewrite lookup_insert_eq; by eexists|by rewrite lookup_insert_ne].
Qed.
End fold_insert.

(** The source of the export [id]: its volume and its path. *)
Definition export_source (c : Config) (id : string) (v : ShareConfig.Volume) (p : string) : Prop :=
  ∃ e, e ∈ elems (NfsConfig.pol_Exports (fc_NFS c)) ∧ v ∈ elems (ShareConfig.cfg_Volumes (fc_Shares c))
    ∧ ShareConfig.vol_ID v = NfsConfig.ex_VolumeID e ∧ NfsConfig.ex_ID e = id ∧ NfsConfig.ex_RelativePath e = p.

Lemma export_source_unique c id v p v' p' : wf c → export_source c id v p → export_source c id v' p' → v = v' ∧ p = p'.
Proof.
  intros [] (e & He & Hv & Hev & <- & <-) (e' & He' & Hv' & Hev' & Hid & <-).
  assert (e' = e) as -> by (eapply (NoDup_fmap_inj NfsConfig.ex_ID); [apply wf_nfs0|..]; done).
  split; [|done]. eapply (NoDup_fmap_inj ShareConfig.vol_ID); [apply wf_shares0|done..|congruence].
Qed.

Lemma bindings_source c id b : wf c →
  bindings c !! id = Some b ↔ ∃ v p, export_source c id v p ∧ b = (ShareConfig.vol_ID v, ShareConfig.vol_FilesystemUUID v, p).
Proof.
  intros Hc. unfold bindings.
  rewrite (fold_pairs (λ e m v, if ShareConfig.vol_ID v == NfsConfig.ex_VolumeID e
     then <[NfsConfig.ex_ID e := (ShareConfig.vol_ID v, ShareConfig.vol_FilesystemUUID v, NfsConfig.ex_RelativePath e)]> m else m)).
  set (hit := λ p : NfsConfig.Export * ShareConfig.Volume, ShareConfig.vol_ID p.2 == NfsConfig.ex_VolumeID p.1).
  set (val := λ p : NfsConfig.Export * ShareConfig.Volume,
    (ShareConfig.vol_ID p.2, ShareConfig.vol_FilesystemUUID p.2, NfsConfig.ex_RelativePath p.1)).
  pose proof (fold_insert_sound hit (λ p, NfsConfig.ex_ID p.1) val) as HS.
  pose proof (fold_insert_complete hit (λ p, NfsConfig.ex_ID p.1) val) as HC.
  set (pairs := elems (NfsConfig.pol_Exports (fc_NFS c)) ≫= _) in *. set (m := fold_left _ pairs ∅) in *.
  assert (Hsound : ∀ b, m !! id = Some b → ∃ v p, export_source c id v p ∧ b = (ShareConfig.vol_ID v, ShareConfig.vol_FilesystemUUID v, p)).
  { intros b' Hb. apply HS in Hb as [([e v] & Hin & Hh & Hk & Hv)|Hb]; [|by rewrite lookup_empty in Hb].
    apply list_elem_of_bind in Hin as (e' & (v' & [= -> ->] & Hv')%list_elem_of_fmap & He').
    unfold hit in Hh. cbn in *. apply bool_decide_eq_true in Hh. exists v', (NfsConfig.ex_RelativePath e'). split; [by exists e'|done]. }
  split; [apply Hsound|]. intros (v & p & He & ->). pose proof He as (e & Hin & Hv & Hid & <- & <-).
  destruct (HC pairs ∅ (e, v)) as [b' Hb']; [left|by apply bool_decide_eq_true|].
  - apply list_elem_of_bind. exists e. split; [|done]. apply list_elem_of_fmap. by exists v.
  - fold m in Hb'. cbn [fst] in Hb'. destruct (Hsound _ Hb') as (v2 & p2 & He2 & ->).
    destruct (export_source_unique c _ _ _ _ _ Hc He He2) as [<- <-]. done.
Qed.

Lemma retained_bindings current next :
  ValidateRetainedNFSBindings current next = true ↔
  Config_Validate current = true ∧ Config_Validate next = true
  ∧ ∀ id v p v' p', export_source current id v p → export_source next id v' p' → v = v' ∧ p = p'.
Proof.
  unfold ValidateRetainedNFSBindings.
  destruct (Config_Validate current) eqn:H1; [|naive_solver]. destruct (Config_Validate next) eqn:H2; [|naive_solver].
  apply Fs_Validate_wf in H1, H2. cbn [negb orb]. rewrite forallb_forall. setoid_rewrite <- list_elem_of_In. split.
  - intros H. split_and!; [done..|]. intros id v p v' p' Hs Hs'.
    assert (Hb : bindings next !! id = Some (ShareConfig.vol_ID v', ShareConfig.vol_FilesystemUUID v', p')) by (apply bindings_source; eauto).
    apply elem_of_map_to_list, H in Hb. cbn [fst snd] in Hb.
    assert (Ho : bindings current !! id = Some (ShareConfig.vol_ID v, ShareConfig.vol_FilesystemUUID v, p)) by (apply bindings_source; eauto).
    rewrite Ho in Hb. apply bool_decide_eq_true in Hb. destruct v, v'. cbn in Hb. by simplify_eq.
  - intros (_ & _ & H) [id b'] Hb%elem_of_map_to_list. cbn [fst snd]. destruct (bindings current !! id) as [b|] eqn:Ho; [|done].
    apply bindings_source in Hb as (v' & p' & Hs' & ->); [|done]. apply bindings_source in Ho as (v & p & Hs & ->); [|done].
    destruct (H _ _ _ _ _ Hs Hs') as [-> ->]. by apply bool_decide_eq_true.
Qed.

(** Decoding the printed document at another revision. *)
Lemma DecodeConfig_rebase r c : wf c → in_range c → 0 < r < 2 ^ 64 →
  DecodeConfig (bytes_reader (Marshal (enc_Config (rebase r c)))) = if fits (rebase r c) then Some (rebase r c) else None.
Proof.
  intros Hc Hr Hb. destruct (fits _) eqn:Hf.
  - apply DecodeConfig_Marshal; [apply rebase_wf; (done || lia)|apply rebase_range; (done || lia)].
  - apply DecodeConfig_too_large; [|cbn [rebase fc_Revision]; lia|apply Hc|done].
    apply rebase_jwf; [by apply enc_FileConfig_wf|lia].
Qed.

Lemma next_revision_u64 expected : 0 ≤ expected < 2 ^ 64 → expected ≠ max_uint64 →
  u64_add expected 1 = expected + 1 ∧ 0 < expected + 1 < 2 ^ 64.
Proof. intros He Hn. unfold u64_add, wrap, max_uint64 in *. rewrite Z.mod_small; lia. Qed.

Lemma enc_Backup_wf c : wf c → in_range c → jwf (enc_Backup c) = true.
Proof. intros. unfold enc_Backup. rewrite enc_int_nonneg by lia. json_wf; [by vm_compute|by apply enc_FileConfig_wf]. Qed.

Lemma Backup_size c : wf c → in_range c → slength (Marshal (enc_Backup c)) ≤ MaxBackupBytes.
Proof.
  intros Hc Hr. pose proof (Config_size c Hc Hr) as Hl. rewrite slength_Marshal in Hl by (by apply enc_FileConfig_wf).
  rewrite slength_Marshal by (by apply enc_Backup_wf). unfold enc_Backup. rewrite enc_int_nonneg by lia.
  pose proof (uint_digits 1). unfold enc_uint. cbn [print map joined fst snd].
  unfold len in *. repeat progress rewrite ?length_app, ?length_cons. cbn [length]. quote_sizes. unfold MaxBackupBytes. lia.
Qed.

Lemma Restore_Marshal c expected : wf c → in_range c → expected ≠ max_uint64 →
  RestoreCandidate (Marshal (enc_Backup c)) expected
  = DecodeConfig (bytes_reader (Marshal (enc_Config (rebase (u64_add expected 1) c)))).
Proof.
  intros Hc Hr He. unfold RestoreCandidate. rewrite (proj2 (Z.eqb_neq _ _)) by done.
  unfold enc_Backup. rewrite RawEnvelope_Marshal; try done.
  - cbn [mbind option_bind fmap list_fmap fst snd]. unfold raw. map_fields.
    rewrite (Unmarshal_Marshal as_str) by (by vm_compute). rewrite as_str_enc. cbn [mbind option_bind].
    rewrite bool_decide_eq_true_2 by done. cbn [negb].
    rewrite (Unmarshal_Marshal as_int) by (by vm_compute). rewrite as_int_enc by lia. cbn [mbind option_bind].
    change (negb (1 =? 1)) with false. cbn iota. by rewrite DecodeConfig_Marshal.
  - apply (bool_decide_eq_true_1 _). by vm_compute.
  - cbn [fmap list_fmap fst]. apply (bool_decide_eq_true_1 _). by vm_compute.
  - by apply enc_Backup_wf.
  - by apply Backup_size.
  - change (strict 12 None 0 (enc_Backup c)). unfold enc_Backup. rewrite enc_int_nonneg by lia. json_strict.
    by apply strict_FileConfig.
Qed.

(** ** Properties *)

(** C19: backups round trip.  Every valid configuration whose numbers fit their
    types can be backed up; restoring the file over a store at revision
    [expected] gives back the same policy with every revision set to
    [expected + 1], refused exactly when the counter is exhausted or the longer
    revision takes a nested document over its own size limit. *)
Theorem backup_roundtrip c expected :
  Config_Validate c = true → in_range c → 0 ≤ expected < 2 ^ 64 →
  EncodeBackup c = Some (Marshal (enc_Backup c))
  ∧ RestoreCandidate (Marshal (enc_Backup c)) expected
    = if (expected =? max_uint64) || negb (fits (rebase (expected + 1) c)) then None else Some (rebase (expected + 1) c).
Proof.
  intros Hv Hr He. pose proof (proj1 (Fs_Validate_wf c) Hv) as Hc. split.
  - unfold EncodeBackup. rewrite Hv. cbn [negb]. rewrite DecodeConfig_Marshal by done. cbn [mbind option_bind].
    by rewrite (proj2 (Z.ltb_ge _ _)) by (by apply Backup_size).
  - destruct (Z.eqb_spec expected max_uint64) as [->|Hn]; [done|]. rewrite Restore_Marshal by done. cbn [orb].
    destruct (next_revision_u64 expected He Hn) as [-> Hb]. rewrite DecodeConfig_rebase by done. by destruct (fits _).
Qed.

Definition sample_config : Config := rebase 2 (mkConfig ConfigFormat 1 2 NfsConfig.sample_volumes NfsConfig.sample_policy).
Lemma sample_in_range : in_range sample_config.
Proof.
  split; [by vm_compute|]. split; [by vm_compute|]. split; [by vm_compute|]. split; [by vm_compute|].
  intros e He. apply list_elem_of_singleton in He as ->. intros c Hc.
  apply elem_of_cons in Hc as [->|Hc]; [split; cbn; lia|]. apply list_elem_of_singleton in Hc as ->. split; cbn; lia.
Qed.

Lemma backup_roundtrip_witness :
  Config_Validate sample_config = true ∧ RestoreCandidate (Marshal (enc_Backup sample_config)) 41 = Some (rebase 42 sample_config).
Proof.
  assert (Hv : Config_Validate sample_config = true) by (vm_compute; reflexivity). split; [exact Hv|].
  destruct (backup_roundtrip sample_config 41 Hv sample_in_range ltac:(lia)) as [_ H]. rewrite H. vm_compute. reflexivity.
Defined.

(** A restored candidate is safe to commit, whatever bytes were uploaded:
    it validates, its numbers fit their types, and its revision and the revisions
    of both nested documents are the successor of the expected one. *)
Theorem RestoreCandidate_sound data expected c :
  0 ≤ expected < 2 ^ 64 → RestoreCandidate data expected = Some c →
  Config_Validate c = true ∧ in_range c ∧ fc_Revision c = expected + 1
  ∧ ShareConfig.cfg_Revision (fc_Shares c) = expected + 1 ∧ NfsConfig.pol_Revision (fc_NFS c) = expected + 1
  ∧ NfsConfig.pol_VolumeRevision (fc_NFS c) = expected + 1 ∧ fits c = true.
Proof.
  intros He Hd. unfold RestoreCandidate in Hd. destruct (Z.eqb_spec expected max_uint64) as [->|Hn]; [done|].
  apply bind_Some in Hd as (? & _ & Hd). apply bind_Some in Hd as (? & _ & Hd). case_match; [done|].
  apply bind_Some in Hd as (? & _ & Hd). case_match; [done|]. apply bind_Some in Hd as (c0 & Hc0 & Hd).
  apply DecodeConfig_sound in Hc0 as [Hw Hr]. destruct (next_revision_u64 expected He Hn) as [Hu Hb]. rewrite Hu in Hd.
  rewrite DecodeConfig_rebase in Hd by done. destruct (fits _) eqn:Hf; [|done]. apply (inj Some) in Hd as <-.
  split_and!; try done; [apply Fs_Validate_wf, rebase_wf; (done || lia)|apply rebase_range; (done || lia)].
Qed.

Lemma RestoreCandidate_sound_witness :
  ∃ c, RestoreCandidate (Marshal (enc_Backup sample_config)) 41 = Some c ∧ fc_Revision c = 42.
Proof.
  destruct (RestoreCandidate (Marshal (enc_Backup sample_config)) 41) as [c|] eqn:Hc; [|vm_compute in Hc; discriminate].
  exists c. split; [reflexivity|]. destruct (RestoreCandidate_sound _ 41 c ltac:(lia) Hc) as (_ & _ & H & _). exact H.
Defined.

(** An export that is kept keeps its source.  Between two valid
    configurations, [ValidateRetainedNFSBindings] accepts exactly when every
    export identifier present in both refers to the same volume (identifier and
    filesystem UUID) and the same path. *)
Theorem retained_exports_keep_source current next :
  ValidateRetainedNFSBindings current next = true ↔
  Config_Validate current = true ∧ Config_Validate next = true
  ∧ ∀ id v p v' p', export_source current id v p → export_source next id v' p' → v = v' ∧ p = p'.
Proof. apply retained_bindings. Qed.
End FileService.
