(* ===== verification/IscsiPolicy.v ===== *)
(** * Desired iSCSI policy: [internal/iscsipolicy/policy.go]

    [Policy_Validate] is [Policy.Validate] with its nested loops over backings,
    targets, LUNs, initiators and grants; [wf_policy] is the contract it checks,
    stated without the loops.  [Decode] reads the wire structs, which tell a
    missing LUN number from the number 0, and validates. *)

From S2P Require Import Prelude GoStrings Utf8 ConfigJson GoJson Shares GoPath.
Import GoJson GoPath.

Module Iscsi.

Definition Format : string := "phantowd-iscsi-policy".
Definition SchemaVersion : Z := 1.
Definition MaxInputBytes : Z := 131072.
Definition MaxTargets : Z := 16.
Definition MaxBackings : Z := 64.
Definition MaxLUNs : Z := 16.
Definition MaxInitiators : Z := 32.

(** ** Data *)
Record Backing := mkBacking {
  bk_ID : string; bk_VolumeID : string; bk_RelativePath : string; bk_CapacityBytes : Z; bk_BlockSize : Z;
  bk_Allocation : string }.
Record LUN := mkLUN { lun_ID : string; lun_Number : Z; lun_BackingID : string; lun_Access : string }.
Record Authentication := mkAuth {
  au_Mode : string; au_InitiatorUser : string; au_InitiatorSecretRef : string; au_TargetUser : string;
  au_TargetSecretRef : string }.
Record Grant := mkGrant { gr_LUNID : string; gr_Access : string }.
Record Initiator := mkInitiator { in_Name : string; in_Authentication : Authentication; in_Grants : slice Grant }.
Record Target := mkTarget {
  tg_ID : string; tg_Name : string; tg_State : string; tg_LUNs : slice LUN; tg_Initiators : slice Initiator }.
Record Policy := mkPolicy {
  pol_Format : string; pol_SchemaVersion : Z; pol_Revision : Z; pol_VolumeRevision : Z;
  pol_Backings : slice Backing; pol_Targets : slice Target }.
#[export] Instance Backing_eq_dec : EqDecision Backing. Proof. solve_decision. Defined.
#[export] Instance LUN_eq_dec : EqDecision LUN. Proof. solve_decision. Defined.
#[export] Instance Authentication_eq_dec : EqDecision Authentication. Proof. solve_decision. Defined.
#[export] Instance Grant_eq_dec : EqDecision Grant. Proof. solve_decision. Defined.
#[export] Instance Initiator_eq_dec : EqDecision Initiator. Proof. solve_decision. Defined.
#[export] Instance Target_eq_dec : EqDecision Target. Proof. solve_decision. Defined.
#[export] Instance Policy_eq_dec : EqDecision Policy. Proof. solve_decision. Defined.

(** ** Syntax predicates *)
Definition access (s : string) : bool := (s == "ro") || (s == "rw").
Definition identifier_char (c : Z) : bool := is_lower c || is_digit c || (c =? 45).
Definition identifier (s : string) : bool :=
  if (slength s =? 0) || (64 <? slength s) || (byte_at s 0 <? 97) || (122 <? byte_at s 0) then false
  else forallb identifier_char (runes s).
Definition username_char (c : Z) : bool := is_lower c || is_upper c || is_digit c || in_set c "._-@".
Definition username (s : string) : bool :=
  if (slength s =? 0) || (128 <? slength s) then false else forallb username_char (runes s).
Definition filePath (s : string) : bool :=
  if (s == ".") || (slength s =? 0) || (1024 <? slength s) || negb (utf8_valid s) || negb (ValidPath s) || contains_any s "\:"
  then false
  else forallb (λ c, negb ((c <? 32) || (c =? 127))) (runes s).
Definition pathOverlap (a b : string) : bool :=
  (a == b) || has_prefix (String.append b "/") a || has_prefix (String.append a "/") b.

(** the loop over the labels of the domain *)
Definition label_ok (l : string) : bool :=
  if (slength l =? 0) || (63 <? slength l) || (byte_at l 0 =? 45) || ends_with 45 l then false
  else forallb identifier_char (runes l).
Definition suffix_char (c : Z) : bool := is_lower c || is_digit c || in_set c ".-:".
Definition iqn (s : string) : bool :=
  if (slength s <? 14) || (223 <? slength s) || negb (has_prefix "iqn." s) || negb (byte_at s 8 =? 45) || negb (byte_at s 11 =? 46)
  then false
  else if negb (forallb is_digit (runes (String.substring 4 4 s))) then false
  else if (String.substring 4 4 s == "0000") || (byte_at s 9 <? 48) || (49 <? byte_at s 9) || (byte_at s 10 <? 48)
          || (57 <? byte_at s 10) || negb (str_leb "01" (String.substring 9 2 s)) || negb (str_leb (String.substring 9 2 s) "12")
  then false
  else
    let '(domain, suffix, colon) := cut ":" (String.substring 12 (String.length s) s) in
    let labels := split_on "." domain in
    if len labels <? 2 then false
    else if negb (forallb label_ok labels) then false
    else if colon then (if suffix == "" then false else forallb suffix_char (runes suffix))
    else true.

(** [authentication]: the secrets in use after a permitted entry *)
Definition authentication (a : Authentication) (used : gset string) : option (gset string) :=
  if ((au_Mode a != "chap") && (au_Mode a != "mutual-chap")) || negb (username (au_InitiatorUser a))
     || negb (identifier (au_InitiatorSecretRef a)) || (au_InitiatorSecretRef a ∈? used)
  then None
  else if (if au_Mode a == "chap" then (au_TargetUser a != "") || (au_TargetSecretRef a != "")
           else negb (username (au_TargetUser a)) || negb (identifier (au_TargetSecretRef a))
                || (au_TargetSecretRef a == au_InitiatorSecretRef a) || (au_TargetSecretRef a ∈? used))
  then None
  else
    let used := {[au_InitiatorSecretRef a]} ∪ used in
    Some (if au_TargetSecretRef a != "" then {[au_TargetSecretRef a]} ∪ used else used).

(** ** Documents *)
Definition enc_Backing (b : Backing) : jval :=
  JObj [("id", JStr (bk_ID b)); ("volume_id", JStr (bk_VolumeID b)); ("relative_path", JStr (bk_RelativePath b));
        ("capacity_bytes", enc_uint (bk_CapacityBytes b)); ("block_size", enc_uint (bk_BlockSize b));
        ("allocation", JStr (bk_Allocation b))].
Definition enc_LUN (l : LUN) : jval :=
  JObj [("id", JStr (lun_ID l)); ("number", enc_uint (lun_Number l)); ("backing_id", JStr (lun_BackingID l));
        ("access", JStr (lun_Access l))].
Definition enc_Authentication (a : Authentication) : jval :=
  JObj ([("mode", JStr (au_Mode a)); ("initiator_user", JStr (au_InitiatorUser a));
         ("initiator_secret_ref", JStr (au_InitiatorSecretRef a))]
        ++ omit_empty "target_user" (au_TargetUser a) ++ omit_empty "target_secret_ref" (au_TargetSecretRef a)).
Definition enc_Grant (g : Grant) : jval := JObj [("lun_id", JStr (gr_LUNID g)); ("access", JStr (gr_Access g))].
Definition enc_Initiator (p : Initiator) : jval :=
  JObj [("name", JStr (in_Name p)); ("authentication", enc_Authentication (in_Authentication p));
        ("grants", enc_slice enc_Grant (in_Grants p))].
Definition enc_Target (t : Target) : jval :=
  JObj [("id", JStr (tg_ID t)); ("name", JStr (tg_Name t)); ("state", JStr (tg_State t));
        ("luns", enc_slice enc_LUN (tg_LUNs t)); ("initiators", enc_slice enc_Initiator (tg_Initiators t))].
Definition enc_Policy (p : Policy) : jval :=
  JObj [("format", JStr (pol_Format p)); ("schema_version", enc_int (pol_SchemaVersion p));
        ("revision", enc_uint (pol_Revision p)); ("volume_revision", enc_uint (pol_VolumeRevision p));
        ("backings", enc_slice enc_Backing (pol_Backings p)); ("targets", enc_slice enc_Target (pol_Targets p))].

Definition fields : list string :=
  ["format"; "schema_version"; "revision"; "volume_revision"; "backings"; "targets"; "id"; "volume_id"; "relative_path";
   "capacity_bytes"; "block_size"; "allocation"; "name"; "state"; "luns"; "number"; "backing_id"; "access"; "initiators";
   "authentication"; "mode"; "initiator_user"; "initiator_secret_ref"; "target_user"; "target_secret_ref"; "grants"; "lun_id"].

(** the wire structs, whose own fields shadow those of the embedded ones *)
Record wireLUN := mkWireLUN { wl_LUN : LUN; wl_Number : option Z }.
Record wireTarget := mkWireTarget { wt_Target : Target; wt_LUNs : slice wireLUN }.
Record wirePolicy := mkWirePolicy { wp_Policy : Policy; wp_Targets : slice wireTarget }.

Definition dec_Backing : jval → option Backing :=
  as_struct ["id"; "volume_id"; "relative_path"; "capacity_bytes"; "block_size"; "allocation"] (mkBacking "" "" "" 0 0 "") (λ ms,
  i ← fld "id" as_str "" ms; v ← fld "volume_id" as_str "" ms; r ← fld "relative_path" as_str "" ms;
  c ← fld "capacity_bytes" (as_uint 64) 0 ms; b ← fld "block_size" (as_uint 16) 0 ms;
  a ← fld "allocation" as_str "" ms; Some (mkBacking i v r c b a)).
Definition dec_wireLUN : jval → option wireLUN :=
  as_struct ["id"; "number"; "backing_id"; "access"] (mkWireLUN (mkLUN "" 0 "" "") None) (λ ms,
  i ← fld "id" as_str "" ms; n ← fld "number" (as_ptr (as_uint 16)) None ms; b ← fld "backing_id" as_str "" ms;
  a ← fld "access" as_str "" ms; Some (mkWireLUN (mkLUN i 0 b a) n)).
Definition zero_auth : Authentication := mkAuth "" "" "" "" "".
Definition dec_Authentication : jval → option Authentication :=
  as_struct ["mode"; "initiator_user"; "initiator_secret_ref"; "target_user"; "target_secret_ref"] zero_auth (λ ms,
  m ← fld "mode" as_str "" ms; u ← fld "initiator_user" as_str "" ms; s ← fld "initiator_secret_ref" as_str "" ms;
  t ← fld "target_user" as_str "" ms; r ← fld "target_secret_ref" as_str "" ms; Some (mkAuth m u s t r)).
Definition dec_Grant : jval → option Grant :=
  as_struct ["lun_id"; "access"] (mkGrant "" "") (λ ms,
  l ← fld "lun_id" as_str "" ms; a ← fld "access" as_str "" ms; Some (mkGrant l a)).
Definition dec_Initiator : jval → option Initiator :=
  as_struct ["name"; "authentication"; "grants"] (mkInitiator "" zero_auth None) (λ ms,
  n ← fld "name" as_str "" ms; a ← fld "authentication" dec_Authentication zero_auth ms;
  g ← fld "grants" (as_slice dec_Grant) None ms; Some (mkInitiator n a g)).
Definition dec_wireTarget : jval → option wireTarget :=
  as_struct ["id"; "name"; "state"; "luns"; "initiators"] (mkWireTarget (mkTarget "" "" "" None None) None) (λ ms,
  i ← fld "id" as_str "" ms; n ← fld "name" as_str "" ms; s ← fld "state" as_str "" ms;
  l ← fld "luns" (as_slice dec_wireLUN) None ms; p ← fld "initiators" (as_slice dec_Initiator) None ms;
  Some (mkWireTarget (mkTarget i n s None p) l)).
Definition dec_wirePolicy : jval → option wirePolicy :=
  as_struct ["format"; "schema_version"; "revision"; "volume_revision"; "backings"; "targets"]
    (mkWirePolicy (mkPolicy "" 0 0 0 None None) None) (λ ms,
  f ← fld "format" as_str "" ms; s ← fld "schema_version" as_int 0 ms; r ← fld "revision" (as_uint 64) 0 ms;
  v ← fld "volume_revision" (as_uint 64) 0 ms; b ← fld "backings" (as_slice dec_Backing) None ms;
  t ← fld "targets" (as_slice dec_wireTarget) None ms; Some (mkWirePolicy (mkPolicy f s r v b None) t)).

(** ** Validation; every failure is the one error [ErrInvalid] *)
Abbreviation invalid := tt.
Definition backing_step (known : gset string) (_ : Z) (st : gset string * list Backing) (b : Backing) :
  res unit (gset string * list Backing) :=
  let '(backings, earlier) := st in
  refuse negb (identifier (bk_ID b)) || (bk_ID b ∈? backings) || negb (bk_VolumeID b ∈? known) || negb (filePath (bk_RelativePath b))
         || (negb (bk_BlockSize b =? 512) && negb (bk_BlockSize b =? 4096)) || (bk_CapacityBytes b <? bk_BlockSize b)
         || (max_int64 <? bk_CapacityBytes b) || negb (bk_CapacityBytes b mod bk_BlockSize b =? 0)
         || ((bk_Allocation b != "preallocated") && (bk_Allocation b != "sparse")) => invalid ;;
  refuse existsb (λ old, (bk_VolumeID old == bk_VolumeID b) && pathOverlap (bk_RelativePath old) (bk_RelativePath b)) earlier => invalid ;;
  Ok ({[bk_ID b]} ∪ backings, earlier ++ [b]).

Record lun_state := mkLuns {
  ls_lunIDs : gset string; ls_numbers : gset Z; ls_usedBackings : gset string; ls_localLUNs : gmap string string }.
Definition lun_step (backings : gset string) (_ : Z) (st : lun_state) (l : LUN) : res unit lun_state :=
  refuse negb (identifier (lun_ID l)) || (lun_ID l ∈? ls_lunIDs st) || (lun_Number l ∈? ls_numbers st)
         || negb (lun_BackingID l ∈? backings) || (lun_BackingID l ∈? ls_usedBackings st) || negb (access (lun_Access l)) => invalid ;;
  Ok (mkLuns ({[lun_ID l]} ∪ ls_lunIDs st) ({[lun_Number l]} ∪ ls_numbers st)
        ({[lun_BackingID l]} ∪ ls_usedBackings st) (<[lun_ID l := lun_Access l]> (ls_localLUNs st))).

Definition grant_step (localLUNs : gmap string string) (_ : Z) (granted : gset string) (g : Grant) : res unit (gset string) :=
  match localLUNs !! gr_LUNID g with
  | None => Err invalid
  | Some mode =>
    refuse (gr_LUNID g ∈? granted) || negb (access (gr_Access g)) || ((mode == "ro") && (gr_Access g != "ro")) => invalid ;;
    Ok ({[gr_LUNID g]} ∪ granted)
  end.

Definition peer_step (localLUNs : gmap string string) (_ : Z) (st : gset string * gset string) (p : Initiator) :
  res unit (gset string * gset string) :=
  let '(initiators, secrets) := st in
  refuse negb (iqn (in_Name p)) || (in_Name p ∈? initiators) => invalid ;;
  match authentication (in_Authentication p) secrets with
  | None => Err invalid
  | Some secrets =>
    refuse (slen (in_Grants p) =? 0) || (MaxLUNs <? slen (in_Grants p)) => invalid ;;
    _ ← for_range (grant_step localLUNs) 0 ∅ (elems (in_Grants p));
    Ok ({[in_Name p]} ∪ initiators, secrets)
  end.

Record target_state := mkTargets {
  ts_targetIDs : gset string; ts_names : gset string; ts_lunIDs : gset string; ts_usedBackings : gset string;
  ts_secrets : gset string }.
Definition target_step (backings : gset string) (_ : Z) (st : target_state) (t : Target) : res unit target_state :=
  refuse negb (identifier (tg_ID t)) || (tg_ID t ∈? ts_targetIDs st) || negb (iqn (tg_Name t)) || (tg_Name t ∈? ts_names st)
         || ((tg_State t != "disabled") && (tg_State t != "enabled")) || (slen (tg_LUNs t) =? 0) || (MaxLUNs <? slen (tg_LUNs t))
         || (slen (tg_Initiators t) =? 0) || (MaxInitiators <? slen (tg_Initiators t)) => invalid ;;
  luns ← for_range (lun_step backings) 0 (mkLuns (ts_lunIDs st) ∅ (ts_usedBackings st) ∅) (elems (tg_LUNs t));
  '(_, secrets) ← for_range (peer_step (ls_localLUNs luns)) 0 (∅, ts_secrets st) (elems (tg_Initiators t));
  Ok (mkTargets ({[tg_ID t]} ∪ ts_targetIDs st) ({[tg_Name t]} ∪ ts_names st) (ls_lunIDs luns) (ls_usedBackings luns) secrets).

Definition Policy_Validate (p : Policy) (volumes : ShareConfig.Config) : res unit unit :=
  refuse negb (is_ok (ShareConfig.Config_Validate volumes)) || (pol_Format p != Format) || negb (pol_SchemaVersion p =? SchemaVersion)
         || (pol_Revision p =? 0) || negb (pol_VolumeRevision p =? ShareConfig.cfg_Revision volumes)
         || is_nil (pol_Backings p) || is_nil (pol_Targets p) || (MaxBackings <? slen (pol_Backings p))
         || (MaxTargets <? slen (pol_Targets p)) => invalid ;;
  let known := list_to_set (ShareConfig.vol_ID <$> elems (ShareConfig.cfg_Volumes volumes)) in
  '(backings, _) ← for_range (backing_step known) 0 (∅, []) (elems (pol_Backings p));
  st ← for_range (target_step backings) 0 (mkTargets ∅ ∅ ∅ ∅ ∅) (elems (pol_Targets p));
  refuse negb (size (ts_usedBackings st) =? size backings)%nat => invalid ;;
  refuse MaxInputBytes <? slength (Marshal (enc_Policy p)) => invalid ;;
  Ok tt.

(** ** Decoding *)
Definition unwire_LUN (l : wireLUN) : option LUN :=
  n ← wl_Number l; Some (mkLUN (lun_ID (wl_LUN l)) n (lun_BackingID (wl_LUN l)) (lun_Access (wl_LUN l))).
Definition unwire_Target (t : wireTarget) : option Target :=
  luns ← wt_LUNs t; luns ← mapM unwire_LUN luns;
  let target := wt_Target t in
  Some (mkTarget (tg_ID target) (tg_Name target) (tg_State target) (Some luns) (tg_Initiators target)).
Definition Decode (input : reader) (volumes : ShareConfig.Config) : option Policy :=
  match DecodeInto dec_wirePolicy input MaxInputBytes 9 fields with
  | Err _ => None
  | Ok w =>
    targets ← wp_Targets w; targets ← mapM unwire_Target targets;
    let p := wp_Policy w in
    let p := mkPolicy (pol_Format p) (pol_SchemaVersion p) (pol_Revision p) (pol_VolumeRevision p) (pol_Backings p) (Some targets) in
    if is_ok (Policy_Validate p volumes) then Some p else None
  end.

(** ** The contract *)
Record good_backing (known : gset string) (b : Backing) : Prop := {
  gb_id : identifier (bk_ID b) = true;
  gb_volume : bk_VolumeID b ∈ known;
  gb_path : filePath (bk_RelativePath b) = true;
  gb_block : bk_BlockSize b = 512 ∨ bk_BlockSize b = 4096;
  gb_capacity : bk_BlockSize b ≤ bk_CapacityBytes b ≤ max_int64 ∧ (bk_BlockSize b | bk_CapacityBytes b);
  gb_allocation : bk_Allocation b = "preallocated" ∨ bk_Allocation b = "sparse" }.
(** two backing files of one volume, neither below the other *)
Definition backings_apart (b c : Backing) : Prop :=
  bk_VolumeID b = bk_VolumeID c → ¬ path_nested (bk_RelativePath b) (bk_RelativePath c).

Definition good_access (a : string) : Prop := a = "ro" ∨ a = "rw".
Definition good_lun (backings : gset string) (l : LUN) : Prop :=
  identifier (lun_ID l) = true ∧ lun_BackingID l ∈ backings ∧ good_access (lun_Access l).
(** a grant names a LUN of the target and does not widen its access *)
Definition good_grant (luns : list LUN) (g : Grant) : Prop :=
  good_access (gr_Access g) ∧ ∃ l, l ∈ luns ∧ lun_ID l = gr_LUNID g ∧ (lun_Access l = "ro" → gr_Access g = "ro").

(** the secrets an entry refers to *)
Definition secrets_of (a : Authentication) : list string :=
  au_InitiatorSecretRef a :: (if au_TargetSecretRef a == "" then [] else [au_TargetSecretRef a]).
Definition good_auth (a : Authentication) : Prop :=
  username (au_InitiatorUser a) = true ∧ identifier (au_InitiatorSecretRef a) = true
  ∧ (au_Mode a = "chap" ∧ au_TargetUser a = "" ∧ au_TargetSecretRef a = ""
     ∨ au_Mode a = "mutual-chap" ∧ username (au_TargetUser a) = true ∧ identifier (au_TargetSecretRef a) = true
       ∧ au_TargetSecretRef a ≠ au_InitiatorSecretRef a).
Record good_peer (luns : list LUN) (p : Initiator) : Prop := {
  gp_name : iqn (in_Name p) = true;
  gp_auth : good_auth (in_Authentication p);
  gp_count : 1 ≤ slen (in_Grants p) ≤ MaxLUNs;
  gp_grants : Forall (good_grant luns) (elems (in_Grants p));
  gp_once : NoDup (gr_LUNID <$> elems (in_Grants p)) }.
Definition target_secrets (t : Target) : list string := elems (tg_Initiators t) ≫= λ p, secrets_of (in_Authentication p).
Definition target_luns (t : Target) : list string := lun_ID <$> elems (tg_LUNs t).
Definition target_backings (t : Target) : list string := lun_BackingID <$> elems (tg_LUNs t).
Record good_target (backings : gset string) (t : Target) : Prop := {
  gt_id : identifier (tg_ID t) = true;
  gt_name : iqn (tg_Name t) = true;
  gt_state : tg_State t = "disabled" ∨ tg_State t = "enabled";
  gt_counts : 1 ≤ slen (tg_LUNs t) ≤ MaxLUNs ∧ 1 ≤ slen (tg_Initiators t) ≤ MaxInitiators;
  gt_luns : Forall (good_lun backings) (elems (tg_LUNs t));
  gt_numbers : NoDup (lun_Number <$> elems (tg_LUNs t));
  gt_peers : Forall (good_peer (elems (tg_LUNs t))) (elems (tg_Initiators t));
  gt_peer_names : NoDup (in_Name <$> elems (tg_Initiators t)) }.

Definition backing_ids (p : Policy) : list string := bk_ID <$> elems (pol_Backings p).
Record wf_policy (volumes : ShareConfig.Config) (p : Policy) : Prop := {
  wp_volumes : ShareConfig.wf_config volumes;
  wp_format : pol_Format p = Format;
  wp_schema : pol_SchemaVersion p = SchemaVersion;
  wp_revision : pol_Revision p ≠ 0;
  wp_bound : pol_VolumeRevision p = ShareConfig.cfg_Revision volumes;
  wp_present : is_nil (pol_Backings p) = false ∧ is_nil (pol_Targets p) = false;
  wp_counts : slen (pol_Backings p) ≤ MaxBackings ∧ slen (pol_Targets p) ≤ MaxTargets;
  wp_backings : Forall (good_backing (ShareConfig.volume_ids volumes)) (elems (pol_Backings p));
  wp_backing_ids : NoDup (backing_ids p);
  wp_apart : ForallOrdPairs backings_apart (elems (pol_Backings p));
  wp_targets : Forall (good_target (list_to_set (backing_ids p))) (elems (pol_Targets p));
  wp_target_ids : NoDup (tg_ID <$> elems (pol_Targets p));
  wp_target_names : NoDup (tg_Name <$> elems (pol_Targets p));
  wp_lun_ids : NoDup (elems (pol_Targets p) ≫= target_luns);
  (** every backing is presented by exactly one LUN *)
  wp_exported : (elems (pol_Targets p) ≫= target_backings) ≡ₚ backing_ids p;
  (** no CHAP secret is used twice *)
  wp_secrets : NoDup (elems (pol_Targets p) ≫= target_secrets);
  wp_size : slength (Marshal (enc_Policy p)) ≤ MaxInputBytes }.

(** ** The loops *)
Lemma access_spec a : access a = true ↔ good_access a.
Proof. unfold access, good_access. go_bool. done. Qed.

Lemma filePath_spec s : filePath s = true → s ≠ "." ∧ ValidPath s = true ∧ utf8_valid s = true.
Proof.
  unfold filePath. destruct (s == ".") eqn:Hd, (ValidPath s), (utf8_valid s); cbn [orb negb]; rewrite ?orb_true_r; try done.
  by go_bool in Hd.
Qed.

Lemma pathOverlap_nested a b : filePath a = true → filePath b = true → (pathOverlap a b = true ↔ path_nested a b).
Proof.
  intros (Ha & _)%filePath_spec (Hb & _)%filePath_spec. change (pathOverlap a b) with (nested a b).
  rewrite nested_split. unfold path_nested, components. by rewrite !bool_decide_eq_false_2 by done.
Qed.

Definition overlapping (old b : Backing) : bool :=
  (bk_VolumeID old == bk_VolumeID b) && pathOverlap (bk_RelativePath old) (bk_RelativePath b).
Definition backing_add (st : gset string * list Backing) (b : Backing) : gset string * list Backing :=
  ({[bk_ID b]} ∪ st.1, st.2 ++ [b]).

Lemma backing_step_Ok known i st b st' : backing_step known i st b = Ok st' ↔
  good_backing known b ∧ (bk_ID b ∉ st.1 ∧ Forall (λ o, overlapping o b = false) st.2) ∧ st' = backing_add st b.
Proof.
  unfold backing_step, backing_add, overlapping. destruct st as [ids earlier]. cbn [fst snd].
  rewrite !refuse_Ok, existsb_False, Forall_forall.
  rewrite !orb_false_iff, !negb_false_iff, !andb_false_iff, !negb_false_iff, !bool_decide_eq_true, bool_decide_eq_false,
    !Z.eqb_eq, !Z.ltb_ge. split.
  - intros (Hc & ? & [= <-]). split_hyps. split; [|done].
    split; try done. split; [lia|]. apply Z.mod_divide; [lia|done].
  - intros ([? ? ? ? [? Hd] ?] & [? ?] & ->). split; [|done]. split_and!; try done; try lia. apply Z.mod_divide; [lia|done].
Qed.

Lemma backings_Ok known l st : for_range (backing_step known) 0 (∅, []) l = Ok st ↔
  Forall (good_backing known) l ∧ NoDup (bk_ID <$> l) ∧ ForallOrdPairs backings_apart l
  ∧ st = (list_to_set (bk_ID <$> l), l).
Proof.
  rewrite (for_range_chain backing_add _ (good_backing known) _) by (intros; apply backing_step_Ok).
  rewrite chain_and, (chain_key _ fst bk_ID) by done.
  rewrite (chain_proj backing_add (λ s b, s ++ [b]) snd (λ s b, Forall (λ o, overlapping o b = false) s)) by done.
  rewrite (chain_pairs id (λ o b, overlapping o b = false)). cbn [fst snd]. unfold id.
  pose proof (not_elem_of_empty_all bk_ID l) as Hid. pose proof (Forall_nil_2 (λ y, Forall (λ x, overlapping y x = false) l)) as Hnil.
  assert (Hst : fold_left backing_add l (∅, []) = (list_to_set (bk_ID <$> l), l)).
  { rewrite (surjective_pairing (fold_left _ _ _)), (fold_key _ fst bk_ID), (fold_snoc backing_add snd id) by done.
    cbn [fst snd]. by rewrite (right_id_L ∅ (∪)), list_fmap_id. }
  rewrite Hst.
  assert (Hiff : Forall (good_backing known) l → ForallOrdPairs (λ o b, overlapping o b = false) l ↔ ForallOrdPairs backings_apart l).
  { apply ForallOrdPairs_iff. intros o b [] []. unfold overlapping, backings_apart.
    rewrite andb_false_iff, bool_decide_eq_false, <- (not_true_iff_false (pathOverlap _ _)), pathOverlap_nested by done.
    destruct (decide (bk_VolumeID o = bk_VolumeID b)); naive_solver. }
  split; intros (HF & Hrest); (split; [done|]); specialize (Hiff HF); naive_solver.
Qed.

Definition lun_add (st : lun_state) (l : LUN) : lun_state :=
  mkLuns ({[lun_ID l]} ∪ ls_lunIDs st) ({[lun_Number l]} ∪ ls_numbers st)
    ({[lun_BackingID l]} ∪ ls_usedBackings st) (<[lun_ID l := lun_Access l]> (ls_localLUNs st)).

Lemma lun_step_Ok backings i st l st' : lun_step backings i st l = Ok st' ↔
  good_lun backings l
  ∧ (lun_ID l ∉ ls_lunIDs st ∧ lun_Number l ∉ ls_numbers st ∧ lun_BackingID l ∉ ls_usedBackings st) ∧ st' = lun_add st l.
Proof.
  unfold lun_step, good_lun, lun_add. rewrite refuse_Ok, !orb_false_iff, !negb_false_iff, !bool_decide_eq_false,
    bool_decide_eq_true, access_spec. naive_solver.
Qed.

(** The LUNs of one target, started with the identifiers and backings in use. *)
Lemma luns_Ok backings ids used l st : for_range (lun_step backings) 0 (mkLuns ids ∅ used ∅) l = Ok st ↔
  (Forall (good_lun backings) l ∧ NoDup (lun_Number <$> l) ∧ NoDup (lun_ID <$> l) ∧ NoDup (lun_BackingID <$> l))
  ∧ (∀ x, x ∈ l → lun_ID x ∉ ids ∧ lun_BackingID x ∉ used) ∧ st = fold_left lun_add l (mkLuns ids ∅ used ∅).
Proof.
  rewrite (for_range_chain lun_add _ (good_lun backings) _) by (intros; apply lun_step_Ok).
  rewrite !chain_and, (chain_key _ ls_lunIDs lun_ID), (chain_key _ ls_numbers lun_Number),
    (chain_key _ ls_usedBackings lun_BackingID) by done.
  cbn [ls_lunIDs ls_numbers ls_usedBackings]. pose proof (not_elem_of_empty_all lun_Number l). naive_solver.
Qed.

Lemma luns_state l ids used : let st := fold_left lun_add l (mkLuns ids ∅ used ∅) in
  ls_lunIDs st = list_to_set (lun_ID <$> l) ∪ ids ∧ ls_usedBackings st = list_to_set (lun_BackingID <$> l) ∪ used
  ∧ (NoDup (lun_ID <$> l) → ∀ k a, ls_localLUNs st !! k = Some a ↔ ∃ x, x ∈ l ∧ lun_ID x = k ∧ lun_Access x = a).
Proof.
  cbn zeta. rewrite (fold_key _ ls_lunIDs lun_ID), (fold_key _ ls_usedBackings lun_BackingID) by done.
  cbn [ls_lunIDs ls_usedBackings]. split_and!; [done..|]. intros HN k a.
  assert (Hm : ∀ st, ls_localLUNs (fold_left lun_add l st)
    = fold_left (λ m x, <[lun_ID x := lun_Access x]> m) l (ls_localLUNs st)).
  { clear. induction l as [|x l IH]; intros st; [done|]. cbn [fold_left]. by rewrite IH. }
  rewrite Hm, fold_insert_lookup by done. cbn [ls_localLUNs]. rewrite lookup_empty. naive_solver.
Qed.

Lemma peer_grants_Ok local luns l st :
  (∀ k a, local !! k = Some a ↔ ∃ x, x ∈ luns ∧ lun_ID x = k ∧ lun_Access x = a) →
  for_range (grant_step local) 0 ∅ l = Ok st ↔
  Forall (good_grant luns) l ∧ NoDup (gr_LUNID <$> l) ∧ st = fold_left (λ s g, {[gr_LUNID g]} ∪ s) l ∅.
Proof.
  intros Hl. assert (HN : ∀ k, local !! k = None → ∀ x, x ∈ luns → lun_ID x ≠ k).
  { intros k Hk x Hx <-. assert (local !! lun_ID x = Some (lun_Access x)) by (apply Hl; by exists x). congruence. }
  assert (HU : ∀ x y, x ∈ luns → y ∈ luns → lun_ID x = lun_ID y → lun_Access x = lun_Access y).
  { intros x y Hx Hy He. assert (H1 : local !! lun_ID x = Some (lun_Access x)) by (apply Hl; by exists x).
    assert (H2 : local !! lun_ID y = Some (lun_Access y)) by (apply Hl; by exists y). congruence. }
  rewrite (for_range_chain (λ s g, {[gr_LUNID g]} ∪ s) _ (good_grant luns) (λ s g, gr_LUNID g ∉ s)).
  - rewrite (chain_key _ id gr_LUNID) by done. pose proof (not_elem_of_empty_all gr_LUNID l). naive_solver.
  - intros j s g s'. unfold grant_step, good_grant. destruct (local !! gr_LUNID g) as [mode|] eqn:Hg; [|naive_solver].
    apply Hl in Hg as (x & Hx & Hid & Ha).
    rewrite refuse_Ok, !orb_false_iff, negb_false_iff, access_spec, bool_decide_eq_false, andb_false_iff, negb_false_iff,
      bool_decide_eq_true, bool_decide_eq_false.
    assert (Hro : (∃ l, l ∈ luns ∧ lun_ID l = gr_LUNID g ∧ (lun_Access l = "ro" → gr_Access g = "ro")) ↔ (mode ≠ "ro" ∨ gr_Access g = "ro")).
    { split; [intros (y & Hy & Hyid & Hya)|intros Hc].
      - rewrite <- Ha, (HU x y) by congruence. destruct (decide (lun_Access y = "ro")); naive_solver.
      - exists x. rewrite Ha. destruct Hc; naive_solver. }
    rewrite Hro. naive_solver.
Qed.

Lemma authentication_Some a used used' : authentication a used = Some used' ↔
  good_auth a ∧ (∀ x, x ∈ secrets_of a → x ∉ used) ∧ used' = list_to_set (secrets_of a) ∪ used.
Proof.
  unfold authentication, good_auth, secrets_of.
  rewrite !guard_Some, !orb_false_iff, !negb_false_iff, andb_false_iff, !negb_false_iff, !bool_decide_eq_true, bool_decide_eq_false.
  assert (Hset : (if au_TargetSecretRef a != "" then {[au_TargetSecretRef a]} ∪ ({[au_InitiatorSecretRef a]} ∪ used)
                  else {[au_InitiatorSecretRef a]} ∪ used)
    = list_to_set (au_InitiatorSecretRef a :: (if au_TargetSecretRef a == "" then [] else [au_TargetSecretRef a])) ∪ used).
  { case_bool_decide; cbn [negb]; set_solver. }
  rewrite Hset. clear Hset. destruct (decide (au_Mode a = "chap")) as [Hm|Hm].
  - rewrite (bool_decide_eq_true_2 _ Hm), Hm, orb_false_iff, !negb_false_iff, !bool_decide_eq_true. split.
    + intros ((((_ & ?) & ?) & ?) & [? Hs] & [= <-]). rewrite Hs in *. set_solver.
    + intros ((? & ? & [(_ & ? & Hs)|[? _]]) & Hd & ->); [|done]. rewrite Hs in *. split_and!; try done; [by left|set_solver].
  - rewrite (bool_decide_eq_false_2 _ Hm), !orb_false_iff, !negb_false_iff, !bool_decide_eq_false.
    assert (Hne : identifier (au_TargetSecretRef a) = true → au_TargetSecretRef a ≠ "") by (by intros H Hz; rewrite Hz in H).
    split.
    + intros ((((Hmode & ?) & ?) & ?) & (((? & Hid) & ?) & ?) & [= <-]).
      rewrite (bool_decide_eq_false_2 _ (Hne Hid)) in *. destruct Hmode; [done|]. split; [naive_solver|]. set_solver.
    + intros ((? & ? & [(? & _)|(? & ? & Hid & ?)]) & Hd & ->); [done|].
      rewrite (bool_decide_eq_false_2 _ (Hne Hid)) in *. split_and!; try done; [by right|set_solver..].
Qed.

Definition peer_add (st : gset string * gset string) (p : Initiator) : gset string * gset string :=
  ({[in_Name p]} ∪ st.1, list_to_set (secrets_of (in_Authentication p)) ∪ st.2).

Lemma secrets_NoDup a : good_auth a → NoDup (secrets_of a).
Proof.
  intros (_ & _ & H). unfold secrets_of. case_bool_decide as Hz; [apply NoDup_singleton|].
  destruct H as [(_ & _ & ?)|(_ & _ & _ & Hne)]; [done|]. apply NoDup_cons. split; [set_solver|apply NoDup_singleton].
Qed.

Section peers.
Context (luns : list LUN) (local : gmap string string).
Hypothesis Hlocal : ∀ k a, local !! k = Some a ↔ ∃ x, x ∈ luns ∧ lun_ID x = k ∧ lun_Access x = a.

Lemma peer_step_Ok i st p st' : peer_step local i st p = Ok st' ↔
  good_peer luns p ∧ (in_Name p ∉ st.1 ∧ ∀ x, x ∈ secrets_of (in_Authentication p) → x ∉ st.2) ∧ st' = peer_add st p.
Proof using Hlocal.
  unfold peer_step, peer_add. destruct st as [ns secrets]. cbn [fst snd].
  rewrite refuse_Ok, orb_false_iff, negb_false_iff, bool_decide_eq_false.
  assert (0 ≤ slen (in_Grants p)) by (unfold slen, len; lia).
  destruct (authentication (in_Authentication p) secrets) as [used|] eqn:Ha.
  - apply authentication_Some in Ha as (Hg & Hf & ->).
    rewrite refuse_Ok, orb_false_iff, Z.eqb_neq, Z.ltb_ge, res_bind_Ok. setoid_rewrite (peer_grants_Ok local luns _ _ Hlocal). split.
    + intros ((? & ?) & (? & ?) & (? & (? & ? & _) & [= <-])). split; [|done]. split; try done. lia.
    + intros ([? ? [? ?] ? ?] & [? ?] & ->). split; [done|]. split; [lia|]. by eexists.
  - split; [naive_solver|]. intros ([? Hg ? ? ?] & [? Hd] & _). exfalso.
    pose proof (proj2 (authentication_Some _ secrets _) (conj Hg (conj Hd eq_refl))). congruence.
Qed.

Lemma peers_Ok secrets l st : for_range (peer_step local) 0 (∅, secrets) l = Ok st ↔
  (Forall (good_peer luns) l ∧ NoDup (in_Name <$> l) ∧ NoDup (l ≫= λ p, secrets_of (in_Authentication p)))
  ∧ (∀ x, x ∈ l ≫= (λ p, secrets_of (in_Authentication p)) → x ∉ secrets) ∧ st = fold_left peer_add l (∅, secrets).
Proof using Hlocal.
  rewrite (for_range_chain peer_add _ (good_peer luns) _) by (intros; apply peer_step_Ok).
  rewrite chain_and, (chain_key _ fst in_Name) by done.
  pose proof (chain_keys peer_add snd (λ p, secrets_of (in_Authentication p)) (∅, secrets) l ltac:(done)) as Hk.
  cbn [fst snd] in *. pose proof (not_elem_of_empty_all in_Name l).
  assert (Forall (good_peer luns) l → Forall (λ p, NoDup (secrets_of (in_Authentication p))) l).
  { intros HF. eapply Forall_impl; [done|]. intros p []. by apply secrets_NoDup. }
  naive_solver.
Qed.
End peers.

Definition target_add (st : target_state) (t : Target) : target_state :=
  mkTargets ({[tg_ID t]} ∪ ts_targetIDs st) ({[tg_Name t]} ∪ ts_names st) (list_to_set (target_luns t) ∪ ts_lunIDs st)
    (list_to_set (target_backings t) ∪ ts_usedBackings st) (list_to_set (target_secrets t) ∪ ts_secrets st).
Definition target_fresh (st : target_state) (t : Target) : Prop :=
  (tg_ID t ∉ ts_targetIDs st ∧ tg_Name t ∉ ts_names st)
  ∧ (∀ x, x ∈ target_luns t → x ∉ ts_lunIDs st) ∧ (∀ x, x ∈ target_backings t → x ∉ ts_usedBackings st)
  ∧ ∀ x, x ∈ target_secrets t → x ∉ ts_secrets st.
Definition unique_target (t : Target) : Prop := NoDup (target_luns t) ∧ NoDup (target_backings t) ∧ NoDup (target_secrets t).

Lemma target_step_Ok backings i st t st' : target_step backings i st t = Ok st' ↔
  (good_target backings t ∧ unique_target t) ∧ target_fresh st t ∧ st' = target_add st t.
Proof.
  unfold target_step. rewrite refuse_Ok, res_bind_Ok. setoid_rewrite res_bind_Ok. setoid_rewrite luns_Ok.
  rewrite !orb_false_iff, !negb_false_iff, andb_false_iff, !negb_false_iff, !bool_decide_eq_true, !bool_decide_eq_false, !Z.eqb_neq, !Z.ltb_ge.
  assert (0 ≤ slen (tg_LUNs t) ∧ 0 ≤ slen (tg_Initiators t)) as [? ?] by (unfold slen, len; lia).
  destruct (luns_state (elems (tg_LUNs t)) (ts_lunIDs st) (ts_usedBackings st)) as (Hids & Hused & Hloc).
  unfold target_add, target_fresh, unique_target. split.
  - intros (Hg & lst & ((HF & Hnum & HNi & HNb) & Hfresh & ->) & [ns secrets] & Hp & [= <-]). split_hyps.
    apply (peers_Ok _ _ (Hloc HNi)) in Hp as ((HP & HPn & HPs) & Hps & Hst). apply (f_equal snd) in Hst. cbn [snd] in Hst. rewrite Hst.
    rewrite Hids, Hused. rewrite (fold_keys peer_add snd (λ p, secrets_of (in_Authentication p))) by done.
    split; [split; [split; try done; split; lia|done]|]. split; [|done].
    split; [done|]. unfold target_luns, target_backings. setoid_rewrite list_elem_of_fmap. naive_solver.
  - intros (([? ? ? [? ?] ? ? ? ?] & ? & ? & ?) & ([? ?] & Hl & Hb & Hs) & ->). split; [split_and!; try done; lia|].
    eexists. split; [split_and!; [done..| |reflexivity]|].
    { intros x Hx. split; [apply Hl|apply Hb]; by apply list_elem_of_fmap_2. }
    eexists (_, _). split; [apply (peers_Ok _ _ (Hloc ltac:(done)))|].
    + split_and!; [done..|]. symmetry. apply surjective_pairing.
    + rewrite Hids, Hused. by rewrite (fold_keys peer_add snd (λ p, secrets_of (in_Authentication p))) by done.
Qed.

Lemma targets_Ok backings l st : for_range (target_step backings) 0 (mkTargets ∅ ∅ ∅ ∅ ∅) l = Ok st ↔
  Forall (good_target backings) l ∧ NoDup (tg_ID <$> l) ∧ NoDup (tg_Name <$> l) ∧ NoDup (l ≫= target_luns)
  ∧ NoDup (l ≫= target_backings) ∧ NoDup (l ≫= target_secrets) ∧ st = fold_left target_add l (mkTargets ∅ ∅ ∅ ∅ ∅).
Proof.
  rewrite (for_range_chain target_add _ (λ t, good_target backings t ∧ unique_target t) target_fresh) by (intros; apply target_step_Ok).
  unfold target_fresh. rewrite !chain_and, (chain_key _ ts_targetIDs tg_ID), (chain_key _ ts_names tg_Name) by done.
  unfold unique_target. rewrite !Forall_and.
  pose proof (chain_keys target_add ts_lunIDs target_luns (mkTargets ∅ ∅ ∅ ∅ ∅) l ltac:(done)) as H1.
  pose proof (chain_keys target_add ts_usedBackings target_backings (mkTargets ∅ ∅ ∅ ∅ ∅) l ltac:(done)) as H2.
  pose proof (chain_keys target_add ts_secrets target_secrets (mkTargets ∅ ∅ ∅ ∅ ∅) l ltac:(done)) as H3.
  cbn [ts_targetIDs ts_names ts_lunIDs ts_usedBackings ts_secrets] in *.
  assert (He : ∀ y : string, y ∉ (∅ : gset string)) by set_solver. split.
  - intros ((? & ? & ? & ?) & ((? & ?) & ? & ? & ?) & ->). naive_solver.
  - intros (? & ? & ? & Hl & Hb & Hs & ->).
    destruct (proj2 H1 (conj Hl (λ y _, He y))), (proj2 H2 (conj Hb (λ y _, He y))), (proj2 H3 (conj Hs (λ y _, He y))). naive_solver.
Qed.
(** Exactly as many backings in use as declared, all of them declared. *)
Lemma all_used (used declared : list string) : NoDup used → NoDup declared → (∀ x, x ∈ used → x ∈ declared) →
  (size (list_to_set used : gset string) = size (list_to_set declared : gset string) ↔ used ≡ₚ declared).
Proof.
  intros Hu Hd Hin. rewrite !size_list_to_set by done. split; [|by intros ->].
  intros Hl. apply submseteq_length_Permutation; [by apply NoDup_submseteq|lia].
Qed.

Lemma Policy_Validate_iscsi_wf p volumes : Policy_Validate p volumes = Ok tt ↔ wf_policy volumes p.
Proof.
  unfold Policy_Validate. rewrite refuse_Ok, res_bind_Ok. setoid_rewrite backings_Ok.
  rewrite !orb_false_iff, !negb_false_iff, is_ok_unit, ShareConfig.Config_Validate_wf, bool_decide_eq_true, Z.eqb_neq, !Z.eqb_eq, !Z.ltb_ge.
  assert (Hsub : ∀ bs, Forall (good_target (list_to_set bs)) (elems (pol_Targets p)) →
    ∀ x, x ∈ elems (pol_Targets p) ≫= target_backings → x ∈ bs).
  { intros bs HF x (t & Hx & Ht)%list_elem_of_bind. rewrite Forall_forall in HF. destruct (HF t Ht).
    unfold target_backings in Hx. apply list_elem_of_fmap in Hx as (l & -> & Hl). rewrite Forall_forall in gt_luns0.
    destruct (gt_luns0 l Hl) as (_ & Hb & _). by apply elem_of_list_to_set in Hb. }
  assert (Hus : ts_usedBackings (fold_left target_add (elems (pol_Targets p)) (mkTargets ∅ ∅ ∅ ∅ ∅))
    = list_to_set (elems (pol_Targets p) ≫= target_backings)).
  { rewrite (fold_keys target_add ts_usedBackings target_backings) by done. cbn [ts_usedBackings]. set_solver. }
  split.
  - intros (Hh & [bs old] & (HB & HN & Hap & [= -> ->]) & Hrest). split_hyps.
    apply res_bind_Ok in Hrest as (st & (HT & ? & ? & ? & Hb & ? & ->)%targets_Ok & Hsz). rewrite !refuse_Ok in Hsz.
    destruct Hsz as (Hsz & Hl & _). rewrite negb_false_iff, Nat.eqb_eq, Hus in Hsz. apply Z.ltb_ge in Hl.
    split; try done. apply all_used; auto.
  - intros [? ? ? ? ? [? ?] [? ?] ? ? ? ? ? ? ? He ? ?]. split; [split_and!; done|]. eexists (_, _). split; [split_and!; done|].
    apply res_bind_Ok. eexists. split; [apply targets_Ok; split_and!; try done; by rewrite He|].
    rewrite !refuse_Ok, negb_false_iff, Nat.eqb_eq, Hus, Z.ltb_ge. split_and!; [|done..].
    apply all_used; try done; [by rewrite He|by apply Hsub].
Qed.

(** ** Documents read back *)
Lemma identifier_utf8' s : identifier s = true → utf8_valid s = true.
Proof. exact (ShareConfig.identifier_utf8 s). Qed.
Lemma in_set_ascii r lit : 128 ≤ r → forallb (λ c, c <? 128) (codes lit) = true → in_set r lit = false.
Proof.
  intros Hr Hl. unfold in_set. apply bool_decide_eq_false. intros Hin%list_elem_of_In. rewrite forallb_forall in Hl.
  apply Hl in Hin. lia.
Qed.
Lemma username_utf8 s : username s = true → utf8_valid s = true.
Proof.
  unfold username. destruct (_ || _); [done|]. apply ShareConfig.runes_bounded. intros r Hr.
  unfold username_char, is_lower, is_upper, is_digit. rewrite in_set_ascii by done. lia.
Qed.

Definition ascii_text : string → Prop := all_chars (λ c, c <? 128).
Lemma ascii_text_utf8 s : ascii_text s → utf8_valid s = true.
Proof.
  unfold ascii_text, all_chars. intros H. apply ascii_utf8, Forall_forall. intros c Hc%list_elem_of_In.
  rewrite forallb_forall in H. apply H in Hc. lia.
Qed.
Lemma runes_text (P : Z → bool) s : (∀ r, 128 ≤ r → P r = false) → forallb P (runes s) = true → ascii_text s.
Proof.
  intros HP H. rewrite forallb_runes in H by done. unfold ascii_text, all_chars. rewrite forallb_forall in *. intros c Hc.
  specialize (H c Hc). destruct (Z.ltb_spec c 128); [done|]. by rewrite HP in H.
Qed.

Lemma substring_all n s : (String.length s ≤ n)%nat → String.substring 0 n s = s.
Proof.
  revert n. induction s as [|c s IH]; intros [|n] Hn; cbn [String.substring String.length] in *; try done; [lia|].
  f_equal. apply IH. lia.
Qed.

Lemma domain_text s domain suffix colon : cut ":" s = (domain, suffix, colon) → forallb label_ok (split_on "." domain) = true →
  (colon = true → forallb suffix_char (runes suffix) = true) → ascii_text s.
Proof.
  intros [-> _]%cut_spec Hlab Hsuf. apply all_chars_app.
  - rewrite <- (join_split "." domain). apply all_chars_join; [done|]. apply Forall_forall. intros l Hl.
    rewrite forallb_forall in Hlab. apply list_elem_of_In, Hlab in Hl. unfold label_ok in Hl. case_match; [done|].
    apply (runes_text identifier_char); [|done]. intros r Hr. unfold identifier_char, is_lower, is_digit. lia.
  - destruct colon; [|done]. apply all_chars_String. split; [done|]. apply (runes_text suffix_char); [|by apply Hsuf].
    intros r Hr. unfold suffix_char, is_lower, is_digit. rewrite in_set_ascii by done. lia.
Qed.

(** A qualified name is ASCII: fixed bytes, a date, labels and a suffix. *)
Lemma iqn_utf8 s : iqn s = true → utf8_valid s = true.
Proof.
  intros H. apply ascii_text_utf8. unfold iqn in H.
  destruct (_ || _) eqn:H1 in H; [done|]. destruct (negb _) eqn:H2 in H; [done|]. destruct (_ || _) eqn:H3 in H; [done|].
  rewrite !orb_false_iff, !negb_false_iff, !Z.eqb_eq in H1. rewrite negb_false_iff in H2.
  rewrite !orb_false_iff, !Z.ltb_ge in H3. destruct H1 as ((((Hl & _) & Hp) & H8) & H11).
  destruct H3 as ((((((_ & H9a) & H9b) & H10a) & H10b) & _) & _). apply Z.ltb_ge in Hl.
  do 12 (destruct s as [|? s]; [unfold slength in Hl; cbn [String.length] in Hl; lia|]).
  apply has_prefix_spec in Hp as (t & Ht). rewrite !append_String, append_Empty in Ht. injection Ht as -> -> -> -> <-.
  destruct (cut _ _) as [[domain suffix] colon] eqn:Hc in H. cbn [String.substring String.length] in Hc.
  rewrite substring_all in Hc by lia. case_match; [done|]. destruct (forallb label_ok _) eqn:Hlab; [|done]. cbn [negb] in H.
  apply (runes_text is_digit) in H2; [|intros; unfold is_digit; lia]. cbn [String.substring] in H2.
  unfold ascii_text in *. rewrite !all_chars_String in *. split_hyps.
  change (byte_at ?s 8) with (code a7) in H8. change (byte_at ?s 9) with (code a8) in *.
  change (byte_at ?s 10) with (code a9) in *. change (byte_at ?s 11) with (code a10) in H11.
  split_and!; try done; try lia. apply (domain_text _ _ _ _ Hc Hlab). intros ->. by case_bool_decide.
Qed.
(** LUN numbers fit their type; the other numbers of a valid policy always do. *)
Definition in_range (p : Policy) : Prop :=
  0 ≤ pol_Revision p < 2 ^ 64 ∧ 0 ≤ pol_VolumeRevision p < 2 ^ 64
  ∧ ∀ t l, t ∈ elems (pol_Targets p) → l ∈ elems (tg_LUNs t) → 0 ≤ lun_Number l < 2 ^ 16.

Definition wire_LUN (l : LUN) : wireLUN := mkWireLUN (mkLUN (lun_ID l) 0 (lun_BackingID l) (lun_Access l)) (Some (lun_Number l)).
Definition wire_Target (t : Target) : wireTarget :=
  mkWireTarget (mkTarget (tg_ID t) (tg_Name t) (tg_State t) None (tg_Initiators t)) (option_map (map wire_LUN) (tg_LUNs t)).

Lemma dec_enc_Backing known b : good_backing known b → dec_Backing (enc_Backing b) = Some b.
Proof.
  intros []. assert (0 ≤ bk_BlockSize b < 2 ^ 16 ∧ 0 ≤ bk_CapacityBytes b < 2 ^ 64) as [? ?] by (unfold max_int64 in *; lia).
  unfold dec_Backing, enc_Backing. json_dec. by destruct b.
Qed.
Lemma dec_enc_LUN l : 0 ≤ lun_Number l < 2 ^ 16 → dec_wireLUN (enc_LUN l) = Some (wire_LUN l).
Proof.
  intros Hn. unfold dec_wireLUN, enc_LUN. unfold as_struct. change (known _ _) with true. cbn iota.
  json_get. rewrite !as_str_enc, as_ptr_uint by lia. done.
Qed.
Lemma dec_enc_Auth a : dec_Authentication (enc_Authentication a) = Some a.
Proof.
  unfold dec_Authentication, enc_Authentication, omit_empty. destruct a as [m u s t r]. cbn [au_Mode au_InitiatorUser au_InitiatorSecretRef au_TargetUser au_TargetSecretRef].
  case_bool_decide as Ht; case_bool_decide as Hr; cbn [app]; try subst; by json_dec.
Qed.
Lemma dec_enc_Grant_iscsi g : dec_Grant (enc_Grant g) = Some g.
Proof. unfold dec_Grant, enc_Grant. json_dec. by destruct g. Qed.
#[local] Hint Resolve dec_enc_Auth dec_enc_Grant_iscsi : json.
Lemma dec_enc_Initiator p : dec_Initiator (enc_Initiator p) = Some p.
Proof. unfold dec_Initiator, enc_Initiator. json_dec. rewrite dec_enc_Auth. json_dec. by destruct p. Qed.
#[local] Hint Resolve dec_enc_Initiator : json.

Lemma dec_enc_Target t : (∀ l, l ∈ elems (tg_LUNs t) → 0 ≤ lun_Number l < 2 ^ 16) → dec_wireTarget (enc_Target t) = Some (wire_Target t).
Proof.
  intros Hn. unfold dec_wireTarget, enc_Target, as_struct. change (known _ _) with true. cbn iota. json_get.
  rewrite !as_str_enc. cbn [mbind option_bind].
  rewrite (as_slice_map dec_wireLUN enc_LUN wire_LUN) by (intros l Hl; by apply dec_enc_LUN, Hn).
  rewrite as_slice_enc by (intros; apply dec_enc_Initiator). done.
Qed.
Lemma dec_enc_iscsi known p : Forall (good_backing known) (elems (pol_Backings p)) → in_range p → pol_SchemaVersion p = 1 →
  dec_wirePolicy (enc_Policy p)
  = Some (mkWirePolicy (mkPolicy (pol_Format p) (pol_SchemaVersion p) (pol_Revision p) (pol_VolumeRevision p) (pol_Backings p) None)
            (option_map (map wire_Target) (pol_Targets p))).
Proof.
  intros HB (Hr & Hv & Hn) Hs. unfold dec_wirePolicy, enc_Policy, as_struct. change (GoJson.known _ _) with true. cbn iota. json_get.
  rewrite as_str_enc, as_int_enc, !as_uint_enc by lia. cbn [mbind option_bind].
  rewrite as_slice_enc by (rewrite Forall_forall in HB; intros b Hb; by eapply dec_enc_Backing, HB).
  rewrite (as_slice_map dec_wireTarget enc_Target wire_Target) by (intros t Ht; apply dec_enc_Target; eauto). done.
Qed.

Lemma unwire_wire t : is_nil (tg_LUNs t) = false → unwire_Target (wire_Target t) = Some t.
Proof.
  destruct t as [i n st [l|] ps]; [|done]. intros _. unfold unwire_Target, wire_Target.
  cbn [wt_LUNs wt_Target tg_LUNs option_map mbind option_bind].
  replace (mapM unwire_LUN (map wire_LUN l)) with (Some l); [done|]. symmetry. apply mapM_Some.
  induction l as [|x l IH]; constructor; [by destruct x|done].
Qed.

Abbreviation strict_iscsi := (strict 9 (Some (λ k, k ∈? fields))).
Lemma count_present {A} (s : slice A) : 1 ≤ slen s → is_nil s = false.
Proof. by destruct s. Qed.
#[local] Hint Resolve identifier_utf8' username_utf8 iqn_utf8 : json.
Lemma good_access_utf8 a : good_access a → utf8_valid a = true.
Proof. by intros [->| ->]. Qed.
#[local] Hint Resolve good_access_utf8 : json.

Section encoded.
Context (volumes : ShareConfig.Config) (Hvol : ∀ v, v ∈ ShareConfig.volume_ids volumes → ShareConfig.identifier v = true).

Lemma enc_Backing_wf b : good_backing (ShareConfig.volume_ids volumes) b → jwf (enc_Backing b) = true.
Proof using Hvol.
  intros []. unfold enc_Backing, max_int64 in *. json_wf.
  - by apply filePath_spec.
  - apply enc_uint_wf. lia.
  - apply enc_uint_wf. lia.
  - by destruct gb_allocation0 as [->| ->].
Qed.

Lemma enc_LUN_wf backings l : (∀ b, b ∈ backings → identifier b = true) → good_lun backings l → 0 ≤ lun_Number l < 2 ^ 16 →
  jwf (enc_LUN l) = true.
Proof. intros Hb (? & ? & ?) Hn. unfold enc_LUN. json_wf. apply enc_uint_wf. lia. Qed.

Lemma enc_Auth_wf a : good_auth a → jwf (enc_Authentication a) = true.
Proof.
  intros (Hu & Hi & Hm). unfold enc_Authentication, omit_empty.
  destruct Hm as [(-> & -> & ->)|(-> & Ht & Hr & _)].
  - cbn [bool_decide]. rewrite (bool_decide_eq_true_2 ("" = "")) by done. cbn [app]. json_wf. done.
  - case_bool_decide; case_bool_decide; cbn [app]; json_wf; done.
Qed.

Lemma enc_Initiator_wf backings luns p : Forall (good_lun backings) luns → good_peer luns p → jwf (enc_Initiator p) = true.
Proof.
  intros HL []. unfold enc_Initiator. json_wf; [by apply enc_Auth_wf|]. apply enc_slice_wf. intros g Hg.
  rewrite Forall_forall in gp_grants0. rewrite Forall_forall in HL. destruct (gp_grants0 g Hg) as (Ha & l & Hl & Hid & _).
  destruct (HL l Hl) as (Hlid & _). rewrite Hid in Hlid. unfold enc_Grant. json_wf.
Qed.

Lemma enc_Target_wf backings t : (∀ b, b ∈ backings → identifier b = true) → good_target backings t →
  (∀ l, l ∈ elems (tg_LUNs t) → 0 ≤ lun_Number l < 2 ^ 16) → jwf (enc_Target t) = true.
Proof.
  intros Hb [] Hn. unfold enc_Target. json_wf.
  - by destruct gt_state0 as [->| ->].
  - apply enc_slice_wf. intros l Hl. rewrite Forall_forall in gt_luns0. eapply enc_LUN_wf; eauto.
  - apply enc_slice_wf. intros p Hp. rewrite Forall_forall in gt_peers0. eapply enc_Initiator_wf; eauto.
Qed.
End encoded.

Lemma enc_iscsi_wf volumes p : wf_policy volumes p → in_range p → jwf (enc_Policy p) = true.
Proof.
  intros [] (? & ? & Hn). unfold enc_Policy. rewrite wp_format0, wp_schema0, enc_int_nonneg by done.
  rewrite Forall_forall in wp_backings0. rewrite Forall_forall in wp_targets0. json_wf.
  - by vm_compute.
  - apply enc_slice_wf. intros b Hb. apply (enc_Backing_wf volumes); [by apply ShareConfig.wf_ids|auto].
  - apply enc_slice_wf. intros t Ht. eapply (enc_Target_wf (list_to_set (backing_ids p))); eauto.
    intros b Hb%elem_of_list_to_set. unfold backing_ids in Hb. apply list_elem_of_fmap in Hb as (x & -> & Hx).
    by destruct (wp_backings0 x Hx).
Qed.

Lemma strict_Auth a : strict_iscsi 5 (enc_Authentication a).
Proof.
  unfold enc_Authentication, omit_empty. case_bool_decide; case_bool_decide; cbn [app]; json_strict.
Qed.
Lemma strict_Target backings t : good_target backings t → strict_iscsi 2 (enc_Target t).
Proof.
  intros [? ? ? [[? _] [? _]] ? ? HP ?]. json_strict.
  - apply strict_array; [by apply count_present|lia|]. intros l _. json_strict.
  - apply strict_array; [by apply count_present|lia|]. intros p Hp. rewrite Forall_forall in HP. destruct (HP p Hp) as [? ? [? _] ? ?].
    json_strict; [apply strict_Auth|]. apply strict_array; [by apply count_present|lia|]. intros g _. json_strict.
Qed.
Lemma strict_iscsi_policy volumes p : wf_policy volumes p → strict_iscsi 0 (enc_Policy p).
Proof.
  intros []. destruct wp_present0. unfold enc_Policy. rewrite wp_schema0, enc_int_nonneg by done. json_strict.
  - apply strict_array; [done|lia|]. intros b _. json_strict.
  - apply strict_array; [done|lia|]. intros t Ht. rewrite Forall_forall in wp_targets0. eapply strict_Target; eauto.
Qed.

(** A valid policy is read back from its printed text. *)
Lemma Iscsi_Decode_Marshal volumes p : wf_policy volumes p → in_range p →
  Decode (bytes_reader (Marshal (enc_Policy p))) volumes = Some p.
Proof.
  intros Hp Hr. unfold Decode. pose proof (enc_iscsi_wf volumes p Hp Hr) as Hw.
  erewrite DecodeInto_Marshal; [|done|done|done|by destruct Hp|by eapply strict_iscsi_policy|].
  2:{ destruct Hp. by eapply dec_enc_iscsi. }
  cbn [wp_Targets wp_Policy]. destruct (wp_present _ _ Hp) as [_ Ht].
  destruct (pol_Targets p) as [ts|] eqn:Hts; [|done]. cbn [option_map mbind option_bind].
  assert (Hm : mapM unwire_Target (map wire_Target ts) = Some ts).
  { apply mapM_Some. pose proof (wp_targets _ _ Hp) as HT. rewrite Hts in HT. change (elems (Some ts)) with ts in HT.
    clear Hts Ht. induction HT as [|t ts' Hg HT IH]; constructor; [|done]. destruct Hg as [? ? ? [[? _] _] ? ? ? ?].
    by apply unwire_wire, count_present. }
  rewrite Hm. cbn [mbind option_bind pol_Format pol_SchemaVersion pol_Revision pol_VolumeRevision pol_Backings].
  rewrite <- Hts. replace (mkPolicy _ _ _ _ _ _) with p by (by destruct p). cbn zeta.
  by rewrite (proj2 (Policy_Validate_iscsi_wf p volumes) Hp).
Qed.

Lemma mapM_elem {A B} (f : A → option B) l k y : mapM f l = Some k → y ∈ k → ∃ x, x ∈ l ∧ f x = Some y.
Proof.
  intros HF%mapM_Some [i Hi]%list_elem_of_lookup. destruct (Forall2_lookup_r _ _ _ _ _ HF Hi) as (x & Hx & Hf).
  exists x. split; [by eapply list_elem_of_lookup_2|done].
Qed.

Definition number_range (l : wireLUN) : Prop := ∀ n, wl_Number l = Some n → 0 ≤ n < 2 ^ 16.
Lemma dec_wireLUN_range w l : dec_wireLUN w = Some l → number_range l.
Proof.
  unfold dec_wireLUN, as_struct. destruct w as [| | | | |ms]; try done; [by intros [= <-]|]. case_match; [|done].
  intros Hd. repeat (apply bind_Some in Hd as (? & ? & Hd)). apply (inj Some) in Hd as <-. intros n Hn. cbn [wl_Number] in Hn.
  match goal with H : fld "number" _ _ _ = Some _ |- _ => rename H into Hf end. unfold fld in Hf. destruct (get "number" ms) as [v|]; [|congruence].
  assert (Hm : as_uint 16 v = Some n).
  { unfold as_ptr in Hf. destruct v; try congruence; apply fmap_Some in Hf as (m & Hm & Hx); congruence. }
  eapply (fld_uint_range 16 [("", v)] ""); [done|]. unfold fld. by rewrite get_hd.
Qed.

Lemma Iscsi_Decode_sound input volumes p : Decode input volumes = Some p → wf_policy volumes p ∧ in_range p.
Proof.
  unfold Decode. destruct (DecodeInto _ _ _ _ _) as [w|] eqn:Hd; [|done]. intros Hp.
  apply bind_Some in Hp as (wts & Hwts & Hp). apply bind_Some in Hp as (ts & Hts & Hp). cbn zeta in Hp.
  destruct (is_ok (Policy_Validate _ _)) eqn:Hv; [|done]. apply (inj Some) in Hp as <-.
  apply is_ok_unit, Policy_Validate_iscsi_wf in Hv. split; [done|].
  apply DecodeInto_Ok in Hd as (_ & _ & data & v & _ & _ & _ & _ & _ & _ & Hd).
  unfold dec_wirePolicy, as_struct in Hd. destruct v as [| | | | |ms]; try done; [by simplify_eq|]. case_match; [|done].
  repeat (apply bind_Some in Hd as (? & ? & Hd)). apply (inj Some) in Hd as <-.
  cbn [wp_Policy wp_Targets pol_Revision pol_VolumeRevision] in *.
  split; [cbn; by eapply (fld_uint_range 64)|]. split; [cbn; by eapply (fld_uint_range 64)|]. cbn [pol_Targets elems default from_option id].
  intros t l Ht Hl. subst. destruct (mapM_elem _ _ _ _ Hts Ht) as (wt & Hwt & Hun).
  unfold unwire_Target in Hun. apply bind_Some in Hun as (wls & Hwls & Hun). apply bind_Some in Hun as (ls & Hls & Hun).
  apply (inj Some) in Hun as <-. destruct (mapM_elem _ _ _ _ Hls Hl) as (wl & Hwl & Hul).
  unfold unwire_LUN in Hul. apply bind_Some in Hul as (n & Hn & Hul). apply (inj Some) in Hul as <-. cbn [lun_Number].
  assert (number_range wl) as Hr; [|by apply Hr].
  match goal with H : fld "targets" _ _ _ = Some _ |- _ => destruct (fld_slice_elem dec_wireTarget _ _ _ wt H) as (w & Hw); [done|] end.
  clear -Hw Hwls Hwl. unfold dec_wireTarget, as_struct in Hw. destruct w as [| | | | |ms]; try done; [by simplify_eq|]. case_match; [|done].
  repeat (apply bind_Some in Hw as (? & ? & Hw)). apply (inj Some) in Hw as <-. cbn [wt_LUNs] in Hwls. subst.
  match goal with H : fld "luns" _ _ _ = Some _ |- _ => destruct (fld_slice_elem dec_wireLUN _ _ _ wl H) as (w & Hw); [done|] end.
  by eapply dec_wireLUN_range.
Qed.

(** ** Properties *)

(** [Policy.Validate] accepts exactly the policies of the contract: a valid
    share configuration at the bound revision, aligned backing files on declared
    volumes of which none lies at or below another, targets with unique names,
    LUN numbers unique in their target, every backing presented by exactly one
    LUN of the whole policy, grants that name LUNs of their own target and never
    widen a read-only one, and no CHAP secret referred to twice anywhere. *)
Theorem Iscsi_Validate_exact p volumes : Policy_Validate p volumes = Ok tt ↔ wf_policy volumes p.
Proof. apply Policy_Validate_iscsi_wf. Qed.
End Iscsi.
