(* ===== verification/NasPolicy.v ===== *)
(** * The combined desired policy: [internal/naspolicy/]

    One revision binds the file-service configuration and the iSCSI policy.
    [Decode] reads the envelope and the nested documents with their own
    decoders; [ReplaceFileServices] and [ReplaceISCSI] are the two edits, each of
    which keeps the other half; [RestoreCandidate] rebases a backup and
    [SameDefinitions] compares two documents up to their revisions. *)

From S2P Require Import Prelude GoStrings Utf8 ConfigJson GoJson Shares GoPath NfsConfig FileService IscsiPolicy.
Import GoJson.

Module NasPolicy.

Definition Format : string := "phantowd-nas-service-config".
Definition SchemaVersion : Z := 1.
Definition MaxInputBytes : Z := FileService.MaxConfigBytes + Iscsi.MaxInputBytes + 256.
Definition BackupFormat : string := "phantowd-nas-policy-backup".
Definition MaxBackupBytes : Z := MaxInputBytes + 256.

Record Config := mkConfig {
  nc_Format : string; nc_SchemaVersion : Z; nc_Revision : Z;
  nc_FileServices : FileService.Config; nc_ISCSI : Iscsi.Policy }.
#[local] Existing Instances ShareConfig.Volume_eq_dec FileService.Config_eq_dec Iscsi.Policy_eq_dec.
#[export] Instance Config_eq_dec : EqDecision Config. Proof. solve_decision. Defined.

Definition enc_Config (c : Config) : jval :=
  JObj [("format", JStr (nc_Format c)); ("schema_version", enc_int (nc_SchemaVersion c));
        ("revision", enc_uint (nc_Revision c)); ("file_services", FileService.enc_Config (nc_FileServices c));
        ("iscsi", Iscsi.enc_Policy (nc_ISCSI c))].

(** ** Validation *)
Definition validateFileServicesChecked (c : Config) : bool :=
  if (nc_Format c != Format) || negb (nc_SchemaVersion c =? SchemaVersion) || (nc_Revision c =? 0)
     || negb (FileService.fc_Revision (nc_FileServices c) =? nc_Revision c)
     || negb (Iscsi.pol_Revision (nc_ISCSI c) =? nc_Revision c)
     || negb (is_ok (Iscsi.Policy_Validate (nc_ISCSI c) (FileService.fc_Shares (nc_FileServices c)))) then false
  else if FileService.MaxConfigBytes <? slength (Marshal (FileService.enc_Config (nc_FileServices c))) then false
  else if Iscsi.MaxInputBytes <? slength (Marshal (Iscsi.enc_Policy (nc_ISCSI c))) then false
  else true.
Definition Validate (c : Config) : bool :=
  if negb (FileService.Config_Validate (nc_FileServices c)) then false else validateFileServicesChecked c.

(** ** Decoding; every failure is the one error [ErrInvalid] *)
Definition raw (fields : gmap string string) (name : string) : string := default "" (fields !! name).
Definition Decode (input : reader) : option Config :=
  data ← limit_read (MaxInputBytes + 1) input;
  fields ← RawEnvelope data MaxInputBytes 12 ["format"; "schema_version"; "revision"; "file_services"; "iscsi"];
  format ← Unmarshal as_str (raw fields "format");
  version ← Unmarshal as_int (raw fields "schema_version");
  revision ← Unmarshal (as_uint 64) (raw fields "revision");
  files ← FileService.DecodeConfig (bytes_reader (raw fields "file_services"));
  iscsi ← Iscsi.Decode (bytes_reader (raw fields "iscsi")) (FileService.fc_Shares files);
  let c := mkConfig format version revision files iscsi in
  if Validate c then Some c else None.

(** ** Edits *)

(** [detachedValues]: every slice is copied, the values stay *)
Definition Clone {A} (s : slice A) : slice A := match s with None => None | Some l => Some (map id l) end.
Definition clone_with {A} (f : A → A) (s : slice A) : slice A := match s with None => None | Some l => Some (map f l) end.
Definition detachedValues (c : Config) : Config :=
  let fs := nc_FileServices c in
  let s := FileService.fc_Shares fs in
  let n := FileService.fc_NFS fs in
  let i := nc_ISCSI c in
  mkConfig (nc_Format c) (nc_SchemaVersion c) (nc_Revision c)
    (FileService.mkConfig (FileService.fc_Format fs) (FileService.fc_SchemaVersion fs) (FileService.fc_Revision fs)
       (ShareConfig.mkConfig (ShareConfig.cfg_Format s) (ShareConfig.cfg_SchemaVersion s) (ShareConfig.cfg_Revision s)
          (Clone (ShareConfig.cfg_Volumes s)) (Clone (ShareConfig.cfg_Users s))
          (clone_with (λ h, ShareConfig.mkShare (ShareConfig.share_ID h) (ShareConfig.share_Name h) (ShareConfig.share_VolumeID h)
                              (ShareConfig.share_RelativePath h) (Clone (ShareConfig.share_Grants h))) (ShareConfig.cfg_Shares s)))
       (NfsConfig.mkPolicy (NfsConfig.pol_Format n) (NfsConfig.pol_SchemaVersion n) (NfsConfig.pol_Revision n) (NfsConfig.pol_VolumeRevision n)
          (clone_with (λ e, NfsConfig.mkExport (NfsConfig.ex_ID e) (NfsConfig.ex_VolumeID e) (NfsConfig.ex_RelativePath e)
                              (Clone (NfsConfig.ex_Clients e))) (NfsConfig.pol_Exports n))))
    (Iscsi.mkPolicy (Iscsi.pol_Format i) (Iscsi.pol_SchemaVersion i) (Iscsi.pol_Revision i) (Iscsi.pol_VolumeRevision i)
       (Clone (Iscsi.pol_Backings i))
       (clone_with (λ t, Iscsi.mkTarget (Iscsi.tg_ID t) (Iscsi.tg_Name t) (Iscsi.tg_State t) (Clone (Iscsi.tg_LUNs t))
          (clone_with (λ p, Iscsi.mkInitiator (Iscsi.in_Name p) (Iscsi.in_Authentication p) (Clone (Iscsi.in_Grants p)))
             (Iscsi.tg_Initiators t))) (Iscsi.pol_Targets i))).

Definition iscsi_at (r : Z) (p : Iscsi.Policy) : Iscsi.Policy :=
  Iscsi.mkPolicy (Iscsi.pol_Format p) (Iscsi.pol_SchemaVersion p) r r (Iscsi.pol_Backings p) (Iscsi.pol_Targets p).

(** [nextVolumes[volume.ID] != volume]; an absent key gives the zero volume *)
Definition zero_Volume : ShareConfig.Volume := ShareConfig.mkVolume "" "".
Definition nextVolumes (next : FileService.Config) : gmap string ShareConfig.Volume :=
  fold_left (λ m v, <[ShareConfig.vol_ID v := v]> m) (elems (ShareConfig.cfg_Volumes (FileService.fc_Shares next))) ∅.
Definition ReplaceFileServices (base : Config) (next : FileService.Config) : option Config :=
  if negb (FileService.ValidateRetainedNFSBindings (nc_FileServices base) next) || negb (validateFileServicesChecked base)
     || (nc_Revision base =? max_uint64) || negb (FileService.fc_Revision next =? u64_add (nc_Revision base) 1) then None
  else
    let c := mkConfig (nc_Format base) (nc_SchemaVersion base) (FileService.fc_Revision next) next
               (iscsi_at (FileService.fc_Revision next) (nc_ISCSI base)) in
    if negb (validateFileServicesChecked c) then None
    else
      if existsb (λ backing, existsb (λ volume,
             (Iscsi.bk_VolumeID backing == ShareConfig.vol_ID volume)
             && negb (bool_decide (default zero_Volume (nextVolumes next !! ShareConfig.vol_ID volume) = volume)))
           (elems (ShareConfig.cfg_Volumes (FileService.fc_Shares (nc_FileServices base)))))
         (elems (Iscsi.pol_Backings (nc_ISCSI base))) then None
      else Some (detachedValues c).

Definition ReplaceISCSI (base : Config) (next : Iscsi.Policy) : option Config :=
  if negb (Validate base) || (nc_Revision base =? max_uint64) || negb (Iscsi.pol_Revision next =? u64_add (nc_Revision base) 1) then None
  else
    let c := mkConfig (nc_Format base) (nc_SchemaVersion base) (Iscsi.pol_Revision next)
               (FileService.rebase (Iscsi.pol_Revision next) (nc_FileServices base)) next in
    if negb (Validate c) then None else Some (detachedValues c).

(** ** Backups and comparison *)
Definition setRevision (c : Config) (r : Z) : Config :=
  mkConfig (nc_Format c) (nc_SchemaVersion c) r (FileService.rebase r (nc_FileServices c)) (iscsi_at r (nc_ISCSI c)).
Definition RestoreCandidate (data : string) (expected : Z) : option Config :=
  if expected =? max_uint64 then None
  else
    fields ← RawEnvelope data MaxBackupBytes 12 ["format"; "schema_version"; "configuration"];
    format ← Unmarshal as_str (raw fields "format");
    if format != BackupFormat then None
    else
    version ← Unmarshal as_int (raw fields "schema_version");
    if negb (version =? 1) then None
    else
    c ← Decode (bytes_reader (raw fields "configuration"));
    Decode (bytes_reader (Marshal (enc_Config (setRevision c (u64_add expected 1))))).
(** [reflect.DeepEqual] on these values is equality, with nil apart from empty *)
Definition SameDefinitions (a b : Config) : bool :=
  if negb (Validate a) || negb (Validate b) then false
  else bool_decide (setRevision a (nc_Revision b) = b).

(** ** Validity *)
Record wf (c : Config) : Prop := {
  wf_format : nc_Format c = Format;
  wf_schema : nc_SchemaVersion c = SchemaVersion;
  wf_revision : nc_Revision c ≠ 0;
  wf_files : FileService.wf (nc_FileServices c);
  wf_iscsi : Iscsi.wf_policy (FileService.fc_Shares (nc_FileServices c)) (nc_ISCSI c);
  wf_bound : FileService.fc_Revision (nc_FileServices c) = nc_Revision c ∧ Iscsi.pol_Revision (nc_ISCSI c) = nc_Revision c;
  wf_size : slength (Marshal (FileService.enc_Config (nc_FileServices c))) ≤ FileService.MaxConfigBytes }.

Lemma Checked_wf c : FileService.wf (nc_FileServices c) → validateFileServicesChecked c = true ↔ wf c.
Proof.
  intros Hf. unfold validateFileServicesChecked.
  assert (Hguard : ∀ (b k : bool), (if b then false else k) = true ↔ b = false ∧ k = true) by (intros [] []; naive_solver).
  rewrite !Hguard, !orb_false_iff, !negb_false_iff, bool_decide_eq_true, !Z.eqb_eq, Z.eqb_neq, !Z.ltb_ge, is_ok_unit,
    Iscsi.Policy_Validate_iscsi_wf. split.
  - intros ((((((? & ?) & ?) & ?) & ?) & ?) & ? & ? & _). by split.
  - intros []. destruct wf_bound0. split_and!; try done. by destruct wf_iscsi0.
Qed.

Lemma Validate_wf c : Validate c = true ↔ wf c.
Proof.
  unfold Validate. destruct (FileService.Config_Validate (nc_FileServices c)) eqn:Hf; cbn [negb].
  - by apply Checked_wf, FileService.Fs_Validate_wf.
  - split; [done|]. intros []. apply FileService.Fs_Validate_wf in wf_files0. congruence.
Qed.

(** One revision throughout. *)
Lemma coherent c : wf c → let r := nc_Revision c in let f := nc_FileServices c in
  FileService.fc_Revision f = r ∧ ShareConfig.cfg_Revision (FileService.fc_Shares f) = r
  ∧ NfsConfig.pol_Revision (FileService.fc_NFS f) = r ∧ NfsConfig.pol_VolumeRevision (FileService.fc_NFS f) = r
  ∧ Iscsi.pol_Revision (nc_ISCSI c) = r ∧ Iscsi.pol_VolumeRevision (nc_ISCSI c) = r.
Proof.
  intros []. destruct wf_bound0 as [H1 H2]. destruct (FileService.wf_bound _ wf_files0) as (H3 & H4 & H5).
  pose proof (Iscsi.wp_bound _ _ wf_iscsi0). cbn zeta. split_and!; congruence.
Qed.

Lemma Clone_id {A} (s : slice A) : Clone s = s.
Proof. destruct s; cbn; [by rewrite map_id|done]. Qed.
Lemma clone_with_id {A} (f : A → A) (s : slice A) : (∀ x, f x = x) → clone_with f s = s.
Proof. intros Hf. destruct s; cbn; [|done]. f_equal. rewrite <- (map_id l) at 2. by apply map_ext. Qed.
Lemma detachedValues_id c : detachedValues c = c.
Proof.
  unfold detachedValues. rewrite !Clone_id, !clone_with_id.
  - by destruct c as [? ? ? [? ? ? [] []] []].
  - intros []. cbn. rewrite Clone_id, clone_with_id; [done|]. intros []. cbn. by rewrite Clone_id.
  - intros []. cbn. by rewrite Clone_id.
  - intros []. cbn. by rewrite Clone_id.
Qed.

(** ** Documents read back *)
Definition in_range (c : Config) : Prop :=
  0 ≤ nc_Revision c < 2 ^ 64 ∧ FileService.in_range (nc_FileServices c) ∧ Iscsi.in_range (nc_ISCSI c).

Lemma enc_Nas_wf c : wf c → in_range c → jwf (enc_Config c) = true.
Proof.
  intros [] (Hr & Hf & Hi). unfold enc_Config. rewrite wf_format0, wf_schema0, enc_int_nonneg by done. json_wf.
  - by vm_compute.
  - by apply FileService.enc_FileConfig_wf.
  - by eapply Iscsi.enc_iscsi_wf.
Qed.

Lemma strict_Nas c d : wf c → 0 ≤ d ≤ 1 → strict 12 None d (enc_Config c).
Proof.
  intros [] Hd. unfold enc_Config. rewrite wf_schema0, enc_int_nonneg by done. json_strict.
  - apply FileService.strict_FileConfig; [done|lia].
  - eapply (strict_envelope 9 12 _ 0); [lia|]. by eapply Iscsi.strict_iscsi_policy.
Qed.

Lemma Nas_size c : wf c → in_range c → slength (Marshal (enc_Config c)) ≤ MaxInputBytes.
Proof.
  intros Hc Hr. pose proof (enc_Nas_wf c Hc Hr) as Hw. destruct Hr as (Hrev & Hf & Hi). destruct Hc.
  assert (Hf' := FileService.enc_FileConfig_wf _ wf_files0 Hf). assert (Hi' := Iscsi.enc_iscsi_wf _ _ wf_iscsi0 Hi).
  pose proof (Iscsi.wp_size _ _ wf_iscsi0) as Hsz. rewrite slength_Marshal in Hsz, wf_size0 |- * by done.
  pose proof (uint_digits (nc_Revision c)) as Hd. pose proof (uint_digits 1) as H1.
  unfold enc_Config. rewrite wf_format0, wf_schema0, enc_int_nonneg by done. change SchemaVersion with 1.
  unfold enc_uint. cbn [print map joined fst snd]. unfold len in *. repeat progress rewrite ?length_app, ?length_cons. cbn [length].
  quote_sizes. unfold MaxInputBytes. lia.
Qed.

(** What [Decode] makes of a printed document that fits. *)
Lemma Nas_Decode_parts c : jwf (enc_Config c) = true → strict 12 None 0 (enc_Config c) →
  0 ≤ nc_Revision c < 2 ^ 64 → 0 ≤ nc_SchemaVersion c < 2 ^ 63 → slength (Marshal (enc_Config c)) ≤ MaxInputBytes →
  Decode (bytes_reader (Marshal (enc_Config c)))
  = (files ← FileService.DecodeConfig (bytes_reader (Marshal (FileService.enc_Config (nc_FileServices c))));
     iscsi ← Iscsi.Decode (bytes_reader (Marshal (Iscsi.enc_Policy (nc_ISCSI c)))) (FileService.fc_Shares files);
     let c' := mkConfig (nc_Format c) (nc_SchemaVersion c) (nc_Revision c) files iscsi in
     if Validate c' then Some c' else None).
Proof.
  intros Hw Hk Hr Hv Hl. unfold Decode. rewrite limit_read_bytes by (unfold MaxInputBytes in *; lia). cbn [mbind option_bind].
  assert (Hf : utf8_valid (nc_Format c) = true).
  { unfold enc_Config in Hw. cbn [jwf forallb fst snd] in Hw. rewrite !andb_true_iff in Hw. tauto. }
  unfold enc_Config in *. rewrite RawEnvelope_Marshal; try done.
  2:{ apply (bool_decide_eq_true_1 _). by vm_compute. }
  2:{ cbn [fmap list_fmap fst]. apply (bool_decide_eq_true_1 _). by vm_compute. }
  cbn [mbind option_bind fmap list_fmap fst snd]. unfold raw. map_fields.
  rewrite (Unmarshal_Marshal as_str) by done. rewrite as_str_enc. cbn [mbind option_bind].
  rewrite (Unmarshal_Marshal as_int) by (rewrite enc_int_nonneg by lia; apply enc_uint_wf; lia).
  rewrite as_int_enc by lia. cbn [mbind option_bind].
  rewrite (Unmarshal_Marshal (as_uint 64)) by (apply enc_uint_wf; lia). rewrite as_uint_enc by lia. done.
Qed.

(** A valid document is read back from its printed text. *)
Lemma Nas_Decode_Marshal c : wf c → in_range c → Decode (bytes_reader (Marshal (enc_Config c))) = Some c.
Proof.
  intros Hc Hr. pose proof (enc_Nas_wf c Hc Hr). pose proof (Nas_size c Hc Hr). pose proof (strict_Nas c 0 Hc ltac:(lia)).
  destruct (id Hc). destruct Hr as (Hrev & Hf & Hi). rewrite Nas_Decode_parts; try done; [|unfold SchemaVersion in *; lia].
  rewrite FileService.DecodeConfig_Marshal by done. cbn [mbind option_bind]. rewrite Iscsi.Iscsi_Decode_Marshal by done.
  cbn [mbind option_bind]. replace (mkConfig _ _ _ _ _) with c by (by destruct c). cbn zeta. by rewrite (proj2 (Validate_wf c) Hc).
Qed.

Lemma Nas_Decode_sound input c : Decode input = Some c → wf c ∧ in_range c.
Proof.
  unfold Decode. intros Hd. repeat (apply bind_Some in Hd as (? & ? & Hd)). cbn zeta in Hd.
  destruct (Validate _) eqn:Hv; [|done]. apply (inj Some) in Hd as <-. split; [by apply Validate_wf|].
  split; [|split; cbn [nc_FileServices nc_ISCSI]; [by eapply FileService.DecodeConfig_sound|by eapply Iscsi.Iscsi_Decode_sound]].
  cbn [nc_Revision]. unfold Unmarshal in *.
  match goal with H : _ ≫= as_uint 64 = Some ?x |- _ ≤ ?x < _ => apply bind_Some in H as (w & _ & H); by apply (as_uint_range 64 w) end.
Qed.

(** ** At another revision *)
Definition nas_fits (c : Config) : bool :=
  FileService.fits (nc_FileServices c) && (slength (Marshal (Iscsi.enc_Policy (nc_ISCSI c))) <=? Iscsi.MaxInputBytes).

Lemma iscsi_at_wf r volumes volumes' p : Iscsi.wf_policy volumes p → r ≠ 0 → ShareConfig.wf_config volumes' →
  ShareConfig.cfg_Revision volumes' = r → ShareConfig.cfg_Volumes volumes' = ShareConfig.cfg_Volumes volumes →
  slength (Marshal (Iscsi.enc_Policy (iscsi_at r p))) ≤ Iscsi.MaxInputBytes → Iscsi.wf_policy volumes' (iscsi_at r p).
Proof.
  intros [] Hr Hv Hrev Hvol Hs. assert (Hids : ShareConfig.volume_ids volumes' = ShareConfig.volume_ids volumes).
  { unfold ShareConfig.volume_ids. by rewrite Hvol. }
  split; try done. by rewrite Hids.
Qed.

Lemma setRevision_wf c r : wf c → in_range c → 0 < r < 2 ^ 64 → nas_fits (setRevision c r) = true → wf (setRevision c r).
Proof.
  intros Hc (Hrev & Hf & Hi) Hr Hfit. unfold nas_fits in Hfit. apply andb_true_iff in Hfit as [Hf1 Hf2%Z.leb_le].
  destruct Hc. cbn [setRevision nc_FileServices nc_ISCSI] in *.
  assert (FileService.wf (FileService.rebase r (nc_FileServices c))) by (apply FileService.rebase_wf; (done || lia)).
  split; try done; [cbn; lia| |].
  - eapply iscsi_at_wf; try done; [lia|]. by apply FileService.wf_shares.
  - apply FileService.Config_size; [done|]. apply FileService.rebase_range; (done || lia).
Qed.

Lemma setRevision_range c r : in_range c → 0 ≤ r < 2 ^ 64 → in_range (setRevision c r).
Proof. intros (_ & Hf & _ & _ & Hl) Hr. split; [done|]. split; [by apply FileService.rebase_range|]. by split; [|split]. Qed.

Lemma setRevision_jwf c r : jwf (enc_Config c) = true → 0 ≤ r < 2 ^ 64 → jwf (enc_Config (setRevision c r)) = true.
Proof.
  intros Hw Hr. pose proof (enc_uint_wf r Hr) as He.
  assert (Hfs : jwf (FileService.enc_Config (nc_FileServices c)) = true).
  { unfold enc_Config in Hw. cbn [jwf forallb fst snd] in Hw. rewrite !andb_true_iff in Hw. tauto. }
  pose proof (FileService.rebase_jwf r _ Hfs Hr) as Hfs'.
  unfold enc_Config, setRevision, iscsi_at, Iscsi.enc_Policy in *.
  cbn [nc_Format nc_SchemaVersion nc_Revision nc_FileServices nc_ISCSI Iscsi.pol_Format Iscsi.pol_SchemaVersion
       Iscsi.pol_Revision Iscsi.pol_VolumeRevision Iscsi.pol_Backings Iscsi.pol_Targets] in *.
  cbn [jwf forallb fst snd] in *. rewrite !andb_true_iff in *. tauto.
Qed.

Lemma setRevision_strict c r : strict 12 None 0 (enc_Config c) → strict 12 None 0 (enc_Config (setRevision c r)).
Proof. done. Qed.

(** Decoding the printed document at another revision. *)
Lemma Decode_setRevision c r : wf c → in_range c → 0 < r < 2 ^ 64 →
  Decode (bytes_reader (Marshal (enc_Config (setRevision c r)))) = if nas_fits (setRevision c r) then Some (setRevision c r) else None.
Proof.
  intros Hc Hr Hb. destruct (nas_fits _) eqn:Hf.
  - apply Nas_Decode_Marshal; [by apply setRevision_wf|]. apply setRevision_range; (done || lia).
  - pose proof (setRevision_jwf c r (enc_Nas_wf c Hc Hr) ltac:(lia)) as Hw.
    destruct (Z.ltb_spec MaxInputBytes (slength (Marshal (enc_Config (setRevision c r))))) as [Hl|Hl].
    + unfold Decode. destruct (limit_read _ _) as [d|] eqn:Hd; [|done]. cbn [mbind option_bind].
      unfold limit_read in Hd. cbn [rd_data bytes_reader] in Hd. rewrite (proj2 (Z.leb_le _ _)) in Hd by lia. apply (inj Some) in Hd as <-.
      unfold RawEnvelope, ConfigJson.DecodeEnvelope.
      assert (MaxInputBytes <? slength (stake (MaxInputBytes + 1) (Marshal (enc_Config (setRevision c r)))) = true) as Hbig.
      { apply Z.ltb_lt. rewrite slength_stake by (by vm_compute). lia. }
      rewrite Hbig, !orb_true_r. done.
    + rewrite Nas_Decode_parts; [|done|apply setRevision_strict, strict_Nas; (done || lia)|cbn; lia|cbn; destruct Hc; unfold SchemaVersion in *; lia|done].
      unfold nas_fits in Hf. apply andb_false_iff in Hf. destruct Hr as (_ & Hrf & Hri).
      cbn [setRevision nc_FileServices nc_ISCSI]. rewrite FileService.DecodeConfig_rebase by (done || apply Hc).
      destruct (FileService.fits _) eqn:Hfs; [|done]. cbn [mbind option_bind].
      destruct Hf as [Hf|Hf%Z.leb_gt]; [cbn [setRevision nc_FileServices] in Hf; congruence|].
      unfold Iscsi.Decode. pose proof (DecodeInto_too_large Iscsi.dec_wirePolicy _ _ 9 Iscsi.fields Hf) as Ht.
      cbn [setRevision nc_ISCSI] in Ht. by destruct (DecodeInto Iscsi.dec_wirePolicy _ _ _ _).
Qed.

Lemma setRevision_self c : wf c → setRevision c (nc_Revision c) = c.
Proof.
  intros Hc. destruct (coherent c Hc) as (H1 & H2 & H3 & H4 & H5 & H6).
  destruct c as [f s r [ff fs fr [sf ss sr sv su sh] [nf ns nr nv ne]] [pf ps pr pv pb pt]]. cbn in *. by subst.
Qed.

(** A volume is found unchanged in the next configuration. *)
Abbreviation volumes_of f := (elems (ShareConfig.cfg_Volumes (FileService.fc_Shares f))).
Lemma next_volume base next v : FileService.wf base → FileService.wf next → v ∈ volumes_of base →
  default zero_Volume (nextVolumes next !! ShareConfig.vol_ID v) = v ↔ v ∈ volumes_of next.
Proof.
  intros Hb Hn Hv. assert (HN : NoDup (ShareConfig.vol_ID <$> volumes_of next)) by apply Hn.
  assert (Hz : v ≠ zero_Volume).
  { intros ->. pose proof (ShareConfig.wf_volumes _ (FileService.wf_shares _ Hb)) as HF. rewrite Forall_forall in HF.
    by destruct (HF _ Hv). }
  assert (Hl : ∀ w, nextVolumes next !! ShareConfig.vol_ID v = Some w ↔ w ∈ volumes_of next ∧ ShareConfig.vol_ID w = ShareConfig.vol_ID v).
  { intros w. unfold nextVolumes. rewrite (fold_insert_lookup ShareConfig.vol_ID (λ v, v)) by done. rewrite lookup_empty. naive_solver. }
  destruct (nextVolumes next !! ShareConfig.vol_ID v) as [w|] eqn:Hw; cbn [default from_option id].
  - destruct (proj1 (Hl w) eq_refl) as [Hin Hid]. split; [by intros <-|]. intros Hvn.
    by apply (NoDup_fmap_inj ShareConfig.vol_ID (volumes_of next)).
  - split; [by intros <-|]. intros Hvn. assert (None = Some v) by (by apply Hl). done.
Qed.

Lemma Replace_files base next c : in_range base →
  ReplaceFileServices base next = Some c ↔
  Validate base = true ∧ nc_Revision base < max_uint64 ∧ FileService.fc_Revision next = nc_Revision base + 1
  ∧ Validate c = true
  ∧ (∀ id v p v' p', FileService.export_source (nc_FileServices base) id v p → FileService.export_source next id v' p' → v = v' ∧ p = p')
  ∧ (∀ b v, b ∈ elems (Iscsi.pol_Backings (nc_ISCSI base)) →
       v ∈ elems (ShareConfig.cfg_Volumes (FileService.fc_Shares (nc_FileServices base))) →
       ShareConfig.vol_ID v = Iscsi.bk_VolumeID b → v ∈ elems (ShareConfig.cfg_Volumes (FileService.fc_Shares next)))
  ∧ c = mkConfig Format SchemaVersion (nc_Revision base + 1) next (iscsi_at (nc_Revision base + 1) (nc_ISCSI base)).
Proof.
  intros (Hrange & _). unfold ReplaceFileServices. rewrite guard_Some, !orb_false_iff, !negb_false_iff, Z.eqb_neq, Z.eqb_eq.
  cbn zeta. rewrite !guard_Some, negb_false_iff, detachedValues_id, existsb_False. setoid_rewrite existsb_False.
  rewrite FileService.retained_bindings, !Validate_wf, !FileService.Fs_Validate_wf.
  pose proof (next_volume (nc_FileServices base) next) as Hvol. split.
  - intros ((((Hret & Hb) & Hm) & Hrev) & Hc & Hk & [= <-]). destruct Hret as (Hbw & Hnw & Hret).
    apply Checked_wf in Hb; [|done]. apply Checked_wf in Hc; [|done].
    destruct (FileService.next_revision_u64 (nc_Revision base) Hrange Hm) as [Hu _]. rewrite Hu in Hrev. rewrite Hrev in *.
    split_and!; try done; [unfold max_uint64 in *; lia| |].
    + intros b v Hbk Hv Hid. specialize (Hk b Hbk v Hv). apply Hvol; try done. rewrite Hid, bool_decide_eq_true_2 in Hk by done.
      cbn [andb] in Hk. by apply negb_false_iff, bool_decide_eq_true in Hk; rewrite <- Hid in Hk.
    + f_equal; apply Hb.
  - intros (Hb & Hm & Hrev & Hc & Hret & Hk & ->). pose proof (wf_files _ Hb) as Hbw. pose proof (wf_files _ Hc) as Hnw.
    cbn [nc_FileServices] in Hnw. assert (Hm' : nc_Revision base ≠ max_uint64) by lia.
    destruct (FileService.next_revision_u64 (nc_Revision base) Hrange Hm') as [Hu _]. rewrite Hu, Hrev.
    rewrite (wf_format _ Hb), (wf_schema _ Hb). split_and!; try done; [by apply Checked_wf|by apply Checked_wf|].
    intros b Hbk v Hv. case_bool_decide as Hid; [|done]. cbn [andb]. apply negb_false_iff, bool_decide_eq_true. apply Hvol; try done. by eapply Hk.
Qed.

(** ** Properties *)

(** C25: replacing the file services is exact and keeps every LUN in place.  At a
    base whose numbers fit their types, the edit succeeds exactly when the base
    is valid and not at the last revision, the next configuration carries its
    successor, the combined document is valid, every retained NFS export keeps
    its source, and every volume that backs a LUN is still declared with the same
    filesystem; the result is the base with the file services replaced and all
    revisions advanced, every iSCSI definition unchanged. *)
Theorem ReplaceFileServices_exact base next c : in_range base →
  ReplaceFileServices base next = Some c ↔
  Validate base = true ∧ nc_Revision base < max_uint64 ∧ FileService.fc_Revision next = nc_Revision base + 1
  ∧ Validate c = true
  ∧ (∀ id v p v' p', FileService.export_source (nc_FileServices base) id v p → FileService.export_source next id v' p' → v = v' ∧ p = p')
  ∧ (∀ b v, b ∈ elems (Iscsi.pol_Backings (nc_ISCSI base)) →
       v ∈ elems (ShareConfig.cfg_Volumes (FileService.fc_Shares (nc_FileServices base))) →
       ShareConfig.vol_ID v = Iscsi.bk_VolumeID b → v ∈ elems (ShareConfig.cfg_Volumes (FileService.fc_Shares next)))
  ∧ c = mkConfig Format SchemaVersion (nc_Revision base + 1) next (iscsi_at (nc_Revision base + 1) (nc_ISCSI base)).
Proof. apply Replace_files. Qed.

Definition sample_iscsi : Iscsi.Policy :=
  Iscsi.mkPolicy Iscsi.Format 1 2 2
    (Some [Iscsi.mkBacking "disk-a" "bulk" "luns/a.img" 1048576 512 "sparse"; Iscsi.mkBacking "disk-b" "bulk" "luns/b.img" 4096 4096 "preallocated"])
    (Some [Iscsi.mkTarget "main" "iqn.2026-01.org.example:main" "enabled"
             (Some [Iscsi.mkLUN "lun-a" 0 "disk-a" "rw"; Iscsi.mkLUN "lun-b" 7 "disk-b" "ro"])
             (Some [Iscsi.mkInitiator "iqn.2026-01.org.example:host" (Iscsi.mkAuth "mutual-chap" "host" "secret-in" "nas" "secret-out")
                      (Some [Iscsi.mkGrant "lun-a" "rw"; Iscsi.mkGrant "lun-b" "ro"])])]).
Definition sample_nas : Config := mkConfig Format 1 2 FileService.sample_config sample_iscsi.
Lemma sample_nas_range : in_range sample_nas.
Proof.
  split; [by vm_compute|]. split; [apply FileService.sample_in_range|]. split; [by vm_compute|]. split; [by vm_compute|].
  intros t l Ht Hl. apply list_elem_of_singleton in Ht as ->. apply elem_of_cons in Hl as [->|Hl]; [by vm_compute|].
  apply list_elem_of_singleton in Hl as ->. by vm_compute.
Qed.

Lemma ReplaceFileServices_exact_witness :
  ReplaceFileServices sample_nas (FileService.rebase 3 FileService.sample_config) = Some (setRevision sample_nas 3)
  ∧ Validate (setRevision sample_nas 3) = true.
Proof.
  assert (H : ReplaceFileServices sample_nas (FileService.rebase 3 FileService.sample_config) = Some (setRevision sample_nas 3))
    by (vm_compute; reflexivity).
  split; [exact H|].
  exact (proj1 (proj2 (proj2 (proj2 (proj1 (ReplaceFileServices_exact sample_nas _ _ sample_nas_range) H))))).
Defined.

(** Replacing the iSCSI policy is exact: at a base whose numbers fit their
    types it succeeds exactly when the base is valid and not at the last
    revision, the next policy carries its successor and the combined document is
    valid; the result is the base with the policy replaced and the revisions of
    the file services advanced, nothing else. *)
Theorem ReplaceISCSI_exact base next c : in_range base →
  ReplaceISCSI base next = Some c ↔
  Validate base = true ∧ nc_Revision base < max_uint64 ∧ Iscsi.pol_Revision next = nc_Revision base + 1 ∧ Validate c = true
  ∧ c = mkConfig Format SchemaVersion (nc_Revision base + 1) (FileService.rebase (nc_Revision base + 1) (nc_FileServices base)) next.
Proof.
  intros (Hrange & _). unfold ReplaceISCSI. rewrite guard_Some, !orb_false_iff, !negb_false_iff, Z.eqb_neq, Z.eqb_eq.
  cbn zeta. rewrite guard_Some, negb_false_iff, detachedValues_id. split.
  - intros (((Hb & Hm) & Hrev) & Hc & [= <-]). destruct (FileService.next_revision_u64 (nc_Revision base) Hrange Hm) as [Hu _].
    rewrite Hu in Hrev. rewrite Hrev in *. split_and!; try done; [unfold max_uint64 in *; lia|].
    apply Validate_wf in Hb. f_equal; apply Hb.
  - intros (Hb & Hm & Hrev & Hc & ->). assert (Hm' : nc_Revision base ≠ max_uint64) by lia.
    destruct (FileService.next_revision_u64 (nc_Revision base) Hrange Hm') as [Hu _]. rewrite Hu, Hrev.
    pose proof (proj1 (Validate_wf _) Hb) as Hw. by rewrite (wf_format _ Hw), (wf_schema _ Hw).
Qed.

Lemma ReplaceISCSI_exact_witness :
  ReplaceISCSI sample_nas (iscsi_at 3 sample_iscsi) = Some (setRevision sample_nas 3) ∧ Validate (setRevision sample_nas 3) = true.
Proof.
  assert (H : ReplaceISCSI sample_nas (iscsi_at 3 sample_iscsi) = Some (setRevision sample_nas 3)) by (vm_compute; reflexivity).
  split; [exact H|].
  exact (proj1 (proj2 (proj2 (proj2 (proj1 (ReplaceISCSI_exact sample_nas _ _ sample_nas_range) H))))).
Defined.

(** A restored NAS candidate is a valid document at the successor of the
    expected revision, whatever bytes were uploaded, and it is the uploaded
    configuration with its seven revisions changed and nothing else. *)
Theorem Nas_RestoreCandidate_sound data expected c : 0 ≤ expected < 2 ^ 64 → RestoreCandidate data expected = Some c →
  Validate c = true ∧ in_range c ∧ nc_Revision c = expected + 1
  ∧ ∃ fields original, RawEnvelope data MaxBackupBytes 12 ["format"; "schema_version"; "configuration"] = Some fields
      ∧ Decode (bytes_reader (raw fields "configuration")) = Some original ∧ c = setRevision original (expected + 1)
      ∧ SameDefinitions original c = true.
Proof.
  intros He Hd. unfold RestoreCandidate in Hd. destruct (Z.eqb_spec expected max_uint64) as [->|Hn]; [done|].
  apply bind_Some in Hd as (fields & Hfields & Hd). apply bind_Some in Hd as (? & _ & Hd). case_match; [done|].
  apply bind_Some in Hd as (? & _ & Hd). case_match; [done|]. apply bind_Some in Hd as (original & Ho & Hd).
  destruct (FileService.next_revision_u64 expected He Hn) as [Hu Hb]. rewrite Hu in Hd.
  destruct (Nas_Decode_sound _ _ Ho) as [Hw Hr]. rewrite Decode_setRevision in Hd by done.
  destruct (nas_fits _) eqn:Hf; [|done]. apply (inj Some) in Hd as <-.
  assert (Hv : Validate (setRevision original (expected + 1)) = true) by (by apply Validate_wf, setRevision_wf).
  split_and!; [done|apply setRevision_range; (done || lia)|done|]. exists fields, original. split_and!; try done.
  unfold SameDefinitions. rewrite Hv, (proj2 (Validate_wf _) Hw). by apply bool_decide_eq_true.
Qed.

Definition sample_backup : string :=
  Marshal (JObj [("configuration", enc_Config sample_nas); ("format", JStr BackupFormat); ("schema_version", enc_int 1)]).
Lemma Nas_RestoreCandidate_sound_witness :
  ∃ c, RestoreCandidate sample_backup 41 = Some c ∧ nc_Revision c = 42.
Proof.
  destruct (RestoreCandidate sample_backup 41) as [c|] eqn:Hc; [|vm_compute in Hc; discriminate].
  exists c. split; [reflexivity|]. destruct (Nas_RestoreCandidate_sound sample_backup 41 c ltac:(lia) Hc) as (_ & _ & H & _). exact H.
Defined.

(** [SameDefinitions] holds exactly of two valid documents that agree once
    their revisions are made equal, so on valid documents it is an equivalence. *)
Theorem SameDefinitions_exact a b :
  SameDefinitions a b = true ↔ Validate a = true ∧ Validate b = true ∧ ∀ r, setRevision a r = setRevision b r.
Proof.
  unfold SameDefinitions. destruct (Validate a) eqn:Ha; [|naive_solver]. destruct (Validate b) eqn:Hb; [|naive_solver].
  cbn [negb orb]. rewrite bool_decide_eq_true. apply Validate_wf in Hb. pose proof (setRevision_self b Hb) as Hs. split.
  - intros Heq. split_and!; try done. intros r. by rewrite <- Heq.
  - intros (_ & _ & Heq). by rewrite Heq.
Qed.
End NasPolicy.
