(* ===== verification/NetworkPolicy.v ===== *)
(** * Desired network policy: [internal/networkpolicy/policy.go]

    Two logical ports, each with an IPv4 and an IPv6 family, static routes and
    name servers.  [Policy_Validate] is [Policy.Validate] with its loops;
    [wf_policy] is the contract in terms of addresses and networks: the networks
    of the two ports have no common address, and a gateway is a neighbour on the
    port it is used on and never one of the box's own addresses. *)

From S2P Require Import Prelude GoStrings Utf8 ConfigJson GoJson NetIP.
Import GoJson NetIP.

Module NetworkPolicy.

Definition Format : string := "phantowd-network-policy".
Definition MaxInputBytes : Z := 16384.
Definition MaxAddresses : Z := 4.
Definition MaxRoutes : Z := 16.
Definition MaxDNSServers : Z := 3.
Definition MaxSearchDomains : Z := 6.

(** ** Data *)
Record Family := mkFamily {
  fa_Mode : string; fa_Addresses : slice string; fa_DefaultRoute : bool; fa_Gateway : string; fa_Metric : Z }.
Record Interface := mkInterface { if_Slot : string; if_IPv4 : Family; if_IPv6 : Family }.
Record Route := mkRoute { rt_Slot : string; rt_Destination : string; rt_Gateway : string; rt_Metric : Z }.
Record DNS := mkDNS { dns_Mode : string; dns_Source : string; dns_Servers : slice string; dns_SearchDomains : slice string }.
Record Policy := mkPolicy {
  pol_Format : string; pol_SchemaVersion : Z; pol_Revision : Z; pol_Hostname : string;
  pol_Interfaces : slice Interface; pol_Routes : slice Route; pol_DNS : DNS }.

(** ** Predicates *)
Definition slot (value : string) : bool := (value == "lan-1") || (value == "lan-2").
Definition label_char (c : Z) : bool := is_lower c || is_digit c || (c =? 45).
Definition label (value : string) : bool :=
  if (slength value =? 0) || (63 <? slength value) || (byte_at value 0 =? 45) || ends_with 45 value then false
  else forallb label_char (runes value).
(** [address]: the address when it is canonical *)
Definition address (value : string) : option Addr :=
  if 64 <? slength value then None
  else match ParseAddr value with
  | Some a => if (Zone a == "") && negb (Is4In6 a) && (String_ a == value) then Some a else None
  | None => None
  end.
(** a parsed address is valid, so [a.IsValid()] holds *)
Definition unicast (a : Addr) (linkLocal : bool) : bool :=
  if (Zone a != "") || Is4In6 a || IsLoopback a then false
  else if negb (Is4 a) then
    (Z.land (byte_of a 0) 224 =? 32) || (Z.land (byte_of a 0) 254 =? 252) || (linkLocal && IsLinkLocalUnicast a)
  else IsGlobalUnicast a && negb (IsLinkLocalUnicast a) && negb (byte_of a 0 =? 0) && (byte_of a 0 <? 224).
Definition ipv4Host (p : Prefix) : bool :=
  if 31 <=? pfx_bits p then true
  else
    let a := pfx_addr p in
    let v := Z.lor (Z.lor (Z.lor (Z.shiftl (byte_of a 0) 24) (Z.shiftl (byte_of a 1) 16)) (Z.shiftl (byte_of a 2) 8)) (byte_of a 3) in
    let hostMask := Z.shiftr max_uint32 (pfx_bits p) in
    negb (Z.land v hostMask =? 0) && negb (Z.land v hostMask =? hostMask).

(** ** Validation; every failure is the one error [ErrInvalid] *)
Abbreviation invalid := tt.
Definition address_step (v4 : bool) (_ : Z) (parsed : list Prefix) (value : string) : res unit (list Prefix) :=
  refuse 64 <? slength value => invalid ;;
  match ParsePrefix value with
  | None => Err invalid
  | Some prefix =>
    refuse (Prefix_String prefix != value) || (pfx_bits prefix =? 0) || negb (Bool.eqb (Is4 (pfx_addr prefix)) v4)
           || negb (unicast (pfx_addr prefix) false) || (v4 && negb (ipv4Host prefix)) => invalid ;;
    refuse existsb (λ old, pfx_addr old == pfx_addr prefix) parsed => invalid ;;
    Ok (parsed ++ [prefix])
  end.
Definition validateFamily (f : Family) (v4 : bool) : res unit (list Prefix) :=
  refuse is_nil (fa_Addresses f) || (MaxAddresses <? slen (fa_Addresses f)) => invalid ;;
  if fa_Mode f == "disabled" then
    refuse negb (slen (fa_Addresses f) =? 0) || fa_DefaultRoute f || (fa_Gateway f != "") || negb (fa_Metric f =? 0) => invalid ;;
    Ok []
  else
    refuse (if fa_Mode f == "dhcp" then negb v4 else if fa_Mode f == "auto" then v4
            else if fa_Mode f == "static" then slen (fa_Addresses f) =? 0 else true) => invalid ;;
    refuse negb (Bool.eqb (fa_DefaultRoute f) (negb (fa_Metric f =? 0)))
           || ((fa_Gateway f != "") && ((fa_Mode f != "static") || negb (fa_DefaultRoute f)))
           || ((fa_Mode f == "static") && fa_DefaultRoute f && (fa_Gateway f == ""))
           || ((fa_Mode f != "static") && negb (slen (fa_Addresses f) =? 0)) => invalid ;;
    for_range (address_step v4) 0 [] (elems (fa_Addresses f)).

(** the loop over the ports: the networks of each port, the metrics of the
    default routes and whether any family is enabled *)
Record ports := mkPorts { po_prefixes : list (list Prefix * list Prefix); po_default4 : Z; po_default6 : Z; po_enabled : bool }.
Definition family_step (f : Family) (v4 : bool) (default : Z) : res unit (list Prefix * Z) :=
  parsed ← validateFamily f v4;
  refuse fa_DefaultRoute f && (default =? fa_Metric f) => invalid ;;
  Ok (parsed, if fa_DefaultRoute f then fa_Metric f else default).
Definition port_step (interfaces : list Interface) (i : Z) (st : ports) (port : Interface) : res unit ports :=
  refuse negb (slot (if_Slot port)) || ((i =? 1) && (Some (if_Slot port) == (if_Slot <$> head interfaces))) => invalid ;;
  '(p4, d4) ← family_step (if_IPv4 port) true (po_default4 st);
  '(p6, d6) ← family_step (if_IPv6 port) false (po_default6 st);
  Ok (mkPorts (po_prefixes st ++ [(p4, p6)]) d4 d6
        (po_enabled st || (fa_Mode (if_IPv4 port) != "disabled") || (fa_Mode (if_IPv6 port) != "disabled"))).

Definition common_network (a b : list Prefix) : bool := existsb (λ p, existsb (λ q, Overlaps p q) b) a.
Definition gateway (value : string) (v4 : bool) (onLink : list Prefix) (all : list (list Prefix * list Prefix)) : bool :=
  match address value with
  | None => false
  | Some a =>
    if negb (Bool.eqb (Is4 a) v4) || negb (unicast a (negb v4)) then false
    else if existsb (λ port, existsb (λ p, pfx_addr p == a) port.1 || existsb (λ p, pfx_addr p == a) port.2) all then false
    else if negb v4 && IsLinkLocalUnicast a then true
    else existsb (λ p, Contains p a && (negb v4 || ipv4Host (PrefixFrom a (pfx_bits p)))) onLink
  end.
Definition bad_gateway (f : Family) (v4 : bool) (onLink : list Prefix) (all : list (list Prefix * list Prefix)) : bool :=
  (fa_Gateway f != "") && negb (gateway (fa_Gateway f) v4 onLink all).

Fixpoint index_of (value : string) (i : Z) (interfaces : list Interface) : Z :=
  match interfaces with
  | [] => -1
  | port :: rest => if if_Slot port == value then i else index_of value (i + 1) rest
  end.
Definition portIndex (interfaces : list Interface) (value : string) : Z :=
  if negb (slot value) then -1 else index_of value 0 interfaces.

Definition same_route (old r : Route) : bool := (rt_Destination old == rt_Destination r) && (rt_Metric old =? rt_Metric r).
Definition zero_Family : Family := mkFamily "" None false "" 0.
Definition zero_Interface : Interface := mkInterface "" zero_Family zero_Family.
Definition route_step (interfaces : list Interface) (prefixes : list (list Prefix * list Prefix)) (_ : Z) (earlier : list Route) (r : Route) :
  res unit (list Route) :=
  refuse 64 <? slength (rt_Destination r) => invalid ;;
  let port := portIndex interfaces (rt_Slot r) in
  match ParsePrefix (rt_Destination r) with
  | None => Err invalid
  | Some destination =>
    refuse (port <? 0) || (Prefix_String destination != rt_Destination r) || (destination != Masked destination)
           || (pfx_bits destination =? 0) || negb (unicast (pfx_addr destination) false) || (rt_Metric r =? 0) => invalid ;;
    let iface := default zero_Interface (interfaces !! Z.to_nat port) in
    let onLink := default ([], []) (prefixes !! Z.to_nat port) in
    let v4 := Is4 (pfx_addr destination) in
    refuse ((if v4 then fa_Mode (if_IPv4 iface) else fa_Mode (if_IPv6 iface)) != "static")
           || negb (gateway (rt_Gateway r) v4 (if v4 then onLink.1 else onLink.2) prefixes) => invalid ;;
    refuse existsb (λ old, same_route old r) earlier => invalid ;;
    Ok (earlier ++ [r])
  end.

Definition server_step (_ : Z) (earlier : list string) (value : string) : res unit (list string) :=
  match address value with
  | None => Err invalid
  | Some addr =>
    refuse negb (unicast addr false || IsLoopback addr) => invalid ;;
    refuse value ∈? earlier => invalid ;;
    Ok (earlier ++ [value])
  end.
Definition domain_step (_ : Z) (earlier : list string) (domain : string) : res unit (list string) :=
  refuse (253 <? slength domain) || (slength domain =? 0) => invalid ;;
  refuse negb (forallb label (split_on "." domain)) => invalid ;;
  refuse domain ∈? earlier => invalid ;;
  Ok (earlier ++ [domain]).
Definition validateDNS (interfaces : list Interface) (d : DNS) : res unit unit :=
  refuse is_nil (dns_Servers d) || is_nil (dns_SearchDomains d) || (MaxDNSServers <? slen (dns_Servers d))
         || (MaxSearchDomains <? slen (dns_SearchDomains d)) => invalid ;;
  let i := portIndex interfaces (dns_Source d) in
  let iface := default zero_Interface (interfaces !! Z.to_nat i) in
  refuse (if dns_Mode d == "manual" then (dns_Source d != "") || (slen (dns_Servers d) =? 0)
          else if dns_Mode d == "automatic"
          then (i <? 0) || negb (slen (dns_Servers d) =? 0)
               || ((fa_Mode (if_IPv4 iface) != "dhcp") && (fa_Mode (if_IPv6 iface) != "auto"))
          else true) => invalid ;;
  _ ← for_range server_step 0 [] (elems (dns_Servers d));
  _ ← for_range domain_step 0 [] (elems (dns_SearchDomains d));
  Ok tt.

Definition Policy_Validate (p : Policy) : res unit unit :=
  let interfaces := elems (pol_Interfaces p) in
  refuse (pol_Format p != Format) || negb (pol_SchemaVersion p =? 1) || (pol_Revision p =? 0) || negb (label (pol_Hostname p))
         || negb (len interfaces =? 2) || is_nil (pol_Routes p) || (MaxRoutes <? slen (pol_Routes p)) => invalid ;;
  st ← for_range (port_step interfaces) 0 (mkPorts [] 0 0 false) interfaces;
  refuse negb (po_enabled st) => invalid ;;
  let port i := default ([], []) (po_prefixes st !! i) in
  refuse common_network (port 0%nat).1 (port 1%nat).1 || common_network (port 0%nat).2 (port 1%nat).2 => invalid ;;
  refuse existsb (λ '(iface, on), bad_gateway (if_IPv4 iface) true on.1 (po_prefixes st)
                                  || bad_gateway (if_IPv6 iface) false on.2 (po_prefixes st))
           (zip interfaces (po_prefixes st)) => invalid ;;
  _ ← for_range (route_step interfaces (po_prefixes st)) 0 [] (elems (pol_Routes p));
  validateDNS interfaces (pol_DNS p).

(** ** Decoding *)
Definition fields : list string :=
  ["format"; "schema_version"; "revision"; "hostname"; "interfaces"; "slot"; "ipv4"; "ipv6"; "mode"; "addresses";
   "default_route"; "gateway"; "metric"; "routes"; "destination"; "dns"; "source"; "servers"; "search_domains"].
Definition dec_Family : jval → option Family :=
  as_struct ["mode"; "addresses"; "default_route"; "gateway"; "metric"] zero_Family (λ ms,
  m ← fld "mode" as_str "" ms; a ← fld "addresses" (as_slice as_str) None ms; d ← fld "default_route" as_bool false ms;
  g ← fld "gateway" as_str "" ms; n ← fld "metric" (as_uint 16) 0 ms; Some (mkFamily m a d g n)).
Definition dec_Interface : jval → option Interface :=
  as_struct ["slot"; "ipv4"; "ipv6"] zero_Interface (λ ms,
  s ← fld "slot" as_str "" ms; f4 ← fld "ipv4" dec_Family zero_Family ms; f6 ← fld "ipv6" dec_Family zero_Family ms;
  Some (mkInterface s f4 f6)).
Definition dec_Route : jval → option Route :=
  as_struct ["slot"; "destination"; "gateway"; "metric"] (mkRoute "" "" "" 0) (λ ms,
  s ← fld "slot" as_str "" ms; d ← fld "destination" as_str "" ms; g ← fld "gateway" as_str "" ms;
  n ← fld "metric" (as_uint 16) 0 ms; Some (mkRoute s d g n)).
Definition zero_DNS : DNS := mkDNS "" "" None None.
Definition dec_DNS : jval → option DNS :=
  as_struct ["mode"; "source"; "servers"; "search_domains"] zero_DNS (λ ms,
  m ← fld "mode" as_str "" ms; s ← fld "source" as_str "" ms; v ← fld "servers" (as_slice as_str) None ms;
  d ← fld "search_domains" (as_slice as_str) None ms; Some (mkDNS m s v d)).
Definition dec_Policy : jval → option Policy :=
  as_struct ["format"; "schema_version"; "revision"; "hostname"; "interfaces"; "routes"; "dns"]
    (mkPolicy "" 0 0 "" None None zero_DNS) (λ ms,
  f ← fld "format" as_str "" ms; s ← fld "schema_version" as_int 0 ms; r ← fld "revision" (as_uint 64) 0 ms;
  h ← fld "hostname" as_str "" ms; i ← fld "interfaces" (as_slice dec_Interface) None ms;
  t ← fld "routes" (as_slice dec_Route) None ms; d ← fld "dns" dec_DNS zero_DNS ms; Some (mkPolicy f s r h i t d)).
Definition Decode (input : reader) : option Policy :=
  match DecodeInto dec_Policy input MaxInputBytes 8 fields with
  | Ok p => if is_ok (Policy_Validate p) then Some p else None
  | Err _ => None
  end.

(** ** The contract *)

(** neither the network nor the broadcast address of an IPv4 subnet *)
Definition host_address (a : Addr) (bits : Z) : Prop :=
  31 ≤ bits ∨ 0 < value a mod 2 ^ (32 - bits) < 2 ^ (32 - bits) - 1.
Record good_prefix (v4 : bool) (text : string) (p : Prefix) : Prop := {
  gp_parsed : ParsePrefix text = Some p;
  gp_text : slength text ≤ 64 ∧ Prefix_String p = text;
  gp_bits : pfx_bits p ≠ 0;
  gp_family : Is4 (pfx_addr p) = v4;
  gp_unicast : unicast (pfx_addr p) false = true;
  gp_host : v4 = true → host_address (pfx_addr p) (pfx_bits p) }.
(** the networks a family configures *)
Inductive family_nets (v4 : bool) (f : Family) : list Prefix → Prop :=
| family_disabled : fa_Mode f = "disabled" → fa_Addresses f = Some [] → fa_DefaultRoute f = false → fa_Gateway f = "" →
    fa_Metric f = 0 → family_nets v4 f []
| family_automatic : fa_Mode f = (if v4 then "dhcp" else "auto") → fa_Addresses f = Some [] →
    fa_DefaultRoute f = negb (fa_Metric f =? 0) → fa_Gateway f = "" → family_nets v4 f []
| family_static ps : fa_Mode f = "static" → is_nil (fa_Addresses f) = false → 1 ≤ slen (fa_Addresses f) ≤ MaxAddresses →
    fa_DefaultRoute f = negb (fa_Metric f =? 0) → (fa_DefaultRoute f = true ↔ fa_Gateway f ≠ "") →
    Forall2 (good_prefix v4) (elems (fa_Addresses f)) ps → NoDup (pfx_addr <$> ps) → family_nets v4 f ps.

(** a neighbour: canonical, of the family, not one of the box's addresses, and on
    the link (or link-local for IPv6) *)
Definition neighbour (text : string) (v4 : bool) (onLink own : list Prefix) : Prop :=
  ∃ a, address text = Some a ∧ Is4 a = v4 ∧ unicast a (negb v4) = true ∧ a ∉ pfx_addr <$> own
    ∧ (v4 = false ∧ IsLinkLocalUnicast a = true
       ∨ ∃ p, p ∈ onLink ∧ in_network p a ∧ (v4 = true → host_address a (pfx_bits p))).

(** all configured prefixes *)
Definition own_prefixes (all : list (list Prefix * list Prefix)) : list Prefix := all ≫= λ port, port.1 ++ port.2.
(** the port of a slot, with its networks *)
Definition on_port (ports : list (Interface * (list Prefix * list Prefix))) (s : string) (iface : Interface) (on : list Prefix * list Prefix) : Prop :=
  (iface, on) ∈ ports ∧ if_Slot iface = s.
Definition mode_of (v4 : bool) (i : Interface) : string := if v4 then fa_Mode (if_IPv4 i) else fa_Mode (if_IPv6 i).
Definition nets_of (v4 : bool) (on : list Prefix * list Prefix) : list Prefix := if v4 then on.1 else on.2.
(** a route: a canonical network, reached through a neighbour of a statically
    configured port *)
Definition good_route (ports : list (Interface * (list Prefix * list Prefix))) (own : list Prefix) (r : Route) : Prop :=
  ∃ dest iface on, slength (rt_Destination r) ≤ 64 ∧ ParsePrefix (rt_Destination r) = Some dest ∧ Prefix_String dest = rt_Destination r
    ∧ dest = Masked dest ∧ pfx_bits dest ≠ 0 ∧ unicast (pfx_addr dest) false = true ∧ rt_Metric r ≠ 0
    ∧ on_port ports (rt_Slot r) iface on ∧ mode_of (Is4 (pfx_addr dest)) iface = "static"
    ∧ neighbour (rt_Gateway r) (Is4 (pfx_addr dest)) (nets_of (Is4 (pfx_addr dest)) on) own.
Definition routes_differ (o r : Route) : Prop := ¬ (rt_Destination o = rt_Destination r ∧ rt_Metric o = rt_Metric r).
Definition good_server (text : string) : Prop := ∃ a, address text = Some a ∧ (unicast a false = true ∨ IsLoopback a = true).
Definition good_domain (d : string) : Prop := 1 ≤ slength d ≤ 253 ∧ Forall (λ l, label l = true) (split_on "." d).
Record good_dns (interfaces : list Interface) (d : DNS) : Prop := {
  gd_present : is_nil (dns_Servers d) = false ∧ is_nil (dns_SearchDomains d) = false;
  gd_counts : slen (dns_Servers d) ≤ MaxDNSServers ∧ slen (dns_SearchDomains d) ≤ MaxSearchDomains;
  gd_mode : dns_Mode d = "manual" ∧ dns_Source d = "" ∧ slen (dns_Servers d) ≠ 0
            ∨ dns_Mode d = "automatic" ∧ slen (dns_Servers d) = 0
              ∧ ∃ i, i ∈ interfaces ∧ if_Slot i = dns_Source d ∧ (fa_Mode (if_IPv4 i) = "dhcp" ∨ fa_Mode (if_IPv6 i) = "auto");
  gd_servers : Forall good_server (elems (dns_Servers d)) ∧ NoDup (elems (dns_Servers d));
  gd_domains : Forall good_domain (elems (dns_SearchDomains d)) ∧ NoDup (elems (dns_SearchDomains d)) }.
Definition good_gateway (f : Family) (v4 : bool) (onLink own : list Prefix) : Prop :=
  fa_Gateway f ≠ "" → neighbour (fa_Gateway f) v4 onLink own.

Record wf_policy (p : Policy) (a b : Interface) (na nb : list Prefix * list Prefix) : Prop := {
  wp_header : pol_Format p = Format ∧ pol_SchemaVersion p = 1 ∧ pol_Revision p ≠ 0 ∧ label (pol_Hostname p) = true;
  wp_ports : pol_Interfaces p = Some [a; b];
  wp_slots : slot (if_Slot a) = true ∧ slot (if_Slot b) = true ∧ if_Slot a ≠ if_Slot b;
  wp_nets_a : family_nets true (if_IPv4 a) na.1 ∧ family_nets false (if_IPv6 a) na.2;
  wp_nets_b : family_nets true (if_IPv4 b) nb.1 ∧ family_nets false (if_IPv6 b) nb.2;
  (** default routes of one family have different metrics *)
  wp_defaults : ∀ v4 : bool, let f i := if v4 then if_IPv4 i else if_IPv6 i in
    fa_DefaultRoute (f a) = true → fa_DefaultRoute (f b) = true → fa_Metric (f a) ≠ fa_Metric (f b);
  wp_enabled : ∃ v4 i, (i = a ∨ i = b) ∧ mode_of v4 i ≠ "disabled";
  (** no address is on both ports *)
  wp_apart : ∀ x p q, p ∈ na.1 ++ na.2 → q ∈ nb.1 ++ nb.2 → in_network p x → in_network q x → False;
  wp_gateways : let own := own_prefixes [na; nb] in
    good_gateway (if_IPv4 a) true na.1 own ∧ good_gateway (if_IPv6 a) false na.2 own
    ∧ good_gateway (if_IPv4 b) true nb.1 own ∧ good_gateway (if_IPv6 b) false nb.2 own;
  wp_routes : is_nil (pol_Routes p) = false ∧ slen (pol_Routes p) ≤ MaxRoutes
    ∧ Forall (good_route [(a, na); (b, nb)] (own_prefixes [na; nb])) (elems (pol_Routes p))
    ∧ ForallOrdPairs routes_differ (elems (pol_Routes p));
  wp_dns : good_dns [a; b] (pol_DNS p) }.

(** ** Lemmas *)
Lemma lor_shifted a b k : 0 ≤ k → 0 ≤ b < 2 ^ k → Z.lor (Z.shiftl a k) b = a * 2 ^ k + b.
Proof.
  intros Hk Hb. rewrite <- Z.shiftl_mul_pow2 by done. symmetry. apply Z.add_nocarry_lor, Z.bits_inj'. intros n Hn.
  rewrite Z.land_spec, Z.bits_0. destruct (Z.ltb_spec n k) as [Hlt|Hge]; [by rewrite Z.shiftl_spec_low|].
  rewrite <- (Z.mod_small b (2 ^ k)), Z.mod_pow2_bits_high by lia. by rewrite andb_false_r.
Qed.

(** The four bytes of an IPv4 address put together. *)
Lemma bytes_value v : 0 ≤ v < 2 ^ 32 →
  Z.lor (Z.lor (Z.lor (Z.shiftl (byte_of (Addr4 v) 0) 24) (Z.shiftl (byte_of (Addr4 v) 1) 16)) (Z.shiftl (byte_of (Addr4 v) 2) 8))
    (byte_of (Addr4 v) 3) = v.
Proof.
  intros Hv. unfold byte_of. cbn [value BitLen Is4].
  change (32 - 8 - 8 * 0) with 24. change (32 - 8 - 8 * 1) with 16. change (32 - 8 - 8 * 2) with 8. change (32 - 8 - 8 * 3) with 0.
  change (2 ^ 0) with 1. rewrite Z.div_1_r. change (2 ^ 24) with 16777216. change (2 ^ 16) with 65536. change (2 ^ 8) with 256.
  set (b0 := (v / 16777216) mod 256). set (b1 := (v / 65536) mod 256). set (b2 := (v / 256) mod 256). set (b3 := v mod 256).
  assert (0 ≤ b0 < 256 ∧ 0 ≤ b1 < 256 ∧ 0 ≤ b2 < 256 ∧ 0 ≤ b3 < 256) as (? & ? & ? & ?)
    by (split_and!; subst b0 b1 b2 b3; apply Z.mod_pos_bound; lia).
  assert (Hval : v = ((b0 * 256 + b1) * 256 + b2) * 256 + b3).
  { subst b0 b1 b2 b3. rewrite (Z.mod_small (v / 16777216)) by (split; [apply Z.div_pos; lia|apply Z.div_lt_upper_bound; lia]).
    assert (v / 65536 = v / 256 / 256) as -> by (by rewrite Z.div_div by lia).
    assert (v / 16777216 = v / 256 / 256 / 256) as -> by (by rewrite !Z.div_div by lia).
    pose proof (Z.div_mod v 256). pose proof (Z.div_mod (v / 256) 256). pose proof (Z.div_mod (v / 256 / 256) 256). lia. }
  rewrite (Z.shiftl_mul_pow2 b1 16), (Z.shiftl_mul_pow2 b2 8) by lia.
  rewrite (lor_shifted b0 (b1 * 2 ^ 16) 24) by lia.
  replace (b0 * 2 ^ 24 + b1 * 2 ^ 16) with (Z.shiftl (b0 * 256 + b1) 16) by (rewrite Z.shiftl_mul_pow2; lia).
  rewrite lor_shifted by lia.
  replace ((b0 * 256 + b1) * 2 ^ 16 + b2 * 2 ^ 8) with (Z.shiftl ((b0 * 256 + b1) * 256 + b2) 8) by (rewrite Z.shiftl_mul_pow2; lia).
  rewrite lor_shifted by lia. change (2 ^ 8) with 256. lia.
Qed.

Lemma ipv4Host_spec v bits : 0 ≤ v < 2 ^ 32 → 0 ≤ bits ≤ 32 →
  ipv4Host (mkPrefix (Addr4 v) bits) = true ↔ host_address (Addr4 v) bits.
Proof.
  intros Hv Hb. unfold ipv4Host, host_address. cbn [pfx_addr pfx_bits]. cbn zeta. rewrite bytes_value by done. cbn [value].
  destruct (Z.leb_spec 31 bits); [naive_solver|].
  assert (Hm : Z.shiftr max_uint32 bits = Z.ones (32 - bits)).
  { change max_uint32 with (Z.ones 32). apply Z.bits_inj'. intros n Hn. rewrite Z.shiftr_spec by lia.
    destruct (Z.ltb_spec n (32 - bits)); [rewrite !Z.ones_spec_low by lia|rewrite !Z.ones_spec_high by lia]; done. }
  rewrite Hm, Z.land_ones by lia. rewrite Z.ones_equiv. rewrite andb_true_iff, !negb_true_iff, !Z.eqb_neq.
  pose proof (Z.mod_pos_bound v (2 ^ (32 - bits)) ltac:(apply Z.pow_pos_nonneg; lia)). lia.
Qed.

Lemma host_prefix p : prefix_ok p → Is4 (pfx_addr p) = true → (ipv4Host p = true ↔ host_address (pfx_addr p) (pfx_bits p)).
Proof.
  destruct p as [[v|] bits]; [|done]. intros (Ha & Hb & _) _. cbn in *. apply ipv4Host_spec; [|done]. apply Ha.
Qed.

Lemma address_step_Ok v4 i parsed text parsed' : address_step v4 i parsed text = Ok parsed' ↔
  ∃ p, good_prefix v4 text p ∧ pfx_addr p ∉ pfx_addr <$> parsed ∧ parsed' = parsed ++ [p].
Proof.
  unfold address_step. rewrite refuse_Ok, Z.ltb_ge. destruct (ParsePrefix text) as [p|] eqn:Hp.
  - pose proof (ParsePrefix_ok text p Hp) as Hok. pose proof (host_prefix p Hok) as Hh.
    rewrite !refuse_Ok, !orb_false_iff, !negb_false_iff, Z.eqb_neq, bool_decide_eq_true, eqb_true_iff, existsb_False.
    assert (Hold : (∀ x, x ∈ parsed → bool_decide (pfx_addr x = pfx_addr p) = false) ↔ pfx_addr p ∉ pfx_addr <$> parsed).
    { rewrite list_elem_of_fmap. split.
      - intros H (x & Hx & Hin). apply H in Hin. rewrite Hx in Hin. by rewrite bool_decide_eq_true_2 in Hin.
      - intros H x Hin. apply bool_decide_eq_false. intros He. apply H. by exists x. }
    rewrite Hold. split.
    + intros (? & ((((? & ?) & Hf) & ?) & Hv) & ? & [= <-]). exists p. split_and!; try done. split; try done.
      intros ->. apply Hh; [done|]. by destruct (ipv4Host p).
    + intros (q & [? [? ?] ? Hf ? Hhost] & ? & ->). simplify_eq. split_and!; try done.
      destruct (Is4 (pfx_addr q)) eqn:H4; [|done]. cbn [andb]. apply negb_false_iff, Hh; auto.
  - split; [naive_solver|]. intros (q & [Hq] & _). congruence.
Qed.

Lemma addresses_Ok v4 texts ps : for_range (address_step v4) 0 [] texts = Ok ps ↔ Forall2 (good_prefix v4) texts ps ∧ NoDup (pfx_addr <$> ps).
Proof.
  assert (Hgen : ∀ i parsed, NoDup (pfx_addr <$> parsed) → for_range (address_step v4) i parsed texts = Ok ps ↔
    ∃ qs, Forall2 (good_prefix v4) texts qs ∧ ps = parsed ++ qs ∧ NoDup (pfx_addr <$> ps)).
  { induction texts as [|t texts IH]; intros i parsed HN.
    - cbn [for_range]. split.
      + intros [= <-]. exists []. by rewrite app_nil_r.
      + intros (qs & ->%Forall2_nil_inv_l & -> & _). by rewrite app_nil_r.
    - rewrite for_range_cons_Ok. setoid_rewrite address_step_Ok. split.
      + intros (st & (p & Hp & Hf & ->) & Hr). apply IH in Hr as (qs & HF & -> & HN').
        * exists (p :: qs). rewrite <- app_assoc in *. split_and!; [by constructor|done|done].
        * rewrite fmap_app. apply NoDup_app. split_and!; [done|set_solver|apply NoDup_singleton].
      + intros (qs & (p & qs' & Hp & HF & ->)%Forall2_cons_inv_l & -> & HN').
        rewrite fmap_app, fmap_cons in HN'. apply NoDup_app in HN' as (HN1 & Hd & HN2).
        exists (parsed ++ [p]). split; [exists p; split_and!; [done|set_solver|done]|]. apply IH.
        * rewrite fmap_app. apply NoDup_app. split_and!; [done|set_solver|apply NoDup_singleton].
        * exists qs'. rewrite <- app_assoc. split_and!; [done|done|]. rewrite fmap_app, fmap_cons. by apply NoDup_app. }
  rewrite Hgen by constructor. cbn [app]. naive_solver.
Qed.

Lemma empty_slice {A} (s : slice A) : is_nil s = false → slen s = 0 → s = Some [].
Proof. destruct s as [[|x l]|]; unfold slen, len; cbn; [done|lia|done]. Qed.

Lemma validateFamily_Ok f v4 ps : validateFamily f v4 = Ok ps ↔ family_nets v4 f ps.
Proof.
  unfold validateFamily. rewrite refuse_Ok, orb_false_iff, Z.ltb_ge.
  assert (Hslen : 0 ≤ slen (fa_Addresses f)) by (unfold slen, len; lia).
  assert (Hmax : 0 ≤ MaxAddresses) by (by vm_compute).
  destruct (decide (fa_Mode f = "disabled")) as [Hm|Hm].
  { rewrite (bool_decide_eq_true_2 _ Hm), refuse_Ok, !orb_false_iff, !negb_false_iff, !Z.eqb_eq, bool_decide_eq_true. split.
    - intros ((? & ?) & (((? & ?) & ?) & ?) & [= <-]). apply family_disabled; try done. by apply empty_slice.
    - intros [H1 H2 H3 H4 H5|H1|? H1]; [|exfalso; destruct v4; congruence|congruence]. rewrite H2, H3, H4, H5. done. }
  rewrite (bool_decide_eq_false_2 _ Hm), !refuse_Ok, addresses_Ok.
  destruct (decide (fa_Mode f = "static")) as [Hst|Hst].
  - rewrite Hst, (bool_decide_eq_false_2 ("static" = "dhcp")), (bool_decide_eq_false_2 ("static" = "auto")),
      (bool_decide_eq_true_2 ("static" = "static")) by done. cbn [negb andb orb].
    rewrite Z.eqb_neq, !orb_false_iff, negb_false_iff, eqb_true_iff.
    destruct (fa_DefaultRoute f) eqn:Hd; cbn [negb andb orb]; rewrite ?andb_false_r, ?andb_true_r.
    + rewrite bool_decide_eq_false. split.
      * intros ((? & ?) & ? & (((? & _) & ?) & _) & ? & ?). apply family_static; try done; try lia; by rewrite Hd.
      * intros [|H1|? H1 H2 H3 H4 H5]; [congruence|destruct v4; congruence|]. rewrite Hd in *. split_and!; try done; try lia. by apply H5.
    + rewrite negb_false_iff, bool_decide_eq_true. split.
      * intros ((? & ?) & ? & (((? & Hg) & _) & _) & ? & ?). apply family_static; try done; try lia; rewrite Hd; [done|naive_solver].
      * intros [|H1|? H1 H2 H3 H4 H5]; [congruence|destruct v4; congruence|]. rewrite Hd in *. split_and!; try done; try lia.
        destruct (decide (fa_Gateway f = "")); naive_solver.
  - rewrite (bool_decide_eq_false_2 (fa_Mode f = "static")) by done. cbn [negb andb orb].
    rewrite andb_true_r, !orb_false_iff, !negb_false_iff, eqb_true_iff, Z.eqb_eq, bool_decide_eq_true.
    assert (Hmode : (if fa_Mode f == "dhcp" then negb v4 else if fa_Mode f == "auto" then v4 else true) = false
      ↔ fa_Mode f = (if v4 then "dhcp" else "auto")).
    { case_bool_decide as H1; [rewrite H1; by destruct v4|]. case_bool_decide as H2; [rewrite H2; by destruct v4|].
      split; [done|]. by destruct v4. }
    rewrite Hmode. split.
    + intros ((? & ?) & ? & (((? & ?) & _) & ?) & HF & HN). assert (Ha : fa_Addresses f = Some []) by (by apply empty_slice).
      rewrite Ha in HF. apply Forall2_nil_inv_l in HF as ->. by apply family_automatic.
    + intros [|H1 H2 H3 H4|? H1]; [done| |done]. rewrite H2. split_and!; try done; constructor.
Qed.

Lemma address_ok text a : address text = Some a → addr_ok a ∧ Zone a = "".
Proof.
  unfold address. case_match; [done|]. destruct (ParseAddr text) as [b|] eqn:Hp; [|done]. apply ParseAddr_ok in Hp.
  destruct (_ && _) eqn:Hc; [|done]. intros [= <-]. rewrite !andb_true_iff, bool_decide_eq_true in Hc. naive_solver.
Qed.

Lemma nets_ok v4 f ps : family_nets v4 f ps → Forall prefix_ok ps ∧ Forall (λ p, Is4 (pfx_addr p) = v4) ps.
Proof.
  intros [| |qs ? ? ? ? ? HF]; [by split; constructor..|]. clear -HF.
  induction HF as [|t p ts qs [Hp ? ? H4 ? ?] HF [IH1 IH2]]; [split; apply Forall_nil_2|].
  split; apply Forall_cons_2; try done. by eapply ParsePrefix_ok.
Qed.

Lemma gateway_spec text v4 onLink all : Forall prefix_ok onLink → Forall (λ p, Is4 (pfx_addr p) = v4) onLink →
  gateway text v4 onLink all = true ↔ neighbour text v4 onLink (own_prefixes all).
Proof.
  intros Hok H4. rewrite Forall_forall in Hok. rewrite Forall_forall in H4. unfold gateway, neighbour.
  destruct (address text) as [a|] eqn:Ha; [|naive_solver]. destruct (address_ok text a Ha) as [Haok Haz].
  assert (Hguard : ∀ (b k : bool), (if b then false else k) = true ↔ b = false ∧ k = true) by (intros [] []; naive_solver).
  rewrite !Hguard, orb_false_iff, !negb_false_iff, eqb_true_iff.
  assert (Hown : existsb (λ port : list Prefix * list Prefix, existsb (λ p, pfx_addr p == a) port.1 || existsb (λ p, pfx_addr p == a) port.2) all = false
    ↔ a ∉ pfx_addr <$> own_prefixes all).
  { rewrite <- not_true_iff_false, existsb_True. apply not_iff_compat. rewrite list_elem_of_fmap. unfold own_prefixes.
    setoid_rewrite list_elem_of_bind. setoid_rewrite elem_of_app. setoid_rewrite orb_true_iff. setoid_rewrite existsb_True.
    setoid_rewrite bool_decide_eq_true. naive_solver. }
  rewrite Hown.
  assert (Hlink : (if negb v4 && IsLinkLocalUnicast a then true
     else existsb (λ p, Contains p a && (negb v4 || ipv4Host (PrefixFrom a (pfx_bits p)))) onLink) = true
    ↔ v4 = false ∧ IsLinkLocalUnicast a = true ∨ ∃ p, p ∈ onLink ∧ in_network p a ∧ (v4 = true → host_address a (pfx_bits p))).
  { destruct (negb v4 && IsLinkLocalUnicast a) eqn:Hll.
    - apply andb_true_iff in Hll as [?%negb_true_iff ?]. naive_solver.
    - rewrite existsb_True.
      assert (Hnot : ¬ (v4 = false ∧ IsLinkLocalUnicast a = true)) by (intros [-> H]; by rewrite H in Hll).
      assert (Hp : ∀ p, p ∈ onLink → Contains p a && (negb v4 || ipv4Host (PrefixFrom a (pfx_bits p))) = true
        ↔ in_network p a ∧ (v4 = true → host_address a (pfx_bits p))).
      { intros p Hp. rewrite andb_true_iff, (Contains_spec p a (Hok p Hp) Haok). 
        assert (Hh : in_network p a → v4 = true → (ipv4Host (PrefixFrom a (pfx_bits p)) = true ↔ host_address a (pfx_bits p))).
        { intros (_ & _ & Hf & _) Hv. rewrite (H4 p Hp), Hv in Hf. destruct a as [v|]; [|done].
          destruct (Hok p Hp) as (_ & Hb & _). assert (BitLen (pfx_addr p) = 32) as Hbl by (unfold BitLen; by rewrite (H4 p Hp), Hv).
          unfold PrefixFrom. cbn [BitLen Is4]. replace ((pfx_bits p <? 0) || (32 <? pfx_bits p)) with false by lia.
          apply ipv4Host_spec; [apply Haok|lia]. }
        destruct v4; cbn [negb orb]; naive_solver. }
      split.
      + intros (p & Hin & Hc). right. exists p. split; [done|]. by apply Hp.
      + intros [Hc|(p & Hin & Hc)]; [done|]. exists p. split; [done|]. by apply Hp. }
  rewrite Hlink. naive_solver.
Qed.

Lemma family_step_Ok f v4 d ps d' : family_step f v4 d = Ok (ps, d') ↔
  family_nets v4 f ps ∧ (fa_DefaultRoute f = true → d ≠ fa_Metric f) ∧ d' = (if fa_DefaultRoute f then fa_Metric f else d).
Proof.
  unfold family_step. rewrite res_bind_Ok. setoid_rewrite validateFamily_Ok. setoid_rewrite refuse_Ok. split.
  - intros (qs & Hf & Hd & [= -> <-]). split_and!; try done. intros H. rewrite H in Hd. cbn [andb] in Hd. lia.
  - intros (Hf & Hd & ->). exists ps. split_and!; try done. destruct (fa_DefaultRoute f); [|done]. cbn [andb]. specialize (Hd eq_refl). lia.
Qed.

Lemma default_metric v4 f ps : family_nets v4 f ps → fa_DefaultRoute f = true → fa_Metric f ≠ 0.
Proof. intros [? ? H|? ? H|? ? ? ? H] Hd; [congruence|..]; rewrite Hd in H; symmetry in H; apply negb_true_iff, Z.eqb_neq in H; done. Qed.

Definition port_add (st : ports) (port : Interface) (n : list Prefix * list Prefix) : ports :=
  mkPorts (po_prefixes st ++ [n])
    (if fa_DefaultRoute (if_IPv4 port) then fa_Metric (if_IPv4 port) else po_default4 st)
    (if fa_DefaultRoute (if_IPv6 port) then fa_Metric (if_IPv6 port) else po_default6 st)
    (po_enabled st || (fa_Mode (if_IPv4 port) != "disabled") || (fa_Mode (if_IPv6 port) != "disabled")).
Lemma port_step_Ok interfaces i st port st' : port_step interfaces i st port = Ok st' ↔
  ∃ n, (slot (if_Slot port) = true ∧ (i = 1 → Some (if_Slot port) ≠ if_Slot <$> head interfaces))
    ∧ (family_nets true (if_IPv4 port) n.1 ∧ family_nets false (if_IPv6 port) n.2)
    ∧ ((fa_DefaultRoute (if_IPv4 port) = true → po_default4 st ≠ fa_Metric (if_IPv4 port))
       ∧ (fa_DefaultRoute (if_IPv6 port) = true → po_default6 st ≠ fa_Metric (if_IPv6 port)))
    ∧ st' = port_add st port n.
Proof.
  unfold port_step, port_add. rewrite refuse_Ok, orb_false_iff, negb_false_iff, andb_false_iff, Z.eqb_neq, bool_decide_eq_false.
  assert (Hi : (i ≠ 1 ∨ Some (if_Slot port) ≠ if_Slot <$> head interfaces) ↔ (i = 1 → Some (if_Slot port) ≠ if_Slot <$> head interfaces))
    by (destruct (decide (i = 1)); naive_solver).
  rewrite Hi. clear Hi. rewrite res_bind_Ok. split.
  - intros (Hg & [p4 d4] & (H1 & H2 & ->)%family_step_Ok & Hr). apply res_bind_Ok in Hr as ([p6 d6] & (H3 & H4 & ->)%family_step_Ok & [= <-]).
    by exists (p4, p6).
  - intros (n & Hg & [H1 H3] & [H2 H4] & ->). split; [done|]. eexists (_, _). split; [by apply family_step_Ok; split_and!|].
    apply res_bind_Ok. eexists (_, _). split; [by apply family_step_Ok; split_and!|]. by destruct n.
Qed.

Lemma two_ports a b na nb en :
  (∃ st, for_range (port_step [a; b]) 0 (mkPorts [] 0 0 false) [a; b] = Ok st ∧ po_prefixes st = [na; nb] ∧ po_enabled st = en) ↔
  (slot (if_Slot a) = true ∧ slot (if_Slot b) = true ∧ if_Slot a ≠ if_Slot b)
  ∧ (family_nets true (if_IPv4 a) na.1 ∧ family_nets false (if_IPv6 a) na.2)
  ∧ (family_nets true (if_IPv4 b) nb.1 ∧ family_nets false (if_IPv6 b) nb.2)
  ∧ (∀ v4 : bool, let f i := if v4 then if_IPv4 i else if_IPv6 i in
      fa_DefaultRoute (f a) = true → fa_DefaultRoute (f b) = true → fa_Metric (f a) ≠ fa_Metric (f b))
  ∧ (en = true ↔ ∃ v4 i, (i = a ∨ i = b) ∧ mode_of v4 i ≠ "disabled").
Proof.
  assert (Hen : ∀ na nb, po_enabled (port_add (port_add (mkPorts [] 0 0 false) a na) b nb) = true
    ↔ ∃ v4 i, (i = a ∨ i = b) ∧ mode_of v4 i ≠ "disabled").
  { intros ? ?. cbn [po_enabled port_add orb]. rewrite !orb_true_iff, !negb_true_iff, !bool_decide_eq_false. unfold mode_of. split.
    - intros [[[H|H]|H]|H]; [exists true, a|exists false, a|exists true, b|exists false, b]; naive_solver.
    - intros ([] & i & [->| ->] & H); tauto. }
  split.
  - intros (st & Hst & Hp & He). apply for_range_cons_Ok in Hst as (s1 & H1 & Hst). apply for_range_cons_Ok in Hst as (s2 & H2 & [= <-]).
    apply port_step_Ok in H1 as (n1 & [Ha _] & Hna & _ & ->). apply port_step_Ok in H2 as (n2 & [Hb Hne] & Hnb & [Hd4 Hd6] & ->).
    cbn [port_add po_prefixes app] in Hp. injection Hp as -> ->. rewrite <- He, Hen. split_and!; try done; try (by apply Hna); try (by apply Hnb).
    + specialize (Hne eq_refl). cbn in Hne. congruence.
    + cbn [port_add po_default4 po_default6] in Hd4, Hd6. intros [] f Hfa Hfb; subst f; cbn beta iota in *.
      * rewrite Hfa in Hd4. auto.
      * rewrite Hfa in Hd6. auto.
  - intros ((Ha & Hb & Hne) & [Ha4 Ha6] & [Hb4 Hb6] & Hd & He).
    exists (port_add (port_add (mkPorts [] 0 0 false) a na) b nb). split_and!; [|done|].
    + apply for_range_cons_Ok. eexists. split; [apply port_step_Ok; exists na; split_and!; try done|].
      * intros Hda Hz. by apply (default_metric _ _ _ Ha4 Hda).
      * intros Hda Hz. by apply (default_metric _ _ _ Ha6 Hda).
      * apply for_range_cons_Ok. eexists. split; [apply port_step_Ok; exists nb; split_and!; try done|done].
        -- intros _. cbn. congruence.
        -- intros Hdb. cbn [port_add po_default4]. destruct (fa_DefaultRoute (if_IPv4 a)) eqn:Hda; [by apply (Hd true)|].
           intros Hz. by apply (default_metric _ _ _ Hb4 Hdb).
        -- intros Hdb. cbn [port_add po_default6]. destruct (fa_DefaultRoute (if_IPv6 a)) eqn:Hda; [by apply (Hd false)|].
           intros Hz. by apply (default_metric _ _ _ Hb6 Hdb).
    + specialize (Hen na nb). destruct (po_enabled _), en; naive_solver.
Qed.

Lemma portIndex_spec a b s : slot (if_Slot a) = true → slot (if_Slot b) = true → if_Slot a ≠ if_Slot b →
  portIndex [a; b] s = (if if_Slot a == s then 0 else if if_Slot b == s then 1 else -1).
Proof.
  intros Ha Hb Hne. unfold portIndex. destruct (slot s) eqn:Hs; cbn [negb index_of]; [done|].
  case_bool_decide; [congruence|]. case_bool_decide; [congruence|done].
Qed.

Lemma common_network_false ps qs : Forall prefix_ok ps → Forall prefix_ok qs →
  common_network ps qs = false ↔ ∀ x p q, p ∈ ps → q ∈ qs → in_network p x → in_network q x → False.
Proof.
  rewrite !Forall_forall. intros Hp Hq. unfold common_network. rewrite <- not_true_iff_false, existsb_True.
  setoid_rewrite existsb_True. split.
  - intros H x p q Hpi Hqi H1 H2. apply H. exists p. split; [done|]. exists q. split; [done|]. apply Overlaps_spec; eauto.
  - intros H (p & Hpi & q & Hqi & Ho). apply Overlaps_spec in Ho as (x & H1 & H2); eauto.
Qed.
Lemma server_step_Ok i st t st' : server_step i st t = Ok st' ↔ good_server t ∧ Forall (λ o, o ≠ t) st ∧ st' = st ++ [t].
Proof.
  unfold server_step, good_server. destruct (address t) as [a|]; [|naive_solver].
  rewrite !refuse_Ok, negb_false_iff, orb_true_iff, bool_decide_eq_false, Forall_forall. naive_solver.
Qed.
Lemma domain_step_Ok i st d st' : domain_step i st d = Ok st' ↔ good_domain d ∧ Forall (λ o, o ≠ d) st ∧ st' = st ++ [d].
Proof.
  unfold domain_step, good_domain. assert (0 ≤ slength d) by apply slength_nonneg.
  rewrite !refuse_Ok, orb_false_iff, negb_false_iff, Z.ltb_ge, Z.eqb_neq, bool_decide_eq_false, !Forall_forall, forallb_forall.
  setoid_rewrite <- list_elem_of_In. split; [intros ((? & ?) & ? & ? & [= <-])|intros ((? & ?) & ? & ->)]; (split_and!; try done; try lia; naive_solver).
Qed.
Lemma pairs_NoDup (l : list string) : ForallOrdPairs (λ x y, x ≠ y) l ↔ NoDup l.
Proof.
  induction l as [|x l IH]; [split; constructor|]. rewrite NoDup_cons, <- IH. split.
  - intros H. inv H. split; [|done]. intros Hx. rewrite Forall_forall in *. naive_solver.
  - intros [Hx H]. constructor; [|done]. rewrite Forall_forall. naive_solver.
Qed.
(** the loop over values that differ from all earlier ones *)
Lemma distinct_Ok (body : Z → list string → string → res unit (list string)) (good : string → Prop) l st :
  (∀ i st t st', body i st t = Ok st' ↔ good t ∧ Forall (λ o, o ≠ t) st ∧ st' = st ++ [t]) →
  for_range body 0 [] l = Ok st ↔ Forall good l ∧ NoDup l ∧ st = l.
Proof.
  intros Hb. rewrite (for_range_chain (λ s t, s ++ [t]) _ good (λ s t, Forall (λ o, o ≠ t) s)) by (intros; apply Hb).
  rewrite (chain_pairs (λ t, t) (λ o t, o ≠ t)), pairs_NoDup, (fold_snoc _ (λ s, s) (λ t, t)) by done. cbn [app]. rewrite list_fmap_id.
  pose proof (Forall_nil_2 (λ y, Forall (λ t, y ≠ t) l)). naive_solver.
Qed.

Lemma bad_gateway_false f v4 onLink all : Forall prefix_ok onLink → Forall (λ p, Is4 (pfx_addr p) = v4) onLink →
  bad_gateway f v4 onLink all = false ↔ good_gateway f v4 onLink (own_prefixes all).
Proof.
  intros H1 H2. unfold bad_gateway, good_gateway. rewrite andb_false_iff, !negb_false_iff, bool_decide_eq_true, gateway_spec by done.
  destruct (decide (fa_Gateway f = "")); naive_solver.
Qed.

Section ports.
Context (a b : Interface) (na nb : list Prefix * list Prefix).
Hypothesis Hslots : slot (if_Slot a) = true ∧ slot (if_Slot b) = true ∧ if_Slot a ≠ if_Slot b.
Hypothesis Hna : family_nets true (if_IPv4 a) na.1 ∧ family_nets false (if_IPv6 a) na.2.
Hypothesis Hnb : family_nets true (if_IPv4 b) nb.1 ∧ family_nets false (if_IPv6 b) nb.2.

Lemma nets_of_ok on v4 : on = na ∨ on = nb → Forall prefix_ok (nets_of v4 on) ∧ Forall (λ p, Is4 (pfx_addr p) = v4) (nets_of v4 on).
Proof using Hna Hnb.
  destruct Hna as [Ha4 Ha6], Hnb as [Hb4 Hb6]. intros [->| ->]; destruct v4; cbn [nets_of]; by eapply nets_ok.
Qed.

Lemma on_port_index s iface on : on_port [(a, na); (b, nb)] s iface on ↔
  0 ≤ portIndex [a; b] s ∧ iface = default zero_Interface ([a; b] !! Z.to_nat (portIndex [a; b] s))
  ∧ on = default ([], []) ([na; nb] !! Z.to_nat (portIndex [a; b] s)).
Proof using Hslots.
  destruct Hslots as (Ha & Hb & Hne). rewrite portIndex_spec by done. unfold on_port. rewrite !elem_of_cons, elem_of_nil.
  case_bool_decide as H1; [|case_bool_decide as H2].
  - change (Z.to_nat 0) with 0%nat. cbn [lookup list_lookup default from_option id]. split.
    + intros [[[= -> ->]|[[= -> ->]|[]]] He]; [done|congruence].
    + intros (_ & -> & ->). split; [by left|done].
  - change (Z.to_nat 1) with 1%nat. cbn. split.
    + intros [[[= -> ->]|[[= -> ->]|[]]] He]; [congruence|done].
    + intros (_ & -> & ->). split; [right; by left|done].
  - split; [|lia]. intros [[[= -> ->]|[[= -> ->]|[]]] He]; congruence.
Qed.

Lemma route_step_Ok i st r st' : route_step [a; b] [na; nb] i st r = Ok st' ↔
  good_route [(a, na); (b, nb)] (own_prefixes [na; nb]) r ∧ Forall (λ o, routes_differ o r) st ∧ st' = st ++ [r].
Proof using Hslots Hna Hnb.
  unfold route_step, good_route. rewrite refuse_Ok, Z.ltb_ge. cbn zeta.
  set (iface := default zero_Interface _). set (on := default ([], []) _).
  assert (Hold : existsb (λ old, same_route old r) st = false ↔ Forall (λ o, routes_differ o r) st).
  { rewrite existsb_False, Forall_forall. unfold same_route, routes_differ. setoid_rewrite andb_false_iff.
    setoid_rewrite bool_decide_eq_false. setoid_rewrite Z.eqb_neq. split; intros H o Ho; specialize (H o Ho).
    - tauto.
    - destruct (decide (rt_Destination o = rt_Destination r)), (decide (rt_Metric o = rt_Metric r)); tauto. }
  destruct (ParsePrefix (rt_Destination r)) as [dest|] eqn:Hdest; [|naive_solver].
  set (v4 := Is4 (pfx_addr dest)).
  assert (Hport : ∀ i o, on_port [(a, na); (b, nb)] (rt_Slot r) i o ↔ 0 ≤ portIndex [a; b] (rt_Slot r) ∧ i = iface ∧ o = on)
    by (intros; apply on_port_index).
  assert (Hg : 0 ≤ portIndex [a; b] (rt_Slot r) → gateway (rt_Gateway r) v4 (if v4 then on.1 else on.2) [na; nb] = true
    ↔ neighbour (rt_Gateway r) v4 (nets_of v4 on) (own_prefixes [na; nb])).
  { intros Hi. destruct (nets_of_ok on v4) as [H1 H2].
    - assert (Hon : on_port [(a, na); (b, nb)] (rt_Slot r) iface on) by (by apply Hport).
      destruct Hon as [Hon _]. rewrite !elem_of_cons, elem_of_nil in Hon. naive_solver.
    - by apply gateway_spec. }
  rewrite !refuse_Ok, Hold, !orb_false_iff, !negb_false_iff, !bool_decide_eq_true, Z.ltb_ge, !Z.eqb_neq.
  change (if v4 then fa_Mode (if_IPv4 iface) else fa_Mode (if_IPv6 iface)) with (mode_of v4 iface). split.
  - intros (? & (((((Hi & ?) & ?) & ?) & ?) & ?) & (? & Hgw) & ? & [= <-]). split; [|done].
    exists dest, iface, on. split_and!; try done; [by apply Hport|by apply Hg].
  - intros ((d & i' & o & ? & [= <-] & ? & ? & ? & ? & ? & (Hi & -> & ->)%Hport & ? & Hn) & ? & ->).
    split_and!; try done. by apply Hg.
Qed.

Lemma routes_Ok l st : for_range (route_step [a; b] [na; nb]) 0 [] l = Ok st ↔
  Forall (good_route [(a, na); (b, nb)] (own_prefixes [na; nb])) l ∧ ForallOrdPairs routes_differ l ∧ st = l.
Proof using Hslots Hna Hnb.
  rewrite (for_range_chain (λ s r, s ++ [r]) _ (good_route [(a, na); (b, nb)] (own_prefixes [na; nb])) (λ s r, Forall (λ o, routes_differ o r) s))
    by (intros; apply route_step_Ok).
  rewrite (chain_pairs (λ r, r) routes_differ), (fold_snoc _ (λ s, s) (λ r, r)) by done. cbn [app]. rewrite list_fmap_id.
  pose proof (Forall_nil_2 (λ y, Forall (routes_differ y) l)). naive_solver.
Qed.

Lemma validateDNS_Ok d : validateDNS [a; b] d = Ok tt ↔ good_dns [a; b] d.
Proof using Hslots Hna Hnb.
  unfold validateDNS. cbn zeta. rewrite !refuse_Ok, res_bind_Ok. setoid_rewrite res_bind_Ok.
  setoid_rewrite (distinct_Ok server_step good_server _ _ server_step_Ok).
  setoid_rewrite (distinct_Ok domain_step good_domain _ _ domain_step_Ok).
  rewrite !orb_false_iff, !Z.ltb_ge.
  assert (Hmode : (if dns_Mode d == "manual" then (dns_Source d != "") || (slen (dns_Servers d) =? 0)
          else if dns_Mode d == "automatic"
          then (portIndex [a; b] (dns_Source d) <? 0) || negb (slen (dns_Servers d) =? 0)
               || ((fa_Mode (if_IPv4 (default zero_Interface ([a; b] !! Z.to_nat (portIndex [a; b] (dns_Source d))))) != "dhcp")
                   && (fa_Mode (if_IPv6 (default zero_Interface ([a; b] !! Z.to_nat (portIndex [a; b] (dns_Source d))))) != "auto"))
          else true) = false ↔
     (dns_Mode d = "manual" ∧ dns_Source d = "" ∧ slen (dns_Servers d) ≠ 0
      ∨ dns_Mode d = "automatic" ∧ slen (dns_Servers d) = 0
        ∧ ∃ i, i ∈ [a; b] ∧ if_Slot i = dns_Source d ∧ (fa_Mode (if_IPv4 i) = "dhcp" ∨ fa_Mode (if_IPv6 i) = "auto"))).
  { case_bool_decide as H1; [|case_bool_decide as H2].
    - rewrite orb_false_iff, negb_false_iff, bool_decide_eq_true, Z.eqb_neq. split; [intros [? ?]; by left|].
      intros [(_ & ? & ?)|[H3 _]]; [done|congruence].
    - rewrite !orb_false_iff, andb_false_iff, !negb_false_iff, !bool_decide_eq_true, Z.ltb_ge, Z.eqb_eq. split.
      + intros ((Hi & Hl) & Hm). right. split_and!; try done. eexists. split_and!; [..|exact Hm].
        * pose proof (proj2 (on_port_index (dns_Source d) _ _) (conj Hi (conj eq_refl eq_refl))) as [Hin _].
          apply (list_elem_of_fmap_2 fst) in Hin. exact Hin.
        * by destruct (proj2 (on_port_index (dns_Source d) _ _) (conj Hi (conj eq_refl eq_refl))) as [_ Hs].
      + intros [[H3 _]|(_ & Hl & i & Hin & Hs & Hm)]; [congruence|].
        assert (Hp : ∃ on, on_port [(a, na); (b, nb)] (dns_Source d) i on).
        { unfold on_port. setoid_rewrite elem_of_cons. rewrite !elem_of_cons, elem_of_nil in Hin. destruct Hin as [->|[->|[]]].
          - exists na. set_solver.
          - exists nb. set_solver. }
        destruct Hp as (on & (Hi & -> & _)%on_port_index). by split_and!.
    - split; [done|]. intros [[? _]|[? _]]; congruence. }
  rewrite Hmode. split.
  - intros ((((? & ?) & ?) & ?) & Hm & s1 & (? & ? & _) & s2 & (? & ? & _) & _). by split.
  - intros [[? ?] [? ?] ? [? ?] [? ?]]. split_and!; try done. eexists. split; [by split_and!|]. eexists. by split; [split_and!|].
Qed.
End ports.

(** [Validate] accepts exactly the policies of the contract. *)
Lemma Network_Validate_wf p : Policy_Validate p = Ok tt ↔ ∃ a b na nb, wf_policy p a b na nb.
Proof.
  unfold Policy_Validate. cbn zeta. rewrite refuse_Ok, !orb_false_iff, !negb_false_iff, bool_decide_eq_true, !Z.eqb_eq, Z.eqb_neq, Z.ltb_ge. split.
  - intros (((((((? & ?) & ?) & ?) & Hlen) & ?) & ?) & Hr).
    assert (∃ a b, pol_Interfaces p = Some [a; b]) as (a & b & Hab).
    { destruct (pol_Interfaces p) as [[|a [|b [|]]]|]; unfold len in Hlen; cbn in Hlen; try lia. by exists a, b. }
    rewrite Hab in *. cbn [elems default from_option id] in *. apply res_bind_Ok in Hr as (st & Hst & Hr).
    assert (∃ na nb, po_prefixes st = [na; nb]) as (na & nb & Hn).
    { pose proof Hst as Hst'. apply for_range_cons_Ok in Hst' as (s1 & (n1 & _ & _ & _ & ->)%port_step_Ok & Hst').
      apply for_range_cons_Ok in Hst' as (s2 & (n2 & _ & _ & _ & ->)%port_step_Ok & [= <-]). cbn. by exists n1, n2. }
    destruct (proj1 (two_ports a b na nb (po_enabled st))) as (Hs & Hna & Hnb & Hd & He); [by exists st|].
    rewrite Hn in Hr. cbn [lookup list_lookup default from_option id zip zip_with existsb] in Hr.
    rewrite !refuse_Ok, !orb_false_iff, negb_false_iff in Hr. destruct Hr as (Hen & [Hc4 Hc6] & ((Hga4 & Hga6) & (Hgb4 & Hgb6) & _) & Hr).
    destruct (nets_ok _ _ _ (proj1 Hna)) as [Pa4 Fa4]. destruct (nets_ok _ _ _ (proj2 Hna)) as [Pa6 Fa6].
    destruct (nets_ok _ _ _ (proj1 Hnb)) as [Pb4 Fb4]. destruct (nets_ok _ _ _ (proj2 Hnb)) as [Pb6 Fb6].
    apply res_bind_Ok in Hr as (rs & (Hrt & Hdiff & _)%routes_Ok & Hdns); [|done..].
    apply (validateDNS_Ok a b na nb) in Hdns; [|done..].
    apply bad_gateway_false in Hga4, Hga6, Hgb4, Hgb6; try done.
    pose proof (proj1 (common_network_false _ _ Pa4 Pb4) Hc4) as N4. pose proof (proj1 (common_network_false _ _ Pa6 Pb6) Hc6) as N6.
    exists a, b, na, nb. split; try done; [by apply He|].
    intros x q1 q2 [Q1|Q1]%elem_of_app [Q2|Q2]%elem_of_app X1 X2; [by eapply N4| | |by eapply N6].
    + rewrite Forall_forall in Fa4. rewrite Forall_forall in Fb6. destruct X1 as (_ & _ & E1 & _), X2 as (_ & _ & E2 & _).
      rewrite Fa4 in E1 by done. rewrite Fb6 in E2 by done. congruence.
    + rewrite Forall_forall in Fa6. rewrite Forall_forall in Fb4. destruct X1 as (_ & _ & E1 & _), X2 as (_ & _ & E2 & _).
      rewrite Fa6 in E1 by done. rewrite Fb4 in E2 by done. congruence.
  - intros (a & b & na & nb & [(? & ? & ? & ?) Hab Hs Hna Hnb Hd He Hap (Hga4 & Hga6 & Hgb4 & Hgb6) (? & ? & Hrt & Hdiff) Hdns]).
    rewrite Hab. cbn [elems default from_option id]. split; [by split_and!|].
    destruct (proj2 (two_ports a b na nb true)) as (st & Hst & Hn & Hen); [refine (conj Hs (conj Hna (conj Hnb (conj Hd _)))); by split|].
    destruct (nets_ok _ _ _ (proj1 Hna)) as [Pa4 Fa4]. destruct (nets_ok _ _ _ (proj2 Hna)) as [Pa6 Fa6].
    destruct (nets_ok _ _ _ (proj1 Hnb)) as [Pb4 Fb4]. destruct (nets_ok _ _ _ (proj2 Hnb)) as [Pb6 Fb6].
    apply res_bind_Ok. exists st. split; [done|]. rewrite Hn, Hen. cbn [lookup list_lookup default from_option id zip zip_with existsb].
    rewrite !refuse_Ok, !orb_false_iff. split; [done|]. split.
    { split; (apply common_network_false; [done..|]); intros x q1 q2 Q1 Q2; apply Hap; set_solver. }
    split; [split_and!; (done || by apply bad_gateway_false)|]. apply res_bind_Ok. eexists. split; [by apply routes_Ok|].
    by apply (validateDNS_Ok a b na nb).
Qed.

(** ** Properties *)

(** [Policy.Validate] accepts exactly the policies of the contract: two
    distinct ports whose configured networks have no address in common, static
    addresses that are canonical unicast host addresses, default routes of one
    family with different metrics, and gateways (of families and of static
    routes) that are canonical neighbours: on a network of their own port or
    link-local, never the network or broadcast address of an IPv4 subnet and never
    one of the box's own addresses. *)
Theorem Network_Validate_exact p : Policy_Validate p = Ok tt ↔ ∃ a b na nb, wf_policy p a b na nb.
Proof. apply Network_Validate_wf. Qed.

(** Whatever [Decode] returns satisfies the contract. *)
Theorem Network_Decode_sound input p : Decode input = Some p → ∃ a b na nb, wf_policy p a b na nb.
Proof.
  unfold Decode. destruct (DecodeInto _ _ _ _ _) as [q|]; [|done]. destruct (Policy_Validate q) as [[]|] eqn:Hv; [|done].
  intros [= <-]. by apply Network_Validate_wf.
Qed.

Definition sample_policy : Policy :=
  mkPolicy Format 1 3 "nas"
    (Some [mkInterface "lan-1" (mkFamily "static" (Some ["192.0.2.10/24"]) true "192.0.2.1" 100)
             (mkFamily "static" (Some ["2001:db8::10/64"]) true "fe80::1" 100);
           mkInterface "lan-2" (mkFamily "dhcp" (Some []) true "" 200) (mkFamily "disabled" (Some []) false "" 0)])
    (Some [mkRoute "lan-1" "198.51.100.0/24" "192.0.2.254" 5])
    (mkDNS "manual" "" (Some ["192.0.2.53"; "::1"]) (Some ["home.example"])).
(** The sample is accepted; a gateway on the wrong port, the broadcast address as a
    gateway, an own address as a gateway and overlapping ports are refused. *)
Example network_examples :
  Policy_Validate sample_policy = Ok tt
  ∧ gateway "192.0.2.255" true [mkPrefix (Addr4 3221225994) 24] [] = false
  ∧ gateway "192.0.2.10" true [mkPrefix (Addr4 3221225994) 24] [([mkPrefix (Addr4 3221225994) 24], [])] = false
  ∧ gateway "198.51.100.1" true [mkPrefix (Addr4 3221225994) 24] [] = false
  ∧ unicast (Addr6 (65152 * 2 ^ 112 + 1) "") false = false.
Proof. vm_compute. by split_and!. Qed.
End NetworkPolicy.
