(* ===== verification/Accounts.v ===== *)
(** * Native service accounts: [serviceaccounts/registry.go]

    The registry is a pure value: every operation returns a new one.  The
    operations are [Registry_New], [Registry_Validate], [Registry_next],
    [Registry_Create], [Registry_SetState] and [Registry_BindShares]; [wf_registry]
    is the invariant, [registry_step] the evolution a store goes through. *)

From S2P Require Import Prelude GoStrings Shares.

Module ServiceAccounts.
Import ShareConfig.

(** ** Data *)
Record Account := mkAccount {
  acc_ID : string; acc_Name : string; acc_UID : Z; acc_GID : Z; acc_State : string }.
Record Registry := mkRegistry {
  reg_Format : string; reg_SchemaVersion : Z; reg_Revision : Z;
  reg_FirstID : Z; reg_LastID : Z; reg_Accounts : slice Account }.
Record Reservations := mkReservations {
  rsv_UIDs : slice Z; rsv_GIDs : slice Z; rsv_Names : slice string }.
Record Bindings := mkBindings {
  bnd_RegistryRevision : Z; bnd_ShareRevision : Z; bnd_Accounts : list Account }.

#[export] Instance Account_eq_dec : EqDecision Account. Proof. solve_decision. Defined.
#[export] Instance Registry_eq_dec : EqDecision Registry. Proof. solve_decision. Defined.

Definition RegistryFormat : string := "phantowd-service-accounts".
Definition MaxRecords : Z := 1024.
Definition MaxLive : Z := MaxUsers.
Definition Disabled : string := "disabled".
Definition Enabled : string := "enabled".
Definition Retired : string := "retired".

Inductive error :=
| ErrInvalid | ErrConflict | ErrCollision | ErrExhausted | ErrTransition | ErrUnresolved.
#[export] Instance error_eq_dec : EqDecision error. Proof. solve_decision. Defined.

(** ** Validation *)

(** The account grammar is that of the share policy: a one-user configuration
    is built and validated. *)
Definition identity_config (id name : string) : Config :=
  mkConfig Format 1 1 (Some []) (Some [mkUser id name]) (Some []).
Definition validIdentity (id name : string) : bool :=
  is_ok (Config_Validate (identity_config id name)).

Definition known_state (s : string) : bool := (s == Disabled) || (s == Enabled) || (s == Retired).

(** Loop state: ids, names, numbers, live. *)
Definition account_step (first last : Z) (_ : Z)
  (st : gset string * gset string * gset Z * Z) (a : Account) :
  res error (gset string * gset string * gset Z * Z) :=
  let '(ids, names, numbers, live) := st in
  refuse negb (validIdentity (acc_ID a) (acc_Name a)) || (acc_ID a ∈? ids) || (acc_Name a ∈? names)
         || (acc_UID a ∈? numbers) || (acc_UID a <? first) || (last <? acc_UID a)
         || negb (acc_GID a =? acc_UID a) || negb (known_state (acc_State a))
    => ErrInvalid ;;
  Ok ({[acc_ID a]} ∪ ids, {[acc_Name a]} ∪ names, {[acc_UID a]} ∪ numbers,
      if acc_State a == Retired then live else live + 1).

Definition Registry_Validate (r : Registry) : res error unit :=
  refuse (reg_Format r != RegistryFormat) || negb (reg_SchemaVersion r =? 1) || (reg_Revision r =? 0)
         || (reg_FirstID r <? 1000) || (60000 <? reg_LastID r) || (reg_LastID r <? reg_FirstID r)
         || is_nil (reg_Accounts r) || (MaxRecords <? slen (reg_Accounts r)) => ErrInvalid ;;
  '(_, _, _, live) ← for_range (account_step (reg_FirstID r) (reg_LastID r)) 0 (∅, ∅, ∅, 0)
                       (elems (reg_Accounts r));
  refuse MaxLive <? live => ErrInvalid ;;
  Ok tt.

Definition Registry_New (first last : Z) : Registry * res error unit :=
  let r := mkRegistry RegistryFormat 1 1 first last (Some []) in (r, Registry_Validate r).

(** ** Transitions *)
Definition Registry_next (r : Registry) (expected : Z) : res error Registry :=
  refuse negb (is_ok (Registry_Validate r)) => ErrInvalid ;;
  refuse negb (reg_Revision r =? expected) || (expected =? max_uint64) => ErrConflict ;;
  Ok (mkRegistry (reg_Format r) (reg_SchemaVersion r) (u64_add (reg_Revision r) 1)
        (reg_FirstID r) (reg_LastID r) (Some (elems (reg_Accounts r)))).

(** [strings.EqualFold] against a validated account name, which is ASCII: two
    runes outside ASCII fold into it, U+212A into [k] and U+017F into [s]. *)
Definition fold_rune (r : Z) : Z :=
  if is_upper r then r + 32 else if r =? 8490 then 107 else if r =? 383 then 115 else r.
Definition equal_fold (a b : string) : bool := (fold_rune <$> runes a) == (fold_rune <$> runes b).

(** [strings.ContainsAny(external, "\x00\r\n")] and the size and encoding tests *)
Definition bad_external (s : string) : bool :=
  (slength s =? 0) || (256 <? slength s) || negb (utf8_valid s)
  || existsb (λ c, (c =? 0) || (c =? 13) || (c =? 10)) (runes s).

Definition external_step (name : string) (_ : Z) (_ : unit) (external : string) : res error unit :=
  refuse bad_external external => ErrInvalid ;;
  refuse equal_fold external name => ErrCollision ;;
  Ok tt.

(** Loop state: used numbers and live count. *)
Definition existing_step (id name : string) (_ : Z) (st : gset Z * Z) (a : Account) :
  res error (gset Z * Z) :=
  let '(used, live) := st in
  refuse (acc_ID a == id) || (acc_Name a == name) => ErrCollision ;;
  Ok ({[acc_UID a]} ∪ used, if acc_State a == Retired then live else live + 1).

(** [for candidate := first; candidate <= last; candidate++]: the fuel is the
    number of candidates. *)
Fixpoint first_free (fuel : nat) (used : gset Z) (candidate last : Z) : option Z :=
  match fuel with
  | O => None
  | S f => if last <? candidate then None
           else if candidate ∈? used then first_free f used (candidate + 1) last
           else Some candidate
  end.

Definition Registry_Create (r : Registry) (expected : Z) (id name : string) (reserved : Reservations) :
  res error Registry :=
  next ← Registry_next r expected;
  refuse negb (validIdentity id name) || is_nil (rsv_UIDs reserved) || is_nil (rsv_GIDs reserved)
         || is_nil (rsv_Names reserved) || (65536 <? slen (rsv_UIDs reserved))
         || (65536 <? slen (rsv_GIDs reserved)) || (65536 <? slen (rsv_Names reserved)) => ErrInvalid ;;
  let reservedUsed : gset Z :=
    list_to_set (elems (rsv_GIDs reserved)) ∪ list_to_set (elems (rsv_UIDs reserved)) in
  _ ← for_range (external_step name) 0 tt (elems (rsv_Names reserved));
  '(used, live) ← for_range (existing_step id name) 0 (reservedUsed, 0) (elems (reg_Accounts r));
  refuse (MaxRecords <=? slen (reg_Accounts r)) || (MaxLive <=? live) => ErrExhausted ;;
  match first_free (Z.to_nat (reg_LastID r - reg_FirstID r + 1)) used (reg_FirstID r) (reg_LastID r) with
  | Some candidate =>
    Ok (mkRegistry (reg_Format next) (reg_SchemaVersion next) (reg_Revision next)
          (reg_FirstID next) (reg_LastID next)
          (Some (elems (reg_Accounts next) ++ [mkAccount id name candidate candidate Disabled])))
  | None => Err ErrExhausted
  end.

(** The loop of [SetState]: the first account with this ID is checked and
    replaced in the freshly copied slice. *)
Fixpoint set_state_in (l : list Account) (id state : string) : res error (list Account) :=
  match l with
  | [] => Err ErrTransition
  | a :: l' =>
    if acc_ID a != id then (rest ← set_state_in l' id state; Ok (a :: rest))
    else
      refuse (acc_State a == Retired) || (acc_State a == state) || negb (known_state state)
             || ((state == Retired) && (acc_State a != Disabled)) => ErrTransition ;;
      Ok (mkAccount (acc_ID a) (acc_Name a) (acc_UID a) (acc_GID a) state :: l')
  end.

Definition Registry_SetState (r : Registry) (expected : Z) (id state : string) : res error Registry :=
  next ← Registry_next r expected;
  accounts ← set_state_in (elems (reg_Accounts next)) id state;
  Ok (mkRegistry (reg_Format next) (reg_SchemaVersion next) (reg_Revision next)
        (reg_FirstID next) (reg_LastID next) (Some accounts)).

(** ** Binding of share grants to accounts *)

(** [accounts[a.ID] = a] for every account, in order: the last one wins. *)
Definition account_map (l : list Account) : gmap string Account :=
  fold_left (λ m a, <[acc_ID a := a]> m) l ∅.
Definition user_map (l : list User) : gmap string string :=
  fold_left (λ m u, <[user_ID u := user_Name u]> m) l ∅.

(** Loop state: accounts appended so far and the ids already appended. *)
Definition bind_step (accounts : gmap string Account) (users : gmap string string)
  (st : list Account * gset string) (g : Grant) : res error (list Account * gset string) :=
  let '(bound, seen) := st in
  match accounts !! grant_UserID g with
  | None => Err ErrUnresolved
  | Some a =>
    refuse (acc_Name a != default "" (users !! grant_UserID g)) || (acc_State a != Enabled)
      => ErrUnresolved ;;
    if acc_ID a ∈? seen then Ok (bound, seen)
    else Ok (bound ++ [a], {[acc_ID a]} ∪ seen)
  end.

(** [strings.Compare] on identifiers: byte-wise lexicographic order. *)
Definition id_le (a b : Account) : Prop := String.le (acc_ID a) (acc_ID b).

Definition Registry_BindShares (r : Registry) (policy : Config) : res error Bindings :=
  refuse negb (is_ok (Registry_Validate r)) || negb (is_ok (Config_Validate policy)) => ErrInvalid ;;
  let accounts := account_map (elems (reg_Accounts r)) in
  let users := user_map (elems (cfg_Users policy)) in
  '(bound, _) ← for_range (λ _ st s, for_range (λ _, bind_step accounts users) 0 st (elems (share_Grants s)))
                  0 ([], ∅) (elems (cfg_Shares policy));
  Ok (mkBindings (reg_Revision r) (cfg_Revision policy) (merge_sort id_le bound)).

(** ** The invariant *)
Definition live_count (l : list Account) : Z := len (filter (λ a, acc_State a ≠ Retired) l).

Record good_account (first last : Z) (a : Account) : Prop := {
  ga_id : identifier (acc_ID a) = true;
  ga_name : accountName (acc_Name a) = true;
  ga_range : first ≤ acc_UID a ≤ last;
  ga_gid : acc_GID a = acc_UID a;
  ga_state : known_state (acc_State a) = true }.

Record wf_registry (r : Registry) : Prop := {
  wr_format : reg_Format r = RegistryFormat;
  wr_schema : reg_SchemaVersion r = 1;
  wr_revision : reg_Revision r ≠ 0;
  wr_window : 1000 ≤ reg_FirstID r ∧ reg_FirstID r ≤ reg_LastID r ∧ reg_LastID r ≤ 60000;
  wr_present : is_nil (reg_Accounts r) = false;
  wr_records : slen (reg_Accounts r) ≤ MaxRecords;
  wr_accounts : Forall (good_account (reg_FirstID r) (reg_LastID r)) (elems (reg_Accounts r));
  wr_ids : NoDup (acc_ID <$> elems (reg_Accounts r));
  wr_names : NoDup (acc_Name <$> elems (reg_Accounts r));
  wr_uids : NoDup (acc_UID <$> elems (reg_Accounts r));
  wr_live : live_count (elems (reg_Accounts r)) ≤ MaxLive }.

(** The machine type of the revision field. *)
Definition typed_registry (r : Registry) : Prop := 0 ≤ reg_Revision r ≤ max_uint64.

(** ** Lemmas *)
Lemma validIdentity_spec id name :
  validIdentity id name = true ↔ identifier id = true ∧ accountName name = true.
Proof.
  unfold validIdentity. rewrite is_ok_unit, Config_Validate_wf. split.
  - intros []. simpl in *. rewrite Forall_singleton in *. done.
  - intros [Hi Hn]. split; simpl; try done; rewrite ?Forall_singleton; try done;
      unfold slen, len; simpl; repeat constructor; try set_solver; try lia.
Qed.

Lemma live_count_cons a l :
  live_count (a :: l) = (if acc_State a == Retired then 0 else 1) + live_count l.
Proof.
  unfold live_count, len. rewrite filter_cons. case_bool_decide; case_decide; try done; simpl; lia.
Qed.

Lemma live_count_app l1 l2 : live_count (l1 ++ l2) = live_count l1 + live_count l2.
Proof. unfold live_count, len. rewrite filter_app, length_app. lia. Qed.

Section account_loop.
Definition seen_accounts : Type := gset string * gset string * gset Z * Z.
Definition add_account (st : seen_accounts) (a : Account) : seen_accounts :=
  ({[acc_ID a]} ∪ st.1.1.1, {[acc_Name a]} ∪ st.1.1.2, {[acc_UID a]} ∪ st.1.2,
   if acc_State a == Retired then st.2 else st.2 + 1).
Definition fresh_account (st : seen_accounts) (a : Account) : Prop :=
  acc_ID a ∉ (st.1.1.1 : gset string) ∧
  (acc_Name a ∉ (st.1.1.2 : gset string) ∧ acc_UID a ∉ (st.1.2 : gset Z)).

Lemma account_step_Ok first last j st a st' :
  account_step first last j st a = Ok st' ↔
  good_account first last a ∧ fresh_account st a ∧ st' = add_account st a.
Proof.
  unfold account_step, fresh_account, add_account. destruct st as [[[s1 s2] s3] n].
  rewrite refuse_Ok. go_bool. rewrite validIdentity_spec. simpl. split.
  - intros [? [= <-]]. split_hyps. finish.
  - intros ([? ? ? ? ?] & (? & ? & ?) & ->). finish.
Qed.

Lemma chain_account l :
  chain add_account fresh_account (∅, ∅, ∅, 0) l ↔
  NoDup (acc_ID <$> l) ∧ NoDup (acc_Name <$> l) ∧ NoDup (acc_UID <$> l).
Proof.
  unfold fresh_account. rewrite !chain_and.
  rewrite (chain_key _ (λ st : seen_accounts, st.1.1.1) acc_ID),
    (chain_key _ (λ st : seen_accounts, st.1.1.2) acc_Name),
    (chain_key _ (λ st : seen_accounts, st.1.2) acc_UID) by done.
  pose proof (not_elem_of_empty_all acc_ID l). pose proof (not_elem_of_empty_all acc_Name l).
  pose proof (not_elem_of_empty_all acc_UID l). naive_solver.
Qed.

Lemma fold_account_live l st : (fold_left add_account l st).2 = st.2 + live_count l.
Proof.
  revert st. induction l as [|a l IH]; intros st.
  - unfold live_count, len. simpl. lia.
  - simpl fold_left. rewrite IH, live_count_cons. unfold add_account. simpl. case_bool_decide; lia.
Qed.
End account_loop.

(** [Validate] accepts exactly the registries that satisfy the invariant. *)
Lemma Registry_Validate_wf r : Registry_Validate r = Ok tt ↔ wf_registry r.
Proof.
  unfold Registry_Validate. rewrite refuse_Ok, res_bind_Ok.
  setoid_rewrite (for_range_chain _ _ _ _ _ _ _ _ (account_step_Ok _ _)).
  setoid_rewrite chain_account. split.
  - intros (Hh & [[[s1 s2] s3] n] & (HF & (? & ? & ?) & Hst) & [Hl _]%refuse_Ok).
    apply (f_equal snd) in Hst. rewrite fold_account_live in Hst. simpl in Hst.
    go_bool. split_hyps. split; try done; lia.
  - intros [? ? ? (? & ? & ?) ? ? ? ? ? ? Hl]. split.
    + go_bool. split_and!; try done; try lia; by rewrite ?bool_decide_eq_false.
    + destruct (fold_left add_account (elems (reg_Accounts r)) (∅, ∅, ∅, 0)) as [[[s1 s2] s3] n] eqn:Hf.
      exists (s1, s2, s3, n). split_and!; try done.
      pose proof (fold_account_live (elems (reg_Accounts r)) (∅, ∅, ∅, 0)) as Hn.
      rewrite Hf in Hn. simpl in Hn. rewrite refuse_Ok. go_bool. split; [lia|done].
Qed.

Lemma Registry_Validate_ok r : is_ok (Registry_Validate r) = true ↔ wf_registry r.
Proof. by rewrite is_ok_unit, Registry_Validate_wf. Qed.

Lemma Registry_next_Ok r expected r' :
  typed_registry r →
  Registry_next r expected = Ok r' ↔
  wf_registry r ∧ reg_Revision r = expected ∧ expected < max_uint64 ∧
  r' = mkRegistry (reg_Format r) (reg_SchemaVersion r) (reg_Revision r + 1)
         (reg_FirstID r) (reg_LastID r) (Some (elems (reg_Accounts r))).
Proof.
  intros Ht. unfold Registry_next, u64_add, wrap, typed_registry, max_uint64 in *.
  rewrite !refuse_Ok. go_bool. rewrite Registry_Validate_ok. split.
  - intros (Hw & [Hr Hm] & [= <-]). split_and!; try done; [lia|].
    rewrite Z.mod_small by lia. done.
  - intros (Hw & <- & Hm & ->). split_and!; try done; [lia|].
    rewrite Z.mod_small by lia. done.
Qed.

(** *** The allocator *)
Lemma first_free_Some fuel used c last n :
  first_free fuel used c last = Some n →
  c ≤ n ≤ last ∧ n ∉ used ∧ (∀ m, c ≤ m < n → m ∈ used).
Proof.
  revert c. induction fuel as [|f IH]; intros c; simpl; [done|].
  destruct (Z.ltb_spec last c); [done|]. case_bool_decide as Hc.
  - intros (Hb & Hn & Hm)%IH. split_and!; [lia|lia|done|].
    intros m Hr. destruct (decide (m = c)) as [->|]; [done|]. apply Hm. lia.
  - intros [= <-]. split_and!; [lia|lia|done|lia].
Qed.

Lemma first_free_None fuel used c last :
  (Z.to_nat (last - c + 1) ≤ fuel)%nat →
  first_free fuel used c last = None ↔ (∀ m, c ≤ m ≤ last → m ∈ used).
Proof.
  revert c. induction fuel as [|f IH]; intros c Hf; simpl.
  - split; [|done]. intros _ m Hm. lia.
  - destruct (Z.ltb_spec last c).
    + split; [|done]. intros _ m Hm. lia.
    + case_bool_decide as Hc.
      * rewrite IH by lia. split.
        -- intros Hm m Hr. destruct (decide (m = c)) as [->|]; [done|]. apply Hm. lia.
        -- intros Hm m Hr. apply Hm. lia.
      * split; [done|]. intros Hm. exfalso. apply Hc, Hm. lia.
Qed.

(** *** The loops of [Create] *)
Definition clean_external (name external : string) : Prop :=
  bad_external external = false ∧ equal_fold external name = false.

Lemma external_loop_Ok name l i :
  for_range (external_step name) i tt l = Ok tt ↔ Forall (clean_external name) l.
Proof.
  revert i. induction l as [|x l IH]; intros i; [simpl; by rewrite Forall_nil|].
  rewrite for_range_cons_Ok, Forall_cons. unfold external_step at 1, clean_external.
  setoid_rewrite refuse_Ok. setoid_rewrite refuse_Ok. split.
  - intros ([] & (? & ? & _) & ?%IH). done.
  - intros ((? & ?) & ?%(IH (i + 1))). exists tt. done.
Qed.

Lemma existing_loop_Ok id name l i used live st :
  for_range (existing_step id name) i (used, live) l = Ok st ↔
  id ∉ acc_ID <$> l ∧ name ∉ acc_Name <$> l ∧
  st = (list_to_set (acc_UID <$> l) ∪ used, live + live_count l).
Proof.
  revert i used live. induction l as [|a l IH]; intros i used live.
  - simpl. unfold live_count, len. simpl. rewrite Z.add_0_r, union_empty_l_L. set_solver.
  - rewrite for_range_cons_Ok. unfold existing_step at 1. setoid_rewrite refuse_Ok.
    rewrite !fmap_cons, !not_elem_of_cons, live_count_cons. split.
    + intros (st1 & (Hc & [= <-]) & (Hi & Hn & ->)%IH). go_bool in Hc. destruct Hc.
      split_and!; try done. f_equal; [set_solver|]. case_bool_decide; lia.
    + intros ([Hi Hi'] & [Hn Hn'] & ->). eexists. rewrite IH. split_and!; [|reflexivity|done|done|].
      * go_bool. done.
      * f_equal; [set_solver|]. case_bool_decide; lia.
Qed.

(** The numbers [Create] must avoid. *)
Definition taken (r : Registry) (rsv : Reservations) : gset Z :=
  list_to_set (acc_UID <$> elems (reg_Accounts r)) ∪
  (list_to_set (elems (rsv_GIDs rsv)) ∪ list_to_set (elems (rsv_UIDs rsv))).

Record good_reservations (name : string) (rsv : Reservations) : Prop := {
  gr_present : is_nil (rsv_UIDs rsv) = false ∧ is_nil (rsv_GIDs rsv) = false
               ∧ is_nil (rsv_Names rsv) = false;
  gr_bounds : slen (rsv_UIDs rsv) ≤ 65536 ∧ slen (rsv_GIDs rsv) ≤ 65536 ∧ slen (rsv_Names rsv) ≤ 65536;
  gr_names : Forall (clean_external name) (elems (rsv_Names rsv)) }.

(** [Create] succeeds under exactly these conditions, with exactly this result. *)
Record create_pre (r : Registry) (expected : Z) (id name : string) (rsv : Reservations) : Prop := {
  cp_wf : wf_registry r;
  cp_revision : reg_Revision r = expected ∧ expected < max_uint64;
  cp_identity : identifier id = true ∧ accountName name = true;
  cp_reserved : good_reservations name rsv;
  cp_fresh : id ∉ acc_ID <$> elems (reg_Accounts r) ∧ name ∉ acc_Name <$> elems (reg_Accounts r);
  cp_capacity : slen (reg_Accounts r) < MaxRecords ∧ live_count (elems (reg_Accounts r)) < MaxLive }.

Definition create_post (r : Registry) (id name : string) (n : Z) : Registry :=
  mkRegistry (reg_Format r) (reg_SchemaVersion r) (reg_Revision r + 1) (reg_FirstID r) (reg_LastID r)
    (Some (elems (reg_Accounts r) ++ [mkAccount id name n n Disabled])).

Lemma Registry_Create_Ok r expected id name rsv r' :
  typed_registry r →
  Registry_Create r expected id name rsv = Ok r' ↔
  create_pre r expected id name rsv ∧
  ∃ n, reg_FirstID r ≤ n ≤ reg_LastID r ∧ n ∉ taken r rsv ∧
       (∀ m, reg_FirstID r ≤ m < n → m ∈ taken r rsv) ∧ r' = create_post r id name n.
Proof.
  intros Ht. unfold Registry_Create. split.
  - intros (nx & Hnx & H)%res_bind_Ok. apply Registry_next_Ok in Hnx as (Hw & Hr & Hm & ->); [|done].
    apply refuse_Ok in H as [Hc H]. apply res_bind_Ok in H as ([] & Hext & H).
    apply res_bind_Ok in H as ([used live] & Hex & H). apply refuse_Ok in H as [Hcap Hfree].
    apply external_loop_Ok in Hext. apply existing_loop_Ok in Hex as (Hi & Hn & [= -> ->]).
    go_bool in Hc. rewrite validIdentity_spec in Hc. split_hyps. go_bool in Hcap. destruct Hcap.
    split; [finish|].
    destruct (first_free _ _ _ _) as [n|] eqn:Hff; [|done]. apply first_free_Some in Hff as (? & ? & ?).
    injection Hfree as <-. exists n. finish.
  - intros ([Hw [Hr Hm] Hid [? ? ?] [? ?] [? ?]] & n & Hn & Hfree & Hleast & ->).
    apply res_bind_Ok. eexists. rewrite Registry_next_Ok by done. split; [finish|].
    apply refuse_Ok. split; [go_bool; rewrite validIdentity_spec; split_hyps; finish|].
    apply res_bind_Ok. exists tt. rewrite external_loop_Ok. split; [done|].
    apply res_bind_Ok. eexists (_, _). rewrite existing_loop_Ok. split; [finish|].
    apply refuse_Ok. split; [go_bool; finish|].
    destruct (first_free _ _ _ _) as [n'|] eqn:Hff.
    + apply first_free_Some in Hff as (? & Hn' & Hl').
      assert (n' = n) as ->; [|done].
      destruct (Z.lt_trichotomy n n') as [Hlt|[->|Hlt]]; [|done|].
      * exfalso. apply Hfree. apply (Hl' n). lia.
      * exfalso. apply Hn'. apply (Hleast n'). lia.
    + rewrite first_free_None in Hff by lia. exfalso. apply Hfree. apply (Hff n). lia.
Qed.

(** *** Preservation *)
Lemma create_post_wf r expected id name rsv n :
  create_pre r expected id name rsv → typed_registry r →
  reg_FirstID r ≤ n ≤ reg_LastID r → n ∉ taken r rsv →
  wf_registry (create_post r id name n).
Proof.
  intros [[] [? ?] [? ?] _ [Hid Hname] [Hrec Hlive]] Ht Hn Hfree. unfold typed_registry in Ht.
  assert (n ∉ acc_UID <$> elems (reg_Accounts r)) as Hu by (unfold taken in Hfree; set_solver).
  split; simpl; try done; try lia.
  - unfold slen, len in *. simpl. rewrite length_app. simpl. lia.
  - rewrite Forall_app, Forall_singleton. split; [done|]. by split.
  - rewrite fmap_app, NoDup_app. split_and!; [done|set_solver|apply NoDup_singleton].
  - rewrite fmap_app, NoDup_app. split_and!; [done|set_solver|apply NoDup_singleton].
  - rewrite fmap_app, NoDup_app. split_and!; [done|set_solver|apply NoDup_singleton].
  - rewrite live_count_app. unfold live_count at 2, len. simpl. lia.
Qed.

(** The transitions [SetState] allows: between disabled and enabled both ways,
    and from disabled to retired. *)
Definition transition (old new : string) : Prop :=
  (old = Disabled ∧ (new = Enabled ∨ new = Retired)) ∨ (old = Enabled ∧ new = Disabled).

Definition with_state (a : Account) (state : string) : Account :=
  mkAccount (acc_ID a) (acc_Name a) (acc_UID a) (acc_GID a) state.

Lemma known_state_spec s : known_state s = true ↔ s = Disabled ∨ s = Enabled ∨ s = Retired.
Proof. unfold known_state. go_bool. tauto. Qed.

Lemma transition_test old new :
  known_state old = true →
  (old == Retired) || (old == new) || negb (known_state new)
    || ((new == Retired) && (old != Disabled)) = false ↔ transition old new.
Proof.
  intros Ho%known_state_spec. go_bool. rewrite known_state_spec. unfold transition. split.
  - intros (((? & ?) & Hn) & Hr). destruct Ho as [->|[->| ->]], Hn as [->|[->| ->]]; naive_solver.
  - intros [[-> [->| ->]]|[-> ->]]; split_and!; try done; naive_solver.
Qed.

Lemma set_state_in_Ok l id state l' :
  Forall (λ a, known_state (acc_State a) = true) l →
  set_state_in l id state = Ok l' ↔
  ∃ l1 a l2, l = l1 ++ a :: l2 ∧ id ∉ acc_ID <$> l1 ∧ acc_ID a = id
             ∧ transition (acc_State a) state ∧ l' = l1 ++ with_state a state :: l2.
Proof.
  intros HF. revert l'. induction HF as [|a l Ha HF IH]; intros l'; simpl.
  - split; [done|]. intros (l1 & ? & ? & ? & _). by destruct l1.
  - case_bool_decide as Hid; simpl.
    + rewrite refuse_Ok, transition_test by done. split.
      * intros [Ht [= <-]]. exists [], a, l. simpl. split_and!; try done. set_solver.
      * intros (l1 & b & l2 & Heq & Hn & Hb & Ht & ->).
        destruct l1 as [|c l1]; simplify_eq/=; [done|]. set_solver.
    + rewrite res_bind_Ok. setoid_rewrite IH. split.
      * intros (rest & (l1 & b & l2 & -> & Hn & Hb & Ht & ->) & [= <-]).
        exists (a :: l1), b, l2. simpl. split_and!; try done. set_solver.
      * intros (l1 & b & l2 & Heq & Hn & Hb & Ht & ->).
        destruct l1 as [|c l1]; simplify_eq/=. eexists. split; [|done].
        exists l1, b, l2. split_and!; try done. set_solver.
Qed.

Lemma wf_known_states r :
  wf_registry r → Forall (λ a, known_state (acc_State a) = true) (elems (reg_Accounts r)).
Proof. intros []. eapply Forall_impl; [done|]. by intros a []. Qed.

(** [SetState] succeeds under exactly these conditions, with exactly this result. *)
Definition set_state_post (r : Registry) (l : list Account) : Registry :=
  mkRegistry (reg_Format r) (reg_SchemaVersion r) (reg_Revision r + 1)
    (reg_FirstID r) (reg_LastID r) (Some l).

Lemma Registry_SetState_Ok r expected id state r' :
  typed_registry r →
  Registry_SetState r expected id state = Ok r' ↔
  wf_registry r ∧ reg_Revision r = expected ∧ expected < max_uint64 ∧
  ∃ l1 a l2, elems (reg_Accounts r) = l1 ++ a :: l2 ∧ acc_ID a = id
             ∧ transition (acc_State a) state
             ∧ r' = set_state_post r (l1 ++ with_state a state :: l2).
Proof.
  intros Ht. unfold Registry_SetState. split.
  - intros (nx & Hnx & (acc & Hs & [= <-])%res_bind_Ok)%res_bind_Ok.
    apply Registry_next_Ok in Hnx as (Hw & Hr & Hm & ->); [|done]. simpl in Hs.
    apply set_state_in_Ok in Hs as (l1 & a & l2 & Hl & _ & Ha & Hst & ->); [|by apply wf_known_states].
    split_and!; try done. exists l1, a, l2. done.
  - intros (Hw & Hr & Hm & l1 & a & l2 & Hl & Ha & Hst & ->).
    apply res_bind_Ok. eexists. rewrite Registry_next_Ok by done. split; [done|].
    apply res_bind_Ok. eexists. simpl. rewrite set_state_in_Ok by (by apply wf_known_states).
    split; [|done]. exists l1, a, l2. split_and!; try done.
    pose proof (wr_ids _ Hw) as HN. rewrite Hl, fmap_app, NoDup_app in HN. set_solver.
Qed.

Lemma with_state_identity {B} (f : Account → B) l1 a state l2 :
  (∀ x s, f (with_state x s) = f x) → f <$> l1 ++ with_state a state :: l2 = f <$> l1 ++ a :: l2.
Proof. intros Hf. by rewrite !fmap_app, !fmap_cons, Hf. Qed.

Lemma live_count_transition l1 a state l2 :
  transition (acc_State a) state →
  live_count (l1 ++ with_state a state :: l2) ≤ live_count (l1 ++ a :: l2).
Proof.
  intros Ht. rewrite !live_count_app, !live_count_cons. simpl.
  destruct Ht as [[-> [->| ->]]|[-> ->]]; simpl; lia.
Qed.

Lemma set_state_post_wf r l1 a l2 state :
  wf_registry r → typed_registry r → elems (reg_Accounts r) = l1 ++ a :: l2 →
  transition (acc_State a) state → wf_registry (set_state_post r (l1 ++ with_state a state :: l2)).
Proof.
  intros [] Ht Hl Hst. unfold typed_registry in Ht.
  split; simpl; try done; rewrite ?(with_state_identity acc_ID), ?(with_state_identity acc_Name), ?(with_state_identity acc_UID), <- ?Hl; try done; try lia.
  - unfold slen, len in *. rewrite Hl in *. simpl. rewrite length_app in *. done.
  - rewrite Hl in *. rewrite Forall_app, Forall_cons in *.
    destruct wr_accounts0 as (? & [? ? ? ? ?] & ?). split_and!; try done. split; try done.
    simpl. apply known_state_spec. unfold transition in Hst. naive_solver.
  - pose proof (live_count_transition l1 a state l2 Hst) as HL. rewrite <- Hl in HL. lia.
Qed.

(** ** The life of a registry

    Every registry a store accepts comes from [Registry_New] by the two
    mutating operations. *)
Inductive registry_step (r : Registry) : Registry → Prop :=
| step_create expected id name rsv r' :
    Registry_Create r expected id name rsv = Ok r' → registry_step r r'
| step_set_state expected id state r' :
    Registry_SetState r expected id state = Ok r' → registry_step r r'.

(** What a step may change in an account: nothing but the state, and that only
    along [transition]. *)
Definition identity_of (a : Account) : string * string * Z * Z :=
  (acc_ID a, acc_Name a, acc_UID a, acc_GID a).
Definition evolves (a b : Account) : Prop :=
  identity_of a = identity_of b ∧ (acc_State a = Retired → acc_State b = Retired).

Definition extends (r r' : Registry) : Prop :=
  (reg_FirstID r, reg_LastID r) = (reg_FirstID r', reg_LastID r')
  ∧ ∃ kept added, elems (reg_Accounts r') = kept ++ added ∧ Forall2 evolves (elems (reg_Accounts r)) kept.

#[export] Instance evolves_refl : Reflexive evolves.
Proof. by intros a. Qed.
#[export] Instance evolves_trans : Transitive evolves.
Proof. intros a b c [H1 H2] [H3 H4]. split; [congruence|naive_solver]. Qed.

#[export] Instance extends_refl : Reflexive extends.
Proof. intros r. split; [done|]. exists (elems (reg_Accounts r)), []. rewrite app_nil_r. done. Qed.
#[export] Instance extends_trans : Transitive extends.
Proof.
  intros r1 r2 r3 [Hw1 (k1 & a1 & Ha1 & HF1)] [Hw2 (k2 & a2 & Ha2 & HF2)].
  split; [congruence|]. rewrite Ha1 in HF2.
  apply Forall2_app_inv_l in HF2 as (k2' & k2'' & HFa & HFb & ->).
  exists k2', (k2'' ++ a2). rewrite Ha2, <- app_assoc. split; [done|]. by transitivity k1.
Qed.

Lemma registry_step_sound r r' :
  typed_registry r → registry_step r r' →
  wf_registry r ∧ wf_registry r' ∧ typed_registry r' ∧ reg_Revision r' = reg_Revision r + 1 ∧ extends r r'.
Proof.
  intros Ht [? ? ? ? ? H|? ? ? ? H].
  - apply Registry_Create_Ok in H as (Hp & n & Hn & Hf & _ & ->); [|done].
    pose proof (create_post_wf _ _ _ _ _ _ Hp Ht Hn Hf). destruct Hp.
    refine (conj _ (conj _ (conj _ (conj _ _)))); try done.
    + unfold typed_registry in *. simpl. unfold max_uint64 in *. lia.
    + split; [done|]. eexists _, _. split; reflexivity.
  - apply Registry_SetState_Ok in H as (Hw & Hr & Hm & l1 & a & l2 & Hl & Ha & Hst & ->); [|done].
    pose proof (set_state_post_wf _ _ _ _ _ Hw Ht Hl Hst).
    refine (conj _ (conj _ (conj _ (conj _ _)))); try done.
    + unfold typed_registry in *. simpl. unfold max_uint64 in *. lia.
    + split; [done|]. eexists _, []. rewrite app_nil_r. split; [reflexivity|]. rewrite Hl.
      apply Forall2_app; [reflexivity|]. constructor; [|reflexivity].
      split; [done|]. intros HR. destruct Hst as [[HD _]|[HD _]]; rewrite HR in HD; discriminate HD.
Qed.

Lemma registry_reach_sound n r r' :
  typed_registry r → wf_registry r → nsteps registry_step n r r' →
  wf_registry r' ∧ typed_registry r' ∧ reg_Revision r' = reg_Revision r + Z.of_nat n ∧ extends r r'.
Proof.
  intros Ht Hw Hr. induction Hr as [r|n r r1 r' Hs Hr IH]; [split_and!; [done..|lia|done]|].
  apply registry_step_sound in Hs as (_ & Hw1 & Ht1 & Hv & He); [|done].
  destruct (IH Ht1 Hw1) as (? & ? & ? & ?). refine (conj _ (conj _ (conj _ _))); try done; [lia|by transitivity r1].
Qed.

(** ** Bindings *)
Definition granted (policy : Config) : list string :=
  grant_UserID <$> (elems (cfg_Shares policy) ≫= λ s, elems (share_Grants s)).

(** The account a granted user is bound to. *)
Definition resolved (r : Registry) (policy : Config) (uid : string) : Prop :=
  ∃ a, a ∈ elems (reg_Accounts r) ∧ acc_ID a = uid ∧ acc_State a = Enabled
       ∧ ∃ u, u ∈ elems (cfg_Users policy) ∧ user_ID u = uid ∧ user_Name u = acc_Name a.

Lemma account_map_lookup l id a :
  NoDup (acc_ID <$> l) → account_map l !! id = Some a ↔ a ∈ l ∧ acc_ID a = id.
Proof.
  intros HN. unfold account_map. rewrite (fold_insert_lookup acc_ID (λ a, a)) by done.
  rewrite lookup_empty. naive_solver.
Qed.

Lemma user_map_lookup l id n :
  NoDup (user_ID <$> l) → user_map l !! id = Some n ↔ ∃ u, u ∈ l ∧ user_ID u = id ∧ user_Name u = n.
Proof.
  intros HN. unfold user_map. rewrite (fold_insert_lookup user_ID user_Name) by done.
  rewrite lookup_empty. naive_solver.
Qed.

Section bind_loop.
Context (accounts : gmap string Account) (users : gmap string string).
Hypothesis keyed : ∀ id a, accounts !! id = Some a → acc_ID a = id.

Definition bindable (g : Grant) : Prop :=
  ∃ a, accounts !! grant_UserID g = Some a ∧ acc_State a = Enabled
       ∧ acc_Name a = default "" (users !! grant_UserID g).

(** The result so far holds each account once, and [seen] its ids. *)
Definition bind_inv (st : list Account * gset string) : Prop :=
  NoDup (acc_ID <$> st.1) ∧ st.2 = list_to_set (acc_ID <$> st.1)
  ∧ Forall (λ a, accounts !! acc_ID a = Some a) st.1.

Lemma bind_step_Ok st g st' :
  bind_inv st → bind_step accounts users st g = Ok st' →
  bindable g ∧ bind_inv st' ∧ st'.2 = {[grant_UserID g]} ∪ st.2.
Proof using keyed.
  destruct st as [bound seen]. intros (HN & Hs & HF). unfold bind_step.
  destruct (accounts !! grant_UserID g) as [a|] eqn:Ha; [|done].
  intros [Hc Hr]%refuse_Ok. go_bool in Hc. destruct Hc as [Hn He]. simpl in *.
  pose proof (keyed _ _ Ha) as Hid.
  split; [by exists a|]. case_bool_decide as Hseen; simplify_eq/=.
  - split; [done|]. rewrite <- Hid. set_solver.
  - split; [|by rewrite Hid]. unfold bind_inv. simpl. rewrite fmap_app, list_to_set_app_L. split_and!.
    + rewrite NoDup_app. split_and!; [done|set_solver|apply NoDup_singleton].
    + simpl. set_solver.
    + rewrite Forall_app, Forall_singleton. rewrite Hid. done.
Qed.

Lemma bind_step_total st g : bindable g → ∃ st', bind_step accounts users st g = Ok st'.
Proof.
  destruct st as [bound seen]. intros (a & Ha & He & Hn). unfold bind_step. rewrite Ha.
  rewrite <- Hn, He, !bool_decide_true by done. simpl. case_bool_decide; eauto.
Qed.

Lemma bind_loop_Ok l i st st' :
  bind_inv st → for_range (λ _, bind_step accounts users) i st l = Ok st' →
  Forall bindable l ∧ bind_inv st' ∧ st'.2 = list_to_set (grant_UserID <$> l) ∪ st.2.
Proof using keyed.
  revert i st. induction l as [|g l IH]; intros i st Hi.
  - intros [= <-]. split_and!; [done..|]. simpl. set_solver.
  - rewrite for_range_cons_Ok. intros (s1 & (Hg & Hi1 & Hs1)%bind_step_Ok & (HF & Hi' & Hs')%IH); [|done..].
    split_and!; [by constructor|done|]. rewrite Hs', Hs1. simpl. set_solver.
Qed.

Lemma bind_loop_total l i st :
  Forall bindable l → ∃ st', for_range (λ _, bind_step accounts users) i st l = Ok st'.
Proof.
  intros HF. revert i st. induction HF as [|g l Hg HF IH]; intros i st; [by eexists|].
  destruct (bind_step_total st g Hg) as [s1 Hs]. simpl. rewrite Hs. apply IH.
Qed.
End bind_loop.

(** A grant of a valid policy is bindable exactly when it is resolved by ID,
    exact name and enabled state. *)
Lemma bindable_resolved r policy g :
  wf_registry r → wf_config policy →
  bindable (account_map (elems (reg_Accounts r))) (user_map (elems (cfg_Users policy))) g
  ↔ resolved r policy (grant_UserID g).
Proof.
  intros Hr Hp. unfold bindable, resolved.
  setoid_rewrite account_map_lookup; [|apply Hr].
  apply exist_proper. intros a. split.
  - intros ((Ha & Hid) & He & Hn). split_and!; try done.
    destruct (user_map _ !! grant_UserID g) as [n|] eqn:Hu; simpl in Hn.
    + apply user_map_lookup in Hu as (u & Hu & Hui & Hun); [|apply Hp]. exists u. subst. done.
    + pose proof (wr_accounts _ Hr) as HF. rewrite Forall_forall in HF.
      destruct (HF a Ha) as [_ Han _ _ _]. rewrite Hn in Han. discriminate Han.
  - intros (Ha & Hid & He & u & Hu & Hui & Hun). split_and!; try done.
    assert (user_map (elems (cfg_Users policy)) !! grant_UserID g = Some (user_Name u)) as ->;
      [|done]. apply user_map_lookup; [apply Hp|]. by exists u.
Qed.

#[export] Instance id_le_total : Total id_le.
Proof. intros a b. unfold id_le. apply (total String.le). Qed.
#[export] Instance id_le_trans : Transitive id_le.
Proof. intros a b c. unfold id_le. apply transitivity. Qed.

Lemma Registry_BindShares_Ok r policy b :
  Registry_BindShares r policy = Ok b →
  wf_registry r ∧ wf_config policy ∧ Forall (resolved r policy) (granted policy)
  ∧ bnd_RegistryRevision b = reg_Revision r ∧ bnd_ShareRevision b = cfg_Revision policy
  ∧ Sorted id_le (bnd_Accounts b) ∧ NoDup (acc_ID <$> bnd_Accounts b)
  ∧ ∀ a, a ∈ bnd_Accounts b ↔ a ∈ elems (reg_Accounts r) ∧ acc_ID a ∈ granted policy.
Proof.
  unfold Registry_BindShares. intros [Hc H]%refuse_Ok. go_bool in Hc.
  rewrite Registry_Validate_ok, is_ok_unit, Config_Validate_wf in Hc. destruct Hc as [Hr Hp].
  apply res_bind_Ok in H as ([bound seen] & Hl & [= <-]).
  rewrite (for_range_nested (bind_step _ _) (λ s, elems (share_Grants s))) in Hl.
  apply bind_loop_Ok in Hl as (HF & (HN & Hs & HB) & Hseen).
  2: { intros id a. rewrite account_map_lookup by apply Hr. tauto. }
  2: { split_and!; [constructor|done|constructor]. }
  simpl in *. rewrite union_empty_r_L in Hseen. rewrite Hs in Hseen.
  assert (∀ a, a ∈ bound ↔ a ∈ elems (reg_Accounts r) ∧ acc_ID a ∈ granted policy) as Hmem.
  { intros a. rewrite Forall_forall in HB. split.
    - intros Ha. pose proof (HB a Ha) as Hm. apply account_map_lookup in Hm; [|apply Hr].
      split; [tauto|]. rewrite <- (elem_of_list_to_set (C := gset string)).
      unfold granted. rewrite <- Hseen. set_solver.
    - intros [Ha Hg]. unfold granted in Hg. rewrite <- (elem_of_list_to_set (C := gset string)), <- Hseen in Hg.
      apply elem_of_list_to_set, list_elem_of_fmap in Hg as (a' & Hid & Ha').
      pose proof (HB a' Ha') as Hm'. apply account_map_lookup in Hm'; [|apply Hr].
      assert (account_map (elems (reg_Accounts r)) !! acc_ID a = Some a) as Hm
        by (apply account_map_lookup; [apply Hr|done]).
      pose proof (HB a' Ha') as Hm''. rewrite <- Hid in Hm''. congruence. }
  assert (Forall (resolved r policy) (granted policy)).
  { unfold granted. apply Forall_fmap. eapply Forall_impl; [exact HF|].
    intros g Hg. simpl. apply bindable_resolved; done. }
  split_and!; try done.
  - apply Sorted_merge_sort, _.
  - rewrite merge_sort_Permutation. done.
  - intros a. by rewrite merge_sort_Permutation.
Qed.

Lemma Registry_BindShares_total r policy :
  wf_registry r → wf_config policy → Forall (resolved r policy) (granted policy) →
  ∃ b, Registry_BindShares r policy = Ok b.
Proof.
  intros Hr Hp HF. unfold Registry_BindShares.
  assert (is_ok (Registry_Validate r) = true) as -> by by apply Registry_Validate_ok.
  assert (is_ok (Config_Validate policy) = true) as -> by by apply is_ok_unit, Config_Validate_wf.
  simpl. rewrite (for_range_nested (bind_step _ _) (λ s, elems (share_Grants s))).
  unfold granted in HF. rewrite Forall_fmap in HF.
  edestruct (bind_loop_total (account_map (elems (reg_Accounts r))) (user_map (elems (cfg_Users policy))))
    as [st Hst]; [eapply Forall_impl; [exact HF|]; intros g; by apply bindable_resolved|].
  rewrite Hst. destruct st. by eexists.
Qed.

(** ** Properties *)

(** [Registry.Validate] accepts exactly the registries that satisfy the
    invariant: an ID window inside [1000, 60000], at most [MaxRecords] records
    of which at most [MaxLive] are not retired, every record with a valid
    identity, a UID equal to its GID inside the window and a known state, and
    no ID, name or number used twice. *)
Theorem Registry_Validate_exact r : Registry_Validate r = Ok tt ↔ wf_registry r.
Proof. apply Registry_Validate_wf. Qed.

(** [Registry.Create] succeeds exactly when the registry is valid, the
    caller's revision is current and can be incremented, the identity is valid
    and new (also against the folded external names), and there is room; the
    result is then a valid registry, one revision later, with the same records
    followed by a disabled one whose UID and GID are the least number of the
    window that no record and no external UID or GID uses. *)
Theorem Registry_Create_exact r expected id name rsv r' :
  typed_registry r →
  Registry_Create r expected id name rsv = Ok r' ↔
  create_pre r expected id name rsv ∧
  ∃ n, reg_FirstID r ≤ n ≤ reg_LastID r ∧ n ∉ taken r rsv
       ∧ (∀ m, reg_FirstID r ≤ m < n → m ∈ taken r rsv)
       ∧ r' = create_post r id name n ∧ wf_registry r'.
Proof.
  intros Ht. rewrite Registry_Create_Ok by done. split.
  - intros (Hp & n & ? & ? & ? & ->). split; [done|]. exists n. split_and!; try done; try lia.
    by eapply create_post_wf.
  - intros (Hp & n & ? & ? & ? & -> & _). split; [done|]. by exists n.
Qed.

Definition example_registry : Registry := (Registry_New 1000 1002).1.
Definition example_reservations : Reservations :=
  mkReservations (Some [0; 1000]) (Some [0]) (Some ["root"; "daemon"]).

Lemma Registry_Create_exact_witness :
  typed_registry example_registry ∧
  ∃ n, n ∉ taken example_registry example_reservations
       ∧ Registry_Create example_registry 1 "u1" "alice" example_reservations
         = Ok (create_post example_registry "u1" "alice" n).
Proof.
  assert (Ht : typed_registry example_registry) by (vm_compute; by split).
  split; [done|].
  destruct (proj1 (Registry_Create_exact example_registry 1 "u1" "alice" example_reservations
    (create_post example_registry "u1" "alice" 1001) Ht) ltac:(vm_compute; reflexivity))
    as (_ & n & _ & Hn & _ & Heq & _).
  exists n. split; [done|]. rewrite <- Heq. vm_compute. reflexivity.
Defined.

(** [Registry.SetState] succeeds exactly when the registry is valid, the
    caller's revision is current and can be incremented, and the record with
    that ID exists and may make the transition (disabled to enabled or retired,
    enabled to disabled, nothing out of retired); the result is the valid
    registry one revision later in which only the state of that record differs. *)
Theorem Registry_SetState_exact r expected id state r' :
  typed_registry r →
  Registry_SetState r expected id state = Ok r' ↔
  wf_registry r ∧ reg_Revision r = expected ∧ expected < max_uint64 ∧
  ∃ l1 a l2, elems (reg_Accounts r) = l1 ++ a :: l2 ∧ acc_ID a = id
             ∧ transition (acc_State a) state
             ∧ r' = set_state_post r (l1 ++ with_state a state :: l2) ∧ wf_registry r'.
Proof.
  intros Ht. rewrite Registry_SetState_Ok by done. split.
  - intros (Hw & ? & ? & l1 & a & l2 & ? & ? & ? & ->). split_and!; try done.
    exists l1, a, l2. split_and!; try done. by apply set_state_post_wf.
  - intros (? & ? & ? & l1 & a & l2 & ? & ? & ? & ? & _). split_and!; try done. by exists l1, a, l2.
Qed.

Definition example_account : Account := mkAccount "u1" "alice" 1001 1001 Disabled.
Definition example_registry_2 : Registry := create_post example_registry "u1" "alice" 1001.

Lemma Registry_SetState_exact_witness :
  typed_registry example_registry_2 ∧
  wf_registry (set_state_post example_registry_2 [with_state example_account Enabled]).
Proof.
  assert (Ht : typed_registry example_registry_2) by (vm_compute; by split).
  split; [done|].
  destruct (proj1 (Registry_SetState_exact example_registry_2 2 "u1" Enabled
    (set_state_post example_registry_2 [with_state example_account Enabled]) Ht)
    ltac:(vm_compute; reflexivity)) as (_ & _ & _ & _ & _ & _ & _ & _ & _ & _ & Hw).
  exact Hw.
Defined.

(** C10: along any sequence of [Create] and [SetState] the registry stays valid,
    its revision grows by exactly one with every change and never wraps, its ID
    window is fixed, and every record it ever held is still there at the same position with the same ID, name, UID
    and GID; a retired record stays retired, so an identity is never reused. *)
Theorem registry_reachable n r r' :
  typed_registry r → wf_registry r → nsteps registry_step n r r' →
  wf_registry r' ∧ reg_Revision r' = reg_Revision r + Z.of_nat n ∧ reg_Revision r' ≤ max_uint64 ∧ extends r r'.
Proof. intros Ht Hw Hr. destruct (registry_reach_sound n r r' Ht Hw Hr) as (? & [_ ?] & ? & ?). done. Qed.

Lemma registry_reachable_witness :
  wf_registry (set_state_post example_registry_2 [with_state example_account Retired])
  ∧ extends example_registry (set_state_post example_registry_2 [with_state example_account Retired]).
Proof.
  destruct (registry_reachable 2 example_registry
    (set_state_post example_registry_2 [with_state example_account Retired])) as (? & _ & _ & ?).
  - vm_compute; by split.
  - apply Registry_Validate_wf. vm_compute. reflexivity.
  - apply nsteps_l with example_registry_2.
    + apply (step_create _ 1 "u1" "alice" example_reservations). vm_compute. reflexivity.
    + apply nsteps_once, (step_set_state _ 2 "u1" Retired). vm_compute. reflexivity.
  - by split.
Defined.

(** [Registry.BindShares] succeeds on a valid registry and a valid policy
    exactly when every granted user resolves to an enabled record with the same
    ID and the same name; the bindings then carry both revisions and exactly
    the granted records, each once and in increasing order of ID. *)
Theorem Registry_BindShares_exact r policy :
  wf_registry r → wf_config policy →
  (is_ok (Registry_BindShares r policy) = true ↔ Forall (resolved r policy) (granted policy))
  ∧ ∀ b, Registry_BindShares r policy = Ok b →
      bnd_RegistryRevision b = reg_Revision r ∧ bnd_ShareRevision b = cfg_Revision policy
      ∧ Sorted id_le (bnd_Accounts b) ∧ NoDup (acc_ID <$> bnd_Accounts b)
      ∧ ∀ a, a ∈ bnd_Accounts b ↔ a ∈ elems (reg_Accounts r) ∧ acc_ID a ∈ granted policy.
Proof.
  intros Hr Hp. split.
  - rewrite is_ok_true. split; [|by apply Registry_BindShares_total].
    intros (b & (_ & _ & ? & _)%Registry_BindShares_Ok). done.
  - intros b (_ & _ & _ & ? & ? & ? & ? & ?)%Registry_BindShares_Ok. done.
Qed.

Definition example_policy : Config :=
  mkConfig Format 1 7 (Some [mkVolume "v1" "00000000-0000-0000-0000-000000000001"])
    (Some [mkUser "u1" "alice"; mkUser "u2" "bob"])
    (Some [mkShare "s1" "Media" "v1" "media" (Some [mkGrant "u1" "rw"])]).
Definition example_enabled : Registry :=
  set_state_post example_registry_2 [with_state example_account Enabled].

Lemma Registry_BindShares_exact_witness :
  Forall (resolved example_enabled example_policy) (granted example_policy)
  ∧ NoDup (acc_ID <$> [with_state example_account Enabled]).
Proof.
  destruct (Registry_BindShares_exact example_enabled example_policy) as [Hiff Hb].
  - apply Registry_Validate_wf. vm_compute. reflexivity.
  - apply Config_Validate_wf. vm_compute. reflexivity.
  - split; [apply Hiff; vm_compute; reflexivity|].
    destruct (Hb (mkBindings 3 7 [with_state example_account Enabled])) as (_ & _ & _ & HN & _);
      [vm_compute; reflexivity|exact HN].
Defined.

End ServiceAccounts.
