(* ===== verification/Unix.v ===== *)
(** * Local Unix identities: [unixidentity/snapshot.go] and [nss.go]

    [Parse] reads the passwd and group documents, [Snapshot_Reservations] turns
    them into the exclusions the account allocator takes, [Snapshot_Inspect]
    compares one account with them, [FilesOnlyNSS] recognises the supported
    name-service profile. *)

From S2P Require Import Prelude GoStrings Shares Accounts.

Module UnixIdentity.
Import ServiceAccounts.

(** ** Data *)
Record user := mkUnixUser { usr_name : string; usr_uid : Z; usr_gid : Z }.
Record group := mkUnixGroup { grp_name : string; grp_gid : Z; grp_members : list string }.
Record Snapshot := mkSnapshot { snap_valid : bool; snap_users : list user; snap_groups : list group }.

Definition MaxFileBytes : Z := 1048576.
Definition MaxFileRecords : Z := 4096.
Definition MaxLineBytes : Z := 16384.
Definition Absent : string := "absent-from-supplied-files".
Definition Partial : string := "partial-local-identity".
Definition Conflict : string := "conflicting-local-identity".
Definition Observed : string := "matching-local-identity".

(** The package has one error, [ErrInvalid]. *)
Inductive error := ErrInvalid.

(** ** Parsing *)
Definition name_char (c : Z) : bool :=
  is_lower c || is_upper c || is_digit c || (c =? 95) || (c =? 45) || (c =? 46) || (c =? 36).
Definition name (value : string) : bool :=
  if (slength value =? 0) || (256 <? slength value) then false
  else forallb name_char (runes value).

Definition number (value : string) : res error Z :=
  refuse (value == "") || (10 <? slength value) => ErrInvalid ;;
  refuse negb (forallb is_digit (runes value)) => ErrInvalid ;;
  match ParseUint 32 value with
  | None => Err ErrInvalid
  | Some n => refuse n =? max_uint32 => ErrInvalid ;; Ok n
  end.

(** One line of [readRows]; loop state: the rows so far and the names seen. *)
Definition row_step (count : Z) (st : list (list string) * gset string) (line : string) :
  res error (list (list string) * gset string) :=
  let '(rows, seen) := st in
  refuse MaxLineBytes <? slength line => ErrInvalid ;;
  if (line == "") || has_prefix "#" line then Ok (rows, seen)
  else
    let fields := split_on ":" line in
    let key := default "" (fields !! 0%nat) in
    refuse negb (len fields =? count) || negb (name key) || (key ∈? seen)
           || (MaxFileRecords <=? len rows) => ErrInvalid ;;
    Ok (rows ++ [fields], {[key]} ∪ seen).

Definition readRows (input : option reader) (count : Z) : res error (list (list string)) :=
  match input with
  | None => Err ErrInvalid
  | Some rd =>
    match limit_read (MaxFileBytes + 1) rd with
    | None => Err ErrInvalid
    | Some data =>
      refuse (MaxFileBytes <? slength data) || negb (utf8_valid data) => ErrInvalid ;;
      refuse existsb (λ c, negb (c =? 10) && ((c <? 32) || (c =? 127))) (codes data) => ErrInvalid ;;
      '(rows, _) ← for_range (λ _, row_step count) 0 ([], ∅) (split_on "010" data);
      refuse len rows =? 0 => ErrInvalid ;;
      Ok rows
    end
  end.

(** [fields[i]], for a row whose length [readRows] has checked *)
Definition field (fields : list string) (i : nat) : string := default "" (fields !! i).

Definition user_row (users : list user) (fields : list string) : res error (list user) :=
  uid ← number (field fields 2);
  gid ← number (field fields 3);
  Ok (users ++ [mkUnixUser (field fields 0) uid gid]).

Definition member_step (st : list string * gset string) (member : string) :
  res error (list string * gset string) :=
  let '(members, seen) := st in
  refuse negb (name member) || (member ∈? seen) => ErrInvalid ;;
  Ok (members ++ [member], {[member]} ∪ seen).

Definition group_row (groups : list group) (fields : list string) : res error (list group) :=
  gid ← number (field fields 2);
  '(members, _) ← (if field fields 3 != ""
                   then for_range (λ _, member_step) 0 ([], ∅) (split_on "," (field fields 3))
                   else Ok ([], ∅));
  Ok (groups ++ [mkUnixGroup (field fields 0) gid members]).

Definition Parse (passwd groups : option reader) : res error Snapshot :=
  rows ← readRows passwd 7;
  users ← for_range (λ _, user_row) 0 [] rows;
  grows ← readRows groups 4;
  grps ← for_range (λ _, group_row) 0 [] grows;
  Ok (mkSnapshot true users grps).

(** ** Reservations

    The three Go maps are sets; their (unordered) keys are then sorted. *)
Definition snapshot_uids (s : Snapshot) : gset Z := list_to_set (usr_uid <$> snap_users s).
Definition snapshot_gids (s : Snapshot) : gset Z :=
  list_to_set (grp_gid <$> snap_groups s) ∪ list_to_set (usr_gid <$> snap_users s).
Definition snapshot_names (s : Snapshot) : gset string :=
  list_to_set (snap_groups s ≫= λ g, grp_name g :: grp_members g)
  ∪ list_to_set (usr_name <$> snap_users s).

Definition Snapshot_Reservations (s : Snapshot) : res error Reservations :=
  refuse negb (snap_valid s) => ErrInvalid ;;
  let uids := elements (snapshot_uids s) in
  let gids := elements (snapshot_gids s) in
  let names := elements (snapshot_names s) in
  refuse 65536 <? len names => ErrInvalid ;;
  Ok (mkReservations (Some (merge_sort Z.le uids)) (Some (merge_sort Z.le gids))
        (Some (merge_sort String.le names))).

(** ** Assessment *)
Record Assessment := mkAssessment { as_Status : string; as_UserPresent : bool; as_GroupPresent : bool }.
#[export] Instance Assessment_eq_dec : EqDecision Assessment. Proof. solve_decision. Defined.

(** The loops return early with the conflict verdict: the error of their
    [for_range] is that verdict. *)
Definition conflict : Assessment := mkAssessment Conflict false false.

Definition inspect_user (a : Account) (hasUser : bool) (u : user) : res Assessment bool :=
  if equal_fold (usr_name u) (acc_Name a) then
    refuse (usr_name u != acc_Name a) || negb (usr_uid u =? acc_UID a) || negb (usr_gid u =? acc_GID a)
      => conflict ;;
    Ok true
  else
    refuse (usr_uid u =? acc_UID a) || (usr_gid u =? acc_GID a) => conflict ;;
    Ok hasUser.

Definition inspect_group (a : Account) (hasGroup : bool) (g : group) : res Assessment bool :=
  let own := (grp_name g == acc_Name a) && (grp_gid g =? acc_GID a) in
  has ← (if equal_fold (grp_name g) (acc_Name a) || (grp_gid g =? acc_GID a)
         then (refuse negb own => conflict ;; Ok true)
         else Ok hasGroup);
  _ ← for_range (λ _ _ m, refuse (own && (m != acc_Name a)) || (negb own && equal_fold m (acc_Name a))
                            => conflict ;; Ok tt) 0 tt (grp_members g);
  Ok has.

Definition Snapshot_Inspect (s : Snapshot) (a : Account) : res error Assessment :=
  let '(r0, err) := Registry_New (acc_UID a) (acc_UID a) in
  let r := mkRegistry (reg_Format r0) (reg_SchemaVersion r0) (reg_Revision r0)
             (reg_FirstID r0) (reg_LastID r0) (Some [a]) in
  refuse negb (snap_valid s) || negb (is_ok err) || negb (is_ok (Registry_Validate r)) => ErrInvalid ;;
  match (hasUser ← for_range (λ _, inspect_user a) 0 false (snap_users s);
         hasGroup ← for_range (λ _, inspect_group a) 0 false (snap_groups s);
         Ok (mkAssessment
           (if hasUser && hasGroup then Observed
            else if hasUser || hasGroup then Partial else Absent) hasUser hasGroup))
  with
  | Ok result => Ok result
  | Err verdict => Ok verdict
  end.

Definition Snapshot_Assess (s : Snapshot) (a : Account) : res error string :=
  detail ← Snapshot_Inspect s a; Ok (as_Status detail).

(** ** [nss.go] *)
Definition MaxNSSBytes : Z := 65536.

(** [strings.SplitN(s, sep, 2)]: the text before the separator, and the text
    after it when there is one. *)
Definition split2 (sep : ascii) (s : string) : string * option string :=
  let '(a, b, found) := cut sep s in (a, if found then Some b else None).

Definition nss_step (seen : gset string) (line : string) : res unit (gset string) :=
  refuse MaxLineBytes <? slength line => tt ;;
  let line := trim_space (split2 "#" line).1 in
  if line == "" then Ok seen
  else match split2 ":" line with
  | (_, None) => Err tt
  | (lhs, Some rhs) =>
    let key := trim_space lhs in
    (* space, tab, brackets and backslash *)
    refuse (key == "") || contains_any key " 	[]\" => tt ;;
    let folded := to_lower key in
    if (folded == "passwd") || (folded == "group") || (folded == "initgroups") then
      refuse (key != folded) || (key ∈? seen) || (trim_space rhs != "files") => tt ;;
      Ok ({[key]} ∪ seen)
    else Ok seen
  end.

Definition nss_byte_ok (c : Z) : bool :=
  (c =? 10) || (c =? 9) || negb ((c <? 32) || (126 <? c)).

Definition FilesOnlyNSS (data : string) : bool :=
  if (slength data =? 0) || (MaxNSSBytes <? slength data) then false
  else if negb (forallb nss_byte_ok (codes data)) then false
  else match for_range (λ _, nss_step) 0 ∅ (split_on "010" data) with
       | Err _ => false
       | Ok seen => ("passwd" ∈? seen) && ("group" ∈? seen)
       end.

(** ** The invariant of a snapshot *)
Definition good_number (n : Z) : Prop := 0 ≤ n < max_uint32.
Record good_user (u : user) : Prop := {
  gu_name : name (usr_name u) = true; gu_uid : good_number (usr_uid u); gu_gid : good_number (usr_gid u) }.
Record good_group (g : group) : Prop := {
  gg_name : name (grp_name g) = true; gg_gid : good_number (grp_gid g);
  gg_members : Forall (λ m, name m = true) (grp_members g); gg_nodup : NoDup (grp_members g) }.

Record wf_snapshot (s : Snapshot) : Prop := {
  ws_valid : snap_valid s = true;
  ws_user_count : 1 ≤ len (snap_users s) ≤ MaxFileRecords;
  ws_group_count : 1 ≤ len (snap_groups s) ≤ MaxFileRecords;
  ws_users : Forall good_user (snap_users s);
  ws_groups : Forall good_group (snap_groups s);
  ws_user_names : NoDup (usr_name <$> snap_users s);
  ws_group_names : NoDup (grp_name <$> snap_groups s) }.

(** ** Lemmas *)
Lemma name_ascii v : name v = true → Forall (λ b, b < 128) (codes v) ∧ forallb name_char (codes v) = true.
Proof.
  unfold name. case_match; [done|]. intros Hc.
  rewrite forallb_runes in Hc by (intros r Hr; unfold name_char, is_lower, is_upper, is_digit; lia).
  split; [|done]. rewrite forallb_forall in Hc. apply Forall_forall. intros b Hb%list_elem_of_In.
  specialize (Hc b Hb). unfold name_char, is_lower, is_upper, is_digit in Hc. lia.
Qed.

Lemma name_clean v : name v = true → bad_external v = false.
Proof.
  intros Hn. pose proof (name_ascii v Hn) as [Ha Hc]. unfold bad_external.
  rewrite utf8_valid_ascii, runes_ascii by done. unfold name in Hn.
  destruct ((slength v =? 0) || (256 <? slength v)); [done|].
  simpl. apply not_true_is_false. rewrite existsb_exists. intros (c & Hin & Hbad).
  rewrite forallb_forall in Hc. specialize (Hc c Hin).
  unfold name_char, is_lower, is_upper, is_digit in Hc. lia.
Qed.

Lemma number_Ok v n : number v = Ok n → good_number n ∧ n = digits_value (codes v).
Proof.
  unfold number, ParseUint, good_number, max_uint32. intros (_ & [Hd H]%refuse_Ok)%refuse_Ok.
  destruct (bool_decide (v = "")); [done|].
  destruct (forallb is_digit (codes v)) eqn:Hdig; [|done]. pose proof (digits_value_bounds _ Hdig).
  destruct (digits_value (codes v) <? 2 ^ 32) eqn:Hlt; [|done].
  apply refuse_Ok in H as [Hm [= <-]]. go_bool. lia.
Qed.

(** What a loop over the lines of a file has collected. *)
Record rows_inv (count : Z) (st : list (list string) * gset string) : Prop := {
  ri_seen : st.2 = list_to_set ((λ r, field r 0) <$> st.1);
  ri_nodup : NoDup ((λ r, field r 0) <$> st.1);
  ri_count : len st.1 ≤ MaxFileRecords;
  ri_rows : Forall (λ r, len r = count ∧ name (field r 0) = true) st.1 }.

Lemma row_step_inv count st line st' :
  rows_inv count st → row_step count st line = Ok st' → rows_inv count st'.
Proof.
  destruct st as [rows seen]. intros [Hs HN Hc HF]. simpl in *. unfold row_step.
  intros [_ H]%refuse_Ok. case_match; [by simplify_eq|]. apply refuse_Ok in H as [Hg [= <-]].
  go_bool in Hg. destruct Hg as (((Hl & Hn) & Hf) & Hm).
  change (default "" (split_on ":" line !! 0%nat)) with (field (split_on ":" line) 0) in *.
  split; cbn [fst snd]; rewrite ?fmap_app, ?list_to_set_app_L.
  - rewrite Hs. simpl. set_solver.
  - rewrite NoDup_app. split_and!; [done|set_solver|apply NoDup_singleton].
  - unfold len in *. rewrite length_app. simpl. lia.
  - by rewrite Forall_app, Forall_singleton.
Qed.

Lemma readRows_Ok input count rows :
  readRows input count = Ok rows →
  1 ≤ len rows ≤ MaxFileRecords ∧ NoDup ((λ r, field r 0) <$> rows)
  ∧ Forall (λ r, len r = count ∧ name (field r 0) = true) rows.
Proof.
  unfold readRows. destruct input as [rd|]; [|done]. destruct (limit_read _ rd) as [data|]; [|done].
  intros [_ [_ H]%refuse_Ok]%refuse_Ok. apply res_bind_Ok in H as ([rs seen] & Hl & [Hz [= <-]]%refuse_Ok).
  apply (for_range_inv _ (rows_inv count)) in Hl as [_ HN Hc HF].
  - go_bool. split_and!; try done. unfold len in *. simpl in *. lia.
  - intros j st x st' _. apply row_step_inv.
  - by repeat constructor.
Qed.

Definition user_of_row (r : list string) (u : user) : Prop :=
  usr_name u = field r 0 ∧ number (field r 2) = Ok (usr_uid u) ∧ number (field r 3) = Ok (usr_gid u).

Lemma user_row_Ok acc r acc' :
  user_row acc r = Ok acc' ↔ ∃ u, user_of_row r u ∧ acc' = acc ++ [u].
Proof.
  unfold user_row, user_of_row. split.
  - intros (uid & Hu & (gid & Hg & [= <-])%res_bind_Ok)%res_bind_Ok. by eexists (mkUnixUser _ _ _).
  - intros ([n uid gid] & (Hn & Hu & Hg) & ->). simpl in *. rewrite Hu, Hg. simpl. by rewrite Hn.
Qed.

Definition members_of (f : string) : list string := if f == "" then [] else split_on "," f.

Definition group_of_row (r : list string) (g : group) : Prop :=
  grp_name g = field r 0 ∧ number (field r 2) = Ok (grp_gid g)
  ∧ grp_members g = members_of (field r 3)
  ∧ Forall (λ m, name m = true) (grp_members g) ∧ NoDup (grp_members g).

Lemma member_loop_Ok i ms seen l st :
  for_range (λ _, member_step) i (ms, seen) l = Ok st ↔
  Forall (λ m, name m = true) l ∧ NoDup l ∧ (∀ m, m ∈ l → m ∉ seen)
  ∧ st = (ms ++ l, list_to_set l ∪ seen).
Proof.
  revert i ms seen. induction l as [|m l IH]; intros i ms seen.
  - simpl. rewrite app_nil_r, union_empty_l_L. split; [|naive_solver].
    intros [= <-]. split_and!; try done; try constructor. set_solver.
  - rewrite for_range_cons_Ok, Forall_cons, NoDup_cons. unfold member_step at 1. split.
    + intros ([ms1 seen1] & [Hc [= <- <-]]%refuse_Ok & (HF & HN & Hs & ->)%IH). go_bool in Hc.
      split_and!; try tauto; [set_solver|set_solver|]. rewrite <- app_assoc. simpl. f_equal. set_solver.
    + intros ([Hm HF] & [Hx HN] & Hs & ->). eexists. rewrite refuse_Ok. split.
      * split; [|reflexivity]. go_bool. split; [done|]. set_solver.
      * rewrite IH. split_and!; try done; [set_solver|]. rewrite <- app_assoc. simpl. f_equal. set_solver.
Qed.

Lemma group_row_Ok acc r acc' :
  group_row acc r = Ok acc' ↔ ∃ g, group_of_row r g ∧ acc' = acc ++ [g].
Proof.
  unfold group_row, group_of_row, members_of. split.
  - intros (gid & Hg & ([ms s] & Hm & [= <-])%res_bind_Ok)%res_bind_Ok.
    exists (mkUnixGroup (field r 0) gid ms). simpl.
    case_bool_decide; simpl in Hm; [simplify_eq; split_and!; by try constructor|].
    apply member_loop_Ok in Hm as (HF & HN & _ & [= -> _]). done.
  - intros ([n gid ms] & (Hn & Hg & Hm & HF & HN) & ->). simpl in *. rewrite Hg. simpl.
    case_bool_decide; simpl; [by subst|]. subst ms.
    assert (for_range (λ _, member_step) 0 ([], ∅) (split_on "," (field r 3))
      = Ok ([] ++ split_on "," (field r 3), list_to_set (split_on "," (field r 3)) ∪ ∅)) as ->.
    { apply member_loop_Ok. split_and!; try done. }
    simpl. by rewrite Hn.
Qed.

(** The records of a successful parse are those of the accepted rows, one each
    and in order. *)
Lemma Parse_rows p g s :
  Parse p g = Ok s ↔
  ∃ rows grows, readRows p 7 = Ok rows ∧ readRows g 4 = Ok grows ∧ snap_valid s = true
    ∧ Forall2 user_of_row rows (snap_users s) ∧ Forall2 group_of_row grows (snap_groups s).
Proof.
  unfold Parse. split.
  - intros (rows & Hr & H)%res_bind_Ok. apply res_bind_Ok in H as (us & Hu & H).
    apply res_bind_Ok in H as (grows & Hgr & (gs & Hg & [= <-])%res_bind_Ok).
    apply (for_range_append _ _ _ _ _ _ user_row_Ok) in Hu as (ys & ? & ->).
    apply (for_range_append _ _ _ _ _ _ group_row_Ok) in Hg as (zs & ? & ->).
    exists rows, grows. done.
  - intros (rows & grows & Hr & Hgr & Hv & Hu & Hg). destruct s as [v us gs]. simpl in *. subst v.
    rewrite Hr, Hgr. simpl.
    rewrite (proj2 (for_range_append _ _ 0 [] rows us user_row_Ok)) by (by exists us). simpl.
    rewrite (proj2 (for_range_append _ _ 0 [] grows gs group_row_Ok)) by (by exists gs). done.
Qed.

Lemma Parse_wf p g s : Parse p g = Ok s → wf_snapshot s.
Proof.
  intros (rows & grows & Hr & Hg & Hv & HU & HG)%Parse_rows.
  apply readRows_Ok in Hr as (Hc & HN & HF). apply readRows_Ok in Hg as (Hc' & HN' & HF').
  pose proof (Forall2_length _ _ _ HU) as HLu. pose proof (Forall2_length _ _ _ HG) as HLg.
  split; try done; unfold len in *; rewrite <- ?HLu, <- ?HLg; try done.
  - eapply Forall2_Forall_r; [exact HU|]. eapply Forall_impl; [exact HF|].
    intros r [_ Hn] u (He & ?%number_Ok & ?%number_Ok). rewrite <- He in Hn. split; naive_solver.
  - eapply Forall2_Forall_r; [exact HG|]. eapply Forall_impl; [exact HF'|].
    intros r [_ Hn] gr (He & ?%number_Ok & _ & ? & ?). rewrite <- He in Hn. split; naive_solver.
  - rewrite <- (Forall2_fmap_eq (λ r, field r 0) usr_name _ _ _ (λ r u H, eq_sym (proj1 H)) HU). done.
  - rewrite <- (Forall2_fmap_eq (λ r, field r 0) grp_name _ _ _ (λ r u H, eq_sym (proj1 H)) HG). done.
Qed.

(** ** Assessment *)

(** The accounts [Inspect] accepts: those a registry could hold. *)
Definition inspectable (a : Account) : Prop :=
  ShareConfig.identifier (acc_ID a) = true ∧ ShareConfig.accountName (acc_Name a) = true ∧ 1000 ≤ acc_UID a ≤ 60000
  ∧ acc_GID a = acc_UID a ∧ known_state (acc_State a) = true.

(** When a row contradicts the private-group identity of an account. *)
Definition user_conflicts (a : Account) (u : user) : Prop :=
  (equal_fold (usr_name u) (acc_Name a) = true
   ∧ u ≠ mkUnixUser (acc_Name a) (acc_UID a) (acc_GID a))
  ∨ (equal_fold (usr_name u) (acc_Name a) = false ∧ (usr_uid u = acc_UID a ∨ usr_gid u = acc_GID a)).
Definition owns (a : Account) (g : group) : Prop := grp_name g = acc_Name a ∧ grp_gid g = acc_GID a.
Definition group_conflicts (a : Account) (g : group) : Prop :=
  (owns a g ∧ ∃ m, m ∈ grp_members g ∧ m ≠ acc_Name a)
  ∨ (¬ owns a g ∧ (equal_fold (grp_name g) (acc_Name a) = true ∨ grp_gid g = acc_GID a
                   ∨ ∃ m, m ∈ grp_members g ∧ equal_fold m (acc_Name a) = true)).
Definition conflicts (s : Snapshot) (a : Account) : Prop :=
  (∃ u, u ∈ snap_users s ∧ user_conflicts a u) ∨ (∃ g, g ∈ snap_groups s ∧ group_conflicts a g).

Lemma equal_fold_refl x : equal_fold x x = true.
Proof. unfold equal_fold. by apply bool_decide_eq_true. Qed.

Definition user_bad (a : Account) (u : user) : bool :=
  if equal_fold (usr_name u) (acc_Name a)
  then (usr_name u != acc_Name a) || negb (usr_uid u =? acc_UID a) || negb (usr_gid u =? acc_GID a)
  else (usr_uid u =? acc_UID a) || (usr_gid u =? acc_GID a).
Definition own_group (a : Account) (g : group) : bool :=
  (grp_name g == acc_Name a) && (grp_gid g =? acc_GID a).
Definition group_bad (a : Account) (g : group) : bool :=
  (negb (own_group a g) && (equal_fold (grp_name g) (acc_Name a) || (grp_gid g =? acc_GID a)))
  || existsb (λ m, (own_group a g && (m != acc_Name a))
                   || (negb (own_group a g) && equal_fold m (acc_Name a))) (grp_members g).

Lemma user_bad_true a u : user_bad a u = true ↔ user_conflicts a u.
Proof.
  unfold user_bad, user_conflicts. destruct u as [n uid gid]. simpl.
  destruct (equal_fold n (acc_Name a)); go_bool; [|naive_solver].
  split; [intros H; left; split; [done|]; naive_solver|].
  intros [[_ H]|[? _]]; [|done].
  destruct (decide (n = acc_Name a)), (decide (uid = acc_UID a)), (decide (gid = acc_GID a)); naive_solver.
Qed.

Lemma own_group_true a g : own_group a g = true ↔ owns a g.
Proof. unfold own_group, owns. go_bool. done. Qed.

Lemma group_bad_true a g : group_bad a g = true ↔ group_conflicts a g.
Proof.
  unfold group_bad, group_conflicts. rewrite <- own_group_true, orb_true_iff, existsb_True.
  destruct (own_group a g); simpl.
  - setoid_rewrite orb_false_r. setoid_rewrite negb_true_iff. setoid_rewrite bool_decide_eq_false.
    naive_solver.
  - go_bool. naive_solver.
Qed.

Lemma inspect_user_scan a b u :
  inspect_user a b u =
  if user_bad a u then Err conflict else Ok (b || equal_fold (usr_name u) (acc_Name a)).
Proof.
  unfold inspect_user, user_bad. destruct (equal_fold _ _); [|by rewrite orb_false_r].
  rewrite orb_true_r. by destruct (_ || _).
Qed.

Lemma inspect_group_scan a b g :
  inspect_group a b g = if group_bad a g then Err conflict else Ok (b || own_group a g).
Proof.
  unfold inspect_group, group_bad. fold (own_group a g). set (own := own_group a g).
  assert (Hm : ∀ l i, for_range (λ _ _ m, if (own && (m != acc_Name a))
      || (negb own && equal_fold m (acc_Name a)) then Err conflict else Ok tt) i tt l
    = if existsb (λ m, (own && (m != acc_Name a)) || (negb own && equal_fold m (acc_Name a))) l
      then Err conflict else Ok tt).
  { induction l as [|m l IH]; intros i; simpl; [done|]. destruct (_ || _); simpl; [done|apply IH]. }
  assert (own = true → equal_fold (grp_name g) (acc_Name a) || (grp_gid g =? acc_GID a) = true) as Hown.
  { intros [-> _]%own_group_true. by rewrite equal_fold_refl. }
  cbv zeta. destruct own; simpl.
  - rewrite Hown by done. simpl. rewrite Hm. destruct (existsb _ _); simpl; [done|]. by rewrite orb_true_r.
  - destruct (_ || _); simpl; [done|]. rewrite Hm. destruct (existsb _ _); simpl; [done|].
    by rewrite orb_false_r.
Qed.

Lemma inspect_guard s a :
  snap_valid s = true → inspectable a →
  negb (snap_valid s) || negb (is_ok (Registry_New (acc_UID a) (acc_UID a)).2)
  || negb (is_ok (Registry_Validate (mkRegistry RegistryFormat 1 1 (acc_UID a) (acc_UID a) (Some [a]))))
  = false.
Proof.
  intros -> (Hi & Hn & Hu & Hg & Hst). go_bool. split_and!; [done|apply Registry_Validate_ok..].
  - split; simpl; try done; try lia; by constructor.
  - split; simpl; try done; try lia; try apply NoDup_singleton.
    + apply Forall_singleton. split; try done; lia.
    + unfold live_count, len, MaxLive, ShareConfig.MaxUsers. rewrite filter_cons, filter_nil.
      case_decide; simpl; lia.
Qed.

(** [Inspect] on a valid snapshot and account, in closed form. *)
Lemma Snapshot_Inspect_scan s a :
  snap_valid s = true → inspectable a →
  Snapshot_Inspect s a =
  Ok (if existsb (user_bad a) (snap_users s) || existsb (group_bad a) (snap_groups s) then conflict
      else let u := existsb (λ u, equal_fold (usr_name u) (acc_Name a)) (snap_users s) in
           let g := existsb (own_group a) (snap_groups s) in
           mkAssessment (if u && g then Observed else if u || g then Partial else Absent) u g).
Proof.
  intros Hv Ha. unfold Snapshot_Inspect. pose proof (inspect_guard s a Hv Ha) as Hg.
  unfold Registry_New in *. cbn [snd] in Hg.
  cbn [reg_Format reg_SchemaVersion reg_Revision reg_FirstID reg_LastID]. rewrite Hg.
  rewrite (for_range_scan _ (user_bad a) (λ u, equal_fold (usr_name u) (acc_Name a)) conflict)
    by (intros; apply inspect_user_scan).
  destruct (existsb (user_bad a) _); simpl; [done|].
  rewrite (for_range_scan _ (group_bad a) (own_group a) conflict) by (intros; apply inspect_group_scan).
  by destruct (existsb (group_bad a) _).
Qed.

Lemma conflicts_scan s a :
  existsb (user_bad a) (snap_users s) || existsb (group_bad a) (snap_groups s) = true ↔ conflicts s a.
Proof.
  rewrite orb_true_iff, !existsb_True. unfold conflicts.
  setoid_rewrite user_bad_true. setoid_rewrite group_bad_true. done.
Qed.

(** ** Reservations *)
Record exact_reservations (s : Snapshot) (r : Reservations) : Prop := {
  er_uids : ∀ n, n ∈ elems (rsv_UIDs r) ↔ ∃ u, u ∈ snap_users s ∧ usr_uid u = n;
  er_gids : ∀ n, n ∈ elems (rsv_GIDs r) ↔
    (∃ u, u ∈ snap_users s ∧ usr_gid u = n) ∨ (∃ g, g ∈ snap_groups s ∧ grp_gid g = n);
  er_names : ∀ n, n ∈ elems (rsv_Names r) ↔
    (∃ u, u ∈ snap_users s ∧ usr_name u = n)
    ∨ (∃ g, g ∈ snap_groups s ∧ (grp_name g = n ∨ n ∈ grp_members g));
  er_present : is_nil (rsv_UIDs r) = false ∧ is_nil (rsv_GIDs r) = false ∧ is_nil (rsv_Names r) = false;
  er_sorted : Sorted Z.le (elems (rsv_UIDs r)) ∧ Sorted Z.le (elems (rsv_GIDs r))
              ∧ Sorted String.le (elems (rsv_Names r));
  er_nodup : NoDup (elems (rsv_UIDs r)) ∧ NoDup (elems (rsv_GIDs r)) ∧ NoDup (elems (rsv_Names r)) }.

Lemma elem_of_snapshot_names s n :
  n ∈ snapshot_names s ↔
  (∃ u, u ∈ snap_users s ∧ usr_name u = n)
  ∨ (∃ g, g ∈ snap_groups s ∧ (grp_name g = n ∨ n ∈ grp_members g)).
Proof.
  unfold snapshot_names. rewrite elem_of_union, !elem_of_list_to_set, list_elem_of_bind, list_elem_of_fmap.
  setoid_rewrite elem_of_cons. naive_solver.
Qed.

#[export] Instance Zle_total : Total Z.le.
Proof. intros x y. lia. Qed.

Lemma Snapshot_Reservations_Ok s r :
  Snapshot_Reservations s = Ok r →
  snap_valid s = true ∧ exact_reservations s r ∧ slen (rsv_Names r) ≤ 65536
  ∧ slen (rsv_UIDs r) ≤ len (snap_users s)
  ∧ slen (rsv_GIDs r) ≤ len (snap_users s) + len (snap_groups s).
Proof.
  unfold Snapshot_Reservations. intros [Hv [Hn [= <-]]%refuse_Ok]%refuse_Ok. go_bool.
  assert (Hlen : ∀ A (R : relation A) `{!∀ x y, Decision (R x y)} (l : list A), slen (Some (merge_sort R l)) = len l).
  { intros. unfold slen, len. simpl. by rewrite merge_sort_Permutation. }
  cbn [rsv_UIDs rsv_GIDs rsv_Names]. rewrite !Hlen. unfold len in *.
  split_and!; [done| |lia| |].
  - split; simpl.
    + intros n. rewrite merge_sort_Permutation, elem_of_elements. unfold snapshot_uids. set_solver.
    + intros n. rewrite merge_sort_Permutation, elem_of_elements. unfold snapshot_gids. set_solver.
    + intros n. rewrite merge_sort_Permutation, elem_of_elements. apply elem_of_snapshot_names.
    + done.
    + split_and!; apply Sorted_merge_sort, _.
    + split_and!; rewrite merge_sort_Permutation; apply NoDup_elements.
  - pose proof (size_list_to_set_le (usr_uid <$> snap_users s)) as H.
    rewrite length_fmap in H. unfold size, set_size in H. simpl in H. unfold snapshot_uids. lia.
  - pose proof (size_list_to_set_le ((grp_gid <$> snap_groups s) ++ (usr_gid <$> snap_users s))) as H.
    rewrite list_to_set_app_L, length_app, !length_fmap in H.
    unfold size, set_size in H. simpl in H. unfold snapshot_gids. lia.
Qed.

(** ** Name-service profile *)

(** The database a configuration line declares and its sources, comments and
    white space removed. *)
Definition nss_pair (line : string) : option (string * string) :=
  match split2 ":" (trim_space (split2 "#" line).1) with
  | (lhs, Some rhs) => Some (trim_space lhs, trim_space rhs)
  | (_, None) => None
  end.
Definition declares (db line : string) : bool :=
  match nss_pair line with Some (key, _) => to_lower key == db | None => false end.
Definition identity_databases : list string := ["passwd"; "group"; "initgroups"].

Lemma nss_step_Ok seen line seen' db :
  db ∈ identity_databases → nss_step seen line = Ok seen' →
  if declares db line then nss_pair line = Some (db, "files") ∧ db ∉ seen ∧ db ∈ seen'
  else db ∈ seen' ↔ db ∈ seen.
Proof.
  intros Hdb. unfold nss_step, declares, nss_pair. intros [_ H]%refuse_Ok.
  revert H. generalize (trim_space (split2 "#" line).1) as l. intros l.
  case_bool_decide as Hl; [subst; simpl; intros [= <-]; done|].
  destruct (split2 ":" l) as [lhs [rhs|]]; [|done]. intros [_ H]%refuse_Ok. revert H.
  destruct (_ || _) eqn:Hid.
  - intros [Hc [= <-]]%refuse_Ok. go_bool in Hc. destruct Hc as [[Hk Hs] Hf].
    clear Hid. rewrite <- Hk. case_bool_decide as He; [subst db; rewrite Hf|]; set_solver.
  - intros [= <-]. go_bool in Hid. case_bool_decide as He; [|done].
    exfalso. unfold identity_databases in Hdb. set_solver.
Qed.

Lemma nss_loop_Ok db l i seen seen' :
  db ∈ identity_databases → for_range (λ _, nss_step) i seen l = Ok seen' →
  (∀ line, line ∈ l → declares db line = true → nss_pair line = Some (db, "files"))
  ∧ len (filter (λ line, declares db line = true) l)
    = (if bool_decide (db ∈ seen') then 1 else 0) - (if bool_decide (db ∈ seen) then 1 else 0)
  ∧ (db ∈ seen → db ∈ seen').
Proof.
  intros Hdb. unfold len. revert i seen. induction l as [|line l IH]; intros i seen.
  - intros [= <-]. simpl. split_and!; [set_solver|case_bool_decide; done|done].
  - rewrite for_range_cons_Ok. intros (s1 & Hs & Hl). apply IH in Hl as (Ha & Hc & Hm).
    pose proof (nss_step_Ok _ _ _ db Hdb Hs) as Hd. rewrite filter_cons.
    destruct (declares db line) eqn:Hdec.
    + destruct Hd as (Hp & Hn & Hi). rewrite decide_True by done. simpl length.
      rewrite (bool_decide_eq_true_2 _ Hi) in Hc. rewrite (bool_decide_eq_false_2 _ Hn).
      rewrite (bool_decide_eq_true_2 _ (Hm Hi)) in *. split_and!; [|lia|set_solver].
      intros x [->|Hx]%elem_of_cons; auto.
    + rewrite decide_False by done. rewrite (bool_decide_ext _ _ Hd) in Hc.
      split_and!; [|done|naive_solver]. intros x [->|Hx]%elem_of_cons; [congruence|auto].
Qed.

(** ** Properties *)

(** C40: a successful [Parse] of the two documents yields a well-formed
    snapshot: between 1 and 4096 users and groups, all names valid and unique
    per document, all numbers below the reserved maximum, member lists of
    valid names without repetition; and the users and groups are exactly those
    of the accepted rows, in order. *)
Theorem Parse_sound p g s :
  Parse p g = Ok s →
  wf_snapshot s ∧
  ∃ rows grows, readRows p 7 = Ok rows ∧ readRows g 4 = Ok grows
    ∧ Forall2 user_of_row rows (snap_users s) ∧ Forall2 group_of_row grows (snap_groups s).
Proof.
  intros H. split; [by eapply Parse_wf|].
  apply Parse_rows in H as (rows & grows & ? & ? & _ & ? & ?). by exists rows, grows.
Qed.

Definition newline : string := String "010" "".
Definition example_passwd : option reader :=
  Some (mkReader (String.append "root:x:0:0:root:/root:/bin/sh"
    (String.append newline (String.append "carol:x:1001:1001::/:/bin/false" newline))) false).
Definition example_groups : option reader :=
  Some (mkReader (String.append "root:x:0:" (String.append newline "media:x:1000:carol,root")) false).
Definition example_snapshot : Snapshot :=
  mkSnapshot true [mkUnixUser "root" 0 0; mkUnixUser "carol" 1001 1001]
    [mkUnixGroup "root" 0 []; mkUnixGroup "media" 1000 ["carol"; "root"]].

Lemma Parse_sound_witness :
  Parse example_passwd example_groups = Ok example_snapshot ∧ wf_snapshot example_snapshot.
Proof.
  assert (H : Parse example_passwd example_groups = Ok example_snapshot) by (vm_compute; reflexivity).
  split; [exact H|]. exact (proj1 (Parse_sound _ _ _ H)).
Defined.

(** On a valid snapshot and an account a registry could hold, [Inspect]
    reports a conflict exactly when some row contradicts the account's private
    identity (its name in another case, its numbers under another name, a
    foreign member of its group or a foreign group that lists it); otherwise it
    reports exactly whether the user row and the group row are present. *)
Theorem Snapshot_Inspect_exact s a :
  snap_valid s = true → inspectable a →
  ∃ r, Snapshot_Inspect s a = Ok r
    ∧ (as_Status r = Conflict ↔ conflicts s a)
    ∧ (¬ conflicts s a →
        (as_UserPresent r = true ↔ mkUnixUser (acc_Name a) (acc_UID a) (acc_GID a) ∈ snap_users s)
        ∧ (as_GroupPresent r = true ↔ ∃ g, g ∈ snap_groups s ∧ owns a g)
        ∧ as_Status r = (if as_UserPresent r && as_GroupPresent r then Observed
                         else if as_UserPresent r || as_GroupPresent r then Partial else Absent)).
Proof.
  intros Hv Ha. eexists. split; [by apply Snapshot_Inspect_scan|].
  rewrite <- conflicts_scan. destruct (existsb (user_bad a) _ || _) eqn:Hc; [done|]. cbv zeta.
  split.
  { generalize (existsb (own_group a) (snap_groups s)) as y.
    generalize (existsb (λ u, equal_fold (usr_name u) (acc_Name a)) (snap_users s)) as x.
    clear. intros [] []; (split; [intros H; discriminate H|done]). }
  intros _.
  apply orb_false_iff in Hc as [Hu Hg]. rewrite existsb_False in Hu.
  cbn [as_UserPresent as_GroupPresent as_Status]. rewrite !existsb_True. split_and!; [|by setoid_rewrite own_group_true|done].
  split.
  - intros (u & Hin & Hf). specialize (Hu u Hin). unfold user_bad in Hu. rewrite Hf in Hu.
    go_bool in Hu. destruct u as [n uid gid], Hu as [[Hn Hi] Hgi]. simpl in *. by subst.
  - intros Hin. eexists. split; [exact Hin|]. apply equal_fold_refl.
Qed.

Lemma Snapshot_Inspect_exact_witness :
  ∃ r, Snapshot_Inspect example_snapshot (mkAccount "c1" "carol" 1001 1001 Disabled) = Ok r
       ∧ as_Status r = Conflict.
Proof.
  destruct (Snapshot_Inspect_exact example_snapshot (mkAccount "c1" "carol" 1001 1001 Disabled))
    as (r & Hr & _).
  - reflexivity.
  - split_and!; first [reflexivity | simpl; lia].
  - exists r. split; [exact Hr|]. revert Hr. vm_compute. intros [= <-]. reflexivity.
Defined.

(** The reservations of a parsed snapshot always satisfy the conditions
    [Create] imposes on them (present, bounded, acceptable external names), and
    an account that [Create] allocates against them is absent from that
    snapshot: no user, group or member row conflicts with the new identity. *)
Theorem create_from_snapshot p g s rsv r expected id nm r' :
  Parse p g = Ok s → Snapshot_Reservations s = Ok rsv → typed_registry r →
  slen (rsv_UIDs rsv) ≤ 65536 ∧ slen (rsv_GIDs rsv) ≤ 65536 ∧ slen (rsv_Names rsv) ≤ 65536
  ∧ Forall (λ n, bad_external n = false) (elems (rsv_Names rsv))
  ∧ (Registry_Create r expected id nm rsv = Ok r' →
     ∃ a, elems (reg_Accounts r') = elems (reg_Accounts r) ++ [a] ∧ acc_ID a = id ∧ acc_Name a = nm
          ∧ ¬ conflicts s a ∧ Snapshot_Inspect s a = Ok (mkAssessment Absent false false)).
Proof.
  intros Hparse Hrsv Ht. apply Parse_wf in Hparse as [Hv Huc Hgc HU HG _ _].
  apply Snapshot_Reservations_Ok in Hrsv as (_ & [Eu Eg En _ _ _] & Ln & Lu & Lg).
  unfold MaxFileRecords in *. split_and!; [lia|lia|lia| |].
  - apply Forall_forall. intros n Hn%En. apply name_clean. rewrite Forall_forall in HU. rewrite Forall_forall in HG.
    destruct Hn as [(u & Hu & <-)|(gr & Hgr & [<-|Hm])]; [by apply HU|by apply HG|].
    destruct (HG gr Hgr) as [_ _ HM _]. rewrite Forall_forall in HM. by apply HM.
  - intros ([Hw _ [Hid Hnm] [_ _ Hclean] _ _] & n & Hn & Hfree & _ & ->)%Registry_Create_Ok; [|done].
    exists (mkAccount id nm n n Disabled).
    assert (Hnone : ¬ conflicts s (mkAccount id nm n n Disabled)).
    { assert (n ∉ elems (rsv_UIDs rsv) ∧ n ∉ elems (rsv_GIDs rsv)) as [HnU HnG]
        by (unfold taken in Hfree; set_solver).
      rewrite Forall_forall in Hclean.
      assert (Hne : ∀ x, x ∈ elems (rsv_Names rsv) → equal_fold x nm = false)
        by (intros x Hx; apply (Hclean x Hx)).
      intros [(u & Hu & Hc)|(gr & Hgr & Hc)].
      - assert (equal_fold (usr_name u) nm = false) by (apply Hne, En; eauto).
        destruct Hc as [[? _]|[_ [?|?]]]; simpl in *; [congruence|apply HnU, Eu; eauto|apply HnG, Eg; eauto].
      - assert (equal_fold (grp_name gr) nm = false) by (apply Hne, En; eauto).
        assert (grp_gid gr ≠ n) by (intros <-; apply HnG, Eg; eauto).
        destruct Hc as [[[? ?] _]|[_ [?|[?|(m & Hm & Hf)]]]]; simpl in *; try congruence.
        rewrite (Hne m) in Hf; [done|]. apply En. eauto 6. }
    split_and!; try done. rewrite Snapshot_Inspect_scan; [|done|].
    + rewrite <- conflicts_scan, not_true_iff_false in Hnone. rewrite Hnone.
      rewrite (proj2 (existsb_False _ (snap_users s))), (proj2 (existsb_False _ (snap_groups s))); [done|..].
      * intros gr Hgr. apply not_true_iff_false. rewrite own_group_true. intros [_ Hgid].
        apply Hfree. unfold taken. simpl in Hgid. subst n.
        assert (grp_gid gr ∈ elems (rsv_GIDs rsv)) by (apply Eg; eauto). set_solver.
      * intros u Hu. rewrite Forall_forall in Hclean. apply Hclean, En. eauto.
    + destruct Hw. split_and!; try done; simpl; lia.
Qed.

Definition example_reserved : Reservations :=
  mkReservations (Some [0; 1001]) (Some [0; 1000; 1001]) (Some ["carol"; "media"; "root"]).

Lemma create_from_snapshot_witness :
  ∃ a, Snapshot_Inspect example_snapshot a = Ok (mkAssessment Absent false false) ∧ acc_UID a = 1002.
Proof.
  destruct (create_from_snapshot example_passwd example_groups example_snapshot example_reserved
    example_registry 1 "u1" "alice" (create_post example_registry "u1" "alice" 1002))
    as (_ & _ & _ & _ & Hc).
  - vm_compute. reflexivity.
  - vm_compute. reflexivity.
  - vm_compute. split; discriminate.
  - destruct Hc as (a & Ha & _ & _ & _ & Hi); [vm_compute; reflexivity|].
    exists a. split; [exact Hi|]. vm_compute in Ha. injection Ha as <-. reflexivity.
Defined.

(** [FilesOnlyNSS] accepts a configuration only if, comments and white
    space removed, exactly one line declares the passwd database, exactly one
    the group database and at most one the initgroups database (whatever the
    case of the letters), and each of them is spelt in lower case and lists
    exactly [files]. *)
Theorem FilesOnlyNSS_sound data db line :
  FilesOnlyNSS data = true → db ∈ identity_databases →
  let lines := split_on "010" data in
  let count := length (filter (λ l, declares db l = true) lines) in
  (count ≤ 1)%nat ∧ (db ≠ "initgroups" → count = 1%nat)
  ∧ (line ∈ lines → declares db line = true → nss_pair line = Some (db, "files")).
Proof.
  unfold FilesOnlyNSS. intros H Hdb. cbv zeta. case_match; [done|]. case_match; [done|].
  destruct (for_range (λ _, nss_step) 0 ∅ (split_on "010" data)) as [seen|] eqn:Hl; [|done].
  apply (nss_loop_Ok db) in Hl as (Ha & Hc & _); [|done].
  rewrite (bool_decide_eq_false_2 (db ∈ ∅)) in Hc by set_solver. go_bool in H. unfold len in Hc.
  split_and!; [| |auto]; case_bool_decide as Hin; try lia.
  intros Hne. exfalso. apply Hin. unfold identity_databases in Hdb. set_solver.
Qed.

Lemma FilesOnlyNSS_sound_witness :
  nss_pair "passwd: files # local" = Some ("passwd", "files").
Proof.
  apply (FilesOnlyNSS_sound
    (String.append "passwd: files # local" (String.append newline "group:	files")) "passwd").
  - vm_compute. reflexivity.
  - apply elem_of_cons. left. reflexivity.
  - vm_compute. apply elem_of_cons. left. reflexivity.
  - vm_compute. reflexivity.
Defined.

End UnixIdentity.
