(* ===== verification/Store.v ===== *)
(** * Single-document transactions: [internal/revisionstore/store_linux.go]

    The store keeps one document under [CurrentName] of a private directory and
    stages the next one under [PendingName].  The model threads the directory
    as a value of type [disk]; every system call that can fail takes its outcome
    from a record of faults, so a theorem quantified over the faults covers
    every failure.  Besides the entries a running system sees, a [disk] carries
    [crash_current]: the entries of the current name that a crash may leave,
    which [rename] extends and a successful directory sync collapses.

    [Decode], [Validate], [Revision] and [ValidateTransition] are the fields of
    the codec, supplied by the caller; [marshal] stands for [json.Marshal] at
    the document type. *)

From S2P Require Import Prelude GoStrings.

Module RevisionStore.

Inductive store_error :=
| ErrNotInitialized | ErrConflict | ErrInvalid | ErrUnsafe | ErrBusy | ErrIO | ErrUncertain | ErrClosed.
#[export] Instance store_error_eq_dec : EqDecision store_error. Proof. solve_decision. Defined.

(** ** Files *)

(** What [fstat] and [read] see of a file; [i_flushed] says whether the
    content survives a crash. *)
Record inode := mkInode {
  i_dev : Z; i_ino : Z; i_regular : bool; i_mode : Z; i_uid : Z; i_nlink : Z;
  i_content : string; i_flushed : bool }.

Record disk := mkDisk {
  current : option inode; pending : option inode; crash_current : list (option inode) }.

(** ** Codec and store *)
Record Codec (T : Type) := mkCodec {
  CurrentName : string; PendingName : string; MaxBytes : Z;
  Decode : string → option T; Validate : T → bool; Revision : T → Z;
  ValidateTransition : option (T → T → bool) }.
Arguments mkCodec {T}. Arguments CurrentName {T}. Arguments PendingName {T}. Arguments MaxBytes {T}.
Arguments Decode {T}. Arguments Validate {T}. Arguments Revision {T}. Arguments ValidateTransition {T}.

(** [filepath.Base]: trailing slashes go, then everything up to the last one. *)
Fixpoint strip_slashes (s : string) : string :=
  match s with
  | EmptyString => EmptyString
  | String c s' => match strip_slashes s' with
                   | EmptyString => if c == "/"%char then EmptyString else String c EmptyString
                   | t => String c t
                   end
  end.
Definition Base (s : string) : string :=
  if s == "" then "."
  else let t := strip_slashes s in
       if t == "" then "/" else default "" (last (split_on "/" t)).

Definition validName (name : string) : bool :=
  (0 <? slength name) && (slength name <=? 64) && (name != ".") && (name != "..") && (Base name == name).

(** The function fields of a Go codec may be nil; here they are functions. *)
Definition Codec_valid {T} (codec : Codec T) : bool :=
  validName (CurrentName codec) && validName (PendingName codec)
  && (CurrentName codec != PendingName codec)
  && (0 <? MaxBytes codec) && (MaxBytes codec <=? 1048576).

Record Store (T : Type) := mkStore {
  st_ready : bool; st_closed : bool; st_uncertain : bool; st_codec : Codec T }.
Arguments mkStore {T}. Arguments st_ready {T}. Arguments st_closed {T}.
Arguments st_uncertain {T}. Arguments st_codec {T}.

(** ** Faults *)
(** What the open of the current name meets when it is not the entry just
    examined. *)
Inductive race := NotFound | Denied | Replaced (i : inode).
Record open_faults := mkOpenFaults { of_stat : bool; of_race : option race; of_fstat : bool }.
Record load_faults := mkLoadFaults { lf_open : open_faults; lf_read : bool; lf_close : bool }.
Record sync_faults := mkSyncFaults {
  sf_open : open_faults; sf_sync : bool; sf_close : bool; sf_dir : bool }.
(** A failed rename may or may not have taken effect. *)
Inductive rename_outcome := RenameOk | RenameFailed (applied : bool).
Record commit_faults := mkCommitFaults {
  cf_load : load_faults; cf_stat : bool; cf_unlink : bool; cf_create : bool;
  cf_id : Z * Z; cf_write : bool; cf_written : Z; cf_sync : bool; cf_close : bool;
  cf_rename : rename_outcome; cf_syncdir : bool }.
Inductive lock_outcome := LockOk | LockHeld | LockFailed.
Record start_faults := mkStartFaults {
  xf_open : bool; xf_fstat : bool; xf_mode : Z; xf_uid : Z; xf_lock : lock_outcome;
  xf_load : load_faults; xf_sync : sync_faults }.

Section operations.
Context {T : Type} (marshal : T → option string) (euid : Z).

Definition Store_check (s : Store T) : res store_error unit :=
  refuse negb (st_ready s) || st_closed s => ErrClosed ;;
  refuse st_uncertain s => ErrUncertain ;;
  Ok tt.

Definition private_file (st : inode) : bool :=
  i_regular st && (i_mode st =? 384) && (i_uid st =? euid) && (i_nlink st =? 1).

Definition Store_openCurrent (s : Store T) (f : open_faults) (d : disk) : res store_error inode :=
  refuse of_stat f => ErrUnsafe ;;
  match current d with
  | None => Err ErrNotInitialized
  | Some before =>
    refuse negb (i_regular before) => ErrUnsafe ;;
    st ← match of_race f with
         | None => Ok before
         | Some NotFound => Err ErrNotInitialized
         | Some Denied => Err ErrUnsafe
         | Some (Replaced other) => Ok other
         end;
    refuse of_fstat f || negb (private_file st) || (MaxBytes (st_codec s) <? slength (i_content st))
           || negb (i_dev st =? i_dev before) || negb (i_ino st =? i_ino before) => ErrUnsafe ;;
    Ok st
  end.

Definition Store_load (s : Store T) (f : load_faults) (d : disk) : res store_error T :=
  st ← Store_openCurrent s (lf_open f) d;
  match (if lf_read f then None else Decode (st_codec s) (i_content st)) with
  | None => Err ErrInvalid
  | Some c => refuse lf_close f => ErrIO ;; Ok c
  end.

Definition Store_Load (s : Store T) (f : load_faults) (d : disk) : res store_error T :=
  _ ← Store_check s; Store_load s f d.

(** [fsync] of an open file makes the content durable wherever the file is
    linked. *)
Definition flush (i : inode) : inode :=
  mkInode (i_dev i) (i_ino i) (i_regular i) (i_mode i) (i_uid i) (i_nlink i) (i_content i) true.
Definition flush_same (f i : inode) : inode :=
  if (i_dev i =? i_dev f) && (i_ino i =? i_ino f) then flush i else i.
Definition flush_file (d : disk) (f : inode) : disk :=
  mkDisk (flush_same f <$> current d) (pending d) ((λ e : option inode, flush_same f <$> e) <$> crash_current d).
Definition sync_directory (d : disk) : disk := mkDisk (current d) (pending d) [current d].

Definition Store_syncCurrent (s : Store T) (f : sync_faults) (d : disk) : disk * res store_error unit :=
  let sync_dir d := if sf_dir f then (d, Err ErrIO) else (sync_directory d, Ok tt) in
  match Store_openCurrent s (sf_open f) d with
  | Err ErrNotInitialized => sync_dir d
  | Err e => (d, Err e)
  | Ok file =>
    let d' := if sf_sync f then d else flush_file d file in
    if sf_sync f || sf_close f then (d', Err ErrIO) else sync_dir d'
  end.

(** [load]'s result as [Commit] and [Open] read it: absence is not an error. *)
Definition optional_load (r : res store_error T) : res store_error (option T) :=
  match r with
  | Ok c => Ok (Some c)
  | Err ErrNotInitialized => Ok None
  | Err e => Err e
  end.

Definition openDescriptorWithCodec (x : start_faults) (codec : Codec T) (d : disk) :
  disk * res store_error (Store T) :=
  let s := mkStore true false false codec in
  if xf_fstat x || negb (xf_mode x =? 448) || negb (xf_uid x =? euid) then (d, Err ErrUnsafe)
  else match xf_lock x with
  | LockHeld => (d, Err ErrBusy)
  | LockFailed => (d, Err ErrIO)
  | LockOk =>
    match optional_load (Store_load s (xf_load x) d) with
    | Err e => (d, Err e)
    | Ok _ =>
      match Store_syncCurrent s (xf_sync x) d with
      | (d', Err e) => (d', Err e)
      | (d', Ok _) => (d', Ok s)
      end
    end
  end.

(** [filepath.IsAbs(p) && filepath.Clean(p) == p] *)
Definition clean_absolute (p : string) : bool :=
  (p == "/") || (has_prefix "/" p && forallb path_element (tail (split_on "/" p))).

Definition OpenWithCodec (x : start_faults) (directory : string) (codec : Codec T) (d : disk) :
  disk * res store_error (Store T) :=
  if negb (Codec_valid codec) then (d, Err ErrUnsafe)
  else if negb (clean_absolute directory) then (d, Err ErrUnsafe)
  else if xf_open x then (d, Err ErrUnsafe)
  else openDescriptorWithCodec x codec d.

(** *** Commit *)

(** The checks before the directory is touched: the encoded document and its
    decoding. *)
Definition commit_encode (s : Store T) (expected : Z) (next : T) : res store_error (string * T) :=
  refuse (expected =? max_uint64) || negb (Revision (st_codec s) next =? u64_add expected 1)
    => ErrConflict ;;
  refuse negb (Validate (st_codec s) next) => ErrInvalid ;;
  match marshal next with
  | None => Err ErrInvalid
  | Some data =>
    refuse MaxBytes (st_codec s) <? slength data => ErrInvalid ;;
    match Decode (st_codec s) data with
    | None => Err ErrInvalid
    | Some persisted => Ok (data, persisted)
    end
  end.

(** The comparison with the current document. *)
Definition commit_admit (s : Store T) (f : load_faults) (d : disk) (expected : Z) (persisted : T) :
  res store_error unit :=
  cur ← optional_load (Store_load s f d);
  let currentRevision := match cur with Some c => Revision (st_codec s) c | None => 0 end in
  refuse negb (currentRevision =? expected) => ErrConflict ;;
  refuse negb (currentRevision =? 0)
         && match ValidateTransition (st_codec s), cur with
            | Some check, Some c => negb (check c persisted)
            | _, _ => false
            end => ErrInvalid ;;
  Ok tt.

(** The disposal of a stale staged file. *)
Definition commit_discard (f : commit_faults) (d : disk) : disk * res store_error unit :=
  if cf_stat f then (d, Err ErrIO)
  else match pending d with
  | None => (d, Ok tt)
  | Some st =>
    if negb (private_file st) then (d, Err ErrUnsafe)
    else if cf_unlink f then (d, Err ErrIO)
    else (mkDisk (current d) None (crash_current d), Ok tt)
  end.

(** Staging: create, write, sync and close the pending file. *)
Definition commit_stage (f : commit_faults) (d : disk) (data : string) : disk * res store_error unit :=
  if cf_create f then (d, Err ErrIO)
  else
    let complete := negb (cf_write f) && (cf_written f =? slength data) in
    let synced := complete && negb (cf_sync f) in
    let file := mkInode (cf_id f).1 (cf_id f).2 true 384 euid 1 (stake (cf_written f) data) synced in
    let d' := mkDisk (current d) (Some file) (crash_current d) in
    if negb synced || cf_close f then (d', Err ErrIO) else (d', Ok tt).

Definition rename_pending (d : disk) : disk :=
  mkDisk (pending d) None (pending d :: crash_current d).

Definition mark_uncertain (s : Store T) : Store T :=
  mkStore (st_ready s) (st_closed s) true (st_codec s).

Definition commit_publish (s : Store T) (f : commit_faults) (d : disk) :
  disk * Store T * res store_error unit :=
  match cf_rename f with
  | RenameFailed applied =>
    (if applied then rename_pending d else d, mark_uncertain s, Err ErrUncertain)
  | RenameOk =>
    if cf_syncdir f then (rename_pending d, mark_uncertain s, Err ErrUncertain)
    else (sync_directory (rename_pending d), s, Ok tt)
  end.

Definition Store_Commit (s : Store T) (f : commit_faults) (d : disk) (expected : Z) (next : T) :
  disk * Store T * res store_error unit :=
  match Store_check s with Err e => (d, s, Err e) | Ok _ =>
  match commit_encode s expected next with Err e => (d, s, Err e) | Ok (data, persisted) =>
  match commit_admit s (cf_load f) d expected persisted with Err e => (d, s, Err e) | Ok _ =>
  match commit_discard f d with (d1, Err e) => (d1, s, Err e) | (d1, Ok _) =>
  match commit_stage f d1 data with (d2, Err e) => (d2, s, Err e) | (d2, Ok _) =>
  commit_publish s f d2
  end end end end end.

Definition Store_Close (s : Store T) (fails : bool) : Store T * res store_error unit :=
  if negb (st_ready s) || st_closed s then (s, Ok tt)
  else (mkStore (st_ready s) true (st_uncertain s) (st_codec s), if fails then Err ErrIO else Ok tt).

End operations.

(** ** What a commit can do *)
Section commit.
Context {T : Type} (marshal : T → option string) (euid : Z).
Implicit Types (s : Store T) (d : disk).

(** The file a commit stages when every call succeeds. *)
Definition staged (f : commit_faults) (data : string) : inode :=
  mkInode (cf_id f).1 (cf_id f).2 true 384 euid 1 data true.

(** The checks of a commit all passed. *)
Definition admitted s f d expected next data persisted : Prop :=
  Store_check s = Ok tt ∧ commit_encode marshal s expected next = Ok (data, persisted)
  ∧ commit_admit euid s (cf_load f) d expected persisted = Ok tt.

(** The three outcomes: refused without effect on the current name, published
    without confirmation, or done. *)
Inductive commit_outcome s f d expected next : disk * Store T * res store_error unit → Prop :=
| commit_refused d' e :
    current d' = current d → crash_current d' = crash_current d →
    (e = ErrUncertain → Store_check s = Err ErrUncertain) →
    commit_outcome s f d expected next (d', s, Err e)
| commit_unconfirmed d' data persisted :
    admitted s f d expected next data persisted →
    (current d' = current d ∧ crash_current d' = crash_current d
     ∨ current d' = Some (staged f data) ∧ crash_current d' = Some (staged f data) :: crash_current d) →
    commit_outcome s f d expected next (d', mark_uncertain s, Err ErrUncertain)
| commit_done data persisted :
    admitted s f d expected next data persisted →
    commit_outcome s f d expected next
      (mkDisk (Some (staged f data)) None [Some (staged f data)], s, Ok tt).

Lemma Store_check_Err s e : Store_check s = Err e → e = ErrClosed ∨ e = ErrUncertain.
Proof. unfold Store_check. repeat case_match; naive_solver. Qed.

Lemma Store_check_Ok s :
  Store_check s = Ok tt ↔ st_ready s = true ∧ st_closed s = false ∧ st_uncertain s = false.
Proof. unfold Store_check. rewrite !refuse_Ok. go_bool. tauto. Qed.

Lemma commit_encode_not_uncertain s expected next : commit_encode marshal s expected next ≠ Err ErrUncertain.
Proof. unfold commit_encode. repeat case_match; congruence. Qed.

Lemma Store_openCurrent_not_uncertain s f d : Store_openCurrent euid s f d ≠ Err ErrUncertain.
Proof. unfold Store_openCurrent, mbind, res_bind. repeat case_match; congruence. Qed.

Lemma Store_load_not_uncertain s f d : Store_load euid s f d ≠ Err ErrUncertain.
Proof.
  unfold Store_load. pose proof (Store_openCurrent_not_uncertain s (lf_open f) d).
  destruct (Store_openCurrent _ _ _ _); simpl; repeat case_match; congruence.
Qed.

Lemma commit_admit_not_uncertain s f d expected p : commit_admit euid s f d expected p ≠ Err ErrUncertain.
Proof.
  unfold commit_admit. pose proof (Store_load_not_uncertain s f d).
  destruct (Store_load euid s f d) as [c|[]]; simpl; repeat case_match; congruence.
Qed.

Lemma Store_Commit_outcome s f d expected next :
  commit_outcome s f d expected next (Store_Commit marshal euid s f d expected next).
Proof.
  unfold Store_Commit.
  destruct (Store_check s) as [[]|e] eqn:Hc; [|constructor; congruence].
  destruct (commit_encode marshal s expected next) as [[data p]|e] eqn:He.
  2: { constructor; [done..|]. intros ->. by apply commit_encode_not_uncertain in He. }
  destruct (commit_admit euid s (cf_load f) d expected p) as [[]|e] eqn:Ha.
  2: { constructor; [done..|]. intros ->. by apply commit_admit_not_uncertain in Ha. }
  destruct (commit_discard euid f d) as [d1 r1] eqn:Hd.
  assert (current d1 = current d ∧ crash_current d1 = crash_current d ∧ r1 ≠ Err ErrUncertain)
    as (Hc1 & Hk1 & Hr1) by (unfold commit_discard in Hd; repeat case_match; simplify_eq; done).
  destruct r1 as [[]|e]; [|constructor; [done..|congruence]].
  unfold commit_stage. destruct (cf_create f); [constructor; done|].
  destruct (negb (cf_write f) && (cf_written f =? slength data)) eqn:Hw; simpl; [|by constructor].
  go_bool in Hw. destruct Hw as [_ Hlen]. destruct (cf_sync f); simpl; [by constructor|].
  destruct (cf_close f); simpl; [by constructor|].
  rewrite stake_all by lia. unfold commit_publish, rename_pending, sync_directory. simpl.
  rewrite Hc1, Hk1. destruct (cf_rename f) as [|[]]; [destruct (cf_syncdir f)|..]; simpl;
    solve [econstructor; first [by split_and! | simpl; tauto] | by econstructor].
Qed.

(** Without faults, an admitted commit is done. *)
Definition no_faults (f : commit_faults) (data : string) : Prop :=
  cf_stat f = false ∧ cf_unlink f = false ∧ cf_create f = false ∧ cf_write f = false
  ∧ cf_written f = slength data ∧ cf_sync f = false ∧ cf_close f = false
  ∧ cf_rename f = RenameOk ∧ cf_syncdir f = false.

Lemma Store_Commit_total s f d expected next data p :
  admitted s f d expected next data p → no_faults f data →
  (∀ st, pending d = Some st → private_file euid st = true) →
  Store_Commit marshal euid s f d expected next =
    (mkDisk (Some (staged f data)) None [Some (staged f data)], s, Ok tt).
Proof.
  intros (Hc & He & Ha) (N1 & N2 & N3 & N4 & N5 & N6 & N7 & N8 & N9) Hp.
  unfold Store_Commit. rewrite Hc, He, Ha. unfold commit_discard. rewrite N1, N2.
  assert (Hs : ∀ d1, current d1 = current d → crash_current d1 = crash_current d →
    match commit_stage euid f d1 data with
    | (d2, Ok _) => commit_publish s f d2 | (d2, Err e) => (d2, s, Err e) end
    = (mkDisk (Some (staged f data)) None [Some (staged f data)], s, Ok tt)).
  { intros d1 _ _. unfold commit_stage. rewrite N3, N4, N5, N6, N7, Z.eqb_refl. simpl.
    unfold commit_publish. rewrite N8, N9, stake_all by lia. done. }
  destruct (pending d) as [st|]; [rewrite (Hp st) by done|]; apply Hs; done.
Qed.

(** Loading the file a commit staged gives the document it decoded. *)
Lemma Store_load_staged s f data p lf d :
  current d = Some (staged f data) → Decode (st_codec s) data = Some p →
  slength data ≤ MaxBytes (st_codec s) →
  of_stat (lf_open lf) = false → of_race (lf_open lf) = None → of_fstat (lf_open lf) = false →
  lf_read lf = false → lf_close lf = false →
  Store_load euid s lf d = Ok p.
Proof.
  intros Hc Hd Hm F1 F2 F3 F4 F5. unfold Store_load, Store_openCurrent.
  rewrite F1, Hc, F2, F3, F4, F5. simpl. unfold private_file. simpl.
  rewrite !Z.eqb_refl. destruct (Z.ltb_spec (MaxBytes (st_codec s)) (slength data)); [lia|].
  simpl. by rewrite Hd.
Qed.

Lemma commit_encode_Ok s expected next data p :
  commit_encode marshal s expected next = Ok (data, p) ↔
  expected ≠ max_uint64 ∧ Revision (st_codec s) next = u64_add expected 1
  ∧ Validate (st_codec s) next = true ∧ marshal next = Some data
  ∧ slength data ≤ MaxBytes (st_codec s) ∧ Decode (st_codec s) data = Some p.
Proof.
  unfold commit_encode. split.
  - intros [H1 [H2 H]%refuse_Ok]%refuse_Ok. go_bool.
    destruct (marshal next) as [dt|]; [|done]. apply refuse_Ok in H as [H3 H]. go_bool.
    destruct (Decode (st_codec s) dt) eqn:Hd; [|done]. simplify_eq. naive_solver.
  - intros (H1 & H2 & H3 & H4 & H5 & H6). rewrite !refuse_Ok, H4, refuse_Ok, H6. go_bool. naive_solver.
Qed.

Lemma commit_admit_Ok s f d expected p :
  commit_admit euid s f d expected p = Ok tt ↔
  ∃ cur, optional_load (Store_load euid s f d) = Ok cur
    ∧ match cur with Some c => Revision (st_codec s) c | None => 0 end = expected
    ∧ (∀ check c, ValidateTransition (st_codec s) = Some check → cur = Some c → expected ≠ 0 →
       check c p = true).
Proof.
  unfold commit_admit. rewrite res_bind_Ok. apply exist_proper. intros cur.
  rewrite !refuse_Ok. apply and_iff_compat_l. go_bool. split.
  - intros (He & Ht & _). split; [done|]. intros check c Hv -> Hne.
    rewrite Hv in Ht. simpl in *. destruct Ht as [Ht|Ht]; [lia|]. by apply negb_false_iff.
  - intros (He & Ht). split_and!; try done.
    destruct (Z.eq_dec expected 0) as [->|Hne]; [by left|]. right.
    destruct (ValidateTransition (st_codec s)) as [check|]; [|done]. destruct cur as [c|]; [|done].
    apply negb_false_iff. by apply Ht.
Qed.

End commit.

(** ** Executions with crashes

    One process at a time holds the directory (the advisory lock of [Open], and
    the package's requirement that nothing else modifies it): the entry that is
    opened is the entry that was examined. *)
Definition exclusive (f : open_faults) : Prop := of_race f = None.

(** What is left of an entry after a crash: itself when its content was
    flushed, any content otherwise. *)
Inductive survives : option inode → option inode → Prop :=
| survives_absent : survives None None
| survives_flushed i : i_flushed i = true → survives (Some i) (Some i)
| survives_torn i content : i_flushed i = false →
    survives (Some i) (Some (mkInode (i_dev i) (i_ino i) (i_regular i) (i_mode i) (i_uid i) (i_nlink i)
                               content true)).

Section system.
Context {T : Type} (marshal : T → option string) (euid : Z) (codec : Codec T).
(** The encoder and the decoder of the documents agree on the revision. *)
Context (encoding : ∀ x data p, marshal x = Some data → Decode codec data = Some p →
                      Revision codec p = Revision codec x).

Record sys := mkSys { sys_disk : disk; sys_store : option (Store T) }.

Inductive sys_step : sys → sys → Prop :=
| run_commit d s f expected next d' s' r :
    0 ≤ expected ≤ max_uint64 → exclusive (lf_open (cf_load f)) →
    Store_Commit marshal euid s f d expected next = (d', s', r) →
    sys_step (mkSys d (Some s)) (mkSys d' (Some s'))
| run_close d s fails :
    sys_step (mkSys d (Some s)) (mkSys d (Some (Store_Close s fails).1))
| run_open d so x directory d' r :
    (∀ s, so = Some s → st_closed s = true) →
    exclusive (lf_open (xf_load x)) → exclusive (sf_open (xf_sync x)) →
    OpenWithCodec euid x directory codec d = (d', r) →
    sys_step (mkSys d so) (mkSys d' (match r with Ok s => Some s | Err _ => None end))
| run_crash d so e e' p :
    e ∈ crash_current d → survives e e' →
    sys_step (mkSys d so) (mkSys (mkDisk e' p [e']) None).

(** The revision an entry stands for; absence is revision zero. *)
Definition rev_of (e : option inode) : Z :=
  match e with
  | None => 0
  | Some i => match Decode codec (i_content i) with Some c => Revision codec c | None => 0 end
  end.

Definition durable (e : option inode) : Prop := ∀ i, e = Some i → i_flushed i = true.

Record sys_inv (y : sys) : Prop := {
  inv_current : current (sys_disk y) ∈ crash_current (sys_disk y);
  inv_durable : Forall durable (crash_current (sys_disk y));
  inv_codec : ∀ s, sys_store y = Some s → st_codec s = codec;
  inv_settled : ∀ s, sys_store y = Some s → Store_check s = Ok tt →
                crash_current (sys_disk y) = [current (sys_disk y)] }.

(** No surviving document is older than [n]. *)
Definition at_least (n : Z) (y : sys) : Prop := Forall (λ e, n ≤ rev_of e) (crash_current (sys_disk y)).

Lemma load_revision s f d cur :
  st_codec s = codec → exclusive (lf_open f) → optional_load (Store_load euid s f d) = Ok cur →
  rev_of (current d) = match cur with Some c => Revision codec c | None => 0 end.
Proof.
  intros Hs Hx. unfold exclusive in Hx. unfold Store_load, Store_openCurrent. rewrite Hx, Hs.
  destruct (of_stat (lf_open f)); [done|]. destruct (current d) as [i|]; simpl; [|by intros [= <-]].
  destruct (negb (i_regular i)); [done|]. simpl. destruct (_ || _); [done|]. simpl.
  destruct (lf_read f); [done|]. destruct (Decode codec (i_content i)); [|done].
  destruct (lf_close f); simpl; [done|]. by intros [= <-].
Qed.

Lemma admitted_revision s f d expected next data p :
  st_codec s = codec → exclusive (lf_open (cf_load f)) → 0 ≤ expected ≤ max_uint64 →
  admitted marshal euid s f d expected next data p →
  rev_of (current d) = expected ∧ rev_of (Some (staged euid f data)) = expected + 1
  ∧ Revision codec next = expected + 1.
Proof using encoding.
  intros Hs Hx Hr (_ & He & Ha). apply commit_encode_Ok in He as (H1 & H2 & _ & H4 & _ & H6).
  apply commit_admit_Ok in Ha as (cur & Hl & Hc & _). apply load_revision in Hl; [|done..].
  rewrite Hs in *. unfold u64_add, wrap, max_uint64 in *. rewrite Z.mod_small in H2 by lia.
  split_and!; [by rewrite Hl| |done]. simpl. rewrite H6, (encoding next data p) by done. done.
Qed.

Lemma durable_staged f data : durable (Some (staged euid f data)).
Proof. by intros i [= <-]. Qed.

Lemma mark_uncertain_check (s : Store T) : Store_check (mark_uncertain s) ≠ Ok tt.
Proof. rewrite Store_check_Ok. simpl. naive_solver. Qed.

Lemma commit_inv d s f expected next d' s' r n :
  0 ≤ expected ≤ max_uint64 → exclusive (lf_open (cf_load f)) →
  Store_Commit marshal euid s f d expected next = (d', s', r) →
  sys_inv (mkSys d (Some s)) → at_least n (mkSys d (Some s)) →
  sys_inv (mkSys d' (Some s')) ∧ at_least n (mkSys d' (Some s')).
Proof using encoding.
  intros Hr Hx Hc [I1 I2 I3 I4] Hn. pose proof (I3 s eq_refl) as Hs. simpl in *.
  pose proof (Store_Commit_outcome marshal euid s f d expected next) as Ho. rewrite Hc in Ho.
  unfold at_least in *. simpl in *. inversion Ho as [? e E1 E2 E3|? dt p Ha Hcur|dt p Ha]; subst.
  - rewrite E2. split; [split; simpl; rewrite ?E1, ?E2; done|done].
  - pose proof (admitted_revision _ _ _ _ _ _ _ Hs Hx Hr Ha) as (Rc & Rs & _).
    destruct Ha as (Hck & _ & _). pose proof (I4 _ eq_refl Hck) as Hset. rewrite Hset in *.
    rewrite Forall_singleton in Hn. destruct Hcur as [[E1 E2]|[E1 E2]].
    + split; [split; simpl; rewrite ?E1, ?E2|].
      * set_solver. * done. * by intros ? [= <-]. * intros ? [= <-] Hm. by apply mark_uncertain_check in Hm.
      * rewrite E2. by apply Forall_singleton.
    + split; [split; simpl; rewrite ?E1, ?E2|].
      * set_solver. * by constructor; [apply durable_staged|]. * by intros ? [= <-].
      * intros ? [= <-] Hm. by apply mark_uncertain_check in Hm.
      * rewrite E2. repeat constructor; [|done]. lia.
  - pose proof (admitted_revision _ _ _ _ _ _ _ Hs Hx Hr Ha) as (Rc & Rs & _).
    destruct Ha as (Hck & _ & _). pose proof (I4 _ eq_refl Hck) as Hset. rewrite Hset in *.
    rewrite Forall_singleton in Hn. split; [split; simpl|].
    + set_solver. + apply Forall_singleton, durable_staged. + done. + done.
    + apply Forall_singleton. lia.
Qed.

(** Flushing changes no content. *)
Lemma rev_of_flush f e : rev_of (flush_same f <$> e) = rev_of e.
Proof. destruct e as [i|]; [|done]. simpl. unfold flush_same. by destruct (_ && _). Qed.

Lemma durable_flush f e : durable e → durable (flush_same f <$> e).
Proof.
  intros Hd i. destruct e as [j|]; [|done]. simpl. unfold flush_same. intros [= <-].
  destruct (_ && _); [done|by apply Hd].
Qed.

(** What reopening needs of a disk, and keeps. *)
Definition disk_inv (n : Z) (d : disk) : Prop :=
  current d ∈ crash_current d ∧ Forall durable (crash_current d)
  ∧ Forall (λ e, n ≤ rev_of e) (crash_current d).

Lemma flush_file_inv n d f : disk_inv n d → disk_inv n (flush_file d f).
Proof.
  intros (H1 & H2 & H3). split_and!; simpl.
  - by apply list_elem_of_fmap_2.
  - apply Forall_fmap. eapply Forall_impl; [exact H2|]. intros e. apply durable_flush.
  - apply Forall_fmap. eapply Forall_impl; [exact H3|]. intros e. simpl. by rewrite rev_of_flush.
Qed.

Lemma sync_directory_inv n d : disk_inv n d → disk_inv n (sync_directory d).
Proof.
  intros (H1 & H2 & H3). rewrite Forall_forall in H2. rewrite Forall_forall in H3.
  split_and!; simpl; [set_solver|apply Forall_singleton; auto|apply Forall_singleton, H3, H1].
Qed.

Lemma syncCurrent_inv (s : Store T) f d d' r n :
  Store_syncCurrent euid s f d = (d', r) → disk_inv n d →
  disk_inv n d' ∧ (r = Ok tt → crash_current d' = [current d']).
Proof.
  unfold Store_syncCurrent. intros H Hd.
  assert (Hflush : ∀ (b : bool) file, disk_inv n (if b then d else flush_file d file))
    by (intros [] ?; [done|by apply flush_file_inv]).
  destruct (Store_openCurrent euid s (sf_open f) d) as [file|e].
  - destruct (sf_sync f || sf_close f); [simplify_eq; split; [apply Hflush|done]|].
    destruct (sf_dir f); simplify_eq; (split; [|done]); [apply Hflush|apply sync_directory_inv, Hflush].
  - destruct e; simplify_eq; try done.
    destruct (sf_dir f); simplify_eq; (split; [|done]); [done|by apply sync_directory_inv].
Qed.

Lemma open_inv x directory d d' r n :
  OpenWithCodec euid x directory codec d = (d', r) → disk_inv n d →
  disk_inv n d' ∧ ∀ s, r = Ok s → s = mkStore true false false codec ∧ crash_current d' = [current d'].
Proof.
  unfold OpenWithCodec, openDescriptorWithCodec. intros H Hd.
  destruct (negb (Codec_valid codec)); [by simplify_eq|].
  destruct (negb (clean_absolute directory)); [by simplify_eq|].
  destruct (xf_open x); [by simplify_eq|]. destruct (_ || _); [by simplify_eq|].
  destruct (xf_lock x); [|by simplify_eq..].
  destruct (optional_load _); [|by simplify_eq].
  destruct (Store_syncCurrent _ _ _ _) as [d1 [[]|e]] eqn:Hsync; simplify_eq;
    apply (syncCurrent_inv _ _ _ _ _ n) in Hsync as [? Hs]; try done; (split; [done|]).
  intros s [= <-]. split; [done|by apply Hs].
Qed.

Lemma sys_step_inv y y' n :
  sys_step y y' → sys_inv y → at_least n y → sys_inv y' ∧ at_least n y'.
Proof using encoding.
  intros Hstep Hi Hn. destruct Hstep as [d s f expected next d' s' r Hr Hx Hc|d s fails
    |d so x directory d' r Hso Hx1 Hx2 Ho|d so e e' p He Hsv].
  - by eapply commit_inv.
  - destruct Hi as [I1 I2 I3 I4]. split; [|done]. split; simpl in *; try done.
    + intros s0 [= <-]. unfold Store_Close. case_match; simpl; by apply I3.
    + intros s0 [= <-]. unfold Store_Close. case_match; simpl; [by apply I4|].
      rewrite Store_check_Ok. simpl. naive_solver.
  - destruct Hi as [I1 I2 I3 I4]. apply (open_inv _ _ _ _ _ n) in Ho as [(D1 & D2 & D3) Hok]; [|done].
    split; [|done]. split; simpl; try done; intros s Hs; destruct r as [s0|]; simplify_eq;
      destruct (Hok s eq_refl) as [-> ?]; done.
  - destruct Hi as [I1 I2 _ _]. rewrite Forall_forall in I2. unfold at_least in *.
    rewrite Forall_forall in Hn. simpl in *.
    assert (e' = e) as ->.
    { destruct Hsv as [|i Hf|i c Hf]; [done|done|]. rewrite (I2 _ He i eq_refl) in Hf. done. }
    split; [split; simpl; try done|].
    + set_solver. + apply Forall_singleton; auto. + apply Forall_singleton; auto.
Qed.

Lemma sys_reach_inv y y' n :
  rtc sys_step y y' → sys_inv y → at_least n y → sys_inv y' ∧ at_least n y'.
Proof using encoding.
  intros Hr. induction Hr as [|y y1 y2 Hs Hr IH]; [done|]. intros Hi Hn.
  destruct (sys_step_inv _ _ _ Hs Hi Hn). auto.
Qed.

End system.

(** ** Properties *)

(** A quiet system: no call of a load fails. *)
Definition quiet_load (f : load_faults) : Prop :=
  of_stat (lf_open f) = false ∧ exclusive (lf_open f) ∧ of_fstat (lf_open f) = false
  ∧ lf_read f = false ∧ lf_close f = false.

(** A [Commit] that reports success was a compare-and-swap on the revision:
    the store was open and certain, the new document is valid, encodes within
    the size limit, has revision [expected + 1], the current document had
    revision [expected] (zero meaning none) and the transition was allowed; the
    store is unchanged, the directory holds exactly the complete new file,
    which is also all that a crash can leave, and the next [Load] returns the
    document as decoded from that file. *)
Theorem Store_Commit_success {T} (marshal : T → option string) euid s f d expected next d' s' :
  Store_Commit marshal euid s f d expected next = (d', s', Ok tt) →
  s' = s ∧ Store_check s = Ok tt ∧
  ∃ data persisted cur,
    marshal next = Some data ∧ slength data ≤ MaxBytes (st_codec s)
    ∧ Decode (st_codec s) data = Some persisted ∧ Validate (st_codec s) next = true
    ∧ expected ≠ max_uint64 ∧ Revision (st_codec s) next = u64_add expected 1
    ∧ optional_load (Store_load euid s (cf_load f) d) = Ok cur
    ∧ match cur with Some c => Revision (st_codec s) c | None => 0 end = expected
    ∧ (∀ check c, ValidateTransition (st_codec s) = Some check → cur = Some c → expected ≠ 0 →
       check c persisted = true)
    ∧ d' = mkDisk (Some (staged euid f data)) None [Some (staged euid f data)]
    ∧ (∀ lf, quiet_load lf → Store_Load euid s' lf d' = Ok persisted).
Proof.
  intros H. pose proof (Store_Commit_outcome marshal euid s f d expected next) as Ho.
  rewrite H in Ho. inversion Ho as [| |data p (Hc & He & Ha)]; subst.
  pose proof (proj1 (commit_encode_Ok _ _ _ _ _ _) He) as (? & ? & ? & ? & ? & ?).
  apply commit_admit_Ok in Ha as (cur & ? & ? & ?).
  split; [done|]. split; [done|]. exists data, p, cur. split_and!; try done.
  intros lf (Q1 & Q2 & Q3 & Q4 & Q5). unfold Store_Load. rewrite Hc. simpl.
  by eapply Store_load_staged.
Qed.

(** A small document type: a number that is its own revision. *)
Definition number_codec : Codec Z :=
  mkCodec "current.json" ".pending" 64 (ParseUint 64) (λ n, 0 <? n) (λ n, n) None.
Definition number_marshal (n : Z) : option string :=
  if (0 <=? n) && (n <? 2 ^ 64) then Some (FormatUint n) else None.
Definition number_store : Store Z := mkStore true false false number_codec.
Definition no_load_faults : load_faults := mkLoadFaults (mkOpenFaults false None false) false false.
Definition no_commit_faults (len : Z) : commit_faults :=
  mkCommitFaults no_load_faults false false false (1, 77) false len false false RenameOk false.
Definition empty_disk : disk := mkDisk None None [None].
Definition disk_with (data : string) : disk :=
  mkDisk (Some (staged 0 (no_commit_faults 1) data)) None [Some (staged 0 (no_commit_faults 1) data)].

Lemma number_encoding x data p :
  number_marshal x = Some data → Decode number_codec data = Some p →
  Revision number_codec p = Revision number_codec x.
Proof.
  unfold number_marshal. case_match eqn:Hx; [|done]. go_bool. intros [= <-]. simpl.
  rewrite (ParseUint_FormatUint 64) by lia. by intros [= <-].
Qed.

Lemma Store_Commit_success_witness :
  Store_Load 0 number_store no_load_faults (disk_with "1") = Ok 1.
Proof.
  destruct (Store_Commit_success number_marshal 0 number_store (no_commit_faults 1) empty_disk 0 1
    (disk_with "1") number_store) as (_ & _ & data & p & cur & Hm & _ & Hd & _ & _ & _ & _ & _ & _ & _ & Hl).
  - reflexivity.
  - rewrite (Hl no_load_faults) by (by split_and!).
    vm_compute in Hm. injection Hm as <-. vm_compute in Hd. by injection Hd as <-.
Defined.

(** C37: a [Commit] that reports an error never leaves a partial document. Any
    error but the durability one leaves the store, the current file and what a
    crash can leave untouched. The durability error of a usable store makes the
    store refuse every later [Load] and [Commit] until it is reopened, and then
    each entry a crash can leave is either one that it could leave before or
    the complete, flushed new file. *)
Theorem Store_Commit_failure {T} (marshal : T → option string) euid s f d expected next d' s' e :
  Store_Commit marshal euid s f d expected next = (d', s', Err e) →
  (e ≠ ErrUncertain ∨ Store_check s ≠ Ok tt →
    s' = s ∧ current d' = current d ∧ crash_current d' = crash_current d)
  ∧ (e = ErrUncertain →
     (∀ lf d0, Store_Load euid s' lf d0 = Err ErrUncertain)
     ∧ (∀ f0 d0 e0 x0, Store_Commit marshal euid s' f0 d0 e0 x0 = (d0, s', Err ErrUncertain))
     ∧ ∀ c, c ∈ crash_current d' → c ∈ crash_current d ∨
         ∃ data, marshal next = Some data ∧ c = Some (staged euid f data)).
Proof.
  intros H. pose proof (Store_Commit_outcome marshal euid s f d expected next) as Ho. rewrite H in Ho.
  assert (Hsticky : Store_check s' = Err ErrUncertain →
    (∀ lf d0, Store_Load euid s' lf d0 = Err ErrUncertain)
    ∧ (∀ f0 d0 e0 x0, Store_Commit marshal euid s' f0 d0 e0 x0 = (d0, s', Err ErrUncertain))).
  { intros Hc. unfold Store_Load, Store_Commit. rewrite Hc. done. }
  inversion Ho as [? ? E1 E2 E3|? data p (Hc & He & Ha) Hcur|]; subst.
  - split; [done|]. intros Hu. destruct (Hsticky (E3 Hu)). split_and!; try done. rewrite E2. auto.
  - split; [intros [?|?]; done|]. intros _.
    assert (Store_check (mark_uncertain s) = Err ErrUncertain) as Hm.
    { apply Store_check_Ok in Hc as (Hr & Hcl & Hun). unfold Store_check, mark_uncertain. simpl.
      by rewrite Hr, Hcl. }
    destruct (Hsticky Hm). split_and!; try done. intros c Hin.
    apply commit_encode_Ok in He as (_ & _ & _ & Hdata & _ & _).
    destruct Hcur as [[_ E]|[_ E]]; rewrite E in Hin; [by left|].
    apply elem_of_cons in Hin as [->|Hin]; [right; by exists data|by left].
Qed.

Definition lost_sync : commit_faults :=
  mkCommitFaults no_load_faults false false false (1, 78) false 1 false false RenameOk true.

Lemma Store_Commit_failure_witness :
  Store_Load 0 (mark_uncertain number_store) no_load_faults empty_disk = Err ErrUncertain.
Proof.
  destruct (Store_Commit_failure number_marshal 0 number_store lost_sync (disk_with "1") 1 2
    (mkDisk (Some (staged 0 lost_sync "2")) None
       [Some (staged 0 lost_sync "2"); Some (staged 0 (no_commit_faults 1) "1")])
    (mark_uncertain number_store) ErrUncertain) as [_ Hu].
  - reflexivity.
  - exact (proj1 (Hu eq_refl) no_load_faults empty_disk).
Defined.

(** [Commit] makes progress: on an open, certain store, when no system call
    fails, the staged file is absent or the store's own, and the document is
    valid, encodable, decodable and the successor of the current one by an
    allowed transition, it succeeds. *)
Theorem Store_Commit_progress {T} (marshal : T → option string) euid s f d expected next data p cur :
  Store_check s = Ok tt → expected ≠ max_uint64 → Revision (st_codec s) next = u64_add expected 1 →
  Validate (st_codec s) next = true → marshal next = Some data →
  slength data ≤ MaxBytes (st_codec s) → Decode (st_codec s) data = Some p →
  optional_load (Store_load euid s (cf_load f) d) = Ok cur →
  match cur with Some c => Revision (st_codec s) c | None => 0 end = expected →
  (∀ check c, ValidateTransition (st_codec s) = Some check → cur = Some c → check c p = true) →
  (∀ st, pending d = Some st → private_file euid st = true) → no_faults f data →
  ∃ d', Store_Commit marshal euid s f d expected next = (d', s, Ok tt).
Proof.
  intros. eexists. eapply Store_Commit_total; [|done|done]. split_and!; [done| |].
  - by apply commit_encode_Ok.
  - apply commit_admit_Ok. exists cur. naive_solver.
Qed.

Lemma Store_Commit_progress_witness :
  ∃ d', Store_Commit number_marshal 0 number_store (no_commit_faults 1) (disk_with "1") 1 2
        = (d', number_store, Ok tt).
Proof.
  apply (Store_Commit_progress number_marshal 0 number_store (no_commit_faults 1) (disk_with "1") 1 2
    "2" 2 (Some 1)); try reflexivity; try done; by split_and!.
Defined.

(** C1: a committed revision is never lost. In any execution made of commits
    with arbitrary faults, closes, reopenings and crashes that keep any entry
    the directory may hold, once a [Commit] has reported success, every
    document that a later [Load] returns has at least that revision. *)
Theorem commit_durable {T} (marshal : T → option string) euid (codec : Codec T)
  d s f expected next d' s' d'' s'' lf y :
  (∀ x data p, marshal x = Some data → Decode codec data = Some p → Revision codec p = Revision codec x) →
  sys_inv codec (mkSys d (Some s)) → 0 ≤ expected ≤ max_uint64 → exclusive (lf_open (cf_load f)) →
  Store_Commit marshal euid s f d expected next = (d', s', Ok tt) →
  rtc (sys_step marshal euid codec) (mkSys d' (Some s')) (mkSys d'' (Some s'')) →
  exclusive (lf_open lf) → Store_Load euid s'' lf d'' = Ok y →
  Revision codec next ≤ Revision codec y.
Proof.
  intros Henc Hi Hr Hx Hc Hreach Hlx Hl.
  assert (sys_inv codec (mkSys d' (Some s')) ∧ at_least codec (Revision codec next) (mkSys d' (Some s')))
    as [Hi' Hn].
  { pose proof (Store_Commit_outcome marshal euid s f d expected next) as Ho. rewrite Hc in Ho.
    inversion Ho as [| |data p Ha]; subst. pose proof (inv_codec _ _ Hi _ eq_refl) as Hs.
    destruct (admitted_revision marshal euid codec Henc _ _ _ _ _ _ _ Hs Hx Hr Ha) as (_ & Hrev & Hnext).
    split.
    - split; simpl; [set_solver|apply Forall_singleton, durable_staged|by intros ? [= <-]|done].
    - apply Forall_singleton. lia. }
  destruct (sys_reach_inv marshal euid codec Henc _ _ _ Hreach Hi' Hn) as [[I1 _ I3 _] Hn''].
  unfold at_least in Hn''. rewrite Forall_forall in Hn''. specialize (Hn'' _ I1). simpl in *.
  unfold Store_Load in Hl. destruct (Store_check s''); [|done]. simpl in Hl.
  assert (optional_load (Store_load euid s'' lf d'') = Ok (Some y)) as Ho by (by rewrite Hl).
  apply (load_revision euid codec) in Ho; [|by apply I3|done]. lia.
Qed.

(** In the witness the next commit loses the directory sync, the machine crashes
    and keeps the new file, and the store is reopened. *)
Definition clean_start : start_faults :=
  mkStartFaults false false 448 0 LockOk no_load_faults (mkSyncFaults (mkOpenFaults false None false) false false false).

Lemma commit_durable_witness : Revision number_codec 1 ≤ Revision number_codec 2.
Proof.
  apply (commit_durable number_marshal 0 number_codec empty_disk number_store (no_commit_faults 1) 0 1
    (disk_with "1") number_store
    (mkDisk (Some (staged 0 lost_sync "2")) None [Some (staged 0 lost_sync "2")]) number_store no_load_faults).
  - exact number_encoding.
  - split; simpl; [set_solver|by apply Forall_singleton|by intros ? [= <-]|done].
  - vm_compute. split; discriminate.
  - reflexivity.
  - reflexivity.
  - eapply rtc_l; [eapply (run_commit _ _ _ _ _ lost_sync 1 2); [vm_compute; by split|reflexivity|reflexivity]|].
    eapply rtc_l; [apply (run_crash _ _ _ _ _ (Some (staged 0 lost_sync "2")) (Some (staged 0 lost_sync "2")) None)|].
    + apply elem_of_cons. left. reflexivity.
    + by constructor.
    + apply rtc_once. apply (run_open _ _ _ _ _ clean_start "/srv/policy" _ (Ok number_store)).
      * done.
      * reflexivity.
      * reflexivity.
      * reflexivity.
  - reflexivity.
  - reflexivity.
Defined.

End RevisionStore.
