(* ===== verification/PolicyStores.v ===== *)
(** * The policy stores: [sharestore/], [fileservicestore/], [internal/naspolicystore/]

    Each package opens [revisionstore] with the codec of its document.  The class
    [FaithfulCodec] states what the store needs of a codec and the policy packages
    promise: a valid document whose numbers fit their types is encoded within the
    limit and decoded to itself, and what is decoded is valid.  The theorems are
    proved against the class; the three instances discharge it. *)

From S2P Require Import Prelude GoStrings GoJson Shares NfsConfig FileService IscsiPolicy NasPolicy Store.
Import GoJson RevisionStore.

Module PolicyStores.

(** ** The codecs *)
Definition shareCodec : Codec ShareConfig.Config :=
  mkCodec "shares.json" ".shares.pending" ShareConfig.MaxInputBytes
    (λ data, match ShareConfig.Decode (bytes_reader data) with Ok c => Some c | Err _ => None end)
    (λ c, is_ok (ShareConfig.Config_Validate c)) ShareConfig.cfg_Revision None.
Definition fileServiceCodec : Codec FileService.Config :=
  mkCodec "file-services.json" ".file-services.pending" FileService.MaxConfigBytes
    (λ data, FileService.DecodeConfig (bytes_reader data)) FileService.Config_Validate FileService.fc_Revision
    (Some FileService.ValidateRetainedNFSBindings).
Definition policyCodec : Codec NasPolicy.Config :=
  mkCodec "nas-services.json" ".nas-services.pending" NasPolicy.MaxInputBytes
    (λ data, NasPolicy.Decode (bytes_reader data)) NasPolicy.Validate NasPolicy.nc_Revision
    (Some (λ current next, FileService.ValidateRetainedNFSBindings (NasPolicy.nc_FileServices current) (NasPolicy.nc_FileServices next))).

(** [json.Marshal] at the document types *)
Definition marshal_shares (c : ShareConfig.Config) : option string := Some (Marshal (ShareConfig.enc_Config c)).
Definition marshal_files (c : FileService.Config) : option string := Some (Marshal (FileService.enc_Config c)).
Definition marshal_nas (c : NasPolicy.Config) : option string := Some (Marshal (NasPolicy.enc_Config c)).

(** ** The interface *)
Class FaithfulCodec {T} (marshal : T → option string) (codec : Codec T) (typed : T → Prop) := {
  codec_valid : Codec_valid codec = true;
  codec_encode x : Validate codec x = true → typed x →
    ∃ data, marshal x = Some data ∧ (slength data ≤ MaxBytes codec → Decode codec data = Some x);
  codec_decode data x : Decode codec data = Some x → Validate codec x = true ∧ typed x }.

#[export] Instance shares_faithful : FaithfulCodec marshal_shares shareCodec ShareConfig.in_range.
Proof.
  split; [by vm_compute|..]; cbn [Validate Decode MaxBytes shareCodec].
  - intros c Hv Ht. eexists. split; [done|]. intros Hl.
    rewrite ShareConfig.Shares_Decode_Marshal; [done|by apply ShareConfig.Config_Validate_wf, is_ok_unit|done|done].
  - intros data c. destruct (ShareConfig.Decode _) as [x|] eqn:Hd; [|done]. intros [= ->].
    apply ShareConfig.Shares_Decode_sound in Hd as [Hw Hr]. split; [|done]. by apply is_ok_unit, ShareConfig.Config_Validate_wf.
Qed.

#[export] Instance files_faithful : FaithfulCodec marshal_files fileServiceCodec FileService.in_range.
Proof.
  split; [by vm_compute|..]; cbn [Validate Decode MaxBytes fileServiceCodec].
  - intros c Hv Ht. eexists. split; [done|]. intros _. apply FileService.DecodeConfig_Marshal; [by apply FileService.Fs_Validate_wf|done].
  - intros data c [Hw Hr]%FileService.DecodeConfig_sound. split; [by apply FileService.Fs_Validate_wf|done].
Qed.

#[export] Instance nas_faithful : FaithfulCodec marshal_nas policyCodec NasPolicy.in_range.
Proof.
  split; [by vm_compute|..]; cbn [Validate Decode MaxBytes policyCodec].
  - intros c Hv Ht. eexists. split; [done|]. intros _. apply NasPolicy.Nas_Decode_Marshal; [by apply NasPolicy.Validate_wf|done].
  - intros data c [Hw Hr]%NasPolicy.Nas_Decode_sound. split; [by apply NasPolicy.Validate_wf|done].
Qed.

(** ** Stores over a faithful codec *)
Section faithful.
Context {T : Type} (marshal : T → option string) (codec : Codec T) (typed : T → Prop) `{FC : !FaithfulCodec marshal codec typed}.
Context (euid : Z).

(** What a successful commit leaves. *)
Lemma commit_leaves s f d expected next d' s' : st_codec s = codec → typed next →
  Store_Commit marshal euid s f d expected next = (d', s', Ok tt) →
  s' = s ∧ Store_check s = Ok tt ∧ Validate codec next = true ∧ ∃ data, Decode codec data = Some next
  ∧ slength data ≤ MaxBytes codec ∧ d' = mkDisk (Some (staged euid f data)) None [Some (staged euid f data)].
Proof using FC.
  intros Hs Ht Hc. pose proof (Store_Commit_outcome marshal euid s f d expected next) as Ho. rewrite Hc in Ho.
  inversion Ho as [|?|data p Ha]; subst. destruct Ha as (Hk & He & _).
  apply commit_encode_Ok in He as (_ & _ & Hv & Hm & Hl & Hd).
  destruct (codec_encode next Hv Ht) as (data' & Hm' & Hd'). simplify_eq. rewrite Hd' in Hd by done. simplify_eq.
  split_and!; try done. exists data. split_and!; auto.
Qed.

Lemma quiet_load_staged s f data x lf d : st_codec s = codec → Store_check s = Ok tt →
  current d = Some (staged euid f data) → Decode codec data = Some x → slength data ≤ MaxBytes codec → quiet_load lf →
  Store_Load euid s lf d = Ok x.
Proof.
  intros Hs Hk Hc Hd Hl (F1 & F2 & F3 & F4 & F5). unfold Store_Load. rewrite Hk. cbn [mbind res_bind].
  eapply Store_load_staged; try done; by rewrite Hs.
Qed.

Lemma load_typed s lf d x : st_codec s = codec → Store_load euid s lf d = Ok x → Validate codec x = true ∧ typed x.
Proof using FC.
  intros Hs Hl. unfold Store_load in Hl. apply res_bind_Ok in Hl as (st & _ & Hl). rewrite Hs in Hl.
  destruct (lf_read lf); [done|]. destruct (Decode codec (i_content st)) as [y|] eqn:Hd; [|done].
  apply refuse_Ok in Hl as [_ [= ->]]. by eapply codec_decode.
Qed.

(** Opening changes nothing of a file that is already flushed. *)
Lemma open_flushed x directory i p d s : i_flushed i = true →
  OpenWithCodec euid x directory codec (mkDisk (Some i) p [Some i]) = (d, Ok s) →
  s = mkStore true false false codec ∧ current d = Some i.
Proof.
  intros Hi Ho. assert (Hsame : ∀ file, flush_same file i = i).
  { intros file. unfold flush_same, flush. case_match; [|done]. destruct i. cbn in Hi. by subst. }
  unfold OpenWithCodec, openDescriptorWithCodec in Ho. repeat (case_match; simplify_eq).
  split; [done|]. unfold Store_syncCurrent in *.
  repeat (case_match; simplify_eq; cbn [current flush_file sync_directory fmap option_fmap option_map]); by rewrite ?Hsame.
Qed.
End faithful.

(** ** Properties *)

(** Over a faithful codec a successful commit is read back exactly.  The
    document, and not merely one of its revision, is returned by every later
    load that meets no fault, by the same store, or by a store reopened after a
    crash that leaves any entry the directory may then hold. *)
Theorem policy_commit_read_back {T} (marshal : T → option string) (codec : Codec T) (typed : T → Prop)
  `{!FaithfulCodec marshal codec typed} euid s f d expected next d' s' :
  st_codec s = codec → typed next → Store_Commit marshal euid s f d expected next = (d', s', Ok tt) →
  (∀ lf, quiet_load lf → Store_Load euid s' lf d' = Ok next)
  ∧ ∀ e e' p x directory d'' s'' lf, e ∈ crash_current d' → survives e e' →
      OpenWithCodec euid x directory codec (mkDisk e' p [e']) = (d'', Ok s'') → quiet_load lf →
      Store_Load euid s'' lf d'' = Ok next.
Proof.
  intros Hs Ht Hc. destruct (commit_leaves marshal codec typed euid s f d expected next d' s' Hs Ht Hc)
    as (-> & Hk & _ & data & Hd & Hl & ->). split.
  - intros lf Hq. by eapply (quiet_load_staged codec).
  - intros e e' p x directory d'' s'' lf He Hsv Ho Hq. cbn [crash_current] in He. apply list_elem_of_singleton in He as ->.
    assert (e' = Some (staged euid f data)) as -> by (inversion Hsv; simplify_eq; done).
    apply open_flushed in Ho as [-> Hcur]; [|done]. by eapply (quiet_load_staged codec).
Qed.

Definition first_nas : NasPolicy.Config := NasPolicy.setRevision NasPolicy.sample_nas 1.
Definition nas_faults (c : NasPolicy.Config) : commit_faults := no_commit_faults (slength (Marshal (NasPolicy.enc_Config c))).
Definition nas_disk (c : NasPolicy.Config) : disk :=
  let i := staged 0 (nas_faults c) (Marshal (NasPolicy.enc_Config c)) in mkDisk (Some i) None [Some i].
Definition nas_store : Store NasPolicy.Config := mkStore true false false policyCodec.
Lemma first_nas_range : NasPolicy.in_range first_nas.
Proof. apply NasPolicy.setRevision_range; [apply NasPolicy.sample_nas_range|lia]. Qed.

Lemma first_commit :
  Store_Commit marshal_nas 0 nas_store (nas_faults first_nas) empty_disk 0 first_nas = (nas_disk first_nas, nas_store, Ok tt).
Proof.
  apply (Store_Commit_total marshal_nas 0 nas_store (nas_faults first_nas) empty_disk 0 first_nas
    (Marshal (NasPolicy.enc_Config first_nas)) first_nas); [|by split_and!|done].
  split_and!; [done| |].
  - apply commit_encode_Ok. cbn [st_codec nas_store Revision Validate MaxBytes Decode policyCodec].
    split_and!; [done|done|by vm_compute|done|by vm_compute|by vm_compute].
  - apply commit_admit_Ok. exists None. by split_and!.
Qed.

Lemma policy_commit_read_back_witness : Store_Load 0 nas_store no_load_faults (nas_disk first_nas) = Ok first_nas.
Proof.
  refine (proj1 (policy_commit_read_back marshal_nas policyCodec NasPolicy.in_range 0 nas_store (nas_faults first_nas) empty_disk 0
    first_nas (nas_disk first_nas) nas_store eq_refl first_nas_range _) no_load_faults _).
  - exact first_commit.
  - by split_and!.
Defined.

(** C9: an accepted edit is a publishable edit.  When the store holds the base,
    and [ReplaceFileServices] accepts a next configuration whose numbers fit
    their types, then a commit of the result at the base's revision succeeds if
    no system call fails, and later loads return exactly the edited document. *)
Theorem edit_commits euid s f d base next c :
  st_codec s = policyCodec → Store_check s = Ok tt → quiet_load (cf_load f) →
  Store_Load euid s (cf_load f) d = Ok base →
  FileService.in_range next → NasPolicy.ReplaceFileServices base next = Some c →
  no_faults f (Marshal (NasPolicy.enc_Config c)) → (∀ st, pending d = Some st → private_file euid st = true) →
  ∃ d', Store_Commit marshal_nas euid s f d (NasPolicy.nc_Revision base) c = (d', s, Ok tt)
    ∧ ∀ lf, quiet_load lf → Store_Load euid s lf d' = Ok c.
Proof.
  intros Hs Hk Hq Hload Hn He Hf Hp. unfold Store_Load in Hload. rewrite Hk in Hload. cbn [mbind res_bind] in Hload.
  destruct (load_typed marshal_nas policyCodec NasPolicy.in_range euid s _ d base Hs Hload) as [Hbv Hbr].
  destruct (proj1 (NasPolicy.Replace_files base next c Hbr) He) as (_ & Hmax & Hrev & Hcv & Hret & _ & Hc).
  assert (Hcr : NasPolicy.in_range c).
  { destruct Hbr as (Hr & _ & _ & _ & Hluns). rewrite Hc. unfold max_uint64 in Hmax.
    split; [cbn; lia|]. split; [done|]. split; [cbn; lia|]. split; [cbn; lia|]. exact Hluns. }
  pose proof (proj1 (NasPolicy.Validate_wf c) Hcv) as Hcw. pose proof (proj1 (NasPolicy.Validate_wf base) Hbv) as Hbw.
  pose proof (NasPolicy.Nas_Decode_Marshal c Hcw Hcr) as Hdec. pose proof (NasPolicy.Nas_size c Hcw Hcr) as Hsize.
  assert (Hret' : FileService.ValidateRetainedNFSBindings (NasPolicy.nc_FileServices base) (NasPolicy.nc_FileServices c) = true).
  { apply FileService.retained_bindings. rewrite !FileService.Fs_Validate_wf. split_and!; [apply Hbw|apply Hcw|]. by rewrite Hc. }
  exists (mkDisk (Some (staged euid f (Marshal (NasPolicy.enc_Config c)))) None [Some (staged euid f (Marshal (NasPolicy.enc_Config c)))]).
  split.
  - eapply Store_Commit_total; [|done|done]. split_and!; [done| |].
    + apply commit_encode_Ok. rewrite Hs. cbn [Revision Validate MaxBytes Decode policyCodec]. split_and!; try done; [lia|].
      destruct Hbr as [Hr _]. destruct (FileService.next_revision_u64 _ Hr ltac:(lia)) as [-> _]. by rewrite Hc.
    + apply commit_admit_Ok. exists (Some base). rewrite Hload, Hs. split; [done|]. split; [done|].
      intros check c0 [= <-] [= <-] _. exact Hret'.
  - intros lf Hlf. by eapply (quiet_load_staged policyCodec).
Qed.
Lemma edit_commits_witness :
  ∃ c d', NasPolicy.ReplaceFileServices first_nas (FileService.rebase 2 FileService.sample_config) = Some c
  ∧ Store_Commit marshal_nas 0 nas_store (nas_faults c) (nas_disk first_nas) 1 c = (d', nas_store, Ok tt).
Proof.
  set (c := NasPolicy.setRevision NasPolicy.sample_nas 2).
  assert (He : NasPolicy.ReplaceFileServices first_nas (FileService.rebase 2 FileService.sample_config) = Some c) by (vm_compute; reflexivity).
  assert (Hl : Store_Load 0 nas_store (cf_load (nas_faults c)) (nas_disk first_nas) = Ok first_nas) by (vm_compute; reflexivity).
  assert (Hq : quiet_load (cf_load (nas_faults c))) by (by split_and!).
  assert (Hf : no_faults (nas_faults c) (Marshal (NasPolicy.enc_Config c))) by (by split_and!).
  assert (Hp : ∀ st, pending (nas_disk first_nas) = Some st → private_file 0 st = true) by (intros st [=]).
  destruct (edit_commits 0 nas_store (nas_faults c) (nas_disk first_nas) first_nas (FileService.rebase 2 FileService.sample_config) c
    eq_refl eq_refl Hq Hl FileService.sample_in_range He Hf Hp) as (d' & Hd' & _).
  exists c, d'. split; [exact He|exact Hd'].
Defined.
End PolicyStores.
