(* ===== verification/Register.v ===== *)
(** * The contract of a durable document register

    The provisioning journals are clients of the single-document store.  Their
    theorems are proved against this interface: a [Register] is the operations a
    client calls, a [RegisterSpec] what it relies on.  [revision_register] shows
    that the store of [Store.v] implements the contract through crashes and
    arbitrary faults; [memory_register] is the reference implementation. *)

From S2P Require Import Prelude GoStrings Store.
Import RevisionStore.

Record Register (T : Type) := mkRegister {
  rg_state : Type;
  rg_load_faults : Type;
  rg_commit_faults : Type;
  rg_load : rg_state → rg_load_faults → res store_error T;
  rg_commit : rg_state → rg_commit_faults → Z → T → rg_state * res store_error unit;
  (** closing, crashing and reopening *)
  rg_restart : rg_state → rg_state → Prop }.
Arguments rg_state {T}. Arguments rg_load_faults {T}. Arguments rg_commit_faults {T}.
Arguments rg_load {T}. Arguments rg_commit {T}. Arguments rg_restart {T}.
Arguments mkRegister {T}.

(** [rg_floor n st]: no document of revision below [n] can be read any more.
    [rev] is the revision of a document, [valid] what its decoder enforces. *)
Class RegisterSpec {T} (R : Register T) (rev : T → Z) (valid : T → bool) := {
  rg_inv : rg_state R → Prop;
  rg_floor : Z → rg_state R → Prop;
  rg_load_valid : ∀ st f x, rg_inv st → rg_load R st f = Ok x → valid x = true;
  rg_load_det : ∀ st f1 f2 x y, rg_inv st → rg_load R st f1 = Ok x → rg_load R st f2 = Ok y → x = y;
  rg_load_floor : ∀ st f x n, rg_inv st → rg_floor n st → rg_load R st f = Ok x → n ≤ rev x;
  rg_commit_keeps : ∀ st f e x st' r n, rg_inv st → 0 ≤ e ≤ max_uint64 →
    rg_commit R st f e x = (st', r) → rg_inv st' ∧ (rg_floor n st → rg_floor n st');
  rg_commit_Ok : ∀ st f e x st', rg_inv st → 0 ≤ e ≤ max_uint64 →
    rg_commit R st f e x = (st', Ok tt) →
    rev x = e + 1 ∧ valid x = true ∧ rg_floor (rev x) st'
    ∧ (∀ lf y, rg_load R st' lf = Ok y → y = x)
    ∧ (∀ n, rg_floor n st → n ≤ e);
  rg_restart_keeps : ∀ st st' n, rg_inv st → rg_restart R st st' →
    rg_inv st' ∧ (rg_floor n st → rg_floor n st') }.

(** What every operation of a client does to its register: it keeps the
    invariant and every floor. *)
Section keeps.
Context {T : Type} (R : Register T) {rev : T → Z} {valid : T → bool} `{Hspec : !RegisterSpec R rev valid}.

Definition keeps (st st' : rg_state R) : Prop := rg_inv st' ∧ ∀ n, rg_floor n st → rg_floor n st'.

Lemma keeps_refl st : rg_inv st → keeps st st.
Proof. by split. Qed.
Lemma keeps_trans st1 st2 st3 : keeps st1 st2 → keeps st2 st3 → keeps st1 st3.
Proof. intros [H1 H2] [H3 H4]. split; auto. Qed.

Lemma commit_keeps st f e x st' r :
  rg_inv st → 0 ≤ e ≤ max_uint64 → rg_commit R st f e x = (st', r) → keeps st st'.
Proof.
  intros Hi He Hc. pose proof (λ n, rg_commit_keeps st f e x st' r n Hi He Hc) as Hk.
  split; [apply (Hk 0)|apply Hk].
Qed.

Lemma restart_keeps st st' : rg_inv st → rg_restart R st st' → keeps st st'.
Proof.
  intros Hi Hr. pose proof (λ n, rg_restart_keeps st st' n Hi Hr) as Hk. split; [apply (Hk 0)|apply Hk].
Qed.
End keeps.

(** ** The reference implementation: one cell, no faults *)
Section memory.
Context {T : Type} (rev : T → Z) (valid : T → bool).
Context (rev_pos : ∀ x, valid x = true → 1 ≤ rev x).

Definition memory_rev (c : option T) : Z := match c with Some x => rev x | None => 0 end.
Definition memory_load (c : option T) (_ : unit) : res store_error T :=
  match c with Some x => Ok x | None => Err ErrNotInitialized end.
Definition memory_commit (c : option T) (_ : unit) (e : Z) (x : T) : option T * res store_error unit :=
  if negb (rev x =? e + 1) || negb (memory_rev c =? e) then (c, Err ErrConflict)
  else if negb (valid x) then (c, Err ErrInvalid)
  else (Some x, Ok tt).
Definition memory_register : Register T :=
  mkRegister (option T) unit unit memory_load memory_commit eq.

#[export] Instance memory_spec : RegisterSpec memory_register rev valid.
Proof using rev_pos.
  refine {| rg_inv := λ c : rg_state memory_register, ∀ x, c = Some x → valid x = true;
            rg_floor := λ n (c : rg_state memory_register), n ≤ memory_rev c |}; simpl.
  - intros [c|] [] x Hi; simpl; [|done]. intros [= <-]. by apply Hi.
  - intros [c|] [] [] x y _; simpl; congruence.
  - intros [c|] [] x n _ Hn; simpl; [|done]. by intros [= <-].
  - intros c [] e x c' r n Hi He. unfold memory_commit.
    destruct (_ || _) eqn:Hc; [by intros [= <- <-]|]. go_bool in Hc.
    destruct (valid x) eqn:Hv; simpl; [|by intros [= <- <-]]. intros [= <- <-].
    split; [by intros ? [= <-]|]. simpl. lia.
  - intros c [] e x c' Hi He. unfold memory_commit.
    destruct (_ || _) eqn:Hc; [done|]. go_bool in Hc.
    destruct (valid x) eqn:Hv; simpl; [|done]. intros [= <-]. simpl.
    split_and!; [lia|done|lia|by intros [] y [= <-]|intros n Hn; lia].
  - intros c c' n Hi <-. done.
Defined.
End memory.

(** ** The revision store *)
Section store.
Context {T : Type} (marshal : T → option string) (euid : Z) (codec : Codec T).
(** Encoding then decoding gives the document back, and the decoder enforces
    the schema. *)
Context (encoding : ∀ x data p, marshal x = Some data → Decode codec data = Some p → p = x).
Context (strict : ∀ data x, Decode codec data = Some x → Validate codec x = true).

Definition exclusive_load : Type := { f : load_faults | exclusive (lf_open f) }.
Definition exclusive_commit : Type := { f : commit_faults | exclusive (lf_open (cf_load f)) }.

Definition store_load (y : sys (T := T)) (f : exclusive_load) : res store_error T :=
  match sys_store y with
  | None => Err ErrClosed
  | Some s => Store_Load euid s (`f) (sys_disk y)
  end.
Definition store_commit (y : sys (T := T)) (f : exclusive_commit) (e : Z) (x : T) :
  sys (T := T) * res store_error unit :=
  match sys_store y with
  | None => (y, Err ErrClosed)
  | Some s => let '(d', s', r) := Store_Commit marshal euid s (`f) (sys_disk y) e x in
              (mkSys d' (Some s'), r)
  end.
Inductive store_restart : sys (T := T) → sys (T := T) → Prop :=
| restart_close d s fails : store_restart (mkSys d (Some s)) (mkSys d (Some (Store_Close s fails).1))
| restart_open d so x directory d' r :
    (∀ s, so = Some s → st_closed s = true) →
    exclusive (lf_open (xf_load x)) → exclusive (sf_open (xf_sync x)) →
    OpenWithCodec euid x directory codec d = (d', r) →
    store_restart (mkSys d so) (mkSys d' (match r with Ok s => Some s | Err _ => None end))
| restart_crash d so e e' p :
    e ∈ crash_current d → survives e e' →
    store_restart (mkSys d so) (mkSys (mkDisk e' p [e']) None).

Definition revision_register : Register T :=
  mkRegister (sys (T := T)) exclusive_load exclusive_commit store_load store_commit store_restart.

Lemma encoding_rev x data p :
  marshal x = Some data → Decode codec data = Some p → Revision codec p = Revision codec x.
Proof using encoding. intros H1 H2. by rewrite (encoding x data p). Qed.

Lemma store_restart_step y y' : store_restart y y' → sys_step marshal euid codec y y'.
Proof. intros [d s fails|d so x dir d' r ? ? ? ?|d so e e' p ? ?]; by econstructor. Qed.

Lemma Store_load_decodes (s : Store T) f d x :
  exclusive (lf_open f) → Store_load euid s f d = Ok x →
  ∃ i, current d = Some i ∧ Decode (st_codec s) (i_content i) = Some x.
Proof.
  unfold Store_load, Store_openCurrent, exclusive. intros ->.
  destruct (of_stat _); [done|]. destruct (current d) as [i|]; [|done].
  destruct (negb _); [done|]. simpl. destruct (_ || _); [done|]. simpl. exists i. split; [done|].
  destruct (lf_read f); [done|]. destruct (Decode _ _); [|done]. destruct (lf_close f); congruence.
Qed.

Lemma store_load_decodes y f x :
  sys_inv codec y → store_load y f = Ok x →
  ∃ i, current (sys_disk y) = Some i ∧ Decode codec (i_content i) = Some x.
Proof.
  intros [_ _ Hc _]. unfold store_load. destruct (sys_store y) as [s|] eqn:Hs; [|done].
  unfold Store_Load. destruct (Store_check s); [|done]. simpl.
  intros H%Store_load_decodes; [|by destruct f]. by rewrite (Hc s eq_refl) in H.
Qed.

Lemma at_least_exists y : ∃ m, at_least codec m y.
Proof.
  unfold at_least. induction (crash_current (sys_disk y)) as [|c l [m IH]]; [by exists 0; constructor|].
  exists (Z.min m (rev_of codec c)). constructor; [lia|]. eapply Forall_impl; [exact IH|]. simpl. lia.
Qed.

#[export] Instance revision_spec : RegisterSpec revision_register (Revision codec) (Validate codec).
Proof using encoding strict.
  refine {| rg_inv := sys_inv codec : rg_state revision_register → Prop;
            rg_floor := λ n (y : rg_state revision_register), at_least codec n y |}; simpl.
  - intros y f x Hi (i & _ & Hd)%store_load_decodes; [|done]. by eapply strict.
  - intros y f1 f2 x1 x2 Hi (i1 & Hc1 & Hd1)%store_load_decodes (i2 & Hc2 & Hd2)%store_load_decodes; [|done..].
    congruence.
  - intros y f x n Hi Hn (i & Hc & Hd)%store_load_decodes; [|done].
    unfold at_least in Hn. rewrite Forall_forall in Hn. specialize (Hn _ (inv_current _ _ Hi)).
    rewrite Hc in Hn. simpl in Hn. by rewrite Hd in Hn.
  - intros [d [s|]] [f Hf] e x y' r n Hi He; unfold store_commit; simpl; [|by intros [= <- <-]].
    destruct (Store_Commit marshal euid s f d e x) as [[d' s'] r'] eqn:Hc. intros [= <- <-].
    assert (Hstep : ∀ m, at_least codec m (mkSys d (Some s)) → sys_inv codec (mkSys d' (Some s'))
      ∧ at_least codec m (mkSys d' (Some s'))).
    { intros m Hm. by eapply (commit_inv marshal euid codec encoding_rev). }
    split; [|intros Hn; by apply Hstep].
    assert (∃ m, at_least codec m (mkSys d (Some s))) as [m Hm]; [|by apply (Hstep m)].
    apply at_least_exists.
  - intros [d [s|]] [f Hf] e x y' Hi He; unfold store_commit; simpl; [|done].
    destruct (Store_Commit marshal euid s f d e x) as [[d' s'] r'] eqn:Hc. intros [= <- ->].
    pose proof (Store_Commit_outcome marshal euid s f d e x) as Ho. rewrite Hc in Ho.
    inversion Ho as [| |data p Ha]; subst. pose proof (inv_codec _ _ Hi _ eq_refl) as Hs.
    destruct (admitted_revision marshal euid codec encoding_rev _ _ _ _ _ _ _ Hs Hf He Ha)
      as (Hcur & Hrev & Hnext).
    destruct Ha as (Hck & Henc & _). apply commit_encode_Ok in Henc as (_ & _ & Hv & Hm & _ & Hd).
    rewrite Hs in *. split_and!; try done.
    + apply Forall_singleton. lia.
    + intros [lf Hlf] y. unfold store_load, Store_Load. simpl. rewrite Hck. simpl.
      intros (i & [= <-] & Hy)%Store_load_decodes; [|done]. rewrite Hs in Hy. simpl in Hy.
      rewrite Hd in Hy. simplify_eq. by eapply encoding.
    + intros n Hn. unfold at_least in Hn. rewrite Forall_forall in Hn.
      specialize (Hn _ (inv_current _ _ Hi)). simpl in Hn. lia.
  - intros y y' n Hi Hr%store_restart_step.
    assert (Hstep : ∀ m, at_least codec m y → sys_inv codec y' ∧ at_least codec m y').
    { intros m Hm. by eapply (sys_step_inv marshal euid codec encoding_rev). }
    split; [|intros Hn; by apply Hstep].
    assert (∃ m, at_least codec m y) as [m Hm]; [|by apply (Hstep m)].
    apply at_least_exists.
Defined.
End store.
