(* ===== verification/NativeJournal.v ===== *)
(** * Creation of one native Unix identity: [identityprovision/]

    [journal.go] is the document and its validity, [store_linux.go] the
    coordinator: [Native_Begin] reserves, [Native_Step] runs at most one creation
    command between two commits.  The backend (observations and commands), the
    context and every store fault are arguments; the operations return, besides
    their result, the list of externally visible events in order. *)

From S2P Require Import Prelude GoStrings Shares Accounts Unix Store Register.

Module IdentityProvision.
Import ServiceAccounts UnixIdentity.

(** ** Journal *)
Record Journal := mkJournal {
  jn_Format : string; jn_SchemaVersion : Z; jn_Revision : Z; jn_RegistryRevision : Z;
  jn_Account : Account; jn_Phase : string }.
#[export] Instance Journal_eq_dec : EqDecision Journal. Proof. solve_decision. Defined.

Definition JournalFormat : string := "phantowd-identity-provision".
Definition Reserved : string := "reserved".
Definition GroupIntent : string := "group-intent".
Definition GroupConfirmed : string := "group-confirmed".
Definition UserIntent : string := "user-intent".
Definition UnixConfirmed : string := "unix-confirmed".
Definition ReviewRequired : string := "review-required".

Definition phase_ok (phase : string) (revision : Z) : bool :=
  ((phase == Reserved) && (revision =? 1)) || ((phase == GroupIntent) && (revision =? 2))
  || ((phase == GroupConfirmed) && (revision =? 3)) || ((phase == UserIntent) && (revision =? 4))
  || ((phase == UnixConfirmed) && (revision =? 5))
  || ((phase == ReviewRequired) && (2 <=? revision) && (revision <=? 6)).

Definition Journal_Validate (j : Journal) : bool :=
  let '(r0, err) := Registry_New (acc_UID (jn_Account j)) (acc_UID (jn_Account j)) in
  let r := mkRegistry (reg_Format r0) (reg_SchemaVersion r0) (reg_Revision r0)
             (reg_FirstID r0) (reg_LastID r0) (Some [jn_Account j]) in
  if negb (is_ok err) || negb (is_ok (Registry_Validate r)) || (acc_State (jn_Account j) != Disabled)
     || (jn_Format j != JournalFormat) || negb (jn_SchemaVersion j =? 1) || (jn_RegistryRevision j =? 0)
  then false
  else phase_ok (jn_Phase j) (jn_Revision j).

Definition Journal_matches (j : Journal) (r : Registry) : bool :=
  if negb (is_ok (Registry_Validate r)) || negb (reg_Revision r =? jn_RegistryRevision j) then false
  else existsb (λ a, a == jn_Account j) (elems (reg_Accounts r)).

(** ** Coordinator *)
Inductive prov_error :=
| ErrInvalid | ErrConflict | ErrObservation | ErrContext
| ErrReview (joined : res RevisionStore.store_error unit)   (* errors.Join(ErrReview, err) *)
| ErrReviewOnly
| ErrStorage (e : RevisionStore.store_error).

(** What the outside world sees. *)
Inductive event :=
| Wrote (j : Journal) (result : res RevisionStore.store_error unit)
| CreateGroup (a : Account)
| CreateUser (a : Account).

Section operations.
Context (R : Register Journal).

(** The engine is absent once the store is closed. *)
Record NativeStore := mkProvStore { ps_open : bool; ps_engine : rg_state R }.

Record step_env := mkStepEnv {
  se_ctx_nil : bool; se_backend_nil : bool;
  se_load : rg_load_faults R;
  se_ctx_err_1 : bool; se_ctx_err_2 : bool; se_ctx_err_3 : bool;
  se_observe_1 : option Snapshot; se_command_fails : bool; se_observe_2 : option Snapshot;
  se_commit_1 : rg_commit_faults R; se_commit_2 : rg_commit_faults R; se_review : rg_commit_faults R }.

Definition storage (r : res RevisionStore.store_error unit) : res prov_error unit :=
  match r with Ok _ => Ok tt | Err e => Err (ErrStorage e) end.

(** One commit, with its event. *)
Definition write (st : rg_state R) (f : rg_commit_faults R) (expected : Z) (j : Journal) :
  rg_state R * res RevisionStore.store_error unit * list event :=
  let '(st', r) := rg_commit R st f expected j in (st', r, [Wrote j r]).

Definition with_phase (j : Journal) (phase : string) : Journal :=
  mkJournal (jn_Format j) (jn_SchemaVersion j) (u64_add (jn_Revision j) 1) (jn_RegistryRevision j)
    (jn_Account j) phase.

Definition Native_review (st : rg_state R) (f : rg_commit_faults R) (j : Journal) :
  rg_state R * res prov_error unit * list event :=
  let '(st', r, ev) := write st f (jn_Revision j) (with_phase j ReviewRequired) in
  (st', Err (ErrReview r), ev).

Definition begin_journal (r : Registry) (a : Account) : Journal :=
  mkJournal JournalFormat 1 1 (reg_Revision r) a Reserved.

Definition Native_Begin (s : NativeStore) (f : rg_commit_faults R) (r : Registry) (id : string)
  (observed : Snapshot) : NativeStore * res prov_error unit * list event :=
  if negb (ps_open s) then (s, Err (ErrStorage RevisionStore.ErrClosed), [])
  else if negb (is_ok (Registry_Validate r)) then (s, Err ErrInvalid, [])
  else match List.find (λ a, acc_ID a == id) (elems (reg_Accounts r)) with
  | None => (s, Err ErrInvalid, [])
  | Some a =>
    let j := begin_journal r a in
    if negb (Journal_Validate j) then (s, Err ErrInvalid, [])
    else match Snapshot_Assess observed a with
    | Err _ => (s, Err ErrObservation, [])
    | Ok status =>
      if status != Absent then (s, Err ErrReviewOnly, [])
      else let '(st', res, ev) := write (ps_engine s) f 0 j in
           (mkProvStore true st', storage res, ev)
    end
  end.

(** Group row present and user row absent. *)
Definition group_only (d : Assessment) : bool :=
  (as_Status d == Partial) && as_GroupPresent d && negb (as_UserPresent d).

(** The part of [Step] after the intent is durable: command, observation,
    confirmation. *)
Definition step_command (st : rg_state R) (e : step_env) (intent : Journal) :
  rg_state R * res prov_error unit * list event :=
  let command := if jn_Phase intent == GroupIntent then CreateGroup (jn_Account intent)
                 else CreateUser (jn_Account intent) in
  let '(st', r, ev) :=
    if se_command_fails e then Native_review st (se_review e) intent
    else match se_observe_2 e with
    | None => Native_review st (se_review e) intent
    | Some observed =>
      match Snapshot_Inspect observed (jn_Account intent) with
      | Err _ => Native_review st (se_review e) intent
      | Ok detail =>
        if se_ctx_err_3 e then Native_review st (se_review e) intent
        else if ((jn_Phase intent == GroupIntent) && negb (group_only detail))
             || ((jn_Phase intent == UserIntent) && (as_Status detail != Observed))
        then Native_review st (se_review e) intent
        else
          let confirmed := with_phase intent
            (if jn_Phase intent == UserIntent then UnixConfirmed else GroupConfirmed) in
          let '(st', r, ev) := write st (se_commit_2 e) (jn_Revision intent) confirmed in
          (st', storage r, ev)
      end
    end
  in (st', r, command :: ev).

Definition step_engine (st : rg_state R) (e : step_env) (expected : Z) (r : Registry) :
  rg_state R * res prov_error unit * list event :=
  match rg_load R st (se_load e) with
  | Err err => (st, Err (ErrStorage err), [])
  | Ok j =>
    if negb (expected =? jn_Revision j) || negb (Journal_matches j r) then (st, Err ErrConflict, [])
    else if jn_Phase j == ReviewRequired then (st, Err ErrReviewOnly, [])
    else if (jn_Phase j == GroupIntent) || (jn_Phase j == UserIntent) then Native_review st (se_review e) j
    else if se_ctx_err_1 e then (st, Err ErrContext, [])
    else match se_observe_1 e with
    | None => (st, Err ErrObservation, [])
    | Some observed =>
      match Snapshot_Inspect observed (jn_Account j) with
      | Err _ => (st, Err ErrObservation, [])
      | Ok detail =>
        if jn_Phase j == UnixConfirmed then
          if as_Status detail != Observed then Native_review st (se_review e) j else (st, Ok tt, [])
        else if ((jn_Phase j == Reserved) && (as_Status detail != Absent))
             || ((jn_Phase j == GroupConfirmed) && negb (group_only detail))
        then Native_review st (se_review e) j
        else
          let intent := with_phase j (if jn_Phase j == GroupConfirmed then UserIntent else GroupIntent) in
          let '(st1, r1, ev1) := write st (se_commit_1 e) (jn_Revision j) intent in
          match r1 with
          | Err err => (st1, Err (ErrStorage err), ev1)
          | Ok _ =>
            let '(st2, r2, ev2) :=
              if se_ctx_err_2 e then Native_review st1 (se_review e) intent
              else step_command st1 e intent in
            (st2, r2, ev1 ++ ev2)
          end
      end
    end
  end.

Definition Native_Step (s : NativeStore) (e : step_env) (expected : Z) (r : Registry) :
  NativeStore * res prov_error unit * list event :=
  if negb (ps_open s) then (s, Err (ErrStorage RevisionStore.ErrClosed), [])
  else if se_ctx_nil e || se_backend_nil e then (s, Err ErrInvalid, [])
  else let '(st', res, ev) := step_engine (ps_engine s) e expected r in
       (mkProvStore true st', res, ev).

Definition Native_Load (s : NativeStore) (f : rg_load_faults R) : res prov_error Journal :=
  if negb (ps_open s) then Err (ErrStorage RevisionStore.ErrClosed)
  else match rg_load R (ps_engine s) f with Ok j => Ok j | Err e => Err (ErrStorage e) end.

(** [close] stands for the engine's own [Close]. *)
Definition Native_Close (close : rg_state R → rg_state R * res RevisionStore.store_error unit)
  (s : NativeStore) : NativeStore * res RevisionStore.store_error unit :=
  if negb (ps_open s) then (s, Ok tt)
  else let '(st', r) := close (ps_engine s) in (mkProvStore false st', r).

End operations.

(** ** Lemmas *)
Lemma Journal_Validate_phase j : Journal_Validate j = true → phase_ok (jn_Phase j) (jn_Revision j) = true.
Proof. unfold Journal_Validate. destruct (Registry_New _ _) as [r0 err]. by destruct (_ || _). Qed.

(** The journal's validity depends on phase and revision only through [phase_ok]. *)
Lemma Journal_Validate_with_phase j ph :
  Journal_Validate j = true → Journal_Validate (with_phase j ph) = phase_ok ph (u64_add (jn_Revision j) 1).
Proof.
  unfold Journal_Validate, with_phase.
  cbn [jn_Account jn_Format jn_SchemaVersion jn_Revision jn_RegistryRevision jn_Phase].
  destruct (Registry_New _ _) as [r0 err]. by destruct (_ || _).
Qed.

Lemma phase_ok_cases ph r :
  phase_ok ph r = true →
  (ph = Reserved ∧ r = 1) ∨ (ph = GroupIntent ∧ r = 2) ∨ (ph = GroupConfirmed ∧ r = 3)
  ∨ (ph = UserIntent ∧ r = 4) ∨ (ph = UnixConfirmed ∧ r = 5) ∨ (ph = ReviewRequired ∧ 2 ≤ r ≤ 6).
Proof. unfold phase_ok. go_bool. lia || naive_solver. Qed.

(** Split a valid journal by phase, dropping the phases the context excludes. *)
Ltac phase_cases Hv :=
  let Hc := fresh "Hphase" in
  pose proof (Journal_Validate_phase _ Hv) as Hc%phase_ok_cases;
  destruct Hc as [[Hc ?]|[[Hc ?]|[[Hc ?]|[[Hc ?]|[[Hc ?]|[Hc ?]]]]]];
  try (exfalso; match goal with
       | H : jn_Phase _ = _ |- _ => rewrite Hc in H; discriminate H
       | H : jn_Phase _ ≠ _ |- _ => exact (H Hc)
       end).

Lemma valid_revision j : Journal_Validate j = true → 1 ≤ jn_Revision j ≤ 6.
Proof. intros H%Journal_Validate_phase%phase_ok_cases. naive_solver lia. Qed.

Lemma next_revision j : Journal_Validate j = true → u64_add (jn_Revision j) 1 = jn_Revision j + 1.
Proof. intros H%valid_revision. unfold u64_add, wrap. apply Z.mod_small. lia. Qed.

Lemma valid_range j : Journal_Validate j = true → 0 ≤ jn_Revision j ≤ max_uint64.
Proof. intros H%valid_revision. unfold max_uint64. lia. Qed.

Definition is_command (ev : event) : bool :=
  match ev with Wrote _ _ => false | _ => true end.
Definition is_create_group (ev : event) : bool := match ev with CreateGroup _ => true | _ => false end.
Definition is_create_user (ev : event) : bool := match ev with CreateUser _ => true | _ => false end.
Definition count (P : event → bool) (l : list event) : nat := length (filter (λ x, P x = true) l).

Lemma count_app P l1 l2 : count P (l1 ++ l2) = (count P l1 + count P l2)%nat.
Proof. unfold count. by rewrite filter_app, length_app. Qed.

Lemma count_zero P l : Forall (λ x, P x = false) l → count P l = 0%nat.
Proof.
  unfold count. induction 1 as [|x l Hx HF IH]; [done|]. rewrite filter_cons, decide_False by congruence. done.
Qed.

Section sound.
Context (R : Register Journal) `{Hspec : !RegisterSpec R jn_Revision Journal_Validate}.
Implicit Types st : rg_state R.

Local Abbreviation keeps := (keeps R).

(** A journal written by the coordinator follows the one it replaces: valid,
    same account and registry revision. *)
Definition succeeds (j j' : Journal) : Prop :=
  Journal_Validate j' = true ∧ jn_Account j' = jn_Account j
  ∧ jn_RegistryRevision j' = jn_RegistryRevision j ∧ jn_Revision j' = jn_Revision j + 1.

Lemma with_phase_succeeds j ph :
  Journal_Validate j = true → phase_ok ph (jn_Revision j + 1) = true → succeeds j (with_phase j ph).
Proof.
  intros Hv Hp. unfold succeeds. rewrite Journal_Validate_with_phase, next_revision by done.
  split_and!; try done. simpl. by apply next_revision.
Qed.

Lemma review_succeeds j :
  Journal_Validate j = true → jn_Phase j ≠ ReviewRequired → succeeds j (with_phase j ReviewRequired).
Proof.
  intros Hv Hp. apply with_phase_succeeds; [done|].
  pose proof (Journal_Validate_phase _ Hv) as [[? ->]|[[? ->]|[[? ->]|[[? ->]|[[? ->]|[? ?]]]]]]%phase_ok_cases;
    done.
Qed.

Lemma write_sound st f j j' st' r ev :
  rg_inv st → Journal_Validate j = true → succeeds j j' →
  write R st f (jn_Revision j) j' = (st', r, ev) →
  keeps st st' ∧ ev = [Wrote j' r]
  ∧ (r = Ok tt → rg_floor (jn_Revision j') st' ∧ (∀ lf y, rg_load R st' lf = Ok y → y = j')).
Proof using Hspec.
  intros Hi Hv Hs. unfold write. destruct (rg_commit R st f (jn_Revision j) j') as [s1 r1] eqn:Hc.
  intros [= <- <- <-]. split_and!; [|done|].
  - by eapply commit_keeps; [|apply valid_range|].
  - intros ->. apply rg_commit_Ok in Hc; [|done|by apply valid_range]. naive_solver.
Qed.

Lemma review_sound st f j st' r ev :
  rg_inv st → Journal_Validate j = true → jn_Phase j ≠ ReviewRequired →
  Native_review R st f j = (st', r, ev) →
  keeps st st' ∧ r ≠ Ok tt ∧ ∃ res, ev = [Wrote (with_phase j ReviewRequired) res].
Proof using Hspec.
  intros Hi Hv Hp. unfold Native_review.
  destruct (write R st f (jn_Revision j) (with_phase j ReviewRequired)) as [[s1 r1] e1] eqn:Hw.
  apply write_sound in Hw as (Hk & -> & _); [|done|done|by apply review_succeeds].
  intros [= <- <- <-]. eauto.
Qed.

(** The command an intent stands for, and the phase that confirms it. *)
Definition command_of (intent : Journal) : event :=
  if jn_Phase intent == GroupIntent then CreateGroup (jn_Account intent) else CreateUser (jn_Account intent).
Definition confirmed_phase (intent : Journal) : string :=
  if jn_Phase intent == UserIntent then UnixConfirmed else GroupConfirmed.
(** The observation that confirms it. *)
Definition confirms (intent : Journal) (d : Assessment) : bool :=
  if jn_Phase intent == GroupIntent then group_only d else as_Status d == Observed.

Definition is_intent (j : Journal) : Prop := jn_Phase j = GroupIntent ∨ jn_Phase j = UserIntent.

Lemma intent_succeeds j :
  Journal_Validate j = true → is_intent j → succeeds j (with_phase j (confirmed_phase j)).
Proof.
  intros Hv Hi. apply with_phase_succeeds; [done|]. unfold confirmed_phase.
  destruct Hi as [Hp|Hp]; phase_cases Hv; rewrite Hp; replace (jn_Revision j); reflexivity.
Qed.

(** What [step_command] does, case by case: the command, then either a
    confirmation after the right observation or a review record. *)
Lemma step_command_sound st e intent st' r ev :
  rg_inv st → Journal_Validate intent = true → is_intent intent →
  step_command R st e intent = (st', r, ev) →
  keeps st st' ∧
  ∃ j' res, ev = [command_of intent; Wrote j' res] ∧ succeeds intent j'
    ∧ (jn_Phase j' = ReviewRequired ∧ r ≠ Ok tt
       ∨ j' = with_phase intent (confirmed_phase intent) ∧ r = storage res
         ∧ (∃ o d, se_observe_2 R e = Some o ∧ Snapshot_Inspect o (jn_Account intent) = Ok d
                   ∧ confirms intent d = true)
         ∧ (res = Ok tt → ∀ lf y, rg_load R st' lf = Ok y → y = j')).
Proof using Hspec.
  intros Hi Hv Hin. unfold step_command. fold (command_of intent).
  assert (Hnr : jn_Phase intent ≠ ReviewRequired) by (intros Hp; destruct Hin as [H|H]; rewrite H in Hp; done).
  assert (Hrev : ∀ s1 r1 e1, Native_review R st (se_review R e) intent = (s1, r1, e1) →
    keeps st s1 ∧ ∃ j' res, e1 = [Wrote j' res] ∧ succeeds intent j' ∧ jn_Phase j' = ReviewRequired ∧ r1 ≠ Ok tt).
  { intros s1 r1 e1 H. apply review_sound in H as (Hk & Hr & res & ->); [|done..].
    split; [done|]. eexists _, res. split_and!; [done|by apply review_succeeds|done|done]. }
  assert (Hgo : ∀ s1 r1 e1, Native_review R st (se_review R e) intent = (s1, r1, e1) →
    (s1, r1, command_of intent :: e1) = (st', r, ev) →
    keeps st st' ∧ ∃ j' res, ev = [command_of intent; Wrote j' res] ∧ succeeds intent j'
      ∧ (jn_Phase j' = ReviewRequired ∧ r ≠ Ok tt
         ∨ j' = with_phase intent (confirmed_phase intent) ∧ r = storage res
           ∧ (∃ o d, se_observe_2 R e = Some o ∧ Snapshot_Inspect o (jn_Account intent) = Ok d
                     ∧ confirms intent d = true)
           ∧ (res = Ok tt → ∀ lf y, rg_load R st' lf = Ok y → y = j'))).
  { intros s1 r1 e1 (Hk & j' & res & -> & ? & ? & ?)%Hrev [= <- <- <-]. split; [done|].
    exists j', res. split_and!; auto. }
  destruct (Native_review R st (se_review R e) intent) as [[s1 r1] e1] eqn:HR.
  destruct (se_command_fails R e); [by apply Hgo|].
  destruct (se_observe_2 R e) as [o|] eqn:Ho; [|by apply Hgo].
  destruct (Snapshot_Inspect o (jn_Account intent)) as [d|] eqn:Hd; [|by apply Hgo].
  destruct (se_ctx_err_3 R e); [by apply Hgo|].
  destruct (_ || _) eqn:Hobs; [by apply Hgo|]. fold (confirmed_phase intent). clear Hgo Hrev HR.
  destruct (write _ _ _ _ _) as [[s2 r2] e2] eqn:Hw.
  apply write_sound in Hw as (Hk & -> & Hok); [|done|done|by apply intent_succeeds].
  intros [= <- <- <-]. split; [done|]. eexists _, r2. split_and!; [done|by apply intent_succeeds|].
  right. split_and!; [done|done| |naive_solver]. exists o, d. split_and!; try done.
  apply orb_false_iff in Hobs as [Hg Hu]. unfold confirms.
  destruct Hin as [Hp|Hp]; rewrite Hp in *; [by destruct (group_only d)|by destruct (as_Status d == Observed)].
Qed.

(** The observation [Step] demands before it writes an intent, and that intent. *)
Definition admits (j : Journal) (d : Assessment) : bool :=
  if jn_Phase j == Reserved then as_Status d == Absent else group_only d.
Definition intent_of (j : Journal) : Journal :=
  with_phase j (if jn_Phase j == GroupConfirmed then UserIntent else GroupIntent).
Definition is_ready (j : Journal) : Prop := jn_Phase j = Reserved ∨ jn_Phase j = GroupConfirmed.

Lemma intent_of_succeeds j :
  Journal_Validate j = true → is_ready j → succeeds j (intent_of j) ∧ is_intent (intent_of j).
Proof.
  intros Hv Hr. split; [apply with_phase_succeeds; [done|]|]; unfold is_intent, intent_of;
    cbn [with_phase jn_Phase]; destruct Hr as [Hp|Hp]; phase_cases Hv; rewrite Hp;
    try (replace (jn_Revision j); reflexivity); [by left|by right].
Qed.

(** A trace of one [Step]. *)
Inductive step_trace (j : Journal) : list event → Prop :=
| trace_silent : step_trace j []
| trace_review res : jn_Phase j ≠ ReviewRequired →
    step_trace j [Wrote (with_phase j ReviewRequired) res]
| trace_no_intent e : is_ready j → step_trace j [Wrote (intent_of j) (Err e)]
| trace_cancelled res : is_ready j →
    step_trace j [Wrote (intent_of j) (Ok tt); Wrote (with_phase (intent_of j) ReviewRequired) res]
| trace_command j' res : is_ready j → succeeds (intent_of j) j' →
    step_trace j [Wrote (intent_of j) (Ok tt); command_of (intent_of j); Wrote j' res].

(** One [Step] on a loaded journal, with everything later theorems need. *)
Record step_post st (j : Journal) (e : step_env R) st' (r : res prov_error unit) (ev : list event) : Prop := {
  sp_keeps : keeps st st';
  sp_trace : step_trace j ev;
  sp_floor : (1 < length ev)%nat → rg_floor (jn_Revision j + 1) st';
  sp_observed : existsb is_command ev = true →
    ∃ o d, se_observe_1 R e = Some o ∧ Snapshot_Inspect o (jn_Account j) = Ok d ∧ admits j d = true;
  sp_success : r = Ok tt →
    (jn_Phase j = UnixConfirmed ∧ ev = [] ∧
     ∃ o d, se_observe_1 R e = Some o ∧ Snapshot_Inspect o (jn_Account j) = Ok d ∧ as_Status d = Observed)
    ∨ (is_ready j ∧ ∃ o d,
       let confirmed := with_phase (intent_of j) (confirmed_phase (intent_of j)) in
       ev = [Wrote (intent_of j) (Ok tt); command_of (intent_of j); Wrote confirmed (Ok tt)]
       ∧ se_observe_2 R e = Some o ∧ Snapshot_Inspect o (jn_Account j) = Ok d
       ∧ confirms (intent_of j) d = true ∧ ∀ lf y, rg_load R st' lf = Ok y → y = confirmed) }.

Lemma step_review_post st j e st' r ev :
  rg_inv st → Journal_Validate j = true → jn_Phase j ≠ ReviewRequired →
  Native_review R st (se_review R e) j = (st', r, ev) → step_post st j e st' r ev.
Proof using Hspec.
  intros Hi Hv Hp H. apply review_sound in H as (Hk & Hr & res & ->); [|done..].
  split; [done|by constructor|simpl; lia|done|done].
Qed.

Lemma step_intent_post st j e o d st' r ev :
  rg_inv st → Journal_Validate j = true → is_ready j →
  se_observe_1 R e = Some o → Snapshot_Inspect o (jn_Account j) = Ok d → admits j d = true →
  (let '(st1, r1, ev1) := write R st (se_commit_1 R e) (jn_Revision j) (intent_of j) in
   match r1 with
   | Err err => (st1, Err (ErrStorage err), ev1)
   | Ok _ =>
     let '(st2, r2, ev2) :=
       if se_ctx_err_2 R e then Native_review R st1 (se_review R e) (intent_of j)
       else step_command R st1 e (intent_of j) in
     (st2, r2, ev1 ++ ev2)
   end) = (st', r, ev) →
  step_post st j e st' r ev.
Proof using Hspec.
  intros Hi Hv Hr Ho Hd Hadm. destruct (intent_of_succeeds j Hv Hr) as [Hs Hint].
  destruct Hs as (Hvi & Hacc & Hreg & Hrev).
  destruct (write R st (se_commit_1 R e) (jn_Revision j) (intent_of j)) as [[s1 r1] e1] eqn:Hw.
  apply write_sound in Hw as (Hk1 & -> & Hok1); [|done|done|by split_and!].
  destruct r1 as [[]|err].
  2: { intros [= <- <- <-]. split; [done|by constructor|simpl; lia|done|done]. }
  destruct (Hok1 eq_refl) as [Hf1 _]. rewrite Hrev in Hf1.
  destruct (se_ctx_err_2 R e).
  - destruct (Native_review _ _ _ _) as [[s2 r2] e2] eqn:HR. intros [= <- <- <-].
    apply review_sound in HR as (Hk2 & Hr2 & res & ->); [|apply Hk1|done|destruct Hint as [H|H]; by rewrite H].
    split; [by eapply keeps_trans|by constructor| |done|done]. intros _. by apply Hk2.
  - destruct (step_command _ _ _ _) as [[s2 r2] e2] eqn:HC. intros [= <- <- <-].
    apply step_command_sound in HC as (Hk2 & j' & res & -> & Hsj & Hcase); [|apply Hk1|done|done].
    split; [by eapply keeps_trans|by constructor|intros _; by apply Hk2|by eauto|].
    intros ->. right. split; [done|]. destruct Hcase as [[_ ?]|(-> & Hst & (o2 & d2 & Ho2 & Hd2 & Hcf) & Hl)]; [done|].
    destruct res as [[]|]; [|done]. exists o2, d2. rewrite Hacc in Hd2. split_and!; try done. by apply Hl.
Qed.

Lemma step_engine_sound st e expected r st' res ev :
  rg_inv st → step_engine R st e expected r = (st', res, ev) →
  (ev = [] ∧ st' = st ∧ res ≠ Ok tt)
  ∨ ∃ j, rg_load R st (se_load R e) = Ok j ∧ Journal_Validate j = true ∧ jn_Revision j = expected
         ∧ Journal_matches j r = true ∧ step_post st j e st' res ev.
Proof using Hspec.
  intros Hi. unfold step_engine.
  destruct (rg_load R st (se_load R e)) as [j|err] eqn:Hl; [|intros [= <- <- <-]; by left].
  pose proof (rg_load_valid _ _ _ Hi Hl) as Hv.
  destruct (_ || _) eqn:Hm; [intros [= <- <- <-]; by left|]. go_bool in Hm. destruct Hm as [Hm1 Hm2].
  case_bool_decide as HpR; [intros [= <- <- <-]; by left|].
  destruct ((jn_Phase j == GroupIntent) || (jn_Phase j == UserIntent)) eqn:HpI.
  { intros H. right. exists j. split_and!; try done. by apply step_review_post. }
  go_bool in HpI. destruct HpI as [HpG HpI].
  destruct (se_ctx_err_1 R e); [intros [= <- <- <-]; by left|].
  destruct (se_observe_1 R e) as [o|] eqn:Ho; [|intros [= <- <- <-]; by left].
  destruct (Snapshot_Inspect o (jn_Account j)) as [d|] eqn:Hd; [|intros [= <- <- <-]; by left].
  intros H. right. exists j. split_and!; try done. revert H.
  case_bool_decide as HpU.
  { case_bool_decide as HsO; simpl; [|intros H; by apply step_review_post].
    intros [= <- <- <-]. split; [by apply keeps_refl|constructor|simpl; lia|done|].
    intros _. left. split_and!; [done|done|]. by exists o, d. }
  destruct (_ || _) eqn:Hobs; [intros H; by apply step_review_post|].
  assert (is_ready j) as Hready.
  { unfold is_ready. phase_cases Hv; auto. }
  intros H. eapply step_intent_post; try done. unfold admits. apply orb_false_iff in Hobs as [Ha Hg].
  destruct Hready as [Hp|Hp]; rewrite Hp in *; [by destruct (as_Status d == Absent)|by destruct (group_only d)].
Qed.

Lemma begin_sound s f r id observed s' res ev :
  rg_inv (ps_engine R s) → Native_Begin R s f r id observed = (s', res, ev) →
  keeps (ps_engine R s) (ps_engine R s') ∧ count is_create_group ev = 0%nat ∧ count is_create_user ev = 0%nat.
Proof using Hspec.
  intros Hi. unfold Native_Begin.
  destruct (negb (ps_open R s)); [intros [= <- <- <-]; split_and!; by try apply keeps_refl|].
  destruct (negb (is_ok _)); [intros [= <- <- <-]; split_and!; by try apply keeps_refl|].
  destruct (List.find _ _) as [a|]; [|intros [= <- <- <-]; split_and!; by try apply keeps_refl].
  destruct (negb (Journal_Validate _)); [intros [= <- <- <-]; split_and!; by try apply keeps_refl|].
  destruct (Snapshot_Assess observed a) as [status|]; [|intros [= <- <- <-]; split_and!; by try apply keeps_refl].
  destruct (_ != _); [intros [= <- <- <-]; split_and!; by try apply keeps_refl|].
  unfold write. destruct (rg_commit R (ps_engine R s) f 0 (begin_journal r a)) as [st1 r1] eqn:Hc.
  intros [= <- <- <-]. split_and!; [|done|done].
  eapply commit_keeps; [done| |exact Hc]. unfold max_uint64. lia.
Qed.

(** Executions: any interleaving of [Begin], [Step] and restarts, with any
    outcome of every call; the trace is the concatenation of the events. *)
Inductive prov_run : NativeStore R → list event → NativeStore R → Prop :=
| run_nil s : prov_run s [] s
| run_begin s f r id observed s1 res ev evs s2 :
    Native_Begin R s f r id observed = (s1, res, ev) → prov_run s1 evs s2 → prov_run s (ev ++ evs) s2
| run_step s e expected r s1 res ev evs s2 :
    Native_Step R s e expected r = (s1, res, ev) → prov_run s1 evs s2 → prov_run s (ev ++ evs) s2
| run_restart s st1 reopened evs s2 :
    rg_restart R (ps_engine R s) st1 → prov_run (mkProvStore R reopened st1) evs s2 → prov_run s evs s2.

Lemma trace_commands j ev :
  step_trace j ev → Journal_Validate j = true →
  (count is_create_group ev = 0%nat ∧ count is_create_user ev = 0%nat)
  ∨ (1 < length ev)%nat ∧
    ((count is_create_group ev = 1%nat ∧ count is_create_user ev = 0%nat ∧ jn_Revision j = 1)
     ∨ (count is_create_group ev = 0%nat ∧ count is_create_user ev = 1%nat ∧ jn_Revision j = 3)).
Proof.
  intros Ht Hv. destruct Ht as [|res Hp|e Hr|res Hr|j' res Hr Hs]; try (by left).
  right. split; [simpl; lia|]. unfold command_of, intent_of. cbn [with_phase jn_Phase jn_Account].
  destruct Hr as [Hp|Hp]; phase_cases Hv; rewrite Hp.
  - left. split_and!; [reflexivity|reflexivity|done].
  - right. split_and!; [reflexivity|reflexivity|done].
Qed.

(** The bookkeeping of a run: a command already seen has raised the floor. *)
Definition spent (g u : nat) st : Prop :=
  rg_inv st ∧ (g ≤ 1)%nat ∧ (u ≤ 1)%nat ∧ (g = 1%nat → rg_floor 2 st) ∧ (u = 1%nat → rg_floor 4 st).

Lemma spent_keeps g u st st' : spent g u st → keeps st st' → spent g u st'.
Proof. intros (? & ? & ? & ? & ?) [? Hk]. split_and!; auto. Qed.

Lemma step_spent g u s e expected r s' res ev :
  spent g u (ps_engine R s) → Native_Step R s e expected r = (s', res, ev) →
  spent (g + count is_create_group ev) (u + count is_create_user ev) (ps_engine R s').
Proof using Hspec.
  intros Hsp. unfold Native_Step.
  destruct (negb _); [intros [= <- <- <-]; by rewrite !Nat.add_0_r|].
  destruct (_ || _); [intros [= <- <- <-]; by rewrite !Nat.add_0_r|].
  destruct (step_engine R (ps_engine R s) e expected r) as [[st1 r1] ev1] eqn:Hs.
  intros [= <- <- <-]. simpl. destruct Hsp as (Hi & Hg & Hu & Fg & Fu).
  apply step_engine_sound in Hs as [(-> & -> & _)|(j & Hl & Hv & _ & _ & [Hk Ht Hf _ _])]; [| |done].
  { rewrite !Nat.add_0_r. by split_and!. }
  apply trace_commands in Ht as [[-> ->]|(Hlen & Hc)]; [| |done].
  { rewrite !Nat.add_0_r. eapply spent_keeps; [|exact Hk]. by split_and!. }
  specialize (Hf Hlen). destruct Hk as [Hi' Hk].
  destruct Hc as [(-> & -> & Hr)|(-> & -> & Hr)]; rewrite Hr in Hf; rewrite Nat.add_0_r.
  - destruct g as [|[|g]]; [|exfalso|lia].
    + split_and!; auto with lia.
    + pose proof (rg_load_floor _ _ _ _ Hi (Fg eq_refl) Hl). lia.
  - destruct u as [|[|u]]; [|exfalso|lia].
    + split_and!; auto with lia.
    + pose proof (rg_load_floor _ _ _ _ Hi (Fu eq_refl) Hl). lia.
Qed.

Lemma run_spent g u s evs s' :
  prov_run s evs s' → spent g u (ps_engine R s) →
  spent (g + count is_create_group evs) (u + count is_create_user evs) (ps_engine R s').
Proof using Hspec.
  intros Hr. revert g u.
  induction Hr as [s|s f r id o s1 res ev evs s2 Hb Hr IH|s e x r s1 res ev evs s2 Hs Hr IH
                  |s st1 op evs s2 Hre Hr IH]; intros g u Hsp.
  - by rewrite !Nat.add_0_r.
  - destruct (begin_sound _ _ _ _ _ _ _ _ (proj1 Hsp) Hb) as (Hk & Hg & Hu).
    rewrite !count_app, Hg, Hu. apply IH. by eapply spent_keeps.
  - rewrite !count_app, !Nat.add_assoc. apply IH. by eapply step_spent.
  - apply IH. eapply spent_keeps; [exact Hsp|]. by apply restart_keeps; [apply Hsp|].
Qed.

(** ** Properties *)

(** Intent before command. A [Step] runs at most one command, and only when
    the journal it loaded is reserved (then the group command) or has its group
    confirmed (then the user command), after an observation that shows the
    account absent, respectively only its group present, and after the intent
    record has been durably committed; the command concerns the account of the
    journal, and it is followed by exactly one more record, valid and one
    revision later. *)
Theorem Native_Step_intent_first s e expected r s' res ev :
  rg_inv (ps_engine R s) → Native_Step R s e expected r = (s', res, ev) →
  existsb is_command ev = true →
  ∃ j j' o d result, rg_load R (ps_engine R s) (se_load R e) = Ok j
    ∧ jn_Revision j = expected ∧ Journal_matches j r = true ∧ is_ready j
    ∧ se_observe_1 R e = Some o ∧ Snapshot_Inspect o (jn_Account j) = Ok d ∧ admits j d = true
    ∧ ev = [Wrote (intent_of j) (Ok tt);
            if jn_Phase j == Reserved then CreateGroup (jn_Account j) else CreateUser (jn_Account j);
            Wrote j' result]
    ∧ succeeds j (intent_of j) ∧ succeeds (intent_of j) j'.
Proof using Hspec.
  intros Hi. unfold Native_Step.
  destruct (negb (ps_open R s)); [by intros [= <- <- <-]|].
  destruct (se_ctx_nil R e || se_backend_nil R e); [by intros [= <- <- <-]|].
  destruct (step_engine R (ps_engine R s) e expected r) as [[st1 r1] ev1] eqn:Hs.
  intros [= <- <- <-] Hc.
  apply step_engine_sound in Hs as [(-> & _)|(j & Hl & Hv & Hr & Hm & [_ Ht _ Ho _])]; [done| |done].
  destruct (Ho Hc) as (o & d & ? & ? & ?).
  destruct Ht as [|res Hp|x Hy|res Hy|j' res Hy Hsj]; try done.
  destruct (intent_of_succeeds j Hv Hy) as [Hsi _].
  exists j, j', o, d, res. split_and!; try done.
  unfold command_of, intent_of. cbn [with_phase jn_Phase jn_Account].
  destruct Hy as [Hp|Hp]; rewrite Hp; reflexivity.
Qed.

(** C2: a creation command is never repeated. Along any interleaving of
    [Begin], [Step] and restarts (closes, crashes, reopenings), with any outcome
    of observations, commands and storage, the group command and the user
    command are each issued at most once for a journal. *)
Theorem native_commands_once s evs s' :
  rg_inv (ps_engine R s) → prov_run s evs s' →
  (count is_create_group evs ≤ 1)%nat ∧ (count is_create_user evs ≤ 1)%nat.
Proof using Hspec.
  intros Hi Hr. destruct (run_spent 0 0 s evs s' Hr) as (_ & Hg & Hu & _); [split_and!; [done|lia|lia|intros [=]|intros [=]]|].
  by split.
Qed.

(** Success is confirmed by observation. A [Step] that returns without
    error either found the identity already confirmed and observed it complete,
    writing nothing, or committed the intent, ran the command, observed its
    effect (only the group, respectively the complete identity) and committed
    the confirmation, which every later load returns. *)
Theorem Native_Step_success s e expected r s' ev :
  rg_inv (ps_engine R s) → Native_Step R s e expected r = (s', Ok tt, ev) →
  ∃ j, rg_load R (ps_engine R s) (se_load R e) = Ok j ∧
   ((jn_Phase j = UnixConfirmed ∧ ev = [] ∧
     ∃ o d, se_observe_1 R e = Some o ∧ Snapshot_Inspect o (jn_Account j) = Ok d ∧ as_Status d = Observed)
    ∨ (is_ready j ∧ ∃ o d,
       let confirmed := with_phase (intent_of j) (confirmed_phase (intent_of j)) in
       ev = [Wrote (intent_of j) (Ok tt); command_of (intent_of j); Wrote confirmed (Ok tt)]
       ∧ se_observe_2 R e = Some o ∧ Snapshot_Inspect o (jn_Account j) = Ok d
       ∧ confirms (intent_of j) d = true
       ∧ ∀ lf y, rg_load R (ps_engine R s') lf = Ok y → y = confirmed)).
Proof using Hspec.
  intros Hi. unfold Native_Step.
  destruct (negb _); [done|]. destruct (_ || _); [done|].
  destruct (step_engine R (ps_engine R s) e expected r) as [[st1 r1] ev1] eqn:Hs.
  intros [= <- -> <-].
  apply step_engine_sound in Hs as [(_ & _ & ?)|(j & Hl & Hv & Hr & Hm & [_ _ _ _ Hok])]; [done| |done].
  exists j. split; [done|]. by apply Hok.
Qed.

End sound.

(** ** Witnesses *)
Lemma journal_rev_pos j : Journal_Validate j = true → 1 ≤ jn_Revision j.
Proof. intros H%valid_revision. lia. Qed.

Definition cell : Register Journal := memory_register jn_Revision Journal_Validate.
#[local] Existing Instance memory_spec.
Definition cell_spec : RegisterSpec cell jn_Revision Journal_Validate :=
  memory_spec jn_Revision Journal_Validate journal_rev_pos.

Definition example_reserved_journal : Journal :=
  mkJournal JournalFormat 1 1 2 example_account Reserved.
Definition with_group : Snapshot :=
  mkSnapshot true [mkUnixUser "root" 0 0] [mkUnixGroup "root" 0 []; mkUnixGroup "alice" 1001 []].
Definition without_alice : Snapshot :=
  mkSnapshot true [mkUnixUser "root" 0 0] [mkUnixGroup "root" 0 []].
Definition good_env : step_env cell :=
  mkStepEnv cell false false tt false false false (Some without_alice) false (Some with_group) tt tt tt.
Definition example_native : NativeStore cell := mkProvStore cell true (Some example_reserved_journal).
Definition group_trace : list event :=
  [Wrote (with_phase example_reserved_journal GroupIntent) (Ok tt); CreateGroup example_account;
   Wrote (with_phase (with_phase example_reserved_journal GroupIntent) GroupConfirmed) (Ok tt)].
Definition example_native_after : NativeStore cell :=
  mkProvStore cell true (Some (with_phase (with_phase example_reserved_journal GroupIntent) GroupConfirmed)).

Lemma example_step :
  Native_Step cell example_native good_env 1 example_registry_2 = (example_native_after, Ok tt, group_trace).
Proof. vm_cast_no_check (@eq_refl (NativeStore cell * res prov_error unit * list event)
  (example_native_after, Ok tt, group_trace)). Qed.

Lemma example_native_inv : rg_inv (RegisterSpec := cell_spec) (ps_engine cell example_native).
Proof. intros x [= <-]. vm_compute. reflexivity. Qed.

Lemma Native_Step_intent_first_witness :
  ∃ j o d, rg_load cell (ps_engine cell example_native) tt = Ok j ∧ is_ready j
    ∧ Snapshot_Inspect o (jn_Account j) = Ok d ∧ admits j d = true.
Proof.
  destruct (Native_Step_intent_first cell (Hspec := cell_spec) example_native good_env 1 example_registry_2
    example_native_after (Ok tt) group_trace example_native_inv example_step eq_refl)
    as (j & j' & o & d & result & Hl & _ & _ & Hr & _ & Hd & Ha & _).
  exists j, o, d. split_and!; assumption.
Defined.

Lemma native_commands_once_witness :
  (count is_create_group (group_trace ++ []) ≤ 1)%nat ∧ (count is_create_user (group_trace ++ []) ≤ 1)%nat.
Proof.
  apply (native_commands_once cell (Hspec := cell_spec) example_native (group_trace ++ []) example_native_after).
  - exact example_native_inv.
  - eapply run_step; [exact example_step|constructor].
Defined.

Lemma Native_Step_success_witness :
  ∃ j, rg_load cell (ps_engine cell example_native) tt = Ok j ∧ is_ready j.
Proof.
  destruct (Native_Step_success cell (Hspec := cell_spec) example_native good_env 1 example_registry_2
    example_native_after group_trace example_native_inv example_step) as (j & Hl & [(_ & He & _)|(Hr & _)]).
  - discriminate He.
  - by exists j.
Defined.

End IdentityProvision.
