(* ===== verification/SambaJournal.v ===== *)
(** * Samba enrolment of one identity: [internal/smbprovision/]

    [journal.go] gives the document, the passdb observation and their validity;
    [store_linux.go] the coordinator.  Each mutating method commits an intent,
    runs one backend command, observes, and commits a confirmation; anything
    uncertain becomes a review record.  As in [NativeJournal.v] the backend, the
    context and the storage faults are arguments and every operation returns the
    visible events in order. *)

From S2P Require Import Prelude GoStrings Shares Accounts Store Register.

Module SmbProvision.
Import ServiceAccounts.

(** ** Data *)
Record SmbJournal := mkSmbJournal {
  sj_Format : string; sj_SchemaVersion : Z; sj_Revision : Z; sj_NativeRevision : Z;
  sj_Account : Account; sj_SID : string; sj_Phase : string }.
Record Observation := mkObservation {
  ob_Present : bool; ob_Name : string; ob_UID : Z; ob_GID : Z; ob_SID : string; ob_Disabled : bool }.
#[export] Instance SmbJournal_eq_dec : EqDecision SmbJournal. Proof. solve_decision. Defined.

Definition SmbFormat : string := "phantowd-smb-provision".
Definition Reserved : string := "reserved".
Definition CreateIntent : string := "create-disabled-intent".
Definition DisabledNoPassword : string := "disabled-no-password".
Definition PasswordIntent : string := "set-password-disabled-intent".
Definition CredentialSetDisabled : string := "credential-set-disabled".
Definition EnableIntent : string := "enable-intent".
Definition Enabled : string := "enabled".
Definition DisableIntent : string := "disable-intent".
Definition Disabled : string := "disabled".
Definition ReviewRequired : string := "review-required".

(** ** Validity *)

(** The sub-authorities of a domain SID: canonical decimal, nonzero, 32 bits. *)
Definition sid_part (part : string) : bool :=
  match ParseUint 32 part with
  | None => false
  | Some n => negb (n =? 0) && (FormatUint n == part)
  end.
Definition validSID (value : string) : bool :=
  match split_on "-" value with
  | [p0; p1; p2; p3; p4; p5; p6; p7] =>
    (p0 == "S") && (p1 == "1") && (p2 == "5") && (p3 == "21") && forallb sid_part [p4; p5; p6; p7]
  | _ => false
  end.

Definition validateFor (o : Observation) (a : Account) (requireDisabled : bool) : bool :=
  if negb (ob_Present o) then
    negb ((ob_Name o != "") || negb (ob_UID o =? 0) || negb (ob_GID o =? 0) || (ob_SID o != "")
          || ob_Disabled o)
  else
    negb ((ob_Name o != acc_Name a) || negb (ob_UID o =? acc_UID a) || negb (ob_GID o =? acc_GID a)
          || negb (validSID (ob_SID o)) || (requireDisabled && negb (ob_Disabled o))).

Definition sidRequired (phase : string) : bool :=
  (phase == DisabledNoPassword) || (phase == PasswordIntent) || (phase == CredentialSetDisabled)
  || (phase == EnableIntent) || (phase == Enabled) || (phase == DisableIntent) || (phase == Disabled).

Definition validPhase (phase : string) (rev : Z) : bool :=
  ((phase == Reserved) && (rev =? 1)) || ((phase == CreateIntent) && (rev =? 2))
  || ((phase == DisabledNoPassword) && (rev =? 3))
  || ((phase == PasswordIntent) && (4 <=? rev) && (rev mod 2 =? 0))
  || ((phase == CredentialSetDisabled) && (5 <=? rev) && (rev mod 2 =? 1))
  || ((phase == EnableIntent) && (6 <=? rev) && (rev mod 2 =? 0))
  || ((phase == Enabled) && (7 <=? rev) && (rev mod 2 =? 1))
  || ((phase == DisableIntent) && (8 <=? rev) && (rev mod 2 =? 0))
  || ((phase == Disabled) && (9 <=? rev) && (rev mod 2 =? 1))
  || ((phase == ReviewRequired) && (2 <=? rev)).

Definition validAccount (a : Account) : bool :=
  let '(r0, err) := Registry_New (acc_UID a) (acc_UID a) in
  let r := mkRegistry (reg_Format r0) (reg_SchemaVersion r0) (reg_Revision r0)
             (reg_FirstID r0) (reg_LastID r0) (Some [a]) in
  is_ok err && is_ok (Registry_Validate r) && (acc_State a == ServiceAccounts.Disabled).

(** The rule on the SID: required from the third revision on, optional on a
    review record of revision three, absent before. *)
Definition validSIDField (phase : string) (rev : Z) (sid : string) : bool :=
  let requireSID := sidRequired phase || ((phase == ReviewRequired) && (4 <=? rev)) in
  let validReviewSID := (phase == ReviewRequired) && (rev =? 3) && (sid != "") && validSID sid in
  negb ((negb requireSID && (sid != "") && negb validReviewSID) || (requireSID && negb (validSID sid))).

Definition SmbJournal_Validate (j : SmbJournal) : bool :=
  if negb (validAccount (sj_Account j)) || (sj_Format j != SmbFormat) || negb (sj_SchemaVersion j =? 1)
     || (sj_Revision j =? 0) || (sj_NativeRevision j =? 0)
  then false
  else validPhase (sj_Phase j) (sj_Revision j) && validSIDField (sj_Phase j) (sj_Revision j) (sj_SID j).

Inductive smb_error :=
| ErrInvalid | ErrConflict | ErrObservation | ErrPending | ErrContext
| ErrReview (joined : res RevisionStore.store_error unit)
| ErrReviewOnly
| ErrStorage (e : RevisionStore.store_error).

Definition is_intent_phase (phase : string) : bool :=
  (phase == CreateIntent) || (phase == PasswordIntent) || (phase == EnableIntent) || (phase == DisableIntent).

Definition ValidateObservation (j : SmbJournal) (o : Observation) : res smb_error unit :=
  refuse negb (SmbJournal_Validate j) || negb (validateFor o (sj_Account j) false) => ErrObservation ;;
  if sj_Phase j == Reserved then (refuse ob_Present o => ErrObservation ;; Ok tt)
  else if is_intent_phase (sj_Phase j) then Err ErrReviewOnly
  else if (sj_Phase j == DisabledNoPassword) || (sj_Phase j == CredentialSetDisabled) || (sj_Phase j == Disabled)
  then (refuse negb (ob_Present o) || negb (ob_Disabled o) || (ob_SID o != sj_SID j) => ErrObservation ;; Ok tt)
  else if sj_Phase j == Enabled
  then (refuse negb (ob_Present o) || ob_Disabled o || (ob_SID o != sj_SID j) => ErrObservation ;; Ok tt)
  else if sj_Phase j == ReviewRequired
  then (refuse ob_Present o && (sj_SID j != "") && (ob_SID o != sj_SID j) => ErrObservation ;; Ok tt)
  else Err ErrInvalid.

(** [unicode.IsControl]: the control category is C0, delete and C1. *)
Definition IsControl (r : Z) : bool := (r <? 32) || ((127 <=? r) && (r <? 160)).
Definition ValidPassword (secret : string) : bool :=
  if (slength secret <? 12) || (256 <? slength secret) || negb (utf8_valid secret) then false
  else forallb (λ r, negb (IsControl r)) (runes secret).

(** ** Coordinator *)
Inductive command :=
| CreateDisabled | SetPassword (secret : string) | EnableCommand | DisableCommand.
Inductive event :=
| Wrote (j : SmbJournal) (result : res RevisionStore.store_error unit)
| Ran (c : command) (a : Account).

Section operations.
Context (R : Register SmbJournal).

Record SmbStore := mkSmbStore { ss_open : bool; ss_backend : bool; ss_engine : rg_state R }.

(** The outcome of every call of one operation: the context's state at the
    points where it is consulted, observations, the command, the commits. *)
Record smb_env := mkSmbEnv {
  sv_ctx_nil : bool; sv_load : rg_load_faults R;
  sv_err_start : bool; sv_err_observed : bool; sv_err_intent : bool; sv_err_command : bool;
  sv_observe_1 : option Observation; sv_command_fails : bool; sv_observe_2 : option Observation;
  sv_commit_1 : rg_commit_faults R; sv_commit_2 : rg_commit_faults R; sv_review : rg_commit_faults R }.

Definition storage (r : res RevisionStore.store_error unit) : res smb_error unit :=
  match r with Ok _ => Ok tt | Err e => Err (ErrStorage e) end.

Definition outcome : Type := rg_state R * res smb_error unit * list event.

Definition write (st : rg_state R) (f : rg_commit_faults R) (expected : Z) (j : SmbJournal) :
  rg_state R * res RevisionStore.store_error unit * list event :=
  let '(st', r) := rg_commit R st f expected j in (st', r, [Wrote j r]).

(** [next := j; next.Revision++; next.Phase = phase], with a SID. *)
Definition advance (j : SmbJournal) (phase sid : string) : SmbJournal :=
  mkSmbJournal (sj_Format j) (sj_SchemaVersion j) (u64_add (sj_Revision j) 1) (sj_NativeRevision j)
    (sj_Account j) sid phase.

Definition Smb_review (st : rg_state R) (f : rg_commit_faults R) (j : SmbJournal) : outcome :=
  let '(st', r, ev) := write st f (sj_Revision j) (advance j ReviewRequired (sj_SID j)) in
  (st', Err (ErrReview r), ev).

(** Commit the intent, run the command, observe, confirm: the common second
    half of [Step], [Enable], [Disable] and [SetPasswordDisabled]. *)
Definition execute (st : rg_state R) (e : smb_env) (j : SmbJournal) (intentPhase : string) (c : command)
  (accept : Observation → bool) (confirmedPhase : string) (sid : Observation → string) : outcome :=
  let intent := advance j intentPhase (sj_SID j) in
  let '(st1, r1, ev1) := write st (sv_commit_1 e) (sj_Revision j) intent in
  match r1 with
  | Err err => (st1, Err (ErrStorage err), ev1)
  | Ok _ =>
    let '(st2, r2, ev2) :=
      if sv_err_intent e then Smb_review st1 (sv_review e) intent
      else
        let '(st3, r3, ev3) :=
          if sv_command_fails e || sv_err_command e then Smb_review st1 (sv_review e) intent
          else match sv_observe_2 e with
          | None => Smb_review st1 (sv_review e) intent
          | Some after =>
            if negb (accept after) then Smb_review st1 (sv_review e) intent
            else let '(st4, r4, ev4) := write st1 (sv_commit_2 e) (sj_Revision intent)
                                          (advance intent confirmedPhase (sid after)) in
                 (st4, storage r4, ev4)
          end
        in (st3, r3, Ran c (sj_Account j) :: ev3)
    in (st2, r2, ev1 ++ ev2)
  end.

(** The entry checks of the methods that take a revision. *)
Definition opened (s : SmbStore) (e : smb_env) (expected : Z)
  (body : rg_state R → SmbJournal → outcome) : SmbStore * res smb_error unit * list event :=
  if negb (ss_open s) then (s, Err (ErrStorage RevisionStore.ErrClosed), [])
  else if sv_ctx_nil e then (s, Err ErrInvalid, [])
  else match rg_load R (ss_engine s) (sv_load e) with
  | Err err => (s, Err (ErrStorage err), [])
  | Ok j =>
    if negb (expected =? sj_Revision j) then (s, Err ErrConflict, [])
    else if sj_Phase j == ReviewRequired then (s, Err ErrReviewOnly, [])
    else let '(st', r, ev) := body (ss_engine s) j in
         (mkSmbStore true (ss_backend s) st', r, ev)
  end.

(** Present, with the SID of the journal, and disabled or not. *)
Definition same_account (j : SmbJournal) (requireDisabled : bool) (o : Observation) : bool :=
  validateFor o (sj_Account j) requireDisabled && ob_Present o && (ob_SID o == sj_SID j).

Definition Smb_Step (s : SmbStore) (e : smb_env) (expected : Z) :
  SmbStore * res smb_error unit * list event :=
  opened s e expected (λ st j,
    if is_intent_phase (sj_Phase j) then Smb_review st (sv_review e) j
    else if sv_err_start e then (st, Err ErrContext, [])
    else if negb (ss_backend s) then (st, Err ErrInvalid, [])
    else match sv_observe_1 e with
    | None => (st, Err ErrObservation, [])
    | Some observed =>
      if sj_Phase j == Reserved then
        if negb (validateFor observed (sj_Account j) false) || ob_Present observed
        then Smb_review st (sv_review e) j
        else execute st e j CreateIntent CreateDisabled
               (λ after, validateFor after (sj_Account j) true && ob_Present after)
               DisabledNoPassword ob_SID
      else if sj_Phase j == DisabledNoPassword then
        if negb (same_account j true observed) then Smb_review st (sv_review e) j
        else (st, Err ErrPending, [])
      else if sj_Phase j == CredentialSetDisabled then
        if negb (same_account j true observed) then Smb_review st (sv_review e) j
        else (st, Ok tt, [])
      else (st, Err ErrInvalid, [])
    end).

Definition Smb_Enable (s : SmbStore) (e : smb_env) (expected : Z) :
  SmbStore * res smb_error unit * list event :=
  opened s e expected (λ st j,
    if sj_Phase j == EnableIntent then Smb_review st (sv_review e) j
    else if (sj_Phase j != CredentialSetDisabled) && (sj_Phase j != Disabled) then (st, Err ErrConflict, [])
    else if sv_err_start e then (st, Err ErrContext, [])
    else if negb (ss_backend s) then (st, Err ErrInvalid, [])
    else match sv_observe_1 e with
    | None => (st, Err ErrObservation, [])
    | Some observed =>
      if negb (same_account j false observed) || negb (ob_Disabled observed)
      then Smb_review st (sv_review e) j
      else if sv_err_observed e then (st, Err ErrContext, [])
      else execute st e j EnableIntent EnableCommand
             (λ after, same_account j false after && negb (ob_Disabled after)) Enabled (λ _, sj_SID j)
    end).

Definition Smb_Disable (s : SmbStore) (e : smb_env) (expected : Z) :
  SmbStore * res smb_error unit * list event :=
  opened s e expected (λ st j,
    if sj_Phase j == DisableIntent then Smb_review st (sv_review e) j
    else if sj_Phase j != Enabled then (st, Err ErrConflict, [])
    else if sv_err_start e then (st, Err ErrContext, [])
    else if negb (ss_backend s) then (st, Err ErrInvalid, [])
    else match sv_observe_1 e with
    | None => (st, Err ErrObservation, [])
    | Some observed =>
      if negb (same_account j false observed) || ob_Disabled observed
      then Smb_review st (sv_review e) j
      else if sv_err_observed e then (st, Err ErrContext, [])
      else execute st e j DisableIntent DisableCommand
             (λ after, same_account j true after && ob_Disabled after) Disabled (λ _, sj_SID j)
    end).

Definition Smb_SetPasswordDisabled (s : SmbStore) (e : smb_env) (expected : Z) (secret : string) :
  SmbStore * res smb_error unit * list event :=
  if ss_open s && negb (sv_ctx_nil e) && negb (ValidPassword secret) then (s, Err ErrInvalid, [])
  else opened s e expected (λ st j,
    if is_intent_phase (sj_Phase j) then Smb_review st (sv_review e) j
    else if (sj_Phase j != DisabledNoPassword) && (sj_Phase j != CredentialSetDisabled)
            && (sj_Phase j != Disabled) then (st, Err ErrConflict, [])
    else if sv_err_start e then (st, Err ErrContext, [])
    else if negb (ss_backend s) then (st, Err ErrInvalid, [])
    else match sv_observe_1 e with
    | None => (st, Err ErrObservation, [])
    | Some observed =>
      if negb (same_account j true observed) then Smb_review st (sv_review e) j
      else execute st e j PasswordIntent (SetPassword secret) (same_account j true)
             CredentialSetDisabled (λ _, sj_SID j)
    end).

Definition smb_begin_journal (nativeRevision : Z) (a : Account) : SmbJournal :=
  mkSmbJournal SmbFormat 1 1 nativeRevision a "" Reserved.

Definition Smb_Begin (s : SmbStore) (e : smb_env) (nativeRevision : Z) (a : Account) :
  SmbStore * res smb_error unit * list event :=
  if negb (ss_open s) then (s, Err (ErrStorage RevisionStore.ErrClosed), [])
  else if sv_ctx_nil e || negb (ss_backend s) || (nativeRevision =? 0) || negb (validAccount a)
  then (s, Err ErrInvalid, [])
  else if sv_err_start e then (s, Err ErrContext, [])
  else match sv_observe_1 e with
  | None => (s, Err ErrObservation, [])
  | Some observed =>
    if sv_err_observed e then (s, Err ErrContext, [])
    else if negb (validateFor observed a false) then (s, Err ErrObservation, [])
    else if ob_Present observed then (s, Err ErrReviewOnly, [])
    else
      let j := smb_begin_journal nativeRevision a in
      if negb (SmbJournal_Validate j) then (s, Err ErrInvalid, [])
      else let '(st', r, ev) := write (ss_engine s) (sv_commit_1 e) 0 j in
           (mkSmbStore true (ss_backend s) st', storage r, ev)
  end.

Definition Smb_RecoverInterrupted (s : SmbStore) (e : smb_env) :
  SmbStore * res smb_error SmbJournal * list event :=
  if negb (ss_open s) then (s, Err (ErrStorage RevisionStore.ErrClosed), [])
  else match rg_load R (ss_engine s) (sv_load e) with
  | Err err => (s, Err (ErrStorage err), [])
  | Ok j =>
    if negb (is_intent_phase (sj_Phase j)) then (s, Ok j, [])
    else
      let next := advance j ReviewRequired (sj_SID j) in
      let '(st', r, ev) := write (ss_engine s) (sv_commit_1 e) (sj_Revision j) next in
      (mkSmbStore true (ss_backend s) st',
       match r with Ok _ => Ok next | Err err => Err (ErrStorage err) end, ev)
  end.

Definition Smb_ObserveReview (s : SmbStore) (e : smb_env) : res smb_error Observation :=
  refuse negb (ss_open s) => ErrStorage RevisionStore.ErrClosed ;;
  refuse sv_ctx_nil e || sv_err_start e => ErrObservation ;;
  match rg_load R (ss_engine s) (sv_load e) with
  | Err _ => Err ErrObservation
  | Ok j =>
    refuse sj_Phase j != ReviewRequired => ErrConflict ;;
    refuse negb (ss_backend s) => ErrObservation ;;
    match sv_observe_1 e with
    | None => Err ErrObservation
    | Some observed =>
      refuse sv_err_observed e || negb (validateFor observed (sj_Account j) false) => ErrObservation ;;
      Ok observed
    end
  end.

End operations.

(** ** The requests and their plans *)

(** The four revision-checked methods. *)
Inductive request := RqStep | RqEnable | RqDisable | RqSetPassword (secret : string).

Definition Smb_do (R : Register SmbJournal) (s : SmbStore R) (e : smb_env R) (expected : Z) (rq : request) :
  SmbStore R * res smb_error unit * list event :=
  match rq with
  | RqStep => Smb_Step R s e expected
  | RqEnable => Smb_Enable R s e expected
  | RqDisable => Smb_Disable R s e expected
  | RqSetPassword secret => Smb_SetPasswordDisabled R s e expected secret
  end.

(** What a request may do in a phase: the observation it needs, the intent it
    records, the command, the observation that confirms it, the confirmed
    phase and SID. *)
Record plan := mkPlan {
  pl_before : Observation → bool; pl_intent : string; pl_command : command;
  pl_accept : Observation → bool; pl_confirmed : string; pl_sid : Observation → string }.

Definition plan_of (rq : request) (j : SmbJournal) : option plan :=
  match rq with
  | RqStep =>
    if sj_Phase j == Reserved
    then Some (mkPlan (λ o, validateFor o (sj_Account j) false && negb (ob_Present o)) CreateIntent CreateDisabled
                 (λ o, validateFor o (sj_Account j) true && ob_Present o) DisabledNoPassword ob_SID)
    else None
  | RqEnable =>
    if (sj_Phase j == CredentialSetDisabled) || (sj_Phase j == Disabled)
    then Some (mkPlan (λ o, same_account j false o && ob_Disabled o) EnableIntent EnableCommand
                 (λ o, same_account j false o && negb (ob_Disabled o)) Enabled (λ _, sj_SID j))
    else None
  | RqDisable =>
    if sj_Phase j == Enabled
    then Some (mkPlan (λ o, same_account j false o && negb (ob_Disabled o)) DisableIntent DisableCommand
                 (λ o, same_account j true o && ob_Disabled o) Disabled (λ _, sj_SID j))
    else None
  | RqSetPassword secret =>
    if (sj_Phase j == DisabledNoPassword) || (sj_Phase j == CredentialSetDisabled) || (sj_Phase j == Disabled)
    then Some (mkPlan (same_account j true) PasswordIntent (SetPassword secret)
                 (same_account j true) CredentialSetDisabled (λ _, sj_SID j))
    else None
  end.

Section requests.
Context (R : Register SmbJournal).

Definition run_plan st (e : smb_env R) (j : SmbJournal) (p : plan) : outcome R :=
  execute R st e j (pl_intent p) (pl_command p) (pl_accept p) (pl_confirmed p) (pl_sid p).

(** Every request either changes nothing, or quarantines the journal it loaded,
    or runs the plan of that journal's phase after the observation it needs. *)
Inductive request_outcome (s : SmbStore R) (e : smb_env R) (expected : Z) (rq : request) :
  SmbStore R * res smb_error unit * list event → Prop :=
| rq_silent r :
    (r = Ok tt → rq = RqStep ∧ ∃ j o, rg_load R (ss_engine R s) (sv_load R e) = Ok j
       ∧ sj_Phase j = CredentialSetDisabled ∧ sv_observe_1 R e = Some o ∧ same_account j true o = true) →
    request_outcome s e expected rq (s, r, [])
| rq_review j st' r ev :
    rg_load R (ss_engine R s) (sv_load R e) = Ok j → sj_Revision j = expected →
    sj_Phase j ≠ ReviewRequired →
    Smb_review R (ss_engine R s) (sv_review R e) j = (st', r, ev) →
    request_outcome s e expected rq (mkSmbStore R true (ss_backend R s) st', r, ev)
| rq_plan j p o st' r ev :
    rg_load R (ss_engine R s) (sv_load R e) = Ok j → sj_Revision j = expected →
    plan_of rq j = Some p → sv_observe_1 R e = Some o → pl_before p o = true →
    run_plan (ss_engine R s) e j p = (st', r, ev) →
    request_outcome s e expected rq (mkSmbStore R true (ss_backend R s) st', r, ev).

(** The entry checks, then the body. *)
Lemma opened_outcome s e expected rq body :
  (∀ j, ss_open R s = true → rg_load R (ss_engine R s) (sv_load R e) = Ok j → sj_Revision j = expected →
        sj_Phase j ≠ ReviewRequired →
        request_outcome s e expected rq
          (let '(st', r, ev) := body (ss_engine R s) j in (mkSmbStore R true (ss_backend R s) st', r, ev))) →
  request_outcome s e expected rq (opened R s e expected body).
Proof.
  intros Hb. unfold opened. destruct (ss_open R s) eqn:Ho; simpl; [|by apply rq_silent].
  destruct (sv_ctx_nil R e); [by apply rq_silent|].
  destruct (rg_load R (ss_engine R s) (sv_load R e)) as [j|] eqn:Hl; [|by apply rq_silent].
  destruct (negb (expected =? sj_Revision j)) eqn:He; [by apply rq_silent|]. go_bool.
  case_bool_decide as Hp; [by apply rq_silent|]. by apply Hb.
Qed.

Lemma silent_open s e expected rq r :
  ss_open R s = true → r ≠ Ok tt →
  request_outcome s e expected rq (mkSmbStore R true (ss_backend R s) (ss_engine R s), r, []).
Proof. intros Ho Hr. destruct s; simpl in *; subst. by apply rq_silent. Qed.

(** Close the branches that return early or quarantine. *)
Ltac request_branch :=
  first [ apply silent_open; [assumption|discriminate]
        | match goal with |- context [Smb_review R ?st ?f ?j] =>
            destruct (Smb_review R st f j) as [[? ?] ?] eqn:?; eapply rq_review; eassumption end ].

Lemma Smb_Step_outcome s e expected : request_outcome s e expected RqStep (Smb_Step R s e expected).
Proof.
  apply opened_outcome. intros j Ho Hl He Hp.
  destruct (is_intent_phase (sj_Phase j)); [request_branch|].
  destruct (sv_err_start R e); [request_branch|]. destruct (negb (ss_backend R s)); [request_branch|].
  destruct (sv_observe_1 R e) as [o|] eqn:Hobs; [|request_branch].
  case_bool_decide as HR.
  { destruct (_ || _) eqn:Hb; [request_branch|]. go_bool in Hb. destruct Hb as [Hv Hpr].
    destruct (execute _ _ _ _ _ _ _ _ _) as [[st' r] ev] eqn:Hx.
    eapply rq_plan; [done|done|simpl; by rewrite bool_decide_eq_true_2 by done|done| |exact Hx].
    simpl. by rewrite Hv, Hpr. }
  case_bool_decide as HD; [destruct (negb _); request_branch|].
  case_bool_decide as HC; [|request_branch].
  destruct (same_account j true o) eqn:Hs; simpl; [|request_branch].
  destruct s as [op b st]. simpl in *. subst op. apply rq_silent. intros _. split; [done|]. by exists j, o.
Qed.

Lemma Smb_Enable_outcome s e expected : request_outcome s e expected RqEnable (Smb_Enable R s e expected).
Proof.
  apply opened_outcome. intros j Ho Hl He Hp.
  destruct (sj_Phase j == EnableIntent); [request_branch|].
  destruct (_ && _) eqn:Hph; [request_branch|].
  destruct (sv_err_start R e); [request_branch|]. destruct (negb (ss_backend R s)); [request_branch|].
  destruct (sv_observe_1 R e) as [o|] eqn:Hobs; [|request_branch].
  destruct (_ || _) eqn:Hb; [request_branch|]. destruct (sv_err_observed R e); [request_branch|].
  destruct (execute _ _ _ _ _ _ _ _ _) as [[st' r] ev] eqn:Hx.
  apply orb_false_iff in Hb as [Hb1 Hb2]. apply negb_false_iff in Hb1, Hb2.
  eapply (rq_plan _ _ _ _ j (mkPlan _ _ _ _ _ _)); [done|done| |done| |exact Hx].
  - apply andb_false_iff in Hph as [Hph|Hph]; apply negb_false_iff in Hph; simpl;
      rewrite Hph, ?orb_true_r; reflexivity.
  - simpl. by rewrite Hb1, Hb2.
Qed.

Lemma Smb_Disable_outcome s e expected : request_outcome s e expected RqDisable (Smb_Disable R s e expected).
Proof.
  apply opened_outcome. intros j Ho Hl He Hp.
  destruct (sj_Phase j == DisableIntent); [request_branch|].
  destruct (sj_Phase j == Enabled) eqn:Hph; simpl; [|request_branch].
  destruct (sv_err_start R e); [request_branch|]. destruct (negb (ss_backend R s)); [request_branch|].
  destruct (sv_observe_1 R e) as [o|] eqn:Hobs; [|request_branch].
  destruct (_ || _) eqn:Hb; [request_branch|]. destruct (sv_err_observed R e); [request_branch|].
  destruct (execute _ _ _ _ _ _ _ _ _) as [[st' r] ev] eqn:Hx.
  apply orb_false_iff in Hb as [Hb1 Hb2]. apply negb_false_iff in Hb1.
  eapply rq_plan; [done|done|simpl; by rewrite Hph|done| |exact Hx]. simpl. by rewrite Hb1, Hb2.
Qed.

Lemma Smb_SetPassword_outcome s e expected secret :
  request_outcome s e expected (RqSetPassword secret) (Smb_SetPasswordDisabled R s e expected secret).
Proof.
  unfold Smb_SetPasswordDisabled. destruct (_ && _); [by apply rq_silent|].
  apply opened_outcome. intros j Ho Hl He Hp.
  destruct (is_intent_phase (sj_Phase j)); [request_branch|].
  destruct (_ && _) eqn:Hph; [request_branch|].
  destruct (sv_err_start R e); [request_branch|]. destruct (negb (ss_backend R s)); [request_branch|].
  destruct (sv_observe_1 R e) as [o|] eqn:Hobs; [|request_branch].
  destruct (negb (same_account j true o)) eqn:Hb; [request_branch|]. apply negb_false_iff in Hb.
  destruct (execute _ _ _ _ _ _ _ _ _) as [[st' r] ev] eqn:Hx.
  eapply (rq_plan _ _ _ _ j (mkPlan _ _ _ _ _ _)); [done|done| |done|exact Hb|exact Hx]. simpl.
  apply andb_false_iff in Hph as [[H|H]%andb_false_iff|H]; apply negb_false_iff in H;
    rewrite H, ?orb_true_r; done.
Qed.

Lemma Smb_do_outcome s e expected rq : request_outcome s e expected rq (Smb_do R s e expected rq).
Proof.
  destruct rq; [apply Smb_Step_outcome|apply Smb_Enable_outcome|apply Smb_Disable_outcome
    |apply Smb_SetPassword_outcome].
Qed.

End requests.

(** ** Soundness of the requests *)

(** What the decoder guarantees: a valid journal whose revision is a 64-bit
    number. *)
Definition smb_valid (j : SmbJournal) : bool := SmbJournal_Validate j && (sj_Revision j <=? max_uint64).

Lemma validPhase_pos ph r : validPhase ph r = true → 1 ≤ r.
Proof. unfold validPhase. go_bool. lia. Qed.

Lemma SmbJournal_Validate_parts j :
  SmbJournal_Validate j = true ↔
  validAccount (sj_Account j) = true ∧ sj_Format j = SmbFormat ∧ sj_SchemaVersion j = 1
  ∧ sj_NativeRevision j ≠ 0 ∧ validPhase (sj_Phase j) (sj_Revision j) = true
  ∧ validSIDField (sj_Phase j) (sj_Revision j) (sj_SID j) = true.
Proof.
  unfold SmbJournal_Validate. destruct (_ || _) eqn:H; go_bool.
  - split; [done|]. intros (Ha & ? & ? & ? & Hp%validPhase_pos & ?). rewrite Ha in H. simpl in H.
    exfalso. destruct H as [[[[?|?]|?]|?]|?]; try done; lia.
  - destruct H as [[[[Ha ?] ?] ?] ?]. tauto.
Qed.

Lemma smb_valid_range j : smb_valid j = true → 1 ≤ sj_Revision j ≤ max_uint64.
Proof.
  unfold smb_valid. go_bool. rewrite SmbJournal_Validate_parts.
  intros ((_ & _ & _ & _ & Hp%validPhase_pos & _) & ?). lia.
Qed.

Section sound.
Context (R : Register SmbJournal) `{Hspec : !RegisterSpec R sj_Revision smb_valid}.
Local Abbreviation keeps := (keeps R).

Definition quarantine (j : SmbJournal) : SmbJournal := advance j ReviewRequired (sj_SID j).

Lemma smb_write_sound st f j j' st' r ev :
  rg_inv st → smb_valid j = true → write R st f (sj_Revision j) j' = (st', r, ev) →
  keeps st st' ∧ ev = [Wrote j' r]
  ∧ (r = Ok tt → sj_Revision j' = sj_Revision j + 1 ∧ smb_valid j' = true
                 ∧ rg_floor (sj_Revision j') st' ∧ (∀ lf y, rg_load R st' lf = Ok y → y = j')
                 ∧ (∀ n, rg_floor n st → n ≤ sj_Revision j)).
Proof using Hspec.
  intros Hi Hv%smb_valid_range. unfold write.
  destruct (rg_commit R st f (sj_Revision j) j') as [s1 r1] eqn:Hc. intros [= <- <- <-]. split_and!; [|done|].
  - eapply commit_keeps; [done| |exact Hc]. lia.
  - intros ->. apply rg_commit_Ok in Hc; [|done|lia]. naive_solver.
Qed.

Lemma smb_review_sound st f j st' r ev :
  rg_inv st → smb_valid j = true → Smb_review R st f j = (st', r, ev) →
  keeps st st' ∧ r ≠ Ok tt ∧ ∃ res, ev = [Wrote (quarantine j) res].
Proof using Hspec.
  intros Hi Hv. unfold Smb_review.
  destruct (write R st f (sj_Revision j) (advance j ReviewRequired (sj_SID j))) as [[s1 r1] e1] eqn:Hw.
  apply smb_write_sound in Hw as (Hk & -> & _); [|done|done]. intros [= <- <- <-]. eauto.
Qed.

Definition intent_of (j : SmbJournal) (p : plan) : SmbJournal := advance j (pl_intent p) (sj_SID j).
Definition confirmed_of (j : SmbJournal) (p : plan) (o : Observation) : SmbJournal :=
  advance (intent_of j p) (pl_confirmed p) (pl_sid p o).

(** The traces of a plan. *)
Inductive plan_trace (j : SmbJournal) (p : plan) (after : option Observation) :
  res smb_error unit → list event → Prop :=
| pt_no_intent err r : r ≠ Ok tt → plan_trace j p after r [Wrote (intent_of j p) (Err err)]
| pt_cancelled res r : r ≠ Ok tt →
    plan_trace j p after r [Wrote (intent_of j p) (Ok tt); Wrote (quarantine (intent_of j p)) res]
| pt_unconfirmed res r : r ≠ Ok tt →
    plan_trace j p after r
      [Wrote (intent_of j p) (Ok tt); Ran (pl_command p) (sj_Account j); Wrote (quarantine (intent_of j p)) res]
| pt_confirmed o res : after = Some o → pl_accept p o = true →
    plan_trace j p after (storage res)
      [Wrote (intent_of j p) (Ok tt); Ran (pl_command p) (sj_Account j); Wrote (confirmed_of j p o) res].

Lemma run_plan_sound st e j p st' r ev :
  rg_inv st → smb_valid j = true → run_plan R st e j p = (st', r, ev) →
  keeps st st' ∧ plan_trace j p (sv_observe_2 R e) r ev
  ∧ ((1 < length ev)%nat → rg_floor (sj_Revision j + 1) st' ∧ sj_Revision (intent_of j p) = sj_Revision j + 1)
  ∧ (r = Ok tt → ∀ lf y, rg_load R st' lf = Ok y → ∃ o, sv_observe_2 R e = Some o ∧ y = confirmed_of j p o).
Proof using Hspec.
  intros Hi Hv. unfold run_plan, execute. fold (intent_of j p).
  destruct (write R st (sv_commit_1 R e) (sj_Revision j) (intent_of j p)) as [[s1 r1] e1] eqn:Hw.
  apply smb_write_sound in Hw as (Hk1 & -> & Hok1); [|done|done].
  destruct r1 as [[]|err]; [|intros [= <- <- <-]; split_and!; [done|by constructor|simpl; lia|done]].
  destruct (Hok1 eq_refl) as (Hrev & Hvi & Hfl & _ & _). rewrite Hrev in Hfl.
  destruct (Smb_review R s1 (sv_review R e) (intent_of j p)) as [[s2 r2] e2] eqn:HR.
  apply smb_review_sound in HR as (Hk2 & Hr2 & res & ->); [|apply Hk1|done].
  assert (Hfl2 : rg_floor (sj_Revision j + 1) s2) by (by apply Hk2).
  assert (Hkk : keeps st s2) by (by eapply keeps_trans).
  assert (Hrun : (s2, r2, [Wrote (intent_of j p) (Ok tt)] ++ Ran (pl_command p) (sj_Account j)
      :: [Wrote (quarantine (intent_of j p)) res]) = (st', r, ev) →
    keeps st st' ∧ plan_trace j p (sv_observe_2 R e) r ev
    ∧ ((1 < length ev)%nat → rg_floor (sj_Revision j + 1) st' ∧ sj_Revision (intent_of j p) = sj_Revision j + 1)
    ∧ (r = Ok tt → ∀ lf y, rg_load R st' lf = Ok y → ∃ o, sv_observe_2 R e = Some o ∧ y = confirmed_of j p o)).
  { intros [= <- <- <-]. split_and!; [done|by constructor|done|done]. }
  destruct (sv_err_intent R e); [intros [= <- <- <-]; split_and!; [done|by constructor|done|done]|].
  destruct (sv_command_fails R e || sv_err_command R e); [done|].
  destruct (sv_observe_2 R e) as [o|] eqn:Ho; [|done].
  destruct (pl_accept p o) eqn:Hacc; cbn [negb]; [|done]. clear Hrun.
  destruct (write R s1 _ _ _) as [[s4 r4] e4] eqn:Hw4.
  apply smb_write_sound in Hw4 as (Hk4 & -> & Hok4); [|apply Hk1|done].
  intros [= <- <- <-]. split_and!; [by apply (keeps_trans R st s1)|by econstructor| |].
  - intros _. split; [by apply Hk4|done].
  - intros Hs lf y Hy. destruct r4 as [[]|]; [|done]. destruct (Hok4 eq_refl) as (_ & _ & _ & Hl & _).
    exists o. split; [done|]. by eapply Hl.
Qed.

(** The commands in the trace of a call, whatever its shape, each with the record that the write before it left durable: a failed
    write, or a write that an earlier command has already used, leaves none. *)
Fixpoint commands (last : option SmbJournal) (ev : list event) : list (option SmbJournal * command * Account) :=
  match ev with
  | [] => []
  | Wrote j r :: ev' => commands (if is_ok r then Some j else None) ev'
  | Ran c a :: ev' => (last, c, a) :: commands None ev'
  end.
Definition history (evs : list (list event)) : list (option SmbJournal * command * Account) := evs ≫= commands None.
Definition issued (x : option SmbJournal * command * Account) : option Z := sj_Revision <$> x.1.1.
Definition intent_phase (c : command) : string :=
  match c with
  | CreateDisabled => CreateIntent
  | SetPassword _ => PasswordIntent
  | EnableCommand => EnableIntent
  | DisableCommand => DisableIntent
  end.
(** the command was announced: for this account and as what it is *)
Definition announced (x : option SmbJournal * command * Account) : Prop :=
  ∃ j, x.1.1 = Some j ∧ sj_Account j = x.2 ∧ sj_Phase j = intent_phase x.1.2.
Definition has_command (ev : list event) : bool :=
  existsb (λ x, match x with Ran _ _ => true | _ => false end) ev.

Lemma plan_phase rq j p : plan_of rq j = Some p → sj_Phase (intent_of j p) = intent_phase (pl_command p).
Proof. unfold plan_of. destruct rq; case_match; intros [= <-]; done. Qed.

Lemma Smb_do_sound s e expected rq s' r ev :
  rg_inv (ss_engine R s) → Smb_do R s e expected rq = (s', r, ev) →
  keeps (ss_engine R s) (ss_engine R s')
  ∧ (commands None ev = [] ∨ ∃ j c, commands None ev = [(Some j, c, sj_Account j)] ∧ sj_Phase j = intent_phase c
       ∧ rg_floor (sj_Revision j) (ss_engine R s') ∧ ∀ m, rg_floor m (ss_engine R s) → m < sj_Revision j).
Proof using Hspec.
  intros Hi H. pose proof (Smb_do_outcome R s e expected rq) as Ho. rewrite H in Ho.
  inversion Ho as [? Hr|j st' ? ? Hl He Hp Hrev|j p o st' ? ? Hl He Hpl Hobs Hb Hrun]; subst; simpl.
  - split; [by apply keeps_refl|]. by left.
  - pose proof (rg_load_valid _ _ _ Hi Hl) as Hv.
    apply smb_review_sound in Hrev as (Hk & _ & res & ->); [|done|done]. split; [done|].
    by left.
  - pose proof (rg_load_valid _ _ _ Hi Hl) as Hv.
    apply run_plan_sound in Hrun as (Hk & Ht & Hf & _); [|done|done]. split; [done|].
    assert (Hrun : (1 < length ev)%nat → commands None ev = [(Some (intent_of j p), pl_command p, sj_Account j)] → ∃ j c,
      commands None ev = [(Some j, c, sj_Account j)] ∧ sj_Phase j = intent_phase c
      ∧ rg_floor (sj_Revision j) st' ∧ ∀ m, rg_floor m (ss_engine R s) → m < sj_Revision j).
    { intros Hlen Hc. destruct (Hf Hlen) as [Hfl Hrev]. exists (intent_of j p), (pl_command p). rewrite Hrev.
      split_and!; [done|by eapply plan_phase|done|]. intros m Hm. pose proof (rg_load_floor _ _ _ _ Hi Hm Hl). lia. }
    destruct Ht; [by left|by left|right; apply Hrun; [simpl; lia|done]..].
Qed.

Lemma Smb_Begin_sound s e n a s' r ev :
  rg_inv (ss_engine R s) → Smb_Begin R s e n a = (s', r, ev) →
  keeps (ss_engine R s) (ss_engine R s') ∧ commands None ev = [].
Proof using Hspec.
  intros Hi. unfold Smb_Begin.
  destruct (negb (ss_open R s)); [intros [= <- <- <-]; by split; [apply keeps_refl|]|].
  destruct (_ || _); [intros [= <- <- <-]; by split; [apply keeps_refl|]|].
  destruct (sv_err_start R e); [intros [= <- <- <-]; by split; [apply keeps_refl|]|].
  destruct (sv_observe_1 R e) as [o|]; [|intros [= <- <- <-]; by split; [apply keeps_refl|]].
  destruct (sv_err_observed R e); [intros [= <- <- <-]; by split; [apply keeps_refl|]|].
  destruct (negb (validateFor o a false)); [intros [= <- <- <-]; by split; [apply keeps_refl|]|].
  destruct (ob_Present o); [intros [= <- <- <-]; by split; [apply keeps_refl|]|].
  destruct (negb (SmbJournal_Validate _)); [intros [= <- <- <-]; by split; [apply keeps_refl|]|].
  unfold write. destruct (rg_commit _ _ _ _ _) as [st1 r1] eqn:Hc. intros [= <- <- <-]. split; [|by destruct r1].
  eapply commit_keeps; [done| |exact Hc]. unfold max_uint64. lia.
Qed.

Lemma Smb_Recover_sound s e s' r ev :
  rg_inv (ss_engine R s) → Smb_RecoverInterrupted R s e = (s', r, ev) →
  keeps (ss_engine R s) (ss_engine R s') ∧ commands None ev = [].
Proof using Hspec.
  intros Hi. unfold Smb_RecoverInterrupted.
  destruct (negb (ss_open R s)); [intros [= <- <- <-]; by split; [apply keeps_refl|]|].
  destruct (rg_load R (ss_engine R s) (sv_load R e)) as [j|] eqn:Hl;
    [|intros [= <- <- <-]; by split; [apply keeps_refl|]].
  destruct (negb (is_intent_phase _)); [intros [= <- <- <-]; by split; [apply keeps_refl|]|].
  destruct (write _ _ _ _ _) as [[st1 r1] e1] eqn:Hw. intros [= <- <- <-].
  apply smb_write_sound in Hw as (Hk & -> & _); [split; [done|by destruct r1]|done|by eapply rg_load_valid].
Qed.

(** Executions: the trace keeps the events of each call apart. *)
Inductive smb_run : SmbStore R → list (list event) → SmbStore R → Prop :=
| smb_run_nil s : smb_run s [] s
| smb_run_begin s e n a s1 r ev evs s2 :
    Smb_Begin R s e n a = (s1, r, ev) → smb_run s1 evs s2 → smb_run s (ev :: evs) s2
| smb_run_request s e expected rq s1 r ev evs s2 :
    Smb_do R s e expected rq = (s1, r, ev) → smb_run s1 evs s2 → smb_run s (ev :: evs) s2
| smb_run_recover s e s1 r ev evs s2 :
    Smb_RecoverInterrupted R s e = (s1, r, ev) → smb_run s1 evs s2 → smb_run s (ev :: evs) s2
| smb_run_restart s st1 opn backend evs s2 :
    rg_restart R (ss_engine R s) st1 → smb_run (mkSmbStore R opn backend st1) evs s2 → smb_run s evs s2.

Lemma smb_run_issued s evs s' :
  smb_run s evs s' → rg_inv (ss_engine R s) →
  Forall announced (history evs) ∧ StronglySorted Z.lt (omap issued (history evs))
  ∧ ∀ n, rg_floor n (ss_engine R s) → Forall (λ r, n < r) (omap issued (history evs)).
Proof using Hspec.
  intros Hr. induction Hr as [s|s e n a s1 r ev evs s2 Hs Hr IH|s e x rq s1 r ev evs s2 Hs Hr IH
    |s e s1 r ev evs s2 Hs Hr IH|s st1 opn b evs s2 Hs Hr IH]; intros Hi.
  - split_and!; constructor.
  - apply Smb_Begin_sound in Hs as [[Hi1 Hk] Hn]; [|done]. cbn. rewrite Hn. destruct (IH Hi1) as (? & ? & HF). auto.
  - apply Smb_do_sound in Hs as [[Hi1 Hk] Hn]; [|done]. cbn. destruct (IH Hi1) as (HA & HS & HF).
    destruct Hn as [->|(j & c & -> & Hp & Hfl & Hlt)]; [auto|]. cbn. split_and!.
    + constructor; [by exists j|done].
    + constructor; [done|by apply HF].
    + intros n Hfn. constructor; [by apply Hlt|by apply HF, Hk].
  - apply Smb_Recover_sound in Hs as [[Hi1 Hk] Hn]; [|done]. cbn. rewrite Hn. destruct (IH Hi1) as (? & ? & HF). auto.
  - destruct (restart_keeps R _ _ Hi Hs) as [Hi1 Hk]. simpl in *. destruct (IH Hi1) as (? & ? & HF). auto.
Qed.

End sound.

(** ** Validity of the records *)
Lemma validPhase_iff ph r :
  validPhase ph r = true ↔
  (ph = Reserved ∧ r = 1) ∨ (ph = CreateIntent ∧ r = 2) ∨ (ph = DisabledNoPassword ∧ r = 3)
  ∨ (ph = PasswordIntent ∧ 4 ≤ r ∧ r mod 2 = 0) ∨ (ph = CredentialSetDisabled ∧ 5 ≤ r ∧ r mod 2 = 1)
  ∨ (ph = EnableIntent ∧ 6 ≤ r ∧ r mod 2 = 0) ∨ (ph = Enabled ∧ 7 ≤ r ∧ r mod 2 = 1)
  ∨ (ph = DisableIntent ∧ 8 ≤ r ∧ r mod 2 = 0) ∨ (ph = Disabled ∧ 9 ≤ r ∧ r mod 2 = 1)
  ∨ (ph = ReviewRequired ∧ 2 ≤ r).
Proof. unfold validPhase. go_bool. tauto. Qed.

Lemma sid_field_required ph r sid : sidRequired ph = true → validSIDField ph r sid = validSID sid.
Proof. intros H. unfold validSIDField. rewrite H. simpl. by destruct (validSID sid). Qed.

Lemma sid_field_absent ph r sid :
  sidRequired ph = false → ph ≠ ReviewRequired → validSIDField ph r sid = (sid == "").
Proof.
  intros H Hn. unfold validSIDField. rewrite H, (bool_decide_eq_false_2 _ Hn). simpl.
  rewrite andb_true_r, orb_false_r. by destruct (sid == "").
Qed.

Lemma sid_field_review r sid :
  validSIDField ReviewRequired r sid =
  if 4 <=? r then validSID sid else (sid == "") || ((r =? 3) && validSID sid).
Proof.
  unfold validSIDField. rewrite bool_decide_eq_true_2 by done.
  change (sidRequired ReviewRequired) with false. simpl.
  destruct (4 <=? r), (sid == ""), (r =? 3), (validSID sid); reflexivity.
Qed.

Lemma advance_valid j ph sid :
  SmbJournal_Validate j = true → sj_Revision j < max_uint64 →
  validPhase ph (sj_Revision j + 1) = true → validSIDField ph (sj_Revision j + 1) sid = true →
  SmbJournal_Validate (advance j ph sid) = true ∧ sj_Revision (advance j ph sid) = sj_Revision j + 1.
Proof.
  intros Hv Hr Hp Hs. pose proof (proj1 (SmbJournal_Validate_parts j) Hv) as (? & ? & ? & ? & Hp1%validPhase_pos & ?).
  assert (u64_add (sj_Revision j) 1 = sj_Revision j + 1) as He
    by (unfold u64_add, wrap, max_uint64 in *; apply Z.mod_small; lia).
  split; [|done]. apply SmbJournal_Validate_parts. simpl. rewrite He. done.
Qed.

(** Split a valid journal by phase, with its revision and its SID. *)
Ltac smb_phase_cases Hv :=
  let Hp := fresh "Hphase" in let Hs := fresh "Hsid" in
  pose proof (proj1 (SmbJournal_Validate_parts _) Hv) as (_ & _ & _ & _ & Hp & Hs);
  apply validPhase_iff in Hp;
  destruct Hp as [[Hp ?]|[[Hp ?]|[[Hp ?]|[[Hp [? ?]]|[[Hp [? ?]]|[[Hp [? ?]]|[[Hp [? ?]]|[[Hp [? ?]]|[[Hp [? ?]]|[Hp ?]]]]]]]]]];
  rewrite Hp in *;
  first [ rewrite sid_field_required in Hs by reflexivity
        | rewrite sid_field_absent in Hs by first [reflexivity|discriminate]
        | idtac ].
Ltac phase_goal := apply validPhase_iff; repeat first [left; split; [reflexivity|Z.div_mod_to_equations; lia] | right];
  try (split; [reflexivity|lia]).

Lemma quarantine_valid j :
  SmbJournal_Validate j = true → sj_Revision j < max_uint64 → sj_Phase j ≠ ReviewRequired →
  SmbJournal_Validate (quarantine j) = true ∧ sj_Revision (quarantine j) = sj_Revision j + 1.
Proof.
  intros Hv Hr Hn. pose proof (smb_valid_range j) as Hb. unfold smb_valid in Hb.
  assert (1 ≤ sj_Revision j) by (apply Hb; rewrite Hv; simpl; lia).
  apply advance_valid; [done|done|phase_goal|]. rewrite sid_field_review.
  smb_phase_cases Hv; [..|done];
    repeat match goal with |- context [4 <=? ?r] => destruct (Z.leb_spec 4 r) end;
    try lia; try done; by rewrite Hsid.
Qed.

Lemma validateFor_present o a b :
  validateFor o a b = true → ob_Present o = true →
  ob_Name o = acc_Name a ∧ ob_UID o = acc_UID a ∧ ob_GID o = acc_GID a ∧ validSID (ob_SID o) = true
  ∧ (b = true → ob_Disabled o = true).
Proof. unfold validateFor. intros H Hp. rewrite Hp in H. simpl in H. go_bool in H. naive_solver. Qed.

(** The phases a plan goes through fit the revision and the SID rule. *)
Lemma plan_fields rq j p :
  plan_of rq j = Some p → SmbJournal_Validate j = true →
  validPhase (pl_intent p) (sj_Revision j + 1) = true
  ∧ validSIDField (pl_intent p) (sj_Revision j + 1) (sj_SID j) = true
  ∧ pl_intent p ≠ ReviewRequired
  ∧ validPhase (pl_confirmed p) (sj_Revision j + 1 + 1) = true
  ∧ ∀ o, pl_accept p o = true → validSIDField (pl_confirmed p) (sj_Revision j + 1 + 1) (pl_sid p o) = true.
Proof.
  intros Hpl Hv.
  assert (Hreq : ∀ ph r sid, sidRequired ph = true → validSID sid = true → validSIDField ph r sid = true)
    by (intros; by rewrite sid_field_required).
  destruct rq; simpl in Hpl.
  - destruct (bool_decide _) eqn:Hph; simplify_eq; simpl; go_bool in Hph.
    smb_phase_cases Hv; try discriminate Hph.
    split_and!; [phase_goal|by rewrite sid_field_absent|done|phase_goal|].
    intros o [Ho1 Ho2]%andb_true_iff. apply Hreq; [done|]. by apply (validateFor_present _ _ _ Ho1 Ho2).
  - destruct (_ || _) eqn:Hph; simplify_eq; simpl; go_bool in Hph.
    smb_phase_cases Hv; try (destruct Hph as [Hph|Hph]; discriminate Hph);
      (split_and!; [phase_goal|by apply Hreq|done|phase_goal|intros o _; by apply Hreq]).
  - destruct (bool_decide _) eqn:Hph; simplify_eq; simpl; go_bool in Hph.
    smb_phase_cases Hv; try discriminate Hph.
    split_and!; [phase_goal|by apply Hreq|done|phase_goal|intros o _; by apply Hreq].
  - destruct (_ || _) eqn:Hph; simplify_eq; simpl; go_bool in Hph.
    smb_phase_cases Hv; try (destruct Hph as [[Hph|Hph]|Hph]; discriminate Hph);
      (split_and!; [phase_goal|by apply Hreq|done|phase_goal|intros o _; by apply Hreq]).
Qed.

Lemma plan_valid rq j p :
  plan_of rq j = Some p → SmbJournal_Validate j = true → sj_Revision j + 1 < max_uint64 →
  SmbJournal_Validate (intent_of j p) = true ∧ sj_Revision (intent_of j p) = sj_Revision j + 1
  ∧ sj_Phase (intent_of j p) ≠ ReviewRequired
  ∧ ∀ o, pl_accept p o = true → SmbJournal_Validate (confirmed_of j p o) = true.
Proof.
  intros Hpl Hv Hr. destruct (plan_fields _ _ _ Hpl Hv) as (H1 & H2 & H3 & H4 & H5).
  destruct (advance_valid j (pl_intent p) (sj_SID j)) as [Hvi Hri]; [done|lia|done..|].
  split_and!; [done|done|done|]. intros o Ho. apply advance_valid; unfold intent_of; [done|lia| |];
    rewrite Hri; auto.
Qed.

(** ** SIDs *)
Definition print_sid (a b c d : Z) : string :=
  join_with "-" ["S"; "1"; "5"; "21"; FormatUint a; FormatUint b; FormatUint c; FormatUint d].
Definition sub_authority (n : Z) : Prop := 1 ≤ n < 2 ^ 32.

Lemma sid_part_iff p : sid_part p = true ↔ ∃ n, sub_authority n ∧ p = FormatUint n.
Proof.
  unfold sid_part, sub_authority. split.
  - destruct (ParseUint 32 p) as [n|] eqn:Hp; [|done]. apply ParseUint_bounds in Hp. go_bool.
    intros [Hn <-]. exists n. split; [lia|done].
  - intros (n & Hn & ->). rewrite (ParseUint_FormatUint 32) by lia. go_bool. split; [lia|done].
Qed.

Lemma sid_parts_no_sep a b c d :
  sub_authority a → sub_authority b → sub_authority c → sub_authority d →
  Forall (no_sep "-") ["S"; "1"; "5"; "21"; FormatUint a; FormatUint b; FormatUint c; FormatUint d].
Proof.
  unfold sub_authority. intros. rewrite !Forall_cons, Forall_nil.
  assert (Hlit : Forall (no_sep "-") ["S"; "1"; "5"; "21"])
    by (unfold no_sep; repeat constructor; vm_compute; set_solver).
  rewrite !Forall_cons in Hlit. destruct Hlit as (? & ? & ? & ? & _).
  split_and!; try assumption; [apply FormatUint_no_sep; [lia|reflexivity]..|done].
Qed.

(** ** Properties *)

(** [validSID] accepts exactly the canonical spellings of domain account
    SIDs: [S-1-5-21] followed by four nonzero 32-bit numbers printed in decimal
    without sign or leading zeros. *)
Theorem validSID_exact s :
  validSID s = true ↔
  ∃ a b c d, sub_authority a ∧ sub_authority b ∧ sub_authority c ∧ sub_authority d
             ∧ s = print_sid a b c d.
Proof.
  unfold validSID, print_sid. split.
  - pose proof (join_split "-" s) as Hj. revert Hj.
    destruct (split_on "-" s) as [|p0 [|p1 [|p2 [|p3 [|p4 [|p5 [|p6 [|p7 [|]]]]]]]]]; try done.
    intros <-. simpl forallb. go_bool. rewrite !sid_part_iff.
    intros ((((-> & ->) & ->) & ->) & (a & ? & ->) & (b & ? & ->) & (c & ? & ->) & (d & ? & ->) & _).
    by exists a, b, c, d.
  - intros (a & b & c & d & Ha & Hb & Hc & Hd & ->). rewrite split_join by (done || by apply sid_parts_no_sep).
    simpl forallb. go_bool. rewrite !sid_part_iff. naive_solver.
Qed.

Section claims.
Context (R : Register SmbJournal) `{Hspec : !RegisterSpec R sj_Revision smb_valid}.

(** C3: no command is replayed. Along any interleaving of [Begin], the four
    requests, [RecoverInterrupted] and restarts, with any outcome of
    observations, commands, cancellations and storage: every command that is run
    follows, in the same call, a write that succeeded and left durable the intent of
    this command for this account; and these intents have strictly increasing
    revisions, so none is executed twice, in particular not after a crash. *)
Theorem smb_commands_fresh s evs s' : rg_inv (ss_engine R s) → smb_run R s evs s' →
  Forall announced (history evs) ∧ StronglySorted Z.lt (omap issued (history evs)).
Proof using Hspec. intros Hi Hr. destruct (smb_run_issued R s evs s' Hr Hi) as (? & ? & _). done. Qed.

(** Intent before command. A request that runs a command loaded a journal
    of the expected revision, in a phase for which the request has a plan,
    observed what the plan requires (the account absent, or present with the
    journal's SID and in the required state), durably committed the intent, ran
    exactly the plan's command on the journal's account, and then attempted
    exactly one more record: the confirmation when the second observation
    accepts it, a review record otherwise. *)
Theorem Smb_do_intent_first s e expected rq s' r ev :
  rg_inv (ss_engine R s) → Smb_do R s e expected rq = (s', r, ev) → has_command ev = true →
  ∃ j p o j' res, rg_load R (ss_engine R s) (sv_load R e) = Ok j ∧ sj_Revision j = expected
    ∧ plan_of rq j = Some p ∧ sv_observe_1 R e = Some o ∧ pl_before p o = true
    ∧ ev = [Wrote (intent_of j p) (Ok tt); Ran (pl_command p) (sj_Account j); Wrote j' res]
    ∧ sj_Revision (intent_of j p) = sj_Revision j + 1
    ∧ (j' = quarantine (intent_of j p)
       ∨ ∃ after, sv_observe_2 R e = Some after ∧ pl_accept p after = true ∧ j' = confirmed_of j p after).
Proof using Hspec.
  intros Hi H Hc. pose proof (Smb_do_outcome R s e expected rq) as Ho. rewrite H in Ho.
  inversion Ho as [? Hr|j st' ? ? Hl He Hp Hrev|j p o st' ? ? Hl He Hpl Hobs Hb Hrun]; subst; [done|..].
  - apply (smb_review_sound R) in Hrev as (_ & _ & res & ->); [done|done|by eapply rg_load_valid].
  - apply (run_plan_sound R) in Hrun as (_ & Ht & Hf & _); [|done|by eapply rg_load_valid].
    destruct Ht as [err r Hr|res r Hr|res r Hr|after res Ha Hacc]; try done;
      destruct (Hf ltac:(simpl; lia)) as [_ Hrev]; (eexists j, p, o, _, res; split_and!; try done);
      try exact Hrev; [by left|right; by exists after].
Qed.

(** Success is confirmed by observation. A request that returns without
    error is either a [Step] that found the credential set and observed the
    account present, disabled and with the journal's SID, or it committed the
    intent, ran its command, observed the account with the right name, numbers
    and SID in the state the command establishes (enabled only after an enabled
    observation, disabled otherwise), and committed the confirmation, which
    every later load returns. *)
Theorem Smb_do_success s e expected rq s' ev :
  rg_inv (ss_engine R s) → Smb_do R s e expected rq = (s', Ok tt, ev) →
  ∃ j o, rg_load R (ss_engine R s) (sv_load R e) = Ok j ∧ sv_observe_1 R e = Some o ∧
   ((rq = RqStep ∧ ev = [] ∧ sj_Phase j = CredentialSetDisabled ∧ same_account j true o = true)
    ∨ ∃ p after, plan_of rq j = Some p ∧ pl_before p o = true
        ∧ sv_observe_2 R e = Some after ∧ pl_accept p after = true
        ∧ ob_Present after = true ∧ ob_Name after = acc_Name (sj_Account j)
        ∧ ob_UID after = acc_UID (sj_Account j) ∧ ob_GID after = acc_GID (sj_Account j)
        ∧ ob_SID after = sj_SID (confirmed_of j p after)
        ∧ (ob_Disabled after = true ↔ sj_Phase (confirmed_of j p after) ≠ Enabled)
        ∧ ev = [Wrote (intent_of j p) (Ok tt); Ran (pl_command p) (sj_Account j);
                Wrote (confirmed_of j p after) (Ok tt)]
        ∧ ∀ lf y, rg_load R (ss_engine R s') lf = Ok y → y = confirmed_of j p after).
Proof using Hspec.
  intros Hi H. pose proof (Smb_do_outcome R s e expected rq) as Ho. rewrite H in Ho.
  inversion Ho as [? Hr|j st' ? ? Hl He Hp Hrev|j p o st' ? ? Hl He Hpl Hobs Hb Hrun]; subst.
  - destruct (Hr eq_refl) as (-> & j & o & ? & ? & ? & ?). exists j, o. split_and!; try done. by left.
  - by apply (smb_review_sound R) in Hrev as (_ & Hn & _); [|done|eapply rg_load_valid].
  - apply (run_plan_sound R) in Hrun as (_ & Ht & _ & Hload); [|done|by eapply rg_load_valid].
    inversion Ht as [| | |after res Ha Hacc Hst]; subst; try done. destruct res as [[]|]; [|done].
    exists j, o. split_and!; [done|done|]. right. exists p, after.
    assert (Hsame : ∀ b x, same_account j b x = true →
      validateFor x (sj_Account j) b = true ∧ ob_Present x = true ∧ ob_SID x = sj_SID j)
      by (intros b x; unfold same_account; go_bool; tauto).
    assert (Hobs2 : ∃ b, validateFor after (sj_Account j) b = true ∧ ob_Present after = true
      ∧ ob_SID after = pl_sid p after ∧ (ob_Disabled after = true ↔ pl_confirmed p ≠ Enabled)).
    { clear Ho Ht H Hload. destruct rq; simpl in Hpl;
        match type of Hpl with (if ?b then _ else _) = _ => destruct b end; simplify_eq; simpl in *.
      - apply andb_true_iff in Hacc as [Hv Hpr]. exists true. split_and!; try done.
        split; [discriminate|]. intros _. by apply (validateFor_present _ _ _ Hv Hpr).
      - apply andb_true_iff in Hacc as [(? & ? & ?)%Hsame Hd%negb_true_iff]. exists false.
        split_and!; try done. rewrite Hd. split; [discriminate|done].
      - apply andb_true_iff in Hacc as [(? & ? & ?)%Hsame Hd]. exists true. by split_and!.
      - apply Hsame in Hacc as (Hv & Hpr & ?). exists true. split_and!; try done.
        split; [discriminate|]. intros _. by apply (validateFor_present _ _ _ Hv Hpr). }
    destruct Hobs2 as (b & Hv & Hpr & Hsid & Hdis).
    destruct (validateFor_present _ _ _ Hv Hpr) as (? & ? & ? & _ & _).
    split_and!; try done; try (by apply Hdis).
    intros lf y Hy. destruct (Hload eq_refl lf y Hy) as (o2 & Ho2 & ->). congruence.
Qed.

(** Quarantine is final and always recordable. On a journal in review no
    request runs a command, writes a record or succeeds, and recovery returns it
    unchanged; and every record that a request attempts on a valid journal
    (intent, confirmation or review) is itself valid, so that validation never
    prevents a journal from being quarantined. *)
Theorem Smb_quarantine s e expected rq s' r ev j :
  rg_inv (ss_engine R s) → Smb_do R s e expected rq = (s', r, ev) →
  rg_load R (ss_engine R s) (sv_load R e) = Ok j →
  (sj_Phase j = ReviewRequired → s' = s ∧ ev = [] ∧ r ≠ Ok tt
     ∧ (ss_open R s = true → Smb_RecoverInterrupted R s e = (s, Ok j, [])))
  ∧ (sj_Revision j + 1 < max_uint64 → ∀ j' res, Wrote j' res ∈ ev → SmbJournal_Validate j' = true).
Proof using Hspec.
  intros Hi H Hl. pose proof (Smb_do_outcome R s e expected rq) as Ho. rewrite H in Ho.
  pose proof (rg_load_valid _ _ _ Hi Hl) as Hv.
  assert (Hv1 : SmbJournal_Validate j = true) by (unfold smb_valid in Hv; by apply andb_true_iff in Hv as [? _]).
  assert (Hrec : sj_Phase j = ReviewRequired → ss_open R s = true →
    Smb_RecoverInterrupted R s e = (s, Ok j, [])).
  { intros Hp Hopen. unfold Smb_RecoverInterrupted. rewrite Hopen, Hl, Hp. done. }
  inversion Ho as [? Hr|j0 st' ? ? Hl0 He Hp Hrev|j0 p o st' ? ? Hl0 He Hpl Hobs Hb Hrun]; subst.
  - split; [|set_solver]. intros Hp. split_and!; try done; [|by apply Hrec].
    intros Hok. destruct (Hr Hok) as (_ & j0 & o & Hl0 & Hp0 & _). rewrite Hl in Hl0. simplify_eq.
    rewrite Hp in Hp0. discriminate Hp0.
  - assert (j0 = j) as -> by congruence. split; [done|]. intros Hlt.
    apply (smb_review_sound R) in Hrev as (_ & _ & res0 & ->); [|done|done].
    intros j' res [= -> ->]%list_elem_of_singleton. apply quarantine_valid; [done|lia|done].
  - assert (j0 = j) as -> by congruence. split.
    { intros Hp. exfalso. destruct rq; simpl in Hpl; rewrite Hp in Hpl; discriminate Hpl. }
    intros Hlt. apply (run_plan_sound R) in Hrun as (_ & Ht & _ & _); [|done|done].
    destruct (plan_valid rq j p Hpl Hv1 Hlt) as (Hvi & Hri & Hpi & Hconf).
    assert (Hq : SmbJournal_Validate (quarantine (intent_of j p)) = true)
      by (apply quarantine_valid; [done|lia|done]).
    intros j' res Hin. clear -Hin Ht Hvi Hq Hconf.
    destruct Ht; repeat (apply elem_of_cons in Hin as [Hin|Hin]; [first [discriminate Hin | injection Hin as -> _]; auto|]);
      by apply elem_of_nil in Hin.
Qed.

End claims.

(** ** Witnesses *)
Lemma smb_rev_pos j : smb_valid j = true → 1 ≤ sj_Revision j.
Proof. intros H%smb_valid_range. lia. Qed.

Definition cell : Register SmbJournal := memory_register sj_Revision smb_valid.
Definition cell_spec : RegisterSpec cell sj_Revision smb_valid :=
  memory_spec sj_Revision smb_valid smb_rev_pos.

Definition example_sid : string := "S-1-5-21-10-20-30-1001".
Definition example_smb_account : Account := mkAccount "u1" "alice" 1001 1001 ServiceAccounts.Disabled.
Definition example_smb : SmbJournal :=
  mkSmbJournal SmbFormat 1 5 1 example_smb_account example_sid CredentialSetDisabled.
Definition seen (disabled : bool) : Observation := mkObservation true "alice" 1001 1001 example_sid disabled.
Definition enable_env : smb_env cell :=
  mkSmbEnv cell false tt false false false false (Some (seen true)) false (Some (seen false)) tt tt tt.
Definition example_store (j : SmbJournal) : SmbStore cell := mkSmbStore cell true true (Some j).
Definition enable_intent : SmbJournal := advance example_smb EnableIntent example_sid.
Definition enable_done : SmbJournal := advance enable_intent Enabled example_sid.
Definition enable_trace : list event :=
  [Wrote enable_intent (Ok tt); Ran EnableCommand example_smb_account; Wrote enable_done (Ok tt)].

Lemma example_enable :
  Smb_do cell (example_store example_smb) enable_env 5 RqEnable
  = (example_store enable_done, Ok tt, enable_trace).
Proof. vm_cast_no_check (@eq_refl (SmbStore cell * res smb_error unit * list event)
  (example_store enable_done, Ok tt, enable_trace)). Qed.

Lemma example_inv : rg_inv (RegisterSpec := cell_spec) (ss_engine cell (example_store example_smb)).
Proof. intros x [= <-]. vm_compute. reflexivity. Qed.

Lemma smb_commands_fresh_witness : history [enable_trace] = [(Some enable_intent, EnableCommand, example_smb_account)]
  ∧ Forall announced (history [enable_trace]) ∧ StronglySorted Z.lt (omap issued (history [enable_trace])).
Proof.
  split; [reflexivity|]. apply (smb_commands_fresh cell (Hspec := cell_spec) (example_store example_smb) [enable_trace]
    (example_store enable_done)).
  - exact example_inv.
  - eapply smb_run_request; [exact example_enable|constructor].
Defined.

Lemma Smb_do_intent_first_witness :
  ∃ j p, rg_load cell (ss_engine cell (example_store example_smb)) tt = Ok j ∧ plan_of RqEnable j = Some p
         ∧ sj_Revision (intent_of j p) = sj_Revision j + 1.
Proof.
  destruct (Smb_do_intent_first cell (Hspec := cell_spec) _ _ _ _ _ _ _ example_inv example_enable eq_refl)
    as (j & p & o & j' & res & Hl & _ & Hp & _ & _ & _ & Hi & _).
  exists j, p. split_and!; assumption.
Defined.

Lemma Smb_do_success_witness :
  ∃ j o, rg_load cell (ss_engine cell (example_store example_smb)) tt = Ok j ∧ Some (seen true) = Some o.
Proof.
  destruct (Smb_do_success cell (Hspec := cell_spec) _ _ _ _ _ _ example_inv example_enable)
    as (j & o & Hl & Ho & _).
  exists j, o. split; assumption.
Defined.

Lemma Smb_quarantine_witness : SmbJournal_Validate enable_intent = true.
Proof.
  apply (proj2 (Smb_quarantine cell (Hspec := cell_spec) _ _ _ _ _ _ _ example_smb example_inv
    example_enable eq_refl)) with (res := Ok tt).
  - vm_compute. reflexivity.
  - apply elem_of_cons. left. reflexivity.
Defined.

End SmbProvision.
