(* ===== verification/Base64.v ===== *)
(** * Unpadded base64: [base64.RawURLEncoding] and [base64.RawStdEncoding]

    The two alphabets differ in the characters of 62 and 63.  Decoding follows
    [encoding/base64]: line breaks are skipped, a lone final character is an
    error, and the unused low bits of a short final group are ignored. *)

From S2P Require Import Prelude GoStrings.

Module Base64.

Record alphabet := mkAlphabet { char62 : ascii; char63 : ascii }.
Definition RawStd : alphabet := mkAlphabet "+" "/".
Definition RawURL : alphabet := mkAlphabet "-" "_".

Definition ascii_of_Z (z : Z) : ascii := ascii_of_N (Z.to_N z).

Definition b64_char (A : alphabet) (v : Z) : ascii :=
  if v <? 26 then ascii_of_Z (65 + v)
  else if v <? 52 then ascii_of_Z (97 + (v - 26))
  else if v <? 62 then ascii_of_Z (48 + (v - 52))
  else if v =? 62 then char62 A else char63 A.

Definition b64_value (A : alphabet) (c : ascii) : option Z :=
  let n := code c in
  if is_upper n then Some (n - 65)
  else if is_lower n then Some (n - 97 + 26)
  else if is_digit n then Some (n - 48 + 52)
  else if c == char62 A then Some 62
  else if c == char63 A then Some 63
  else None.

(** Three bytes are four sextets. *)
Fixpoint sextets (bs : list Z) : list Z :=
  match bs with
  | [] => []
  | [a] => [a / 4; a mod 4 * 16]
  | [a; b] => [a / 4; a mod 4 * 16 + b / 16; b mod 16 * 4]
  | a :: b :: c :: t => a / 4 :: a mod 4 * 16 + b / 16 :: b mod 16 * 4 + c / 64 :: c mod 64 :: sextets t
  end.

Fixpoint unsextets (vs : list Z) : option (list Z) :=
  match vs with
  | [] => Some []
  | [_] => None
  | [a; b] => Some [a * 4 + b / 16]
  | [a; b; c] => Some [a * 4 + b / 16; b mod 16 * 16 + c / 4]
  | a :: b :: c :: d :: t =>
    rest ← unsextets t;
    Some (a * 4 + b / 16 :: b mod 16 * 16 + c / 4 :: c mod 4 * 64 + d :: rest)
  end.

Definition is_break (c : ascii) : bool := (c == "010"%char) || (c == "013"%char).

Definition EncodeToString (A : alphabet) (bs : list Z) : string :=
  String.string_of_list_ascii (b64_char A <$> sextets bs).

Definition DecodeString (A : alphabet) (s : string) : option (list Z) :=
  let cs := filter (λ c, is_break c = false) (String.list_ascii_of_string s) in
  vs ← mapM (b64_value A) cs;
  unsextets vs.

(** ** Round trip *)
Definition is_byte (b : Z) : Prop := 0 ≤ b < 256.
Definition is_sextet (v : Z) : Prop := 0 ≤ v < 64.

Lemma sextets_range n bs : (length bs ≤ n)%nat → Forall is_byte bs → Forall is_sextet (sextets bs).
Proof.
  revert bs. induction n as [|n IH]; intros bs Hn HF.
  - destruct bs; [constructor|simpl in Hn; lia].
  - unfold is_byte, is_sextet in *.
    destruct bs as [|a [|b [|c t]]]; [constructor|..]; rewrite ?Forall_cons in HF; split_hyps; simpl.
    + repeat constructor; Z.div_mod_to_equations; lia.
    + repeat constructor; Z.div_mod_to_equations; lia.
    + repeat (constructor; [Z.div_mod_to_equations; lia|]). apply IH; [simpl in Hn; lia|done].
Qed.

Lemma unsextets_sextets n bs :
  (length bs ≤ n)%nat → Forall is_byte bs → unsextets (sextets bs) = Some bs.
Proof.
  revert bs. induction n as [|n IH]; intros bs Hn HF.
  - destruct bs; [done|simpl in Hn; lia].
  - unfold is_byte in *. destruct bs as [|a [|b [|c t]]]; [done|..];
      rewrite ?Forall_cons in HF; split_hyps; simpl.
    + f_equal. f_equal. Z.div_mod_to_equations; lia.
    + f_equal. f_equal; [|f_equal]; Z.div_mod_to_equations; lia.
    + rewrite IH by (simpl in *; done || lia). simpl. f_equal.
      f_equal; [|f_equal; [|f_equal]]; Z.div_mod_to_equations; lia.
Qed.

Section alphabet.
Context (A : alphabet).
Hypothesis alphabet_ok : ∀ v, is_sextet v →
  b64_value A (b64_char A v) = Some v ∧ is_break (b64_char A v) = false.

Lemma DecodeString_EncodeToString bs :
  Forall is_byte bs → DecodeString A (EncodeToString A bs) = Some bs.
Proof using alphabet_ok.
  intros HF. unfold DecodeString, EncodeToString.
  rewrite String.list_ascii_of_string_of_list_ascii.
  pose proof (sextets_range _ _ (Nat.le_refl _) HF) as HS.
  pose proof (unsextets_sextets _ _ (Nat.le_refl _) HF) as HU.
  assert (filter (λ c, is_break c = false) (b64_char A <$> sextets bs) = b64_char A <$> sextets bs) as ->.
  { clear HU. induction HS as [|v l Hv HS IH]; [done|].
    rewrite fmap_cons, filter_cons, decide_True by (by apply alphabet_ok). by rewrite IH. }
  assert (mapM (b64_value A) (b64_char A <$> sextets bs) = Some (sextets bs)) as ->; [|done].
  clear HU. apply mapM_Some. induction HS as [|v l Hv HS IH]; [constructor|].
  rewrite fmap_cons. constructor; [by apply alphabet_ok|done].
Qed.
End alphabet.

Definition sextet_ok (A : alphabet) (v : Z) : bool :=
  bool_decide (b64_value A (b64_char A v) = Some v) && negb (is_break (b64_char A v)).

Lemma alphabet_computed A :
  forallb (sextet_ok A) (seqZ 0 64) = true →
  ∀ v, is_sextet v → b64_value A (b64_char A v) = Some v ∧ is_break (b64_char A v) = false.
Proof.
  intros H v Hv. rewrite forallb_forall in H. unfold is_sextet in Hv.
  assert (sextet_ok A v = true) as Hok by (apply H, list_elem_of_In, elem_of_seqZ; lia).
  unfold sextet_ok in Hok. go_bool in Hok. done.
Qed.

Lemma RawStd_roundtrip bs : Forall is_byte bs → DecodeString RawStd (EncodeToString RawStd bs) = Some bs.
Proof. apply DecodeString_EncodeToString, alphabet_computed. vm_compute. reflexivity. Qed.
Lemma RawURL_roundtrip bs : Forall is_byte bs → DecodeString RawURL (EncodeToString RawURL bs) = Some bs.
Proof. apply DecodeString_EncodeToString, alphabet_computed. vm_compute. reflexivity. Qed.

(** An encoding uses only characters of its alphabet. *)
Lemma EncodeToString_no_sep A sep bs :
  Forall is_byte bs → forallb (λ v, negb (bool_decide (b64_char A v = sep))) (seqZ 0 64) = true →
  no_sep sep (EncodeToString A bs).
Proof.
  intros HF Hall Hin. unfold EncodeToString, codes in Hin.
  rewrite String.list_ascii_of_string_of_list_ascii in Hin.
  apply list_elem_of_fmap in Hin as (c & Hc & Hin). apply code_inj in Hc as <-.
  apply list_elem_of_fmap in Hin as (v & -> & Hv).
  pose proof (sextets_range _ _ (Nat.le_refl _) HF) as HS. rewrite Forall_forall in HS.
  specialize (HS v Hv). rewrite forallb_forall in Hall. unfold is_sextet in HS.
  assert (In v (seqZ 0 64)) as Hs by (apply list_elem_of_In, elem_of_seqZ; lia).
  specialize (Hall v Hs). rewrite bool_decide_eq_true_2 in Hall by done. done.
Qed.

Lemma length_sextets n bs : (length bs ≤ n)%nat → (length (sextets bs) ≤ 2 * length bs)%nat.
Proof.
  revert bs. induction n as [|n IH]; intros bs Hn; [destruct bs; simpl in *; lia|].
  destruct bs as [|a [|b [|c t]]]; simpl in *; try lia. specialize (IH t ltac:(lia)). lia.
Qed.

Lemma slength_EncodeToString A bs : slength (EncodeToString A bs) ≤ 2 * len bs.
Proof.
  unfold slength, EncodeToString, len. pose proof (length_sextets _ bs (Nat.le_refl _)) as H.
  rewrite <- length_codes. unfold codes. rewrite String.list_ascii_of_string_of_list_ascii, !length_fmap. lia.
Qed.

End Base64.
