(* ===== verification/Password.v ===== *)
(** * Password verifiers: [passwordhash/]

    [parse] bounds the PHC string before any key derivation, [Hash] prints one,
    [Verify] recomputes the key.  The key derivation function and its version
    number come from golang.org/x/crypto/argon2 and are parameters; the
    admission to the process-wide derivation slot and the random salt are
    arguments of the calls. *)

From S2P Require Import Prelude GoStrings Base64.

Module PasswordHash.
Import Base64.

Definition defaultMemoryKiB : Z := 19456.
Definition defaultIterations : Z := 2.
Definition defaultThreads : Z := 1.
Definition keyLength : Z := 32.
Definition saltLength : Z := 16.
Definition maxPasswordLength : Z := 1024.
Definition maxPHCLength : Z := 256.
Definition maxMemoryKiB : Z := 65536.
Definition maxIterations : Z := 4.
Definition maxThreads : Z := 4.

Inductive error := ErrPassword | ErrVerifier | ErrRandom | ErrContext.

Record parameters := mkParameters {
  pw_memoryKiB : Z; pw_iterations : Z; pw_threads : Z; pw_salt : list Z; pw_key : list Z }.

(** [strings.TrimPrefix] *)
Fixpoint trim_prefix (p s : string) : string :=
  match p, s with
  | EmptyString, _ => s
  | String c p', String d s' => if c == d then trim_prefix p' s' else s
  | _, _ => s
  end.

Definition parseBoundedUint (field prefix : string) (bitSize : Z) : option Z :=
  if negb (has_prefix prefix field) then None
  else
    let valueText := trim_prefix prefix field in
    match ParseUint bitSize valueText with
    | None => None
    | Some value => if FormatUint value != valueText then None else Some value
    end.

Definition validatePassword (password : list Z) : res error unit :=
  refuse (len password =? 0) || (maxPasswordLength <? len password) => ErrPassword ;; Ok tt.

Section kdf.
(** [argon2.Version] and [argon2.IDKey(password, salt, time, memory, threads, keyLen)] *)
Context (argon2_Version : Z) (IDKey : list Z → list Z → Z → Z → Z → Z → list Z).

Definition version_part : string := String.append "v=" (FormatUint argon2_Version).

(** A bounded field of the parameter list, inside its limits. *)
Definition bounded (field prefix : string) (bits lo hi : Z) : option Z :=
  match parseBoundedUint field prefix bits with
  | Some v => if (v <? lo) || (hi <? v) then None else Some v
  | None => None
  end.

Definition parse (encoded : string) : res error parameters :=
  refuse (slength encoded =? 0) || (maxPHCLength <? slength encoded) => ErrVerifier ;;
  match split_on "$" encoded with
  | [p0; p1; p2; p3; p4; p5] =>
    refuse (p0 != "") || (p1 != "argon2id") || (p2 != version_part) => ErrVerifier ;;
    match split_on "," p3 with
    | [q0; q1; q2] =>
      match bounded q0 "m=" 32 defaultMemoryKiB maxMemoryKiB with None => Err ErrVerifier | Some memoryKiB =>
      match bounded q1 "t=" 32 defaultIterations maxIterations with None => Err ErrVerifier | Some iterations =>
      match bounded q2 "p=" 8 defaultThreads maxThreads with None => Err ErrVerifier | Some threads =>
      match DecodeString RawStd p4 with None => Err ErrVerifier | Some salt =>
      refuse (len salt <? saltLength) || (32 <? len salt) => ErrVerifier ;;
      match DecodeString RawStd p5 with None => Err ErrVerifier | Some key =>
      refuse negb (len key =? keyLength) => ErrVerifier ;;
      Ok (mkParameters memoryKiB iterations threads salt key)
      end end end end end
    | _ => Err ErrVerifier
    end
  | _ => Err ErrVerifier
  end.

Definition ValidateVerifier (encoded : string) : res error unit :=
  _ ← parse encoded; Ok tt.

Definition verifyParsed (password : list Z) (p : parameters) : bool :=
  IDKey password (pw_salt p) (pw_iterations p) (pw_memoryKiB p) (pw_threads p) keyLength == pw_key p.

(** [withKDFSlot]: [slot] is false when the context ends before the slot is
    free. *)
Definition withKDFSlot {A} (slot : bool) (work : res error A) : res error A :=
  if slot then work else Err ErrContext.

Definition Verify (slot : bool) (password : list Z) (encoded : string) : res error bool :=
  _ ← validatePassword password;
  p ← parse encoded;
  withKDFSlot slot (Ok (verifyParsed password p)).

Definition hashValidated (random : option (list Z)) (password : list Z) : res error string :=
  match random with
  | None => Err ErrRandom
  | Some salt =>
    let key := IDKey password salt defaultIterations defaultMemoryKiB defaultThreads keyLength in
    Ok (String.append "$argon2id$v=" (String.append (FormatUint argon2_Version)
       (String.append "$m=" (String.append (FormatUint defaultMemoryKiB)
       (String.append ",t=" (String.append (FormatUint defaultIterations)
       (String.append ",p=" (String.append (FormatUint defaultThreads)
       (String.append "$" (String.append (EncodeToString RawStd salt)
       (String.append "$" (EncodeToString RawStd key))))))))))))
  end.

Definition Hash (slot : bool) (random : option (list Z)) (password : list Z) : res error string :=
  _ ← validatePassword password;
  withKDFSlot slot (hashValidated random password).

(** ** Lemmas *)
Definition parameter_part : string := "m=19456,t=2,p=1".

Lemma hash_parts salt key :
  String.append "$argon2id$v=" (String.append (FormatUint argon2_Version)
    (String.append "$m=" (String.append (FormatUint defaultMemoryKiB)
    (String.append ",t=" (String.append (FormatUint defaultIterations)
    (String.append ",p=" (String.append (FormatUint defaultThreads)
    (String.append "$" (String.append salt (String.append "$" key))))))))))
  = join_with "$" [""; "argon2id"; version_part; parameter_part; salt; key].
Proof. reflexivity. Qed.

Lemma bounded_range field prefix bits lo hi v :
  bounded field prefix bits lo hi = Some v → lo ≤ v ≤ hi.
Proof.
  unfold bounded. destruct (parseBoundedUint _ _ _) as [w|]; [|done].
  destruct (_ || _) eqn:Hb; [done|]. intros [= <-]. go_bool in Hb. lia.
Qed.

(** What [parse] admits stays inside the policy. *)
Record within_policy (p : parameters) : Prop := {
  wp_memory : defaultMemoryKiB ≤ pw_memoryKiB p ≤ maxMemoryKiB;
  wp_iterations : defaultIterations ≤ pw_iterations p ≤ maxIterations;
  wp_threads : defaultThreads ≤ pw_threads p ≤ maxThreads;
  wp_salt : saltLength ≤ len (pw_salt p) ≤ 32;
  wp_key : len (pw_key p) = keyLength }.

Lemma parse_policy encoded p : parse encoded = Ok p → within_policy p.
Proof.
  unfold parse. intros [_ H]%refuse_Ok.
  destruct (split_on "$" encoded) as [|p0 [|p1 [|p2 [|p3 [|p4 [|p5 [|]]]]]]]; try done.
  apply refuse_Ok in H as [_ H]. destruct (split_on "," p3) as [|q0 [|q1 [|q2 [|]]]]; try done.
  destruct (bounded q0 _ _ _ _) as [m|] eqn:Hm; [|done]. destruct (bounded q1 _ _ _ _) as [t|] eqn:Ht; [|done].
  destruct (bounded q2 _ _ _ _) as [th|] eqn:Hth; [|done].
  destruct (DecodeString RawStd p4) as [salt|]; [|done]. apply refuse_Ok in H as [Hs H].
  destruct (DecodeString RawStd p5) as [key|]; [|done]. apply refuse_Ok in H as [Hk [= <-]].
  go_bool. split; simpl; try (by eapply bounded_range); lia.
Qed.

Lemma no_sep_append sep a b : no_sep sep a → no_sep sep b → no_sep sep (String.append a b).
Proof. unfold no_sep. rewrite codes_append, elem_of_app. tauto. Qed.

Lemma verifier_no_sep salt key :
  0 ≤ argon2_Version → Forall is_byte salt → Forall is_byte key →
  Forall (no_sep "$") [""; "argon2id"; version_part; parameter_part;
    EncodeToString RawStd salt; EncodeToString RawStd key].
Proof.
  intros Hv Hs Hk. rewrite !Forall_cons, Forall_nil.
  assert (Hlit : Forall (no_sep "$") [""; "argon2id"; "v="; parameter_part])
    by (unfold no_sep; repeat constructor; vm_compute; set_solver).
  rewrite !Forall_cons in Hlit. destruct Hlit as (? & ? & ? & ? & _).
  split_and!; try done; [|by apply EncodeToString_no_sep..].
  apply no_sep_append; [done|]. by apply FormatUint_no_sep.
Qed.

Lemma parse_hash salt key :
  0 ≤ argon2_Version → Forall is_byte salt → Forall is_byte key →
  saltLength ≤ len salt ≤ 32 → len key = keyLength →
  parse (join_with "$" [""; "argon2id"; version_part; parameter_part;
    EncodeToString RawStd salt; EncodeToString RawStd key])
  = Ok (mkParameters defaultMemoryKiB defaultIterations defaultThreads salt key).
Proof.
  intros Hv Hs Hk Hsl Hkl. unfold parse.
  rewrite split_join by (done || by apply verifier_no_sep).
  assert (Hlen : 0 < slength (join_with "$" [""; "argon2id"; version_part; parameter_part;
    EncodeToString RawStd salt; EncodeToString RawStd key]) ≤ maxPHCLength).
  { cbn [join_with]. unfold version_part, parameter_part.
    repeat (rewrite slength_append || rewrite slength_String).
    pose proof (slength_EncodeToString RawStd salt). pose proof (slength_EncodeToString RawStd key).
    pose proof (slength_format_digits 20 argon2_Version EmptyString) as Hf.
    fold (FormatUint argon2_Version) in Hf.
    pose proof (slength_nonneg (EncodeToString RawStd salt)). pose proof (slength_nonneg (EncodeToString RawStd key)).
    pose proof (slength_nonneg (FormatUint argon2_Version)).
    change (slength "") with 0 in *. change (slength "argon2id") with 8. change (slength "v=") with 2.
    change (slength "m=19456,t=2,p=1") with 15.
    unfold maxPHCLength, keyLength, saltLength in *. lia. }
  destruct (Z.eqb_spec (slength (join_with "$" [""; "argon2id"; version_part; parameter_part;
    EncodeToString RawStd salt; EncodeToString RawStd key])) 0) as [He|_]; [lia|].
  destruct (Z.ltb_spec maxPHCLength (slength (join_with "$" [""; "argon2id"; version_part; parameter_part;
    EncodeToString RawStd salt; EncodeToString RawStd key]))) as [He|_]; [lia|]. simpl orb. cbv iota.
  rewrite !bool_decide_eq_true_2 by done. simpl negb. cbv iota. simpl orb. cbv iota.
  change (split_on "," parameter_part) with ["m=19456"; "t=2"; "p=1"]. cbv iota.
  change (bounded "m=19456" "m=" 32 defaultMemoryKiB maxMemoryKiB) with (Some 19456).
  change (bounded "t=2" "t=" 32 defaultIterations maxIterations) with (Some 2).
  change (bounded "p=1" "p=" 8 defaultThreads maxThreads) with (Some 1). cbv iota.
  rewrite !RawStd_roundtrip by done.
  destruct (Z.ltb_spec (len salt) saltLength); [lia|]. destruct (Z.ltb_spec 32 (len salt)); [lia|].
  rewrite Hkl, Z.eqb_refl. done.
Qed.

(** The verifier [Hash] returns, against [ValidateVerifier] and [Verify]. *)
Lemma Hash_accepts salt password encoded :
  0 ≤ argon2_Version →
  (∀ p s, Forall is_byte (IDKey p s defaultIterations defaultMemoryKiB defaultThreads keyLength)
     ∧ len (IDKey p s defaultIterations defaultMemoryKiB defaultThreads keyLength) = keyLength) →
  Forall is_byte salt → len salt = saltLength →
  Hash true (Some salt) password = Ok encoded →
  ValidateVerifier encoded = Ok tt
  ∧ Verify true password encoded = Ok true
  ∧ ∀ other, 1 ≤ len other ≤ maxPasswordLength →
     Verify true other encoded =
     Ok (bool_decide (IDKey other salt defaultIterations defaultMemoryKiB defaultThreads keyLength
                      = IDKey password salt defaultIterations defaultMemoryKiB defaultThreads keyLength)).
Proof.
  intros Hv HK Hs Hsl H. unfold Hash in H. apply res_bind_Ok in H as ([] & Hpw & [= <-]).
  rewrite hash_parts. unfold ValidateVerifier, Verify. rewrite Hpw.
  destruct (HK password salt) as [Hkb Hkl].
  rewrite parse_hash by (done || (unfold saltLength in *; lia)). simpl.
  split_and!; [done| |].
  - unfold verifyParsed. simpl. by rewrite bool_decide_eq_true_2.
  - intros other Ho. unfold validatePassword. destruct (Z.eqb_spec (len other) 0); [lia|].
    destruct (Z.ltb_spec maxPasswordLength (len other)); [lia|]. simpl. done.
Qed.

End kdf.

(** ** Properties *)

(** Hashing and verifying agree. With a key derivation function that
    returns 32 bytes, [Hash] of a password of 1 to 1024 bytes with a 16-byte
    salt returns a verifier that [ValidateVerifier] accepts, that [Verify]
    accepts for the same password, and that [Verify] accepts for another
    password of admissible length exactly when the derived keys coincide. *)
Theorem Hash_Verify (argon2_Version : Z) (IDKey : list Z → list Z → Z → Z → Z → Z → list Z)
  salt password other encoded :
  0 ≤ argon2_Version →
  (∀ p s, Forall is_byte (IDKey p s defaultIterations defaultMemoryKiB defaultThreads keyLength)
     ∧ len (IDKey p s defaultIterations defaultMemoryKiB defaultThreads keyLength) = keyLength) →
  Forall is_byte salt → len salt = saltLength →
  Hash argon2_Version IDKey true (Some salt) password = Ok encoded →
  ValidateVerifier argon2_Version encoded = Ok tt
  ∧ Verify argon2_Version IDKey true password encoded = Ok true
  ∧ (1 ≤ len other ≤ maxPasswordLength →
     Verify argon2_Version IDKey true other encoded =
     Ok (bool_decide (IDKey other salt defaultIterations defaultMemoryKiB defaultThreads keyLength
                      = IDKey password salt defaultIterations defaultMemoryKiB defaultThreads keyLength))).
Proof.
  intros Hv HK Hs Hsl H.
  destruct (Hash_accepts argon2_Version IDKey salt password encoded Hv HK Hs Hsl H) as (? & ? & ?). auto.
Qed.

Definition toy_key (p s : list Z) (t m th k : Z) : list Z := replicate 32 (foldr Z.add 0 p mod 256).
Definition toy_verifier : string :=
  "$argon2id$v=19$m=19456,t=2,p=1$AAAAAAAAAAAAAAAAAAAAAA$BgYGBgYGBgYGBgYGBgYGBgYGBgYGBgYGBgYGBgYGBgY".

Lemma Hash_Verify_witness :
  Verify 19 toy_key true [1; 2; 3] toy_verifier = Ok true
  ∧ Verify 19 toy_key true [1; 2; 4] toy_verifier = Ok false.
Proof.
  destruct (Hash_Verify 19 toy_key (replicate 16 0) [1; 2; 3] [1; 2; 4] toy_verifier)
    as (_ & Hok & Hno).
  - lia.
  - intros p s. unfold toy_key. split; [|done]. apply Forall_replicate. unfold is_byte.
    apply Z.mod_pos_bound. lia.
  - apply Forall_replicate. unfold is_byte. lia.
  - reflexivity.
  - vm_compute. reflexivity.
  - split; [exact Hok|]. rewrite Hno by (vm_compute; split; discriminate). vm_compute. reflexivity.
Defined.

(** A verifier that is admitted stays inside the resource policy: memory,
    iterations and threads between the defaults and the maxima, a salt of 16 to
    32 bytes and a key of 32 bytes; every other string is refused before any
    key derivation, whatever the password. *)
Theorem Verify_bounded (argon2_Version : Z) (IDKey : list Z → list Z → Z → Z → Z → Z → list Z)
  slot password encoded :
  match parse argon2_Version encoded with
  | Ok p => within_policy p
  | Err _ => ∀ b, Verify argon2_Version IDKey slot password encoded ≠ Ok b
  end.
Proof.
  destruct (parse argon2_Version encoded) as [p|e] eqn:Hp; [by eapply parse_policy|].
  intros b. unfold Verify. destruct (validatePassword password); [|done]. simpl. by rewrite Hp.
Qed.

End PasswordHash.
