(* ===== verification/Sessions.v ===== *)
(** * Panel sessions: [auth_session.go]

    Sessions live in memory, keyed by the digest of a random token.  The digest
    function (SHA-256) is a parameter; random bytes and the clock are arguments.
    An epoch is an opaque generation: the model numbers the generations, which
    is what pointer identity to a live object gives the code. *)

From S2P Require Import Prelude GoStrings Base64.

Module PanelSessions.
Import Base64.

Record authSession := mkAuthSession { as_csrf : string; as_expiresAt : Z }.
#[export] Instance authSession_eq_dec : EqDecision authSession. Proof. solve_decision. Defined.

(** nanoseconds *)
Definition sessionLifetime : Z := 30 * 60 * 1000000000.
Definition maximumSessions : Z := 8.

Inductive session_error :=
| ErrRandom | ErrSessionCapacity | ErrSessionRevoked | ErrSessionMissing | ErrSessionCSRF.
#[export] Instance session_error_eq_dec : EqDecision session_error. Proof. solve_decision. Defined.

Section sessions.
Context `{Countable digest} (sha256 : list Z → digest).

Record sessionStore := mkSessionStore {
  ses_sessions : gmap digest authSession; ses_epoch : Z }.

Definition newSessionStore (epoch : Z) : sessionStore := mkSessionStore ∅ epoch.

Definition currentEpoch (s : sessionStore) : Z := ses_epoch s.

(** [!now.Before(t)] *)
Definition expired (now : Z) (session : authSession) : bool := negb (now <? as_expiresAt session).

(** An expected epoch of [None] is the nil pointer. *)
Definition createForEpoch (s : sessionStore) (random : option (list Z) * option (list Z)) (now : Z)
  (expected : option Z) : sessionStore * res session_error (string * authSession) :=
  match random with
  | (Some tokenBytes, Some csrfBytes) =>
    let token := EncodeToString RawURL tokenBytes in
    let session := mkAuthSession (EncodeToString RawURL csrfBytes) (now + sessionLifetime) in
    let key := sha256 tokenBytes in
    if expected != Some (ses_epoch s) then (s, Err ErrSessionRevoked)
    else
      let live := filter (λ kv, expired now kv.2 = false) (ses_sessions s) in
      let s' := mkSessionStore live (ses_epoch s) in
      if maximumSessions <=? Z.of_nat (size live) then (s', Err ErrSessionCapacity)
      else (mkSessionStore (<[key := session]> live) (ses_epoch s), Ok (token, session))
  | _ => (s, Err ErrRandom)
  end.

Definition session_create (s : sessionStore) random now := createForEpoch s random now (Some (currentEpoch s)).

(** The key of a presented token. *)
Definition token_key (token : string) : option digest :=
  match DecodeString RawURL token with
  | Some tokenBytes => if len tokenBytes =? 32 then Some (sha256 tokenBytes) else None
  | None => None
  end.

Definition find (s : sessionStore) (token : string) (now : Z) : sessionStore * option authSession :=
  match token_key token with
  | None => (s, None)
  | Some key =>
    match ses_sessions s !! key with
    | None => (s, None)
    | Some session =>
      if expired now session then (mkSessionStore (delete key (ses_sessions s)) (ses_epoch s), None)
      else (s, Some session)
    end
  end.

Definition revoke (s : sessionStore) (token : string) : sessionStore :=
  match token_key token with
  | None => s
  | Some key => mkSessionStore (delete key (ses_sessions s)) (ses_epoch s)
  end.

(** [subtle.ConstantTimeCompare] on equal lengths is equality. *)
Definition validCSRF (session : authSession) (supplied : string) : bool :=
  if negb (slength supplied =? slength (as_csrf session)) then false
  else as_csrf session == supplied.

Definition revokeAll (s : sessionStore) (token csrf : string) (now : Z) :
  sessionStore * res session_error unit :=
  match token_key token with
  | None => (s, Err ErrSessionMissing)
  | Some key =>
    match ses_sessions s !! key with
    | None => (s, Err ErrSessionMissing)
    | Some current =>
      if expired now current then (s, Err ErrSessionMissing)
      else if negb (validCSRF current csrf) then (s, Err ErrSessionCSRF)
      else (mkSessionStore ∅ (ses_epoch s + 1), Ok tt)
    end
  end.

(** ** Evolution of the store *)
Inductive session_step : sessionStore → sessionStore → Prop :=
| step_create_session s random now expected : session_step s (createForEpoch s random now expected).1
| step_find s token now : session_step s (find s token now).1
| step_revoke s token : session_step s (revoke s token)
| step_revoke_all s token csrf now : session_step s (revokeAll s token csrf now).1.

Record session_inv (s : sessionStore) : Prop := {
  si_capacity : Z.of_nat (size (ses_sessions s)) ≤ maximumSessions }.

(** *** Lemmas *)
Lemma validCSRF_eq session supplied : validCSRF session supplied = true ↔ supplied = as_csrf session.
Proof.
  unfold validCSRF. destruct (Z.eqb_spec (slength supplied) (slength (as_csrf session))) as [He|He]; simpl; go_bool.
  - done.
  - split; [done|]. by intros ->.
Qed.

Lemma expired_false now session : expired now session = false ↔ now < as_expiresAt session.
Proof. unfold expired. go_bool. done. Qed.

Lemma size_delete_le (m : gmap digest authSession) k : (size (delete k m) ≤ size m)%nat.
Proof. rewrite map_size_delete. case_match; simpl; lia. Qed.

Lemma size_filter_le (P : digest * authSession → Prop) `{!∀ x, Decision (P x)} (m : gmap digest authSession) :
  (size (filter P m) ≤ size m)%nat.
Proof. rewrite <- !size_dom. apply subseteq_size, dom_filter_subseteq. Qed.

Lemma createForEpoch_epoch s random now expected : ses_epoch (createForEpoch s random now expected).1 = ses_epoch s.
Proof. unfold createForEpoch. destruct random as [[t|] [c|]]; try done. by repeat case_match. Qed.

Lemma session_step_epoch s s' : session_step s s' → ses_epoch s ≤ ses_epoch s'.
Proof.
  intros []; [by rewrite createForEpoch_epoch|..]; unfold find, revoke, revokeAll;
    repeat case_match; simpl; lia.
Qed.

Lemma session_reach_epoch s s' : rtc session_step s s' → ses_epoch s ≤ ses_epoch s'.
Proof. induction 1 as [|s1 s2 s3 H1%session_step_epoch]; lia. Qed.

Lemma createForEpoch_inv s random now expected :
  session_inv s → session_inv (createForEpoch s random now expected).1.
Proof.
  intros [Hc]. unfold createForEpoch. destruct random as [[t|] [c|]]; try done.
  destruct (_ != _); [done|]. set (live := filter _ _). cbv zeta.
  assert (size live ≤ size (ses_sessions s))%nat by apply size_filter_le.
  destruct (Z.leb_spec maximumSessions (Z.of_nat (size live))); split; simpl; [lia|].
  rewrite map_size_insert. case_match; simpl; lia.
Qed.

Lemma session_step_inv s s' : session_step s s' → session_inv s → session_inv s'.
Proof.
  intros Hs Hi. destruct Hs.
  - by apply createForEpoch_inv.
  - destruct Hi as [Hc]. split. unfold find. repeat case_match; simpl; try done.
    pose proof (size_delete_le (ses_sessions s) d). lia.
  - destruct Hi as [Hc]. split. unfold revoke. case_match; simpl; [|done].
    pose proof (size_delete_le (ses_sessions s) d). lia.
  - destruct Hi as [Hc]. split. unfold revokeAll. repeat case_match; simpl; done.

Qed.

Lemma token_key_encoded bs :
  Forall is_byte bs → len bs = 32 → token_key (EncodeToString RawURL bs) = Some (sha256 bs).
Proof. intros HF HL. unfold token_key. rewrite RawURL_roundtrip by done. by rewrite HL. Qed.

End sessions.

Arguments sessionStore digest {_ _}.

(** ** Properties *)

(** A session that [createForEpoch] issues can be found with its token, with
    the same CSRF value, from its creation and for exactly thirty minutes;
    presented later it is refused and removed; and it cannot be found any more
    after [revoke] of its token. *)
Theorem session_lifetime `{Countable digest} (sha256 : list Z → digest) s tokenBytes csrfBytes now expected s' token session at_ :
  Forall is_byte tokenBytes → len tokenBytes = 32 →
  createForEpoch sha256 s (Some tokenBytes, Some csrfBytes) now expected = (s', Ok (token, session)) →
  (at_ < now + sessionLifetime → find sha256 s' token at_ = (s', Some session))
  ∧ (now + sessionLifetime ≤ at_ →
      (find sha256 s' token at_).2 = None
      ∧ ses_sessions (find sha256 s' token at_).1 !! sha256 tokenBytes = None)
  ∧ (find sha256 (revoke sha256 s' token) token at_).2 = None.
Proof.
  intros HF HL Hc. unfold createForEpoch in Hc.
  destruct (_ != _); [done|]. cbv zeta in Hc. destruct (_ <=? _); [done|]. simplify_eq.
  unfold find, revoke. rewrite token_key_encoded by done. simpl.
  rewrite lookup_insert_eq, lookup_delete_eq. split_and!; [| |done].
  - intros Hlt. assert (expired at_ (mkAuthSession (EncodeToString RawURL csrfBytes) (now + sessionLifetime)) = false)
      as -> by (by apply expired_false). done.
  - intros Hge. destruct (expired at_ _) eqn:He; [|apply expired_false in He; simpl in He; lia].
    simpl. by rewrite lookup_delete_eq.
Qed.

Definition toy_digest (bs : list Z) : Z := foldr (λ b acc, b + 256 * acc) 0 bs.
Definition toy_token : list Z := seqZ 1 32.
Definition toy_created : sessionStore Z :=
  (createForEpoch toy_digest (newSessionStore 7) (Some toy_token, Some toy_token) 100 (Some 7)).1.
Definition toy_session : authSession := mkAuthSession (EncodeToString RawURL toy_token) (100 + sessionLifetime).

Lemma session_lifetime_witness :
  find toy_digest toy_created (EncodeToString RawURL toy_token) 5000 = (toy_created, Some toy_session)
  ∧ (find toy_digest toy_created (EncodeToString RawURL toy_token) (100 + sessionLifetime)).2 = None.
Proof.
  destruct (session_lifetime toy_digest (newSessionStore 7) toy_token toy_token 100 (Some 7) toy_created
    (EncodeToString RawURL toy_token) toy_session 5000) as (Hf & _ & _).
  - apply Forall_forall. intros b Hb%elem_of_seqZ. unfold is_byte. lia.
  - reflexivity.
  - reflexivity.
  - split.
    + apply Hf. vm_compute. reflexivity.
    + vm_compute. reflexivity.
Defined.

(** A global revocation is final for every authorisation that preceded it.
    [revokeAll] succeeds only for a live session with its exact CSRF value; the
    store is then empty, and in every later state an issuance that captured its
    epoch before the revocation is refused and changes nothing, so no session
    authorised earlier ever becomes usable. *)
Theorem revokeAll_final `{Countable digest} (sha256 : list Z → digest) s token csrf now s' :
  revokeAll sha256 s token csrf now = (s', Ok tt) →
  (∃ key session, token_key sha256 token = Some key ∧ ses_sessions s !! key = Some session
     ∧ now < as_expiresAt session ∧ csrf = as_csrf session)
  ∧ ses_sessions s' = ∅
  ∧ ∀ s'' captured random at_, rtc (session_step sha256) s' s'' → captured ≤ ses_epoch s →
      ∃ e, createForEpoch sha256 s'' random at_ (Some captured) = (s'', Err e)
           ∧ (e = ErrSessionRevoked ∨ e = ErrRandom).
Proof.
  unfold revokeAll. intros Hr. destruct (token_key sha256 token) as [key|] eqn:Hk; [|done].
  destruct (ses_sessions s !! key) as [session|] eqn:Hl; [|done].
  destruct (expired now session) eqn:He; [done|]. destruct (validCSRF session csrf) eqn:Hc; [|done].
  simplify_eq/=. split_and!; [|done|].
  - exists key, session. apply expired_false in He. apply validCSRF_eq in Hc. done.
  - intros s'' captured random at_ Hreach Hcap. apply session_reach_epoch in Hreach. simpl in Hreach.
    unfold createForEpoch. destruct random as [[t|] [c|]]; eauto.
    rewrite bool_decide_eq_false_2 by (intros [= Heq]; lia). eauto.
Qed.

Lemma revokeAll_final_witness :
  ∃ e, createForEpoch toy_digest
         (revokeAll toy_digest toy_created (EncodeToString RawURL toy_token) (as_csrf toy_session) 200).1
         (Some toy_token, Some toy_token) 300 (Some 7)
       = ((revokeAll toy_digest toy_created (EncodeToString RawURL toy_token) (as_csrf toy_session) 200).1, Err e)
       ∧ (e = ErrSessionRevoked ∨ e = ErrRandom).
Proof.
  apply (revokeAll_final toy_digest toy_created (EncodeToString RawURL toy_token) (as_csrf toy_session) 200
    (mkSessionStore ∅ 8)).
  - vm_compute. reflexivity.
  - apply rtc_refl.
  - vm_compute. discriminate.
Defined.

(** The store never holds more than eight sessions, whatever sequence of
    creations, lookups, revocations and global revocations it goes through. *)
Theorem session_capacity `{Countable digest} (sha256 : list Z → digest) epoch s :
  rtc (session_step sha256) (newSessionStore epoch) s → Z.of_nat (size (ses_sessions s)) ≤ 8.
Proof.
  intros Hr. assert (session_inv s) as [Hc]; [|done].
  assert (Hi : session_inv (newSessionStore (H := H) epoch)).
  { split. simpl. rewrite map_size_empty. unfold maximumSessions. lia. }
  revert Hi. induction Hr as [|s1 s2 s3 Hs Hr IH]; [done|]. intros Hi. apply IH. by eapply session_step_inv.
Qed.

Lemma session_capacity_witness : Z.of_nat (size (ses_sessions toy_created)) ≤ 8.
Proof.
  apply (session_capacity toy_digest 7 toy_created). apply rtc_once. apply (step_create_session toy_digest).
Defined.

End PanelSessions.
