(* ===== verification/Panel.v ===== *)
(** * Panel authentication: [admincredentials/], [account_store.go],
      [auth_controller.go], [auth_password.go]

    The administrator's document lives in a durable register; [accountStore]
    guards it with a sticky failure, the controller combines it with the session
    store.  The store's methods release their lock during key derivation: each
    such method is modelled as its locked sections ([authenticate_load],
    [authenticate_recheck], [changePassword_load], [changePassword_commit]) and
    as their composition; [panel_step] lets any number of requests interleave
    between the locked sections. *)

From S2P Require Import Prelude GoStrings Base64 Password Sessions Store Register.

Module PanelAuth.
Import PanelSessions.

(** ** The credential document *)
Record Document := mkDocument {
  doc_Version : Z; doc_Revision : Z; doc_Username : string; doc_PasswordHash : string }.
#[export] Instance Document_eq_dec : EqDecision Document. Proof. solve_decision. Defined.

Definition username_char (c : Z) : bool :=
  is_lower c || is_upper c || is_digit c || in_set c "._-".
Definition ValidUsername (name : string) : bool :=
  if (slength name =? 0) || (32 <? slength name) then false else forallb username_char (runes name).

Definition minimumPasswordRunes : Z := 15.
Definition validSetupPassword (password : string) : bool :=
  utf8_valid password && (slength password <=? PasswordHash.maxPasswordLength)
  && (minimumPasswordRunes <=? rune_count password).

Lemma validSetupPassword_length password :
  validSetupPassword password = true → 1 ≤ len (codes password) ≤ PasswordHash.maxPasswordLength.
Proof.
  unfold validSetupPassword. rewrite !andb_true_iff, !Z.leb_le. intros [[_ Hle] Hr].
  assert (Hlen : len (codes password) = slength password) by (unfold slength, len; by rewrite length_codes).
  rewrite Hlen. split; [|done]. destruct password; [done|]. unfold slength. simpl. lia.
Qed.

Inductive account_error :=
| AccConfigured | AccMissing | AccUnavailable | AccUncertain | AccClosed | AccBusy | AccConflict
| PasswordUnchanged | Credentials | InvalidUsername | ShortPassword
| AccKDF (e : PasswordHash.error) | AccContext | AccSession (e : session_error).
#[export] Instance account_error_eq_dec : EqDecision account_error.
Proof. assert (EqDecision PasswordHash.error) by solve_decision. solve_decision. Defined.

(** The errors of the credential store: its own, or those of the register. *)
Inductive cred_error := CredInvalid | CredStore (e : RevisionStore.store_error).

Definition accountStorageError (e : cred_error) : account_error :=
  match e with
  | CredStore RevisionStore.ErrNotInitialized => AccMissing
  | CredStore RevisionStore.ErrBusy => AccBusy
  | CredStore RevisionStore.ErrUncertain => AccUncertain
  | CredStore RevisionStore.ErrClosed => AccClosed
  | CredStore RevisionStore.ErrConflict => AccConflict
  | _ => AccUnavailable
  end.

Section panel.
Context (argon2_Version : Z) (IDKey : list Z → list Z → Z → Z → Z → Z → list Z).
Context `{Countable digest} (sha256 : list Z → digest).
Context (R : Register Document).

Definition Document_Validate (d : Document) : bool :=
  negb (negb (doc_Version d =? 2) || (doc_Revision d =? 0) || negb (ValidUsername (doc_Username d))
        || negb (is_ok (PasswordHash.ValidateVerifier argon2_Version (doc_PasswordHash d)))).

(** ** [admincredentials.Store] behind [linuxAccountBackend] *)
Definition from_store {A} (r : res RevisionStore.store_error A) : res cred_error A :=
  match r with Ok a => Ok a | Err e => Err (CredStore e) end.

Definition Cred_Initialize (st : rg_state R) (f : rg_commit_faults R) (username verifier : string) :
  rg_state R * res cred_error unit :=
  let d := mkDocument 2 1 username verifier in
  if negb (Document_Validate d) then (st, Err CredInvalid)
  else let '(st', r) := rg_commit R st f 0 d in (st', from_store r).

Definition replaced (d : Document) (expected : Z) (verifier : string) : Document :=
  mkDocument 2 (u64_add expected 1) (doc_Username d) verifier.

Definition Cred_Replace (st : rg_state R) (lf : rg_load_faults R) (f : rg_commit_faults R)
  (expected : Z) (verifier : string) : rg_state R * res cred_error unit :=
  match rg_load R st lf with
  | Err e => (st, Err (CredStore e))
  | Ok d =>
    if (expected =? 0) || (expected =? max_uint64) || negb (doc_Revision d =? expected)
    then (st, Err (CredStore RevisionStore.ErrConflict))
    else if verifier == doc_PasswordHash d then (st, Err CredInvalid)
    else
      let d' := replaced d expected verifier in
      if negb (Document_Validate d') then (st, Err CredInvalid)
      else let '(st', r) := rg_commit R st f expected d' in (st', from_store r)
  end.

Definition backend_Load (st : rg_state R) (lf : rg_load_faults R) : res account_error Document :=
  match rg_load R st lf with Ok d => Ok d | Err e => Err (accountStorageError (CredStore e)) end.

Definition backend_Initialize (st : rg_state R) (f : rg_commit_faults R) (username verifier : string) :
  rg_state R * res account_error unit :=
  let '(st', r) := Cred_Initialize st f username verifier in
  (st', match r with
        | Ok _ => Ok tt
        | Err (CredStore RevisionStore.ErrConflict) => Err AccConfigured
        | Err e => Err (accountStorageError e)
        end).

Definition backend_Replace (st : rg_state R) (lf : rg_load_faults R) (f : rg_commit_faults R)
  (expected : Z) (verifier : string) : rg_state R * res account_error unit :=
  let '(st', r) := Cred_Replace st lf f expected verifier in
  (st', match r with Ok _ => Ok tt | Err e => Err (accountStorageError e) end).

(** ** [accountStore] *)
Record accountStore := mkAccountStore {
  acs_backend : option (rg_state R);    (* nil once closed *)
  acs_seenConfigured : bool;
  acs_failure : option account_error }.

Definition failure_for (e : account_error) : account_error :=
  if e == AccUncertain then AccUncertain else AccUnavailable.
Definition fail (s : accountStore) (e : account_error) : accountStore :=
  mkAccountStore (acs_backend s) (acs_seenConfigured s) (Some (failure_for e)).

Definition loadLocked (s : accountStore) (lf : rg_load_faults R) : accountStore * res account_error Document :=
  match acs_backend s with
  | None => (s, Err AccClosed)
  | Some st =>
    match acs_failure s with
    | Some e => (s, Err e)
    | None =>
      match backend_Load st lf with
      | Err e =>
        if (e == AccMissing) && negb (acs_seenConfigured s) then (s, Err AccMissing)
        else (fail s e, Err (failure_for e))
      | Ok d =>
        if negb (Document_Validate d) then (fail s AccUnavailable, Err (failure_for AccUnavailable))
        else (mkAccountStore (Some st) true None, Ok d)
      end
    end
  end.

Definition configured (s : accountStore) (lf : rg_load_faults R) : accountStore * res account_error bool :=
  match loadLocked s lf with
  | (s', Ok _) => (s', Ok true)
  | (s', Err AccMissing) => (s', Ok false)
  | (s', Err e) => (s', Err e)
  end.

Definition kdf {A} (r : res PasswordHash.error A) : res account_error A :=
  match r with Ok a => Ok a | Err e => Err (AccKDF e) end.

Definition setup (s : accountStore) (lf : rg_load_faults R) (f : rg_commit_faults R)
  (slot : bool) (salt : option (list Z)) (username password : string) :
  accountStore * res account_error unit :=
  if negb (ValidUsername username) then (s, Err InvalidUsername)
  else if negb (validSetupPassword password) then (s, Err ShortPassword)
  else match loadLocked s lf with
  | (s1, Ok _) => (s1, Err AccConfigured)
  | (s1, Err AccMissing) =>
    match kdf (PasswordHash.Hash argon2_Version IDKey slot salt (codes password)), acs_backend s1 with
    | Err e, _ => (s1, Err e)
    | Ok _, None => (s1, Err AccClosed)      (* not reached: the load found a backend *)
    | Ok verifier, Some st =>
      let '(st', r) := backend_Initialize st f username verifier in
      let s2 := mkAccountStore (Some st') (acs_seenConfigured s1) (acs_failure s1) in
      match r with
      | Err AccConfigured => (s2, Err AccConfigured)
      | Err e => (fail s2 e, Err (failure_for e))
      | Ok _ => (mkAccountStore (Some st') true (acs_failure s1), Ok tt)
      end
    end
  | (s1, Err e) => (s1, Err e)
  end.

(** [authenticate], up to the end of its first locked section. *)
Definition authenticate_load (s : accountStore) (lf : rg_load_faults R) (password : string) :
  accountStore * res account_error Document :=
  if negb (validSetupPassword password) then (s, Err Credentials) else loadLocked s lf.

(** The key derivation, outside the lock: for another user name the work is
    done and the answer is no. *)
Definition authenticate_derive (d : Document) (slot : bool) (salt : option (list Z))
  (username password : string) : res account_error bool :=
  if negb (ValidUsername username) || (username != doc_Username d)
  then (_ ← kdf (PasswordHash.Hash argon2_Version IDKey slot salt (codes password)); Ok false)
  else kdf (PasswordHash.Verify argon2_Version IDKey slot (codes password) (doc_PasswordHash d)).

(** The second locked section: the document must not have changed. *)
Definition authenticate_recheck (s : accountStore) (lf : rg_load_faults R) (d : Document) (valid : bool) :
  accountStore * res account_error bool :=
  match loadLocked s lf with
  | (s', Err e) => (s', Err e)
  | (s', Ok current) => if current != d then (s', Err AccUnavailable) else (s', Ok valid)
  end.

Definition authenticate (s : accountStore) (lf1 lf2 : rg_load_faults R) (slot : bool) (salt : option (list Z))
  (username password : string) : accountStore * res account_error bool :=
  match authenticate_load s lf1 password with
  | (s1, Err e) => (s1, Err e)
  | (s1, Ok d) =>
    match authenticate_derive d slot salt username password with
    | Err e => (s1, Err e)
    | Ok valid => authenticate_recheck s1 lf2 d valid
    end
  end.

(** [changePassword], up to the derived verifier. *)
Definition changePassword_load (s : accountStore) (lf : rg_load_faults R) (slot1 slot2 : bool)
  (salt : option (list Z)) (currentPassword newPassword : string) :
  accountStore * res account_error (Document * string) :=
  if negb (validSetupPassword currentPassword) then (s, Err Credentials)
  else if negb (validSetupPassword newPassword) then (s, Err ShortPassword)
  else if currentPassword == newPassword then (s, Err PasswordUnchanged)
  else match loadLocked s lf with
  | (s1, Err e) => (s1, Err e)
  | (s1, Ok d) =>
    (s1, refuse doc_Revision d =? max_uint64 => AccConflict ;;
         valid ← kdf (PasswordHash.Verify argon2_Version IDKey slot1 (codes currentPassword) (doc_PasswordHash d));
         refuse negb valid => Credentials ;;
         verifier ← kdf (PasswordHash.Hash argon2_Version IDKey slot2 salt (codes newPassword));
         Ok (d, verifier))
  end.

(** Its final locked section: recheck, revoke every session, commit. *)
Definition changePassword_commit (s : accountStore) (ses : sessionStore digest) (ctx_err : bool)
  (lf1 lf2 : rg_load_faults R) (f : rg_commit_faults R) (d : Document) (verifier : string)
  (token csrf : string) (now : Z) : accountStore * sessionStore digest * res account_error unit :=
  if ctx_err then (s, ses, Err AccContext)
  else match loadLocked s lf1 with
  | (s1, Err e) => (s1, ses, Err e)
  | (s1, Ok latest) =>
    if latest != d then (s1, ses, Err AccConflict)
    else match revokeAll sha256 ses token csrf now, acs_backend s1 with
    | (ses1, Err e), _ => (s1, ses1, Err (AccSession e))
    | (ses1, Ok _), None => (s1, ses1, Err AccClosed)     (* not reached *)
    | (ses1, Ok _), Some st =>
      let '(st', r) := backend_Replace st lf2 f (doc_Revision d) verifier in
      let s2 := mkAccountStore (Some st') (acs_seenConfigured s1) (acs_failure s1) in
      match r with
      | Err e => (fail s2 e, ses1, Err (failure_for e))
      | Ok _ => (s2, ses1, Ok tt)
      end
    end
  end.

Definition account_Close (s : accountStore) (fails : bool) : accountStore * res account_error unit :=
  match acs_backend s with
  | None => (s, Ok tt)
  | Some _ => (mkAccountStore None (acs_seenConfigured s) (acs_failure s),
               if fails then Err AccUnavailable else Ok tt)
  end.

(** Taking ownership at start-up: a first load decides. *)
Definition ownAccountBackend (backend : res account_error (rg_state R)) (lf : rg_load_faults R) :
  res account_error accountStore :=
  match backend with
  | Err e => Err e
  | Ok st => match loadLocked (mkAccountStore (Some st) false None) lf with
             | (s, Ok _) => Ok s
             | (s, Err AccMissing) => Ok s
             | (_, Err e) => Err e
             end
  end.

(** ** Login windows: [allowLogin], [allowPasswordChange] *)
Definition loginWindow : Z := 60 * 1000000000.
Definition loginMaxAttempts : Z := 5.
(** [None] is the zero time. *)
Record window := mkWindow { win_at : option Z; win_attempts : Z }.

Definition allow (w : window) (now : Z) : window * bool :=
  let w' := match win_at w with
            | None => mkWindow (Some now) 0
            | Some at_ => if (loginWindow <=? now - at_) || (now <? at_) then mkWindow (Some now) 0 else w
            end in
  if loginMaxAttempts <=? win_attempts w' then (w', false)
  else (mkWindow (win_at w') (win_attempts w' + 1), true).
(** the same code on the other pair of fields *)
Definition allowPasswordChange (w : window) (now : Z) : window * bool := allow w now.

(** ** Issuing a session *)

(** [issueSession]: under the account lock, the session presented with the
    request is dropped and a new one is created for the captured epoch.  The
    session lock is taken for each session operation on its own; the lookup and
    the removal may also run as separate steps of [panel_step]. *)
Definition issueSession (s : accountStore) (ses : sessionStore digest) (lf : rg_load_faults R)
  (cookie : option string) (random : option (list Z) * option (list Z)) (now1 now2 : Z) (epoch : Z) :
  accountStore * sessionStore digest * res account_error string :=
  match loadLocked s lf with
  | (s1, Err e) => (s1, ses, Err e)
  | (s1, Ok _) =>
    let ses1 := match cookie with
                | None => ses
                | Some token => match find sha256 ses token now1 with
                                | (x, Some _) => revoke sha256 x token
                                | (x, None) => x
                                end
                end in
    match createForEpoch sha256 ses1 random now2 (Some epoch) with
    | (ses2, Err e) => (s1, ses2, Err (AccSession e))
    | (ses2, Ok (token, _)) => (s1, ses2, Ok token)
    end
  end.

(** ** Interleaved requests

    A request in flight is represented by what it carries between two locked
    sections: the captured epoch, the document it loaded, the verifier it
    derived.  Requests stay in the list, so each may also proceed more than
    once; the ghost map records under which document each session was issued. *)
Inductive thread :=
| Captured (epoch : Z)
| Loaded (epoch : Z) (d : Document)
| Checked (epoch : Z) (d : Document)
| Changing (d : Document) (verifier : string).

Record panel := mkPanel {
  pn_acc : accountStore; pn_ses : sessionStore digest;
  pn_ghost : gmap digest Document; pn_threads : list thread }.

Inductive panel_step : panel → panel → Prop :=
| ps_capture acc ses gh ts :
    panel_step (mkPanel acc ses gh ts) (mkPanel acc ses gh (Captured (currentEpoch ses) :: ts))
| ps_status acc ses gh ts lf :
    panel_step (mkPanel acc ses gh ts) (mkPanel (loadLocked acc lf).1 ses gh ts)
| ps_load acc ses gh ts lf password epoch acc' d :
    Captured epoch ∈ ts → authenticate_load acc lf password = (acc', Ok d) →
    panel_step (mkPanel acc ses gh ts) (mkPanel acc' ses gh (Loaded epoch d :: ts))
| ps_recheck acc ses gh ts lf epoch d slot salt username password acc' :
    Loaded epoch d ∈ ts → authenticate_derive d slot salt username password = Ok true →
    authenticate_recheck acc lf d true = (acc', Ok true) →
    panel_step (mkPanel acc ses gh ts) (mkPanel acc' ses gh (Checked epoch d :: ts))
| ps_setup acc ses gh ts lf f slot salt username password epoch acc' verifier :
    Captured epoch ∈ ts → PasswordHash.Hash argon2_Version IDKey slot salt (codes password) = Ok verifier →
    setup acc lf f slot salt username password = (acc', Ok tt) →
    panel_step (mkPanel acc ses gh ts)
      (mkPanel acc' ses gh (Checked epoch (mkDocument 2 1 username verifier) :: ts))
| ps_setup_failed acc ses gh ts lf f slot salt username password acc' e :
    setup acc lf f slot salt username password = (acc', Err e) →
    panel_step (mkPanel acc ses gh ts) (mkPanel acc' ses gh ts)
| ps_issue acc ses gh ts lf cookie tokenBytes csrfBytes now1 now2 epoch d acc' ses' r :
    Checked epoch d ∈ ts →
    issueSession acc ses lf cookie (Some tokenBytes, Some csrfBytes) now1 now2 epoch = (acc', ses', r) →
    panel_step (mkPanel acc ses gh ts)
      (mkPanel acc' ses' (if is_ok r then <[sha256 tokenBytes := d]> gh else gh) ts)
| ps_change_load acc ses gh ts lf slot1 slot2 salt cur new acc' r :
    changePassword_load acc lf slot1 slot2 salt cur new = (acc', r) →
    panel_step (mkPanel acc ses gh ts)
      (mkPanel acc' ses gh (match r with Ok (d, v) => Changing d v :: ts | Err _ => ts end))
| ps_change_commit acc ses gh ts ctx_err lf1 lf2 f d verifier token csrf now acc' ses' r :
    Changing d verifier ∈ ts →
    changePassword_commit acc ses ctx_err lf1 lf2 f d verifier token csrf now = (acc', ses', r) →
    panel_step (mkPanel acc ses gh ts) (mkPanel acc' ses' gh ts)
| ps_find acc ses gh ts token now :
    panel_step (mkPanel acc ses gh ts) (mkPanel acc (find sha256 ses token now).1 gh ts)
| ps_revoke acc ses gh ts token :
    panel_step (mkPanel acc ses gh ts) (mkPanel acc (revoke sha256 ses token) gh ts)
| ps_revoke_all acc ses gh ts token csrf now :
    panel_step (mkPanel acc ses gh ts) (mkPanel acc (revokeAll sha256 ses token csrf now).1 gh ts)
| ps_close acc ses gh ts fails :
    panel_step (mkPanel acc ses gh ts) (mkPanel (account_Close acc fails).1 ses gh ts).

(** *** Invariant *)
(** A decoded document is valid and its revision is a [uint64]. *)
Definition doc_valid (d : Document) : bool :=
  Document_Validate d && (0 <=? doc_Revision d) && (doc_Revision d <=? max_uint64).

Context `{Hspec : !RegisterSpec R doc_Revision doc_valid}.

Lemma doc_valid_range d : doc_valid d = true → 1 ≤ doc_Revision d ≤ max_uint64.
Proof. unfold doc_valid, Document_Validate. go_bool. lia. Qed.

(** Every document a usable store can load is [g]. *)
Definition agrees (acc : accountStore) (g : Document) : Prop :=
  ∀ st lf x, acs_backend acc = Some st → acs_failure acc = None → rg_load R st lf = Ok x → x = g.

(** The credentials of [g] were presented: a successful verification against
    it, or the set-up that created it. *)
Definition authorised (g : Document) : Prop :=
  (∃ slot salt username password, authenticate_derive g slot salt username password = Ok true)
  ∨ (∃ slot salt username password verifier,
       PasswordHash.Hash argon2_Version IDKey slot salt (codes password) = Ok verifier
       ∧ g = mkDocument 2 1 username verifier).

Definition thread_ok (acc : accountStore) (epoch : Z) (t : thread) : Prop :=
  match t with
  | Captured e => e ≤ epoch
  | Loaded e d => e ≤ epoch ∧ (e = epoch → agrees acc d)
  | Checked e d => e ≤ epoch ∧ (e = epoch → agrees acc d) ∧ authorised d
  | Changing _ _ => True
  end.

Record panel_inv (p : panel) : Prop := {
  pi_backend : ∀ st, acs_backend (pn_acc p) = Some st → rg_inv st;
  pi_sessions : ∀ key session, ses_sessions (pn_ses p) !! key = Some session →
    ∃ g, pn_ghost p !! key = Some g ∧ agrees (pn_acc p) g ∧ authorised g;
  pi_threads : Forall (thread_ok (pn_acc p) (ses_epoch (pn_ses p))) (pn_threads p);
  pi_fresh : acs_seenConfigured (pn_acc p) = false →
    ses_sessions (pn_ses p) = ∅
    ∧ ∀ t, t ∈ pn_threads p → ∃ e, t = Captured e }.

(** What a load does to the store. *)
Lemma loadLocked_cases s lf s' r :
  loadLocked s lf = (s', r) →
  acs_backend s' = acs_backend s
  ∧ (acs_seenConfigured s = true → acs_seenConfigured s' = true)
  ∧ (∀ g, agrees s g → agrees s' g)
  ∧ match r with
    | Ok d => ∃ st, s' = mkAccountStore (Some st) true None ∧ acs_backend s = Some st
                    ∧ acs_failure s = None ∧ rg_load R st lf = Ok d
    | Err AccMissing => s' = s ∧ ((acs_seenConfigured s = false ∧ acs_failure s = None ∧ acs_backend s ≠ None)
                                  ∨ acs_failure s = Some AccMissing)
    | Err _ => s' = s ∨ acs_failure s' ≠ None
    end.
Proof.
  unfold loadLocked, backend_Load. destruct (acs_backend s) as [st|] eqn:Hb.
  2: { intros [= <- <-]. rewrite Hb. auto. }
  destruct (acs_failure s) as [e|] eqn:Hf.
  { intros [= <- <-]. rewrite Hb. split_and!; try done. destruct e; auto. }
  destruct (rg_load R st lf) as [d|e] eqn:Hl.
  - destruct (negb (Document_Validate d)); intros [= <- <-]; simpl; rewrite ?Hb.
    + split_and!; try done; try (by intros g Hg st0 lf0 x _ Hno); try (by right).
    + split_and!; try done; [|by exists st]. intros g Hg st0 lf0 x [= <-] _ Hx. by eapply Hg.
  - destruct (_ && _) eqn:Hm; intros [= <- <-]; simpl; rewrite ?Hb.
    + apply andb_true_iff in Hm as [_ Hseen%negb_true_iff]. split_and!; try done. auto.
    + split_and!; try done; try (by intros g Hg st0 lf0 x _ Hno).
      unfold failure_for. destruct (_ == AccUncertain); by right.
Qed.

Lemma agrees_loaded st lf d seen :
  rg_inv st → rg_load R st lf = Ok d → agrees (mkAccountStore (Some st) seen None) d.
Proof using Hspec. intros Hi Hl st' lf' x [= <-] _ Hx. by eapply rg_load_det. Qed.

Lemma agrees_failed s g : acs_failure s ≠ None → agrees s g.
Proof. intros Hf st lf x _ Hn. done. Qed.

Lemma threads_mono acc acc' epoch ts :
  (∀ g, agrees acc g → agrees acc' g) → Forall (thread_ok acc epoch) ts → Forall (thread_ok acc' epoch) ts.
Proof.
  intros Ha HF. eapply Forall_impl; [exact HF|]. intros [e|e d|e d|d v]; simpl; naive_solver.
Qed.

(** After a global revocation no request in flight can issue a session. *)
Lemma threads_revoked acc acc' epoch ts :
  Forall (thread_ok acc epoch) ts → Forall (thread_ok acc' (epoch + 1)) ts.
Proof.
  intros HF. eapply Forall_impl; [exact HF|]. intros [e|e d|e d|d v]; simpl; [lia|..|done].
  - intros [He _]. split; lia.
  - intros (He & _ & Hau). split_and!; [lia|lia|done].
Qed.

(** A step that changes the account store only by a load, and shrinks or keeps
    the sessions, preserves the invariant. *)
Lemma panel_inv_load acc acc' ses ses' gh ts lf r :
  loadLocked acc lf = (acc', r) → ses_epoch ses' = ses_epoch ses →
  ses_sessions ses' ⊆ ses_sessions ses →
  panel_inv (mkPanel acc ses gh ts) → panel_inv (mkPanel acc' ses' gh ts).
Proof.
  intros Hl He Hsub [I1 I2 I3 I4]. simpl in *. apply loadLocked_cases in Hl as (Hb & Hseen & Ha & _).
  split; simpl.
  - rewrite Hb. done.
  - intros key session Hk. eapply lookup_weaken in Hk; [|exact Hsub].
    destruct (I2 _ _ Hk) as (g & ? & ? & ?). exists g. auto.
  - rewrite He. by eapply threads_mono.
  - intros Hs'. destruct (acs_seenConfigured acc) eqn:Hs; [rewrite Hseen in Hs'; done|].
    destruct (I4 eq_refl) as [Hemp Hts]. split; [|done].
    apply map_eq. intros k. rewrite lookup_empty. apply eq_None_not_Some. intros [v Hv].
    eapply lookup_weaken in Hv; [|exact Hsub]. by rewrite Hemp in Hv.
Qed.

Lemma panel_inv_same acc ses ses' gh ts :
  ses_epoch ses' = ses_epoch ses → ses_sessions ses' ⊆ ses_sessions ses →
  panel_inv (mkPanel acc ses gh ts) → panel_inv (mkPanel acc ses' gh ts).
Proof.
  intros He Hsub [I1 I2 I3 I4]. simpl in *. split; simpl.
  - done.
  - intros key session Hk. eapply lookup_weaken in Hk; [|exact Hsub]. eauto.
  - by rewrite He.
  - intros Hs. destruct (I4 Hs) as [Hemp Hts]. split; [|done].
    apply map_eq. intros k. rewrite lookup_empty. apply eq_None_not_Some. intros [v Hv].
    eapply lookup_weaken in Hv; [|exact Hsub]. by rewrite Hemp in Hv.
Qed.

Lemma panel_inv_thread acc ses gh ts t :
  thread_ok acc (ses_epoch ses) t → (acs_seenConfigured acc = true ∨ ∃ e, t = Captured e) →
  panel_inv (mkPanel acc ses gh ts) → panel_inv (mkPanel acc ses gh (t :: ts)).
Proof.
  intros Ht Hs [I1 I2 I3 I4]. simpl in *. split; simpl; try done; [by constructor|].
  intros Hf. destruct Hs as [Hs|Hs]; [congruence|]. destruct (I4 Hf) as [? Hts]. split; [done|].
  intros t' [->|Ht']%elem_of_cons; auto.
Qed.

(** *** The session operations, as the invariant sees them *)
Lemma find_shrinks ses token now :
  ses_epoch (find sha256 ses token now).1 = ses_epoch ses
  ∧ ses_sessions (find sha256 ses token now).1 ⊆ ses_sessions ses.
Proof. unfold find. repeat case_match; simpl; split; try done. apply delete_subseteq. Qed.

Lemma revoke_shrinks ses token :
  ses_epoch (revoke sha256 ses token) = ses_epoch ses
  ∧ ses_sessions (revoke sha256 ses token) ⊆ ses_sessions ses.
Proof. unfold revoke. case_match; simpl; split; try done. apply delete_subseteq. Qed.

Lemma revokeAll_cases ses token csrf now ses' r :
  revokeAll sha256 ses token csrf now = (ses', r) →
  (ses' = ses ∧ r ≠ Ok tt) ∨ (ses' = mkSessionStore ∅ (ses_epoch ses + 1) ∧ r = Ok tt).
Proof. unfold revokeAll. intros Hr. repeat case_match; simplify_eq; auto. Qed.

Lemma createForEpoch_cases ses t c now epoch ses' r :
  createForEpoch sha256 ses (Some t, Some c) now (Some epoch) = (ses', r) →
  ses_epoch ses' = ses_epoch ses ∧
  (ses_sessions ses' ⊆ ses_sessions ses ∧ is_ok r = false
   ∨ epoch = ses_epoch ses ∧ is_ok r = true
     ∧ ∃ live session, live ⊆ ses_sessions ses ∧ ses_sessions ses' = <[sha256 t := session]> live).
Proof.
  unfold createForEpoch. destruct (Some epoch == Some (ses_epoch ses)) eqn:He; simpl.
  2: { intros [= <- <-]. split; [done|]. by left. }
  apply bool_decide_eq_true in He. injection He as ->.
  destruct (_ <=? _); intros [= <- <-]; simpl; (split; [done|]).
  - left. split; [|done]. apply map_filter_subseteq.
  - right. split_and!; [done|done|]. eexists (filter (λ kv, expired now kv.2 = false) (ses_sessions ses)), _. split; [apply map_filter_subseteq|done].
Qed.

Lemma panel_inv_revoked acc acc' ses gh ts :
  (∀ st, acs_backend acc' = Some st → rg_inv st) → acs_seenConfigured acc' = true →
  panel_inv (mkPanel acc ses gh ts) →
  panel_inv (mkPanel acc' (mkSessionStore ∅ (ses_epoch ses + 1)) gh ts).
Proof.
  intros Hb Hs [I1 I2 I3 I4]. simpl in *. split; simpl; try done.
  - by eapply threads_revoked.
  - congruence.
Qed.

Lemma issue_inv acc ses gh ts lf cookie t c now1 now2 epoch d acc' ses' r :
  Checked epoch d ∈ ts →
  issueSession acc ses lf cookie (Some t, Some c) now1 now2 epoch = (acc', ses', r) →
  panel_inv (mkPanel acc ses gh ts) →
  panel_inv (mkPanel acc' ses' (if is_ok r then <[sha256 t := d]> gh else gh) ts).
Proof using Hspec.
  intros Ht. unfold issueSession. destruct (loadLocked acc lf) as [acc1 [x|e]] eqn:Hl.
  2: { intros [= <- <- <-] Hi. by eapply panel_inv_load. }
  set (ses1 := match cookie with None => ses | Some token => _ end).
  assert (ses_epoch ses1 = ses_epoch ses ∧ ses_sessions ses1 ⊆ ses_sessions ses) as [He1 Hsub1].
  { unfold ses1. destruct cookie as [token|]; [|done].
    pose proof (find_shrinks ses token now1) as [Hf1 Hf2].
    destruct (find sha256 ses token now1) as [y [z|]]; simpl in *; [|done].
    pose proof (revoke_shrinks y token) as [Hr1 Hr2]. split; [congruence|by etransitivity]. }
  destruct (createForEpoch sha256 ses1 (Some t, Some c) now2 (Some epoch)) as [ses2 r2] eqn:Hcr.
  apply createForEpoch_cases in Hcr as [He2 Hcases].
  intros Hres Hi.
  assert (acc' = acc1 ∧ ses' = ses2 ∧ is_ok r = is_ok r2) as (-> & -> & ->)
    by (destruct r2 as [[? ?]|]; simplify_eq; done).
  pose proof (panel_inv_load _ _ _ ses1 _ _ _ _ Hl He1 Hsub1 Hi) as Hi1.
  destruct Hcases as [[Hsub2 ->]|(Hep & -> & live & session & Hlive & Hses)].
  { eapply panel_inv_same; [exact He2|exact Hsub2|done]. }
  destruct Hi1 as [I1 I2 I3 I4]. simpl in *.
  apply loadLocked_cases in Hl as (_ & _ & _ & st & -> & Hb & Hfl & Hld).
  pose proof (proj1 (Forall_forall _ _) I3 _ Ht) as (_ & Hag & Hau).
  split; simpl; try done.
  - intros key sess. rewrite Hses. intros [[<- <-]|[Hne Hk]]%lookup_insert_Some.
    + exists d. rewrite lookup_insert_eq. split_and!; [done|by apply Hag|done].
    + eapply lookup_weaken in Hk; [|exact Hlive]. destruct (I2 _ _ Hk) as (g & ? & ? & ?).
      exists g. by rewrite lookup_insert_ne.
  - by rewrite He2.
Qed.

Lemma setup_inv acc ses gh ts lf f slot salt username password acc' r :
  setup acc lf f slot salt username password = (acc', r) →
  panel_inv (mkPanel acc ses gh ts) →
  panel_inv (mkPanel acc' ses gh ts)
  ∧ (r = Ok tt → acs_seenConfigured acc' = true ∧ ∀ verifier,
       PasswordHash.Hash argon2_Version IDKey slot salt (codes password) = Ok verifier →
       agrees acc' (mkDocument 2 1 username verifier)).
Proof using Hspec.
  unfold setup. destruct (negb (ValidUsername username)); [by intros [= <- <-]|].
  destruct (negb (validSetupPassword password)); [by intros [= <- <-]|].
  destruct (loadLocked acc lf) as [s1 [d|e]] eqn:Hl.
  { intros [= <- <-] Hi. split; [|done]. by eapply panel_inv_load. }
  assert (Herr : e ≠ AccMissing → (s1, Err e) = (acc', r) → panel_inv (mkPanel acc ses gh ts) →
    panel_inv (mkPanel acc' ses gh ts) ∧ (r = Ok tt → acs_seenConfigured acc' = true ∧ ∀ verifier,
       PasswordHash.Hash argon2_Version IDKey slot salt (codes password) = Ok verifier →
       agrees acc' (mkDocument 2 1 username verifier))).
  { intros _ [= <- <-] Hi. split; [|done]. by eapply panel_inv_load. }
  destruct e; try (by apply Herr). clear Herr.
  apply loadLocked_cases in Hl as (_ & _ & _ & -> & Hcase). unfold kdf.
  destruct (PasswordHash.Hash argon2_Version IDKey slot salt (codes password)) as [verifier|e] eqn:Hh;
    [|by intros [= <- <-]].
  destruct (acs_backend acc) as [st|] eqn:Hb; [|by intros [= <- <-]].
  unfold backend_Initialize, Cred_Initialize.
  destruct (rg_commit R st f 0 (mkDocument 2 1 username verifier)) as [st1 r1] eqn:Hc.
  intros Hres Hi. destruct Hi as [I1 I2 I3 I4]. simpl in *. pose proof (I1 st Hb) as Hinv.
  assert (Hk : ∀ x, rg_inv x → ∀ seen fl, (seen = false → acs_seenConfigured acc = false) →
    (fl ≠ None ∨ acs_seenConfigured acc = false) →
    panel_inv (mkPanel (mkAccountStore (Some x) seen fl) ses gh ts)).
  { intros x Hx seen fl Hseen Hor.
    assert (Hag : ∀ g, acs_seenConfigured acc = true → agrees (mkAccountStore (Some x) seen fl) g).
    { intros g Hs. apply agrees_failed. destruct Hor; [done|congruence]. }
    destruct (acs_seenConfigured acc) eqn:Hsc.
    - split; simpl; [by intros ? [= <-]| | |intros ->; by specialize (Hseen eq_refl)].
      + intros key session Hkey. destruct (I2 _ _ Hkey) as (g & ? & _ & ?). exists g. auto.
      + eapply threads_mono; [|exact I3]. auto.
    - destruct (I4 eq_refl) as [Hemp Hts]. split; simpl; [by intros ? [= <-]| | |done].
      + intros key session Hkey. rewrite Hemp in Hkey. done.
      + apply Forall_forall. intros t Ht. rewrite Forall_forall in I3. specialize (I3 t Ht).
        destruct (Hts t Ht) as [e ->]. done. }
  assert (Hfresh : acs_failure acc ≠ None ∨ acs_seenConfigured acc = false) by (destruct Hcase; naive_solver).
  destruct (negb (Document_Validate _)); simpl in Hres.
  { simplify_eq. split; [|done]. apply Hk; [done|done|by left]. }
  assert (Hinv1 : rg_inv st1) by (eapply commit_keeps in Hc; [apply Hc|done|unfold max_uint64; lia]).
  destruct r1 as [[]|e]; simpl in Hres.
  - simplify_eq. split; [by apply Hk|]. intros _. split; [done|].
    intros v [= <-]. intros st0 lf0 x [= <-] _ Hx.
    apply rg_commit_Ok in Hc as (_ & _ & _ & Hload & _); [by eapply Hload|done|unfold max_uint64; lia].
  - assert (Hfail : ∀ y, panel_inv (mkPanel (mkAccountStore (Some st1) (acs_seenConfigured acc) (Some y)) ses gh ts))
      by (intros y; apply Hk; [done|done|by left]).
    destruct e; simplify_eq; (split; [|done]); try apply Hfail. by apply Hk.
Qed.

Lemma change_commit_inv acc ses gh ts ctx_err lf1 lf2 f d verifier token csrf now acc' ses' r :
  changePassword_commit acc ses ctx_err lf1 lf2 f d verifier token csrf now = (acc', ses', r) →
  panel_inv (mkPanel acc ses gh ts) → panel_inv (mkPanel acc' ses' gh ts).
Proof using Hspec.
  unfold changePassword_commit. destruct ctx_err; [by intros [= <- <- <-]|].
  destruct (loadLocked acc lf1) as [s1 [latest|e]] eqn:Hl.
  2: { intros [= <- <- <-] Hi. by eapply panel_inv_load. }
  destruct (latest != d); [intros [= <- <- <-] Hi; by eapply panel_inv_load|].
  destruct (revokeAll sha256 ses token csrf now) as [ses1 rr] eqn:Hr.
  apply revokeAll_cases in Hr as [[-> Hr]|[-> ->]].
  { destruct rr as [[]|e]; [done|]. intros [= <- <- <-] Hi. by eapply panel_inv_load. }
  apply loadLocked_cases in Hl as (_ & _ & _ & st & -> & Hb & _ & _).
  unfold backend_Replace. destruct (Cred_Replace st lf2 f (doc_Revision d) verifier) as [st1 r1] eqn:Hc.
  intros Hres Hi. pose proof (pi_backend _ Hi st Hb) as Hinv.
  assert (Hinv1 : rg_inv st1).
  { revert Hc. unfold Cred_Replace. destruct (rg_load R st lf2) as [x|] eqn:Hx; [|by intros [= <- <-]].
    destruct (_ || _) eqn:Hg; [by intros [= <- <-]|]. destruct (_ == _); [by intros [= <- <-]|].
    destruct (negb (Document_Validate _)); [by intros [= <- <-]|].
    destruct (rg_commit R st f (doc_Revision d) _) as [st2 r2] eqn:Hcm. intros [= <- <-].
    apply orb_false_iff in Hg as [_ Hrev%negb_false_iff%Z.eqb_eq].
    pose proof (doc_valid_range x (rg_load_valid _ _ _ Hinv Hx)) as Hr. rewrite Hrev in Hr.
    eapply commit_keeps in Hcm; [apply Hcm|done|lia]. }
  simpl in Hres. rewrite Hc in Hres.
  destruct r1 as [[]|e]; simplify_eq; (eapply panel_inv_revoked; [|done|exact Hi]); simpl; by intros ? [= <-].
Qed.

Lemma panel_inv_close acc ses gh ts fails :
  panel_inv (mkPanel acc ses gh ts) → panel_inv (mkPanel (account_Close acc fails).1 ses gh ts).
Proof.
  unfold account_Close. destruct (acs_backend acc) eqn:Hb; [|done]. intros [I1 I2 I3 I4]. simpl in *.
  assert (Hag : ∀ seen fl g, agrees (mkAccountStore None seen fl) g) by (by intros ? ? ? ? ?).
  split; simpl; [done| | |done].
  - intros key session Hk. destruct (I2 _ _ Hk) as (g & ? & _ & ?). exists g. auto.
  - eapply threads_mono; [|exact I3]. auto.
Qed.

(** A document just loaded is the one the store agrees on. *)
Lemma loadLocked_agrees acc ses gh ts lf acc' d :
  panel_inv (mkPanel acc ses gh ts) → loadLocked acc lf = (acc', Ok d) →
  agrees acc' d ∧ acs_seenConfigured acc' = true.
Proof using Hspec.
  intros Hi Hl. apply loadLocked_cases in Hl as (_ & _ & _ & st & -> & Hb & _ & Hld).
  split; [|done]. eapply agrees_loaded; [by eapply (pi_backend _ Hi)|done].
Qed.

Lemma panel_step_inv p p' : panel_step p p' → panel_inv p → panel_inv p'.
Proof using Hspec.
  destruct 1 as [acc ses gh ts|acc ses gh ts lf|acc ses gh ts lf pw epoch acc' d Ht Hl
    |acc ses gh ts lf epoch d slot salt u pw acc' Ht Hd Hl
    |acc ses gh ts lf f slot salt u pw epoch acc' v Ht Hh Hs|acc ses gh ts lf f slot salt u pw acc' e Hs
    |acc ses gh ts lf ck t c now1 now2 epoch d acc' ses' r Ht Hs|acc ses gh ts lf s1 s2 salt cur new acc' r Hl
    |acc ses gh ts ce lf1 lf2 f d v t c now acc' ses' r Ht Hs|acc ses gh ts t now|acc ses gh ts t
    |acc ses gh ts t c now|acc ses gh ts fails]; intros Hi.
  - apply panel_inv_thread; [unfold thread_ok, currentEpoch; lia|eauto|done].
  - destruct (loadLocked acc lf) as [acc' r] eqn:Hl. by eapply panel_inv_load.
  - unfold authenticate_load in Hl. destruct (negb _); [done|].
    pose proof (proj1 (Forall_forall _ _) (pi_threads _ Hi) _ Ht) as He. simpl in He.
    apply (loadLocked_agrees _ _ _ _ _ _ _ Hi) in Hl as Ha. destruct Ha as [Ha Hseen].
    apply panel_inv_thread; [done|by left|by eapply panel_inv_load].
  - unfold authenticate_recheck in Hl. destruct (loadLocked acc lf) as [s1 [x|e]] eqn:Hld; [|done].
    destruct (x != d) eqn:Hx; [done|]. go_bool in Hx. simplify_eq.
    pose proof (proj1 (Forall_forall _ _) (pi_threads _ Hi) _ Ht) as [He _]. simpl in He.
    apply (loadLocked_agrees _ _ _ _ _ _ _ Hi) in Hld as Ha. destruct Ha as [Ha Hseen].
    apply panel_inv_thread; [|by left|by eapply panel_inv_load].
    split_and!; [done|done|]. left. by exists slot, salt, u, pw.
  - pose proof (proj1 (Forall_forall _ _) (pi_threads _ Hi) _ Ht) as He. simpl in He.
    eapply setup_inv in Hs as [Hi' Ha]; [|exact Hi]. destruct (Ha eq_refl) as [Hseen Hag].
    apply panel_inv_thread; [|by left|done].
    split_and!; [done|auto|]. right. by exists slot, salt, u, pw, v.
  - eapply setup_inv in Hs as [Hi' _]; [done|exact Hi].
  - by eapply issue_inv.
  - unfold changePassword_load in Hl.
    do 3 (destruct (_ : bool) in Hl; [by simplify_eq|]).
    destruct (loadLocked acc lf) as [s3 [x|e]] eqn:Hld; [|simplify_eq; by eapply panel_inv_load].
    apply (loadLocked_agrees _ _ _ _ _ _ _ Hi) in Hld as Ha. destruct Ha as [Ha Hseen].
    injection Hl as <- <-. match goal with |- context [match ?r with Ok _ => _ | Err _ => ts end] => destruct r as [[d v]|e] end;
      [|by eapply panel_inv_load].
    apply panel_inv_thread; [done|by left|by eapply panel_inv_load].
  - by eapply change_commit_inv.
  - destruct (find_shrinks ses t now). by eapply panel_inv_same.
  - destruct (revoke_shrinks ses t). by eapply panel_inv_same.
  - destruct (revokeAll sha256 ses t c now) as [ses' r] eqn:Hr.
    apply revokeAll_cases in Hr as [[-> _]|[-> ->]]; [done|]. simpl.
    destruct (acs_seenConfigured acc) eqn:Hseen.
    + eapply panel_inv_revoked; [apply (pi_backend _ Hi)|done|done].
    + destruct Hi as [I1 I2 I3 I4]. simpl in *. destruct (I4 Hseen) as [Hemp Hts].
      split; simpl; [done|done|by eapply threads_revoked|done].
  - by apply panel_inv_close.
Qed.

(** *** Quarantine *)
Lemma loadLocked_failed s lf e :
  acs_failure s = Some e →
  loadLocked s lf = (s, Err (match acs_backend s with None => AccClosed | Some _ => e end)).
Proof. intros Hf. unfold loadLocked. rewrite Hf. by destruct (acs_backend s). Qed.

Lemma panel_step_failed p p' e :
  acs_failure (pn_acc p) = Some e → e ≠ AccMissing → panel_step p p' →
  acs_failure (pn_acc p') = Some e
  ∧ (acs_backend (pn_acc p') = acs_backend (pn_acc p) ∨ acs_backend (pn_acc p') = None)
  ∧ ses_sessions (pn_ses p') ⊆ ses_sessions (pn_ses p).
Proof.
  intros Hf He Hs.
  assert (Hld : ∀ lf, ∃ e', loadLocked (pn_acc p) lf = (pn_acc p, Err e') ∧ e' ≠ AccMissing).
  { intros lf. rewrite (loadLocked_failed _ _ e) by done. eexists. split; [done|].
    by destruct (acs_backend (pn_acc p)). }
  assert (Hsetup : ∀ lf f slot salt u pw acc' r, setup (pn_acc p) lf f slot salt u pw = (acc', r) →
    acc' = pn_acc p ∧ r ≠ Ok tt).
  { intros lf f slot salt u pw acc' r. unfold setup. destruct (negb _); [by intros [= <- <-]|].
    destruct (negb _); [by intros [= <- <-]|]. destruct (Hld lf) as (e' & -> & Hne).
    destruct e'; [by intros [= <- <-]|done|by intros [= <- <-]..]. }
  destruct Hs as [acc ses gh ts|acc ses gh ts lf|acc ses gh ts lf pw epoch acc' d Ht Hl
    |acc ses gh ts lf epoch d slot salt u pw acc' Ht Hd Hl
    |acc ses gh ts lf f slot salt u pw epoch acc' v Ht Hh Hs|acc ses gh ts lf f slot salt u pw acc' e0 Hs
    |acc ses gh ts lf ck t c now1 now2 epoch d acc' ses' r Ht Hs|acc ses gh ts lf s1 s2 salt cur new acc' r Hl
    |acc ses gh ts ce lf1 lf2 f d v t c now acc' ses' r Ht Hs|acc ses gh ts t now|acc ses gh ts t
    |acc ses gh ts t c now|acc ses gh ts fails]; simpl in *; try (by auto).
  - destruct (Hld lf) as (e' & -> & _). auto.
  - unfold authenticate_load in *. destruct (negb _); [done|]. destruct (Hld lf) as (e' & Heq & _). congruence.
  - unfold authenticate_recheck in *. destruct (Hld lf) as (e' & Heq & _). by rewrite Heq in *.
  - by eapply Hsetup in Hs as [_ ?].
  - eapply Hsetup in Hs as [-> _]. auto.
  - unfold issueSession in *. destruct (Hld lf) as (e' & Heq & _). rewrite Heq in *. simplify_eq. auto.
  - unfold changePassword_load in *. do 3 (destruct (_ : bool) in Hl; [simplify_eq; by auto|]).
    destruct (Hld lf) as (e' & Heq & _). rewrite Heq in *. simplify_eq. auto.
  - unfold changePassword_commit in *. destruct ce; [simplify_eq; by auto|].
    destruct (Hld lf1) as (e' & Heq & _). rewrite Heq in *. simplify_eq. auto.
  - split_and!; auto. apply find_shrinks.
  - split_and!; auto. apply revoke_shrinks.
  - split_and!; auto. destruct (revokeAll sha256 ses t c now) as [ses' r] eqn:Hr.
    apply revokeAll_cases in Hr as [[-> _]|[-> _]]; [done|]. apply map_empty_subseteq.
  - unfold account_Close. destruct (acs_backend acc) eqn:Hb; simpl; rewrite ?Hb; auto.
Qed.

Lemma panel_reach_failed p p' e :
  rtc panel_step p p' → acs_failure (pn_acc p) = Some e → e ≠ AccMissing →
  acs_failure (pn_acc p') = Some e
  ∧ (acs_backend (pn_acc p') = acs_backend (pn_acc p) ∨ acs_backend (pn_acc p') = None)
  ∧ ses_sessions (pn_ses p') ⊆ ses_sessions (pn_ses p).
Proof.
  induction 1 as [p|p1 p2 p3 Hs Hr IH]; [auto|]. intros Hf He.
  eapply panel_step_failed in Hs as (Hf2 & Hb2 & Hsub2); [|done|done].
  destruct (IH Hf2 He) as (Hf3 & Hb3 & Hsub3). split_and!; [done| |by etransitivity].
  destruct Hb3 as [->|]; auto.
Qed.

Lemma panel_reach_inv p p' : rtc panel_step p p' → panel_inv p → panel_inv p'.
Proof using Hspec. induction 1; eauto using panel_step_inv. Qed.

(** *** [changePassword] as a whole, when nothing interleaves *)
Definition changePassword (s : accountStore) (ses : sessionStore digest) (ctx_err : bool)
  (lf1 lf2 lf3 : rg_load_faults R) (f : rg_commit_faults R) (slot1 slot2 : bool) (salt : option (list Z))
  (currentPassword newPassword token csrf : string) (now : Z) :
  accountStore * sessionStore digest * res account_error unit :=
  match changePassword_load s lf1 slot1 slot2 salt currentPassword newPassword with
  | (s1, Err e) => (s1, ses, Err e)
  | (s1, Ok (d, verifier)) => changePassword_commit s1 ses ctx_err lf2 lf3 f d verifier token csrf now
  end.

Lemma Cred_Replace_Ok st lf f expected verifier st' :
  rg_inv st → Cred_Replace st lf f expected verifier = (st', Ok tt) →
  ∃ d, rg_load R st lf = Ok d ∧ doc_Revision d = expected ∧ expected ≠ max_uint64
       ∧ verifier ≠ doc_PasswordHash d
       ∧ (∀ lf' y, rg_load R st' lf' = Ok y → y = mkDocument 2 (expected + 1) (doc_Username d) verifier)
       ∧ rg_inv st'.
Proof using Hspec.
  intros Hi. unfold Cred_Replace. destruct (rg_load R st lf) as [d|] eqn:Hl; [|done].
  destruct (_ || _) eqn:Hg; [done|]. destruct (_ == _) eqn:Hv; [done|]. go_bool in Hv.
  destruct (negb (Document_Validate _)); [done|].
  destruct (rg_commit R st f expected (replaced d expected verifier)) as [st2 r2] eqn:Hcm.
  destruct r2 as [[]|]; [|done]. intros [= <-].
  pose proof (doc_valid_range d (rg_load_valid _ _ _ Hi Hl)) as Hr. go_bool in Hg.
  destruct Hg as [[? Hmax] Hrev]. subst expected.
  exists d. split_and!; try done.
  - apply rg_commit_Ok in Hcm as (_ & _ & _ & Hload & _); [|done|lia].
    intros lf' y Hy. rewrite (Hload _ _ Hy). unfold replaced. f_equal.
    unfold u64_add, wrap, max_uint64 in *. rewrite Z.mod_small; lia.
  - eapply commit_keeps in Hcm; [apply Hcm|done|lia].
Qed.

Lemma changePassword_load_Ok s lf slot1 slot2 salt cur new s1 d verifier :
  changePassword_load s lf slot1 slot2 salt cur new = (s1, Ok (d, verifier)) →
  loadLocked s lf = (s1, Ok d)
  ∧ PasswordHash.Verify argon2_Version IDKey slot1 (codes cur) (doc_PasswordHash d) = Ok true
  ∧ PasswordHash.Hash argon2_Version IDKey slot2 salt (codes new) = Ok verifier.
Proof.
  unfold changePassword_load. do 3 (destruct (_ : bool); [done|]).
  destruct (loadLocked s lf) as [s2 [x|e]]; [|done]. intros [= <- Hr].
  apply refuse_Ok in Hr as [_ Hr]. apply res_bind_Ok in Hr as (valid & Hv & Hr).
  apply refuse_Ok in Hr as [Hval Hr]. apply res_bind_Ok in Hr as (v & Hh & [= -> ->]).
  apply negb_false_iff in Hval as ->. unfold kdf in *.
  destruct (PasswordHash.Verify _ _ _ _ _); simplify_eq. destruct (PasswordHash.Hash _ _ _ _ _); simplify_eq. done.
Qed.

Lemma changePassword_load_Err s lf slot1 slot2 salt cur new s1 e :
  changePassword_load s lf slot1 slot2 salt cur new = (s1, Err e) → acs_backend s1 = acs_backend s.
Proof.
  unfold changePassword_load. do 3 (destruct (_ : bool); [by intros [= <- _]|]).
  destruct (loadLocked s lf) as [s2 [x|e2]] eqn:Hl; apply loadLocked_cases in Hl as [Hb _];
    intros [= <- _]; done.
Qed.

(** What the final section of a password change can leave behind. *)
Lemma changePassword_commit_cases s ses ctx_err lf1 lf2 f d verifier token csrf now s' ses' r :
  (∀ st, acs_backend s = Some st → rg_inv st) →
  changePassword_commit s ses ctx_err lf1 lf2 f d verifier token csrf now = (s', ses', r) →
  match r with
  | Ok _ => ∃ st', s' = mkAccountStore (Some st') true None ∧ rg_inv st'
      ∧ ses' = mkSessionStore ∅ (ses_epoch ses + 1)
      ∧ ∀ lf y, rg_load R st' lf = Ok y → y = mkDocument 2 (doc_Revision d + 1) (doc_Username d) verifier
  | Err _ => (ses' = ses ∧ acs_backend s' = acs_backend s)
             ∨ (ses' = mkSessionStore ∅ (ses_epoch ses + 1) ∧ acs_failure s' ≠ None)
  end.
Proof using Hspec.
  intros Hi. unfold changePassword_commit. destruct ctx_err; [intros [= <- <- <-]; by left|].
  destruct (loadLocked s lf1) as [s1 [latest|e]] eqn:Hl; apply loadLocked_cases in Hl as (Hb & _ & _ & Hl).
  2: { intros [= <- <- <-]. by left. }
  destruct (latest != d) eqn:Hne; [intros [= <- <- <-]; by left|]. go_bool in Hne. subst latest.
  destruct Hl as (st & -> & Hst & _ & Hld). specialize (Hi st Hst).
  destruct (revokeAll sha256 ses token csrf now) as [ses1 rr] eqn:Hr.
  apply revokeAll_cases in Hr as [[-> Hr]|[-> ->]].
  { destruct rr as [[]|e]; [done|]. intros [= <- <- <-]. by left. }
  unfold backend_Replace. simpl.
  destruct (Cred_Replace st lf2 f (doc_Revision d) verifier) as [st1 [[]|e]] eqn:Hc;
    intros [= <- <- <-]; [|by right].
  apply Cred_Replace_Ok in Hc as (d2 & Hl2 & Hrev & Hmax & Hv & Hload & Hi1); [|done].
  rewrite (rg_load_det _ _ _ _ _ Hi Hl2 Hld) in Hload. by exists st1.
Qed.

(** A freshly opened store with no sessions and no request in flight. *)
Definition fresh_panel (st : rg_state R) (epoch : Z) : panel :=
  mkPanel (mkAccountStore (Some st) false None) (newSessionStore epoch) ∅ [].

(** [ownAccountBackend] leaves the fresh panel, or one status check after it. *)
Lemma own_reachable st lf s epoch :
  ownAccountBackend (Ok st) lf = Ok s →
  s = mkAccountStore (Some st) false None
  ∨ panel_step (fresh_panel st epoch) (mkPanel s (newSessionStore epoch) ∅ []).
Proof.
  unfold ownAccountBackend. pose proof (ps_status (mkAccountStore (Some st) false None) (newSessionStore epoch) ∅ [] lf) as Hs.
  destruct (loadLocked _ lf) as [s' [d|e]] eqn:Hl; simpl in Hs; [by intros [= <-]; right|].
  apply loadLocked_cases in Hl as (_ & _ & _ & Hl). destruct e; try done. intros [= <-]. left. apply Hl.
Qed.

Lemma fresh_panel_inv st epoch : rg_inv st → panel_inv (fresh_panel st epoch).
Proof. intros Hi. split; simpl; [by intros ? [= <-]|done|constructor|]. intros _. split; [done|]. set_solver. Qed.

(** A usable store answers for its document. *)
Lemma authenticate_known s lf1 lf2 slot salt username password d st :
  acs_backend s = Some st → acs_failure s = None → rg_load R st lf1 = Ok d → rg_load R st lf2 = Ok d →
  Document_Validate d = true → validSetupPassword password = true → username = doc_Username d →
  (authenticate s lf1 lf2 slot salt username password).2 =
  kdf (PasswordHash.Verify argon2_Version IDKey slot (codes password) (doc_PasswordHash d)).
Proof.
  intros Hb Hf H1 H2 Hv Hp ->. unfold authenticate, authenticate_load, loadLocked. rewrite Hp, Hb, Hf. simpl.
  unfold backend_Load. rewrite H1, Hv. simpl. unfold authenticate_derive.
  assert (ValidUsername (doc_Username d) = true) as Hu.
  { unfold Document_Validate in Hv. go_bool in Hv. tauto. }
  rewrite Hu, bool_decide_eq_true_2 by done. simpl.
  destruct (kdf _) as [b|e]; [|done]. unfold authenticate_recheck, loadLocked, backend_Load. simpl.
  rewrite H2, Hv. simpl. by rewrite bool_decide_eq_true_2.
Qed.

Lemma setup_Ok s lf f slot salt username password s' :
  (∀ st, acs_backend s = Some st → rg_inv st) → acs_failure s = None →
  setup s lf f slot salt username password = (s', Ok tt) →
  ∃ st' verifier, PasswordHash.Hash argon2_Version IDKey slot salt (codes password) = Ok verifier
    ∧ s' = mkAccountStore (Some st') true None ∧ validSetupPassword password = true
    ∧ Document_Validate (mkDocument 2 1 username verifier) = true
    ∧ ∀ lf' y, rg_load R st' lf' = Ok y → y = mkDocument 2 1 username verifier.
Proof using Hspec.
  intros Hi Hf. unfold setup. destruct (negb (ValidUsername _)); [done|].
  destruct (validSetupPassword password) eqn:Hp; [|done]. simpl.
  destruct (loadLocked s lf) as [s1 [x|e]] eqn:Hl; [done|].
  destruct e; try done. apply loadLocked_cases in Hl as (_ & _ & _ & -> & Hcase).
  unfold kdf. destruct (PasswordHash.Hash _ _ _ _ _) as [verifier|] eqn:Hh; [|done].
  destruct (acs_backend s) as [st|] eqn:Hb; [|done]. unfold backend_Initialize, Cred_Initialize.
  destruct (Document_Validate (mkDocument 2 1 username verifier)) eqn:Hv; simpl; [|done].
  destruct (rg_commit R st f 0 (mkDocument 2 1 username verifier)) as [st1 [[]|e]] eqn:Hc;
    [|simpl; destruct e; done].
  simpl. rewrite Hf. intros [= <-]. exists st1, verifier. split_and!; try done.
  apply rg_commit_Ok in Hc as (_ & _ & _ & Hload & _); [done|by apply Hi|unfold max_uint64; lia].
Qed.

End panel.

(** ** The login windows over time *)

(** How many of a sequence of calls are admitted, and the window they leave. *)
Fixpoint admitted (w : window) (times : list Z) : Z :=
  match times with
  | [] => 0
  | t :: ts => (if (allow w t).2 then 1 else 0) + admitted (allow w t).1 ts
  end.
Definition window_after (w : window) (times : list Z) : window := foldl (λ w t, (allow w t).1) w times.

Record window_ok (w : window) : Prop := {
  wo_bound : 0 ≤ win_attempts w ≤ loginMaxAttempts;
  wo_open : ∀ at_, win_at w = Some at_ → 1 ≤ win_attempts w }.

(** The window is kept: the call is counted in it. *)
Definition in_window (w : window) (t : Z) : Prop := ∃ at_, win_at w = Some at_ ∧ at_ ≤ t < at_ + loginWindow.

Lemma allow_kept w t :
  in_window w t → allow w t = (if loginMaxAttempts <=? win_attempts w then (w, false)
                               else (mkWindow (win_at w) (win_attempts w + 1), true)).
Proof.
  intros (at_ & Hw & Ht). unfold allow. rewrite Hw.
  destruct (Z.leb_spec loginWindow (t - at_)); [lia|]. destruct (Z.ltb_spec t at_); [lia|]. simpl. by rewrite Hw.
Qed.

Lemma allow_reset w t : ¬ in_window w t → allow w t = (mkWindow (Some t) 1, true).
Proof.
  intros Hn. unfold allow. destruct (win_at w) as [at_|] eqn:Hw; [|done].
  destruct (Z.leb_spec loginWindow (t - at_)); [done|]. destruct (Z.ltb_spec t at_); [done|].
  destruct Hn. exists at_. split; [done|lia].
Qed.

Lemma in_window_dec w t : in_window w t ∨ ¬ in_window w t.
Proof.
  unfold in_window. destruct (win_at w) as [at_|]; [|right; naive_solver].
  destruct (decide (at_ ≤ t < at_ + loginWindow)); [left; eauto|right; naive_solver].
Qed.

Lemma allow_ok w t : window_ok w → window_ok (allow w t).1.
Proof.
  intros [H1 H2]. destruct (in_window_dec w t) as [Hi|Hn].
  - rewrite allow_kept by done. destruct (Z.leb_spec loginMaxAttempts (win_attempts w)); [done|].
    split; simpl; [lia|intros at_ Hat; specialize (H2 at_ Hat); lia].
  - rewrite allow_reset by done. split; simpl; unfold loginMaxAttempts; intros; lia.
Qed.

Lemma window_after_ok w times : window_ok w → window_ok (window_after w times).
Proof. revert w. induction times as [|t ts IH]; intros w Hw; [done|]. apply IH. by apply allow_ok. Qed.

Lemma admitted_kept w times :
  window_ok w → Forall (in_window w) times → admitted w times ≤ loginMaxAttempts - win_attempts w.
Proof.
  intros Hw HF. revert w Hw HF. induction times as [|t ts IH]; intros w Hw HF; simpl; [destruct Hw; lia|].
  apply Forall_cons in HF as [Ht HF]. pose proof (allow_ok w t Hw) as Hok.
  rewrite allow_kept in * by done. destruct (Z.leb_spec loginMaxAttempts (win_attempts w)) as [Hle|Hlt]; simpl in *.
  - specialize (IH w Hw HF). lia.
  - specialize (IH (mkWindow (win_at w) (win_attempts w + 1)) Hok HF). simpl in IH. lia.
Qed.

Lemma admitted_span w t0 times :
  window_ok w → StronglySorted Z.le times → Forall (λ t, t0 ≤ t < t0 + loginWindow) times →
  admitted w times ≤ 2 * loginMaxAttempts - win_attempts w
  ∧ (win_at w = None → admitted w times ≤ loginMaxAttempts).
Proof.
  intros Hw Hs HF. revert w Hw. induction Hs as [|t ts Hs IH Hle]; intros w Hw.
  { destruct Hw. simpl. unfold loginMaxAttempts in *. lia. }
  apply Forall_cons in HF as [Ht HF]. destruct (in_window_dec w t) as [Hi|Hn]; simpl.
  - pose proof (allow_ok w t Hw) as Hok. rewrite allow_kept in * by done.
    split; [|by destruct Hi as (at_ & -> & _)].
    destruct (Z.leb_spec loginMaxAttempts (win_attempts w)); simpl in *.
    + by apply IH.
    + destruct (IH HF _ Hok) as [IH1 _]. simpl in IH1. lia.
  - rewrite allow_reset by done. simpl.
    assert (admitted (mkWindow (Some t) 1) ts ≤ loginMaxAttempts - 1).
    { apply (admitted_kept (mkWindow (Some t) 1)).
      - split; simpl; unfold loginMaxAttempts; intros; lia.
      - rewrite Forall_forall in HF, Hle |- *. intros t' Ht'. exists t. split; [done|].
        specialize (HF t' Ht'). specialize (Hle t' Ht'). simpl in *. lia. }
    destruct Hw. lia.
Qed.

(** ** Properties *)

(** C4: no session outlives the credentials that authorised it. Whatever the
    interleaving of status checks, logins, set-ups, password changes, logouts,
    expiries, storage failures and shutdown, if a session is in the store and
    the account store serves a document, that document is the one the session
    was issued under, and its credentials were presented: a password was
    verified against it or the set-up derived it. *)
Theorem no_stale_sessions argon2_Version IDKey `{Countable digest} (sha256 : list Z → digest)
  (R : Register Document) `{Hspec : !RegisterSpec R doc_Revision (doc_valid argon2_Version)}
  st0 epoch p key session lf acc' d :
  rg_inv st0 → rtc (panel_step argon2_Version IDKey sha256 R) (fresh_panel R st0 epoch) p →
  ses_sessions (pn_ses R p) !! key = Some session →
  loadLocked argon2_Version R (pn_acc R p) lf = (acc', Ok d) →
  pn_ghost R p !! key = Some d ∧ authorised argon2_Version IDKey d.
Proof.
  intros Hi Hr Hk Hl. apply (panel_reach_inv argon2_Version IDKey sha256 R) in Hr; [|by apply fresh_panel_inv].
  destruct (pi_sessions _ _ _ _ Hr key session Hk) as (g & Hg & Ha & Hau).
  apply loadLocked_cases in Hl as (_ & _ & _ & st & -> & Hb & Hf & Hld).
  by rewrite (Ha st lf d Hb Hf Hld).
Qed.

(** An in-memory register for concrete runs. *)
Definition toy_register : Register Document := memory_register doc_Revision (doc_valid 19).
#[export] Instance toy_spec : RegisterSpec toy_register doc_Revision (doc_valid 19).
Proof. apply memory_spec. intros d Hd. apply doc_valid_range in Hd. lia. Defined.

Definition toy_password : string := "correct horse battery".
Definition toy_document : Document :=
  mkDocument 2 1 "admin" (match PasswordHash.Hash 19 PasswordHash.toy_key true (Some (replicate 16 0)) (codes toy_password)
                          with Ok v => v | Err _ => "" end).
Definition toy_store (d : option Document) : accountStore toy_register :=
  mkAccountStore toy_register (Some d) (match d with Some _ => true | None => false end) None.

Lemma toy_setup :
  setup 19 PasswordHash.toy_key toy_register (toy_store None) tt tt true (Some (replicate 16 0)) "admin" toy_password
  = (toy_store (Some toy_document), Ok tt).
Proof. vm_cast_no_check (@eq_refl _ (toy_store (Some toy_document), Ok (E := account_error) tt)). Qed.

Lemma no_stale_sessions_witness :
  ∃ p : panel toy_register (digest := Z),
    ses_sessions (pn_ses toy_register p) !! toy_digest toy_token = Some toy_session
    ∧ pn_ghost toy_register p !! toy_digest toy_token = Some toy_document
    ∧ authorised 19 PasswordHash.toy_key toy_document.
Proof.
  set (threads := [Checked 7 toy_document; Captured 7]).
  exists (mkPanel toy_register (toy_store (Some toy_document)) toy_created {[toy_digest toy_token := toy_document]} threads).
  assert (Hs : ses_sessions toy_created !! toy_digest toy_token = Some toy_session) by (vm_compute; reflexivity).
  split; [exact Hs|].
  apply (no_stale_sessions 19 PasswordHash.toy_key toy_digest toy_register None 7 _ (toy_digest toy_token) toy_session
    tt (toy_store (Some toy_document)) toy_document); [| |exact Hs|].
  - simpl. intros x Hx. discriminate Hx.
  - eapply rtc_l; [apply ps_capture|].
    eapply rtc_l; [|eapply rtc_l; [|apply rtc_refl]].
    + eapply (ps_setup 19 PasswordHash.toy_key toy_digest toy_register (toy_store None) (newSessionStore 7)
        ∅ [Captured 7] tt tt true (Some (replicate 16 0)) "admin" toy_password 7
        (toy_store (Some toy_document)) (doc_PasswordHash toy_document)).
      * vm_compute. left.
      * vm_compute. reflexivity.
      * exact toy_setup.
    + apply (ps_issue 19 PasswordHash.toy_key toy_digest toy_register (toy_store (Some toy_document)) (newSessionStore 7)
        ∅ threads tt None toy_token toy_token 100 100 7 toy_document (toy_store (Some toy_document)) toy_created
        (Ok (Base64.EncodeToString Base64.RawURL toy_token))).
      * left.
      * vm_cast_no_check (@eq_refl _ (toy_store (Some toy_document), toy_created,
          Ok (E := account_error) (Base64.EncodeToString Base64.RawURL toy_token))).
  - vm_cast_no_check (@eq_refl _ (toy_store (Some toy_document), Ok (E := account_error) toy_document)).
Defined.

(** Quarantine. Once a storage failure has been recorded, in every later
    state the failure stands, the durable state is the one of the failure (or
    the store is closed), no new session appears, and every load is refused. *)
Theorem quarantine_final argon2_Version IDKey `{Countable digest} (sha256 : list Z → digest)
  (R : Register Document) p p' e lf :
  rtc (panel_step argon2_Version IDKey sha256 R) p p' → acs_failure R (pn_acc R p) = Some e → e ≠ AccMissing →
  acs_failure R (pn_acc R p') = Some e
  ∧ (acs_backend R (pn_acc R p') = acs_backend R (pn_acc R p) ∨ acs_backend R (pn_acc R p') = None)
  ∧ ses_sessions (pn_ses R p') ⊆ ses_sessions (pn_ses R p)
  ∧ ∃ e', loadLocked argon2_Version R (pn_acc R p') lf = (pn_acc R p', Err e').
Proof.
  intros Hr Hf He. destruct (panel_reach_failed _ _ _ _ _ _ _ Hr Hf He) as (Hf' & Hb & Hs).
  split_and!; try done. rewrite (loadLocked_failed _ _ _ _ e) by done. eauto.
Qed.

Lemma quarantine_final_witness :
  ∃ e', loadLocked 19 toy_register (mkAccountStore toy_register (Some None) true (Some AccUnavailable)) tt
        = (mkAccountStore toy_register (Some None) true (Some AccUnavailable), Err e').
Proof.
  apply (quarantine_final 19 PasswordHash.toy_key toy_digest toy_register
    (mkPanel toy_register (mkAccountStore toy_register (Some None) true (Some AccUnavailable)) toy_created ∅ [])
    (mkPanel toy_register (mkAccountStore toy_register (Some None) true (Some AccUnavailable)) toy_created ∅ [])
    AccUnavailable tt).
  - apply rtc_refl.
  - reflexivity.
  - discriminate.
Defined.

(** C33: the outcomes of a password change. Success means that the current
    password was verified against the loaded document, that every session is
    revoked and that the only document that can be read afterwards has the next
    revision, the same user name and the verifier of the new password. A
    refusal leaves the sessions and the durable state as they were, or all
    sessions are revoked and the store is quarantined. *)
Theorem changePassword_outcomes argon2_Version IDKey `{Countable digest} (sha256 : list Z → digest)
  (R : Register Document) `{Hspec : !RegisterSpec R doc_Revision (doc_valid argon2_Version)}
  s ses ctx_err lf1 lf2 lf3 f slot1 slot2 salt cur new token csrf now s' ses' r :
  (∀ st, acs_backend R s = Some st → rg_inv st) →
  changePassword argon2_Version IDKey sha256 R s ses ctx_err lf1 lf2 lf3 f slot1 slot2 salt cur new token csrf now
    = (s', ses', r) →
  match r with
  | Ok _ => ∃ d verifier st',
      (loadLocked argon2_Version R s lf1).2 = Ok d
      ∧ PasswordHash.Verify argon2_Version IDKey slot1 (codes cur) (doc_PasswordHash d) = Ok true
      ∧ PasswordHash.Hash argon2_Version IDKey slot2 salt (codes new) = Ok verifier
      ∧ ses' = mkSessionStore ∅ (ses_epoch ses + 1)
      ∧ s' = mkAccountStore R (Some st') true None
      ∧ ∀ lf y, rg_load R st' lf = Ok y → y = mkDocument 2 (doc_Revision d + 1) (doc_Username d) verifier
  | Err _ => (ses' = ses ∧ acs_backend R s' = acs_backend R s)
             ∨ (ses' = mkSessionStore ∅ (ses_epoch ses + 1) ∧ acs_failure R s' ≠ None)
  end.
Proof.
  intros Hi. unfold changePassword.
  destruct (changePassword_load _ _ _ s lf1 slot1 slot2 salt cur new) as [s1 [[d verifier]|e]] eqn:Hl.
  2: { intros [= <- <- <-]. left. split; [done|]. by eapply changePassword_load_Err. }
  apply changePassword_load_Ok in Hl as (Hld & Hv & Hh). intros Hc.
  pose proof (loadLocked_cases _ _ _ _ _ _ Hld) as (Hb & _).
  assert (Hi1 : ∀ st, acs_backend R s1 = Some st → rg_inv st) by (rewrite Hb; done).
  apply (changePassword_commit_cases argon2_Version sha256 R) in Hc; [|exact Hi1].
  destruct r as [[]|e].
  - destruct Hc as (st' & -> & _ & -> & Hload). exists d, verifier, st'. by rewrite Hld.
  - rewrite Hb in Hc. done.
Qed.

Lemma changePassword_outcomes_witness :
  ∃ s' ses' d verifier st',
    changePassword 19 PasswordHash.toy_key toy_digest toy_register (toy_store (Some toy_document)) toy_created false
      tt tt tt tt true true (Some (replicate 16 1)) toy_password "another long password"
      (Base64.EncodeToString Base64.RawURL toy_token) (as_csrf toy_session) 200 = (s', ses', Ok tt)
    ∧ ses' = mkSessionStore ∅ 8 ∧ s' = mkAccountStore toy_register (Some st') true None
    ∧ ∀ lf y, rg_load toy_register st' lf = Ok y → y = mkDocument 2 (doc_Revision d + 1) (doc_Username d) verifier.
Proof.
  destruct (changePassword 19 PasswordHash.toy_key toy_digest toy_register (toy_store (Some toy_document)) toy_created
    false tt tt tt tt true true (Some (replicate 16 1)) toy_password "another long password"
    (Base64.EncodeToString Base64.RawURL toy_token) (as_csrf toy_session) 200) as [[s' ses'] r] eqn:Hc.
  assert (Hr : r = Ok tt) by (change r with (s', ses', r).2; rewrite <- Hc; vm_compute; reflexivity).
  subst r. pose proof Hc as Hok. apply (changePassword_outcomes 19 PasswordHash.toy_key toy_digest toy_register) in Hok
    as (d & verifier & st' & _ & _ & _ & Hses & Hs & Hl).
  - exists s', ses', d, verifier, st'. split; [reflexivity|]. split; [exact Hses|]. split; [exact Hs|exact Hl].
  - intros st Hst. injection Hst as <-. intros x Hx. injection Hx as <-. vm_compute. reflexivity.
Defined.

(** Set-up then login. After a successful first set-up, authenticating with
    the same user name and password against a readable store answers yes; and
    with another acceptable password it answers yes exactly when the key
    derivation cannot tell the two passwords apart. *)
Theorem setup_then_login argon2_Version IDKey (R : Register Document)
  `{Hspec : !RegisterSpec R doc_Revision (doc_valid argon2_Version)}
  s lf f salt username password s' st' lf1 lf2 d1 d2 salt2 other :
  0 ≤ argon2_Version →
  (∀ p s, Forall Base64.is_byte (IDKey p s PasswordHash.defaultIterations PasswordHash.defaultMemoryKiB
       PasswordHash.defaultThreads PasswordHash.keyLength)
     ∧ len (IDKey p s PasswordHash.defaultIterations PasswordHash.defaultMemoryKiB
       PasswordHash.defaultThreads PasswordHash.keyLength) = PasswordHash.keyLength) →
  Forall Base64.is_byte salt → len salt = PasswordHash.saltLength →
  (∀ st, acs_backend R s = Some st → rg_inv st) → acs_failure R s = None →
  setup argon2_Version IDKey R s lf f true (Some salt) username password = (s', Ok tt) →
  acs_backend R s' = Some st' → rg_load R st' lf1 = Ok d1 → rg_load R st' lf2 = Ok d2 →
  validSetupPassword other = true →
  (authenticate argon2_Version IDKey R s' lf1 lf2 true salt2 username password).2 = Ok true
  ∧ (authenticate argon2_Version IDKey R s' lf1 lf2 true salt2 username other).2
    = Ok (bool_decide (IDKey (codes other) salt PasswordHash.defaultIterations PasswordHash.defaultMemoryKiB
                         PasswordHash.defaultThreads PasswordHash.keyLength
                       = IDKey (codes password) salt PasswordHash.defaultIterations PasswordHash.defaultMemoryKiB
                         PasswordHash.defaultThreads PasswordHash.keyLength)).
Proof.
  intros Hv HK Hsb Hsl Hi Hf Hs Hb H1 H2 Ho.
  apply (setup_Ok argon2_Version IDKey R) in Hs as (st & verifier & Hh & -> & Hp & Hval & Hload); [|done|done].
  simplify_eq/=. pose proof (Hload _ _ H1) as ->. pose proof (Hload _ _ H2) as ->.
  rewrite !(authenticate_known argon2_Version IDKey R (mkAccountStore R (Some st') true None) lf1 lf2 true salt2
    _ _ _ _ eq_refl eq_refl H1 H2 Hval) by done.
  destruct (PasswordHash.Hash_accepts argon2_Version IDKey salt (codes password) verifier) as (_ & Hok & Hother); [done..|].
  simpl. rewrite Hok, Hother by (by apply validSetupPassword_length). done.
Qed.

Lemma setup_then_login_witness :
  (authenticate 19 PasswordHash.toy_key toy_register (toy_store (Some toy_document)) tt tt true (Some (replicate 16 2))
     "admin" toy_password).2 = Ok true.
Proof.
  refine (proj1 (setup_then_login 19 PasswordHash.toy_key toy_register (toy_store None) tt tt (replicate 16 0) "admin"
    toy_password (toy_store (Some toy_document)) (Some toy_document) tt tt toy_document toy_document
    (Some (replicate 16 2)) toy_password _ _ _ _ _ _ toy_setup _ _ _ _)); try reflexivity.
  - lia.
  - intros p s. unfold PasswordHash.toy_key. split; [|reflexivity]. apply Forall_replicate. unfold Base64.is_byte.
    apply Z.mod_pos_bound. lia.
  - apply Forall_replicate. unfold Base64.is_byte. lia.
  - intros st Hst. injection Hst as <-. intros x Hx. discriminate Hx.
Defined.

(** The rate limit. Whatever happened before, among calls at
    non-decreasing times inside any span shorter than the one-minute window at
    most nine are admitted, five at the start; and the first call made a minute
    or more after a window opened is admitted. *)
Theorem allow_limits earlier t0 times :
  StronglySorted Z.le times → Forall (λ t, t0 ≤ t < t0 + loginWindow) times →
  admitted (window_after (mkWindow None 0) earlier) times ≤ 9
  ∧ admitted (mkWindow None 0) times ≤ 5
  ∧ (∀ w at_ now, win_at w = Some at_ → at_ + loginWindow ≤ now →
       (allow w now).2 = true ∧ (allowPasswordChange w now).2 = true).
Proof.
  intros Hs HF.
  assert (H0 : window_ok (mkWindow None 0)) by (split; simpl; unfold loginMaxAttempts; naive_solver lia).
  pose proof (window_after_ok _ earlier H0) as Hw.
  destruct (admitted_span _ t0 times Hw Hs HF) as [Hle Hnone].
  destruct (admitted_span _ t0 times H0 Hs HF) as [_ Hfirst]. unfold loginMaxAttempts in *.
  split_and!; [|by apply Hfirst|].
  - destruct (win_at (window_after (mkWindow None 0) earlier)) as [at_|] eqn:Hat.
    + pose proof (wo_open _ Hw at_ Hat). lia.
    + specialize (Hnone eq_refl). lia.
  - intros w at_ now Hat Hn. unfold allowPasswordChange.
    rewrite allow_reset; [done|]. intros (at' & Hat' & ?). simplify_eq. lia.
Qed.

Lemma allow_limits_witness :
  admitted (window_after (mkWindow None 0) [0]) [1; 2; 3; 4; 60000000000; 60000000000; 60000000000; 60000000000;
    60000000000; 60000000000] ≤ 9
  ∧ admitted (window_after (mkWindow None 0) [0]) [1; 2; 3; 4; 60000000000; 60000000000; 60000000000; 60000000000;
    60000000000; 60000000000] = 9.
Proof.
  split; [|vm_compute; reflexivity].
  refine (proj1 (allow_limits [0] 1 _ _ _)).
  - repeat (constructor; [|repeat (constructor; [lia|]); constructor]). constructor.
  - repeat (constructor; [unfold loginWindow; lia|]). constructor.
Defined.

End PanelAuth.
