(* ===== verification/PanelHTTP.v ===== *)
(** * The panel's HTTP handlers: [auth_controller.go], [auth_password.go]

    One definition per handler, each run to completion on the controller's
    state; how the locked sections of concurrent requests interleave is the
    subject of [Panel.v].  The origin check of [transport.go], the media-type
    parser and the JSON decoder are parameters; the clock, storage faults, random
    bytes and the request's context are the fields of [env]. *)

From S2P Require Import Prelude GoStrings Base64 Password Sessions Store Register ConfigJson Panel.

Module PanelHTTP.
Import PanelSessions PanelAuth ConfigJson.

(** ** Requests and responses *)
Record request := mkRequest {
  rq_Method : string;
  rq_Path : string;
  rq_RawQuery : string;
  rq_ForceQuery : bool;
  rq_ContentLength : Z;
  rq_TransferEncoding : list string;
  rq_cookies : list string;            (* values of the cookies named [cookieName r] *)
  rq_csrf : list string;               (* values of X-PhantoWD-CSRF *)
  rq_ContentType : list string;
  rq_ContentEncoding : list string;
  rq_Body : reader }.

Inductive body :=
| BError (code : string)
| BAuthStatus (setup_required authenticated : bool)
| BAuthenticated
| BSession (csrf_token : string) (expires_at : Z)
| BLoggedOut | BAllRevoked | BPasswordChanged.
#[export] Instance body_eq_dec : EqDecision body. Proof. solve_decision. Defined.

Inductive cookie_effect := NoCookie | SetCookie (token : string) | ClearCookie.
#[export] Instance cookie_effect_eq_dec : EqDecision cookie_effect. Proof. solve_decision. Defined.

Record response := mkResponse { rs_status : Z; rs_body : body; rs_cookie : cookie_effect }.
Definition reply (status : Z) (b : body) : response := mkResponse status b NoCookie.
Definition error_reply (status : Z) (code : string) : response := reply status (BError code).

(** [http.Header.Get] *)
Definition header_get (values : list string) : string := default "" (head values).

Definition authStatusPath := "/api/v1/auth/status".
Definition authSetupPath := "/api/v1/auth/setup".
Definition authLoginPath := "/api/v1/auth/login".
Definition authSessionPath := "/api/v1/auth/session".
Definition authLogoutPath := "/api/v1/auth/logout".
Definition authLogoutAllPath := "/api/v1/auth/logout-all".
Definition authPasswordPath := "/api/v1/auth/password".
Definition maxAuthBodySize : Z := 2048.
Definition maxPasswordChangeBody : Z := 16 * 1024.

Definition isAuthPath (path : string) : bool :=
  path ∈? [authStatusPath; authSetupPath; authLoginPath; authSessionPath; authLogoutPath; authLogoutAllPath;
           authPasswordPath].

(** ** Request checks *)

(** [requireMethod] and [readRequestHasNoInput]: [None] lets the handler go on. *)
Definition requireMethod (r : request) (method : string) : option response :=
  if rq_Method r == method then None else Some (error_reply 405 "method_not_allowed").

Definition readRequestHasNoInput (r : request) : option response :=
  if (rq_RawQuery r != "") || rq_ForceQuery r || negb (rq_ContentLength r =? 0) || negb (len (rq_TransferEncoding r) =? 0)
  then Some (error_reply 400 "unexpected_input") else None.

(** [io.ReadAll(http.MaxBytesReader(...))] *)
Definition max_bytes_read (limit : Z) (rd : reader) : option string :=
  if rd_fails rd || (limit <? slength (rd_data rd)) then None else Some (rd_data rd).

(** What the handlers call outside the modelled code. *)
Record externals := mkExternals {
  x_validOrigin : request → bool;                                  (* validOrigin(r, a.allowedOrigin) *)
  x_ParseMediaType : string → option (string * gmap string string);  (* mime.ParseMediaType *)
  x_NewDecoder : string → decoder;                                 (* json.NewDecoder *)
  x_decode_login : string → option (string * string * bool);
    (* the fields of a login or set-up request, and whether the input then ends *)
  x_decode_change : string → option (string * string) }.

Section handlers.
Context (argon2_Version : Z) (IDKey : list Z → list Z → Z → Z → Z → Z → list Z).
Context `{Countable digest} (sha256 : list Z → digest).
Context (R : Register Document) (X : externals).

Definition decodeAuthJSON (r : request) : option (string * string) :=
  match rq_ContentType r with
  | [contentType] =>
    if header_get (rq_ContentEncoding r) != "" then None
    else match x_ParseMediaType X contentType with
    | None => None
    | Some (mediaType, _) =>
      if (mediaType != "application/json") || (rq_RawQuery r != "") || rq_ForceQuery r
         || (maxAuthBodySize <? rq_ContentLength r) then None
      else match max_bytes_read maxAuthBodySize (rq_Body r) with
      | None => None
      | Some data =>
        if negb (is_ok (rejectDuplicateJSONKeys (x_NewDecoder X data))) then None
        else match x_decode_login X data with
        | Some (request, true) => Some request
        | _ => None
        end
      end
    end
  | _ => None
  end.

(** No character but the ASCII letters folds to one of [utf-8]. *)
Definition decodePasswordChange (r : request) : option (string * string) :=
  if negb (len (rq_ContentType r) =? 1) || negb (len (rq_ContentEncoding r) =? 0) || (rq_RawQuery r != "")
     || rq_ForceQuery r || (maxPasswordChangeBody <? rq_ContentLength r) then None
  else match x_ParseMediaType X (header_get (rq_ContentType r)) with
  | None => None
  | Some (media, params) =>
    if (media != "application/json") || (1 <? Z.of_nat (size params))
       || ((Z.of_nat (size params) =? 1) && (to_lower (default "" (params !! "charset")) != "utf-8"))
    then None
    else match Decode (x_NewDecoder X) (x_decode_change X) (rq_Body r) maxPasswordChangeBody 1
                 (Some (λ k, (k == "current_password") || (k == "new_password"))) with
    | Ok x => Some x
    | Err _ => None
    end
  end.

(** ** The controller *)
Record authController := mkAuthController {
  ac_accounts : accountStore R;
  ac_sessions : sessionStore digest;
  ac_login : window;
  ac_password : window;
  ac_passwordSlot : bool }.              (* the slot is taken *)

Definition newAuthController (accounts : accountStore R) (epoch : Z) : authController :=
  mkAuthController accounts (newSessionStore epoch) (mkWindow None 0) (mkWindow None 0) false.

Definition with_accounts (a : authController) (s : accountStore R) : authController :=
  mkAuthController s (ac_sessions a) (ac_login a) (ac_password a) (ac_passwordSlot a).
Definition with_sessions (a : authController) (ses : sessionStore digest) : authController :=
  mkAuthController (ac_accounts a) ses (ac_login a) (ac_password a) (ac_passwordSlot a).

(** The successive readings of the clock and the outcomes of the successive
    loads of one request, its commit, key derivations and random bytes. *)
Record env := mkEnv {
  e_now : nat → Z;
  e_load : nat → rg_load_faults R;
  e_commit : rg_commit_faults R;
  e_slot1 : bool; e_slot2 : bool; e_salt : option (list Z);
  e_random : option (list Z) * option (list Z);
  e_cancelled : bool }.

Definition sessionFromRequest (ses : sessionStore digest) (r : request) (now : Z) :
  sessionStore digest * option (string * authSession) :=
  match head (rq_cookies r) with
  | None => (ses, None)
  | Some token => match find sha256 ses token now with
                  | (ses', Some session) => (ses', Some (token, session))
                  | (ses', None) => (ses', None)
                  end
  end.

Definition status (e : env) (a : authController) (r : request) : authController * response :=
  match requireMethod r "GET", readRequestHasNoInput r with
  | Some x, _ => (a, x)
  | None, Some x => (a, x)
  | None, None =>
    match configured argon2_Version R (ac_accounts a) (e_load e 0) with
    | (s, Err _) => (with_accounts a s, error_reply 503 "account_state_unavailable")
    | (s, Ok conf) =>
      let '(ses, found) := sessionFromRequest (ac_sessions a) r (e_now e 0) in
      (with_sessions (with_accounts a s) ses,
       reply 200 (BAuthStatus (negb conf) (conf && (match found with Some _ => true | None => false end))))
    end
  end.

(** [a.issueSession]: [sessionFromRequest] looks at the first cookie. *)
Definition issue (e : env) (a : authController) (r : request) (code : Z) (epoch : Z) : authController * response :=
  let '(s, ses, result) :=
    issueSession argon2_Version sha256 R (ac_accounts a) (ac_sessions a) (e_load e 9) (head (rq_cookies r))
      (e_random e) (e_now e 8) (e_now e 9) epoch in
  let a' := with_sessions (with_accounts a s) ses in
  match result with
  | Err _ => (a', error_reply 503 "session_unavailable")
  | Ok token => (a', mkResponse code BAuthenticated (SetCookie token))
  end.

Definition setup_handler (e : env) (a : authController) (r : request) : authController * response :=
  match requireMethod r "POST" with
  | Some x => (a, x)
  | None =>
    if negb (x_validOrigin X r) then (a, error_reply 403 "origin_not_allowed")
    else match decodeAuthJSON r with
    | None => (a, error_reply 400 "invalid_request")
    | Some (username, password) =>
      let epoch := currentEpoch (ac_sessions a) in
      match setup argon2_Version IDKey R (ac_accounts a) (e_load e 0) (e_commit e) (e_slot1 e) (e_salt e)
              username password with
      | (s, Err err) =>
        (with_accounts a s,
         match err with
         | AccConfigured => error_reply 409 "setup_unavailable"
         | InvalidUsername | ShortPassword => error_reply 400 "invalid_setup"
         | _ => error_reply 503 "account_setup_failed"
         end)
      | (s, Ok _) => issue e (with_accounts a s) r 201 epoch
      end
    end
  end.

Definition login (e : env) (a : authController) (r : request) : authController * response :=
  match requireMethod r "POST" with
  | Some x => (a, x)
  | None =>
    if negb (x_validOrigin X r) then (a, error_reply 403 "origin_not_allowed")
    else
      let '(w, allowed) := allow (ac_login a) (e_now e 0) in
      let a := mkAuthController (ac_accounts a) (ac_sessions a) w (ac_password a) (ac_passwordSlot a) in
      if negb allowed then (a, error_reply 429 "login_rate_limited")
      else match decodeAuthJSON r with
      | None => (a, error_reply 400 "invalid_request")
      | Some (username, password) =>
        let epoch := currentEpoch (ac_sessions a) in
        match authenticate argon2_Version IDKey R (ac_accounts a) (e_load e 0) (e_load e 1) (e_slot1 e) (e_salt e)
                username password with
        | (s, Err AccMissing) => (with_accounts a s, error_reply 409 "setup_required")
        | (s, Err Credentials) => (with_accounts a s, error_reply 401 "invalid_credentials")
        | (s, Err _) => (with_accounts a s, error_reply 503 "authentication_unavailable")
        | (s, Ok false) => (with_accounts a s, error_reply 401 "invalid_credentials")
        | (s, Ok true) => issue e (with_accounts a s) r 200 epoch
        end
      end
  end.

Definition session_handler (e : env) (a : authController) (r : request) : authController * response :=
  match requireMethod r "GET", readRequestHasNoInput r with
  | Some x, _ => (a, x)
  | None, Some x => (a, x)
  | None, None =>
    match configured argon2_Version R (ac_accounts a) (e_load e 0) with
    | (s, Err _) => (with_accounts a s, error_reply 503 "account_state_unavailable")
    | (s, Ok false) => (with_accounts a s, error_reply 401 "authentication_required")
    | (s, Ok true) =>
      let '(ses, found) := sessionFromRequest (ac_sessions a) r (e_now e 0) in
      (with_sessions (with_accounts a s) ses,
       match found with
       | None => error_reply 401 "authentication_required"
       | Some (_, session) => reply 200 (BSession (as_csrf session) (as_expiresAt session))
       end)
    end
  end.

Definition logout (e : env) (a : authController) (r : request) : authController * response :=
  match requireMethod r "POST" with
  | Some x => (a, x)
  | None =>
    if negb (x_validOrigin X r) then (a, error_reply 403 "origin_not_allowed")
    else match readRequestHasNoInput r with
    | Some x => (a, x)
    | None =>
      match sessionFromRequest (ac_sessions a) r (e_now e 0) with
      | (ses, None) => (with_sessions a ses, mkResponse 401 (BError "authentication_required") ClearCookie)
      | (ses, Some (token, session)) =>
        if negb (validCSRF session (header_get (rq_csrf r)))
        then (with_sessions a ses, error_reply 403 "csrf_validation_failed")
        else (with_sessions a (revoke sha256 ses token), mkResponse 200 BLoggedOut ClearCookie)
      end
    end
  end.

Definition authorize (e : env) (a : authController) (r : request) : authController * bool :=
  match configured argon2_Version R (ac_accounts a) (e_load e 0) with
  | (s, Err _) => (with_accounts a s, false)
  | (s, Ok false) => (with_accounts a s, false)
  | (s, Ok true) =>
    let '(ses, found) := sessionFromRequest (ac_sessions a) r (e_now e 0) in
    (with_sessions (with_accounts a s) ses, match found with Some _ => true | None => false end)
  end.

Definition validateCSRF (e : env) (a : authController) (r : request) : authController * bool :=
  let '(ses, found) := sessionFromRequest (ac_sessions a) r (e_now e 0) in
  (with_sessions a ses,
   match found with Some (_, session) => validCSRF session (header_get (rq_csrf r)) | None => false end).

Definition logoutAll (e : env) (a : authController) (r : request) : authController * response :=
  match requireMethod r "POST" with
  | Some x => (a, x)
  | None =>
    if negb (x_validOrigin X r) then (a, error_reply 403 "origin_not_allowed")
    else match readRequestHasNoInput r with
    | Some x => (a, x)
    | None =>
      match rq_cookies r with
      | [token] =>
        if negb (len (rq_csrf r) =? 1) then (a, error_reply 403 "csrf_validation_failed")
        else match revokeAll sha256 (ac_sessions a) token (header_get (rq_csrf r)) (e_now e 0) with
        | (ses, Err ErrSessionCSRF) => (with_sessions a ses, error_reply 403 "csrf_validation_failed")
        | (ses, Err _) => (with_sessions a ses, mkResponse 401 (BError "authentication_required") ClearCookie)
        | (ses, Ok _) => (with_sessions a ses, mkResponse 200 BAllRevoked ClearCookie)
        end
      | _ => (a, mkResponse 401 (BError "authentication_required") ClearCookie)
      end
    end
  end.

Definition password_error (err : account_error) : Z * string :=
  match err with
  | Credentials => (401, "current_password_invalid")
  | ShortPassword | PasswordUnchanged => (422, "new_password_invalid")
  | AccConflict => (409, "credential_revision_conflict")
  | AccSession ErrSessionMissing => (401, "authentication_required")
  | AccSession ErrSessionCSRF => (403, "csrf_validation_failed")
  | AccUncertain => (503, "password_change_reconciliation_required")
  | _ => (503, "password_change_unavailable")
  end.

(** [revoked] of the handler: the callback has run without error. *)
Definition revoked (before after : sessionStore digest) : bool := ses_epoch before <? ses_epoch after.

Definition changePassword_handler (e : env) (a : authController) (r : request) : authController * response :=
  match requireMethod r "POST" with
  | Some x => (a, x)
  | None =>
    if negb (x_validOrigin X r) then (a, error_reply 403 "origin_not_allowed")
    else match rq_cookies r with
    | [token] =>
      match find sha256 (ac_sessions a) token (e_now e 0) with
      | (ses, None) => (with_sessions a ses, error_reply 401 "authentication_required")
      | (ses, Some session) =>
        let a := with_sessions a ses in
        if negb (len (rq_csrf r) =? 1) || negb (validCSRF session (header_get (rq_csrf r)))
        then (a, error_reply 403 "csrf_validation_failed")
        else match configured argon2_Version R (ac_accounts a) (e_load e 0) with
        | (s, Ok true) =>
          let a := with_accounts a s in
          match decodePasswordChange r with
          | None => (a, error_reply 400 "invalid_request")
          | Some (cur, new) =>
            if ac_passwordSlot a then (a, error_reply 503 "password_change_busy")
            else
              let '(w, allowed) := allowPasswordChange (ac_password a) (e_now e 1) in
              let a := mkAuthController (ac_accounts a) (ac_sessions a) (ac_login a) w (ac_passwordSlot a) in
              if negb allowed then (a, error_reply 429 "password_change_rate_limited")
              else
                let '(s, ses', result) :=
                  changePassword argon2_Version IDKey sha256 R (ac_accounts a) (ac_sessions a) (e_cancelled e)
                    (e_load e 1) (e_load e 2) (e_load e 3) (e_commit e) (e_slot1 e) (e_slot2 e) (e_salt e) cur new
                    token (header_get (rq_csrf r)) (e_now e 2) in
                let cookie := if revoked (ac_sessions a) ses' then ClearCookie else NoCookie in
                (with_sessions (with_accounts a s) ses',
                 match result with
                 | Ok _ => mkResponse 200 BPasswordChanged cookie
                 | Err err => mkResponse (password_error err).1 (BError (password_error err).2) cookie
                 end)
          end
        | (s, _) => (with_accounts a s, error_reply 503 "account_state_unavailable")
        end
      end
    | _ => (a, error_reply 401 "authentication_required")
    end
  end.

Definition serve (e : env) (a : authController) (r : request) : option (authController * response) :=
  if rq_Path r == authStatusPath then Some (status e a r)
  else if rq_Path r == authSetupPath then Some (setup_handler e a r)
  else if rq_Path r == authLoginPath then Some (login e a r)
  else if rq_Path r == authSessionPath then Some (session_handler e a r)
  else if rq_Path r == authLogoutPath then Some (logout e a r)
  else if rq_Path r == authLogoutAllPath then Some (logoutAll e a r)
  else if rq_Path r == authPasswordPath then Some (changePassword_handler e a r)
  else None.

(** ** What a request without authority can do *)

(** Nothing durable, nothing counted, no session created, no live session
    removed. *)
Record unharmed (now : Z) (a a' : authController) : Prop := {
  uh_backend : acs_backend R (ac_accounts a') = acs_backend R (ac_accounts a);
  uh_login : ac_login a' = ac_login a;
  uh_password : ac_password a' = ac_password a;
  uh_epoch : ses_epoch (ac_sessions a') = ses_epoch (ac_sessions a);
  uh_shrink : ses_sessions (ac_sessions a') ⊆ ses_sessions (ac_sessions a);
  uh_live : ∀ key session, ses_sessions (ac_sessions a) !! key = Some session →
    expired now session = false → ses_sessions (ac_sessions a') !! key = Some session }.

Lemma unharmed_refl now a : unharmed now a a.
Proof. by split. Qed.

Lemma unharmed_accounts now a lf s r :
  configured argon2_Version R (ac_accounts a) lf = (s, r) → unharmed now a (with_accounts a s).
Proof.
  unfold configured. destruct (loadLocked argon2_Version R (ac_accounts a) lf) as [s' x] eqn:Hl.
  intros Hc. assert (s = s') as -> by (destruct x as [|[]]; by simplify_eq).
  apply loadLocked_cases in Hl as [Hb _]. by split.
Qed.

Lemma unharmed_find now a token :
  unharmed now a (with_sessions a (find sha256 (ac_sessions a) token now).1).
Proof.
  pose proof (find_shrinks sha256 (ac_sessions a) token now) as [He Hs]. split; try done. simpl.
  intros key session Hk Hx. unfold find. destruct (token_key sha256 token) as [key'|]; [|done].
  destruct (ses_sessions (ac_sessions a) !! key') as [session'|] eqn:Hk'; [|done].
  destruct (expired now session') eqn:Hx'; [|done]. simpl. apply lookup_delete_Some. split; [|done].
  intros ->. congruence.
Qed.

Lemma unharmed_trans now a1 a2 a3 : unharmed now a1 a2 → unharmed now a2 a3 → unharmed now a1 a3.
Proof.
  intros [] []. split; try congruence; [by etransitivity|]. eauto.
Qed.

Lemma unharmed_session now a r :
  unharmed now a (with_sessions a (sessionFromRequest (ac_sessions a) r now).1).
Proof.
  unfold sessionFromRequest. destruct (head (rq_cookies r)) as [token|]; [|by destruct a].
  pose proof (unharmed_find now a token). by destruct (find sha256 (ac_sessions a) token now) as [ses []].
Qed.

(** The session a request presents, with the CSRF value it must carry. *)
Definition proves_csrf (a : authController) (r : request) : Prop :=
  ∃ token key session, head (rq_cookies r) = Some token ∧ token_key sha256 token = Some key
    ∧ ses_sessions (ac_sessions a) !! key = Some session ∧ header_get (rq_csrf r) = as_csrf session.

Lemma find_Some ses token now ses' session :
  find sha256 ses token now = (ses', Some session) →
  ses' = ses ∧ ∃ key, token_key sha256 token = Some key ∧ ses_sessions ses !! key = Some session.
Proof. unfold find. intros Hf. repeat case_match; simplify_eq. eauto. Qed.

Lemma session_csrf a r now ses token session :
  sessionFromRequest (ac_sessions a) r now = (ses, Some (token, session)) →
  validCSRF session (header_get (rq_csrf r)) = true → proves_csrf a r.
Proof.
  unfold sessionFromRequest. destruct (head (rq_cookies r)) as [t|] eqn:Hc; [|done].
  destruct (find sha256 (ac_sessions a) t now) as [ses' [x|]] eqn:Hf; [|done]. intros [= <- <- <-] Hv.
  apply find_Some in Hf as [-> (key & Hk & Hs)]. apply validCSRF_eq in Hv. by exists t, key, x.
Qed.

Lemma status_unharmed e a r : unharmed (e_now e 0) a (status e a r).1.
Proof.
  unfold status. destruct (requireMethod r "GET"); [apply unharmed_refl|].
  destruct (readRequestHasNoInput r); [apply unharmed_refl|].
  destruct (configured _ _ _ _) as [s [conf|]] eqn:Hc; apply (unharmed_accounts (e_now e 0)) in Hc; [|done].
  pose proof (unharmed_session (e_now e 0) (with_accounts a s) r) as Hs. simpl in Hs.
  destruct (sessionFromRequest _ _ _) as [ses found]. simpl in *. by eapply unharmed_trans.
Qed.

Lemma session_unharmed e a r : unharmed (e_now e 0) a (session_handler e a r).1.
Proof.
  unfold session_handler. destruct (requireMethod r "GET"); [apply unharmed_refl|].
  destruct (readRequestHasNoInput r); [apply unharmed_refl|].
  destruct (configured _ _ _ _) as [s [[]|]] eqn:Hc; apply (unharmed_accounts (e_now e 0)) in Hc; [|done..].
  pose proof (unharmed_session (e_now e 0) (with_accounts a s) r) as Hs. simpl in Hs.
  destruct (sessionFromRequest _ _ _) as [ses found]. simpl in *. by eapply unharmed_trans.
Qed.

(** A state-changing handler starts with the method and the origin. *)
Definition post_origin (r : request) : bool := (rq_Method r == "POST") && x_validOrigin X r.

Lemma post_origin_true r : requireMethod r "POST" = None → x_validOrigin X r = true → post_origin r = true.
Proof. unfold post_origin, requireMethod. by destruct (rq_Method r == "POST"). Qed.

Lemma setup_unharmed e a r : post_origin r = false → unharmed (e_now e 0) a (setup_handler e a r).1.
Proof.
  intros Hno. unfold setup_handler. destruct (requireMethod r "POST") eqn:Hm; [apply unharmed_refl|].
  destruct (x_validOrigin X r) eqn:Ho; [by rewrite post_origin_true in Hno|apply unharmed_refl].
Qed.

Lemma login_unharmed e a r : post_origin r = false → unharmed (e_now e 0) a (login e a r).1.
Proof.
  intros Hno. unfold login. destruct (requireMethod r "POST") eqn:Hm; [apply unharmed_refl|].
  destruct (x_validOrigin X r) eqn:Ho; [by rewrite post_origin_true in Hno|apply unharmed_refl].
Qed.

Lemma logout_unharmed e a r :
  post_origin r = false ∨ ¬ proves_csrf a r → unharmed (e_now e 0) a (logout e a r).1.
Proof.
  intros Hno. unfold logout. destruct (requireMethod r "POST") eqn:Hm; [apply unharmed_refl|].
  destruct (x_validOrigin X r) eqn:Ho; [|apply unharmed_refl].
  destruct Hno as [Hno|Hno]; [by rewrite post_origin_true in Hno|].
  cbn [negb]. destruct (readRequestHasNoInput r); [apply unharmed_refl|].
  pose proof (unharmed_session (e_now e 0) a r) as Hs.
  destruct (sessionFromRequest (ac_sessions a) r (e_now e 0)) as [ses [[token session]|]] eqn:Hf; [|done].
  destruct (validCSRF session _) eqn:Hv; [|done]. destruct Hno. by eapply session_csrf.
Qed.

Lemma logoutAll_unharmed e a r :
  post_origin r = false ∨ ¬ proves_csrf a r → unharmed (e_now e 0) a (logoutAll e a r).1.
Proof.
  intros Hno. unfold logoutAll. destruct (requireMethod r "POST") eqn:Hm; [apply unharmed_refl|].
  destruct (x_validOrigin X r) eqn:Ho; [|apply unharmed_refl].
  destruct Hno as [Hno|Hno]; [by rewrite post_origin_true in Hno|].
  cbn [negb]. destruct (readRequestHasNoInput r); [apply unharmed_refl|].
  destruct (rq_cookies r) as [|token [|]] eqn:Hck; try apply unharmed_refl.
  destruct (negb (len (rq_csrf r) =? 1)); [apply unharmed_refl|].
  unfold revokeAll. destruct (token_key sha256 token) as [key|] eqn:Hk; [|by destruct a].
  destruct (ses_sessions (ac_sessions a) !! key) as [session|] eqn:Hs; [|by destruct a].
  destruct (expired (e_now e 0) session); [by destruct a|].
  destruct (validCSRF session (header_get (rq_csrf r))) eqn:Hv; [|by destruct a].
  destruct Hno. apply validCSRF_eq in Hv. exists token, key, session. by rewrite Hck.
Qed.

Lemma changePassword_unharmed e a r :
  post_origin r = false ∨ ¬ proves_csrf a r → unharmed (e_now e 0) a (changePassword_handler e a r).1.
Proof.
  intros Hno. unfold changePassword_handler. destruct (requireMethod r "POST") eqn:Hm; [apply unharmed_refl|].
  destruct (x_validOrigin X r) eqn:Ho; [|apply unharmed_refl].
  destruct Hno as [Hno|Hno]; [by rewrite post_origin_true in Hno|].
  cbn [negb]. destruct (rq_cookies r) as [|token [|]] eqn:Hck; try apply unharmed_refl.
  pose proof (unharmed_find (e_now e 0) a token) as Hs.
  destruct (find sha256 (ac_sessions a) token (e_now e 0)) as [ses [session|]] eqn:Hf; [|done].
  destruct (validCSRF session (header_get (rq_csrf r))) eqn:Hv; [|rewrite orb_true_r; done].
  destruct Hno. apply find_Some in Hf as [-> (key & Hk & Hl)]. apply validCSRF_eq in Hv.
  exists token, key, session. by rewrite Hck.
Qed.

(** ** Where sessions come from *)

(** A session is issued for a token it stores. *)
Definition issued (a' : authController) (e : env) (token : string) : Prop :=
  ∃ tokenBytes csrfBytes session, e_random e = (Some tokenBytes, Some csrfBytes)
    ∧ token = Base64.EncodeToString Base64.RawURL tokenBytes
    ∧ ses_sessions (ac_sessions a') !! sha256 tokenBytes = Some session
    ∧ as_csrf session = Base64.EncodeToString Base64.RawURL csrfBytes.

Lemma issue_SetCookie e a r code epoch a' resp token :
  issue e a r code epoch = (a', resp) → rs_cookie resp = SetCookie token →
  rs_status resp = code ∧ issued a' e token.
Proof.
  unfold issue, issueSession. destruct (loadLocked _ _ _ _) as [s [d|]]; [|by intros [= <- <-]].
  set (ses1 := match head (rq_cookies r) with None => _ | Some _ => _ end).
  destruct (createForEpoch _ ses1 _ _ _) as [ses2 [[t x]|]] eqn:Hc; [|by intros [= <- <-]].
  intros [= <- <-] [= <-]. split; [done|]. unfold createForEpoch in Hc.
  destruct (e_random e) as [[tb|] [cb|]] eqn:Hr; try done. destruct (_ != _); [done|]. cbv zeta in Hc.
  destruct (_ <=? _); [done|]. simplify_eq. eexists tb, cb, _. split_and!; [done|done|apply lookup_insert_eq|done].
Qed.

(** The credentials a login presents are those of the stored document. *)
Definition login_authorised (e : env) (a : authController) (username password : string) : Prop :=
  ∃ d, (loadLocked argon2_Version R (ac_accounts a) (e_load e 0)).2 = Ok d ∧ doc_Username d = username
    ∧ PasswordHash.Verify argon2_Version IDKey (e_slot1 e) (codes password) (doc_PasswordHash d) = Ok true.

Lemma authenticate_true s lf1 lf2 slot salt username password s' :
  authenticate argon2_Version IDKey R s lf1 lf2 slot salt username password = (s', Ok true) →
  ∃ d, (loadLocked argon2_Version R s lf1).2 = Ok d ∧ doc_Username d = username
    ∧ PasswordHash.Verify argon2_Version IDKey slot (codes password) (doc_PasswordHash d) = Ok true.
Proof.
  unfold authenticate, authenticate_load. destruct (negb _); [done|].
  destruct (loadLocked argon2_Version R s lf1) as [s1 [d|]]; [|done]. intros Hc. exists d. split; [done|].
  destruct (authenticate_derive _ _ d slot salt username password) as [valid|] eqn:Hd; [|done].
  assert (valid = true) as ->.
  { unfold authenticate_recheck in Hc. destruct (loadLocked _ _ _ _) as [s2 [x|]]; [|done].
    destruct (x != d); [done|]. by simplify_eq. }
  unfold authenticate_derive in Hd. destruct (_ || _) eqn:Hu.
  - destruct (kdf _); done.
  - apply orb_false_iff in Hu as [_ Hu]. go_bool in Hu. split; [done|]. unfold kdf in Hd.
    destruct (PasswordHash.Verify _ _ _ _ _); by simplify_eq.
Qed.

Lemma login_SetCookie e a r a' resp token :
  login e a r = (a', resp) → rs_cookie resp = SetCookie token →
  post_origin r = true ∧ (allow (ac_login a) (e_now e 0)).2 = true ∧ rs_status resp = 200 ∧ issued a' e token
  ∧ ∃ username password, decodeAuthJSON r = Some (username, password) ∧ login_authorised e a username password.
Proof.
  unfold login. destruct (requireMethod r "POST") as [x|] eqn:Hm.
  { unfold requireMethod in Hm. destruct (_ == _); simplify_eq. by intros [= <- <-]. }
  destruct (x_validOrigin X r) eqn:Ho; cbn [negb]; [|by intros [= <- <-]].
  destruct (allow (ac_login a) (e_now e 0)) as [w allowed] eqn:Hw. destruct allowed; cbn [negb]; [|by intros [= <- <-]].
  destruct (decodeAuthJSON r) as [[username password]|]; [|by intros [= <- <-]]. cbn [ac_accounts ac_sessions].
  destruct (authenticate _ _ _ _ _ _ _ _ _ _) as [s [[]|err]] eqn:Ha.
  - intros Hi Hck. apply (issue_SetCookie _ _ _ _ _ _ _ _ Hi) in Hck as [-> Hiss].
    apply authenticate_true in Ha. split_and!; [by apply post_origin_true|done|done|done|]. by exists username, password.
  - by intros [= <- <-].
  - destruct err; by intros [= <- <-].
Qed.

Lemma setup_SetCookie e a r a' resp token :
  setup_handler e a r = (a', resp) → rs_cookie resp = SetCookie token →
  post_origin r = true ∧ rs_status resp = 201 ∧ issued a' e token
  ∧ (loadLocked argon2_Version R (ac_accounts a) (e_load e 0)).2 = Err AccMissing.
Proof.
  unfold setup_handler. destruct (requireMethod r "POST") as [x|] eqn:Hm.
  { unfold requireMethod in Hm. destruct (_ == _); simplify_eq. by intros [= <- <-]. }
  destruct (x_validOrigin X r) eqn:Ho; cbn [negb]; [|by intros [= <- <-]].
  destruct (decodeAuthJSON r) as [[username password]|]; [|by intros [= <- <-]].
  destruct (setup _ _ _ _ _ _ _ _ _ _) as [s [[]|err]] eqn:Hs; [|destruct err; by intros [= <- <-]].
  intros Hi Hck. apply (issue_SetCookie _ _ _ _ _ _ _ _ Hi) in Hck as [-> Hiss].
  split_and!; [by apply post_origin_true|done|done|]. unfold setup in Hs.
  do 2 (destruct (negb _); [done|]). destruct (loadLocked _ _ _ _) as [s1 [d|err]]; [done|]. by destruct err.
Qed.

End handlers.

(** Name the state a handler returns by the handler itself. *)
Ltac serve_case := match goal with |- Some ?h = Some (?a', ?resp) → _ =>
  intros [= Heq]; change a' with (a', resp).1; rewrite <- Heq end.

(** ** Properties *)

(** C26: no forged request. A request to the panel that is not a POST from the
    allowed origin, or that does not carry the CSRF value of the session it
    presents (login and set-up, which need none, apart), changes nothing
    durable, consumes no rate limit, creates no session and removes no session
    that is still live, whatever its path, body, cookies and headers. *)
Theorem serve_unforgeable argon2_Version IDKey `{Countable digest} (sha256 : list Z → digest)
  (R : Register Document) (X : externals) (e : env R) (a a' : authController R) (r : request) resp :
  post_origin X r = false
  ∨ (rq_Path r ∉ [authLoginPath; authSetupPath] ∧ ¬ proves_csrf sha256 R a r) →
  serve argon2_Version IDKey sha256 R X e a r = Some (a', resp) →
  unharmed R (e_now R e 0) a a'.
Proof.
  intros Hno. unfold serve.
  assert (Hcsrf : rq_Path r ≠ authLoginPath ∧ rq_Path r ≠ authSetupPath ∨ post_origin X r = false) by set_solver.
  assert (Hno' : post_origin X r = false ∨ ¬ proves_csrf sha256 R a r) by tauto.
  destruct (rq_Path r == authStatusPath); [serve_case; apply status_unharmed|].
  destruct (rq_Path r == authSetupPath) eqn:Hp; [go_bool in Hp|].
  { serve_case. apply setup_unharmed. tauto. }
  destruct (rq_Path r == authLoginPath) eqn:Hp2; [go_bool in Hp2|].
  { serve_case. apply login_unharmed. tauto. }
  destruct (rq_Path r == authSessionPath); [serve_case; apply session_unharmed|].
  destruct (rq_Path r == authLogoutPath); [serve_case; by apply logout_unharmed|].
  destruct (rq_Path r == authLogoutAllPath); [serve_case; by apply logoutAll_unharmed|].
  destruct (rq_Path r == authPasswordPath); [|done].
  serve_case. by apply changePassword_unharmed.
Qed.

Definition toy_externals : externals :=
  mkExternals (λ _, true) (λ s, Some (s, ∅)) (λ _, mkDecoder [TScalar] true)
    (λ s, Some ("admin", s, true)) (λ _, None).
Definition toy_request (path body : string) (cookies : list string) : request :=
  mkRequest "POST" path "" false (slength body) [] cookies [] ["application/json"] [] (mkReader body false).
Definition toy_env : env toy_register :=
  mkEnv toy_register (λ _, 100) (λ _, tt) tt true true (Some (replicate 16 0)) (Some toy_token, Some toy_token) false.
Definition toy_controller (d : option Document) (ses : sessionStore Z) : authController toy_register :=
  mkAuthController toy_register (toy_store d) ses (mkWindow None 0) (mkWindow None 0) false.
Definition toy_cookie : string := Base64.EncodeToString Base64.RawURL toy_token.

(** A logout with the session's cookie and no CSRF header. *)
Lemma serve_unforgeable_witness :
  unharmed toy_register 100 (toy_controller (Some toy_document) toy_created)
    (logout toy_digest toy_register toy_externals toy_env (toy_controller (Some toy_document) toy_created)
       (toy_request authLogoutPath "" [toy_cookie])).1.
Proof.
  apply (serve_unforgeable 19 PasswordHash.toy_key toy_digest toy_register toy_externals toy_env
    (toy_controller (Some toy_document) toy_created) _ (toy_request authLogoutPath "" [toy_cookie])
    (error_reply 403 "csrf_validation_failed")).
  - right. split; [vm_compute; set_solver|]. intros (token & key & session & Ht & Hk & Hs & Hc).
    injection Ht as <-. assert (key = toy_digest toy_token) as ->.
    { assert (Hk' : token_key toy_digest toy_cookie = Some (toy_digest toy_token)) by (vm_compute; reflexivity). congruence. }
    assert (Hs' : ses_sessions toy_created !! toy_digest toy_token = Some toy_session) by (vm_compute; reflexivity).
    change (ses_sessions toy_created !! toy_digest toy_token = Some session) in Hs.
    assert (session = toy_session) as -> by congruence. vm_compute in Hc. discriminate Hc.
  - vm_cast_no_check (@eq_refl _ (Some ((logout toy_digest toy_register toy_externals toy_env
      (toy_controller (Some toy_document) toy_created) (toy_request authLogoutPath "" [toy_cookie])).1,
      error_reply 403 "csrf_validation_failed"))).
Defined.

(** Sessions come from credentials. A response that sets a session cookie
    answers a POST from the allowed origin to the login path, inside the rate
    limit, whose decoded user name and password are verified against the stored
    document, or to the set-up path while no administrator exists; its token is
    that of a session the store now holds. *)
Theorem session_cookie_sound argon2_Version IDKey `{Countable digest} (sha256 : list Z → digest)
  (R : Register Document) (X : externals) (e : env R) (a a' : authController R) (r : request) resp token :
  serve argon2_Version IDKey sha256 R X e a r = Some (a', resp) → rs_cookie resp = SetCookie token →
  post_origin X r = true ∧ issued sha256 R a' e token
  ∧ ((rq_Path r = authLoginPath ∧ rs_status resp = 200 ∧ (allow (ac_login R a) (e_now R e 0)).2 = true
      ∧ ∃ username password, decodeAuthJSON X r = Some (username, password)
          ∧ login_authorised argon2_Version IDKey R e a username password)
     ∨ (rq_Path r = authSetupPath ∧ rs_status resp = 201
        ∧ (loadLocked argon2_Version R (ac_accounts R a) (e_load R e 0)).2 = Err AccMissing)).
Proof.
  unfold serve. intros Hs Hck.
  destruct (rq_Path r == authStatusPath).
  { unfold status, requireMethod, readRequestHasNoInput in Hs. by repeat case_match; simplify_eq/=. }
  destruct (rq_Path r == authSetupPath) eqn:Hp; [go_bool in Hp; injection Hs as Hs|].
  { apply (setup_SetCookie _ _ _ _ _ _ _ _ _ _ _ Hs) in Hck as (? & ? & ? & ?). tauto. }
  destruct (rq_Path r == authLoginPath) eqn:Hp2; [go_bool in Hp2; injection Hs as Hs|].
  { apply (login_SetCookie _ _ _ _ _ _ _ _ _ _ _ Hs) in Hck as (? & ? & ? & ? & ?). tauto. }
  destruct (rq_Path r == authSessionPath).
  { unfold session_handler, requireMethod, readRequestHasNoInput in Hs. by repeat case_match; simplify_eq/=. }
  destruct (rq_Path r == authLogoutPath).
  { unfold logout, requireMethod, readRequestHasNoInput in Hs. by repeat case_match; simplify_eq/=. }
  destruct (rq_Path r == authLogoutAllPath).
  { unfold logoutAll, requireMethod, readRequestHasNoInput in Hs. by repeat case_match; simplify_eq/=. }
  destruct (rq_Path r == authPasswordPath); [|done].
  unfold changePassword_handler, requireMethod in Hs. by repeat (case_match; simplify_eq/=).
Qed.

Lemma session_cookie_sound_witness :
  login_authorised 19 PasswordHash.toy_key toy_register toy_env (toy_controller (Some toy_document) (newSessionStore 7))
    "admin" toy_password.
Proof.
  destruct (serve 19 PasswordHash.toy_key toy_digest toy_register toy_externals toy_env
    (toy_controller (Some toy_document) (newSessionStore 7)) (toy_request authLoginPath toy_password [])) as [[a' resp]|] eqn:Hs.
  - assert (Hck : rs_cookie resp = SetCookie toy_cookie).
    { change resp with (default (a', resp) (Some (a', resp))).2. rewrite <- Hs. vm_compute. reflexivity. }
    pose proof (session_cookie_sound 19 PasswordHash.toy_key toy_digest toy_register toy_externals toy_env _ _ _ _ _ Hs Hck)
      as (_ & _ & [(_ & _ & _ & u & p & Hd & Hl)|(Hp & _)]); [|discriminate Hp].
    assert (Hd' : decodeAuthJSON toy_externals (toy_request authLoginPath toy_password []) = Some ("admin", toy_password))
      by (vm_compute; reflexivity).
    rewrite Hd' in Hd. injection Hd as <- <-. exact Hl.
  - assert (Hn : is_Some (serve 19 PasswordHash.toy_key toy_digest toy_register toy_externals toy_env
      (toy_controller (Some toy_document) (newSessionStore 7)) (toy_request authLoginPath toy_password []))) by (eexists; reflexivity).
    rewrite Hs in Hn. destruct Hn as [x Hx]. discriminate Hx.
Defined.

End PanelHTTP.
