(* ===== verification/Versions.v ===== *)
(** * Release versions: [releaseverify/version.go]

    [CompareVersions] as the code computes it, on the strings; the theorem says
    that on the versions it accepts it is a strict total order. *)

From S2P Require Import Prelude GoStrings.

Module Versions.

(** ** Go's [<] on strings: bytewise, a proper prefix first *)
Fixpoint bytes_lt (a b : list Z) : bool :=
  match a, b with
  | _, [] => false
  | [], _ :: _ => true
  | x :: a, y :: b => (x <? y) || ((x =? y) && bytes_lt a b)
  end.
Definition string_lt (a b : string) : bool := bytes_lt (codes a) (codes b).

Record semanticVersion := mkVersion {
  sv_major : string; sv_minor : string; sv_patch : string; sv_prerelease : list string }.

Inductive error := ErrInvalidVersion | ErrNotAnUpgrade.
#[export] Instance error_eq_dec : EqDecision error. Proof. solve_decision. Defined.

Definition isNumericIdentifier (value : string) : bool :=
  if value == "" then false else forallb is_digit (runes value).

Definition validNumericIdentifier (value : string) : bool :=
  if (value == "") || ((1 <? slength value) && (byte_at value 0 =? 48)) then false
  else forallb is_digit (runes value).

Definition validPrereleaseIdentifier (value : string) : bool :=
  if value == "" then false
  else if isNumericIdentifier value then validNumericIdentifier value
  else forallb (λ c, is_digit c || is_upper c || is_lower c || (c =? 45)) (runes value).

Definition maxVersionLength : Z := 128.

Definition parseVersion (value : string) : res error semanticVersion :=
  refuse (slength value <? 6) || (maxVersionLength <? slength value) || negb (byte_at value 0 =? 118) => ErrInvalidVersion ;;
  let coreAndPrerelease := match value with String _ s => s | EmptyString => EmptyString end in
  let '(core, prereleaseText, hasPrerelease) := cut "-" coreAndPrerelease in
  match split_on "." core with
  | [major; minor; patch] =>
    refuse negb (forallb validNumericIdentifier [major; minor; patch]) => ErrInvalidVersion ;;
    if negb hasPrerelease then Ok (mkVersion major minor patch [])
    else
      refuse prereleaseText == "" => ErrInvalidVersion ;;
      let prerelease := split_on "." prereleaseText in
      refuse negb (forallb validPrereleaseIdentifier prerelease) => ErrInvalidVersion ;;
      Ok (mkVersion major minor patch prerelease)
  | _ => Err ErrInvalidVersion
  end.

Definition compareNumericIdentifiers (left right : string) : Z :=
  if slength left <? slength right then -1
  else if slength right <? slength left then 1
  else if string_lt left right then -1
  else if string_lt right left then 1
  else 0.

(** one round of the loop over the pre-release identifiers *)
Definition compareIdentifiers (left right : string) : Z :=
  match isNumericIdentifier left, isNumericIdentifier right with
  | true, true => compareNumericIdentifiers left right
  | true, false => -1
  | false, true => 1
  | false, false => if string_lt left right then -1 else if string_lt right left then 1 else 0
  end.

(** the loop, over the common length *)
Fixpoint compareCommon (ls rs : list string) : Z :=
  match ls, rs with
  | a :: ls, b :: rs => let order := compareIdentifiers a b in
                        if order =? 0 then compareCommon ls rs else order
  | _, _ => 0
  end.

(** [for _, pair := range ... { if order != 0 { return order } }] *)
Fixpoint first_order (orders : list Z) : Z :=
  match orders with [] => 0 | o :: orders => if o =? 0 then first_order orders else o end.

Definition compareParsed (l r : semanticVersion) : Z :=
  let order := first_order [compareNumericIdentifiers (sv_major l) (sv_major r);
                            compareNumericIdentifiers (sv_minor l) (sv_minor r);
                            compareNumericIdentifiers (sv_patch l) (sv_patch r)] in
  if negb (order =? 0) then order
  else if (len (sv_prerelease l) =? 0) && (len (sv_prerelease r) =? 0) then 0
  else if len (sv_prerelease l) =? 0 then 1
  else if len (sv_prerelease r) =? 0 then -1
  else
    let order := compareCommon (sv_prerelease l) (sv_prerelease r) in
    if negb (order =? 0) then order
    else if len (sv_prerelease l) <? len (sv_prerelease r) then -1
    else if len (sv_prerelease r) <? len (sv_prerelease l) then 1
    else 0.

Definition CompareVersions (left right : string) : res error Z :=
  leftVersion ← parseVersion left;
  rightVersion ← parseVersion right;
  Ok (compareParsed leftVersion rightVersion).

Definition CheckMonotonicUpgrade (current target : string) : res error unit :=
  order ← CompareVersions target current;
  refuse order <=? 0 => ErrNotAnUpgrade ;; Ok tt.

(** ** Comparators

    A comparator answers negative, zero or positive; its laws are those of a
    strict total order. *)
Class Comparator {A} (c : A → A → Z) : Prop := {
  cmp_anti : ∀ x y, c y x = - c x y;
  cmp_eq : ∀ x y, c x y = 0 → x = y;
  cmp_trans : ∀ x y z, c x y < 0 → c y z < 0 → c x z < 0 }.

Lemma cmp_refl {A} (c : A → A → Z) `{!Comparator c} x : c x x = 0.
Proof. pose proof (cmp_anti x x). lia. Qed.

Lemma cmp_iff {A} (c : A → A → Z) `{!Comparator c} x y : c x y = 0 ↔ x = y.
Proof. split; [apply cmp_eq|]. intros ->. by apply cmp_refl. Qed.

(** Through an injection. *)
Lemma cmp_inj {A B} (f : A → B) `{!Inj eq eq f} (c : B → B → Z) `{!Comparator c} : Comparator (λ x y, c (f x) (f y)).
Proof. split; intros *; [apply cmp_anti|intros Hc%cmp_eq; by apply (inj f)|apply cmp_trans]. Qed.

(** First one comparator, then another. *)
Definition lex {A B} (c : A → A → Z) (d : B → B → Z) (x y : A * B) : Z :=
  if c x.1 y.1 =? 0 then d x.2 y.2 else c x.1 y.1.

#[export] Instance lex_comparator {A B} (c : A → A → Z) (d : B → B → Z) `{!Comparator c, !Comparator d} :
  Comparator (lex c d).
Proof.
  split; unfold lex.
  - intros [x1 x2] [y1 y2]; simpl. rewrite (cmp_anti (c := c) x1 y1), (cmp_anti (c := d) x2 y2).
    destruct (Z.eqb_spec (c x1 y1) 0), (Z.eqb_spec (- c x1 y1) 0); lia.
  - intros [x1 x2] [y1 y2]; simpl. destruct (Z.eqb_spec (c x1 y1) 0) as [H1|H1]; [|lia].
    intros H2. apply cmp_eq in H1, H2. by subst.
  - intros [x1 x2] [y1 y2] [z1 z2]; simpl.
    destruct (Z.eqb_spec (c x1 y1) 0) as [H1|H1]; [apply cmp_eq in H1 as ->|].
    + destruct (Z.eqb_spec (c y1 z1) 0); [apply cmp_trans|done].
    + intros H2. destruct (Z.eqb_spec (c y1 z1) 0) as [H3|H3].
      * apply cmp_eq in H3 as ->. intros _. by destruct (Z.eqb_spec (c x1 z1) 0).
      * intros H4. pose proof (cmp_trans _ _ _ H2 H4). destruct (Z.eqb_spec (c x1 z1) 0); lia.
Qed.

(** The order of a strict "less" test. *)
Definition order_of {A} (lt : A → A → bool) (x y : A) : Z := if lt x y then -1 else if lt y x then 1 else 0.

Lemma order_of_comparator {A} (lt : A → A → bool) :
  (∀ x y, lt x y = true → lt y x = true → False) →
  (∀ x y, lt x y = false → lt y x = false → x = y) →
  (∀ x y z, lt x y = true → lt y z = true → lt x z = true) → Comparator (order_of lt).
Proof.
  intros Ha He Ht. split; unfold order_of.
  - intros x y. destruct (lt y x) eqn:H1, (lt x y) eqn:H2; try done. by destruct (Ha x y).
  - intros x y. destruct (lt x y) eqn:H1; [done|]. destruct (lt y x) eqn:H2; [done|]. auto.
  - intros x y z. destruct (lt x y) eqn:H1; [|destruct (lt y x); lia].
    destruct (lt y z) eqn:H2; [|destruct (lt z y); lia]. by rewrite (Ht x y z).
Qed.

#[export] Instance Z_comparator : Comparator (order_of Z.ltb).
Proof. apply order_of_comparator; intros *; rewrite ?Z.ltb_lt, ?Z.ltb_ge; lia. Qed.

Lemma bytes_lt_irrefl a : bytes_lt a a = false.
Proof. induction a as [|x a IH]; [done|]. simpl. rewrite IH, Z.ltb_irrefl. by destruct (x =? x). Qed.

Lemma bytes_lt_trans a b c : bytes_lt a b = true → bytes_lt b c = true → bytes_lt a c = true.
Proof.
  revert b c. induction a as [|x a IH]; intros [|y b] [|z c]; simpl; try done.
  go_bool. intros [Hxy|[Hxy Hab]] [Hyz|[Hyz Hbc]]; [left; lia|left; lia|left; lia|right; split; [lia|by eapply IH]].
Qed.

Lemma bytes_lt_total a b : bytes_lt a b = false → bytes_lt b a = false → a = b.
Proof.
  revert b. induction a as [|x a IH]; intros [|y b]; simpl; try done.
  go_bool. intros [H1 H2] [H3 H4]. assert (x = y) as -> by lia. f_equal. apply IH; naive_solver.
Qed.

#[export] Instance string_comparator : Comparator (order_of string_lt).
Proof.
  apply order_of_comparator; unfold string_lt.
  - intros x y H1 H2. pose proof (bytes_lt_trans _ _ _ H1 H2) as H3. by rewrite bytes_lt_irrefl in H3.
  - intros x y H1 H2. apply codes_inj. by apply bytes_lt_total.
  - intros x y z. apply bytes_lt_trans.
Qed.

(** Lists, a proper prefix first. *)
Fixpoint list_order {A} (c : A → A → Z) (xs ys : list A) : Z :=
  match xs, ys with
  | [], [] => 0
  | [], _ :: _ => -1
  | _ :: _, [] => 1
  | x :: xs, y :: ys => if c x y =? 0 then list_order c xs ys else c x y
  end.

#[export] Instance list_comparator {A} (c : A → A → Z) `{!Comparator c} : Comparator (list_order c).
Proof.
  split.
  - intros xs. induction xs as [|x xs IH]; intros [|y ys]; simpl; try done. rewrite (cmp_anti (c := c) x y), IH.
    destruct (Z.eqb_spec (c x y) 0), (Z.eqb_spec (- c x y) 0); lia.
  - intros xs. induction xs as [|x xs IH]; intros [|y ys]; simpl; try done.
    destruct (Z.eqb_spec (c x y) 0) as [H1|H1]; [|lia]. intros H2. apply cmp_eq in H1 as ->. f_equal. auto.
  - intros xs. induction xs as [|x xs IH]; intros [|y ys] [|z zs]; simpl; try lia.
    destruct (Z.eqb_spec (c x y) 0) as [H1|H1]; [apply cmp_eq in H1 as ->|].
    + destruct (Z.eqb_spec (c y z) 0); [apply IH|done].
    + intros H2. destruct (Z.eqb_spec (c y z) 0) as [H3|H3].
      * apply cmp_eq in H3 as ->. intros _. by destruct (Z.eqb_spec (c x z) 0).
      * intros H4. pose proof (cmp_trans _ _ _ H2 H4). destruct (Z.eqb_spec (c x z) 0); lia.
Qed.

(** ** The code's comparisons are comparators *)
Lemma compareNumericIdentifiers_lex l r :
  compareNumericIdentifiers l r = lex (order_of Z.ltb) (order_of string_lt) (slength l, l) (slength r, r).
Proof.
  unfold compareNumericIdentifiers, lex, order_of. cbn [fst snd].
  destruct (slength l <? slength r); [done|]. by destruct (slength r <? slength l).
Qed.

#[export] Instance numeric_comparator : Comparator compareNumericIdentifiers.
Proof.
  assert (Inj eq eq (λ s : string, (slength s, s))) by (by intros ? ? [= _ ->]).
  pose proof (cmp_inj (λ s, (slength s, s)) (lex (order_of Z.ltb) (order_of string_lt))) as [Ha He Ht].
  split; intros *; rewrite !compareNumericIdentifiers_lex; [apply Ha|apply He|apply Ht].
Qed.

(** Numeric identifiers come first, by value; then the others, as strings. *)
Definition identifier_key (s : string) : Z * (Z * string) :=
  if isNumericIdentifier s then (0, (slength s, s)) else (1, (0, s)).

Lemma compareIdentifiers_lex l r :
  compareIdentifiers l r =
  lex (order_of Z.ltb) (lex (order_of Z.ltb) (order_of string_lt)) (identifier_key l) (identifier_key r).
Proof.
  unfold compareIdentifiers, identifier_key. rewrite compareNumericIdentifiers_lex.
  by destruct (isNumericIdentifier l), (isNumericIdentifier r).
Qed.

#[export] Instance identifier_comparator : Comparator compareIdentifiers.
Proof.
  assert (Inj eq eq identifier_key).
  { intros x y. unfold identifier_key. destruct (isNumericIdentifier x), (isNumericIdentifier y); congruence. }
  pose proof (cmp_inj identifier_key (lex (order_of Z.ltb) (lex (order_of Z.ltb) (order_of string_lt)))) as [Ha He Ht].
  split; intros *; rewrite !compareIdentifiers_lex; [apply Ha|apply He|apply Ht].
Qed.

Lemma compareCommon_list l r :
  (let order := compareCommon l r in
   if negb (order =? 0) then order
   else if len l <? len r then -1 else if len r <? len l then 1 else 0) = list_order compareIdentifiers l r.
Proof.
  cbv zeta. revert r. induction l as [|x l IH]; intros [|y r]; try done. simpl.
  assert (Hlen : ∀ (z : string) k, len (z :: k) = len k + 1) by (intros; unfold len; simpl; lia).
  assert (Hlt : ∀ a b, (a + 1 <? b + 1) = (a <? b)) by (intros; apply eq_true_iff_eq; rewrite !Z.ltb_lt; lia).
  rewrite !Hlen, !Hlt. destruct (Z.eqb_spec (compareIdentifiers x y) 0) as [H1|H1]; [by rewrite <- IH|].
  by destruct (Z.eqb_spec (compareIdentifiers x y) 0).
Qed.

(** A release follows its pre-releases. *)
Definition version_key (v : semanticVersion) : (string * string * string) * (Z * list string) :=
  ((sv_major v, sv_minor v, sv_patch v),
   (match sv_prerelease v with [] => 1 | _ => 0 end, sv_prerelease v)).
Definition version_order := lex (lex (lex compareNumericIdentifiers compareNumericIdentifiers) compareNumericIdentifiers)
  (lex (order_of Z.ltb) (list_order compareIdentifiers)).

Lemma compareParsed_lex l r : compareParsed l r = version_order (version_key l) (version_key r).
Proof.
  unfold compareParsed, version_order, version_key, lex. cbn [fst snd first_order].
  destruct (compareNumericIdentifiers (sv_major l) (sv_major r) =? 0) eqn:H1; [|by rewrite !H1].
  destruct (compareNumericIdentifiers (sv_minor l) (sv_minor r) =? 0) eqn:H2; [|by rewrite !H2].
  destruct (compareNumericIdentifiers (sv_patch l) (sv_patch r) =? 0) eqn:H3; [|by rewrite !H3].
  cbn [negb Z.eqb]. rewrite compareCommon_list.
  by destruct (sv_prerelease l) as [|x l'], (sv_prerelease r) as [|y r'].
Qed.

#[export] Instance parsed_comparator : Comparator compareParsed.
Proof.
  assert (Inj eq eq version_key).
  { intros [] []. unfold version_key. simpl. by intros [= -> -> -> _ ->]. }
  pose proof (cmp_inj version_key version_order) as [Ha He Ht].
  split; intros *; rewrite !compareParsed_lex; [apply Ha|apply He|apply Ht].
Qed.

(** ** Parsing is injective *)
Definition render (v : semanticVersion) : string :=
  String "v" (String.append (join_with "." [sv_major v; sv_minor v; sv_patch v])
    (match sv_prerelease v with [] => EmptyString | p => String "-" (join_with "." p) end)).

Lemma parseVersion_render value v : parseVersion value = Ok v → value = render v.
Proof.
  unfold parseVersion. intros [Hg H]%refuse_Ok.
  destruct value as [|c s]; [done|]. assert (c = "v"%char) as ->.
  { apply orb_false_iff in Hg as [_ Hv]. apply negb_false_iff, Z.eqb_eq in Hv. unfold byte_at in Hv.
    rewrite codes_String in Hv. simpl in Hv. by apply (code_inj c "v"%char). }
  destruct (cut "-" s) as [[core pre] has] eqn:Hcut. apply cut_spec in Hcut as [-> Hempty].
  destruct (split_on "." core) as [|major [|minor [|patch [|]]]] eqn:Hsp; try done.
  pose proof (join_split "." core) as Hj. rewrite Hsp in Hj.
  apply refuse_Ok in H as [_ H]. unfold render. destruct has; simpl in H.
  - apply refuse_Ok in H as [_ H]. apply refuse_Ok in H as [_ [= <-]]. cbn [sv_major sv_minor sv_patch sv_prerelease].
    rewrite Hj. destruct (split_on_cons "." pre) as (w & ws & Hw). rewrite Hw. rewrite <- Hw, join_split. done.
  - injection H as <-. cbn [sv_major sv_minor sv_patch sv_prerelease]. by rewrite Hj.
Qed.

(** ** Properties *)

(** On the versions it accepts, [CompareVersions] is a strict total order
    that tells any two different strings apart: swapping the arguments negates
    the answer, zero means equality of the strings, and "precedes" is
    transitive. Hence a chain of upgrades accepted by [CheckMonotonicUpgrade]
    never returns to a version it has left, nor to an earlier one. *)
Theorem CompareVersions_total_order a b c va vb vc :
  parseVersion a = Ok va → parseVersion b = Ok vb → parseVersion c = Ok vc →
  ∃ ab bc ac, CompareVersions a b = Ok ab ∧ CompareVersions b a = Ok (- ab)
    ∧ CompareVersions b c = Ok bc ∧ CompareVersions a c = Ok ac
    ∧ (ab = 0 ↔ a = b) ∧ (ab < 0 → bc < 0 → ac < 0)
    ∧ (CheckMonotonicUpgrade a b = Ok tt ↔ ab < 0)
    ∧ (CheckMonotonicUpgrade a b = Ok tt → CheckMonotonicUpgrade b c = Ok tt →
       CheckMonotonicUpgrade a c = Ok tt ∧ CheckMonotonicUpgrade c a ≠ Ok tt ∧ a ≠ c).
Proof.
  intros Ha Hb Hc. unfold CheckMonotonicUpgrade, CompareVersions. rewrite Ha, Hb, Hc. simpl.
  exists (compareParsed va vb), (compareParsed vb vc), (compareParsed va vc).
  rewrite (cmp_anti (c := compareParsed) va vb), (cmp_anti (c := compareParsed) vb vc), (cmp_anti (c := compareParsed) va vc).
  assert (Hup : ∀ o, ((if - o <=? 0 then Err ErrNotAnUpgrade else Ok tt) = Ok tt ↔ o < 0))
    by (intros o; destruct (Z.leb_spec (- o) 0); split; (done || lia)).
  split_and!; try done.
  - rewrite cmp_iff by apply _. split; [|congruence]. intros ->.
    by rewrite (parseVersion_render a vb), (parseVersion_render b vb).
  - apply cmp_trans.
  - rewrite !Hup. intros H1 H2. pose proof (cmp_trans _ _ _ H1 H2) as H3. split_and!; [done| |].
    + destruct (Z.leb_spec (compareParsed va vc) 0); [done|lia].
    + intros ->. assert (va = vc) as -> by congruence. rewrite cmp_refl in H3 by apply _. lia.
Qed.

Lemma CompareVersions_total_order_witness :
  CheckMonotonicUpgrade "v1.0.0-rc.2" "v1.2.10" = Ok tt ∧ CheckMonotonicUpgrade "v1.2.10" "v1.0.0-rc.2" ≠ Ok tt.
Proof.
  destruct (CompareVersions_total_order "v1.0.0-rc.2" "v1.0.0-rc.10" "v1.2.10"
    (mkVersion "1" "0" "0" ["rc"; "2"]) (mkVersion "1" "0" "0" ["rc"; "10"]) (mkVersion "1" "2" "10" []))
    as (ab & bc & ac & _ & _ & _ & _ & _ & _ & _ & Hup); [reflexivity..|].
  destruct Hup as (H1 & H2 & _); [reflexivity..|]. split; [exact H1|exact H2].
Defined.

End Versions.
