(* ===== verification/McuProto.v ===== *)
(** * The front-controller protocol: [mcuproto/]

    [DecodeReceive], the stream decoder and the replay state of the passive
    decoder, with the receive catalog.  Bytes are integers from 0 to 255; slices
    are lists; the 64-bit counters wrap. *)

From S2P Require Import Prelude GoStrings.

Module McuProto.

Record Selector := mkSelector { sel_Name : string; sel_Template : Z * Z * Z * Z }.

Definition ReceiveSelectors : list Selector := [
  mkSelector "RSec" (1, 0, 1, 1);
  mkSelector "RMin" (1, 1, 1, 1);
  mkSelector "RHour" (1, 2, 1, 1);
  mkSelector "RDOW" (1, 3, 1, 1);
  mkSelector "RDOM" (1, 4, 1, 1);
  mkSelector "RMon" (1, 5, 1, 1);
  mkSelector "RYear" (1, 6, 1, 1);
  mkSelector "RAiSecond" (1, 7, 1, 1);
  mkSelector "RAiMinute" (1, 8, 1, 1);
  mkSelector "RAiHour" (1, 9, 1, 1);
  mkSelector "RAiDateDay" (1, 10, 1, 1);
  mkSelector "RAi2Minute" (1, 11, 1, 1);
  mkSelector "RAi2Hour" (1, 12, 1, 1);
  mkSelector "RAi2DateDay" (1, 13, 1, 1);
  mkSelector "RRtcControl" (1, 14, 1, 1);
  mkSelector "RRtcStatus" (1, 15, 1, 1);
  mkSelector "RDateAndTime" (1, 0, 3, 7);
  mkSelector "RMDateAndTime" (1, 0, 5, 7);
  mkSelector "MCUVer" (3, 5, 0, 1);
  mkSelector "RTCAlarm" (32, 0, 0, 0);
  mkSelector "ACK" (48, 0, 0, 0);
  mkSelector "PWR" (33, 0, 0, 0);
  mkSelector "RST" (34, 0, 0, 0);
  mkSelector "RST2" (82, 0, 0, 0);
  mkSelector "PWRPush" (35, 0, 0, 0);
  mkSelector "RSTPush" (36, 0, 0, 0);
  mkSelector "FUNCPush" (37, 0, 0, 0);
  mkSelector "FUNC2Push" (39, 0, 0, 0);
  mkSelector "PWRRelease" (42, 0, 0, 0);
  mkSelector "RSTRelease" (43, 0, 0, 0);
  mkSelector "FUNCRelease" (44, 0, 0, 0);
  mkSelector "FUNC2Release" (45, 0, 0, 0);
  mkSelector "UsbBackupPush" (38, 0, 0, 0);
  mkSelector "GetThemister" (3, 8, 0, 0);
  mkSelector "PWR_LOST" (64, 0, 0, 1);
  mkSelector "APR_STAT" (65, 0, 0, 1);
  mkSelector "WOL_STAT" (66, 0, 0, 1);
  mkSelector "PWR2" (87, 0, 0, 0)].

Definition FrameStart : Z := 250.
Definition FrameEnd : Z := 251.
Definition MaxFrame : Z := 15.
Definition validLengths (n : Z) : bool := (n =? 7) || (n =? 13) || (n =? 15).

(** ** Decoding one frame *)
Record DecodedFrame := mkDecodedFrame {
  df_RawHex : string; df_Length : Z; df_DispatchKey : list Z; df_Names : list string;
  df_TemplateFourth : list Z; df_Known : bool }.

Inductive error := ErrLength | ErrBoundary | ErrInterrupted.
#[export] Instance error_eq_dec : EqDecision error. Proof. solve_decision. Defined.

(** [frame[i]], for an index below the length the caller has checked *)
Definition at_ (frame : list Z) (i : nat) : Z := default 0 (frame !! i).

Definition matchesReceiveHandler (selector : Selector) (frame : list Z) : bool :=
  let '(t0, t1, t2, _) := sel_Template selector in
  let name := sel_Name selector in
  if len frame =? 13 then false
  else if negb (Bool.eqb (len frame =? 15) (name == "MCUVer")) then false
  else if name == "GetThemister" then
    (t0 =? at_ frame 1) && (t1 =? at_ frame 2) && ((at_ frame 3 =? 1) || (at_ frame 3 =? 2))
  else if (name == "PWR_LOST") || (name == "APR_STAT") || (name == "WOL_STAT") then t0 =? at_ frame 1
  else (t0 =? at_ frame 1) && (t1 =? at_ frame 2) && (t2 =? at_ frame 3).

Definition empty_frame (frame : list Z) : DecodedFrame := mkDecodedFrame "" (len frame) [0; 0; 0] [] [] false.

(** [frame[1:len(frame)-1]] *)
Definition interior (frame : list Z) : list Z := take (length frame - 2) (drop 1 frame).

(** The observation comes with every error. *)
Definition DecodeReceive (frame : list Z) : DecodedFrame * option error :=
  if negb (validLengths (len frame)) then (empty_frame frame, Some ErrLength)
  else
    let decoded := mkDecodedFrame (hex_encode frame) (len frame) [0; 0; 0] [] [] false in
    if negb (at_ frame 0 =? FrameStart) || negb (at_ frame (length frame - 1) =? FrameEnd)
    then (decoded, Some ErrBoundary)
    else if existsb (Z.eqb FrameStart) (interior frame) then (decoded, Some ErrInterrupted)
    else
      let matching := filter (λ s, matchesReceiveHandler s frame = true) ReceiveSelectors in
      let names := sel_Name <$> matching in
      (mkDecodedFrame (hex_encode frame) (len frame) (take 3 (drop 1 frame)) names
         ((λ s, (sel_Template s).2) <$> matching) (negb (len names =? 0)), None).

(** ** The stream decoder *)
Record StreamStats := mkStats {
  ss_Bytes : Z; ss_NoiseBytes : Z; ss_Frames : Z; ss_Malformed : Z; ss_Truncated : Z; ss_Known : Z; ss_Unknown : Z }.
Definition inc (z : Z) : Z := u64_add z 1.

Record StreamDecoder := mkStreamDecoder { sd_buffer : list Z; sd_stats : StreamStats }.
Definition newStreamDecoder : StreamDecoder := mkStreamDecoder [] (mkStats 0 0 0 0 0 0 0).

Definition count_malformed (s : StreamStats) : StreamStats :=
  mkStats (ss_Bytes s) (ss_NoiseBytes s) (ss_Frames s) (inc (ss_Malformed s)) (ss_Truncated s) (ss_Known s) (ss_Unknown s).
Definition count_noise (s : StreamStats) : StreamStats :=
  mkStats (ss_Bytes s) (inc (ss_NoiseBytes s)) (ss_Frames s) (ss_Malformed s) (ss_Truncated s) (ss_Known s) (ss_Unknown s).
Definition count_frame (s : StreamStats) (known : bool) : StreamStats :=
  mkStats (ss_Bytes s) (ss_NoiseBytes s) (inc (ss_Frames s)) (ss_Malformed s) (ss_Truncated s)
    (if known then inc (ss_Known s) else ss_Known s) (if known then ss_Unknown s else inc (ss_Unknown s)).
Definition count_bytes (s : StreamStats) (n : Z) : StreamStats :=
  mkStats (u64_add (ss_Bytes s) n) (ss_NoiseBytes s) (ss_Frames s) (ss_Malformed s) (ss_Truncated s) (ss_Known s)
    (ss_Unknown s).

(** the body of the loop over the bytes of a chunk *)
Definition push_byte (st : StreamDecoder * list DecodedFrame) (value : Z) : StreamDecoder * list DecodedFrame :=
  let '(d, frames) := st in
  if value =? FrameStart then
    let stats := if negb (len (sd_buffer d) =? 0) then count_malformed (sd_stats d) else sd_stats d in
    (mkStreamDecoder [value] stats, frames)
  else if len (sd_buffer d) =? 0 then (mkStreamDecoder (sd_buffer d) (count_noise (sd_stats d)), frames)
  else
    let buffer := sd_buffer d ++ [value] in
    let length := len buffer in
    if validLengths length && (value =? FrameEnd) then
      match DecodeReceive buffer with
      | (frame, None) => (mkStreamDecoder [] (count_frame (sd_stats d) (df_Known frame)), frames ++ [frame])
      | (_, Some _) => (mkStreamDecoder [] (sd_stats d), frames)
      end
    else if MaxFrame <=? length then (mkStreamDecoder [] (count_malformed (sd_stats d)), frames)
    else (mkStreamDecoder buffer (sd_stats d), frames).

Definition Push (d : StreamDecoder) (data : list Z) : StreamDecoder * list DecodedFrame :=
  foldl push_byte (mkStreamDecoder (sd_buffer d) (count_bytes (sd_stats d) (len data)), []) data.

Definition Finalize (d : StreamDecoder) : StreamDecoder :=
  if negb (len (sd_buffer d) =? 0) then
    let s := sd_stats d in
    mkStreamDecoder [] (mkStats (ss_Bytes s) (ss_NoiseBytes s) (ss_Frames s) (ss_Malformed s) (inc (ss_Truncated s))
                          (ss_Known s) (ss_Unknown s))
  else d.

(** ** Replay *)
Record State := mkState {
  ms_AppliedFrames : Z; ms_EventCounts : gmap string Z; ms_Buttons : gmap string bool; ms_LastKnown : string;
  ms_UnknownFrames : Z }.
Definition NewState : State :=
  mkState 0 ∅ (list_to_map [("power", false); ("reset", false); ("function", false); ("function2", false)]) "" 0.

Definition button_event (name : string) : option (string * bool) :=
  if name == "PWRPush" then Some ("power", true) else if name == "PWRRelease" then Some ("power", false)
  else if name == "RSTPush" then Some ("reset", true) else if name == "RSTRelease" then Some ("reset", false)
  else if name == "FUNCPush" then Some ("function", true) else if name == "FUNCRelease" then Some ("function", false)
  else if name == "FUNC2Push" then Some ("function2", true) else if name == "FUNC2Release" then Some ("function2", false)
  else None.

Definition apply_name (state : State) (name : string) : State :=
  mkState (ms_AppliedFrames state) (<[name := inc (default 0 (ms_EventCounts state !! name))]> (ms_EventCounts state))
    (match button_event name with Some (b, v) => <[b := v]> (ms_Buttons state) | None => ms_Buttons state end)
    name (ms_UnknownFrames state).

Definition Apply (state : State) (frame : DecodedFrame) : State :=
  let state := mkState (inc (ms_AppliedFrames state)) (ms_EventCounts state) (ms_Buttons state) (ms_LastKnown state)
                 (ms_UnknownFrames state) in
  if negb (df_Known frame)
  then mkState (ms_AppliedFrames state) (ms_EventCounts state) (ms_Buttons state) (ms_LastKnown state)
         (inc (ms_UnknownFrames state))
  else foldl apply_name state (df_Names frame).

(** ** The frames of a stream, as the protocol defines them

    A frame start begins a segment that runs to the next frame start; the frame
    of a segment is its shortest prefix of 7, 13 or 15 bytes that ends with the
    frame end. *)
Fixpoint segments (data : list Z) : list Z * list (list Z) :=
  match data with
  | [] => ([], [])
  | x :: data => let '(p, ss) := segments data in
                 if x =? FrameStart then ([], (x :: p) :: ss) else (x :: p, ss)
  end.

Definition ends_at (seg : list Z) (n : nat) : bool := seg !! (n - 1)%nat == Some FrameEnd.
Definition frame_of (seg : list Z) : option (list Z) :=
  if ends_at seg 7 then Some (take 7 seg)
  else if ends_at seg 13 then Some (take 13 seg)
  else if ends_at seg 15 then Some (take 15 seg)
  else None.
Definition stream_frames (data : list Z) : list (list Z) := omap frame_of (segments data).2.

(** ** The buffer of the stream decoder *)

(** One byte: the new buffer and the frame it completes. *)
Definition buf_step (b : list Z) (v : Z) : list Z * list (list Z) :=
  if v =? FrameStart then ([v], [])
  else if len b =? 0 then (b, [])
  else if validLengths (len (b ++ [v])) && (v =? FrameEnd) then ([], [b ++ [v]])
  else if MaxFrame <=? len (b ++ [v]) then ([], [])
  else (b ++ [v], []).

Fixpoint buf_run (b : list Z) (data : list Z) : list Z * list (list Z) :=
  match data with
  | [] => (b, [])
  | v :: data => let r := buf_run (buf_step b v).1 data in (r.1, (buf_step b v).2 ++ r.2)
  end.

(** The buffer is empty, or a segment so far: it begins with the frame start,
    which does not occur again, and no frame has been completed in it. *)
Inductive buffer_ok : list Z → Prop :=
| buffer_empty : buffer_ok []
| buffer_open rest : FrameStart ∉ rest → (length rest < 14)%nat → frame_of (FrameStart :: rest) = None →
    buffer_ok (FrameStart :: rest).

Lemma ends_at_short seg n : (length seg < n)%nat → ends_at seg n = false.
Proof. intros Hl. unfold ends_at. by rewrite lookup_ge_None_2 by lia. Qed.

Lemma ends_at_app seg rest n : (1 ≤ n ≤ length seg)%nat → ends_at (seg ++ rest) n = ends_at seg n.
Proof. intros Hl. unfold ends_at. by rewrite lookup_app_l by lia. Qed.

Lemma ends_at_last b v : ends_at (b ++ [v]) (S (length b)) = (v =? FrameEnd).
Proof.
  unfold ends_at. rewrite Nat.sub_succ, Nat.sub_0_r, lookup_app_r, Nat.sub_diag by lia. simpl.
  destruct (Z.eqb_spec v FrameEnd) as [->|Hn]; [by rewrite bool_decide_eq_true_2|].
  rewrite bool_decide_eq_false_2; [done|congruence].
Qed.

Lemma frame_of_None seg :
  frame_of seg = None ↔ ends_at seg 7 = false ∧ ends_at seg 13 = false ∧ ends_at seg 15 = false.
Proof. unfold frame_of. destruct (ends_at seg 7), (ends_at seg 13), (ends_at seg 15); naive_solver. Qed.

(** Whether byte [n] ends a frame, in a segment with no frame yet that grows by
    one byte and then by anything. *)
Lemma ends_at_grow b v rest n :
  (1 ≤ n)%nat → ends_at b n = false →
  (n ≤ S (length b))%nat → ends_at ((b ++ [v]) ++ rest) n = (n =? S (length b))%nat && (v =? FrameEnd).
Proof.
  intros Hn1 Hb Hn. rewrite ends_at_app by (rewrite length_app; simpl; lia).
  destruct (Nat.eqb_spec n (S (length b))) as [->|Hne]; [by rewrite ends_at_last|].
  by rewrite ends_at_app by lia.
Qed.

(** The byte completes a frame: the segment's frame is found. *)
Lemma frame_completed b v rest :
  frame_of b = None → validLengths (len (b ++ [v])) = true → v = FrameEnd →
  frame_of ((b ++ [v]) ++ rest) = Some (b ++ [v]).
Proof.
  intros (H7 & H13 & H15)%frame_of_None Hv ->.
  assert (Hl : len (b ++ [FrameEnd]) = Z.of_nat (S (length b))) by (unfold len; rewrite length_app; simpl; lia).
  assert (Htake : ∀ n, n = S (length b) → take n ((b ++ [FrameEnd]) ++ rest) = b ++ [FrameEnd]).
  { intros n ->. apply take_app_length'. rewrite length_app. simpl. lia. }
  unfold validLengths in Hv. rewrite Hl in Hv. unfold frame_of. go_bool in Hv.
  destruct Hv as [[Hv|Hv]|Hv].
  - rewrite ends_at_grow by (done || lia). assert (S (length b) = 7)%nat as -> by lia. simpl. f_equal. apply Htake. lia.
  - rewrite !ends_at_grow by (done || lia). assert (S (length b) = 13)%nat as -> by lia. simpl. f_equal. apply Htake. lia.
  - rewrite !ends_at_grow by (done || lia). assert (S (length b) = 15)%nat as -> by lia. simpl. f_equal. apply Htake. lia.
Qed.

(** It does not: the longer segment has no frame so far. *)
Lemma frame_not_completed b v :
  frame_of b = None → validLengths (len (b ++ [v])) && (v =? FrameEnd) = false → frame_of (b ++ [v]) = None.
Proof.
  intros (H7 & H13 & H15)%frame_of_None Hv. apply frame_of_None.
  assert (Hl : len (b ++ [v]) = Z.of_nat (S (length b))) by (unfold len; rewrite length_app; simpl; lia).
  assert (Hn : ∀ n, (1 ≤ n)%nat → validLengths (Z.of_nat n) = true → ends_at b n = false → ends_at (b ++ [v]) n = false).
  { intros n Hn1 Hvn Hb. destruct (decide (n ≤ S (length b))%nat) as [Hle|Hgt].
    - rewrite <- (app_nil_r (b ++ [v])), ends_at_grow by done.
      destruct (Nat.eqb_spec n (S (length b))) as [->|]; [|done]. rewrite Hl, Hvn in Hv. exact Hv.
    - apply ends_at_short. rewrite length_app. simpl. lia. }
  split_and!; apply Hn; (done || lia).
Qed.

(** Too long a segment has no frame, whatever follows. *)
Lemma frame_never b rest : frame_of b = None → (15 ≤ length b)%nat → frame_of (b ++ rest) = None.
Proof.
  intros (H7 & H13 & H15)%frame_of_None Hl. apply frame_of_None. by rewrite !ends_at_app by lia.
Qed.

Definition pending (b : list Z) (p : list Z) : list (list Z) :=
  match b with [] => [] | _ => option_list (frame_of (b ++ p)) end.

Lemma buf_step_ok b v : buffer_ok b → buffer_ok (buf_step b v).1.
Proof.
  intros Hb. unfold buf_step. destruct (Z.eqb_spec v FrameStart) as [->|Hv].
  { apply (buffer_open []); [set_solver|simpl; lia|done]. }
  destruct Hb as [|rest Hn Hl Hf]; [constructor|].
  destruct (len (FrameStart :: rest) =? 0) eqn:Hz; [by apply Z.eqb_eq in Hz|].
  destruct (_ && _) eqn:Hc; [constructor|]. destruct (Z.leb_spec MaxFrame (len ((FrameStart :: rest) ++ [v]))) as [|Hs]; [constructor|].
  simpl. apply (buffer_open (rest ++ [v])).
  - rewrite elem_of_app, list_elem_of_singleton. intros [?|?]; congruence.
  - unfold len, MaxFrame in Hs. simpl in Hs. rewrite length_app in *. simpl in *. lia.
  - by apply (frame_not_completed (FrameStart :: rest)).
Qed.

(** The decoder's frames are those of the segments. *)
Lemma buf_run_frames data : ∀ b, buffer_ok b →
  (buf_run b data).2 = pending b (segments data).1 ++ omap frame_of (segments data).2.
Proof.
  induction data as [|v data IH]; intros b Hb.
  { destruct Hb as [|rest _ _ Hf]; [done|]. cbn [buf_run segments fst snd]. unfold pending.
    by rewrite (app_nil_r (FrameStart :: rest)), Hf. }
  pose proof (buf_step_ok b v Hb) as Hb'. cbn [buf_run segments snd fst]. rewrite (IH _ Hb').
  destruct (segments data) as [p ss]. cbn [fst snd]. unfold buf_step in *.
  destruct (Z.eqb_spec v FrameStart) as [->|Hv].
  { cbn [fst snd app omap list_omap]. unfold pending at 1. cbn [app].
    destruct Hb as [|rest _ _ Hf]; cbn [pending].
    - by destruct (frame_of (FrameStart :: p)).
    - rewrite (app_nil_r (FrameStart :: rest)), Hf. simpl. by destruct (frame_of (FrameStart :: p)). }
  destruct Hb as [|rest Hn Hl Hf]; [done|]. cbn [fst snd].
  destruct (len (FrameStart :: rest) =? 0) eqn:Hz; [by apply Z.eqb_eq in Hz|].
  replace (pending (FrameStart :: rest) (v :: p)) with (option_list (frame_of (((FrameStart :: rest) ++ [v]) ++ p)))
    by (rewrite <- app_assoc; done).
  destruct (validLengths (len ((FrameStart :: rest) ++ [v])) && (v =? FrameEnd)) eqn:Hc.
  - apply andb_true_iff in Hc as [Hvl He%Z.eqb_eq]. by rewrite (frame_completed (FrameStart :: rest)).
  - pose proof (frame_not_completed _ _ Hf Hc) as Hf'.
    destruct (Z.leb_spec MaxFrame (len ((FrameStart :: rest) ++ [v]))) as [Hs|Hs]; [|done].
    rewrite frame_never; [done|done|]. unfold MaxFrame, len in Hs. lia.
Qed.

Lemma buf_run_app b d1 d2 :
  buf_run b (d1 ++ d2) = ((buf_run (buf_run b d1).1 d2).1, (buf_run b d1).2 ++ (buf_run (buf_run b d1).1 d2).2).
Proof.
  revert b. induction d1 as [|v d1 IH]; intros b; simpl; [by destruct (buf_run b d2)|].
  rewrite IH. simpl. by rewrite app_assoc.
Qed.

(** A completed buffer decodes without error. *)
Lemma completed_decodes b v :
  buffer_ok b → b ≠ [] → validLengths (len (b ++ [v])) = true → v = FrameEnd → (DecodeReceive (b ++ [v])).2 = None.
Proof.
  intros Hb Hne Hv ->. destruct Hb as [|rest Hn Hl Hf]; [done|]. unfold DecodeReceive. rewrite Hv. cbn [negb].
  assert (at_ ((FrameStart :: rest) ++ [FrameEnd]) (length ((FrameStart :: rest) ++ [FrameEnd]) - 1) = FrameEnd) as ->.
  { unfold at_. rewrite length_app. simpl. replace (length rest + 1 - 0)%nat with (S (length rest)) by lia.
    simpl. by rewrite list_lookup_middle by lia. }
  assert (interior ((FrameStart :: rest) ++ [FrameEnd]) = rest) as ->.
  { unfold interior. rewrite length_app. simpl. rewrite drop_0. apply take_app_length'. lia. }
  destruct (existsb (Z.eqb FrameStart) rest) eqn:Hex; [|done].
  apply existsb_True in Hex as (x & Hx & He%Z.eqb_eq). by subst.
Qed.

Definition decoded (f : list Z) : DecodedFrame := (DecodeReceive f).1.

Lemma push_byte_sim b stats acc v : buffer_ok b →
  ∃ stats', push_byte (mkStreamDecoder b stats, acc) v =
    (mkStreamDecoder (buf_step b v).1 stats', acc ++ (decoded <$> (buf_step b v).2)).
Proof.
  intros Hb. unfold push_byte, buf_step. cbn [sd_buffer sd_stats].
  destruct (v =? FrameStart); [cbn [fst snd]; rewrite app_nil_r; eauto|].
  destruct (Z.eqb_spec (len b) 0) as [Hz|Hz]; [cbn [fst snd]; rewrite app_nil_r; eauto|].
  destruct (_ && _) eqn:Hc.
  - apply andb_true_iff in Hc as [Hvl He%Z.eqb_eq].
    assert (Hne : b ≠ []) by (by intros ->).
    pose proof (completed_decodes b v Hb Hne Hvl He) as Hd. unfold decoded. simpl.
    destruct (DecodeReceive (b ++ [v])) as [frame [e|]]; [done|]. simpl. eauto.
  - destruct (MaxFrame <=? _); cbn [fst snd]; rewrite app_nil_r; eauto.
Qed.

Lemma push_sim data : ∀ b stats acc, buffer_ok b →
  ∃ stats', foldl push_byte (mkStreamDecoder b stats, acc) data =
    (mkStreamDecoder (buf_run b data).1 stats', acc ++ (decoded <$> (buf_run b data).2))
    ∧ buffer_ok (buf_run b data).1.
Proof.
  induction data as [|v data IH]; intros b stats acc Hb; cbn [foldl buf_run fst snd];
    [exists stats; by rewrite app_nil_r|].
  destruct (push_byte_sim b stats acc v Hb) as [stats1 ->].
  destruct (IH _ stats1 (acc ++ (decoded <$> (buf_step b v).2)) (buf_step_ok b v Hb)) as (stats2 & -> & Hok).
  exists stats2. by rewrite fmap_app, app_assoc.
Qed.

(** A capture read in chunks. *)
Fixpoint push_all (d : StreamDecoder) (chunks : list (list Z)) : StreamDecoder * list DecodedFrame :=
  match chunks with
  | [] => (d, [])
  | c :: chunks => let r := Push d c in let r' := push_all r.1 chunks in (r'.1, r.2 ++ r'.2)
  end.

Lemma push_all_sim chunks : ∀ d, buffer_ok (sd_buffer d) →
  (push_all d chunks).2 = decoded <$> (buf_run (sd_buffer d) (concat chunks)).2.
Proof.
  induction chunks as [|c chunks IH]; intros d Hd; [done|]. cbn [push_all concat snd fst]. unfold Push.
  destruct (push_sim c (sd_buffer d) (count_bytes (sd_stats d) (len c)) [] Hd) as (stats & -> & Hok).
  cbn [fst snd app]. rewrite IH by done. cbn [sd_buffer]. rewrite buf_run_app. cbn [snd]. by rewrite fmap_app.
Qed.

(** The replayed button is the last one pressed or released. *)
Lemma foldl_buttons names : ∀ state b,
  ms_Buttons (foldl apply_name state names) !! b =
  match last (filter (λ e : string * bool, e.1 = b) (omap button_event names)) with
  | Some e => Some e.2
  | None => ms_Buttons state !! b
  end.
Proof.
  induction names as [|n names IH]; intros state b; [done|]. cbn [foldl]. rewrite IH. cbn [apply_name ms_Buttons omap list_omap].
  destruct (button_event n) as [[k v]|]; [|done]. rewrite filter_cons. cbn [fst].
  destruct (decide (k = b)) as [->|Hne].
  - rewrite last_cons. destruct (last (filter _ _)); [done|]. by rewrite lookup_insert_eq.
  - destruct (last (filter _ _)); [done|]. by rewrite lookup_insert_ne.
Qed.

(** ** Properties *)

(** C36: the stream decoder finds exactly the frames of the stream. However a
    capture is cut into chunks, the frames reported are, in order, the decoded
    frames of its segments: for each frame start, up to the next one, the
    shortest prefix of 7, 13 or 15 bytes that ends with the frame end; noise,
    interrupted and over-long segments contribute nothing. Replaying a known
    frame leaves each button as its last push or release says. *)
Theorem Push_exact chunks state frame button :
  (push_all newStreamDecoder chunks).2 = decoded <$> stream_frames (concat chunks)
  ∧ (df_Known frame = true →
     ms_Buttons (Apply state frame) !! button =
     match last (filter (λ e : string * bool, e.1 = button) (omap button_event (df_Names frame))) with
     | Some e => Some e.2
     | None => ms_Buttons state !! button
     end).
Proof.
  split.
  - rewrite push_all_sim by constructor. f_equal. rewrite buf_run_frames by constructor. done.
  - intros Hk. unfold Apply. rewrite Hk. cbn [negb]. by rewrite foldl_buttons.
Qed.

(** Two chunks with noise, an interrupted frame, and a power-button press. *)
Lemma Push_exact_witness :
  (df_Names <$> (push_all newStreamDecoder [[9; 250; 35; 250; 35; 0; 0]; [1; 1; 251; 251]]).2) = [["PWRPush"]]
  ∧ ms_Buttons (Apply NewState (decoded [250; 35; 0; 0; 1; 1; 251])) !! "power" = Some true.
Proof.
  split.
  - rewrite (proj1 (Push_exact [[9; 250; 35; 250; 35; 0; 0]; [1; 1; 251; 251]] NewState (decoded []) "power")).
    vm_compute. reflexivity.
  - rewrite (proj2 (Push_exact [] NewState (decoded [250; 35; 0; 0; 1; 1; 251]) "power")); vm_compute; reflexivity.
Defined.

End McuProto.
