(* ===== verification/Gpt.v ===== *)
(** * GPT inspection: [diskimage/gpt.go]

    The partition-table inspector of raw images: protective MBR, both GPT headers
    and the partition array, read through bounded reads.  Images are arbitrary
    readers; the checksum is computed, the identity digest is a parameter.  The
    constant texts of the report are left out, its findings are named. *)

From S2P Require Import Prelude GoStrings.

Module Gpt.

Definition logicalSectorBytes : Z := 512.
Definition minimumHeaderBytes : Z := 92.
Definition maximumHeaderBytes : Z := logicalSectorBytes.
Definition minimumEntryBytes : Z := 128.
Definition maximumEntryBytes : Z := 1024.
Definition maximumEntries : Z := 128.
Definition maximumArrayBytes : Z := 128 * 1024.

(** ** Bytes *)

(** [io.ReaderAt.ReadAt]: the bytes read into a buffer of [n] bytes at an
    offset, or an error. *)
Definition ReaderAt : Type := Z → Z → option (list Z).

Definition sub (bs : list Z) (i j : nat) : list Z := take (j - i) (drop i bs).
(** [binary.LittleEndian] *)
Definition le (bs : list Z) : Z := foldr (λ b acc, b + 256 * acc) 0 bs.
Definition get (bs : list Z) (i : nat) : Z := default 0 (bs !! i).
Definition allZero (bs : list Z) : bool := forallb (Z.eqb 0) bs.

(** [crc32.ChecksumIEEE] *)
Definition crc_bit (c : Z) : Z := if Z.odd c then Z.lxor (Z.shiftr c 1) 3988292384 else Z.shiftr c 1.
Definition crc_byte (c b : Z) : Z := Nat.iter 8 crc_bit (Z.lxor c b).
Definition ChecksumIEEE (bs : list Z) : Z := Z.lxor (foldl crc_byte max_uint32 bs) max_uint32.

Inductive read_error := ErrOutOfBounds | ErrRead | ErrReader.
#[export] Instance read_error_eq_dec : EqDecision read_error. Proof. solve_decision. Defined.

Definition readAt (image : ReaderAt) (n offset size : Z) : res read_error (list Z) :=
  refuse (size <? 0) || (size <? offset) || (max_int64 <? offset) || (size - offset <? n) => ErrOutOfBounds ;;
  match image offset n with
  | Some bs => refuse negb (len bs =? n) => ErrRead ;; Ok bs
  | None => Err ErrRead
  end.

(** ** The report *)
Inductive Status := StatusValid | StatusDamaged | StatusUnsupported.
#[export] Instance Status_eq_dec : EqDecision Status. Proof. solve_decision. Defined.

Inductive finding :=
| TooSmall | SizeNotAligned | NotProtectiveMBR | MalformedMBR | InvalidPrimary | InconsistentCopies
| InvalidPartition | SizeOverflow | Overlap | Consistent.
#[export] Instance finding_eq_dec : EqDecision finding. Proof. solve_decision. Defined.

Record Partition := mkPartition {
  pt_Number : Z; pt_TypeGUID : string; pt_IdentityFingerprint : string; pt_FirstLBA : Z; pt_LastLBA : Z;
  pt_SizeBytes : Z; pt_Attributes : Z }.

Record Report := mkReport {
  rp_Status : Status; rp_DiskSectors : Z; rp_PartitionCount : Z; rp_PrimaryHeaderValid : bool;
  rp_BackupHeaderValid : bool; rp_PartitionArraysEqual : bool; rp_DiskIdentityFingerprint : string;
  rp_TableFingerprint : string; rp_ImageMetadataRead : bool; rp_Partitions : list Partition;
  rp_Findings : list finding }.

(** a report that ends the inspection early *)
Definition refused (status : Status) (sectors : Z) (primary metadata : bool) (f : list finding) : Report :=
  mkReport status sectors 0 primary false false "" "" metadata [] f.

Record gptHeader := mkHeader {
  gh_revision : Z; gh_headerSize : Z; gh_currentLBA : Z; gh_backupLBA : Z; gh_firstUsableLBA : Z;
  gh_lastUsableLBA : Z; gh_diskGUID : list Z; gh_entriesLBA : Z; gh_entryCount : Z; gh_entrySize : Z;
  gh_entriesCRC : Z; gh_entries : list Z }.

(** ** The protective MBR *)
Inductive protectiveMBRStatus := MBRInvalid | MBRValid | MBRUnsupported.
#[export] Instance protectiveMBRStatus_eq_dec : EqDecision protectiveMBRStatus. Proof. solve_decision. Defined.

(** one entry; the early returns of the loop are errors here *)
Definition mbr_entry (sectors : Z) (mbr : list Z) (count : Z) (index : nat) : res protectiveMBRStatus Z :=
  let entry := sub mbr (446 + index * 16) (446 + (index + 1) * 16) in
  let typeID := get entry 4 in
  let start := le (sub entry 8 12) in
  let cnt := le (sub entry 12 16) in
  if (typeID =? 0) && (start =? 0) && (cnt =? 0) then Ok count
  else
    refuse negb (typeID =? 238) => MBRUnsupported ;;
    let wantCount := Z.min (sectors - 1) max_uint32 in
    refuse negb (start =? 1) || negb (cnt =? wantCount) || (negb (get entry 0 =? 0) && negb (get entry 0 =? 128)) => MBRInvalid ;;
    Ok (count + 1).

Definition validateProtectiveMBR (image : ReaderAt) (size sectors : Z) : res read_error protectiveMBRStatus :=
  mbr ← readAt image logicalSectorBytes 0 size;
  if negb (get mbr 510 =? 85) || negb (get mbr 511 =? 170) then Ok MBRUnsupported
  else match for_range (λ _, mbr_entry sectors mbr) 0 0 [0; 1; 2; 3]%nat with
  | Err status => Ok status
  | Ok protectiveCount => Ok (if negb (protectiveCount =? 1) then MBRUnsupported else MBRValid)
  end.

(** ** Headers *)
Definition validHeaderGeometry (h : gptHeader) (sectors lba : Z) (primary : bool) : bool :=
  if negb (gh_revision h =? 65536) || negb (gh_currentLBA h =? lba) || (sectors <=? gh_backupLBA h)
     || (gh_firstUsableLBA h <? 2) || (gh_lastUsableLBA h <? gh_firstUsableLBA h) || (sectors <=? gh_lastUsableLBA h)
     || allZero (gh_diskGUID h) || (gh_entryCount h =? 0) || (maximumEntries <? gh_entryCount h)
     || (gh_entrySize h <? minimumEntryBytes) || (maximumEntryBytes <? gh_entrySize h)
     || negb (gh_entrySize h mod 8 =? 0) then false
  else
    let arrayBytes := wrap 64 (gh_entryCount h * gh_entrySize h) in
    let arraySectors := wrap 64 (arrayBytes + logicalSectorBytes - 1) / logicalSectorBytes in
    if (arraySectors =? 0) || (sectors <=? gh_entriesLBA h) || (sectors - gh_entriesLBA h <? arraySectors) then false
    else
      let arrayLastLBA := wrap 64 (gh_entriesLBA h + arraySectors - 1) in
      if primary
      then (lba =? 1) && (gh_backupLBA h =? sectors - 1) && (2 <=? gh_entriesLBA h) && (arrayLastLBA <? gh_firstUsableLBA h)
      else (lba =? sectors - 1) && (gh_backupLBA h =? 1) && (arrayLastLBA <? lba) && (gh_lastUsableLBA h <? gh_entriesLBA h).

Definition header_fields (buffer : list Z) (headerSize : Z) : gptHeader :=
  mkHeader (le (sub buffer 8 12)) headerSize (le (sub buffer 24 32)) (le (sub buffer 32 40)) (le (sub buffer 40 48))
    (le (sub buffer 48 56)) (sub buffer 56 72) (le (sub buffer 72 80)) (le (sub buffer 80 84)) (le (sub buffer 84 88))
    (le (sub buffer 88 92)) [].
Definition with_entries (h : gptHeader) (entries : list Z) : gptHeader :=
  mkHeader (gh_revision h) (gh_headerSize h) (gh_currentLBA h) (gh_backupLBA h) (gh_firstUsableLBA h)
    (gh_lastUsableLBA h) (gh_diskGUID h) (gh_entriesLBA h) (gh_entryCount h) (gh_entrySize h) (gh_entriesCRC h) entries.

(** [Ok None] is the nil header: structurally invalid. *)
Definition readGPTHeader (image : ReaderAt) (size sectors lba : Z) (primary : bool) : res read_error (option gptHeader) :=
  if sectors <=? lba then Ok None
  else
    buffer ← readAt image logicalSectorBytes (wrap 64 (lba * logicalSectorBytes)) size;
    if sub buffer 0 8 != codes "EFI PART" then Ok None
    else
      let headerSize := le (sub buffer 12 16) in
      if (headerSize <? minimumHeaderBytes) || (maximumHeaderBytes <? headerSize) then Ok None
      else
        let headerBytes := take (Z.to_nat headerSize) buffer in
        let wantHeaderCRC := le (sub headerBytes 16 20) in
        let zeroed := take 16 headerBytes ++ [0; 0; 0; 0] ++ drop 20 headerBytes in
        if negb (ChecksumIEEE zeroed =? wantHeaderCRC) then Ok None
        else if negb (le (sub buffer 20 24) =? 0) then Ok None
        else
          let header := header_fields buffer headerSize in
          if negb (validHeaderGeometry header sectors lba primary) then Ok None
          else
            let arrayBytes := wrap 64 (gh_entryCount header * gh_entrySize header) in
            (* the array limit is below the largest int of every platform *)
            if maximumArrayBytes <? arrayBytes then Ok None
            else
              entries ← readAt image arrayBytes (wrap 64 (gh_entriesLBA header * logicalSectorBytes)) size;
              if negb (ChecksumIEEE entries =? gh_entriesCRC header) then Ok None
              else Ok (Some (with_entries header entries)).

Definition headersAgree (p b : gptHeader) (sectors : Z) : bool :=
  (gh_currentLBA p =? 1) && (gh_backupLBA p =? sectors - 1) && (gh_currentLBA b =? sectors - 1) && (gh_backupLBA b =? 1)
  && (gh_revision p =? gh_revision b) && (gh_headerSize p =? gh_headerSize b)
  && (gh_firstUsableLBA p =? gh_firstUsableLBA b) && (gh_lastUsableLBA p =? gh_lastUsableLBA b)
  && (gh_diskGUID p == gh_diskGUID b) && (gh_entryCount p =? gh_entryCount b) && (gh_entrySize p =? gh_entrySize b)
  && (gh_entriesCRC p =? gh_entriesCRC b) && (gh_entries p == gh_entries b).

(** ** Partitions *)
Section partitions.
(** SHA-256 *)
Context (sha256 : list Z → list Z).

Definition newline : string := String (ascii_of_nat 10) EmptyString.
Definition fingerprint (domain : string) (identity : list Z) : string :=
  hex_encode (sha256 (codes (String.append domain newline) ++ identity)).
Definition tableFingerprint (h : gptHeader) : string :=
  hex_encode (sha256 (codes (String.append "phantowd-gpt-table-v1" newline) ++ gh_diskGUID h ++ gh_entries h)).

(** ["%08x-%04x-%04x-%02x%02x-%x"]: the first three groups are little-endian *)
Definition formatGUID (guid : list Z) : string :=
  String.append (hex_encode (reverse (sub guid 0 4))) (String "-" (
  String.append (hex_encode (reverse (sub guid 4 6))) (String "-" (
  String.append (hex_encode (reverse (sub guid 6 8))) (String "-" (
  String.append (hex_encode (sub guid 8 10)) (String "-" (hex_encode (sub guid 10 16))))))))).

Record parse_state := mkParse {
  ps_partitions : list Partition; ps_ranges : list (Z * Z); ps_uniqueGUIDs : list (list Z) }.

(** one array entry; an early return carries the partitions so far *)
Definition parse_entry (h : gptHeader) (st : parse_state) (index : nat) :
  res (list Partition * list finding) parse_state :=
  let start := (index * Z.to_nat (gh_entrySize h))%nat in
  let entry := sub (gh_entries h) start (start + Z.to_nat (gh_entrySize h)) in
  let typeGUID := sub entry 0 16 in
  if allZero typeGUID then Ok st
  else
    let uniqueGUID := sub entry 16 32 in
    let firstLBA := le (sub entry 32 40) in
    let lastLBA := le (sub entry 40 48) in
    refuse allZero uniqueGUID || (uniqueGUID ∈? ps_uniqueGUIDs st) || (firstLBA <? gh_firstUsableLBA h)
           || (lastLBA <? firstLBA) || (gh_lastUsableLBA h <? lastLBA) => (ps_partitions st, [InvalidPartition]) ;;
    let sectors := wrap 64 (lastLBA - firstLBA + 1) in
    refuse max_uint64 / logicalSectorBytes <? sectors => (ps_partitions st, [SizeOverflow]) ;;
    Ok (mkParse
          (ps_partitions st ++
             [mkPartition (Z.of_nat index + 1) (formatGUID typeGUID) (fingerprint "phantowd-gpt-partition-v1" uniqueGUID)
                firstLBA lastLBA (wrap 64 (sectors * logicalSectorBytes)) (le (sub entry 48 56))])
          (ps_ranges st ++ [(firstLBA, lastLBA)])
          (uniqueGUID :: ps_uniqueGUIDs st)).

(** [sort.Slice]: some permutation in order. *)
Definition by_FirstLBA (p q : Partition) : Prop := pt_FirstLBA p ≤ pt_FirstLBA q.
#[local] Instance by_FirstLBA_dec : RelDecision by_FirstLBA := λ p q, decide (pt_FirstLBA p ≤ pt_FirstLBA q).
Definition by_first (a b : Z * Z) : Prop := a.1 ≤ b.1.
#[local] Instance by_first_dec : RelDecision by_first := λ a b, decide (a.1 ≤ b.1).

(** the pass over neighbours *)
Fixpoint overlapping (ranges : list (Z * Z)) : bool :=
  match ranges with
  | a :: (b :: _) as rest => (b.1 <=? a.2) || overlapping rest
  | _ => false
  end.

Definition parsePartitions (h : gptHeader) : list Partition * list finding :=
  match for_range (λ _, parse_entry h) 0 (mkParse [] [] []) (seq 0 (Z.to_nat (gh_entryCount h))) with
  | Err out => out
  | Ok st =>
    let partitions := merge_sort by_FirstLBA (ps_partitions st) in
    let ranges := merge_sort by_first (ps_ranges st) in
    if overlapping ranges then (partitions, [Overlap]) else (partitions, [])
  end.

(** ** [Inspect] *)
Definition Inspect (image : option ReaderAt) (size : Z) : res read_error Report :=
  match image with
  | None => Err ErrReader
  | Some image =>
    refuse size <? 0 => ErrReader ;;
    if size <? 34 * logicalSectorBytes then Ok (refused StatusUnsupported 0 false false [TooSmall])
    else if negb (size mod logicalSectorBytes =? 0) then Ok (refused StatusDamaged 0 false false [SizeNotAligned])
    else
      let sectors := size / logicalSectorBytes in
      protective ← validateProtectiveMBR image size sectors;
      match protective with
      | MBRUnsupported => Ok (refused StatusUnsupported sectors false true [NotProtectiveMBR])
      | MBRInvalid => Ok (refused StatusDamaged sectors false true [MalformedMBR])
      | MBRValid =>
        primary ← readGPTHeader image size sectors 1 true;
        match primary with
        | None => Ok (refused StatusDamaged sectors false true [InvalidPrimary])
        | Some primary =>
          backup ← readGPTHeader image size sectors (sectors - 1) false;
          match backup with
          | Some backup =>
            if negb (headersAgree primary backup sectors)
            then Ok (refused StatusDamaged sectors true true [InconsistentCopies])
            else match parsePartitions primary with
            | (partitions, []) =>
              Ok (mkReport StatusValid sectors (len partitions) true true true
                    (fingerprint "phantowd-gpt-disk-v1" (gh_diskGUID primary)) (tableFingerprint primary) true partitions
                    [Consistent])
            | (_, findings) => Ok (mkReport StatusDamaged sectors 0 true true true "" "" true [] findings)
            end
          | None => Ok (refused StatusDamaged sectors true true [InconsistentCopies])
          end
        end
      end
  end.
(** ** Sorting and overlap *)
#[local] Instance by_first_trans : Transitive by_first.
Proof. intros a b c. unfold by_first. lia. Qed.
#[local] Instance by_FirstLBA_trans : Transitive by_FirstLBA.
Proof. intros a b c. unfold by_FirstLBA. lia. Qed.
#[local] Instance by_first_total : Total by_first.
Proof. intros a b. unfold by_first. lia. Qed.
#[local] Instance by_FirstLBA_total : Total by_FirstLBA.
Proof. intros a b. unfold by_FirstLBA. lia. Qed.

(** A symmetric relation between the elements of a list does not depend on
    their order. *)
Lemma StronglySorted_permutation {A} (R : A → A → Prop) `{!Symmetric R} l l' :
  l ≡ₚ l' → StronglySorted R l → StronglySorted R l'.
Proof.
  induction 1 as [|x l l' Hp IH|x y l|l1 l2 l3 _ IH1 _ IH2]; intros HS; [done| | |auto].
  - apply StronglySorted_inv in HS as [HS HF]. constructor; [auto|]. by rewrite <- Hp.
  - apply StronglySorted_inv in HS as [HS HF]. apply StronglySorted_inv in HS as [HS HF'].
    apply Forall_cons in HF as [Hyx HF]. constructor; [by constructor|]. constructor; [by symmetry|done].
Qed.

Definition disjoint_ranges (a b : Z * Z) : Prop := a.2 < b.1 ∨ b.2 < a.1.
#[local] Instance disjoint_symmetric : Symmetric disjoint_ranges.
Proof. unfold disjoint_ranges. intros a b. tauto. Qed.

Lemma overlapping_false ranges :
  StronglySorted by_first ranges → overlapping ranges = false → StronglySorted disjoint_ranges ranges.
Proof.
  induction 1 as [|a ranges HS IH HF]; [constructor|]. destruct ranges as [|b ranges]; [repeat constructor|].
  cbn [overlapping]. intros [Hab Ho]%orb_false_iff. apply Z.leb_gt in Hab.
  constructor; [by apply IH|]. apply StronglySorted_inv in HS as [_ HF'].
  constructor; [by left|]. eapply Forall_impl; [exact HF'|]. unfold by_first, disjoint_ranges. simpl. lia.
Qed.

Definition range_of (p : Partition) : Z * Z := (pt_FirstLBA p, pt_LastLBA p).

(** What the array loop admits. *)
Record partition_ok (h : gptHeader) (p : Partition) : Prop := {
  po_first : gh_firstUsableLBA h ≤ pt_FirstLBA p;
  po_order : pt_FirstLBA p ≤ pt_LastLBA p;
  po_last : pt_LastLBA p ≤ gh_lastUsableLBA h;
  po_size : pt_SizeBytes p = (pt_LastLBA p - pt_FirstLBA p + 1) * logicalSectorBytes }.

Record parse_inv (h : gptHeader) (st : parse_state) : Prop := {
  pi_ok : Forall (partition_ok h) (ps_partitions st);
  pi_ranges : ps_ranges st = range_of <$> ps_partitions st;
  pi_unique : NoDup (ps_uniqueGUIDs st) ∧ length (ps_uniqueGUIDs st) = length (ps_partitions st) }.

Lemma parse_entry_inv h st index st' :
  2 ≤ gh_firstUsableLBA h → gh_lastUsableLBA h < 2 ^ 54 →
  parse_inv h st → parse_entry h st index = Ok st' → parse_inv h st'.
Proof.
  intros Hf Hl [I1 I2 [I3 I4]]. unfold parse_entry. cbv zeta.
  set (entry := sub (gh_entries h) _ _). destruct (allZero (sub entry 0 16)); [by intros [= <-]|].
  intros [Hg H]%refuse_Ok. apply refuse_Ok in H as [_ [= <-]].
  apply orb_false_iff in Hg as [Hg Hlast]. apply orb_false_iff in Hg as [Hg Hord].
  apply orb_false_iff in Hg as [Hg Hfirst]. apply orb_false_iff in Hg as [_ Hun].
  apply Z.ltb_ge in Hlast, Hord, Hfirst. apply bool_decide_eq_false in Hun.
  assert (Hw : ∀ z, 0 ≤ z < 2 ^ 64 → wrap 64 z = z) by (intros; unfold wrap; by rewrite Z.mod_small).
  split; simpl.
  - apply Forall_app_2; [done|]. constructor; [|constructor]. split; simpl; try done.
    unfold logicalSectorBytes. rewrite (Hw (_ - _ + 1)) by lia. rewrite Hw by lia. done.
  - by rewrite I2, fmap_app.
  - rewrite length_app. simpl. split; [by constructor|lia].
Qed.

Lemma parsePartitions_ok h partitions :
  2 ≤ gh_firstUsableLBA h → gh_lastUsableLBA h < 2 ^ 54 → parsePartitions h = (partitions, []) →
  Forall (partition_ok h) partitions
  ∧ StronglySorted (λ p q, pt_LastLBA p < pt_FirstLBA q) partitions.
Proof.
  intros Hf Hl. unfold parsePartitions.
  destruct (for_range _ _ _ _) as [st|out] eqn:Hr.
  2: { intros ->. exfalso. revert Hr. generalize 0. generalize (mkParse [] [] []).
    induction (seq 0 (Z.to_nat (gh_entryCount h))) as [|i l IH]; intros st z; [done|]. cbn [for_range].
    destruct (parse_entry h st i) as [st'|out'] eqn:He; [apply IH|]. intros [= ->].
    unfold parse_entry in He. cbv zeta in He. repeat (destruct (_ : bool) in He; try discriminate). }
  assert (HI : parse_inv h st).
  { eapply (for_range_inv (λ _, parse_entry h) (parse_inv h)); [| |exact Hr].
    - intros j st1 x st2 _ HI He. by eapply parse_entry_inv.
    - split; simpl; [constructor|done|]. split; [constructor|done]. }
  destruct HI as [I1 I2 _]. destruct (overlapping _) eqn:Ho; [done|]. intros [= <-].
  pose proof (merge_sort_Permutation by_FirstLBA (ps_partitions st)) as Hperm.
  assert (HF : Forall (partition_ok h) (merge_sort by_FirstLBA (ps_partitions st))) by (by rewrite Hperm).
  split; [done|].
  apply overlapping_false in Ho; [|apply StronglySorted_merge_sort; apply _].
  assert (Hd : StronglySorted disjoint_ranges (range_of <$> merge_sort by_FirstLBA (ps_partitions st))).
  { eapply StronglySorted_permutation; [apply _| |exact Ho].
    rewrite merge_sort_Permutation, I2. by rewrite Hperm. }
  assert (Hs : StronglySorted by_FirstLBA (merge_sort by_FirstLBA (ps_partitions st)))
    by (apply StronglySorted_merge_sort; apply _).
  revert HF Hd Hs. generalize (merge_sort by_FirstLBA (ps_partitions st)). intros l HF. clear -HF.
  induction HF as [|p l Hp HF IH]; intros Hd Hs; [constructor|].
  rewrite fmap_cons in Hd. apply StronglySorted_inv in Hd as [Hd HFd]. apply StronglySorted_inv in Hs as [Hs HFs].
  constructor; [auto|]. rewrite Forall_fmap in HFd. rewrite Forall_forall in HF, HFd, HFs |- *.
  intros q Hq. specialize (HF q Hq). specialize (HFd q Hq). specialize (HFs q Hq).
  destruct HF. unfold disjoint_ranges, by_FirstLBA, range_of in *. simpl in *. lia.
Qed.

End partitions.

(** ** Geometry *)

(** The sectors of the partition array. *)
Definition array_sectors (h : gptHeader) : Z :=
  (gh_entryCount h * gh_entrySize h + logicalSectorBytes - 1) / logicalSectorBytes.

Record geometry (h : gptHeader) (sectors lba : Z) (primary : bool) : Prop := {
  ge_count : 1 ≤ gh_entryCount h ≤ maximumEntries;
  ge_entry : minimumEntryBytes ≤ gh_entrySize h ≤ maximumEntryBytes;
  ge_usable : 2 ≤ gh_firstUsableLBA h ≤ gh_lastUsableLBA h;
  ge_inside : gh_lastUsableLBA h < sectors;
  ge_array : 0 < array_sectors h ∧ gh_entriesLBA h + array_sectors h ≤ sectors;
  ge_place : if primary then 2 ≤ gh_entriesLBA h ∧ gh_entriesLBA h + array_sectors h ≤ gh_firstUsableLBA h
             else gh_lastUsableLBA h < gh_entriesLBA h ∧ gh_entriesLBA h + array_sectors h ≤ lba;
  ge_entries : len (gh_entries h) = gh_entryCount h * gh_entrySize h }.

Lemma wrap_small z : 0 ≤ z < 2 ^ 64 → wrap 64 z = z.
Proof. intros. unfold wrap. by rewrite Z.mod_small. Qed.

Lemma validHeaderGeometry_ok h sectors lba primary entries :
  0 ≤ lba < sectors → sectors < 2 ^ 54 → 0 ≤ gh_entryCount h → 0 ≤ gh_entriesLBA h →
  validHeaderGeometry h sectors lba primary = true →
  len entries = wrap 64 (gh_entryCount h * gh_entrySize h) →
  geometry (with_entries h entries) sectors lba primary.
Proof.
  intros Hlba Hs Hc He Hv Hlen. unfold validHeaderGeometry in Hv.
  destruct (_ || _) eqn:Hg in Hv; [done|]. cbv zeta in Hv.
  repeat (apply orb_false_iff in Hg as [Hg ?]).
  repeat match goal with
    | H : (_ <? _) = false |- _ => apply Z.ltb_ge in H
    | H : (_ <=? _) = false |- _ => apply Z.leb_gt in H
    | H : (_ =? _) = false |- _ => apply Z.eqb_neq in H
    | H : negb _ = false |- _ => apply negb_false_iff in H
    end.
  unfold maximumEntries, minimumEntryBytes, maximumEntryBytes in *.
  assert (Hprod : 128 ≤ gh_entryCount h * gh_entrySize h ≤ 131072) by nia.
  rewrite (wrap_small (gh_entryCount h * gh_entrySize h)) in * by lia.
  unfold logicalSectorBytes in *.
  rewrite (wrap_small (gh_entryCount h * gh_entrySize h + 512 - 1)) in Hv by lia.
  set (n := (gh_entryCount h * gh_entrySize h + 512 - 1) / 512) in *.
  assert (Hn : 0 < n ≤ 257).
  { unfold n. split; [apply Z.div_str_pos; lia|]. apply Z.lt_succ_r, Z.div_lt_upper_bound; lia. }
  destruct (_ || _) eqn:Hg2 in Hv; [done|].
  apply orb_false_iff in Hg2 as [[_ Hin%Z.leb_gt]%orb_false_iff Hfit%Z.ltb_ge].
  rewrite wrap_small in Hv by lia.
  assert (Hplace : if primary then 2 ≤ gh_entriesLBA h ∧ gh_entriesLBA h + n ≤ gh_firstUsableLBA h
                   else gh_lastUsableLBA h < gh_entriesLBA h ∧ gh_entriesLBA h + n ≤ lba).
  { destruct primary; apply andb_true_iff in Hv as [Hv Hb]; apply andb_true_iff in Hv as [Hv Ha];
      rewrite ?Z.ltb_lt, ?Z.leb_le in *; lia. }
  split; cbn [with_entries gh_entryCount gh_entrySize gh_firstUsableLBA gh_lastUsableLBA gh_entriesLBA gh_entries];
    unfold array_sectors, logicalSectorBytes, maximumEntries, minimumEntryBytes, maximumEntryBytes;
    cbn [with_entries gh_entryCount gh_entrySize gh_entriesLBA]; try fold n; try lia; try done.
Qed.

Definition byte (b : Z) : Prop := 0 ≤ b < 256.
Lemma le_nonneg bs : Forall byte bs → 0 ≤ le bs.
Proof. induction 1 as [|b bs Hb HF IH]; simpl; [lia|]. unfold byte in Hb. lia. Qed.

Lemma sub_bytes bs i j : Forall byte bs → Forall byte (sub bs i j).
Proof. intros HF. unfold sub. by apply Forall_take, Forall_drop. Qed.

Lemma readAt_Ok image n offset size bs :
  readAt image n offset size = Ok bs → image offset n = Some bs ∧ len bs = n ∧ offset + n ≤ size.
Proof.
  unfold readAt. intros [Hg H]%refuse_Ok. destruct (image offset n) as [x|]; [|done].
  apply refuse_Ok in H as [Hl [= ->]]. go_bool. split_and!; [done|lia|lia].
Qed.

Lemma readGPTHeader_ok image size sectors lba primary h :
  (∀ offset n bs, image offset n = Some bs → Forall byte bs) → 0 ≤ lba → sectors < 2 ^ 54 →
  readGPTHeader image size sectors lba primary = Ok (Some h) → geometry h sectors lba primary.
Proof.
  intros Hbytes Hlba Hs. unfold readGPTHeader. destruct (Z.leb_spec sectors lba) as [|Hlt]; [done|].
  intros H. apply res_bind_Ok in H as (buffer & Hrd & H). apply readAt_Ok in Hrd as (Hb%Hbytes & _ & _).
  destruct (_ != _); [done|]. cbv zeta in H. destruct (_ || _); [done|].
  destruct (negb (ChecksumIEEE _ =? _)); [done|]. destruct (negb (_ =? 0)); [done|].
  set (hd := header_fields buffer (le (sub buffer 12 16))) in *.
  destruct (validHeaderGeometry hd sectors lba primary) eqn:Hv; [|done]. cbn [negb] in H.
  destruct (maximumArrayBytes <? _); [done|].
  apply res_bind_Ok in H as (entries & Hrd & H). apply readAt_Ok in Hrd as (_ & Hlen & _).
  destruct (negb _); [done|]. injection H as <-.
  apply validHeaderGeometry_ok; [lia|done|by apply le_nonneg, sub_bytes|by apply le_nonneg, sub_bytes|done|done].
Qed.

(** ** Properties *)

(** The layout a valid report describes, with the two headers it was read from. *)
Record valid_layout (report : Report) (primary backup : gptHeader) (size : Z) : Prop := {
  vl_primary : geometry primary (size / logicalSectorBytes) 1 true;
  vl_backup : geometry backup (size / logicalSectorBytes) (size / logicalSectorBytes - 1) false;
  vl_agree : gh_entries primary = gh_entries backup ∧ gh_diskGUID primary = gh_diskGUID backup;
  vl_disjoint : StronglySorted (λ p q, pt_LastLBA p < pt_FirstLBA q) (rp_Partitions report);
  vl_place : Forall (λ p, gh_entriesLBA primary + array_sectors primary ≤ pt_FirstLBA p
                          ∧ pt_FirstLBA p ≤ pt_LastLBA p < gh_entriesLBA backup
                          ∧ pt_SizeBytes p = (pt_LastLBA p - pt_FirstLBA p + 1) * logicalSectorBytes
                          ∧ (pt_LastLBA p + 1) * logicalSectorBytes ≤ size) (rp_Partitions report);
  vl_count : rp_PartitionCount report = len (rp_Partitions report) }.

(** What a valid report means. If [Inspect] reports a valid table for an
    image of any 63-bit size, both GPT copies were read from the first and last
    sector and carry the same partition array and disk identity; the reported
    partitions are in disk order and pairwise disjoint, lie between the primary
    and the backup partition arrays and inside the image, and their byte sizes
    are exact. *)
Theorem Inspect_valid sha256 (image : ReaderAt) size report :
  (∀ offset n bs, image offset n = Some bs → Forall byte bs) → size ≤ max_int64 →
  Inspect sha256 (Some image) size = Ok report → rp_Status report = StatusValid →
  ∃ primary backup,
    readGPTHeader image size (size / logicalSectorBytes) 1 true = Ok (Some primary)
    ∧ readGPTHeader image size (size / logicalSectorBytes) (size / logicalSectorBytes - 1) false = Ok (Some backup)
    ∧ valid_layout report primary backup size.
Proof.
  intros Hbytes Hsize. unfold Inspect. intros [_ H]%refuse_Ok Hst.
  destruct (Z.ltb_spec size (34 * logicalSectorBytes)) as [|Hmin]; [by simplify_eq|].
  destruct (negb _); [by simplify_eq|]. cbv zeta in H. set (sectors := size / logicalSectorBytes) in *.
  assert (Hsec : 34 ≤ sectors < 2 ^ 54).
  { unfold sectors, logicalSectorBytes, max_int64 in *. split; [apply Z.div_le_lower_bound; lia|].
    apply Z.div_lt_upper_bound; lia. }
  assert (Hsz : sectors * logicalSectorBytes ≤ size).
  { unfold sectors, logicalSectorBytes. pose proof (Z.mul_div_le size 512). lia. }
  apply res_bind_Ok in H as (mbr & _ & H). destruct mbr; [by simplify_eq| |by simplify_eq].
  apply res_bind_Ok in H as ([primary|] & Hp & H); [|by simplify_eq].
  apply res_bind_Ok in H as ([backup|] & Hb & H); [|by simplify_eq].
  destruct (headersAgree primary backup sectors) eqn:Ha; [|by injection H as <-]. cbn [negb] in H.
  destruct (parsePartitions sha256 primary) as [partitions [|f fs]] eqn:Hpp; [|by injection H as <-].
  injection H as <-.
  pose proof (readGPTHeader_ok image size sectors 1 true primary Hbytes ltac:(lia) ltac:(lia) Hp) as Gp.
  pose proof (readGPTHeader_ok image size sectors (sectors - 1) false backup Hbytes ltac:(lia) ltac:(lia) Hb) as Gb.
  exists primary, backup. split; [done|]. split; [done|].
  destruct (ge_usable _ _ _ _ Gp) as [Hu1 Hu2]. pose proof (ge_inside _ _ _ _ Gp) as Hin.
  pose proof (ge_place _ _ _ _ Gp) as [Hpl1 Hpl2]. pose proof (ge_place _ _ _ _ Gb) as [Hbl1 Hbl2].
  apply parsePartitions_ok in Hpp as [HF HS]; [|lia|lia].
  unfold headersAgree in Ha. rewrite !andb_true_iff in Ha.
  destruct Ha as [[[[[[[[[[[[_ _] _] _] _] _] _] Hlu] Hguid] _] _] _] Hent].
  apply Z.eqb_eq in Hlu. apply bool_decide_eq_true in Hguid, Hent.
  split; try done. cbn [rp_Partitions]. eapply Forall_impl; [exact HF|]. intros p [P1 P2 P3 P4].
  unfold logicalSectorBytes in *. split_and!; [lia|lia|lia|done|lia].
Qed.

(** A 34-sector image with one partition. *)
Fixpoint le_bytes (n : nat) (z : Z) : list Z := match n with O => [] | S n => z mod 256 :: le_bytes n (z / 256) end.
Definition pad (n : nat) (bs : list Z) : list Z := bs ++ replicate (n - length bs) 0.
Definition toy_entries : list Z :=
  pad 128 (replicate 16 1 ++ replicate 16 2 ++ le_bytes 8 3 ++ le_bytes 8 10 ++ le_bytes 8 0).
Definition toy_header_with (crc current backup entriesLBA : Z) : list Z :=
  codes "EFI PART" ++ le_bytes 4 65536 ++ le_bytes 4 92 ++ le_bytes 4 crc ++ le_bytes 4 0 ++ le_bytes 8 current
  ++ le_bytes 8 backup ++ le_bytes 8 3 ++ le_bytes 8 31 ++ replicate 16 7 ++ le_bytes 8 entriesLBA ++ le_bytes 4 1
  ++ le_bytes 4 128 ++ le_bytes 4 (ChecksumIEEE toy_entries).
Definition toy_header (current backup entriesLBA : Z) : list Z :=
  toy_header_with (ChecksumIEEE (toy_header_with 0 current backup entriesLBA)) current backup entriesLBA.
Definition toy_mbr : list Z :=
  replicate 446 0 ++ [0; 0; 0; 0; 238; 0; 0; 0] ++ le_bytes 4 1 ++ le_bytes 4 33 ++ replicate 48 0 ++ [85; 170].
Definition toy_sector (lba : Z) : list Z :=
  if lba =? 0 then toy_mbr else if lba =? 1 then toy_header 1 33 2 else if lba =? 2 then toy_entries
  else if lba =? 32 then toy_entries else if lba =? 33 then toy_header 33 1 32 else [].
Definition toy_image : ReaderAt := λ offset n, Some (take (Z.to_nat n) (pad 512 (toy_sector (offset / 512)))).

Lemma toy_image_bytes offset n bs : toy_image offset n = Some bs → Forall byte bs.
Proof.
  intros [= <-]. apply Forall_take. apply Forall_app_2; [|apply Forall_replicate; unfold byte; lia].
  assert (H : forallb (λ s, forallb (λ b, (0 <=? b) && (b <? 256)) s)
    [toy_mbr; toy_header 1 33 2; toy_entries; toy_header 33 1 32] = true) by (vm_compute; reflexivity).
  assert (Hb : ∀ s, s ∈ [toy_mbr; toy_header 1 33 2; toy_entries; toy_header 33 1 32] → Forall byte s).
  { rewrite forallb_forall in H. intros s Hs%list_elem_of_In. specialize (H s Hs).
    rewrite forallb_forall in H. apply Forall_forall. intros b Hx%list_elem_of_In. specialize (H b Hx).
    unfold byte. go_bool in H. lia. }
  unfold toy_sector. destruct (_ =? 0); [apply Hb; constructor 1|].
  destruct (_ =? 1); [apply Hb; constructor 2; constructor 1|].
  destruct (_ =? 2); [apply Hb; do 2 constructor 2; constructor 1|].
  destruct (_ =? 32); [apply Hb; do 2 constructor 2; constructor 1|].
  destruct (_ =? 33); [apply Hb; do 3 constructor 2; constructor 1|constructor].
Qed.

Lemma Inspect_valid_witness :
  ∃ report primary backup, Inspect (λ bs, bs) (Some toy_image) 17408 = Ok report
    ∧ pt_FirstLBA <$> rp_Partitions report = [3] ∧ valid_layout report primary backup 17408.
Proof.
  destruct (Inspect (λ bs, bs) (Some toy_image) 17408) as [report|e] eqn:HI.
  - assert (Hs : (λ r, (rp_Status r, pt_FirstLBA <$> rp_Partitions r)) <$> Inspect (λ bs, bs) (Some toy_image) 17408
      = Ok (StatusValid, [3])) by (vm_compute; reflexivity).
    rewrite HI in Hs.
    injection Hs as Hst Hparts.
    destruct (Inspect_valid (λ bs, bs) toy_image 17408 report toy_image_bytes) as (primary & backup & _ & _ & Hv).
    + vm_compute. discriminate.
    + exact HI.
    + exact Hst.
    + exists report, primary, backup. split; [reflexivity|]. split; [exact Hparts|exact Hv].
  - exfalso. assert (Hok : is_ok (Inspect (λ bs, bs) (Some toy_image) 17408) = true) by (vm_compute; reflexivity).
    rewrite HI in Hok. discriminate Hok.
Defined.

End Gpt.
