(* ===== verification/MdMetadata.v ===== *)
(** * Linux MD metadata: [mdmetadata/v10.go] and [mdmetadata/array.go]

    [InspectPartition] reads one version 1.0 superblock at the end of a partition
    through bounded reads; [CompareComponents] groups the candidate members by
    array and says whether their metadata agree.  The source is an arbitrary
    reader, the digest of the fingerprints is a parameter, the checksum is
    computed. *)

From S2P Require Import Prelude GoStrings GoPath Gpt.

Module MdMetadata.
Import Gpt GoPath.

(** ** [v10.go] *)
Definition mdV1Magic : Z := 2838187772.
Definition mdV1FixedBytes : Z := 256.
Definition mdV1MaximumBytes : Z := 4096.
Definition mdV1MaxDevices : Z := (mdV1MaximumBytes - mdV1FixedBytes) / 2.
Definition mdV1SuperOffset : nat := 144.
Definition mdV1ChecksumOffset : nat := 216.
Definition mdV1MaxDevicesOffset : nat := 220.
Definition mdV1RolesOffset : Z := mdV1FixedBytes.
Definition mdV1RoleJournal : Z := 65533.
Definition mdV1RoleFaulty : Z := 65534.
Definition mdV1RoleSpare : Z := 65535.

Inductive Status := StatusCandidate | StatusNotFound | StatusDamaged | StatusUnsupported.
#[export] Instance Status_eq_dec : EqDecision Status. Proof. solve_decision. Defined.
Inductive md_error := ErrUnsafeSource | ErrReadFailed.
#[export] Instance md_error_eq_dec : EqDecision md_error. Proof. solve_decision. Defined.

Record Partition := mkPartition { pa_Number : Z; pa_StartLBA : Z; pa_SizeLBA : Z }.

Record Observation := mkObservation {
  ob_Status : Status; ob_MetadataVersion : string; ob_PartitionNumber : Z; ob_PartitionFirstLBA : Z;
  ob_PartitionLastLBA : Z; ob_DiskSectors : Z; ob_PartitionBytes : Z; ob_SuperblockOffsetBytes : Z;
  ob_ArrayLevel : Z; ob_ArrayLayout : Z; ob_ArraySizeSectors : Z; ob_ChunkSizeSectors : Z; ob_RAIDDisks : Z;
  ob_MaxDevices : Z; ob_MemberNumber : Z; ob_MemberRole : Z; ob_MemberRoleDescription : string; ob_FeatureMap : Z;
  ob_Events : Z; ob_ComponentDataOffsetSectors : Z; ob_ComponentDataSectors : Z;
  ob_SuperblockChecksumStatus : string; ob_ArrayIdentityFingerprint : string; ob_MemberIdentityFingerprint : string;
  ob_MetadataRead : bool }.
#[export] Instance Observation_eq_dec : EqDecision Observation. Proof. solve_decision. Defined.

(** assignments to fields of [result] *)
Definition with_Status (status : Status) (o : Observation) : Observation :=
  mkObservation status (ob_MetadataVersion o) (ob_PartitionNumber o) (ob_PartitionFirstLBA o) (ob_PartitionLastLBA o)
  (ob_DiskSectors o) (ob_PartitionBytes o) (ob_SuperblockOffsetBytes o) (ob_ArrayLevel o) (ob_ArrayLayout o)
  (ob_ArraySizeSectors o) (ob_ChunkSizeSectors o) (ob_RAIDDisks o) (ob_MaxDevices o) (ob_MemberNumber o)
  (ob_MemberRole o) (ob_MemberRoleDescription o) (ob_FeatureMap o) (ob_Events o) (ob_ComponentDataOffsetSectors o)
  (ob_ComponentDataSectors o) (ob_SuperblockChecksumStatus o) (ob_ArrayIdentityFingerprint o)
  (ob_MemberIdentityFingerprint o) (ob_MetadataRead o).
Definition with_DiskSectors (sectors : Z) (o : Observation) : Observation :=
  mkObservation (ob_Status o) (ob_MetadataVersion o) (ob_PartitionNumber o) (ob_PartitionFirstLBA o)
  (ob_PartitionLastLBA o) sectors (ob_PartitionBytes o) (ob_SuperblockOffsetBytes o) (ob_ArrayLevel o)
  (ob_ArrayLayout o) (ob_ArraySizeSectors o) (ob_ChunkSizeSectors o) (ob_RAIDDisks o) (ob_MaxDevices o)
  (ob_MemberNumber o) (ob_MemberRole o) (ob_MemberRoleDescription o) (ob_FeatureMap o) (ob_Events o)
  (ob_ComponentDataOffsetSectors o) (ob_ComponentDataSectors o) (ob_SuperblockChecksumStatus o)
  (ob_ArrayIdentityFingerprint o) (ob_MemberIdentityFingerprint o) (ob_MetadataRead o).
Definition with_extent (last : Z) (bytes : Z) (o : Observation) : Observation :=
  mkObservation (ob_Status o) (ob_MetadataVersion o) (ob_PartitionNumber o) (ob_PartitionFirstLBA o) last
  (ob_DiskSectors o) bytes (ob_SuperblockOffsetBytes o) (ob_ArrayLevel o) (ob_ArrayLayout o) (ob_ArraySizeSectors o)
  (ob_ChunkSizeSectors o) (ob_RAIDDisks o) (ob_MaxDevices o) (ob_MemberNumber o) (ob_MemberRole o)
  (ob_MemberRoleDescription o) (ob_FeatureMap o) (ob_Events o) (ob_ComponentDataOffsetSectors o)
  (ob_ComponentDataSectors o) (ob_SuperblockChecksumStatus o) (ob_ArrayIdentityFingerprint o)
  (ob_MemberIdentityFingerprint o) (ob_MetadataRead o).
Definition with_SuperblockOffsetBytes (base : Z) (o : Observation) : Observation :=
  mkObservation (ob_Status o) (ob_MetadataVersion o) (ob_PartitionNumber o) (ob_PartitionFirstLBA o)
  (ob_PartitionLastLBA o) (ob_DiskSectors o) (ob_PartitionBytes o) base (ob_ArrayLevel o) (ob_ArrayLayout o)
  (ob_ArraySizeSectors o) (ob_ChunkSizeSectors o) (ob_RAIDDisks o) (ob_MaxDevices o) (ob_MemberNumber o)
  (ob_MemberRole o) (ob_MemberRoleDescription o) (ob_FeatureMap o) (ob_Events o) (ob_ComponentDataOffsetSectors o)
  (ob_ComponentDataSectors o) (ob_SuperblockChecksumStatus o) (ob_ArrayIdentityFingerprint o)
  (ob_MemberIdentityFingerprint o) (ob_MetadataRead o).
Definition with_MetadataRead  (o : Observation) : Observation :=
  mkObservation (ob_Status o) (ob_MetadataVersion o) (ob_PartitionNumber o) (ob_PartitionFirstLBA o)
  (ob_PartitionLastLBA o) (ob_DiskSectors o) (ob_PartitionBytes o) (ob_SuperblockOffsetBytes o) (ob_ArrayLevel o)
  (ob_ArrayLayout o) (ob_ArraySizeSectors o) (ob_ChunkSizeSectors o) (ob_RAIDDisks o) (ob_MaxDevices o)
  (ob_MemberNumber o) (ob_MemberRole o) (ob_MemberRoleDescription o) (ob_FeatureMap o) (ob_Events o)
  (ob_ComponentDataOffsetSectors o) (ob_ComponentDataSectors o) (ob_SuperblockChecksumStatus o)
  (ob_ArrayIdentityFingerprint o) (ob_MemberIdentityFingerprint o) true.
Definition with_SuperblockChecksumStatus (status : string) (o : Observation) : Observation :=
  mkObservation (ob_Status o) (ob_MetadataVersion o) (ob_PartitionNumber o) (ob_PartitionFirstLBA o)
  (ob_PartitionLastLBA o) (ob_DiskSectors o) (ob_PartitionBytes o) (ob_SuperblockOffsetBytes o) (ob_ArrayLevel o)
  (ob_ArrayLayout o) (ob_ArraySizeSectors o) (ob_ChunkSizeSectors o) (ob_RAIDDisks o) (ob_MaxDevices o)
  (ob_MemberNumber o) (ob_MemberRole o) (ob_MemberRoleDescription o) (ob_FeatureMap o) (ob_Events o)
  (ob_ComponentDataOffsetSectors o) (ob_ComponentDataSectors o) status (ob_ArrayIdentityFingerprint o)
  (ob_MemberIdentityFingerprint o) (ob_MetadataRead o).
Definition with_features (version : string) (features : Z) (o : Observation) : Observation :=
  mkObservation (ob_Status o) version (ob_PartitionNumber o) (ob_PartitionFirstLBA o) (ob_PartitionLastLBA o)
  (ob_DiskSectors o) (ob_PartitionBytes o) (ob_SuperblockOffsetBytes o) (ob_ArrayLevel o) (ob_ArrayLayout o)
  (ob_ArraySizeSectors o) (ob_ChunkSizeSectors o) (ob_RAIDDisks o) (ob_MaxDevices o) (ob_MemberNumber o)
  (ob_MemberRole o) (ob_MemberRoleDescription o) features (ob_Events o) (ob_ComponentDataOffsetSectors o)
  (ob_ComponentDataSectors o) (ob_SuperblockChecksumStatus o) (ob_ArrayIdentityFingerprint o)
  (ob_MemberIdentityFingerprint o) (ob_MetadataRead o).
(** the assignments of the array and member fields from the superblock *)
Definition with_array (sb : list Z) (maxDevices : Z) (o : Observation) : Observation :=
  mkObservation (ob_Status o) (ob_MetadataVersion o) (ob_PartitionNumber o) (ob_PartitionFirstLBA o)
  (ob_PartitionLastLBA o) (ob_DiskSectors o) (ob_PartitionBytes o) (ob_SuperblockOffsetBytes o)
  (to_int32 (le (sub sb 72 76))) (le (sub sb 76 80)) (le (sub sb 80 88)) (le (sub sb 88 92)) (le (sub sb 92 96))
  maxDevices (le (sub sb 160 164)) (ob_MemberRole o) (ob_MemberRoleDescription o) (ob_FeatureMap o)
  (le (sub sb 200 208)) (le (sub sb 128 136)) (le (sub sb 136 144)) (ob_SuperblockChecksumStatus o)
  (ob_ArrayIdentityFingerprint o) (ob_MemberIdentityFingerprint o) (ob_MetadataRead o).
Definition with_MemberRole (role : Z) (description : string) (o : Observation) : Observation :=
  mkObservation (ob_Status o) (ob_MetadataVersion o) (ob_PartitionNumber o) (ob_PartitionFirstLBA o)
  (ob_PartitionLastLBA o) (ob_DiskSectors o) (ob_PartitionBytes o) (ob_SuperblockOffsetBytes o) (ob_ArrayLevel o)
  (ob_ArrayLayout o) (ob_ArraySizeSectors o) (ob_ChunkSizeSectors o) (ob_RAIDDisks o) (ob_MaxDevices o)
  (ob_MemberNumber o) role description (ob_FeatureMap o) (ob_Events o) (ob_ComponentDataOffsetSectors o)
  (ob_ComponentDataSectors o) (ob_SuperblockChecksumStatus o) (ob_ArrayIdentityFingerprint o)
  (ob_MemberIdentityFingerprint o) (ob_MetadataRead o).
Definition with_fingerprints (array : string) (member : string) (o : Observation) : Observation :=
  mkObservation (ob_Status o) (ob_MetadataVersion o) (ob_PartitionNumber o) (ob_PartitionFirstLBA o)
  (ob_PartitionLastLBA o) (ob_DiskSectors o) (ob_PartitionBytes o) (ob_SuperblockOffsetBytes o) (ob_ArrayLevel o)
  (ob_ArrayLayout o) (ob_ArraySizeSectors o) (ob_ChunkSizeSectors o) (ob_RAIDDisks o) (ob_MaxDevices o)
  (ob_MemberNumber o) (ob_MemberRole o) (ob_MemberRoleDescription o) (ob_FeatureMap o) (ob_Events o)
  (ob_ComponentDataOffsetSectors o) (ob_ComponentDataSectors o) (ob_SuperblockChecksumStatus o) array member
  (ob_MetadataRead o).

Definition newObservation (partition : Partition) : Observation :=
  let last := if negb (pa_SizeLBA partition =? 0) && (pa_StartLBA partition <=? max_uint64 - (pa_SizeLBA partition - 1))
              then wrap 64 (pa_StartLBA partition + pa_SizeLBA partition - 1) else 0 in
  mkObservation StatusUnsupported "" (pa_Number partition) (pa_StartLBA partition) last 0 0 0 0 0 0 0 0 0 0 0 "" 0 0 0 0
    "not-validated" "" "" false.
Definition damaged : Observation → Observation := with_Status StatusDamaged.
Definition unsupported : Observation → Observation := with_Status StatusUnsupported.

Definition readAt (source : ReaderAt) (n offset size : Z) : res md_error (list Z) :=
  refuse (size <? 0) || (size <? offset) || (max_int64 <? offset) || (size - offset <? n) => ErrUnsafeSource ;;
  match source offset n with
  | Some bs => refuse negb (len bs =? n) => ErrReadFailed ;; Ok bs
  | None => Err ErrReadFailed
  end.

(** [for offset := 0; offset+4 <= len; offset += 4] *)
Fixpoint add_words (sum : Z) (bs : list Z) : Z :=
  match bs with
  | a :: b :: c :: d :: rest => add_words (u64_add sum (le [a; b; c; d])) rest
  | _ => sum
  end.
Definition mdV1Checksum (superblock : list Z) : Z :=
  let cleared := take mdV1ChecksumOffset superblock ++ [0; 0; 0; 0] ++ drop (mdV1ChecksumOffset + 4) superblock in
  let sum := add_words 0 cleared in
  let sum := if len cleared mod 4 =? 2 then u64_add sum (le (drop (length cleared - 2) cleared)) else sum in
  u32_add (wrap 32 sum) (wrap 32 (Z.shiftr sum 32)).

(** the role of a member and its description; none of them is unsupported *)
Definition describe_role (role raidDisks : Z) : option string :=
  if role <? wrap 16 raidDisks then Some "active-slot"
  else if role =? mdV1RoleSpare then Some "spare"
  else if role =? mdV1RoleFaulty then Some "faulty"
  else if role =? mdV1RoleJournal then Some "journal"
  else None.

Section inspect.
(** SHA-256 *)
Context (sha256 : list Z → list Z).

Definition fingerprint (domain : string) (identity : list Z) : string :=
  hex_encode (sha256 (codes (String.append domain newline) ++ identity)).

(** what follows the two reads: the superblock is complete *)
Definition inspect_superblock (result : Observation) (superSector maxDevices : Z) (superblock : list Z) : Observation :=
  let storedChecksum := le (sub superblock mdV1ChecksumOffset (mdV1ChecksumOffset + 4)) in
  if negb (mdV1Checksum superblock =? storedChecksum) then damaged (with_SuperblockChecksumStatus "invalid" result)
  else
    let result := with_SuperblockChecksumStatus "valid" result in
    if negb (le (sub superblock mdV1SuperOffset (mdV1SuperOffset + 8)) =? superSector) then unsupported result
    else
      let result := with_features "1.0" (le (sub superblock 8 12)) result in
      if negb (ob_FeatureMap result =? 0) then unsupported result
      else
        let result := with_array superblock maxDevices result in
        if (ob_ArraySizeSectors result =? 0) || (ob_RAIDDisks result =? 0) || (maxDevices <? ob_RAIDDisks result)
           || (maxDevices <=? ob_MemberNumber result) then damaged result
        else if (superSector <? ob_ComponentDataOffsetSectors result) || (ob_ComponentDataSectors result =? 0)
                || (superSector - ob_ComponentDataOffsetSectors result <? ob_ComponentDataSectors result) then damaged result
        else
          let roleOffset := Z.to_nat (u32_add mdV1RolesOffset (wrap 32 (ob_MemberNumber result * 2))) in
          let role := le (sub superblock roleOffset (roleOffset + 2)) in
          match describe_role role (ob_RAIDDisks result) with
          | None => unsupported (with_MemberRole role "" result)
          | Some description =>
            let array := sub superblock 16 32 in
            let member := sub superblock 168 184 in
            with_Status StatusCandidate
              (with_fingerprints
                 (if allZero array then "" else fingerprint "phantowd-md-array-v1" array)
                 (if allZero member then "" else fingerprint "phantowd-md-member-v1" member)
                 (with_MemberRole role description result))
          end.

(** what follows the bounds: the fixed part, then the roles *)
Definition read_superblock (source : ReaderAt) (sourceBytes : Z) (result : Observation)
  (superSector metadataStartBytes base : Z) : Observation * option md_error :=
  match readAt source mdV1FixedBytes base sourceBytes with
  | Err err => (result, Some err)
  | Ok fixed =>
    let result := with_MetadataRead result in
    if negb (le (sub fixed 0 4) =? mdV1Magic) then (with_Status StatusNotFound result, None)
    else if negb (le (sub fixed 4 8) =? 1) then (unsupported result, None)
    else
      let maxDevices := le (sub fixed mdV1MaxDevicesOffset (mdV1MaxDevicesOffset + 4)) in
      if (maxDevices =? 0) || (mdV1MaxDevices <? maxDevices) then (damaged result, None)
      else
        let metadataBytes := u64_add mdV1FixedBytes (wrap 64 (maxDevices * 2)) in
        if (mdV1MaximumBytes <? metadataBytes) || (ob_PartitionBytes result <? metadataBytes)
           || (ob_PartitionBytes result - metadataBytes <? metadataStartBytes) then (damaged result, None)
        else if metadataBytes <=? mdV1FixedBytes
             then (inspect_superblock result superSector maxDevices fixed, None)
        else match readAt source (metadataBytes - mdV1FixedBytes) (u64_add base mdV1FixedBytes) sourceBytes with
             | Err err => (result, Some err)
             | Ok roles => (inspect_superblock result superSector maxDevices (fixed ++ roles), None)
             end
  end.

Definition InspectPartition (source : option ReaderAt) (sourceBytes : Z) (partition : Partition) :
  Observation * option md_error :=
  let result := newObservation partition in
  match source with
  | None => (result, Some ErrUnsafeSource)
  | Some source =>
    if (sourceBytes <=? 0) || (pa_Number partition =? 0) || (pa_SizeLBA partition =? 0) || (pa_StartLBA partition =? 0)
    then (result, Some ErrUnsafeSource)
    else if negb (Z.rem sourceBytes logicalSectorBytes =? 0) then (result, Some ErrUnsafeSource)
    else
      let diskSectors := sourceBytes / logicalSectorBytes in
      let result := with_DiskSectors diskSectors result in
      if max_uint64 - pa_SizeLBA partition <? pa_StartLBA partition then (result, Some ErrUnsafeSource)
      else
        let endExclusive := u64_add (pa_StartLBA partition) (pa_SizeLBA partition) in
        if (diskSectors <? endExclusive) || (max_uint64 / logicalSectorBytes <? pa_SizeLBA partition)
        then (result, Some ErrUnsafeSource)
        else
          let result := with_extent (endExclusive - 1) (wrap 64 (pa_SizeLBA partition * logicalSectorBytes)) result in
          if pa_SizeLBA partition <? 24 then (unsupported result, None)
          else
            let superSector := Z.ldiff (pa_SizeLBA partition - 16) 7 in
            if (max_int64 / logicalSectorBytes <? pa_StartLBA partition)
               || (max_int64 / logicalSectorBytes - pa_StartLBA partition <? superSector) then (damaged result, None)
            else
              let metadataStartBytes := wrap 64 (superSector * logicalSectorBytes) in
              let base := wrap 64 (u64_add (pa_StartLBA partition) superSector * logicalSectorBytes) in
              if (ob_PartitionBytes result <? metadataStartBytes)
                 || (ob_PartitionBytes result - metadataStartBytes <? mdV1FixedBytes) then (damaged result, None)
              else read_superblock source sourceBytes (with_SuperblockOffsetBytes base result) superSector metadataStartBytes base
  end.
End inspect.

(** ** [array.go] *)
Definition maxComponentEvidence : Z := 512.
Definition maxComponentDiskIndex : Z := 4.
Definition maxComponentPartition : Z := 128.
Definition arrayFingerprintByteCount : Z := 32.

Inductive ArrayComparisonStatus :=
| ArrayMetadataConsistent | ArrayIncomplete | ArrayDivergentEvents | ArrayConflicting | ArrayAmbiguous.
#[export] Instance ArrayComparisonStatus_eq_dec : EqDecision ArrayComparisonStatus. Proof. solve_decision. Defined.

Record ComponentEvidence := mkEvidence { ce_DiskIndex : Z; ce_PartitionNumber : Z; ce_Observation : Observation }.
Record ArrayComparison := mkArray {
  ac_ArrayIdentityFingerprint : string; ac_Status : ArrayComparisonStatus; ac_ArrayLevel : Z; ac_ArrayLayout : Z;
  ac_ArraySizeSectors : Z; ac_ChunkSizeSectors : Z; ac_ComponentDataSectors : Z; ac_RAIDDisks : Z; ac_MaxDevices : Z;
  ac_ObservedActiveRoles : Z; ac_MemberCount : Z; ac_MissingActiveRoles : list Z }.
Record SetComparison := mkSet {
  sc_CandidateComponents : Z; sc_UnqualifiedComponents : Z; sc_UnidentifiedCandidateComponents : Z;
  sc_Arrays : list ArrayComparison }.
Inductive set_error := ErrInvalidComponentSet.
#[export] Instance set_error_eq_dec : EqDecision set_error. Proof. solve_decision. Defined.

Definition validFingerprint (value : string) : bool :=
  if negb (slength value =? arrayFingerprintByteCount * 2) then false
  else match hex_decode value with
       | Some decoded => (len decoded =? arrayFingerprintByteCount) && (hex_encode decoded == value)
       | None => false
       end.

Definition validComponentObservation (o : Observation) : bool :=
  if (ob_Status o != StatusCandidate) || (ob_MetadataVersion o != "1.0") || negb (ob_MetadataRead o)
     || (ob_SuperblockChecksumStatus o != "valid") || negb (ob_FeatureMap o =? 0)
     || ((ob_ArrayIdentityFingerprint o != "") && negb (validFingerprint (ob_ArrayIdentityFingerprint o)))
     || (ob_MaxDevices o =? 0) || (mdV1MaxDevices <? ob_MaxDevices o)
     || (ob_RAIDDisks o =? 0) || (ob_MaxDevices o <? ob_RAIDDisks o)
     || (ob_MaxDevices o <=? ob_MemberNumber o) || (ob_ArraySizeSectors o =? 0)
     || (ob_ComponentDataSectors o =? 0) || negb (validFingerprint (ob_MemberIdentityFingerprint o)) then false
  else if ob_MemberRole o <? wrap 16 (ob_RAIDDisks o) then ob_MemberRoleDescription o == "active-slot"
  else if ob_MemberRole o =? mdV1RoleSpare then ob_MemberRoleDescription o == "spare"
  else if ob_MemberRole o =? mdV1RoleFaulty then ob_MemberRoleDescription o == "faulty"
  else if ob_MemberRole o =? mdV1RoleJournal then ob_MemberRoleDescription o == "journal"
  else false.

(** what the member loop of [compareArray] assigns *)
Record members_state := mkMembers {
  ms_activeRoles : gset Z; ms_memberNumbers : gset Z; ms_memberIdentities : gset string;
  ms_duplicate : bool; ms_conflicting : bool; ms_divergent : bool }.

Definition conflicts (first current : Observation) : bool :=
  negb (ob_ArrayLevel current =? ob_ArrayLevel first) || negb (ob_ArrayLayout current =? ob_ArrayLayout first)
  || negb (ob_ArraySizeSectors current =? ob_ArraySizeSectors first)
  || negb (ob_ChunkSizeSectors current =? ob_ChunkSizeSectors first)
  || negb (ob_ComponentDataSectors current =? ob_ComponentDataSectors first)
  || negb (ob_RAIDDisks current =? ob_RAIDDisks first) || negb (ob_MaxDevices current =? ob_MaxDevices first)
  || negb (ob_FeatureMap current =? ob_FeatureMap first).
Definition holds_slot (raidDisks : Z) (o : Observation) : bool :=
  (ob_MemberRoleDescription o == "active-slot") && (ob_MemberRole o <? raidDisks).

Definition member_step (first : Observation) (st : members_state) (current : Observation) : members_state :=
  let conflicting := ms_conflicting st || conflicts first current in
  let divergent := ms_divergent st || negb (ob_Events current =? ob_Events first) in
  let duplicate := ms_duplicate st || (ob_MemberNumber current ∈? ms_memberNumbers st) in
  let numbers := {[ob_MemberNumber current]} ∪ ms_memberNumbers st in
  let '(duplicate, identities) :=
    if ob_MemberIdentityFingerprint current != ""
    then (duplicate || (ob_MemberIdentityFingerprint current ∈? ms_memberIdentities st),
          {[ob_MemberIdentityFingerprint current]} ∪ ms_memberIdentities st)
    else (duplicate, ms_memberIdentities st) in
  let '(duplicate, roles) :=
    if holds_slot (ob_RAIDDisks first) current
    then (duplicate || (ob_MemberRole current ∈? ms_activeRoles st), {[ob_MemberRole current]} ∪ ms_activeRoles st)
    else (duplicate, ms_activeRoles st) in
  mkMembers roles numbers identities duplicate conflicting divergent.

(** [for role := uint32(0); role < array.RAIDDisks; role++] *)
Definition role_range (raidDisks : Z) : list Z := Z.of_nat <$> seq 0 (Z.to_nat raidDisks).

(** [members[0]] of an empty group would panic; groups are never empty *)
Definition compareArray (identity : string) (first : Observation) (rest : list Observation) : ArrayComparison :=
  let members := first :: rest in
  let st := fold_left (member_step first) members (mkMembers ∅ ∅ ∅ false false false) in
  let missing := filter (λ role, role ∉ ms_activeRoles st) (role_range (ob_RAIDDisks first)) in
  let observed := len (filter (λ role, role ∈ ms_activeRoles st) (role_range (ob_RAIDDisks first))) in
  let status :=
    if ms_duplicate st then ArrayAmbiguous
    else if ms_conflicting st then ArrayConflicting
    else if ms_divergent st then ArrayDivergentEvents
    else if negb (len missing =? 0) then ArrayIncomplete
    else ArrayMetadataConsistent in
  mkArray identity status (ob_ArrayLevel first) (ob_ArrayLayout first) (ob_ArraySizeSectors first)
    (ob_ChunkSizeSectors first) (ob_ComponentDataSectors first) (ob_RAIDDisks first) (ob_MaxDevices first)
    observed (len members) missing.

(** what the component loop of [CompareComponents] assigns *)
Record set_state := mkState {
  ss_locations : gset (Z * Z); ss_unqualified : Z; ss_candidates : Z; ss_unidentified : Z;
  ss_groups : gmap string (list Observation) }.
Definition component_step (st : set_state) (c : ComponentEvidence) : res set_error set_state :=
  refuse (ce_DiskIndex c =? 0) || (maxComponentDiskIndex <? ce_DiskIndex c)
         || (ce_PartitionNumber c =? 0) || (maxComponentPartition <? ce_PartitionNumber c) => ErrInvalidComponentSet ;;
  let location := (ce_DiskIndex c, ce_PartitionNumber c) in
  refuse location ∈? ss_locations st => ErrInvalidComponentSet ;;
  let locations := {[location]} ∪ ss_locations st in
  let o := ce_Observation c in
  if negb (ob_PartitionNumber o =? ce_PartitionNumber c) || negb (validComponentObservation o)
  then Ok (mkState locations (ss_unqualified st + 1) (ss_candidates st) (ss_unidentified st) (ss_groups st))
  else if negb (validFingerprint (ob_ArrayIdentityFingerprint o))
  then Ok (mkState locations (ss_unqualified st) (ss_candidates st + 1) (ss_unidentified st + 1) (ss_groups st))
  else Ok (mkState locations (ss_unqualified st) (ss_candidates st + 1) (ss_unidentified st)
             (<[ob_ArrayIdentityFingerprint o := default [] (ss_groups st !! ob_ArrayIdentityFingerprint o) ++ [o]]>
                (ss_groups st))).

Definition compare_group (g : string * list Observation) : list ArrayComparison :=
  match g.2 with
  | [] => []
  | first :: rest => [compareArray g.1 first rest]
  end.

(** [sort.Strings] on the keys, then one comparison per key *)
Definition CompareComponents (components : list ComponentEvidence) : res set_error SetComparison :=
  refuse maxComponentEvidence <? len components => ErrInvalidComponentSet ;;
  st ← for_range (λ _, component_step) 0 (mkState ∅ 0 0 0 ∅) components;
  Ok (mkSet (ss_candidates st) (ss_unqualified st) (ss_unidentified st)
        (sort_by fst (map_to_list (ss_groups st)) ≫= compare_group)).

(** ** Geometry of the superblock *)

(** [(size - 16) &^ 7] *)
Definition super_sector (size : Z) : Z := 8 * ((size - 16) / 8).
Lemma super_sector_ldiff size : Z.ldiff (size - 16) 7 = super_sector size.
Proof.
  change 7 with (Z.ones 3). rewrite Z.ldiff_ones_r, Z.shiftl_mul_pow2, Z.shiftr_div_pow2 by lia.
  unfold super_sector. change (2 ^ 3) with 8. lia.
Qed.
Lemma super_sector_bounds size : 24 ≤ size → 8 ≤ super_sector size ∧ 16 ≤ size - super_sector size < 24.
Proof. unfold super_sector. intros. Z.div_mod_to_equations; lia. Qed.

(** The arguments as the caller has them: unsigned and signed machine words. *)
Definition partition_range (p : Partition) : Prop :=
  0 ≤ pa_Number p < 2 ^ 32 ∧ 0 ≤ pa_StartLBA p < 2 ^ 64 ∧ 0 ≤ pa_SizeLBA p < 2 ^ 64.
(** A reader of bytes. *)
Definition byte_source (source : ReaderAt) : Prop := ∀ off n bs, source off n = Some bs → Forall byte bs.

(** Where the superblock of a partition lies, in bytes of the disk. *)
Definition super_base (p : Partition) : Z := (pa_StartLBA p + super_sector (pa_SizeLBA p)) * 512.

(** Everything up to the reads: the partition lies on the disk and no product or
    sum wraps. *)
Definition admitted (p : Partition) (sourceBytes : Z) : Prop :=
  0 < sourceBytes ∧ sourceBytes mod 512 = 0 ∧ 0 < pa_Number p ∧ 0 < pa_StartLBA p ∧ 24 ≤ pa_SizeLBA p
  ∧ pa_StartLBA p + pa_SizeLBA p ≤ sourceBytes / 512.
Definition before_read (p : Partition) (sourceBytes : Z) : Observation :=
  with_SuperblockOffsetBytes (super_base p)
    (with_extent (pa_StartLBA p + pa_SizeLBA p - 1) (pa_SizeLBA p * 512)
       (with_DiskSectors (sourceBytes / 512) (newObservation p))).

Lemma InspectPartition_admitted sha256 source sourceBytes p :
  partition_range p → sourceBytes < 2 ^ 63 → admitted p sourceBytes →
  InspectPartition sha256 (Some source) sourceBytes p =
  read_superblock sha256 source sourceBytes (before_read p sourceBytes) (super_sector (pa_SizeLBA p))
    (super_sector (pa_SizeLBA p) * 512) (super_base p).
Proof.
  intros (Hn & Hs & Hz) Hb (H0 & Hm & Hp & Hst & H24 & Hfit).
  pose proof (super_sector_bounds _ H24) as Hss.
  assert (Hd : sourceBytes / 512 < 2 ^ 54) by (apply Z.div_lt_upper_bound; lia).
  unfold InspectPartition, logicalSectorBytes. rewrite super_sector_ldiff.
  assert (Hw : ∀ z, 0 ≤ z < 2 ^ 64 → wrap 64 z = z) by (intros; unfold wrap; by rewrite Z.mod_small).
  unfold u64_add. rewrite (Hw (pa_StartLBA p + pa_SizeLBA p)) by lia. rewrite (Hw (_ * 512)) by lia.
  rewrite (Hw (pa_StartLBA p + super_sector _)) by lia. rewrite (Hw (super_sector _ * 512)) by lia.
  rewrite (Hw ((pa_StartLBA p + super_sector _) * 512)) by lia.
  rewrite Z.rem_mod_nonneg, Hm by lia. change (0 =? 0) with true. cbn [negb].
  change (ob_PartitionBytes (with_extent ?a ?b ?o)) with b.
  unfold max_uint64, max_int64, mdV1FixedBytes.
  assert (Hq : (2 ^ 63 - 1) / 512 = 2 ^ 54 - 1) by reflexivity. assert (Hq' : (2 ^ 64 - 1) / 512 = 2 ^ 55 - 1) by reflexivity.
  rewrite Hq, Hq'.
  repeat match goal with |- context [if ?c then _ else _] =>
    let H := fresh in assert (H : c = false) by (repeat rewrite orb_false_iff; split_and?; rewrite ?Z.leb_gt, ?Z.eqb_neq, ?Z.ltb_ge; done || lia);
    rewrite H; clear H end.
  done.
Qed.

Lemma InspectPartition_refused sha256 source sourceBytes p o :
  partition_range p → sourceBytes < 2 ^ 63 → InspectPartition sha256 source sourceBytes p = (o, None) →
  ob_Status o = StatusCandidate ∨ ob_MetadataRead o = true → ∃ s, source = Some s ∧ admitted p sourceBytes.
Proof.
  intros (Hn & Hs & Hz) Hb. unfold InspectPartition. destruct source as [s|]; [|done].
  intros H Hst. exists s. split; [done|].
  repeat match type of H with (if ?c then _ else _) = _ => let E := fresh "E" in destruct c eqn:E end;
    try discriminate; try (exfalso; injection H as <-; destruct Hst; discriminate).
  repeat match goal with
    | E : _ || _ = false |- _ => apply orb_false_iff in E as [? ?]
    | E : negb _ = false |- _ => apply negb_false_iff in E
    end.
  rewrite ?Z.leb_gt, ?Z.eqb_neq, ?Z.eqb_eq, ?Z.ltb_ge in *. unfold logicalSectorBytes in *.
  rewrite Z.rem_mod_nonneg in * by lia. unfold u64_add, wrap, max_uint64 in *. rewrite Z.mod_small in * by lia.
  unfold admitted. lia.
Qed.

Lemma readAt_data source n offset size bs :
  readAt source n offset size = Ok bs →
  source offset n = Some bs ∧ len bs = n ∧ offset + n ≤ size.
Proof.
  unfold readAt. intros [Hg H]%refuse_Ok. destruct (source offset n) as [b|]; [|done].
  apply refuse_Ok in H as [Hl [= <-]]. go_bool. split_and!; [done|lia|lia].
Qed.

Lemma le_range bs n : Forall byte bs → (length bs ≤ n)%nat → 0 ≤ le bs < 256 ^ Z.of_nat n.
Proof.
  intros HF. revert n. induction HF as [|b bs Hb HF IH]; intros n Hn; cbn [le foldr].
  - split; [done|]. apply Z.pow_pos_nonneg; lia.
  - destruct n as [|n]; [simpl in Hn; lia|]. specialize (IH n ltac:(simpl in Hn; lia)). fold (le bs).
    rewrite Nat2Z.inj_succ, Z.pow_succ_r by lia. unfold byte in Hb. lia.
Qed.
Lemma le_sub_range bs i j : Forall byte bs → 0 ≤ le (sub bs i j) < 256 ^ Z.of_nat (j - i).
Proof.
  intros HF. apply le_range; [by apply sub_bytes|]. unfold sub. rewrite length_take. lia.
Qed.
Lemma sub_take bs n i j : (j ≤ n)%nat → sub (take n bs) i j = sub bs i j.
Proof. intros Hn. unfold sub. rewrite skipn_firstn_comm, take_take. f_equal. lia. Qed.

(** A role and the words that describe it. *)
Definition role_ok (role raidDisks : Z) (description : string) : Prop :=
  (0 ≤ role < raidDisks ∧ description = "active-slot") ∨ (role = mdV1RoleSpare ∧ description = "spare")
  ∨ (role = mdV1RoleFaulty ∧ description = "faulty") ∨ (role = mdV1RoleJournal ∧ description = "journal").
Lemma describe_role_ok role raidDisks d :
  0 ≤ role → 0 < raidDisks ≤ mdV1MaxDevices → describe_role role raidDisks = Some d → role_ok role raidDisks d.
Proof.
  intros Hr [Hd1 Hd2]. change mdV1MaxDevices with 1920 in Hd2. unfold describe_role, role_ok, wrap.
  rewrite Z.mod_small by lia. repeat case_match; intros [= <-]; go_bool; auto 10.
Qed.

(** What a candidate superblock says, field by field, and what has been checked
    of it. *)
Record candidate (sha256 : list Z → list Z) (superSector : Z) (sb : list Z) (o : Observation) : Prop := {
  cd_checksum : mdV1Checksum sb = le (sub sb 216 220) ∧ ob_SuperblockChecksumStatus o = "valid";
  cd_place : le (sub sb 144 152) = superSector;
  cd_features : le (sub sb 8 12) = 0 ∧ ob_FeatureMap o = 0 ∧ ob_MetadataVersion o = "1.0";
  cd_size : ob_ArraySizeSectors o = le (sub sb 80 88) ∧ ob_ArraySizeSectors o ≠ 0;
  cd_disks : ob_RAIDDisks o = le (sub sb 92 96) ∧ 0 < ob_RAIDDisks o ≤ ob_MaxDevices o;
  cd_number : ob_MemberNumber o = le (sub sb 160 164) ∧ 0 ≤ ob_MemberNumber o < ob_MaxDevices o;
  cd_events : ob_Events o = le (sub sb 200 208);
  cd_data : 0 ≤ ob_ComponentDataOffsetSectors o ∧ 0 < ob_ComponentDataSectors o
            ∧ ob_ComponentDataOffsetSectors o + ob_ComponentDataSectors o ≤ superSector;
  cd_role : let i := (256 + 2 * Z.to_nat (ob_MemberNumber o))%nat in
            ob_MemberRole o = le (sub sb i (i + 2)) ∧ role_ok (ob_MemberRole o) (ob_RAIDDisks o) (ob_MemberRoleDescription o);
  cd_array : ob_ArrayIdentityFingerprint o =
             if allZero (sub sb 16 32) then "" else fingerprint sha256 "phantowd-md-array-v1" (sub sb 16 32);
  cd_member : ob_MemberIdentityFingerprint o =
              if allZero (sub sb 168 184) then "" else fingerprint sha256 "phantowd-md-member-v1" (sub sb 168 184) }.

Lemma inspect_superblock_candidate sha256 result superSector maxDevices sb o :
  Forall byte sb → 0 < maxDevices ≤ mdV1MaxDevices →
  inspect_superblock sha256 result superSector maxDevices sb = o → ob_Status o = StatusCandidate →
  candidate sha256 superSector sb o ∧ ob_MaxDevices o = maxDevices
  ∧ ob_SuperblockOffsetBytes o = ob_SuperblockOffsetBytes result ∧ ob_MetadataRead o = ob_MetadataRead result
  ∧ ob_PartitionNumber o = ob_PartitionNumber result.
Proof.
  intros HF Hmax. unfold inspect_superblock. cbv zeta.
  destruct (negb _) eqn:E1; [by intros <-|]. destruct (negb _) eqn:E2 in |- *; [by intros <-|].
  destruct (negb _) eqn:E3 in |- *; [by intros <-|]. destruct (_ || _) eqn:E4 in |- *; [by intros <-|].
  destruct (_ || _) eqn:E5 in |- *; [by intros <-|].
  cbn [with_array with_features with_SuperblockChecksumStatus ob_FeatureMap ob_ArraySizeSectors ob_RAIDDisks
       ob_MemberNumber ob_ComponentDataOffsetSectors ob_ComponentDataSectors] in *.
  pose proof (le_sub_range sb 92 96 HF) as Hdisks. pose proof (le_sub_range sb 160 164 HF) as Hnum.
  pose proof (le_sub_range sb 128 136 HF) as Hoff. pose proof (le_sub_range sb 136 144 HF) as Hdata.
  change mdV1MaxDevices with 1920 in Hmax. go_bool. rewrite ?negb_false_iff, ?Z.eqb_eq in *.
  assert (Hro : Z.to_nat (u32_add mdV1RolesOffset (wrap 32 (le (sub sb 160 164) * 2)))
                = (256 + 2 * Z.to_nat (le (sub sb 160 164)))%nat).
  { unfold u32_add, wrap, mdV1RolesOffset, mdV1FixedBytes. rewrite (Z.mod_small (_ * 2)) by lia.
    rewrite Z.mod_small by lia. lia. }
  rewrite Hro. clear Hro. set (i := (256 + _)%nat). pose proof (le_sub_range sb i (i + 2) HF) as Hrole.
  destruct (describe_role _ _) as [d|] eqn:Hd; [|by intros <-]. intros <- _.
  apply describe_role_ok in Hd; [|lia|change mdV1MaxDevices with 1920; lia].
  split_and!; [|done..]. split; cbn [with_array with_features with_SuperblockChecksumStatus with_Status with_fingerprints
    with_MemberRole ob_FeatureMap ob_ArraySizeSectors ob_RAIDDisks ob_MemberNumber ob_ComponentDataOffsetSectors
    ob_ComponentDataSectors ob_SuperblockChecksumStatus ob_MetadataVersion ob_MaxDevices ob_Events ob_MemberRole
    ob_MemberRoleDescription ob_ArrayIdentityFingerprint ob_MemberIdentityFingerprint]; try done; split_and?; try done; try lia.
Qed.



Section reads.
Context (sha256 : list Z → list Z) (source : ReaderAt) (sourceBytes : Z) (p : Partition).
Hypothesis Hp : partition_range p.
Hypothesis Hsize : sourceBytes < 2 ^ 63.
Hypothesis Hadm : admitted p sourceBytes.

Lemma super_fits : 0 ≤ super_base p ∧ super_base p + 8192 ≤ (pa_StartLBA p + pa_SizeLBA p) * 512 ≤ sourceBytes
  ∧ super_sector (pa_SizeLBA p) * 512 + 8192 ≤ pa_SizeLBA p * 512.
Proof.
  destruct Hadm as (H0 & Hm & Hn & Hst & H24 & Hfit). pose proof (super_sector_bounds _ H24) as Hss.
  unfold super_base. pose proof (Z.mul_div_le sourceBytes 512 ltac:(lia)). lia.
Qed.

Lemma metadata_bytes maxDevices : 0 < maxDevices ≤ mdV1MaxDevices →
  u64_add mdV1FixedBytes (wrap 64 (maxDevices * 2)) = 256 + 2 * maxDevices.
Proof.
  change mdV1MaxDevices with 1920. intros. unfold u64_add, wrap, mdV1FixedBytes.
  rewrite (Z.mod_small (_ * 2)) by lia. rewrite Z.mod_small by lia. lia.
Qed.
Lemma roles_offset : u64_add (super_base p) mdV1FixedBytes = super_base p + 256.
Proof.
  pose proof super_fits. unfold u64_add, wrap, mdV1FixedBytes. by rewrite Z.mod_small by lia.
Qed.

Lemma read_superblock_candidate o : byte_source source →
  read_superblock sha256 source sourceBytes (before_read p sourceBytes) (super_sector (pa_SizeLBA p))
    (super_sector (pa_SizeLBA p) * 512) (super_base p) = (o, None) → ob_Status o = StatusCandidate →
  ∃ sb, source (super_base p) 256 = Some (take 256 sb)
    ∧ source (super_base p + 256) (2 * ob_MaxDevices o) = Some (drop 256 sb)
    ∧ len sb = 256 + 2 * ob_MaxDevices o ∧ Forall byte sb ∧ le (sub sb 0 4) = mdV1Magic
    ∧ le (sub sb 220 224) = ob_MaxDevices o ∧ 0 < ob_MaxDevices o ≤ mdV1MaxDevices
    ∧ candidate sha256 (super_sector (pa_SizeLBA p)) sb o
    ∧ ob_SuperblockOffsetBytes o = super_base p ∧ ob_MetadataRead o = true ∧ ob_PartitionNumber o = pa_Number p.
Proof.
  intros Hbytes. unfold read_superblock. destruct (readAt _ _ _ _) as [fixed|] eqn:Hf; [|done].
  apply readAt_data in Hf as (Hf & Hfl & _). pose proof (Hbytes _ _ _ Hf) as HFf.
  destruct (negb _) eqn:E1; [by intros [= <-]|]. destruct (negb _) eqn:E2 in |- *; [by intros [= <-]|].
  destruct (_ || _) eqn:E3; [by intros [= <-]|].
  pose proof (le_sub_range fixed mdV1MaxDevicesOffset (mdV1MaxDevicesOffset + 4) HFf) as Hm0.
  set (m := le (sub fixed mdV1MaxDevicesOffset (mdV1MaxDevicesOffset + 4))) in *. apply orb_false_iff in E3 as [Hm1%Z.eqb_neq Hm2%Z.ltb_ge].
  rewrite metadata_bytes by lia. destruct (_ || _) eqn:E4; [by intros [= <-]|]. clear E4.
  destruct (Z.leb_spec (256 + 2 * m) mdV1FixedBytes) as [Hle|_]; [unfold mdV1FixedBytes in Hle; lia|].
  rewrite roles_offset. destruct (readAt _ _ _ _) as [roles|] eqn:Hr; [|done].
  apply readAt_data in Hr as (Hr & Hrl & _). pose proof (Hbytes _ _ _ Hr) as HFr.
  intros [= <-] Hst. unfold mdV1FixedBytes in *.
  assert (Hlen : length fixed = 256%nat) by (unfold len in Hfl; lia).
  assert (Hsub : ∀ i j, (j ≤ 256)%nat → sub (fixed ++ roles) i j = sub fixed i j).
  { intros i j Hj. rewrite <- (sub_take (fixed ++ roles) 256) by done. by rewrite take_app_length'. }
  destruct (inspect_superblock_candidate sha256 (with_MetadataRead (before_read p sourceBytes)) (super_sector (pa_SizeLBA p)) m
              (fixed ++ roles) _ (Forall_app_2 _ _ _ HFf HFr) ltac:(lia) eq_refl Hst) as (Hc & Hmax & Hb & Hrd & Hn).
  exists (fixed ++ roles). rewrite Hmax, take_app_length', drop_app_length', !Hsub by lia.
  split_and!; try done; [by replace (2 * m) with (256 + 2 * m - 256) by lia|unfold len in *; rewrite length_app; lia
    |by apply Forall_app_2|by apply negb_false_iff, Z.eqb_eq in E1|lia].
Qed.

End reads.


(** ** What [compareArray] computes *)

(** The three keys that must be unique: the member number, its identity, and the
    slot it holds. *)
Definition identity_keys (o : Observation) : list string :=
  if ob_MemberIdentityFingerprint o != "" then [ob_MemberIdentityFingerprint o] else [].
Definition slot_keys (raidDisks : Z) (o : Observation) : list Z := if holds_slot raidDisks o then [ob_MemberRole o] else [].

Section members.
Context (first : Observation).
Let step := member_step first.
Let disks := ob_RAIDDisks first.

Lemma step_roles st o : ms_activeRoles (step st o) = list_to_set (slot_keys disks o) ∪ ms_activeRoles st.
Proof.
  unfold step, member_step, slot_keys. fold disks. cbv zeta. destruct (holds_slot disks o), (_ != "") ; cbn; set_solver.
Qed.
Lemma step_numbers st o : ms_memberNumbers (step st o) = list_to_set [ob_MemberNumber o] ∪ ms_memberNumbers st.
Proof. unfold step, member_step. cbv zeta. destruct (holds_slot _ o), (_ != "") ; cbn; set_solver. Qed.
Lemma step_identities st o : ms_memberIdentities (step st o) = list_to_set (identity_keys o) ∪ ms_memberIdentities st.
Proof. unfold step, member_step, identity_keys. cbv zeta. destruct (holds_slot _ o), (_ != "") ; cbn; set_solver. Qed.
Lemma step_flags st o :
  ms_conflicting (step st o) = ms_conflicting st || conflicts first o
  ∧ ms_divergent (step st o) = ms_divergent st || negb (ob_Events o =? ob_Events first)
  ∧ (ms_duplicate (step st o) = false ↔ ms_duplicate st = false ∧ ob_MemberNumber o ∉ ms_memberNumbers st
     ∧ (∀ k, k ∈ identity_keys o → k ∉ ms_memberIdentities st) ∧ (∀ k, k ∈ slot_keys disks o → k ∉ ms_activeRoles st)).
Proof.
  unfold step, member_step, identity_keys, slot_keys. fold disks. cbv zeta.
  destruct (holds_slot disks o), (_ != ""); cbn; (split_and!; [done|done|]); rewrite ?orb_false_iff, ?bool_decide_eq_false;
    setoid_rewrite elem_of_nil || idtac; setoid_rewrite list_elem_of_singleton || idtac; naive_solver.
Qed.

Lemma fold_flags l st :
  let st' := fold_left step l st in
  (ms_conflicting st' = false ↔ ms_conflicting st = false ∧ Forall (λ o, conflicts first o = false) l)
  ∧ (ms_divergent st' = false ↔ ms_divergent st = false ∧ Forall (λ o, ob_Events o = ob_Events first) l)
  ∧ (ms_duplicate st' = false ↔ ms_duplicate st = false
     ∧ chain step (λ s o, ob_MemberNumber o ∉ ms_memberNumbers s) st l
     ∧ chain step (λ s o, ∀ k, k ∈ identity_keys o → k ∉ ms_memberIdentities s) st l
     ∧ chain step (λ s o, ∀ k, k ∈ slot_keys disks o → k ∉ ms_activeRoles s) st l).
Proof.
  cbv zeta. revert st. induction l as [|o l IH]; intros st; cbn [fold_left chain].
  - rewrite !Forall_nil. tauto.
  - destruct (IH (step st o)) as (-> & -> & ->). destruct (step_flags st o) as (-> & -> & Hd). rewrite Hd.
    rewrite !orb_false_iff, !Forall_cons, negb_false_iff, Z.eqb_eq. tauto.
Qed.
End members.

(** The members of one array agree: same shape and event counter as the first,
    and numbers, identities and slots are held once. *)
Record agreement (first : Observation) (members : list Observation) : Prop := {
  ag_shape : Forall (λ o, conflicts first o = false) members;
  ag_events : Forall (λ o, ob_Events o = ob_Events first) members;
  ag_numbers : NoDup (ob_MemberNumber <$> members);
  ag_identities : NoDup (members ≫= identity_keys);
  ag_slots : NoDup (members ≫= slot_keys (ob_RAIDDisks first)) }.

Definition empty_members : members_state := mkMembers ∅ ∅ ∅ false false false.
Lemma keys_once {K} `{Countable K} first (π : members_state → gset K) (k : Observation → list K) l :
  (∀ s x, π (member_step first s x) = list_to_set (k x) ∪ π s) → (∀ x, NoDup (k x)) → π empty_members = ∅ →
  chain (member_step first) (λ s o, ∀ y, y ∈ k o → y ∉ π s) empty_members l ↔ NoDup (l ≫= k).
Proof.
  intros Hadd Hk H0. pose proof (chain_keys (member_step first) π k empty_members l Hadd) as Hc. rewrite H0 in Hc.
  assert (HF : Forall (λ x, NoDup (k x)) l) by (apply Forall_forall; auto). split.
  - intros Hch. exact (proj1 (proj1 Hc (conj HF Hch))).
  - intros HN. apply Hc. split; [done|]. set_solver.
Qed.

Lemma members_agree first members :
  let st := fold_left (member_step first) members empty_members in
  (ms_duplicate st = false ∧ ms_conflicting st = false ∧ ms_divergent st = false ↔ agreement first members)
  ∧ ms_activeRoles st = list_to_set (members ≫= slot_keys (ob_RAIDDisks first)).
Proof.
  cbv zeta. destruct (fold_flags first members empty_members) as (Hc & Hd & Hu). split.
  - rewrite Hc, Hd, Hu.
    rewrite (keys_once first ms_memberIdentities identity_keys)
      by (apply step_identities || (intros; unfold identity_keys; case_match; apply NoDup_singleton || constructor) || reflexivity).
    rewrite (keys_once first ms_activeRoles (slot_keys (ob_RAIDDisks first)))
      by (apply step_roles || (intros; unfold slot_keys; case_match; apply NoDup_singleton || constructor) || reflexivity).
    rewrite (chain_key (member_step first) ms_memberNumbers ob_MemberNumber)
      by (intros; rewrite step_numbers; cbn; set_solver).
    split; [intros ((_ & (? & _) & ? & ?) & (_ & ?) & _ & ?); by split|].
    intros []. by split_and!.
  - rewrite (fold_keys (member_step first) ms_activeRoles (slot_keys (ob_RAIDDisks first)) empty_members members (step_roles first)).
    cbn. set_solver.
Qed.

Lemma elem_of_role_range n r : r ∈ role_range n ↔ 0 ≤ r < n.
Proof.
  unfold role_range. rewrite list_elem_of_fmap. setoid_rewrite elem_of_seq. split.
  - intros (k & -> & Hk). lia.
  - intros Hr. exists (Z.to_nat r). lia.
Qed.
Lemma NoDup_role_range n : NoDup (role_range n).
Proof. apply NoDup_fmap_2; [apply _|apply NoDup_seq]. Qed.
Lemma length_role_range n : 0 ≤ n → len (role_range n) = n.
Proof. intros. unfold len, role_range. rewrite length_fmap, length_seq. lia. Qed.

(** [compareArray] finds the metadata consistent exactly when the members agree
    and their slots are all the slots of the array. *)
Lemma compareArray_consistent identity first rest :
  let a := compareArray identity first rest in
  (ac_Status a = ArrayMetadataConsistent ↔
   agreement first (first :: rest) ∧ ∀ r, 0 ≤ r < ob_RAIDDisks first → r ∈ (first :: rest) ≫= slot_keys (ob_RAIDDisks first))
  ∧ (∀ r, r ∈ ac_MissingActiveRoles a ↔ 0 ≤ r < ob_RAIDDisks first ∧ r ∉ (first :: rest) ≫= slot_keys (ob_RAIDDisks first)).
Proof.
  cbv zeta. unfold compareArray. cbn [ac_Status ac_MissingActiveRoles]. fold empty_members.
  destruct (members_agree first (first :: rest)) as [Ha Hr].
  set (st := fold_left _ _ _) in *. set (missing := filter _ _).
  assert (Hm : ∀ r, r ∈ missing ↔ 0 ≤ r < ob_RAIDDisks first ∧ r ∉ (first :: rest) ≫= slot_keys (ob_RAIDDisks first)).
  { intros r. unfold missing. rewrite list_elem_of_filter, elem_of_role_range, Hr, elem_of_list_to_set. tauto. }
  split; [|done]. rewrite <- Ha.
  assert (He : (len missing =? 0) = true ↔ ∀ r, 0 ≤ r < ob_RAIDDisks first → r ∈ (first :: rest) ≫= slot_keys (ob_RAIDDisks first)).
  { rewrite Z.eqb_eq. split.
    - intros Hl r Hr'. destruct (decide (r ∈ (first :: rest) ≫= slot_keys (ob_RAIDDisks first))) as [|Hn]; [done|].
      assert (Hin : r ∈ missing) by (by apply Hm). unfold len in Hl. destruct missing; [by apply not_elem_of_nil in Hin|simpl in Hl; lia].
    - intros Hall. destruct missing as [|r l] eqn:E; [done|]. exfalso. destruct (proj1 (Hm r) ltac:(left)) as [H1 H2]. auto. }
  destruct (ms_duplicate st), (ms_conflicting st), (ms_divergent st); try (split; [done|naive_solver]).
  destruct (len missing =? 0); cbn [negb]; split; naive_solver.
Qed.

(** ** What [CompareComponents] computes *)
Definition in_envelope (c : ComponentEvidence) : Prop :=
  ce_DiskIndex c ≠ 0 ∧ ce_DiskIndex c ≤ maxComponentDiskIndex ∧ ce_PartitionNumber c ≠ 0
  ∧ ce_PartitionNumber c ≤ maxComponentPartition.
Definition location (c : ComponentEvidence) : Z * Z := (ce_DiskIndex c, ce_PartitionNumber c).
Definition qualified (c : ComponentEvidence) : bool :=
  (ob_PartitionNumber (ce_Observation c) =? ce_PartitionNumber c) && validComponentObservation (ce_Observation c).
Definition identified (c : ComponentEvidence) : bool :=
  qualified c && validFingerprint (ob_ArrayIdentityFingerprint (ce_Observation c)).
(** the members of an array, in the order of the components *)
Definition members_of (id : string) (l : list ComponentEvidence) : list Observation :=
  ce_Observation <$> filter (λ c, identified c && (ob_ArrayIdentityFingerprint (ce_Observation c) == id) = true) l.
Definition count (P : ComponentEvidence → bool) (l : list ComponentEvidence) : Z := len (filter (λ c, P c = true) l).

Definition add_component (st : set_state) (c : ComponentEvidence) : set_state :=
  let o := ce_Observation c in
  mkState ({[location c]} ∪ ss_locations st)
    (ss_unqualified st + (if qualified c then 0 else 1)) (ss_candidates st + (if qualified c then 1 else 0))
    (ss_unidentified st + (if qualified c && negb (identified c) then 1 else 0))
    (if identified c
     then <[ob_ArrayIdentityFingerprint o := default [] (ss_groups st !! ob_ArrayIdentityFingerprint o) ++ [o]]> (ss_groups st)
     else ss_groups st).

Lemma component_step_Ok st c st' :
  component_step st c = Ok st' ↔ in_envelope c ∧ location c ∉ ss_locations st ∧ st' = add_component st c.
Proof.
  unfold component_step, add_component, in_envelope, location, identified, qualified. cbv zeta.
  rewrite !refuse_Ok, !orb_false_iff, !Z.eqb_neq, !Z.ltb_ge, bool_decide_eq_false.
  destruct (_ =? _), (validComponentObservation _), (validFingerprint _); cbn [negb orb andb];
    rewrite ?Z.add_0_r; naive_solver.
Qed.

Lemma count_cons P c l : count P (c :: l) = (if P c then 1 else 0) + count P l.
Proof.
  unfold count, len. rewrite filter_cons. destruct (P c) eqn:E; case_decide; try congruence; simpl; lia.
Qed.
Lemma members_of_cons id c l :
  members_of id (c :: l) =
  (if identified c && (ob_ArrayIdentityFingerprint (ce_Observation c) == id) then [ce_Observation c] else []) ++ members_of id l.
Proof.
  unfold members_of. rewrite filter_cons. destruct (_ && _) eqn:E; case_decide; try congruence; done.
Qed.

Lemma fold_components l st :
  let st' := fold_left add_component l st in
  ss_unqualified st' = ss_unqualified st + count (negb ∘ qualified) l
  ∧ ss_candidates st' = ss_candidates st + count qualified l
  ∧ ss_unidentified st' = ss_unidentified st + count (λ c, qualified c && negb (identified c)) l
  ∧ ∀ id, ss_groups st' !! id =
      match members_of id l with [] => ss_groups st !! id | ms => Some (default [] (ss_groups st !! id) ++ ms) end.
Proof.
  cbv zeta. revert st. induction l as [|c l IH]; intros st; cbn [fold_left].
  - unfold count. cbn. split_and!; try done; cbv [len]; simpl; lia.
  - destruct (IH (add_component st c)) as (-> & -> & -> & Hg). rewrite !count_cons.
    cbn [add_component ss_unqualified ss_candidates ss_unidentified compose].
    split_and!; [destruct (qualified c); cbn; lia|destruct (qualified c); lia|destruct (_ && _); lia|].
    intros id. rewrite Hg, members_of_cons. cbn [add_component ss_groups]. clear Hg IH.
    destruct (identified c); cbn [andb app]; [|done]. case_bool_decide as Hid.
    + subst id. rewrite lookup_insert_eq. cbn [app default from_option id]. destruct (members_of _ l); [done|].
      by rewrite <- app_assoc.
    + by rewrite lookup_insert_ne.
Qed.

Lemma CompareComponents_Ok components cmp :
  CompareComponents components = Ok cmp ↔
  len components ≤ maxComponentEvidence ∧ Forall in_envelope components ∧ NoDup (location <$> components)
  ∧ ∃ groups : gmap string (list Observation),
      (∀ id, groups !! id = match members_of id components with [] => None | ms => Some ms end)
      ∧ cmp = mkSet (count qualified components) (count (negb ∘ qualified) components)
                (count (λ c, qualified c && negb (identified c)) components)
                (sort_by fst (map_to_list groups) ≫= compare_group).
Proof.
  unfold CompareComponents. rewrite refuse_Ok, Z.ltb_ge, res_bind_Ok.
  setoid_rewrite (for_range_chain add_component (λ _, component_step) in_envelope (λ st c, location c ∉ ss_locations st));
    [|intros; apply component_step_Ok].
  setoid_rewrite (chain_key add_component ss_locations location); [|done].
  destruct (fold_components components (mkState ∅ 0 0 0 ∅)) as (Hu & Hc & Hn & Hg). cbn in Hu, Hc, Hn.
  assert (Hg' : ∀ id, ss_groups (fold_left add_component components (mkState ∅ 0 0 0 ∅)) !! id
                      = match members_of id components with [] => None | ms => Some ms end).
  { intros id. rewrite Hg. cbn. rewrite lookup_empty. by destruct (members_of id components). }
  split.
  - intros (Hl & st & (HF & (HN & _) & ->) & [= <-]). split_and!; try done. eexists. split; [exact Hg'|].
    by rewrite Hu, Hc, Hn.
  - intros (Hl & HF & HN & groups & Hgr & ->). split; [done|]. eexists. split; [split_and!; try done; set_solver|].
    assert (Heq : groups = ss_groups (fold_left add_component components (mkState ∅ 0 0 0 ∅)))
      by (apply map_eq; intros id; by rewrite Hg', Hgr).
    by rewrite Hu, Hc, Hn, Heq.
Qed.

Lemma elem_of_arrays (groups : gmap string (list Observation)) a :
  a ∈ sort_by fst (map_to_list groups) ≫= compare_group ↔
  ∃ id first rest, groups !! id = Some (first :: rest) ∧ a = compareArray id first rest.
Proof.
  rewrite list_elem_of_bind. setoid_rewrite (sort_by_elem fst). split.
  - intros ([id ms] & Ha & Hin). rewrite elem_of_map_to_list in Hin. destruct ms as [|first rest]; cbn in Ha; [set_solver|].
    apply list_elem_of_singleton in Ha as ->. eauto.
  - intros (id & first & rest & Hg & ->). exists (id, first :: rest). rewrite elem_of_map_to_list. split; [|done]. cbn. set_solver.
Qed.
Lemma arrays_sorted (l : list (string * list Observation)) :
  StronglySorted (key_le fst) l → StronglySorted (key_le ac_ArrayIdentityFingerprint) (l ≫= compare_group).
Proof.
  induction 1 as [|[id ms] l HS IH HF]; [constructor|]. cbn [mbind list_bind]. fold (l ≫= compare_group).
  destruct ms as [|first rest]; cbn [compare_group snd app]; [done|]. constructor; [done|].
  rewrite Forall_forall in HF. apply Forall_forall. intros a (g & Ha & Hg)%list_elem_of_bind. specialize (HF g Hg).
  destruct g as [id' [|f r]]; cbn in Ha; [set_solver|]. by apply list_elem_of_singleton in Ha as ->.
Qed.

Lemma candidate_valid sha256 superSector sb o :
  (∀ bs, length (sha256 bs) = 32%nat ∧ Forall byte (sha256 bs)) →
  candidate sha256 superSector sb o → ob_Status o = StatusCandidate → ob_MetadataRead o = true →
  ob_MaxDevices o ≤ mdV1MaxDevices → allZero (sub sb 168 184) = false → validComponentObservation o = true.
Proof.
  intros Hsha [] Hst Hrd Hmax Hz.
  assert (Hfp : ∀ d i, validFingerprint (fingerprint sha256 d i) = true).
  { intros d i. unfold validFingerprint, fingerprint. destruct (Hsha (codes (String.append d newline) ++ i)) as [Hl Hb].
    rewrite slength_hex_encode, hex_decode_encode by done. unfold len. rewrite Hl. cbn. by rewrite bool_decide_eq_true_2. }
  destruct cd_checksum0 as [_ Hcs], cd_features0 as (_ & Hfm & Hv), cd_size0 as [_ Hsz], cd_disks0 as [_ Hd],
    cd_number0 as [_ Hn], cd_data0 as (_ & Hdata & _), cd_role0 as [_ Hrole].
  unfold validComponentObservation. rewrite cd_member0, Hz, Hfp, Hst, Hv, Hrd, Hcs, Hfm.
  assert (Harr : (ob_ArrayIdentityFingerprint o != "") && negb (validFingerprint (ob_ArrayIdentityFingerprint o)) = false).
  { rewrite cd_array0. destruct (allZero _); [done|]. by rewrite Hfp, andb_false_r. }
  rewrite Harr. clear Harr. change mdV1MaxDevices with 1920 in *.
  rewrite !bool_decide_eq_true_2 by done. cbn [negb orb].
  rewrite (proj2 (Z.eqb_neq (ob_MaxDevices o) 0)), (proj2 (Z.ltb_ge 1920 (ob_MaxDevices o))),
    (proj2 (Z.eqb_neq (ob_RAIDDisks o) 0)), (proj2 (Z.ltb_ge (ob_MaxDevices o) (ob_RAIDDisks o))),
    (proj2 (Z.leb_gt (ob_MaxDevices o) (ob_MemberNumber o))), (proj2 (Z.eqb_neq (ob_ArraySizeSectors o) 0)),
    (proj2 (Z.eqb_neq (ob_ComponentDataSectors o) 0)) by lia.
  cbn [orb negb Z.eqb]. unfold wrap. rewrite Z.mod_small by lia. unfold role_ok, mdV1RoleSpare, mdV1RoleFaulty, mdV1RoleJournal in *.
  destruct Hrole as [[Hr ->]|[[-> ->]|[[-> ->]|[-> ->]]]];
    repeat (case_match; go_bool; try done; try lia).
Qed.

(** ** Properties *)

(** A candidate is what the disk holds.  When [InspectPartition] reports a
    candidate, the partition lies on the disk and the superblock, aligned to eight
    sectors and between 8 and 12 KiB before the end of the partition, was read
    there in full; its checksum, magic and recorded position are right; every
    reported field is the field of the superblock; the member number, the number
    of disks and the role are in range, and the data area ends before the
    superblock.  A candidate with a member identity qualifies for
    [CompareComponents]. *)
Theorem InspectPartition_candidate sha256 source sourceBytes p o :
  partition_range p → sourceBytes < 2 ^ 63 → byte_source source →
  InspectPartition sha256 (Some source) sourceBytes p = (o, None) → ob_Status o = StatusCandidate →
  let ss := super_sector (pa_SizeLBA p) in
  0 < pa_StartLBA p ∧ pa_StartLBA p + pa_SizeLBA p ≤ sourceBytes / 512 ∧ (8 | ss) ∧ 16 ≤ pa_SizeLBA p - ss < 24
  ∧ ∃ sb, source (super_base p) 256 = Some (take 256 sb)
    ∧ source (super_base p + 256) (2 * ob_MaxDevices o) = Some (drop 256 sb)
    ∧ len sb = 256 + 2 * ob_MaxDevices o ∧ len sb ≤ mdV1MaximumBytes
    ∧ le (sub sb 0 4) = mdV1Magic ∧ le (sub sb 220 224) = ob_MaxDevices o
    ∧ candidate sha256 ss sb o ∧ ob_SuperblockOffsetBytes o = super_base p
    ∧ ((∀ bs, length (sha256 bs) = 32%nat ∧ Forall byte (sha256 bs)) → allZero (sub sb 168 184) = false →
       ∀ disk, qualified (mkEvidence disk (pa_Number p) o) = true).
Proof.
  intros Hp Hs Hb Hi Hst. cbv zeta.
  destruct (InspectPartition_refused _ _ _ _ _ Hp Hs Hi (or_introl Hst)) as (s & [= <-] & Hadm).
  rewrite (InspectPartition_admitted _ _ _ _ Hp Hs Hadm) in Hi.
  destruct (read_superblock_candidate _ _ _ _ Hs Hadm _ Hb Hi Hst)
    as (sb & H1 & H2 & H3 & HF & H4 & H5 & H6 & H7 & H8 & Hrd & Hn).
  destruct Hadm as (H0 & Hm & Hpn & Hst' & H24 & Hfit). pose proof (super_sector_bounds _ H24) as Hss.
  change mdV1MaxDevices with 1920 in H6. unfold mdV1MaximumBytes.
  split_and!; [lia|lia|apply Z.divide_factor_l|lia|lia|]. exists sb. split_and!; try done; [lia|].
  intros Hsha Hz disk. unfold qualified. cbn [ce_Observation ce_PartitionNumber]. rewrite Hn, Z.eqb_refl.
  apply (candidate_valid sha256 (super_sector (pa_SizeLBA p)) sb); try done. change mdV1MaxDevices with 1920. lia.
Qed.


(** [CompareComponents] reports the arrays that are there.  It accepts exactly
    the component sets of at most 512 entries at distinct locations of the
    envelope, counts every component once, and reports, ordered by fingerprint,
    one comparison per array that has an identified member.  An array is
    consistent exactly when its members agree on shape and event counter, no
    number, identity or slot is held twice, and every slot of the array is held. *)
Theorem CompareComponents_exact components :
  ((∃ cmp, CompareComponents components = Ok cmp) ↔
   len components ≤ maxComponentEvidence ∧ Forall in_envelope components ∧ NoDup (location <$> components))
  ∧ ∀ cmp, CompareComponents components = Ok cmp →
    sc_CandidateComponents cmp = count qualified components
    ∧ sc_UnqualifiedComponents cmp = count (negb ∘ qualified) components
    ∧ sc_UnidentifiedCandidateComponents cmp = count (λ c, qualified c && negb (identified c)) components
    ∧ StronglySorted (key_le ac_ArrayIdentityFingerprint) (sc_Arrays cmp)
    ∧ (∀ a, a ∈ sc_Arrays cmp ↔ ∃ id first rest, members_of id components = first :: rest ∧ a = compareArray id first rest)
    ∧ ∀ id first rest, members_of id components = first :: rest →
        let slots := (first :: rest) ≫= slot_keys (ob_RAIDDisks first) in
        (ac_Status (compareArray id first rest) = ArrayMetadataConsistent ↔
         agreement first (first :: rest) ∧ ∀ r, 0 ≤ r < ob_RAIDDisks first → r ∈ slots)
        ∧ ∀ r, r ∈ ac_MissingActiveRoles (compareArray id first rest) ↔ 0 ≤ r < ob_RAIDDisks first ∧ r ∉ slots.
Proof.
  split.
  - setoid_rewrite CompareComponents_Ok. split; [naive_solver|]. intros (H1 & H2 & H3).
    destruct (fold_components components (mkState ∅ 0 0 0 ∅)) as (_ & _ & _ & Hg).
    eexists. split_and!; try done. eexists. split; [|done]. intros id. rewrite Hg. cbn. rewrite lookup_empty.
    by destruct (members_of id components).
  - intros cmp (_ & _ & _ & groups & Hg & ->)%CompareComponents_Ok.
    cbn [sc_CandidateComponents sc_UnqualifiedComponents sc_UnidentifiedCandidateComponents sc_Arrays].
    split_and!; try done; [apply arrays_sorted, sort_by_sorted| |intros; apply compareArray_consistent].
    intros a. rewrite elem_of_arrays. setoid_rewrite Hg. split; intros (id & f & r & H & ->); exists id, f, r.
    + destruct (members_of id components); by simplify_eq.
    + by rewrite H.
Qed.

(** ** Witness: a disk with one member *)
Fixpoint le_bytes (n : nat) (z : Z) : list Z :=
  match n with O => [] | S n => z mod 256 :: le_bytes n (z / 256) end.
Definition zeros (n : nat) : list Z := repeat 0 n.
(** slot 0 of a mirror, two devices at most *)
Definition sample_fields : list Z :=
  le_bytes 4 mdV1Magic ++ le_bytes 4 1 ++ zeros 8 ++ repeat 7 16 ++ zeros 40 ++ le_bytes 4 1 ++ le_bytes 4 0
  ++ le_bytes 8 16 ++ le_bytes 4 0 ++ le_bytes 4 2 ++ zeros 32 ++ le_bytes 8 0 ++ le_bytes 8 16 ++ le_bytes 8 16
  ++ zeros 8 ++ le_bytes 4 0 ++ zeros 4 ++ repeat 9 16 ++ zeros 16 ++ le_bytes 8 5 ++ zeros 8 ++ zeros 4
  ++ le_bytes 4 2 ++ zeros 32 ++ le_bytes 2 0 ++ le_bytes 2 1.
Definition sample_superblock : list Z :=
  take 216 sample_fields ++ le_bytes 4 (mdV1Checksum sample_fields) ++ drop 220 sample_fields.
Definition sample_partition : Partition := mkPartition 1 8 32.
Definition sample_disk : list Z := zeros (Z.to_nat 12288) ++ sample_superblock ++ zeros (Z.to_nat 7932).
Definition sample_source : ReaderAt := λ off n, Some (take (Z.to_nat n) (drop (Z.to_nat off) sample_disk)).
Definition sample_digest (bs : list Z) : list Z := take 32 (drop 20 bs ++ zeros 32).

Lemma sample_bytes : byte_source sample_source.
Proof.
  intros off n bs [= <-]. apply Forall_take, Forall_drop.
  assert (H : forallb (λ b, (0 <=? b) && (b <? 256)) sample_disk = true) by (vm_compute; reflexivity).
  rewrite forallb_forall in H. apply Forall_forall. intros b Hb%list_elem_of_In. specialize (H b Hb). unfold byte.
  apply andb_true_iff in H as [?%Z.leb_le ?%Z.ltb_lt]. lia.
Qed.

Lemma InspectPartition_candidate_witness :
  let o := (InspectPartition sample_digest (Some sample_source) 20480 sample_partition).1 in
  ob_RAIDDisks o = 2 ∧ ob_Events o = 5 ∧ (8 | super_sector 32).
Proof.
  destruct (InspectPartition sample_digest (Some sample_source) 20480 sample_partition) as [o err] eqn:E.
  assert (Hst : err = None ∧ ob_Status o = StatusCandidate ∧ ob_RAIDDisks o = 2 ∧ ob_Events o = 5)
    by (vm_compute in E; injection E as <- <-; split_and!; reflexivity).
  destruct Hst as (-> & Hst & H1 & H2). cbn [fst]. split; [exact H1|]. split; [exact H2|].
  assert (Hr : partition_range sample_partition) by (unfold partition_range; cbn; lia).
  destruct (InspectPartition_candidate sample_digest sample_source 20480 sample_partition o Hr ltac:(lia) sample_bytes E Hst)
    as (_ & _ & H8 & _). exact H8.
Defined.


Definition sample_mirror : list ComponentEvidence :=
  let o := (InspectPartition sample_digest (Some sample_source) 20480 sample_partition).1 in
  [mkEvidence 1 1 o; mkEvidence 2 1 (with_fingerprints (ob_ArrayIdentityFingerprint o)
     (fingerprint sample_digest "phantowd-md-member-v1" (repeat 5 16)) (with_MemberRole 1 "active-slot" o))].
(** A second disk with the same member number makes the array ambiguous. *)
Lemma sample_mirror_status :
  match CompareComponents sample_mirror with
  | Ok cmp => (ac_Status <$> sc_Arrays cmp) = [ArrayAmbiguous] ∧ sc_CandidateComponents cmp = 2
  | Err _ => False
  end.
Proof. vm_compute. split; reflexivity. Qed.
End MdMetadata.
