(* ===== verification/DosPrimary.v ===== *)
(** * DOS primary partitions: [diskimage/dos_primary.go]

    The inspector of the four primary entries of an MBR, over the bounded reads
    of [Gpt.v]. *)

From S2P Require Import Prelude GoStrings Gpt.

Module DosPrimary.
Import Gpt.

Inductive dos_status := DosObserved | DosDamaged | DosUnsupported.
#[export] Instance dos_status_eq_dec : EqDecision dos_status. Proof. solve_decision. Defined.

Inductive dos_finding := DosUnaligned | DosNoSignature | DosOtherTable | DosInvalidEntry | DosOverlap.
#[export] Instance dos_finding_eq_dec : EqDecision dos_finding. Proof. solve_decision. Defined.

Record DOSPrimaryPartition := mkDos {
  dp_Number : Z; dp_TypeCode : string; dp_Bootable : bool; dp_FirstLBA : Z; dp_LastLBA : Z; dp_SizeBytes : Z }.

Record DOSPrimaryReport := mkDosReport {
  dr_Status : dos_status; dr_DiskSectors : Z; dr_PartitionCount : Z; dr_ImageMetadataRead : bool;
  dr_Partitions : list DOSPrimaryPartition; dr_Findings : list dos_finding }.

(** extended, protective and translated-overlay types *)
Definition other_table (typeID : Z) : bool := typeID ∈? [5; 15; 133; 238; 81; 83; 84; 85].

Definition overlaps (first count : Z) (previous : DOSPrimaryPartition) : bool :=
  (first <=? dp_LastLBA previous) && (dp_FirstLBA previous <=? wrap 64 (first + count - 1)).

(** one slot; an error is the early return *)
Definition dos_entry (header : list Z) (sectors : Z) (partitions : list DOSPrimaryPartition) (slot : nat) :
  res (dos_status * dos_finding) (list DOSPrimaryPartition) :=
  let entry := sub header (446 + slot * 16) (462 + slot * 16) in
  if entry == replicate 16 0 then Ok partitions
  else
    refuse other_table (get entry 4) => (DosUnsupported, DosOtherTable) ;;
    let first := le (sub entry 8 12) in
    let count := le (sub entry 12 16) in
    refuse (get entry 4 =? 0) || (negb (get entry 0 =? 0) && negb (get entry 0 =? 128)) || (first =? 0) || (count =? 0)
           || (sectors <? wrap 64 (first + count)) => (DosDamaged, DosInvalidEntry) ;;
    refuse existsb (overlaps first count) partitions => (DosDamaged, DosOverlap) ;;
    Ok (partitions ++ [mkDos (Z.of_nat slot + 1) (hex_encode [get entry 4]) (get entry 0 =? 128) first
                         (wrap 64 (first + count - 1)) (wrap 64 (count * logicalSectorBytes))]).

Definition InspectDOSPrimary (image : option ReaderAt) (size : Z) : res read_error DOSPrimaryReport :=
  match image with
  | None => Err ErrReader
  | Some image =>
    refuse size <? 0 => ErrReader ;;
    if (size <? logicalSectorBytes) || negb (size mod logicalSectorBytes =? 0)
    then Ok (mkDosReport DosDamaged 0 0 false [] [DosUnaligned])
    else
      header ← readAt image logicalSectorBytes 0 size;
      let sectors := size / logicalSectorBytes in
      if negb (get header 510 =? 85) || negb (get header 511 =? 170)
      then Ok (mkDosReport DosUnsupported sectors 0 true [] [DosNoSignature])
      else match for_range (λ _, dos_entry header sectors) 0 [] [0; 1; 2; 3]%nat with
      | Err (status, f) => Ok (mkDosReport status sectors 0 true [] [f])
      | Ok partitions => Ok (mkDosReport DosObserved sectors (len partitions) true partitions [])
      end
  end.

(** ** Invariant of the slot loop *)
Definition dos_disjoint (p q : DOSPrimaryPartition) : Prop := dp_LastLBA p < dp_FirstLBA q ∨ dp_LastLBA q < dp_FirstLBA p.

Record dos_ok (sectors : Z) (p : DOSPrimaryPartition) : Prop := {
  do_first : 1 ≤ dp_FirstLBA p;
  do_order : dp_FirstLBA p ≤ dp_LastLBA p;
  do_inside : dp_LastLBA p < sectors;
  do_size : dp_SizeBytes p = (dp_LastLBA p - dp_FirstLBA p + 1) * logicalSectorBytes }.

Record dos_inv (sectors : Z) (ps : list DOSPrimaryPartition) : Prop := {
  di_ok : Forall (dos_ok sectors) ps;
  di_disjoint : StronglySorted dos_disjoint ps }.

Lemma le_bound bs : Forall byte bs → 0 ≤ le bs < 256 ^ len bs.
Proof.
  induction 1 as [|b bs Hb HF IH]; [unfold len; simpl; lia|]. unfold byte in Hb.
  replace (len (b :: bs)) with (1 + len bs) by (unfold len; simpl; lia).
  rewrite Z.pow_add_r by (unfold len; lia). change (256 ^ 1) with 256.
  change (le (b :: bs)) with (b + 256 * le bs). lia.
Qed.

Lemma le_u32 bs i : Forall byte bs → 0 ≤ le (sub bs i (i + 4)) < 2 ^ 32.
Proof.
  intros HF. pose proof (le_bound _ (sub_bytes bs i (i + 4) HF)) as Hb. split; [lia|].
  eapply Z.lt_le_trans; [apply Hb|]. change (2 ^ 32) with (256 ^ 4). apply Z.pow_le_mono_r; [lia|].
  unfold len, sub. rewrite length_take. lia.
Qed.

Lemma StronglySorted_snoc {A} (R : A → A → Prop) l x :
  StronglySorted R l → Forall (λ y, R y x) l → StronglySorted R (l ++ [x]).
Proof.
  induction 1 as [|y l HS IH HF]; intros Hx; simpl; [repeat constructor|].
  apply Forall_cons in Hx as [Hyx Hx]. constructor; [auto|]. apply Forall_app_2; [done|by repeat constructor].
Qed.

Lemma dos_entry_inv header sectors ps slot ps' :
  Forall byte header → dos_inv sectors ps → dos_entry header sectors ps slot = Ok ps' → dos_inv sectors ps'.
Proof.
  intros Hb [I1 I2]. unfold dos_entry. cbv zeta. set (entry := sub header _ _).
  destruct (_ == _); [by intros [= <-]|]. intros [_ H]%refuse_Ok. apply refuse_Ok in H as [Hg H].
  apply refuse_Ok in H as [Hov [= <-]].
  pose proof (le_u32 entry 8 (sub_bytes _ _ _ Hb)) as Hf. pose proof (le_u32 entry 12 (sub_bytes _ _ _ Hb)) as Hc.
  set (first := le (sub entry 8 12)) in *. set (count := le (sub entry 12 16)) in *. simpl in Hf, Hc.
  apply orb_false_iff in Hg as [Hg Hin%Z.ltb_ge]. apply orb_false_iff in Hg as [Hg Hc0%Z.eqb_neq].
  apply orb_false_iff in Hg as [_ Hf0%Z.eqb_neq].
  rewrite wrap_small in Hin by lia. rewrite existsb_False in Hov. unfold overlaps in Hov.
  rewrite (wrap_small (first + count - 1)) in * by lia.
  unfold logicalSectorBytes. rewrite (wrap_small (count * 512)) by lia.
  split.
  - apply Forall_app_2; [done|]. constructor; [|constructor]. split; simpl; unfold logicalSectorBytes; lia.
  - apply StronglySorted_snoc; [done|]. rewrite Forall_forall in I1 |- *. intros q Hq.
    specialize (Hov q Hq). destruct (I1 q Hq). unfold dos_disjoint. simpl.
    apply andb_false_iff in Hov as [Hov|Hov]; apply Z.leb_gt in Hov; lia.
Qed.

(** ** Properties *)

(** An observed DOS table is a sound layout. If [InspectDOSPrimary] reports
    an observed table, its partitions (at most four) start after the first
    sector, end inside the disk, are pairwise disjoint, and their byte sizes are
    exact. *)
Theorem InspectDOSPrimary_valid (image : ReaderAt) size report :
  (∀ offset n bs, image offset n = Some bs → Forall byte bs) → size ≤ max_int64 →
  InspectDOSPrimary (Some image) size = Ok report → dr_Status report = DosObserved →
  dr_DiskSectors report = size / logicalSectorBytes
  ∧ Forall (dos_ok (size / logicalSectorBytes)) (dr_Partitions report)
  ∧ StronglySorted dos_disjoint (dr_Partitions report)
  ∧ dr_PartitionCount report = len (dr_Partitions report) ∧ dr_Findings report = [].
Proof.
  intros Hbytes Hsize. unfold InspectDOSPrimary. intros [_ H]%refuse_Ok Hst.
  destruct (_ || _); [by injection H as <-|]. apply res_bind_Ok in H as (header & Hrd & H).
  apply readAt_Ok in Hrd as (Hb%Hbytes & _ & _). cbv zeta in H.
  destruct (_ || _); [by injection H as <-|].
  destruct (for_range _ _ _ _) as [ps|[status f]] eqn:Hr.
  2: { injection H as <-. simpl in Hst. subst status. exfalso. revert Hr. generalize (@nil DOSPrimaryPartition). generalize 0.
    induction [0; 1; 2; 3]%nat as [|i l IH]; intros z ps; [done|]. cbn [for_range].
    destruct (dos_entry header _ ps i) as [ps'|[st' f']] eqn:He; [apply IH|]. intros [= -> ->].
    unfold dos_entry in He. cbv zeta in He. repeat (destruct (_ : bool) in He; try discriminate). }
  injection H as <-. simpl.
  assert (HI : dos_inv (size / logicalSectorBytes) ps).
  { eapply (for_range_inv (λ _, dos_entry header (size / logicalSectorBytes)) (dos_inv _)); [| |exact Hr].
    - intros j st1 x st2 _ HI He. by eapply dos_entry_inv.
    - split; constructor. }
  by destruct HI.
Qed.

Definition toy_dos : ReaderAt := λ _ n, Some (take (Z.to_nat n)
  (replicate 446 0 ++ [128; 0; 0; 0; 131; 0; 0; 0] ++ le_bytes 4 1 ++ le_bytes 4 5
   ++ [0; 0; 0; 0; 130; 0; 0; 0] ++ le_bytes 4 6 ++ le_bytes 4 4 ++ replicate 32 0 ++ [85; 170])).

Lemma InspectDOSPrimary_valid_witness :
  ∃ report, InspectDOSPrimary (Some toy_dos) 5120 = Ok report ∧ dr_PartitionCount report = 2
    ∧ StronglySorted dos_disjoint (dr_Partitions report).
Proof.
  destruct (InspectDOSPrimary (Some toy_dos) 5120) as [report|e] eqn:HI; [|vm_compute in HI; discriminate HI].
  assert (Hs : (λ r, (dr_Status r, dr_PartitionCount r)) <$> InspectDOSPrimary (Some toy_dos) 5120 = Ok (DosObserved, 2))
    by (vm_compute; reflexivity).
  rewrite HI in Hs. injection Hs as Hst Hn. exists report. split; [reflexivity|]. split; [exact Hn|].
  apply (InspectDOSPrimary_valid toy_dos 5120 report); [|vm_compute; discriminate|exact HI|exact Hst].
  intros offset n bs Hb. injection Hb as <-. apply Forall_take.
  repeat (apply Forall_app_2; [|]); try (apply Forall_replicate; unfold byte; lia);
    repeat constructor; vm_compute; discriminate.
Defined.

End DosPrimary.
