(* ===== verification/UImage.v ===== *)
(** * Legacy U-Boot images: [uimage/uimage.go]

    The inspector of a legacy image: a 64-byte header with its own checksum, then
    the payload with another.  A file is its bytes, the two reads may fail; the
    formatted time stamp of the report is left out. *)

From S2P Require Import Prelude GoStrings Gpt.

Module UImage.
Import Gpt.

Definition HeaderSize : Z := 64.
Definition Magic : Z := 654645590.

Record Identity := mkIdentity { id_ID : Z; id_Name : string }.

Inductive problem := BadMagic | BadHeaderCRC | EmptyPayload | BadDataCRC.
#[export] Instance problem_eq_dec : EqDecision problem. Proof. solve_decision. Defined.

Record UReport := mkUReport {
  ur_Size : Z; ur_Magic : string; ur_MagicValid : bool; ur_TimestampUnix : Z; ur_DataSize : Z; ur_TrailingBytes : Z;
  ur_LoadAddress : string; ur_EntryPoint : string; ur_ExpectedHeaderCRC32 : string; ur_ActualHeaderCRC32 : string;
  ur_HeaderCRC32Valid : bool; ur_ExpectedDataCRC32 : string; ur_ActualDataCRC32 : string; ur_DataCRC32Valid : bool;
  ur_OS : Identity; ur_Architecture : Identity; ur_ImageType : Identity; ur_Compression : Identity; ur_Name : string;
  ur_Valid : bool; ur_Problems : list problem; ur_Warnings : bool }.

Inductive uerror := ErrTooSmall | ErrReadHeader | ErrPayloadSize | ErrReadPayload.
#[export] Instance uerror_eq_dec : EqDecision uerror. Proof. solve_decision. Defined.

(** [binary.BigEndian.Uint32] *)
Definition be (bs : list Z) : Z := foldl (λ acc b, acc * 256 + b) 0 bs.
(** ["0x%08x"] *)
Definition hex32 (value : Z) : string :=
  String.append "0x" (hex_encode [value / 2 ^ 24; (value / 2 ^ 16) mod 256; (value / 2 ^ 8) mod 256; value mod 256]).

Definition osNames : list (Z * string) := [(0, "invalid"); (5, "linux")].
Definition architectureNames : list (Z * string) := [(0, "invalid"); (2, "arm")].
Definition imageTypeNames : list (Z * string) :=
  [(0, "invalid"); (1, "standalone"); (2, "kernel"); (3, "ramdisk"); (4, "multi"); (5, "firmware"); (6, "script");
   (7, "filesystem"); (8, "flatdt"); (14, "kernel-no-load")].
Definition compressionNames : list (Z * string) :=
  [(0, "none"); (1, "gzip"); (2, "bzip2"); (3, "lzma"); (4, "lzo"); (5, "lz4"); (6, "zstd")].

Definition identity (id : Z) (names : list (Z * string)) : Identity :=
  mkIdentity id (match (list_to_map names : gmap Z string) !! id with Some name => name | None => "unknown" end).

Fixpoint until_zero (bs : list Z) : list Z :=
  match bs with [] => [] | b :: bs => if b =? 0 then [] else b :: until_zero bs end.
Definition string_of_bytes (bs : list Z) : string := String.string_of_list_ascii ((ascii_of_N ∘ Z.to_N) <$> bs).
(** on the ASCII names of image headers *)
Definition cString (data : list Z) : string := trim_space (string_of_bytes (until_zero data)).

(** [readAtFull] at offset 0 *)
Definition readAtFull (file : list Z) (fails : bool) (n : Z) : option (list Z) :=
  if fails || (len file <? n) then None else Some (take (Z.to_nat n) file).

(** [io.Copy] from [io.NewSectionReader(r, HeaderSize, dataSize)]: a file that
    ends early ends the section. *)
Definition section (file : list Z) (fails : bool) (dataSize : Z) : option (list Z) :=
  if fails then None else Some (take (Z.to_nat dataSize) (drop (Z.to_nat HeaderSize) file)).

(** the header with its checksum field cleared *)
Definition headerForCRC (header : list Z) : list Z := take 4 header ++ [0; 0; 0; 0] ++ drop 8 header.

Definition UInspect (file : list Z) (fail_header fail_data : bool) (size : Z) : res uerror UReport :=
  refuse size <? HeaderSize => ErrTooSmall ;;
  match readAtFull file fail_header HeaderSize with
  | None => Err ErrReadHeader
  | Some header =>
    let magic := be (sub header 0 4) in
    let expectedHeaderCRC := be (sub header 4 8) in
    let timestamp := be (sub header 8 12) in
    let dataSize := be (sub header 12 16) in
    let loadAddress := be (sub header 16 20) in
    let entryPoint := be (sub header 20 24) in
    let expectedDataCRC := be (sub header 24 28) in
    let actualHeaderCRC := ChecksumIEEE (headerForCRC header) in
    let problems1 := (if negb (magic =? Magic) then [BadMagic] else [])
                     ++ (if negb (actualHeaderCRC =? expectedHeaderCRC) then [BadHeaderCRC] else [])
                     ++ (if dataSize =? 0 then [EmptyPayload] else []) in
    refuse size - HeaderSize <? dataSize => ErrPayloadSize ;;
    let trailing := size - HeaderSize - dataSize in
    match section file fail_data dataSize with
    | None => Err ErrReadPayload
    | Some data =>
      let actualDataCRC := ChecksumIEEE data in
      let problems := problems1 ++ (if negb (actualDataCRC =? expectedDataCRC) then [BadDataCRC] else []) in
      Ok (mkUReport size (hex32 magic) (magic =? Magic) timestamp dataSize trailing (hex32 loadAddress) (hex32 entryPoint)
            (hex32 expectedHeaderCRC) (hex32 actualHeaderCRC) (actualHeaderCRC =? expectedHeaderCRC)
            (hex32 expectedDataCRC) (hex32 actualDataCRC) (actualDataCRC =? expectedDataCRC)
            (identity (get header 28) osNames) (identity (get header 29) architectureNames)
            (identity (get header 30) imageTypeNames) (identity (get header 31) compressionNames)
            (cString (sub header 32 64)) (len problems =? 0) problems (negb (trailing =? 0)))
    end
  end.

(** ** The checksum detects a changed byte *)
Definition u32 (c : Z) : Prop := 0 ≤ c < 2 ^ 32.
Definition polynomial : Z := 3988292384.

Lemma u32_lxor a b : u32 a → u32 b → u32 (Z.lxor a b).
Proof.
  unfold u32. intros [Ha1 Ha2] [Hb1 Hb2]. split; [by apply Z.lxor_nonneg|].
  destruct (Z.eq_dec (Z.lxor a b) 0) as [->|Hne]; [lia|].
  assert (0 ≤ Z.lxor a b) by (by apply Z.lxor_nonneg).
  apply Z.log2_lt_pow2; [lia|]. eapply Z.le_lt_trans; [by apply Z.log2_lxor|].
  apply Z.max_lub_lt; (destruct (Z.eq_dec a 0) as [->|]; destruct (Z.eq_dec b 0) as [->|];
    try (apply Z.log2_lt_pow2; lia); simpl; lia).
Qed.

Lemma lxor_cancel a b c : Z.lxor a c = Z.lxor b c → a = b.
Proof.
  intros He. apply (f_equal (λ x, Z.lxor x c)) in He.
  by rewrite !Z.lxor_assoc, Z.lxor_nilpotent, !Z.lxor_0_r in He.
Qed.

Lemma crc_bit_u32 c : u32 c → u32 (crc_bit c).
Proof.
  intros Hc. unfold crc_bit. assert (Hs : u32 (Z.shiftr c 1)).
  { unfold u32 in *. rewrite Z.shiftr_div_pow2 by lia. change (2 ^ 1) with 2.
    pose proof (Z.div_mod c 2). pose proof (Z.mod_pos_bound c 2). lia. }
  destruct (Z.odd c); [apply u32_lxor; [done|unfold u32; lia]|done].
Qed.

(** The highest bit of the result is the bit shifted out. *)
Lemma crc_bit_top c : u32 c → Z.testbit (crc_bit c) 31 = Z.odd c.
Proof.
  intros Hc. unfold crc_bit.
  assert (Hs : Z.testbit (Z.shiftr c 1) 31 = false).
  { rewrite Z.shiftr_spec by lia. destruct (Z.eq_dec c 0) as [->|]; [done|].
    apply Z.bits_above_log2; [unfold u32 in Hc; lia|]. apply Z.log2_lt_pow2; unfold u32 in Hc; lia. }
  destruct (Z.odd c); [|done]. rewrite Z.lxor_spec, Hs. done.
Qed.

Lemma crc_bit_inj a b : u32 a → u32 b → crc_bit a = crc_bit b → a = b.
Proof.
  intros Ha Hb He. assert (Ho : Z.odd a = Z.odd b) by (by rewrite <- !crc_bit_top, He).
  unfold crc_bit in He. rewrite Ho in He.
  assert (Hs : Z.shiftr a 1 = Z.shiftr b 1) by (destruct (Z.odd b); [by eapply lxor_cancel|done]).
  rewrite <- !Z.div2_spec in Hs. rewrite (Z.div2_odd a), (Z.div2_odd b). by rewrite Hs, Ho.
Qed.

Lemma crc_bits_inj n a b :
  u32 a → u32 b → u32 (Nat.iter n crc_bit a) ∧ (Nat.iter n crc_bit a = Nat.iter n crc_bit b → a = b).
Proof.
  intros Ha Hb. induction n as [|n [IH1 IH2]]; simpl; [done|].
  assert (Hu : ∀ c, u32 c → u32 (Nat.iter n crc_bit c)).
  { intros c Hc. clear -Hc. induction n; simpl; [done|]. by apply crc_bit_u32. }
  split; [by apply crc_bit_u32|]. intros He. apply crc_bit_inj in He; auto.
Qed.

Lemma byte_u32 b : byte b → u32 b.
Proof. unfold byte, u32. lia. Qed.

Lemma crc_byte_u32 c b : u32 c → byte b → u32 (crc_byte c b).
Proof.
  intros Hc Hb. unfold crc_byte. apply crc_bits_inj with (b := c); [by apply u32_lxor; [|apply byte_u32]|done].
Qed.

Lemma crc_byte_inj_state a b x : u32 a → u32 b → byte x → crc_byte a x = crc_byte b x → a = b.
Proof.
  intros Ha Hb Hx. unfold crc_byte. intros He.
  apply crc_bits_inj in He; [by eapply lxor_cancel|by apply u32_lxor; [|apply byte_u32]..].
Qed.

Lemma crc_byte_inj_byte c x y : u32 c → byte x → byte y → crc_byte c x = crc_byte c y → x = y.
Proof.
  intros Hc Hx Hy. unfold crc_byte. intros He.
  apply crc_bits_inj in He; [|by apply u32_lxor; [|apply byte_u32]..].
  rewrite (Z.lxor_comm c x), (Z.lxor_comm c y) in He. by eapply lxor_cancel.
Qed.

Lemma crc_fold_inj bs : Forall byte bs → ∀ a b, u32 a → u32 b →
  u32 (foldl crc_byte a bs) ∧ (foldl crc_byte a bs = foldl crc_byte b bs → a = b).
Proof.
  induction 1 as [|x bs Hx HF IH]; intros a b Ha Hb; simpl; [done|].
  destruct (IH (crc_byte a x) (crc_byte b x)) as [H1 H2]; [by apply crc_byte_u32..|].
  split; [done|]. intros He. eapply crc_byte_inj_state; eauto.
Qed.

Lemma Checksum_byte_changed l x y r :
  Forall byte (l ++ x :: r) → byte y → ChecksumIEEE (l ++ x :: r) = ChecksumIEEE (l ++ y :: r) → x = y.
Proof.
  intros HF Hy He. apply Forall_app in HF as [Hl HF]. apply Forall_cons in HF as [Hx Hr].
  unfold ChecksumIEEE in He. apply lxor_cancel in He. rewrite !foldl_app in He. simpl in He.
  assert (Hm : u32 max_uint32) by (unfold u32, max_uint32; lia).
  pose proof (proj1 (crc_fold_inj l Hl _ _ Hm Hm)) as Hs.
  apply (crc_fold_inj r Hr) in He; [|by apply crc_byte_u32..].
  by eapply crc_byte_inj_byte.
Qed.

Lemma Checksum_insert l i x y :
  Forall byte l → l !! i = Some x → byte y → x ≠ y → ChecksumIEEE (<[i:=y]> l) ≠ ChecksumIEEE l.
Proof.
  intros HF Hi Hy Hne He. pose proof (lookup_lt_Some _ _ _ Hi) as Hlt.
  rewrite insert_take_drop in He by done. rewrite <- (take_drop_middle l i x Hi) in He at 3.
  rewrite <- (take_drop_middle l i x Hi) in HF. symmetry in He. by apply Checksum_byte_changed in He.
Qed.

(** ** What a valid report certifies *)
Record certified (header data : list Z) : Prop := {
  ce_magic : be (sub header 0 4) = Magic;
  ce_header : ChecksumIEEE (headerForCRC header) = be (sub header 4 8);
  ce_nonempty : be (sub header 12 16) ≠ 0;
  ce_data : ChecksumIEEE data = be (sub header 24 28) }.

Lemma UInspect_valid file fh fd size r :
  UInspect file fh fd size = Ok r →
  let header := take 64 file in
  let data := take (Z.to_nat (ur_DataSize r)) (drop 64 file) in
  64 ≤ len file ∧ ur_DataSize r = be (sub header 12 16) ∧ 64 + ur_DataSize r ≤ size
  ∧ (ur_Valid r = true ↔ certified header data).
Proof.
  unfold UInspect. intros [Hsz H]%refuse_Ok.
  unfold readAtFull in H. destruct (fh || (len file <? HeaderSize)) eqn:Hl; [done|].
  apply orb_false_iff in Hl as [_ Hl%Z.ltb_ge]. cbv zeta in H. change (Z.to_nat HeaderSize) with 64%nat in H.
  apply refuse_Ok in H as [Hds%Z.ltb_ge H]. unfold section in H. destruct fd; [done|].
  change (Z.to_nat HeaderSize) with 64%nat in H. injection H as <-. cbn [ur_DataSize ur_Valid]. cbv zeta.
  unfold HeaderSize in *. split; [lia|]. split; [done|]. split; [lia|].
  set (header := take 64 file). set (data := take _ (drop 64 file)). rewrite Z.eqb_eq.
  destruct (Z.eqb_spec (be (sub header 0 4)) Magic) as [H1|H1]; cbn [negb app].
  2: { split; [unfold len; simpl; lia|]. by intros []. }
  destruct (Z.eqb_spec (ChecksumIEEE (headerForCRC header)) (be (sub header 4 8))) as [H2|H2]; cbn [negb app].
  2: { split; [unfold len; simpl; lia|]. by intros []. }
  destruct (Z.eqb_spec (be (sub header 12 16)) 0) as [H3|H3]; cbn [negb app].
  2: destruct (Z.eqb_spec (ChecksumIEEE data) (be (sub header 24 28))) as [H4|H4]; cbn [negb app].
  - split; [unfold len; simpl; lia|]. by intros [].
  - split; [by split|done].
  - split; [unfold len; simpl; lia|]. by intros [].
Qed.

Lemma be_inj l1 : Forall byte l1 → ∀ l2, Forall byte l2 → length l1 = length l2 → ∀ a b,
  foldl (λ acc x, acc * 256 + x) a l1 = foldl (λ acc x, acc * 256 + x) b l2 → a = b ∧ l1 = l2.
Proof.
  induction 1 as [|x l1 Hx HF IH]; intros l2 HF2 Hl a b He; destruct HF2 as [|y l2 Hy HF2]; simpl in *; try done.
  apply IH in He as [He ->]; [|done|lia]. unfold byte in *. assert (x = y) as -> by lia. split; [lia|done].
Qed.

(** One changed byte of the header shows in its checksum or in the checksum
    field. *)
Lemma header_changed header i x y :
  Forall byte header → length header = 64%nat → header !! i = Some x → byte y → x ≠ y →
  ChecksumIEEE (headerForCRC header) = be (sub header 4 8) →
  ChecksumIEEE (headerForCRC (<[i:=y]> header)) ≠ be (sub (<[i:=y]> header) 4 8).
Proof.
  intros HF Hlen Hi Hy Hne Hc He. pose proof (lookup_lt_Some _ _ _ Hi) as Hlt.
  assert (Hzero : Forall byte [0; 0; 0; 0]) by (repeat constructor; vm_compute; discriminate).
  assert (HFc : Forall byte (headerForCRC header)).
  { apply Forall_app_2; [by apply Forall_take|]. apply Forall_app_2; [done|by apply Forall_drop]. }
  destruct (decide (4 ≤ i < 8)%nat) as [Hin|Hout].
  - assert (Hsame : headerForCRC (<[i:=y]> header) = headerForCRC header)
      by (unfold headerForCRC; by rewrite take_insert_ge, drop_insert_lt by lia).
    rewrite Hsame, Hc in He. unfold sub in He. simpl (8 - 4)%nat in He. rewrite drop_insert_ge in He by lia.
    rewrite take_insert_lt in He by lia.
    assert (HF4 : Forall byte (take 4 (drop 4 header))) by (by apply Forall_take, Forall_drop).
    apply be_inj in He as [_ He]; [|done|by apply Forall_insert|by rewrite length_insert].
    assert (Hx : take 4 (drop 4 header) !! (i - 4)%nat = Some x).
    { rewrite lookup_take_lt by lia. rewrite lookup_drop. by replace (4 + (i - 4))%nat with i by lia. }
    rewrite He, list_lookup_insert_eq in Hx; [by simplify_eq|].
    rewrite length_take, length_drop. lia.
  - assert (Hexp : sub (<[i:=y]> header) 4 8 = sub header 4 8).
    { unfold sub. simpl (8 - 4)%nat. destruct (decide (i < 4)%nat).
      - by rewrite drop_insert_lt by lia.
      - rewrite drop_insert_ge by lia. by rewrite take_insert_ge by lia. }
    rewrite Hexp, <- Hc in He.
    assert (Hpos : ∃ j, headerForCRC (<[i:=y]> header) = <[j:=y]> (headerForCRC header) ∧ headerForCRC header !! j = Some x).
    { unfold headerForCRC. destruct (decide (i < 4)%nat) as [Hlo|Hhi].
      - exists i. rewrite take_insert_lt, drop_insert_lt by lia.
        rewrite insert_app_l, lookup_app_l, lookup_take_lt by (rewrite ?length_take; lia). done.
      - exists i. rewrite take_insert_ge, drop_insert_ge by lia.
        assert (Hl4 : length (take 4 header) = 4%nat) by (rewrite length_take; lia).
        assert (H04 : length [0; 0; 0; 0] = 4%nat) by done.
        rewrite !insert_app_r_alt, !lookup_app_r by (rewrite ?Hl4, ?H04; lia).
        rewrite Hl4, H04. replace (i - 4 - 4)%nat with (i - 8)%nat by lia.
        rewrite lookup_drop. by replace (8 + (i - 8))%nat with i by lia. }
    destruct Hpos as (j & Hj & Hjx). rewrite Hj in He. by apply (Checksum_insert _ j x y HFc Hjx Hy Hne).
Qed.

(** ** Properties *)

(** A valid image stays valid only if it is untouched. If a report is valid,
    then after replacing any single byte of the header or of the payload by a
    different one, whatever read faults occur, no report on the changed file is
    valid. *)
Theorem UInspect_detects_change file fh fd size r i x y fh' fd' r' :
  Forall byte file → len file = size →
  UInspect file fh fd size = Ok r → ur_Valid r = true →
  Z.of_nat i < 64 + ur_DataSize r → file !! i = Some x → byte y → x ≠ y →
  UInspect (<[i:=y]> file) fh' fd' size = Ok r' → ur_Valid r' = false.
Proof.
  intros HF Hlen H Hv Hi Hx Hy Hne H'.
  apply UInspect_valid in H as (H64 & Hds & Hfit & Hval). apply Hval in Hv as [M1 M2 M3 M4]. clear Hval.
  apply UInspect_valid in H' as (_ & Hds' & _ & Hval'). cbv zeta in *.
  destruct (ur_Valid r') eqn:Hv'; [|done]. exfalso. destruct (proj1 Hval' eq_refl) as [N1 N2 N3 N4]. clear Hval'.
  assert (Hl64 : (64 ≤ length file)%nat) by (unfold len in H64; lia).
  destruct (decide (i < 64)%nat) as [Hlo|Hhi].
  - rewrite take_insert_lt in N2 by lia. revert N2. apply (header_changed _ i x y); try done.
    + by apply Forall_take.
    + rewrite length_take. lia.
    + by rewrite lookup_take_lt.
  - rewrite take_insert_ge in Hds', N4 by lia. rewrite Hds', <- Hds in N4.
    rewrite drop_insert_ge, take_insert_lt in N4 by lia. rewrite <- M4 in N4.
    revert N4. apply (Checksum_insert _ _ x y); try done; [by apply Forall_take, Forall_drop|].
    rewrite lookup_take_lt by lia. rewrite lookup_drop. by replace (64 + (i - 64))%nat with i by lia.
Qed.

(** A kernel image with a three-byte payload. *)
Definition be_bytes4 (v : Z) : list Z := [v / 2 ^ 24; (v / 2 ^ 16) mod 256; (v / 2 ^ 8) mod 256; v mod 256].
Definition toy_header_fields (crc : Z) : list Z :=
  be_bytes4 Magic ++ be_bytes4 crc ++ be_bytes4 0 ++ be_bytes4 3 ++ be_bytes4 0 ++ be_bytes4 0
  ++ be_bytes4 (ChecksumIEEE [1; 2; 3]) ++ [5; 2; 2; 0] ++ replicate 32 0.
Definition toy_file : list Z := toy_header_fields (ChecksumIEEE (toy_header_fields 0)) ++ [1; 2; 3].

Lemma UInspect_detects_change_witness :
  ∃ r', UInspect (<[65%nat:=7]> toy_file) false false 67 = Ok r' ∧ ur_Valid r' = false.
Proof.
  destruct (UInspect (<[65%nat:=7]> toy_file) false false 67) as [r'|e] eqn:Hr';
    [|vm_compute in Hr'; discriminate Hr'].
  destruct (UInspect toy_file false false 67) as [r|e] eqn:Hr; [|vm_compute in Hr; discriminate Hr].
  assert (Hv : (λ r, (ur_Valid r, ur_DataSize r)) <$> UInspect toy_file false false 67 = Ok (true, 3))
    by (vm_compute; reflexivity).
  rewrite Hr in Hv. injection Hv as Hv Hd. exists r'. split; [reflexivity|].
  apply (UInspect_detects_change toy_file false false 67 r 65 2 7 false false r').
  - assert (Hb : forallb (λ b, (0 <=? b) && (b <? 256)) toy_file = true) by (vm_compute; reflexivity).
    rewrite forallb_forall in Hb. apply Forall_forall. intros b Hin%list_elem_of_In. specialize (Hb b Hin).
    unfold byte. go_bool in Hb. lia.
  - vm_compute. reflexivity.
  - exact Hr.
  - exact Hv.
  - rewrite Hd. lia.
  - vm_compute. reflexivity.
  - unfold byte. lia.
  - discriminate.
  - exact Hr'.
Defined.

End UImage.
