(* ===== verification/MountInfo.v ===== *)
(** * Mount tables: the parser of [mounts.go]

    [parseMountInfo] reads the mount table of the process and orders it by mount
    point.  [kernel_table] is the text the kernel writes for a list of mounts. *)

From S2P Require Import Prelude GoStrings GoPath.

Module MountInfo.
Import GoPath.

Definition maxProcBytes : Z := 64 * 1024.
Definition maxMountEntries : Z := 128.
Definition maxMountLineBytes : Z := 8192.
Definition maxMountPathBytes : Z := 4096.
Definition maxFilesystemBytes : Z := 64.

Record mountObservation := mkMount {
  mo_MountPoint : string; mo_Filesystem : string; mo_DeviceMajor : Z; mo_DeviceMinor : Z; mo_ReadOnly : bool;
  mo_mountInfoID : Z; mo_filesystemRoot : string }.
#[export] Instance mountObservation_eq_dec : EqDecision mountObservation. Proof. solve_decision. Defined.

Inductive mount_error :=
| ErrSize | ErrEmpty | ErrCount | ErrLine | ErrFields | ErrMountID | ErrParentID | ErrDevice | ErrRoot | ErrMountPoint
| ErrFilesystem | ErrAccess | ErrDuplicate.
#[export] Instance mount_error_eq_dec : EqDecision mount_error. Proof. solve_decision. Defined.

(** [storage.go]: [major:minor] *)
Definition parseDeviceNumber (value : string) : option (Z * Z) :=
  match split_on ":" (TrimSpace value) with
  | [a; b] => major ← ParseUint 32 a; minor ← ParseUint 32 b; Some (major, minor)
  | _ => None
  end.

Definition parseMountReadOnly (options : string) : res mount_error bool :=
  let words := split_on "," options in
  let readOnly := existsb (String.eqb "ro") words in
  let readWrite := existsb (String.eqb "rw") words in
  refuse eqb readOnly readWrite => ErrAccess ;;
  Ok readOnly.

(** an octal escape of three digits; a value above 255 does not fit a byte *)
Definition octal (a b c : ascii) : option Z :=
  if forallb (λ r, (48 <=? r) && (r <=? 55)) (runes (String a (String b (String c EmptyString)))) then
    let parsed := ((code a - 48) * 8 + (code b - 48)) * 8 + (code c - 48) in
    if (255 <? parsed) || (parsed =? 0) then None else Some parsed
  else None.
Fixpoint decode_bytes (value : string) : option string :=
  match value with
  | EmptyString => Some EmptyString
  | String c rest =>
    if negb (c == "\"%char) then
      if code c =? 0 then None else String c <$> decode_bytes rest
    else match rest with
    | String d1 (String d2 (String d3 rest')) =>
      match octal d1 d2 d3 with
      | Some b => String (ascii_of_N (Z.to_N b)) <$> decode_bytes rest'
      | None => None
      end
    | _ => None
    end
  end.
Definition decodeMountField (value : string) : option string :=
  if (slength value =? 0) || (maxMountPathBytes <? slength value) then None else decode_bytes value.

Definition fs_char (c : Z) : bool := is_lower c || is_upper c || is_digit c || in_set c "._+-".
Definition validMountFilesystem (value : string) : bool :=
  if (value == EmptyString) || (maxFilesystemBytes <? slength value) then false else forallb fs_char (runes value).

(** the index of the first ["-"], if any *)
Fixpoint separator_at (i : nat) (fields : list string) : option nat :=
  match fields with
  | [] => None
  | f :: fields' => if f == "-" then Some i else separator_at (S i) fields'
  end.
Definition rooted (s : string) : bool := match s with String c _ => c == "/"%char | EmptyString => false end.
Definition field (fields : list string) (i : nat) : string := default EmptyString (fields !! i).

Definition parseMountInfoLine (fields : list string) : res mount_error mountObservation :=
  match separator_at 0 fields with
  | None => Err ErrFields
  | Some separator =>
    refuse (separator <? 6)%nat || (length fields - separator <? 4)%nat => ErrFields ;;
    match ParseUint 32 (field fields 0) with
    | None => Err ErrMountID
    | Some mountID =>
      refuse mountID =? 0 => ErrMountID ;;
      refuse bool_decide (ParseUint 32 (field fields 1) = None) => ErrParentID ;;
      match parseDeviceNumber (field fields 2) with
      | None => Err ErrDevice
      | Some (major, minor) =>
        match decodeMountField (field fields 3) with
        | None => Err ErrRoot
        | Some root =>
          refuse negb (rooted root) => ErrRoot ;;
          match decodeMountField (field fields 4) with
          | None => Err ErrMountPoint
          | Some mountPoint =>
            refuse negb (rooted mountPoint) => ErrMountPoint ;;
            let filesystem := field fields (separator + 1) in
            refuse negb (validMountFilesystem filesystem) => ErrFilesystem ;;
            readOnly ← parseMountReadOnly (field fields 5);
            Ok (mkMount mountPoint filesystem major minor readOnly mountID root)
          end
        end
      end
    end
  end.

(** [sort.Slice]: some permutation in the order of the four keys *)
Definition str_lt (a b : string) : bool := negb (str_leb b a).
Definition mount_less (a b : mountObservation) : bool :=
  if mo_MountPoint a != mo_MountPoint b then str_lt (mo_MountPoint a) (mo_MountPoint b)
  else if negb (mo_DeviceMajor a =? mo_DeviceMajor b) then mo_DeviceMajor a <? mo_DeviceMajor b
  else if negb (mo_DeviceMinor a =? mo_DeviceMinor b) then mo_DeviceMinor a <? mo_DeviceMinor b
  else str_lt (mo_Filesystem a) (mo_Filesystem b).
Definition mount_le (a b : mountObservation) : Prop := mount_less b a = false.
#[export] Instance mount_le_dec : RelDecision mount_le. Proof. unfold RelDecision, mount_le. solve_decision. Defined.

Definition trim_newline (data : string) : string :=
  if ends_with 10 data then stake (slength data - 1) data else data.
Definition line_step (st : list mountObservation * gset Z) (line : string) : res mount_error (list mountObservation * gset Z) :=
  refuse (slength line =? 0) || (maxMountLineBytes <? slength line) => ErrLine ;;
  observation ← parseMountInfoLine (Fields line);
  refuse mo_mountInfoID observation ∈? st.2 => ErrDuplicate ;;
  Ok (st.1 ++ [observation], {[mo_mountInfoID observation]} ∪ st.2).

Definition parseMountInfo (data : string) : res mount_error (list mountObservation) :=
  refuse maxProcBytes <? slength data => ErrSize ;;
  let lines := split_on (ascii_of_nat 10) (trim_newline data) in
  refuse (len lines =? 1) && (TrimSpace (default EmptyString (lines !! 0%nat)) == EmptyString) => ErrEmpty ;;
  refuse maxMountEntries <? len lines => ErrCount ;;
  st ← for_range (λ _, line_step) 0 ([], ∅) lines;
  Ok (merge_sort mount_le st.1).

(** ** The kernel's text

    [show_mountinfo]: decimal numbers, paths with octal escapes for blanks and the
    backslash, options, tags, a dash, then type, source and superblock options. *)
Definition mangled (c : Z) : bool := (c =? 32) || (c =? 9) || (c =? 10) || (c =? 92).
Definition octal_digit (n : Z) : ascii := ascii_of_N (Z.to_N (48 + n)).
Fixpoint mangle (s : string) : string :=
  match s with
  | EmptyString => EmptyString
  | String c s' =>
    if mangled (code c)
    then String "\" (String (octal_digit (code c / 64)) (String (octal_digit ((code c / 8) mod 8))
           (String (octal_digit (code c mod 8)) (mangle s'))))
    else String c (mangle s')
  end.
Record kernel_mount := mkKernel {
  km_id : Z; km_parent : Z; km_major : Z; km_minor : Z; km_root : string; km_point : string; km_ro : bool;
  km_options : list string; km_tags : list string; km_type : string; km_source : string; km_super : string }.
Definition kernel_fields (k : kernel_mount) : list string :=
  [FormatUint (km_id k); FormatUint (km_parent k);
   String.append (FormatUint (km_major k)) (String ":" (FormatUint (km_minor k))); mangle (km_root k); mangle (km_point k);
   join_with "," ((if km_ro k then "ro" else "rw") :: km_options k)]
  ++ km_tags k ++ ["-"; km_type k; mangle (km_source k); km_super k].
Definition kernel_line (k : kernel_mount) : string := join_with " " (kernel_fields k).
Definition newline : string := String (ascii_of_nat 10) EmptyString.
Definition kernel_table (ks : list kernel_mount) : string :=
  foldr (λ k t, String.append (kernel_line k) (String.append newline t)) EmptyString ks.
(** what the program keeps of a mount *)
Definition observe (k : kernel_mount) : mountObservation :=
  mkMount (km_point k) (km_type k) (km_major k) (km_minor k) (km_ro k) (km_id k) (km_root k).

Definition word_byte (b : Z) : bool := (1 <=? b) && (b <? 128) && negb (is_space b).
Definition word (w : string) : Prop := w ≠ EmptyString ∧ all_chars word_byte w.
(** ASCII without the blanks the kernel leaves as they are *)
Definition path_byte (b : Z) : bool := (1 <=? b) && (b <? 128) && negb ((11 <=? b) && (b <=? 13)).
Record renders (k : kernel_mount) : Prop := {
  rn_id : 0 < km_id k < 2 ^ 32; rn_parent : 0 ≤ km_parent k < 2 ^ 32;
  rn_major : 0 ≤ km_major k < 2 ^ 32; rn_minor : 0 ≤ km_minor k < 2 ^ 32;
  rn_root : rooted (km_root k) = true ∧ all_chars path_byte (km_root k) ∧ slength (mangle (km_root k)) ≤ maxMountPathBytes;
  rn_point : rooted (km_point k) = true ∧ all_chars path_byte (km_point k) ∧ slength (mangle (km_point k)) ≤ maxMountPathBytes;
  rn_options : Forall (λ o, word o ∧ no_sep "," o ∧ o ≠ "ro" ∧ o ≠ "rw") (km_options k);
  rn_tags : Forall (λ t, word t ∧ t ≠ "-") (km_tags k);
  rn_type : validMountFilesystem (km_type k) = true;
  rn_source : km_source k ≠ EmptyString ∧ all_chars path_byte (km_source k);
  rn_super : word (km_super k);
  rn_length : slength (kernel_line k) ≤ maxMountLineBytes }.

Lemma word_Forall w : word w → w ≠ EmptyString ∧ Forall (λ b, b < 128 ∧ IsSpace b = false) (codes w).
Proof.
  intros [Hn Hc]. split; [done|]. unfold all_chars in Hc. rewrite forallb_forall in Hc. apply Forall_forall.
  intros b Hb%list_elem_of_In. specialize (Hc b Hb). unfold word_byte, IsSpace in *. destruct (is_space b); go_bool; [lia|]. split; [lia|]. cbn. go_bool. lia.
Qed.

Lemma mangle_byte c : path_byte (code c) = true → mangled (code c) = true →
  octal (octal_digit (code c / 64)) (octal_digit ((code c / 8) mod 8)) (octal_digit (code c mod 8)) = Some (code c)
  ∧ Forall (λ d, word_byte (code d) = true) [octal_digit (code c / 64); octal_digit ((code c / 8) mod 8); octal_digit (code c mod 8)].
Proof.
  intros _ Hm. unfold mangled in Hm.
  assert (Hc : code c = 32 ∨ code c = 9 ∨ code c = 10 ∨ code c = 92) by (go_bool; lia).
  destruct Hc as [->|[->|[->| ->]]]; (split; [reflexivity|repeat constructor]).
Qed.
Lemma ascii_code c : ascii_of_N (Z.to_N (code c)) = c.
Proof. unfold code. rewrite N2Z.id. apply ascii_N_embedding. Qed.

Lemma decode_mangle s : all_chars path_byte s →
  decode_bytes (mangle s) = Some s ∧ all_chars word_byte (mangle s).
Proof.
  induction s as [|c s IH]; intros H; [done|]. apply all_chars_String in H as [Hc Hs]. destruct (IH Hs) as [Hd Hw].
  cbn [mangle]. destruct (mangled (code c)) eqn:Hm.
  - destruct (mangle_byte c Hc Hm) as [Ho HF]. split.
    + cbn [decode_bytes]. rewrite bool_decide_eq_true_2 by done. cbn [negb]. rewrite Ho, Hd. cbn. by rewrite ascii_code.
    + apply Forall_cons in HF as [H1 HF]. apply Forall_cons in HF as [H2 HF]. apply Forall_cons in HF as [H3 _].
      repeat (apply all_chars_String; split; [done|]). done.
  - split.
    + cbn [decode_bytes]. assert (Hb : c ≠ "\"%char) by (intros ->; done). rewrite bool_decide_eq_false_2 by done. cbn [negb].
      unfold path_byte in Hc. rewrite (proj2 (Z.eqb_neq (code c) 0)) by (go_bool; lia). by rewrite Hd.
    + apply all_chars_String. split; [|done]. unfold path_byte, mangled, word_byte, is_space in *. go_bool. lia.
Qed.
Lemma mangle_rooted s : rooted s = true → ∃ t, mangle s = String "/" t.
Proof.
  destruct s as [|c s]; [done|]. cbn [rooted]. intros H%bool_decide_eq_true. subst c. cbn [mangle].
  change (mangled (code "/")) with false. by eexists.
Qed.

Lemma uint_word n : 0 ≤ n < 2 ^ 64 → word (FormatUint n).
Proof.
  intros Hn. split; [|apply all_chars_uint; [|lia]; intros d; unfold is_digit, word_byte, is_space; go_bool; lia].
  intros He. pose proof (ParseUint_FormatUint 64 n Hn ltac:(lia)) as H. by rewrite He in H.
Qed.

Lemma separator_tags i l rest : Forall (λ t, t ≠ "-") l → separator_at i (l ++ "-" :: rest) = Some (i + length l)%nat.
Proof.
  intros HF. revert i. induction HF as [|t l Ht HF IH]; intros i; cbn [app separator_at length].
  - rewrite bool_decide_eq_true_2 by done. f_equal. lia.
  - rewrite bool_decide_eq_false_2, IH by done. f_equal. lia.
Qed.

Lemma fs_char_range c : fs_char c = true → 33 ≤ c < 127.
Proof.
  unfold fs_char, is_lower, is_upper, is_digit, in_set. rewrite !orb_true_iff, !andb_true_iff, !Z.leb_le.
  intros [Hc|Hc]; [lia|]. apply bool_decide_eq_true in Hc. cbn in Hc. repeat (apply elem_of_cons in Hc as [->|Hc]; [by split; vm_compute|]).
  by apply not_elem_of_nil in Hc.
Qed.
Lemma validMountFilesystem_word w : validMountFilesystem w = true → word w.
Proof.
  unfold validMountFilesystem. destruct (_ || _) eqn:E; [done|]. apply orb_false_iff in E as [Hn%bool_decide_eq_false _].
  rewrite forallb_runes by (intros r Hr; apply not_true_iff_false; intros ?%fs_char_range; lia).
  intros H. split; [done|]. eapply all_chars_impl; [|exact H]. intros c Hc%fs_char_range. unfold word_byte, is_space. go_bool. lia.
Qed.

Lemma access_options (ro : bool) (opts : list string) : Forall (λ o, word o ∧ no_sep "," o ∧ o ≠ "ro" ∧ o ≠ "rw") opts →
  parseMountReadOnly (join_with "," ((if ro then "ro" else "rw") :: opts)) = Ok ro
  ∧ word (join_with "," ((if ro then "ro" else "rw") :: opts)).
Proof.
  intros HF. set (w := if ro then "ro" else "rw"). assert (Hw : word w ∧ no_sep "," w).
  { unfold w. destruct ro; (split; [done|]); unfold no_sep; apply (bool_decide_unpack _); by vm_compute. }
  split.
  - unfold parseMountReadOnly. rewrite split_join; [|done|].
    2:{ constructor; [apply Hw|]. eapply Forall_impl; [exact HF|]. naive_solver. }
    assert (Hn : ∀ x, x = "ro" ∨ x = "rw" → existsb (String.eqb x) opts = false).
    { intros x Hx. apply not_true_iff_false. rewrite existsb_exists. intros (o & Ho%list_elem_of_In & He%String.eqb_eq).
      rewrite Forall_forall in HF. destruct (HF o Ho) as (_ & _ & ? & ?). naive_solver. }
    cbn [existsb]. rewrite !Hn by auto. unfold w. by destruct ro.
  - split.
    + unfold w. destruct ro, opts; done.
    + apply all_chars_join; [done|]. constructor; [apply Hw|]. eapply Forall_impl; [exact HF|]. intros o [[_ Ho] _]. done.
Qed.

Lemma device_text major minor : 0 ≤ major < 2 ^ 32 → 0 ≤ minor < 2 ^ 32 →
  let t := String.append (FormatUint major) (String ":" (FormatUint minor)) in
  word t ∧ parseDeviceNumber t = Some (major, minor).
Proof.
  intros H1 H2. cbv zeta. assert (Hw : word (String.append (FormatUint major) (String ":" (FormatUint minor)))).
  { split; [by destruct (FormatUint major)|]. apply all_chars_app; [apply uint_word; lia|]. apply all_chars_String.
    split; [done|]. apply uint_word. lia. }
  split; [done|]. unfold parseDeviceNumber. rewrite TrimSpace_word by (by apply word_Forall).
  change (String.append (FormatUint major) (String ":" (FormatUint minor)))
    with (join_with ":" [FormatUint major; FormatUint minor]).
  rewrite split_join; [|done|].
  - cbn [mbind option_bind]. rewrite !ParseUint_FormatUint by lia. done.
  - repeat constructor; apply FormatUint_no_sep; done || lia.
Qed.

Lemma mangled_field s : rooted s = true → all_chars path_byte s → slength (mangle s) ≤ maxMountPathBytes →
  decodeMountField (mangle s) = Some s ∧ word (mangle s).
Proof.
  intros Hr Hc Hl. destruct (mangle_rooted s Hr) as (t & Ht). destruct (decode_mangle s Hc) as [Hd Hw]. split.
  - unfold decodeMountField. rewrite (proj2 (Z.ltb_ge _ _) Hl), Hd.
    assert (Hn : slength (mangle s) ≠ 0) by (rewrite Ht, slength_String; pose proof (slength_nonneg t); lia).
    by rewrite (proj2 (Z.eqb_neq _ _) Hn).
  - split; [by rewrite Ht|done].
Qed.

Lemma kernel_words k : renders k → Forall word (kernel_fields k).
Proof.
  intros []. destruct rn_root0 as (? & ? & ?), rn_point0 as (? & ? & ?).
  destruct (device_text (km_major k) (km_minor k)) as [Hd _]; [done..|].
  destruct (access_options (km_ro k) (km_options k) rn_options0) as [_ Ho].
  assert (Hs : word (mangle (km_source k))).
  { destruct rn_source0 as [Hn Hc]. split; [|by apply decode_mangle].
    destruct (km_source k) as [|c s]; [done|]. cbn [mangle]. by destruct (mangled (code c)). }
  repeat (apply Forall_cons_2 || apply Forall_nil_2 || apply Forall_app_2); try done; try (apply uint_word; lia);
    try (by apply mangled_field); [|by apply validMountFilesystem_word].
  eapply Forall_impl; [exact rn_tags0|]. naive_solver.
Qed.

Lemma parse_kernel_line k : renders k →
  Fields (kernel_line k) = kernel_fields k ∧ parseMountInfoLine (kernel_fields k) = Ok (observe k).
Proof.
  intros Hk. pose proof (kernel_words k Hk) as HF. split.
  - apply Fields_join. eapply Forall_impl; [exact HF|]. intros w. apply word_Forall.
  - destruct Hk. destruct rn_root0 as (Hr1 & Hr2 & Hr3), rn_point0 as (Hp1 & Hp2 & Hp3).
    destruct (device_text (km_major k) (km_minor k)) as [Hdw Hd]; [done..|].
    destruct (access_options (km_ro k) (km_options k) rn_options0) as [Hacc _].
    destruct (mangled_field _ Hr1 Hr2 Hr3) as [Hroot _], (mangled_field _ Hp1 Hp2 Hp3) as [Hpoint _].
    unfold parseMountInfoLine.
    assert (Hsep : separator_at 0 (kernel_fields k) = Some (6 + length (km_tags k))%nat).
    { unfold kernel_fields. rewrite app_assoc.
      etrans; [apply separator_tags|by rewrite length_app].
      apply Forall_app_2; [|eapply Forall_impl; [exact rn_tags0|]; naive_solver].
      inversion HF as [|? ? H1 HF1]; subst. inversion HF1 as [|? ? H2 HF2]; subst.
      repeat apply Forall_cons_2; try apply Forall_nil_2.
      - intros He. pose proof (ParseUint_FormatUint 32 (km_id k) ltac:(lia) ltac:(lia)) as Hq. by rewrite He in Hq.
      - intros He. pose proof (ParseUint_FormatUint 32 (km_parent k) ltac:(lia) ltac:(lia)) as Hq. by rewrite He in Hq.
      - intros He. by rewrite He in Hd.
      - destruct (mangle_rooted _ Hr1) as (t & ->). done.
      - destruct (mangle_rooted _ Hp1) as (t & ->). done.
      - intros He. by rewrite He in Hacc. }
    rewrite Hsep. 
    assert (Hlen : length (kernel_fields k) = (10 + length (km_tags k))%nat).
    { unfold kernel_fields. rewrite !length_app. simpl. lia. }
    rewrite Hlen. rewrite (proj2 (Nat.ltb_ge (6 + length (km_tags k)) 6)) by lia.
    rewrite (proj2 (Nat.ltb_ge (10 + length (km_tags k) - (6 + length (km_tags k))) 4)) by lia. cbn [orb].
    change (field (kernel_fields k) 0) with (FormatUint (km_id k)).
    change (field (kernel_fields k) 1) with (FormatUint (km_parent k)).
    change (field (kernel_fields k) 2) with (String.append (FormatUint (km_major k)) (String ":" (FormatUint (km_minor k)))).
    change (field (kernel_fields k) 3) with (mangle (km_root k)).
    change (field (kernel_fields k) 4) with (mangle (km_point k)).
    change (field (kernel_fields k) 5) with (join_with "," ((if km_ro k then "ro" else "rw") :: km_options k)).
    assert (Ht : field (kernel_fields k) (6 + length (km_tags k) + 1) = km_type k).
    { unfold field, kernel_fields. rewrite lookup_app_r by (simpl; lia). rewrite lookup_app_r by (simpl; lia).
      simpl length. replace (_ - _ - _)%nat with 1%nat by lia. done. }
    rewrite Ht, !ParseUint_FormatUint, Hd, Hroot, Hpoint, Hacc, Hr1, Hp1, rn_type0 by lia.
    by rewrite (proj2 (Z.eqb_neq (km_id k) 0)) by lia.
Qed.

(** ** The order of the table *)
Lemma str_leb_refl a : str_leb a a = true.
Proof. destruct (bytes_leb_total (codes a) (codes a)); done. Qed.
Lemma str_leb_antisym a b : str_leb a b = true → str_leb b a = true → a = b.
Proof. intros H1 H2. by apply codes_inj, bytes_leb_antisym. Qed.
(** the order, one key after the other *)
Lemma mount_le_lex a b :
  mount_le a b ↔
  (mo_MountPoint a ≠ mo_MountPoint b ∧ str_leb (mo_MountPoint a) (mo_MountPoint b) = true)
  ∨ mo_MountPoint a = mo_MountPoint b ∧
    (mo_DeviceMajor a < mo_DeviceMajor b
     ∨ mo_DeviceMajor a = mo_DeviceMajor b ∧
       (mo_DeviceMinor a < mo_DeviceMinor b
        ∨ mo_DeviceMinor a = mo_DeviceMinor b ∧ str_leb (mo_Filesystem a) (mo_Filesystem b) = true)).
Proof.
  unfold mount_le, mount_less, str_lt.
  destruct (decide (mo_MountPoint a = mo_MountPoint b)) as [He|Hne].
  - rewrite (bool_decide_eq_true_2 (mo_MountPoint b = _)) by done. cbn [negb].
    destruct (Z.eqb_spec (mo_DeviceMajor b) (mo_DeviceMajor a)); cbn [negb].
    2:{ rewrite Z.ltb_ge. split; [intros; right; split; [done|]; left; lia|]. intros [[? ?]|[_ [?|[? _]]]]; [done|lia|lia]. }
    destruct (Z.eqb_spec (mo_DeviceMinor b) (mo_DeviceMinor a)); cbn [negb].
    + rewrite negb_false_iff. split; [intros; right; auto 6|]. intros [[? ?]|[_ [?|[_ [?|[_ ?]]]]]]; done || lia.
    + rewrite Z.ltb_ge. split; [intros; right; split; [done|]; right; split; [done|]; left; lia|].
      intros [[? ?]|[_ [?|[_ [?|[? _]]]]]]; done || lia.
  - rewrite (bool_decide_eq_false_2 (mo_MountPoint b = _)) by done. cbn [negb]. rewrite negb_false_iff. naive_solver.
Qed.
#[export] Instance mount_le_total : Total mount_le.
Proof.
  intros a b. rewrite !mount_le_lex. pose proof (bytes_leb_total (codes (mo_MountPoint a)) (codes (mo_MountPoint b))) as H1.
  pose proof (bytes_leb_total (codes (mo_Filesystem a)) (codes (mo_Filesystem b))) as H2.
  fold (str_leb (mo_MountPoint a) (mo_MountPoint b)) (str_leb (mo_MountPoint b) (mo_MountPoint a)) in H1.
  fold (str_leb (mo_Filesystem a) (mo_Filesystem b)) (str_leb (mo_Filesystem b) (mo_Filesystem a)) in H2.
  destruct (decide (mo_MountPoint a = mo_MountPoint b)); [|destruct H1; naive_solver].
  destruct (Z.lt_trichotomy (mo_DeviceMajor a) (mo_DeviceMajor b)) as [?|[?|?]]; [naive_solver| |naive_solver].
  destruct (Z.lt_trichotomy (mo_DeviceMinor a) (mo_DeviceMinor b)) as [?|[?|?]]; naive_solver.
Qed.
#[export] Instance mount_le_trans : Transitive mount_le.
Proof.
  intros a b c. rewrite !mount_le_lex.
  intros [[Hn1 Hl1]|[He1 H1]] [[Hn2 Hl2]|[He2 H2]].
  - left. split; [|by eapply bytes_leb_trans]. intros He. apply Hn1, str_leb_antisym; [done|]. by rewrite He.
  - left. by rewrite <- He2.
  - left. by rewrite He1.
  - right. split; [congruence|].
    destruct H1 as [?|[E1 [?|[F1 G1]]]], H2 as [?|[E2 [?|[F2 G2]]]]; try (left; lia); right; (split; [congruence|]); try (left; lia).
    right. split; [congruence|]. by eapply bytes_leb_trans.
Qed.

(** ** Tables *)
Lemma kernel_line_text k : renders k → all_chars (λ b, negb (b =? 10)) (kernel_line k) ∧ slength (kernel_line k) ≠ 0.
Proof.
  intros Hk. pose proof (kernel_words k Hk) as HF. split.
  - apply all_chars_join; [done|]. eapply Forall_impl; [exact HF|]. intros w [_ Hw]. eapply all_chars_impl; [|exact Hw].
    intros c. unfold word_byte, is_space. go_bool. lia.
  - unfold kernel_line, kernel_fields. cbn [app join_with]. rewrite slength_append, slength_String.
    pose proof (slength_nonneg (FormatUint (km_id k))). match goal with |- context [slength ?t + 1] => pose proof (slength_nonneg t) end. lia.
Qed.

Lemma kernel_table_snoc ks : ks ≠ [] →
  kernel_table ks = String.append (join_with (ascii_of_nat 10) (kernel_line <$> ks)) newline.
Proof.
  induction ks as [|k ks IH]; [done|]. intros _. cbn [kernel_table foldr]. fold (kernel_table ks).
  destruct ks as [|k' ks]; [done|]. rewrite IH by done. clear.
  change (kernel_line <$> k :: k' :: ks) with (kernel_line k :: (kernel_line <$> k' :: ks)).
  change (join_with (ascii_of_nat 10) (kernel_line k :: (kernel_line <$> k' :: ks)))
    with (String.append (kernel_line k) (String (ascii_of_nat 10) (join_with (ascii_of_nat 10) (kernel_line <$> k' :: ks)))).
  by rewrite append_assoc.
Qed.

Lemma trim_newline_snoc t : trim_newline (String.append t newline) = t.
Proof.
  assert (He : ends_with 10 (String.append t newline) = true).
  { unfold ends_with. apply bool_decide_eq_true. rewrite codes_append. change (codes newline) with [10].
    induction (codes t) as [|c l IH]; [done|]. cbn [app last_code]. by destruct (l ++ [10]) eqn:E; [destruct l|]. }
  unfold trim_newline. rewrite He, slength_append. change (slength newline) with 1.
  replace (slength t + 1 - 1) with (slength t) by lia. clear.
  induction t as [|c t IH]; [done|]. rewrite append_String, slength_String. cbn [stake].
  pose proof (slength_nonneg t). rewrite (proj2 (Z.leb_gt (slength t + 1) 0)) by lia.
  replace (slength t + 1 - 1) with (slength t) by lia. by rewrite IH.
Qed.

Lemma line_step_kernel k st : renders k → km_id k ∉ st.2 →
  line_step st (kernel_line k) = Ok (st.1 ++ [observe k], {[km_id k]} ∪ st.2).
Proof.
  intros Hk Hn. unfold line_step. destruct (kernel_line_text k Hk) as [_ Hl]. destruct (parse_kernel_line k Hk) as [-> ->].
  rewrite (proj2 (Z.eqb_neq _ _) Hl), (proj2 (Z.ltb_ge _ _) (rn_length k Hk)). cbn [orb mbind res_bind observe mo_mountInfoID].
  by rewrite bool_decide_eq_false_2.
Qed.
Lemma lines_kernel i acc seen ks : Forall renders ks → NoDup (km_id <$> ks) → (∀ k, k ∈ ks → km_id k ∉ seen) →
  ∃ seen', for_range (λ _, line_step) i (acc, seen) (kernel_line <$> ks) = Ok (acc ++ (observe <$> ks), seen').
Proof.
  intros HF. revert i acc seen. induction HF as [|k ks Hk HF IH]; intros i acc seen HN Hs.
  - exists seen. by rewrite app_nil_r.
  - rewrite !fmap_cons in *. apply NoDup_cons in HN as [Hk' HN]. cbn [for_range].
    rewrite (line_step_kernel k (acc, seen) Hk) by (apply Hs; left). cbn [fst snd].
    destruct (IH (i + 1) (acc ++ [observe k]) ({[km_id k]} ∪ seen) HN) as (seen' & ->).
    + intros k2 Hk2. apply not_elem_of_union. split; [|apply Hs; by right].
      rewrite elem_of_singleton. intros He. apply Hk'. rewrite <- He. by apply list_elem_of_fmap_2.
    + exists seen'. by rewrite <- app_assoc.
Qed.

(** What every accepted table satisfies, whoever wrote it. *)
Record good_mount (o : mountObservation) : Prop := {
  gm_point : rooted (mo_MountPoint o) = true;
  gm_root : rooted (mo_filesystemRoot o) = true;
  gm_type : validMountFilesystem (mo_Filesystem o) = true;
  gm_id : 0 < mo_mountInfoID o < 2 ^ 32;
  gm_device : 0 ≤ mo_DeviceMajor o < 2 ^ 32 ∧ 0 ≤ mo_DeviceMinor o < 2 ^ 32 }.
Lemma parseMountInfoLine_good fields o : parseMountInfoLine fields = Ok o → good_mount o.
Proof.
  unfold parseMountInfoLine. destruct (separator_at 0 fields) as [sep|]; [|done]. intros [_ H]%refuse_Ok.
  destruct (ParseUint 32 (field fields 0)) as [id|] eqn:Hid; [|done]. apply refuse_Ok in H as [Hid0%Z.eqb_neq H].
  apply refuse_Ok in H as [_ H]. destruct (parseDeviceNumber _) as [[major minor]|] eqn:Hd; [|done].
  destruct (decodeMountField (field fields 3)) as [root|]; [|done]. apply refuse_Ok in H as [Hr%negb_false_iff H].
  destruct (decodeMountField (field fields 4)) as [point|]; [|done]. apply refuse_Ok in H as [Hp%negb_false_iff H].
  apply refuse_Ok in H as [Ht%negb_false_iff H]. apply res_bind_Ok in H as (ro & _ & [= <-]).
  apply ParseUint_bounds in Hid. unfold parseDeviceNumber in Hd.
  destruct (split_on ":" _) as [|a [|b [|]]]; try done. apply bind_Some in Hd as (ma & Ha%ParseUint_bounds & Hd).
  apply bind_Some in Hd as (mi & Hb%ParseUint_bounds & [= -> ->]). split; cbn; try done; lia.
Qed.

Lemma lines_good lines acc seen i out :
  Forall good_mount acc → NoDup (mo_mountInfoID <$> acc) → seen = list_to_set (mo_mountInfoID <$> acc) →
  for_range (λ _, line_step) i (acc, seen) lines = Ok out →
  Forall good_mount out.1 ∧ NoDup (mo_mountInfoID <$> out.1) ∧ length out.1 = (length acc + length lines)%nat.
Proof.
  revert acc seen i. induction lines as [|l lines IH]; intros acc seen i HF HN Hs; cbn [for_range].
  - intros [= <-]. cbn. split_and!; [done|done|lia].
  - unfold line_step at 1. destruct (_ || _); [done|]. destruct (parseMountInfoLine (Fields l)) as [o|] eqn:Ho; [|done].
    cbn [mbind res_bind fst snd]. case_bool_decide as Hin; [done|]. intros H.
    apply IH in H as (H1 & H2 & H3).
    + split_and!; [done|done|]. rewrite H3, length_app. simpl. lia.
    + apply Forall_app_2; [done|]. constructor; [by eapply parseMountInfoLine_good|constructor].
    + rewrite fmap_app. apply NoDup_app. split_and!; [done| |apply NoDup_singleton]. subst seen. set_solver.
    + rewrite fmap_app, list_to_set_app_L, Hs. set_solver.
Qed.

(** ** Properties *)

(** The mount table is read exactly.  For any mounts the kernel can print in
    ASCII within the limits of the program, [parseMountInfo] gives back, for the
    kernel's text, one observation per mount with its unescaped paths, device
    numbers, type and access, in the order of the program; and whatever text it
    accepts, the observations have distinct identifiers, absolute paths and known
    forms, and there is one for every line. *)
Theorem parseMountInfo_exact :
  (∀ ks, ks ≠ [] → Forall renders ks → NoDup (km_id <$> ks) → len ks ≤ maxMountEntries →
     slength (kernel_table ks) ≤ maxProcBytes →
     ∃ out, parseMountInfo (kernel_table ks) = Ok out ∧ out ≡ₚ observe <$> ks ∧ StronglySorted mount_le out)
  ∧ ∀ data out, parseMountInfo data = Ok out →
     Forall good_mount out ∧ NoDup (mo_mountInfoID <$> out) ∧ StronglySorted mount_le out
     ∧ length out = length (split_on (ascii_of_nat 10) (trim_newline data)) ∧ len out ≤ maxMountEntries.
Proof.
  split.
  - intros ks Hne HF HN Hlen Hsize. unfold parseMountInfo. rewrite (proj2 (Z.ltb_ge _ _) Hsize).
    rewrite kernel_table_snoc, trim_newline_snoc by done. rewrite split_join.
    + assert (Hl : len (kernel_line <$> ks) = len ks) by (unfold len; by rewrite length_fmap). rewrite Hl.
      rewrite (proj2 (Z.ltb_ge _ _) Hlen).
      assert (Ht : TrimSpace (default EmptyString ((kernel_line <$> ks) !! 0%nat)) ≠ EmptyString).
      { destruct ks as [|k ks]; [done|]. inversion HF as [|? ? Hk _]; subst. cbn [fmap list_fmap lookup list_lookup default].
        pose proof (kernel_words k Hk) as HW. assert (Ha : Forall (λ b, b < 128) (codes (kernel_line k))).
        { apply Forall_forall. intros b Hb. assert (Hall : all_chars (λ b, b <? 128) (kernel_line k)).
          { apply all_chars_join; [done|]. eapply Forall_impl; [exact HW|]. intros w [_ Hw]. eapply all_chars_impl; [|exact Hw].
            intros c. unfold word_byte. go_bool. lia. }
          unfold all_chars in Hall. rewrite forallb_forall in Hall. apply Z.ltb_lt, Hall. by apply list_elem_of_In. }
        inversion HW as [|w ws [Hne' Hw] _ Heq]; subst. unfold kernel_line, kernel_fields in *. cbn [app join_with] in *.
        destruct (FormatUint (km_id k)) as [|c t]; [done|]. rewrite append_String in *. apply TrimSpace_head; [done|].
        apply all_chars_String in Hw as [Hw _]. unfold word_byte in Hw. unfold IsSpace. destruct (is_space (code c)); go_bool; [lia|].
        cbn. go_bool. lia. }
      rewrite (bool_decide_eq_false_2 _ Ht), andb_false_r.
      destruct (lines_kernel 0 [] ∅ ks HF HN ltac:(set_solver)) as (seen' & ->). cbn [mbind res_bind app fst].
      eexists. split; [reflexivity|]. split; [apply merge_sort_Permutation|apply (StronglySorted_merge_sort _)].
    + by destruct ks.
    + apply Forall_fmap. eapply Forall_impl; [exact HF|]. intros k Hk.
      eapply all_chars_no_sep; [|exact (proj1 (kernel_line_text k Hk))]. done.
  - intros data out. unfold parseMountInfo. intros [_ H]%refuse_Ok. apply refuse_Ok in H as [_ H].
    apply refuse_Ok in H as [Hc%Z.ltb_ge H]. apply res_bind_Ok in H as (st & Hst & [= <-]).
    apply lines_good in Hst as (H1 & H2 & H3); [|constructor|constructor|done].
    assert (Hp : merge_sort mount_le st.1 ≡ₚ st.1) by apply merge_sort_Permutation.
    split_and!; [by rewrite Hp|by rewrite Hp|apply (StronglySorted_merge_sort _)|by rewrite (Permutation_length Hp), H3|].
    unfold len in *. rewrite (Permutation_length Hp), H3. simpl. lia.
Qed.

(** A table as the kernel writes it: an escaped blank, tags, and a read-only
    mount; the second text repeats an identifier. *)
Definition sample_mounts : list kernel_mount :=
  [mkKernel 21 1 8 1 "/" "/srv/my books" false ["relatime"] ["shared:1"; "master:2"] "ext4" "/dev/sda1" "rw";
   mkKernel 22 21 0 5 "/" "/proc" true [] [] "proc" "proc" "rw"].
Example parse_sample :
  parseMountInfo (kernel_table sample_mounts) = Ok (observe <$> reverse sample_mounts)
  ∧ parseMountInfo (kernel_table (sample_mounts ++ sample_mounts)) = Err ErrDuplicate
  ∧ parseMountInfo "" = Err ErrEmpty.
Proof. vm_compute. repeat split; reflexivity. Qed.
End MountInfo.
