(* ===== verification/BlockTopology.v ===== *)
(** * Block devices and their dependencies: [mounts.go], [storage_source_set.go]

    The inventory is a list of observed block nodes: whole devices, partitions
    with their parent, and stacked devices with their lower devices.  Two
    depth-first searches decide on it: [validateObservedStorageTopology] refuses
    cycles and missing nodes, [observedBlockNodeDependsOnWholeDisk] says whether a
    node is backed by a disk.  The closures of the source capture two maps; here
    the set of nodes being visited is an argument, since the source restores it on
    return, and the set of finished nodes is threaded through. *)

From S2P Require Import Prelude GoStrings GoPath MountInfo.

Module BlockTopology.
Import GoPath MountInfo.

Definition maxBlockEntries : Z := 32.
Definition maxSysfsBlockLinkBytes : Z := 4096.
Definition linuxSysfsSectorBytes : Z := 512.

(** ** [storage.go] *)
Inductive identityStatus := identityUnavailable | identityPresent | identityInvalid | identityAmbiguous | identityUnreadable | identityZero.
#[export] Instance identityStatus_eq_dec : EqDecision identityStatus. Proof. solve_decision. Defined.

Record blockTopologyRef := mkRef {
  tr_Name : string; tr_Kind : string; tr_Major : Z; tr_Minor : Z; tr_DiskSequence : Z }.
#[export] Instance blockTopologyRef_eq_dec : EqDecision blockTopologyRef. Proof. solve_decision. Defined.

Record blockObservation := mkBlock {
  bo_Name : string; bo_Kind : string; bo_Major : Z; bo_Minor : Z; bo_SizeBytes : Z; bo_ReadOnly : bool; bo_Removable : bool;
  bo_PartitionNumber : Z; bo_partitionStart512B : Z; bo_ParentName : string; bo_ParentMajor : option Z;
  bo_ParentMinor : option Z; bo_SerialStatus : identityStatus; bo_WWNStatus : identityStatus; bo_serialEvidence : list Z;
  bo_wwnEvidence : list Z; bo_diskSequence : Z; bo_parentDiskSeq : Z; bo_sysfsTarget : string;
  bo_lowerBlocks : list blockTopologyRef }.
#[export] Instance blockObservation_eq_dec : EqDecision blockObservation. Proof. solve_decision. Defined.

Definition inventory : Type := list blockObservation.

(** [byName], filled in the order of the inventory *)
Definition by_name (inv : inventory) : gmap string blockObservation :=
  fold_left (λ m o, <[bo_Name o := o]> m) inv ∅.

(** ** [mounts.go] *)
Definition sameBlockTopologyIdentity (a b : blockObservation) : bool :=
  (bo_Name a == bo_Name b) && (bo_Kind a == bo_Kind b) && (bo_Major a =? bo_Major b) && (bo_Minor a =? bo_Minor b)
  && (bo_diskSequence a =? bo_diskSequence b).
Definition sameTopologyReference (o : blockObservation) (r : blockTopologyRef) : bool :=
  (bo_Name o == tr_Name r) && (bo_Kind o == tr_Kind r) && (bo_Major o =? tr_Major r) && (bo_Minor o =? tr_Minor r)
  && (bo_diskSequence o =? tr_DiskSequence r).

Inductive topology_error :=
| ErrInput | ErrNotUnique | ErrUnnamed | ErrDuplicateName | ErrNotObserved | ErrDiskNotObserved | ErrGeneration | ErrCycle
| ErrNoParent | ErrParentChanged | ErrNodeType | ErrSlave | ErrSlaveChanged | ErrManyBlocks | ErrOrphanMount | ErrMissing
| ErrOutOfFuel.
#[export] Instance topology_error_eq_dec : EqDecision topology_error. Proof. solve_decision. Defined.

Section depends.
Context (byName : gmap string blockObservation) (disk : blockObservation).

(** the loop over the slaves of one node; [visit] is the recursive call *)
Fixpoint visit_lowers (visit : gset string → blockObservation → res topology_error (bool * gset string))
  (seenLower visited : gset string) (refs : list blockTopologyRef) : res topology_error (bool * gset string) :=
  match refs with
  | [] => Ok (false, visited)
  | reference :: refs' =>
    refuse (tr_Name reference == EmptyString) || (tr_Name reference ∈? seenLower) => ErrSlave ;;
    match byName !! tr_Name reference with
    | None => Err ErrSlaveChanged
    | Some lower =>
      refuse negb (sameTopologyReference lower reference) => ErrSlaveChanged ;;
      '(found, visited) ← visit visited lower;
      if found : bool then Ok (true, visited) else visit_lowers visit ({[tr_Name reference]} ∪ seenLower) visited refs'
    end
  end.

(** the parent of a partition, or the checks on another node *)
Definition visit_parent (visit : gset string → blockObservation → res topology_error (bool * gset string))
  (visited : gset string) (current : blockObservation) : res topology_error (bool * gset string) :=
  if bo_Kind current == "partition" then
    match bo_ParentMajor current, bo_ParentMinor current with
    | Some parentMajor, Some parentMinor =>
      refuse (bo_ParentName current == EmptyString) || (bo_parentDiskSeq current =? 0) => ErrNoParent ;;
      match byName !! bo_ParentName current with
      | None => Err ErrParentChanged
      | Some parent =>
        refuse (bo_Kind parent != "block") || negb (bo_Major parent =? parentMajor) || negb (bo_Minor parent =? parentMinor)
               || negb (bo_diskSequence parent =? bo_parentDiskSeq current) => ErrParentChanged ;;
        visit visited parent
      end
    | _, _ => Err ErrNoParent
    end
  else
    refuse (bo_Kind current != "block") || (bo_diskSequence current =? 0) => ErrNodeType ;;
    Ok (false, visited).

Fixpoint depends (fuel : nat) (visiting visited : gset string) (current : blockObservation) :
  res topology_error (bool * gset string) :=
  match fuel with
  | O => Err ErrOutOfFuel
  | S fuel' =>
    if bo_Name current == bo_Name disk then
      refuse negb (sameBlockTopologyIdentity current disk) => ErrGeneration ;;
      Ok (true, visited)
    else
      refuse bo_Name current ∈? visiting => ErrCycle ;;
      if bo_Name current ∈? visited then Ok (false, visited)
      else
        let visit := depends fuel' ({[bo_Name current]} ∪ visiting) in
        '(found, visited) ← visit_parent visit visited current;
        if found : bool then Ok (true, visited)
        else
          '(found, visited) ← visit_lowers visit ∅ visited (bo_lowerBlocks current);
          if found : bool then Ok (true, visited) else Ok (false, {[bo_Name current]} ∪ visited)
  end.
End depends.

Definition name_step (m : gmap string blockObservation) (o : blockObservation) :
  res topology_error (gmap string blockObservation) :=
  refuse bo_Name o == EmptyString => ErrUnnamed ;;
  refuse bool_decide (is_Some (m !! bo_Name o)) => ErrDuplicateName ;;
  Ok (<[bo_Name o := o]> m).

Definition observedBlockNodeDependsOnWholeDisk (node disk : blockObservation) (inv : inventory) : res topology_error bool :=
  byName ← for_range (λ _, name_step) 0 ∅ inv;
  match byName !! bo_Name node with
  | None => Err ErrNotObserved
  | Some observed =>
    refuse negb (sameBlockTopologyIdentity observed node) => ErrNotObserved ;;
    match byName !! bo_Name disk with
    | None => Err ErrDiskNotObserved
    | Some observed =>
      refuse (bo_Kind observed != "block") || negb (sameBlockTopologyIdentity observed disk) => ErrDiskNotObserved ;;
      '(found, _) ← depends byName disk (S (length inv)) ∅ ∅ node;
      Ok found
    end
  end.

Definition is_disk (disk o : blockObservation) : bool :=
  (bo_Name o == bo_Name disk) && (bo_Kind o == "block") && (bo_Major o =? bo_Major disk) && (bo_Minor o =? bo_Minor disk)
  && (bo_diskSequence o =? bo_diskSequence disk).
(** the nodes with the device number of a mount *)
Definition mount_nodes (inv : inventory) (m : mountObservation) : list blockObservation :=
  filter (λ o, (bo_Major o =? mo_DeviceMajor m) && (bo_Minor o =? mo_DeviceMinor m) = true) inv.

Fixpoint mounts_loop (disk : blockObservation) (inv : inventory) (mounts : list mountObservation) : res topology_error bool :=
  match mounts with
  | [] => Ok false
  | mount :: mounts' =>
    match mount_nodes inv mount with
    | [] => refuse negb (mo_DeviceMajor mount =? 0) => ErrOrphanMount ;; mounts_loop disk inv mounts'
    | [matched] =>
      found ← observedBlockNodeDependsOnWholeDisk matched disk inv;
      if found : bool then Ok true else mounts_loop disk inv mounts'
    | _ => Err ErrManyBlocks
    end
  end.

Definition observedWholeDiskHasVisibleDependentMount (disk : blockObservation) (inv : slice blockObservation)
  (mounts : slice mountObservation) : res topology_error bool :=
  refuse (bo_Kind disk != "block") || (bo_diskSequence disk =? 0) || ((bo_Major disk =? 0) && (bo_Minor disk =? 0))
         || is_nil inv || is_nil mounts => ErrInput ;;
  refuse negb (len (filter (λ o, is_disk disk o = true) (elems inv)) =? 1) => ErrNotUnique ;;
  mounts_loop disk (elems inv) (elems mounts).

(** ** [storage_source_set.go]: the search for cycles

    [state] maps a name to 1 while it is visited and to 2 when it is done. *)
Section validate.
Context (byName : gmap string blockObservation).

Fixpoint visit_all (visit : gmap string Z → string → res topology_error (gmap string Z)) (state : gmap string Z)
  (names : list string) : res topology_error (gmap string Z) :=
  match names with
  | [] => Ok state
  | name :: names' => state ← visit state name; visit_all visit state names'
  end.

Fixpoint visit (fuel : nat) (state : gmap string Z) (name : string) : res topology_error (gmap string Z) :=
  match fuel with
  | O => Err ErrOutOfFuel
  | S fuel' =>
    refuse default 0 (state !! name) =? 1 => ErrCycle ;;
    if default 0 (state !! name) =? 2 then Ok state
    else match byName !! name with
    | None => Err ErrMissing
    | Some o =>
      let state := <[name := 1]> state in
      state ← (if bo_Kind o == "partition" then visit fuel' state (bo_ParentName o) else Ok state);
      state ← visit_all (visit fuel') state (tr_Name <$> bo_lowerBlocks o);
      Ok (<[name := 2]> state)
    end
  end.
End validate.

Definition validateObservedStorageTopology (inv : inventory) : res topology_error unit :=
  _ ← visit_all (visit (by_name inv) (S (length inv))) ∅ (bo_Name <$> inv);
  Ok tt.

(** ** The dependency relation *)
Lemma Acc_no_loop {A} (R : relation A) x : Acc (flip R) x → ¬ tc R x x.
Proof.
  induction 1 as [x _ IH]. intros Ht. inversion Ht as [? ? Hr|? y ? Hr Ht']; subst; [by eapply IH|].
  apply (IH y Hr). by eapply tc_r.
Qed.

Section relation.
Context (byName : gmap string blockObservation).

(** a partition stands on its parent, a stacked device on its slaves *)
Inductive backed : blockObservation → blockObservation → Prop :=
| backed_parent o p : bo_Kind o = "partition" → byName !! bo_ParentName o = Some p → backed o p
| backed_slave o r p : r ∈ bo_lowerBlocks o → byName !! tr_Name r = Some p → backed o p.

(** every chain of dependencies ends: all names are known and none repeats *)
Inductive grounded : string → Prop :=
| grounded_node n o : byName !! n = Some o → (bo_Kind o = "partition" → grounded (bo_ParentName o)) →
    (∀ r, r ∈ bo_lowerBlocks o → grounded (tr_Name r)) → grounded n.

(** the map is keyed by the names of its nodes *)
Definition keyed : Prop := ∀ n o, byName !! n = Some o → bo_Name o = n.

Lemma grounded_Acc n o : grounded n → byName !! n = Some o → Acc (flip backed) o.
Proof.
  intros Hg. revert o. induction Hg as [n o Hn Hp IHp Hr IHr]. intros o' Ho. simplify_eq. constructor.
  intros q Hq. inversion Hq as [? ? HK Hl|? r ? HR Hl]; simplify_eq; [by apply IHp|by eapply IHr].
Qed.

(** *** The search for a disk *)
Context (disk : blockObservation) (Hkey : keyed).

(** A finished set: none of its nodes is the disk and all they stand on is in it. *)
Definition finished (visited : gset string) : Prop :=
  ∀ n, n ∈ visited → n ≠ bo_Name disk ∧ ∃ o, byName !! n = Some o ∧ ∀ p, backed o p → bo_Name p ∈ visited.

(** What a search from one node, or from a list of slaves, has shown. *)
Definition reaches (o : blockObservation) : Prop := ∃ d, rtc backed o d ∧ bo_Name d = bo_Name disk.
Definition search_post (visited : gset string) (from : list blockObservation) (r : bool * gset string) : Prop :=
  if r.1 then Exists reaches from
  else visited ⊆ r.2 ∧ finished r.2 ∧ ∀ o, o ∈ from → bo_Name o ∈ r.2.

Lemma finished_unreachable visited o : finished visited → bo_Name o ∈ visited → byName !! bo_Name o = Some o → ¬ reaches o.
Proof.
  intros Hf Hin Hb (d & Hr & Hd). apply (proj1 (Hf (bo_Name d) ltac:(
    revert Hin Hb; induction Hr as [|o p d Hop Hr IH]; intros Hin Hb; [done|];
    destruct (Hf _ Hin) as (_ & o' & Ho' & Hcl); simplify_eq; apply IH; [done|by apply Hcl|];
    inversion Hop as [? ? ? Hl|? ? ? ? Hl]; subst; by rewrite (Hkey _ _ Hl)))). done.
Qed.

Section lowers.
Context (visit : gset string → blockObservation → res topology_error (bool * gset string)).
Hypothesis Hvisit : ∀ visited o r, finished visited → byName !! bo_Name o = Some o → visit visited o = Ok r →
  search_post visited [o] r.

(** the nodes a list of references stands for *)
Definition lower_nodes (refs : list blockTopologyRef) : list blockObservation := omap (λ r, byName !! tr_Name r) refs.

Lemma visit_lowers_post refs seen visited r :
  finished visited → visit_lowers byName visit seen visited refs = Ok r →
  search_post visited (lower_nodes refs) r ∧ Forall (λ x, is_Some (byName !! tr_Name x)) (if r.1 then [] else refs).
Proof.
  revert seen visited. induction refs as [|x refs IH]; intros seen visited Hf; cbn [visit_lowers].
  - intros [= <-]. split; [|constructor]. unfold search_post. cbn. split_and!; [done|done|set_solver].
  - intros [_ H]%refuse_Ok. unfold lower_nodes. cbn [omap list_omap]. fold (lower_nodes refs).
    destruct (byName !! tr_Name x) as [lower|] eqn:Hl; [|done]. apply refuse_Ok in H as [_ H].
    apply res_bind_Ok in H as ([found v] & Hv & H). apply Hvisit in Hv; [|done|by rewrite (Hkey _ _ Hl)].
    destruct found; cbn in Hv.
    + injection H as <-. split; [|constructor]. unfold search_post. cbn. apply Exists_cons in Hv as [Hv|Hv%Exists_nil]; [by left|done].
    + destruct Hv as (Hsub & Hf' & Hin). destruct (IH _ _ Hf' H) as [Hp HF]. destruct r as [b v']. unfold search_post in *. cbn in *.
      destruct b; [by split; [right|]|]. destruct Hp as (Hsub' & Hf'' & Hall). split; [|constructor; [by rewrite Hl|done]].
      split_and!; [set_solver|done|]. intros o [->|Ho]%elem_of_cons; [|by apply Hall]. apply Hsub', Hin. by left.
Qed.
End lowers.

Lemma depends_post fuel visiting visited o r :
  finished visited → byName !! bo_Name o = Some o → depends byName disk fuel visiting visited o = Ok r →
  search_post visited [o] r.
Proof.
  revert visiting visited o r. induction fuel as [|fuel IH]; intros visiting visited o r Hf Hb; [done|]. cbn [depends].
  case_bool_decide as Hd.
  - intros [_ [= <-]]%refuse_Ok. unfold search_post. cbn. left. exists o. split; [apply rtc_refl|done].
  - intros [_ H]%refuse_Ok. case_bool_decide as Hv.
    { injection H as <-. unfold search_post. cbn. split_and!; [done|done|]. by intros ? ->%list_elem_of_singleton. }
    set (rec := depends byName disk fuel _) in *.
    assert (Hrec : ∀ v o r, finished v → byName !! bo_Name o = Some o → rec v o = Ok r → search_post v [o] r).
    { intros v o' r' ? ? ?. by eapply IH. }
    apply res_bind_Ok in H as ([found v1] & Hpar & H). unfold visit_parent in Hpar.
    assert (Hpost : search_post visited (if decide (bo_Kind o = "partition") then
                      match byName !! bo_ParentName o with Some p => [p] | None => [] end else []) (found, v1)
                    ∧ (bo_Kind o = "partition" → is_Some (byName !! bo_ParentName o))).
    { case_bool_decide as Hk; destruct (decide (bo_Kind o = "partition")); try done.
      - destruct (bo_ParentMajor o), (bo_ParentMinor o); try done. apply refuse_Ok in Hpar as [_ Hpar].
        destruct (byName !! bo_ParentName o) as [p|] eqn:Hp; [|done]. apply refuse_Ok in Hpar as [_ Hpar]. split; [|done].
        apply Hrec in Hpar; [done|done|by rewrite (Hkey _ _ Hp)].
      - apply refuse_Ok in Hpar as [_ [= <- <-]]. split; [|done]. unfold search_post. cbn. split_and!; [done|done|set_solver]. }
    clear Hpar. destruct Hpost as [Hpost Hsome].
    assert (Hparent : ∀ p, p ∈ (if decide (bo_Kind o = "partition") then
        match byName !! bo_ParentName o with Some p => [p] | None => [] end else []) → backed o p).
    { intros p Hp. case_decide; [|set_solver]. destruct (byName !! bo_ParentName o) eqn:E; [|set_solver].
      apply list_elem_of_singleton in Hp as ->. by apply backed_parent. }
    assert (Hlow : ∀ p, p ∈ lower_nodes (bo_lowerBlocks o) → backed o p).
    { intros p Hp. apply list_elem_of_omap in Hp as (x & Hx & Hp). by eapply backed_slave. }
    assert (Hup : ∀ l, (∀ p, p ∈ l → backed o p) → Exists reaches l → reaches o).
    { intros l Hl (p & Hp & d & Hr & Hn)%Exists_exists. exists d. split; [|done]. eapply rtc_l; [|exact Hr]. auto. }
    destruct found; unfold search_post in Hpost; cbn in Hpost.
    { injection H as <-. unfold search_post. cbn. left. eauto. }
    destruct Hpost as (Hsub1 & Hf1 & Hin1). apply res_bind_Ok in H as ([found v2] & Hl & H).
    apply (visit_lowers_post rec Hrec) in Hl as [Hl HF]; [|done]. unfold search_post in Hl |- *.
    destruct found; cbn in Hl, H, HF; injection H as <-; cbn; [left; eauto|].
    destruct Hl as (Hsub2 & Hf2 & Hin2). split_and!; [set_solver| |set_solver].
    intros n [->%elem_of_singleton|Hn]%elem_of_union.
    + split; [done|]. exists o. split; [done|]. intros p Hp. apply elem_of_union_r.
      inversion Hp as [? ? HK Hlk|? x ? HR Hlk]; subst.
      * apply Hsub2, Hin1. rewrite decide_True, Hlk by done. by left.
      * apply Hin2. apply list_elem_of_omap. eauto.
    + destruct (Hf2 n Hn) as (Hnd & o' & Ho' & Hcl). split; [done|]. exists o'. split; [done|]. set_solver.
Qed.

(** *** The search ends *)
Definition unvisited (visiting : gset string) : gset string := dom byName ∖ visiting.
Lemma unvisited_smaller visiting n : n ∈ dom byName → n ∉ visiting →
  (size (unvisited ({[n]} ∪ visiting)) < size (unvisited visiting))%nat.
Proof. intros Hd Hn. apply subset_size. unfold unvisited. set_solver. Qed.

Lemma visit_lowers_fuel visit refs seen visited :
  (∀ v o, byName !! bo_Name o = Some o → visit v o ≠ Err ErrOutOfFuel) →
  visit_lowers byName visit seen visited refs ≠ Err ErrOutOfFuel.
Proof.
  intros Hv. revert seen visited. induction refs as [|x refs IH]; intros seen visited; [done|]. cbn [visit_lowers].
  destruct (_ || _); [done|]. destruct (byName !! tr_Name x) as [l|] eqn:Hl; [|done]. destruct (negb _); [done|].
  specialize (Hv visited l ltac:(by rewrite (Hkey _ _ Hl))).
  destruct (visit visited l) as [[[|] v]|e]; cbn [mbind res_bind]; [done|apply IH|congruence].
Qed.
Lemma depends_fuel fuel visiting visited o :
  byName !! bo_Name o = Some o → (size (unvisited visiting) < fuel)%nat →
  depends byName disk fuel visiting visited o ≠ Err ErrOutOfFuel.
Proof.
  revert visiting visited o. induction fuel as [|fuel IH]; intros visiting visited o Hb Hs; [lia|]. cbn [depends].
  case_bool_decide; [by destruct (negb _)|]. case_bool_decide as Hin; [done|]. case_bool_decide; [done|].
  assert (Hrec : ∀ v o', byName !! bo_Name o' = Some o' → depends byName disk fuel ({[bo_Name o]} ∪ visiting) v o' ≠ Err ErrOutOfFuel).
  { intros v o' Ho'. apply IH; [done|]. assert (Hd : bo_Name o ∈ dom byName) by (by apply elem_of_dom_2 in Hb).
    pose proof (unvisited_smaller visiting _ Hd Hin). lia. }
  set (rec := depends byName disk fuel _) in *.
  assert (Hp : visit_parent byName rec visited o ≠ Err ErrOutOfFuel).
  { unfold visit_parent. case_bool_decide; [|by destruct (_ || _)]. destruct (bo_ParentMajor o), (bo_ParentMinor o); try done.
    destruct (_ || _); [done|]. destruct (byName !! bo_ParentName o) as [p|] eqn:E; [|done]. destruct (_ || _); [done|].
    apply Hrec. by rewrite (Hkey _ _ E). }
  destruct (visit_parent byName rec visited o) as [[[|] v]|e]; cbn [mbind res_bind]; [done| |congruence].
  pose proof (visit_lowers_fuel rec (bo_lowerBlocks o) ∅ v Hrec) as Hl.
  destruct (visit_lowers byName rec ∅ v (bo_lowerBlocks o)) as [[[|] v']|e]; cbn [mbind res_bind]; done || congruence.
Qed.

(** *** The search for cycles *)

(** Along the search: names marked 2 are grounded, and the marks 1 are those of the
    path from the root. *)
Definition marks_ok (state : gmap string Z) : Prop := ∀ n, state !! n = Some 2 → grounded n.
Definition marked_by (state state' : gmap string Z) : Prop :=
  marks_ok state' ∧ (∀ n, state' !! n = Some 1 ↔ state !! n = Some 1) ∧ (∀ n, state !! n = Some 2 → state' !! n = Some 2).
Lemma marked_by_trans a b c : marked_by a b → marked_by b c → marked_by a c.
Proof. intros (? & H1 & ?) (? & H2 & ?). split_and!; [done| |auto]. intros n. by rewrite H2, H1. Qed.

Lemma visit_all_sound visit names state state' :
  (∀ st n st', marks_ok st → visit st n = Ok st' → marked_by st st' ∧ st' !! n = Some 2) →
  marks_ok state → visit_all visit state names = Ok state' →
  marked_by state state' ∧ Forall (λ n, state' !! n = Some 2) names.
Proof.
  intros Hv. revert state. induction names as [|n names IH]; intros state Hm; cbn [visit_all].
  - intros [= <-]. split; [|constructor]. by split_and!.
  - intros (st & Hst & H)%res_bind_Ok. destruct (Hv _ _ _ Hm Hst) as [Hb Hn]. destruct (IH st (proj1 Hb) H) as [Hb' HF].
    split; [by eapply marked_by_trans|]. constructor; [|done]. by apply Hb'.
Qed.

Lemma visit_sound fuel state n state' :
  marks_ok state → visit byName fuel state n = Ok state' → marked_by state state' ∧ state' !! n = Some 2.
Proof.
  revert state n state'. induction fuel as [|fuel IH]; intros state n state' Hm; [done|]. cbn [visit].
  intros [H1 H]%refuse_Ok. apply Z.eqb_neq in H1. destruct (Z.eqb_spec (default 0 (state !! n)) 2) as [H2|H2].
  { injection H as <-. destruct (state !! n) eqn:E; cbn in H2; [subst|done]. by split_and!. }
  destruct (byName !! n) as [o|] eqn:Ho; [|done]. apply res_bind_Ok in H as (st1 & Hp & H). apply res_bind_Ok in H as (st2 & Hl & [= <-]).
  assert (Hm0 : marks_ok (<[n := 1]> state)).
  { intros m [[<- ?]|[? ?]]%lookup_insert_Some; [done|]. by apply Hm. }
  assert (Hpar : marked_by (<[n := 1]> state) st1 ∧ (bo_Kind o = "partition" → st1 !! bo_ParentName o = Some 2)).
  { case_bool_decide; [destruct (IH _ _ _ Hm0 Hp); auto|]. injection Hp as <-. split; [by split_and!|done]. }
  destruct Hpar as [Hb1 Hp1]. destruct (visit_all_sound _ _ _ _ (λ st n st' Hm, IH st n st' Hm) (proj1 Hb1) Hl) as [Hb2 HF].
  pose proof (marked_by_trans _ _ _ Hb1 Hb2) as (Hg & Hone & Htwo). rewrite Forall_forall in HF.
  split; [|apply lookup_insert_eq]. split_and!.
  - intros m [[<- _]|[_ Hm2]]%lookup_insert_Some; [|by apply Hg]. apply (grounded_node n o Ho).
    + intros Hk. apply Hg, Hb2, Hp1, Hk.
    + intros r Hr. apply Hg, HF. by apply list_elem_of_fmap_2.
  - intros m. destruct (decide (m = n)) as [->|Hne].
    + rewrite lookup_insert_eq. split; [done|]. intros E. by rewrite E in H1.
    + by rewrite lookup_insert_ne, Hone, lookup_insert_ne.
  - intros m E. destruct (decide (m = n)) as [->|Hne]; [apply lookup_insert_eq|]. rewrite lookup_insert_ne by done.
    apply Htwo. by rewrite lookup_insert_ne.
Qed.

(** The marks 1 are the names of [path], whose nodes all lead to [n]. *)
Definition on_path (state : gmap string Z) (path : gset string) : Prop := ∀ m, state !! m = Some 1 ↔ m ∈ path.
Definition leads_to (path : gset string) (n : string) : Prop :=
  ∀ m, m ∈ path → ∃ om o, byName !! m = Some om ∧ byName !! n = Some o ∧ tc backed om o.
Lemma on_path_marked state state' path : on_path state path → marked_by state state' → on_path state' path.
Proof. intros Hp (_ & Hone & _) m. by rewrite Hone. Qed.

Lemma visit_all_complete visit path names state :
  (∀ st n, n ∈ names → marks_ok st → on_path st path → ∃ st', visit st n = Ok st' ∧ marked_by st st') →
  marks_ok state → on_path state path → ∃ state', visit_all visit state names = Ok state'.
Proof.
  revert state. induction names as [|n names IH]; intros state Hv Hm Hp; cbn [visit_all]; [by eexists|].
  destruct (Hv state n ltac:(left) Hm Hp) as (st & -> & Hb). cbn [mbind res_bind]. apply IH; [|by apply Hb|by eapply on_path_marked].
  intros st' m Hin. apply Hv. by right.
Qed.

Lemma visit_complete fuel path state n :
  grounded n → leads_to path n → marks_ok state → on_path state path → (size (unvisited path) < fuel)%nat →
  ∃ state', visit byName fuel state n = Ok state'.
Proof.
  revert path state n. induction fuel as [|fuel IH]; intros path state n Hg Hlead Hm Hp Hs; [lia|]. cbn [visit].
  destruct Hg as [n o Ho Hpar Hlow] eqn:Eg. pose proof (grounded_Acc n o Hg Ho) as Hacc. clear Eg Hg.
  assert (Hnp : n ∉ path).
  { intros Hin. destruct (Hlead n Hin) as (om & o' & H1 & H2 & Ht). simplify_eq. by eapply Acc_no_loop. }
  destruct (Z.eqb_spec (default 0 (state !! n)) 1) as [H1|H1].
  { exfalso. apply Hnp, Hp. destruct (state !! n) eqn:E; cbn in H1; [by subst|done]. }
  destruct (Z.eqb_spec (default 0 (state !! n)) 2) as [H2|H2]; [by eexists|]. rewrite Ho.
  assert (Hm0 : marks_ok (<[n := 1]> state)).
  { intros m [[<- ?]|[? ?]]%lookup_insert_Some; [done|]. by apply Hm. }
  assert (Hp0 : on_path (<[n := 1]> state) ({[n]} ∪ path)).
  { intros m. destruct (decide (m = n)) as [->|Hne]; [rewrite lookup_insert_eq; set_solver|].
    rewrite lookup_insert_ne by done. rewrite (Hp m). set_solver. }
  assert (Hsize : (size (unvisited ({[n]} ∪ path)) < fuel)%nat).
  { assert (Hd : n ∈ dom byName) by (by apply elem_of_dom_2 in Ho). pose proof (unvisited_smaller path n Hd Hnp). lia. }
  (* one step further along the path *)
  assert (Hnext : ∀ k, grounded k → (∀ q, byName !! k = Some q → backed o q) →
    ∀ st, marks_ok st → on_path st ({[n]} ∪ path) → ∃ st', visit byName fuel st k = Ok st' ∧ marked_by st st').
  { intros k Hk Hq st Hms Hps. destruct (IH ({[n]} ∪ path) st k Hk) as (st' & Hst'); try done.
    - destruct Hk as [k q Hkq _ _]. intros m [->%elem_of_singleton|Hin]%elem_of_union.
      + exists o, q. split_and!; [done|done|]. apply tc_once. auto.
      + destruct (Hlead m Hin) as (om & o' & E1 & E2 & Ht). simplify_eq. exists om, q. split_and!; [done|done|].
        eapply tc_r; [exact Ht|]. auto.
    - exists st'. split; [done|]. by eapply visit_sound. }
  assert (Hst1 : ∃ st1, (if bo_Kind o == "partition" then visit byName fuel (<[n := 1]> state) (bo_ParentName o)
                         else Ok (<[n := 1]> state)) = Ok st1 ∧ marked_by (<[n := 1]> state) st1).
  { case_bool_decide as Hk; [|eexists; split; [done|by split_and!]].
    apply (Hnext (bo_ParentName o)); [auto| |done|done]. intros q Hq. by apply backed_parent. }
  destruct Hst1 as (st1 & -> & Hb1). cbn [mbind res_bind].
  destruct (visit_all_complete (visit byName fuel) ({[n]} ∪ path) (tr_Name <$> bo_lowerBlocks o) st1) as (st2 & ->).
  - intros st k (r & -> & Hr)%list_elem_of_fmap. apply Hnext; [auto|]. intros q Hq. by eapply backed_slave.
  - apply Hb1.
  - by eapply on_path_marked.
  - by eexists.
Qed.
(** The fuel never runs out: each call below another marks one more node as being visited. *)
Lemma visit_all_fuel visit path names state :
  (∀ st n, marks_ok st → on_path st path → visit st n ≠ Err ErrOutOfFuel ∧ ∀ st', visit st n = Ok st' → marked_by st st') →
  marks_ok state → on_path state path → visit_all visit state names ≠ Err ErrOutOfFuel.
Proof.
  intros Hv. revert state. induction names as [|n names IH]; intros state Hm Hp; cbn [visit_all]; [done|].
  destruct (Hv state n Hm Hp) as [Hf Hb]. destruct (visit state n) as [st|e]; cbn [mbind res_bind]; [|congruence].
  specialize (Hb st eq_refl). apply IH; [apply Hb|by eapply on_path_marked].
Qed.
Lemma visit_fuel fuel path state n :
  marks_ok state → on_path state path → (size (unvisited path) < fuel)%nat → visit byName fuel state n ≠ Err ErrOutOfFuel.
Proof.
  revert path state n. induction fuel as [|fuel IH]; intros path state n Hm Hp Hs; [lia|]. cbn [visit].
  destruct (Z.eqb_spec (default 0 (state !! n)) 1) as [H1|H1]; [done|]. destruct (_ =? 2); [done|].
  destruct (byName !! n) as [o|] eqn:Ho; [|done].
  assert (Hnp : n ∉ path) by (intros Hin%Hp; by rewrite Hin in H1).
  assert (Hm0 : marks_ok (<[n := 1]> state)) by (intros m [[<- ?]|[? ?]]%lookup_insert_Some; [done|by apply Hm]).
  assert (Hp0 : on_path (<[n := 1]> state) ({[n]} ∪ path)).
  { intros m. destruct (decide (m = n)) as [->|Hne]; [rewrite lookup_insert_eq; set_solver|].
    rewrite lookup_insert_ne by done. rewrite (Hp m). set_solver. }
  assert (Hsize : (size (unvisited ({[n]} ∪ path)) < fuel)%nat).
  { assert (Hd : n ∈ dom byName) by (by apply elem_of_dom_2 in Ho). pose proof (unvisited_smaller path n Hd Hnp). lia. }
  assert (Hrec : ∀ st k, marks_ok st → on_path st ({[n]} ∪ path) → visit byName fuel st k ≠ Err ErrOutOfFuel ∧ ∀ st', visit byName fuel st k = Ok st' → marked_by st st').
  { intros st k Hms Hps. split; [by apply (IH ({[n]} ∪ path))|]. intros st' Hst'. by eapply visit_sound. }
  assert (Hpar : (if bo_Kind o == "partition" then visit byName fuel (<[n := 1]> state) (bo_ParentName o) else Ok (<[n := 1]> state)) ≠ Err ErrOutOfFuel
    ∧ ∀ st, (if bo_Kind o == "partition" then visit byName fuel (<[n := 1]> state) (bo_ParentName o) else Ok (<[n := 1]> state)) = Ok st → marked_by (<[n := 1]> state) st).
  { destruct (bo_Kind o == "partition"); [by apply Hrec|]. split; [done|]. intros st [= <-]. by split_and!. }
  destruct Hpar as [Hpf Hpb]. destruct (if bo_Kind o == "partition" then _ else _) as [st1|e]; cbn [mbind res_bind]; [|congruence]. specialize (Hpb st1 eq_refl).
  pose proof (visit_all_fuel (visit byName fuel) ({[n]} ∪ path) (tr_Name <$> bo_lowerBlocks o) st1 Hrec ltac:(apply Hpb) ltac:(by eapply on_path_marked)) as Hl.
  destruct (visit_all _ st1 _); cbn [mbind res_bind]; [done|congruence].
Qed.
End relation.

(** ** The map of names *)
Lemma by_name_keyed inv : keyed (by_name inv).
Proof.
  unfold by_name, keyed. assert (H : ∀ m : gmap string blockObservation, (∀ n o, m !! n = Some o → bo_Name o = n) →
    ∀ n o, fold_left (λ m o, <[bo_Name o := o]> m) inv m !! n = Some o → bo_Name o = n); [|apply H; intros ? ?; by rewrite lookup_empty].
  induction inv as [|x inv IH]; intros m Hm; [done|]. cbn [fold_left]. apply IH.
  intros n o [[<- <-]|[_ Ho]]%lookup_insert_Some; [done|auto].
Qed.
Lemma by_name_lookup inv n o : NoDup (bo_Name <$> inv) → by_name inv !! n = Some o ↔ o ∈ inv ∧ bo_Name o = n.
Proof.
  intros HN. unfold by_name. rewrite (fold_insert_lookup bo_Name (λ o, o)) by done. rewrite lookup_empty. naive_solver.
Qed.
Lemma by_name_dom inv : dom (by_name inv) = list_to_set (bo_Name <$> inv).
Proof.
  unfold by_name. assert (H : ∀ m : gmap string blockObservation,
    dom (fold_left (λ m o, <[bo_Name o := o]> m) inv m) = list_to_set (bo_Name <$> inv) ∪ dom m).
  { induction inv as [|x inv IH]; intros m; cbn [fold_left fmap list_fmap list_to_set]; [set_solver|].
    rewrite IH, dom_insert_L. set_solver. }
  rewrite H, dom_empty_L. set_solver.
Qed.
Lemma by_name_size inv path : (size (unvisited (by_name inv) path) < S (length inv))%nat.
Proof.
  unfold unvisited. rewrite by_name_dom.
  assert (H : (size (list_to_set (bo_Name <$> inv) ∖ path : gset string) ≤ size (list_to_set (bo_Name <$> inv) : gset string))%nat)
    by (apply subseteq_size; set_solver).
  pose proof (size_list_to_set_le (bo_Name <$> inv)) as H'. rewrite length_fmap in H'. lia.
Qed.

Lemma names_Ok inv m :
  for_range (λ _, name_step) 0 ∅ inv = Ok m ↔
  Forall (λ o, bo_Name o ≠ EmptyString) inv ∧ NoDup (bo_Name <$> inv) ∧ m = by_name inv.
Proof.
  rewrite (for_range_chain (λ m o, <[bo_Name o := o]> m) (λ _, name_step) (λ o, bo_Name o ≠ EmptyString)
             (λ m o, bo_Name o ∉ (dom m : gset string))).
  - rewrite (chain_key (λ m o, <[bo_Name o := o]> m) dom bo_Name) by (intros; by rewrite dom_insert_L). rewrite dom_empty_L.
    unfold by_name. split; [naive_solver|]. intros (? & ? & ?). by split_and!.
  - intros j st x st'. unfold name_step. rewrite !refuse_Ok, !bool_decide_eq_false. rewrite <- elem_of_dom. naive_solver.
Qed.

Lemma names_fuel i m inv : for_range (λ _, name_step) i m inv ≠ Err ErrOutOfFuel.
Proof.
  revert i m. induction inv as [|x inv IH]; intros i m; cbn [for_range]; [done|]. unfold name_step at 1.
  destruct (_ == _); [done|]. destruct (bool_decide _); [done|]. apply IH.
Qed.

Lemma validate_grounded inv :
  validateObservedStorageTopology inv = Ok tt ↔ ∀ o, o ∈ inv → grounded (by_name inv) (bo_Name o).
Proof.
  assert (Hempty : marks_ok (by_name inv) ∅) by (intros n; by rewrite lookup_empty).
  unfold validateObservedStorageTopology. split.
  - intros (st & Hst & _)%res_bind_Ok o Ho.
    apply (visit_all_sound (by_name inv)) in Hst as [Hb HF]; [|intros ? ? ? ? ?; by eapply visit_sound|done].
    rewrite Forall_forall in HF. apply Hb, HF. by apply list_elem_of_fmap_2.
  - intros Hall. destruct (visit_all_complete (by_name inv) (visit (by_name inv) (S (length inv))) ∅ (bo_Name <$> inv) ∅)
      as (st & Hst); [|done|intros m; rewrite lookup_empty; set_solver|by rewrite Hst].
    intros st n (o & -> & Ho)%list_elem_of_fmap Hm Hp.
    destruct (visit_complete (by_name inv) (by_name_keyed inv) (S (length inv)) ∅ st (bo_Name o)) as (st' & Hst');
      auto using by_name_size; [set_solver|].
    exists st'. split; [done|]. by eapply visit_sound.
Qed.

Lemma validate_fuel inv : validateObservedStorageTopology inv ≠ Err ErrOutOfFuel.
Proof.
  assert (Hempty : marks_ok (by_name inv) ∅) by (intros n; by rewrite lookup_empty).
  assert (Hpath : on_path ∅ ∅) by (intros m; rewrite lookup_empty; set_solver). unfold validateObservedStorageTopology.
  pose proof (visit_all_fuel (by_name inv) (visit (by_name inv) (S (length inv))) ∅ (bo_Name <$> inv) ∅) as Hf.
  destruct (visit_all _ ∅ _) as [st|e]; cbn [mbind res_bind]; [done|]. enough (Err (A := gmap string Z) e ≠ Err ErrOutOfFuel) by congruence. apply Hf; [|done..].
  intros st n Hm Hp. split; [|intros st' Hst'; by eapply visit_sound].
  apply (visit_fuel (by_name inv) (by_name_keyed inv) _ ∅ st n Hm Hp), by_name_size.
Qed.

(** ** Properties *)

(** C38: the check of the topology is exact, and the search always ends: on every
    inventory, cyclic or not, it returns before the fuel is spent, which bounds the
    depth of the recursion by the number of nodes.
    [validateObservedStorageTopology] accepts an inventory exactly when every node
    is grounded: each chain from a partition to its parent and from a stacked
    device to its slaves goes through observed nodes and ends.  Then no node
    stands on itself. *)
Theorem validateObservedStorageTopology_exact inv :
  validateObservedStorageTopology inv ≠ Err ErrOutOfFuel
  ∧ (validateObservedStorageTopology inv = Ok tt ↔ ∀ o, o ∈ inv → grounded (by_name inv) (bo_Name o))
  ∧ (validateObservedStorageTopology inv = Ok tt → ∀ n o, by_name inv !! n = Some o → ¬ tc (backed (by_name inv)) o o).
Proof.
  split; [apply validate_fuel|]. split; [apply validate_grounded|]. intros Hv n o Ho. apply Acc_no_loop. eapply grounded_Acc; [|exact Ho].
  assert (Hn : n ∈ dom (by_name inv)) by (by apply elem_of_dom_2 in Ho). rewrite by_name_dom in Hn.
  apply elem_of_list_to_set, list_elem_of_fmap in Hn as (x & -> & Hx). by apply validate_grounded.
Qed.

(** A node of the inventory stands on the disk. *)
Definition stands_on (inv : inventory) (o disk : blockObservation) : Prop :=
  ∃ d, rtc (backed (by_name inv)) o d ∧ bo_Name d = bo_Name disk.

Lemma dependsOnWholeDisk_spec node disk inv : node ∈ inv →
  observedBlockNodeDependsOnWholeDisk node disk inv ≠ Err ErrOutOfFuel
  ∧ ∀ b, observedBlockNodeDependsOnWholeDisk node disk inv = Ok b →
    NoDup (bo_Name <$> inv) ∧ if b then stands_on inv node disk else ¬ stands_on inv node disk.
Proof.
  intros Hin. unfold observedBlockNodeDependsOnWholeDisk.
  destruct (for_range (λ _, name_step) 0 ∅ inv) as [m|e] eqn:Hm; cbn [mbind res_bind].
  2:{ split; [|done]. intros [= ->]. by eapply names_fuel. }
  apply names_Ok in Hm as (_ & HN & ->).
  assert (Hl : by_name inv !! bo_Name node = Some node) by (by apply by_name_lookup). rewrite Hl.
  destruct (negb _); [done|]. destruct (by_name inv !! bo_Name disk); [|done]. destruct (_ || _); [done|].
  pose proof (depends_fuel (by_name inv) disk (by_name_keyed inv) (S (length inv)) ∅ ∅ node Hl (by_name_size inv ∅)) as Hfuel.
  destruct (depends _ _ _ _ _ _) as [[found v]|e] eqn:Hd; cbn [mbind res_bind]; [|split; [congruence|done]].
  split; [done|]. intros b' [= <-]. split; [done|].
  apply depends_post in Hd; [|apply by_name_keyed|by intros ? ?%not_elem_of_empty|done].
  unfold search_post in Hd. cbn in Hd. destruct found.
  - apply Exists_cons in Hd as [(d & Hr & Hd)|Hd%Exists_nil]; [|done]. by exists d.
  - destruct Hd as (_ & Hf & Hall). eapply (finished_unreachable (by_name inv) disk (by_name_keyed inv)); [exact Hf| |done].
    apply Hall. by left.
Qed.

Lemma mount_nodes_in inv m o : o ∈ mount_nodes inv m → o ∈ inv.
Proof. by intros [_ ?]%list_elem_of_filter. Qed.

Lemma mounts_loop_spec disk inv mounts b : mounts_loop disk inv mounts = Ok b →
  if b then ∃ m o, m ∈ mounts ∧ o ∈ mount_nodes inv m ∧ stands_on inv o disk
  else ∀ m o, m ∈ mounts → o ∈ mount_nodes inv m → ¬ stands_on inv o disk.
Proof.
  induction mounts as [|m mounts IH]; cbn [mounts_loop]; [intros [= <-]; set_solver|].
  destruct (mount_nodes inv m) as [|o [|]] eqn:Hn; [| |done].
  - intros [_ H%IH]%refuse_Ok. destruct b; [destruct H as (m' & o & ? & ? & ?); exists m', o; by split_and!; [right| |]|].
    intros m' o [->|Hm]%elem_of_cons Ho; [rewrite Hn in Ho; by apply not_elem_of_nil in Ho|by eapply H].
  - assert (Hin : o ∈ inv) by (apply (mount_nodes_in inv m); rewrite Hn; by left).
    destruct (dependsOnWholeDisk_spec o disk inv Hin) as [_ Hd]. intros (found & Hf & H)%res_bind_Ok. apply Hd in Hf as [_ Hf].
    destruct found.
    + injection H as <-. exists m, o. split_and!; [by left|rewrite Hn; by left|done].
    + apply IH in H. destruct b; [destruct H as (m' & o' & ? & ? & ?); exists m', o'; by split_and!; [right| |]|].
      intros m' o' [->|Hm]%elem_of_cons Ho; [|by eapply H]. rewrite Hn in Ho. by apply list_elem_of_singleton in Ho as ->.
Qed.

Lemma mounts_loop_fuel disk inv mounts : mounts_loop disk inv mounts ≠ Err ErrOutOfFuel.
Proof.
  induction mounts as [|m mounts IH]; cbn [mounts_loop]; [done|]. destruct (mount_nodes inv m) as [|o [|]] eqn:Hn; [by destruct (negb _)| |done].
  destruct (dependsOnWholeDisk_spec o disk inv (mount_nodes_in inv m o ltac:(rewrite Hn; by left))) as [Hf _].
  destruct (observedBlockNodeDependsOnWholeDisk o disk inv) as [[|]|e]; cbn [mbind res_bind]; done || congruence.
Qed.

Lemma visible_mount_spec disk inv mounts b :
  observedWholeDiskHasVisibleDependentMount disk (Some inv) (Some mounts) = Ok b →
  b = true ↔ ∃ m o, m ∈ mounts ∧ o ∈ inv ∧ bo_Major o = mo_DeviceMajor m ∧ bo_Minor o = mo_DeviceMinor m ∧ stands_on inv o disk.
Proof.
  unfold observedWholeDiskHasVisibleDependentMount. cbn [elems default from_option id].
  intros [_ H]%refuse_Ok. apply refuse_Ok in H as [_ H%mounts_loop_spec].
  assert (Hn : ∀ m o, o ∈ mount_nodes inv m ↔ o ∈ inv ∧ bo_Major o = mo_DeviceMajor m ∧ bo_Minor o = mo_DeviceMinor m).
  { intros m o. unfold mount_nodes. rewrite list_elem_of_filter, andb_true_iff, !Z.eqb_eq. tauto. }
  destruct b; split; try done.
  - intros _. destruct H as (m & o & Hm & Ho & Hs). apply Hn in Ho. exists m, o. naive_solver.
  - intros (m & o & Hm & Ho & H1 & H2 & Hs). exfalso. by apply (H m o Hm); [apply Hn|].
Qed.

(** The answer about mounts is exact.  On any inventory and mount table,
    [observedWholeDiskHasVisibleDependentMount] never runs out of steps, and when
    it answers, the answer is true exactly when some mount lies on a node that
    stands, through partitions and stacked devices, on the disk. *)
Theorem visible_dependent_mount_exact disk inv mounts :
  observedWholeDiskHasVisibleDependentMount disk (Some inv) (Some mounts) ≠ Err ErrOutOfFuel
  ∧ ∀ b, observedWholeDiskHasVisibleDependentMount disk (Some inv) (Some mounts) = Ok b →
    b = true ↔ ∃ m o, m ∈ mounts ∧ o ∈ inv ∧ bo_Major o = mo_DeviceMajor m ∧ bo_Minor o = mo_DeviceMinor m ∧ stands_on inv o disk.
Proof.
  split; [|apply visible_mount_spec]. unfold observedWholeDiskHasVisibleDependentMount. cbn [elems default from_option id].
  destruct (_ || _); [done|]. destruct (negb _); [done|]. apply mounts_loop_fuel.
Qed.
End BlockTopology.
