(* ===== verification/BlockInventory.v ===== *)
(** * The block inventory: [storage.go]

    [collectStorage] reads the fixed attributes of every node under
    [class/block], resolves partitions to their parents and stacked devices to
    their slaves, reads everything again and refuses any difference.  A sysfs is
    an arbitrary view of directories, links and files; the views the two passes
    and the last reads have of it are separate arguments, since the kernel may
    change it between reads. *)

From S2P Require Import Prelude Groups GoStrings GoPath MountInfo BlockTopology.

Module BlockInventory.
Import GoPath MountInfo BlockTopology.

Definition maxSysfsAttributeBytes : Z := 128.
Definition maxVPDPageBytes : Z := 4096.

Record storageSnapshot := mkStorage {
  ss_SchemaVersion : Z; ss_Scope : string; ss_InventoryReadOnly : bool; ss_BlockDevicesOpened : bool; ss_ContentRead : bool;
  ss_MutationsPerformed : bool; ss_StableIdentityAvailable : bool; ss_DeviceCount : Z;
  ss_Observations : slice blockObservation; ss_Limitations : list string; ss_collectionComplete : bool }.

Inductive file := NotExist | Unopenable | Opened (r : reader).
(** [fs.FS] with its directories and, when it is an [fs.ReadLinkFS], its links *)
Record Sysfs := mkSysfs {
  fs_ReadDir : string → option (list string); fs_ReadLink : option (string → option string); fs_Open : string → file }.

Inductive storage_error := ErrStorage.
#[export] Instance storage_error_eq_dec : EqDecision storage_error. Proof. solve_decision. Defined.
Inductive attribute_error := AttrNotExist | AttrFailed.
#[export] Instance attribute_error_eq_dec : EqDecision attribute_error. Proof. solve_decision. Defined.

Definition block_char (c : Z) : bool := is_lower c || is_upper c || is_digit c || in_set c "._-".
Definition validBlockName (name : string) : bool :=
  if (name == "") || (name == ".") || (name == "..") || (64 <? slength name) then false
  else forallb block_char (runes name).

(** ** Attributes *)
Definition readSysfsAttribute (source : Sysfs) (path : string) : res attribute_error string :=
  match fs_Open source path with
  | NotExist => Err AttrNotExist
  | Unopenable => Err AttrFailed
  | Opened r =>
    match limit_read (maxSysfsAttributeBytes + 1) r with
    | None => Err AttrFailed
    | Some data => refuse maxSysfsAttributeBytes <? slength data => AttrFailed ;; Ok data
    end
  end.
Definition attribute (source : Sysfs) (path : string) : res storage_error string := redact ErrStorage (readSysfsAttribute source path).

Definition readSysfsFlag (source : Sysfs) (path : string) : res storage_error bool :=
  value ← attribute source path;
  let text := TrimSpace value in
  if text == "0" then Ok false else if text == "1" then Ok true else Err ErrStorage.
Definition parseSectorCount (value : string) : option Z := ParseUint 64 (TrimSpace value).
Definition parseSectorBytes (value : string) : option Z :=
  sectors ← parseSectorCount value;
  if max_uint64 / linuxSysfsSectorBytes <? sectors then None else Some (wrap 64 (sectors * linuxSysfsSectorBytes)).
Definition readBlockDiskSequence (source : Sysfs) (path : string) : res storage_error Z :=
  value ← attribute source path;
  let value := TrimSpace value in
  refuse value == "" => ErrStorage ;;
  refuse negb (forallb is_digit (runes value)) => ErrStorage ;;
  match ParseUint 64 value with
  | Some sequence => refuse sequence =? 0 => ErrStorage ;; Ok sequence
  | None => Err ErrStorage
  end.
Definition or_fail {A} (o : option A) : res storage_error A := match o with Some a => Ok a | None => Err ErrStorage end.

(** ** Vital product data *)
Definition vpdPayload (page : list Z) (expectedCode : Z) : option (list Z) :=
  match page with
  | _ :: c :: h :: l :: payload =>
    if (maxVPDPageBytes <? len page) || negb (c =? expectedCode) then None
    else if negb (Z.lor (Z.shiftl h 8) l =? len page - 4) then None else Some payload
  | _ => None
  end.
Definition parseSerialVPDValue (page : list Z) : string * identityStatus :=
  match vpdPayload page 128 with
  | None => ("", identityInvalid)
  | Some payload =>
    if (len payload =? 0) || negb (forallb (λ b, (32 <=? b) && (b <=? 126)) payload) then ("", identityInvalid)
    else
      let value := TrimSpace (String.string_of_list_ascii ((ascii_of_N ∘ Z.to_N) <$> payload)) in
      if value == "" then ("", identityInvalid) else (value, identityPresent)
  end.
(** the loop over designation descriptors; [Err] is the early return *)
Fixpoint wwn_loop (fuel : nat) (identifiers : gset string) (payload : list Z) : res identityStatus (gset string) :=
  match fuel with
  | O => Err identityInvalid
  | S fuel' =>
    match payload with
    | [] => Ok identifiers
    | b0 :: b1 :: _ :: b3 :: rest =>
      let length := b3 in
      refuse (length =? 0) || (len rest <? length) => identityInvalid ;;
      let codeSet := Z.land b0 15 in
      let association := Z.land (Z.shiftr b1 4) 3 in
      let designatorType := Z.land b1 15 in
      let value := take (Z.to_nat length) rest in
      let next := drop (Z.to_nat length) rest in
      if (codeSet =? 1) && (association =? 0) && (designatorType =? 3) then
        let naa := Z.shiftr (default 0 (value !! 0%nat)) 4 in
        let validWidth := (((naa =? 2) || (naa =? 3) || (naa =? 5)) && (length =? 8)) || ((naa =? 6) && (length =? 16)) in
        refuse negb validWidth || forallb (Z.eqb 0) value => identityInvalid ;;
        wwn_loop fuel' ({[hex_encode value]} ∪ identifiers) next
      else wwn_loop fuel' identifiers next
    | _ => Err identityInvalid
    end
  end.
Definition parseNAAWWNPage (page : list Z) : string * identityStatus :=
  match vpdPayload page 131 with
  | None => ("", identityInvalid)
  | Some payload =>
    match wwn_loop (S (length payload)) ∅ payload with
    | Err status => ("", status)
    | Ok identifiers =>
      match elements identifiers with
      | [] => ("", identityUnavailable)
      | [value] => (String.append "naa." value, identityPresent)
      | _ => ("", identityAmbiguous)
      end
    end
  end.
Definition readSCSVPDPage (source : Sysfs) (path : string) (pageCode : Z) : list Z * identityStatus :=
  match fs_Open source path with
  | NotExist => ([], identityUnavailable)
  | Unopenable => ([], identityUnreadable)
  | Opened r =>
    match limit_read (maxVPDPageBytes + 1) r with
    | None => ([], identityUnreadable)
    | Some data =>
      if maxVPDPageBytes <? slength data then ([], identityInvalid)
      else match vpdPayload (codes data) pageCode with
           | None => ([], identityInvalid)
           | Some _ => (codes data, identityPresent)
           end
    end
  end.
Definition observeSCSISerial (source : Sysfs) (path : string) : string * identityStatus :=
  let '(page, status) := readSCSVPDPage source path 128 in
  if status != identityPresent then ("", status) else parseSerialVPDValue page.
Definition observeSCSIWWN (source : Sysfs) (path : string) : string * identityStatus :=
  let '(page, status) := readSCSVPDPage source path 131 in
  if status != identityPresent then ("", status) else parseNAAWWNPage page.

(** ** Links *)
Definition bad_link (target : string) : bool :=
  (target == "") || (maxSysfsBlockLinkBytes <? slength target) || (0 ∈? codes target) || IsAbs target.
Definition escapes (resolved name : string) : bool :=
  negb (ValidPath resolved) || negb (has_prefix "devices/" resolved) || (Base resolved != name).
Definition readSysfsBlockTarget (sysfs : Sysfs) (name : string) : res storage_error string :=
  match fs_ReadLink sysfs with
  | None => Err ErrStorage
  | Some readlink =>
    target ← or_fail (readlink (String.append "class/block/" name));
    refuse bad_link target => ErrStorage ;;
    let resolved := Clean (Join "class/block" target) in
    refuse escapes resolved name => ErrStorage ;;
    Ok resolved
  end.

Record relation_state := mkRelation { rl_targets : list string; rl_names : gset string; rl_seen : gset string }.
Definition relation_step (readlink : string → option string) (directory : string) (st : relation_state) (name : string) :
  res storage_error relation_state :=
  refuse negb (validBlockName name) || (name ∈? rl_names st) => ErrStorage ;;
  target ← or_fail (readlink (String.append directory (String "/" name)));
  refuse bad_link target => ErrStorage ;;
  let resolved := Clean (Join directory target) in
  refuse escapes resolved name || (resolved ∈? rl_seen st) => ErrStorage ;;
  Ok (mkRelation (rl_targets st ++ [resolved]) ({[name]} ∪ rl_names st) ({[resolved]} ∪ rl_seen st)).
Definition readSysfsBlockRelations (sysfs : Sysfs) (ownerTarget relation : string) : res storage_error (list string) :=
  refuse (relation != "holders") && (relation != "slaves") => ErrStorage ;;
  let directory := String.append ownerTarget (String "/" relation) in
  entries ← or_fail (fs_ReadDir sysfs directory);
  refuse maxBlockEntries <? len entries => ErrStorage ;;
  match fs_ReadLink sysfs with
  | None => Err ErrStorage
  | Some readlink =>
    st ← for_range (λ _, relation_step readlink directory) 0 (mkRelation [] ∅ ∅) (sort_by id entries);
    Ok (rl_targets st)
  end.

(** ** One node *)
Record storageBlockMetadata := mkMetadata {
  md_kind : string; md_major : Z; md_minor : Z; md_sizeBytes : Z; md_readOnly : bool; md_removable : bool;
  md_partitionNumber : Z; md_partitionStart512B : Z; md_diskSequence : Z; md_sysfsTarget : string;
  md_holderTargets : list string; md_slaveTargets : list string; md_serial : string; md_serialStatus : identityStatus;
  md_wwn : string; md_wwnStatus : identityStatus }.
(** field by field, as [sameStorageBlockMetadata] and [sameStringList] compare *)
#[export] Instance storageBlockMetadata_eq_dec : EqDecision storageBlockMetadata. Proof. solve_decision. Defined.
Definition sameStorageBlockMetadata (a b : storageBlockMetadata) : bool := bool_decide (a = b).

(** the partition number and start, or a whole device *)
Definition observe_partition (sysfs : Sysfs) (base : string) : res storage_error (option (Z * Z)) :=
  match readSysfsAttribute sysfs (String.append base "partition") with
  | Ok text =>
    match ParseUint 32 (TrimSpace text) with
    | None => Err ErrStorage
    | Some number =>
      refuse number =? 0 => ErrStorage ;;
      startText ← attribute sysfs (String.append base "start");
      start ← or_fail (parseSectorCount startText);
      Ok (Some (number, start))
    end
  | Err AttrNotExist => Ok None
  | Err AttrFailed => Err ErrStorage
  end.

(** [sysfs'] is what the last read, of the generation, sees *)
Definition observeStorageBlockMetadata (sysfs sysfs' : Sysfs) (name : string) : res storage_error storageBlockMetadata :=
  let base := String.append "class/block/" (String.append name "/") in
  target ← readSysfsBlockTarget sysfs name;
  holders ← readSysfsBlockRelations sysfs target "holders";
  partition ← observe_partition sysfs base;
  '(slaves, sequence) ←
    match partition with
    | Some _ => Ok ([], 0)
    | None =>
      slaves ← readSysfsBlockRelations sysfs target "slaves";
      sequence ← readBlockDiskSequence sysfs (String.append base "diskseq");
      Ok (slaves, sequence)
    end;
  deviceNumber ← attribute sysfs (String.append base "dev");
  '(major, minor) ← or_fail (parseDeviceNumber deviceNumber);
  sectorText ← attribute sysfs (String.append base "size");
  sizeBytes ← or_fail (parseSectorBytes sectorText);
  readOnly ← readSysfsFlag sysfs (String.append base "ro");
  match partition with
  | Some (number, start) =>
    Ok (mkMetadata "partition" major minor sizeBytes readOnly false number start 0 target holders [] "" identityZero "" identityZero)
  | None =>
    removable ← readSysfsFlag sysfs (String.append base "removable");
    let '(serial, serialStatus) := observeSCSISerial sysfs (String.append base "device/vpd_pg80") in
    let '(wwn, wwnStatus) := observeSCSIWWN sysfs (String.append base "device/vpd_pg83") in
    sequence' ← readBlockDiskSequence sysfs' (String.append base "diskseq");
    refuse negb (sequence' =? sequence) => ErrStorage ;;
    Ok (mkMetadata "block" major minor sizeBytes readOnly removable 0 0 sequence target holders slaves serial serialStatus wwn wwnStatus)
  end.

(** ** Relations between nodes *)

(** [wholeDisksByTarget[path.Dir(target)]] *)
Definition parents_of (metadata : list storageBlockMetadata) (item : storageBlockMetadata) : list nat :=
  filter (λ i, match metadata !! i with
               | Some m => (md_kind m == "block") && (md_sysfsTarget m == Dir (md_sysfsTarget item))
               | None => false
               end = true) (seq 0 (length metadata)).
Definition with_parent (o : blockObservation) (name : string) (removable : bool) (major minor sequence : Z) : blockObservation :=
  mkBlock (bo_Name o) (bo_Kind o) (bo_Major o) (bo_Minor o) (bo_SizeBytes o) (bo_ReadOnly o) removable
    (bo_PartitionNumber o) (bo_partitionStart512B o) name (Some major) (Some minor) (bo_SerialStatus o) (bo_WWNStatus o)
    (bo_serialEvidence o) (bo_wwnEvidence o) (bo_diskSequence o) sequence (bo_sysfsTarget o) (bo_lowerBlocks o).
Definition parent_step (observations : list blockObservation) (metadata : list storageBlockMetadata)
  (out : list blockObservation) (node : blockObservation * storageBlockMetadata) : res storage_error (list blockObservation) :=
  let '(o, item) := node in
  if md_kind item != "partition" then Ok (out ++ [o])
  else match parents_of metadata item with
  | [parent] =>
    match observations !! parent, metadata !! parent with
    | Some po, Some pm =>
      Ok (out ++ [with_parent o (bo_Name po) (bo_Removable po) (md_major pm) (md_minor pm) (md_diskSequence pm)])
    | _, _ => Err ErrStorage
    end
  | _ => Err ErrStorage
  end.
(** the loop writes partitions only, and parents are whole devices: what it reads
    is what the observations were *)
Definition correlateStoragePartitionParents (observations : list blockObservation) (metadata : list storageBlockMetadata) :
  res storage_error (list blockObservation) :=
  refuse negb (len observations =? len metadata) => ErrStorage ;;
  for_range (λ _, parent_step observations metadata) 0 [] (zip observations metadata).

Definition target_step (st : gmap string nat * nat) (item : storageBlockMetadata) : res storage_error (gmap string nat * nat) :=
  refuse md_sysfsTarget item == "" => ErrStorage ;;
  refuse bool_decide (is_Some (st.1 !! md_sysfsTarget item)) => ErrStorage ;;
  Ok (<[md_sysfsTarget item := st.2]> st.1, S st.2).
Definition holder_ok (metadata : list storageBlockMetadata) (byTarget : gmap string nat) (item : storageBlockMetadata) (holder : string) : bool :=
  match byTarget !! holder ≫= (metadata !!.) with
  | Some h => existsb (String.eqb (md_sysfsTarget item)) (md_slaveTargets h)
  | None => false
  end.
(** a slave and the observation it stands for *)
Definition slave_ref (observations : list blockObservation) (metadata : list storageBlockMetadata) (byTarget : gmap string nat)
  (item : storageBlockMetadata) (slave : string) : option blockTopologyRef :=
  j ← byTarget !! slave;
  m ← metadata !! j;
  lower ← observations !! j;
  if existsb (String.eqb (md_sysfsTarget item)) (md_holderTargets m)
  then Some (mkRef (bo_Name lower) (bo_Kind lower) (bo_Major lower) (bo_Minor lower) (bo_diskSequence lower)) else None.
Definition with_lowerBlocks (o : blockObservation) (refs : list blockTopologyRef) : blockObservation :=
  mkBlock (bo_Name o) (bo_Kind o) (bo_Major o) (bo_Minor o) (bo_SizeBytes o) (bo_ReadOnly o) (bo_Removable o)
    (bo_PartitionNumber o) (bo_partitionStart512B o) (bo_ParentName o) (bo_ParentMajor o) (bo_ParentMinor o)
    (bo_SerialStatus o) (bo_WWNStatus o) (bo_serialEvidence o) (bo_wwnEvidence o) (bo_diskSequence o) (bo_parentDiskSeq o)
    (bo_sysfsTarget o) refs.
Definition relation_node (observations : list blockObservation) (metadata : list storageBlockMetadata) (byTarget : gmap string nat)
  (out : list blockObservation) (node : blockObservation * storageBlockMetadata) : res storage_error (list blockObservation) :=
  let '(o, item) := node in
  refuse negb (forallb (holder_ok metadata byTarget item) (md_holderTargets item)) => ErrStorage ;;
  refs ← or_fail (mapM (slave_ref observations metadata byTarget item) (md_slaveTargets item));
  Ok (out ++ [with_lowerBlocks o (bo_lowerBlocks o ++ refs)]).
(** the fields of a slave the loop copies are never written by it *)
Definition correlateStorageBlockRelations (observations : list blockObservation) (metadata : list storageBlockMetadata) :
  res storage_error (list blockObservation) :=
  refuse negb (len observations =? len metadata) => ErrStorage ;;
  st ← for_range (λ _, target_step) 0 (∅, 0%nat) metadata;
  for_range (λ _, relation_node observations metadata st.1) 0 [] (zip observations metadata).

(** ** Identities *)
Section collect.
(** SHA-256 *)
Context (sha256 : list Z → list Z).

Definition vpdObservationEvidence (kind value : string) : list Z :=
  if value == "" then repeat 0 32
  else sha256 (codes "phantowd-vpd-observation-v1" ++ [0] ++ codes kind ++ [0] ++ codes value).

Definition with_SerialStatus (status : identityStatus) (o : blockObservation) : blockObservation :=
  mkBlock (bo_Name o) (bo_Kind o) (bo_Major o) (bo_Minor o) (bo_SizeBytes o) (bo_ReadOnly o) (bo_Removable o)
    (bo_PartitionNumber o) (bo_partitionStart512B o) (bo_ParentName o) (bo_ParentMajor o) (bo_ParentMinor o)
    status (bo_WWNStatus o) (bo_serialEvidence o) (bo_wwnEvidence o) (bo_diskSequence o) (bo_parentDiskSeq o)
    (bo_sysfsTarget o) (bo_lowerBlocks o).
Definition with_WWNStatus (status : identityStatus) (o : blockObservation) : blockObservation :=
  mkBlock (bo_Name o) (bo_Kind o) (bo_Major o) (bo_Minor o) (bo_SizeBytes o) (bo_ReadOnly o) (bo_Removable o)
    (bo_PartitionNumber o) (bo_partitionStart512B o) (bo_ParentName o) (bo_ParentMajor o) (bo_ParentMinor o)
    (bo_SerialStatus o) status (bo_serialEvidence o) (bo_wwnEvidence o) (bo_diskSequence o) (bo_parentDiskSeq o)
    (bo_sysfsTarget o) (bo_lowerBlocks o).
(** [statusField] is the writer of one of the two status fields *)
Definition markDuplicateIdentities (statusField : identityStatus → blockObservation → blockObservation)
  (matches : gmap string (list nat)) (observations : list blockObservation) : list blockObservation :=
  mark_groups (statusField identityAmbiguous) (map_to_list matches) observations.

Definition observation_of (name : string) (m : storageBlockMetadata) : blockObservation :=
  mkBlock name (md_kind m) (md_major m) (md_minor m) (md_sizeBytes m) (md_readOnly m) (md_removable m) (md_partitionNumber m)
    (md_partitionStart512B m) "" None None (md_serialStatus m) (md_wwnStatus m) (vpdObservationEvidence "serial" (md_serial m))
    (vpdObservationEvidence "wwn" (md_wwn m)) (md_diskSequence m) 0 (md_sysfsTarget m) [].

Record collect_state := mkCollect {
  co_seen : gset string; co_sequences : gset Z; co_serials : gmap string (list nat); co_wwns : gmap string (list nat);
  co_observations : list blockObservation; co_metadata : list storageBlockMetadata }.
(** [pass] gives the two views of the observation of a node *)
Definition collect_step (pass : string → Sysfs * Sysfs) (st : collect_state) (name : string) : res storage_error collect_state :=
  refuse negb (validBlockName name) || (name ∈? co_seen st) => ErrStorage ;;
  m ← observeStorageBlockMetadata (pass name).1 (pass name).2 name;
  let isBlock := md_kind m == "block" in
  refuse isBlock && (md_diskSequence m ∈? co_sequences st) => ErrStorage ;;
  let i := length (co_observations st) in
  Ok (mkCollect ({[name]} ∪ co_seen st)
        (if isBlock then {[md_diskSequence m]} ∪ co_sequences st else co_sequences st)
        (if isBlock && (md_serialStatus m == identityPresent) then append_to (co_serials st) (md_serial m) i else co_serials st)
        (if isBlock && (md_wwnStatus m == identityPresent) then append_to (co_wwns st) (md_wwn m) i else co_wwns st)
        (co_observations st ++ [observation_of name m]) (co_metadata st ++ [m])).
Definition recheck_step (pass : string → Sysfs * Sysfs) (u : unit) (node : blockObservation * storageBlockMetadata) : res storage_error unit :=
  m ← observeStorageBlockMetadata (pass (bo_Name node.1)).1 (pass (bo_Name node.1)).2 (bo_Name node.1);
  refuse negb (sameStorageBlockMetadata m node.2) => ErrStorage ;;
  Ok u.

Definition limitations : list string :=
  ["kernel names and major/minor numbers are current observations, not stable identities";
   "raw serial and WWN values are never returned; only SCSI VPD availability and validation states are reported";
   "duplicate valid serial or NAA WWN values among enumerated non-partition block nodes are marked ambiguous; aliases and multipath topology are not resolved";
   "whole-disk kernel generations are checked before and after each observation; the generation is transient and is never returned as persistent identity";
   "partition parent name and major/minor are current sysfs topology in schema v2, not durable identity; parent disk sequence is validated internally but not returned";
   "block holder/slave relationships are validated internally and are not returned as persistent identity or mount authorization";
   "block metadata is re-read before publication to reject observed changes, but sysfs reads do not provide an atomic hotplug snapshot";
   "PARTUUID, filesystem UUID, RAID membership, health and bay mapping are not collected";
   "no block device is opened and no disk content is read, assembled, mounted or modified";
   "this development endpoint is not a WD-layout support decision or migration authorization"].

(** what the reads of one collection see: the directory at the start, each node
    in each pass, the directory at the end *)
Record views := mkViews {
  vw_before : Sysfs; vw_first : string → Sysfs * Sysfs; vw_second : string → Sysfs * Sysfs; vw_after : Sysfs }.
Definition collectStorage (v : views) : res storage_error storageSnapshot :=
  entries ← or_fail (fs_ReadDir (vw_before v) "class/block");
  refuse maxBlockEntries <? len entries => ErrStorage ;;
  let entries := sort_by id entries in
  st ← for_range (λ _, collect_step (vw_first v)) 0 (mkCollect ∅ ∅ ∅ ∅ [] []) entries;
  observations ← correlateStoragePartitionParents (co_observations st) (co_metadata st);
  observations ← correlateStorageBlockRelations observations (co_metadata st);
  _ ← for_range (λ _, recheck_step (vw_second v)) 0 tt (zip observations (co_metadata st));
  finalEntries ← or_fail (fs_ReadDir (vw_after v) "class/block");
  refuse negb (entries == sort_by id finalEntries) => ErrStorage ;;
  let observations := markDuplicateIdentities with_SerialStatus (co_serials st) observations in
  let observations := markDuplicateIdentities with_WWNStatus (co_wwns st) observations in
  Ok (mkStorage 2 "kernel-sysfs-only" true false false false false (len observations) (Some observations) limitations true).
End collect.

(** ** The first pass *)
Definition serial_key (m : storageBlockMetadata) : option string :=
  if (md_kind m == "block") && (md_serialStatus m == identityPresent) then Some (md_serial m) else None.
Definition wwn_key (m : storageBlockMetadata) : option string :=
  if (md_kind m == "block") && (md_wwnStatus m == identityPresent) then Some (md_wwn m) else None.
Definition sequence_of (m : storageBlockMetadata) : list Z := if md_kind m == "block" then [md_diskSequence m] else [].

Section pass.
Context (sha256 : list Z → list Z) (pass : string → Sysfs * Sysfs).

Record collected (names : list string) (st : collect_state) : Prop := {
  cl_seen : co_seen st = list_to_set names;
  cl_names : NoDup names ∧ Forall (λ n, validBlockName n = true) names;
  cl_metadata : Forall2 (λ n m, observeStorageBlockMetadata (pass n).1 (pass n).2 n = Ok m) names (co_metadata st);
  cl_observations : co_observations st = zip_with (observation_of sha256) names (co_metadata st);
  cl_sequences : NoDup (co_metadata st ≫= sequence_of) ∧ co_sequences st = list_to_set (co_metadata st ≫= sequence_of);
  cl_serials : grouped serial_key (co_metadata st) (co_serials st);
  cl_wwns : grouped wwn_key (co_metadata st) (co_wwns st) }.

Lemma collect_step_Ok names st n st' : collected names st → collect_step sha256 pass st n = Ok st' → collected (names ++ [n]) st'.
Proof.
  intros [] H. unfold collect_step in H. apply refuse_Ok in H as [Hn H]. apply orb_false_iff in Hn as [Hv%negb_false_iff Hs%bool_decide_eq_false].
  apply res_bind_Ok in H as (m & Hm & H). apply refuse_Ok in H as [Hq [= <-]].
  assert (Hlen : length (co_observations st) = length (co_metadata st)).
  { rewrite cl_observations0, length_zip_with. rewrite (Forall2_length _ _ _ cl_metadata0). lia. }
  rewrite cl_seen0 in Hs. destruct cl_names0 as [HN HF], cl_sequences0 as [HS1 HS2].
  split; cbn [co_seen co_metadata co_observations co_sequences co_serials co_wwns].
  - rewrite list_to_set_app_L, cl_seen0. set_solver.
  - split; [|by apply Forall_app_2; [|constructor]]. apply NoDup_app. split_and!; [done|set_solver|apply NoDup_singleton].
  - apply Forall2_app; [done|]. by constructor.
  - rewrite zip_with_app by (by eapply Forall2_length). by rewrite cl_observations0.
  - rewrite bind_app. cbn [mbind list_bind app]. rewrite app_nil_r, list_to_set_app_L, <- HS2.
    change (sequence_of m) with (if md_kind m == "block" then [md_diskSequence m] else []).
    destruct (md_kind m == "block"); cbn [andb] in Hq |- *.
    + apply bool_decide_eq_false in Hq. rewrite HS2 in Hq. split; [|rewrite HS2; set_solver].
      apply NoDup_app. split_and!; [done| |apply NoDup_singleton]. set_solver.
    + rewrite app_nil_r. split; [done|]. set_solver.
  - rewrite Hlen. pose proof (grouped_snoc serial_key _ _ m cl_serials0) as H. unfold serial_key in H at 2. by destruct (_ && _) in H |- *.
  - rewrite Hlen. pose proof (grouped_snoc wwn_key _ _ m cl_wwns0) as H. unfold wwn_key in H at 2. by destruct (_ && _) in H |- *.
Qed.

Lemma collect_loop i names todo st st' : collected names st →
  for_range (λ _, collect_step sha256 pass) i st todo = Ok st' → collected (names ++ todo) st'.
Proof.
  revert i names st. induction todo as [|n todo IH]; intros i names st Hc; cbn [for_range].
  - intros [= <-]. by rewrite app_nil_r.
  - destruct (collect_step sha256 pass st n) as [st1|] eqn:Hs; [|done]. intros H.
    replace (names ++ n :: todo) with ((names ++ [n]) ++ todo) by (by rewrite <- app_assoc).
    eapply IH; [|exact H]. by eapply collect_step_Ok.
Qed.
Lemma collected_empty : collected [] (mkCollect ∅ ∅ ∅ ∅ [] []).
Proof.
  split; cbn; [done|split; constructor|constructor|done|split; [constructor|done]| |]; by apply grouped_nil.
Qed.
End pass.

(** ** Parents and slaves *)

(** A partition stands in the directory of exactly one whole device. *)
Definition parent_index (md : list storageBlockMetadata) (item : storageBlockMetadata) (j : nat) : Prop :=
  ∀ j', (∃ m, md !! j' = Some m ∧ md_kind m = "block" ∧ md_sysfsTarget m = Dir (md_sysfsTarget item)) ↔ j' = j.
Definition parent_rel (obs : list blockObservation) (md : list storageBlockMetadata) (node : blockObservation * storageBlockMetadata)
  (o' : blockObservation) : Prop :=
  if md_kind node.2 != "partition" then o' = node.1
  else ∃ j po pm, parent_index md node.2 j ∧ obs !! j = Some po ∧ md !! j = Some pm
       ∧ o' = with_parent node.1 (bo_Name po) (bo_Removable po) (md_major pm) (md_minor pm) (md_diskSequence pm).

Lemma elem_of_parents md item j :
  j ∈ parents_of md item ↔ ∃ m, md !! j = Some m ∧ md_kind m = "block" ∧ md_sysfsTarget m = Dir (md_sysfsTarget item).
Proof.
  unfold parents_of. rewrite list_elem_of_filter, elem_of_seq. destruct (md !! j) as [m|] eqn:Hm; [|naive_solver].
  apply lookup_lt_Some in Hm. rewrite andb_true_iff, !bool_decide_eq_true. split; [naive_solver|]. intros (m' & [= <-] & ?). split; [done|lia].
Qed.
Lemma parent_step_Ok obs md out node out' :
  parent_step obs md out node = Ok out' → ∃ o', parent_rel obs md node o' ∧ out' = out ++ [o'].
Proof.
  destruct node as [o item]. unfold parent_step, parent_rel. cbn [fst snd]. destruct (md_kind item != "partition"); [intros [= <-]; eauto|].
  destruct (parents_of md item) as [|j [|]] eqn:Hp; try done.
  destruct (obs !! j) as [po|] eqn:Ho; [|done]. destruct (md !! j) as [pm|] eqn:Hm; [|done]. intros [= <-].
  eexists. split; [|reflexivity]. exists j, po, pm. split_and!; try done. intros j'. rewrite <- elem_of_parents, Hp. set_solver.
Qed.

(** The loop that appends one node per turn. *)
Lemma append_loop {E A B} (body : list B → A → res E (list B)) (R : A → B → Prop) i acc l out :
  (∀ acc x acc', body acc x = Ok acc' → ∃ y, R x y ∧ acc' = acc ++ [y]) →
  for_range (λ _, body) i acc l = Ok out → ∃ ys, Forall2 R l ys ∧ out = acc ++ ys.
Proof.
  intros Hb. revert i acc. induction l as [|x l IH]; intros i acc; cbn [for_range].
  - intros [= <-]. exists []. by rewrite app_nil_r.
  - destruct (body acc x) as [acc'|] eqn:Hx; [|done]. apply Hb in Hx as (y & Hy & ->). intros (ys & HF & ->)%IH.
    exists (y :: ys). rewrite <- app_assoc. by repeat constructor.
Qed.

Lemma byTarget_Ok i st md st' todo :
  (∀ t j, st.1 !! t = Some j ↔ ∃ m, md !! j = Some m ∧ md_sysfsTarget m = t) → st.2 = length md →
  for_range (λ _, target_step) i st todo = Ok st' →
  ∀ t j, st'.1 !! t = Some j ↔ ∃ m, (md ++ todo) !! j = Some m ∧ md_sysfsTarget m = t.
Proof.
  revert i st md. induction todo as [|m todo IH]; intros i st md Hst Hn; cbn [for_range].
  - intros [= <-]. by rewrite app_nil_r.
  - unfold target_step at 1. destruct (_ == _); [done|]. case_bool_decide as Hd; [done|].
    intros H t j. replace (md ++ m :: todo) with ((md ++ [m]) ++ todo) by (by rewrite <- app_assoc).
    eapply IH; [| |exact H]; cbn [fst snd]; [|by rewrite length_app, Hn, Nat.add_1_r].
    intros t' j'. rewrite Hn, lookup_insert_Some, Hst. split.
    + intros [[<- <-]|[Hne (m' & Hm' & <-)]]; [exists m; by rewrite list_lookup_middle|].
      exists m'. split; [by apply lookup_app_l_Some|done].
    + intros (m' & Hm' & <-). apply lookup_app_Some in Hm' as [Hm'|[Hle Hm']].
      * right. split; [|by exists m']. intros He. apply Hd. rewrite He. exists j'. apply Hst. by exists m'.
      * left. apply list_lookup_singleton_Some in Hm' as [Hj <-]. split; [done|lia].
Qed.

Definition ref_of (o : blockObservation) : blockTopologyRef :=
  mkRef (bo_Name o) (bo_Kind o) (bo_Major o) (bo_Minor o) (bo_diskSequence o).
(** [m] is reached from the target, and points back *)
Definition slave_of (obs : list blockObservation) (md : list storageBlockMetadata) (item : storageBlockMetadata) (slave : string)
  (r : blockTopologyRef) : Prop :=
  ∃ j m lower, md !! j = Some m ∧ obs !! j = Some lower ∧ md_sysfsTarget m = slave ∧ md_sysfsTarget item ∈ md_holderTargets m
  ∧ r = ref_of lower.
Definition holder_of (md : list storageBlockMetadata) (item : storageBlockMetadata) (holder : string) : Prop :=
  ∃ j m, md !! j = Some m ∧ md_sysfsTarget m = holder ∧ md_sysfsTarget item ∈ md_slaveTargets m.
Definition relation_rel (obs : list blockObservation) (md : list storageBlockMetadata) (node : blockObservation * storageBlockMetadata)
  (o' : blockObservation) : Prop :=
  Forall (holder_of md node.2) (md_holderTargets node.2)
  ∧ ∃ refs, Forall2 (slave_of obs md node.2) (md_slaveTargets node.2) refs ∧ o' = with_lowerBlocks node.1 (bo_lowerBlocks node.1 ++ refs).

Lemma existsb_eqb_elem (x : string) l : existsb (String.eqb x) l = true ↔ x ∈ l.
Proof.
  rewrite existsb_exists. setoid_rewrite <- list_elem_of_In. split; [intros (y & Hy & ->%String.eqb_eq); done|].
  intros Hx. exists x. split; [done|]. apply String.eqb_refl.
Qed.
Lemma relation_node_Ok obs md (byTarget : gmap string nat) out node out' :
  (∀ t j, byTarget !! t = Some j ↔ ∃ m, md !! j = Some m ∧ md_sysfsTarget m = t) →
  relation_node obs md byTarget out node = Ok out' → ∃ o', relation_rel obs md node o' ∧ out' = out ++ [o'].
Proof.
  intros Hby. destruct node as [o item]. unfold relation_node, relation_rel. cbn [fst snd].
  intros [Hh%negb_false_iff H]%refuse_Ok. apply res_bind_Ok in H as (refs & Hr & [= <-]). eexists. split; [|reflexivity]. split.
  - apply Forall_forall. intros h Hin. rewrite forallb_forall in Hh. specialize (Hh h ltac:(by apply list_elem_of_In)).
    unfold holder_ok in Hh. destruct (byTarget !! h) as [j|] eqn:Hj; [|done]. cbn in Hh. apply Hby in Hj as (m & Hm & Ht).
    rewrite Hm in Hh. apply existsb_eqb_elem in Hh. by exists j, m.
  - exists refs. split; [|done]. unfold or_fail in Hr. destruct (mapM _ _) as [rs|] eqn:Hmap; [|done]. injection Hr as <-.
    apply mapM_Some in Hmap. eapply Forall2_impl; [exact Hmap|]. intros slave r Hs. cbn in Hs. unfold slave_ref in Hs.
    apply bind_Some in Hs as (j & Hj & Hs). apply bind_Some in Hs as (m & Hm & Hs). apply bind_Some in Hs as (lo & Hlo & Hs).
    apply Hby in Hj as (m' & Hm' & Ht). simplify_eq. destruct (existsb _ _) eqn:He; [|done]. injection Hs as <-.
    apply existsb_eqb_elem in He. by exists j, m', lo.
Qed.

Lemma recheck_Ok pass i l : for_range (λ _, recheck_step pass) i tt l = Ok tt →
  Forall (λ node, observeStorageBlockMetadata (pass (bo_Name node.1)).1 (pass (bo_Name node.1)).2 (bo_Name node.1) = Ok node.2) l.
Proof.
  revert i. induction l as [|node l IH]; intros i; cbn [for_range]; [constructor|]. unfold recheck_step at 1.
  destruct (observeStorageBlockMetadata _ _ _) as [m|] eqn:Hm; [|done]. cbn [mbind res_bind].
  unfold sameStorageBlockMetadata. case_bool_decide as Hs; [|done]. subst m. intros H%IH. by constructor.
Qed.

(** What one published node says, from the metadata of all nodes. *)
Record node_ok (sha256 : list Z → list Z) (names : list string) (md : list storageBlockMetadata) (i : nat) (m : storageBlockMetadata) (o : blockObservation) : Prop := {
  no_name : names !! i = Some (bo_Name o);
  no_fields : bo_Kind o = md_kind m ∧ bo_Major o = md_major m ∧ bo_Minor o = md_minor m ∧ bo_SizeBytes o = md_sizeBytes m
              ∧ bo_diskSequence o = md_diskSequence m ∧ bo_sysfsTarget o = md_sysfsTarget m;
  (* a partition names the one whole device whose directory it is in *)
  no_parent : if md_kind m == "partition"
              then ∃ j n pm, parent_index md m j ∧ names !! j = Some n ∧ md !! j = Some pm ∧ bo_ParentName o = n
                   ∧ bo_ParentMajor o = Some (md_major pm) ∧ bo_ParentMinor o = Some (md_minor pm)
                   ∧ bo_parentDiskSeq o = md_diskSequence pm
              else bo_ParentName o = "" ∧ bo_ParentMajor o = None ∧ bo_ParentMinor o = None;
  (* holders and slaves point at each other *)
  no_holders : Forall (holder_of md m) (md_holderTargets m);
  no_slaves : Forall2 (λ slave r, ∃ j n jm, md !! j = Some jm ∧ names !! j = Some n ∧ md_sysfsTarget jm = slave
                  ∧ md_sysfsTarget m ∈ md_holderTargets jm
                  ∧ r = mkRef n (md_kind jm) (md_major jm) (md_minor jm) (md_diskSequence jm))
                (md_slaveTargets m) (bo_lowerBlocks o);
  (* the evidence is the digest of what the device's pages say *)
  no_evidence : bo_serialEvidence o = vpdObservationEvidence sha256 "serial" (md_serial m)
              ∧ bo_wwnEvidence o = vpdObservationEvidence sha256 "wwn" (md_wwn m);
  (* an identity two whole devices show is ambiguous *)
  no_serial : (shared serial_key md i → bo_SerialStatus o = identityAmbiguous)
              ∧ (¬ shared serial_key md i → bo_SerialStatus o = md_serialStatus m);
  no_wwn : (shared wwn_key md i → bo_WWNStatus o = identityAmbiguous) ∧ (¬ shared wwn_key md i → bo_WWNStatus o = md_wwnStatus m) }.

Lemma validBlockName_ne name : validBlockName name = true → name ≠ "".
Proof. unfold validBlockName. intros H ->. done. Qed.
Lemma zip_lookup {A B} (l : list A) (k : list B) i a b : zip l k !! i = Some (a, b) ↔ l !! i = Some a ∧ k !! i = Some b.
Proof. rewrite lookup_zip_with_Some. naive_solver. Qed.

Section nodes.
Context (sha256 : list Z → list Z) (names : list string) (md : list storageBlockMetadata).
Context (obs1 obs2 : list blockObservation).
Let obs0 := zip_with (observation_of sha256) names md.
Hypothesis Hlen : length names = length md.
Hypothesis H1 : Forall2 (parent_rel obs0 md) (zip obs0 md) obs1.
Hypothesis H2 : Forall2 (relation_rel obs1 md) (zip obs1 md) obs2.

Lemma obs0_lookup i n m : names !! i = Some n → md !! i = Some m → obs0 !! i = Some (observation_of sha256 n m).
Proof. intros Hn Hm. unfold obs0. rewrite lookup_zip_with, Hn, Hm. done. Qed.
Lemma obs1_lookup i o1 : obs1 !! i = Some o1 → ∃ n m, names !! i = Some n ∧ md !! i = Some m
  ∧ parent_rel obs0 md (observation_of sha256 n m, m) o1.
Proof.
  intros Ho. destruct (Forall2_lookup_r _ _ _ _ _ H1 Ho) as ([o0 m] & Hz & Hr). apply zip_lookup in Hz as [Ho0 Hm].
  assert (Hn : ∃ n, names !! i = Some n) by (apply lookup_lt_is_Some; rewrite Hlen; by apply lookup_lt_Some in Hm).
  destruct Hn as (n & Hn). rewrite (obs0_lookup i n m Hn Hm) in Ho0. injection Ho0 as <-. by exists n, m.
Qed.
(** the fields the two loops never write *)
Lemma obs1_fields i o1 n m : obs1 !! i = Some o1 → names !! i = Some n → md !! i = Some m →
  bo_Name o1 = n ∧ ref_of o1 = mkRef n (md_kind m) (md_major m) (md_minor m) (md_diskSequence m)
  ∧ bo_SizeBytes o1 = md_sizeBytes m ∧ bo_sysfsTarget o1 = md_sysfsTarget m ∧ bo_lowerBlocks o1 = []
  ∧ bo_SerialStatus o1 = md_serialStatus m ∧ bo_WWNStatus o1 = md_wwnStatus m
  ∧ bo_serialEvidence o1 = vpdObservationEvidence sha256 "serial" (md_serial m) ∧ bo_wwnEvidence o1 = vpdObservationEvidence sha256 "wwn" (md_wwn m).
Proof.
  intros Ho Hn Hm. destruct (obs1_lookup i o1 Ho) as (n' & m' & Hn' & Hm' & Hr). rewrite Hm in Hm'; injection Hm' as <-; rewrite Hn in Hn'; injection Hn' as <-. unfold parent_rel in Hr. cbn [fst snd] in Hr.
  destruct (md_kind m != "partition"); [subst o1|destruct Hr as (j & po & pm & _ & _ & _ & ->)]; by split_and!.
Qed.

Lemma obs2_node i o2 : obs2 !! i = Some o2 → ∃ m, md !! i = Some m ∧
  ∀ o, bo_Name o = bo_Name o2 → ref_of o = ref_of o2 → bo_SizeBytes o = bo_SizeBytes o2 → bo_sysfsTarget o = bo_sysfsTarget o2 →
    bo_ParentName o = bo_ParentName o2 → bo_ParentMajor o = bo_ParentMajor o2 → bo_ParentMinor o = bo_ParentMinor o2 →
    bo_parentDiskSeq o = bo_parentDiskSeq o2 → bo_lowerBlocks o = bo_lowerBlocks o2 →
    bo_serialEvidence o = bo_serialEvidence o2 → bo_wwnEvidence o = bo_wwnEvidence o2 →
    (shared serial_key md i → bo_SerialStatus o = identityAmbiguous) → (¬ shared serial_key md i → bo_SerialStatus o = bo_SerialStatus o2) →
    (shared wwn_key md i → bo_WWNStatus o = identityAmbiguous) → (¬ shared wwn_key md i → bo_WWNStatus o = bo_WWNStatus o2) →
    node_ok sha256 names md i m o.
Proof.
  intros Ho. destruct (Forall2_lookup_r _ _ _ _ _ H2 Ho) as ([o1 m] & Hz & Hh & refs & Hrefs & ->).
  apply zip_lookup in Hz as [Ho1 Hm]. cbn [fst snd] in *. destruct (obs1_lookup i o1 Ho1) as (n & m' & Hn & Hm' & Hpar).
  rewrite Hm in Hm'. injection Hm' as <-.
  destruct (obs1_fields i o1 n m Ho1 Hn Hm) as (Hname & Href & Hsize & Htarget & Hlow & Hs & Hw & Hse & Hwe). exists m. split; [done|].
  intros o E1 E2 E3 E4 E5 E6 E7 E8 E9 E10 E11 S1 S2 W1 W2.
  cbn [with_lowerBlocks bo_Name bo_SizeBytes bo_sysfsTarget bo_ParentName bo_ParentMajor bo_ParentMinor bo_parentDiskSeq
       bo_lowerBlocks bo_SerialStatus bo_WWNStatus bo_serialEvidence bo_wwnEvidence] in E1, E3, E4, E5, E6, E7, E8, E9, E10, E11, S2, W2.
  assert (E2' : ref_of o = ref_of o1) by (rewrite E2; done). rewrite Href in E2'. unfold ref_of in E2'. injection E2' as F1 F2 F3 F4 F5.
  split.
  - by rewrite F1.
  - split_and!; congruence.
  - unfold parent_rel in Hpar. cbn [fst snd] in Hpar. destruct (md_kind m == "partition"); cbn [negb] in Hpar.
    + destruct Hpar as (j & po & pm & Hidx & Hpo & Hpm & ->). cbn in E5, E6, E7, E8.
      assert (Hjn : ∃ nj, names !! j = Some nj) by (apply lookup_lt_is_Some; rewrite Hlen; by apply lookup_lt_Some in Hpm).
      destruct Hjn as (nj & Hnj). rewrite (obs0_lookup j nj pm Hnj Hpm) in Hpo. injection Hpo as <-. exists j, nj, pm. done.
    + subst o1. done.
  - done.
  - rewrite E9, Hlow. cbn [app]. eapply Forall2_impl; [exact Hrefs|]. intros slave r (j & jm & lo & Hj & Hlo & Ht & Hin & ->).
    destruct (obs1_lookup j lo Hlo) as (nj & jm' & Hnj & Hjm' & _). rewrite Hj in Hjm'. injection Hjm' as <-. exists j, nj, jm. split_and!; try done.
    by apply (obs1_fields j lo nj jm).
  - split; congruence.
  - rewrite Hs in S2. by split.
  - rewrite Hw in W2. by split.
Qed.
Lemma second_pass pass : length obs2 = length names →
  Forall (λ node, observeStorageBlockMetadata (pass (bo_Name node.1)).1 (pass (bo_Name node.1)).2 (bo_Name node.1) = Ok node.2) (zip obs2 md) →
  Forall2 (λ n m, observeStorageBlockMetadata (pass n).1 (pass n).2 n = Ok m) names md.
Proof.
  intros Hl2 Hc. apply Forall2_same_length_lookup_2; [done|]. intros i n m Hn Hm.
  destruct (lookup_lt_is_Some_2 obs2 i) as (o2 & Ho2); [rewrite Hl2; by apply lookup_lt_Some in Hn|].
  assert (Hz : zip obs2 md !! i = Some (o2, m)) by (by apply zip_lookup). pose proof (Forall_lookup_1 _ _ _ _ Hc Hz) as Hobs. cbn [fst snd] in Hobs.
  destruct (Forall2_lookup_r _ _ _ _ _ H2 Ho2) as ([o1 m1] & Hz1 & _ & refs & _ & ->). apply zip_lookup in Hz1 as [Ho1 _].
  destruct (obs1_fields i o1 n m Ho1 Hn Hm) as (Hname & _). cbn [with_lowerBlocks bo_Name fst] in Hobs. by rewrite Hname in Hobs.
Qed.
End nodes.

Lemma marked_lookup statusField (key : storageBlockMetadata → option string) (md : list storageBlockMetadata) im (obs : list blockObservation) (i : nat) o' :
  (∀ o, statusField identityAmbiguous (statusField identityAmbiguous o) = statusField identityAmbiguous o) → grouped key md im →
  markDuplicateIdentities statusField im obs !! i = Some o' →
  ∃ o, obs !! i = Some o ∧ (shared key md i → o' = statusField identityAmbiguous o) ∧ (¬ shared key md i → o' = o).
Proof. intros Hid Hg Ho. exact (mark_exact key (statusField identityAmbiguous) md obs im i o' Hid Hg Ho). Qed.

(** ** Properties *)

(** The published inventory is what both passes saw.  When [collectStorage]
    succeeds, there is one node for every entry of the directory, in order and
    with valid, distinct names; the two passes read the same metadata for every
    node and the directory did not change; every partition names the one whole
    device whose directory it is in, every stacked device lists exactly its
    slaves and each of them names it as a holder, whole devices have distinct
    generations, and an identity is ambiguous exactly when two whole devices show
    it or the device's own page was ambiguous. *)
Theorem collectStorage_exact sha256 v snap :
  collectStorage sha256 v = Ok snap →
  ∃ entries names md obs,
    fs_ReadDir (vw_before v) "class/block" = Some entries ∧ names = sort_by id entries
    ∧ (∃ final, fs_ReadDir (vw_after v) "class/block" = Some final ∧ final ≡ₚ entries)
    ∧ NoDup names ∧ Forall (λ n, validBlockName n = true) names ∧ len names ≤ maxBlockEntries
    ∧ Forall2 (λ n m, observeStorageBlockMetadata (vw_first v n).1 (vw_first v n).2 n = Ok m) names md
    ∧ Forall2 (λ n m, observeStorageBlockMetadata (vw_second v n).1 (vw_second v n).2 n = Ok m) names md
    ∧ NoDup (md ≫= sequence_of)
    ∧ ss_Observations snap = Some obs ∧ length obs = length names
    ∧ ∀ i o, obs !! i = Some o → ∃ m, md !! i = Some m ∧ node_ok sha256 names md i m o.
Proof.
  unfold collectStorage. intros (entries & He & H)%res_bind_Ok. apply refuse_Ok in H as [Hlen%Z.ltb_ge H].
  apply res_bind_Ok in H as (st & Hst & H). apply res_bind_Ok in H as (obs1 & Hp & H). apply res_bind_Ok in H as (obs2 & Hr & H).
  apply res_bind_Ok in H as ([] & Hc & H). apply res_bind_Ok in H as (final & Hfin & H).
  apply refuse_Ok in H as [Hf%negb_false_iff%bool_decide_eq_true [= <-]].
  unfold or_fail in He, Hfin. destruct (fs_ReadDir (vw_before v) _) as [es|] eqn:Hes; [|done]. injection He as <-.
  destruct (fs_ReadDir (vw_after v) _) as [fe|] eqn:Hfe; [|done]. injection Hfin as <-.
  apply (collect_loop sha256 (vw_first v) 0 [] _ _ _ (collected_empty sha256 (vw_first v))) in Hst. cbn [app] in Hst. destruct Hst.
  set (names := sort_by id es) in *. set (md := co_metadata st) in *. pose proof (Forall2_length _ _ _ cl_metadata0) as Hl.
  unfold correlateStoragePartitionParents in Hp. apply refuse_Ok in Hp as [_ Hp].
  apply (append_loop _ (parent_rel (co_observations st) md)) in Hp as (l1 & HF1 & ->); [|apply parent_step_Ok].
  unfold correlateStorageBlockRelations in Hr. apply refuse_Ok in Hr as [_ Hr]. apply res_bind_Ok in Hr as (tg & Htg & Hr).
  assert (Hby := byTarget_Ok 0 (∅, 0%nat) [] tg md ltac:(intros t j; cbn; rewrite lookup_empty; naive_solver) eq_refl Htg).
  apply (append_loop _ (relation_rel ([] ++ l1) md)) in Hr as (l2 & HF2 & ->); [|intros ? ? ?; by apply relation_node_Ok].
  cbn [app] in *. rewrite cl_observations0 in HF1.
  assert (Hl1 : length l1 = length names).
  { rewrite <- (Forall2_length _ _ _ HF1), length_zip_with, length_zip_with. lia. }
  assert (Hl2 : length l2 = length names) by (rewrite <- (Forall2_length _ _ _ HF2), length_zip_with; lia).
  set (marked := markDuplicateIdentities with_WWNStatus (co_wwns st) (markDuplicateIdentities with_SerialStatus (co_serials st) l2)).
  exists es, names, md, marked. apply recheck_Ok in Hc. destruct cl_names0 as [HN HV], cl_sequences0 as [HS _].
  assert (Hnode : ∀ i o, marked !! i = Some o → ∃ m, md !! i = Some m ∧ node_ok sha256 names md i m o).
  { intros i o Ho. unfold marked in Ho.
    apply (marked_lookup with_WWNStatus wwn_key md) in Ho as (o' & Ho' & Hw1 & Hw2); [|done|done].
    apply (marked_lookup with_SerialStatus serial_key md) in Ho' as (o2 & Ho2 & Hs1 & Hs2); [|done|done].
    destruct (obs2_node sha256 names md l1 l2 Hl HF1 HF2 i o2 Ho2) as (m & Hm & Hok). exists m. split; [done|].
    assert (Heq : ∀ {A} (f : blockObservation → A), (∀ x, f (with_WWNStatus identityAmbiguous x) = f x) →
                    (∀ x, f (with_SerialStatus identityAmbiguous x) = f x) → f o = f o2).
    { intros A f F1 F2. destruct (grouped_decide wwn_key md (co_wwns st) i cl_wwns0) as [Hx|Hx];
        destruct (grouped_decide serial_key md (co_serials st) i cl_serials0) as [Hy|Hy];
        rewrite ?(Hw1 Hx), ?(Hw2 Hx), ?F1, ?(Hs1 Hy), ?(Hs2 Hy), ?F2; done. }
    assert (HserW : bo_SerialStatus o = bo_SerialStatus o').
    { destruct (grouped_decide wwn_key md (co_wwns st) i cl_wwns0) as [Hx|Hx]; by rewrite ?(Hw1 Hx), ?(Hw2 Hx). }
    assert (HwwnS : bo_WWNStatus o' = bo_WWNStatus o2).
    { destruct (grouped_decide serial_key md (co_serials st) i cl_serials0) as [Hy|Hy]; by rewrite ?(Hs1 Hy), ?(Hs2 Hy). }
    apply Hok; try (apply Heq; done); intros Hx; [rewrite HserW, (Hs1 Hx)|rewrite HserW, (Hs2 Hx)|rewrite (Hw1 Hx)|rewrite (Hw2 Hx)]; done. }
  split_and!; try done.
  - exists fe. split; [done|]. rewrite <- (sort_by_perm id fe), <- Hf. apply sort_by_perm.
  - unfold len, names in *. by rewrite (Permutation_length (sort_by_perm id es)).
  - by apply (second_pass sha256 names md l1 l2 Hl HF1 HF2).
  - unfold marked. unfold markDuplicateIdentities. by rewrite !length_mark_groups.
Qed.

(** In a collected inventory no two whole devices show the same serial number, or the same WWN, as present. *)
Definition shows_apart (sha256 : list Z → list Z) (kind : string) (p q : identityStatus * list Z) : Prop :=
  p.1 = identityPresent → q.1 = identityPresent →
  ∃ s t, s ≠ t ∧ p.2 = vpdObservationEvidence sha256 kind s ∧ q.2 = vpdObservationEvidence sha256 kind t.
Lemma collected_apart sha256 v snap obs o p : collectStorage sha256 v = Ok snap → ss_Observations snap = Some obs → o ∈ obs → p ∈ obs →
  bo_Name o ≠ bo_Name p → bo_Kind o = "block" → bo_Kind p = "block" →
  shows_apart sha256 "serial" (bo_SerialStatus o, bo_serialEvidence o) (bo_SerialStatus p, bo_serialEvidence p)
  ∧ shows_apart sha256 "wwn" (bo_WWNStatus o, bo_wwnEvidence o) (bo_WWNStatus p, bo_wwnEvidence p).
Proof.
  intros (entries & names & md & obs' & _ & _ & _ & _ & _ & _ & _ & _ & _ & Hobs & _ & Hnode)%collectStorage_exact Hobs' Ho Hp Hne Ko Kp.
  rewrite Hobs in Hobs'. injection Hobs' as ->. apply list_elem_of_lookup in Ho as [i Hi], Hp as [j Hj]. assert (Hij : i ≠ j) by congruence.
  destruct (Hnode i o Hi) as (m & Hm & [_ (Km & _) _ _ _ [Eo Wo] [S1 S2] [W1 W2]]). destruct (Hnode j p Hj) as (q & Hq & [_ (Kq & _) _ _ _ [Ep Wp] [S3 S4] [W3 W4]]).
  unfold shows_apart. cbn [fst snd]. split; intros H1 H2.
  - assert (N1 : ¬ shared serial_key md i) by (intros Hx; rewrite (S1 Hx) in H1; discriminate H1).
    assert (N2 : ¬ shared serial_key md j) by (intros Hx; rewrite (S3 Hx) in H2; discriminate H2). rewrite (S2 N1) in H1. rewrite (S4 N2) in H2.
    exists (md_serial m), (md_serial q). split; [|done]. intros E. apply N1. exists j, m, q, (md_serial m). unfold serial_key.
    rewrite <- Km, <- Kq, Ko, Kp, H1, H2, E. done.
  - assert (N1 : ¬ shared wwn_key md i) by (intros Hx; rewrite (W1 Hx) in H1; discriminate H1).
    assert (N2 : ¬ shared wwn_key md j) by (intros Hx; rewrite (W3 Hx) in H2; discriminate H2). rewrite (W2 N1) in H1. rewrite (W4 N2) in H2.
    exists (md_wwn m), (md_wwn q). split; [|done]. intros E. apply N1. exists j, m, q, (md_wwn m). unfold wwn_key.
    rewrite <- Km, <- Kq, Ko, Kp, H1, H2, E. done.
Qed.

(** Two disks with one serial number, a partition on the first and a mirror on it. *)
Definition sample_files : list (string * string) :=
  let nl := String (Ascii.ascii_of_nat 10) "" in
  (λ '(p, v), (String.append "class/block/" p, String.append v nl)) <$>
  [ ("sda/dev", "8:0"); ("sda/size", "100"); ("sda/ro", "0"); ("sda/removable", "0"); ("sda/diskseq", "1");
    ("sdb/dev", "8:16"); ("sdb/size", "100"); ("sdb/ro", "0"); ("sdb/removable", "0"); ("sdb/diskseq", "2");
    ("sda1/partition", "1"); ("sda1/start", "8"); ("sda1/dev", "8:1"); ("sda1/size", "50"); ("sda1/ro", "0");
    ("md0/dev", "9:0"); ("md0/size", "40"); ("md0/ro", "0"); ("md0/removable", "0"); ("md0/diskseq", "3") ].
Definition sample_page : string := String.string_of_list_ascii ((ascii_of_N ∘ Z.to_N) <$> ([0; 128; 0; 2] ++ codes "S1")).
Definition find_path {A} (l : list (string * A)) (p : string) : option A := snd <$> List.find (λ x, String.eqb x.1 p) l.
Definition sample_sysfs : Sysfs :=
  mkSysfs
    (find_path [ ("class/block", ["sdb"; "sda1"; "md0"; "sda"]); ("devices/ata1/sda/holders", []); ("devices/ata1/sda/slaves", []);
                 ("devices/ata2/sdb/holders", []); ("devices/ata2/sdb/slaves", []); ("devices/ata1/sda/sda1/holders", ["md0"]);
                 ("devices/virtual/block/md0/holders", []); ("devices/virtual/block/md0/slaves", ["sda1"]) ])
    (Some (find_path [ ("class/block/sda", "../../devices/ata1/sda"); ("class/block/sdb", "../../devices/ata2/sdb");
                 ("class/block/sda1", "../../devices/ata1/sda/sda1"); ("class/block/md0", "../../devices/virtual/block/md0");
                 ("devices/ata1/sda/sda1/holders/md0", "../../../../virtual/block/md0");
                 ("devices/virtual/block/md0/slaves/sda1", "../../../../ata1/sda/sda1") ]))
    (λ p, if (p == "class/block/sda/device/vpd_pg80") || (p == "class/block/sdb/device/vpd_pg80") then Opened (mkReader sample_page false)
          else match find_path sample_files p with Some v => Opened (mkReader v false) | None => NotExist end).
Definition sample_views : views := mkViews sample_sysfs (λ _, (sample_sysfs, sample_sysfs)) (λ _, (sample_sysfs, sample_sysfs)) sample_sysfs.
Definition snapshot_of (r : res storage_error storageSnapshot) : storageSnapshot :=
  match r with Ok snap => snap | Err _ => mkStorage 0 "" false false false false false 0 None [] false end.
Definition sample_snapshot : storageSnapshot := snapshot_of (collectStorage (λ _, []) sample_views).
Lemma collectStorage_exact_witness :
  collectStorage (λ _, []) sample_views = Ok sample_snapshot
  ∧ ((λ o, (bo_Name o, bo_ParentName o, bo_SerialStatus o, tr_Name <$> bo_lowerBlocks o)) <$> elems (ss_Observations sample_snapshot))
    = [("md0", "", identityUnavailable, ["sda1"]); ("sda", "", identityAmbiguous, []); ("sda1", "sda", identityZero, []);
       ("sdb", "", identityAmbiguous, [])]
  ∧ ∃ entries names md obs,
    fs_ReadDir (vw_before sample_views) "class/block" = Some entries ∧ names = sort_by id entries
    ∧ (∃ final, fs_ReadDir (vw_after sample_views) "class/block" = Some final ∧ final ≡ₚ entries)
    ∧ NoDup names ∧ Forall (λ n, validBlockName n = true) names ∧ len names ≤ maxBlockEntries
    ∧ Forall2 (λ n m, observeStorageBlockMetadata (vw_first sample_views n).1 (vw_first sample_views n).2 n = Ok m) names md
    ∧ Forall2 (λ n m, observeStorageBlockMetadata (vw_second sample_views n).1 (vw_second sample_views n).2 n = Ok m) names md
    ∧ NoDup (md ≫= sequence_of)
    ∧ ss_Observations sample_snapshot = Some obs ∧ length obs = length names
    ∧ ∀ i o, obs !! i = Some o → ∃ m, md !! i = Some m ∧ node_ok (λ _, []) names md i m o.
Proof.
  assert (H : collectStorage (λ _, []) sample_views = Ok sample_snapshot) by (vm_compute; reflexivity).
  split; [exact H|]. split; [vm_compute; reflexivity|]. apply (collectStorage_exact _ _ _ H).
Defined.
End BlockInventory.
