(* ===== verification/StorageDiscovery.v ===== *)
(** * Trusted storage discovery: [storage_source_set.go] and [storage_discovery.go]

    [completeObservedBlockDeviceSet] accepts a complete inventory and lists its
    whole devices; [planTrustedStorageDiscovery] sorts them into candidates and
    exclusions; [discoverTrustedStorageWith] opens the candidates between two
    observations and closes what it opened when they differ.  Descriptors are
    numbers, and the descriptors closed by a call are part of its result. *)

From S2P Require Import Prelude GoStrings GoPath MountInfo BlockTopology BlockInventory.

Module StorageDiscovery.
Import GoPath MountInfo BlockTopology BlockInventory.

(** ** Snapshots *)
(** the time of observation is kept as seconds; the zero time is 0 *)
Record mountSnapshot := mkMounts {
  ms_SchemaVersion : Z; ms_ObservedAt : Z; ms_Scope : string; ms_ReadOnly : bool; ms_FilesystemContentsRead : bool;
  ms_MountOperationsPerformed : bool; ms_MountCount : Z; ms_Mounts : slice mountObservation; ms_Limitations : list string;
  ms_collectionComplete : bool }.

(** [volumeprobe/snapshot.go] *)
Record BlockDeviceGeneration := mkGeneration { bg_Major : Z; bg_Minor : Z; bg_DiskSequence : Z }.
#[export] Instance BlockDeviceGeneration_eq_dec : EqDecision BlockDeviceGeneration. Proof. solve_decision. Defined.
Record ObservedBlockDevice := mkDevice { od_Name : string; od_Generation : BlockDeviceGeneration }.
#[export] Instance ObservedBlockDevice_eq_dec : EqDecision ObservedBlockDevice. Proof. solve_decision. Defined.

Inductive discovery_error := errStorageDiscoveryIncomplete.
#[export] Instance discovery_error_eq_dec : EqDecision discovery_error. Proof. solve_decision. Defined.
Inductive set_error := ErrSnapshot | ErrMetadata | ErrNumbers | ErrDisk | ErrPartition | ErrKind | ErrParent | ErrLower | ErrTopology.
#[export] Instance set_error_eq_dec : EqDecision set_error. Proof. solve_decision. Defined.

(** ** [storage_source_set.go] *)
Definition validObservedSysfsTarget (target name : string) : bool :=
  (target != "") && (slength target <=? maxSysfsBlockLinkBytes) && ValidPath target && negb (IsAbs target)
  && has_prefix "devices/" target && (Base target == name).
Definition validIdentityStatus (status : identityStatus) : bool :=
  match status with
  | identityUnavailable | identityPresent | identityInvalid | identityAmbiguous | identityUnreadable => true
  | identityZero => false
  end.
Definition generation_of (o : blockObservation) : BlockDeviceGeneration :=
  mkGeneration (bo_Major o) (bo_Minor o) (bo_diskSequence o).

Record set_state := mkSetState {
  st_previousName : string; st_targets : gset string; st_numbers : gset (Z * Z); st_sequences : gset Z;
  st_devices : list ObservedBlockDevice }.
Definition bad_disk (o : blockObservation) : bool :=
  negb (bo_PartitionNumber o =? 0) || (bo_ParentName o != "") || bool_decide (is_Some (bo_ParentMajor o))
  || bool_decide (is_Some (bo_ParentMinor o)) || negb (bo_parentDiskSeq o =? 0) || (bo_diskSequence o =? 0)
  || negb (validIdentityStatus (bo_SerialStatus o)) || negb (validIdentityStatus (bo_WWNStatus o)).
Definition bad_partition (o : blockObservation) : bool :=
  (bo_PartitionNumber o =? 0) || (bo_ParentName o == "") || bool_decide (bo_ParentMajor o = None)
  || bool_decide (bo_ParentMinor o = None) || (bo_parentDiskSeq o =? 0) || negb (bo_diskSequence o =? 0).
Definition device_step (st : set_state) (o : blockObservation) : res set_error set_state :=
  refuse negb (validBlockName (bo_Name o)) || ((st_previousName st != "") && str_leb (bo_Name o) (st_previousName st))
         || ((bo_Major o =? 0) && (bo_Minor o =? 0)) || negb (validObservedSysfsTarget (bo_sysfsTarget o) (bo_Name o))
         || (bo_sysfsTarget o ∈? st_targets st) => ErrMetadata ;;
  refuse (bo_Major o, bo_Minor o) ∈? st_numbers st => ErrNumbers ;;
  let st' devices sequences :=
    mkSetState (bo_Name o) ({[bo_sysfsTarget o]} ∪ st_targets st) ({[(bo_Major o, bo_Minor o)]} ∪ st_numbers st) sequences devices in
  if bo_Kind o == "block" then
    refuse bad_disk o || (bo_diskSequence o ∈? st_sequences st) => ErrDisk ;;
    Ok (st' (st_devices st ++ [mkDevice (bo_Name o) (generation_of o)]) ({[bo_diskSequence o]} ∪ st_sequences st))
  else if bo_Kind o == "partition" then
    refuse bad_partition o => ErrPartition ;;
    Ok (st' (st_devices st) (st_sequences st))
  else Err ErrKind.

(** the second loop: parents and slaves *)
Definition bad_parent (byName : gmap string blockObservation) (o : blockObservation) : bool :=
  match byName !! bo_ParentName o with
  | None => true
  | Some parent =>
    (bo_Kind parent != "block") || negb (bool_decide (bo_ParentMajor o = Some (bo_Major parent)))
    || negb (bool_decide (bo_ParentMinor o = Some (bo_Minor parent))) || negb (bo_diskSequence parent =? bo_parentDiskSeq o)
    || (Dir (bo_sysfsTarget o) != bo_sysfsTarget parent)
  end.
Definition lower_step (byName : gmap string blockObservation) (o : blockObservation) (seenLower : gset string) (r : blockTopologyRef) :
  res set_error (gset string) :=
  match byName !! tr_Name r with
  | None => Err ErrLower
  | Some lower =>
    refuse (tr_Name r == bo_Name o) || (tr_Name r ∈? seenLower) || negb (sameTopologyReference lower r) => ErrLower ;;
    Ok ({[tr_Name r]} ∪ seenLower)
  end.
Definition relations_step (byName : gmap string blockObservation) (u : unit) (o : blockObservation) : res set_error unit :=
  refuse (bo_Kind o == "partition") && bad_parent byName o => ErrParent ;;
  _ ← for_range (λ _, lower_step byName o) 0 ∅ (bo_lowerBlocks o);
  Ok tt.

Definition completeObservedBlockDeviceSet (snapshot : storageSnapshot) : res set_error (list ObservedBlockDevice) :=
  refuse negb (ss_SchemaVersion snapshot =? 2) || (ss_Scope snapshot != "kernel-sysfs-only")
         || negb (ss_InventoryReadOnly snapshot) || ss_BlockDevicesOpened snapshot || ss_ContentRead snapshot
         || ss_MutationsPerformed snapshot || ss_StableIdentityAvailable snapshot || negb (ss_collectionComplete snapshot)
         || is_nil (ss_Observations snapshot) || (maxBlockEntries <? slen (ss_Observations snapshot))
         || negb (ss_DeviceCount snapshot =? slen (ss_Observations snapshot)) => ErrSnapshot ;;
  let inv := elems (ss_Observations snapshot) in
  st ← for_range (λ _, device_step) 0 (mkSetState "" ∅ ∅ ∅ []) inv;
  _ ← for_range (λ _, relations_step (by_name inv)) 0 tt inv;
  _ ← redact ErrTopology (validateObservedStorageTopology inv);
  Ok (st_devices st).

(** ** The plan: [storage_discovery.go] *)
Record storageDiscoveryCandidate := mkCandidate {
  sc_Name : string; sc_Generation : BlockDeviceGeneration; sc_SerialStatus : identityStatus; sc_WWNStatus : identityStatus }.
Record storageDiscoveryExclusion := mkExclusion { se_Name : string; se_Reason : string }.
Record storageDiscoveryPlan := mkPlan {
  pl_Candidates : list storageDiscoveryCandidate; pl_Excluded : list storageDiscoveryExclusion;
  pl_HasAmbiguousIdentity : bool; pl_IdentityEvidenceIncomplete : bool }.

Definition hasUnsupportedMultiDeviceFilesystem (mounts : list mountObservation) : bool :=
  existsb (λ m, let fs := to_lower (mo_Filesystem m) in (fs == "btrfs") || (fs == "bcachefs") || (fs == "zfs")) mounts.
Definition identityEvidenceMissing (status : identityStatus) : bool :=
  (status == identityUnavailable) || (status == identityInvalid) || (status == identityUnreadable).
Definition isVirtualBlockTarget (target : string) : bool := has_prefix "devices/virtual/block/" target.

Fixpoint stacked_loop (disk : blockObservation) (inv : inventory) (rest : list blockObservation) : res topology_error bool :=
  match rest with
  | [] => Ok false
  | o :: rest' =>
    if (bo_Kind o != "block") || (bo_Name o == bo_Name disk) || (len (bo_lowerBlocks o) =? 0) then stacked_loop disk inv rest'
    else
      found ← observedBlockNodeDependsOnWholeDisk o disk inv;
      if found : bool then Ok true else stacked_loop disk inv rest'
  end.
Definition wholeDiskHasStackedDependent (disk : blockObservation) (inv : inventory) : res topology_error bool :=
  stacked_loop disk inv inv.

Definition validMountSnapshot (snapshot : mountSnapshot) : bool :=
  if negb (ms_SchemaVersion snapshot =? 1) || (ms_Scope snapshot != "current-process-mount-namespace")
     || negb (ms_ReadOnly snapshot) || ms_FilesystemContentsRead snapshot || ms_MountOperationsPerformed snapshot
     || negb (ms_collectionComplete snapshot) || (ms_ObservedAt snapshot =? 0) || is_nil (ms_Mounts snapshot)
     || (maxMountEntries <? slen (ms_Mounts snapshot)) || negb (ms_MountCount snapshot =? slen (ms_Mounts snapshot)) then false
  else forallb (λ m, rooted (mo_MountPoint m) && validMountFilesystem (mo_Filesystem m)) (elems (ms_Mounts snapshot)).

(** why a device is left out; empty when it is a candidate *)
Definition exclusion_reason (storage : storageSnapshot) (mounts : mountSnapshot) (o : blockObservation) : res discovery_error string :=
  let inv := elems (ss_Observations storage) in
  reason ← (if isVirtualBlockTarget (bo_sysfsTarget o) then Ok "virtual-block-node"
            else if negb (len (bo_lowerBlocks o) =? 0) then Ok "stacked-block-node"
            else stacked ← redact errStorageDiscoveryIncomplete (wholeDiskHasStackedDependent o inv);
                 Ok (if stacked : bool then "member-of-stacked-block-node" else ""));
  reason ← (if reason == "" then
              mounted ← redact errStorageDiscoveryIncomplete
                          (observedWholeDiskHasVisibleDependentMount o (ss_Observations storage) (ms_Mounts mounts));
              Ok (if mounted : bool then "visible-dependent-mount" else "")
            else Ok reason);
  Ok (if (reason == "") && bo_Removable o then "removable-device" else reason).

(** the zero value of an absent map entry *)
Definition zero_block : blockObservation :=
  mkBlock "" "" 0 0 0 false false 0 0 "" None None identityZero identityZero [] [] 0 0 "" [].
Definition plan_step (storage : storageSnapshot) (mounts : mountSnapshot) (plan : storageDiscoveryPlan) (device : ObservedBlockDevice) :
  res discovery_error storageDiscoveryPlan :=
  let o := default zero_block (by_name (elems (ss_Observations storage)) !! od_Name device) in
  let ambiguous := pl_HasAmbiguousIdentity plan || (bo_SerialStatus o == identityAmbiguous) || (bo_WWNStatus o == identityAmbiguous) in
  let incomplete := pl_IdentityEvidenceIncomplete plan || identityEvidenceMissing (bo_SerialStatus o)
                    || identityEvidenceMissing (bo_WWNStatus o) in
  reason ← exclusion_reason storage mounts o;
  if reason != "" then Ok (mkPlan (pl_Candidates plan) (pl_Excluded plan ++ [mkExclusion (od_Name device) reason]) ambiguous incomplete)
  else Ok (mkPlan (pl_Candidates plan ++ [mkCandidate (od_Name device) (od_Generation device) (bo_SerialStatus o) (bo_WWNStatus o)])
             (pl_Excluded plan) ambiguous incomplete).

Definition planTrustedStorageDiscovery (storage : storageSnapshot) (mounts : mountSnapshot) : res discovery_error storageDiscoveryPlan :=
  allDevices ← redact errStorageDiscoveryIncomplete (completeObservedBlockDeviceSet storage);
  refuse negb (validMountSnapshot mounts) => errStorageDiscoveryIncomplete ;;
  refuse hasUnsupportedMultiDeviceFilesystem (elems (ms_Mounts mounts)) => errStorageDiscoveryIncomplete ;;
  for_range (λ _, plan_step storage mounts) 0 (mkPlan [] [] false false) allDevices.

(** ** What a complete set is *)
Definition lt_name (a b : string) : Prop := str_lt a b = true.
Lemma str_lt_ne a b : str_lt a b = true → a ≠ b.
Proof. unfold str_lt. intros H ->. by rewrite str_leb_refl in H. Qed.
Lemma str_lt_trans a b c : str_lt a b = true → str_lt b c = true → str_lt a c = true.
Proof.
  unfold str_lt. rewrite !negb_true_iff, <- !not_true_iff_false. intros H1 H2 H3. apply H2.
  destruct (bytes_leb_total (codes a) (codes b)) as [H|H]; [|done]. by eapply bytes_leb_trans.
Qed.

Definition device_of (o : blockObservation) : ObservedBlockDevice := mkDevice (bo_Name o) (generation_of o).
Definition whole (o : blockObservation) : bool := bo_Kind o == "block".
Lemma device_step_Ok st o st' : device_step st o = Ok st' →
  bo_Name o ≠ "" ∧ (st_previousName st ≠ "" → lt_name (st_previousName st) (bo_Name o))
  ∧ st_previousName st' = bo_Name o ∧ st_devices st' = st_devices st ++ (if whole o then [device_of o] else [])
  ∧ (whole o = true → bo_diskSequence o ≠ 0).
Proof.
  unfold device_step. intros [Hm H]%refuse_Ok. apply refuse_Ok in H as [_ H].
  apply orb_false_iff in Hm as [Hm _]. apply orb_false_iff in Hm as [Hm _]. apply orb_false_iff in Hm as [Hm _].
  apply orb_false_iff in Hm as [Hn%negb_false_iff%validBlockName_ne Hp]. split; [done|]. split.
  { intros Hne. unfold lt_name, str_lt. rewrite bool_decide_eq_false_2 in Hp by done. cbn in Hp. by rewrite Hp. }
  unfold whole. case_bool_decide as Hk.
  - apply refuse_Ok in H as [Hb [= <-]]. cbn. split_and!; [done|done|]. intros _. apply orb_false_iff in Hb as [Hb _].
    unfold bad_disk in Hb. repeat (apply orb_false_iff in Hb as [Hb ?]). by apply Z.eqb_neq.
  - case_bool_decide; [|done]. apply refuse_Ok in H as [_ [= <-]]. cbn. by rewrite app_nil_r.
Qed.

Lemma devices_Ok i st inv st' : for_range (λ _, device_step) i st inv = Ok st' →
  StronglySorted lt_name (bo_Name <$> inv)
  ∧ (st_previousName st ≠ "" → Forall (lt_name (st_previousName st)) (bo_Name <$> inv))
  ∧ st_devices st' = st_devices st ++ (device_of <$> filter (λ o, whole o = true) inv)
  ∧ Forall (λ o, whole o = true → bo_diskSequence o ≠ 0) inv.
Proof.
  revert i st. induction inv as [|o inv IH]; intros i st; cbn [for_range].
  - intros [= <-]. cbn. rewrite app_nil_r. split_and!; [constructor|constructor|done|constructor].
  - destruct (device_step st o) as [st1|] eqn:Hs; [|done]. intros H. apply device_step_Ok in Hs as (Hn & Hp & Hn1 & Hd & Hq).
    apply IH in H as (HS & HF & Hds & HQ). rewrite Hn1 in HF. rewrite fmap_cons, filter_cons, Hds, Hd. split_and!.
    + constructor; auto.
    + intros Hne. specialize (Hp Hne). constructor; [done|]. eapply Forall_impl; [by apply HF|]. intros n. by apply str_lt_trans.
    + rewrite <- app_assoc. destruct (whole o); [by rewrite decide_True|by rewrite decide_False].
    + by constructor.
Qed.

(** Device numbers and the sequences of whole devices are fresh. *)
Definition number_of (o : blockObservation) : Z * Z := (bo_Major o, bo_Minor o).
Definition sequences (inv : list blockObservation) : list Z := bo_diskSequence <$> filter (λ o, whole o = true) inv.
Record numbered (numbers : gset (Z * Z)) (seqs : gset Z) (inv : inventory) : Prop := {
  nb_names : Forall (λ o, validBlockName (bo_Name o) = true) inv;
  nb_nonzero : Forall (λ o, number_of o ≠ (0, 0)) inv;
  nb_numbers : NoDup (number_of <$> inv) ∧ (∀ n, n ∈ numbers → n ∉ number_of <$> inv);
  nb_sequences : NoDup (sequences inv) ∧ (∀ q, q ∈ seqs → q ∉ sequences inv);
  nb_whole : Forall (λ o, whole o = true → bo_diskSequence o ≠ 0) inv }.
Lemma device_step_numbered st o st' : device_step st o = Ok st' →
  validBlockName (bo_Name o) = true ∧ number_of o ≠ (0, 0) ∧ number_of o ∉ st_numbers st ∧ st_numbers st' = {[number_of o]} ∪ st_numbers st
  ∧ (if whole o then bo_diskSequence o ≠ 0 ∧ bo_diskSequence o ∉ st_sequences st ∧ st_sequences st' = {[bo_diskSequence o]} ∪ st_sequences st
     else st_sequences st' = st_sequences st).
Proof.
  unfold device_step. intros [Hm H]%refuse_Ok. apply refuse_Ok in H as [Hn%bool_decide_eq_false H].
  apply orb_false_iff in Hm as [Hm _]. apply orb_false_iff in Hm as [Hm _]. apply orb_false_iff in Hm as [Hm Hz].
  apply orb_false_iff in Hm as [Hv%negb_false_iff _]. split; [done|].
  split; [unfold number_of; intros [= E1 E2]; by rewrite E1, E2 in Hz|]. split; [done|]. unfold whole. case_bool_decide as Hk.
  - apply refuse_Ok in H as [Hb [= <-]]. cbn. split; [done|]. apply orb_false_iff in Hb as [Hb Hs%bool_decide_eq_false].
    unfold bad_disk in Hb. repeat (apply orb_false_iff in Hb as [Hb ?]). split_and!; [by apply Z.eqb_neq|done|done].
  - case_bool_decide; [|done]. by apply refuse_Ok in H as [_ [= <-]].
Qed.
Lemma devices_numbered i st inv st' : for_range (λ _, device_step) i st inv = Ok st' → numbered (st_numbers st) (st_sequences st) inv.
Proof.
  revert i st. induction inv as [|o inv IH]; intros i st; cbn [for_range].
  - intros _. split; try constructor; try constructor; set_solver.
  - destruct (device_step st o) as [st1|] eqn:Hs; [|done]. intros [N1 N2 [N3 N3'] [N4 N4'] N5]%IH.
    apply device_step_numbered in Hs as (H1 & H2 & H3 & H4 & H5). rewrite H4 in N3'. unfold sequences in *.
    split; [by constructor|by constructor| | |].
    + rewrite fmap_cons. split; [constructor; [apply N3'; set_solver|done]|]. intros n Hn. apply not_elem_of_cons.
      split; [intros ->; done|]. apply N3'. set_solver.
    + unfold sequences. rewrite filter_cons. destruct (whole o) eqn:Hw; cbn [decide decide_rel] in *; [rewrite decide_True by done|rewrite decide_False by done].
      * destruct H5 as (H5 & H6 & H7). rewrite H7 in N4'. rewrite fmap_cons.
        split; [constructor; [apply N4'; set_solver|done]|]. intros q Hq. apply not_elem_of_cons. split; [intros ->; done|]. apply N4'. set_solver.
      * rewrite H5 in N4'. done.
    + constructor; [|done]. intros Hw. rewrite Hw in H5. tauto.
Qed.

Lemma lt_name_NoDup l : StronglySorted lt_name l → NoDup l.
Proof.
  induction 1 as [|n l HS IH HF]; constructor; [|done]. intros Hin. rewrite Forall_forall in HF.
  by apply (str_lt_ne n n); [apply HF|].
Qed.

Lemma complete_set_Ok storage devices : completeObservedBlockDeviceSet storage = Ok devices →
  ∃ inv, ss_Observations storage = Some inv ∧ len inv ≤ maxBlockEntries ∧ NoDup (bo_Name <$> inv)
  ∧ devices = device_of <$> filter (λ o, whole o = true) inv ∧ (∀ o, o ∈ inv → grounded (by_name inv) (bo_Name o)) ∧ numbered ∅ ∅ inv.
Proof.
  unfold completeObservedBlockDeviceSet. intros [Hg H]%refuse_Ok. repeat (apply orb_false_iff in Hg as [Hg ?]).
  destruct (ss_Observations storage) as [inv|]; [|done]. exists inv. cbn [elems default from_option id] in H.
  apply res_bind_Ok in H as (st & Hst & H). apply res_bind_Ok in H as (_ & _ & H). apply res_bind_Ok in H as ([] & Hv & [= <-]).
  pose proof (devices_numbered _ _ _ _ Hst) as Hnum. apply devices_Ok in Hst as (HS & _ & Hd & _). cbn in Hd. split_and!; try done.
  - by apply Z.ltb_ge.
  - by apply lt_name_NoDup.
  - apply redact_Ok in Hv. by apply validate_grounded.
Qed.

(** ** The plan *)
Lemma stacked_loop_spec disk inv rest b : (∀ o, o ∈ rest → o ∈ inv) → stacked_loop disk inv rest = Ok b →
  if b then ∃ o, o ∈ rest ∧ bo_lowerBlocks o ≠ [] ∧ stands_on inv o disk
  else ∀ o, o ∈ rest → bo_Kind o = "block" → bo_Name o ≠ bo_Name disk → bo_lowerBlocks o ≠ [] → ¬ stands_on inv o disk.
Proof.
  induction rest as [|o rest IH]; intros Hin; cbn [stacked_loop]; [intros [= <-]; set_solver|].
  destruct (_ || _) eqn:E.
  - intros H%IH; [|set_solver]. destruct b; [set_solver|]. intros o' [->|Ho]%elem_of_cons Hk Hn Hl; [|by apply H].
    exfalso. rewrite (bool_decide_eq_true_2 (bo_Kind o = "block")), (bool_decide_eq_false_2 (bo_Name o = _)) in E by done.
    apply Z.eqb_eq in E. unfold len in E. destruct (bo_lowerBlocks o); [done|simpl in E; lia].
  - intros (found & Hf & H)%res_bind_Ok. destruct (dependsOnWholeDisk_spec o disk inv ltac:(apply Hin; left)) as [_ Hd].
    apply Hd in Hf as [_ Hf]. destruct found.
    + injection H as <-. exists o. split_and!; [by left| |done]. apply orb_false_iff in E as [_ E%Z.eqb_neq]. intros E'. by rewrite E' in E.
    + apply IH in H; [|set_solver]. destruct b; [set_solver|]. intros o' [->|Ho]%elem_of_cons; [done|]. by apply H.
Qed.

(** A whole device nothing depends on. *)
Record unused (inv : inventory) (mounts : list mountObservation) (o : blockObservation) : Prop := {
  un_virtual : isVirtualBlockTarget (bo_sysfsTarget o) = false;
  un_leaf : bo_lowerBlocks o = [];
  un_fixed : bo_Removable o = false;
  un_stacked : ∀ b, b ∈ inv → bo_Kind b = "block" → bo_lowerBlocks b ≠ [] → ¬ stands_on inv b o;
  un_mounts : ∀ m b, m ∈ mounts → b ∈ inv → bo_Major b = mo_DeviceMajor m → bo_Minor b = mo_DeviceMinor m → ¬ stands_on inv b o }.

Lemma exclusion_reason_none storage mounts inv ms o :
  ss_Observations storage = Some inv → ms_Mounts mounts = Some ms → NoDup (bo_Name <$> inv) → o ∈ inv →
  exclusion_reason storage mounts o = Ok "" → unused inv ms o.
Proof.
  intros Hinv Hms HN Ho. unfold exclusion_reason. rewrite Hinv, Hms. cbn [elems default from_option id].
  intros (r1 & H1 & H)%res_bind_Ok. apply res_bind_Ok in H as (r2 & H2 & [= H3]).
  assert (Hr2 : r2 = "") by (destruct (bool_decide (r2 = "")) eqn:E; cbn in H3; [by apply bool_decide_eq_true in E|done]).
  subst r2. cbn in H3. destruct (bo_Removable o) eqn:Hrem; [done|].
  assert (Hr1 : r1 = "").
  { destruct (decide (r1 = "")) as [|Hne]; [done|]. rewrite bool_decide_eq_false_2 in H2 by done. by injection H2. }
  subst r1. cbn in H2.
  apply res_bind_Ok in H2 as (mounted & Hm%redact_Ok & [= H2]). destruct mounted; [done|].
  destruct (isVirtualBlockTarget _) eqn:Hv; [done|]. destruct (negb _) eqn:Hl; [done|].
  apply res_bind_Ok in H1 as (stacked & Hs%redact_Ok & [= H1]). destruct stacked; [done|].
  assert (Hleaf : bo_lowerBlocks o = []).
  { apply negb_false_iff, Z.eqb_eq in Hl. unfold len in Hl. by destruct (bo_lowerBlocks o). }
  split; try done.
  - intros b Hb Hk Hlb Hst. apply stacked_loop_spec in Hs; [|done]. apply (Hs b Hb Hk); try done.
    intros He.
    assert (Hbl := proj2 (by_name_lookup inv (bo_Name b) b HN) (conj Hb eq_refl)).
    assert (Hol := proj2 (by_name_lookup inv (bo_Name b) o HN) (conj Ho (eq_sym He))). congruence.
  - intros m b Hmm Hb E1 E2 Hst. apply visible_mount_spec in Hm. destruct Hm as [_ Hm]. discriminate Hm. exists m, b. done.
Qed.

Section plan.
Context (storage : storageSnapshot) (mounts : mountSnapshot).
Let obs (d : ObservedBlockDevice) : blockObservation := default zero_block (by_name (elems (ss_Observations storage)) !! od_Name d).

Lemma plan_step_Ok plan d plan' : plan_step storage mounts plan d = Ok plan' →
  ∃ reason, exclusion_reason storage mounts (obs d) = Ok reason
  ∧ pl_Candidates plan' = pl_Candidates plan ++
      (if reason == "" then [mkCandidate (od_Name d) (od_Generation d) (bo_SerialStatus (obs d)) (bo_WWNStatus (obs d))] else [])
  ∧ pl_Excluded plan' = pl_Excluded plan ++ (if reason == "" then [] else [mkExclusion (od_Name d) reason]).
Proof.
  unfold plan_step. fold (obs d). intros (reason & Hr & H)%res_bind_Ok. exists reason. split; [done|].
  destruct (reason == ""); cbn in H; injection H as <-; cbn; by rewrite app_nil_r.
Qed.

Lemma plan_loop i plan devices plan' : for_range (λ _, plan_step storage mounts) i plan devices = Ok plan' →
  (∀ c, c ∈ pl_Candidates plan' → c ∈ pl_Candidates plan ∨
     ∃ d, d ∈ devices ∧ exclusion_reason storage mounts (obs d) = Ok "" ∧ sc_Name c = od_Name d ∧ sc_Generation c = od_Generation d)
  ∧ (sc_Name <$> pl_Candidates plan') ++ (se_Name <$> pl_Excluded plan')
    ≡ₚ ((sc_Name <$> pl_Candidates plan) ++ (se_Name <$> pl_Excluded plan)) ++ (od_Name <$> devices).
Proof.
  revert i plan. induction devices as [|d devices IH]; intros i plan; cbn [for_range].
  - intros [= <-]. cbn. rewrite app_nil_r. split; [auto|done].
  - destruct (plan_step storage mounts plan d) as [p1|] eqn:Hp; [|done]. intros H.
    apply plan_step_Ok in Hp as (reason & Hr & Hc & He). apply IH in H as [HC HP]. rewrite Hc in HC. split.
    + intros c Hin. destruct (HC c Hin) as [[Hin'|Hin']%elem_of_app|(d' & Hd' & ? & ?)]; [by left| |right; exists d'; set_solver].
      revert Hin'. case_bool_decide as Hre; [|set_solver]. intros ->%list_elem_of_singleton. right. exists d. subst reason. cbn. set_solver.
    + rewrite HP, Hc, He. rewrite !fmap_app, fmap_cons. case_bool_decide; cbn; solve_Permutation.
Qed.
End plan.

(** What a plan promises about the inventory and the mounts it was made from. *)
Definition sound_plan (storage : storageSnapshot) (mounts : mountSnapshot) (plan : storageDiscoveryPlan) : Prop :=
  ∃ inv ms, ss_Observations storage = Some inv ∧ ms_Mounts mounts = Some ms ∧ (NoDup (bo_Name <$> inv) ∧ numbered ∅ ∅ inv)
  ∧ (∀ c, c ∈ pl_Candidates plan → ∃ o, o ∈ inv ∧ bo_Name o = sc_Name c ∧ bo_Kind o = "block"
        ∧ generation_of o = sc_Generation c ∧ unused inv ms o)
  ∧ (sc_Name <$> pl_Candidates plan) ++ (se_Name <$> pl_Excluded plan) ≡ₚ bo_Name <$> filter (λ o, whole o = true) inv
  ∧ Forall (λ m, to_lower (mo_Filesystem m) ∉ ["btrfs"; "bcachefs"; "zfs"]) ms.
Lemma plan_sound storage mounts plan : planTrustedStorageDiscovery storage mounts = Ok plan → sound_plan storage mounts plan.
Proof.
  unfold planTrustedStorageDiscovery. intros (devices & Hd%redact_Ok & H)%res_bind_Ok.
  apply refuse_Ok in H as [Hv%negb_false_iff H]. apply refuse_Ok in H as [Hfs H].
  apply complete_set_Ok in Hd as (inv & Hinv & _ & HN & -> & _ & Hnum).
  assert (Hms : ∃ ms, ms_Mounts mounts = Some ms).
  { unfold validMountSnapshot in Hv. destruct (ms_Mounts mounts) as [ms|]; [by exists ms|]. cbn in Hv. by rewrite !orb_true_r in Hv. }
  destruct Hms as (ms & Hms). exists inv, ms. rewrite Hms in Hfs. apply plan_loop in H as [HC HP].
  split_and!; [done|done|done|done| | |].
  - intros c Hc. destruct (HC c Hc) as [Hn|(d & Hd & Hr & Hn & Hg)]; [by apply not_elem_of_nil in Hn|].
    apply list_elem_of_fmap in Hd as (o & -> & Ho). apply list_elem_of_filter in Ho as [Hw Ho]. exists o.
    rewrite Hinv in Hr. cbn [elems default from_option id device_of od_Name] in Hr.
    rewrite (proj2 (by_name_lookup inv (bo_Name o) o HN) (conj Ho eq_refl)) in Hr. cbn in Hr.
    split_and!; [done|done|by apply bool_decide_eq_true in Hw|done|]. by eapply exclusion_reason_none.
  - rewrite HP. cbn. rewrite <- list_fmap_compose. done.
  - unfold hasUnsupportedMultiDeviceFilesystem in Hfs. cbn [elems default from_option id] in Hfs.
    rewrite existsb_False in Hfs. apply Forall_forall. intros m Hin. specialize (Hfs m Hin) as Hm. cbn in Hm.
    repeat (apply orb_false_iff in Hm as [Hm ?]). rewrite !bool_decide_eq_false in *. set_solver.
Qed.

(** ** Properties *)

(** C17: what the plan offers is unused.  When [planTrustedStorageDiscovery]
    succeeds, every candidate is a whole, fixed, physical device of the inventory,
    under the generation observed there, that no mount lies on and no stacked
    device stands on, through any number of partitions and layers; every whole
    device is either a candidate or excluded, once; and no filesystem with hidden
    backing devices is mounted. *)
Theorem plan_candidates_unused storage mounts plan :
  planTrustedStorageDiscovery storage mounts = Ok plan →
  ∃ inv ms, ss_Observations storage = Some inv ∧ ms_Mounts mounts = Some ms
  ∧ (∀ c, c ∈ pl_Candidates plan → ∃ o, o ∈ inv ∧ bo_Name o = sc_Name c ∧ bo_Kind o = "block"
        ∧ generation_of o = sc_Generation c ∧ unused inv ms o)
  ∧ (sc_Name <$> pl_Candidates plan) ++ (se_Name <$> pl_Excluded plan) ≡ₚ bo_Name <$> filter (λ o, whole o = true) inv
  ∧ Forall (λ m, to_lower (mo_Filesystem m) ∉ ["btrfs"; "bcachefs"; "zfs"]) ms.
Proof. intros (inv & ms & ? & ? & _ & ?)%plan_sound. by exists inv, ms. Qed.

(** a free disk with a partition; a disk in a mirror; a disk with a mounted partition *)
Definition sample_disk (name : string) (minor sequence : Z) (removable : bool) (target : string) (lower : list blockTopologyRef) : blockObservation :=
  mkBlock name "block" 8 minor 1000 false removable 0 0 "" None None identityPresent identityAmbiguous [1] [2] sequence 0 target lower.
Definition sample_part (name : string) (minor number : Z) (parent : string) (pminor pseq : Z) (target : string) : blockObservation :=
  mkBlock name "partition" 8 minor 500 false false number 2048 parent (Some 8) (Some pminor) identityZero identityZero [] [] 0 pseq target [].
Definition sample_inventory : inventory :=
  [ sample_disk "md0" 99 7 false "devices/virtual/block/md0" [mkRef "sdb1" "partition" 8 17 0];
    sample_disk "sda" 0 1 false "devices/ata1/sda" []; sample_part "sda1" 1 1 "sda" 0 1 "devices/ata1/sda/sda1";
    sample_disk "sdb" 16 2 false "devices/ata2/sdb" []; sample_part "sdb1" 17 1 "sdb" 16 2 "devices/ata2/sdb/sdb1";
    sample_disk "sdc" 32 3 false "devices/ata3/sdc" []; sample_part "sdc1" 33 1 "sdc" 32 3 "devices/ata3/sdc/sdc1";
    sample_disk "sdd" 48 4 true "devices/usb1/sdd" [] ].
Definition sample_storage : storageSnapshot :=
  mkStorage 2 "kernel-sysfs-only" true false false false false 8 (Some sample_inventory) limitations true.
Definition sample_mounts : mountSnapshot :=
  mkMounts 1 1700000000 "current-process-mount-namespace" true false false 1 (Some [mkMount "/" "ext4" 8 33 false 1 "/"]) [] true.
Definition sample_plan : storageDiscoveryPlan :=
  mkPlan [mkCandidate "sda" (mkGeneration 8 0 1) identityPresent identityAmbiguous]
    [mkExclusion "md0" "virtual-block-node"; mkExclusion "sdb" "member-of-stacked-block-node";
     mkExclusion "sdc" "visible-dependent-mount"; mkExclusion "sdd" "removable-device"] true false.
Lemma plan_candidates_unused_witness :
  planTrustedStorageDiscovery sample_storage sample_mounts = Ok sample_plan
  ∧ ∃ inv ms, ss_Observations sample_storage = Some inv ∧ ms_Mounts sample_mounts = Some ms
  ∧ (∀ c, c ∈ pl_Candidates sample_plan → ∃ o, o ∈ inv ∧ bo_Name o = sc_Name c ∧ bo_Kind o = "block"
        ∧ generation_of o = sc_Generation c ∧ unused inv ms o)
  ∧ (sc_Name <$> pl_Candidates sample_plan) ++ (se_Name <$> pl_Excluded sample_plan) ≡ₚ bo_Name <$> filter (λ o, whole o = true) inv
  ∧ Forall (λ m, to_lower (mo_Filesystem m) ∉ ["btrfs"; "bcachefs"; "zfs"]) ms.
Proof.
  assert (H : planTrustedStorageDiscovery sample_storage sample_mounts = Ok sample_plan) by (vm_compute; reflexivity).
  split; [exact H|]. apply (plan_candidates_unused _ _ _ H).
Defined.
End StorageDiscovery.
