(* ===== verification/TrustedStorage.v ===== *)
(** * Trusted discovery: [volumeprobe/snapshot.go] and [storage_discovery.go]

    [discoverTrustedStorageWith] plans from one observation of the system, has
    the candidates opened, pairs the descriptors with the candidates, and keeps
    them only when a second observation is the same.  Descriptors are numbers, the
    system calls that open and close them are recorded as events, and what an
    opener owes its caller is the class [OpenerSpec], which the opener of
    [volumeprobe/snapshot_linux.go] implements. *)

From S2P Require Import Prelude GoStrings GoPath MountInfo BlockTopology BlockInventory StorageDiscovery.

Module TrustedStorage.
Import GoPath MountInfo BlockTopology BlockInventory StorageDiscovery.

Definition MaxSources : Z := 32.
Definition maxSwapEntries : Z := 32.
Inductive probe_error := ErrUnsafe.
#[export] Instance probe_error_eq_dec : EqDecision probe_error. Proof. solve_decision. Defined.

(** ** [volumeprobe/snapshot.go] *)

(** a file is its descriptor; [None] is the nil pointer *)
Record BlockDeviceSource := mkSource { bs_File : option nat; bs_Generation : BlockDeviceGeneration }.
#[export] Instance BlockDeviceSource_eq_dec : EqDecision BlockDeviceSource. Proof. solve_decision. Defined.
Definition device_number (g : BlockDeviceGeneration) : Z * Z := (bg_Major g, bg_Minor g).
(** a generation as a map key *)
Definition key (g : BlockDeviceGeneration) : Z * Z * Z := (bg_Major g, bg_Minor g, bg_DiskSequence g).

Definition generation_step (st : gmap (Z * Z) Z * gmap Z (Z * Z)) (g : BlockDeviceGeneration) :
  res probe_error (gmap (Z * Z) Z * gmap Z (Z * Z)) :=
  let '(byDevice, bySequence) := st in
  refuse ((bg_Major g =? 0) && (bg_Minor g =? 0)) || (bg_DiskSequence g =? 0) => ErrUnsafe ;;
  let device := device_number g in
  refuse match byDevice !! device with Some previous => negb (previous =? bg_DiskSequence g) | None => false end => ErrUnsafe ;;
  refuse match bySequence !! bg_DiskSequence g with Some previous => previous != device | None => false end => ErrUnsafe ;;
  Ok (<[device := bg_DiskSequence g]> byDevice, <[bg_DiskSequence g := device]> bySequence).
Definition validGenerationSet (generations : list BlockDeviceGeneration) : bool :=
  is_ok (for_range (λ _, generation_step) 0 (∅, ∅) generations).

Definition validKernelBlockName (name : string) : bool :=
  if (name == "") || (name == ".") || (name == "..") || (64 <? slength name) then false
  else forallb block_char (runes name).

Definition observed_step (st : gset string * gset (Z * Z * Z)) (device : ObservedBlockDevice) :
  res probe_error (gset string * gset (Z * Z * Z)) :=
  refuse negb (validKernelBlockName (od_Name device)) || (od_Name device ∈? st.1) || (key (od_Generation device) ∈? st.2) => ErrUnsafe ;;
  Ok ({[od_Name device]} ∪ st.1, {[key (od_Generation device)]} ∪ st.2).
Definition validateObservedBlockDevices (devices : slice ObservedBlockDevice) : res probe_error unit :=
  refuse is_nil devices || (MaxSources <? slen devices) => ErrUnsafe ;;
  _ ← for_range (λ _, observed_step) 0 (∅, ∅) (elems devices);
  refuse negb (validGenerationSet (od_Generation <$> elems devices)) => ErrUnsafe ;;
  Ok tt.

Definition index_step (st : gmap (Z * Z * Z) nat * nat) (g : BlockDeviceGeneration) : res probe_error (gmap (Z * Z * Z) nat * nat) :=
  refuse bool_decide (is_Some (st.1 !! key g)) => ErrUnsafe ;;
  Ok (<[key g := st.2]> st.1, S st.2).
Record order_state := mkOrder { or_ordered : list BlockDeviceSource; or_generations : gset (Z * Z * Z); or_files : gset nat }.
Definition zero_source : BlockDeviceSource := mkSource None (mkGeneration 0 0 0).
Definition order_step (indices : gmap (Z * Z * Z) nat) (st : order_state) (source : BlockDeviceSource) : res probe_error order_state :=
  match indices !! key (bs_Generation source), bs_File source with
  | Some index, Some file =>
    refuse (key (bs_Generation source) ∈? or_generations st) || (file ∈? or_files st) => ErrUnsafe ;;
    Ok (mkOrder (<[index := source]> (or_ordered st)) ({[key (bs_Generation source)]} ∪ or_generations st) ({[file]} ∪ or_files st))
  | _, _ => Err ErrUnsafe
  end.
Definition OrderCompleteBlockSources (inventory : slice BlockDeviceGeneration) (sources : slice BlockDeviceSource) :
  res probe_error (list BlockDeviceSource) :=
  refuse is_nil inventory || is_nil sources || (MaxSources <? slen inventory) || (MaxSources <? slen sources)
         || negb (slen inventory =? slen sources) || negb (validGenerationSet (elems inventory)) => ErrUnsafe ;;
  indices ← for_range (λ _, index_step) 0 (∅, 0%nat) (elems inventory);
  st ← for_range (λ _, order_step indices.1) 0 (mkOrder (repeat zero_source (length (elems inventory))) ∅ ∅) (elems sources);
  refuse negb (Z.of_nat (size (or_generations st)) =? slen inventory) => ErrUnsafe ;;
  Ok (or_ordered st).

(** the descriptors of a set *)
Definition files (l : list BlockDeviceSource) : list nat := omap bs_File l.

(** ** Observations of [/proc] *)
Definition readBounded (f : file) : option string :=
  match f with
  | Opened r =>
    data ← limit_read (maxProcBytes + 1) r;
    if maxProcBytes <? slength data then None else Some data
  | _ => None
  end.
Definition mount_limitations : list string :=
  ["this is only a snapshot of mounts already visible in this process mount namespace; unmounted disks are not probed";
   "mount source strings, root paths and raw mount options are intentionally omitted";
   "mount presence and read-only flags do not establish filesystem integrity, stable disk identity, bay mapping or WD migration compatibility";
   "no mount or unmount is performed and no block device or filesystem contents are read"].
(** what is returned with an error is the snapshot as it is then: [false] *)
Definition collectMountInventory (mountinfo : file) (now : Z) : mountSnapshot * bool :=
  let snapshot count mounts complete :=
    mkMounts 1 now "current-process-mount-namespace" true false false count (Some mounts) mount_limitations complete in
  match readBounded mountinfo with
  | None => (snapshot 0 [] false, false)
  | Some data =>
    match parseMountInfo data with
    | Err _ => (snapshot 0 [] false, false)
    | Ok observations => (snapshot (len observations) observations true, true)
    end
  end.
Definition mounts_result (r : mountSnapshot * bool) : res discovery_error mountSnapshot :=
  if r.2 then Ok r.1 else Err errStorageDiscoveryIncomplete.

Record swapObservation := mkSwap { so_entries : Z; so_evidence : list Z }.
#[export] Instance swapObservation_eq_dec : EqDecision swapObservation. Proof. solve_decision. Defined.
Definition swap_header : list string := ["Filename"; "Type"; "Size"; "Used"; "Priority"].
Definition swap_line (u : unit) (line : string) : res discovery_error unit :=
  match Fields line with
  | [name; kind; size; used; priority] =>
    refuse (name == "") || ((kind != "file") && (kind != "partition")) => errStorageDiscoveryIncomplete ;;
    refuse bool_decide (ParseUint 64 size = None) => errStorageDiscoveryIncomplete ;;
    refuse bool_decide (ParseUint 64 used = None) => errStorageDiscoveryIncomplete ;;
    refuse bool_decide (ParseInt 32 priority = None) => errStorageDiscoveryIncomplete ;;
    Ok u
  | _ => Err errStorageDiscoveryIncomplete
  end.
Definition collectSwapObservation (sha256 : list Z → list Z) (swaps : file) : res discovery_error swapObservation :=
  match readBounded swaps with
  | None => Err errStorageDiscoveryIncomplete
  | Some data =>
    let lines := split_on (ascii_of_nat 10) (trim_newline data) in
    refuse (Fields (default EmptyString (lines !! 0%nat)) != swap_header) || (maxSwapEntries <? len lines - 1)
      => errStorageDiscoveryIncomplete ;;
    _ ← for_range (λ _, swap_line) 0 tt (tail lines);
    Ok (mkSwap (len lines - 1) (sha256 (codes data)))
  end.

(** ** Comparisons *)
(** every field, and the slaves element by element *)
Definition sameBlockObservation (a b : blockObservation) : bool := bool_decide (a = b).
Definition sameStorageSnapshot (a b : storageSnapshot) : bool :=
  (ss_SchemaVersion a =? ss_SchemaVersion b) && (ss_Scope a == ss_Scope b) && eqb (ss_InventoryReadOnly a) (ss_InventoryReadOnly b)
  && eqb (ss_BlockDevicesOpened a) (ss_BlockDevicesOpened b) && eqb (ss_ContentRead a) (ss_ContentRead b)
  && eqb (ss_MutationsPerformed a) (ss_MutationsPerformed b) && eqb (ss_StableIdentityAvailable a) (ss_StableIdentityAvailable b)
  && (ss_DeviceCount a =? ss_DeviceCount b) && eqb (ss_collectionComplete a) (ss_collectionComplete b)
  && (slen (ss_Observations a) =? slen (ss_Observations b)) && (ss_Limitations a == ss_Limitations b)
  && forallb (λ p, sameBlockObservation p.1 p.2) (zip (elems (ss_Observations a)) (elems (ss_Observations b))).
Definition sameMountSnapshot (a b : mountSnapshot) : bool :=
  (ms_SchemaVersion a =? ms_SchemaVersion b) && (ms_Scope a == ms_Scope b) && eqb (ms_ReadOnly a) (ms_ReadOnly b)
  && eqb (ms_FilesystemContentsRead a) (ms_FilesystemContentsRead b)
  && eqb (ms_MountOperationsPerformed a) (ms_MountOperationsPerformed b) && (ms_MountCount a =? ms_MountCount b)
  && eqb (ms_collectionComplete a) (ms_collectionComplete b) && (slen (ms_Mounts a) =? slen (ms_Mounts b))
  && (ms_Limitations a == ms_Limitations b)
  && forallb (λ p, p.1 == p.2) (zip (elems (ms_Mounts a)) (elems (ms_Mounts b))).

(** ** Descriptors *)
(** a source is opened or closed, or the descriptor of [/dev] that only the opener has *)
Inductive event := EvOpen (f : nat) | EvClose (f : nat) | EvOpenDev | EvCloseDev.
(** the descriptors the events opened and did not close *)
Definition live_from (s : gset nat) (evs : list event) : gset nat :=
  fold_left (λ s e, match e with EvOpen f => {[f]} ∪ s | EvClose f => s ∖ {[f]} | _ => s end) evs s.
Definition live_after (evs : list event) : gset nat := live_from ∅ evs.
(** the descriptors of [/dev] left open *)
Definition dev_change (e : event) : Z := match e with EvOpenDev => 1 | EvCloseDev => -1 | _ => 0 end.
Definition devs_open (evs : list event) : Z := foldr (λ e n, dev_change e + n) 0 evs.
Definition closeBlockDeviceSources (sources : list BlockDeviceSource) : list event := EvClose <$> files sources.
(** the events of the call, the sources it returns and whether it failed *)
Definition storageSourceOpener : Type := list ObservedBlockDevice → list event * slice BlockDeviceSource * bool.
(** Of what it opened, the call leaves open what it hands over, also when it fails,
    and nothing of what it opened for itself. *)
Class OpenerSpec (open : storageSourceOpener) : Prop := {
  opener_live devices evs sources failed : open devices = (evs, sources, failed) → live_after evs = list_to_set (files (elems sources));
  opener_dev devices evs sources failed : open devices = (evs, sources, failed) → devs_open evs = 0 }.

(** ** [volumeprobe/snapshot_linux.go]: the opener *)
(** what [fstat] and [BLKGETDISKSEQ] say of a descriptor *)
Record block_stat := mkStat { st_major : Z; st_minor : Z; st_sequence : option Z }.
Definition matchesBlockGeneration (stat : block_stat) (expected : BlockDeviceGeneration) : bool :=
  if negb (st_major stat =? bg_Major expected) || negb (st_minor stat =? bg_Minor expected) then false
  else match st_sequence stat with
       | Some sequence => negb (sequence =? 0) && (sequence =? bg_DiskSequence expected)
       | None => false
       end.
(** the answers of the kernel: opening [/dev], opening an entry, and the state of a
    descriptor right after it was opened and at the end *)
Record kernel := mkKernel {
  kn_dev : bool; kn_openat : string → option nat; kn_first : nat → option block_stat; kn_final : nat → option block_stat }.
Definition stat_matches (stat : option block_stat) (g : BlockDeviceGeneration) : bool :=
  match stat with Some st => matchesBlockGeneration st g | None => false end.
(** [Err] carries the events of a failed call, the deferred closes included *)
Definition open_step (k : kernel) (st : list event * list BlockDeviceSource) (device : ObservedBlockDevice) :
  res (list event) (list event * list BlockDeviceSource) :=
  let '(evs, sources) := st in
  match kn_openat k (od_Name device) with
  | None => Err (evs ++ closeBlockDeviceSources sources)
  | Some fd =>
    refuse negb (stat_matches (kn_first k fd) (od_Generation device)) => evs ++ [EvOpen fd; EvClose fd] ++ closeBlockDeviceSources sources ;;
    Ok (evs ++ [EvOpen fd], sources ++ [mkSource (Some fd) (od_Generation device)])
  end.
Definition final_check (k : kernel) (source : BlockDeviceSource) : bool :=
  match bs_File source with Some fd => stat_matches (kn_final k fd) (bs_Generation source) | None => false end.
Definition openObservedBlockSourcesAt (k : kernel) : storageSourceOpener := λ devices,
  match validateObservedBlockDevices (Some devices) with
  | Err _ => ([], None, true)
  | Ok _ =>
    if len devices =? 0 then ([], Some [], false)
    else match for_range (λ _, open_step k) 0 ([], []) devices with
    | Err evs => (evs, None, true)
    | Ok (evs, sources) =>
      if forallb (final_check k) sources then (evs, Some sources, false) else (evs ++ closeBlockDeviceSources sources, None, true)
    end
  end.
Definition OpenObservedBlockSources (k : kernel) : storageSourceOpener := λ devices,
  match validateObservedBlockDevices (Some devices) with
  | Err _ => ([], None, true)
  | Ok _ =>
    if len devices =? 0 then ([], Some [], false)
    else if negb (kn_dev k) then ([], None, true)
    else let '(evs, sources, failed) := openObservedBlockSourcesAt k devices in (EvOpenDev :: evs ++ [EvCloseDev], sources, failed)
  end.

Record trustedStorageDiscovery := mkTrusted {
  td_inventory : storageSnapshot; td_mounts : mountSnapshot; td_swap : swapObservation; td_candidates : list storageDiscoveryCandidate;
  td_excluded : list storageDiscoveryExclusion; td_hasAmbiguousIdentity : bool; td_identityEvidenceIncomplete : bool;
  td_sources : list BlockDeviceSource; td_closed : bool }.
(** [closes f] is whether closing [f] succeeds *)
Definition Close (closes : nat → bool) (discovery : trustedStorageDiscovery) : list event * trustedStorageDiscovery * bool :=
  if td_closed discovery then ([], discovery, true)
  else (closeBlockDeviceSources (td_sources discovery),
        mkTrusted (td_inventory discovery) (td_mounts discovery) (td_swap discovery) (td_candidates discovery) (td_excluded discovery)
          (td_hasAmbiguousIdentity discovery) (td_identityEvidenceIncomplete discovery) [] true,
        forallb closes (files (td_sources discovery))).

(** ** Discovery *)
Record world := mkWorld { wd_storage : views; wd_now : Z; wd_mountinfo : file; wd_swaps : file }.
Section discover.
Context (sha256 : list Z → list Z).
(** the three observations of one side *)
Definition observe_world (w : world) : res discovery_error (storageSnapshot * mountSnapshot * swapObservation) :=
  storage ← redact errStorageDiscoveryIncomplete (collectStorage sha256 (wd_storage w));
  mounts ← mounts_result (collectMountInventory (wd_mountinfo w) (wd_now w));
  swap ← collectSwapObservation sha256 (wd_swaps w);
  refuse negb (so_entries swap =? 0) => errStorageDiscoveryIncomplete ;;
  Ok (storage, mounts, swap).
Definition candidate_device (c : storageDiscoveryCandidate) : ObservedBlockDevice := mkDevice (sc_Name c) (sc_Generation c).
Definition discoverTrustedStorageWith (before after : world) (open : option storageSourceOpener) : list event * option trustedStorageDiscovery :=
  match open with
  | None => ([], None)
  | Some open =>
    match (s ← observe_world before; plan ← planTrustedStorageDiscovery s.1.1 s.1.2; Ok (s, plan)) with
    | Err _ => ([], None)
    | Ok ((beforeStorage, beforeMounts, beforeSwap), plan) =>
      let devices := candidate_device <$> pl_Candidates plan in
      let '(evs, sources, failed) := open devices in
      if failed : bool then (evs ++ closeBlockDeviceSources (elems sources), None)
      else match OrderCompleteBlockSources (Some (od_Generation <$> devices)) sources with
      | Err _ => (evs ++ closeBlockDeviceSources (elems sources), None)
      | Ok orderedSources =>
        match observe_world after with
        | Err _ => (evs ++ closeBlockDeviceSources orderedSources, None)
        | Ok (afterStorage, afterMounts, afterSwap) =>
          if (beforeSwap != afterSwap) || negb (sameStorageSnapshot beforeStorage afterStorage)
             || negb (sameMountSnapshot beforeMounts afterMounts)
          then (evs ++ closeBlockDeviceSources orderedSources, None)
          else (evs, Some (mkTrusted beforeStorage beforeMounts beforeSwap (pl_Candidates plan) (pl_Excluded plan)
                             (pl_HasAmbiguousIdentity plan) (pl_IdentityEvidenceIncomplete plan) orderedSources false))
        end
      end
    end
  end.
End discover.

(** ** Generation sets *)
Lemma key_inj a b : key a = key b → a = b.
Proof. destruct a, b. unfold key. cbn. congruence. Qed.

(** Neither a device number nor a disk sequence names two generations. *)
Definition compatible (a b : BlockDeviceGeneration) : Prop := device_number a = device_number b ↔ bg_DiskSequence a = bg_DiskSequence b.
Definition one_to_one (gs : list BlockDeviceGeneration) : Prop := ∀ a b, a ∈ gs → b ∈ gs → compatible a b.
Lemma compatible_sym a b : compatible a b → compatible b a.
Proof. intros [H1 H2]. split; intros E; symmetry; auto. Qed.
Definition nonzero (g : BlockDeviceGeneration) : Prop := device_number g ≠ (0, 0) ∧ bg_DiskSequence g ≠ 0.

Section generations.
(** the two maps are the generations seen *)
Definition seen_maps (gs : list BlockDeviceGeneration) (st : gmap (Z * Z) Z * gmap Z (Z * Z)) : Prop :=
  (∀ d q, st.1 !! d = Some q ↔ ∃ g, g ∈ gs ∧ device_number g = d ∧ bg_DiskSequence g = q)
  ∧ (∀ d q, st.2 !! q = Some d ↔ ∃ g, g ∈ gs ∧ device_number g = d ∧ bg_DiskSequence g = q).

Lemma generation_step_Ok gs st g st' : seen_maps gs st → generation_step st g = Ok st' →
  nonzero g ∧ (∀ h, h ∈ gs → compatible g h) ∧ seen_maps (gs ++ [g]) st'.
Proof.
  destruct st as [bd bs]. intros [H1 H2]. unfold generation_step. cbn [fst snd] in *. intros [Hz H]%refuse_Ok.
  apply refuse_Ok in H as [Hd H]. apply refuse_Ok in H as [Hs [= <-]].
  assert (Hd' : ∀ h, h ∈ gs → device_number g = device_number h → bg_DiskSequence g = bg_DiskSequence h).
  { intros h Hh E. assert (E' : bd !! device_number g = Some (bg_DiskSequence h)) by (apply H1; eauto). rewrite E' in Hd.
    by apply negb_false_iff, Z.eqb_eq in Hd. }
  assert (Hs' : ∀ h, h ∈ gs → bg_DiskSequence g = bg_DiskSequence h → device_number g = device_number h).
  { intros h Hh E. assert (E' : bs !! bg_DiskSequence g = Some (device_number h)) by (apply H2; eauto). rewrite E' in Hs.
    by apply negb_false_iff, bool_decide_eq_true in Hs. }
  split; [|split].
  - unfold nonzero, device_number. go_bool in Hz. destruct Hz as [Hz Hq]. split; [|done]. intros [= E1 E2]. rewrite E1, E2 in Hz. naive_solver.
  - intros h Hh. split; auto.
  - split; cbn [fst snd]; intros d q; rewrite lookup_insert_Some; setoid_rewrite elem_of_app; setoid_rewrite list_elem_of_singleton;
      [rewrite H1|rewrite H2]; (split; [naive_solver|]); intros (h & [Hh| ->] & <- & <-); [|by left| |by left].
    + destruct (decide (device_number g = device_number h)) as [E|E]; [left; auto|right; eauto].
    + destruct (decide (bg_DiskSequence g = bg_DiskSequence h)) as [E|E]; [left; auto|right; eauto].
Qed.
Lemma generation_step_complete gs st g : seen_maps gs st → nonzero g →
  (∀ h, h ∈ gs → compatible g h) → ∃ st', generation_step st g = Ok st'.
Proof.
  destruct st as [bd bs]. intros [H1 H2] [Hd Hq] Hc. unfold generation_step. cbn [fst snd] in *.
  rewrite (proj2 (Z.eqb_neq _ _) Hq), orb_false_r.
  destruct (_ && _) eqn:E; [exfalso; go_bool in E; unfold device_number in Hd; apply Hd; f_equal; tauto|].
  assert (E1 : match bd !! device_number g with Some previous => negb (previous =? bg_DiskSequence g) | None => false end = false).
  { destruct (bd !! _) as [q|] eqn:Eb; [|done]. apply H1 in Eb as (h & Hh & E1 & E2). apply negb_false_iff, Z.eqb_eq.
    destruct (Hc h Hh) as [Hc1 _]. rewrite <- E2. symmetry. by apply Hc1. }
  assert (E2 : match bs !! bg_DiskSequence g with Some previous => previous != device_number g | None => false end = false).
  { destruct (bs !! _) as [d|] eqn:Eb; [|done]. apply H2 in Eb as (h & Hh & E2 & E3). apply negb_false_iff, bool_decide_eq_true.
    destruct (Hc h Hh) as [_ Hc2]. rewrite <- E2. symmetry. by apply Hc2. }
  rewrite E1, E2. eauto.
Qed.
Lemma generations_loop i gs st todo : seen_maps gs st →
  is_ok (for_range (λ _, generation_step) i st todo) = true ↔
  Forall nonzero todo ∧ ∀ a b, a ∈ gs ++ todo → b ∈ todo → compatible a b.
Proof.
  revert i gs st. induction todo as [|g todo IH]; intros i gs st Hm; cbn [for_range].
  { split; [|done]. intros _. split; [constructor|]. intros a b _ Hb. by apply not_elem_of_nil in Hb. }
  split.
  - destruct (generation_step st g) as [st'|] eqn:Hs; [|done]. apply (generation_step_Ok gs) in Hs as (Hn & Hc & Hm'); [|done].
    intros [HF HC]%(IH _ _ _ Hm'). rewrite <- app_assoc in HC. split; [by constructor|]. intros a b Ha [->|Hb]%elem_of_cons; [|by apply HC].
    apply elem_of_app in Ha as [Ha|[->|Ha]%elem_of_cons]; [by apply compatible_sym, Hc|done|].
    apply compatible_sym, HC; [|done]. apply elem_of_app. right. by left.
  - intros [HF HC]. apply Forall_cons in HF as [Hn HF].
    assert (Hc : ∀ h, h ∈ gs → compatible g h).
    { intros h Hh. apply compatible_sym, HC; [by apply elem_of_app; left|by left]. }
    destruct (generation_step_complete gs st g Hm Hn Hc) as (st' & Hs). rewrite Hs.
    apply (generation_step_Ok gs) in Hs as (_ & _ & Hm'); [|done]. apply (IH _ _ _ Hm'). split; [done|].
    intros a b Ha Hb. apply HC; [|by right]. rewrite <- app_assoc in Ha. done.
Qed.
Lemma validGenerationSet_exact gs : validGenerationSet gs = true ↔ Forall nonzero gs ∧ one_to_one gs.
Proof. apply (generations_loop 0 [] (∅, ∅)). split; intros d q; cbn; rewrite lookup_empty; set_solver. Qed.
End generations.

(** ** Ordering *)
Lemma indices_Ok i st gs st' todo : (∀ k j, st.1 !! k = Some j ↔ ∃ g, gs !! j = Some g ∧ key g = k) → st.2 = length gs → NoDup gs →
  for_range (λ _, index_step) i st todo = Ok st' →
  (∀ k j, st'.1 !! k = Some j ↔ ∃ g, (gs ++ todo) !! j = Some g ∧ key g = k) ∧ NoDup (gs ++ todo).
Proof.
  revert i st gs. induction todo as [|g todo IH]; intros i st gs Hst Hn HN; cbn [for_range].
  - intros [= <-]. by rewrite app_nil_r.
  - unfold index_step at 1. case_bool_decide as Hd; [done|]. replace (gs ++ g :: todo) with ((gs ++ [g]) ++ todo) by (by rewrite <- app_assoc).
    assert (Hfresh : g ∉ gs) by (intros [j Hj]%list_elem_of_lookup; apply Hd; exists j; apply Hst; by exists g).
    apply IH; cbn [fst snd].
    + intros k j. rewrite Hn, lookup_insert_Some, Hst. setoid_rewrite lookup_app_Some. setoid_rewrite list_lookup_singleton_Some. split.
      * intros [[<- <-]|[Hne (h & Hh & <-)]]; [exists g; split; [right; split_and!; [lia|lia|done]|done]|exists h; auto].
      * intros (h & [Hh|(Hle & Hj & <-)] & <-); [|left; split; [done|lia]]. right. split; [|by exists h].
        intros E%key_inj. apply Hfresh. rewrite E. by eapply list_elem_of_lookup_2.
    + rewrite length_app, Hn. simpl. lia.
    + apply NoDup_app. split_and!; [done|set_solver|apply NoDup_singleton].
Qed.
(** One distinct descriptor per generation of the inventory. *)
Record pairing (gs : list BlockDeviceGeneration) (l : list BlockDeviceSource) : Prop := {
  pg_known : ∀ s, s ∈ l → bs_Generation s ∈ gs;
  pg_open : Forall (λ s, is_Some (bs_File s)) l;
  pg_generations : NoDup (bs_Generation <$> l);
  pg_files : NoDup (files l) }.

(** ** Descriptors *)
Lemma files_snoc l s : files (l ++ [s]) = files l ++ files [s].
Proof. apply omap_app. Qed.
Lemma live_from_app s a b : live_from s (a ++ b) = live_from (live_from s a) b.
Proof. apply fold_left_app. Qed.
Lemma live_close l s : live_from s (closeBlockDeviceSources l) = s ∖ list_to_set (files l).
Proof.
  unfold closeBlockDeviceSources. revert s. induction (files l) as [|f fs IH]; intros s; cbn [fmap list_fmap list_to_set live_from fold_left]; [set_solver|].
  unfold live_from in IH. rewrite IH. set_solver.
Qed.

Lemma devs_open_app a b : devs_open (a ++ b) = devs_open a + devs_open b.
Proof. unfold devs_open. induction a as [|e a IH]; [done|]. cbn [app foldr]. rewrite IH. lia. Qed.
Lemma devs_open_close l : devs_open (closeBlockDeviceSources l) = 0.
Proof. unfold closeBlockDeviceSources, devs_open. by induction (files l). Qed.

Section opener.
Context (k : kernel).
(** every source so far is open, and its device was opened by name and matched *)
Record opening (devices : list ObservedBlockDevice) (st : list event * list BlockDeviceSource) : Prop := {
  og_live : live_after st.1 = list_to_set (files st.2);
  og_dev : devs_open st.1 = 0;
  og_sources : Forall2 (λ d s, ∃ fd, kn_openat k (od_Name d) = Some fd ∧ s = mkSource (Some fd) (od_Generation d)
                          ∧ stat_matches (kn_first k fd) (od_Generation d) = true) devices st.2 }.
Lemma open_loop i done st todo : opening done st →
  match for_range (λ _, open_step k) i st todo with Ok st' => opening (done ++ todo) st' | Err evs => live_after evs = ∅ ∧ devs_open evs = 0 end.
Proof.
  revert i done st. induction todo as [|d todo IH]; intros i done st Ho; cbn [for_range]; [by rewrite app_nil_r|].
  replace (done ++ d :: todo) with ((done ++ [d]) ++ todo) by (by rewrite <- app_assoc).
  destruct st as [evs l], Ho as [Hl Hd Hs]. cbn [fst snd] in *. unfold open_step at 1.
  destruct (kn_openat k (od_Name d)) as [fd|] eqn:Hfd.
  - destruct (stat_matches _ _) eqn:Hm; cbn [negb].
    + apply IH. split; cbn [fst snd].
      * unfold live_after in *. rewrite live_from_app, Hl, files_snoc. cbn. set_solver.
      * by rewrite devs_open_app, Hd.
      * apply Forall2_app; [done|]. constructor; [|constructor]. eauto.
    + unfold live_after in *. rewrite !live_from_app, Hl, live_close, !devs_open_app, devs_open_close, Hd. cbn. split; [set_solver|done].
  - unfold live_after in *. rewrite live_from_app, Hl, live_close, devs_open_app, devs_open_close, Hd. split; [set_solver|done].
Qed.

Lemma openAt_Ok devices evs sources failed : openObservedBlockSourcesAt k devices = (evs, sources, failed) →
  live_after evs = list_to_set (files (elems sources)) ∧ devs_open evs = 0
  ∧ (failed = false → ∃ l, sources = Some l
     ∧ Forall2 (λ d s, ∃ fd, kn_openat k (od_Name d) = Some fd ∧ s = mkSource (Some fd) (od_Generation d)
                  ∧ stat_matches (kn_first k fd) (od_Generation d) = true ∧ stat_matches (kn_final k fd) (od_Generation d) = true) devices l).
Proof.
  unfold openObservedBlockSourcesAt. destruct (validateObservedBlockDevices _); [|intros [= <- <- <-]; done].
  destruct (len devices =? 0) eqn:Hz.
  { intros [= <- <- <-]. split_and!; [done|done|]. intros _. exists []. split; [done|]. destruct devices; [constructor|done]. }
  pose proof (open_loop 0 [] ([], []) devices) as H. cbn [app] in H.
  assert (H0 : opening [] ([], [])) by (split; [done|done|constructor]). specialize (H H0).
  destruct (for_range _ _ _ _) as [[evs' l]|evs'] ; [|intros [= <- <- <-]; by destruct H]. destruct H as [Hl Hd Hs]. cbn [fst snd] in *.
  destruct (forallb _ _) eqn:Hf; intros [= <- <- <-].
  - split_and!; [done|done|]. intros _. exists l. split; [done|]. rewrite forallb_forall in Hf.
    apply Forall2_same_length_lookup_2; [by eapply Forall2_length|]. intros j d s Hd' Hj.
    destruct (Forall2_lookup_lr _ _ _ _ _ _ Hs Hd' Hj) as (fd & H1 & -> & H2). exists fd. split_and!; try done.
    apply (Hf (mkSource (Some fd) (od_Generation d))). apply list_elem_of_In. by eapply list_elem_of_lookup_2.
  - unfold live_after in *. rewrite live_from_app, Hl, live_close, devs_open_app, devs_open_close, Hd. split_and!; [set_solver|done|done].
Qed.

(** The same of the whole call, whose own descriptor of [/dev] is closed again. *)
Lemma OpenObserved_Ok devices evs sources failed : OpenObservedBlockSources k devices = (evs, sources, failed) →
  live_after evs = list_to_set (files (elems sources)) ∧ devs_open evs = 0
  ∧ (failed = false → ∃ l, sources = Some l
     ∧ Forall2 (λ d s, ∃ fd, kn_openat k (od_Name d) = Some fd ∧ s = mkSource (Some fd) (od_Generation d)
                  ∧ stat_matches (kn_first k fd) (od_Generation d) = true ∧ stat_matches (kn_final k fd) (od_Generation d) = true) devices l).
Proof.
  unfold OpenObservedBlockSources. destruct (validateObservedBlockDevices _); [|intros [= <- <- <-]; done].
  destruct (len devices =? 0) eqn:Hz.
  { intros [= <- <- <-]. split_and!; [done|done|]. intros _. exists []. split; [done|]. by destruct devices; [constructor|]. }
  destruct (kn_dev k); [|intros [= <- <- <-]; done]. cbn [negb].
  destruct (openObservedBlockSourcesAt k devices) as [[evs' l] f] eqn:E. intros [= <- <- <-].
  apply openAt_Ok in E as (Hl & Hd & HF). split_and!; [| |done].
  - unfold live_after, live_from in *. cbn [fold_left]. by rewrite fold_left_app.
  - change (devs_open (EvOpenDev :: ?l)) with (1 + devs_open l). rewrite devs_open_app, Hd. done.
Qed.
End opener.
#[export] Instance OpenObserved_spec k : OpenerSpec (OpenObservedBlockSources k).
Proof. split; by intros devices evs sources failed (H1 & H2 & _)%OpenObserved_Ok. Qed.

Section order.
Context (gs : list BlockDeviceGeneration) (indices : gmap (Z * Z * Z) nat) (HN : NoDup gs).
Context (Hidx : ∀ k j, indices !! k = Some j ↔ ∃ g, gs !! j = Some g ∧ key g = k).

Record ordered_ok (l : list BlockDeviceSource) (st : order_state) : Prop := {
  oo_generations : ∀ k, k ∈ or_generations st ↔ k ∈ (key ∘ bs_Generation) <$> l;
  oo_files : ∀ f, f ∈ or_files st ↔ f ∈ files l;
  oo_pairing : pairing gs l;
  oo_length : length (or_ordered st) = length gs;
  oo_slots : ∀ s j, s ∈ l → gs !! j = Some (bs_Generation s) → or_ordered st !! j = Some s }.

Lemma pairing_snoc l s f : pairing gs l → bs_File s = Some f → bs_Generation s ∈ gs → bs_Generation s ∉ bs_Generation <$> l →
  f ∉ files l → pairing gs (l ++ [s]).
Proof.
  intros [H1 H2 H3 H4] Hf Hg Hn Hff. split.
  - intros t [Ht| ->%list_elem_of_singleton]%elem_of_app; auto.
  - apply Forall_app. split; [done|]. constructor; [by rewrite Hf|constructor].
  - rewrite fmap_app. apply NoDup_app. split_and!; [done| |apply NoDup_singleton]. set_solver.
  - rewrite files_snoc. unfold files at 2. cbn. rewrite Hf. apply NoDup_app. split_and!; [done| |apply NoDup_singleton]. set_solver.
Qed.

Lemma order_step_Ok l st s st' : ordered_ok l st → order_step indices st s = Ok st' → ordered_ok (l ++ [s]) st'.
Proof.
  intros [Hg Hf Hp Hl Hs]. unfold order_step. destruct (indices !! _) as [j|] eqn:Hj; [|done].
  destruct (bs_File s) as [f|] eqn:Hsf; [|done]. intros [Hc [= <-]]%refuse_Ok. go_bool in Hc. destruct Hc as [Hc1 Hc2].
  rewrite Hg in Hc1. rewrite Hf in Hc2. apply Hidx in Hj as (g & Hgj & ->%key_inj).
  assert (Hn : bs_Generation s ∉ bs_Generation <$> l).
  { intros (t & E & Ht)%list_elem_of_fmap. apply Hc1. apply list_elem_of_fmap. exists t. by cbn; rewrite E. }
  split; cbn [or_generations or_files or_ordered].
  - intros k. rewrite fmap_app, elem_of_union, Hg, elem_of_app. cbn. set_solver.
  - intros f'. rewrite files_snoc, elem_of_union, Hf, elem_of_app. unfold files at 2. cbn. rewrite Hsf. set_solver.
  - eapply pairing_snoc; eauto. by eapply list_elem_of_lookup_2.
  - by rewrite length_insert.
  - intros t i [Ht| ->%list_elem_of_singleton]%elem_of_app Hi.
    + rewrite list_lookup_insert_ne; [by apply Hs|]. intros ->. rewrite Hi in Hgj. apply Hn. apply list_elem_of_fmap. exists t. naive_solver.
    + assert (i = j) as -> by (eapply NoDup_lookup; eauto). apply list_lookup_insert_eq. rewrite Hl. by apply lookup_lt_Some in Hgj.
Qed.
Lemma order_step_complete l st s : ordered_ok l st → pairing gs (l ++ [s]) → ∃ st', order_step indices st s = Ok st'.
Proof.
  intros [Hg Hf Hp Hl Hs] [H1 H2 H3 H4]. unfold order_step.
  destruct (list_elem_of_lookup_1 gs (bs_Generation s)) as (j & Hj); [apply H1; set_solver|].
  rewrite (proj2 (Hidx (key (bs_Generation s)) j)) by eauto. apply Forall_app in H2 as [_ [(f & E) _]%Forall_cons]. rewrite E.
  rewrite bool_decide_eq_false_2; [|rewrite Hg].
  - rewrite bool_decide_eq_false_2; [cbn; eauto|]. rewrite Hf. rewrite files_snoc in H4. unfold files at 2 in H4. cbn in H4. rewrite E in H4.
    apply NoDup_app in H4 as (_ & H4 & _). intros Hin. by apply (H4 f Hin); left.
  - rewrite fmap_app in H3. apply NoDup_app in H3 as (_ & H3 & _). intros (t & E'%key_inj & Ht)%list_elem_of_fmap.
    apply (H3 (bs_Generation s)); [apply list_elem_of_fmap; by exists t|by left].
Qed.

Lemma order_loop i l st todo : ordered_ok l st →
  (∀ st', for_range (λ _, order_step indices) i st todo = Ok st' → ordered_ok (l ++ todo) st')
  ∧ (pairing gs (l ++ todo) → ∃ st', for_range (λ _, order_step indices) i st todo = Ok st').
Proof.
  revert i l st. induction todo as [|s todo IH]; intros i l st Ho; cbn [for_range].
  - rewrite app_nil_r. split; [intros st' [= <-]; done|eauto].
  - replace (l ++ s :: todo) with ((l ++ [s]) ++ todo) by (by rewrite <- app_assoc). split.
    + destruct (order_step indices st s) as [st1|] eqn:Hs; [|done]. by apply IH, order_step_Ok with st.
    + intros Hp. destruct (order_step_complete l st s Ho) as (st1 & Hs).
      { destruct Hp as [P1 P2 P3 P4]. apply Forall_app in P2 as [P2 _]. rewrite fmap_app in P3. apply NoDup_app in P3 as (P3 & _).
        unfold files in P4. rewrite omap_app in P4. apply NoDup_app in P4 as (P4 & _). split; auto. intros t Ht. apply P1, elem_of_app. by left. }
      rewrite Hs. apply (IH (i + 1) (l ++ [s]) st1); [by eapply order_step_Ok|done].
Qed.
End order.

(** The reordered set is the supplied one, in the order of the inventory. *)
Lemma ordered_exact gs l st : NoDup gs → ordered_ok gs l st → length l = length gs →
  bs_Generation <$> or_ordered st = gs ∧ or_ordered st ≡ₚ l.
Proof.
  intros HN [_ _ [H1 H2 H3 H4] Hl Hs] Hlen.
  assert (Hp : bs_Generation <$> l ≡ₚ gs).
  { apply submseteq_length_Permutation; [|by rewrite length_fmap, Hlen]. apply NoDup_submseteq; [done|].
    intros g (s & -> & Hin)%list_elem_of_fmap. auto. }
  assert (Hslot : ∀ j g, gs !! j = Some g → ∃ s, s ∈ l ∧ bs_Generation s = g ∧ or_ordered st !! j = Some s).
  { intros j g Hg. assert (Hin : g ∈ bs_Generation <$> l) by (rewrite Hp; by eapply list_elem_of_lookup_2).
    apply list_elem_of_fmap in Hin as (s & -> & Hin). exists s. split_and!; [done|done|by apply Hs]. }
  assert (Heq : bs_Generation <$> or_ordered st = gs).
  { apply list_eq_same_length with (length gs); [done|by rewrite length_fmap|]. intros j x y _ Hx Hy.
    destruct (Hslot j y Hy) as (s & _ & Hg & Hj). rewrite list_lookup_fmap, Hj in Hx. cbn in Hx. congruence. }
  split; [done|]. apply NoDup_Permutation.
  - apply (NoDup_fmap_1 bs_Generation). by rewrite Heq.
  - by apply (NoDup_fmap_1 bs_Generation).
  - intros s. split.
    + intros (j & Hj)%list_elem_of_lookup_1. assert (Hg : gs !! j = Some (bs_Generation s)) by (rewrite <- Heq, list_lookup_fmap, Hj; done).
      destruct (Hslot j _ Hg) as (t & Ht & _ & Hj'). congruence.
    + intros Hin. destruct (list_elem_of_lookup_1 gs (bs_Generation s)) as (j & Hj); [auto|]. eapply list_elem_of_lookup_2. by apply Hs.
Qed.
Lemma indices_complete i st gs todo : (∀ k j, st.1 !! k = Some j ↔ ∃ g, gs !! j = Some g ∧ key g = k) → st.2 = length gs →
  NoDup (gs ++ todo) → ∃ st', for_range (λ _, index_step) i st todo = Ok st'.
Proof.
  revert i st gs. induction todo as [|g todo IH]; intros i st gs Hst Hn HN; cbn [for_range]; [eauto|].
  assert (HN' := HN). apply NoDup_app in HN' as (HN1 & HN2 & _).
  assert (Hs : index_step st g = Ok (<[key g := st.2]> st.1, S st.2)).
  { unfold index_step. rewrite bool_decide_eq_false_2; [done|]. intros (j & (h & Hh & ->%key_inj)%Hst).
    apply (HN2 g); [by eapply list_elem_of_lookup_2|by left]. }
  rewrite Hs. destruct (indices_Ok i st gs (<[key g := st.2]> st.1, S st.2) [g] Hst Hn HN1) as [Hst' _]; [cbn [for_range]; by rewrite Hs|].
  apply (IH _ _ (gs ++ [g])); [done|rewrite length_app, Hn; simpl; lia|]. by rewrite <- app_assoc.
Qed.
Lemma generations_inj (l k : list BlockDeviceSource) : NoDup (bs_Generation <$> l) → l ≡ₚ k → bs_Generation <$> l = bs_Generation <$> k → l = k.
Proof.
  intros HN Hp He. apply list_eq_same_length with (length k); [done|by apply Permutation_length|]. intros j x y _ Hx Hy.
  assert (Hin : y ∈ l) by (rewrite Hp; by eapply list_elem_of_lookup_2). apply list_elem_of_lookup_1 in Hin as (j' & Hj').
  assert (E : (bs_Generation <$> l) !! j = (bs_Generation <$> l) !! j').
  { rewrite He at 1. by rewrite !list_lookup_fmap, Hy, Hj'. }
  rewrite !list_lookup_fmap, Hx, Hj' in E. cbn in E.
  assert (j = j') as -> by (eapply NoDup_lookup; [exact HN|rewrite list_lookup_fmap, Hx; reflexivity|rewrite list_lookup_fmap, Hj'; cbn; congruence]).
  congruence.
Qed.

(** [OrderCompleteBlockSources] accepts exactly one descriptor per generation. *)
Lemma OrderComplete_exact inv srcs ordered :
  OrderCompleteBlockSources inv srcs = Ok ordered ↔
  ∃ gs l, inv = Some gs ∧ srcs = Some l ∧ len gs ≤ MaxSources ∧ length l = length gs ∧ NoDup gs ∧ Forall nonzero gs ∧ one_to_one gs
  ∧ pairing gs l ∧ bs_Generation <$> ordered = gs ∧ ordered ≡ₚ l.
Proof.
  assert (Hstart : ∀ gs, ordered_ok gs [] (mkOrder (repeat zero_source (length gs)) ∅ ∅)).
  { intros gs. split; cbn; [set_solver|set_solver| |apply repeat_length|set_solver]. split; [set_solver| | |]; constructor. }
  assert (H0 : ∀ k j, (∅ : gmap (Z * Z * Z) nat) !! k = Some j ↔ ∃ g, ([] : list BlockDeviceGeneration) !! j = Some g ∧ key g = k).
  { intros k j. rewrite lookup_empty, lookup_nil. naive_solver. }
  unfold OrderCompleteBlockSources. split.
  - intros [Hg H]%refuse_Ok. go_bool in Hg. destruct Hg as [[[[[Hn1 Hn2] Hm] _] Hl] Hv].
    destruct inv as [gs|]; [|done]. destruct srcs as [l|]; [|done]. cbn [elems default from_option id slen] in *.
    apply res_bind_Ok in H as (im & Him & H). apply res_bind_Ok in H as (st & Hst & H). apply refuse_Ok in H as [_ [= <-]].
    apply (indices_Ok _ _ []) in Him as [Him HN]; [|done|done|constructor]. cbn [app] in *.
    apply (order_loop gs im.1 HN Him 0 [] _ l (Hstart gs)) in Hst. cbn [app] in Hst. apply validGenerationSet_exact in Hv as [Hz Ho].
    assert (Hlen : length l = length gs) by (unfold slen, len in Hl; cbn in Hl; lia).
    destruct (ordered_exact gs l st HN Hst Hlen) as [E1 E2]. destruct Hst. exists gs, l. by split_and!.
  - intros (gs & l & -> & -> & Hm & Hlen & HN & Hz & Ho & Hp & He & Hperm). unfold slen. cbn [elems default from_option id is_nil orb].
    assert (Hll : len l = len gs) by (unfold len; lia). rewrite Hll, Z.eqb_refl. cbn [negb].
    rewrite (proj2 (Z.ltb_ge _ _) Hm), (proj2 (validGenerationSet_exact gs) (conj Hz Ho)). cbn [orb negb].
    destruct (indices_complete 0 (∅, 0%nat) [] gs) as (im & Him); [done|done|done|]. rewrite Him. cbn [mbind res_bind].
    apply (indices_Ok _ _ []) in Him as [Him _]; [|done|done|constructor]. cbn [app] in *.
    destruct (order_loop gs im.1 HN Him 0 [] _ l (Hstart gs)) as [Hok Hex]. destruct (Hex Hp) as (st & Hst). rewrite Hst. cbn [mbind res_bind].
    apply Hok in Hst. cbn [app] in Hst. destruct (ordered_exact gs l st HN Hst Hlen) as [E1 E2].
    assert (Hsz : or_generations st = list_to_set ((key ∘ bs_Generation) <$> l)).
    { apply set_eq. intros k. rewrite elem_of_list_to_set. apply Hst. }
    rewrite Hsz, size_list_to_set.
    + rewrite length_fmap, Hlen. unfold len. rewrite Z.eqb_refl. cbn. f_equal.
      apply generations_inj; [by rewrite E1|by rewrite E2, Hperm|by rewrite E1, He].
    + rewrite list_fmap_compose. apply NoDup_fmap_2; [intros ? ?; apply key_inj|]. apply Hp.
Qed.

(** ** Comparisons *)
Lemma zip_same `{EqDecision A} (l k : list A) : length l = length k → forallb (λ p, p.1 == p.2) (zip l k) = true → l = k.
Proof.
  revert k. induction l as [|x l IH]; intros [|y k] Hl; try done. cbn. intros [H1%bool_decide_eq_true H2]%andb_true_iff.
  f_equal; [done|]. apply IH; [by injection Hl|done].
Qed.
Lemma zip_same_refl `{EqDecision A} (l : list A) : forallb (λ p, p.1 == p.2) (zip l l) = true.
Proof. induction l as [|x l IH]; cbn; [done|]. by rewrite bool_decide_eq_true_2. Qed.
Lemma sameStorage_elems a b : sameStorageSnapshot a b = true → elems (ss_Observations a) = elems (ss_Observations b).
Proof.
  unfold sameStorageSnapshot. intros [H1 H2]%andb_true_iff. repeat (apply andb_true_iff in H1 as [H1 ?]). apply (zip_same _ _); [|done].
  match goal with H : (slen _ =? slen _) = true |- _ => apply Z.eqb_eq in H; unfold slen, len in H end. lia.
Qed.
Lemma sameMount_elems a b : sameMountSnapshot a b = true → elems (ms_Mounts a) = elems (ms_Mounts b).
Proof.
  unfold sameMountSnapshot. intros [H1 H2]%andb_true_iff. repeat (apply andb_true_iff in H1 as [H1 ?]). apply (zip_same _ _); [|done].
  match goal with H : (slen _ =? slen _) = true |- _ => apply Z.eqb_eq in H; unfold slen, len in H end. lia.
Qed.
Lemma sameStorage_refl a : sameStorageSnapshot a a = true.
Proof.
  unfold sameStorageSnapshot, sameBlockObservation. rewrite !eqb_reflx, !Z.eqb_refl, !bool_decide_eq_true_2 by done. apply zip_same_refl.
Qed.
(** Every inventory that is published differs from another in its nodes only. *)
Definition published (obs : list blockObservation) : storageSnapshot :=
  mkStorage 2 "kernel-sysfs-only" true false false false false (len obs) (Some obs) limitations true.
Lemma collectStorage_published sha256 v snap : collectStorage sha256 v = Ok snap → snap = published (elems (ss_Observations snap)).
Proof.
  unfold collectStorage. intros (entries & _ & H)%res_bind_Ok. apply refuse_Ok in H as [_ H].
  apply res_bind_Ok in H as (st & _ & H). apply res_bind_Ok in H as (obs1 & _ & H). apply res_bind_Ok in H as (obs2 & _ & H).
  apply res_bind_Ok in H as ([] & _ & H). apply res_bind_Ok in H as (final & _ & H). by apply refuse_Ok in H as [_ [= <-]].
Qed.
Definition observed_mounts (now : Z) (ms : list mountObservation) : mountSnapshot :=
  mkMounts 1 now "current-process-mount-namespace" true false false (len ms) (Some ms) mount_limitations true.
Lemma sameMount_observed now now' ms : sameMountSnapshot (observed_mounts now ms) (observed_mounts now' ms) = true.
Proof. unfold sameMountSnapshot. cbn. rewrite !Z.eqb_refl, !bool_decide_eq_true_2 by done. apply zip_same_refl. Qed.
Lemma collectMount_Ok f now m : mounts_result (collectMountInventory f now) = Ok m →
  ∃ data ms, readBounded f = Some data ∧ parseMountInfo data = Ok ms ∧ m = observed_mounts now ms.
Proof.
  unfold mounts_result, collectMountInventory. destruct (readBounded f) as [data|]; [|done].
  destruct (parseMountInfo data) as [ms|] eqn:Hp; [|done]. intros [= <-]. by exists data, ms.
Qed.

(** The swap table has its header and nothing else. *)
Definition no_swap (f : file) : Prop :=
  ∃ data, readBounded f = Some data ∧ no_sep (ascii_of_nat 10) (trim_newline data) ∧ Fields (trim_newline data) = swap_header.
Lemma collectSwap_none sha256 f sw : collectSwapObservation sha256 f = Ok sw → so_entries sw = 0 → no_swap f.
Proof.
  unfold collectSwapObservation. destruct (readBounded f) as [data|] eqn:Hd; [|done]. intros [Hh H]%refuse_Ok.
  apply res_bind_Ok in H as (_ & _ & [= <-]). cbn [so_entries]. intros Hz. go_bool in Hh. destruct Hh as [Hh _].
  pose proof (split_on_no_sep (ascii_of_nat 10) (trim_newline data)) as HF. pose proof (join_split (ascii_of_nat 10) (trim_newline data)) as HJ.
  destruct (split_on _ _) as [|w [|]]; [cbn in Hh; done| |unfold len in Hz; simpl in Hz; lia]. cbn in Hh, HJ. subst w.
  apply Forall_cons in HF as [HF _]. by exists data.
Qed.

Record observed (sha256 : list Z → list Z) (w : world) (storage : storageSnapshot) (mounts : mountSnapshot) : Prop := {
  ob_storage : collectStorage sha256 (wd_storage w) = Ok storage;
  ob_mounts : ∃ data ms, readBounded (wd_mountinfo w) = Some data ∧ parseMountInfo data = Ok ms ∧ mounts = observed_mounts (wd_now w) ms;
  ob_swap : no_swap (wd_swaps w) }.
Lemma observe_world_Ok sha256 w storage mounts swap : observe_world sha256 w = Ok (storage, mounts, swap) → observed sha256 w storage mounts.
Proof.
  unfold observe_world. intros (st & Hst%redact_Ok & H)%res_bind_Ok. apply res_bind_Ok in H as (ms & Hms%collectMount_Ok & H).
  apply res_bind_Ok in H as (sw & Hsw & H). apply refuse_Ok in H as [Hz%negb_false_iff%Z.eqb_eq [= <- <- <-]].
  split; [done|done|]. by eapply collectSwap_none.
Qed.

(** ** Candidates are one to one *)
Lemma candidates_numbered storage mounts plan : sound_plan storage mounts plan →
  NoDup (sc_Name <$> pl_Candidates plan) ∧ Forall (λ c, validKernelBlockName (sc_Name c) = true) (pl_Candidates plan)
  ∧ Forall nonzero (sc_Generation <$> pl_Candidates plan)
  ∧ (∀ a b, a ∈ pl_Candidates plan → b ∈ pl_Candidates plan →
       (device_number (sc_Generation a) = device_number (sc_Generation b) ∨ bg_DiskSequence (sc_Generation a) = bg_DiskSequence (sc_Generation b)) → a = b).
Proof.
  intros (inv & ms & _ & _ & (HN & [N1 N2 [N3 _] [N4 _] N5]) & HC & HP & _). rewrite Forall_forall in N1, N2, N5.
  assert (Hnames : NoDup (sc_Name <$> pl_Candidates plan)).
  { assert (HA : NoDup ((sc_Name <$> pl_Candidates plan) ++ (se_Name <$> pl_Excluded plan))).
    { rewrite HP. eapply sublist_NoDup; [exact HN|apply fmap_sublist, sublist_filter]. }
    by apply NoDup_app in HA as [HA _]. }
  split_and!; [done| | |].
  - apply Forall_forall. intros c Hc. destruct (HC c Hc) as (o & Ho & <- & _). by apply (N1 o).
  - apply Forall_fmap, Forall_forall. intros c Hc. destruct (HC c Hc) as (o & Ho & _ & Hk & Hg & _). cbn. rewrite <- Hg. split; [by apply N2|].
    apply (N5 o Ho). unfold whole. by apply bool_decide_eq_true.
  - intros a b Ha Hb Hor. destruct (HC a Ha) as (oa & Hoa & Na & Ka & Ga & _). destruct (HC b Hb) as (ob & Hob & Nb & Kb & Gb & _).
    apply (NoDup_fmap_inj sc_Name _ a b Hnames); try done. rewrite <- Na, <- Nb. f_equal. rewrite <- Ga, <- Gb in Hor. destruct Hor as [E|E].
    + eapply NoDup_fmap_inj; [exact N3|done|done|done].
    + eapply (NoDup_fmap_inj bo_diskSequence); [exact N4| | |exact E]; apply list_elem_of_filter; unfold whole; rewrite bool_decide_eq_true; done.
Qed.

(** The opener succeeds on distinct valid devices whose nodes match. *)
Definition opens (k : kernel) (name : string) (g : BlockDeviceGeneration) : Prop :=
  ∃ fd, kn_openat k name = Some fd ∧ stat_matches (kn_first k fd) g = true ∧ stat_matches (kn_final k fd) g = true.
Lemma open_loop_complete k i st devices : Forall (λ d, opens k (od_Name d) (od_Generation d)) devices →
  ∃ evs l, for_range (λ _, open_step k) i st devices = Ok (evs, st.2 ++ l)
  ∧ Forall2 (λ d s, ∃ fd, kn_openat k (od_Name d) = Some fd ∧ s = mkSource (Some fd) (od_Generation d)
               ∧ stat_matches (kn_final k fd) (od_Generation d) = true) devices l.
Proof.
  revert i st. induction devices as [|d devices IH]; intros i st HF; cbn [for_range].
  - destruct st as [evs l]. exists evs, []. rewrite app_nil_r. by split; [|constructor].
  - apply Forall_cons in HF as [(fd & H1 & H2 & H3) HF]. destruct st as [evs l]. unfold open_step at 1. rewrite H1, H2. cbn [negb].
    destruct (IH (i + 1) (evs ++ [EvOpen fd], l ++ [mkSource (Some fd) (od_Generation d)]) HF) as (evs' & l' & E & HF').
    exists evs', (mkSource (Some fd) (od_Generation d) :: l'). cbn [snd] in E |- *. rewrite E, <- app_assoc. cbn. split; [done|].
    constructor; [|done]. by exists fd.
Qed.
Lemma observed_loop i st devices : NoDup (od_Name <$> devices) → NoDup (od_Generation <$> devices) →
  Forall (λ d, validKernelBlockName (od_Name d) = true ∧ od_Name d ∉ st.1 ∧ key (od_Generation d) ∉ st.2) devices →
  ∃ st', for_range (λ _, observed_step) i st devices = Ok st'.
Proof.
  revert i st. induction devices as [|d devices IH]; intros i st N1 N2 HF; cbn [for_range]; [eauto|].
  apply Forall_cons in HF as [(Hv & Hn & Hk) HF]. apply NoDup_cons in N1 as [N1' N1], N2 as [N2' N2]. unfold observed_step at 1.
  rewrite Hv, !bool_decide_eq_false_2 by done. cbn [negb orb]. apply IH; [done|done|]. rewrite Forall_forall in HF |- *.
  intros x Hx. destruct (HF x Hx) as (H1 & H2 & H3). cbn [fst snd]. split_and!; [done| |].
  - intros [E%elem_of_singleton|?]%elem_of_union; [|done]. apply N1', list_elem_of_fmap. by exists x.
  - intros [E%elem_of_singleton%key_inj|?]%elem_of_union; [|done]. apply N2', list_elem_of_fmap. by exists x.
Qed.
Lemma OpenObserved_complete k devices : kn_dev k = true → len devices ≤ MaxSources → NoDup (od_Name <$> devices) → NoDup (od_Generation <$> devices) →
  Forall (λ d, validKernelBlockName (od_Name d) = true) devices → Forall nonzero (od_Generation <$> devices) →
  one_to_one (od_Generation <$> devices) → Forall (λ d, opens k (od_Name d) (od_Generation d)) devices →
  ∃ evs l, OpenObservedBlockSources k devices = (evs, Some l, false)
  ∧ Forall2 (λ d s, ∃ fd, kn_openat k (od_Name d) = Some fd ∧ s = mkSource (Some fd) (od_Generation d)
               ∧ stat_matches (kn_final k fd) (od_Generation d) = true) devices l.
Proof.
  intros Hdev Hlen N1 N2 Hv Hz Ho HF.
  assert (Hval : validateObservedBlockDevices (Some devices) = Ok tt).
  { unfold validateObservedBlockDevices, slen. cbn [is_nil elems default from_option id orb]. rewrite (proj2 (Z.ltb_ge _ _) Hlen).
    destruct (observed_loop 0 (∅, ∅) devices N1 N2) as (st & Hst).
    { eapply Forall_impl; [exact Hv|]. intros d Hd. cbn. set_solver. }
    rewrite Hst. cbn [mbind res_bind]. by rewrite (proj2 (validGenerationSet_exact _) (conj Hz Ho)). }
  unfold OpenObservedBlockSources, openObservedBlockSourcesAt. rewrite Hval, Hdev. cbn [negb].
  destruct (len devices =? 0) eqn:E0.
  { exists [], []. split; [done|]. by destruct devices; [constructor|]. }
  destruct (open_loop_complete k 0 ([], []) devices HF) as (evs & l & E & HF'). rewrite E. cbn [snd app].
  assert (Hc : forallb (final_check k) l = true).
  { apply forallb_forall. intros s (j & Hj)%list_elem_of_In%list_elem_of_lookup_1.
    destruct (Forall2_lookup_r _ _ _ _ _ HF' Hj) as (d & _ & fd & _ & -> & H). done. }
  rewrite Hc. eauto.
Qed.

Lemma opened_files_NoDup k devices l : (∀ n n' fd, kn_openat k n = Some fd → kn_openat k n' = Some fd → n = n') → NoDup (od_Name <$> devices) →
  Forall2 (λ d s, ∃ fd, kn_openat k (od_Name d) = Some fd ∧ s = mkSource (Some fd) (od_Generation d)
             ∧ stat_matches (kn_final k fd) (od_Generation d) = true) devices l → NoDup (files l).
Proof.
  intros Hinj HN HF. induction HF as [|d s ds l (fd & H1 & -> & _) HF IH]; [constructor|]. apply NoDup_cons in HN as [Hn HN].
  unfold files. cbn. constructor; [|by apply IH]. intros (s & Hs & Hfd)%list_elem_of_omap. apply list_elem_of_lookup_1 in Hs as (j & Hj).
  destruct (Forall2_lookup_r _ _ _ _ _ HF Hj) as (d' & Hd' & fd' & H2 & -> & _). cbn in Hfd. injection Hfd as ->.
  apply Hn, list_elem_of_fmap. exists d'. split; [by apply (Hinj _ _ fd)|by eapply list_elem_of_lookup_2].
Qed.

(** ** Properties *)

(** C12: a discovery never leaks a descriptor.  Whatever the system shows before
    and after, and for every opener that hands over what it leaves open, the
    descriptors open at the end are exactly the sources of the result, none when
    discovery fails, and the opener's own descriptor of [/dev] is closed; closing the result closes them all, and closing it again
    does nothing. *)
Theorem discovery_descriptors sha256 before after (open : storageSourceOpener) `{!OpenerSpec open} closes evs result :
  discoverTrustedStorageWith sha256 before after (Some open) = (evs, result) →
  devs_open evs = 0 ∧
  match result with
  | None => live_after evs = ∅
  | Some d => live_after evs = list_to_set (files (td_sources d)) ∧
      let '(closing, d', _) := Close closes d in
      live_after (evs ++ closing) = ∅ ∧ td_sources d' = [] ∧ Close closes d' = ([], d', true)
  end.
Proof.
  unfold discoverTrustedStorageWith. destruct (_ ≫= _) as [[[[bs bm] bw] plan]|]; [|intros [= <- <-]; done].
  destruct (open _) as [[oevs sources] failed] eqn:Hopen. pose proof (opener_dev _ _ _ _ Hopen) as Hdev. apply opener_live in Hopen.
  assert (Hdevs : ∀ l, devs_open (oevs ++ closeBlockDeviceSources l) = 0) by (intros l; by rewrite devs_open_app, devs_open_close, Hdev).
  assert (Hclose : ∀ l, list_to_set (files l) = (list_to_set (files (elems sources)) : gset nat) → live_after (oevs ++ closeBlockDeviceSources l) = ∅).
  { intros l Hl. unfold live_after in *. rewrite live_from_app, Hopen, live_close, Hl. set_solver. }
  destruct failed; [intros [= <- <-]; split; [apply Hdevs|by apply Hclose]|].
  destruct (OrderCompleteBlockSources _ _) as [ordered|] eqn:Ho; [|intros [= <- <-]; split; [apply Hdevs|by apply Hclose]].
  apply OrderComplete_exact in Ho as (gs & l & _ & -> & _ & _ & _ & _ & _ & _ & _ & Hp). cbn [elems default from_option id] in *.
  assert (Hset : list_to_set (files ordered) = (list_to_set (files l) : gset nat)).
  { apply set_eq. intros f. rewrite !elem_of_list_to_set. unfold files. by rewrite Hp. }
  destruct (observe_world sha256 after) as [[[as_ am] aw]|]; [|intros [= <- <-]; split; [apply Hdevs|by apply Hclose]].
  destruct (_ || _); intros [= <- <-]; [split; [apply Hdevs|by apply Hclose]|]. cbn [td_sources Close td_closed]. rewrite Hset. split; [done|]. split; [done|]. cbn.
  split_and!; [by apply Hclose|done|done].
Qed.

(** C11: what a discovery returns is trustworthy.  When it succeeds with the
    opener of [volumeprobe], the inventories collected before and after are both
    the one it returns, the mounts were the same on both sides and no swap was
    active, the candidates are unused in the sense of the plan, and each of them
    has, in order, its own descriptor, obtained by opening its name and seen twice
    by the kernel under the generation of the inventory. *)
Theorem discovery_trusted sha256 before after k evs d :
  discoverTrustedStorageWith sha256 before after (Some (OpenObservedBlockSources k)) = (evs, Some d) →
  ∃ afterMounts, observed sha256 before (td_inventory d) (td_mounts d) ∧ observed sha256 after (td_inventory d) afterMounts
  ∧ ms_Mounts afterMounts = ms_Mounts (td_mounts d)
  ∧ sound_plan (td_inventory d) (td_mounts d)
      (mkPlan (td_candidates d) (td_excluded d) (td_hasAmbiguousIdentity d) (td_identityEvidenceIncomplete d))
  ∧ Forall2 (λ c s, ∃ fd, kn_openat k (sc_Name c) = Some fd ∧ s = mkSource (Some fd) (sc_Generation c)
       ∧ stat_matches (kn_first k fd) (sc_Generation c) = true ∧ stat_matches (kn_final k fd) (sc_Generation c) = true)
      (td_candidates d) (td_sources d)
  ∧ NoDup (files (td_sources d)).
Proof.
  unfold discoverTrustedStorageWith. destruct (_ ≫= _) as [[[[bs bm] bw] plan]|] eqn:Hb; [|done].
  apply res_bind_Ok in Hb as ([[bs' bm'] bw'] & Hbefore%observe_world_Ok & Hb). apply res_bind_Ok in Hb as (plan' & Hplan%plan_sound & [= <- <- <- <-]).
  cbn [fst snd] in *. destruct (OpenObservedBlockSources k _) as [[oevs sources] failed] eqn:Hopen. destruct failed; [done|].
  destruct (OrderCompleteBlockSources _ _) as [ordered|] eqn:Ho; [|done].
  destruct (observe_world sha256 after) as [[[as_ am] aw]|] eqn:Ha; [|done]. apply observe_world_Ok in Ha.
  destruct (_ || _) eqn:Hsame; [done|]. intros [= _ <-]. cbn [td_inventory td_mounts td_candidates td_excluded td_hasAmbiguousIdentity td_identityEvidenceIncomplete td_sources].
  apply orb_false_iff in Hsame as [Hsame Hm%negb_false_iff%sameMount_elems]. apply orb_false_iff in Hsame as [_ Hs%negb_false_iff%sameStorage_elems].
  assert (Heq : as_ = bs').
  { rewrite (collectStorage_published _ _ _ (ob_storage _ _ _ _ Ha)), (collectStorage_published _ _ _ (ob_storage _ _ _ _ Hbefore)). by rewrite Hs. }
  subst as_. exists am. split_and!; [done|done| | | |].
  - destruct (ob_mounts _ _ _ _ Ha) as (? & ms & _ & _ & ->). destruct (ob_mounts _ _ _ _ Hbefore) as (? & ms' & _ & _ & ->).
    cbn in Hm |- *. by rewrite Hm.
  - by destruct plan'.
  - apply OrderComplete_exact in Ho as (gs & l & [= <-] & -> & _ & _ & HN & _ & _ & _ & He & Hp).
    assert (HF : Forall2 (λ d s, ∃ fd, kn_openat k (od_Name d) = Some fd ∧ s = mkSource (Some fd) (od_Generation d)
       ∧ stat_matches (kn_first k fd) (od_Generation d) = true ∧ stat_matches (kn_final k fd) (od_Generation d) = true)
         (candidate_device <$> pl_Candidates plan') l).
    { apply OpenObserved_Ok in Hopen as (_ & _ & H). by destruct (H eq_refl) as (l' & [= <-] & HF). }
    assert (Hgl : bs_Generation <$> l = od_Generation <$> (candidate_device <$> pl_Candidates plan')).
    { clear -HF. induction HF as [|? ? ? ? (fd & _ & -> & _)]; cbn; [done|]. by f_equal. }
    assert (ordered = l) as -> by (apply generations_inj; [by rewrite He|done|by rewrite He, Hgl]).
    by apply Forall2_fmap_l in HF.
  - apply OrderComplete_exact in Ho as (gs & l & _ & _ & _ & _ & _ & _ & _ & [_ _ _ Hf] & _ & Hp). unfold files in *. by rewrite Hp.
Qed.

(** C35: a quiet system is discovered.  When both observations succeed and show the
    same nodes and mounts and the same empty swap table, the plan has at most
    [MaxSources] candidates, and the kernel opens every candidate under its
    generation with a descriptor of its own, discovery succeeds with exactly the
    candidates of the plan: none of the later checks refuses what an earlier one
    accepted. *)
Theorem discovery_succeeds sha256 before after k storage mounts afterMounts swap plan :
  observe_world sha256 before = Ok (storage, mounts, swap) → observe_world sha256 after = Ok (storage, afterMounts, swap) →
  ms_Mounts afterMounts = ms_Mounts mounts → planTrustedStorageDiscovery storage mounts = Ok plan →
  len (pl_Candidates plan) ≤ MaxSources → kn_dev k = true →
  Forall (λ c, opens k (sc_Name c) (sc_Generation c)) (pl_Candidates plan) →
  (∀ n n' fd, kn_openat k n = Some fd → kn_openat k n' = Some fd → n = n') →
  ∃ evs d, discoverTrustedStorageWith sha256 before after (Some (OpenObservedBlockSources k)) = (evs, Some d)
  ∧ td_candidates d = pl_Candidates plan ∧ length (td_sources d) = length (pl_Candidates plan).
Proof.
  intros Hb Ha Hm Hplan Hlen Hdev Hopen Hinj. pose proof (observe_world_Ok _ _ _ _ _ Hb) as Ob. pose proof (observe_world_Ok _ _ _ _ _ Ha) as Oa.
  destruct (candidates_numbered _ _ _ (plan_sound _ _ _ Hplan)) as (N1 & N2 & N3 & N4). set (ds := candidate_device <$> pl_Candidates plan).
  assert (En : od_Name <$> ds = sc_Name <$> pl_Candidates plan) by (unfold ds; by rewrite <- list_fmap_compose).
  assert (Eg : od_Generation <$> ds = sc_Generation <$> pl_Candidates plan) by (unfold ds; by rewrite <- list_fmap_compose).
  assert (HNg : NoDup (od_Generation <$> ds)).
  { rewrite Eg. apply NoDup_fmap_2_strong; [|by eapply NoDup_fmap_1]. intros a b Ha' Hb' E. apply N4; [done|done|left; by rewrite E]. }
  assert (Hone : one_to_one (od_Generation <$> ds)).
  { rewrite Eg. intros x y (a & -> & Hxa)%list_elem_of_fmap (b & -> & Hyb)%list_elem_of_fmap.
    split; intros E; (assert (a = b) as -> by (apply N4; auto)); done. }
  assert (Hld : len ds = len (pl_Candidates plan)) by (unfold len, ds; by rewrite length_fmap).
  destruct (OpenObserved_complete k ds) as (evs & l & Ho & HF); [done|lia|by rewrite En|done| |by rewrite Eg|done| |].
  { unfold ds. by apply Forall_fmap. }
  { unfold ds. by apply Forall_fmap. }
  assert (Hl : length l = length (od_Generation <$> ds)) by (rewrite length_fmap; symmetry; by eapply Forall2_length).
  assert (Hgl : bs_Generation <$> l = od_Generation <$> ds).
  { clear -HF. induction HF as [|? ? ? ? (fd & _ & -> & _)]; cbn; [done|]. by f_equal. }
  assert (Hord : OrderCompleteBlockSources (Some (od_Generation <$> ds)) (Some l) = Ok l).
  { apply OrderComplete_exact. exists (od_Generation <$> ds), l.
    assert (Hlg : len (od_Generation <$> ds) ≤ MaxSources) by (unfold len in *; rewrite length_fmap; lia).
    split_and!; try done; [by rewrite Eg|]. split.
    - intros s Hs. rewrite <- Hgl. apply list_elem_of_fmap. by exists s.
    - apply Forall_forall. intros s (j & Hj)%list_elem_of_lookup_1. by destruct (Forall2_lookup_r _ _ _ _ _ HF Hj) as (d & _ & fd & _ & -> & _).
    - by rewrite Hgl.
    - rewrite <- En in N1. by apply (opened_files_NoDup k ds l). }
  unfold discoverTrustedStorageWith. rewrite Hb. cbn [mbind res_bind fst snd]. rewrite Hplan. cbn [mbind res_bind fst snd]. fold ds. rewrite Ho, Hord, Ha.
  rewrite bool_decide_eq_true_2, sameStorage_refl by done.
  destruct (ob_mounts _ _ _ _ Ob) as (? & ms & _ & _ & ->), (ob_mounts _ _ _ _ Oa) as (? & ms' & _ & _ & ->). injection Hm as ->.
  rewrite sameMount_observed. cbn [negb orb]. eexists _, _. split; [reflexivity|]. cbn. split; [done|]. by rewrite Hl, Eg, length_fmap.
Qed.

(** The system of the inventory's sample: [sdb] is the only free disk. *)
Definition text_file (lines : list string) : file := Opened (mkReader (foldr (λ l t, String.append l (String (ascii_of_nat 10) t)) "" lines) false).
Definition quiet (now : Z) : world :=
  mkWorld sample_views now (text_file ["21 1 9:0 / / rw,relatime shared:1 - ext4 /dev/md0 rw"; "22 21 0:20 / /proc rw - proc proc rw"])
    (text_file ["Filename Type Size Used Priority"]).
Definition sample_kernel : kernel :=
  mkKernel true (λ n, if n == "sdb" then Some 7%nat else None) (λ _, Some (mkStat 8 16 (Some 2))) (λ _, Some (mkStat 8 16 (Some 2))).
Definition sample_hash : list Z → list Z := λ _, [].
Definition sample_run : list event * option trustedStorageDiscovery :=
  discoverTrustedStorageWith sample_hash (quiet 1) (quiet 2) (Some (OpenObservedBlockSources sample_kernel)).
(** a discovery that found a mount gone in the second observation *)
Definition changed : world := mkWorld sample_views 2 (text_file ["21 1 9:0 / / rw - ext4 /dev/md0 rw"]) (wd_swaps (quiet 2)).
Definition failed_run : list event * option trustedStorageDiscovery :=
  discoverTrustedStorageWith sample_hash (quiet 1) changed (Some (OpenObservedBlockSources sample_kernel)).
Definition empty_discovery : trustedStorageDiscovery :=
  mkTrusted sample_snapshot (observed_mounts 0 []) (mkSwap 0 []) [] [] false false [] true.
Definition sample_found : trustedStorageDiscovery := default empty_discovery sample_run.2.
Definition sample_plan_of : storageDiscoveryPlan :=
  mkPlan (td_candidates sample_found) (td_excluded sample_found) (td_hasAmbiguousIdentity sample_found) (td_identityEvidenceIncomplete sample_found).

Lemma discovery_descriptors_witness :
  failed_run.1 = [EvOpenDev; EvOpen 7; EvCloseDev; EvClose 7] ∧ live_after failed_run.1 = ∅
  ∧ live_after sample_run.1 = {[7%nat]}.
Proof.
  split; [vm_compute; reflexivity|]. split.
  - assert (H : failed_run = ([EvOpenDev; EvOpen 7; EvCloseDev; EvClose 7], None)) by (vm_compute; reflexivity).
    destruct (discovery_descriptors sample_hash (quiet 1) changed (OpenObservedBlockSources sample_kernel) (λ _, true) _ _ H) as [_ E].
    rewrite H. exact E.
  - assert (H : sample_run = ([EvOpenDev; EvOpen 7; EvCloseDev], Some sample_found)) by (vm_compute; reflexivity).
    destruct (discovery_descriptors sample_hash (quiet 1) (quiet 2) (OpenObservedBlockSources sample_kernel) (λ _, true) _ _ H) as [_ [E _]].
    rewrite H. cbn [fst]. rewrite E. vm_compute. reflexivity.
Defined.
Lemma discovery_trusted_witness :
  sample_run = ([EvOpenDev; EvOpen 7; EvCloseDev], Some sample_found) ∧ td_sources sample_found = [mkSource (Some 7%nat) (mkGeneration 8 16 2)]
  ∧ sound_plan (td_inventory sample_found) (td_mounts sample_found) sample_plan_of.
Proof.
  assert (H : sample_run = ([EvOpenDev; EvOpen 7; EvCloseDev], Some sample_found)) by (vm_compute; reflexivity).
  split; [exact H|]. split; [vm_compute; reflexivity|].
  destruct (discovery_trusted sample_hash (quiet 1) (quiet 2) sample_kernel _ _ H) as (am & _ & _ & _ & Hp & _). exact Hp.
Defined.
Lemma discovery_succeeds_witness :
  ∃ evs d, discoverTrustedStorageWith sample_hash (quiet 1) (quiet 2) (Some (OpenObservedBlockSources sample_kernel)) = (evs, Some d)
  ∧ td_candidates d = td_candidates sample_found ∧ length (td_sources d) = 1%nat.
Proof.
  apply (discovery_succeeds sample_hash (quiet 1) (quiet 2) sample_kernel (td_inventory sample_found) (td_mounts sample_found)
           (observed_mounts 2 (elems (ms_Mounts (td_mounts sample_found)))) (td_swap sample_found) sample_plan_of).
  - vm_compute. reflexivity.
  - vm_compute. reflexivity.
  - vm_compute. reflexivity.
  - vm_compute. reflexivity.
  - vm_compute. discriminate.
  - reflexivity.
  - assert (E : pl_Candidates sample_plan_of = [mkCandidate "sdb" (mkGeneration 8 16 2) identityAmbiguous identityUnavailable])
      by (vm_compute; reflexivity).
    rewrite E. repeat constructor. exists 7%nat. vm_compute. auto.
  - intros n n' fd. cbn. do 2 case_bool_decide; congruence.
Defined.
End TrustedStorage.
