(* ===== verification/VolumeProbe.v ===== *)
(** * Answers of the volume probe: [volumeprobe/result.go] and [volumeprobe/snapshot.go]

    The probe is a separate program that prints one JSON document about a disk.
    [decode] reads it strictly and [check_response] is the rest of the function:
    the statuses, the partition table with its numbers, identifiers, ranges and the
    extended container.  [valid_result] says what an accepted answer is, without
    the loops.  [MatchUUID] looks a filesystem up in a set of answers. *)

From S2P Require Import Prelude GoStrings Utf8 ConfigJson GoJson.
Import GoJson.

Module VolumeProbe.

Definition maxOutput : Z := 65536.
Definition maxPartitionEntries : Z := 256.

Record Partition := mkPartition {
  pt_Number : Z; pt_Start512B : Z; pt_Size512B : Z; pt_UUID : string; pt_TypeID : string; pt_Extended : bool }.
#[export] Instance Partition_eq_dec : EqDecision Partition. Proof. solve_decision. Defined.
Record PartitionTable := mkTable { tb_Scheme : string; tb_ID : string; tb_Partitions : list Partition }.
#[export] Instance PartitionTable_eq_dec : EqDecision PartitionTable. Proof. solve_decision. Defined.
Record Result := mkResult {
  rs_Status : string; rs_SourceKind : string; rs_Filesystem : string; rs_FilesystemUUID : string;
  rs_PartitionTable : option PartitionTable }.
#[export] Instance Result_eq_dec : EqDecision Result. Proof. solve_decision. Defined.

(** the wire structs: a pointer is an option *)
Record partitionResponse := mkWirePartition {
  wq_Number : option Z; wq_Start512B : option Z; wq_Size512B : option Z; wq_UUID : option string; wq_TypeID : option string;
  wq_Extended : option bool }.
Record response := mkResponse {
  wr_SchemaVersion : Z; wr_Status : option string; wr_SourceKind : option string; wr_Filesystem : option string;
  wr_FilesystemUUID : option string; wr_PartitionTable : option string; wr_PartitionTableID : option string;
  wr_Partitions : option (slice partitionResponse); wr_MountPerformed : option bool; wr_CompatibilityQualified : option bool;
  wr_ActivationAllowed : option bool }.
Definition dec_partition : jval → option partitionResponse :=
  as_struct ["number"; "start_512b_sectors"; "size_512b_sectors"; "uuid"; "type_id"; "extended"]
    (mkWirePartition None None None None None None) (λ ms,
  n ← fld "number" (as_ptr (as_uint 32)) None ms; s ← fld "start_512b_sectors" (as_ptr (as_uint 64)) None ms;
  z ← fld "size_512b_sectors" (as_ptr (as_uint 64)) None ms; u ← fld "uuid" (as_ptr as_str) None ms;
  t ← fld "type_id" (as_ptr as_str) None ms; e ← fld "extended" (as_ptr as_bool) None ms;
  Some (mkWirePartition n s z u t e)).
Definition dec_response : jval → option response :=
  as_struct ["schema_version"; "status"; "source_kind"; "filesystem"; "filesystem_uuid"; "partition_table"; "partition_table_id";
             "partitions"; "mount_performed"; "compatibility_qualified"; "activation_allowed"]
    (mkResponse 0 None None None None None None None None None None) (λ ms,
  v ← fld "schema_version" as_int 0 ms; s ← fld "status" (as_ptr as_str) None ms; k ← fld "source_kind" (as_ptr as_str) None ms;
  f ← fld "filesystem" (as_ptr as_str) None ms; u ← fld "filesystem_uuid" (as_ptr as_str) None ms;
  t ← fld "partition_table" (as_ptr as_str) None ms; i ← fld "partition_table_id" (as_ptr as_str) None ms;
  p ← fld "partitions" (as_ptr (as_slice dec_partition)) None ms; m ← fld "mount_performed" (as_ptr as_bool) None ms;
  c ← fld "compatibility_qualified" (as_ptr as_bool) None ms; a ← fld "activation_allowed" (as_ptr as_bool) None ms;
  Some (mkResponse v s k f u t i p m c a)).
Definition fields : list string :=
  ["schema_version"; "status"; "source_kind"; "filesystem"; "filesystem_uuid"; "partition_table"; "partition_table_id"; "partitions";
   "mount_performed"; "compatibility_qualified"; "activation_allowed"; "number"; "start_512b_sectors"; "size_512b_sectors"; "uuid";
   "type_id"; "extended"].

Inductive probe_error := ErrResponse | ErrUnsafe.
#[export] Instance probe_error_eq_dec : EqDecision probe_error. Proof. solve_decision. Defined.

(** ** Syntax *)
Definition rangesOverlap (aStart aEnd bStart bEnd : Z) : bool := (aStart <? bEnd) && (bStart <? aEnd).
Definition lowerHex (value : string) : bool := forallb is_lower_hex (runes value).
Definition validDOSID (value : string) : bool :=
  if negb (slength value =? 8) || negb (lowerHex value) then false else value != "00000000".
(** [strconv.FormatUint(n, 16)] *)
Fixpoint format_hex (fuel : nat) (n : Z) (acc : string) : string :=
  match fuel with
  | O => acc
  | S fuel' =>
    let acc' := String (hex_nibble (n mod 16)) acc in
    if n / 16 =? 0 then acc' else format_hex fuel' (n / 16) acc'
  end.
Definition FormatUint16 (n : Z) : string := format_hex 16 n EmptyString.
Definition validDOSPartitionID (tableID : string) (number : Z) (value : string) : bool :=
  let suffix := FormatUint16 number in
  let suffix := if slength suffix <? 2 then String "0" suffix else suffix in
  value == String.append tableID (String "-" suffix).
Definition validDOSType (value : string) : bool :=
  (slength value =? 4) && has_prefix "0x" value && lowerHex (String.substring 2 2 value) && (value != "0x00").
Definition uuid_step (_ : Z) (nonzero : bool) (e : Z * Z * nat) : res unit bool :=
  let i := e.1.1 in
  let ch := e.1.2 in
  if (i =? 8) || (i =? 13) || (i =? 18) || (i =? 23) then (refuse negb (ch =? 45) => tt ;; Ok nonzero)
  else (refuse negb (is_lower_hex ch) => tt ;; Ok (nonzero || negb (ch =? 48))).
Definition validUUID (value : string) : bool :=
  if negb (slength value =? 36) then false
  else match for_range uuid_step 0 false (range_string value) with Ok nonzero => nonzero | Err _ => false end.

(** ** The rest of [decode] *)
Definition status_ok (status filesystem uuid table tableID : string) (partitions : Z) : bool :=
  let bare := (table == "") && (tableID == "") && (partitions =? 0) in
  if status == "ext-metadata" then
    ((filesystem == "ext2") || (filesystem == "ext3") || (filesystem == "ext4")) && validUUID uuid && bare
  else if status == "other-signature" then (filesystem == "") && (uuid == "")
  else if (status == "unusable-signature") || (status == "unidentified") || (status == "ambiguous") then
    (filesystem == "") && (uuid == "") && bare
  else if status == "unsupported-table" then (filesystem == "") && (uuid == "") && bare
  else false.

Definition extended_type (typeID : string) : bool := (typeID == "0x05") || (typeID == "0x0f") || (typeID == "0x85").
Record scan := mkScan { sc_numbers : gset Z; sc_uuids : gset string; sc_extended : Z; sc_partitions : list Partition }.
Definition partition_step (scheme tableID : string) (st : scan) (part : partitionResponse) : res probe_error scan :=
  match wq_Number part, wq_Start512B part, wq_Size512B part, wq_UUID part, wq_TypeID part, wq_Extended part with
  | Some number, Some start, Some size, Some uuid, Some typeID, Some extended =>
    refuse (number =? 0) || (start =? 0) || (size =? 0) || (max_uint64 - size <? start) || (number ∈? sc_numbers st) || (uuid ∈? sc_uuids st)
      => ErrResponse ;;
    let st' count := mkScan ({[number]} ∪ sc_numbers st) ({[uuid]} ∪ sc_uuids st) count
                       (sc_partitions st ++ [mkPartition number start size uuid typeID extended]) in
    if scheme == "gpt" then
      refuse (4096 <? number) || extended || negb (validUUID uuid) || negb (validUUID typeID) => ErrResponse ;;
      Ok (st' (sc_extended st))
    else
      refuse (256 <? number) || negb (validDOSPartitionID tableID number uuid) || negb (validDOSType typeID) => ErrResponse ;;
      refuse negb (eqb extended (extended_type typeID)) || (extended && (4 <? number)) => ErrResponse ;;
      if extended then
        refuse 1 <? sc_extended st + 1 => ErrResponse ;;
        Ok (st' (sc_extended st + 1))
      else Ok (st' (sc_extended st))
  | _, _, _, _, _, _ => Err ErrResponse
  end.
Definition pt_end (p : Partition) : Z := u64_add (pt_Start512B p) (pt_Size512B p).
(** the partitions before this one *)
Definition overlap_step (earlier : list Partition) (left : Partition) : res probe_error (list Partition) :=
  refuse existsb (λ right, negb (pt_Extended left || pt_Extended right)
                           && rangesOverlap (pt_Start512B left) (pt_end left) (pt_Start512B right) (pt_end right)) earlier => ErrResponse ;;
  Ok (earlier ++ [left]).
(** primaries lie outside the container, logical partitions inside *)
Definition outside_container (container part : Partition) : bool :=
  if pt_Extended part then false
  else if pt_Number part <? 5 then rangesOverlap (pt_Start512B part) (pt_end part) (pt_Start512B container) (pt_end container)
  else (pt_Start512B part <? pt_Start512B container) || (pt_end container <? pt_end part).
Definition container_ok (scheme : string) (extendedCount : Z) (ps : list Partition) : bool :=
  if negb (scheme == "dos") then true
  else if extendedCount =? 0 then negb (existsb (λ p, 4 <? pt_Number p) ps)
  else if extendedCount =? 1 then
    match List.find pt_Extended ps with
    | None => false
    | Some container => negb (existsb (outside_container container) ps)
    end
  else true.
Definition check_table (scheme tableID : string) (parts : list partitionResponse) : res probe_error PartitionTable :=
  refuse maxPartitionEntries <? len parts => ErrResponse ;;
  refuse negb (if scheme == "gpt" then validUUID tableID else if scheme == "dos" then validDOSID tableID else false) => ErrResponse ;;
  st ← for_range (λ _, partition_step scheme tableID) 0 (mkScan ∅ ∅ 0 []) parts;
  _ ← for_range (λ _, overlap_step) 0 [] (sc_partitions st);
  refuse negb (container_ok scheme (sc_extended st) (sc_partitions st)) => ErrResponse ;;
  Ok (mkTable scheme tableID (sc_partitions st)).

Definition check_response (wire : response) : res probe_error Result :=
  refuse negb (wr_SchemaVersion wire =? 2) => ErrResponse ;;
  match wr_Status wire, wr_SourceKind wire, wr_Filesystem wire, wr_FilesystemUUID wire, wr_PartitionTable wire, wr_PartitionTableID wire,
        wr_Partitions wire, wr_MountPerformed wire, wr_CompatibilityQualified wire, wr_ActivationAllowed wire with
  | Some status, Some kind, Some filesystem, Some uuid, Some table, Some tableID, Some (Some parts), Some false, Some false, Some false =>
    refuse (kind != "regular-image") && (kind != "block-device") => ErrResponse ;;
    refuse negb (status_ok status filesystem uuid table tableID (len parts)) => ErrResponse ;;
    if table == "" then
      refuse (tableID != "") || negb (len parts =? 0) => ErrResponse ;;
      Ok (mkResult status kind filesystem uuid None)
    else
      refuse status != "other-signature" => ErrResponse ;;
      t ← check_table table tableID parts;
      Ok (mkResult status kind filesystem uuid (Some t))
  | _, _, _, _, _, _, _, _, _, _ => Err ErrResponse
  end.
Definition decode (input : reader) : res probe_error Result :=
  wire ← redact ErrResponse (DecodeInto dec_response input maxOutput 3 fields);
  check_response wire.

(** ** Sets of answers: [snapshot.go] *)
Record objectKey := mkObject { ok_kind : string; ok_device : Z; ok_inode : Z; ok_rawDevice : Z }.
#[export] Instance objectKey_eq_dec : EqDecision objectKey. Proof. solve_decision. Defined.
#[export] Instance objectKey_countable : Countable objectKey.
Proof. apply (inj_countable' (λ k, (ok_kind k, ok_device k, ok_inode k, ok_rawDevice k)) (λ '(a, b, c, d), mkObject a b c d)). by intros []. Defined.
(** [ob_table] is the address of the partition table the result points to, when it has one *)
Record observation := mkObservation { ob_result : Result; ob_table : nat; ob_object : objectKey }.
Record Match := mkMatch { mt_State : string; mt_SourceIndices : list Z }.
Definition matches_uuid (uuid : string) (e : observation) : bool :=
  (rs_Status (ob_result e) == "ext-metadata") && (rs_FilesystemUUID (ob_result e) == uuid).
Definition match_step (uuid : string) (i : Z) (st : gset objectKey * list Z) (entry : observation) : res probe_error (gset objectKey * list Z) :=
  if matches_uuid uuid entry then Ok ({[ob_object entry]} ∪ st.1, st.2 ++ [i]) else Ok st.
Definition MatchUUID (entries : list observation) (uuid : string) : res probe_error Match :=
  refuse negb (validUUID uuid) => ErrUnsafe ;;
  st ← for_range (match_step uuid) 0 (∅, []) entries;
  Ok (mkMatch (if (1 <? size st.1)%nat then "conflicting-objects" else if (size st.1 =? 1)%nat then "one-object" else "not-observed") st.2).
(** [previous != entry.result] compares the tables by their addresses *)
Definition same_result (a b : observation) : bool :=
  (rs_Status (ob_result a) == rs_Status (ob_result b)) && (rs_SourceKind (ob_result a) == rs_SourceKind (ob_result b))
  && (rs_Filesystem (ob_result a) == rs_Filesystem (ob_result b)) && (rs_FilesystemUUID (ob_result a) == rs_FilesystemUUID (ob_result b))
  && match rs_PartitionTable (ob_result a), rs_PartitionTable (ob_result b) with
     | None, None => true
     | Some _, Some _ => (ob_table a =? ob_table b)%nat
     | _, _ => false
     end.
Definition snapshot_step (seen : gmap objectKey observation) (entry : observation) : res probe_error (gmap objectKey observation) :=
  refuse match seen !! ob_object entry with Some previous => negb (same_result previous entry) | None => false end => ErrUnsafe ;;
  Ok (<[ob_object entry := entry]> seen).
Definition makeSnapshot (entries : list observation) : res probe_error (list observation) :=
  _ ← for_range (λ _, snapshot_step) 0 ∅ entries;
  Ok entries.

(** ** What an accepted answer is *)
Definition wire_partition (p : Partition) : partitionResponse :=
  mkWirePartition (Some (pt_Number p)) (Some (pt_Start512B p)) (Some (pt_Size512B p)) (Some (pt_UUID p)) (Some (pt_TypeID p)) (Some (pt_Extended p)).
Definition partition_range (p : Partition) : Prop :=
  0 ≤ pt_Number p < 2 ^ 32 ∧ 0 ≤ pt_Start512B p < 2 ^ 64 ∧ 0 ≤ pt_Size512B p < 2 ^ 64.
Record good_partition (scheme tableID : string) (p : Partition) : Prop := {
  gp_number : pt_Number p ≠ 0;
  gp_start : pt_Start512B p ≠ 0;
  gp_size : pt_Size512B p ≠ 0;
  gp_end : pt_Start512B p + pt_Size512B p ≤ max_uint64;
  gp_scheme : if scheme == "gpt"
              then pt_Number p ≤ 4096 ∧ pt_Extended p = false ∧ validUUID (pt_UUID p) = true ∧ validUUID (pt_TypeID p) = true
              else pt_Number p ≤ 256 ∧ validDOSPartitionID tableID (pt_Number p) (pt_UUID p) = true ∧ validDOSType (pt_TypeID p) = true
                   ∧ pt_Extended p = extended_type (pt_TypeID p) ∧ (pt_Extended p = true → pt_Number p ≤ 4) }.
Definition disjoint (p q : Partition) : Prop :=
  pt_Start512B p + pt_Size512B p ≤ pt_Start512B q ∨ pt_Start512B q + pt_Size512B q ≤ pt_Start512B p.
Definition inside (p c : Partition) : Prop :=
  pt_Start512B c ≤ pt_Start512B p ∧ pt_Start512B p + pt_Size512B p ≤ pt_Start512B c + pt_Size512B c.
Definition extended_of (ps : list Partition) : list Partition := filter (λ p, pt_Extended p = true) ps.
Record valid_table (t : PartitionTable) : Prop := {
  vt_scheme : (tb_Scheme t = "gpt" ∧ validUUID (tb_ID t) = true) ∨ (tb_Scheme t = "dos" ∧ validDOSID (tb_ID t) = true);
  vt_count : len (tb_Partitions t) ≤ maxPartitionEntries;
  vt_range : Forall partition_range (tb_Partitions t);
  vt_partitions : Forall (good_partition (tb_Scheme t) (tb_ID t)) (tb_Partitions t);
  vt_numbers : NoDup (pt_Number <$> tb_Partitions t);
  vt_uuids : NoDup (pt_UUID <$> tb_Partitions t);
  (* no two partitions share a sector, containers apart *)
  vt_disjoint : ForallOrdPairs (λ p q, pt_Extended p = false → pt_Extended q = false → disjoint q p) (tb_Partitions t);
  (* there is at most one container; logical partitions lie in it, primaries outside; without one all are primaries *)
  vt_container : match extended_of (tb_Partitions t) with
                 | [] => tb_Scheme t = "dos" → Forall (λ p, pt_Number p ≤ 4) (tb_Partitions t)
                 | [c] => Forall (λ p, pt_Extended p = false → if pt_Number p <? 5 then disjoint p c else inside p c) (tb_Partitions t)
                 | _ => False
                 end }.
Definition bare (r : Result) : Prop := rs_PartitionTable r = None.
Record valid_result (r : Result) : Prop := {
  vr_kind : rs_SourceKind r = "regular-image" ∨ rs_SourceKind r = "block-device";
  vr_status :
    (rs_Status r = "ext-metadata" ∧ rs_Filesystem r ∈ ["ext2"; "ext3"; "ext4"] ∧ validUUID (rs_FilesystemUUID r) = true ∧ bare r)
    ∨ (rs_Status r = "other-signature" ∧ rs_Filesystem r = "" ∧ rs_FilesystemUUID r = "")
    ∨ (rs_Status r ∈ ["unusable-signature"; "unidentified"; "ambiguous"; "unsupported-table"] ∧ rs_Filesystem r = "" ∧ rs_FilesystemUUID r = "" ∧ bare r);
  vr_table : ∀ t, rs_PartitionTable r = Some t → valid_table t }.
Definition wire_of (r : Result) : response :=
  let t := default (mkTable "" "" []) (rs_PartitionTable r) in
  mkResponse 2 (Some (rs_Status r)) (Some (rs_SourceKind r)) (Some (rs_Filesystem r)) (Some (rs_FilesystemUUID r)) (Some (tb_Scheme t)) (Some (tb_ID t))
    (Some (Some (wire_partition <$> tb_Partitions t))) (Some false) (Some false) (Some false).

(** ** The loop over the partitions *)
Section table.
Context (scheme tableID : string).
Definition fresh (st : scan) (p : Partition) : Prop :=
  pt_Number p ∉ sc_numbers st ∧ pt_UUID p ∉ sc_uuids st ∧ (pt_Extended p = true → sc_extended st + 1 ≤ 1).
Definition add_partition (st : scan) (p : Partition) : scan :=
  mkScan ({[pt_Number p]} ∪ sc_numbers st) ({[pt_UUID p]} ∪ sc_uuids st) (if pt_Extended p then sc_extended st + 1 else sc_extended st)
    (sc_partitions st ++ [p]).
Lemma partition_step_exact st p st' :
  partition_step scheme tableID st (wire_partition p) = Ok st' ↔ good_partition scheme tableID p ∧ fresh st p ∧ st' = add_partition st p.
Proof.
  destruct p as [n s z u t e]. unfold partition_step, wire_partition, fresh, add_partition.
  cbn [wq_Number wq_Start512B wq_Size512B wq_UUID wq_TypeID wq_Extended pt_Number pt_Start512B pt_Size512B pt_UUID pt_TypeID pt_Extended].
  rewrite refuse_Ok. assert (Hend : (max_uint64 - z <? s) = false ↔ s + z ≤ max_uint64) by (rewrite Z.ltb_ge; lia).
  rewrite !orb_false_iff, !Z.eqb_neq, Hend, !bool_decide_eq_false. case_bool_decide as Hs.
  - rewrite refuse_Ok, !orb_false_iff, !negb_false_iff, Z.ltb_ge. split.
    + intros ((((((? & ?) & ?) & ?) & ?) & ?) & (((? & ->) & ?) & ?) & [= <-]). split; [split; cbn; rewrite ?bool_decide_eq_true_2 by done; done|done].
    + intros ([? ? ? ? Hg] & (? & ? & _) & ->). cbn in *. rewrite bool_decide_eq_true_2 in Hg by done. destruct Hg as (? & -> & ? & ?). done.
  - rewrite refuse_Ok, !orb_false_iff, !negb_false_iff, Z.ltb_ge, refuse_Ok, orb_false_iff, negb_false_iff, eqb_true_iff, andb_false_iff, Z.ltb_ge.
    assert (Hcount : (if e then (if 1 <? sc_extended st + 1 then Err ErrResponse else
        Ok (mkScan ({[n]} ∪ sc_numbers st) ({[u]} ∪ sc_uuids st) (sc_extended st + 1) (sc_partitions st ++ [mkPartition n s z u t e])))
        else Ok (mkScan ({[n]} ∪ sc_numbers st) ({[u]} ∪ sc_uuids st) (sc_extended st) (sc_partitions st ++ [mkPartition n s z u t e]))) = Ok st'
        ↔ (e = true → sc_extended st + 1 ≤ 1) ∧ st' = mkScan ({[n]} ∪ sc_numbers st) ({[u]} ∪ sc_uuids st)
             (if e then sc_extended st + 1 else sc_extended st) (sc_partitions st ++ [mkPartition n s z u t e])).
    { destruct e; [rewrite refuse_Ok, Z.ltb_ge|]; naive_solver. }
    rewrite Hcount. clear Hcount Hend. split.
    + intros ((((((? & ?) & ?) & ?) & ?) & ?) & ((? & ?) & ?) & (He & Hx) & ? & ->).
      split; [split; cbn; rewrite ?bool_decide_eq_false_2 by done; try done|done]. split_and!; try done. intros ->. by destruct Hx.
    + intros ([? ? ? ? Hg] & (? & ? & ?) & ->). cbn in *. rewrite bool_decide_eq_false_2 in Hg by done.
      destruct Hg as (? & ? & ? & ? & Hx). split_and!; try done. destruct e; [right; auto|by left].
Qed.
Lemma partition_step_wire st part st' : partition_step scheme tableID st part = Ok st' → ∃ p, part = wire_partition p.
Proof.
  destruct part as [[n|] [s|] [z|] [u|] [t|] [e|]]; try done. intros _. by exists (mkPartition n s z u t e).
Qed.
Lemma partitions_loop i st parts st' :
  for_range (λ _, partition_step scheme tableID) i st parts = Ok st' ↔
  ∃ ps, parts = wire_partition <$> ps ∧ Forall (good_partition scheme tableID) ps ∧ chain add_partition fresh st ps ∧ st' = fold_left add_partition ps st.
Proof.
  revert i st. induction parts as [|part parts IH]; intros i st.
  - cbn. split; [intros [= <-]; exists []; split_and!; try done; constructor|]. intros (ps & E & _ & _ & ->). by destruct ps.
  - rewrite for_range_cons_Ok. setoid_rewrite IH. split.
    + intros (s1 & Hs & ps & -> & HF & Hc & ->). destruct (partition_step_wire _ _ _ Hs) as (p & ->).
      apply partition_step_exact in Hs as (Hg & Hf & ->). exists (p :: ps). split_and!; try done. by constructor.
    + intros ([|p ps] & E & HF & Hc & ->); [done|]. injection E as -> ->. apply Forall_cons in HF as [Hg HF]. destruct Hc as [Hf Hc].
      exists (add_partition st p). split; [by apply partition_step_exact|]. by exists ps.
Qed.
End table.

Lemma extended_of_cons p ps : extended_of (p :: ps) = if pt_Extended p then p :: extended_of ps else extended_of ps.
Proof. unfold extended_of. rewrite filter_cons. destruct (pt_Extended p); [by rewrite decide_True|by rewrite decide_False]. Qed.
(** What the loop has collected. *)
Lemma chain_fresh st ps : chain add_partition fresh st ps ↔
  NoDup (pt_Number <$> ps) ∧ (∀ p, p ∈ ps → pt_Number p ∉ sc_numbers st) ∧ NoDup (pt_UUID <$> ps) ∧ (∀ p, p ∈ ps → pt_UUID p ∉ sc_uuids st)
  ∧ (sc_extended st + len (extended_of ps) ≤ 1 ∨ extended_of ps = []).
Proof.
  unfold fresh. rewrite !chain_and, (chain_key _ sc_numbers pt_Number), (chain_key _ sc_uuids pt_UUID) by done.
  assert (Hx : chain add_partition (λ st p, pt_Extended p = true → sc_extended st + 1 ≤ 1) st ps ↔
               sc_extended st + len (extended_of ps) ≤ 1 ∨ extended_of ps = []); [|tauto].
  revert st. induction ps as [|p ps IH]; intros st; cbn [chain]; [unfold extended_of; rewrite filter_nil; naive_solver|].
  rewrite IH, extended_of_cons. unfold add_partition. cbn [sc_extended]. destruct (pt_Extended p) eqn:He; [|naive_solver].
  assert (Hl : len (p :: extended_of ps) = len (extended_of ps) + 1) by (unfold len; cbn [length]; lia). rewrite Hl.
  assert (0 ≤ len (extended_of ps)) by (unfold len; lia). split.
  - intros [H1 [H2|H2]]; left; [lia|]. rewrite H2. unfold len. cbn. specialize (H1 eq_refl). lia.
  - intros [H1|?]; [|done]. split; [intros; lia|left; lia].
Qed.
Lemma fold_scan ps st : sc_partitions (fold_left add_partition ps st) = sc_partitions st ++ ps
  ∧ sc_extended (fold_left add_partition ps st) = sc_extended st + len (extended_of ps).
Proof.
  revert st. induction ps as [|p ps IH]; intros st; cbn [fold_left].
  - unfold extended_of, len. rewrite filter_nil, app_nil_r. cbn. split; [done|lia].
  - destruct (IH (add_partition st p)) as [H1 H2]. rewrite H1, H2, extended_of_cons. unfold add_partition. cbn [sc_partitions sc_extended].
    rewrite <- app_assoc. split; [done|]. destruct (pt_Extended p); [|done]. unfold len. cbn [length]. lia.
Qed.

(** ** Overlaps *)
Lemma pt_end_sum p : partition_range p → pt_Start512B p + pt_Size512B p ≤ max_uint64 → pt_end p = pt_Start512B p + pt_Size512B p.
Proof. intros (_ & Hs & Hz) Hm. unfold pt_end, u64_add, wrap. apply Z.mod_small. unfold max_uint64 in Hm. lia. Qed.
Lemma rangesOverlap_false a b c d : rangesOverlap a b c d = false ↔ b ≤ c ∨ d ≤ a.
Proof. unfold rangesOverlap. rewrite andb_false_iff, !Z.ltb_ge. lia. Qed.
Definition sized (p : Partition) : Prop := partition_range p ∧ pt_Start512B p + pt_Size512B p ≤ max_uint64.
Lemma overlap_loop ps : Forall sized ps → (∃ out, for_range (λ _, overlap_step) 0 [] ps = Ok out) ↔
  ForallOrdPairs (λ p q, pt_Extended p = false → pt_Extended q = false → disjoint q p) ps.
Proof.
  intros HF.
  set (apart := λ right left, negb (pt_Extended left || pt_Extended right)
                 && rangesOverlap (pt_Start512B left) (pt_end left) (pt_Start512B right) (pt_end right) = false).
  assert (Hl : ∀ out, for_range (λ _, overlap_step) 0 [] ps = Ok out ↔ Forall (λ _, True) ps
      ∧ chain (λ s x, s ++ [id x]) (λ s x, Forall (λ y, apart y (id x)) s) [] ps ∧ out = fold_left (λ s x, s ++ [id x]) ps []).
  { intros out. apply for_range_chain. intros _ st x st'. unfold overlap_step. rewrite refuse_Ok, existsb_False, Forall_forall. unfold apart, id. naive_solver. }
  assert (Hc : (∃ out, for_range (λ _, overlap_step) 0 [] ps = Ok out) ↔ chain (λ s x, s ++ [id x]) (λ s x, Forall (λ y, apart y (id x)) s) [] ps).
  { split; [by intros (out & (_ & H & _)%Hl)|]. intros H. eexists. apply Hl. split_and!; [by apply Forall_true|done|reflexivity]. }
  rewrite Hc, (chain_pairs id apart).
  rewrite (ForallOrdPairs_iff sized (λ x y, apart (id x) (id y)) (λ p q, pt_Extended p = false → pt_Extended q = false → disjoint q p) ps); [| |done].
  - split; [by intros [? _]|]. intros H. split; [done|constructor].
  - intros x y [Hx Hx'] [Hy Hy']. unfold apart, id. rewrite !pt_end_sum by done. rewrite andb_false_iff, rangesOverlap_false, negb_false_iff, orb_true_iff.
    unfold disjoint. destruct (pt_Extended x), (pt_Extended y); naive_solver.
Qed.

Lemma find_extended ps : List.find pt_Extended ps = head (extended_of ps).
Proof. induction ps as [|p ps IH]; [done|]. rewrite extended_of_cons. cbn. by destruct (pt_Extended p). Qed.
Lemma outside_exact c p : sized c → sized p →
  outside_container c p = false ↔ (pt_Extended p = false → if pt_Number p <? 5 then disjoint p c else inside p c).
Proof.
  intros [Hc Hc'] [Hp Hp']. unfold outside_container. rewrite !pt_end_sum by done. destruct (pt_Extended p); [naive_solver|].
  destruct (pt_Number p <? 5).
  - rewrite rangesOverlap_false. unfold disjoint. naive_solver.
  - rewrite orb_false_iff, !Z.ltb_ge. unfold inside. naive_solver.
Qed.
Lemma container_exact scheme ps : Forall sized ps → (scheme ≠ "dos" → extended_of ps = []) → len (extended_of ps) ≤ 1 →
  container_ok scheme (len (extended_of ps)) ps = true ↔
  match extended_of ps with
  | [] => scheme = "dos" → Forall (λ p, pt_Number p ≤ 4) ps
  | [c] => Forall (λ p, pt_Extended p = false → if pt_Number p <? 5 then disjoint p c else inside p c) ps
  | _ => False
  end.
Proof.
  intros HF Hs Hl. unfold container_ok. rewrite find_extended. case_bool_decide as Hd; cbn [negb].
  - destruct (extended_of ps) as [|c [|]] eqn:He; [| |unfold len in Hl; simpl in Hl; lia].
    + change (len [] =? 0) with true. cbn iota. rewrite negb_true_iff, existsb_False, Forall_forall. setoid_rewrite Z.ltb_ge. naive_solver.
    + change (len [c] =? 0) with false. change (len [c] =? 1) with true. cbn [head]. cbn iota.
      rewrite negb_true_iff, existsb_False, Forall_forall. rewrite Forall_forall in HF.
      assert (Hc : sized c). { apply HF. assert (Hin : c ∈ extended_of ps) by (rewrite He; by left). by apply list_elem_of_filter in Hin as [_ Hin]. }
      split; intros H p Hp; apply (outside_exact c p Hc (HF p Hp)), H; done.
  - rewrite (Hs Hd). naive_solver.
Qed.

Lemma check_table_exact scheme tableID parts t : (∀ ps, parts = wire_partition <$> ps → Forall partition_range ps) →
  check_table scheme tableID parts = Ok t ↔
  tb_Scheme t = scheme ∧ tb_ID t = tableID ∧ parts = wire_partition <$> tb_Partitions t ∧ valid_table t.
Proof.
  intros Hrange. unfold check_table. rewrite !refuse_Ok, Z.ltb_ge, negb_false_iff.
  assert (Hid : (if scheme == "gpt" then validUUID tableID else if scheme == "dos" then validDOSID tableID else false) = true ↔
                (scheme = "gpt" ∧ validUUID tableID = true) ∨ (scheme = "dos" ∧ validDOSID tableID = true)).
  { case_bool_decide as E; [subst; naive_solver|]. case_bool_decide as E'; naive_solver. }
  rewrite Hid, res_bind_Ok. setoid_rewrite partitions_loop. clear Hid.
  assert (Hext : ∀ ps, Forall (good_partition scheme tableID) ps → scheme = "gpt" → extended_of ps = []).
  { intros ps HF E. destruct (extended_of ps) as [|c l] eqn:He; [done|]. assert (Hin : c ∈ extended_of ps) by (rewrite He; by left).
    apply list_elem_of_filter in Hin as [Hx Hin]. rewrite Forall_forall in HF. destruct (HF c Hin) as [_ _ _ _ Hg].
    rewrite bool_decide_eq_true_2 in Hg by done. destruct Hg as (_ & Hg & _). congruence. }
  split.
  - intros (Hlen & Hs & st & (ps & -> & HF & Hc & ->) & H). apply res_bind_Ok in H as (out & Ho & H). apply refuse_Ok in H as [Hk%negb_false_iff [= <-]].
    destruct (fold_scan ps (mkScan ∅ ∅ 0 [])) as [E1 E2]. rewrite E1, E2 in *. cbn [sc_partitions sc_extended app] in *. rewrite Z.add_0_l in Hk.
    apply chain_fresh in Hc as (N1 & _ & N2 & _ & Hx). cbn [sc_extended] in Hx. specialize (Hrange ps eq_refl).
    assert (HS : Forall sized ps). { rewrite Forall_forall in *. intros p Hp. split; [auto|]. by destruct (HF p Hp). }
    assert (Hx' : len (extended_of ps) ≤ 1) by (destruct Hx as [Hx|Hx]; [lia|rewrite Hx; unfold len; cbn; lia]).
    split_and!; [done|done|done|]. split; cbn; try done.
    + unfold len in *. by rewrite length_fmap in Hlen.
    + apply overlap_loop; eauto.
    + apply container_exact in Hk; [done|done| |done]. intros Hd. apply Hext; [done|]. naive_solver.
  - intros (<- & <- & -> & [Hs Hl _ HF N1 N2 HD HC]). set (ps := tb_Partitions t) in *. specialize (Hrange ps eq_refl).
    assert (HS : Forall sized ps). { rewrite Forall_forall in *. intros p Hp. split; [auto|]. by destruct (HF p Hp). }
    assert (Hx' : len (extended_of ps) ≤ 1) by (destruct (extended_of ps) as [|? [|]]; unfold len; cbn; [lia|lia|done]).
    split; [unfold len in *; by rewrite length_fmap|]. split; [done|]. exists (fold_left add_partition ps (mkScan ∅ ∅ 0 [])). split.
    { exists ps. split_and!; try done. apply chain_fresh. cbn. split_and!; try done; try set_solver; left; lia. }
    destruct (fold_scan ps (mkScan ∅ ∅ 0 [])) as [E1 E2]. rewrite E1, E2. cbn [sc_partitions sc_extended app]. rewrite Z.add_0_l.
    destruct (proj2 (overlap_loop ps HS) HD) as (out & ->). cbn [mbind res_bind].
    rewrite (proj2 (container_exact (tb_Scheme t) ps HS ltac:(intros; apply Hext; [done|naive_solver]) Hx') HC). cbn. by destruct t.
Qed.

Definition ranged (wire : response) : Prop :=
  ∀ parts ps, wr_Partitions wire = Some (Some parts) → parts = wire_partition <$> ps → Forall partition_range ps.
Lemma status_ok_exact r (t : PartitionTable) :
  status_ok (rs_Status r) (rs_Filesystem r) (rs_FilesystemUUID r) (tb_Scheme t) (tb_ID t) (len (tb_Partitions t)) = true ↔
  (rs_Status r = "ext-metadata" ∧ rs_Filesystem r ∈ ["ext2"; "ext3"; "ext4"] ∧ validUUID (rs_FilesystemUUID r) = true ∧ t = mkTable "" "" [])
  ∨ (rs_Status r = "other-signature" ∧ rs_Filesystem r = "" ∧ rs_FilesystemUUID r = "")
  ∨ (rs_Status r ∈ ["unusable-signature"; "unidentified"; "ambiguous"; "unsupported-table"] ∧ rs_Filesystem r = "" ∧ rs_FilesystemUUID r = ""
     ∧ t = mkTable "" "" []).
Proof.
  assert (Hb : (tb_Scheme t == "") && (tb_ID t == "") && (len (tb_Partitions t) =? 0) = true ↔ t = mkTable "" "" []).
  { destruct t as [a b l]. cbn. rewrite !andb_true_iff, !bool_decide_eq_true, Z.eqb_eq. unfold len. split; [|naive_solver].
    intros [[-> ->] H]. by destruct l. }
  unfold status_ok. cbv zeta. set (none := (tb_Scheme t == "") && (tb_ID t == "") && (len (tb_Partitions t) =? 0)) in *. clearbody none.
  destruct r as [st k f u pt]. cbn [rs_Status rs_Filesystem rs_FilesystemUUID].
  destruct (st == "ext-metadata") eqn:H1; [apply bool_decide_eq_true in H1; subst st; rewrite !andb_true_iff, Hb, !orb_true_iff, !bool_decide_eq_true; set_solver|].
  destruct (st == "other-signature") eqn:H2; [apply bool_decide_eq_true in H2; subst st; rewrite !andb_true_iff, !bool_decide_eq_true; set_solver|].
  apply bool_decide_eq_false in H1, H2. destruct (_ || _) eqn:H3.
  - rewrite !orb_true_iff, !bool_decide_eq_true in H3. rewrite !andb_true_iff, Hb, !bool_decide_eq_true. set_solver.
  - rewrite !orb_false_iff, !bool_decide_eq_false in H3. destruct (st == "unsupported-table") eqn:H4.
    + apply bool_decide_eq_true in H4. rewrite !andb_true_iff, Hb, !bool_decide_eq_true. set_solver.
    + apply bool_decide_eq_false in H4. split; [done|]. set_solver.
Qed.

#[local] Instance wire_partition_inj : Inj (=) (=) wire_partition.
Proof. intros [] []. unfold wire_partition. cbn. congruence. Qed.
Lemma check_response_sound wire r : ranged wire → check_response wire = Ok r → valid_result r.
Proof.
  destruct wire as [v st k f u pt pid parts m c a]. unfold ranged, check_response.
  cbn [wr_SchemaVersion wr_Status wr_SourceKind wr_Filesystem wr_FilesystemUUID wr_PartitionTable wr_PartitionTableID wr_Partitions wr_MountPerformed wr_CompatibilityQualified wr_ActivationAllowed].
  intros Hr [_ H]%refuse_Ok. destruct st as [st|]; [|done]. destruct k as [k|]; [|done]. destruct f as [f|]; [|done]. destruct u as [u|]; [|done].
  destruct pt as [pt|]; [|done]. destruct pid as [pid|]; [|done]. destruct parts as [[parts|]|]; [|done|done].
  destruct m as [[]|]; [done| |done]. destruct c as [[]|]; [done| |done]. destruct a as [[]|]; [done| |done].
  apply refuse_Ok in H as [Hk H]. apply refuse_Ok in H as [Hs%negb_false_iff H].
  assert (Hkind : k = "regular-image" ∨ k = "block-device").
  { apply andb_false_iff in Hk as [Hk|Hk]; apply negb_false_iff, bool_decide_eq_true in Hk; auto. }
  destruct (pt == "") eqn:Hpt.
  - apply bool_decide_eq_true in Hpt as ->. apply refuse_Ok in H as [Hb [= <-]]. apply orb_false_iff in Hb as [Hi Hl].
    apply negb_false_iff, bool_decide_eq_true in Hi as ->. apply negb_false_iff, Z.eqb_eq in Hl. rewrite Hl in Hs.
    apply (status_ok_exact (mkResult st k f u None) (mkTable "" "" [])) in Hs. split; [done| |done]. unfold bare. cbn in *. naive_solver.
  - apply refuse_Ok in H as [Ho%negb_false_iff%bool_decide_eq_true H]. apply res_bind_Ok in H as (t & Ht & [= <-]). subst st.
    apply check_table_exact in Ht as (_ & _ & _ & Hv); [|intros ps Hps; by eapply Hr].
    split; [done| |by intros t' [= <-]]. right. left. cbn.
    unfold status_ok in Hs. cbn in Hs. apply andb_true_iff in Hs as [?%bool_decide_eq_true ?%bool_decide_eq_true]. done.
Qed.
Lemma check_response_complete r : valid_result r → check_response (wire_of r) = Ok r.
Proof.
  intros [Hk Hs Ht]. unfold check_response, wire_of.
  cbn [wr_SchemaVersion wr_Status wr_SourceKind wr_Filesystem wr_FilesystemUUID wr_PartitionTable wr_PartitionTableID wr_Partitions wr_MountPerformed wr_CompatibilityQualified wr_ActivationAllowed].
  change (negb (2 =? 2)) with false. cbn iota.
  assert (Hkind : (rs_SourceKind r != "regular-image") && (rs_SourceKind r != "block-device") = false).
  { apply andb_false_iff. rewrite !negb_false_iff, !bool_decide_eq_true. done. }
  rewrite Hkind. clear Hkind. set (t := default (mkTable "" "" []) (rs_PartitionTable r)).
  assert (Hlen : len (wire_partition <$> tb_Partitions t) = len (tb_Partitions t)) by (unfold len; by rewrite length_fmap). rewrite Hlen.
  rewrite (proj2 (status_ok_exact r t)).
  2:{ unfold bare in Hs. subst t. destruct Hs as [(?&?&?&E)|[?|(?&?&?&E)]]; [left; rewrite E|tauto|right; right; rewrite E]; done. }
  cbn [negb]. destruct r as [st k f u [t'|]]; cbn in t; subst t; cbn [tb_Scheme tb_ID tb_Partitions rs_Status rs_SourceKind rs_Filesystem rs_FilesystemUUID].
  - specialize (Ht t' eq_refl). assert (Hscheme : tb_Scheme t' ≠ "") by (destruct Ht as [[[-> _]|[-> _]]]; done).
    rewrite bool_decide_eq_false_2 by done. unfold bare in Hs. cbn in Hs. rewrite bool_decide_eq_true_2 by naive_solver. cbn [negb].
    assert (Hck : check_table (tb_Scheme t') (tb_ID t') (wire_partition <$> tb_Partitions t') = Ok t').
    { apply check_table_exact; [|done]. intros ps E%(inj (fmap wire_partition)). rewrite <- E. apply Ht. }
    by rewrite Hck.
  - done.
Qed.

(** ** Documents *)
Definition enc_partition (p : Partition) : jval :=
  JObj [("number", enc_uint (pt_Number p)); ("start_512b_sectors", enc_uint (pt_Start512B p)); ("size_512b_sectors", enc_uint (pt_Size512B p));
        ("uuid", JStr (pt_UUID p)); ("type_id", JStr (pt_TypeID p)); ("extended", JBool (pt_Extended p))].
Definition enc_result (r : Result) : jval :=
  let t := default (mkTable "" "" []) (rs_PartitionTable r) in
  JObj [("schema_version", enc_int 2); ("status", JStr (rs_Status r)); ("source_kind", JStr (rs_SourceKind r)); ("filesystem", JStr (rs_Filesystem r));
        ("filesystem_uuid", JStr (rs_FilesystemUUID r)); ("partition_table", JStr (tb_Scheme t)); ("partition_table_id", JStr (tb_ID t));
        ("partitions", enc_slice enc_partition (Some (tb_Partitions t))); ("mount_performed", JBool false); ("compatibility_qualified", JBool false);
        ("activation_allowed", JBool false)].

Lemma dec_partition_range v part ps : dec_partition v = Some part → part = wire_partition ps → partition_range ps.
Proof.
  unfold dec_partition, as_struct. destruct v as [| | | | |ms]; try done; [by intros [= <-] [=]|]. destruct (known _ _); [|done].
  intros (n & Hn & H)%bind_Some. apply bind_Some in H as (st & Hst & H). apply bind_Some in H as (z & Hz & H).
  do 3 apply bind_Some in H as (? & _ & H). injection H as <-. intros [= -> -> -> _ _ _].
  assert (Hp : ∀ w k x, 0 < w → fld k (as_ptr (as_uint w)) None ms = Some (Some x) → 0 ≤ x < 2 ^ w).
  { intros w k y Hw. unfold fld. destruct (get k ms) as [v|]; [|done]. unfold as_ptr.
    destruct v; cbn [fmap option_fmap option_map]; try done; destruct (as_uint w _) eqn:E; try done; intros [= <-]; by eapply as_uint_range. }
  exact (conj (Hp 32 _ _ eq_refl Hn) (conj (Hp 64 _ _ eq_refl Hst) (Hp 64 _ _ eq_refl Hz))).
Qed.
Lemma dec_response_ranged v wire : dec_response v = Some wire → ranged wire.
Proof.
  unfold dec_response, as_struct. destruct v as [| | | | |ms]; try done; [by intros [= <-] ? ? [=]|]. destruct (known _ _); [|done].
  intros H. do 7 apply bind_Some in H as (? & _ & H). apply bind_Some in H as (p & Hp & H). do 3 apply bind_Some in H as (? & _ & H).
  injection H as <-. intros parts ps [= ->] ->. apply Forall_forall. intros q Hq.
  assert (Hin : wire_partition q ∈ elems (Some (wire_partition <$> ps))) by (cbn; apply list_elem_of_fmap; by exists q).
  assert (Hs : ∃ v, as_slice dec_partition v = Some (Some (wire_partition <$> ps))).
  { unfold fld in Hp. destruct (get _ ms) as [v|]; [|done]. exists v. unfold as_ptr in Hp. destruct v; try done; destruct (as_slice dec_partition _) eqn:E; try done; cbn in Hp; congruence. }
  destruct Hs as (v & Hs). destruct (as_slice_elem _ _ _ _ Hs Hin) as (w & Hw). by eapply dec_partition_range.
Qed.

(** *** Identifiers are ASCII *)
Lemma uuid_loop i b es out : for_range uuid_step i b es = Ok out → forallb (λ c, is_lower_hex c || (c =? 45)) ((λ e : Z * Z * nat, e.1.2) <$> es) = true.
Proof.
  revert i b. induction es as [|e es IH]; intros i b; [done|]. cbn [for_range]. unfold uuid_step at 1. destruct (_ || _ || _ || _).
  - destruct (e.1.2 =? 45) eqn:E; [|done]. cbn [negb]. intros H%IH. cbn. by rewrite E, orb_true_r.
  - destruct (is_lower_hex e.1.2) eqn:E; [|done]. cbn [negb]. intros H%IH. cbn. by rewrite E.
Qed.
Lemma forallb_ascii (P : Z → bool) s : (∀ r, 128 ≤ r → P r = false) → forallb P (runes s) = true → Forall (λ c, c < 128) (codes s).
Proof.
  intros HP H. rewrite forallb_runes in H by done. rewrite forallb_forall in H. apply Forall_forall. intros c Hc.
  destruct (decide (c < 128)) as [|Hn]; [done|]. assert (Hc' := H c ltac:(by apply list_elem_of_In)). rewrite HP in Hc'; [done|lia].
Qed.
Lemma hex_high r : 128 ≤ r → is_lower_hex r = false.
Proof. intros H. unfold is_lower_hex, is_digit. rewrite !(proj2 (Z.leb_gt r _)) by lia. by rewrite !andb_false_r. Qed.
Lemma validUUID_ascii s : validUUID s = true → Forall (λ c, c < 128) (codes s).
Proof.
  unfold validUUID. destruct (negb _); [done|]. destruct (for_range _ _ _ _) eqn:E; [|done]. intros _. apply uuid_loop in E.
  eapply forallb_ascii; [|exact E]. intros r Hr. cbn. rewrite hex_high by done. cbn. apply Z.eqb_neq. lia.
Qed.
Lemma lowerHex_ascii s : lowerHex s = true → Forall (λ c, c < 128) (codes s).
Proof. apply forallb_ascii, hex_high. Qed.
Lemma validDOSID_ascii s : validDOSID s = true → Forall (λ c, c < 128) (codes s).
Proof. unfold validDOSID. destruct (negb _ || negb _) eqn:E; [done|]. intros _. apply orb_false_iff in E as [_ E%negb_false_iff]. by apply lowerHex_ascii. Qed.
Lemma hex_nibble_ascii n : 0 ≤ n < 16 → code (hex_nibble n) < 128.
Proof. intros H. unfold hex_nibble. assert (Hn : n ∈ seqZ 0 16) by (apply elem_of_seqZ; lia). revert n Hn H. apply (Forall_forall (λ n, 0 ≤ n < 16 → _)). repeat constructor. Qed.
Lemma format_hex_ascii fuel n acc : Forall (λ c, c < 128) (codes acc) → Forall (λ c, c < 128) (codes (format_hex fuel n acc)).
Proof.
  revert n acc. induction fuel as [|fuel IH]; intros n acc H; cbn [format_hex]; [done|].
  assert (H' : Forall (λ c, c < 128) (codes (String (hex_nibble (n mod 16)) acc))).
  { rewrite codes_String. constructor; [|done]. apply hex_nibble_ascii, Z.mod_pos_bound. lia. }
  destruct (_ =? 0); [done|]. by apply IH.
Qed.

Lemma validDOSType_ascii s : validDOSType s = true → Forall (λ c, c < 128) (codes s).
Proof.
  unfold validDOSType. intros [[[Hl Hp]%andb_true_iff Hh]%andb_true_iff _]%andb_true_iff. apply Z.eqb_eq in Hl. unfold slength in Hl.
  destruct s as [|a [|b [|c [|d [|]]]]]; cbn in Hl; try lia. unfold has_prefix in Hp. cbn [String.prefix] in Hp.
  destruct (ascii_dec "0" a) as [<-|]; [|discriminate]. destruct (ascii_dec "x" b) as [<-|]; [|discriminate].
  change (String.substring 2 2 _) with (String c (String d "")) in Hh. apply lowerHex_ascii in Hh. rewrite (codes_String "0"), (codes_String "x").
  constructor; [by vm_compute|]. by constructor; [vm_compute|].
Qed.
Lemma validDOSPartitionID_ascii t n s : validDOSID t = true → validDOSPartitionID t n s = true → Forall (λ c, c < 128) (codes s).
Proof.
  unfold validDOSPartitionID. intros Ht%validDOSID_ascii ->%bool_decide_eq_true. rewrite codes_append, codes_String.
  apply Forall_app. split; [done|]. constructor; [vm_compute; reflexivity|].
  assert (Hf : Forall (λ c, c < 128) (codes (FormatUint16 n))) by (apply format_hex_ascii; constructor).
  case_match; [|done]. rewrite codes_String. constructor; [vm_compute; reflexivity|done].
Qed.
Lemma enc_partition_wf t p : valid_table t → p ∈ tb_Partitions t → jwf (enc_partition p) = true.
Proof.
  intros [Hs _ Hr HF _ _ _ _] Hp. rewrite Forall_forall in Hr, HF. destruct (Hr p Hp) as (H1 & H2 & H3). destruct (HF p Hp) as [_ _ _ _ Hg].
  assert (Hids : utf8_valid (pt_UUID p) = true ∧ utf8_valid (pt_TypeID p) = true).
  { destruct Hs as [[E Hid]|[E Hid]]; rewrite E in Hg.
    - rewrite bool_decide_eq_true_2 in Hg by done. destruct Hg as (_ & _ & Hu & Ht). split; by apply ascii_utf8, validUUID_ascii.
    - rewrite bool_decide_eq_false_2 in Hg by done. destruct Hg as (_ & Hu & Ht & _).
      split; apply ascii_utf8; [by eapply validDOSPartitionID_ascii|by apply validDOSType_ascii]. }
  destruct Hids. unfold enc_partition. json_wf; first [done|apply enc_uint_wf; lia].
Qed.
Lemma enc_result_wf r : valid_result r → jwf (enc_result r) = true.
Proof.
  intros [Hk Hs Ht]. assert (Hf : utf8_valid (rs_Status r) = true ∧ utf8_valid (rs_Filesystem r) = true ∧ utf8_valid (rs_FilesystemUUID r) = true).
  { destruct Hs as [(-> & Hf & Hu & _)|[(-> & -> & ->)|(Hst & -> & -> & _)]]; [|done|split; [|done]].
    - split; [done|]. split; [|by apply ascii_utf8, validUUID_ascii]. revert Hf. generalize (rs_Filesystem r). apply Forall_forall. repeat (apply Forall_cons_2; [by vm_compute|]). apply Forall_nil_2.
    - revert Hst. generalize (rs_Status r). apply Forall_forall.
      repeat (apply Forall_cons_2; [by vm_compute|]). apply Forall_nil_2. }
  assert (Htab : let t := default (mkTable "" "" []) (rs_PartitionTable r) in utf8_valid (tb_Scheme t) = true ∧ utf8_valid (tb_ID t) = true
                 ∧ ∀ p, p ∈ tb_Partitions t → jwf (enc_partition p) = true).
  { destruct (rs_PartitionTable r) as [t|]; cbn [default from_option id tb_Scheme tb_ID tb_Partitions];
      [|split_and!; [by vm_compute|by vm_compute|intros p Hp; by apply not_elem_of_nil in Hp]]. specialize (Ht t eq_refl). split_and!.
    - by destruct Ht as [[[-> _]|[-> _]]].
    - apply ascii_utf8. destruct Ht as [[[_ H]|[_ H]]]; [by apply validUUID_ascii|by apply validDOSID_ascii].
    - intros p. by apply enc_partition_wf. }
  destruct Hf as (? & ? & ?), Htab as (? & ? & ?). unfold enc_result. json_wf; try done. by destruct Hk as [->| ->].
Qed.
Lemma enc_result_strict r : strict 3 (Some (λ k, k ∈? fields)) 0 (enc_result r).
Proof. unfold enc_result. json_strict. apply strict_array; [done|lia|]. intros p _. unfold enc_partition. json_strict. Qed.
Lemma dec_enc_partition p : partition_range p → dec_partition (enc_partition p) = Some (wire_partition p).
Proof.
  intros (H1 & H2 & H3). unfold dec_partition, enc_partition. json_dec. rewrite !as_ptr_uint by lia. done.
Qed.
Lemma dec_enc_result r : valid_result r → dec_response (enc_result r) = Some (wire_of r).
Proof.
  intros [_ _ Ht]. unfold dec_response, enc_result, wire_of. json_dec. set (t := default _ _).
  assert (Hs : as_slice dec_partition (enc_slice enc_partition (Some (tb_Partitions t))) = Some (Some (wire_partition <$> tb_Partitions t))).
  { rewrite (as_slice_map dec_partition enc_partition wire_partition); [done|]. intros p Hp. apply dec_enc_partition. cbn in Hp.
    subst t. destruct (rs_PartitionTable r) as [t|]; cbn in Hp; [|set_solver]. destruct (Ht t eq_refl). rewrite Forall_forall in vt_range0. auto. }
  unfold as_ptr. unfold enc_slice in *. cbn [mbind option_bind] in *. rewrite Hs. done.
Qed.

(** ** Sets of answers *)
Lemma same_result_distinct a b : same_result a b = true → ob_table a ≠ ob_table b → rs_PartitionTable (ob_result a) = None ∧ ob_result a = ob_result b.
Proof.
  unfold same_result. rewrite !andb_true_iff, !bool_decide_eq_true. intros [[[[H1 H2] H3] H4] H5] Hne.
  destruct (ob_result a) as [sa ka fa ua [ta|]], (ob_result b) as [sb kb fb ub [tb|]]; cbn in *; try done; [by apply Nat.eqb_eq in H5|]. naive_solver.
Qed.
Lemma same_result_trans a b c : same_result a b = true → same_result b c = true → same_result a c = true.
Proof.
  unfold same_result. rewrite !andb_true_iff, !bool_decide_eq_true. intros [[[[H1 H2] H3] H4] H5] [[[[H6 H7] H8] H9] H10].
  split_and!; try congruence. destruct (rs_PartitionTable (ob_result a)), (rs_PartitionTable (ob_result b)), (rs_PartitionTable (ob_result c)); try done.
  apply Nat.eqb_eq in H5, H10. apply Nat.eqb_eq. congruence.
Qed.
(** every entry agrees with the last one of its object *)
Definition last_agrees (done : list observation) (seen : gmap objectKey observation) : Prop :=
  ∀ y, y ∈ done → ∃ e, seen !! ob_object y = Some e ∧ (y = e ∨ same_result y e = true).
Lemma snapshot_loop i done seen todo seen' : last_agrees done seen → for_range (λ _, snapshot_step) i seen todo = Ok seen' →
  ∀ pre x post y, todo = pre ++ x :: post → y ∈ done ++ pre → ob_object y = ob_object x → same_result y x = true.
Proof.
  revert i done seen. induction todo as [|z todo IH]; intros i done seen Hl; cbn [for_range]; [by intros _ [|]|].
  destruct (snapshot_step seen z) as [s1|] eqn:Hs; [|done]. unfold snapshot_step in Hs. apply refuse_Ok in Hs as [Hc [= <-]].
  assert (Hz : ∀ y, y ∈ done → ob_object y = ob_object z → same_result y z = true).
  { intros y Hy E. destruct (Hl y Hy) as (e & He & Hor). rewrite E in He. rewrite He in Hc. apply negb_false_iff in Hc.
    destruct Hor as [->|Hor]; [done|]. by eapply same_result_trans. }
  intros H [|w pre] x post y E; injection E as <- ->; [rewrite app_nil_r; auto|]. intros Hy.
  apply (IH (i + 1) (done ++ [z]) (<[ob_object z := z]> seen)) with (post := post) (pre := pre); [|done|done|by rewrite <- app_assoc].
  intros y' Hy'. destruct (decide (ob_object y' = ob_object z)) as [E|E].
  - exists z. rewrite E, lookup_insert_eq. split; [done|]. apply elem_of_app in Hy' as [Hy'| ->%list_elem_of_singleton]; auto.
  - rewrite lookup_insert_ne by done. apply elem_of_app in Hy' as [Hy'| ->%list_elem_of_singleton]; [auto|done].
Qed.

(** ** Properties *)

Lemma decode_valid input r : decode input = Ok r → valid_result r.
Proof.
  unfold decode. intros (wire & Hd%redact_Ok & H)%res_bind_Ok. apply DecodeInto_Ok in Hd as (_ & _ & _ & v & _ & _ & _ & _ & _ & _ & Hv).
  eapply check_response_sound; [|exact H]. by eapply dec_response_ranged.
Qed.

(** The probe's answers are read exactly.  Whatever bytes the helper prints,
    an accepted answer is consistent: its status decides what else it may carry,
    and a partition table has distinct numbers and identifiers, ranges that do not
    wrap and do not share a sector, at most one extended container with the
    logical partitions inside and the primaries outside; and every consistent
    answer that fits is read back as it was printed. *)
Theorem probe_answers_exact :
  (∀ input r, decode input = Ok r → valid_result r)
  ∧ ∀ r, valid_result r → slength (Marshal (enc_result r)) ≤ maxOutput → decode (bytes_reader (Marshal (enc_result r))) = Ok r.
Proof.
  split.
  - apply decode_valid.
  - intros r Hr Hl. unfold decode.
    rewrite (DecodeInto_Marshal dec_response (enc_result r) maxOutput 3 fields (wire_of r)); [|done|done|by apply enc_result_wf|done|apply enc_result_strict|by apply dec_enc_result].
    cbn [redact mbind res_bind]. by apply check_response_complete.
Qed.

(** The positions and the objects of the answers with the identifier. *)
Definition matched (uuid : string) (entries : list observation) (st : gset objectKey * list Z) : Prop :=
  (∀ o, o ∈ st.1 ↔ ∃ e, e ∈ entries ∧ matches_uuid uuid e = true ∧ ob_object e = o)
  ∧ (∀ i, i ∈ st.2 ↔ ∃ j e, i = Z.of_nat j ∧ entries !! j = Some e ∧ matches_uuid uuid e = true).
Lemma match_loop uuid done st todo : matched uuid done st →
  ∃ out, for_range (match_step uuid) (len done) st todo = Ok out ∧ matched uuid (done ++ todo) out.
Proof.
  revert done st. induction todo as [|e todo IH]; intros done st Hm; cbn [for_range]; [rewrite app_nil_r; eauto|].
  unfold match_step at 1.
  assert (Hlen : len done + 1 = len (done ++ [e])) by (unfold len; rewrite length_app; simpl; lia). rewrite Hlen.
  replace (done ++ e :: todo) with ((done ++ [e]) ++ todo) by (by rewrite <- app_assoc). destruct Hm as [H1 H2].
  assert (Hl : ∀ j x, (done ++ [e]) !! j = Some x ↔ done !! j = Some x ∨ j = length done ∧ x = e).
  { intros j x. rewrite lookup_app_Some, list_lookup_singleton_Some. split; [intros [?|(? & ? & <-)]; [auto|right; split; [lia|done]]|].
    intros [?|[-> ->]]; [auto|right; split; [lia|split; [lia|done]]]. }
  destruct (matches_uuid uuid e) eqn:He; apply IH; split; cbn [fst snd].
  - intros o. rewrite elem_of_union, elem_of_singleton, H1. setoid_rewrite elem_of_app. setoid_rewrite list_elem_of_singleton. split.
    + intros [->|(x & Hx & Hm & Ho)]; [exists e; auto|exists x; auto].
    + intros (x & [Hx| ->] & Hm & Ho); [right; by exists x|by left].
  - intros i. rewrite elem_of_app, list_elem_of_singleton, H2. setoid_rewrite Hl. unfold len. split.
    + intros [(j & x & -> & Hj & Hx)| ->]; [exists j, x; auto|exists (length done), e; auto].
    + intros (j & x & -> & [Hj|[-> ->]] & Hx); [left; by exists j, x|by right].
  - intros o. rewrite H1. setoid_rewrite elem_of_app. setoid_rewrite list_elem_of_singleton. split.
    + intros (x & Hx & Hm & Ho). exists x. auto.
    + intros (x & [Hx| ->] & Hm & Ho); [by exists x|congruence].
  - intros i. rewrite H2. setoid_rewrite Hl. split.
    + intros (j & x & -> & Hj & Hx). exists j, x. auto.
    + intros (j & x & -> & [Hj|[-> ->]] & Hx); [by exists j, x|congruence].
Qed.
(** [MatchUUID] lists exactly the answers with the identifier, and its state tells
    whether they are about no, one or several objects. *)
Theorem MatchUUID_exact entries uuid : validUUID uuid = true →
  ∃ m, MatchUUID entries uuid = Ok m
  ∧ (∀ i, i ∈ mt_SourceIndices m ↔ ∃ j e, i = Z.of_nat j ∧ entries !! j = Some e ∧ matches_uuid uuid e = true)
  ∧ (mt_State m = "not-observed" ↔ ∀ e, e ∈ entries → matches_uuid uuid e = false)
  ∧ (mt_State m = "conflicting-objects" ↔
     ∃ a b, a ∈ entries ∧ b ∈ entries ∧ matches_uuid uuid a = true ∧ matches_uuid uuid b = true ∧ ob_object a ≠ ob_object b).
Proof.
  intros Hv. unfold MatchUUID. rewrite Hv. cbn [negb]. destruct (match_loop uuid [] (∅, []) entries) as (out & E & H1 & H2).
  { split; cbn; intros; rewrite ?lookup_nil; set_solver. }
  change (len []) with 0 in E. rewrite E. cbn [mbind res_bind app] in *. eexists. split; [reflexivity|]. cbn [mt_SourceIndices mt_State]. split; [done|].
  assert (Hempty : (∀ e, e ∈ entries → matches_uuid uuid e = false) → size out.1 = 0%nat).
  { intros Hn. apply size_empty_iff, elem_of_equiv_empty. intros o. rewrite H1. intros (e & He & Hm & _). by rewrite Hn in Hm. }
  split.
  - destruct (Nat.ltb_spec 1 (size out.1)) as [Hs|Hs].
    + split; [done|]. intros Hn%Hempty. lia.
    + destruct (Nat.eqb_spec (size out.1) 1) as [Hz|Hz].
      * split; [done|]. intros Hn%Hempty. lia.
      * split; [|done]. intros _ e He. destruct (matches_uuid uuid e) eqn:Hm; [|done]. exfalso.
        assert (Ho : ob_object e ∈ out.1) by (apply H1; eauto). assert (size out.1 ≠ 0%nat); [|lia]. intros Hz0%size_empty_inv. set_solver.
  - destruct (Nat.ltb_spec 1 (size out.1)) as [Hs|Hs].
    + split; [|done]. intros _. assert (Hne : ∃ x y, x ∈ out.1 ∧ y ∈ out.1 ∧ x ≠ y).
      { destruct (base.elements out.1) as [|x [|y l]] eqn:El; [unfold size, set_size in Hs; cbn in Hs; rewrite El in Hs; simpl in Hs; lia
          |unfold size, set_size in Hs; cbn in Hs; rewrite El in Hs; simpl in Hs; lia|].
        pose proof (NoDup_elements out.1) as HN. rewrite El in HN. exists x, y. rewrite <- !elem_of_elements, El. apply NoDup_cons in HN as [HN _]. set_solver. }
      destruct Hne as (x & y & (a & ? & ? & <-)%H1 & (b & ? & ? & <-)%H1 & Hne). exists a, b. done.
    + split; [by case_match|]. intros (a & b & Ha & Hb & Hma & Hmb & Hne). exfalso.
      assert (Hsub : {[ob_object a; ob_object b]} ⊆ out.1) by (intros o; rewrite H1; set_solver).
      apply subseteq_size in Hsub. rewrite size_union, !size_singleton in Hsub by set_solver. lia.
Qed.
(** In an accepted set, two answers about one object are equal and carry no
    partition table: separately decoded tables have different addresses, so a
    table seen twice is refused even when both answers say the same. *)
Theorem aliases_have_no_table entries pre a mid b post : entries = pre ++ a :: mid ++ b :: post → ob_object a = ob_object b →
  ob_table a ≠ ob_table b → makeSnapshot entries = Ok entries → rs_PartitionTable (ob_result a) = None ∧ ob_result a = ob_result b.
Proof.
  intros E Ho Ht H. unfold makeSnapshot in H. apply res_bind_Ok in H as (seen & Hs & _). apply same_result_distinct; [|done].
  apply (snapshot_loop 0 [] ∅ entries seen) with (pre := pre ++ a :: mid) (post := post); [intros y Hy; by apply not_elem_of_nil in Hy|done| | |done].
  - by rewrite E, <- app_assoc.
  - cbn. set_solver.
Qed.
Definition sample_gpt : PartitionTable :=
  mkTable "gpt" "12345678-1234-4234-8234-123456789abc"
    [mkPartition 1 2048 1024 "aaaaaaaa-bbbb-4ccc-8ddd-eeeeeeeeeeee" "0fc63daf-8483-4772-8e79-3d69d8477de4" false].
Definition sample_disk_result : Result := mkResult "other-signature" "block-device" "" "" (Some sample_gpt).
Definition disk_object : objectKey := mkObject "block-device" 0 0 2064.
Example aliased_disk_refused :
  decode (bytes_reader (Marshal (enc_result sample_disk_result))) = Ok sample_disk_result
  ∧ makeSnapshot [mkObservation sample_disk_result 1 disk_object; mkObservation sample_disk_result 2 disk_object] = Err ErrUnsafe.
Proof. split; vm_compute; reflexivity. Qed.
End VolumeProbe.
