(* ===== verification/GoFloat.v ===== *)
(** * [float64] and [strconv.ParseFloat]

    Values are those of the binary64 format of [SpecFloat]; the operations round to
    the nearest value, ties to even, as the language asks.  [ParseFloat] reads the
    decimal and hexadecimal forms with their underscores and exponents, and rounds
    the exact value once. *)

From Stdlib Require Import SpecFloat.
From S2P Require Import Prelude GoStrings.

Module GoFloat.

Definition float64 : Type := spec_float.
#[export] Instance float64_eq_dec : EqDecision float64. Proof. unfold EqDecision, float64. solve_decision. Defined.
Definition of_Z (n : Z) : float64 := binary_normalize 53 1024 n 0 false.
Definition mul : float64 → float64 → float64 := SFmul 53 1024.
Definition div : float64 → float64 → float64 := SFdiv 53 1024.
Definition ltb : float64 → float64 → bool := SFltb.
Definition leb : float64 → float64 → bool := SFleb.
Definition IsNaN (f : float64) : bool := match f with S754_nan => true | _ => false end.
Definition IsInf (f : float64) : bool := match f with S754_infinity _ => true | _ => false end.

(** [m * base^e], rounded; the sign is given apart *)
Definition scaled (neg : bool) (m : positive) (base e : Z) : float64 :=
  if 0 <=? e then binary_normalize 53 1024 (if neg then - (Zpos m * base ^ e) else Zpos m * base ^ e) 0 neg
  else let '(q, e', l) := SFdiv_core_binary 53 1024 (Zpos m) 0 (base ^ (- e)) 0 in binary_round_aux 53 1024 neg q e' l.

(** ** [readFloat] *)
Definition lower (c : Z) : Z := Z.lor c 32.
Record mantissa := mkMantissa { mt_value : Z; mt_fraction : Z; mt_dot : bool; mt_digits : bool; mt_underscores : bool }.
Fixpoint scan_mantissa (hex : bool) (st : mantissa) (l : list Z) : mantissa * list Z :=
  let digit d l' :=
    scan_mantissa hex (mkMantissa (mt_value st * (if hex then 16 else 10) + d) (if mt_dot st then mt_fraction st + 1 else mt_fraction st)
      (mt_dot st) true (mt_underscores st)) l' in
  match l with
  | [] => (st, [])
  | c :: l' =>
    if c =? 95 then scan_mantissa hex (mkMantissa (mt_value st) (mt_fraction st) (mt_dot st) (mt_digits st) true) l'
    else if c =? 46 then
      if mt_dot st then (st, l) else scan_mantissa hex (mkMantissa (mt_value st) (mt_fraction st) true (mt_digits st) (mt_underscores st)) l'
    else if is_digit c then digit (c - 48) l'
    else if hex && (97 <=? lower c) && (lower c <=? 102) then digit (lower c - 87) l'
    else (st, l)
  end.
Fixpoint scan_exponent (e : Z) (underscores : bool) (l : list Z) : Z * bool * list Z :=
  match l with
  | [] => (e, underscores, [])
  | c :: l' =>
    if c =? 95 then scan_exponent e true l'
    else if is_digit c then scan_exponent (if e <? 10000 then e * 10 + (c - 48) else e) underscores l'
    else (e, underscores, l)
  end.
(** the last thing seen: the beginning, a digit, an underscore, something else *)
Inductive seen := SawStart | SawDigit | SawUnderscore | SawOther.
Fixpoint underscore_from (hex : bool) (i : seen) (l : list Z) : bool :=
  match l with
  | [] => match i with SawUnderscore => false | _ => true end
  | c :: l' =>
    if is_digit c || (hex && (97 <=? lower c) && (lower c <=? 102)) then underscore_from hex SawDigit l'
    else if c =? 95 then match i with SawDigit => underscore_from hex SawUnderscore l' | _ => false end
    else match i with SawUnderscore => false | _ => underscore_from hex SawOther l' end
  end.
Definition skip_sign (l : list Z) : bool * list Z :=
  match l with
  | c :: l' => if c =? 43 then (false, l') else if c =? 45 then (true, l') else (false, l)
  | [] => (false, [])
  end.
Definition underscoreOK (s : list Z) : bool :=
  let l := (skip_sign s).2 in
  match l with
  | z :: p :: l' => if (z =? 48) && ((lower p =? 98) || (lower p =? 111) || (lower p =? 120)) then underscore_from (lower p =? 120) SawDigit l'
                    else underscore_from false SawStart l
  | _ => underscore_from false SawStart l
  end.
(** the sign, the mantissa, the base and the exponent of the whole text *)
Definition readFloat (s : list Z) : option (bool * Z * Z * Z) :=
  let '(neg, l) := skip_sign s in
  let '(hex, l) := match l with
                   | z :: x :: c :: l' => if (z =? 48) && (lower x =? 120) then (true, c :: l') else (false, l)
                   | _ => (false, l)
                   end in
  let '(st, l) := scan_mantissa hex (mkMantissa 0 0 false false false) l in
  if negb (mt_digits st) then None
  else
    '(e, underscores, l) ← match l with
        | c :: l' =>
          if lower c =? (if hex then 112 else 101) then
            let '(eneg, l'') := skip_sign l' in
            match l'' with
            | d :: _ => if is_digit d then let '(e, u, rest) := scan_exponent 0 (mt_underscores st) l'' in Some (if eneg then - e else e, u, rest)
                        else None
            | [] => None
            end
          else if hex then None else Some (0, mt_underscores st, l)
        | [] => if hex then None else Some (0, mt_underscores st, [])
        end;
    if negb (is_nil (match l with [] => None | _ => Some l end)) then None
    else if underscores && negb (underscoreOK s) then None
    else Some (neg, mt_value st, if hex then 2 else 10, if hex then e - 4 * mt_fraction st else e - mt_fraction st).
Definition special (s : list Z) : option float64 :=
  let '(neg, l) := skip_sign s in
  let word := lower <$> l in
  if (word == codes "inf") || (word == codes "infinity") then Some (S754_infinity neg)
  else if (lower <$> s) == codes "nan" then Some S754_nan else None.
(** [strconv.ParseFloat(s, 64)]; a value out of range is an error *)
Definition ParseFloat (s : string) : option float64 :=
  match special (codes s) with
  | Some f => Some f
  | None =>
    '(neg, m, base, e) ← readFloat (codes s);
    match m with
    | Zpos p => let f := scaled neg p base e in if IsInf f then None else Some f
    | _ => Some (S754_zero neg)
    end
  end.

Example parse_floats :
  ParseFloat "12.5" = Some (div (of_Z 25) (of_Z 2)) ∧ ParseFloat "1e2" = Some (of_Z 100) ∧ ParseFloat "0x1.8p1" = Some (of_Z 3)
  ∧ ParseFloat "1_0.0" = Some (of_Z 10) ∧ ParseFloat "1__0" = None ∧ ParseFloat "1e999" = None ∧ ParseFloat "" = None ∧ ParseFloat "." = None
  ∧ ParseFloat "-Inf" = Some (S754_infinity true) ∧ ParseFloat "+nan" = None ∧ ParseFloat "99.99999999999999999999" = Some (of_Z 100).
Proof. vm_compute. repeat split; reflexivity. Qed.

(** A value that is a number and neither below zero nor above [n] lies between. *)
Lemma between f hi : IsNaN f = false → IsNaN hi = false → ltb f (of_Z 0) = false → ltb hi f = false → leb (of_Z 0) f = true ∧ leb f hi = true.
Proof.
  unfold ltb, leb, SFltb, SFleb. intros Hn Hh.
  assert (Hsome : ∀ a b, IsNaN a = false → IsNaN b = false → ∃ c, SFcompare a b = Some c ∧ SFcompare b a = Some (CompOpp c)).
  { assert (Hp : ∀ a b : positive, Pos.compare_cont Eq b a = CompOpp (Pos.compare_cont Eq a b)) by (intros a b; apply Pos.compare_antisym).
    intros [[]|[]| |[] ma ea] [[]|[]| |[] mb eb]; cbn; intros; try done; (eexists; split; [reflexivity|]); try done;
      rewrite (Z.compare_antisym ea eb); destruct (ea ?= eb); cbn; try done; by rewrite (Hp ma mb). }
  destruct (Hsome f (of_Z 0) Hn eq_refl) as (c & -> & ->). destruct (Hsome hi f Hh Hn) as (d & -> & ->). by destruct c, d.
Qed.
End GoFloat.
