(* ===== verification/MdRaid.v ===== *)
(** * Linux MD arrays: [mdraid.go]

    [parseMDStat] reads the kernel's status text, [readMDArraySysfs] the attributes
    of one array and compares the two, [classifyMDHealth] says what may be reported
    of it, and [collectMDArrayInventory] puts the arrays of both sources together;
    [finishMDArraySnapshot] decides which identifiers may be shown.  Every file is
    read at most once in a run, so a run sees one value of [Sysfs]. *)

From S2P Require Import Prelude Groups GoStrings GoFloat GoPath MountInfo BlockTopology BlockInventory StorageDiscovery TrustedStorage.

Module MdRaid.
Import GoPath MountInfo BlockTopology BlockInventory TrustedStorage.
Import (hints) GoFloat.

Definition maxMDArrayEntries : Z := 16.
Definition maxMDMemberEntries : Z := 32.
Definition maxMDStatLineBytes : Z := 4096.
Definition maxMDArrayDiagnosticBytes : Z := 768.
Definition maxMDArrayDiagnosticCodes : Z := 16.
Inductive arrayInventoryStatus := arrayInventoryAvailable | arrayInventoryPartial | arrayInventoryUnavailable | arrayInventoryUnsupported.
#[export] Instance arrayInventoryStatus_eq_dec : EqDecision arrayInventoryStatus. Proof. solve_decision. Defined.
Inductive arrayHealth := arrayHealthHealthy | arrayHealthDegraded | arrayHealthSyncing | arrayHealthPaused | arrayHealthInactive | arrayHealthUnknown.
#[export] Instance arrayHealth_eq_dec : EqDecision arrayHealth. Proof. solve_decision. Defined.

Record mdMemberObservation := mkMember { mm_Name : string; mm_State : string }.
#[export] Instance mdMemberObservation_eq_dec : EqDecision mdMemberObservation. Proof. solve_decision. Defined.
Record mdArrayObservation := mkArray {
  ma_Name : string; ma_major : Z; ma_minor : Z; ma_arrayUUID : string; ma_uuidStatus : identityStatus; ma_Level : string; ma_State : string;
  ma_Health : arrayHealth; ma_ExpectedDevices : Z; ma_ActiveDevices : Z; ma_DegradedDevices : Z; ma_SyncAction : string;
  ma_SyncProgressPercent : option GoFloat.float64; ma_Members : list mdMemberObservation; ma_diagnosticCodes : list string;
  ma_identityComplete : bool }.
Record mdArraySnapshot := mkArrays {
  ms_SchemaVersion : Z; ms_ObservedAt : Z; ms_Status : arrayInventoryStatus; ms_identityInventoryComplete : bool; ms_ReadOnly : bool;
  ms_BlockDevicesOpened : bool; ms_DiskContentRead : bool; ms_MutationsPerformed : bool; ms_ArrayCount : Z; ms_Arrays : slice mdArrayObservation;
  ms_Limitations : list string; ms_diagnosticCodes : list string; ms_identityCollected : bool }.
Record mdstatRecord := mkRecord {
  mr_name : string; mr_state : string; mr_level : string; mr_expectedDevices : Z; mr_activeDevices : Z; mr_countsKnown : bool;
  mr_members : list mdMemberObservation; mr_syncAction : string; mr_syncProgress : option GoFloat.float64; mr_memberSlots : string }.

(** ** Words *)
Definition one_of (l : list string) (w : string) : bool := w ∈? l.
Definition validMDLevel : string → bool := one_of ["linear"; "multipath"; "faulty"; "container"; "raid0"; "raid1"; "raid4"; "raid5"; "raid6"; "raid10"].
Definition supportsKernelHealthyState : string → bool := one_of ["linear"; "multipath"; "raid0"; "raid1"; "raid4"; "raid5"; "raid6"; "raid10"].
Definition validMDArrayState : string → bool :=
  one_of ["clear"; "inactive"; "suspended"; "readonly"; "read-auto"; "clean"; "active"; "write-pending"; "active-idle"].
Definition validMDSyncAction : string → bool := one_of ["idle"; "resync"; "recover"; "check"; "repair"; "reshape"; "frozen"].
Definition normalizeMDSyncAction (action : string) : string := if action == "recovery" then "recover" else action.
(** the text after a prefix *)
Fixpoint sdrop (n : nat) (s : string) : string :=
  match n, s with S n', String _ s' => sdrop n' s' | _, _ => s end.
Definition validMDName (name : string) : bool :=
  if negb (validBlockName name) then false
  else
    let digits := if has_prefix "md_d" name then Some (sdrop 4 name) else if has_prefix "md" name then Some (sdrop 2 name) else None in
    match digits with
    | None => false
    | Some digits => (digits != "") && forallb is_digit (runes digits)
    end.
Definition canonical_step (i : Z) (st : string * bool) (b : ascii) : res unit (string * bool) :=
  let character := code b in
  if (i =? 8) || (i =? 13) || (i =? 18) || (i =? 23) then
    refuse negb (character =? 45) => tt ;;
    Ok (String.append st.1 (String b EmptyString), st.2)
  else
    let lowered := if (65 <=? character) && (character <=? 70) then character + 32 else character in
    refuse negb (is_lower_hex lowered) => tt ;;
    Ok (String.append st.1 (String (ascii_of_N (Z.to_N lowered)) EmptyString), st.2 || negb (lowered =? 48)).
Definition canonicalMDArrayUUID (value : string) : option string :=
  let value := trim_newline value in
  if negb (slength value =? 36) then None
  else match for_range canonical_step 0 (EmptyString, false) (String.list_ascii_of_string value) with
       | Ok (canonical, true) => Some canonical
       | _ => None
       end.

(** ** Fields of the status text *)
(** the texts before and after the last occurrence of a byte *)
Fixpoint cut_last (c : ascii) (s : string) : option (string * string) :=
  match s with
  | EmptyString => None
  | String b s' => match cut_last c s' with
                   | Some (x, y) => Some (String b x, y)
                   | None => if b == c then Some (EmptyString, s') else None
                   end
  end.
Inductive md_error := ErrMD.
#[export] Instance md_error_eq_dec : EqDecision md_error. Proof. solve_decision. Defined.
Definition parseMDStatMember (field : string) : res md_error (option mdMemberObservation) :=
  match cut_last "[" field with
  | None => Ok None
  | Some (name, rest) =>
    let '(indexText, suffix, closed) := cut "]" rest in
    refuse negb closed => ErrMD ;;
    refuse negb (validBlockName name) => ErrMD ;;
    refuse bool_decide (ParseUint 32 indexText = None) => ErrMD ;;
    if (suffix == "") || (suffix == "(A)") then Ok (Some (mkMember name "active"))
    else if suffix == "(S)" then Ok (Some (mkMember name "spare"))
    else if suffix == "(F)" then Ok (Some (mkMember name "faulty"))
    else Err ErrMD
  end.
(** what is between the brackets of a field of at least [n] bytes *)
Definition bracketed (n : Z) (field : string) : option string :=
  match field with
  | String c rest => if negb (slength field <? n) && (code c =? 91) && ends_with 93 field then Some (stake (slength rest - 1) rest) else None
  | EmptyString => None
  end.
Definition parseMDDeviceCounts (field : string) : res md_error (option (Z * Z)) :=
  match bracketed 5 field with
  | None => Ok None
  | Some inside =>
    match split_on "/" inside with
    | [a; b] =>
      match ParseUint 32 a with
      | None => Err ErrMD
      | Some expected =>
        match ParseUint 32 b with
        | None => Err ErrMD
        | Some active => refuse (expected =? 0) || (maxMDMemberEntries <? expected) => ErrMD ;; Ok (Some (expected, active))
        end
      end
    | _ => Ok None
    end
  end.
Definition parseMDMemberSlots (field : string) : option string :=
  slots ← bracketed 3 field;
  if (slots == "") || negb (forallb (λ slot, (slot =? 85) || (slot =? 95)) (runes slots)) then None else Some slots.

Fixpoint after_first (marker s : string) : option string :=
  if has_prefix marker s then Some (sdrop (String.length marker) s)
  else match s with EmptyString => None | String _ s' => after_first marker s' end.
Definition hundred : GoFloat.float64 := GoFloat.of_Z 100.
Definition bad_progress (f : GoFloat.float64) : bool :=
  GoFloat.IsNaN f || GoFloat.IsInf f || GoFloat.ltb f (GoFloat.of_Z 0) || GoFloat.ltb hundred f.
Fixpoint sync_progress (actions : list string) (line : string) : res md_error (option (string * option GoFloat.float64)) :=
  match actions with
  | [] => Ok None
  | action :: actions' =>
    match after_first (String.append action " =") line with
    | None => sync_progress actions' line
    | Some rest =>
      match Fields rest with
      | [] => Err ErrMD
      | word :: _ =>
        if to_lower word == "delayed" then Ok (Some (action, None))
        else
          let percent := ends_with 37 word in
          let value := if percent then stake (slength word - 1) word else word in
          match GoFloat.ParseFloat value with
          | None => Err ErrMD
          | Some progress => refuse bad_progress progress || negb percent => ErrMD ;; Ok (Some (action, Some progress))
          end
      end
    end
  end.
Definition parseMDSyncProgress : string → res md_error (option (string * option GoFloat.float64)) :=
  sync_progress ["resync"; "recovery"; "reshape"; "check"; "repair"].

(** ** [parseMDStat] *)
Definition member_step (members : list mdMemberObservation) (field : string) : res md_error (list mdMemberObservation) :=
  member ← parseMDStatMember field;
  Ok (match member with Some m => members ++ [m] | None => members end).
Definition header_step (records : list mdstatRecord) (fields : list string) : res md_error (list mdstatRecord) :=
  let name := default "" (fields !! 0%nat) in
  refuse negb (validMDName name) || (len fields <? 3) => ErrMD ;;
  refuse (name ∈? mr_name <$> records) || (maxMDArrayEntries <=? len records) => ErrMD ;;
  let state := default "" (fields !! 2%nat) in
  refuse (state != "active") && (state != "inactive") => ErrMD ;;
  let rest := drop 3 fields in
  let rest := match rest with f :: rest' => if has_prefix "(" f && ends_with 41 f then rest' else rest | [] => [] end in
  let '(level, rest) := match rest with f :: rest' => if validMDLevel f then (f, rest') else ("unknown", rest) | [] => ("unknown", []) end in
  members ← for_range (λ _, member_step) 0 [] rest;
  refuse maxMDMemberEntries <? len members => ErrMD ;;
  Ok (records ++ [mkRecord name state level 0 0 false members "idle" None ""]).
Definition with_counts (r : mdstatRecord) (expected active : Z) : mdstatRecord :=
  mkRecord (mr_name r) (mr_state r) (mr_level r) expected active true (mr_members r) (mr_syncAction r) (mr_syncProgress r) (mr_memberSlots r).
Definition with_slots (r : mdstatRecord) (slots : string) : mdstatRecord :=
  mkRecord (mr_name r) (mr_state r) (mr_level r) (mr_expectedDevices r) (mr_activeDevices r) (mr_countsKnown r) (mr_members r) (mr_syncAction r)
    (mr_syncProgress r) slots.
Definition with_sync (r : mdstatRecord) (action : string) (progress : option GoFloat.float64) : mdstatRecord :=
  mkRecord (mr_name r) (mr_state r) (mr_level r) (mr_expectedDevices r) (mr_activeDevices r) (mr_countsKnown r) (mr_members r) action progress
    (mr_memberSlots r).
Definition detail_step (r : mdstatRecord) (field : string) : res md_error mdstatRecord :=
  counts ← parseMDDeviceCounts field;
  r ← match counts with
      | Some (expected, active) =>
        refuse mr_countsKnown r && (negb (mr_expectedDevices r =? expected) || negb (mr_activeDevices r =? active)) => ErrMD ;;
        Ok (with_counts r expected active)
      | None => Ok r
      end;
  match parseMDMemberSlots field with
  | Some slots => refuse (mr_memberSlots r != "") && (mr_memberSlots r != slots) => ErrMD ;; Ok (with_slots r slots)
  | None => Ok r
  end.
Definition is_header (fields : list string) : bool :=
  (2 <=? len fields) && (default "" (fields !! 1%nat) == ":") && has_prefix "md" (default "" (fields !! 0%nat)).
(** the record that a line belongs to is the last one *)
Definition stat_line (records : list mdstatRecord) (line : string) : res md_error (list mdstatRecord) :=
  refuse maxMDStatLineBytes <? slength line => ErrMD ;;
  let fields := Fields line in
  if is_header fields then header_step records fields
  else match last records with
  | None => Ok records
  | Some record =>
    record ← for_range (λ _, detail_step) 0 record fields;
    progress ← parseMDSyncProgress line;
    Ok (<[(length records - 1)%nat :=
          match progress with Some (action, progress) => with_sync record action progress | None => record end]> records)
  end.
Definition count_byte (c : Z) (s : string) : Z := len (filter (λ b, b = c) (codes s)).
Definition record_ok (r : mdstatRecord) : bool :=
  negb (mr_countsKnown r && (mr_expectedDevices r <? mr_activeDevices r))
  && negb ((mr_memberSlots r != "") && mr_countsKnown r && negb (wrap 32 (slength (mr_memberSlots r)) =? mr_expectedDevices r))
  && negb ((mr_memberSlots r != "") && mr_countsKnown r && negb (wrap 32 (count_byte 85 (mr_memberSlots r)) =? mr_activeDevices r)).
Definition parseMDStat (data : string) : res md_error (list mdstatRecord) :=
  refuse maxProcBytes <? slength data => ErrMD ;;
  records ← for_range (λ _, stat_line) 0 [] (split_on (ascii_of_nat 10) data);
  refuse negb (forallb record_ok records) => ErrMD ;;
  Ok records.

(** ** [readMDArraySysfs] *)
Definition appendMDArrayDiagnostic (destination : list string) (code : string) : list string :=
  if (code == "") || (maxMDArrayDiagnosticCodes <=? len destination) || (code ∈? destination) then destination else destination ++ [code].
Definition appendMDArrayDiagnostics (destination codes : list string) : list string := fold_left appendMDArrayDiagnostic codes destination.
Definition note (condition : bool) (code : string) (codes : list string) : list string :=
  if condition then appendMDArrayDiagnostic codes code else codes.
Definition parseBoundedMDInteger (value : string) (maximum : Z) : option Z :=
  parsed ← ParseUint 32 (TrimSpace value);
  if maximum <? parsed then None else Some parsed.
Definition parseMDSyncCompleted (value : string) : res md_error (option GoFloat.float64) :=
  match Fields value with
  | [w] => if (w == "none") || (w == "delayed") then Ok None else Err ErrMD
  | [a; slash; b] =>
    refuse slash != "/" => ErrMD ;;
    match ParseUint 64 a with
    | None => Err ErrMD
    | Some completed =>
      match ParseUint 64 b with
      | None => Err ErrMD
      | Some total =>
        refuse total <? completed => ErrMD ;;
        if total =? 0 then Ok None
        else
          let progress := GoFloat.div (GoFloat.mul (GoFloat.of_Z completed) hundred) (GoFloat.of_Z total) in
          refuse bad_progress progress => ErrMD ;; Ok (Some progress)
      end
    end
  | _ => Err ErrMD
  end.
Definition sameMDMemberNames (first second : list mdMemberObservation) : bool :=
  (len first =? len second) && (sort_by id (mm_Name <$> first) == sort_by id (mm_Name <$> second)).
Definition classifyMDHealth (state action level : string) (raidDisks degraded : Z) (consistent : bool) : arrayHealth :=
  if negb consistent then arrayHealthUnknown
  else if state == "inactive" then arrayHealthInactive
  else if raidDisks =? 0 then arrayHealthUnknown
  else if (0 <? degraded) || (raidDisks <=? degraded) then arrayHealthDegraded
  else if action == "frozen" then arrayHealthPaused
  else if action != "idle" then arrayHealthSyncing
  else if negb (supportsKernelHealthyState level) then arrayHealthUnknown
  else if (state == "clean") || (state == "active") || (state == "active-idle") || (state == "read-auto") then arrayHealthHealthy
  else arrayHealthUnknown.

(** what the device number and the identifier of an array say: major, minor,
    identifier, status, whether the identity is complete *)
Definition array_identity (sysfs : Sysfs) (name : string) : Z * Z * string * identityStatus * bool :=
  let base := String.append "class/block/" name in
  match readSysfsAttribute sysfs (String.append base "/dev") with
  | Err _ => (0, 0, "", identityUnreadable, false)
  | Ok deviceText =>
    match parseDeviceNumber deviceText with
    | None => (0, 0, "", identityInvalid, false)
    | Some (major, minor) =>
      if (major =? 0) && (minor =? 0) then (0, 0, "", identityInvalid, false)
      else match readSysfsAttribute sysfs (String.append base "/md/uuid") with
      | Err _ => (major, minor, "", identityUnreadable, false)
      | Ok uuidText =>
        match canonicalMDArrayUUID uuidText with
        | None => (major, minor, "", identityInvalid, false)
        | Some uuid => (major, minor, uuid, identityPresent, true)
        end
      end
    end
  end.
(** the attributes of an array that could all be read and have the right form *)
Record attributes := mkAttributes {
  at_level : string; at_state : string; at_degraded : Z; at_raidDisks : Z; at_action : string; at_completed : string; at_slaves : list string }.
Definition failed {E A} (r : res E A) : bool := match r with Ok _ => false | Err _ => true end.
Definition text_of {E} (r : res E string) : string := match r with Ok t => t | Err _ => "" end.
(** the codes of what is missing, or the attributes *)
Definition read_attributes (sysfs : Sysfs) (name : string) : res (list string) attributes :=
  let base := String.append "class/block/" name in
  let attribute file := readSysfsAttribute sysfs (String.append base (String.append "/md/" file)) in
  let level := attribute "level" in
  let state := attribute "array_state" in
  let degradedText := attribute "degraded" in
  let raidDisksText := attribute "raid_disks" in
  let syncAction := attribute "sync_action" in
  let syncCompleted := attribute "sync_completed" in
  let slaves := fs_ReadDir sysfs (String.append base "/slaves") in
  let codes := note (failed level) "md-level-unavailable" [] in
  let codes := note (failed state) "md-array-state-unavailable" codes in
  let codes := note (failed degradedText) "md-degraded-count-unavailable" codes in
  let codes := note (failed raidDisksText) "md-raid-disk-count-unavailable" codes in
  let codes := note (failed syncAction) "md-sync-action-unavailable" codes in
  let codes := note (failed syncCompleted) "md-sync-progress-unavailable" codes in
  let codes := match slaves with
               | None => appendMDArrayDiagnostic codes "md-members-unavailable"
               | Some entries => note (maxMDMemberEntries <? len entries) "md-member-limit-exceeded" codes
               end in
  refuse 0 <? len codes => codes ;;
  let levelValue := TrimSpace (text_of level) in
  let stateValue := TrimSpace (text_of state) in
  let degraded := parseBoundedMDInteger (text_of degradedText) maxMDMemberEntries in
  let raidDisks := parseBoundedMDInteger (text_of raidDisksText) maxMDMemberEntries in
  let actionValue := TrimSpace (text_of syncAction) in
  let codes := note (negb (validMDLevel levelValue)) "md-level-invalid" [] in
  let codes := note (negb (validMDArrayState stateValue)) "md-array-state-invalid" codes in
  let codes := note (bool_decide (degraded = None)) "md-degraded-count-invalid" codes in
  let codes := note (bool_decide (raidDisks = None)) "md-raid-disk-count-invalid" codes in
  let codes := match degraded, raidDisks with
               | Some d, Some r => note (r <? d) "md-degraded-count-exceeds-raid-disks" codes
               | _, _ => codes
               end in
  let codes := note (negb (validMDSyncAction actionValue)) "md-sync-action-invalid" codes in
  refuse 0 <? len codes => codes ;;
  Ok (mkAttributes levelValue stateValue (default 0 degraded) (default 0 raidDisks) actionValue (text_of syncCompleted) (default [] slaves)).

Definition disagreement : string := "mdstat-sysfs-disagreement".
Definition stopped (state : string) : bool := (state == "inactive") || (state == "clear") || (state == "suspended").
(** the comparisons of the status text with the attributes *)
Definition agrees (record : mdstatRecord) (a : attributes) (sysfsMembers : list mdMemberObservation) : bool :=
  negb (negb (len (mr_members record) =? 0) && negb (sameMDMemberNames (mr_members record) sysfsMembers))
  && negb (existsb (λ member, (mm_State member == "faulty") && (at_degraded a =? 0)) (mr_members record))
  && negb (mr_countsKnown record && (negb (mr_expectedDevices record =? at_raidDisks a)
                                     || negb (wrap 32 (mr_expectedDevices record - mr_activeDevices record) =? at_degraded a)))
  && negb ((mr_level record != "unknown") && (mr_level record != at_level a))
  && negb ((mr_syncAction record != "") && (normalizeMDSyncAction (mr_syncAction record) != at_action a))
  && negb (((mr_state record == "inactive") && negb (stopped (at_state a))) || ((mr_state record == "active") && stopped (at_state a))).
(** expected, active and degraded devices of the status text *)
Definition known_counts (record : mdstatRecord) : Z * Z * Z :=
  if mr_countsKnown record
  then (mr_expectedDevices record, mr_activeDevices record,
        if mr_activeDevices record <=? mr_expectedDevices record then mr_expectedDevices record - mr_activeDevices record else 0)
  else (0, 0, 0).
Definition readMDArraySysfs (sysfs : Sysfs) (record : mdstatRecord) (blockNodePresent : bool) : mdArrayObservation * bool :=
  let name := mr_name record in
  let observation '(major, minor, uuid, status, complete) level state health expected active degraded action progress members codes :=
    mkArray name major minor uuid status level state health expected active degraded action progress members codes complete in
  let '(expected, active, degraded) := known_counts record in
  let early identity codes :=
    (observation identity (mr_level record) (mr_state record) arrayHealthUnknown expected active degraded (mr_syncAction record)
       (mr_syncProgress record) (mr_members record) codes, false) in
  if negb blockNodePresent then early (0, 0, "", identityUnavailable, false) (appendMDArrayDiagnostic [] "md-block-node-missing")
  else
    let identity := array_identity sysfs name in
    match read_attributes sysfs name with
    | Err codes => early identity codes
    | Ok a =>
      let observed health progress members codes :=
        observation identity (at_level a) (at_state a) health (at_raidDisks a) (wrap 32 (at_raidDisks a - at_degraded a)) (at_degraded a) (at_action a)
          progress members codes in
      match parseMDSyncCompleted (at_completed a) with
      | Err _ => (observed arrayHealthUnknown (mr_syncProgress record) (mr_members record) (appendMDArrayDiagnostic [] "md-sync-progress-invalid"), false)
      | Ok completed =>
        let progress := match completed with Some p => Some p | None => mr_syncProgress record end in
        if negb (forallb validBlockName (at_slaves a)) then
          (observed arrayHealthUnknown progress (mr_members record) (appendMDArrayDiagnostic [] "md-sysfs-member-name-invalid"), false)
        else
          let sysfsMembers := (λ n, mkMember n "active") <$> sort_by id (at_slaves a) in
          let complete := agrees record a sysfsMembers in
          (observed (classifyMDHealth (at_state a) (at_action a) (at_level a) (at_raidDisks a) (at_degraded a) complete) progress
             (if len (mr_members record) =? 0 then sysfsMembers else mr_members record)
             (note (negb complete) disagreement []), complete)
      end
    end.

(** ** [markDuplicateMDArrayUUIDs] *)
Definition with_uuid (a : mdArrayObservation) (uuid : string) (status : identityStatus) : mdArrayObservation :=
  mkArray (ma_Name a) (ma_major a) (ma_minor a) uuid status (ma_Level a) (ma_State a) (ma_Health a) (ma_ExpectedDevices a) (ma_ActiveDevices a)
    (ma_DegradedDevices a) (ma_SyncAction a) (ma_SyncProgressPercent a) (ma_Members a) (ma_diagnosticCodes a) (ma_identityComplete a).
Definition with_uuidStatus (status : identityStatus) (a : mdArrayObservation) : mdArrayObservation := with_uuid a (ma_arrayUUID a) status.
Definition device_of (a : mdArrayObservation) : Z * Z := (ma_major a, ma_minor a).
Record owners := mkOwners { ow_indices : gmap string (list nat); ow_objects : gmap string (gset (Z * Z)); ow_devices : gmap (Z * Z) string }.
Definition owner_step (i : Z) (st : owners) (a : mdArrayObservation) : res unit owners :=
  if negb (ma_identityComplete a) || (ma_arrayUUID a == "") then Ok st
  else
    refuse match ow_devices st !! device_of a with Some prior => prior != ma_arrayUUID a | None => false end => tt ;;
    Ok (mkOwners (append_to (ow_indices st) (ma_arrayUUID a) (Z.to_nat i))
          (<[ma_arrayUUID a := {[device_of a]} ∪ default ∅ (ow_objects st !! ma_arrayUUID a)]> (ow_objects st))
          (<[device_of a := ma_arrayUUID a]> (ow_devices st))).
Definition group_status (objects : gmap string (gset (Z * Z))) (uuid : string) : identityStatus :=
  if (size (default ∅ (objects !! uuid)) <? 2)%nat then identityPresent else identityAmbiguous.
Definition markDuplicateMDArrayUUIDs (arrays : list mdArrayObservation) : option (list mdArrayObservation) :=
  match for_range owner_step 0 (mkOwners ∅ ∅ ∅) arrays with
  | Err _ => None
  | Ok st => Some (fold_left (λ l g, mark_all (with_uuidStatus (group_status (ow_objects st) g.1)) g.2 l) (map_to_list (ow_indices st)) arrays)
  end.

(** ** [finishMDArraySnapshot] *)
Definition hide (statuses : list identityStatus) (a : mdArrayObservation) : mdArrayObservation :=
  if ma_uuidStatus a ∈? statuses then with_uuid a "" identityUnavailable else a.
Definition finishMDArraySnapshot (s : mdArraySnapshot) : mdArraySnapshot :=
  let arrays := sort_by ma_Name (elems (ms_Arrays s)) in
  let '(arrays, complete, status, codes) :=
    if maxMDArrayEntries <? len arrays
    then (take (Z.to_nat maxMDArrayEntries) arrays, false, arrayInventoryPartial,
          appendMDArrayDiagnostic (ms_diagnosticCodes s) "md-array-observation-limit-exceeded")
    else (arrays, ms_identityInventoryComplete s, ms_Status s, ms_diagnosticCodes s) in
  let complete := complete && forallb ma_identityComplete arrays in
  let '(arrays, complete) :=
    if negb complete then (hide [identityPresent] <$> arrays, false)
    else match markDuplicateMDArrayUUIDs arrays with
         | Some arrays => (arrays, true)
         | None => (hide [identityPresent; identityAmbiguous] <$> arrays, false)
         end in
  mkArrays (ms_SchemaVersion s) (ms_ObservedAt s) status complete (ms_ReadOnly s) (ms_BlockDevicesOpened s) (ms_DiskContentRead s)
    (ms_MutationsPerformed s) (len arrays) (Some arrays) (ms_Limitations s) codes true.

(** ** [collectMDArrayInventory] *)
Definition md_limitations : list string :=
  ["healthy describes only a consistent operational kernel MD state; it does not imply redundancy, filesystem integrity or verified data integrity";
   "member names are transient kernel names; disk serials, bay mapping, SMART and filesystem identity are not inferred";
   "no block device is opened and no array is assembled, stopped, mounted, repaired or modified"].
Definition with_Health (health : arrayHealth) (a : mdArrayObservation) : mdArrayObservation :=
  mkArray (ma_Name a) (ma_major a) (ma_minor a) (ma_arrayUUID a) (ma_uuidStatus a) (ma_Level a) (ma_State a) health (ma_ExpectedDevices a)
    (ma_ActiveDevices a) (ma_DegradedDevices a) (ma_SyncAction a) (ma_SyncProgressPercent a) (ma_Members a) (ma_diagnosticCodes a) (ma_identityComplete a).
Definition only_name (name : string) : mdstatRecord := mkRecord name "" "" 0 0 false [] "" None "".
(** the health of an array that only sysfs shows *)
Definition unconfirmed (a : mdArrayObservation) : mdArrayObservation :=
  with_Health (if ma_State a == "inactive" then arrayHealthInactive else arrayHealthUnknown) a.
(** the part of the snapshot that changes while it is collected *)
Record collecting := mkCollecting { cl_status : arrayInventoryStatus; cl_codes : list string; cl_arrays : list mdArrayObservation }.
Definition sysfs_only_step (sysfs : Sysfs) (st : collecting) (name : string) : collecting :=
  let '(observation, complete) := readMDArraySysfs sysfs (only_name name) true in
  mkCollecting (if complete : bool then cl_status st else arrayInventoryPartial) (cl_codes st) (cl_arrays st ++ [unconfirmed observation]).
Definition appendSysfsOnlyArrays (sysfs : Sysfs) (names : list string) (st : collecting) : collecting := fold_left (sysfs_only_step sysfs) names st.
Definition record_step (sysfs : Sysfs) (blockNames : list string) (st : collecting) (record : mdstatRecord) : collecting :=
  let '(observation, complete) := readMDArraySysfs sysfs record (mr_name record ∈? blockNames) in
  mkCollecting (if complete : bool then cl_status st else arrayInventoryPartial)
    (if complete : bool then cl_codes st else appendMDArrayDiagnostics (cl_codes st) (ma_diagnosticCodes observation))
    (cl_arrays st ++ [observation]).
Definition missing_step (sysfs : Sysfs) (st : collecting) (name : string) : collecting :=
  let '(observation, _) := readMDArraySysfs sysfs (only_name name) true in
  mkCollecting arrayInventoryPartial
    (appendMDArrayDiagnostics (appendMDArrayDiagnostic (cl_codes st) "sysfs-array-missing-from-mdstat") (ma_diagnosticCodes observation))
    (cl_arrays st ++ [unconfirmed observation]).
Definition snapshot_with (now : Z) (complete : bool) (st : collecting) : mdArraySnapshot :=
  mkArrays 1 now (cl_status st) complete true false false false 0 (Some (cl_arrays st)) md_limitations (cl_codes st) false.
(** the arrays, once the block directory was read *)
Definition gather (mdstat : file) (sysfs : Sysfs) (blockEntries sysfsArrays : list string) (status : arrayInventoryStatus) (codes : list string) : collecting :=
  let sysfs_only status code :=
    let codes := appendMDArrayDiagnostic codes code in
    if 0 <? len sysfsArrays then appendSysfsOnlyArrays sysfs sysfsArrays (mkCollecting arrayInventoryPartial codes []) else mkCollecting status codes [] in
  match mdstat with
  | NotExist => sysfs_only arrayInventoryUnsupported "mdstat-unavailable"
  | _ =>
    match readBounded mdstat with
    | None => sysfs_only status "mdstat-unreadable"
    | Some data =>
      match parseMDStat data with
      | Err _ => appendSysfsOnlyArrays sysfs sysfsArrays (mkCollecting arrayInventoryPartial (appendMDArrayDiagnostic codes "mdstat-malformed") [])
      | Ok records =>
        let status := if status == arrayInventoryPartial then arrayInventoryPartial else arrayInventoryAvailable in
        let st := fold_left (record_step sysfs blockEntries) records (mkCollecting status codes []) in
        fold_left (missing_step sysfs) (filter (λ n, n ∉ mr_name <$> records) sysfsArrays) st
      end
    end
  end.
Definition collectMDArrayInventory (mdstat : file) (sysfs : Sysfs) (now : Z) : mdArraySnapshot :=
  let unavailable := snapshot_with now false (mkCollecting arrayInventoryUnavailable (appendMDArrayDiagnostic [] "block-inventory-unavailable") []) in
  match fs_ReadDir sysfs "class/block" with
  | None => unavailable
  | Some blockEntries =>
    if maxBlockEntries <? len blockEntries then unavailable
    else
      let sysfsArrays := sort_by id (remove_dups (filter (λ n, validMDName n = true) blockEntries)) in
      let '(sysfsArrays, complete, status, codes) :=
        if maxMDArrayEntries <? len sysfsArrays
        then (take (Z.to_nat maxMDArrayEntries) sysfsArrays, false, arrayInventoryPartial, appendMDArrayDiagnostic [] "md-array-limit-exceeded")
        else (sysfsArrays, true, arrayInventoryUnavailable, []) in
      finishMDArraySnapshot (snapshot_with now complete (gather mdstat sysfs blockEntries sysfsArrays status codes))
  end.

(** ** [formatMDArrayInventoryDiagnostic] *)
Definition status_text (s : arrayInventoryStatus) : string :=
  match s with
  | arrayInventoryAvailable => "available" | arrayInventoryPartial => "partial" | arrayInventoryUnavailable => "unavailable"
  | arrayInventoryUnsupported => "unsupported"
  end.
Definition health_text (h : arrayHealth) : string :=
  match h with
  | arrayHealthHealthy => "healthy" | arrayHealthDegraded => "degraded" | arrayHealthSyncing => "syncing" | arrayHealthPaused => "paused"
  | arrayHealthInactive => "inactive" | arrayHealthUnknown => "unknown"
  end.
Definition array_text (a : mdArrayObservation) : string :=
  foldr String.append ""
    [ma_Name a; "(level="; ma_Level a; " state="; ma_State a; " health="; health_text (ma_Health a); " expected="; FormatUint (ma_ExpectedDevices a);
     " active="; FormatUint (ma_ActiveDevices a); " degraded="; FormatUint (ma_DegradedDevices a); " sync="; ma_SyncAction a; " members=";
     join_with "," (filter (λ n, validBlockName n = true) (mm_Name <$> ma_Members a)); " reasons="; join_with "," (ma_diagnosticCodes a); ")"].
Definition formatMDArrayInventoryDiagnostic (s : mdArraySnapshot) : string :=
  let parts :=
    [String.append "status=" (status_text (ms_Status s)); String.append "array_count=" (FormatUint (ms_ArrayCount s));
     String.append "observations=" (FormatUint (slen (ms_Arrays s)))]
    ++ (if 0 <? len (ms_diagnosticCodes s) then [String.append "reasons=" (join_with "," (ms_diagnosticCodes s))] else [])
    ++ (array_text <$> elems (ms_Arrays s)) in
  let result := join_with " " parts in
  if maxMDArrayDiagnosticBytes <? slength result then String.append (stake (maxMDArrayDiagnosticBytes - 3) result) "..." else result.
Lemma diagnostic_bounded s : slength (formatMDArrayInventoryDiagnostic s) ≤ maxMDArrayDiagnosticBytes.
Proof.
  unfold formatMDArrayInventoryDiagnostic. set (result := join_with _ _). destruct (Z.ltb_spec maxMDArrayDiagnosticBytes (slength result)); [|done].
  rewrite slength_append, slength_stake by (unfold maxMDArrayDiagnosticBytes; lia). change (slength "...") with 3. unfold maxMDArrayDiagnosticBytes. lia.
Qed.

(** ** The status text *)
Definition percent (p : option GoFloat.float64) : Prop := ∀ f, p = Some f → GoFloat.leb (GoFloat.of_Z 0) f = true ∧ GoFloat.leb f hundred = true.
Definition counted (expected active degraded : Z) : Prop := 0 ≤ active ∧ 0 ≤ degraded ∧ active + degraded = expected ∧ expected ≤ maxMDMemberEntries.
Lemma bad_progress_percent f : bad_progress f = false → percent (Some f).
Proof.
  unfold bad_progress. intros H. apply orb_false_iff in H as [H H4]. apply orb_false_iff in H as [H H3]. apply orb_false_iff in H as [H1 _].
  intros g [= <-]. by apply GoFloat.between.
Qed.
Lemma sync_progress_percent actions line action p : sync_progress actions line = Ok (Some (action, p)) → percent p.
Proof.
  induction actions as [|a actions IH]; cbn [sync_progress]; [done|]. destruct (after_first _ line) as [rest|]; [|done].
  destruct (Fields rest) as [|w ws]; [done|]. case_bool_decide; [by intros [= <- <-] ?|]. destruct (GoFloat.ParseFloat _) as [f|]; [|done].
  intros [Hb [= <- <-]]%refuse_Ok. apply bad_progress_percent. by apply orb_false_iff in Hb as [? _].
Qed.
(** a record while it is read, and a record that was accepted *)
Record record_wf (r : mdstatRecord) : Prop := {
  rw_name : validMDName (mr_name r) = true;
  rw_counts : mr_countsKnown r = true → 0 < mr_expectedDevices r ≤ maxMDMemberEntries ∧ 0 ≤ mr_activeDevices r;
  rw_progress : percent (mr_syncProgress r) }.
Lemma counts_bounds field e a : parseMDDeviceCounts field = Ok (Some (e, a)) → 0 < e ≤ maxMDMemberEntries ∧ 0 ≤ a.
Proof.
  unfold parseMDDeviceCounts. destruct (bracketed 5 field) as [inside|]; [|done]. destruct (split_on "/" inside) as [|x [|y [|]]]; try done.
  destruct (ParseUint 32 x) as [e'|] eqn:He; [|done]. destruct (ParseUint 32 y) as [a'|] eqn:Ha; [|done]. intros [Hg [= <- <-]]%refuse_Ok.
  apply orb_false_iff in Hg as [?%Z.eqb_neq ?%Z.ltb_ge]. apply ParseUint_bounds in He, Ha. lia.
Qed.
Lemma detail_step_wf r field r' : record_wf r → detail_step r field = Ok r' → record_wf r' ∧ mr_name r' = mr_name r.
Proof.
  intros [H1 H2 H3] H. unfold detail_step in H. apply res_bind_Ok in H as (counts & Hc & H). apply res_bind_Ok in H as (r1 & Hr & H).
  assert (Hw : record_wf r1 ∧ mr_name r1 = mr_name r).
  { destruct counts as [[e a]|]; [|by injection Hr as <-]. apply refuse_Ok in Hr as [_ [= <-]]. split; [|done]. split; cbn; [done| |done].
    intros _. by eapply counts_bounds. }
  destruct Hw as [[W1 W2 W3] <-]. destruct (parseMDMemberSlots field); [apply refuse_Ok in H as [_ [= <-]]|injection H as <-]; (split; [by split|done]).
Qed.
Lemma details_wf i r fields r' : record_wf r → for_range (λ _, detail_step) i r fields = Ok r' → record_wf r' ∧ mr_name r' = mr_name r.
Proof.
  revert i r. induction fields as [|f fields IH]; intros i r Hr; cbn [for_range]; [by intros [= <-]|].
  destruct (detail_step r f) as [r1|] eqn:Hs; [|done]. apply detail_step_wf in Hs as [Hw Hn]; [|done]. intros H. apply IH in H as [? E]; [|done]. by rewrite E.
Qed.
(** the records read so far *)
Definition records_wf (records : list mdstatRecord) : Prop :=
  Forall record_wf records ∧ NoDup (mr_name <$> records) ∧ len records ≤ maxMDArrayEntries.
Lemma header_step_wf records fields records' : records_wf records → header_step records fields = Ok records' → records_wf records'.
Proof.
  intros (HF & HN & HL) H. unfold header_step in H. apply refuse_Ok in H as [Hg H]. apply orb_false_iff in Hg as [Hg%negb_false_iff _].
  apply refuse_Ok in H as [Hd H]. apply orb_false_iff in Hd as [Hd%bool_decide_eq_false Hl%Z.leb_gt]. apply refuse_Ok in H as [_ H].
  destruct (match (match drop 3 fields with [] => [] | _ => _ end) with [] => _ | _ => _ end) as [level rest].
  apply res_bind_Ok in H as (members & _ & H). apply refuse_Ok in H as [_ [= <-]]. split_and!.
  - apply Forall_app. split; [done|]. apply Forall_singleton. split; cbn; [done|done|by intros ? ?].
  - rewrite fmap_app. apply NoDup_app. split_and!; [done| |apply NoDup_singleton]. cbn. intros n Hn ->%list_elem_of_singleton. done.
  - unfold len in *. rewrite length_app. simpl. lia.
Qed.
Lemma stat_line_wf records line records' : records_wf records → stat_line records line = Ok records' → records_wf records'.
Proof.
  intros Hw H. unfold stat_line in H. apply refuse_Ok in H as [_ H]. destruct (is_header _); [by eapply header_step_wf|].
  destruct (last records) as [r|] eqn:Hl; [|by injection H as <-]. apply res_bind_Ok in H as (r1 & Hr & H). apply res_bind_Ok in H as (p & Hp & [= <-]).
  destruct Hw as (HF & HN & HL). rewrite last_lookup in Hl. replace (pred (length records)) with (length records - 1)%nat in Hl by lia.
  apply details_wf in Hr as [[W1 W2 W3] Hn]; [|by eapply Forall_lookup_1].
  assert (Hw : record_wf (match p with Some (action, progress) => with_sync r1 action progress | None => r1 end)
               ∧ mr_name (match p with Some (action, progress) => with_sync r1 action progress | None => r1 end) = mr_name r).
  { destruct p as [[action progress]|]; [|done]. split; [|done]. split; cbn; [done|done|]. by eapply sync_progress_percent. }
  destruct Hw as [Hw Hwn]. split_and!.
  - by apply Forall_insert.
  - rewrite list_fmap_insert, Hwn. by rewrite list_insert_id by (by rewrite list_lookup_fmap, Hl).
  - unfold len in *. by rewrite length_insert.
Qed.
(** An accepted text: at most sixteen arrays with distinct names, counts that add
    up and progress between zero and a hundred. *)
Lemma parseMDStat_wf data records : parseMDStat data = Ok records →
  records_wf records ∧ Forall (λ r, mr_countsKnown r = true → mr_activeDevices r ≤ mr_expectedDevices r) records.
Proof.
  unfold parseMDStat. intros [_ H]%refuse_Ok. apply res_bind_Ok in H as (rs & Hrs & H). apply refuse_Ok in H as [Hf%negb_false_iff [= <-]]. split.
  - refine (for_range_inv _ records_wf _ _ _ _ _ _ Hrs); [|split_and!; [constructor|constructor|done]]. intros i s x s' _ Hs. by apply stat_line_wf.
  - apply Forall_forall. intros r Hr Hk. rewrite forallb_forall in Hf. apply list_elem_of_In in Hr. specialize (Hf r Hr). unfold record_ok in Hf.
    apply andb_true_iff in Hf as [Hf _]. apply andb_true_iff in Hf as [Hf _]. rewrite Hk in Hf. cbn in Hf. apply negb_true_iff, Z.ltb_ge in Hf. done.
Qed.

(** ** One array *)
Lemma canonical_loop i st l st' : for_range canonical_step i st l = Ok st' → slength st'.1 = slength st.1 + len l.
Proof.
  revert i st. induction l as [|b l IH]; intros i st; cbn [for_range]; [intros [= <-]; unfold len; simpl; lia|].
  destruct (canonical_step i st b) as [s1|] eqn:Hs; [|done]. intros H. apply IH in H. rewrite H. unfold canonical_step in Hs.
  assert (E : slength s1.1 = slength st.1 + 1).
  { destruct (_ || _); apply refuse_Ok in Hs as [_ [= <-]]; cbn; by rewrite slength_append. }
  rewrite E. unfold len. cbn [length]. lia.
Qed.
Lemma canonical_nonempty text uuid : canonicalMDArrayUUID text = Some uuid → uuid ≠ "".
Proof.
  unfold canonicalMDArrayUUID. case_match eqn:Hl; [done|]. apply negb_false_iff, Z.eqb_eq in Hl.
  destruct (for_range _ _ _ _) as [[c []]|] eqn:Hf; try done. intros [= <-] ->. apply canonical_loop in Hf. cbn in Hf. unfold len in Hf.
  change (slength "") with 0 in Hf. unfold slength in Hl. pose proof (length_codes (trim_newline text)) as Hc. unfold codes in Hc. rewrite length_fmap in Hc. lia.
Qed.

(** The identity of an observation as sysfs gave it. *)
Inductive identity_seen (a : mdArrayObservation) : Prop :=
  | seen_known text : canonicalMDArrayUUID text = Some (ma_arrayUUID a) → ma_identityComplete a = true → ma_uuidStatus a = identityPresent →
      (ma_major a, ma_minor a) ≠ (0, 0) → identity_seen a
  | seen_unknown : ma_identityComplete a = false → ma_arrayUUID a = "" → ma_uuidStatus a ∈ [identityUnavailable; identityUnreadable; identityInvalid] →
      identity_seen a.
Record array_ok (a : mdArrayObservation) : Prop := {
  ao_counts : counted (ma_ExpectedDevices a) (ma_ActiveDevices a) (ma_DegradedDevices a);
  ao_progress : percent (ma_SyncProgressPercent a);
  ao_identity : identity_seen a }.
(** a record whose counts add up *)
Definition record_counts (r : mdstatRecord) : Prop :=
  mr_countsKnown r = true → 0 ≤ mr_activeDevices r ≤ mr_expectedDevices r ∧ mr_expectedDevices r ≤ maxMDMemberEntries.

Lemma array_identity_seen sysfs name major minor uuid status complete : array_identity sysfs name = (major, minor, uuid, status, complete) →
  (∃ text, canonicalMDArrayUUID text = Some uuid ∧ complete = true ∧ status = identityPresent ∧ (major, minor) ≠ (0, 0))
  ∨ (complete = false ∧ uuid = "" ∧ status ∈ [identityUnavailable; identityUnreadable; identityInvalid]).
Proof.
  unfold array_identity. destruct (readSysfsAttribute _ _) as [dev|]; [|intros [= <- <- <- <- <-]; right; set_solver].
  destruct (parseDeviceNumber dev) as [[ma mi]|]; [|intros [= <- <- <- <- <-]; right; set_solver].
  destruct ((ma =? 0) && (mi =? 0)) eqn:Hz; [intros [= <- <- <- <- <-]; right; set_solver|].
  destruct (readSysfsAttribute _ _) as [text|]; [|intros [= <- <- <- <- <-]; right; set_solver].
  destruct (canonicalMDArrayUUID text) as [u|] eqn:Hu; [|intros [= <- <- <- <- <-]; right; set_solver].
  intros [= <- <- <- <- <-]. left. exists text. split_and!; try done. intros [= -> ->]. done.
Qed.
Lemma bounded_integer value n : parseBoundedMDInteger value maxMDMemberEntries = Some n → 0 ≤ n ≤ maxMDMemberEntries.
Proof.
  unfold parseBoundedMDInteger. intros (p & Hp & H)%bind_Some. case_match eqn:Hl; [done|]. injection H as <-. apply ParseUint_bounds in Hp. apply Z.ltb_ge in Hl. lia.
Qed.
Lemma note_nil c code codes : len (note c code codes) = 0 → code ≠ "" → c = false ∧ codes = [].
Proof.
  unfold note, appendMDArrayDiagnostic, len. intros H Hc. destruct c; [|split; [done|]; destruct codes; [done|simpl in H; lia]].
  destruct codes as [|x codes]; [rewrite (bool_decide_eq_false_2 (code = "")), (bool_decide_eq_false_2 (code ∈ [])) in H by (done || set_solver); vm_compute in H; done|].
  case_match; [|rewrite length_app in H]; simpl in H; lia.
Qed.
Lemma read_attributes_Ok sysfs name a : read_attributes sysfs name = Ok a →
  0 ≤ at_degraded a ≤ at_raidDisks a ∧ at_raidDisks a ≤ maxMDMemberEntries.
Proof.
  unfold read_attributes. cbv zeta. intros [_ H]%refuse_Ok. apply refuse_Ok in H as [Hc [= <-]]. cbn [at_degraded at_raidDisks].
  match type of Hc with (0 <? len (note ?c ?code ?codes)) = false =>
    assert (Hz : len (note c code codes) = 0) by (apply Z.ltb_ge in Hc; unfold len in *; lia) end.
  apply note_nil in Hz as [_ Hz]; [|done]. destruct (parseBoundedMDInteger _ _) as [d|] eqn:Hd.
  2:{ exfalso. repeat (apply (f_equal len) in Hz; change (len []) with 0 in Hz; apply note_nil in Hz as [? Hz]; [|done]). done. }
  destruct (parseBoundedMDInteger (text_of (readSysfsAttribute sysfs (String.append (String.append "class/block/" name) (String.append "/md/" "raid_disks")))) _) as [r|] eqn:Hr.
  2:{ exfalso. apply (f_equal len) in Hz. change (len []) with 0 in Hz. by apply note_nil in Hz as [? Hz]. }
  apply (f_equal len) in Hz. change (len []) with 0 in Hz. apply note_nil in Hz as [Hz%Z.ltb_ge _]; [|done]. cbn.
  apply bounded_integer in Hd, Hr. lia.
Qed.

Lemma sync_completed_percent value p : parseMDSyncCompleted value = Ok p → percent p.
Proof.
  unfold parseMDSyncCompleted. destruct (Fields value) as [|a [|sl [|b [|]]]]; try done; [case_match; [by intros [= <-] ?|done]|].
  intros [_ H]%refuse_Ok. destruct (ParseUint 64 a); [|done]. destruct (ParseUint 64 b); [|done]. apply refuse_Ok in H as [_ H].
  case_match; [by injection H as <-|]. apply refuse_Ok in H as [Hb [= <-]]. by apply bad_progress_percent.
Qed.
(** What [readMDArraySysfs] returns, for a record of an accepted text or for a name alone. *)
Lemma readMDArraySysfs_ok sysfs record present a complete : record_counts record → percent (mr_syncProgress record) →
  readMDArraySysfs sysfs record present = (a, complete) → array_ok a ∧ ma_Name a = mr_name record.
Proof.
  intros Hc Hp. unfold readMDArraySysfs.
  assert (Hcounts : ∀ e ac d, known_counts record = (e, ac, d) → counted e ac d).
  { intros e ac d. unfold known_counts, counted, maxMDMemberEntries. destruct (mr_countsKnown record) eqn:Hk; [|intros [= <- <- <-]; lia].
    destruct (Hc Hk) as [H1 H2]. unfold maxMDMemberEntries in H2. rewrite (proj2 (Z.leb_le _ _)) by lia. intros [= <- <- <-]. lia. }
  destruct (known_counts record) as [[e ac] d]. specialize (Hcounts _ _ _ eq_refl).
  destruct present; cbn [negb]; [|intros [= <- <-]; split; [|done]; split; cbn; [done|done|apply seen_unknown; cbn; set_solver]].
  destruct (array_identity sysfs (mr_name record)) as [[[[major minor] uuid] status] known] eqn:Hid.
  assert (Hseen : ∀ a, ma_major a = major → ma_minor a = minor → ma_arrayUUID a = uuid → ma_uuidStatus a = status → ma_identityComplete a = known → identity_seen a).
  { intros x <- <- <- <- <-. apply array_identity_seen in Hid as [(text & ? & ? & ? & ?)|(? & ? & ?)]; [by eapply seen_known|by apply seen_unknown]. }
  destruct (read_attributes sysfs (mr_name record)) as [at_|codes] eqn:Ha; [|intros [= <- <-]; split; [|done]; split; cbn; [done|done|by apply Hseen]].
  apply read_attributes_Ok in Ha as [H1 H2].
  assert (Hca : counted (at_raidDisks at_) (wrap 32 (at_raidDisks at_ - at_degraded at_)) (at_degraded at_)).
  { unfold counted, wrap, maxMDMemberEntries in *. rewrite Z.mod_small by lia. lia. }
  destruct (parseMDSyncCompleted (at_completed at_)) as [p|] eqn:Hsp; [|intros [= <- <-]; split; [|done]; split; cbn; [done|done|by apply Hseen]].
  assert (Hpp : percent (match p with Some p => Some p | None => mr_syncProgress record end)) by (destruct p; [by eapply sync_completed_percent|done]).
  destruct (negb (forallb _ _)); intros [= <- <-]; (split; [|done]; split; cbn; [done|done|by apply Hseen]).
Qed.
(** Healthy is said only of what both sources agree on. *)
Record healthy_seen (sysfs : Sysfs) (record : mdstatRecord) : Prop := {
  hs_attributes : ∃ a, read_attributes sysfs (mr_name record) = Ok a ∧ at_degraded a = 0 ∧ 0 < at_raidDisks a ∧ at_action a = "idle"
    ∧ supportsKernelHealthyState (at_level a) = true ∧ at_state a ∈ ["clean"; "active"; "active-idle"; "read-auto"]
    ∧ agrees record a ((λ n, mkMember n "active") <$> sort_by id (at_slaves a)) = true }.
Lemma classify_healthy state action level r d c : classifyMDHealth state action level r d c = arrayHealthHealthy → 0 ≤ d → 0 ≤ r →
  c = true ∧ d = 0 ∧ 0 < r ∧ action = "idle" ∧ supportsKernelHealthyState level = true ∧ state ∈ ["clean"; "active"; "active-idle"; "read-auto"].
Proof.
  unfold classifyMDHealth. intros H H0 H1. destruct c; cbn [negb] in H; [|done]. destruct (state == "inactive"); [done|].
  destruct (Z.eqb_spec r 0); [done|]. destruct (Z.ltb_spec 0 d); [done|]. destruct (Z.leb_spec r d); [done|]. cbn [orb] in H.
  destruct (action == "frozen"); [done|]. destruct (action == "idle") eqn:Ha; cbn [negb] in H; [|done]. apply bool_decide_eq_true in Ha.
  destruct (supportsKernelHealthyState level); cbn [negb] in H; [|done]. destruct (_ || (state == "read-auto")) eqn:Hs; [|done].
  split_and!; try done; [lia|lia|]. rewrite !orb_true_iff, !bool_decide_eq_true in Hs. set_solver.
Qed.
Lemma readMDArraySysfs_healthy sysfs record present a complete : readMDArraySysfs sysfs record present = (a, complete) → ma_Health a = arrayHealthHealthy →
  present = true ∧ complete = true ∧ healthy_seen sysfs record.
Proof.
  unfold readMDArraySysfs. destruct (known_counts record) as [[e ac] d].
  destruct present; cbn [negb]; [|by intros [= <- <-]]. destruct (array_identity sysfs (mr_name record)) as [[[[major minor] uuid] status] known].
  destruct (read_attributes sysfs (mr_name record)) as [at_|codes] eqn:Ha; [|by intros [= <- <-]].
  destruct (parseMDSyncCompleted _) as [p|]; [|by intros [= <- <-]]. destruct (negb (forallb _ _)); [by intros [= <- <-]|]. intros [= <- <-]. cbn. intros Hh.
  pose proof (read_attributes_Ok _ _ _ Ha) as Hb. apply classify_healthy in Hh; [|lia..]. destruct Hh as (Hag & ? & ? & ? & ? & ?).
  split_and!; [done|done|]. split. exists at_. by split_and!.
Qed.

(** ** Repeated identifiers *)
Definition uuid_key (a : mdArrayObservation) : option string := if negb (ma_identityComplete a) || (ma_arrayUUID a == "") then None else Some (ma_arrayUUID a).
(** another device shows the same identifier *)
Definition conflicting (arrays : list mdArrayObservation) (a : mdArrayObservation) : Prop :=
  ∃ b, b ∈ arrays ∧ ma_arrayUUID b = ma_arrayUUID a ∧ device_of b ≠ device_of a.
Record owned (arrays : list mdArrayObservation) (st : owners) : Prop := {
  ow_grouped : grouped uuid_key arrays (ow_indices st);
  ow_devs : ∀ u d, d ∈ default ∅ (ow_objects st !! u) ↔ ∃ a, a ∈ arrays ∧ uuid_key a = Some u ∧ device_of a = d;
  ow_one : ∀ d u, ow_devices st !! d = Some u ↔ ∃ a, a ∈ arrays ∧ uuid_key a = Some u ∧ device_of a = d }.
Lemma owner_step_Ok arrays st a st' : owned arrays st → owner_step (len arrays) st a = Ok st' → owned (arrays ++ [a]) st'.
Proof.
  intros [Hg Hd Ho] H. pose proof (grouped_snoc uuid_key _ _ a Hg) as Hg'. unfold owner_step in H. unfold uuid_key in Hg' at 2.
  assert (Hk : uuid_key a = if negb (ma_identityComplete a) || (ma_arrayUUID a == "") then None else Some (ma_arrayUUID a)) by done.
  destruct (negb (ma_identityComplete a) || (ma_arrayUUID a == "")).
  - injection H as <-. split; [done| |]; intros; [rewrite Hd|rewrite Ho]; setoid_rewrite elem_of_app; setoid_rewrite list_elem_of_singleton; naive_solver.
  - apply refuse_Ok in H as [Hp [= <-]]. replace (Z.to_nat (len arrays)) with (length arrays) by (unfold len; lia). split; cbn [ow_indices ow_objects ow_devices]; [done| |].
    + intros u d. setoid_rewrite elem_of_app. setoid_rewrite list_elem_of_singleton. destruct (decide (ma_arrayUUID a = u)) as [<-|Hne].
      * rewrite lookup_insert_eq. cbn. rewrite elem_of_union, elem_of_singleton, Hd. naive_solver.
      * rewrite lookup_insert_ne by done. rewrite Hd. naive_solver.
    + intros d u. setoid_rewrite elem_of_app. setoid_rewrite list_elem_of_singleton. destruct (decide (device_of a = d)) as [<-|Hne].
      * rewrite lookup_insert_eq. split; [intros [= <-]; eauto|]. intros (b & [Hb| ->] & Hu & Hdb); [|congruence].
        assert (Hl : ow_devices st !! device_of a = Some u) by (apply Ho; eauto). rewrite Hl in Hp. apply negb_false_iff, bool_decide_eq_true in Hp. congruence.
      * rewrite lookup_insert_ne by done. rewrite Ho. naive_solver.
Qed.
Lemma owner_loop arrays st todo st' : owned arrays st → for_range owner_step (len arrays) st todo = Ok st' → owned (arrays ++ todo) st'.
Proof.
  revert arrays st. induction todo as [|a todo IH]; intros arrays st Hw; cbn [for_range]; [intros [= <-]; by rewrite app_nil_r|].
  destruct (owner_step _ st a) as [s1|] eqn:Hs; [|done]. intros H. replace (arrays ++ a :: todo) with ((arrays ++ [a]) ++ todo) by (by rewrite <- app_assoc).
  apply (IH _ s1); [by eapply owner_step_Ok|]. replace (len (arrays ++ [a])) with (len arrays + 1); [done|]. unfold len. rewrite length_app. simpl. lia.
Qed.
Lemma small_set (X : gset (Z * Z)) d : d ∈ X → (size X < 2)%nat ↔ ∀ d', d' ∈ X → d' = d.
Proof.
  intros Hd. split.
  - intros Hs d' Hd'. assert (H1 : size X = 1%nat). { assert (size X ≠ 0%nat) by (apply size_non_empty_iff; set_solver). lia. }
    apply size_1_elem_of in H1 as [x Hx]. set_solver.
  - intros Hall. assert (E : X = {[d]}) by set_solver. rewrite E, size_singleton. lia.
Qed.
(** The groups of positions are disjoint: a position has one key. *)
Lemma markDuplicate_exact arrays out : Forall (λ a, ma_identityComplete a = true ∧ ma_arrayUUID a ≠ "") arrays →
  markDuplicateMDArrayUUIDs arrays = Some out →
  Forall2 (λ a a', a' = with_uuidStatus (ma_uuidStatus a') a ∧ (ma_uuidStatus a' = identityPresent ∧ ¬ conflicting arrays a
                                                               ∨ ma_uuidStatus a' = identityAmbiguous ∧ conflicting arrays a)) arrays out
  ∧ ∀ a b, a ∈ arrays → b ∈ arrays → device_of a = device_of b → ma_arrayUUID a = ma_arrayUUID b.
Proof.
  intros HF. unfold markDuplicateMDArrayUUIDs. destruct (for_range _ _ _ _) as [st|] eqn:Hst; [|done]. intros [= <-].
  apply (owner_loop []) in Hst; [|split; cbn [ow_indices ow_objects ow_devices]; [by apply grouped_nil|intros; rewrite lookup_empty; set_solver|intros; rewrite lookup_empty; set_solver]].
  cbn [app] in Hst. destruct Hst as [Hg Hd Ho]. rewrite Forall_forall in HF.
  assert (Hkey : ∀ a, a ∈ arrays → uuid_key a = Some (ma_arrayUUID a)).
  { intros a Ha. destruct (HF a Ha) as [H1 H2]. unfold uuid_key. rewrite H1, bool_decide_eq_false_2 by done. done. }
  split.
  2:{ intros a b Ha Hb E. assert (H1 : ow_devices st !! device_of a = Some (ma_arrayUUID a)) by (apply Ho; eauto).
      assert (H2 : ow_devices st !! device_of a = Some (ma_arrayUUID b)) by (apply Ho; eauto). congruence. }
  set (gs := map_to_list (ow_indices st)). set (f := λ u, with_uuidStatus (group_status (ow_objects st) u)).
  assert (Hlook : ∀ i a, arrays !! i = Some a → (fold_left (λ l g, mark_all (f g.1) g.2 l) gs arrays) !! i = Some (f (ma_arrayUUID a) a)).
  { intros i a Hi. pose proof (list_elem_of_lookup_2 _ _ _ Hi) as Ha.
    pose proof (mark_each_lookup f (λ k a, eq_refl) gs arrays i (ma_arrayUUID a)) as Hm. cbn in Hm. rewrite Hm, decide_True, Hi; [done| |].
    - apply Exists_exists. destruct (Hg (ma_arrayUUID a)) as [_ He]. specialize (He i). destruct (ow_indices st !! ma_arrayUUID a) as [l|] eqn:Hl.
      + exists (ma_arrayUUID a, l). split; [by apply elem_of_map_to_list|]. cbn in He |- *. apply He. eauto.
      + exfalso. cbn in He. apply (not_elem_of_nil i), He. eauto.
    - intros [u l] Hgs Hin. apply elem_of_map_to_list in Hgs. cbn in *. destruct (Hg u) as [_ He]. rewrite Hgs in He. cbn in He.
      apply He in Hin as (x & Hx & Hux). rewrite Hi in Hx. injection Hx as <-. rewrite (Hkey a Ha) in Hux. congruence. }
  apply Forall2_same_length_lookup. split.
  - symmetry. apply (length_mark_each f).
  - intros i a a' Hi Hi'. pose proof (Hlook i a Hi) as Hla. assert (f (ma_arrayUUID a) a = a') as <- by (apply (inj Some); rewrite <- Hla; exact Hi'). pose proof (list_elem_of_lookup_2 _ _ _ Hi) as Ha. split; [done|].
    cbn. unfold group_status.
    assert (Hin : device_of a ∈ default ∅ (ow_objects st !! ma_arrayUUID a)) by (apply Hd; eauto). pose proof (small_set _ _ Hin) as Hs.
    assert (Hconf : conflicting arrays a ↔ ¬ ∀ d', d' ∈ default ∅ (ow_objects st !! ma_arrayUUID a) → d' = device_of a).
    { split; [intros (b & Hb & Hu & Hdb) Hall; apply Hdb, Hall, Hd; exists b; by rewrite (Hkey b Hb), Hu|].
      intros Hn. rewrite <- Hs in Hn. destruct (set_choose_or_empty (default ∅ (ow_objects st !! ma_arrayUUID a) ∖ {[device_of a]})) as [[d Hdd]|He].
      - apply elem_of_difference in Hdd as [Hd1 Hd2]. apply Hd in Hd1 as (b & Hb & Hu & <-). rewrite (Hkey b Hb) in Hu. exists b. set_solver.
      - exfalso. apply Hn. apply Hs. intros d' Hd'. destruct (decide (d' = device_of a)); [done|]. exfalso. set_solver. }
    destruct (Nat.ltb_spec (size (default ∅ (ow_objects st !! ma_arrayUUID a))) 2) as [Hl|Hl]; [left|right]; (split; [done|]); rewrite Hconf; [tauto|].
    rewrite <- Hs. lia.
Qed.

(** ** The end of the collection *)
(** which identifiers a snapshot shows *)
Record identities_shown (complete : bool) (arrays : list mdArrayObservation) : Prop := {
  is_hidden : complete = false → Forall (λ a, ma_arrayUUID a = "" ∧ ma_uuidStatus a ∉ [identityPresent; identityAmbiguous]) arrays;
  is_shown : complete = true → Forall (λ a, ma_identityComplete a = true ∧ ma_arrayUUID a ≠ ""
    ∧ (ma_uuidStatus a = identityPresent ∧ ¬ conflicting arrays a ∨ ma_uuidStatus a = identityAmbiguous ∧ conflicting arrays a)) arrays;
  is_function : complete = true → ∀ a b, a ∈ arrays → b ∈ arrays → device_of a = device_of b → ma_arrayUUID a = ma_arrayUUID b }.
Definition relabelled (a a' : mdArrayObservation) : Prop := a' = with_uuid a (ma_arrayUUID a') (ma_uuidStatus a').
Lemma hide_relabelled l arrays : Forall2 relabelled arrays (hide l <$> arrays).
Proof. apply Forall2_fmap_r, Forall_Forall2_diag, Forall_forall. intros a _. cbn. unfold relabelled, hide. case_bool_decide; [done|by destruct a]. Qed.
Lemma hidden arrays l : Forall array_ok arrays → identityPresent ∈ l → identityUnavailable ∉ l → identities_shown false (hide l <$> arrays).
Proof.
  intros HF Hl Hu. split; [|done|done]. intros _. apply Forall_fmap. eapply Forall_impl; [exact HF|]. intros a [_ _ Hi]. cbn. unfold hide.
  destruct (decide (ma_uuidStatus a ∈ l)) as [Hin|Hin]; [rewrite bool_decide_eq_true_2 by done; cbn; set_solver|]. rewrite bool_decide_eq_false_2 by done.
  destruct Hi as [text Ht Hc Hs _|Hc Hn Hs]; [congruence|]. split; [done|].
  set_unfold. intuition congruence.
Qed.
Lemma conflicting_relabelled arrays out a a' : Forall2 relabelled arrays out → Forall2 (λ a a', ma_arrayUUID a' = ma_arrayUUID a) arrays out →
  ma_arrayUUID a' = ma_arrayUUID a → device_of a' = device_of a → conflicting out a' ↔ conflicting arrays a.
Proof.
  intros HR HU Ea Ed. unfold conflicting. rewrite Ea, Ed. split.
  - intros (b' & (i & Hi)%list_elem_of_lookup & Hu & Hd). destruct (Forall2_lookup_r _ _ _ _ _ HR Hi) as (b & Hb & Hrel).
    pose proof (Forall2_lookup_lr _ _ _ _ _ _ HU Hb Hi) as E. exists b. split; [by eapply list_elem_of_lookup_2|]. rewrite Hrel in Hd. cbn in Hd. split; [congruence|done].
  - intros (b & (i & Hi)%list_elem_of_lookup & Hu & Hd). destruct (Forall2_lookup_l _ _ _ _ _ HR Hi) as (b' & Hb & Hrel).
    pose proof (Forall2_lookup_lr _ _ _ _ _ _ HU Hi Hb) as E. exists b'. split; [by eapply list_elem_of_lookup_2|]. rewrite Hrel. cbn. rewrite Hrel in E. cbn in E. split; [congruence|done].
Qed.
Lemma marked_shown arrays out : Forall array_ok arrays → Forall (λ a, ma_identityComplete a = true) arrays → markDuplicateMDArrayUUIDs arrays = Some out →
  Forall2 relabelled arrays out ∧ identities_shown true out.
Proof.
  intros HF HC H. apply markDuplicate_exact in H as [HR Hone].
  2:{ apply Forall_forall. intros a Ha. rewrite Forall_forall in HF, HC. split; [by apply HC|]. destruct (ao_identity _ (HF a Ha)) as [text Ht _ _ _|Hc]; [by eapply canonical_nonempty|].
      rewrite (HC a Ha) in Hc. done. }
  assert (HR1 : Forall2 relabelled arrays out) by (eapply Forall2_impl; [exact HR|]; intros a a' [E _]; unfold relabelled;
    (assert (ma_arrayUUID a' = ma_arrayUUID a) as -> by (by rewrite E)); exact E).
  assert (HR2 : Forall2 (λ a a', ma_arrayUUID a' = ma_arrayUUID a) arrays out) by (eapply Forall2_impl; [exact HR|]; intros a a' [E _]; by rewrite E).
  split; [done|]. split; [done| |].
  - intros _. apply Forall_forall. intros a' (i & Hi)%list_elem_of_lookup. destruct (Forall2_lookup_r _ _ _ _ _ HR Hi) as (a & Ha & E & Hs).
    pose proof (list_elem_of_lookup_2 _ _ _ Ha) as Hin. rewrite Forall_forall in HF, HC.
    assert (Hu : ma_arrayUUID a' = ma_arrayUUID a) by (by rewrite E). assert (Hd : device_of a' = device_of a) by (by rewrite E).
    rewrite (conflicting_relabelled arrays out a a' HR1 HR2 Hu Hd). split_and!; [rewrite E; exact (HC a Hin)| |done]. rewrite Hu.
    destruct (ao_identity _ (HF a Hin)) as [text Ht _ _ _|Hc]; [by eapply canonical_nonempty|]. by rewrite (HC a Hin) in Hc.
  - intros _ a' b' (i & Hi)%list_elem_of_lookup (j & Hj)%list_elem_of_lookup Hd.
    destruct (Forall2_lookup_r _ _ _ _ _ HR Hi) as (a & Ha & Ea & _). destruct (Forall2_lookup_r _ _ _ _ _ HR Hj) as (b & Hb & Eb & _).
    rewrite Ea, Eb in Hd |- *. cbn in *. apply Hone; [by eapply list_elem_of_lookup_2|by eapply list_elem_of_lookup_2|done].
Qed.
Lemma finish_Ok s l : ms_Arrays s = Some l → Forall array_ok l → 
  ∃ kept out, ms_Arrays (finishMDArraySnapshot s) = Some out ∧ ms_ArrayCount (finishMDArraySnapshot s) = len out
  ∧ kept `prefix_of` sort_by ma_Name l ∧ len kept ≤ maxMDArrayEntries ∧ (len l ≤ maxMDArrayEntries → kept = sort_by ma_Name l)
  ∧ Forall2 relabelled kept out ∧ identities_shown (ms_identityInventoryComplete (finishMDArraySnapshot s)) out
  ∧ ms_identityCollected (finishMDArraySnapshot s) = true.
Proof.
  intros Hs HF. unfold finishMDArraySnapshot. rewrite Hs. cbn [elems default from_option id]. set (l0 := sort_by ma_Name l).
  assert (Hl0 : len l0 = len l) by (unfold len, l0; by rewrite sort_by_perm).
  assert (HF0 : Forall array_ok l0) by (unfold l0; by rewrite sort_by_perm).
  assert (Hcut : ∃ kept c st co, (if maxMDArrayEntries <? len l0
      then (take (Z.to_nat maxMDArrayEntries) l0, false, arrayInventoryPartial, appendMDArrayDiagnostic (ms_diagnosticCodes s) "md-array-observation-limit-exceeded")
      else (l0, ms_identityInventoryComplete s, ms_Status s, ms_diagnosticCodes s)) = (kept, c, st, co)
      ∧ kept `prefix_of` l0 ∧ len kept ≤ maxMDArrayEntries ∧ (len l ≤ maxMDArrayEntries → kept = l0) ∧ Forall array_ok kept).
  { destruct (Z.ltb_spec maxMDArrayEntries (len l0)) as [Hlt|Hge]; eexists _, _, _, _; (split; [reflexivity|]).
    - split_and!; [eexists; symmetry; apply take_drop| |intros; lia|by apply Forall_take]. unfold len. rewrite length_take. change (Z.to_nat maxMDArrayEntries) with 16%nat. unfold maxMDArrayEntries. lia.
    - split_and!; [done|lia|done|done]. }
  destruct Hcut as (kept & c & st & co & -> & Hpre & Hlen & Hall & HFk). exists kept.
  destruct (c && forallb ma_identityComplete kept) eqn:Hc; cbn [negb].
  - apply andb_true_iff in Hc as [_ Hc]. assert (HC : Forall (λ a, ma_identityComplete a = true) kept).
    { apply Forall_forall. intros a Ha%list_elem_of_In. rewrite forallb_forall in Hc. auto. }
    destruct (markDuplicateMDArrayUUIDs kept) as [out|] eqn:Hm.
    + apply marked_shown in Hm as [HR HI]; [|done|done]. exists out. by split_and!.
    + eexists. split_and!; try done; [apply hide_relabelled|apply hidden; [done|set_solver|set_solver]].
  - eexists. split_and!; try done; [apply hide_relabelled|apply hidden; [done|set_solver|set_solver]].
Qed.

(** ** The whole collection *)
Lemma collected_arrays {A} (step : collecting → A → collecting) (g : A → mdArrayObservation) l st :
  (∀ st x, cl_arrays (step st x) = cl_arrays st ++ [g x]) → cl_arrays (fold_left step l st) = cl_arrays st ++ (g <$> l).
Proof. intros Hs. revert st. induction l as [|x l IH]; intros st; cbn [fold_left]; [by rewrite app_nil_r|]. rewrite IH, Hs, <- app_assoc. done. Qed.
Definition lone (sysfs : Sysfs) (name : string) : mdArrayObservation := unconfirmed (readMDArraySysfs sysfs (only_name name) true).1.
Definition told (sysfs : Sysfs) (blockNames : list string) (r : mdstatRecord) : mdArrayObservation := (readMDArraySysfs sysfs r (mr_name r ∈? blockNames)).1.
Lemma lone_ok sysfs name : array_ok (lone sysfs name) ∧ ma_Name (lone sysfs name) = name ∧ ma_Health (lone sysfs name) ≠ arrayHealthHealthy.
Proof.
  unfold lone. destruct (readMDArraySysfs sysfs (only_name name) true) as [a c] eqn:H. apply readMDArraySysfs_ok in H as [[H1 H2 H3] Hn]; [|done|by intros ? ?].
  split_and!; [|done|cbn; by case_match]. split; cbn; [done|done|]. destruct H3 as [text|]; [by eapply (seen_known _ text)|by apply seen_unknown].
Qed.
Lemma told_ok sysfs names r : record_wf r → (mr_countsKnown r = true → mr_activeDevices r ≤ mr_expectedDevices r) →
  array_ok (told sysfs names r) ∧ ma_Name (told sysfs names r) = mr_name r ∧ (ma_Health (told sysfs names r) = arrayHealthHealthy → mr_name r ∈ names ∧ healthy_seen sysfs r).
Proof.
  intros [W1 W2 W3] Hc. unfold told. destruct (readMDArraySysfs sysfs r _) as [a c] eqn:H. pose proof H as H'. apply readMDArraySysfs_ok in H as [Ho Hn]; [|intros Hk; specialize (W2 Hk); specialize (Hc Hk); lia|done].
  split_and!; [done|done|]. cbn. intros Hh. eapply readMDArraySysfs_healthy in H' as (Hp & _ & Hs); [|done]. by apply bool_decide_eq_true in Hp.
Qed.

(** where an array that is called healthy comes from *)
Definition confirmed (mdstat : file) (sysfs : Sysfs) (a : mdArrayObservation) : Prop :=
  ∃ data records record entries, readBounded mdstat = Some data ∧ parseMDStat data = Ok records ∧ record ∈ records ∧ mr_name record = ma_Name a
  ∧ fs_ReadDir sysfs "class/block" = Some entries ∧ mr_name record ∈ entries ∧ healthy_seen sysfs record.
Definition collected (mdstat : file) (sysfs : Sysfs) (l : list mdArrayObservation) : Prop :=
  Forall array_ok l ∧ NoDup (ma_Name <$> l) ∧ Forall (λ a, validMDName (ma_Name a) = true) l
  ∧ Forall (λ a, ma_Health a = arrayHealthHealthy → confirmed mdstat sysfs a) l.
Lemma collected_lone mdstat sysfs names l : collected mdstat sysfs l → NoDup names → Forall (λ n, validMDName n = true) names → (∀ n, n ∈ names → n ∉ ma_Name <$> l) →
  collected mdstat sysfs (l ++ (lone sysfs <$> names)).
Proof.
  intros (H1 & H2 & H3 & H4) HN HV Hd.
  assert (En : ma_Name <$> (lone sysfs <$> names) = names) by (rewrite <- list_fmap_compose; rewrite <- (list_fmap_id names) at 2; apply list_fmap_ext; intros i n _; apply lone_ok).
  split_and!.
  - apply Forall_app. split; [done|]. apply Forall_fmap, Forall_forall. intros n _. apply lone_ok.
  - rewrite fmap_app, En. apply NoDup_app. split_and!; [done| |done]. intros n Hn Hn'. by apply (Hd n).
  - apply Forall_app. split; [done|]. apply Forall_fmap. eapply Forall_impl; [exact HV|]. intros n Hn. unfold compose. by rewrite (proj1 (proj2 (lone_ok sysfs n))).
  - apply Forall_app. split; [done|]. apply Forall_fmap, Forall_forall. intros n _. unfold compose. intros Hh. by apply lone_ok in Hh.
Qed.
Lemma collected_told data records mdstat sysfs entries : readBounded mdstat = Some data → parseMDStat data = Ok records →
  fs_ReadDir sysfs "class/block" = Some entries → collected mdstat sysfs (told sysfs entries <$> records) ∧ ma_Name <$> (told sysfs entries <$> records) = mr_name <$> records.
Proof.
  intros Hdata Hp Hdir. pose proof Hp as Hp'. apply parseMDStat_wf in Hp' as [(HF & HNr & _) Hc].
  assert (Ht : ∀ r, r ∈ records → array_ok (told sysfs entries r) ∧ ma_Name (told sysfs entries r) = mr_name r
                 ∧ (ma_Health (told sysfs entries r) = arrayHealthHealthy → mr_name r ∈ entries ∧ healthy_seen sysfs r)).
  { intros r Hr. rewrite Forall_forall in HF, Hc. apply told_ok; auto. }
  assert (En : ma_Name <$> (told sysfs entries <$> records) = mr_name <$> records).
  { rewrite <- list_fmap_compose. apply list_fmap_ext. intros i r Hr%list_elem_of_lookup_2. by apply Ht. }
  split; [|done]. split_and!; [|by rewrite En| |]; apply Forall_fmap, Forall_forall; intros r Hr; unfold compose.
  - by apply Ht.
  - rewrite (proj1 (proj2 (Ht r Hr))). rewrite Forall_forall in HF. by apply HF.
  - intros Hh. destruct (Ht r Hr) as (_ & Hn & Hs). destruct (Hs Hh) as [Hin Hseen]. exists data, records, r, entries. by rewrite Hn.
Qed.
Lemma gather_collected mdstat sysfs entries names status codes : fs_ReadDir sysfs "class/block" = Some entries → NoDup names → Forall (λ n, validMDName n = true) names →
  collected mdstat sysfs (cl_arrays (gather mdstat sysfs entries names status codes)).
Proof.
  intros Hdir HN HV. assert (H0 : collected mdstat sysfs []) by (split_and!; constructor).
  assert (Hlone : ∀ st codes, collected mdstat sysfs (cl_arrays (appendSysfsOnlyArrays sysfs names (mkCollecting st codes [])))).
  { intros st co. unfold appendSysfsOnlyArrays. rewrite (collected_arrays _ (lone sysfs)); [apply collected_lone; try done; set_solver|].
    intros s n. unfold sysfs_only_step, lone. by destruct (readMDArraySysfs _ _ _). }
  assert (Honly : ∀ st codes, collected mdstat sysfs (cl_arrays (if 0 <? len names then appendSysfsOnlyArrays sysfs names (mkCollecting arrayInventoryPartial codes [])
                                                                 else mkCollecting st codes []))) by (intros; destruct (0 <? len names); [apply Hlone|done]).
  unfold gather. destruct mdstat as [| |r] eqn:Hm; [by apply Honly|by apply Honly|]. rewrite <- Hm in *. clear Hm r.
  destruct (readBounded mdstat) as [data|] eqn:Hb; [|by apply Honly]. destruct (parseMDStat data) as [records|] eqn:Hp; [|by apply Hlone].
  destruct (collected_told data records mdstat sysfs entries) as [Hc En]; try done.
  rewrite (collected_arrays _ (lone sysfs)), (collected_arrays _ (told sysfs entries)).
  - cbn [cl_arrays app]. apply collected_lone; [done|by apply NoDup_filter| |].
    { apply Forall_forall. intros n [_ Hn]%list_elem_of_filter. rewrite Forall_forall in HV. auto. }
     intros n. rewrite list_elem_of_filter, En. tauto.
  - intros s r. unfold record_step, told. by destruct (readMDArraySysfs _ _ _).
  - intros s n. unfold missing_step, lone. by destruct (readMDArraySysfs _ _ _).
Qed.
(** A collection ends without the arrays, or finishes arrays that are all right. *)
Lemma collect_cases mdstat sysfs now :
  collectMDArrayInventory mdstat sysfs now = snapshot_with now false (mkCollecting arrayInventoryUnavailable ["block-inventory-unavailable"] [])
  ∨ ∃ complete st, collectMDArrayInventory mdstat sysfs now = finishMDArraySnapshot (snapshot_with now complete st) ∧ collected mdstat sysfs (cl_arrays st).
Proof.
  unfold collectMDArrayInventory. destruct (fs_ReadDir sysfs "class/block") as [entries|] eqn:Hdir; [|by left].
  destruct (maxBlockEntries <? len entries); [by left|]. right. set (all := sort_by id _).
  assert (Hall : NoDup all ∧ Forall (λ n, validMDName n = true) all).
  { unfold all. rewrite !sort_by_perm. split; [apply NoDup_remove_dups|]. apply Forall_forall. intros n. rewrite elem_of_remove_dups, list_elem_of_filter. tauto. }
  destruct (_ <? _); eexists _, _; (split; [reflexivity|]); apply gather_collected; try apply Hall; [done| | |done].
  - eapply sublist_NoDup; [apply Hall|apply sublist_take].
  - apply Forall_take, Hall.
Qed.
(** Each array of the snapshot is one that was collected, but for what is shown of its identifier. *)
Lemma collect_Ok mdstat sysfs now : ∃ l kept arrays, collected mdstat sysfs l ∧ ms_Arrays (collectMDArrayInventory mdstat sysfs now) = Some arrays
  ∧ ms_ArrayCount (collectMDArrayInventory mdstat sysfs now) = len arrays ∧ kept `prefix_of` sort_by ma_Name l ∧ len kept ≤ maxMDArrayEntries
  ∧ Forall2 relabelled kept arrays ∧ identities_shown (ms_identityInventoryComplete (collectMDArrayInventory mdstat sysfs now)) arrays.
Proof.
  destruct (collect_cases mdstat sysfs now) as [->|(c & st & -> & Hc)].
  - exists [], [], []. repeat split; try constructor; done || set_solver.
  - destruct (finish_Ok (snapshot_with now c st) (cl_arrays st) eq_refl (proj1 Hc)) as (kept & out & ? & ? & ? & ? & _ & ? & ? & _). by exists (cl_arrays st), kept, out.
Qed.
Lemma kept_collected mdstat sysfs l kept a : collected mdstat sysfs l → kept `prefix_of` sort_by ma_Name l → a ∈ kept →
  array_ok a ∧ validMDName (ma_Name a) = true ∧ (ma_Health a = arrayHealthHealthy → confirmed mdstat sysfs a).
Proof.
  intros (H1 & _ & H3 & H4) [rest E] Ha. assert (Hin : a ∈ l) by (rewrite <- (sort_by_elem ma_Name), E; set_solver).
  rewrite Forall_forall in H1, H3, H4. auto.
Qed.

(** ** Properties *)

(** C29: healthy means that both sources say so.  Whatever the kernel's files
    contain, an array that is reported healthy is in the status text and has a block
    node; its attributes were all read and have the right form; no device is missing,
    nothing is being rebuilt, its level can be healthy and its state is an operational
    one; and the text and the attributes agree on members, counts, level, action and
    state. *)
Theorem healthy_arrays_confirmed mdstat sysfs now arrays a :
  ms_Arrays (collectMDArrayInventory mdstat sysfs now) = Some arrays → a ∈ arrays → ma_Health a = arrayHealthHealthy → confirmed mdstat sysfs a.
Proof.
  destruct (collect_Ok mdstat sysfs now) as (l & kept & arrays' & Hc & -> & _ & Hpre & _ & HR & _). intros [= ->] (i & Hi)%list_elem_of_lookup Hh.
  destruct (Forall2_lookup_r _ _ _ _ _ HR Hi) as (b & Hb & E). destruct (kept_collected _ _ _ _ b Hc Hpre (list_elem_of_lookup_2 _ _ _ Hb)) as (_ & _ & Hconf).
  rewrite E in Hh |- *. exact (Hconf Hh).
Qed.

(** C30: the array inventory, whatever the kernel's files contain: at most sixteen
    arrays with valid names, in order and without repetition; counts that add up and
    progress between zero and a hundred; and identifiers shown only as a whole: when
    the inventory of identities is incomplete no array shows one, and when it is
    complete every array shows its own, ambiguous exactly when another device shows
    the same one, and no device shows two. *)
Theorem md_inventory_exact mdstat sysfs now : ∃ arrays, ms_Arrays (collectMDArrayInventory mdstat sysfs now) = Some arrays
  ∧ ms_ArrayCount (collectMDArrayInventory mdstat sysfs now) = len arrays ∧ len arrays ≤ maxMDArrayEntries
  ∧ StronglySorted (λ m n, str_leb m n = true) (ma_Name <$> arrays) ∧ NoDup (ma_Name <$> arrays)
  ∧ Forall (λ a, validMDName (ma_Name a) = true ∧ counted (ma_ExpectedDevices a) (ma_ActiveDevices a) (ma_DegradedDevices a) ∧ percent (ma_SyncProgressPercent a)) arrays
  ∧ identities_shown (ms_identityInventoryComplete (collectMDArrayInventory mdstat sysfs now)) arrays.
Proof.
  destruct (collect_Ok mdstat sysfs now) as (l & kept & arrays & Hc & Ha & Hn & Hpre & Hlen & HR & HI). exists arrays.
  assert (En : ma_Name <$> arrays = ma_Name <$> kept) by (clear -HR; induction HR as [|a a' ? ? E]; cbn; [done|]; f_equal; [by rewrite E|done]).
  assert (Hl : length arrays = length kept) by (symmetry; by eapply Forall2_length).
  split_and!; try done; [unfold len in *; lia|rewrite En|rewrite En|].
  - destruct Hpre as [rest E]. pose proof (sort_by_sorted ma_Name l) as Hs. rewrite E in Hs. apply StronglySorted_app_1_l in Hs. eapply StronglySorted_fmap; [|exact Hs]. intros x y Hxy. exact Hxy.
  - destruct Hpre as [rest E]. assert (HN : NoDup (ma_Name <$> sort_by ma_Name l)) by (rewrite sort_by_perm; apply Hc).
    rewrite E, fmap_app in HN. by apply NoDup_app in HN as [? _].
  - apply Forall_forall. intros a (i & Hi)%list_elem_of_lookup. destruct (Forall2_lookup_r _ _ _ _ _ HR Hi) as (b & Hb & E).
    destruct (kept_collected _ _ _ _ b Hc Hpre (list_elem_of_lookup_2 _ _ _ Hb)) as ([H1 H2 _] & Hv & _). rewrite E. done.
Qed.

(** a mirror that is all right, and the same mirror while the text still shows a rebuild *)
Definition file_of (files : list (string * string)) (path : string) : file :=
  match find (λ f, f.1 == path) files with Some f => Opened (mkReader f.2 false) | None => NotExist end.
Definition mirror_sysfs : Sysfs :=
  mkSysfs (λ p, if p == "class/block" then Some ["md0"; "sda1"; "sdb1"] else if p == "class/block/md0/slaves" then Some ["sdb1"; "sda1"] else None) None
    (file_of [("class/block/md0/dev", "9:0"); ("class/block/md0/md/uuid", "12345678-1234-4234-8234-123456789ABC"); ("class/block/md0/md/level", "raid1");
              ("class/block/md0/md/array_state", "clean"); ("class/block/md0/md/degraded", "0"); ("class/block/md0/md/raid_disks", "2");
              ("class/block/md0/md/sync_action", "idle"); ("class/block/md0/md/sync_completed", "none")]).
Definition mirror_text (detail : string) : file :=
  text_file ["Personalities : [raid1]"; "md0 : active raid1 sdb1[1] sda1[0]"; detail; ""; "unused devices: <none>"].
Definition quiet_mirror : mdArraySnapshot := collectMDArrayInventory (mirror_text "      1000 blocks super 1.2 [2/2] [UU]") mirror_sysfs 1.
Definition arrays_of (s : mdArraySnapshot) : list mdArrayObservation := elems (ms_Arrays s).
Example mirror_reports :
  ((λ a, (ma_Name a, ma_arrayUUID a, ma_Health a, ma_ActiveDevices a)) <$> arrays_of quiet_mirror)
    = [("md0", "12345678-1234-4234-8234-123456789abc", arrayHealthHealthy, 2)]
  ∧ ((λ a, (ma_Health a, ma_diagnosticCodes a)) <$> arrays_of (collectMDArrayInventory (mirror_text "      [=>....]  recovery = 12.6% (1/2) finish=1min") mirror_sysfs 1))
    = [(arrayHealthUnknown, [disagreement])].
Proof. vm_compute. split; reflexivity. Qed.
Definition no_array : mdArrayObservation := mkArray "" 0 0 "" identityZero "" "" arrayHealthUnknown 0 0 0 "" None [] [] false.
Definition mirror : mdArrayObservation := default no_array (arrays_of quiet_mirror !! 0%nat).
Lemma healthy_arrays_confirmed_witness :
  ma_Name mirror = "md0" ∧ ma_Health mirror = arrayHealthHealthy
  ∧ confirmed (mirror_text "      1000 blocks super 1.2 [2/2] [UU]") mirror_sysfs mirror.
Proof.
  split; [vm_compute; reflexivity|]. split; [vm_compute; reflexivity|].
  apply (healthy_arrays_confirmed (mirror_text "      1000 blocks super 1.2 [2/2] [UU]") mirror_sysfs 1 [mirror] mirror); [vm_compute; reflexivity|set_solver|vm_compute; reflexivity].
Defined.
(** With counts above 2^53 / 100 the product is rounded, and a finished operation can
    come out above a hundred, which is refused. *)
Example finished_refused :
  parseMDSyncCompleted "360353175702643 / 360353175702643" = Err ErrMD ∧ parseMDSyncCompleted "7814037168 / 7814037168" = Ok (Some hundred).
Proof. vm_compute. split; reflexivity. Qed.
End MdRaid.
