(* ===== verification/PartitionIdentity.v ===== *)
(** * Partition identities: [storage_partition_*.go]

    [correlateDiskPartitionTable] joins one answer of the probe to the kernel's
    partitions of a disk, [correlateCandidatePartitionTables] does so for every
    candidate of a discovery, [classifyGPTPartitionIdentities] finds the
    identifiers that occur twice, and [summarizeGPTIdentityObservation] counts
    them for the panel. *)

From S2P Require Import Prelude Groups GoStrings GoPath ConfigJson GoJson MountInfo BlockTopology BlockInventory StorageDiscovery TrustedStorage VolumeProbe MdRaid.

Module PartitionIdentity.
Import GoPath MountInfo BlockTopology BlockInventory StorageDiscovery TrustedStorage.
Import (hints) VolumeProbe.
Abbreviation incomplete := errStorageDiscoveryIncomplete.

(** ** [storage_partition_type.go] *)
Inductive gptPartitionTypeHint := HintUnknown | HintEFISystem | HintLinuxData | HintLinuxRAID | HintLinuxSwap | HintLinuxLVM.
#[export] Instance gptPartitionTypeHint_eq_dec : EqDecision gptPartitionTypeHint. Proof. solve_decision. Defined.
Definition classifyGPTPartitionTypeGUID (guid : string) : gptPartitionTypeHint :=
  let guid := to_lower guid in
  if guid == "c12a7328-f81f-11d2-ba4b-00a0c93ec93b" then HintEFISystem
  else if guid == "0fc63daf-8483-4772-8e79-3d69d8477de4" then HintLinuxData
  else if guid == "a19d880f-05fc-4d3b-a006-743f0f84911e" then HintLinuxRAID
  else if guid == "0657fd6d-a4ab-43c4-84e5-0933c84b4f4f" then HintLinuxSwap
  else if guid == "e6d6d379-f507-44c2-a23c-238f2a3df928" then HintLinuxLVM
  else HintUnknown.

(** ** [validCanonicalGPTGUID] *)
Definition validCanonicalGPTGUID (value : string) : bool := bool_decide (MdRaid.canonicalMDArrayUUID value = Some value).

(** ** [storage_partition_correlation.go] *)
Record kernelPartitionBinding := mkBinding {
  kb_KernelName : string; kb_Major : Z; kb_Minor : Z; kb_Number : Z; kb_Start512B : Z; kb_Size512B : Z; kb_TypeGUID : string;
  kb_TypeHint : gptPartitionTypeHint; kb_UUID : string; kb_UUIDStatus : string }.
Definition partitionTableNoTable : string := "no-partition-table".
Definition partitionTableGPT : string := "gpt".
Definition partitionTableUnsupported : string := "unsupported".
Record diskPartitionBinding := mkDisk {
  db_DiskName : string; db_Generation : BlockDeviceGeneration; db_SourceStatus : string; db_TableDisposition : string;
  db_Scheme : string; db_TableID : string; db_TableIDStatus : string; db_Partitions : list kernelPartitionBinding }.

(** a child of the disk, as the kernel must show it *)
Definition bad_child (disk observed : blockObservation) : bool :=
  negb (bool_decide (bo_ParentMajor observed = Some (bo_Major disk))) || negb (bool_decide (bo_ParentMinor observed = Some (bo_Minor disk)))
  || negb (bo_parentDiskSeq observed =? bo_diskSequence disk) || (Dir (bo_sysfsTarget observed) != bo_sysfsTarget disk)
  || (bo_PartitionNumber observed =? 0) || (bo_partitionStart512B observed =? 0) || (bo_SizeBytes observed =? 0)
  || negb (bo_SizeBytes observed mod linuxSysfsSectorBytes =? 0).
Definition child_step (disk : blockObservation) (kernelByNumber : gmap Z blockObservation) (observed : blockObservation) :
  res discovery_error (gmap Z blockObservation) :=
  if (bo_Kind observed != "partition") || (bo_ParentName observed != bo_Name disk) then Ok kernelByNumber
  else
    refuse bad_child disk observed => incomplete ;;
    refuse bool_decide (is_Some (kernelByNumber !! bo_PartitionNumber observed)) => incomplete ;;
    Ok (<[bo_PartitionNumber observed := observed]> kernelByNumber).

Definition bind_step (kernelByNumber : gmap Z blockObservation) (diskSectors : Z) (st : gset Z * list kernelPartitionBinding)
  (partition : VolumeProbe.Partition) : res discovery_error (gset Z * list kernelPartitionBinding) :=
  let number := VolumeProbe.pt_Number partition in
  let start := VolumeProbe.pt_Start512B partition in
  let size := VolumeProbe.pt_Size512B partition in
  refuse (number =? 0) || (start =? 0) || (size =? 0) || (max_uint64 - size <? start) || (diskSectors <? u64_add start size)
         || (number ∈? st.1) => incomplete ;;
  match kernelByNumber !! number with
  | None => Err incomplete
  | Some kernel =>
    refuse negb (bo_partitionStart512B kernel =? start) || negb (bo_SizeBytes kernel / linuxSysfsSectorBytes =? size) => incomplete ;;
    Ok ({[number]} ∪ st.1,
        st.2 ++ [mkBinding (bo_Name kernel) (bo_Major kernel) (bo_Minor kernel) number start size (VolumeProbe.pt_TypeID partition)
                   (classifyGPTPartitionTypeGUID (VolumeProbe.pt_TypeID partition)) (VolumeProbe.pt_UUID partition) ""])
  end.

Definition correlateDiskPartitionTable (disk : blockObservation) (inv : slice blockObservation) (result : VolumeProbe.Result) :
  res discovery_error diskPartitionBinding :=
  refuse (VolumeProbe.rs_SourceKind result != "block-device") || (bo_Kind disk != "block") || (bo_diskSequence disk =? 0)
         || (bo_SizeBytes disk =? 0) || negb (bo_SizeBytes disk mod linuxSysfsSectorBytes =? 0) => incomplete ;;
  devices ← redact incomplete (completeObservedBlockDeviceSet
    (mkStorage 2 "kernel-sysfs-only" true false false false false (slen inv) inv ["internal trusted correlation"] true));
  refuse negb (existsb (λ device, (od_Name device == bo_Name disk) && (od_Generation device == generation_of disk)) devices) => incomplete ;;
  refuse existsb (λ observed, (bo_Name observed == bo_Name disk) && negb (sameBlockObservation disk observed)) (elems inv) => incomplete ;;
  kernelByNumber ← for_range (λ _, child_step disk) 0 ∅ (elems inv);
  let binding disposition scheme tableID parts :=
    mkDisk (bo_Name disk) (generation_of disk) (VolumeProbe.rs_Status result) disposition scheme tableID "" parts in
  if VolumeProbe.rs_Status result == "unsupported-table" then Ok (binding partitionTableUnsupported "" "" [])
  else match VolumeProbe.rs_PartitionTable result with
  | None => refuse negb (size kernelByNumber =? 0)%nat => incomplete ;; Ok (binding partitionTableNoTable "" "" [])
  | Some table =>
    refuse VolumeProbe.rs_Status result != "other-signature" => incomplete ;;
    if VolumeProbe.tb_Scheme table == "dos" then Ok (binding partitionTableUnsupported "" "" [])
    else
      refuse (VolumeProbe.tb_Scheme table != "gpt") || (VolumeProbe.tb_ID table == "")
             || negb (length (VolumeProbe.tb_Partitions table) =? size kernelByNumber)%nat => incomplete ;;
      st ← for_range (λ _, bind_step kernelByNumber (bo_SizeBytes disk / linuxSysfsSectorBytes)) 0 (∅, []) (VolumeProbe.tb_Partitions table);
      refuse negb (size st.1 =? size kernelByNumber)%nat => incomplete ;;
      Ok (binding partitionTableGPT (VolumeProbe.tb_Scheme table) (VolumeProbe.tb_ID table) st.2)
  end.

#[export] Instance storageDiscoveryCandidate_eq_dec : EqDecision storageDiscoveryCandidate. Proof. solve_decision. Defined.
#[export] Instance storageDiscoveryExclusion_eq_dec : EqDecision storageDiscoveryExclusion. Proof. solve_decision. Defined.
Definition sameStorageDiscoveryPlan (plan : storageDiscoveryPlan) (discovery : trustedStorageDiscovery) : bool :=
  bool_decide (pl_Candidates plan = td_candidates discovery) && bool_decide (pl_Excluded plan = td_excluded discovery)
  && eqb (pl_HasAmbiguousIdentity plan) (td_hasAmbiguousIdentity discovery)
  && eqb (pl_IdentityEvidenceIncomplete plan) (td_identityEvidenceIncomplete discovery).

(** one candidate with its source and its answer *)
Definition candidate_step (current : storageSnapshot) (devices : list ObservedBlockDevice) (st : gset string * list diskPartitionBinding)
  (item : storageDiscoveryCandidate * BlockDeviceSource * VolumeProbe.Result) : res discovery_error (gset string * list diskPartitionBinding) :=
  let '(candidate, source, result) := item in
  let devicesByName := fold_left (λ m d, <[od_Name d := od_Generation d]> m) devices (∅ : gmap string BlockDeviceGeneration) in
  refuse bool_decide (bs_File source = None) || (bs_Generation source != sc_Generation candidate)
         || negb (bool_decide (devicesByName !! sc_Name candidate = Some (sc_Generation candidate)))
         || (sc_Name candidate ∈? st.1) => incomplete ;;
  match by_name (elems (ss_Observations current)) !! sc_Name candidate with
  | None => Err incomplete
  | Some disk =>
    binding ← correlateDiskPartitionTable disk (ss_Observations current) result;
    Ok ({[sc_Name candidate]} ∪ st.1, st.2 ++ [binding])
  end.
Definition correlateCandidatePartitionTables (discovery : trustedStorageDiscovery) (current : storageSnapshot) (results : list VolumeProbe.Result) :
  res discovery_error (list diskPartitionBinding) :=
  refuse td_closed discovery || is_nil (ss_Observations (td_inventory discovery)) || negb (sameStorageSnapshot (td_inventory discovery) current)
         || negb (len (td_candidates discovery) =? len (td_sources discovery)) || negb (len results =? len (td_candidates discovery)) => incomplete ;;
  devices ← redact incomplete (completeObservedBlockDeviceSet current);
  plan ← planTrustedStorageDiscovery current (td_mounts discovery);
  refuse negb (sameStorageDiscoveryPlan plan discovery) => incomplete ;;
  st ← for_range (λ _, candidate_step current devices) 0 (∅, []) (zip (zip (td_candidates discovery) (td_sources discovery)) results);
  Ok st.2.

(** ** [storage_partition_classification.go] *)
Definition gptIdentityCoverageEmpty : string := "empty-candidate-set".
Definition gptIdentityCoverageNone : string := "no-gpt-candidates".
Definition gptIdentityCoveragePartial : string := "partial-gpt-candidates".
Definition gptIdentityCoverageAllCandidates : string := "all-candidates-gpt".
Definition gptIdentitySingletonObserved : string := "singleton-in-observed-gpt-candidates".
Definition gptIdentityAmbiguousObserved : string := "ambiguous-in-observed-gpt-candidates".
Record gptIdentitySetObservation := mkIdentitySet {
  gs_CandidateCount : Z; gs_GPTDiskCount : Z; gs_UnsupportedTableCount : Z; gs_NoTableCount : Z; gs_Coverage : string;
  gs_VPDIdentityAmbiguous : bool; gs_VPDIdentityEvidenceIncomplete : bool; gs_Bindings : slice diskPartitionBinding }.

Definition with_UUIDStatus (status : string) (p : kernelPartitionBinding) : kernelPartitionBinding :=
  mkBinding (kb_KernelName p) (kb_Major p) (kb_Minor p) (kb_Number p) (kb_Start512B p) (kb_Size512B p) (kb_TypeGUID p) (kb_TypeHint p) (kb_UUID p) status.
Definition with_TableIDStatus (status : string) (b : diskPartitionBinding) : diskPartitionBinding :=
  mkDisk (db_DiskName b) (db_Generation b) (db_SourceStatus b) (db_TableDisposition b) (db_Scheme b) (db_TableID b) status (db_Partitions b).
Definition with_Partitions (b : diskPartitionBinding) (ps : list kernelPartitionBinding) : diskPartitionBinding :=
  mkDisk (db_DiskName b) (db_Generation b) (db_SourceStatus b) (db_TableDisposition b) (db_Scheme b) (db_TableID b) (db_TableIDStatus b) ps.

Record classify_state := mkClassify {
  cs_names : gset string; cs_generations : gset (Z * Z * Z); cs_numbers : gset (Z * Z); cs_partitionNames : gset string;
  cs_diskOwners : gmap string (list nat); cs_partOwners : gmap string (list (nat * nat)); cs_gpt : Z; cs_unsupported : Z; cs_noTable : Z;
  cs_out : list diskPartitionBinding }.
Record part_state := mkParts {
  ps_numbers : gset (Z * Z); ps_names : gset string; ps_uuids : gset string; ps_owners : gmap string (list (nat * nat));
  ps_out : list kernelPartitionBinding }.
Definition part_step (diskIndex : nat) (st : part_state) (p : kernelPartitionBinding) : res discovery_error part_state :=
  refuse negb (validBlockName (kb_KernelName p)) || (kb_KernelName p ∈? ps_names st) || ((kb_Major p =? 0) && (kb_Minor p =? 0))
         || ((kb_Major p, kb_Minor p) ∈? ps_numbers st) || negb (validCanonicalGPTGUID (kb_UUID p)) || negb (validCanonicalGPTGUID (kb_TypeGUID p))
         || (kb_TypeHint p != classifyGPTPartitionTypeGUID (kb_TypeGUID p)) || (kb_Number p =? 0) || (kb_UUID p ∈? ps_uuids st) => incomplete ;;
  Ok (mkParts ({[(kb_Major p, kb_Minor p)]} ∪ ps_numbers st) ({[kb_KernelName p]} ∪ ps_names st) ({[kb_UUID p]} ∪ ps_uuids st)
        (append_to (ps_owners st) (kb_UUID p) (diskIndex, length (ps_out st)))
        (ps_out st ++ [with_UUIDStatus gptIdentitySingletonObserved p])).
Definition no_identity (b : diskPartitionBinding) : bool := (db_Scheme b == "") && (db_TableID b == "") && (len (db_Partitions b) =? 0).
Definition classify_step (st : classify_state) (b : diskPartitionBinding) : res discovery_error classify_state :=
  let g := db_Generation b in
  refuse negb (validBlockName (db_DiskName b)) || (db_DiskName b ∈? cs_names st) || ((bg_Major g =? 0) && (bg_Minor g =? 0))
         || (bg_DiskSequence g =? 0) || (key g ∈? cs_generations st) => incomplete ;;
  refuse device_number g ∈? cs_numbers st => incomplete ;;
  let names := {[db_DiskName b]} ∪ cs_names st in
  let generations := {[key g]} ∪ cs_generations st in
  let numbers := {[device_number g]} ∪ cs_numbers st in
  if db_TableDisposition b == partitionTableNoTable then
    refuse negb (no_identity b) => incomplete ;;
    Ok (mkClassify names generations numbers (cs_partitionNames st) (cs_diskOwners st) (cs_partOwners st) (cs_gpt st) (cs_unsupported st)
          (cs_noTable st + 1) (cs_out st ++ [b]))
  else if db_TableDisposition b == partitionTableUnsupported then
    refuse negb (no_identity b) => incomplete ;;
    Ok (mkClassify names generations numbers (cs_partitionNames st) (cs_diskOwners st) (cs_partOwners st) (cs_gpt st) (cs_unsupported st + 1)
          (cs_noTable st) (cs_out st ++ [b]))
  else if db_TableDisposition b == partitionTableGPT then
    refuse (db_Scheme b != "gpt") || negb (validCanonicalGPTGUID (db_TableID b)) => incomplete ;;
    let diskIndex := length (cs_out st) in
    ps ← for_range (λ _, part_step diskIndex) 0 (mkParts numbers (cs_partitionNames st) ∅ (cs_partOwners st) []) (db_Partitions b);
    Ok (mkClassify names generations (ps_numbers ps) (ps_names ps) (append_to (cs_diskOwners st) (db_TableID b) diskIndex) (ps_owners ps)
          (cs_gpt st + 1) (cs_unsupported st) (cs_noTable st)
          (cs_out st ++ [with_TableIDStatus gptIdentitySingletonObserved (with_Partitions b (ps_out ps))]))
  else Err incomplete.

#[export] Instance binding_positions : Positions (list diskPartitionBinding) (nat * nat) kernelPartitionBinding := {
  pos_lookup p l := l !! p.1 ≫= λ b, db_Partitions b !! p.2;
  pos_alter f p l := alter (λ b, with_Partitions b (alter f p.2 (db_Partitions b))) p.1 l }.
Definition coverage (candidates gptDisks : Z) : string :=
  if candidates =? 0 then gptIdentityCoverageEmpty else if gptDisks =? 0 then gptIdentityCoverageNone
  else if gptDisks =? candidates then gptIdentityCoverageAllCandidates else gptIdentityCoveragePartial.
(** [append([]T(nil), s...)] is nil when [s] is empty *)
Definition append_nil {A} (l : list A) : slice A := match l with [] => None | _ => Some l end.
Definition classifyGPTPartitionIdentities (bindings : slice diskPartitionBinding) : res discovery_error gptIdentitySetObservation :=
  refuse is_nil bindings || (maxBlockEntries <? slen bindings) => incomplete ;;
  st ← for_range (λ _, classify_step) 0 (mkClassify ∅ ∅ ∅ ∅ ∅ ∅ 0 0 0 []) (elems bindings);
  let marked := mark_groups (with_TableIDStatus gptIdentityAmbiguousObserved) (map_to_list (cs_diskOwners st)) (cs_out st) in
  let marked := mark_groups (with_UUIDStatus gptIdentityAmbiguousObserved) (map_to_list (cs_partOwners st)) marked in
  Ok (mkIdentitySet (slen bindings) (cs_gpt st) (cs_unsupported st) (cs_noTable st) (coverage (slen bindings) (cs_gpt st)) false false
        (append_nil marked)).
Definition observeCandidateGPTIdentities (discovery : trustedStorageDiscovery) (current : storageSnapshot) (results : list VolumeProbe.Result) :
  res discovery_error gptIdentitySetObservation :=
  bindings ← correlateCandidatePartitionTables discovery current results;
  o ← classifyGPTPartitionIdentities (Some bindings);
  Ok (mkIdentitySet (gs_CandidateCount o) (gs_GPTDiskCount o) (gs_UnsupportedTableCount o) (gs_NoTableCount o) (gs_Coverage o)
        (td_hasAmbiguousIdentity discovery) (td_identityEvidenceIncomplete discovery) (gs_Bindings o)).

(** ** [storage_partition_observation.go] *)
Definition storageGPTObservationMaxDisks : Z := 6.
Definition storageGPTObservationLimitations : list string :=
  ["only first-sector partition metadata and, for valid GPT candidates, GPT headers and entry metadata were read; filesystem signatures, partition contents and file data were not probed";
   "coverage and duplicate counts apply only to this complete eligible candidate set at one point in time; they do not establish global identity, WD compatibility, health or bay mapping";
   "only GPT candidates contribute identity; MBR/DOS, other partition schemes and candidates without a valid GPT table remain unsupported coverage gaps";
   "cancellation cannot guarantee prompt recovery from uninterruptible kernel block I/O; this is not EX4 hardware qualification";
   "no assembly, mount, import, repair, write or other storage mutation was performed"].
Record storageGPTObservationSummary := mkSummary {
  sm_SchemaVersion : Z; sm_Status : string; sm_Scope : string; sm_EligibleCandidateCount : Z; sm_GPTDiskCount : Z; sm_PartitionCount : Z;
  sm_UnsupportedTableCount : Z; sm_Coverage : string; sm_AmbiguousDiskGUIDCount : Z; sm_AmbiguousPARTUUIDCount : Z;
  sm_IdentityEvidenceIncomplete : bool; sm_ContentRead : bool; sm_MountPerformed : bool; sm_AssemblyPerformed : bool; sm_ImportPerformed : bool;
  sm_MutationsPerformed : bool; sm_Limitations : slice string }.

Definition limitation_ok (p : string * string) : bool := (p.1 != "") && (slength p.1 <=? 512) && (p.1 == p.2).
Definition validStorageGPTObservationSummary (s : storageGPTObservationSummary) : bool :=
  if negb (sm_SchemaVersion s =? 1) || (sm_Status s != "complete") || (sm_Scope s != "manual-gpt-metadata-read-only")
     || (sm_EligibleCandidateCount s <? 0) || (storageGPTObservationMaxDisks <? sm_EligibleCandidateCount s)
     || (sm_GPTDiskCount s <? 0) || (sm_EligibleCandidateCount s <? sm_GPTDiskCount s)
     || (sm_PartitionCount s <? 0) || (storageGPTObservationMaxDisks * 256 <? sm_PartitionCount s)
     || negb (sm_UnsupportedTableCount s =? sm_EligibleCandidateCount s - sm_GPTDiskCount s)
     || (sm_AmbiguousDiskGUIDCount s <? 0) || (sm_GPTDiskCount s <? sm_AmbiguousDiskGUIDCount s)
     || (sm_AmbiguousPARTUUIDCount s <? 0) || (sm_PartitionCount s <? sm_AmbiguousPARTUUIDCount s)
     || sm_ContentRead s || sm_MountPerformed s || sm_AssemblyPerformed s || sm_ImportPerformed s || sm_MutationsPerformed s
     || is_nil (sm_Limitations s) || negb (slen (sm_Limitations s) =? 5) then false
  else if sm_Coverage s != coverage (sm_EligibleCandidateCount s) (sm_GPTDiskCount s) then false
  else forallb limitation_ok (zip (elems (sm_Limitations s)) storageGPTObservationLimitations).

Definition is_gpt (b : diskPartitionBinding) : bool := db_TableDisposition b == partitionTableGPT.
(** partitions, ambiguous disk identifiers and ambiguous partition identifiers *)
Definition count_step (st : Z * Z * Z) (b : diskPartitionBinding) : Z * Z * Z :=
  let '(partitions, disks, parts) := st in
  if is_gpt b then
    fold_left (λ st p, (st.1.1 + 1, st.1.2, if kb_UUIDStatus p == gptIdentityAmbiguousObserved then st.2 + 1 else st.2)) (db_Partitions b)
      (partitions, if db_TableIDStatus b == gptIdentityAmbiguousObserved then disks + 1 else disks, parts)
  else st.
Definition summarizeGPTIdentityObservation (o : gptIdentitySetObservation) : res discovery_error storageGPTObservationSummary :=
  refuse (gs_CandidateCount o <? 0) || (storageGPTObservationMaxDisks <? gs_CandidateCount o) || (gs_GPTDiskCount o <? 0)
         || (gs_CandidateCount o <? gs_GPTDiskCount o) || is_nil (gs_Bindings o) || negb (slen (gs_Bindings o) =? gs_CandidateCount o) => incomplete ;;
  let '(partitions, disks, parts) := fold_left count_step (elems (gs_Bindings o)) (0, 0, 0) in
  let summary := mkSummary 1 "complete" "manual-gpt-metadata-read-only" (gs_CandidateCount o) (gs_GPTDiskCount o) partitions
    (gs_UnsupportedTableCount o + gs_NoTableCount o) (gs_Coverage o) disks parts (gs_VPDIdentityEvidenceIncomplete o) false false false false false
    (Some storageGPTObservationLimitations) in
  refuse negb (validStorageGPTObservationSummary summary) => incomplete ;;
  Ok summary.

(** ** Correlation *)
Definition child_of (disk o : blockObservation) : bool := (bo_Kind o == "partition") && (bo_ParentName o == bo_Name disk).
Definition children (disk : blockObservation) (inv : list blockObservation) : list blockObservation := filter (λ o, child_of disk o = true) inv.
(** The map holds the children by number, one for each number. *)
Record numbered_children (disk : blockObservation) (inv : list blockObservation) (m : gmap Z blockObservation) : Prop := {
  nc_lookup : ∀ n o, m !! n = Some o ↔ o ∈ children disk inv ∧ bo_PartitionNumber o = n;
  nc_numbers : NoDup (bo_PartitionNumber <$> children disk inv);
  nc_good : ∀ o, o ∈ children disk inv → bad_child disk o = false }.
Lemma children_snoc disk inv o : children disk (inv ++ [o]) = children disk inv ++ (if child_of disk o then [o] else []).
Proof. unfold children. rewrite filter_app, filter_cons, filter_nil. by destruct (child_of disk o). Qed.
Lemma child_loop i disk done m todo m' : numbered_children disk done m → for_range (λ _, child_step disk) i m todo = Ok m' →
  numbered_children disk (done ++ todo) m'.
Proof.
  revert i done m. induction todo as [|o todo IH]; intros i done m Hm; cbn [for_range]; [intros [= <-]; by rewrite app_nil_r|].
  destruct (child_step disk m o) as [m1|] eqn:Hs; [|done].
  replace (done ++ o :: todo) with ((done ++ [o]) ++ todo) by (by rewrite <- app_assoc). apply IH. clear IH. unfold child_step in Hs.
  assert (Hc : (bo_Kind o != "partition") || (bo_ParentName o != bo_Name disk) = negb (child_of disk o)) by (unfold child_of; by rewrite negb_andb).
  rewrite Hc in Hs. clear Hc. destruct Hm as [H1 H2 H3]. destruct (child_of disk o) eqn:Hch; cbn [negb] in Hs.
  - apply refuse_Ok in Hs as [Hb Hs]. apply refuse_Ok in Hs as [Hn [= <-]]. apply bool_decide_eq_false in Hn.
    assert (Hfresh : ∀ x, x ∈ children disk done → bo_PartitionNumber x ≠ bo_PartitionNumber o).
    { intros x Hx E. apply Hn. rewrite <- E. exists x. by apply H1. }
    split; rewrite children_snoc, Hch.
    + intros n x. rewrite lookup_insert_Some, H1, elem_of_app, list_elem_of_singleton. split.
      * intros [[<- ->]|[Hne [Hx <-]]]; auto.
      * intros [[Hx| ->] <-]; [right|left; done]. split; [|done]. intros E. by apply (Hfresh x).
    + rewrite fmap_app. apply NoDup_app. split_and!; [done| |apply NoDup_singleton].
      intros n (x & -> & Hx)%list_elem_of_fmap E%list_elem_of_singleton. by apply (Hfresh x).
    + intros x [Hx| ->%list_elem_of_singleton]%elem_of_app; [by apply H3|done].
  - injection Hs as <-. split; rewrite children_snoc, Hch, app_nil_r; done.
Qed.
Lemma size_children disk inv m : numbered_children disk inv m → size m = length (children disk inv).
Proof.
  intros [H1 H2 _]. assert (E : m = list_to_map ((λ o, (bo_PartitionNumber o, o)) <$> children disk inv)).
  { apply map_eq. intros n. destruct (m !! n) as [o|] eqn:Hn.
    - symmetry. apply elem_of_list_to_map_1.
      + rewrite <- list_fmap_compose. exact H2.
      + apply H1 in Hn as [Ho <-]. apply list_elem_of_fmap. by exists o.
    - symmetry. apply not_elem_of_list_to_map_1. rewrite <- list_fmap_compose. intros (o & -> & Ho)%list_elem_of_fmap. cbn in Hn.
      assert (Hs : m !! bo_PartitionNumber o = Some o) by (by apply H1). congruence. }
  rewrite E. rewrite map_size_list_to_map; [by rewrite length_fmap|]. rewrite <- list_fmap_compose. exact H2.
Qed.

(** An entry of the table and the partition of the kernel it is. *)
Definition bound (disk kernel : blockObservation) (p : VolumeProbe.Partition) (kb : kernelPartitionBinding) : Prop :=
  bo_PartitionNumber kernel = VolumeProbe.pt_Number p ∧ bo_partitionStart512B kernel = VolumeProbe.pt_Start512B p
  ∧ bo_SizeBytes kernel / linuxSysfsSectorBytes = VolumeProbe.pt_Size512B p
  ∧ VolumeProbe.pt_Start512B p + VolumeProbe.pt_Size512B p ≤ bo_SizeBytes disk / linuxSysfsSectorBytes
  ∧ kb = mkBinding (bo_Name kernel) (bo_Major kernel) (bo_Minor kernel) (VolumeProbe.pt_Number p) (VolumeProbe.pt_Start512B p) (VolumeProbe.pt_Size512B p)
           (VolumeProbe.pt_TypeID p) (classifyGPTPartitionTypeGUID (VolumeProbe.pt_TypeID p)) (VolumeProbe.pt_UUID p) "".
Lemma bind_loop disk inv m i st ps st' : numbered_children disk inv m → Forall VolumeProbe.partition_range ps →
  for_range (λ _, bind_step m (bo_SizeBytes disk / linuxSysfsSectorBytes)) i st ps = Ok st' →
  ∃ kbs, st'.2 = st.2 ++ kbs ∧ Forall2 (λ p kb, ∃ kernel, kernel ∈ children disk inv ∧ bound disk kernel p kb) ps kbs
  ∧ st'.1 = list_to_set (VolumeProbe.pt_Number <$> ps) ∪ st.1 ∧ NoDup (VolumeProbe.pt_Number <$> ps).
Proof.
  intros Hm. assert (Hgen : Forall VolumeProbe.partition_range ps → for_range (λ _, bind_step m (bo_SizeBytes disk / linuxSysfsSectorBytes)) i st ps = Ok st' →
    ∃ kbs, st'.2 = st.2 ++ kbs ∧ Forall2 (λ p kb, ∃ kernel, kernel ∈ children disk inv ∧ bound disk kernel p kb) ps kbs
    ∧ st'.1 = list_to_set (VolumeProbe.pt_Number <$> ps) ∪ st.1 ∧ NoDup (VolumeProbe.pt_Number <$> ps) ∧ ∀ p, p ∈ ps → VolumeProbe.pt_Number p ∉ st.1).
  2:{ intros Hr H. destruct (Hgen Hr H) as (kbs & ? & ? & ? & ? & _). by exists kbs. }
  revert i st. induction ps as [|p ps IH]; intros i st Hr; cbn [for_range].
  - intros [= <-]. exists []. rewrite app_nil_r. split_and!; [done|constructor|cbn; set_solver|constructor|set_solver].
  - apply Forall_cons in Hr as [Hp Hr]. destruct (bind_step m _ st p) as [s1|] eqn:Hs; [|done]. intros H.
    unfold bind_step in Hs. apply refuse_Ok in Hs as [Hg Hs]. repeat (apply orb_false_iff in Hg as [Hg ?]).
    match goal with E : bool_decide (_ ∈ st.1) = false |- _ => apply bool_decide_eq_false in E; rename E into Hfresh end.
    match goal with E : (max_uint64 - _ <? _) = false |- _ => apply Z.ltb_ge in E; rename E into Hmax end.
    match goal with E : (_ / _ <? u64_add _ _) = false |- _ => apply Z.ltb_ge in E; rename E into Hend end.
    destruct (m !! VolumeProbe.pt_Number p) as [kernel|] eqn:Hk; [|done]. apply refuse_Ok in Hs as [Hb [= <-]].
    apply orb_false_iff in Hb as [Hb1%negb_false_iff%Z.eqb_eq Hb2%negb_false_iff%Z.eqb_eq].
    apply (nc_lookup _ _ _ Hm) in Hk as [Hch Hnum]. apply IH in H as (kbs & E1 & HF & E2 & HN & Hd); [|done]. cbn [fst snd] in *.
    assert (Hsum : u64_add (VolumeProbe.pt_Start512B p) (VolumeProbe.pt_Size512B p) = VolumeProbe.pt_Start512B p + VolumeProbe.pt_Size512B p).
    { destruct Hp as (_ & ? & ?). unfold u64_add, wrap. apply Z.mod_small. unfold max_uint64 in Hmax. lia. }
    rewrite Hsum in Hend. eexists (_ :: kbs). rewrite E1, <- app_assoc. split; [reflexivity|]. split; [constructor; [|done]; exists kernel; split; [done|]; by split_and!|].
    split; [cbn; set_solver|]. split.
    + constructor; [|done]. intros (q & Eq & Hq)%list_elem_of_fmap. apply (Hd q Hq). rewrite <- Eq. set_solver.
    + intros q [->|Hq]%elem_of_cons; [done|]. specialize (Hd q Hq). set_solver.
Qed.

(** What a correlated disk is: the kernel's children of the disk are the entries
    of its table. *)
Record correlated (inv : list blockObservation) (disk : blockObservation) (result : VolumeProbe.Result) (b : diskPartitionBinding) : Prop := {
  co_disk : disk ∈ inv ∧ bo_Kind disk = "block" ∧ bo_SizeBytes disk mod linuxSysfsSectorBytes = 0;
  co_name : db_DiskName b = bo_Name disk ∧ db_Generation b = generation_of disk ∧ db_TableIDStatus b = "";
  co_none : db_TableDisposition b = partitionTableNoTable → children disk inv = [] ∧ db_Partitions b = [] ∧ db_Scheme b = "" ∧ db_TableID b = "";
  co_unsupported : db_TableDisposition b = partitionTableUnsupported → db_Partitions b = [] ∧ db_Scheme b = "" ∧ db_TableID b = "";
  co_gpt : db_TableDisposition b = partitionTableGPT → ∃ t, VolumeProbe.rs_PartitionTable result = Some t ∧ VolumeProbe.tb_Scheme t = "gpt"
    ∧ db_Scheme b = "gpt" ∧ db_TableID b = VolumeProbe.tb_ID t
    ∧ Forall2 (λ p kb, ∃ kernel, kernel ∈ children disk inv ∧ bound disk kernel p kb) (VolumeProbe.tb_Partitions t) (db_Partitions b)
    ∧ (∀ o, o ∈ children disk inv → ∃ kb, kb ∈ db_Partitions b ∧ kb_Number kb = bo_PartitionNumber o ∧ kb_KernelName kb = bo_Name o);
  co_disposition : db_TableDisposition b ∈ [partitionTableNoTable; partitionTableUnsupported; partitionTableGPT] }.

Lemma correlate_Ok disk inv result b : VolumeProbe.valid_result result → correlateDiskPartitionTable disk (Some inv) result = Ok b →
  correlated inv disk result b ∧ VolumeProbe.rs_SourceKind result = "block-device" ∧ (∀ o, o ∈ inv → bo_Name o = bo_Name disk → o = disk)
  ∧ (∀ o, o ∈ children disk inv → bad_child disk o = false).
Proof.
  intros Hvr. unfold correlateDiskPartitionTable. intros [Hg H]%refuse_Ok. repeat (apply orb_false_iff in Hg as [Hg ?]).
  apply res_bind_Ok in H as (devices & Hd%redact_Ok & H). apply refuse_Ok in H as [Hf%negb_false_iff H]. apply refuse_Ok in H as [Hsame H].
  apply complete_set_Ok in Hd as (inv' & [= <-] & _ & HN & -> & _). cbn [elems default from_option id] in *.
  apply res_bind_Ok in H as (m & Hm & H).
  apply (child_loop 0 disk []) in Hm; [|split; [intros n o; rewrite lookup_empty; set_solver|constructor|set_solver]]. cbn [app] in Hm.
  rewrite existsb_False in Hsame.
  assert (Huniq : ∀ o, o ∈ inv → bo_Name o = bo_Name disk → o = disk).
  { intros o Ho E. specialize (Hsame o Ho). rewrite bool_decide_eq_true_2 in Hsame by done. cbn in Hsame.
    apply negb_false_iff in Hsame. by apply bool_decide_eq_true in Hsame. }
  assert (Hdisk : disk ∈ inv).
  { apply existsb_True in Hf as (d & (o & -> & Ho)%list_elem_of_fmap & Hd). apply list_elem_of_filter in Ho as [_ Ho].
    apply andb_true_iff in Hd as [Hn%bool_decide_eq_true _]. cbn in Hn. by rewrite <- (Huniq o Ho Hn). }
  go_bool. assert (Hbase : bo_Kind disk = "block" ∧ bo_SizeBytes disk mod linuxSysfsSectorBytes = 0) by done.
  split; [|split; [done|split; [done|apply (nc_good _ _ _ Hm)]]].
  destruct (VolumeProbe.rs_Status result == "unsupported-table") eqn:Hst.
  { injection H as <-. split; try done. set_solver. }
  destruct (VolumeProbe.rs_PartitionTable result) as [t|] eqn:Ht.
  - apply refuse_Ok in H as [_ H]. destruct (VolumeProbe.tb_Scheme t == "dos") eqn:Hdos; [injection H as <-; split; try done; set_solver|].
    apply refuse_Ok in H as [Hsch H]. apply res_bind_Ok in H as (st & Hst' & H). apply refuse_Ok in H as [Hsz [= <-]].
    apply orb_false_iff in Hsch as [Hsch _]. apply orb_false_iff in Hsch as [Hsch%negb_false_iff%bool_decide_eq_true _].
    apply negb_false_iff, Nat.eqb_eq in Hsz.
    assert (Hrange : Forall VolumeProbe.partition_range (VolumeProbe.tb_Partitions t)) by (by apply (VolumeProbe.vr_table _ Hvr)).
    destruct (bind_loop disk inv m 0 (∅, []) _ st Hm Hrange Hst') as (kbs & E1 & HF & E2 & HNp). cbn in E1, E2. rewrite union_empty_r_L in E2.
    split; try done; [|set_solver]. intros _. exists t. cbn [db_Scheme db_TableID db_Partitions]. rewrite E1. split_and!; try done.
    intros o Ho.
    assert (Hin : bo_PartitionNumber o ∈ VolumeProbe.pt_Number <$> VolumeProbe.tb_Partitions t).
    { rewrite (size_children _ _ _ Hm), E2, size_list_to_set in Hsz by done.
      assert (Hp : VolumeProbe.pt_Number <$> VolumeProbe.tb_Partitions t ≡ₚ bo_PartitionNumber <$> children disk inv).
      { apply submseteq_length_Permutation; [|by rewrite length_fmap, Hsz]. apply NoDup_submseteq; [done|].
        intros n (p & -> & (j & Hj)%list_elem_of_lookup_1)%list_elem_of_fmap. destruct (Forall2_lookup_l _ _ _ _ _ HF Hj) as (kb & _ & k & Hk & Hbn & _).
        apply list_elem_of_fmap. by exists k. }
      rewrite Hp. apply list_elem_of_fmap. by exists o. }
    apply list_elem_of_fmap in Hin as (p & Ep & (j & Hj)%list_elem_of_lookup_1).
    destruct (Forall2_lookup_l _ _ _ _ _ HF Hj) as (kb & Hkb & k & Hk & Hb). exists kb. split; [by eapply list_elem_of_lookup_2|].
    destruct Hb as (Hbn & _ & _ & _ & ->). cbn. split; [congruence|]. f_equal.
    eapply (NoDup_fmap_inj bo_PartitionNumber (children disk inv)); [apply Hm|done|done|congruence].
  - apply refuse_Ok in H as [Hz [= <-]]. apply negb_false_iff, Nat.eqb_eq in Hz. rewrite (size_children _ _ _ Hm) in Hz.
    split; try done; [|set_solver]. intros _. split; [|done]. by destruct (children disk inv).
Qed.

(** ** Classification *)
#[export] Instance binding_positions_spec : PositionsSpec (list diskPartitionBinding) (nat * nat) kernelPartitionBinding.
Proof.
  split; cbn.
  - intros f [i j] l. cbn. rewrite list_lookup_alter_eq. destruct (l !! i) as [b|]; [|done]. cbn. apply list_lookup_alter_eq.
  - intros f [i j] [i' j'] l Hne. cbn. destruct (decide (i = i')) as [->|]; [|by rewrite list_lookup_alter_ne].
    rewrite list_lookup_alter_eq. destruct (l !! i') as [b|]; [|done]. cbn. apply list_lookup_alter_ne. congruence.
Qed.
Definition disk_key (b : diskPartitionBinding) : option string := if is_gpt b then Some (db_TableID b) else None.
(** disks whose table is of another scheme, and disks without a table *)
Definition is_unsupported (b : diskPartitionBinding) : bool := db_TableDisposition b == partitionTableUnsupported.
Definition is_no_table (b : diskPartitionBinding) : bool := db_TableDisposition b == partitionTableNoTable.
Definition uuid_key (p : kernelPartitionBinding) : option string := Some (kb_UUID p).
(** the binding with every status set to its first value *)
Definition started (b : diskPartitionBinding) : diskPartitionBinding :=
  if is_gpt b then with_TableIDStatus gptIdentitySingletonObserved (with_Partitions b (with_UUIDStatus gptIdentitySingletonObserved <$> db_Partitions b)) else b.
Definition one (P : bool) : Z := if P then 1 else 0.
Definition count (P : diskPartitionBinding → bool) (l : list diskPartitionBinding) : Z := len (filter (λ b, P b = true) l).

Lemma part_loop diskIndex i out b st todo st' : length out = diskIndex →
  grouped uuid_key (out ++ [with_Partitions b (ps_out st)]) (ps_owners st) → for_range (λ _, part_step diskIndex) i st todo = Ok st' →
  ps_out st' = ps_out st ++ (with_UUIDStatus gptIdentitySingletonObserved <$> todo)
  ∧ grouped uuid_key (out ++ [with_Partitions b (ps_out st')]) (ps_owners st').
Proof.
  intros Hlen. revert i st. induction todo as [|p todo IH]; intros i st Hg; cbn [for_range]; [intros [= <-]; by rewrite app_nil_r|].
  destruct (part_step diskIndex st p) as [s1|] eqn:Hs; [|done]. unfold part_step in Hs. apply refuse_Ok in Hs as [_ [= <-]]. intros H.
  apply IH in H as [E Hg']; cbn [ps_out ps_owners] in *; [split; [by rewrite E, <- app_assoc|done]|].
  apply (grouped_add uuid_key _ (out ++ [with_Partitions b (ps_out st ++ [with_UUIDStatus gptIdentitySingletonObserved p])]) _ (diskIndex, length (ps_out st))
           (with_UUIDStatus gptIdentitySingletonObserved p)) in Hg; [exact Hg| | |]; cbn [pos_lookup binding_positions fst snd].
  - rewrite list_lookup_middle by done. cbn. by apply lookup_ge_None.
  - rewrite list_lookup_middle by done. cbn. by rewrite lookup_app_r, Nat.sub_diag by lia.
  - intros [i' j'] Hne. cbn. destruct (decide (i' = diskIndex)) as [->|Hi].
    + rewrite !list_lookup_middle by done. cbn. destruct (decide (j' < length (ps_out st))%nat); [by rewrite lookup_app_l|].
      rewrite !lookup_ge_None_2; [done|lia|]. rewrite length_app. simpl. assert (j' ≠ length (ps_out st)) by congruence. lia.
    + destruct (decide (i' < length out)%nat); [by rewrite !lookup_app_l|]. rewrite !lookup_ge_None_2; [done| |]; rewrite length_app; simpl; lia.
Qed.

Record classified (done : list diskPartitionBinding) (st : classify_state) : Prop := {
  cd_out : cs_out st = started <$> done;
  cd_disks : grouped disk_key (cs_out st) (cs_diskOwners st);
  cd_parts : grouped uuid_key (cs_out st) (cs_partOwners st);
  cd_plain : Forall (λ b, is_gpt b = false → db_Partitions b = []) done;
  cd_counts : cs_gpt st = count is_gpt done ∧ cs_unsupported st = count is_unsupported done ∧ cs_noTable st = count is_no_table done
              ∧ count is_unsupported done + count is_no_table done = len done - count is_gpt done }.
Lemma disk_key_started b : disk_key (started b) = disk_key b.
Proof. unfold started. destruct (is_gpt b) eqn:E; [|done]. unfold disk_key, is_gpt in *. cbn. by rewrite E. Qed.
(** A disk without partitions adds no position. *)
Lemma grouped_empty_disk out b m : db_Partitions b = [] → grouped uuid_key out m → grouped uuid_key (out ++ [b]) m.
Proof.
  intros Hb. apply grouped_same. intros [i j]. cbn. destruct (decide (i < length out)%nat); [by rewrite lookup_app_l|].
  rewrite (lookup_ge_None_2 out) by lia. destruct (decide (i = length out)) as [->|]; [by rewrite list_lookup_middle by done; cbn; rewrite Hb|].
  rewrite lookup_ge_None_2; [done|]. rewrite length_app. simpl. lia.
Qed.
Lemma count_snoc P l b : count P (l ++ [b]) = count P l + if P b then 1 else 0.
Proof. unfold count, len. rewrite filter_app, length_app, filter_cons, filter_nil. destruct (P b); [rewrite decide_True by done|rewrite decide_False by done]; simpl; lia. Qed.
Lemma classify_step_Ok done st b st' : classified done st → classify_step st b = Ok st' → classified (done ++ [b]) st'.
Proof.
  intros [Ho Hd Hp Hpl (Hc1 & Hc2 & Hc3 & Hc4)] H. unfold classify_step in H. apply refuse_Ok in H as [_ H]. apply refuse_Ok in H as [_ H].
  assert (Hlen : len (done ++ [b]) = len done + 1) by (unfold len; rewrite length_app; simpl; lia).
  assert (Hplain : is_gpt b = false → no_identity b = true → ∀ st1, cs_out st1 = cs_out st ++ [b] → cs_diskOwners st1 = cs_diskOwners st →
    cs_partOwners st1 = cs_partOwners st → cs_gpt st1 = cs_gpt st → cs_unsupported st1 = cs_unsupported st + one (is_unsupported b) →
    cs_noTable st1 = cs_noTable st + one (is_no_table b) → one (is_unsupported b) + one (is_no_table b) = 1 → classified (done ++ [b]) st1).
  { intros Hg Hn st1 E1 E2 E3 E4 E5 E6 E7.
    assert (Hnil : db_Partitions b = []).
    { unfold no_identity in Hn. apply andb_true_iff in Hn as [_ Hn%Z.eqb_eq]. unfold len in Hn. by destruct (db_Partitions b). }
    assert (Hst : started b = b) by (unfold started; by rewrite Hg). split.
    - rewrite E1, Ho, fmap_app. cbn. by rewrite Hst.
    - rewrite E1, E2. pose proof (grouped_snoc disk_key _ _ b Hd) as Hs. unfold disk_key in Hs at 2. by rewrite Hg in Hs.
    - rewrite E1, E3. by apply grouped_empty_disk.
    - apply Forall_app. split; [done|]. by repeat constructor.
    - rewrite E4, E5, E6, Hlen, !count_snoc, Hg. unfold one in *. split_and!; lia. }
  destruct (db_TableDisposition b == partitionTableNoTable) eqn:D1.
  { apply bool_decide_eq_true in D1. apply refuse_Ok in H as [Hn%negb_false_iff [= <-]]. 
    assert (Hk : is_gpt b = false ∧ is_unsupported b = false ∧ is_no_table b = true)
      by (unfold is_gpt, is_unsupported, is_no_table; rewrite D1; by vm_compute).
    destruct Hk as (Hg & Hu & Ht). apply Hplain; rewrite ?Hu, ?Ht; cbn [one cs_out cs_diskOwners cs_partOwners cs_gpt cs_unsupported cs_noTable]; done || lia. }
  destruct (db_TableDisposition b == partitionTableUnsupported) eqn:D2.
  { apply bool_decide_eq_true in D2. apply refuse_Ok in H as [Hn%negb_false_iff [= <-]]. 
    assert (Hk : is_gpt b = false ∧ is_unsupported b = true ∧ is_no_table b = false)
      by (unfold is_gpt, is_unsupported, is_no_table; rewrite D2; by vm_compute).
    destruct Hk as (Hg & Hu & Ht). apply Hplain; rewrite ?Hu, ?Ht; cbn [one cs_out cs_diskOwners cs_partOwners cs_gpt cs_unsupported cs_noTable]; done || lia. }
  destruct (db_TableDisposition b == partitionTableGPT) eqn:D3; [|done]. assert (Hg : is_gpt b = true) by done.
  apply refuse_Ok in H as [_ H]. apply res_bind_Ok in H as (ps & Hps & [= <-]).
  apply (part_loop _ 0 (cs_out st) b) in Hps as [E Hgp]; [|done|cbn; by apply grouped_empty_disk]. cbn [ps_out app] in E.
  assert (Hs : started b = with_TableIDStatus gptIdentitySingletonObserved (with_Partitions b (ps_out ps))) by (unfold started; by rewrite Hg, E).
  split; cbn [cs_out cs_diskOwners cs_partOwners cs_gpt cs_unsupported cs_noTable].
  - rewrite Ho, fmap_app. cbn. by rewrite Hs.
  - rewrite <- Hs. pose proof (grouped_snoc disk_key _ _ (started b) Hd) as Hk. rewrite disk_key_started in Hk. unfold disk_key in Hk at 2. by rewrite Hg in Hk.
  - eapply grouped_same; [|exact Hgp]. intros [i j]. cbn. destruct (decide (i < length (cs_out st))%nat); [by rewrite !lookup_app_l|].
    destruct (decide (i = length (cs_out st))) as [->|]; [by rewrite !list_lookup_middle|]. rewrite !lookup_ge_None_2; [done| |]; rewrite length_app; simpl; lia.
  - apply Forall_app. split; [done|]. constructor; [congruence|constructor].
  - rewrite Hlen, !count_snoc, Hg. assert (Hu : is_unsupported b = false) by done. assert (Ht : is_no_table b = false) by done.
    rewrite Hu, Ht. split_and!; lia.
Qed.
Lemma classify_loop i done st todo st' : classified done st → for_range (λ _, classify_step) i st todo = Ok st' → classified (done ++ todo) st'.
Proof.
  revert i done st. induction todo as [|b todo IH]; intros i done st Hc; cbn [for_range]; [intros [= <-]; by rewrite app_nil_r|].
  destruct (classify_step st b) as [s1|] eqn:Hs; [|done]. replace (done ++ b :: todo) with ((done ++ [b]) ++ todo) by (by rewrite <- app_assoc).
  apply IH. by eapply classify_step_Ok.
Qed.

(** ** The candidates of a discovery *)
Lemma devices_by_name inv n g : NoDup (bo_Name <$> inv) →
  fold_left (λ m d, <[od_Name d := od_Generation d]> m) (device_of <$> filter (λ o, whole o = true) inv) (∅ : gmap string BlockDeviceGeneration) !! n = Some g →
  ∃ o, o ∈ inv ∧ bo_Name o = n ∧ generation_of o = g.
Proof.
  intros HN. rewrite (fold_insert_lookup od_Name od_Generation), lookup_empty.
  - intros [(d & (o & -> & [_ Ho]%list_elem_of_filter)%list_elem_of_fmap & <- & <-)|[_ ?]]; [by exists o|done].
  - rewrite <- list_fmap_compose. eapply sublist_NoDup; [exact HN|]. apply fmap_sublist, sublist_filter.
Qed.
(** a candidate, its answer and the binding made of them *)
Definition candidate_bound (inv : list blockObservation) (c : storageDiscoveryCandidate) (r : VolumeProbe.Result) (b : diskPartitionBinding) : Prop :=
  ∃ disk, bo_Name disk = sc_Name c ∧ generation_of disk = sc_Generation c ∧ correlated inv disk r b.
Lemma candidate_loop current inv i st items st' : ss_Observations current = Some inv → NoDup (bo_Name <$> inv) →
  Forall (λ item, VolumeProbe.valid_result item.2) items →
  for_range (λ _, candidate_step current (device_of <$> filter (λ o, whole o = true) inv)) i st items = Ok st' →
  ∃ bs, st'.2 = st.2 ++ bs ∧ Forall2 (λ item b, candidate_bound inv item.1.1 item.2 b) items bs.
Proof.
  intros Hinv HN. revert i st. induction items as [|[[c s] r] items IH]; intros i st HV; cbn [for_range].
  - intros [= <-]. exists []. rewrite app_nil_r. split; [done|constructor].
  - apply Forall_cons in HV as [Hr HV]. destruct (candidate_step _ _ st _) as [s1|] eqn:Hs; [|done]. intros H.
    apply IH in H as (bs & E & HF); [|done]. unfold candidate_step in Hs. rewrite Hinv in Hs. cbn [elems default from_option id] in Hs.
    apply refuse_Ok in Hs as [Hg Hs]. apply orb_false_iff in Hg as [Hg _]. apply orb_false_iff in Hg as [_ Hg%negb_false_iff%bool_decide_eq_true].
    apply devices_by_name in Hg as (o & Ho & Hn & Hgen); [|done].
    destruct (by_name inv !! sc_Name c) as [disk|] eqn:Hd; [|done]. apply by_name_lookup in Hd as [Hdi Hdn]; [|done].
    apply res_bind_Ok in Hs as (b & Hb & [= <-]). apply correlate_Ok in Hb as (Hc & _ & Hu & _); [|done].
    assert (o = disk) as -> by (apply Hu; [done|congruence]).
    exists (b :: bs). rewrite E. cbn [snd]. rewrite <- app_assoc. split; [done|]. constructor; [|done]. by exists disk.
Qed.
Lemma zip_results {A B C D} (P : A → C → D → Prop) (l : list A) (k : list B) (r : list C) (d : list D) : length l = length k → length r = length l →
  Forall2 (λ item b, P item.1.1 item.2 b) (zip (zip l k) r) d → Forall3 P l r d.
Proof.
  revert k r d. induction l as [|a l IH]; intros [|x k] [|y r] d; simpl; try done; intros H1 H2 HF.
  - apply Forall2_nil_inv_l in HF as ->. constructor.
  - apply Forall2_cons_inv_l in HF as (b & d' & Hb & HF & ->). constructor; [done|]. apply (IH k); [lia|lia|done].
Qed.
Lemma correlate_candidates_Ok discovery current results bs : Forall VolumeProbe.valid_result results →
  correlateCandidatePartitionTables discovery current results = Ok bs →
  ∃ inv, ss_Observations current = Some inv ∧ Forall3 (candidate_bound inv) (td_candidates discovery) results bs
  ∧ sound_plan current (td_mounts discovery) (mkPlan (td_candidates discovery) (td_excluded discovery) (td_hasAmbiguousIdentity discovery) (td_identityEvidenceIncomplete discovery)).
Proof.
  intros HV. unfold correlateCandidatePartitionTables. intros [Hg H]%refuse_Ok.
  apply orb_false_iff in Hg as [Hg Hl2%negb_false_iff%Z.eqb_eq]. apply orb_false_iff in Hg as [_ Hl1%negb_false_iff%Z.eqb_eq].
  apply res_bind_Ok in H as (devices & Hd%redact_Ok & H). apply complete_set_Ok in Hd as (inv & Hinv & _ & HN & -> & _).
  apply res_bind_Ok in H as (plan & Hplan & H). apply refuse_Ok in H as [Hsame%negb_false_iff H]. apply res_bind_Ok in H as (st & Hst & [= <-]).
  apply candidate_loop with (inv := inv) in Hst as (bs & E & HF); [|done|done|].
  2:{ apply Forall_forall. intros [x r] Hx. cbn. rewrite Forall_forall in HV. apply HV. apply list_elem_of_lookup in Hx as (j & Hj).
      apply lookup_zip_Some in Hj as [_ Hj]. by eapply list_elem_of_lookup_2. }
  cbn in E. rewrite E. exists inv. split; [done|]. unfold len in Hl1, Hl2. split; [eapply zip_results; [| |exact HF]; lia|].
  unfold sameStorageDiscoveryPlan in Hsame. apply andb_true_iff in Hsame as [Hsame H4%eqb_prop].
  apply andb_true_iff in Hsame as [Hsame H3%eqb_prop]. apply andb_true_iff in Hsame as [H1%bool_decide_eq_true H2%bool_decide_eq_true].
  rewrite <- H1, <- H2, <- H3, <- H4. destruct plan. by apply plan_sound.
Qed.

(** ** What marking does to a binding *)
(** the binding without its statuses *)
Definition plain (b : diskPartitionBinding) : diskPartitionBinding := with_TableIDStatus "" (with_Partitions b (with_UUIDStatus "" <$> db_Partitions b)).
Lemma plain_started b : plain (started b) = plain b.
Proof. unfold started. destruct (is_gpt b); [|done]. destruct b. unfold plain, with_TableIDStatus, with_Partitions. cbn. by rewrite <- list_fmap_compose. Qed.
(** Marking partitions changes their statuses only. *)
Lemma mark_parts_plain {K} s (gs : list (K * list (nat * nat))) (l : list diskPartitionBinding) :
  (λ b, (db_TableIDStatus b, plain b)) <$> mark_groups (with_UUIDStatus s) gs l = (λ b, (db_TableIDStatus b, plain b)) <$> l.
Proof.
  assert (H1 : ∀ p l, (λ b, (db_TableIDStatus b, plain b)) <$> pos_alter (Positions := binding_positions) (with_UUIDStatus s) p l
                       = (λ b, (db_TableIDStatus b, plain b)) <$> l).
  { intros [i j] k. cbn. apply list_eq. intros n. rewrite !list_lookup_fmap. destruct (decide (n = i)) as [->|Hn]; [|by rewrite list_lookup_alter_ne].
    rewrite list_lookup_alter_eq. destruct (k !! i) as [b|]; [|done]. cbn. do 2 f_equal. unfold plain, with_TableIDStatus, with_Partitions. cbn. f_equal.
    apply list_eq. intros m. rewrite !list_lookup_fmap. destruct (decide (m = j)) as [->|Hm]; [|by rewrite list_lookup_alter_ne].
    rewrite list_lookup_alter_eq. by destruct (db_Partitions b !! j). }
  unfold mark_groups. revert l. induction gs as [|g gs IH]; intros l; cbn [fold_left]; [done|]. rewrite IH. case_match; [done|].
  unfold mark_all. generalize g.2 as js. intros js. revert l. induction js as [|j js IHj]; intros l; cbn [fold_left]; [done|]. by rewrite IHj, H1.
Qed.

(** One binding of the result, for the binding it comes from. *)
Record judged (bs : list diskPartitionBinding) (i : nat) (b b' : diskPartitionBinding) : Prop := {
  jd_plain : plain b' = plain b;
  jd_disk : is_gpt b = true → (shared disk_key bs i → db_TableIDStatus b' = gptIdentityAmbiguousObserved)
                             ∧ (¬ shared disk_key bs i → db_TableIDStatus b' = gptIdentitySingletonObserved);
  jd_none : is_gpt b = false → db_Partitions b' = [];
  jd_parts : ∀ j p, db_Partitions b' !! j = Some p →
    (shared uuid_key bs (i, j) → kb_UUIDStatus p = gptIdentityAmbiguousObserved) ∧ (¬ shared uuid_key bs (i, j) → kb_UUIDStatus p = gptIdentitySingletonObserved) }.
Lemma started_keys bs (p : nat * nat) : Forall (λ b, is_gpt b = false → db_Partitions b = []) bs →
  (λ a, uuid_key a) <$> pos_lookup p (started <$> bs) = (λ a, uuid_key a) <$> pos_lookup p bs.
Proof.
  intros HF. destruct p as [i j]. cbn. rewrite list_lookup_fmap. destruct (bs !! i) as [b|]; [|done]. cbn. unfold started.
  destruct (is_gpt b); [|done]. cbn. rewrite list_lookup_fmap. by destruct (db_Partitions b !! j).
Qed.
Lemma classify_Ok bs o : classifyGPTPartitionIdentities (Some bs) = Ok o →
  ∃ out, gs_Bindings o = append_nil out ∧ length out = length bs ∧ (∀ i b b', bs !! i = Some b → out !! i = Some b' → judged bs i b b')
  ∧ gs_CandidateCount o = len bs ∧ gs_GPTDiskCount o = count is_gpt bs ∧ gs_UnsupportedTableCount o = count is_unsupported bs ∧ gs_NoTableCount o = count is_no_table bs
  ∧ count is_gpt bs + count is_unsupported bs + count is_no_table bs = len bs ∧ gs_Coverage o = coverage (len bs) (count is_gpt bs).
Proof.
  unfold classifyGPTPartitionIdentities. intros [_ H]%refuse_Ok. apply res_bind_Ok in H as (st & Hst & [= <-]). cbn [elems default from_option id] in Hst.
  apply (classify_loop 0 []) in Hst; [|split; [done|by apply grouped_nil|by apply grouped_nil|constructor|done]]. cbn [app] in Hst.
  destruct Hst as [Ho Hd Hp Hpl (Hc1 & Hc2 & Hc3 & Hc4)]. rewrite Ho in *. cbn [gs_Bindings gs_CandidateCount gs_GPTDiskCount gs_UnsupportedTableCount gs_NoTableCount gs_Coverage].
  set (l1 := mark_groups (with_TableIDStatus _) _ _). set (l2 := mark_groups _ _ l1).
  pose proof (mark_parts_plain gptIdentityAmbiguousObserved (map_to_list (cs_partOwners st)) l1) as Hpp. fold l2 in Hpp.
  assert (Hlen : length l2 = length bs).
  { apply (f_equal length) in Hpp. rewrite !length_fmap in Hpp. rewrite Hpp. unfold l1. by rewrite length_mark_groups, length_fmap. }
  exists l2. rewrite Hc1. split_and!; try done; [|lia]. intros i b b' Hb Hb'.
  apply (f_equal (.!! i)) in Hpp. rewrite !list_lookup_fmap, Hb' in Hpp. destruct (l1 !! i) as [b1|] eqn:Hb1; [|done]. apply (inj Some) in Hpp. cbv beta in Hpp.
  pose proof (f_equal fst Hpp) as Ets. pose proof (f_equal snd Hpp) as Epl. cbn [fst snd] in Ets, Epl. clear Hpp.
  pose proof (mark_exact disk_key (with_TableIDStatus gptIdentityAmbiguousObserved) (started <$> bs) (started <$> bs) (cs_diskOwners st) i b1 (λ a, eq_refl) Hd Hb1) as (b0 & Hb0 & Hy & Hn).
  cbn in Hb0. rewrite list_lookup_fmap, Hb in Hb0. injection Hb0 as <-.
  assert (Hsd : shared disk_key (started <$> bs) i ↔ shared disk_key bs i).
  { assert (Hk : ∀ p, (λ a, disk_key a) <$> pos_lookup p (started <$> bs) = (λ a, disk_key a) <$> pos_lookup p bs).
    { intros p. cbn. rewrite list_lookup_fmap. destruct (bs !! p); [cbn; by rewrite disk_key_started|done]. }
    split; apply shared_same; [done|]. intros p. by rewrite Hk. }
  assert (Hsp : ∀ p, shared uuid_key (started <$> bs) p ↔ shared uuid_key bs p).
  { intros p. split; apply shared_same; intros q; [by apply started_keys|symmetry; by apply started_keys]. }
  assert (Hb1p : db_Partitions b1 = db_Partitions (started b) ∧ plain b1 = plain (started b)).
  { destruct (grouped_decide disk_key _ _ i Hd) as [Hs|Hs]; [rewrite (Hy Hs)|rewrite (Hn Hs)]; done. }
  destruct Hb1p as [Hb1p Hb1q]. split.
  - rewrite Epl, Hb1q. apply plain_started.
  - intros Hg. rewrite <- Hsd, Ets. split; intros Hs; [by rewrite (Hy Hs)|]. rewrite (Hn Hs). unfold started. by rewrite Hg.
  - intros Hg. rewrite Forall_lookup in Hpl. assert (Hl : length (db_Partitions b') = length (db_Partitions b1)).
    { apply (f_equal (λ x, length (db_Partitions x))) in Epl. cbn in Epl. by rewrite !length_fmap in Epl. }
    rewrite Hb1p in Hl. unfold started in Hl. rewrite Hg, (Hpl i b Hb Hg) in Hl. by apply nil_length_inv.
  - intros j p Hj. rewrite <- Hsp.
    destruct (mark_exact uuid_key (with_UUIDStatus gptIdentityAmbiguousObserved) (started <$> bs) l1 (cs_partOwners st) (i, j) p) as (a & Ha & Hya & Hna); [done|done| |].
    { fold l2. cbn. rewrite Hb'. exact Hj. }
    cbn in Ha. rewrite Hb1 in Ha. cbn in Ha. rewrite Hb1p in Ha. split; intros Hs; [by rewrite (Hya Hs)|]. rewrite (Hna Hs).
    unfold started in Ha. destruct (is_gpt b) eqn:Hg; [cbn in Ha; rewrite list_lookup_fmap in Ha; by apply fmap_Some in Ha as (x & _ & ->)|].
    rewrite Forall_lookup in Hpl. by rewrite (Hpl i b Hb Hg) in Ha.
Qed.

(** ** The summary *)
Definition total {A} (f : A → Z) (l : list A) : Z := foldr (λ a z, f a + z) 0 l.
Lemma total_cons {A} (f : A → Z) a l : total f (a :: l) = f a + total f l.
Proof. done. Qed.
Lemma total_bounds {A} (f g : A → Z) l : (∀ a, a ∈ l → 0 ≤ f a ≤ g a) → 0 ≤ total f l ≤ total g l.
Proof.
  induction l as [|a l IH]; intros H; [done|]. rewrite !total_cons. assert (0 ≤ f a ≤ g a) by (apply H; set_solver).
  assert (0 ≤ total f l ≤ total g l) by (apply IH; set_solver). lia.
Qed.
Lemma total_zero {A} (f : A → Z) l : (∀ a, a ∈ l → 0 ≤ f a) → total f l = 0 ↔ ∀ a, a ∈ l → f a = 0.
Proof.
  induction l as [|a l IH]; intros H; [set_solver|]. rewrite total_cons. assert (0 ≤ f a) by (apply H; set_solver).
  assert (Ht : 0 ≤ total f l) by (apply (total_bounds f f); intros x Hx; split; [apply H; set_solver|lia]).
  assert (IH' : total f l = 0 ↔ ∀ a, a ∈ l → f a = 0) by (apply IH; set_solver). split.
  - intros E x [->|Hx]%elem_of_cons; [lia|]. apply IH'; [lia|done].
  - intros Hz. rewrite (Hz a) by set_solver. apply IH'. set_solver.
Qed.
Definition ambiguous_part (p : kernelPartitionBinding) : bool := kb_UUIDStatus p == gptIdentityAmbiguousObserved.
Definition parts_of (b : diskPartitionBinding) : Z := if is_gpt b then len (db_Partitions b) else 0.
Definition ambiguous_disk (b : diskPartitionBinding) : Z := one (is_gpt b && (db_TableIDStatus b == gptIdentityAmbiguousObserved)).
Definition ambiguous_parts (b : diskPartitionBinding) : Z := if is_gpt b then total (λ p, one (ambiguous_part p)) (db_Partitions b) else 0.
Lemma count_fold l a b c : fold_left count_step l (a, b, c) = (a + total parts_of l, b + total ambiguous_disk l, c + total ambiguous_parts l).
Proof.
  revert a b c. induction l as [|x l IH]; intros a b c; cbn [fold_left]; [cbn; by rewrite !Z.add_0_r|]. rewrite !total_cons.
  assert (Hx : count_step (a, b, c) x = (a + parts_of x, b + ambiguous_disk x, c + ambiguous_parts x)).
  { unfold count_step, parts_of, ambiguous_disk, ambiguous_parts. destruct (is_gpt x); [|cbn; by rewrite !Z.add_0_r]. cbn [andb].
    generalize (db_Partitions x) as ps.
    assert (Hf : ∀ ps a b c, fold_left (λ (st : Z * Z * Z) p, (st.1.1 + 1, st.1.2, if kb_UUIDStatus p == gptIdentityAmbiguousObserved then st.2 + 1 else st.2)) ps (a, b, c)
                  = (a + len ps, b, c + total (λ p, one (ambiguous_part p)) ps)).
    { induction ps as [|p ps IHp]; intros a' b' c'; cbn [fold_left]; [unfold len; simpl; by rewrite !Z.add_0_r|].
      rewrite IHp, total_cons. unfold len. cbn [length fst snd].
      assert (Ho : (if kb_UUIDStatus p == gptIdentityAmbiguousObserved then c' + 1 else c') = c' + one (ambiguous_part p))
        by (unfold ambiguous_part, one; case_bool_decide; lia).
      rewrite Ho. f_equal; [f_equal|]; lia. }
    intros ps. rewrite Hf. do 2 f_equal. unfold one. case_bool_decide; lia. }
  rewrite Hx, IH. f_equal; [f_equal|]; lia.
Qed.
Lemma count_total l : count is_gpt l = total (λ b, one (is_gpt b)) l.
Proof. induction l as [|b l IH]; [done|]. rewrite total_cons, <- IH. unfold count, len. rewrite filter_cons. destruct (is_gpt b); [rewrite decide_True by done|rewrite decide_False by done]; cbn [one length]; lia. Qed.
Lemma total_ext {A B} (f : A → Z) (g : B → Z) l k : Forall2 (λ a b, f a = g b) l k → total f l = total g k.
Proof. induction 1 as [|a b l k H _ IH]; [done|]. cbn. rewrite H. f_equal. exact IH. Qed.
Lemma total_const {A} z (l : list A) : total (λ _, z) l = z * len l.
Proof. unfold len. induction l as [|a l IH]; [cbn; lia|]. rewrite total_cons, IH. cbn [length]. lia. Qed.
Lemma plain_disposition b b' : plain b' = plain b → is_gpt b' = is_gpt b ∧ length (db_Partitions b') = length (db_Partitions b).
Proof.
  intros E. unfold is_gpt. pose proof (f_equal db_TableDisposition E) as E1. pose proof (f_equal (λ x, length (db_Partitions x)) E) as E2.
  cbn in E1, E2. rewrite !length_fmap in E2. by rewrite E1.
Qed.

(** The counts of the judged bindings, by the bindings they come from. *)
Lemma judged_totals bs out : length out = length bs → (∀ i b b', bs !! i = Some b → out !! i = Some b' → judged bs i b b') →
  total parts_of out = total parts_of bs
  ∧ 0 ≤ total ambiguous_disk out ≤ count is_gpt bs ∧ 0 ≤ total ambiguous_parts out ≤ total parts_of bs
  ∧ (total ambiguous_disk out = 0 ↔ ∀ i, ¬ shared disk_key bs i) ∧ (total ambiguous_parts out = 0 ↔ ∀ p, ¬ shared uuid_key bs p).
Proof.
  intros Hlen Hj.
  assert (HF : Forall2 (λ b' b, is_gpt b' = is_gpt b ∧ length (db_Partitions b') = length (db_Partitions b)) out bs).
  { apply Forall2_same_length_lookup. split; [done|]. intros i b' b Hb' Hb. apply plain_disposition, (Hj i b b' Hb Hb'). }
  assert (Hp : total parts_of out = total parts_of bs).
  { apply total_ext. eapply Forall2_impl; [exact HF|]. intros b' b [E1 E2]. unfold parts_of, len. by rewrite E1, E2. }
  assert (Hg : count is_gpt bs = total (λ b, one (is_gpt b)) out).
  { rewrite count_total. symmetry. apply total_ext. eapply Forall2_impl; [exact HF|]. intros b' b [E1 _]. by rewrite E1. }
  assert (Hone : ∀ b, 0 ≤ one b ≤ 1) by (intros []; cbn; lia).
  assert (Hps : ∀ b, 0 ≤ ambiguous_parts b ≤ parts_of b).
  { intros b. unfold ambiguous_parts, parts_of. destruct (is_gpt b); [|lia]. rewrite <- (Z.mul_1_l (len _)), <- total_const. apply total_bounds. auto. }
  assert (Hlook : ∀ i b, bs !! i = Some b → ∃ b', b' ∈ out ∧ out !! i = Some b' ∧ judged bs i b b' ∧ is_gpt b' = is_gpt b ∧ length (db_Partitions b') = length (db_Partitions b)).
  { intros i b Hb. destruct (Forall2_lookup_r _ _ _ _ _ HF Hb) as (b' & Hb' & Hd). exists b'. split_and!; [by eapply list_elem_of_lookup_2|done|eauto|apply Hd|apply Hd]. }
  split_and!; try done.
  - apply (total_bounds ambiguous_disk (λ b, one (is_gpt b))). intros b _. unfold ambiguous_disk. destruct (is_gpt b); cbn; [apply Hone|lia].
  - rewrite Hg. apply total_bounds. intros b _. unfold ambiguous_disk. destruct (is_gpt b); cbn; [apply Hone|lia].
  - apply (total_bounds ambiguous_parts parts_of). auto.
  - rewrite <- Hp. apply total_bounds. auto.
  - rewrite total_zero by (intros; apply Hone). split.
    + intros Hz i (j & a & b & k & Hne & Ha & Hb & Hka & Hkb). destruct (Hlook i a Ha) as (a' & Hin & _ & [_ Hd _ _] & Hga & _). specialize (Hz a' Hin).
      unfold disk_key in Hka. destruct (is_gpt a) eqn:Ega; [|done]. unfold ambiguous_disk in Hz. rewrite Hga, (proj1 (Hd eq_refl)) in Hz; [done|].
      exists j, a, b, k. unfold disk_key. rewrite Ega. done.
    + intros Hn b' (i & Hi)%list_elem_of_lookup. destruct (Forall2_lookup_l _ _ _ _ _ HF Hi) as (b & Hb & Hgb & _).
      pose proof (jd_disk _ _ _ _ (Hj i b b' Hb Hi)) as Hd. unfold ambiguous_disk. destruct (is_gpt b') eqn:Eg; [|done]. symmetry in Hgb. by rewrite (proj2 (Hd Hgb) (Hn i)).
  - rewrite total_zero by (intros; apply Hps). split.
    + intros Hz [i x] ([j y] & a & b & k & Hne & Ha & Hb & Hka & Hkb). cbn in Ha. destruct (bs !! i) as [d|] eqn:Hd; [|done]. cbn in Ha.
      destruct (Hlook i d Hd) as (d' & Hin & Hd' & [_ _ Hnone Hparts] & Hgd & Hld). specialize (Hz d' Hin). unfold ambiguous_parts in Hz.
      destruct (is_gpt d) eqn:Egd; [|rewrite (Hnone eq_refl) in Hld; symmetry in Hld; apply nil_length_inv in Hld; by rewrite Hld in Ha].
      rewrite Hgd in Hz. rewrite total_zero in Hz by (intros; apply Hone).
      destruct (lookup_lt_is_Some_2 (db_Partitions d') x) as [p Hp']; [rewrite Hld; by eapply lookup_lt_Some|].
      assert (Hs : shared uuid_key bs (i, x)). { exists (j, y), a, b, k. cbn. rewrite Hd. done. }
      specialize (Hz p (list_elem_of_lookup_2 _ _ _ Hp')). unfold ambiguous_part in Hz. by rewrite (proj1 (Hparts x p Hp') Hs) in Hz.
    + intros Hn b' (i & Hi)%list_elem_of_lookup. destruct (Forall2_lookup_l _ _ _ _ _ HF Hi) as (b & Hb & _ & _).
      pose proof (jd_parts _ _ _ _ (Hj i b b' Hb Hi)) as Hd. unfold ambiguous_parts. destruct (is_gpt b'); [|done]. apply total_zero; [intros; apply Hone|].
      intros p (x & Hx)%list_elem_of_lookup. unfold ambiguous_part. by rewrite (proj2 (Hd x p Hx) (Hn (i, x))).
Qed.

Lemma limitations_ok : forallb limitation_ok (zip storageGPTObservationLimitations storageGPTObservationLimitations) = true.
Proof. vm_compute. reflexivity. Qed.
Lemma summarize_exact bs out o : gs_Bindings o = append_nil out → length out = length bs →
  (∀ i b b', bs !! i = Some b → out !! i = Some b' → judged bs i b b') → gs_CandidateCount o = len bs → gs_GPTDiskCount o = count is_gpt bs →
  gs_UnsupportedTableCount o + gs_NoTableCount o = len bs - count is_gpt bs → gs_Coverage o = coverage (len bs) (count is_gpt bs) →
  total parts_of bs ≤ len bs * 256 →
  summarizeGPTIdentityObservation o =
    if bool_decide (0 < len bs ≤ storageGPTObservationMaxDisks)
    then Ok (mkSummary 1 "complete" "manual-gpt-metadata-read-only" (len bs) (count is_gpt bs) (total parts_of bs) (len bs - count is_gpt bs)
               (coverage (len bs) (count is_gpt bs)) (total ambiguous_disk out) (total ambiguous_parts out) (gs_VPDIdentityEvidenceIncomplete o)
               false false false false false (Some storageGPTObservationLimitations))
    else Err incomplete.
Proof.
  intros Hb Hlen Hj H1 H2 H3 H4 Hmax. destruct (judged_totals bs out Hlen Hj) as (Ep & Hd & Hp & _).
  assert (Hg : 0 ≤ count is_gpt bs ≤ len bs).
  { rewrite count_total. rewrite <- (Z.mul_1_l (len bs)), <- total_const. apply total_bounds. intros b _. destruct (is_gpt b); cbn; lia. }
  unfold summarizeGPTIdentityObservation. rewrite H1, H2, H3, H4, Hb.
  assert (Hn : is_nil (append_nil out) = bool_decide (len bs = 0)).
  { unfold len. rewrite <- Hlen. destruct out; cbn; [done|]. symmetry. apply bool_decide_eq_false. lia. }
  assert (Hl : slen (append_nil out) = len bs) by (unfold len; rewrite <- Hlen; by destruct out).
  assert (He : elems (append_nil out) = out) by (by destruct out). rewrite Hn, Hl, He, Z.eqb_refl, count_fold, !Z.add_0_l, Ep. clear Hn Hl He.
  pose proof Zle_0_nat (length bs). unfold storageGPTObservationMaxDisks in *.
  destruct (bool_decide_reflect (0 < len bs ≤ 6)) as [H6|H6].
  - assert (H0 : 0 ≤ len bs) by lia.
    rewrite (proj2 (Z.ltb_ge (len bs) 0)), (proj2 (Z.ltb_ge 6 (len bs))), (proj2 (Z.ltb_ge (count is_gpt bs) 0)), (proj2 (Z.ltb_ge (len bs) (count is_gpt bs))),
      (bool_decide_eq_false_2 (len bs = 0)) by lia. cbn [orb negb].
    assert (Hv : ∀ s, s = mkSummary 1 "complete" "manual-gpt-metadata-read-only" (len bs) (count is_gpt bs) (total parts_of bs) (len bs - count is_gpt bs)
               (coverage (len bs) (count is_gpt bs)) (total ambiguous_disk out) (total ambiguous_parts out) (gs_VPDIdentityEvidenceIncomplete o)
               false false false false false (Some storageGPTObservationLimitations) → validStorageGPTObservationSummary s = true).
    { intros s ->. unfold validStorageGPTObservationSummary, storageGPTObservationMaxDisks.
      cbn [sm_SchemaVersion sm_Status sm_Scope sm_EligibleCandidateCount sm_GPTDiskCount sm_PartitionCount sm_UnsupportedTableCount sm_Coverage sm_AmbiguousDiskGUIDCount
           sm_AmbiguousPARTUUIDCount sm_ContentRead sm_MountPerformed sm_AssemblyPerformed sm_ImportPerformed sm_MutationsPerformed sm_Limitations elems default from_option id].
      set (c := coverage (len bs) (count is_gpt bs)). rewrite limitations_ok, (Z.eqb_refl (len bs - count is_gpt bs)), (bool_decide_eq_true_2 (c = c)) by done.
      rewrite (proj2 (Z.ltb_ge (len bs) 0)), (proj2 (Z.ltb_ge 6 (len bs))), (proj2 (Z.ltb_ge (count is_gpt bs) 0)), (proj2 (Z.ltb_ge (len bs) (count is_gpt bs))),
        (proj2 (Z.ltb_ge (total parts_of bs) 0)), (proj2 (Z.ltb_ge (6 * 256) (total parts_of bs))), (proj2 (Z.ltb_ge (total ambiguous_disk out) 0)),
        (proj2 (Z.ltb_ge (count is_gpt bs) (total ambiguous_disk out))), (proj2 (Z.ltb_ge (total ambiguous_parts out) 0)),
        (proj2 (Z.ltb_ge (total parts_of bs) (total ambiguous_parts out))) by lia. reflexivity. }
    by rewrite Hv.
  - destruct (Z.ltb_spec (len bs) 0); [done|]. destruct (Z.ltb_spec 6 (len bs)); [done|]. rewrite (bool_decide_eq_true_2 (len bs = 0)) by lia.
    cbn [orb]. by rewrite !orb_true_r.
Qed.

(** The answers come from the probe. *)
Definition decoded (results : list VolumeProbe.Result) : Prop := Forall (λ r, ∃ input, VolumeProbe.decode input = Ok r) results.
Lemma decoded_valid results : decoded results → Forall VolumeProbe.valid_result results.
Proof. intros H. eapply Forall_impl; [exact H|]. intros r [input Hr]. by eapply VolumeProbe.decode_valid. Qed.
Lemma correlated_parts inv disk r b : VolumeProbe.valid_result r → correlated inv disk r b → 0 ≤ parts_of b ≤ 256.
Proof.
  intros [_ _ Ht] [_ _ _ _ Hg _]. unfold parts_of. destruct (is_gpt b) eqn:E; [|lia]. apply bool_decide_eq_true in E.
  destruct (Hg E) as (t & Hrt & _ & _ & _ & HF & _). apply Forall2_length in HF. pose proof (VolumeProbe.vt_count _ (Ht t Hrt)) as Hc.
  unfold len, VolumeProbe.maxPartitionEntries in *. lia.
Qed.
Lemma bound_parts inv cs rs bs : Forall VolumeProbe.valid_result rs → Forall3 (candidate_bound inv) cs rs bs → total parts_of bs ≤ len bs * 256.
Proof.
  intros HV H3. rewrite Z.mul_comm, <- total_const. apply total_bounds. intros b Hb. induction H3 as [|c r b' cs rs bs (disk & _ & _ & Hc) _ IH]; [by apply not_elem_of_nil in Hb|].
  apply Forall_cons in HV as [Hr HV]. apply elem_of_cons in Hb as [->|Hb]; [by eapply correlated_parts|auto].
Qed.
Lemma observe_Ok discovery current results o : observeCandidateGPTIdentities discovery current results = Ok o →
  ∃ bs o', correlateCandidatePartitionTables discovery current results = Ok bs ∧ classifyGPTPartitionIdentities (Some bs) = Ok o'
  ∧ o = mkIdentitySet (gs_CandidateCount o') (gs_GPTDiskCount o') (gs_UnsupportedTableCount o') (gs_NoTableCount o') (gs_Coverage o')
          (td_hasAmbiguousIdentity discovery) (td_identityEvidenceIncomplete discovery) (gs_Bindings o').
Proof. unfold observeCandidateGPTIdentities. intros (bs & Hb & (o' & Ho & [= <-])%res_bind_Ok)%res_bind_Ok. eauto 6. Qed.

(** ** Properties *)

(** C27: the probe's answers are joined to the right disks.  For the answers of the
    probe, an accepted correlation has one binding for each candidate of the
    discovery, in order; the disk of a binding is the whole disk of the candidate's
    name and generation, it is still unused, and the entries of a GPT table are
    exactly the kernel's partitions of that disk: same numbers, starts and sizes,
    inside the disk, none missing on either side; a disk without a table has no
    partitions at all. *)
Theorem candidates_correlated discovery current results bs :
  decoded results → correlateCandidatePartitionTables discovery current results = Ok bs →
  ∃ inv ms, ss_Observations current = Some inv ∧ ms_Mounts (td_mounts discovery) = Some ms ∧ length bs = length (td_candidates discovery)
  ∧ ∀ i c b, td_candidates discovery !! i = Some c → bs !! i = Some b →
    ∃ disk r, results !! i = Some r ∧ bo_Name disk = sc_Name c ∧ generation_of disk = sc_Generation c ∧ unused inv ms disk ∧ correlated inv disk r b.
Proof.
  intros HV%decoded_valid H. apply correlate_candidates_Ok in H as (inv & Hinv & H3 & (inv' & ms & Hinv' & Hms & [HN _] & Hc & _)); [|done].
  assert (inv' = inv) as -> by congruence. cbn in Hc. exists inv, ms. pose proof (Forall3_length_lr _ _ _ _ H3) as Hl. split_and!; try done.
  intros i c b Hci Hbi. destruct (Forall3_lookup_l _ _ _ _ _ _ H3 Hci) as (r & b' & Hr & Hb' & disk & Hn & Hg & Hcor).
  assert (b' = b) as -> by congruence. exists disk, r. split_and!; try done.
  destruct (Hc c (list_elem_of_lookup_2 _ _ _ Hci)) as (o & Ho & Hon & _ & _ & Hu). assert (o = disk) as <-; [|done].
  eapply (NoDup_fmap_inj bo_Name); [exact HN|done|apply Hcor|congruence].
Qed.

(** C31: repeated identifiers are found exactly.  The observation keeps every
    binding as it was but for the statuses it sets: the table identifier of a GPT
    disk is ambiguous exactly when another GPT disk of the set has it, a partition
    identifier exactly when another partition has it, on any disk.  Each count is that of the
    set: the bindings, the GPT disks, the disks whose table is of another scheme
    and the disks without a table, of which every binding is one; the coverage is
    the one those counts have. *)
Theorem gpt_identities_exact bs o : classifyGPTPartitionIdentities (Some bs) = Ok o →
  ∃ out, gs_Bindings o = append_nil out ∧ length out = length bs ∧ (∀ i b b', bs !! i = Some b → out !! i = Some b' → judged bs i b b')
  ∧ gs_CandidateCount o = len bs ∧ gs_GPTDiskCount o = count is_gpt bs ∧ gs_UnsupportedTableCount o = count is_unsupported bs ∧ gs_NoTableCount o = count is_no_table bs
  ∧ count is_gpt bs + count is_unsupported bs + count is_no_table bs = len bs ∧ gs_Coverage o = coverage (len bs) (count is_gpt bs).
Proof. apply classify_Ok. Qed.

(** C32: what the panel is told.  An observation of the discovery's candidates is
    summarized exactly when there are between one and six of them: with no
    candidate there is no summary at all.  The summary counts the disks, the GPT
    disks and their partitions, and says that no identifier is ambiguous exactly
    when none is shared. *)
Theorem gpt_summary_exact discovery current results o :
  decoded results → observeCandidateGPTIdentities discovery current results = Ok o →
  (summarizeGPTIdentityObservation o = Err incomplete ↔ td_candidates discovery = [] ∨ storageGPTObservationMaxDisks < len (td_candidates discovery))
  ∧ ∀ s, summarizeGPTIdentityObservation o = Ok s →
    ∃ bs, correlateCandidatePartitionTables discovery current results = Ok bs ∧ sm_EligibleCandidateCount s = len (td_candidates discovery)
    ∧ sm_GPTDiskCount s = count is_gpt bs ∧ sm_PartitionCount s = total parts_of bs
    ∧ (sm_AmbiguousDiskGUIDCount s = 0 ↔ ∀ i, ¬ shared disk_key bs i) ∧ (sm_AmbiguousPARTUUIDCount s = 0 ↔ ∀ p, ¬ shared uuid_key bs p).
Proof.
  intros HV%decoded_valid (bs & o' & Hb & Ho & ->)%observe_Ok. pose proof Hb as Hb'. apply correlate_candidates_Ok in Hb' as (inv & _ & H3 & _); [|done].
  pose proof (Forall3_length_lr _ _ _ _ H3) as Hl. apply classify_Ok in Ho as (out & E1 & E2 & Hj & E3 & E4 & E5 & E5' & Esum & E6).
  destruct (judged_totals bs out E2 Hj) as (_ & _ & _ & Hd & Hp).
  assert (Hrest : gs_UnsupportedTableCount o' + gs_NoTableCount o' = len bs - count is_gpt bs) by lia.
  rewrite (summarize_exact bs out) by eauto using bound_parts.
  assert (Hlen : len (td_candidates discovery) = len bs) by (unfold len; congruence). rewrite Hlen.
  assert (Hnil : td_candidates discovery = [] ↔ len bs = 0).
  { rewrite <- Hlen. unfold len. destruct (td_candidates discovery); [done|]. split; [done|simpl; lia]. }
  pose proof Zle_0_nat (length bs). rewrite Hnil. case_bool_decide as H6.
  - split; [split; [done|lia]|]. intros s [= <-]. exists bs. cbn. done.
  - split; [|done]. split; [intros _|done]. unfold len in *. lia.
Qed.

(** two disks with one partition each and the same identifiers *)
Definition twin_disk (name : string) (minor sequence : Z) (target : string) : blockObservation :=
  mkBlock name "block" 8 minor 4194304 false false 0 0 "" None None identityPresent identityPresent [minor] [minor] sequence 0 target [].
Definition twin_part (name : string) (minor : Z) (parent : string) (pminor pseq : Z) (target : string) : blockObservation :=
  mkBlock name "partition" 8 minor 524288 false false 1 2048 parent (Some 8) (Some pminor) identityZero identityZero [] [] 0 pseq target [].
Definition twin_inventory : list blockObservation :=
  [ twin_disk "sda" 0 1 "devices/ata1/sda"; twin_part "sda1" 1 "sda" 0 1 "devices/ata1/sda/sda1";
    twin_disk "sdb" 16 2 "devices/ata2/sdb"; twin_part "sdb1" 17 "sdb" 16 2 "devices/ata2/sdb/sdb1" ].
Definition twin_storage : storageSnapshot := mkStorage 2 "kernel-sysfs-only" true false false false false 4 (Some twin_inventory) limitations true.
Definition twin_mounts : mountSnapshot :=
  mkMounts 1 1700000000 "current-process-mount-namespace" true false false 1 (Some [mkMount "/" "tmpfs" 0 33 false 1 "/"]) [] true.
Definition twin_plan : storageDiscoveryPlan :=
  match planTrustedStorageDiscovery twin_storage twin_mounts with Ok plan => plan | Err _ => mkPlan [] [] false false end.
Definition twin_discovery : trustedStorageDiscovery :=
  mkTrusted twin_storage twin_mounts (mkSwap 0 []) (pl_Candidates twin_plan) (pl_Excluded twin_plan) (pl_HasAmbiguousIdentity twin_plan)
    (pl_IdentityEvidenceIncomplete twin_plan) [mkSource (Some 7%nat) (mkGeneration 8 0 1); mkSource (Some 8%nat) (mkGeneration 8 16 2)] false.
Definition twin_results : list VolumeProbe.Result := [VolumeProbe.sample_disk_result; VolumeProbe.sample_disk_result].
Definition twin_bindings : list diskPartitionBinding :=
  match correlateCandidatePartitionTables twin_discovery twin_storage twin_results with Ok bs => bs | Err _ => [] end.
Definition twin_observation : gptIdentitySetObservation :=
  match observeCandidateGPTIdentities twin_discovery twin_storage twin_results with Ok o => o | Err _ => mkIdentitySet 0 0 0 0 "" false false None end.
Definition twin_classified : gptIdentitySetObservation :=
  match classifyGPTPartitionIdentities (Some twin_bindings) with Ok o => o | Err _ => mkIdentitySet 0 0 0 0 "" false false None end.
Lemma twin_decoded : decoded twin_results.
Proof.
  assert (H : VolumeProbe.decode (GoJson.bytes_reader (GoJson.Marshal (VolumeProbe.enc_result VolumeProbe.sample_disk_result))) = Ok VolumeProbe.sample_disk_result)
    by (vm_compute; reflexivity).
  repeat constructor; eauto.
Qed.
Lemma candidates_correlated_witness :
  (kb_KernelName <$> (twin_bindings ≫= db_Partitions)) = ["sda1"; "sdb1"]
  ∧ ∃ inv ms, ss_Observations twin_storage = Some inv ∧ ms_Mounts (td_mounts twin_discovery) = Some ms ∧ length twin_bindings = length (td_candidates twin_discovery)
  ∧ ∀ i c b, td_candidates twin_discovery !! i = Some c → twin_bindings !! i = Some b →
    ∃ disk r, twin_results !! i = Some r ∧ bo_Name disk = sc_Name c ∧ generation_of disk = sc_Generation c ∧ unused inv ms disk ∧ correlated inv disk r b.
Proof.
  split; [vm_compute; reflexivity|]. apply (candidates_correlated twin_discovery twin_storage twin_results twin_bindings twin_decoded).
  vm_compute. reflexivity.
Defined.
Lemma gpt_identities_exact_witness :
  (db_TableIDStatus <$> elems (gs_Bindings twin_classified)) = [gptIdentityAmbiguousObserved; gptIdentityAmbiguousObserved]
  ∧ gs_GPTDiskCount twin_classified = 2.
Proof.
  split; [vm_compute; reflexivity|]. assert (H : classifyGPTPartitionIdentities (Some twin_bindings) = Ok twin_classified) by (vm_compute; reflexivity).
  destruct (gpt_identities_exact twin_bindings twin_classified H) as (out & _ & _ & _ & _ & E & _). rewrite E. vm_compute. reflexivity.
Defined.
Lemma gpt_summary_exact_witness :
  summarizeGPTIdentityObservation twin_observation ≠ Err incomplete
  ∧ (summarizeGPTIdentityObservation twin_observation = Err incomplete
      ↔ td_candidates twin_discovery = [] ∨ storageGPTObservationMaxDisks < len (td_candidates twin_discovery)).
Proof.
  split; [vm_compute; discriminate|]. apply (gpt_summary_exact twin_discovery twin_storage twin_results twin_observation twin_decoded).
  vm_compute. reflexivity.
Defined.
(** a discovery without candidates: its observation is accepted, its summary never *)
Definition idle_storage : storageSnapshot := mkStorage 2 "kernel-sysfs-only" true false false false false 0 (Some []) limitations true.
Definition idle_discovery : trustedStorageDiscovery := mkTrusted idle_storage twin_mounts (mkSwap 0 []) [] [] false false [] false.
Example no_candidates_no_summary :
  ∃ o, observeCandidateGPTIdentities idle_discovery idle_storage [] = Ok o ∧ gs_Coverage o = gptIdentityCoverageEmpty
  ∧ summarizeGPTIdentityObservation o = Err incomplete.
Proof. eexists. split; [vm_compute; reflexivity|]. split; vm_compute; reflexivity. Qed.
End PartitionIdentity.
