(* ===== verification/MdIdentity.v ===== *)
(** * Arrays and the disks below them: [storage_identity.go]

    [physicalDisksBehind] walks from a member of an array to the disks it stands on,
    [matchMDArrayUUID] looks an identifier up in a complete inventory of arrays, and
    [correlateMDStorageIdentity] binds every array to the disks of its members, or
    refuses.  The set of names on the way down is passed to the recursive calls, as
    the code's deferred deletion leaves it. *)

From S2P Require Import Prelude GoStrings GoPath MountInfo BlockTopology BlockInventory StorageDiscovery TrustedStorage GoFloat MdRaid.

Module MdIdentity.
Import GoPath MountInfo BlockTopology BlockInventory StorageDiscovery TrustedStorage MdRaid.

Inductive identity_error := errMDIdentityInventoryIncomplete | IdentityOutOfFuel.
#[export] Instance identity_error_eq_dec : EqDecision identity_error. Proof. solve_decision. Defined.
Abbreviation incomplete := errMDIdentityInventoryIncomplete.

(** ** [matchMDArrayUUID] *)
Record mdArrayUUIDMatch := mkUUIDMatch { um_State : string; um_ArrayIndices : list Z }.
Definition canonicalPrivateMDUUID (value : string) : bool := bool_decide (canonicalMDArrayUUID value = Some value).
Record match_state := mkMatching { mt_names : gset string; mt_uuids : gmap (Z * Z) string; mt_objects : gset (Z * Z); mt_indices : list Z }.
Definition match_array (canonical : string) (index : Z) (st : match_state) (array : mdArrayObservation) : res identity_error match_state :=
  refuse negb (validMDName (ma_Name array)) || (ma_Name array ∈? mt_names st) || ((ma_major array =? 0) && (ma_minor array =? 0))
         || negb (ma_identityComplete array) || negb (canonicalPrivateMDUUID (ma_arrayUUID array))
         || ((ma_uuidStatus array != identityPresent) && (ma_uuidStatus array != identityAmbiguous)) => incomplete ;;
  let object := MdRaid.device_of array in
  refuse match mt_uuids st !! object with Some previous => previous != ma_arrayUUID array | None => false end => incomplete ;;
  let st := mkMatching ({[ma_Name array]} ∪ mt_names st) (<[object := ma_arrayUUID array]> (mt_uuids st)) (mt_objects st) (mt_indices st) in
  if ma_arrayUUID array != canonical then Ok st
  else Ok (mkMatching (mt_names st) (mt_uuids st) ({[object]} ∪ mt_objects st) (mt_indices st ++ [index])).
(** the parts of the snapshot that must be as the collector makes them *)
Definition usable (s : mdArraySnapshot) : bool :=
  ms_identityCollected s && ms_identityInventoryComplete s && (ms_SchemaVersion s =? 1) && ms_ReadOnly s && negb (ms_BlockDevicesOpened s)
  && negb (ms_DiskContentRead s) && negb (ms_MutationsPerformed s) && negb (is_nil (ms_Arrays s)) && negb (maxMDArrayEntries <? slen (ms_Arrays s))
  && (ms_ArrayCount s =? slen (ms_Arrays s)).
Definition matchMDArrayUUID (snapshot : mdArraySnapshot) (uuid : string) : res identity_error mdArrayUUIDMatch :=
  match canonicalMDArrayUUID uuid with
  | None => Err incomplete
  | Some canonical =>
    refuse negb (usable snapshot) => incomplete ;;
    st ← for_range (match_array canonical) 0 (mkMatching ∅ ∅ ∅ []) (elems (ms_Arrays snapshot));
    Ok (mkUUIDMatch (if (size (mt_objects st) =? 1)%nat then "one-object" else if (1 <? size (mt_objects st))%nat then "conflicting-objects" else "not-observed")
          (mt_indices st))
  end.

(** ** [physicalDisksBehind] *)
Section behind.
Context (byName : gmap string blockObservation).
Definition bad_parent_of (observation parent : blockObservation) : bool :=
  (bo_Kind parent != "block") || negb (bool_decide (bo_ParentMajor observation = Some (bo_Major parent)))
  || negb (bool_decide (bo_ParentMinor observation = Some (bo_Minor parent))) || negb (bo_diskSequence parent =? bo_parentDiskSeq observation)
  || (Dir (bo_sysfsTarget observation) != bo_sysfsTarget parent).
Fixpoint behind_all (visit : blockObservation → res identity_error (list blockObservation)) (seen : gset string) (disks : list blockObservation)
  (references : list blockTopologyRef) : res identity_error (list blockObservation) :=
  match references with
  | [] => Ok disks
  | reference :: references' =>
    match byName !! tr_Name reference with
    | None => Err incomplete
    | Some lower =>
      refuse negb (sameTopologyReference lower reference) || (tr_Name reference ∈? seen) => incomplete ;;
      resolved ← visit lower;
      behind_all visit ({[tr_Name reference]} ∪ seen) (disks ++ resolved) references'
    end
  end.
Fixpoint behind (fuel : nat) (visiting : gset string) (observation : blockObservation) : res identity_error (list blockObservation) :=
  match fuel with
  | O => Err IdentityOutOfFuel
  | S fuel' =>
    refuse bo_Name observation ∈? visiting => incomplete ;;
    let visiting := {[bo_Name observation]} ∪ visiting in
    if bo_Kind observation == "partition" then
      match byName !! bo_ParentName observation with
      | None => Err incomplete
      | Some parent => refuse bad_parent_of observation parent => incomplete ;; behind fuel' visiting parent
      end
    else
      refuse bo_Kind observation != "block" => incomplete ;;
      match bo_lowerBlocks observation with
      | [] => refuse isVirtualBlockTarget (bo_sysfsTarget observation) || (bo_diskSequence observation =? 0) => incomplete ;; Ok [observation]
      | references => behind_all (behind fuel' visiting) ∅ [] references
      end
  end.
End behind.
Definition physicalDisksBehind (inv : list blockObservation) (observation : blockObservation) : res identity_error (list blockObservation) :=
  behind (by_name inv) (S (length inv)) ∅ observation.

(** ** [correlateMDStorageIdentity] *)
Definition diskIdentityEvidenceUnique (disk : blockObservation) : bool :=
  if (bo_SerialStatus disk == identityAmbiguous) || (bo_WWNStatus disk == identityAmbiguous) then false
  else ((bo_SerialStatus disk == identityPresent) && negb (forallb (λ b, b =? 0) (bo_serialEvidence disk)))
       || ((bo_WWNStatus disk == identityPresent) && negb (forallb (λ b, b =? 0) (bo_wwnEvidence disk))).
Record mdMemberDiskIdentity := mkMemberDisk {
  md_memberName : string; md_diskName : string; md_major : Z; md_minor : Z; md_diskSequence : Z; md_serialStatus : identityStatus;
  md_wwnStatus : identityStatus; md_serialEvidence : list Z; md_wwnEvidence : list Z }.
Record mdArrayStorageIdentity := mkArrayIdentity {
  ai_arrayName : string; ai_arrayUUID : string; ai_arrayMajor : Z; ai_arrayMinor : Z; ai_arrayDiskSeq : Z; ai_level : string;
  ai_memberDisks : list mdMemberDiskIdentity }.
Definition topologyMembers (references : list blockTopologyRef) : list mdMemberObservation := (λ r, mkMember (tr_Name r) "") <$> references.
Definition number_of (disk : blockObservation) : Z * Z := (bo_Major disk, bo_Minor disk).
Definition member_disk (member : string) (disk : blockObservation) : mdMemberDiskIdentity :=
  mkMemberDisk member (bo_Name disk) (bo_Major disk) (bo_Minor disk) (bo_diskSequence disk) (bo_SerialStatus disk) (bo_WWNStatus disk)
    (bo_serialEvidence disk) (bo_wwnEvidence disk).
Definition disk_step (member : string) (st : gset (Z * Z) * list mdMemberDiskIdentity) (disk : blockObservation) :
  res identity_error (gset (Z * Z) * list mdMemberDiskIdentity) :=
  refuse (number_of disk ∈? st.1) || negb (diskIdentityEvidenceUnique disk) => incomplete ;;
  Ok ({[number_of disk]} ∪ st.1, st.2 ++ [member_disk member disk]).
Record members_state := mkMembers { me_names : gset string; me_numbers : gset (Z * Z); me_disks : list mdMemberDiskIdentity }.
Definition member_step (inv : list blockObservation) (st : members_state) (member : mdMemberObservation) : res identity_error members_state :=
  refuse negb (validBlockName (mm_Name member)) || (mm_Name member ∈? me_names st) => incomplete ;;
  match by_name inv !! mm_Name member with
  | None => Err incomplete
  | Some observation =>
    disks ← physicalDisksBehind inv observation;
    refuse len disks =? 0 => incomplete ;;
    st' ← for_range (λ _, disk_step (mm_Name member)) 0 (me_numbers st, me_disks st) disks;
    Ok (mkMembers ({[mm_Name member]} ∪ me_names st) st'.1 st'.2)
  end.
(** the order of the disks of an array *)
Definition disk_le (a b : mdMemberDiskIdentity) : Prop := md_major a < md_major b ∨ md_major a = md_major b ∧ md_minor a ≤ md_minor b.
#[export] Instance disk_le_dec : RelDecision disk_le. Proof. unfold RelDecision, disk_le. solve_decision. Defined.
Definition md_blocks (inv : list blockObservation) : list blockObservation := filter (λ o, (bo_Kind o == "block") && validMDName (bo_Name o) = true) inv.
Definition array_step (inv : list blockObservation) (arrays : mdArraySnapshot) (result : list mdArrayStorageIdentity) (array : mdArrayObservation) :
  res identity_error (list mdArrayStorageIdentity) :=
  found ← matchMDArrayUUID arrays (ma_arrayUUID array);
  refuse (um_State found != "one-object") || negb (len (um_ArrayIndices found) =? 1) || (ma_uuidStatus array != identityPresent)
         || negb (validMDLevel (ma_Level array)) => incomplete ;;
  match by_name (md_blocks inv) !! ma_Name array with
  | None => Err incomplete
  | Some block =>
    refuse negb (bo_Major block =? ma_major array) || negb (bo_Minor block =? ma_minor array) || (bo_diskSequence block =? 0)
           || (len (bo_lowerBlocks block) =? 0) || negb (sameMDMemberNames (ma_Members array) (topologyMembers (bo_lowerBlocks block))) => incomplete ;;
    st ← for_range (λ _, member_step inv) 0 (mkMembers ∅ ∅ []) (ma_Members array);
    Ok (result ++ [mkArrayIdentity (ma_Name array) (ma_arrayUUID array) (ma_major array) (ma_minor array) (bo_diskSequence block) (ma_Level array)
                     (merge_sort disk_le (me_disks st))])
  end.
Definition correlateMDStorageIdentity (storage : storageSnapshot) (arrays : mdArraySnapshot) : res identity_error (list mdArrayStorageIdentity) :=
  _ ← redact incomplete (completeObservedBlockDeviceSet storage);
  refuse negb (usable arrays && (ms_Status arrays == arrayInventoryAvailable)) => incomplete ;;
  let inv := elems (ss_Observations storage) in
  refuse negb (Z.of_nat (size (by_name (md_blocks inv))) =? slen (ms_Arrays arrays)) => incomplete ;;
  for_range (λ _, array_step inv arrays) 0 [] (elems (ms_Arrays arrays)).

(** ** [collectMDStorageIdentitySnapshot] *)
Definition same_array (p : mdArrayObservation * mdArrayObservation) : bool :=
  let '(first, second) := p in
  (ma_Name first == ma_Name second) && (ma_major first =? ma_major second) && (ma_minor first =? ma_minor second) && (ma_Level first == ma_Level second)
  && (ma_arrayUUID first == ma_arrayUUID second) && (ma_uuidStatus first == ma_uuidStatus second) && ma_identityComplete first
  && ma_identityComplete second && sameMDMemberNames (ma_Members first) (ma_Members second).
Definition sameMDIdentitySnapshot (a b : mdArraySnapshot) : bool :=
  ms_identityCollected a && ms_identityCollected b && ms_identityInventoryComplete a && ms_identityInventoryComplete b
  && (ms_SchemaVersion a =? ms_SchemaVersion b) && (ms_Status a == ms_Status b) && eqb (ms_ReadOnly a) (ms_ReadOnly b)
  && eqb (ms_BlockDevicesOpened a) (ms_BlockDevicesOpened b) && eqb (ms_DiskContentRead a) (ms_DiskContentRead b)
  && eqb (ms_MutationsPerformed a) (ms_MutationsPerformed b) && (ms_ArrayCount a =? ms_ArrayCount b) && (slen (ms_Arrays a) =? slen (ms_Arrays b))
  && forallb same_array (zip (elems (ms_Arrays a)) (elems (ms_Arrays b))).
(** what the files say at one moment: the storage and the arrays *)
Record moment := mkMoment { mo_storage : views; mo_mdstat : file; mo_sysfs : Sysfs; mo_now : Z }.
Definition collectMDStorageIdentitySnapshot (sha256 : list Z → list Z) (before after : moment) :
  res identity_error (storageSnapshot * list mdArrayStorageIdentity) :=
  storageBefore ← redact incomplete (collectStorage sha256 (mo_storage before));
  let arraysBefore := collectMDArrayInventory (mo_mdstat before) (mo_sysfs before) (mo_now before) in
  let arraysAfter := collectMDArrayInventory (mo_mdstat after) (mo_sysfs after) (mo_now after) in
  storageAfter ← redact incomplete (collectStorage sha256 (mo_storage after));
  refuse negb (sameStorageSnapshot storageBefore storageAfter) || negb (sameMDIdentitySnapshot arraysBefore arraysAfter) => incomplete ;;
  identities ← correlateMDStorageIdentity storageBefore arraysBefore;
  Ok (storageBefore, identities).
Definition collectMDStorageIdentity (sha256 : list Z → list Z) (before after : moment) : res identity_error (list mdArrayStorageIdentity) :=
  r ← collectMDStorageIdentitySnapshot sha256 before after;
  Ok r.2.

(** ** The walk to the disks *)
Section walk.
Context (byName : gmap string blockObservation) (Hkey : keyed byName).
(** a partition stands on its parent, a stacked device on its slaves *)
Inductive stands : blockObservation → blockObservation → Prop :=
  | stands_parent o p : bo_Kind o = "partition" → byName !! bo_ParentName o = Some p → stands o p
  | stands_slave o r p : bo_Kind o = "block" → r ∈ bo_lowerBlocks o → byName !! tr_Name r = Some p → stands o p.
Definition leaf (d : blockObservation) : Prop := bo_Kind d = "block" ∧ bo_lowerBlocks d = [].
Definition below (o d : blockObservation) : Prop := rtc stands o d ∧ leaf d.

Lemma behind_all_Ok visit seen disks refs out : behind_all byName visit seen disks refs = Ok out →
  ∃ rss, Forall2 (λ r ds, ∃ lower, byName !! tr_Name r = Some lower ∧ visit lower = Ok ds) refs rss ∧ out = disks ++ mjoin rss.
Proof.
  revert seen disks. induction refs as [|r refs IH]; intros seen disks; cbn [behind_all]; [intros [= <-]; exists []; by rewrite app_nil_r|].
  destruct (byName !! tr_Name r) as [lower|] eqn:Hl; [|done]. intros [_ H]%refuse_Ok. apply res_bind_Ok in H as (ds & Hds & H).
  apply IH in H as (rss & HF & ->). exists (ds :: rss). split; [constructor; [by exists lower|done]|]. cbn. by rewrite app_assoc.
Qed.
(** What the walk returns: exactly the disks below, each a real one. *)
Lemma behind_Ok fuel visiting o ds : behind byName fuel visiting o = Ok ds →
  (∀ d, d ∈ ds ↔ below o d) ∧ Forall (λ d, isVirtualBlockTarget (bo_sysfsTarget d) = false ∧ bo_diskSequence d ≠ 0) ds.
Proof.
  revert visiting o ds. induction fuel as [|fuel IH]; intros visiting o ds; cbn [behind]; [done|]. intros [_ H]%refuse_Ok.
  destruct (bo_Kind o == "partition") eqn:Hk.
  { apply bool_decide_eq_true in Hk. destruct (byName !! bo_ParentName o) as [p|] eqn:Hp; [|done]. apply refuse_Ok in H as [_ H]. apply IH in H as [H1 H2].
    split; [|done]. intros d. rewrite H1. unfold below. split; [intros [Hr Hl]; split; [|done]; eapply rtc_l; [by apply stands_parent|done]|].
    intros [Hr Hl]. split; [|done]. apply rtc_inv in Hr as [->|(q & Hs & Hr)]; [destruct Hl as [Hb _]; congruence|].
    inversion Hs; subst; congruence. }
  apply refuse_Ok in H as [Hb%negb_false_iff%bool_decide_eq_true H]. destruct (bo_lowerBlocks o) as [|r0 refs0] eqn:Hlow.
  { apply refuse_Ok in H as [Hg [= <-]]. apply orb_false_iff in Hg as [Hv Hz%Z.eqb_neq]. split; [|by repeat constructor]. intros d. rewrite list_elem_of_singleton.
    split; [intros ->; by repeat split|]. intros [Hr _]. apply rtc_inv in Hr as [->|(q & Hs & _)]; [done|]. inversion Hs; subst; [congruence|].
    rewrite Hlow in *. by apply not_elem_of_nil in H0. }
  rewrite <- Hlow in H. apply behind_all_Ok in H as (rss & HF & ->). cbn [app]. split.
  - intros d. rewrite list_elem_of_join. split.
    + intros (xs & Hd & (j & Hj)%list_elem_of_lookup). destruct (Forall2_lookup_r _ _ _ _ _ HF Hj) as (r & Hr & lower & Hl & Hv).
      apply IH in Hv as [Hv _]. apply Hv in Hd as [Hrt Hlf]. split; [|done]. eapply rtc_l; [|done]. eapply stands_slave; [done|by eapply list_elem_of_lookup_2|done].
    + intros [Hr Hlf]. apply rtc_inv in Hr as [->|(q & Hs & Hr)]; [destruct Hlf as [_ Hn]; congruence|]. inversion Hs as [? ? Hc|? r ? _ Hin Hl]; subst; [congruence|].
      apply list_elem_of_lookup in Hin as (j & Hj). destruct (Forall2_lookup_l _ _ _ _ _ HF Hj) as (xs & Hx & lower & Hl' & Hv). assert (lower = q) as -> by congruence.
      exists xs. split; [by apply (IH _ _ _ Hv)|by eapply list_elem_of_lookup_2].
  - apply Forall_join, Forall_forall. intros xs (j & Hj)%list_elem_of_lookup. destruct (Forall2_lookup_r _ _ _ _ _ HF Hj) as (r & _ & lower & _ & Hv). by apply IH in Hv as [_ ?].
Qed.
(** The walk never runs out of fuel: a name on the way is not met again. *)
Lemma behind_all_fuel visit seen disks refs : (∀ o, byName !! bo_Name o = Some o → visit o ≠ Err IdentityOutOfFuel) →
  behind_all byName visit seen disks refs ≠ Err IdentityOutOfFuel.
Proof using Hkey.
  intros Hv. revert seen disks. induction refs as [|r refs IH]; intros seen disks; cbn [behind_all]; [done|].
  destruct (byName !! tr_Name r) as [lower|] eqn:Hl; [|done]. destruct (_ || _); [done|].
  assert (Hlo : byName !! bo_Name lower = Some lower) by (by rewrite (Hkey _ _ Hl)).
  specialize (Hv lower Hlo). destruct (visit lower) as [ds|e] eqn:E; cbn [mbind res_bind]; [apply IH|congruence].
Qed.
Lemma behind_fuel fuel visiting o : byName !! bo_Name o = Some o → (size (unvisited byName visiting) < fuel)%nat →
  behind byName fuel visiting o ≠ Err IdentityOutOfFuel.
Proof using Hkey.
  revert visiting o. induction fuel as [|fuel IH]; intros visiting o Hb Hs; [lia|]. cbn [behind]. case_bool_decide as Hin; [done|].
  assert (Hrec : ∀ o', byName !! bo_Name o' = Some o' → behind byName fuel ({[bo_Name o]} ∪ visiting) o' ≠ Err IdentityOutOfFuel).
  { intros o' Ho'. apply IH; [done|]. assert (Hd : bo_Name o ∈ dom byName) by (by apply elem_of_dom_2 in Hb).
    pose proof (unvisited_smaller byName Hkey visiting _ Hd Hin). lia. }
  destruct (bo_Kind o == "partition").
  - destruct (byName !! bo_ParentName o) as [p|] eqn:Hp; [|done]. destruct (bad_parent_of o p); [done|]. apply Hrec. by rewrite (Hkey _ _ Hp).
  - case_match; [done|]. destruct (bo_lowerBlocks o) as [|r refs]; [by destruct (_ || _)|]. by apply behind_all_fuel.
Qed.
End walk.

(** ** Identifiers *)
Lemma match_arrays_Ok canonical i st l st' : for_range (match_array canonical) i st l = Ok st' →
  Forall (λ a, validMDName (ma_Name a) = true ∧ canonicalMDArrayUUID (ma_arrayUUID a) = Some (ma_arrayUUID a)) l
  ∧ NoDup (ma_Name <$> l) ∧ (∀ a, a ∈ l → ma_Name a ∉ mt_names st)
  ∧ length (mt_indices st') = (length (mt_indices st) + length (filter (λ a, ma_arrayUUID a = canonical) l))%nat.
Proof.
  revert i st. induction l as [|a l IH]; intros i st; cbn [for_range]; [intros [= <-]; split_and!; [constructor|constructor|set_solver|cbn; lia]|].
  destruct (match_array canonical i st a) as [s1|] eqn:Hs; [|done]. intros H. apply IH in H as (H1 & H2 & H3 & H4). unfold match_array in Hs.
  apply refuse_Ok in Hs as [Hg Hs]. apply orb_false_iff in Hg as [Hg _]. apply orb_false_iff in Hg as [Hg Hc%negb_false_iff%bool_decide_eq_true].
  apply orb_false_iff in Hg as [Hg _]. apply orb_false_iff in Hg as [Hg _]. apply orb_false_iff in Hg as [Hv%negb_false_iff Hn%bool_decide_eq_false].
  apply refuse_Ok in Hs as [_ Hs].
  assert (Hs1 : mt_names s1 = {[ma_Name a]} ∪ mt_names st ∧ length (mt_indices s1) = (length (mt_indices st) + if decide (ma_arrayUUID a = canonical) then 1 else 0)%nat).
  { destruct (decide (ma_arrayUUID a = canonical)) as [E|E].
    - rewrite (bool_decide_eq_true_2 (ma_arrayUUID a = canonical)) in Hs by done. injection Hs as <-. cbn. rewrite length_app. done.
    - rewrite (bool_decide_eq_false_2 (ma_arrayUUID a = canonical)) in Hs by done. injection Hs as <-. cbn. split; [done|lia]. }
  destruct Hs1 as [En Ei]. rewrite En in H3. split_and!.
  - by constructor.
  - constructor; [|done]. intros (b & Eb & Hb)%list_elem_of_fmap. apply (H3 b Hb). rewrite <- Eb. set_solver.
  - intros b [->|Hb]%elem_of_cons; [done|]. specialize (H3 b Hb). set_solver.
  - rewrite H4, Ei, filter_cons. destruct (decide (ma_arrayUUID a = canonical)); cbn [length]; lia.
Qed.
Lemma match_unique arrays l array found : ms_Arrays arrays = Some l → array ∈ l → matchMDArrayUUID arrays (ma_arrayUUID array) = Ok found → len (um_ArrayIndices found) = 1 →
  NoDup (ma_Name <$> l) ∧ Forall (λ a, validMDName (ma_Name a) = true) l ∧ ∀ b, b ∈ l → ma_arrayUUID b = ma_arrayUUID array → b = array.
Proof.
  intros Hl Ha. unfold matchMDArrayUUID. destruct (canonicalMDArrayUUID (ma_arrayUUID array)) as [c|] eqn:Hc; [|done]. intros [_ H]%refuse_Ok.
  apply res_bind_Ok in H as (st & Hst & [= <-]). rewrite Hl in Hst. cbn [elems default from_option id um_ArrayIndices] in *.
  apply match_arrays_Ok in Hst as (H1 & H2 & _ & H4). intros Hlen. cbn in H4. unfold len in Hlen.
  assert (Hcc : c = ma_arrayUUID array) by (rewrite Forall_forall in H1; destruct (H1 array Ha) as [_ E]; congruence). subst c.
  split_and!; [done|eapply Forall_impl; [exact H1|]; by intros ? [? _]|]. intros b Hb E.
  destruct (filter (λ a, ma_arrayUUID a = ma_arrayUUID array) l) as [|x [|]] eqn:Hf; cbn in H4; [lia| |lia].
  assert (array ∈ [x]) by (rewrite <- Hf; apply list_elem_of_filter; done). assert (b ∈ [x]) by (rewrite <- Hf; by apply list_elem_of_filter). set_solver.
Qed.

(** ** The disks of an array *)
Lemma disks_Ok member i st ds st' : for_range (λ _, disk_step member) i st ds = Ok st' →
  st'.2 = st.2 ++ (member_disk member <$> ds) ∧ NoDup (number_of <$> ds) ∧ (∀ d, d ∈ ds → number_of d ∉ st.1 ∧ diskIdentityEvidenceUnique d = true)
  ∧ st'.1 = list_to_set (number_of <$> ds) ∪ st.1.
Proof.
  revert i st. induction ds as [|d ds IH]; intros i st; cbn [for_range]; [intros [= <-]; rewrite app_nil_r; split_and!; [done|constructor|set_solver|cbn; set_solver]|].
  destruct (disk_step member st d) as [s1|] eqn:Hs; [|done]. intros H. apply IH in H as (H1 & H2 & H3 & H4). unfold disk_step in Hs.
  apply refuse_Ok in Hs as [Hg [= <-]]. apply orb_false_iff in Hg as [Hn%bool_decide_eq_false Hu%negb_false_iff]. cbn [fst snd] in *. split_and!.
  - rewrite H1, <- app_assoc. done.
  - constructor; [|done]. intros (e & Ee & He)%list_elem_of_fmap. destruct (H3 e He) as [Hx _]. apply Hx. rewrite <- Ee. by apply elem_of_union_l, elem_of_singleton.
  - intros e [->|He]%elem_of_cons; [done|]. destruct (H3 e He) as [[_ Hx]%not_elem_of_union Hu']. done.
  - rewrite H4. cbn. by rewrite (assoc_L (∪)), (comm_L (∪) (list_to_set _) {[number_of d]}).
Qed.
(** a member with the disks below it *)
Definition member_disks (inv : list blockObservation) (member : mdMemberObservation) (ds : list blockObservation) : Prop :=
  ∃ o, by_name inv !! mm_Name member = Some o ∧ physicalDisksBehind inv o = Ok ds ∧ ds ≠ [].
Lemma members_Ok inv i st ms st' : for_range (λ _, member_step inv) i st ms = Ok st' →
  ∃ dss, Forall2 (member_disks inv) ms dss ∧ me_disks st' = me_disks st ++ mjoin (zip_with (λ m ds, member_disk (mm_Name m) <$> ds) ms dss)
  ∧ NoDup (number_of <$> mjoin dss) ∧ (∀ d, d ∈ mjoin dss → number_of d ∉ me_numbers st ∧ diskIdentityEvidenceUnique d = true).
Proof.
  revert i st. induction ms as [|m ms IH]; intros i st; cbn [for_range].
  { intros [= <-]. exists []. rewrite app_nil_r. split_and!; [constructor|done|constructor|cbn; set_solver]. }
  destruct (member_step inv st m) as [s1|] eqn:Hs; [|done]. intros H. apply IH in H as (dss & HF & E & HN & Hd). unfold member_step in Hs.
  apply refuse_Ok in Hs as [_ Hs]. destruct (by_name inv !! mm_Name m) as [o|] eqn:Ho; [|done]. apply res_bind_Ok in Hs as (ds & Hds & Hs).
  apply refuse_Ok in Hs as [Hz%Z.eqb_neq Hs]. apply res_bind_Ok in Hs as (st1 & Hst & [= <-]). apply disks_Ok in Hst as (E1 & N1 & U1 & S1). cbn [me_numbers me_disks fst snd] in *.
  exists (ds :: dss). split_and!.
  - constructor; [|done]. exists o. split_and!; try done. intros ->. done.
  - rewrite E, E1. cbn. by rewrite <- app_assoc.
  - cbn. rewrite fmap_app. apply NoDup_app. split_and!; try done. intros n (d & -> & Hdd)%list_elem_of_fmap (d' & En & Hd')%list_elem_of_fmap.
    destruct (Hd d' Hd') as [Hx _]. rewrite S1 in Hx. apply Hx. rewrite <- En. apply elem_of_union_l, elem_of_list_to_set. by apply list_elem_of_fmap_2.
  - cbn. intros d [Hdd|Hdd]%elem_of_app; [by apply U1|]. destruct (Hd d Hdd) as [Hx Hu]. rewrite S1 in Hx. by apply not_elem_of_union in Hx as [_ Hx].
Qed.

Lemma join_cons {A} (l : list A) ls : mjoin (l :: ls) = l ++ mjoin ls.
Proof. done. Qed.
(** An identity to tell a disk by: a serial number or a WWN that was read and is not all zeros, and neither is ambiguous. *)
Definition told_apart (e : mdMemberDiskIdentity) : Prop :=
  md_serialStatus e ≠ identityAmbiguous ∧ md_wwnStatus e ≠ identityAmbiguous
  ∧ (md_serialStatus e = identityPresent ∧ (∃ b, b ∈ md_serialEvidence e ∧ b ≠ 0) ∨ md_wwnStatus e = identityPresent ∧ (∃ b, b ∈ md_wwnEvidence e ∧ b ≠ 0)).
Lemma nonzero_evidence l : negb (forallb (λ b, b =? 0) l) = true → ∃ b, b ∈ l ∧ b ≠ 0.
Proof.
  rewrite negb_true_iff. induction l as [|b l IH]; [done|]. cbn [forallb]. destruct (Z.eqb_spec b 0) as [->|Hb]; [|intros _; exists b; split; [by left|done]].
  intros H. destruct IH as (c & Hc & Hn); [done|]. exists c. split; [by right|done].
Qed.
Lemma evidence_unique member d : diskIdentityEvidenceUnique d = true → told_apart (member_disk member d).
Proof.
  unfold diskIdentityEvidenceUnique, told_apart. cbn. destruct (_ || _) eqn:Ha; [done|]. rewrite orb_false_iff, !bool_decide_eq_false in Ha.
  rewrite orb_true_iff, !andb_true_iff, !bool_decide_eq_true. intros H. split_and!; [apply Ha..|].
  destruct H as [[H Hn]|[H Hn]]; [left|right]; (split; [done|by apply nonzero_evidence]).
Qed.
(** In a collected inventory no other whole device shows the serial number or the WWN of the disk. *)
Definition sole_identity (sha256 : list Z → list Z) (inv : list blockObservation) (e : mdMemberDiskIdentity) : Prop :=
  ∀ o, o ∈ inv → bo_Kind o = "block" → bo_Name o ≠ md_diskName e →
    shows_apart sha256 "serial" (md_serialStatus e, md_serialEvidence e) (bo_SerialStatus o, bo_serialEvidence o)
    ∧ shows_apart sha256 "wwn" (md_wwnStatus e, md_wwnEvidence e) (bo_WWNStatus o, bo_wwnEvidence o).
(** What a binding says of an array. *)
Record array_bound (inv : list blockObservation) (all : list mdArrayObservation) (array : mdArrayObservation) (b : mdArrayStorageIdentity) : Prop := {
  ab_array : ai_arrayName b = ma_Name array ∧ ai_arrayUUID b = ma_arrayUUID array ∧ (ai_arrayMajor b, ai_arrayMinor b) = (ma_major array, ma_minor array)
    ∧ ai_level b = ma_Level array ∧ validMDLevel (ma_Level array) = true;
  (* no other array has its identifier *)
  ab_unique : ∀ a, a ∈ all → ma_arrayUUID a = ma_arrayUUID array → a = array;
  (* it is a block device of the inventory, standing on its members *)
  ab_block : ∃ block, block ∈ inv ∧ bo_Kind block = "block" ∧ bo_Name block = ma_Name array ∧ number_of block = (ma_major array, ma_minor array)
    ∧ ai_arrayDiskSeq b = bo_diskSequence block ∧ (tr_Name <$> bo_lowerBlocks block) ≡ₚ (mm_Name <$> ma_Members array);
  (* its disks are exactly the ones below its members, none of them twice *)
  ab_disks : ∀ e, e ∈ ai_memberDisks b ↔ ∃ member o d, member ∈ ma_Members array ∧ o ∈ inv ∧ bo_Name o = mm_Name member
    ∧ below (by_name inv) o d ∧ e = member_disk (mm_Name member) d;
  ab_once : NoDup ((λ e, (md_major e, md_minor e)) <$> ai_memberDisks b);
  ab_evidence : Forall (λ e, told_apart e ∧ ∃ d, isVirtualBlockTarget (bo_sysfsTarget d) = false ∧ md_diskName e = bo_Name d
    ∧ md_diskSequence e = bo_diskSequence d) (ai_memberDisks b) }.
Lemma same_names_perm first second : sameMDMemberNames first second = true → mm_Name <$> first ≡ₚ mm_Name <$> second.
Proof.
  unfold sameMDMemberNames. intros [_ E%bool_decide_eq_true]%andb_true_iff. by rewrite <- (sort_by_perm id (mm_Name <$> first)), E, sort_by_perm.
Qed.
Lemma joined_disks inv ms dss e : Forall2 (member_disks inv) ms dss →
  e ∈ mjoin (zip_with (λ m ds, member_disk (mm_Name m) <$> ds) ms dss) ↔ ∃ m ds d, m ∈ ms ∧ member_disks inv m ds ∧ d ∈ ds ∧ d ∈ mjoin dss ∧ e = member_disk (mm_Name m) d.
Proof.
  induction 1 as [|m ds ms dss Hm HF IH]; [cbn; set_solver|]. cbn. rewrite elem_of_app, IH, list_elem_of_fmap. split.
  - intros [(d & -> & Hd)|(m' & ds' & d & H1 & H2 & H3 & H4 & ->)]; [exists m, ds, d|exists m', ds', d]; (split_and!; [set_solver|done|done|rewrite elem_of_app; tauto|done]).
  - intros (m' & ds' & d & [->|H1]%elem_of_cons & H2 & H3 & H4 & ->).
    + left. exists d. split; [done|]. destruct Hm as (o & Ho & Hp & _), H2 as (o' & Ho' & Hp' & _). congruence.
    + right. exists m', ds', d. split_and!; try done. destruct H2 as (o' & Ho' & Hp' & Hne).
      apply list_elem_of_lookup in H1 as (j & Hj). destruct (Forall2_lookup_l _ _ _ _ _ HF Hj) as (ds2 & Hj2 & o2 & Ho2 & Hp2 & _).
      assert (ds2 = ds') as -> by congruence. apply list_elem_of_join. exists ds'. split; [done|by eapply list_elem_of_lookup_2].
Qed.
Lemma joined_numbers inv ms dss : Forall2 (member_disks inv) ms dss →
  (λ e, (md_major e, md_minor e)) <$> mjoin (zip_with (λ m ds, member_disk (mm_Name m) <$> ds) ms dss) = number_of <$> mjoin dss.
Proof. induction 1 as [|m ds ms dss Hm HF IH]; [done|]. cbn [zip_with]. rewrite !join_cons, !fmap_app, IH, <- list_fmap_compose. done. Qed.
Lemma array_step_Ok inv arrays all acc array acc' : NoDup (bo_Name <$> inv) → ms_Arrays arrays = Some all → array ∈ all →
  array_step inv arrays acc array = Ok acc' → ∃ b, (array_bound inv all array b ∧ NoDup (ma_Name <$> all) ∧ is_Some (by_name (md_blocks inv) !! ma_Name array)) ∧ acc' = acc ++ [b].
Proof.
  intros HN Hall Hin H. unfold array_step in H. apply res_bind_Ok in H as (found & Hfound & H). apply refuse_Ok in H as [Hg H].
  apply orb_false_iff in Hg as [Hg Hlv%negb_false_iff]. apply orb_false_iff in Hg as [Hg _]. apply orb_false_iff in Hg as [_ Hlen%negb_false_iff%Z.eqb_eq].
  destruct (match_unique arrays all array found Hall Hin Hfound Hlen) as (HNa & _ & Huniq).
  destruct (by_name (md_blocks inv) !! ma_Name array) as [block|] eqn:Hblock; [|done]. apply refuse_Ok in H as [Hg H].
  apply orb_false_iff in Hg as [Hg Hsame%negb_false_iff]. apply orb_false_iff in Hg as [Hg _]. apply orb_false_iff in Hg as [Hg _].
  apply orb_false_iff in Hg as [Hmaj%negb_false_iff%Z.eqb_eq Hmin%negb_false_iff%Z.eqb_eq]. apply res_bind_Ok in H as (st & Hst & [= <-]).
  apply members_Ok in Hst as (dss & HF & E & HNd & Hu). cbn [me_disks me_numbers app] in *.
  assert (Hperm : merge_sort disk_le (me_disks st) ≡ₚ me_disks st) by apply merge_sort_Permutation. eexists. split; [|reflexivity]. split_and!; [|done|by eexists].
  assert (Hbl : block ∈ inv ∧ bo_Kind block = "block" ∧ bo_Name block = ma_Name array).
  { unfold md_blocks in Hblock. apply by_name_lookup in Hblock as [[Hk Hb]%list_elem_of_filter Hn]; [|eapply sublist_NoDup; [exact HN|apply fmap_sublist, sublist_filter]].
    apply andb_true_iff in Hk as [Hk%bool_decide_eq_true _]. done. }
  assert (Hbehind : ∀ m ds, member_disks inv m ds → ∃ o, o ∈ inv ∧ bo_Name o = mm_Name m ∧ (∀ d, d ∈ ds ↔ below (by_name inv) o d)
                       ∧ Forall (λ d, isVirtualBlockTarget (bo_sysfsTarget d) = false ∧ bo_diskSequence d ≠ 0) ds).
  { intros m ds (o & Ho & Hp & _). apply by_name_lookup in Ho as [Ho Hon]; [|done]. apply behind_Ok in Hp as [Hp Hv]. by exists o. }
  split; cbn [ai_arrayName ai_arrayUUID ai_arrayMajor ai_arrayMinor ai_arrayDiskSeq ai_level ai_memberDisks].
  - done.
  - done.
  - destruct Hbl as (Hb1 & Hb2 & Hb3). exists block. unfold number_of. rewrite Hmaj, Hmin. split_and!; try done. apply same_names_perm in Hsame. unfold topologyMembers in Hsame.
    rewrite <- list_fmap_compose in Hsame. by symmetry.
  - intros e. rewrite Hperm, E, (joined_disks inv) by done. split.
    + intros (m & ds & d & Hm & Hmd & Hd & _ & ->). destruct (Hbehind m ds Hmd) as (o & Ho & Hon & Hds & _). exists m, o, d. split_and!; try done. by apply Hds.
    + intros (m & o & d & Hm & Ho & Hon & Hb & ->). apply list_elem_of_lookup in Hm as (j & Hj). destruct (Forall2_lookup_l _ _ _ _ _ HF Hj) as (ds & Hjd & Hmd).
      destruct (Hbehind m ds Hmd) as (o' & Ho' & Hon' & Hds & _). assert (o' = o) as -> by (eapply (NoDup_fmap_inj bo_Name); [exact HN|done|done|congruence]).
      exists m, ds, d. split_and!; [by eapply list_elem_of_lookup_2|done|by apply Hds| |done]. apply list_elem_of_join. exists ds. split; [by apply Hds|by eapply list_elem_of_lookup_2].
  - rewrite Hperm, E, (joined_numbers inv) by done. done.
  - apply Forall_forall. intros e. rewrite Hperm, E, (joined_disks inv) by done. intros (m & ds & d & _ & Hmd & Hd & Hj & ->). split; [by apply evidence_unique, Hu|]. exists d.
    destruct (Hbehind m ds Hmd) as (_ & _ & _ & _ & Hv). rewrite Forall_forall in Hv. split_and!; [by apply Hv|done|done].
Qed.

(** ** No walk runs out of fuel *)
Lemma for_range_no_err {E S A} (body : Z → S → A → res E S) (e : E) i s l : (∀ j st x, body j st x ≠ Err e) → for_range body i s l ≠ Err e.
Proof. intros Hb. revert i s. induction l as [|x l IH]; intros i s; cbn [for_range]; [done|]. specialize (Hb i s x). destruct (body i s x); [apply IH|congruence]. Qed.
Lemma bind_no_err {E A B} (m : res E A) (k : A → res E B) e : m ≠ Err e → (∀ a, k a ≠ Err e) → (a ← m; k a) ≠ Err e.
Proof. intros Hm Hk. destruct m; cbn; [apply Hk|congruence]. Qed.
Lemma refuse_no_err {E A} (b : bool) (e' e : E) (k : res E A) : e' ≠ e → k ≠ Err e → (refuse b => e' ;; k) ≠ Err e.
Proof. intros He Hk. destruct b; congruence. Qed.
Lemma redact_no_err {E E' A} (e' e : E') (r : res E A) : e' ≠ e → redact e' r ≠ Err e.
Proof. intros He. unfold redact. destruct r; congruence. Qed.
Lemma correlate_fuel storage arrays : correlateMDStorageIdentity storage arrays ≠ Err IdentityOutOfFuel.
Proof.
  unfold correlateMDStorageIdentity. apply bind_no_err; [by apply redact_no_err|]. intros _. apply refuse_no_err; [done|]. apply refuse_no_err; [done|].
  apply for_range_no_err. intros _ acc array. unfold array_step. apply bind_no_err.
  { unfold matchMDArrayUUID. destruct (canonicalMDArrayUUID _); [|done]. apply refuse_no_err; [done|]. apply bind_no_err; [|done]. apply for_range_no_err.
    intros j st a. unfold match_array. apply refuse_no_err; [done|]. apply refuse_no_err; [done|]. by destruct (negb _). }
  intros found. apply refuse_no_err; [done|]. destruct (_ !! ma_Name array); [|done]. apply refuse_no_err; [done|]. apply bind_no_err; [|done].
  apply for_range_no_err. intros _ st m. unfold member_step. apply refuse_no_err; [done|]. destruct (by_name _ !! mm_Name m) as [o|] eqn:Ho; [|done].
  apply bind_no_err.
  - apply behind_fuel; [apply by_name_keyed| |apply by_name_size]. by rewrite (by_name_keyed _ _ _ Ho).
  - intros ds. apply refuse_no_err; [done|]. apply bind_no_err; [|done]. apply for_range_no_err. intros _ x d. unfold disk_step. by apply refuse_no_err.
Qed.
Lemma by_name_count l : NoDup (bo_Name <$> l) → size (by_name l) = length l.
Proof. intros HN. rewrite <- size_dom, by_name_dom, size_list_to_set by done. apply length_fmap. Qed.

(** ** Properties *)

(** the disks below a node of the inventory are whole devices of it *)
Lemma stands_in inv o d : NoDup (bo_Name <$> inv) → o ∈ inv → rtc (stands (by_name inv)) o d → d ∈ inv.
Proof.
  intros HN Ho Hr. induction Hr as [o|o x d Hs _ IH]; [done|]. apply IH. by destruct Hs as [o p _ [Hp _]%by_name_lookup|o r p _ _ [Hp _]%by_name_lookup].
Qed.
Lemma bound_sole sha256 v storage inv all array b : collectStorage sha256 v = Ok storage → ss_Observations storage = Some inv → NoDup (bo_Name <$> inv) →
  array_bound inv all array b → Forall (sole_identity sha256 inv) (ai_memberDisks b).
Proof.
  intros Hc Hinv HN Hb. apply Forall_forall. intros e He. apply (ab_disks _ _ _ _ Hb) in He as (m & o & d & _ & Ho & _ & [Hs Hl] & ->).
  intros p Hp Kp Hne. cbn [member_disk md_diskName md_serialStatus md_serialEvidence md_wwnStatus md_wwnEvidence] in *.
  apply (collected_apart sha256 v storage inv); try done; [by apply (stands_in inv o)|apply Hl].
Qed.

(** C28: arrays are bound to their disks.  The correlation always ends, and so does
    the check of the topology it starts with: neither ever runs out of fuel.  When it
    accepts, there is one binding for each array and one array for each MD block
    device of the inventory; no two arrays share an identifier; the members of an
    array are the devices it stands on; and its disks are exactly the physical disks
    found below its members through partitions and stacked devices, no disk twice,
    each with a serial number or WWN that was read, is not zero and is not
    ambiguous; and when the inventory is one that was collected, no other whole
    device of it shows that serial number or that WWN. *)
Theorem md_arrays_bound storage arrays : correlateMDStorageIdentity storage arrays ≠ Err IdentityOutOfFuel
  ∧ validateObservedStorageTopology (elems (ss_Observations storage)) ≠ Err ErrOutOfFuel
  ∧ ∀ ids, correlateMDStorageIdentity storage arrays = Ok ids →
    ∃ inv all, ss_Observations storage = Some inv ∧ ms_Arrays arrays = Some all ∧ Forall2 (array_bound inv all) all ids
    ∧ bo_Name <$> md_blocks inv ≡ₚ ma_Name <$> all
    ∧ ∀ sha256 v, collectStorage sha256 v = Ok storage → Forall (λ b, Forall (sole_identity sha256 inv) (ai_memberDisks b)) ids.
Proof.
  split; [apply correlate_fuel|]. split; [apply validate_fuel|]. intros ids. unfold correlateMDStorageIdentity. intros (devices & Hd%redact_Ok & H)%res_bind_Ok.
  apply complete_set_Ok in Hd as (inv & Hinv & _ & HN & _). rewrite Hinv in H. cbn [elems default from_option id] in H.
  apply refuse_Ok in H as [Hu%negb_false_iff H]. apply andb_true_iff in Hu as [Hu _].
  assert (Hall : ∃ all, ms_Arrays arrays = Some all).
  { destruct (ms_Arrays arrays) as [all|] eqn:E; [by exists all|]. unfold usable in Hu. rewrite E in Hu. cbn in Hu. by rewrite !andb_false_r in Hu. }
  destruct Hall as [all Hall]. rewrite Hall in H. apply refuse_Ok in H as [Hsz%negb_false_iff%Z.eqb_eq H]. cbn [elems slen default from_option id] in Hsz, H.
  assert (HNb : NoDup (bo_Name <$> md_blocks inv)) by (eapply sublist_NoDup; [exact HN|apply fmap_sublist, sublist_filter]).
  assert (Hloop : ∃ ys, Forall2 (λ a b, array_bound inv all a b ∧ NoDup (ma_Name <$> all) ∧ is_Some (by_name (md_blocks inv) !! ma_Name a)) all ys ∧ ids = [] ++ ys).
  { assert (Hgen : ∀ l i acc, (∀ a, a ∈ l → a ∈ all) → for_range (λ _, array_step inv arrays) i acc l = Ok ids →
      ∃ ys, Forall2 (λ a b, array_bound inv all a b ∧ NoDup (ma_Name <$> all) ∧ is_Some (by_name (md_blocks inv) !! ma_Name a)) l ys ∧ ids = acc ++ ys); [|by eapply Hgen].
    induction l as [|a l IH]; intros i acc Hl; cbn [for_range]; [intros [= <-]; exists []; by rewrite app_nil_r|].
    destruct (array_step inv arrays acc a) as [acc'|] eqn:Hs; [|done]. apply (array_step_Ok inv arrays all) in Hs as (b & Hb & ->); [|done|done|set_solver].
    intros Hr. apply IH in Hr as (ys & HF & ->); [|set_solver]. exists (b :: ys). rewrite <- app_assoc. split; [by constructor|done]. }
  destruct Hloop as (ys & HF & ->). exists inv, all. split_and!; try done; [eapply Forall2_impl; [exact HF|]; by intros ? ? [? _]| |].
  2: { intros sha256 v Hc. apply Forall_forall. intros b [j Hj]%list_elem_of_lookup. destruct (Forall2_lookup_r _ _ _ _ _ HF Hj) as (a & _ & Hb & _).
    by apply (bound_sole sha256 v storage inv all a b). }
  rewrite by_name_count in Hsz by done. symmetry. apply submseteq_length_Permutation; [|rewrite !length_fmap; change (slen (Some all)) with (len all) in Hsz; unfold len in Hsz; apply Nat2Z.inj_le; rewrite Hsz; done].
  apply NoDup_submseteq.
  { destruct all as [|a l]; [constructor|]. by apply Forall2_cons_inv_l in HF as (b & ? & (_ & ? & _) & _). }
  intros n (a & -> & (j & Hj)%list_elem_of_lookup)%list_elem_of_fmap. destruct (Forall2_lookup_l _ _ _ _ _ HF Hj) as (b & _ & _ & _ & block & Hblock).
  apply by_name_lookup in Hblock as [Hb <-]; [|done]. by apply list_elem_of_fmap_2.
Qed.

(** the mirror of the array sample on two disks, and on two partitions of one disk *)
Definition node (name : string) (minor sequence : Z) (target : string) (serial : list Z) : blockObservation :=
  mkBlock name "block" 8 minor 4194304 false false 0 0 "" None None identityPresent identityUnavailable serial [] sequence 0 target [].
Definition part (name : string) (minor number start : Z) (parent : string) (pminor pseq : Z) (target : string) : blockObservation :=
  mkBlock name "partition" 8 minor 524288 false false number start parent (Some 8) (Some pminor) identityZero identityZero [] [] 0 pseq target [].
Definition md_node (first second : Z) : blockObservation :=
  mkBlock "md0" "block" 9 0 524288 false false 0 0 "" None None identityUnavailable identityUnavailable [] [] 7 0 "devices/virtual/block/md0"
    [mkRef "sda1" "partition" 8 first 0; mkRef "sdb1" "partition" 8 second 0].
Definition storage_of (inv : list blockObservation) : storageSnapshot :=
  mkStorage 2 "kernel-sysfs-only" true false false false false (len inv) (Some inv) limitations true.
Definition two_disks : storageSnapshot := storage_of
  [md_node 1 17; node "sda" 0 1 "devices/ata1/sda" [1]; part "sda1" 1 1 2048 "sda" 0 1 "devices/ata1/sda/sda1";
   node "sdb" 16 2 "devices/ata2/sdb" [2]; part "sdb1" 17 1 2048 "sdb" 16 2 "devices/ata2/sdb/sdb1"].
Definition one_disk : storageSnapshot := storage_of
  [md_node 1 2; node "sda" 0 1 "devices/ata1/sda" [1]; part "sda1" 1 1 2048 "sda" 0 1 "devices/ata1/sda/sda1"; part "sdb1" 2 2 4096 "sda" 0 1 "devices/ata1/sda/sdb1"].
Definition bound_disks (r : res identity_error (list mdArrayStorageIdentity)) : list (string * list (string * string)) :=
  match r with Ok ids => (λ b, (ai_arrayName b, (λ e, (md_memberName e, md_diskName e)) <$> ai_memberDisks b)) <$> ids | Err _ => [] end.
Example mirror_bound :
  bound_disks (correlateMDStorageIdentity two_disks quiet_mirror)
    = [("md0", [("sda1", "sda"); ("sdb1", "sdb")])]
  ∧ correlateMDStorageIdentity one_disk quiet_mirror = Err incomplete ∧ failed (completeObservedBlockDeviceSet one_disk) = false.
Proof. vm_compute. split_and!; reflexivity. Qed.
End MdIdentity.
