(* ===== verification/HashInput.v ===== *)
(** * Bytes written into a hash

    The fingerprints of the control plane hash numbers and strings written one
    after the other: [binary.BigEndian.PutUint64], a string after its length, a
    byte for a bool.  Such a code can be read back from the front
    ([prefix_code]), so equal bytes come from equal values. *)

From S2P Require Import Prelude GoStrings.

Module HashInput.

(** [binary.BigEndian.PutUint64] *)
Definition put_uint64 (v : Z) : list Z :=
  (λ i, Z.land (Z.shiftr v (8 * i)) 255) <$> [7; 6; 5; 4; 3; 2; 1; 0].
Definition put_string (s : string) : list Z := put_uint64 (slength s) ++ codes s.
Definition put_bool (b : bool) : list Z := [if b then 1 else 0].

(** A code on the values with [P]: what follows a value does not change how it is
    read. *)
Definition prefix_code {A} (P : A → Prop) (enc : A → list Z) : Prop :=
  ∀ x y l l', P x → P y → enc x ++ l = enc y ++ l' → x = y ∧ l = l'.

Lemma put_uint64_inj a b : 0 ≤ a < 2 ^ 64 → 0 ≤ b < 2 ^ 64 → put_uint64 a = put_uint64 b → a = b.
Proof.
  intros Ha Hb He. apply Z.bits_inj'. intros n Hn. destruct (Z.le_gt_cases 64 n).
  { rewrite !Z.bits_above_log2; [done|lia| |lia|].
    - destruct (Z.eq_dec b 0) as [->|]; [cbn; lia|]. apply Z.lt_le_trans with 64; [apply Z.log2_lt_pow2; lia|done].
    - destruct (Z.eq_dec a 0) as [->|]; [cbn; lia|]. apply Z.lt_le_trans with 64; [apply Z.log2_lt_pow2; lia|done]. }
  assert (Hbyte : ∀ i, i ∈ [7; 6; 5; 4; 3; 2; 1; 0] → Z.land (Z.shiftr a (8 * i)) 255 = Z.land (Z.shiftr b (8 * i)) 255).
  { intros i [k Hk]%list_elem_of_lookup. unfold put_uint64 in He.
    assert (Hl := f_equal (λ l, l !! k) He). cbn beta in Hl. rewrite !list_lookup_fmap, Hk in Hl. by injection Hl. }
  assert (Hi : n / 8 ∈ [7; 6; 5; 4; 3; 2; 1; 0]).
  { pose proof (Z.div_lt_upper_bound n 8 8 ltac:(lia) ltac:(lia)). pose proof (Z.div_pos n 8 ltac:(lia) ltac:(lia)).
    assert (n / 8 = 0 ∨ n / 8 = 1 ∨ n / 8 = 2 ∨ n / 8 = 3 ∨ n / 8 = 4 ∨ n / 8 = 5 ∨ n / 8 = 6 ∨ n / 8 = 7) by lia. set_solver. }
  pose proof (Z.div_mod n 8 ltac:(lia)) as Hdm. pose proof (Z.mod_pos_bound n 8 ltac:(lia)).
  assert (Ht := f_equal (λ z, Z.testbit z (n mod 8)) (Hbyte _ Hi)). cbn beta in Ht. change 255 with (Z.ones 8) in Ht.
  rewrite !Z.land_spec, !Z.shiftr_spec, Z.ones_spec_low, !andb_true_r in Ht by lia. replace (n mod 8 + 8 * (n / 8)) with n in Ht by lia. done.
Qed.

Lemma uint64_code : prefix_code (λ v, 0 ≤ v < 2 ^ 64) put_uint64.
Proof. intros x y l l' Hx Hy He. apply app_inj_1 in He as [He ->]; [|done]. by apply put_uint64_inj in He. Qed.
Lemma string_code : prefix_code (λ s, slength s < 2 ^ 64) put_string.
Proof.
  intros s t l l' Hs Ht. unfold put_string. rewrite <- !app_assoc. intros [Hn He]%uint64_code; [|pose proof (slength_nonneg s); lia|pose proof (slength_nonneg t); lia].
  apply app_inj_1 in He as [He%codes_inj ->]; [done|]. rewrite !length_codes. unfold slength in Hn. lia.
Qed.
Lemma bool_code : prefix_code (λ _, True) put_bool.
Proof. intros [] [] l l' _ _ [=]; done. Qed.
Lemma fixed_code n : prefix_code (λ l : list Z, length l = n) (λ l, l).
Proof. intros x y l l' Hx Hy He. apply app_inj_1 in He; [done|congruence]. Qed.
(** a list of known length *)
Lemma list_code {A} (P : A → Prop) enc xs ys l l' : prefix_code P enc → length xs = length ys → Forall P xs → Forall P ys →
  mjoin (enc <$> xs) ++ l = mjoin (enc <$> ys) ++ l' → xs = ys ∧ l = l'.
Proof.
  intros Hc Hlen HF. revert ys Hlen. induction HF as [|x xs Hx HF IH]; intros [|y ys] Hlen HG; try done.
  inv HG. cbn [fmap list_fmap mjoin list_join]. rewrite <- !app_assoc. intros [-> He]%Hc; [|done..]. apply IH in He as [-> ->]; [done|cbn in Hlen; lia|done].
Qed.

End HashInput.
