(* ===== verification/SambaNss.v ===== *)
(** * The private lookup files of Samba: [fileserviceplan/samba_nss.go]

    [renderNativeSambaNSS] prints a passwd file, a group file and a name-service
    profile for a set of accounts.  The files are read back here with the parser
    of [unixidentity] ([Unix.v]). *)

From S2P Require Import Prelude GoStrings Shares NetIP GoPath NfsConfig SmbConfig Accounts Unix.

Module SambaNss.
Import GoPath ServiceAccounts UnixIdentity.
Import SmbConfig (nl, line).

(** the errors of the package [fileserviceplan] *)
Inductive plan_error := ErrInvalidPolicy | ErrNotReady | ErrInvalidEvidence.
#[export] Instance plan_error_eq_dec : EqDecision plan_error. Proof. solve_decision. Defined.

Definition MaxSambaNSSBytes : Z := 32768.
(** the text of some lines, each with its newline *)
Definition text (ls : list string) : string := foldr (λ l s, String.append (line l) s) "" ls.
Definition sambaFilesOnlyNSS : string :=
  text ["passwd: files"; "group: files"; "initgroups: files"; "shadow: files"; "hosts: files"; "networks: files"; "protocols: files"; "services: files"].

Definition fixed_users : list string := ["root:!:0:0:root:/:/sbin/nologin"; "nobody:!:65534:65534:nobody:/:/sbin/nologin"].
Definition fixed_groups : list string := ["root:!:0:"; "nobody:!:65534:"].
(** [%s:!:%d:%d::/:/sbin/nologin] and [%s:!:%d:] *)
Definition passwd_row (a : Account) : string :=
  join_with ":" [acc_Name a; "!"; FormatUint (acc_UID a); FormatUint (acc_GID a); ""; "/"; "/sbin/nologin"].
Definition group_line (a : Account) : string := join_with ":" [acc_Name a; "!"; FormatUint (acc_GID a); ""].

(** [registry.Accounts = slices.Clone(accounts)] on a fresh registry *)
Definition lookup_registry (accounts : slice Account) : Registry :=
  let r := (Registry_New 1000 60000).1 in
  mkRegistry (reg_Format r) (reg_SchemaVersion r) (reg_Revision r) (reg_FirstID r) (reg_LastID r) accounts.
Definition renderNativeSambaNSS (accounts : slice Account) : res plan_error (string * string * string) :=
  let registry := lookup_registry accounts in
  refuse negb (is_ok (Registry_New 1000 60000).2) || negb (is_ok (Registry_Validate registry)) || (MaxLive <? slen accounts) => ErrNotReady ;;
  refuse existsb (λ a, acc_State a == Retired) (elems (reg_Accounts registry)) => ErrNotReady ;;
  let sorted := sort_by acc_Name (elems (reg_Accounts registry)) in
  let passwd := text (fixed_users ++ (passwd_row <$> sorted)) in
  let group := text (fixed_groups ++ (group_line <$> sorted)) in
  refuse MaxSambaNSSBytes <? slength passwd + slength group + slength sambaFilesOnlyNSS => ErrNotReady ;;
  Ok (passwd, group, sambaFilesOnlyNSS).

Definition renderSambaNSS (policy : ShareConfig.Config) (registry : Registry) : res plan_error (string * string * string) :=
  match Registry_BindShares registry policy with
  | Err _ => Err ErrNotReady
  | Ok bound =>
    refuse ShareConfig.MaxUsers <? len (bnd_Accounts bound) => ErrNotReady ;;
    renderNativeSambaNSS (Some (bnd_Accounts bound))
  end.

(** ** What the files say *)

(** accounts a lookup can list *)
Definition listable (accounts : slice Account) : Prop :=
  wf_registry (lookup_registry accounts) ∧ Forall (λ a, acc_State a ≠ Retired) (elems accounts).
Definition user_entry (a : Account) : user := mkUnixUser (acc_Name a) (acc_UID a) (acc_GID a).
Definition group_entry (a : Account) : group := mkUnixGroup (acc_Name a) (acc_GID a) [].
Definition lookup_snapshot (accounts : list Account) : Snapshot :=
  let sorted := sort_by acc_Name accounts in
  mkSnapshot true (mkUnixUser "root" 0 0 :: mkUnixUser "nobody" 65534 65534 :: (user_entry <$> sorted))
    (mkUnixGroup "root" 0 [] :: mkUnixGroup "nobody" 65534 [] :: (group_entry <$> sorted)).
Definition file (data : string) : option reader := Some (mkReader data false).

(** ** Rows *)

(** a character of a row: printable and neither the separator nor a newline *)
Definition row_char (c : Z) : bool := (32 <=? c) && (c <? 127).
Definition field_char (c : Z) : bool := row_char c && negb (c =? 58).

Lemma slength_digits k fuel n acc : (1 ≤ k)%nat → 0 ≤ n < 10 ^ Z.of_nat k →
  slength (format_digits fuel n acc) ≤ Z.of_nat k + slength acc.
Proof.
  revert k n acc. induction fuel as [|f IH]; intros k n acc Hk Hn; cbn [format_digits]; [lia|].
  destruct (Z.ltb_spec n 10); [rewrite slength_String; lia|]. destruct k as [|[|k]]; [lia|cbn in Hn; lia|].
  pose proof (IH (S k) (n / 10) (String (ascii_of_N (Z.to_N (48 + n mod 10))) acc) ltac:(lia)) as H'. rewrite slength_String in H'.
  rewrite (Nat2Z.inj_succ (S k)), Z.pow_succ_r in Hn by lia. apply Z.le_trans with (1 := H' ltac:(split; [apply Z.div_pos; lia|apply Z.div_lt_upper_bound; lia])). lia.
Qed.
Lemma slength_id n : 0 ≤ n < 100000 → slength (FormatUint n) ≤ 5.
Proof. intros Hn. unfold FormatUint. pose proof (slength_digits 5 20 n "" ltac:(lia) Hn) as H. change (slength "") with 0 in H. lia. Qed.

Lemma number_id n : 0 ≤ n < 100000 → number (FormatUint n) = Ok n.
Proof.
  intros Hn. unfold number. pose proof (slength_id n Hn) as Hl. pose proof (ParseUint_FormatUint 32 n ltac:(lia) ltac:(lia)) as Hp.
  assert (FormatUint n ≠ "") as Hne by (intros E; rewrite E in Hp; done).
  rewrite bool_decide_eq_false_2, (proj2 (Z.ltb_ge _ _)) by (done || lia). cbn [orb].
  pose proof (format_digits_codes 20 n "" ltac:(lia) eq_refl) as Hd. fold (FormatUint n) in Hd.
  rewrite runes_ascii, Hd, Hp; [cbn [negb]; rewrite (proj2 (Z.eqb_neq _ _)); [done|unfold max_uint32; lia]|].
  apply Forall_forall. intros b Hb%list_elem_of_In. rewrite forallb_forall in Hd. apply Hd in Hb. unfold is_digit in Hb. lia.
Qed.

(** the fields of a row that the parser accepts *)
Record good_row (count : Z) (fields : list string) : Prop := {
  gr_count : len fields = count;
  gr_chars : Forall (all_chars field_char) fields;
  gr_size : slength (join_with ":" fields) ≤ MaxLineBytes;
  gr_name : name (field fields 0) = true }.

Lemma good_row_text count fields : good_row count fields → all_chars row_char (join_with ":" fields).
Proof.
  intros []. apply all_chars_join; [done|]. eapply Forall_impl; [done|]. intros w. apply all_chars_impl. intros c. unfold field_char. rewrite andb_true_iff. tauto.
Qed.
Lemma good_row_split count fields : good_row count fields → fields ≠ [] → split_on ":" (join_with ":" fields) = fields.
Proof.
  intros [] Hne. apply split_join; [done|]. eapply Forall_impl; [done|]. intros w. by apply all_chars_no_sep.
Qed.

(** The loop over the lines of the file collects the rows. *)
Lemma rows_loop count i rows seen rs : count ≠ 0 → Forall (good_row count) rs → NoDup ((λ r, field r 0) <$> rs) →
  (∀ r, r ∈ rs → field r 0 ∉ seen) → len rows + len rs ≤ MaxFileRecords →
  for_range (λ _, row_step count) i (rows, seen) ((join_with ":" <$> rs) ++ [""]) = Ok (rows ++ rs, list_to_set ((λ r, field r 0) <$> rs) ∪ seen).
Proof.
  intros Hc HF. revert i rows seen. induction HF as [|r rs Hr HF IH]; intros i rows seen HN Hs Hl; rewrite ?fmap_cons; cbn [app for_range].
  { cbn. by rewrite app_nil_r, union_empty_l_L. }
  rewrite fmap_cons in HN. apply NoDup_cons in HN as [Hx0 HN]. unfold len in Hl. cbn [length] in Hl. assert (Hne : r ≠ []) by (intros ->; destruct Hr as [Hx _ _ _]; unfold len in Hx; cbn in Hx; lia).
  pose proof (good_row_split _ _ Hr Hne) as Hsp. pose proof (good_row_text _ _ Hr) as Ht. destruct Hr as [H1 H2 H3 H4].
  unfold row_step at 1. rewrite (proj2 (Z.ltb_ge _ _)) by done.
  assert (Hn : (join_with ":" r == "") || has_prefix "#" (join_with ":" r) = false).
  { destruct r as [|w r]; [done|]. cbn in H4. unfold name in H4. destruct w as [|c w]; [done|]. destruct (_ || _); [done|].
    assert (Hx : join_with ":" (String c w :: r) = String c (join_with ":" (w :: r))) by (destruct r; done). rewrite Hx. apply orb_false_iff. split; [done|].
    cbn [has_prefix String.prefix]. destruct (ascii_dec "#" c) as [<-|]; [|done]. exfalso. by destruct (name_ascii (String "#" w)) as [_ ?]; [unfold name; by rewrite H4; case_match|]. }
  rewrite Hn, Hsp. change (default "" (r !! 0%nat)) with (field r 0). rewrite H1, Z.eqb_refl, H4, bool_decide_eq_false_2 by (apply Hs; set_solver).
  rewrite (proj2 (Z.leb_gt _ _)) by (unfold len; lia). cbn [negb orb]. rewrite IH; [| done | | unfold len; rewrite length_app; cbn [length]; lia].
  - rewrite <- app_assoc. cbn [app]. do 2 f_equal. rewrite list_to_set_cons. set_solver.
  - intros r' Hr'. assert (field r' 0 ≠ field r 0) as Hd by (intros E; apply Hx0; rewrite <- E; by apply (list_elem_of_fmap_2 (λ r, field r 0))). specialize (Hs r'). set_solver.
Qed.

Lemma text_chars ls : Forall (all_chars row_char) ls → forallb (λ c, row_char c || (c =? 10)) (codes (text ls)) = true.
Proof.
  induction 1 as [|l ls Hl HF IH]; [done|]. change (text (l :: ls)) with (String.append (line l) (text ls)). unfold line. rewrite !codes_append, !forallb_app, IH, andb_true_r. apply andb_true_iff. split; [|done].
  unfold all_chars in Hl. rewrite forallb_forall in *. intros c Hc. by rewrite Hl.
Qed.
Lemma text_split ls : Forall (all_chars row_char) ls → split_on "010" (text ls) = ls ++ [""].
Proof.
  intros HF. apply (SmbConfig.split_lines ls). eapply Forall_impl; [done|]. intros l. apply all_chars_impl. intros c. unfold row_char, SmbConfig.not_newline. lia.
Qed.
Lemma readRows_text count rs : count ≠ 0 → rs ≠ [] → Forall (good_row count) rs → NoDup ((λ r, field r 0) <$> rs) → len rs ≤ MaxFileRecords →
  slength (text (join_with ":" <$> rs)) ≤ MaxFileBytes → readRows (file (text (join_with ":" <$> rs))) count = Ok rs.
Proof.
  intros Hc Hne HF HN Hl Hsz. assert (HT : Forall (all_chars row_char) (join_with ":" <$> rs)).
  { apply Forall_fmap. eapply Forall_impl; [done|]. intros r. apply good_row_text. }
  pose proof (text_chars _ HT) as Hch. pose proof (text_split _ HT) as Hsp. unfold readRows, file, limit_read.
  cbn [rd_data rd_fails]. set (t := text _) in *. rewrite (proj2 (Z.leb_gt _ _)) by lia.
  assert (Ha : Forall (λ b, b < 128) (codes t)).
  { apply Forall_forall. intros b Hb%list_elem_of_In. rewrite forallb_forall in Hch. apply Hch in Hb. unfold row_char in Hb. lia. }
  rewrite (proj2 (Z.ltb_ge _ _)), utf8_valid_ascii by done. cbn [negb orb].
  replace (existsb _ (codes t)) with false; [|symmetry; apply not_true_is_false; rewrite existsb_exists; intros (c & Hin & Hbad); rewrite forallb_forall in Hch; apply Hch in Hin; unfold row_char in Hin; lia].
  rewrite Hsp, rows_loop by (done || set_solver). cbn [mbind res_bind app]. rewrite (proj2 (Z.eqb_neq _ _)); [done|]. unfold len. destruct rs; [done|]. cbn. lia.
Qed.

(** a reader of the files that drops nothing: lines, and their fields *)
Definition rows_of (data : string) : list (list string) := split_on ":" <$> split_on "010" data.
Lemma rows_of_text count rs : 0 < count → Forall (good_row count) rs → rows_of (text (join_with ":" <$> rs)) = rs ++ [[""]].
Proof.
  intros Hc HF. unfold rows_of. rewrite text_split by (apply Forall_fmap; eapply Forall_impl; [done|]; intros r; apply good_row_text).
  rewrite fmap_app, <- list_fmap_compose. f_equal. rewrite <- (list_fmap_id rs) at 2. apply list_fmap_ext. intros k r Hk%list_elem_of_lookup_2.
  rewrite Forall_forall in HF. cbn. apply (good_row_split count); [by apply HF|]. intros ->. destruct (HF _ Hk) as [Hx _ _ _]. unfold len in Hx. cbn in Hx. lia.
Qed.

(** ** Rendering an account *)
Definition user_fields (a : Account) : list string := [acc_Name a; "!"; FormatUint (acc_UID a); FormatUint (acc_GID a); ""; "/"; "/sbin/nologin"].
Definition group_fields (a : Account) : list string := [acc_Name a; "!"; FormatUint (acc_GID a); ""].

(** the rows of the two files: no password can match [!], no shell can be run, no group has members *)
Definition user_rows (accounts : list Account) : list (list string) :=
  [["root"; "!"; "0"; "0"; "root"; "/"; "/sbin/nologin"]; ["nobody"; "!"; "65534"; "65534"; "nobody"; "/"; "/sbin/nologin"]]
  ++ (user_fields <$> sort_by acc_Name accounts).
Definition group_rows (accounts : list Account) : list (list string) :=
  [["root"; "!"; "0"; ""]; ["nobody"; "!"; "65534"; ""]] ++ (group_fields <$> sort_by acc_Name accounts).

Lemma account_name n : ShareConfig.accountName n = true →
  all_chars field_char n ∧ name n = true ∧ slength n ≤ 32 ∧ n ≠ "root" ∧ n ≠ "nobody".
Proof.
  unfold ShareConfig.accountName. destruct (_ || _) eqn:Hg; [done|]. rewrite !andb_true_iff. intros [[[Hc H1] H2] _]. go_bool in H1. go_bool in H2.
  apply orb_false_iff in Hg as [[[? ?]%orb_false_iff ?]%orb_false_iff _].
  pose proof Hc as Hb. rewrite forallb_runes in Hb by (intros r Hr; unfold ShareConfig.account_char, is_lower, is_digit; lia).
  split_and!; try done; [|unfold name; rewrite (proj2 (orb_false_iff _ _)) by lia|lia].
  - unfold all_chars. rewrite forallb_forall in Hb |- *. intros c Hin. apply Hb in Hin.
    unfold ShareConfig.account_char, is_lower, is_digit, field_char, row_char in *. lia.
  - rewrite forallb_forall in Hc |- *. intros c Hin. apply Hc in Hin. unfold ShareConfig.account_char, name_char, is_lower, is_digit, is_upper in *. lia.
Qed.

Section account.
Context (first last : Z) (Hwin : 1000 ≤ first ∧ last ≤ 60000) (a : Account) (Ha : good_account first last a).
Lemma id_chars n : 0 ≤ n → all_chars field_char (FormatUint n).
Proof. intros Hn. apply all_chars_uint; [|done]. intros c. unfold is_digit, field_char, row_char. lia. Qed.
Lemma account_numbers : 1000 ≤ acc_UID a ≤ 60000 ∧ acc_GID a = acc_UID a.
Proof. destruct Ha. lia. Qed.
Lemma user_fields_good : good_row 7 (user_fields a) ∧ slength (join_with ":" (user_fields a)) ≤ 63.
Proof.
  destruct (account_name _ (ga_name _ _ _ Ha)) as (H1 & H2 & H3 & _). destruct account_numbers as [Hu Hg].
  assert (Hl : slength (join_with ":" (user_fields a)) ≤ 63).
  { cbn [user_fields join_with]. rewrite ?slength_append, ?slength_String, Hg. pose proof (slength_id (acc_UID a) ltac:(lia)).
    repeat match goal with |- context [slength (String.append ?x ?y)] => rewrite (slength_append x y) | |- context [slength (String ?c ?y)] => rewrite (slength_String c y) end.
    change (slength "") with 0. lia. }
  split; [|done]. split; [done| |unfold MaxLineBytes; lia|done]. unfold user_fields. rewrite Hg. repeat constructor; try done; try (apply id_chars; lia).
Qed.
Lemma group_fields_good : good_row 4 (group_fields a) ∧ slength (join_with ":" (group_fields a)) ≤ 41.
Proof.
  destruct (account_name _ (ga_name _ _ _ Ha)) as (H1 & H2 & H3 & _). destruct account_numbers as [Hu Hg].
  assert (Hl : slength (join_with ":" (group_fields a)) ≤ 41).
  { cbn [group_fields join_with]. rewrite ?slength_append, ?slength_String, Hg. pose proof (slength_id (acc_UID a) ltac:(lia)).
    repeat match goal with |- context [slength (String.append ?x ?y)] => rewrite (slength_append x y) | |- context [slength (String ?c ?y)] => rewrite (slength_String c y) end.
    change (slength "") with 0. lia. }
  split; [|done]. split; [done| |unfold MaxLineBytes; lia|done]. unfold group_fields. rewrite Hg. repeat constructor; try done; try (apply id_chars; lia).
Qed.
Lemma user_fields_entry : user_of_row (user_fields a) (user_entry a).
Proof. destruct account_numbers as [Hu Hg]. split_and!; [done|apply number_id; cbn; lia|apply number_id; cbn; lia]. Qed.
Lemma group_fields_entry : group_of_row (group_fields a) (group_entry a).
Proof. destruct account_numbers as [Hu Hg]. split_and!; cbn; try done; [apply number_id; cbn; lia|constructor..]. Qed.
End account.

(** ** The files *)
Lemma text_app ls ks : slength (text (ls ++ ks)) = slength (text ls) + slength (text ks).
Proof.
  unfold text. induction ls as [|l ls IH]; cbn [app foldr]; [change (slength "") with 0; lia|]. rewrite !slength_append, IH. lia.
Qed.
Lemma text_bound ls b : Forall (λ l, slength l ≤ b) ls → slength (text ls) ≤ len ls * (b + 1).
Proof.
  induction 1 as [|l ls Hl HF IH]; [done|]. change (text (l :: ls)) with (String.append (line l) (text ls)).
  unfold line, SmbConfig.nl, len in *. rewrite !slength_append, slength_String. change (slength "") with 0. cbn [length]. lia.
Qed.

Lemma live_count_all l : Forall (λ a, acc_State a ≠ Retired) l → live_count l = len l.
Proof. induction 1 as [|a l Ha HF IH]; [done|]. rewrite live_count_cons, bool_decide_eq_false_2, IH by done. unfold len. cbn [length]. lia. Qed.

Section files.
Context (accounts : slice Account) (Hl : listable accounts).
Let sorted := sort_by acc_Name (elems accounts).
Lemma sorted_good : Forall (good_account 1000 60000) sorted.
Proof. subst sorted. rewrite sort_by_perm. apply (wr_accounts _ (proj1 Hl)). Qed.
Lemma sorted_len : len sorted ≤ 128.
Proof.
  destruct Hl as [Hw Hr]. pose proof (wr_live _ Hw) as H. cbn [lookup_registry reg_Accounts] in H. rewrite live_count_all in H by done.
  subst sorted. unfold len in *. rewrite sort_by_perm. unfold MaxLive, ShareConfig.MaxUsers in H. lia.
Qed.
Lemma files_small : slength (text (fixed_users ++ (passwd_row <$> sorted))) + slength (text (fixed_groups ++ (group_line <$> sorted)))
  + slength sambaFilesOnlyNSS ≤ 14000.
Proof.
  rewrite !text_app. pose proof sorted_len as Hn. pose proof sorted_good as HG.
  assert (H1 : slength (text (passwd_row <$> sorted)) ≤ len sorted * 64).
  { replace (len sorted) with (len (passwd_row <$> sorted)) by (unfold len; by rewrite length_fmap). apply (text_bound _ 63), Forall_fmap.
    eapply Forall_impl; [exact HG|]. intros a Ha. apply (user_fields_good 1000 60000 ltac:(lia) a Ha). }
  assert (H2 : slength (text (group_line <$> sorted)) ≤ len sorted * 42).
  { replace (len sorted) with (len (group_line <$> sorted)) by (unfold len; by rewrite length_fmap). apply (text_bound _ 41), Forall_fmap.
    eapply Forall_impl; [exact HG|]. intros a Ha. apply (group_fields_good 1000 60000 ltac:(lia) a Ha). }
  assert (slength (text fixed_users) + slength (text fixed_groups) + slength sambaFilesOnlyNSS ≤ 300) by (vm_compute; done). lia.
Qed.
Lemma names_fresh : NoDup ("root" :: "nobody" :: (acc_Name <$> sorted)).
Proof.
  assert (HN : NoDup (acc_Name <$> sorted)) by (subst sorted; rewrite sort_by_perm; apply (wr_names _ (proj1 Hl))).
  assert (Hx : ∀ a, a ∈ sorted → acc_Name a ≠ "root" ∧ acc_Name a ≠ "nobody").
  { intros a Ha. pose proof sorted_good as HG. rewrite Forall_forall in HG. pose proof (account_name _ (ga_name _ _ _ (HG a Ha))). tauto. }
  constructor; [|constructor; [|done]].
  - intros [|(a & E & Ha)%list_elem_of_fmap]%elem_of_cons; [done|]. by destruct (Hx a Ha) as [[] _].
  - intros (a & E & Ha)%list_elem_of_fmap. by destruct (Hx a Ha) as [_ []].
Qed.
Lemma user_rows_good : Forall (good_row 7) (user_rows (elems accounts)).
Proof.
  unfold user_rows. apply Forall_app. split; [repeat constructor; vm_compute; done|]. apply Forall_fmap. eapply Forall_impl; [exact sorted_good|].
  intros a Ha. apply (user_fields_good 1000 60000 ltac:(lia) a Ha).
Qed.
Lemma group_rows_good : Forall (good_row 4) (group_rows (elems accounts)).
Proof.
  unfold group_rows. apply Forall_app. split; [repeat constructor; vm_compute; done|]. apply Forall_fmap. eapply Forall_impl; [exact sorted_good|].
  intros a Ha. apply (group_fields_good 1000 60000 ltac:(lia) a Ha).
Qed.
Lemma passwd_text : fixed_users ++ (passwd_row <$> sorted) = join_with ":" <$> user_rows (elems accounts).
Proof. unfold user_rows. rewrite fmap_app, <- list_fmap_compose. done. Qed.
Lemma group_text : fixed_groups ++ (group_line <$> sorted) = join_with ":" <$> group_rows (elems accounts).
Proof. unfold group_rows. rewrite fmap_app, <- list_fmap_compose. done. Qed.
Lemma files_parse : Parse (file (text (fixed_users ++ (passwd_row <$> sorted)))) (file (text (fixed_groups ++ (group_line <$> sorted))))
  = Ok (lookup_snapshot (elems accounts)).
Proof.
  pose proof files_small as Hsz. rewrite Parse_rows. pose proof sorted_len as Hn. pose proof sorted_good as HG. pose proof names_fresh as HN.
  pose proof (slength_nonneg (text (fixed_users ++ (passwd_row <$> sorted)))). pose proof (slength_nonneg (text (fixed_groups ++ (group_line <$> sorted)))).
  pose proof (slength_nonneg sambaFilesOnlyNSS). exists (user_rows (elems accounts)), (group_rows (elems accounts)).
  rewrite passwd_text, group_text in *. unfold len in Hn. split_and!; [| |done| |].
  - apply readRows_text; try done; [apply user_rows_good| |unfold len, user_rows; rewrite length_app, length_fmap; cbn; unfold MaxFileRecords; fold sorted; lia|unfold MaxFileBytes; lia].
    unfold user_rows. rewrite fmap_app, <- list_fmap_compose. exact HN.
  - apply readRows_text; try done; [apply group_rows_good| |unfold len, group_rows; rewrite length_app, length_fmap; cbn; unfold MaxFileRecords; fold sorted; lia|unfold MaxFileBytes; lia].
    unfold group_rows. rewrite fmap_app, <- list_fmap_compose. exact HN.
  - unfold user_rows. cbn [app]. do 2 (constructor; [done|]). fold sorted. apply Forall2_fmap, Forall_Forall2_diag. eapply Forall_impl; [exact HG|].
    intros a Ha. by apply (user_fields_entry 1000 60000 ltac:(lia)).
  - unfold group_rows. cbn [app]. do 2 (constructor; [by split_and!; try done; constructor|]). fold sorted. apply Forall2_fmap, Forall_Forall2_diag. eapply Forall_impl; [exact HG|].
    intros a Ha. by apply (group_fields_entry 1000 60000 ltac:(lia)).
Qed.
(** the rows as they stand in the files, field by field *)
Lemma files_rows : rows_of (text (fixed_users ++ (passwd_row <$> sorted))) = user_rows (elems accounts) ++ [[""]]
  ∧ rows_of (text (fixed_groups ++ (group_line <$> sorted))) = group_rows (elems accounts) ++ [[""]].
Proof. rewrite passwd_text, group_text. split; [apply (rows_of_text 7), user_rows_good|apply (rows_of_text 4), group_rows_good]; done. Qed.
End files.

Lemma not_retired l : existsb (λ a, acc_State a == Retired) l = false ↔ Forall (λ a, acc_State a ≠ Retired) l.
Proof. rewrite existsb_False, Forall_forall. setoid_rewrite bool_decide_eq_false. done. Qed.

(** Rendering succeeds for every set of accounts that can be listed. *)
Lemma render_Ok accounts out : renderNativeSambaNSS accounts = Ok out ↔ listable accounts ∧
  out = (text (fixed_users ++ (passwd_row <$> sort_by acc_Name (elems accounts))), text (fixed_groups ++ (group_line <$> sort_by acc_Name (elems accounts))), sambaFilesOnlyNSS).
Proof.
  unfold renderNativeSambaNSS. change (is_ok (Registry_New 1000 60000).2) with true. cbn [negb orb]. unfold listable. rewrite <- Registry_Validate_ok, <- not_retired.
  cbn [lookup_registry reg_Accounts]. split.
  - intros [Hg H]%refuse_Ok. apply refuse_Ok in H as [Hr [_ [= <-]]%refuse_Ok]. apply orb_false_iff in Hg as [Hv%negb_false_iff _]. done.
  - intros [[Hv Hr] ->]. assert (HL : listable accounts) by (split; [by apply Registry_Validate_ok|by apply not_retired]).
    pose proof (files_small accounts HL). pose proof (sorted_len accounts HL) as Hn. unfold len in Hn. rewrite sort_by_perm in Hn.
    rewrite Hv, Hr. cbn [negb orb]. rewrite !(proj2 (Z.ltb_ge _ _)); [done|unfold MaxSambaNSSBytes; lia|unfold MaxLive, ShareConfig.MaxUsers, slen, len; lia].
Qed.

(** C21: The lookup files of Samba mean the accounts: rendering succeeds exactly for accounts that a registry could hold with none retired (so the
    size limit never refuses), and the passwd and group files, read with the parser of local identities, list root, nobody and exactly the accounts, with
    their numbers, in order of name and without members; field by field the files hold nothing else: every password is locked and every shell refuses, so they
    carry no secret; the name-service profile is one the files-only check accepts. *)
Theorem lookup_files_exact accounts :
  (is_ok (renderNativeSambaNSS accounts) = true ↔ listable accounts)
  ∧ ∀ passwd group nss, renderNativeSambaNSS accounts = Ok (passwd, group, nss) →
      Parse (file passwd) (file group) = Ok (lookup_snapshot (elems accounts)) ∧ FilesOnlyNSS nss = true
      ∧ rows_of passwd = user_rows (elems accounts) ++ [[""]] ∧ rows_of group = group_rows (elems accounts) ++ [[""]]
      ∧ slength passwd + slength group + slength nss ≤ 14000 < MaxSambaNSSBytes.
Proof.
  split.
  - rewrite is_ok_true. setoid_rewrite render_Ok. naive_solver.
  - intros p g n [HL [= -> -> ->]]%render_Ok. split_and!; [by apply files_parse|vm_compute; done|by apply files_rows..|by apply files_small|done].
Qed.

End SambaNss.
