(* ===== verification/FilePlan.v ===== *)
(** * The file-service plan: [internal/fileserviceplan/]

    [Build] compiles the desired file services against one observation of the
    identities and one of the mounted volumes: [plan.go], and the candidates that
    [nfs_candidate.go], [samba_candidate.go], [samba_roles.go] and
    [samba_shares.go] derive from a plan.  The order in which Go visits the keys
    of a map is an argument (class [MapOrder]), and so is SHA-256. *)

From S2P Require Import Prelude GoStrings Shares NetIP GoPath NfsConfig SmbConfig FileService Accounts Unix Store Register SambaJournal HashInput SambaNss.

Module FilePlan.
Import GoPath ServiceAccounts HashInput SambaNss.

(** ** Evidence *)
Definition CompatibilityQualified : string := "qualified".
Definition CompatibilityUnqualified : string := "unqualified".
Definition MaxObservedVolumes : Z := ShareConfig.MaxVolumes.
Definition MaxUnixIdentities : Z := 4096.

Record ObservedVolume := mkObserved {
  ov_VolumeID : string; ov_FilesystemUUID : string; ov_MountPath : string; ov_Compatibility : string;
  ov_MountID : Z; ov_DeviceMajor : Z; ov_DeviceMinor : Z; ov_ReadOnly : bool }.
Record StorageSnapshot := mkStorage {
  st_Complete : bool; st_Generation : Z; st_OwnerFingerprint : list Z; st_Volumes : slice ObservedVolume }.
Record SambaIdentity := mkSambaIdentity { si_Journal : SmbProvision.SmbJournal; si_Observation : SmbProvision.Observation }.
Record IdentitySnapshot := mkIdentities {
  id_Complete : bool; id_Generation : Z; id_Fingerprint : list Z; id_Registry : Registry;
  id_UnixUIDs : slice Z; id_UnixGIDs : slice Z; id_Samba : slice SambaIdentity; id_KerberosReady : bool }.
Record Freshness := mkFreshness {
  fr_PolicyRevision : Z; fr_ActiveRevision : Z; fr_IdentityGeneration : Z; fr_IdentityFingerprint : list Z;
  fr_StorageGeneration : Z; fr_StorageFingerprint : list Z }.
#[export] Instance Freshness_eq_dec : EqDecision Freshness. Proof. solve_decision. Defined.

Record VolumeBinding := mkBinding {
  vb_VolumeID : string; vb_FilesystemUUID : string; vb_MountPath : string;
  vb_MountID : Z; vb_DeviceMajor : Z; vb_DeviceMinor : Z; vb_ReadOnly : bool }.
Record NFSExportRoot := mkExportRoot {
  nr_ID : string; nr_Volume : VolumeBinding; nr_RelativePath : string; nr_ReadOnly : bool; nr_Clients : list NfsConfig.Client }.
(** [sambaLookupDocuments] *)
Record lookupDocuments := mkLookup { lk_passwd : string; lk_group : string; lk_nss : string }.
Definition zero_lookup : lookupDocuments := mkLookup "" "" "".
Record Plan := mkPlan {
  pl_schemaVersion : Z; pl_freshness : Freshness; pl_scope : string; pl_activationAvailable : bool; pl_applied : bool;
  pl_runtimeValidated : bool; pl_volumes : list VolumeBinding; pl_sambaConfig : string; pl_sambaPolicy : ShareConfig.Config;
  pl_sambaNSS : lookupDocuments; pl_sambaManagementNSS : lookupDocuments;
  pl_nfsConfig : string; pl_nfsRoots : list NFSExportRoot; pl_requirements : list string }.

(** [[32]byte{}] *)
Definition zero_fingerprint : list Z := replicate 32 0.

(** ** Checking the evidence *)
Definition sameAccountIdentity (first second : Account) : bool :=
  (acc_ID first == acc_ID second) && (acc_Name first == acc_Name second) && (acc_UID first =? acc_UID second) && (acc_GID first =? acc_GID second).

Definition seen_step {A} `{Countable A} (seen : gset A) (x : A) : res plan_error (gset A) :=
  refuse x ∈? seen => ErrInvalidEvidence ;; Ok ({[x]} ∪ seen).
Definition samba_step (accounts : gmap string Account) (seenSMB : gset string) (identity : SambaIdentity) : res plan_error (gset string) :=
  let journal := si_Journal identity in
  let id := acc_ID (SmbProvision.sj_Account journal) in
  refuse negb (SmbProvision.SmbJournal_Validate journal)
         || match accounts !! id with Some account => negb (sameAccountIdentity (SmbProvision.sj_Account journal) account) | None => true end
         || (id ∈? seenSMB) => ErrInvalidEvidence ;;
  Ok ({[id]} ∪ seenSMB).
Definition validateIdentitySnapshot (snapshot : IdentitySnapshot) : res plan_error unit :=
  refuse negb (id_Complete snapshot) || (id_Generation snapshot =? 0) || negb (is_ok (Registry_Validate (id_Registry snapshot)))
         || (id_Fingerprint snapshot == zero_fingerprint)
         || is_nil (id_UnixUIDs snapshot) || is_nil (id_UnixGIDs snapshot) || is_nil (id_Samba snapshot)
         || (MaxUnixIdentities <? slen (id_UnixUIDs snapshot)) || (MaxUnixIdentities <? slen (id_UnixGIDs snapshot))
         || (MaxRecords <? slen (id_Samba snapshot)) => ErrNotReady ;;
  _ ← for_range (λ _, seen_step) 0 ∅ (elems (id_UnixUIDs snapshot));
  _ ← for_range (λ _, seen_step) 0 ∅ (elems (id_UnixGIDs snapshot));
  let accounts := account_map (elems (reg_Accounts (id_Registry snapshot))) in
  _ ← for_range (λ _, samba_step accounts) 0 ∅ (elems (id_Samba snapshot));
  Ok tt.

Definition samba_map (l : list SambaIdentity) : gmap string SambaIdentity :=
  fold_left (λ m i, <[acc_ID (SmbProvision.sj_Account (si_Journal i)) := i]> m) l ∅.
(** the account is known to Unix and enabled in Samba, as its journal records *)
Definition account_enabled (snapshot : IdentitySnapshot) (byID : gmap string SambaIdentity) (account : Account) : bool :=
  (acc_UID account ∈? elems (id_UnixUIDs snapshot)) && (acc_GID account ∈? elems (id_UnixGIDs snapshot))
  && match byID !! acc_ID account with
     | None => false
     | Some identity =>
       let observation := si_Observation identity in
       (SmbProvision.sj_Phase (si_Journal identity) == SmbProvision.Enabled)
       && sameAccountIdentity (SmbProvision.sj_Account (si_Journal identity)) account
       && SmbProvision.ob_Present observation && negb (SmbProvision.ob_Disabled observation)
       && (SmbProvision.ob_Name observation == acc_Name account)
       && (SmbProvision.ob_UID observation =? acc_UID account) && (SmbProvision.ob_GID observation =? acc_GID account)
       && (SmbProvision.ob_SID observation != "") && (SmbProvision.ob_SID observation == SmbProvision.sj_SID (si_Journal identity))
     end.
Definition validateSMBAccounts (policy : ShareConfig.Config) (snapshot : IdentitySnapshot) : res plan_error unit :=
  match Registry_BindShares (id_Registry snapshot) policy with
  | Err _ => Err ErrNotReady
  | Ok bound =>
    let byID := samba_map (elems (id_Samba snapshot)) in
    for_range (λ _ _ account, refuse negb (account_enabled snapshot byID account) => ErrNotReady ;; Ok tt) 0 tt (bnd_Accounts bound)
  end.

Definition validateNFSIdentities (policy : NfsConfig.Policy) (snapshot : IdentitySnapshot) : res plan_error unit :=
  let uids : gset Z := list_to_set (elems (id_UnixUIDs snapshot)) in
  let gids : gset Z := list_to_set (elems (id_UnixGIDs snapshot)) in
  for_range (λ _ _ export, for_range (λ _ _ client,
      refuse negb (NfsConfig.cl_AnonymousUID client ∈? uids) || negb (NfsConfig.cl_AnonymousGID client ∈? gids) => ErrNotReady ;; Ok tt)
    0 tt (elems (NfsConfig.ex_Clients export))) 0 tt (elems (NfsConfig.pol_Exports policy)).

Definition validateLogicalVolume (id uuid : string) : bool :=
  let config := ShareConfig.mkConfig ShareConfig.Format ShareConfig.SchemaVersion 1 (Some [ShareConfig.mkVolume id uuid]) (Some []) (Some []) in
  is_ok (ShareConfig.Config_Validate config) && (Clean id == id) && negb (contains_any id "/").

Record volumes_seen := mkVolumesSeen { vs_ids : gset string; vs_uuids : gset string; vs_mounts : gset Z; vs_devices : gset (Z * Z) }.
Definition volume_step (known : gset string) (seen : volumes_seen) (volume : ObservedVolume) : res plan_error volumes_seen :=
  let device := (ov_DeviceMajor volume, ov_DeviceMinor volume) in
  refuse negb (ov_VolumeID volume ∈? known) || (ov_VolumeID volume ∈? vs_ids seen) || (ov_FilesystemUUID volume ∈? vs_uuids seen)
         || (ov_MountID volume ∈? vs_mounts seen) || (device ∈? vs_devices seen)
         || (ov_MountID volume =? 0) || (ov_DeviceMajor volume =? 0)
         || (ov_MountPath volume != Join ShareConfig.VolumeMountRoot (ov_VolumeID volume))
         || ((ov_Compatibility volume != CompatibilityQualified) && (ov_Compatibility volume != CompatibilityUnqualified)) => ErrInvalidEvidence ;;
  refuse negb (validateLogicalVolume (ov_VolumeID volume) (ov_FilesystemUUID volume)) => ErrInvalidEvidence ;;
  Ok (mkVolumesSeen ({[ov_VolumeID volume]} ∪ vs_ids seen) ({[ov_FilesystemUUID volume]} ∪ vs_uuids seen)
        ({[ov_MountID volume]} ∪ vs_mounts seen) ({[device]} ∪ vs_devices seen)).
(** [validateStorageSnapshot]; of the policy it reads the volumes *)
Definition validateStorageSnapshot (snapshot : StorageSnapshot) (volumes : slice ShareConfig.Volume) : res plan_error unit :=
  refuse negb (st_Complete snapshot) || (st_Generation snapshot =? 0) || is_nil (st_Volumes snapshot)
         || (MaxObservedVolumes <? slen (st_Volumes snapshot)) => ErrNotReady ;;
  let known : gset string := list_to_set (ShareConfig.vol_ID <$> elems volumes) in
  _ ← for_range (λ _, volume_step known) 0 (mkVolumesSeen ∅ ∅ ∅ ∅) (elems (st_Volumes snapshot));
  Ok tt.

(** ** [fingerprintStorageSnapshot] *)

Definition put_volume (v : ObservedVolume) : list Z :=
  put_string (ov_VolumeID v) ++ put_string (ov_FilesystemUUID v) ++ put_string (ov_MountPath v) ++ put_string (ov_Compatibility v)
  ++ put_uint64 (ov_MountID v) ++ put_uint64 (ov_DeviceMajor v) ++ put_uint64 (ov_DeviceMinor v) ++ put_bool (ov_ReadOnly v).
(** the bytes that are hashed *)
Definition storage_bytes (s : StorageSnapshot) : list Z :=
  put_uint64 (st_Generation s) ++ st_OwnerFingerprint s ++ put_bool (st_Complete s)
  ++ put_uint64 (slen (st_Volumes s)) ++ mjoin (put_volume <$> sort_by ov_VolumeID (elems (st_Volumes s))).

(** ** [Build] *)
Definition referencedVolumes (config : FileService.Config) : gset string * gset string :=
  let shares := elems (ShareConfig.cfg_Shares (FileService.fc_Shares config)) in
  let exports := elems (NfsConfig.pol_Exports (FileService.fc_NFS config)) in
  (list_to_set (ShareConfig.share_VolumeID <$> shares) ∪ list_to_set (NfsConfig.ex_VolumeID <$> exports),
   list_to_set (ShareConfig.share_VolumeID <$> filter (λ s, existsb (λ g, ShareConfig.grant_Access g == "rw") (elems (ShareConfig.share_Grants s)) = true) shares)
   ∪ list_to_set (NfsConfig.ex_VolumeID <$> filter (λ e, existsb (λ c, NfsConfig.cl_Access c == "rw") (elems (NfsConfig.ex_Clients e)) = true) exports)).
Definition desiredVolume (config : ShareConfig.Config) (id : string) : option ShareConfig.Volume :=
  List.find (λ v, ShareConfig.vol_ID v == id) (elems (ShareConfig.cfg_Volumes config)).
Definition observed_map (l : list ObservedVolume) : gmap string ObservedVolume := fold_left (λ m v, <[ov_VolumeID v := v]> m) l ∅.
Definition binding_of (v : ObservedVolume) : VolumeBinding :=
  mkBinding (ov_VolumeID v) (ov_FilesystemUUID v) (ov_MountPath v) (ov_MountID v) (ov_DeviceMajor v) (ov_DeviceMinor v) (ov_ReadOnly v).
Definition binding_step (config : ShareConfig.Config) (writes : gset string) (observed : gmap string ObservedVolume)
  (bindings : list VolumeBinding) (id : string) : res plan_error (list VolumeBinding) :=
  match observed !! id with
  | None => Err ErrNotReady
  | Some volume =>
    refuse ov_Compatibility volume != CompatibilityQualified => ErrNotReady ;;
    match desiredVolume config id with
    | None => Err ErrInvalidEvidence
    | Some expected =>
      refuse ov_FilesystemUUID volume != ShareConfig.vol_FilesystemUUID expected => ErrInvalidEvidence ;;
      refuse (id ∈? writes) && ov_ReadOnly volume => ErrNotReady ;;
      Ok (bindings ++ [binding_of volume])
    end
  end.

Definition root_step (volumes : list VolumeBinding) (roots : list NFSExportRoot) (export : NfsConfig.Export) : res plan_error (list NFSExportRoot) :=
  match List.find (λ v, vb_VolumeID v == NfsConfig.ex_VolumeID export) volumes with
  | None => Err ErrInvalidEvidence
  | Some volume =>
    let clients := elems (NfsConfig.ex_Clients export) in
    Ok (roots ++ [mkExportRoot (NfsConfig.ex_ID export) volume (NfsConfig.ex_RelativePath export)
                    (forallb (λ c, NfsConfig.cl_Access c != "rw") clients) (sort_by NfsConfig.cl_Network clients)])
  end.
Definition nfsCandidateRoots (policy : NfsConfig.Policy) (volumes : list VolumeBinding) : res plan_error (list NFSExportRoot) :=
  roots ← for_range (λ _, root_step volumes) 0 [] (elems (NfsConfig.pol_Exports policy));
  Ok (sort_by nr_ID roots).

(** [sambaManagementLookup] *)
Definition management_step (snapshot : IdentitySnapshot) (accounts : list Account) (account : Account) : res plan_error (list Account) :=
  if acc_State account == Retired then Ok accounts
  else refuse negb (acc_UID account ∈? elems (id_UnixUIDs snapshot)) || negb (acc_GID account ∈? elems (id_UnixGIDs snapshot)) => ErrNotReady ;;
       Ok (accounts ++ [account]).
Definition documents (d : string * string * string) : lookupDocuments := mkLookup d.1.1 d.1.2 d.2.
Definition sambaManagementLookup (snapshot : IdentitySnapshot) : lookupDocuments :=
  match for_range (λ _, management_step snapshot) 0 [] (elems (reg_Accounts (id_Registry snapshot))) with
  | Err _ => zero_lookup
  | Ok accounts => match renderNativeSambaNSS (Some accounts) with Err _ => zero_lookup | Ok d => documents d end
  end.

(** the order in which a loop visits the keys of a map *)
Class MapOrder (order : gset string → list string) : Prop := map_order_perm (s : gset string) : order s ≡ₚ elements s.
#[export] Instance elements_order : MapOrder elements.
Proof. intros s. reflexivity. Qed.

Section build.
Context (sha256 : list Z → list Z) (order : gset string → list string).
Definition fingerprintStorageSnapshot (s : StorageSnapshot) : list Z := sha256 (storage_bytes s).
Definition Build (config : FileService.Config) (activeRevision : Z) (identities : IdentitySnapshot) (storage : StorageSnapshot) : res plan_error Plan :=
  refuse negb (FileService.Config_Validate config) => ErrInvalidPolicy ;;
  let shares := FileService.fc_Shares config in
  let nfs := FileService.fc_NFS config in
  match FileService.Build shares nfs with
  | Err _ => Err ErrInvalidPolicy
  | Ok preview =>
    _ ← validateIdentitySnapshot identities;
    _ ← validateStorageSnapshot storage (ShareConfig.cfg_Volumes shares);
    _ ← validateSMBAccounts shares identities;
    lookup ← renderSambaNSS shares (id_Registry identities);
    _ ← validateNFSIdentities nfs identities;
    refuse NfsConfig.pre_RequiresKerberos (FileService.fp_NFS preview) && negb (id_KerberosReady identities) => ErrNotReady ;;
    let managementNSS := sambaManagementLookup identities in
    let '(used, writes) := referencedVolumes config in
    let observed := observed_map (elems (st_Volumes storage)) in
    bindings ← for_range (λ _, binding_step shares writes observed) 0 [] (order used);
    let bindings := sort_by vb_VolumeID bindings in
    nfsRoots ← nfsCandidateRoots nfs bindings;
    Ok (mkPlan 1
          (mkFreshness (FileService.fc_Revision config) activeRevision (id_Generation identities) (id_Fingerprint identities)
             (st_Generation storage) (fingerprintStorageSnapshot storage))
          "candidate-only" false false false bindings (SmbConfig.pv_Sections (FileService.fp_Samba preview)) shares
          (documents lookup) managementNSS (NfsConfig.pre_Table (FileService.fp_NFS preview)) nfsRoots (FileService.fp_Requirements preview))
  end.
End build.

Definition FreshAgainst (p : Plan) (current : Freshness) : bool := (pl_scope p == "candidate-only") && (pl_freshness p == current).

(** ** Candidates *)
Record NFSv3Candidate := mkNfsCandidate { nc_table : string; nc_roots : list NFSExportRoot; nc_freshness : Freshness; nc_valid : bool }.
Definition NFSv3TCPCandidate (p : Plan) : res plan_error NFSv3Candidate :=
  refuse pl_scope p != "candidate-only" => ErrNotReady ;;
  refuse existsb (λ root, existsb (λ c, NfsConfig.cl_Security c != "sys") (nr_Clients root)) (pl_nfsRoots p) => ErrNotReady ;;
  Ok (mkNfsCandidate (pl_nfsConfig p) (pl_nfsRoots p) (pl_freshness p) true).
Definition Nfs_Documents (c : NFSv3Candidate) : res plan_error (bool * string * list NFSExportRoot) :=
  refuse negb (nc_valid c) => ErrNotReady ;;
  if len (nc_roots c) =? 0 then Ok (false, "", []) else Ok (true, nc_table c, nc_roots c).
Definition Nfs_FreshAgainst (c : NFSv3Candidate) (current : Freshness) : bool := nc_valid c && (nc_freshness c == current).
Definition Nfs_FreshAgainstStorage (sha256 : list Z → list Z) (c : NFSv3Candidate) (s : StorageSnapshot) : bool :=
  nc_valid c && st_Complete s && (0 <? st_Generation s) && negb (is_nil (st_Volumes s))
  && (slen (st_Volumes s) <=? MaxObservedVolumes) && (fr_StorageGeneration (nc_freshness c) =? st_Generation s)
  && (fr_StorageFingerprint (nc_freshness c) == fingerprintStorageSnapshot sha256 s).

Record SambaShareRoot := mkShareRoot { sr_ID : string; sr_VolumeID : string; sr_RelativePath : string; sr_ReadOnly : bool }.
Definition share_root (s : ShareConfig.Share) : SambaShareRoot :=
  mkShareRoot (ShareConfig.share_ID s) (ShareConfig.share_VolumeID s) (ShareConfig.share_RelativePath s)
    (negb (existsb (λ g, ShareConfig.grant_Access g == "rw") (elems (ShareConfig.share_Grants s)))).
Definition SambaShareCandidates (p : Plan) : res plan_error (string * list SambaShareRoot) :=
  refuse pl_scope p != "candidate-only" => ErrNotReady ;;
  match SmbConfig.BuildIsolated (pl_sambaPolicy p) with
  | Err _ => Err ErrNotReady
  | Ok preview => Ok (SmbConfig.pv_Sections preview, sort_by sr_ID (share_root <$> elems (ShareConfig.cfg_Shares (pl_sambaPolicy p))))
  end.
Definition missing (d : lookupDocuments) : bool := (lk_passwd d == "") || (lk_group d == "") || (lk_nss d == "").
Definition SambaNSSCandidates (p : Plan) : res plan_error lookupDocuments :=
  refuse (pl_scope p != "candidate-only") || missing (pl_sambaNSS p) => ErrNotReady ;;
  Ok (pl_sambaNSS p).

Record SambaIsolatedCandidate := mkIsolated {
  ic_lookup : lookupDocuments; ic_sections : string; ic_roots : list SambaShareRoot; ic_freshness : Freshness; ic_valid : bool }.
Definition Plan_SambaIsolatedCandidate (p : Plan) : res plan_error SambaIsolatedCandidate :=
  lookup ← SambaNSSCandidates p;
  match SambaShareCandidates p with
  | Err _ => Err ErrNotReady
  | Ok (sections, roots) =>
    refuse len roots =? 0 => ErrNotReady ;;
    Ok (mkIsolated lookup sections roots (pl_freshness p) true)
  end.
Definition Isolated_Documents (c : SambaIsolatedCandidate) : res plan_error (lookupDocuments * string * list SambaShareRoot) :=
  refuse negb (ic_valid c) => ErrNotReady ;; Ok (ic_lookup c, ic_sections c, ic_roots c).
Definition Isolated_FreshAgainst (c : SambaIsolatedCandidate) (current : Freshness) : bool := ic_valid c && (ic_freshness c == current).

Record SambaRoleCandidate := mkRole { rc_management : lookupDocuments; rc_service : SambaIsolatedCandidate; rc_valid : bool }.
Definition Plan_SambaRoleCandidate (p : Plan) : res plan_error SambaRoleCandidate :=
  refuse (pl_scope p != "candidate-only") || missing (pl_sambaManagementNSS p) => ErrNotReady ;;
  service ← Plan_SambaIsolatedCandidate p;
  Ok (mkRole (pl_sambaManagementNSS p) service true).
Definition ManagementDocuments (c : SambaRoleCandidate) : res plan_error lookupDocuments :=
  refuse negb (rc_valid c) => ErrNotReady ;; Ok (rc_management c).
Definition ServiceCandidate (c : SambaRoleCandidate) : res plan_error SambaIsolatedCandidate :=
  refuse negb (rc_valid c) => ErrNotReady ;; Ok (rc_service c).
Definition Role_FreshAgainst (c : SambaRoleCandidate) (current : Freshness) : bool := rc_valid c && Isolated_FreshAgainst (rc_service c) current.

(** ** What the evidence has to show *)
Definition same_identity (a b : Account) : Prop := acc_ID a = acc_ID b ∧ acc_Name a = acc_Name b ∧ acc_UID a = acc_UID b ∧ acc_GID a = acc_GID b.
Abbreviation journal_account i := (SmbProvision.sj_Account (si_Journal i)).
Record identities_ok (ids : IdentitySnapshot) : Prop := {
  io_complete : id_Complete ids = true ∧ id_Generation ids ≠ 0 ∧ id_Fingerprint ids ≠ zero_fingerprint;
  io_registry : wf_registry (id_Registry ids);
  io_present : is_nil (id_UnixUIDs ids) = false ∧ is_nil (id_UnixGIDs ids) = false ∧ is_nil (id_Samba ids) = false;
  io_sizes : slen (id_UnixUIDs ids) ≤ MaxUnixIdentities ∧ slen (id_UnixGIDs ids) ≤ MaxUnixIdentities ∧ slen (id_Samba ids) ≤ MaxRecords;
  io_distinct : NoDup (elems (id_UnixUIDs ids)) ∧ NoDup (elems (id_UnixGIDs ids));
  io_journals : Forall (λ i, SmbProvision.SmbJournal_Validate (si_Journal i) = true
                   ∧ ∃ a, a ∈ elems (reg_Accounts (id_Registry ids)) ∧ same_identity (journal_account i) a) (elems (id_Samba ids));
  io_once : NoDup ((λ i, acc_ID (journal_account i)) <$> elems (id_Samba ids)) }.

Record good_observed (known : gset string) (v : ObservedVolume) : Prop := {
  gv_known : ov_VolumeID v ∈ known;
  gv_numbers : ov_MountID v ≠ 0 ∧ ov_DeviceMajor v ≠ 0;
  gv_path : ov_MountPath v = Join ShareConfig.VolumeMountRoot (ov_VolumeID v);
  gv_compat : ov_Compatibility v = CompatibilityQualified ∨ ov_Compatibility v = CompatibilityUnqualified;
  gv_names : ShareConfig.identifier (ov_VolumeID v) = true ∧ ShareConfig.filesystemUUID (ov_FilesystemUUID v) = true }.
Record storage_ok (known : gset string) (s : StorageSnapshot) : Prop := {
  so_complete : st_Complete s = true ∧ st_Generation s ≠ 0 ∧ is_nil (st_Volumes s) = false;
  so_size : slen (st_Volumes s) ≤ MaxObservedVolumes;
  so_volumes : Forall (good_observed known) (elems (st_Volumes s));
  so_ids : NoDup (ov_VolumeID <$> elems (st_Volumes s));
  so_uuids : NoDup (ov_FilesystemUUID <$> elems (st_Volumes s));
  so_mounts : NoDup (ov_MountID <$> elems (st_Volumes s));
  so_devices : NoDup ((λ v, (ov_DeviceMajor v, ov_DeviceMinor v)) <$> elems (st_Volumes s)) }.

(** an account that Unix knows and that Samba shows enabled *)
Record enabled_account (ids : IdentitySnapshot) (a : Account) : Prop := {
  ea_unix : acc_UID a ∈ elems (id_UnixUIDs ids) ∧ acc_GID a ∈ elems (id_UnixGIDs ids);
  ea_samba : ∃ i, i ∈ elems (id_Samba ids) ∧ same_identity (journal_account i) a
    ∧ SmbProvision.sj_Phase (si_Journal i) = SmbProvision.Enabled
    ∧ let o := si_Observation i in
      SmbProvision.ob_Present o = true ∧ SmbProvision.ob_Disabled o = false ∧ SmbProvision.ob_Name o = acc_Name a
      ∧ SmbProvision.ob_UID o = acc_UID a ∧ SmbProvision.ob_GID o = acc_GID a
      ∧ SmbProvision.ob_SID o ≠ "" ∧ SmbProvision.ob_SID o = SmbProvision.sj_SID (si_Journal i) }.

(** ** The checks *)
Lemma sameAccountIdentity_true a b : sameAccountIdentity a b = true ↔ same_identity a b.
Proof. unfold sameAccountIdentity, same_identity. rewrite !andb_true_iff, !bool_decide_eq_true, !Z.eqb_eq. tauto. Qed.

Lemma seen_distinct_Ok {A} `{Countable A} (l : list A) s : for_range (λ _, seen_step) 0 ∅ l = Ok s ↔ NoDup l ∧ s = list_to_set l.
Proof.
  rewrite (for_range_chain (λ (s : gset A) x, {[x]} ∪ s) _ (λ _, True) (λ s x, x ∉ s)).
  - rewrite (chain_key _ (λ s, s) (λ x, x)), (fold_key _ (λ s, s) (λ x, x)) by done. rewrite list_fmap_id, union_empty_r_L.
    rewrite Forall_forall. set_solver.
  - intros j st x st'. unfold seen_step. rewrite refuse_Ok, bool_decide_eq_false. naive_solver.
Qed.

Lemma identities_Ok ids : validateIdentitySnapshot ids = Ok tt ↔ identities_ok ids.
Proof.
  unfold validateIdentitySnapshot. rewrite refuse_Ok. repeat setoid_rewrite res_bind_Ok. setoid_rewrite seen_distinct_Ok.
  set (accounts := account_map _).
  assert (Hs : ∀ st, for_range (λ _, samba_step accounts) 0 ∅ (elems (id_Samba ids)) = Ok st ↔
    Forall (λ i, SmbProvision.SmbJournal_Validate (si_Journal i) = true ∧ ∃ a, accounts !! acc_ID (journal_account i) = Some a ∧ same_identity (journal_account i) a) (elems (id_Samba ids))
    ∧ NoDup ((λ i, acc_ID (journal_account i)) <$> elems (id_Samba ids)) ∧ st = list_to_set ((λ i, acc_ID (journal_account i)) <$> elems (id_Samba ids))).
  { intros st. rewrite (for_range_chain (λ (s : gset string) i, {[acc_ID (journal_account i)]} ∪ s) _
      (λ i, SmbProvision.SmbJournal_Validate (si_Journal i) = true ∧ ∃ a, accounts !! acc_ID (journal_account i) = Some a ∧ same_identity (journal_account i) a)
      (λ s i, acc_ID (journal_account i) ∉ s)).
    - rewrite (chain_key _ (λ s, s) (λ i, acc_ID (journal_account i))), (fold_key _ (λ s, s) (λ i, acc_ID (journal_account i))), union_empty_r_L by done.
      pose proof (not_elem_of_empty_all (λ i, acc_ID (journal_account i)) (elems (id_Samba ids))). tauto.
    - intros j st0 i st'. unfold samba_step. rewrite refuse_Ok, !orb_false_iff, negb_false_iff, bool_decide_eq_false.
      setoid_rewrite <- sameAccountIdentity_true. destruct (accounts !! _) as [a|]; [rewrite negb_false_iff|]; naive_solver. }
  setoid_rewrite Hs. rewrite !orb_false_iff, !negb_false_iff, !Z.ltb_ge, Z.eqb_neq, bool_decide_eq_false, Registry_Validate_ok. clear Hs.
  assert (Ha : wf_registry (id_Registry ids) → ∀ i, (∃ a, accounts !! acc_ID (journal_account i) = Some a ∧ same_identity (journal_account i) a)
    ↔ ∃ a, a ∈ elems (reg_Accounts (id_Registry ids)) ∧ same_identity (journal_account i) a).
  { intros Hw i. subst accounts. setoid_rewrite account_map_lookup; [|apply (wr_ids _ Hw)]. split; [intros (a & [Hin _] & Hs); by exists a|]. intros (a & Hin & Hs). exists a. pose proof (proj1 Hs). done. }
  split.
  - intros (Hg & _ & [HU _] & _ & [HG _] & _ & (HF & HN & _) & _). destruct Hg as (((((((((? & ?) & Hw) & ?) & ?) & ?) & ?) & ?) & ?) & ?).
    split; try done. eapply Forall_impl; [exact HF|]. intros i [? H']. by rewrite Ha in H'.
  - intros [(? & ? & ?) Hw (? & ? & ?) (? & ? & ?) (? & ?) HF HN]. split; [tauto|]. do 3 (eexists; split; [split_and!; try done|]).
    + eapply Forall_impl; [exact HF|]. intros i [? H']. by rewrite Ha.
    + done.
Qed.

Lemma Clean_name w : name_ok w → Clean w = w.
Proof.
  intros Hw. destruct (name_ok_ne w Hw) as (H1 & H2 & H3). unfold Clean. rewrite bool_decide_eq_false_2 by done.
  assert (Hp : has_prefix "/" w = false).
  { apply not_true_is_false. intros (t & ->)%has_prefix_spec. destruct Hw as [_ Hs]. apply Hs. cbn. set_solver. }
  pose proof (split_join "/" [w] ltac:(done) ltac:(constructor; [apply Hw|constructor])) as Hj. change (join_with "/" [w]) with w in Hj.
  rewrite Hp, Hj, clean_names by (by constructor). cbn. by rewrite bool_decide_eq_false_2.
Qed.
Lemma logical_volume id uuid : validateLogicalVolume id uuid = true ↔ ShareConfig.identifier id = true ∧ ShareConfig.filesystemUUID uuid = true.
Proof.
  unfold validateLogicalVolume. rewrite !andb_true_iff, negb_true_iff, is_ok_unit, ShareConfig.Config_Validate_wf, bool_decide_eq_true. split.
  - intros [[[] _] _]. cbn in *. by rewrite Forall_singleton in wf_volumes.
  - intros [Hi Hu]. destruct (NfsConfig.identifier_name id Hi) as (Hn & _). split_and!; [|by apply Clean_name|].
    + split; cbn; rewrite ?Forall_singleton; try done; try (repeat constructor; set_solver); unfold slen, len; cbn;
        split_and!; unfold ShareConfig.MaxVolumes, ShareConfig.MaxUsers, ShareConfig.MaxShares; lia.
    + unfold contains_any. pose proof (NfsConfig.identifier_text id Hi) as Ht.
      rewrite runes_ascii; [|apply Forall_forall; intros b Hb%list_elem_of_In; unfold NfsConfig.opt_text, all_chars in Ht; rewrite forallb_forall in Ht;
        apply Ht in Hb; unfold NfsConfig.opt_char, is_lower, is_digit in Hb; lia].
      apply not_true_is_false. intros (c & Hc & Hin)%existsb_True. apply bool_decide_eq_true in Hin. apply list_elem_of_singleton in Hin as ->.
      destruct Hn as [_ Hs]. by apply Hs.
Qed.

Definition add_volume (seen : volumes_seen) (v : ObservedVolume) : volumes_seen :=
  mkVolumesSeen ({[ov_VolumeID v]} ∪ vs_ids seen) ({[ov_FilesystemUUID v]} ∪ vs_uuids seen)
    ({[ov_MountID v]} ∪ vs_mounts seen) ({[(ov_DeviceMajor v, ov_DeviceMinor v)]} ∪ vs_devices seen).
Definition fresh_volume (seen : volumes_seen) (v : ObservedVolume) : Prop :=
  ov_VolumeID v ∉ vs_ids seen ∧ ov_FilesystemUUID v ∉ vs_uuids seen ∧ ov_MountID v ∉ vs_mounts seen
  ∧ (ov_DeviceMajor v, ov_DeviceMinor v) ∉ vs_devices seen.
Lemma observed_step_Ok known j seen v seen' : (λ _ : Z, volume_step known) j seen v = Ok seen' ↔ good_observed known v ∧ fresh_volume seen v ∧ seen' = add_volume seen v.
Proof.
  unfold volume_step, fresh_volume. rewrite !refuse_Ok, !orb_false_iff, !negb_false_iff, logical_volume, andb_false_iff, !negb_false_iff.
  rewrite !bool_decide_eq_false, !bool_decide_eq_true, !Z.eqb_neq. split.
  - intros (H & Hn & [= <-]). split; [|tauto]. split; tauto.
  - intros ([] & ? & ->). split; [tauto|done].
Qed.
Lemma storage_Ok s volumes : validateStorageSnapshot s volumes = Ok tt ↔ storage_ok (list_to_set (ShareConfig.vol_ID <$> elems volumes)) s.
Proof.
  unfold validateStorageSnapshot. rewrite refuse_Ok, res_bind_Ok. set (known := list_to_set _).
  setoid_rewrite (for_range_chain add_volume _ (good_observed known) fresh_volume); [|apply observed_step_Ok].
  assert (Hf : chain add_volume fresh_volume (mkVolumesSeen ∅ ∅ ∅ ∅) (elems (st_Volumes s)) ↔
    NoDup (ov_VolumeID <$> elems (st_Volumes s)) ∧ NoDup (ov_FilesystemUUID <$> elems (st_Volumes s)) ∧ NoDup (ov_MountID <$> elems (st_Volumes s))
    ∧ NoDup ((λ v, (ov_DeviceMajor v, ov_DeviceMinor v)) <$> elems (st_Volumes s))).
  { unfold fresh_volume. rewrite !chain_and.
    rewrite (chain_key _ vs_ids ov_VolumeID), (chain_key _ vs_uuids ov_FilesystemUUID), (chain_key _ vs_mounts ov_MountID),
      (chain_key _ vs_devices (λ v, (ov_DeviceMajor v, ov_DeviceMinor v))) by done.
    pose proof (not_elem_of_empty_all ov_VolumeID (elems (st_Volumes s))). pose proof (not_elem_of_empty_all ov_FilesystemUUID (elems (st_Volumes s))).
    pose proof (not_elem_of_empty_all ov_MountID (elems (st_Volumes s))).
    pose proof (not_elem_of_empty_all (λ v, (ov_DeviceMajor v, ov_DeviceMinor v)) (elems (st_Volumes s))). cbn [vs_ids vs_uuids vs_mounts vs_devices]. tauto. }
  setoid_rewrite Hf. rewrite !orb_false_iff, !negb_false_iff, Z.ltb_ge, Z.eqb_neq. split.
  - intros (Hg & ? & (HF & (? & ? & ? & ?) & _) & _). split; tauto.
  - intros [(? & ? & ?) ? ? ? ? ? ?]. split; [tauto|]. eexists. split; [|done]. by split_and!.
Qed.

(** the accounts that the policy grants something, in the registry's order *)
Definition granted_accounts (policy : ShareConfig.Config) (r : Registry) : list Account :=
  filter (λ a, acc_ID a ∈ granted policy) (elems (reg_Accounts r)).

Lemma samba_map_lookup l id i : NoDup ((λ i, acc_ID (journal_account i)) <$> l) → samba_map l !! id = Some i ↔ i ∈ l ∧ acc_ID (journal_account i) = id.
Proof.
  intros HN. unfold samba_map. rewrite (fold_insert_lookup (λ i, acc_ID (journal_account i)) (λ i, i)) by done. rewrite lookup_empty. naive_solver.
Qed.
Lemma account_enabled_true ids a : NoDup ((λ i, acc_ID (journal_account i)) <$> elems (id_Samba ids)) →
  account_enabled ids (samba_map (elems (id_Samba ids))) a = true ↔ enabled_account ids a.
Proof.
  intros HN. unfold account_enabled. rewrite !andb_true_iff, !bool_decide_eq_true. split.
  - intros [[Hu Hg] H]. split; [done|]. destruct (samba_map _ !! _) as [i|] eqn:Hi; [|done]. apply samba_map_lookup in Hi as [Hin _]; [|done].
    rewrite !andb_true_iff, sameAccountIdentity_true, negb_true_iff, negb_true_iff, !bool_decide_eq_true, bool_decide_eq_false, !Z.eqb_eq in H.
    exists i. cbn zeta. tauto.
  - intros [[Hu Hg] (i & Hin & Hsame & Hph & H)]. split; [done|].
    assert (samba_map (elems (id_Samba ids)) !! acc_ID a = Some i) as ->. { apply samba_map_lookup; [done|]. split; [done|]. apply Hsame. }
    rewrite !andb_true_iff, sameAccountIdentity_true, negb_true_iff, negb_true_iff, !bool_decide_eq_true, bool_decide_eq_false, !Z.eqb_eq.
    cbn zeta in H. tauto.
Qed.
Lemma smb_accounts_Ok policy ids : identities_ok ids → ShareConfig.wf_config policy → validateSMBAccounts policy ids = Ok tt ↔
  Forall (resolved (id_Registry ids) policy) (granted policy) ∧ (∀ a, a ∈ granted_accounts policy (id_Registry ids) → enabled_account ids a).
Proof.
  intros Hi Hp. pose proof (io_registry _ Hi) as Hr. unfold validateSMBAccounts.
  destruct (Registry_BindShares (id_Registry ids) policy) as [b|e] eqn:Hb.
  - apply Registry_BindShares_Ok in Hb as (_ & _ & HF & _ & _ & _ & _ & Hel). rewrite check_Ok. unfold granted_accounts.
    setoid_rewrite negb_false_iff. setoid_rewrite account_enabled_true; [|apply (io_once _ Hi)].
    setoid_rewrite list_elem_of_filter. setoid_rewrite Hel. naive_solver.
  - split; [done|]. intros [HF _]. destruct (Registry_BindShares_total (id_Registry ids) policy Hr Hp HF) as [b Hb']. congruence.
Qed.

(** ** The lookup files *)
(** the two files and the profile of some accounts *)
Definition lookup_files (l : list Account) : string * string * string :=
  let sorted := sort_by acc_Name l in
  (text (fixed_users ++ (passwd_row <$> sorted)), text (fixed_groups ++ (group_line <$> sorted)), sambaFilesOnlyNSS).
(** some accounts of a registry, none of them retired, can be listed *)
Lemma listable_filter (r : Registry) (Hr : wf_registry r) (P : Account → Prop) `{∀ a, Decision (P a)} l :
  (∀ a, a ∈ elems (reg_Accounts r) → P a → acc_State a ≠ Retired) → l ≡ₚ filter P (elems (reg_Accounts r)) → listable (Some l).
Proof.
  intros HP Hp. assert (He : Forall (λ a, acc_State a ≠ Retired) l).
  { apply Forall_forall. intros a Ha. rewrite Hp in Ha. apply list_elem_of_filter in Ha as [? ?]. by apply HP. }
  assert (Hlen : len l ≤ MaxLive).
  { pose proof (wr_live _ Hr) as H'. unfold live_count, len in *. rewrite Hp.
    pose proof (length_filter_impl P (λ a, acc_State a ≠ Retired) (elems (reg_Accounts r)) HP) as Hle. lia. }
  split; [|done]. pose proof (wr_window _ Hr). split; cbn [lookup_registry reg_Format reg_SchemaVersion reg_Revision reg_FirstID reg_LastID reg_Accounts Registry_New fst elems default is_nil]; try done.
  - unfold slen. cbn [elems default from_option id]. unfold MaxLive, ShareConfig.MaxUsers, MaxRecords in *. lia.
  - apply Forall_forall. intros a Ha. rewrite Hp in Ha. apply list_elem_of_filter in Ha as [_ Ha]. pose proof (wr_accounts _ Hr) as HF. rewrite Forall_forall in HF.
    destruct (HF a Ha). split; try done. lia.
  - change (NoDup (acc_ID <$> l)). rewrite Hp. apply NoDup_fmap_filter, (wr_ids _ Hr).
  - change (NoDup (acc_Name <$> l)). rewrite Hp. apply NoDup_fmap_filter, (wr_names _ Hr).
  - change (NoDup (acc_UID <$> l)). rewrite Hp. apply NoDup_fmap_filter, (wr_uids _ Hr).
  - cbn [from_option id]. rewrite live_count_all by done. done.
Qed.
(** what documents say when they list some accounts: the parser of local identities and the field-by-field reader agree on it *)
Record lists (d : lookupDocuments) (accounts : list Account) : Prop := {
  ls_parse : UnixIdentity.Parse (file (lk_passwd d)) (file (lk_group d)) = Ok (lookup_snapshot accounts);
  ls_passwd : rows_of (lk_passwd d) = user_rows accounts ++ [[""]];
  ls_group : rows_of (lk_group d) = group_rows accounts ++ [[""]];
  ls_nss : UnixIdentity.FilesOnlyNSS (lk_nss d) = true }.
Lemma lookup_files_list l : listable (Some l) → lists (documents (lookup_files l)) l.
Proof. intros Hl. destruct (files_rows (Some l) Hl) as [H1 H2]. split; [by apply (files_parse (Some l))|done..|vm_compute; done]. Qed.

(** the accounts that are not retired, and those that the local files know *)
Definition live_accounts (r : Registry) : list Account := filter (λ a, acc_State a ≠ Retired) (elems (reg_Accounts r)).
Definition known_account (ids : IdentitySnapshot) (a : Account) : Prop := acc_UID a ∈ elems (id_UnixUIDs ids) ∧ acc_GID a ∈ elems (id_UnixGIDs ids).
Lemma management_loop ids l i acc : for_range (λ _, management_step ids) i acc l
  = if bool_decide (Forall (known_account ids) (filter (λ a, acc_State a ≠ Retired) l)) then Ok (acc ++ filter (λ a, acc_State a ≠ Retired) l) else Err ErrNotReady.
Proof.
  revert i acc. induction l as [|a l IH]; intros i acc; cbn [for_range]; [by rewrite filter_nil, bool_decide_eq_true_2, app_nil_r by constructor|].
  unfold management_step at 1. rewrite filter_cons. destruct (decide (acc_State a = Retired)) as [Hr|Hr].
  - rewrite bool_decide_eq_true_2 by done. rewrite decide_False by tauto. apply IH.
  - rewrite bool_decide_eq_false_2, decide_True by done. unfold known_account at 1. destruct (_ || _) eqn:Hk.
    + rewrite bool_decide_eq_false_2; [done|]. intros [[Hu Hg] _]%Forall_cons. rewrite !bool_decide_eq_true_2 in Hk by done. done.
    + rewrite orb_false_iff, !negb_false_iff, !bool_decide_eq_true in Hk. rewrite IH. rewrite <- app_assoc.
      apply (f_equal (λ b : bool, if b then _ else _)), bool_decide_ext. rewrite Forall_cons. unfold known_account. tauto.
Qed.
Lemma management_lookup ids : wf_registry (id_Registry ids) →
  (Forall (known_account ids) (live_accounts (id_Registry ids)) → lists (sambaManagementLookup ids) (live_accounts (id_Registry ids)))
  ∧ (¬ Forall (known_account ids) (live_accounts (id_Registry ids)) → sambaManagementLookup ids = zero_lookup).
Proof.
  intros Hr. unfold sambaManagementLookup. rewrite management_loop. fold (live_accounts (id_Registry ids)). split; intros H.
  - rewrite bool_decide_eq_true_2 by done. assert (HL : listable (Some (live_accounts (id_Registry ids)))) by (apply (listable_filter _ Hr (λ a, acc_State a ≠ Retired)); done).
    cbn [app]. rewrite (proj2 (render_Ok _ _) (conj HL eq_refl)). by apply lookup_files_list.
  - by rewrite bool_decide_eq_false_2.
Qed.

Section granted.
Context (policy : ShareConfig.Config) (r : Registry) (Hr : wf_registry r) (Hres : Forall (resolved r policy) (granted policy)).
Lemma granted_enabled a : a ∈ granted_accounts policy r → acc_State a = ServiceAccounts.Enabled.
Proof.
  intros [Hg Ha]%list_elem_of_filter. rewrite Forall_forall in Hres. destruct (Hres _ Hg) as (a' & Ha' & Hid & He & _).
  by rewrite (NoDup_fmap_inj acc_ID _ a a' (wr_ids _ Hr) Ha Ha' (eq_sym Hid)).
Qed.
Lemma granted_listable l : l ≡ₚ granted_accounts policy r → listable (Some l).
Proof.
  apply (listable_filter r Hr). intros a Ha Hg. by rewrite (granted_enabled a) by (by apply list_elem_of_filter).
Qed.
Lemma samba_nss_Ok : ShareConfig.wf_config policy → renderSambaNSS policy r = Ok (lookup_files (granted_accounts policy r)).
Proof.
  intros Hp. unfold renderSambaNSS. destruct (Registry_BindShares_total r policy Hr Hp Hres) as [b Hb]. rewrite Hb.
  apply Registry_BindShares_Ok in Hb as (_ & _ & _ & _ & _ & _ & HN & Hel).
  assert (HP : bnd_Accounts b ≡ₚ granted_accounts policy r).
  { apply NoDup_Permutation; [by eapply NoDup_fmap_1|eapply NoDup_filter, NoDup_fmap_1, (wr_ids _ Hr)|].
    intros a. unfold granted_accounts. rewrite Hel, list_elem_of_filter. tauto. }
  pose proof (granted_listable _ HP) as HL. pose proof (sorted_len _ HL) as Hl. unfold len in *. rewrite sort_by_perm in Hl. cbn [elems default from_option id] in Hl.
  rewrite (proj2 (Z.ltb_ge _ _)) by (unfold ShareConfig.MaxUsers; lia). apply render_Ok. split; [done|]. unfold lookup_files. cbn [elems default from_option id].
  rewrite (sort_by_unique acc_Name (bnd_Accounts b) (granted_accounts policy r)); [done| |done].
  rewrite HP. apply NoDup_fmap_filter, (wr_names _ Hr).
Qed.
End granted.

(** ** The rest of the evidence *)
Definition anonymous_known (nfs : NfsConfig.Policy) (ids : IdentitySnapshot) : Prop :=
  ∀ e c, e ∈ elems (NfsConfig.pol_Exports nfs) → c ∈ elems (NfsConfig.ex_Clients e) →
    NfsConfig.cl_AnonymousUID c ∈ elems (id_UnixUIDs ids) ∧ NfsConfig.cl_AnonymousGID c ∈ elems (id_UnixGIDs ids).
Lemma nfs_identities_Ok nfs ids : validateNFSIdentities nfs ids = Ok tt ↔ anonymous_known nfs ids.
Proof.
  unfold validateNFSIdentities, anonymous_known.
  rewrite (for_range_all (λ e, for_range _ 0 tt (elems (NfsConfig.ex_Clients e)))). setoid_rewrite check_Ok. setoid_rewrite orb_false_iff.
  setoid_rewrite negb_false_iff. setoid_rewrite bool_decide_eq_true. setoid_rewrite elem_of_list_to_set. naive_solver.
Qed.

Definition kerberos_clients (nfs : NfsConfig.Policy) : Prop :=
  ∃ e c, e ∈ elems (NfsConfig.pol_Exports nfs) ∧ c ∈ elems (NfsConfig.ex_Clients e) ∧ NfsConfig.cl_Security c ≠ "sys".
Lemma requires_kerberos shares nfs preview : FileService.Build shares nfs = Ok preview →
  NfsConfig.pre_RequiresKerberos (FileService.fp_NFS preview) = true ↔ kerberos_clients nfs.
Proof.
  unfold FileService.Build. destruct (SmbConfig.Build shares) as [sp|]; [|done]. destruct (NfsConfig.Build nfs shares) as [np|] eqn:Hn; [|done].
  intros [= <-]. cbn [FileService.fp_NFS]. unfold NfsConfig.Build in Hn. apply res_bind_Ok in Hn as ([] & _ & [= <-]). cbn [NfsConfig.pre_RequiresKerberos].
  unfold NfsConfig.uses, kerberos_clients. rewrite existsb_True. setoid_rewrite existsb_True. setoid_rewrite sort_by_elem. setoid_rewrite list_elem_of_fmap.
  setoid_rewrite negb_true_iff. setoid_rewrite bool_decide_eq_false. split.
  - intros (x & (e & -> & He) & c & Hc & Hs). unfold NfsConfig.export_preview in Hc. cbn [NfsConfig.xp_Clients] in Hc. rewrite sort_by_elem in Hc. by exists e, c.
  - intros (e & c & He & Hc & Hs). exists (NfsConfig.export_preview shares e). split; [by exists e|]. exists c. split; [|done].
    unfold NfsConfig.export_preview. cbn [NfsConfig.xp_Clients]. by rewrite sort_by_elem.
Qed.

(** ** The volumes *)
Definition uses_volume (config : FileService.Config) (id : string) : Prop :=
  (∃ s, s ∈ elems (ShareConfig.cfg_Shares (FileService.fc_Shares config)) ∧ ShareConfig.share_VolumeID s = id)
  ∨ (∃ e, e ∈ elems (NfsConfig.pol_Exports (FileService.fc_NFS config)) ∧ NfsConfig.ex_VolumeID e = id).
Definition writes_volume (config : FileService.Config) (id : string) : Prop :=
  (∃ s g, s ∈ elems (ShareConfig.cfg_Shares (FileService.fc_Shares config)) ∧ ShareConfig.share_VolumeID s = id
     ∧ g ∈ elems (ShareConfig.share_Grants s) ∧ ShareConfig.grant_Access g = "rw")
  ∨ (∃ e c, e ∈ elems (NfsConfig.pol_Exports (FileService.fc_NFS config)) ∧ NfsConfig.ex_VolumeID e = id
     ∧ c ∈ elems (NfsConfig.ex_Clients e) ∧ NfsConfig.cl_Access c = "rw").
Lemma referenced_used config id : id ∈ (referencedVolumes config).1 ↔ uses_volume config id.
Proof.
  unfold referencedVolumes, uses_volume. cbn [fst]. rewrite elem_of_union, !elem_of_list_to_set, !list_elem_of_fmap. naive_solver.
Qed.
Lemma referenced_writes config id : id ∈ (referencedVolumes config).2 ↔ writes_volume config id.
Proof.
  unfold referencedVolumes, writes_volume. cbn [snd]. rewrite elem_of_union, !elem_of_list_to_set, !list_elem_of_fmap.
  setoid_rewrite list_elem_of_filter. setoid_rewrite existsb_True. setoid_rewrite bool_decide_eq_true. naive_solver.
Qed.

(** the observed volume that serves a volume of the policy *)
Definition serves (config : FileService.Config) (storage : StorageSnapshot) (id : string) (v : ObservedVolume) : Prop :=
  v ∈ elems (st_Volumes storage) ∧ ov_VolumeID v = id ∧ ov_Compatibility v = CompatibilityQualified
  ∧ (∃ d, d ∈ elems (ShareConfig.cfg_Volumes (FileService.fc_Shares config)) ∧ ShareConfig.vol_ID d = id
          ∧ ShareConfig.vol_FilesystemUUID d = ov_FilesystemUUID v)
  ∧ (writes_volume config id → ov_ReadOnly v = false).

Lemma desired_Some shares id d : ShareConfig.wf_config shares →
  desiredVolume shares id = Some d ↔ d ∈ elems (ShareConfig.cfg_Volumes shares) ∧ ShareConfig.vol_ID d = id.
Proof.
  intros Hw. unfold desiredVolume. split.
  - intros [Hin He]%find_some. by apply bool_decide_eq_true in He as <-; split; [apply list_elem_of_In|].
  - intros [Hin <-]. destruct (List.find _ _) as [d'|] eqn:Hf.
    + apply find_some in Hf as [Hin' He%bool_decide_eq_true]. f_equal.
      by apply (NoDup_fmap_inj ShareConfig.vol_ID (elems (ShareConfig.cfg_Volumes shares))); [apply (ShareConfig.wf_volume_ids _ Hw)|apply list_elem_of_In|..].
    + eapply find_none in Hf; [|by apply list_elem_of_In]. by rewrite bool_decide_eq_true_2 in Hf.
Qed.
Lemma observed_map_lookup l id v : NoDup (ov_VolumeID <$> l) → observed_map l !! id = Some v ↔ v ∈ l ∧ ov_VolumeID v = id.
Proof. intros HN. unfold observed_map. rewrite (fold_insert_lookup ov_VolumeID (λ v, v)) by done. rewrite lookup_empty. naive_solver. Qed.

(** [nfsCandidateRoots] as a function of the bindings *)
Definition export_root (bs : list VolumeBinding) (e : NfsConfig.Export) : option NFSExportRoot :=
  v ← List.find (λ v, vb_VolumeID v == NfsConfig.ex_VolumeID e) bs;
  Some (mkExportRoot (NfsConfig.ex_ID e) v (NfsConfig.ex_RelativePath e) (forallb (λ c, NfsConfig.cl_Access c != "rw") (elems (NfsConfig.ex_Clients e)))
          (sort_by NfsConfig.cl_Network (elems (NfsConfig.ex_Clients e)))).
Lemma roots_Ok nfs bs : (∀ e, e ∈ elems (NfsConfig.pol_Exports nfs) → is_Some (export_root bs e)) →
  nfsCandidateRoots nfs bs = Ok (sort_by nr_ID (omap (export_root bs) (elems (NfsConfig.pol_Exports nfs)))).
Proof.
  intros Hall. unfold nfsCandidateRoots.
  assert (H : ∀ i acc l, (∀ e, e ∈ l → is_Some (export_root bs e)) → for_range (λ _, root_step bs) i acc l = Ok (acc ++ omap (export_root bs) l)).
  { intros i acc l. revert i acc. induction l as [|e l IH]; intros i acc Hl; cbn [for_range]; [by rewrite app_nil_r|].
    destruct (Hl e ltac:(set_solver)) as [x Hx]. unfold root_step at 1. unfold export_root in Hx. destruct (List.find _ bs) as [v|] eqn:Hv; [|done].
    rewrite IH by set_solver. unfold export_root. cbn [omap list_omap]. rewrite Hv. cbn [mbind option_bind]. by rewrite <- app_assoc. }
  rewrite H by done. done.
Qed.

Section volumes.
Context (config : FileService.Config) (storage : StorageSnapshot) (known : gset string).
Context (Hw : ShareConfig.wf_config (FileService.fc_Shares config)) (Hs : storage_ok known storage).
Let volumes := elems (st_Volumes storage).

Lemma binding_step_Ok acc id acc' : binding_step (FileService.fc_Shares config) (referencedVolumes config).2 (observed_map volumes) acc id = Ok acc' ↔
  ∃ b, (∃ v, serves config storage id v ∧ b = binding_of v) ∧ acc' = acc ++ [b].
Proof.
  unfold binding_step, serves. destruct (observed_map volumes !! id) as [v|] eqn:Hv.
  - apply observed_map_lookup in Hv as [Hin Hid]; [|apply (so_ids _ _ Hs)].
    assert (Hu : ∀ v', v' ∈ volumes → ov_VolumeID v' = id → v' = v) by (intros v' Hv' Hid'; apply (NoDup_fmap_inj ov_VolumeID volumes); [apply (so_ids _ _ Hs)|congruence..]).
    rewrite refuse_Ok, negb_false_iff, bool_decide_eq_true. destruct (desiredVolume _ id) as [d|] eqn:Hd.
    + apply desired_Some in Hd as [Hd Hdid]; [|done]. rewrite !refuse_Ok, negb_false_iff, andb_false_iff, bool_decide_eq_true, bool_decide_eq_false, referenced_writes. split.
      * intros (Hc & Hf & Hro & [= <-]). exists (binding_of v). split; [|done]. exists v. split_and!; try done; [by exists d|]. tauto.
      * intros (b & (v' & (Hin' & Hid' & Hc & (d' & Hd' & Hdid' & Hf) & Hro) & ->) & ->). rewrite (Hu v' Hin' Hid') in *.
        rewrite (NoDup_fmap_inj ShareConfig.vol_ID _ d d' (ShareConfig.wf_volume_ids _ Hw) Hd Hd' ltac:(congruence)). split_and!; try done.
        destruct (ov_ReadOnly v); [left; intros H; by specialize (Hro H)|by right].
    + split; [by intros [_ ?]|]. intros (b & (v' & (_ & _ & _ & (d & Hd' & Hid' & _) & _) & _) & _). exfalso.
      rewrite (proj2 (desired_Some _ id d Hw)) in Hd; done.
  - split; [done|]. intros (b & (v & (Hin & Hid & _) & _) & _). exfalso.
    rewrite (proj2 (observed_map_lookup volumes id v (so_ids _ _ Hs))) in Hv; done.
Qed.

(** the bindings, in an order that does not depend on the map *)
Definition volume_bindings : list VolumeBinding :=
  sort_by vb_VolumeID (binding_of <$> filter (λ v, ov_VolumeID v ∈ (referencedVolumes config).1) volumes).

Lemma bindings_Ok order bs : MapOrder order →
  for_range (λ _, binding_step (FileService.fc_Shares config) (referencedVolumes config).2 (observed_map volumes)) 0 [] (order (referencedVolumes config).1) = Ok bs ↔
  (∀ id, uses_volume config id → ∃ v, serves config storage id v)
  ∧ Forall2 (λ id b, ∃ v, serves config storage id v ∧ b = binding_of v) (order (referencedVolumes config).1) bs.
Proof.
  intros Ho. rewrite (for_range_append _ _ _ _ _ _ binding_step_Ok). split.
  - intros (ys & HF & ->). split; [|done]. intros id Hid. apply referenced_used in Hid.
    assert (Hin : id ∈ order (referencedVolumes config).1) by (rewrite map_order_perm; by apply elem_of_elements).
    apply list_elem_of_lookup in Hin as [k Hk]. destruct (Forall2_lookup_l _ _ _ _ _ HF Hk) as (b & _ & v & ? & _). by exists v.
  - intros [_ HF]. by exists bs.
Qed.
Lemma bindings_sorted order bs : MapOrder order →
  Forall2 (λ id b, ∃ v, serves config storage id v ∧ b = binding_of v) (order (referencedVolumes config).1) bs → sort_by vb_VolumeID bs = volume_bindings.
Proof.
  intros Ho HF. assert (Hids : vb_VolumeID <$> bs = order (referencedVolumes config).1).
  { rewrite <- (list_fmap_id (order _)). symmetry. eapply (Forall2_fmap_eq (λ x, x) vb_VolumeID); [|exact HF]. intros id b (v & (_ & <- & _) & ->). done. }
  assert (HN : NoDup (vb_VolumeID <$> bs)) by (rewrite Hids, map_order_perm; apply NoDup_elements).
  apply sort_by_unique; [done|]. apply NoDup_Permutation; [by eapply NoDup_fmap_1| |].
  - apply (NoDup_fmap_1 vb_VolumeID). rewrite <- list_fmap_compose. apply (NoDup_fmap_filter ov_VolumeID), (so_ids _ _ Hs).
  - intros b. rewrite list_elem_of_fmap. setoid_rewrite list_elem_of_filter. split.
    + intros [k Hk]%list_elem_of_lookup. destruct (Forall2_lookup_r _ _ _ _ _ HF Hk) as (id & Hid & v & (Hin & <- & _) & ->).
      exists v. split; [done|]. split; [|done]. apply elem_of_elements. rewrite <- map_order_perm. by eapply list_elem_of_lookup_2.
    + intros (v & -> & Hu & Hv). assert (Hin : ov_VolumeID v ∈ order (referencedVolumes config).1) by (rewrite map_order_perm; by apply elem_of_elements).
      apply list_elem_of_lookup in Hin as [k Hk]. destruct (Forall2_lookup_l _ _ _ _ _ HF Hk) as (b & Hb & v' & (Hin' & Hid' & _) & ->).
      rewrite (NoDup_fmap_inj ov_VolumeID volumes v v' (so_ids _ _ Hs) Hv Hin' (eq_sym Hid')). by eapply list_elem_of_lookup_2.
Qed.
Lemma bindings_exist order : MapOrder order → (∀ id, uses_volume config id → ∃ v, serves config storage id v) →
  ∃ bs, Forall2 (λ id b, ∃ v, serves config storage id v ∧ b = binding_of v) (order (referencedVolumes config).1) bs.
Proof.
  clear Hw Hs known. intros Ho Hall. assert (Hids : ∀ id, id ∈ order (referencedVolumes config).1 → uses_volume config id).
  { intros id. rewrite map_order_perm, elem_of_elements. apply referenced_used. }
  induction (order _) as [|id l IH]; [by exists []|]. destruct IH as [bs HF]; [set_solver|]. destruct (Hall id) as [v Hv]; [set_solver|].
  exists (binding_of v :: bs). constructor; [by exists v|done].
Qed.

Lemma roots_exist : (∀ id, uses_volume config id → ∃ v, serves config storage id v) →
  ∀ e, e ∈ elems (NfsConfig.pol_Exports (FileService.fc_NFS config)) → is_Some (export_root volume_bindings e).
Proof.
  intros Hall e He. destruct (Hall (NfsConfig.ex_VolumeID e)) as (v & Hin & Hid & _); [right; by exists e|].
  unfold export_root. destruct (List.find _ _) as [b|] eqn:Hf; [by eexists|]. exfalso.
  assert (Hb : binding_of v ∈ volume_bindings); [|apply list_elem_of_In, (find_none _ _ Hf) in Hb; by apply bool_decide_eq_false in Hb].
  { unfold volume_bindings. rewrite sort_by_elem. apply list_elem_of_fmap. exists v. split; [done|].
    apply list_elem_of_filter. split; [|done]. apply referenced_used. right. by exists e. }
Qed.
End volumes.

(** ** The storage fingerprint *)
(** the machine types of the fields *)
Record typed_volume (v : ObservedVolume) : Prop := {
  tv_strings : slength (ov_VolumeID v) < 2 ^ 64 ∧ slength (ov_FilesystemUUID v) < 2 ^ 64 ∧ slength (ov_MountPath v) < 2 ^ 64 ∧ slength (ov_Compatibility v) < 2 ^ 64;
  tv_numbers : 0 ≤ ov_MountID v < 2 ^ 64 ∧ 0 ≤ ov_DeviceMajor v < 2 ^ 32 ∧ 0 ≤ ov_DeviceMinor v < 2 ^ 32 }.
Record typed_storage (s : StorageSnapshot) : Prop := {
  ts_generation : 0 ≤ st_Generation s < 2 ^ 64;
  ts_fingerprint : length (st_OwnerFingerprint s) = 32%nat;
  ts_size : slen (st_Volumes s) < 2 ^ 64;
  ts_volumes : Forall typed_volume (elems (st_Volumes s)) }.
Definition same_storage (s t : StorageSnapshot) : Prop :=
  st_Complete s = st_Complete t ∧ st_Generation s = st_Generation t ∧ st_OwnerFingerprint s = st_OwnerFingerprint t
  ∧ elems (st_Volumes s) ≡ₚ elems (st_Volumes t).

Lemma volume_code : prefix_code typed_volume put_volume.
Proof.
  intros v w l l' [(? & ? & ? & ?) (? & ? & ?)] [(? & ? & ? & ?) (? & ? & ?)]. unfold put_volume. rewrite <- !app_assoc.
  intros [E1 Hx]%string_code; [|done..]. apply string_code in Hx as [E2 Hx]; [|done..]. apply string_code in Hx as [E3 Hx]; [|done..].
  apply string_code in Hx as [E4 Hx]; [|done..]. apply uint64_code in Hx as [E5 Hx]; [|done..]. apply uint64_code in Hx as [E6 Hx]; [|lia..].
  apply uint64_code in Hx as [E7 Hx]; [|lia..]. apply bool_code in Hx as [E8 Hx]; [|done..]. destruct v, w; cbn in *. by subst.
Qed.
Lemma storage_bytes_inj s t : typed_storage s → typed_storage t → storage_bytes s = storage_bytes t → same_storage s t.
Proof.
  intros [Hg Hf Hn Hv] [Hg' Hf' Hn' Hv'] H. unfold storage_bytes in H. apply uint64_code in H as [E1 H]; [|done..]. apply (fixed_code 32) in H as [E2 H]; [|done..].
  apply bool_code in H as [E3 H]; [|done..]. apply uint64_code in H as [E4 H]; [|split; [unfold slen, len; lia|done]..].
  rewrite <- (app_nil_r (mjoin (put_volume <$> sort_by ov_VolumeID (elems (st_Volumes s))))) in H.
  rewrite <- (app_nil_r (mjoin (put_volume <$> sort_by ov_VolumeID (elems (st_Volumes t))))) in H.
  apply (list_code typed_volume _ _ _ _ _ volume_code) in H as [E5 _]; [|rewrite !sort_by_perm; unfold slen, len in E4; lia|by rewrite sort_by_perm..].
  split_and!; try done. by rewrite <- (sort_by_perm ov_VolumeID (elems (st_Volumes s))), E5, sort_by_perm.
Qed.
Lemma same_storage_sym s t : same_storage s t → same_storage t s.
Proof. intros (? & ? & ? & ?). by split_and!. Qed.
Lemma storage_bytes_same s t : NoDup (ov_VolumeID <$> elems (st_Volumes s)) → same_storage s t → storage_bytes s = storage_bytes t.
Proof.
  intros HN (H1 & H2 & H3 & H4). unfold storage_bytes, slen, len. by rewrite H1, H2, H3, (sort_by_unique _ _ _ HN H4), H4.
Qed.

(** ** The plan *)
Record ready (config : FileService.Config) (ids : IdentitySnapshot) (storage : StorageSnapshot) : Prop := {
  rd_policy : FileService.wf config;
  rd_identities : identities_ok ids;
  rd_storage : storage_ok (ShareConfig.volume_ids (FileService.fc_Shares config)) storage;
  rd_resolved : Forall (resolved (id_Registry ids) (FileService.fc_Shares config)) (granted (FileService.fc_Shares config));
  rd_enabled : ∀ a, a ∈ granted_accounts (FileService.fc_Shares config) (id_Registry ids) → enabled_account ids a;
  rd_anonymous : anonymous_known (FileService.fc_NFS config) ids;
  rd_kerberos : kerberos_clients (FileService.fc_NFS config) → id_KerberosReady ids = true;
  rd_volumes : ∀ id, uses_volume config id → ∃ v, serves config storage id v }.

Section plan.
Context (sha256 : list Z → list Z).
(** what a plan holds, as a function of its inputs *)
Definition compiled (config : FileService.Config) (active : Z) (ids : IdentitySnapshot) (storage : StorageSnapshot) (preview : FileService.Preview) : Plan :=
  let bindings := volume_bindings config storage in
  mkPlan 1 (mkFreshness (FileService.fc_Revision config) active (id_Generation ids) (id_Fingerprint ids) (st_Generation storage) (sha256 (storage_bytes storage)))
    "candidate-only" false false false bindings (SmbConfig.pv_Sections (FileService.fp_Samba preview)) (FileService.fc_Shares config)
    (documents (lookup_files (granted_accounts (FileService.fc_Shares config) (id_Registry ids)))) (sambaManagementLookup ids)
    (NfsConfig.pre_Table (FileService.fp_NFS preview))
    (sort_by nr_ID (omap (export_root bindings) (elems (NfsConfig.pol_Exports (FileService.fc_NFS config))))) (FileService.fp_Requirements preview).

Lemma wf_preview config : FileService.wf config → ∃ preview, FileService.Build (FileService.fc_Shares config) (FileService.fc_NFS config) = Ok preview.
Proof.
  intros Hw. apply FileService.Fs_Validate_wf in Hw. unfold FileService.Config_Validate in Hw. destruct (_ || _); [done|]. by apply is_ok_true in Hw.
Qed.
Lemma Plan_Build_Ok order config active ids storage p : MapOrder order →
  Build sha256 order config active ids storage = Ok p ↔
  ready config ids storage ∧ ∃ preview, FileService.Build (FileService.fc_Shares config) (FileService.fc_NFS config) = Ok preview ∧ p = compiled config active ids storage preview.
Proof.
  intros Ho. unfold Build. rewrite refuse_Ok, negb_false_iff, FileService.Fs_Validate_wf. split.
  - intros [Hw H]. pose proof (FileService.wf_shares _ Hw) as Hsh. destruct (FileService.Build _ _) as [preview|] eqn:Hp; [|done].
    apply res_bind_Ok in H as ([] & Hi%identities_Ok & H). apply res_bind_Ok in H as ([] & Hs%storage_Ok & H). apply res_bind_Ok in H as ([] & Ha & H).
    apply smb_accounts_Ok in Ha as [Hres Hen]; [|done..]. rewrite samba_nss_Ok in H by (done || apply (io_registry _ Hi)). cbn [mbind res_bind] in H.
    apply res_bind_Ok in H as ([] & Hn%nfs_identities_Ok & H). apply refuse_Ok in H as [Hk H].
    rewrite (surjective_pairing (referencedVolumes config)) in H. apply res_bind_Ok in H as (bs & Hb & H).
    eapply bindings_Ok in Hb as [Hall HF]; [|done..]. rewrite (bindings_sorted _ _ _ Hs order bs Ho HF) in H.
    rewrite (roots_Ok _ _ (roots_exist config storage Hall)) in H. cbn [mbind res_bind] in H. injection H as <-.
    split; [|by exists preview]. split; try done. intros Hkc. apply (requires_kerberos _ _ _ Hp) in Hkc. rewrite Hkc in Hk. by apply negb_false_iff in Hk.
  - intros ([Hw Hi Hs Hres Hen Hn Hk Hall] & preview & Hp & ->). split; [done|]. pose proof (FileService.wf_shares _ Hw) as Hsh. rewrite Hp.
    rewrite (proj2 (identities_Ok ids) Hi), (proj2 (storage_Ok _ _) Hs), (proj2 (smb_accounts_Ok _ _ Hi Hsh) (conj Hres Hen)). cbn [mbind res_bind].
    rewrite samba_nss_Ok by (done || apply (io_registry _ Hi)). cbn [mbind res_bind]. rewrite (proj2 (nfs_identities_Ok _ _) Hn). cbn [mbind res_bind].
    assert (Hkk : NfsConfig.pre_RequiresKerberos (FileService.fp_NFS preview) && negb (id_KerberosReady ids) = false).
    { destruct (NfsConfig.pre_RequiresKerberos _) eqn:E; [|done]. by rewrite Hk by (by apply (requires_kerberos _ _ _ Hp)). }
    rewrite Hkk, (surjective_pairing (referencedVolumes config)). destruct (bindings_exist config storage order Ho Hall) as [bs HF].
    rewrite (proj2 (bindings_Ok config storage _ Hsh Hs order bs Ho) (conj Hall HF)). cbn [mbind res_bind].
    rewrite (bindings_sorted _ _ _ Hs order bs Ho HF), (roots_Ok _ _ (roots_exist config storage Hall)). done.
Qed.
End plan.

(** ** Theorems *)
Definition root_of_export (e : NfsConfig.Export) (b : VolumeBinding) : NFSExportRoot :=
  mkExportRoot (NfsConfig.ex_ID e) b (NfsConfig.ex_RelativePath e) (forallb (λ c, NfsConfig.cl_Access c != "rw") (elems (NfsConfig.ex_Clients e)))
    (sort_by NfsConfig.cl_Network (elems (NfsConfig.ex_Clients e))).
Lemma binding_elem config storage b : ready config b storage → ∀ x, x ∈ volume_bindings config storage ↔
  ∃ v, uses_volume config (ov_VolumeID v) ∧ serves config storage (ov_VolumeID v) v ∧ x = binding_of v.
Proof.
  intros Hr x. unfold volume_bindings. rewrite sort_by_elem, list_elem_of_fmap. setoid_rewrite list_elem_of_filter. setoid_rewrite referenced_used. split.
  - intros (v & -> & Hu & Hv). exists v. split_and!; try done. destruct (rd_volumes _ _ _ Hr _ Hu) as (v' & Hs). pose proof Hs as (Hin & Hid & _).
    by rewrite (NoDup_fmap_inj ov_VolumeID _ v v' (so_ids _ _ (rd_storage _ _ _ Hr)) Hv Hin (eq_sym Hid)) at 2.
  - intros (v & Hu & (Hin & _) & ->). by exists v.
Qed.
Lemma bindings_nodup config b storage : ready config b storage → NoDup (vb_VolumeID <$> volume_bindings config storage).
Proof.
  intros Hr. unfold volume_bindings. rewrite sort_by_perm, <- list_fmap_compose. apply (NoDup_fmap_filter ov_VolumeID), (so_ids _ _ (rd_storage _ _ _ Hr)).
Qed.
Lemma export_root_Some bs e r : NoDup (vb_VolumeID <$> bs) →
  export_root bs e = Some r ↔ ∃ b, b ∈ bs ∧ vb_VolumeID b = NfsConfig.ex_VolumeID e ∧ r = root_of_export e b.
Proof.
  intros HN. unfold export_root. destruct (List.find _ bs) as [b|] eqn:Hf; cbn [mbind option_bind].
  - apply find_some in Hf as [Hin%list_elem_of_In He%bool_decide_eq_true]. split; [intros [= <-]; by exists b|].
    intros (b' & Hin' & He' & ->). by rewrite (NoDup_fmap_inj vb_VolumeID bs b b' HN Hin Hin' ltac:(congruence)).
  - split; [done|]. intros (b & Hin%list_elem_of_In & He & _). apply (find_none _ _ Hf) in Hin. by apply bool_decide_eq_false in Hin.
Qed.

(** C8: A plan exists exactly when the evidence is complete: the policy is valid, both observations pass their checks, every granted user is an
    enabled account that Unix and Samba show as recorded, the numbers of anonymous clients exist, Kerberos is there when a client needs it, and every
    volume in use is observed, qualified, with the declared file system, and writable where somebody may write.  The plan does not depend on the order
    in which Go visits its maps; it binds exactly the volumes in use, each once and at its fixed mount point, its export roots are exactly the exports on
    those bindings, read-only when no client writes, its lookup files list exactly the granted accounts, and those for management exactly the accounts that
    are not retired, or nothing when the local files do not know one of them; its sections, exports table and requirements are those the file services
    compile to; its freshness tuple carries both revisions, both generations, the identity fingerprint and the digest of an encoding that determines the
    storage observation up to the order of its volumes; and it claims neither to be applied, nor validated, nor available for activation. *)
Theorem Build_plan_exact sha256 order config active ids storage :
  MapOrder order →
  (is_ok (Build sha256 order config active ids storage) = true ↔ ready config ids storage)
  ∧ ∀ p, Build sha256 order config active ids storage = Ok p →
      (∀ order', MapOrder order' → Build sha256 order' config active ids storage = Ok p)
      ∧ NoDup (vb_VolumeID <$> pl_volumes p)
      ∧ (∀ b, b ∈ pl_volumes p ↔ ∃ v, uses_volume config (ov_VolumeID v) ∧ serves config storage (ov_VolumeID v) v ∧ b = binding_of v)
      ∧ (∀ id, uses_volume config id → ∃ b, b ∈ pl_volumes p ∧ vb_VolumeID b = id ∧ vb_MountPath b = String.append "/srv/phantowd/volumes/" id
           ∧ (writes_volume config id → vb_ReadOnly b = false))
      ∧ (∀ r, r ∈ pl_nfsRoots p ↔ ∃ e b, e ∈ elems (NfsConfig.pol_Exports (FileService.fc_NFS config)) ∧ b ∈ pl_volumes p
           ∧ vb_VolumeID b = NfsConfig.ex_VolumeID e ∧ r = root_of_export e b)
      ∧ lists (pl_sambaNSS p) (granted_accounts (FileService.fc_Shares config) (id_Registry ids))
      ∧ (Forall (known_account ids) (live_accounts (id_Registry ids)) → lists (pl_sambaManagementNSS p) (live_accounts (id_Registry ids)))
      ∧ (¬ Forall (known_account ids) (live_accounts (id_Registry ids)) → pl_sambaManagementNSS p = mkLookup "" "" "")
      ∧ (∃ preview, FileService.Build (FileService.fc_Shares config) (FileService.fc_NFS config) = Ok preview
           ∧ pl_sambaConfig p = SmbConfig.pv_Sections (FileService.fp_Samba preview) ∧ pl_nfsConfig p = NfsConfig.pre_Table (FileService.fp_NFS preview)
           ∧ pl_requirements p = FileService.fp_Requirements preview)
      ∧ pl_sambaPolicy p = FileService.fc_Shares config
      ∧ pl_freshness p = mkFreshness (FileService.fc_Revision config) active (id_Generation ids) (id_Fingerprint ids) (st_Generation storage) (sha256 (storage_bytes storage))
      ∧ (∀ other, typed_storage storage → typed_storage other → storage_bytes other = storage_bytes storage ↔ same_storage other storage)
      ∧ pl_schemaVersion p = 1 ∧ pl_scope p = "candidate-only"
      ∧ pl_applied p = false ∧ pl_runtimeValidated p = false ∧ pl_activationAvailable p = false.
Proof.
  intros Ho. split.
  - rewrite is_ok_true. split; [intros [p [Hr _]%Plan_Build_Ok]; done|]. intros Hr. destruct (wf_preview _ (rd_policy _ _ _ Hr)) as [preview Hp].
    exists (compiled sha256 config active ids storage preview). apply Plan_Build_Ok; [done|]. split; [done|]. by exists preview.
  - intros p [Hr (preview & Hp & ->)]%Plan_Build_Ok; [|done]. cbn [compiled pl_volumes pl_nfsRoots pl_sambaNSS pl_sambaManagementNSS pl_applied pl_activationAvailable].
    pose proof (io_registry _ (rd_identities _ _ _ Hr)) as Hreg. destruct (management_lookup ids Hreg) as [Hm1 Hm2]. pose proof (binding_elem _ _ _ Hr) as Hb. pose proof (bindings_nodup _ _ _ Hr) as HN. split_and!; try done.
    + intros order' Ho'. apply Plan_Build_Ok; [done|]. split; [done|]. by exists preview.
    + intros id Hu. destruct (rd_volumes _ _ _ Hr _ Hu) as (v & Hs). pose proof Hs as (Hin & <- & _ & _ & Hw). exists (binding_of v).
      pose proof (so_volumes _ _ (rd_storage _ _ _ Hr)) as HG. rewrite Forall_forall in HG. destruct (HG v Hin) as [_ _ Hpath _ [Hi _]].
      split_and!; [apply Hb; by exists v|done| |done]. cbn [binding_of vb_MountPath]. rewrite Hpath. by apply NfsConfig.mount_path.
    + intros r. rewrite sort_by_elem, list_elem_of_omap. setoid_rewrite (export_root_Some _ _ _ HN). naive_solver.
    + by apply lookup_files_list, (granted_listable _ _ Hreg (rd_resolved _ _ _ Hr)).
    + by exists preview.
    + intros other Ht Hto. split; [by apply storage_bytes_inj|]. intros Hs. symmetry. apply storage_bytes_same, same_storage_sym, Hs. apply (so_ids _ _ (rd_storage _ _ _ Hr)).
Qed.

(** one share and one export of the volume [bulk], with everything they need *)
Definition sample_account : Account := mkAccount "writer" "alice" 1001 1001 ServiceAccounts.Enabled.
Definition sample_sid : string := "S-1-5-21-1-2-3-1001".
Definition sample_journal : SmbProvision.SmbJournal :=
  SmbProvision.mkSmbJournal SmbProvision.SmbFormat 1 7 5 (mkAccount "writer" "alice" 1001 1001 ServiceAccounts.Disabled) sample_sid SmbProvision.Enabled.
Definition sample_identities : IdentitySnapshot :=
  mkIdentities true 3 (replicate 32 5) (mkRegistry RegistryFormat 1 3 1000 2000 (Some [sample_account])) (Some [0; 7; 1001; 101000]) (Some [0; 7; 1001; 101000])
    (Some [mkSambaIdentity sample_journal (SmbProvision.mkObservation true "alice" 1001 1001 sample_sid false)]) true.
Definition sample_volume : ObservedVolume :=
  mkObserved "bulk" "11111111-2222-3333-4444-555555555555" "/srv/phantowd/volumes/bulk" "qualified" 41 9 0 false.
Definition sample_storage : StorageSnapshot := mkStorage true 1 (replicate 32 9) (Some [sample_volume]).
Definition sample_hash (_ : list Z) : list Z := replicate 32 1.
Definition sample_build : res plan_error Plan := Build sample_hash elements FileService.sample_config 0 sample_identities sample_storage.

Lemma Build_plan_exact_witness : ready FileService.sample_config sample_identities sample_storage ∧ is_ok sample_build = true
  ∧ ∀ p, sample_build = Ok p → Build sample_hash (λ s, rev (elements s)) FileService.sample_config 0 sample_identities sample_storage = Ok p.
Proof.
  destruct (Build_plan_exact sample_hash elements FileService.sample_config 0 sample_identities sample_storage elements_order) as [Hiff Hp].
  assert (Hok : is_ok sample_build = true) by (vm_compute; reflexivity).
  split; [apply Hiff; exact Hok|]. split; [exact Hok|]. intros p Hb. apply (Hp p Hb). intros s. symmetry. apply Permutation_rev.
Defined.
End FilePlan.
