(* ===== verification/PlanCandidates.v ===== *)
(** * What the candidates of a plan are bound to

    The candidates of [FilePlan.v] carry the freshness of their plan: an observation
    of the storage that passes for the planned one is the planned one, up to the
    order of its volumes, unless SHA-256 collides.  The Samba candidate serves each
    share from its own root. *)

From S2P Require Import Prelude GoStrings Shares NetIP GoPath NfsConfig SmbConfig FileService Accounts Unix Store Register SambaJournal HashInput SambaNss FilePlan.

Module PlanCandidates.
Import GoPath ServiceAccounts HashInput SambaNss FilePlan.

(** ** The storage fingerprint *)

(** A candidate for NFS is fresh against an observation of the storage exactly when that observation is the one it was planned for: the same
    completeness, generation, owner fingerprint and volumes in any order, or else two different inputs of SHA-256 with one digest have been found. *)
Theorem fresh_storage_same sha256 order config active ids storage p c s :
  MapOrder order → typed_storage storage → typed_storage s →
  Build sha256 order config active ids storage = Ok p → NFSv3TCPCandidate p = Ok c →
  (Nfs_FreshAgainstStorage sha256 c s = true →
     same_storage storage s ∨ storage_bytes storage ≠ storage_bytes s ∧ sha256 (storage_bytes storage) = sha256 (storage_bytes s))
  ∧ (same_storage storage s → is_nil (st_Volumes s) = false → Nfs_FreshAgainstStorage sha256 c s = true).
Proof.
  intros Ho Ht Hts [Hr (preview & _ & ->)]%Plan_Build_Ok Hc; [|done]. unfold NFSv3TCPCandidate in Hc. apply refuse_Ok in Hc as [_ [_ [= <-]]%refuse_Ok].
  unfold Nfs_FreshAgainstStorage, fingerprintStorageSnapshot. cbn [nc_valid nc_freshness compiled pl_freshness fr_StorageGeneration fr_StorageFingerprint].
  pose proof (rd_storage _ _ _ Hr) as [(Hc & Hg & Hn) Hsz _ HN _ _ _]. split.
  - rewrite !andb_true_iff, bool_decide_eq_true. intros [_ He]. destruct (decide (storage_bytes storage = storage_bytes s)) as [Hb|]; [left|by right].
    by apply storage_bytes_inj.
  - intros Hs Hnil. pose proof (storage_bytes_same _ _ HN Hs) as Hb. destruct Hs as (H1 & H2 & _ & H4). pose proof (ts_generation _ Ht).
    rewrite Hnil, <- H1, Hc, <- H2, Z.eqb_refl, <- Hb, bool_decide_eq_true_2 by done. unfold slen, len in *. rewrite <- H4.
    rewrite (proj2 (Z.ltb_lt _ _)), (proj2 (Z.leb_le _ _)) by lia. done.
Qed.

(** ** The Samba candidate *)
Lemma isolated_preview c : ShareConfig.wf_config c → (sort_by SmbConfig.sp_ID (SmbConfig.preview_of c <$> elems (ShareConfig.cfg_Shares c)))
  = SmbConfig.preview_of c <$> sort_by ShareConfig.share_ID (elems (ShareConfig.cfg_Shares c)).
Proof. intros Hw. apply (sort_by_fmap SmbConfig.sp_ID). rewrite <- list_fmap_compose. apply (ShareConfig.wf_share_ids _ Hw). Qed.
Lemma roots_sorted c : ShareConfig.wf_config c → sort_by sr_ID (share_root <$> elems (ShareConfig.cfg_Shares c))
  = share_root <$> sort_by ShareConfig.share_ID (elems (ShareConfig.cfg_Shares c)).
Proof. intros Hw. apply (sort_by_fmap sr_ID). rewrite <- list_fmap_compose. apply (ShareConfig.wf_share_ids _ Hw). Qed.

(** a section that serves a root: from the root's own directory, writable for somebody exactly when the root is *)
Definition serves_root (root : SambaShareRoot) (section : string * SmbConfig.rights) : Prop :=
  SmbConfig.rg_path section.2 = String.append "/shares/" (sr_ID root) ∧ (sr_ReadOnly root = true ↔ SmbConfig.rg_write section.2 = []).
Definition isolatable (config : FileService.Config) : Prop :=
  elems (ShareConfig.cfg_Shares (FileService.fc_Shares config)) ≠ []
  ∧ Forall (λ s, ShareConfig.share_RelativePath s ≠ ".") (elems (ShareConfig.cfg_Shares (FileService.fc_Shares config))).

Lemma no_writers c s : ShareConfig.wf_config c → s ∈ elems (ShareConfig.cfg_Shares c) →
  negb (existsb (λ g, ShareConfig.grant_Access g == "rw") (elems (ShareConfig.share_Grants s))) = true ↔ SmbConfig.sp_ReadWrite (SmbConfig.preview_of c s) = [].
Proof.
  intros Hw Hs. rewrite negb_true_iff, existsb_False. setoid_rewrite bool_decide_eq_false. cbn [SmbConfig.preview_of SmbConfig.sp_ReadWrite].
  pose proof (sort_by_perm id (SmbConfig.granted (SmbConfig.name_map c) true (elems (ShareConfig.share_Grants s)))) as Hp. unfold SmbConfig.granted in *. split.
  - intros H. apply Permutation_nil. rewrite Hp. replace (filter _ (elems _)) with (@nil ShareConfig.Grant); [done|]. symmetry.
    apply elem_of_nil_inv. intros g [Hg Hin]%list_elem_of_filter. apply (H g Hin). by apply bool_decide_eq_true in Hg.
  - intros H g Hg Ha. rewrite H in Hp. apply Permutation_nil_l in Hp. assert (Hin : g ∈ (@nil ShareConfig.Grant)); [|set_solver].
    apply (f_equal length) in Hp. rewrite length_fmap in Hp. symmetry in Hp. apply nil_length_inv in Hp. rewrite <- Hp. apply list_elem_of_filter. split; [|done].
    by apply bool_decide_eq_true.
Qed.

(** the shares of an isolated configuration, in order *)
Definition isolated_shares (c : ShareConfig.Config) : list SmbConfig.SharePreview :=
  (λ s, SmbConfig.isolate (SmbConfig.preview_of c s)) <$> sort_by ShareConfig.share_ID (elems (ShareConfig.cfg_Shares c)).
Lemma isolated_sections c pre : SmbConfig.BuildIsolated c = Ok pre →
  SmbConfig.pv_Sections pre = SmbConfig.sections (isolated_shares c) ∧ Forall SmbConfig.printable (isolated_shares c)
  ∧ Forall (λ s, ShareConfig.share_RelativePath s ≠ ".") (elems (ShareConfig.cfg_Shares c)).
Proof.
  intros (Hw & _ & HS & _ & ->)%SmbConfig.build_Ok. cbn [SmbConfig.pv_Sections]. rewrite isolated_preview, <- list_fmap_compose by done. split_and!; [done| |].
  - apply Forall_fmap, Forall_forall. intros s Hs. rewrite sort_by_elem in Hs. rewrite Forall_forall in HS. by apply (SmbConfig.rendered_printable c true s); auto.
  - eapply Forall_impl; [exact HS|]. intros s [Hi _ _]. by apply Hi.
Qed.
Lemma isolated_iff config : FileService.wf config → let shares := FileService.fc_Shares config in
  is_ok (SmbConfig.BuildIsolated shares) = true ↔ Forall (λ s, ShareConfig.share_RelativePath s ≠ ".") (elems (ShareConfig.cfg_Shares shares)).
Proof.
  intros Hpol shares. rewrite is_ok_true. split; [intros (pre & (_ & _ & H)%isolated_sections); done|]. intros HF. eexists. apply SmbConfig.build_Ok.
  split_and!; [apply (FileService.wf_shares _ Hpol)|apply (FileService.wf_size _ Hpol)| |apply (FileService.wf_apart _ Hpol)|reflexivity].
  pose proof (FileService.wf_safe _ Hpol) as HS. fold shares in HS. rewrite Forall_forall in HS, HF |- *. intros s Hs. destruct (HS s Hs). split; [intros _; by apply HF|done..].
Qed.
Lemma sections_serve c : ShareConfig.wf_config c →
  Forall2 serves_root (share_root <$> sort_by ShareConfig.share_ID (elems (ShareConfig.cfg_Shares c))) (SmbConfig.share_rights <$> isolated_shares c).
Proof.
  intros Hw. unfold isolated_shares. rewrite <- list_fmap_compose. apply Forall2_fmap, Forall_Forall2_diag, Forall_forall. intros s Hs. rewrite sort_by_elem in Hs.
  split; [done|]. by apply no_writers.
Qed.
Lemma lookup_present l : missing (documents (lookup_files l)) = false.
Proof. done. Qed.

(** The Samba candidate of a plan exists exactly when there is a share and no share is the root of its volume; it has one root per share, read-only
    when nobody may write; its sections, read back, serve exactly these roots in the same order, each from its own directory, and nothing else; and its
    lookup files list exactly the granted accounts. *)
Theorem samba_candidate_exact sha256 order config active ids storage p :
  MapOrder order → Build sha256 order config active ids storage = Ok p →
  (is_ok (Plan_SambaIsolatedCandidate p) = true ↔ isolatable config)
  ∧ ∀ c, Plan_SambaIsolatedCandidate p = Ok c →
      ic_roots c = share_root <$> sort_by ShareConfig.share_ID (elems (ShareConfig.cfg_Shares (FileService.fc_Shares config)))
      ∧ (∃ sections, SmbConfig.read_shares (ic_sections c) = Some sections ∧ Forall2 serves_root (ic_roots c) sections)
      ∧ UnixIdentity.Parse (file (lk_passwd (ic_lookup c))) (file (lk_group (ic_lookup c)))
        = Ok (lookup_snapshot (granted_accounts (FileService.fc_Shares config) (id_Registry ids)))
      ∧ ∀ current, Isolated_FreshAgainst c current = true ↔ pl_freshness p = current.
Proof.
  intros Ho [Hr (preview & _ & ->)]%Plan_Build_Ok; [|done]. pose proof (rd_policy _ _ _ Hr) as Hpol. pose proof (FileService.wf_shares _ Hpol) as Hw.
  pose proof (isolated_iff config Hpol) as Hiso. cbn zeta in Hiso. unfold Plan_SambaIsolatedCandidate, SambaNSSCandidates, SambaShareCandidates, isolatable.
  cbn [compiled pl_scope pl_sambaNSS pl_sambaPolicy pl_freshness]. rewrite lookup_present, bool_decide_eq_true_2, roots_sorted by done. cbn [negb orb mbind res_bind].
  set (roots := share_root <$> _). assert (Hlen : len roots =? 0 = false ↔ elems (ShareConfig.cfg_Shares (FileService.fc_Shares config)) ≠ []).
  { subst roots. unfold len. rewrite length_fmap, sort_by_perm, Z.eqb_neq. destruct (elems _); cbn; split; (done || lia). }
  destruct (SmbConfig.BuildIsolated (FileService.fc_Shares config)) as [pre|e] eqn:Hb; cbn [is_ok] in Hiso; [|naive_solver].
  pose proof (isolated_sections _ _ Hb) as (Hsec & Hpr & HF). split.
  - rewrite is_ok_true. setoid_rewrite refuse_Ok. rewrite <- Hlen. naive_solver.
  - intros c [_ [= <-]]%refuse_Ok. cbn [ic_roots ic_sections ic_lookup]. split_and!; [done| | |].
    + exists (SmbConfig.share_rights <$> isolated_shares (FileService.fc_Shares config)). rewrite Hsec. split; [by apply SmbConfig.read_shares_exact|by apply sections_serve].
    + apply (files_parse (Some (granted_accounts (FileService.fc_Shares config) (id_Registry ids)))).
      by apply (granted_listable _ _ (io_registry _ (rd_identities _ _ _ Hr)) (rd_resolved _ _ _ Hr)).
    + intros current. unfold Isolated_FreshAgainst. cbn [ic_valid ic_freshness andb]. by rewrite bool_decide_eq_true.
Qed.

Definition sys_config : FileService.Config :=
  FileService.mkConfig FileService.ConfigFormat 1 2 NfsConfig.sample_volumes
    (NfsConfig.mkPolicy "phantowd-nfs-policy" 1 2 2 (Some [NfsConfig.mkExport "aaaaaaaa-bbbb-cccc-dddd-eeeeeeeeeeee" "bulk" "my books"
       (Some [NfsConfig.mkClient "192.0.2.0/24" "rw" "all" 101000 101000 "sys"])])).
Definition sys_plan : res plan_error Plan := Build sample_hash elements sys_config 0 sample_identities sample_storage.
Lemma sample_typed : typed_storage sample_storage.
Proof. split; [done..|]. apply Forall_singleton. split; by vm_compute. Qed.

Lemma fresh_storage_same_witness : ∃ p c, sys_plan = Ok p ∧ NFSv3TCPCandidate p = Ok c ∧ Nfs_FreshAgainstStorage sample_hash c sample_storage = true.
Proof.
  destruct sys_plan as [p|] eqn:Hp; [|vm_compute in Hp; discriminate]. destruct (NFSv3TCPCandidate p) as [c|] eqn:Hc.
  - exists p, c. split; [reflexivity|]. split; [exact Hc|].
    apply (fresh_storage_same sample_hash elements sys_config 0 sample_identities sample_storage p c sample_storage elements_order sample_typed sample_typed Hp Hc); [|reflexivity].
    split_and!; reflexivity.
  - exfalso. vm_compute in Hp. injection Hp as <-. vm_compute in Hc. discriminate.
Defined.
Lemma samba_candidate_exact_witness : ∃ p c, sys_plan = Ok p ∧ Plan_SambaIsolatedCandidate p = Ok c ∧ (sr_ID <$> ic_roots c) = ["books"].
Proof.
  destruct sys_plan as [p|] eqn:Hp; [|vm_compute in Hp; discriminate].
  destruct (samba_candidate_exact sample_hash elements sys_config 0 sample_identities sample_storage p elements_order Hp) as [Hiff Hc].
  destruct (Plan_SambaIsolatedCandidate p) as [c|] eqn:Hi.
  - exists p, c. split; [reflexivity|]. split; [exact Hi|]. destruct (Hc c eq_refl) as [-> _]. vm_compute. reflexivity.
  - exfalso. enough (false = true) by discriminate. apply Hiff. split; [discriminate|]. repeat constructor. vm_compute. discriminate.
Defined.
End PlanCandidates.
