(* ===== verification/MountOwner.v ===== *)
(** * The lifecycle of one mount: [internal/mountowner/owner_linux.go]

    An [Owner] qualifies a one-use token, binds it to its mountpoint, hands out
    leases, drains and unmounts; whatever it cannot be sure of puts it into review
    for good.  Tokens and leases are shared objects, so they live in stores that
    the owners refer to.  What the kernel, the driver and the guards answer are
    arguments of each operation, and the calls that matter are recorded in a
    trace. *)

From S2P Require Import Prelude GoStrings Shares GoPath.

Module MountOwner.
Import GoPath.

(** ** Data *)
Inductive error := ErrInvalid | ErrUnavailable | ErrBusy | ErrConflict | ErrRejected | ErrReview | ErrOpen.
#[export] Instance error_eq_dec : EqDecision error. Proof. solve_decision. Defined.
Inductive State :=
| StateAbsent | StateDiscovered | StateRejected | StateQualified | StateMounting | StateMounted
| StateUnavailable | StateDraining | StateReviewRequired.
#[export] Instance State_eq_dec : EqDecision State. Proof. solve_decision. Defined.
Definition qualifiedCompatibility : string := "qualified".

(** [mountguard.Expected] *)
Record Expected := mkExpected {
  xe_MountID : Z; xe_RootInode : Z; xe_DeviceMajor : Z; xe_DeviceMinor : Z; xe_FilesystemType : Z;
  xe_FilesystemUUID : string; xe_RequireWritable : bool }.
Record TargetIdentity := mkTarget {
  ti_MountID : Z; ti_RootInode : Z; ti_DeviceMajor : Z; ti_DeviceMinor : Z; ti_FilesystemType : Z;
  ti_MountRoot : bool; ti_MountRootKnown : bool }.
#[export] Instance TargetIdentity_eq_dec : EqDecision TargetIdentity. Proof. solve_decision. Defined.
(** [sourceRoot]: whether the token still holds its guard *)
Record Qualification := mkQualification {
  q_volumeID : string; q_compatibility : string; q_source : string; q_expected : Expected; q_sourceRoot : bool; q_consumed : bool }.
Record Owner := mkOwner {
  ow_target : string; ow_state : State; ow_qualification : option nat; ow_targetBefore : TargetIdentity; ow_targetPin : bool;
  ow_expected : Expected; ow_root : bool; ow_leases : gset nat; ow_generation : Z; ow_volumeID : string; ow_compatibility : string }.
Record Lease := mkLease { ls_owner : nat; ls_generation : Z; ls_closed : bool; ls_files : gset nat }.

(** calls of the driver and descriptors opened and closed *)
Inductive event :=
| MountBind (token : nat) | Unmount | PinOpen | PinClose | RootOpen | RootClose | SourceClose (token : nat)
| FileOpen (lease file : nat) | FilesClose (lease : nat).

(** one owner with the shared stores; the trace grows to the right *)
Record sys := mkSys { s_id : nat; s_owner : Owner; s_tokens : gmap nat Qualification; s_leases : gmap nat Lease; s_trace : list event }.

(** ** Updates *)
Definition with_owner (f : Owner → Owner) (s : sys) : sys := mkSys (s_id s) (f (s_owner s)) (s_tokens s) (s_leases s) (s_trace s).
Definition emit (e : event) (s : sys) : sys := mkSys (s_id s) (s_owner s) (s_tokens s) (s_leases s) (s_trace s ++ [e]).
Definition set_token (t : nat) (q : Qualification) (s : sys) : sys := mkSys (s_id s) (s_owner s) (<[t := q]> (s_tokens s)) (s_leases s) (s_trace s).
Definition set_lease (l : nat) (x : Lease) (s : sys) : sys := mkSys (s_id s) (s_owner s) (s_tokens s) (<[l := x]> (s_leases s)) (s_trace s).
Definition set_state (st : State) (o : Owner) : Owner :=
  mkOwner (ow_target o) st (ow_qualification o) (ow_targetBefore o) (ow_targetPin o) (ow_expected o) (ow_root o) (ow_leases o) (ow_generation o) (ow_volumeID o) (ow_compatibility o).
Definition set_qualification (q : option nat) (o : Owner) : Owner :=
  mkOwner (ow_target o) (ow_state o) q (ow_targetBefore o) (ow_targetPin o) (ow_expected o) (ow_root o) (ow_leases o) (ow_generation o) (ow_volumeID o) (ow_compatibility o).
Definition set_pin (b : bool) (o : Owner) : Owner :=
  mkOwner (ow_target o) (ow_state o) (ow_qualification o) (ow_targetBefore o) b (ow_expected o) (ow_root o) (ow_leases o) (ow_generation o) (ow_volumeID o) (ow_compatibility o).
Definition set_before (t : TargetIdentity) (o : Owner) : Owner :=
  mkOwner (ow_target o) (ow_state o) (ow_qualification o) t (ow_targetPin o) (ow_expected o) (ow_root o) (ow_leases o) (ow_generation o) (ow_volumeID o) (ow_compatibility o).
Definition set_root (b : bool) (o : Owner) : Owner :=
  mkOwner (ow_target o) (ow_state o) (ow_qualification o) (ow_targetBefore o) (ow_targetPin o) (ow_expected o) b (ow_leases o) (ow_generation o) (ow_volumeID o) (ow_compatibility o).
Definition set_leases (l : gset nat) (o : Owner) : Owner :=
  mkOwner (ow_target o) (ow_state o) (ow_qualification o) (ow_targetBefore o) (ow_targetPin o) (ow_expected o) (ow_root o) l (ow_generation o) (ow_volumeID o) (ow_compatibility o).
Definition set_volume (id compatibility : string) (o : Owner) : Owner :=
  mkOwner (ow_target o) (ow_state o) (ow_qualification o) (ow_targetBefore o) (ow_targetPin o) (ow_expected o) (ow_root o) (ow_leases o) (ow_generation o) id compatibility.
(** the fields that a successful mount sets *)
Definition set_mounted (observed : Expected) (id compatibility : string) (o : Owner) : Owner :=
  mkOwner (ow_target o) StateMounted None (ow_targetBefore o) (ow_targetPin o) observed true (ow_leases o) (u64_add (ow_generation o) 1) id compatibility.

(** ** Predicates *)
Definition stateError (st : State) : error :=
  match st with
  | StateReviewRequired => ErrReview
  | StateRejected => ErrRejected
  | StateDraining | StateMounting => ErrBusy
  | StateQualified | StateMounted => ErrConflict
  | _ => ErrUnavailable
  end.
Definition validUUID (value : string) : bool :=
  if negb (slength value =? 36) then false
  else forallb (λ e : Z * Z * nat, let '(index, char, _) := e in
      if (index =? 8) || (index =? 13) || (index =? 18) || (index =? 23) then char =? 45 else is_digit char || ((97 <=? char) && (char <=? 102)))
    (range_string value).
Definition validExpected (e : Expected) : bool :=
  negb (xe_MountID e =? 0) && negb (xe_RootInode e =? 0) && negb (xe_FilesystemType e =? 0) && negb (xe_DeviceMajor e =? 0) && validUUID (xe_FilesystemUUID e).
Definition same_object (left right : Expected) : bool :=
  (xe_RootInode left =? xe_RootInode right) && (xe_DeviceMajor left =? xe_DeviceMajor right) && (xe_DeviceMinor left =? xe_DeviceMinor right)
  && (xe_FilesystemType left =? xe_FilesystemType right) && Bool.eqb (xe_RequireWritable left) (xe_RequireWritable right)
  && ((xe_FilesystemUUID left == "") || (xe_FilesystemUUID left == xe_FilesystemUUID right)).
Definition sameKernelMount (left right : Expected) : bool := (xe_MountID left =? xe_MountID right) && same_object left right.
Definition sameMountedFilesystem (actual source : Expected) : bool :=
  negb (xe_MountID actual =? 0) && negb (xe_MountID actual =? xe_MountID source) && same_object actual source.
Definition validVolumeID (id : string) : bool :=
  if (slength id =? 0) || (64 <? slength id) || (byte_at id 0 <? 97) || (122 <? byte_at id 0) then false
  else match id with
       | EmptyString => false
       | String _ rest => forallb (λ c, is_lower c || is_digit c || (c =? 45)) (runes rest)
       end.
Definition validAbsolute (path : string) : bool :=
  (path != "") && (path != "/") && (slength path <=? 4096) && IsAbs path && (Clean path == path) && negb (0 ∈? codes path).

(** [filepath.Rel] on clean absolute paths *)
Fixpoint strip_common (base targ : list string) : list string * list string :=
  match base, targ with
  | b :: base', t :: targ' => if b == t then strip_common base' targ' else (base, targ)
  | _, _ => (base, targ)
  end.
Definition Rel (base targ : string) : string :=
  let '(up, down) := strip_common (split_on "/" base) (split_on "/" targ) in
  match (replicate (length up) ".." ++ down)%list with [] => "." | ws => join_with "/" ws end.
Definition pathContains (parent child : string) : bool :=
  let rel := Rel parent child in (rel == ".") || ((rel != "..") && negb (has_prefix "../" rel)).
Definition sameOrNestedPath (source target : string) : bool := pathContains source target || pathContains target source.

Definition zero_expected : Expected := mkExpected 0 0 0 0 0 "" false.
Definition zero_target : TargetIdentity := mkTarget 0 0 0 0 0 false false.
(** [newOwner]; its interfaces are never nil here *)
Definition newOwner (target : string) : res error Owner :=
  refuse negb (validAbsolute target) => ErrInvalid ;;
  Ok (mkOwner target StateAbsent None zero_target false zero_expected false ∅ 0 "" "").

(** ** Releasing *)
Definition token_of (s : sys) : option (nat * Qualification) := t ← ow_qualification (s_owner s); q ← s_tokens s !! t; Some (t, q).
Definition spend (q : Qualification) (sourceRoot consumed : bool) : Qualification :=
  mkQualification (q_volumeID q) (q_compatibility q) (q_source q) (q_expected q) sourceRoot consumed.
Definition closeTargetLocked (s : sys) : sys := if ow_targetPin (s_owner s) then emit PinClose (with_owner (set_pin false) s) else s.
Definition closeRoot (s : sys) : sys := if ow_root (s_owner s) then emit RootClose (with_owner (set_root false) s) else s.
Definition closeQualificationLocked (s : sys) : sys :=
  match token_of s with
  | None => with_owner (set_qualification None) s
  | Some (t, q) =>
    let s := set_token t (spend q false true) (if q_sourceRoot q then emit (SourceClose t) s else s) in
    with_owner (set_qualification None) s
  end.
Definition closeFilesLocked (l : nat) (s : sys) : sys :=
  match s_leases s !! l with
  | None => s
  | Some x => if ls_files x == ∅ then s else emit (FilesClose l) (set_lease l (mkLease (ls_owner x) (ls_generation x) (ls_closed x) ∅) s)
  end.
Definition closeLeasedFilesLocked (s : sys) : sys := foldr closeFilesLocked s (elements (ow_leases (s_owner s))).
Definition rejectQualification (token : option nat) (s : sys) : sys * res error unit :=
  let s := with_owner (λ o, set_volume "" "" (set_state StateRejected o)) s in
  let s := match token with
           | None => s
           | Some t => match s_tokens s !! t with
                       | Some q => if q_sourceRoot q then set_token t (spend q false true) (emit (SourceClose t) s) else s
                       | None => s
                       end
           end in
  let s := closeTargetLocked s in
  (with_owner (set_qualification None) s, Err ErrRejected).
Definition reviewLocked (s : sys) : sys * res error unit :=
  let s := with_owner (λ o, set_volume "" "" (set_state StateReviewRequired o)) s in
  (closeLeasedFilesLocked (closeTargetLocked (closeRoot (closeQualificationLocked s))), Err ErrReview).

(** ** Operations *)

(** the answers of the observer and of the pinned target *)
Record target_env := mkTargetEnv { te_observed : option TargetIdentity; te_identity : option TargetIdentity; te_empty : option bool }.
Record qualify_env := mkQualifyEnv {
  qe_verify : bool; qe_source : option Expected; qe_target : target_env; qe_pin_err : bool; qe_pin : bool }.
Definition Qualify (token : option nat) (e : qualify_env) (s : sys) : sys * res error unit :=
  let st := ow_state (s_owner s) in
  if (st != StateAbsent) && (st != StateUnavailable) then (s, Err (stateError st))
  else
  let s := with_owner (set_state StateDiscovered) s in
  match token with
  | None => rejectQualification None s
  | Some t =>
    match s_tokens s !! t with
    | None => rejectQualification None s
    | Some q =>
      if q_consumed q then (with_owner (set_state StateRejected) s, Err ErrRejected)
      else if negb (validVolumeID (q_volumeID q)) || (q_compatibility q != qualifiedCompatibility) || negb (validAbsolute (q_source q))
              || (q_source q == ow_target (s_owner s)) || negb (q_sourceRoot q) || negb (validExpected (q_expected q))
              || sameOrNestedPath (q_source q) (ow_target (s_owner s)) then rejectQualification token s
      else if negb (qe_verify e) then rejectQualification token s
      else if negb (match qe_source e with Some x => sameKernelMount x (q_expected q) | None => false end) then rejectQualification token s
      else match te_observed (qe_target e) with
      | None => rejectQualification token s
      | Some target =>
        if negb (ti_MountRootKnown target) || ti_MountRoot target || (ti_MountID target =? 0) || (ti_RootInode target =? 0) then rejectQualification token s
        else if qe_pin_err e || negb (qe_pin e)
        then rejectQualification token (if qe_pin e then emit PinClose (emit PinOpen s) else s)
        else
          let s := emit PinOpen (with_owner (set_pin true) s) in
          if te_identity (qe_target e) != Some target then rejectQualification token s
          else if te_empty (qe_target e) != Some true then rejectQualification token s
          else (with_owner (λ o, set_state StateQualified (set_before target (set_qualification (Some t) o))) (set_token t (spend q (q_sourceRoot q) true) s), Ok tt)
      end
    end
  end.

Definition targetUnchangedAndEmpty (o : Owner) (e : target_env) : bool :=
  match te_observed e with
  | None => false
  | Some target =>
    (target == ow_targetBefore o) && negb (ti_MountRoot target) && ti_MountRootKnown target && ow_targetPin o
    && (te_identity e == Some (ow_targetBefore o)) && (te_empty e == Some true)
  end.
Definition unchanged (expected : Expected) (observed : option Expected) : bool :=
  match observed with Some x => sameKernelMount x expected | None => false end.

Record mount_env := mkMountEnv {
  me_ctx : bool; me_verify : bool; me_target : target_env; me_source_err : bool; me_source : bool; me_pin_file : bool;
  me_bind : bool; me_source_close : bool; me_ctx_after : bool; me_observed : option Expected; me_open : bool;
  me_verify_source : bool; me_verify_root : bool; me_again : option Expected; me_guard_close : bool }.
Definition Mount (e : mount_env) (s : sys) : sys * res error unit :=
  match ow_state (s_owner s), token_of s with
  | StateQualified, Some (t, q) =>
    if negb (me_ctx e) then (s, Err ErrUnavailable)
    else if negb (me_verify e) || negb (targetUnchangedAndEmpty (s_owner s) (me_target e)) then rejectQualification (Some t) s
    else if me_source_err e || negb (me_source e) || negb (ow_targetPin (s_owner s)) || negb (me_pin_file e) then rejectQualification (Some t) s
    else
      let s := emit (MountBind t) (with_owner (set_state StateMounting) s) in
      if negb (me_bind e) || negb (me_source_close e) || negb (me_ctx_after e) then reviewLocked s
      else match me_observed e with
      | None => reviewLocked s
      | Some observed =>
        if negb (sameMountedFilesystem observed (q_expected q)) then reviewLocked s
        else
          let observed := mkExpected (xe_MountID observed) (xe_RootInode observed) (xe_DeviceMajor observed) (xe_DeviceMinor observed)
                            (xe_FilesystemType observed) (xe_FilesystemUUID (q_expected q)) (xe_RequireWritable (q_expected q)) in
          if negb (me_open e) then reviewLocked s
          else
            let s := emit RootOpen s in
            if negb (me_verify_source e) || negb (me_verify_root e) || negb (unchanged observed (me_again e)) then reviewLocked (emit RootClose s)
            else if negb (me_guard_close e) then reviewLocked (emit RootClose s)
            else
              let s := set_token t (spend q false (q_consumed q)) (emit (SourceClose t) s) in
              (with_owner (set_mounted observed (q_volumeID q) (q_compatibility q)) s, Ok tt)
      end
  | st, _ => (s, Err (stateError st))
  end.

Record verify_env := mkVerifyEnv { ve_root : bool; ve_mount : option Expected }.
Definition verifyMountedLocked (e : verify_env) (s : sys) : sys * res error unit :=
  let o := s_owner s in
  if negb (ow_root o) || negb (ve_root e) || negb (unchanged (ow_expected o) (ve_mount e)) then reviewLocked s else (s, Ok tt).

(** [acquireLocked]: the new lease, by its key in the store *)
Definition acquireLocked (ctx : bool) (e : verify_env) (s : sys) : sys * res error nat :=
  if negb ctx then (s, Err ErrUnavailable)
  else if ow_state (s_owner s) != StateMounted then (s, Err (stateError (ow_state (s_owner s))))
  else match verifyMountedLocked e s with
  | (s, Err err) => (s, Err err)
  | (s, Ok _) =>
    let l := fresh (dom (s_leases s)) in
    (with_owner (λ o, set_leases ({[l]} ∪ ow_leases o) o) (set_lease l (mkLease (s_id s) (ow_generation (s_owner s)) false ∅) s), Ok l)
  end.
Definition Verify (e : verify_env) (s : sys) : sys * res error unit :=
  let st := ow_state (s_owner s) in
  if (st != StateMounted) && (st != StateDraining) then (s, Err (stateError st)) else verifyMountedLocked e s.
Definition Drain (e : verify_env) (s : sys) : sys * res error unit :=
  if ow_state (s_owner s) != StateMounted then (s, Err (stateError (ow_state (s_owner s))))
  else match verifyMountedLocked e s with
  | (s, Err err) => (s, Err err)
  | (s, Ok _) => (with_owner (set_state StateDraining) s, if ow_leases (s_owner s) != ∅ then Err ErrBusy else Ok tt)
  end.

Record unmount_env := mkUnmountEnv {
  ue_ctx : bool; ue_verify : verify_env; ue_root_close : bool; ue_unmount : bool; ue_ctx_after : bool; ue_target : target_env; ue_pin_close : bool }.
(** [Owner.Unmount]; the name of the call is that of the driver's event *)
Definition Owner_Unmount (e : unmount_env) (s : sys) : sys * res error unit :=
  match ow_state (s_owner s) with
  | StateReviewRequired => (s, Err ErrReview)
  | StateDraining =>
    if ow_leases (s_owner s) != ∅ then (s, Err ErrBusy)
    else if negb (ue_ctx e) then (s, Err ErrUnavailable)
    else match verifyMountedLocked (ue_verify e) s with
    | (s, Err err) => (s, Err err)
    | (s, Ok _) =>
      if ow_root (s_owner s) && negb (ue_root_close e) then reviewLocked s
      else
        let s := emit Unmount (closeRoot s) in
        if negb (ue_unmount e) || negb (ue_ctx_after e) then reviewLocked s
        else if te_observed (ue_target e) != Some (ow_targetBefore (s_owner s)) then reviewLocked s
        else if negb (ow_targetPin (s_owner s)) then reviewLocked s
        else if te_identity (ue_target e) != Some (ow_targetBefore (s_owner s)) then reviewLocked s
        else if te_empty (ue_target e) != Some true then reviewLocked s
        else
          let s := closeTargetLocked s in
          if negb (ue_pin_close e) then reviewLocked s
          else (with_owner (λ o, set_volume "" "" (set_state StateUnavailable o)) s, Ok tt)
    end
  | st => (s, Err (stateError st))
  end.
Definition Close (s : sys) : sys * res error unit :=
  match ow_state (s_owner s) with
  | StateMounted | StateDraining | StateMounting => ((reviewLocked s).1, Ok tt)
  | _ =>
    let s := closeTargetLocked (closeRoot (closeLeasedFilesLocked (closeQualificationLocked s))) in
    (if ow_state (s_owner s) != StateReviewRequired then with_owner (set_state StateUnavailable) s else s, Ok tt)
  end.

(** [MountedVolumeEvidence] *)
Record MountedVolumeEvidence := mkEvidence {
  ev_volumeID : string; ev_filesystemUUID : string; ev_mountPath : string; ev_compatibility : string; ev_generation : Z;
  ev_mountID : Z; ev_deviceMajor : Z; ev_deviceMinor : Z; ev_readOnly : bool }.
Definition evidence_of (o : Owner) : MountedVolumeEvidence :=
  mkEvidence (ow_volumeID o) (xe_FilesystemUUID (ow_expected o)) (ow_target o) (ow_compatibility o) (ow_generation o)
    (xe_MountID (ow_expected o)) (xe_DeviceMajor (ow_expected o)) (xe_DeviceMinor (ow_expected o)) (negb (xe_RequireWritable (ow_expected o))).
Definition observeMountedVolumeLocked (e : verify_env) (s : sys) : sys * res error MountedVolumeEvidence :=
  if ow_state (s_owner s) != StateMounted then (s, Err (stateError (ow_state (s_owner s))))
  else match verifyMountedLocked e s with
  | (s, Err err) => (s, Err err)
  | (s, Ok _) =>
    let o := s_owner s in
    if negb (validVolumeID (ow_volumeID o)) || (ow_compatibility o != qualifiedCompatibility) || negb (validAbsolute (ow_target o))
       || (ow_generation o =? 0) || negb (validExpected (ow_expected o)) || (xe_MountID (ow_expected o) =? 0) || (xe_DeviceMajor (ow_expected o) =? 0)
    then ((reviewLocked s).1, Err ErrReview)
    else (s, Ok (evidence_of o))
  end.

(** [Lease.OpenDirectory]: [oe_file] is the descriptor the guard returns, if any *)
Record open_env := mkOpenEnv { oe_before : verify_env; oe_file : option nat; oe_after : verify_env }.
Definition OpenDirectory (l : nat) (e : open_env) (s : sys) : sys * res error nat :=
  match s_leases s !! l with
  | None => (s, Err ErrUnavailable)
  | Some x =>
    if ls_closed x || negb (ls_generation x =? ow_generation (s_owner s)) || negb (l ∈? ow_leases (s_owner s)) then (s, Err ErrUnavailable)
    else if ow_state (s_owner s) != StateMounted
    then (s, Err (if ow_state (s_owner s) == StateReviewRequired then ErrReview else ErrUnavailable))
    else match verifyMountedLocked (oe_before e) s with
    | (s, Err err) => (s, Err err)
    | (s, Ok _) =>
      match oe_file e, verifyMountedLocked (oe_after e) s with
      | None, (s, Ok _) => (s, Err ErrOpen)
      | Some f, (s, Ok _) => (emit (FileOpen l f) (set_lease l (mkLease (ls_owner x) (ls_generation x) (ls_closed x) ({[f]} ∪ ls_files x)) s), Ok f)
      | _, (s, Err _) => (s, Err ErrReview)
      end
    end
  end.
(** [Lease.closeLocked]: [ok] when no descriptor failed to close *)
Definition closeLocked (l : nat) (ok : bool) (s : sys) : sys * res error unit :=
  match s_leases s !! l with
  | None => (s, Ok tt)
  | Some x =>
    if ls_closed x then (s, Ok tt)
    else
      let s := closeFilesLocked l s in
      (with_owner (λ o, set_leases (ow_leases o ∖ {[l]}) o) (set_lease l (mkLease (ls_owner x) (ls_generation x) true ∅) s),
       if (ls_files x == ∅) || ok then Ok tt else Err ErrUnavailable)
  end.

(** ** Invariants of one owner *)
Definition mounted_state (st : State) : bool := match st with StateMounted | StateDraining => true | _ => false end.
Definition pinned_state (st : State) : bool := match st with StateQualified | StateMounted | StateDraining => true | _ => false end.

(** the references of an owner *)
Record linked (s : sys) : Prop := {
  lk_token : ∀ t, ow_qualification (s_owner s) = Some t → ∃ q, s_tokens s !! t = Some q ∧ q_consumed q = true;
  lk_active : ∀ l, l ∈ ow_leases (s_owner s) → ∃ x, s_leases s !! l = Some x ∧ ls_owner x = s_id s ∧ ls_closed x = false;
  lk_inactive : ∀ l x, s_leases s !! l = Some x → ls_owner x = s_id s → l ∉ ow_leases (s_owner s) → ls_closed x = true ∧ ls_files x = ∅ }.
Record sys_ok (s : sys) : Prop := {
  so_linked : linked s;
  so_state : ow_state (s_owner s) ≠ StateDiscovered ∧ ow_state (s_owner s) ≠ StateMounting;
  so_pin : ow_targetPin (s_owner s) = pinned_state (ow_state (s_owner s));
  so_root : ow_root (s_owner s) = mounted_state (ow_state (s_owner s));
  so_token : match ow_state (s_owner s) with
             | StateQualified => ∃ t q, ow_qualification (s_owner s) = Some t ∧ s_tokens s !! t = Some q ∧ q_sourceRoot q = true
                 ∧ validVolumeID (q_volumeID q) = true ∧ q_compatibility q = qualifiedCompatibility ∧ validExpected (q_expected q) = true
             | _ => ow_qualification (s_owner s) = None
             end;
  so_leases : ow_leases (s_owner s) = ∅ ∨ mounted_state (ow_state (s_owner s)) = true ∨ ow_state (s_owner s) = StateReviewRequired;
  so_files : ow_state (s_owner s) = StateReviewRequired → ∀ l x, s_leases s !! l = Some x → ls_owner x = s_id s → ls_files x = ∅;
  so_volume : if mounted_state (ow_state (s_owner s))
              then validVolumeID (ow_volumeID (s_owner s)) = true ∧ ow_compatibility (s_owner s) = qualifiedCompatibility ∧ validExpected (ow_expected (s_owner s)) = true
              else ow_volumeID (s_owner s) = "" ∧ ow_compatibility (s_owner s) = "" }.

(** the calls of the driver *)
Definition is_call (e : event) : bool := match e with MountBind _ | Unmount => true | _ => false end.
Definition calls (l : list event) : list event := filter (λ e, is_call e = true) l.
Lemma calls_app l k : calls (l ++ k) = calls l ++ calls k.
Proof. apply filter_app. Qed.

(** what an operation may do to the stores and to the state, with the calls it makes *)
Definition spends (s s' : sys) (t : nat) : Prop :=
  ∃ q q', s_tokens s !! t = Some q ∧ s_tokens s' !! t = Some q' ∧ q_consumed q' = true
          ∧ (ow_qualification (s_owner s) = Some t ∨ q_consumed q = false).
Definition lifecycle (s s' : sys) (cs : list event) : Prop :=
  match cs with
  | [] => mounted_state (ow_state (s_owner s')) = mounted_state (ow_state (s_owner s)) ∨ ow_state (s_owner s') = StateReviewRequired
  | [MountBind t] => ow_state (s_owner s) = StateQualified ∧ ow_qualification (s_owner s) = Some t ∧ ow_qualification (s_owner s') = None
                     ∧ (ow_state (s_owner s') = StateMounted ∨ ow_state (s_owner s') = StateReviewRequired)
  | [Unmount] => ow_state (s_owner s) = StateDraining ∧ ow_leases (s_owner s) = ∅
                 ∧ (ow_state (s_owner s') = StateUnavailable ∨ ow_state (s_owner s') = StateReviewRequired)
  | _ => False
  end.
Record follows (s s' : sys) : Prop := {
  fo_id : s_id s' = s_id s;
  fo_target : ow_target (s_owner s') = ow_target (s_owner s);
  fo_tokens : ∀ t, s_tokens s' !! t = s_tokens s !! t ∨ spends s s' t;
  fo_holds : ∀ t, ow_qualification (s_owner s') = Some t → ow_qualification (s_owner s) = Some t ∨ ∃ q, s_tokens s !! t = Some q ∧ q_consumed q = false;
  fo_leases : ∀ l, s_leases s' !! l = s_leases s !! l
                   ∨ (∃ x', s_leases s' !! l = Some x' ∧ ls_owner x' = s_id s ∧ (∀ x, s_leases s !! l = Some x → ls_owner x = s_id s));
  fo_calls : ∃ cs, calls (s_trace s') = calls (s_trace s) ++ cs ∧ lifecycle s s' cs;
  fo_review : ow_state (s_owner s) = StateReviewRequired → ow_state (s_owner s') = StateReviewRequired ∧ calls (s_trace s') = calls (s_trace s) }.
Definition good_step (s s' : sys) : Prop := sys_ok s' ∧ follows s s'.
Lemma unchanged_ok s : sys_ok s → good_step s s.
Proof.
  intros H. split; [done|]. split; [done..|by left|by left|by left| |done]. exists []. rewrite app_nil_r. split; [done|]. by left.
Qed.

(** ** Releasing everything *)
(** [s1] is an intermediate state of an operation on [s0] that has made the calls [cs] *)
Record midway (s0 s1 : sys) (cs : list event) : Prop := {
  mw_id : s_id s1 = s_id s0;
  mw_target : ow_target (s_owner s1) = ow_target (s_owner s0);
  mw_tokens : s_tokens s1 = s_tokens s0;
  mw_leases : s_leases s1 = s_leases s0;
  mw_held : ow_qualification (s_owner s1) = ow_qualification (s_owner s0);
  mw_active : ow_leases (s_owner s1) = ow_leases (s_owner s0);
  mw_calls : calls (s_trace s1) = calls (s_trace s0) ++ cs }.

Lemma close_files_fold (ls : list nat) s : let s' := foldr closeFilesLocked s ls in
  s_id s' = s_id s ∧ s_owner s' = s_owner s ∧ s_tokens s' = s_tokens s ∧ calls (s_trace s') = calls (s_trace s)
  ∧ ∀ l, s_leases s' !! l = if bool_decide (l ∈ ls) then (λ x, mkLease (ls_owner x) (ls_generation x) (ls_closed x) ∅) <$> s_leases s !! l else s_leases s !! l.
Proof.
  cbn zeta. induction ls as [|l ls IH]; [done|]. cbn [foldr]. destruct IH as (H1 & H2 & H3 & H4 & H5). unfold closeFilesLocked at 1 3 5 7 9.
  set (s1 := foldr _ _ _) in *. assert (Hl : ∀ k, bool_decide (k ∈ l :: ls) = bool_decide (k = l) || bool_decide (k ∈ ls)).
  { intros k. rewrite (bool_decide_ext _ _ (elem_of_cons ls k l)). repeat case_bool_decide; naive_solver. }
  destruct (s_leases s1 !! l) as [x|] eqn:Hx.
  - case_bool_decide as Hf.
    + split_and!; try done. intros k. rewrite Hl. destruct (decide (k = l)) as [->|Hk]; [|rewrite (bool_decide_eq_false_2 (k = l)) by done; apply H5].
      rewrite bool_decide_eq_true_2 by done. cbn [orb]. rewrite Hx. rewrite H5 in Hx. destruct (bool_decide (l ∈ ls)).
      * destruct (s_leases s !! l) as [y|]; [|done]. cbn in *. congruence.
      * rewrite Hx. cbn. destruct x; cbn in *; congruence.
    + cbn [emit set_lease s_id s_owner s_tokens s_trace s_leases]. rewrite calls_app, H4, app_nil_r. split_and!; try done. intros k. rewrite Hl.
      destruct (decide (k = l)) as [->|Hk]; [|rewrite lookup_insert_ne, (bool_decide_eq_false_2 (k = l)) by done; apply H5].
      rewrite lookup_insert_eq, bool_decide_eq_true_2 by done. cbn [orb]. rewrite H5 in Hx. destruct (bool_decide (l ∈ ls)).
      * destruct (s_leases s !! l) as [y|]; [|done]. cbn in Hx. injection Hx as <-. done.
      * by rewrite Hx.
  - split_and!; try done. intros k. rewrite Hl. destruct (decide (k = l)) as [->|Hk]; [|rewrite (bool_decide_eq_false_2 (k = l)) by done; apply H5].
    rewrite bool_decide_eq_true_2 by done. cbn [orb]. rewrite H5 in Hx |- *. destruct (bool_decide (l ∈ ls)); [done|]. by rewrite Hx.
Qed.

(** the stores and the trace after closing the token, the root and the pin *)
Lemma close_target s : let s' := closeTargetLocked s in
  s_id s' = s_id s ∧ s_owner s' = set_pin false (s_owner s) ∧ s_tokens s' = s_tokens s ∧ s_leases s' = s_leases s ∧ calls (s_trace s') = calls (s_trace s).
Proof.
  unfold closeTargetLocked. destruct s as [id [] ts ls tr]. cbn. destruct ow_targetPin0; cbn; [|done]. by rewrite calls_app, app_nil_r.
Qed.
Lemma close_root s : let s' := closeRoot s in
  s_id s' = s_id s ∧ s_owner s' = set_root false (s_owner s) ∧ s_tokens s' = s_tokens s ∧ s_leases s' = s_leases s ∧ calls (s_trace s') = calls (s_trace s).
Proof.
  unfold closeRoot. destruct s as [id [] ts ls tr]. cbn. destruct ow_root0; cbn; [|done]. by rewrite calls_app, app_nil_r.
Qed.
Lemma close_qualification s : let s' := closeQualificationLocked s in
  s_id s' = s_id s ∧ s_owner s' = set_qualification None (s_owner s) ∧ s_leases s' = s_leases s ∧ calls (s_trace s') = calls (s_trace s)
  ∧ s_tokens s' = match token_of s with Some (t, q) => <[t := spend q false true]> (s_tokens s) | None => s_tokens s end.
Proof.
  unfold closeQualificationLocked. destruct (token_of s) as [[t q]|]; [|done]. destruct (q_sourceRoot q); cbn; [|done]. by rewrite calls_app, app_nil_r.
Qed.
Definition released (st : State) (o : Owner) : Owner :=
  mkOwner (ow_target o) st None (ow_targetBefore o) false (ow_expected o) false (ow_leases o) (ow_generation o) "" "".
Lemma review_spec s : let s' := (reviewLocked s).1 in
  s_id s' = s_id s ∧ s_owner s' = released StateReviewRequired (s_owner s) ∧ calls (s_trace s') = calls (s_trace s)
  ∧ s_tokens s' = match token_of s with Some (t, q) => <[t := spend q false true]> (s_tokens s) | None => s_tokens s end
  ∧ ∀ l, s_leases s' !! l = if bool_decide (l ∈ ow_leases (s_owner s)) then (λ x, mkLease (ls_owner x) (ls_generation x) (ls_closed x) ∅) <$> s_leases s !! l else s_leases s !! l.
Proof.
  cbn zeta. unfold reviewLocked. cbn [fst]. set (s1 := with_owner _ s). set (s2 := closeQualificationLocked s1). set (s3 := closeRoot s2). set (s4 := closeTargetLocked s3).
  destruct (close_qualification s1) as (A1 & A2 & A3 & A4 & A5). destruct (close_root s2) as (B1 & B2 & B3 & B4 & B5). destruct (close_target s3) as (C1 & C2 & C3 & C4 & C5).
  fold s2 in A1, A2, A3, A4, A5. fold s3 in B1, B2, B3, B4, B5. fold s4 in C1, C2, C3, C4, C5.
  assert (Ho : s_owner s4 = released StateReviewRequired (s_owner s)) by (by rewrite C2, B2, A2).
  destruct (close_files_fold (elements (ow_leases (s_owner s4))) s4) as (D1 & D2 & D3 & D4 & D5). unfold closeLeasedFilesLocked.
  split_and!; [by rewrite D1, C1, B1, A1|by rewrite D2, Ho|by rewrite D4, C5, B5, A4|by rewrite D3, C3, B3, A5|].
  intros l. rewrite D5, Ho, C4, B4, A3. cbn [released ow_leases]. rewrite (bool_decide_ext (l ∈ elements (ow_leases (s_owner s))) (l ∈ ow_leases (s_owner s))) by apply elem_of_elements. done.
Qed.
Lemma token_of_linked s : linked s → match token_of s with Some (t, q) => ow_qualification (s_owner s) = Some t ∧ s_tokens s !! t = Some q | None => ow_qualification (s_owner s) = None end.
Proof.
  intros [Ht _ _]. unfold token_of. destruct (ow_qualification (s_owner s)) as [t|]; [|done]. destruct (Ht t eq_refl) as (q & Hq & _). cbn. by rewrite Hq.
Qed.

(** Whatever an operation has done, review leaves a good state. *)
Lemma reviewed s0 s1 cs : linked s0 → midway s0 s1 cs → lifecycle s0 (reviewLocked s1).1 cs →
  (ow_state (s_owner s0) = StateReviewRequired → cs = []) → good_step s0 (reviewLocked s1).1.
Proof.
  intros HL [M1 M2 M3 M4 M5 M6 M7] Hlife Hrev. pose proof (review_spec s1) as (R1 & R2 & R3 & R4 & R5). set (s' := (reviewLocked s1).1) in *.
  pose proof (token_of_linked s0 HL) as Htok. assert (Etok : token_of s1 = token_of s0) by (unfold token_of; by rewrite M3, M5).
  rewrite Etok in R4. destruct HL as [L1 L2 L3]. rewrite M3 in R4. rewrite M4, M6 in R5. rewrite M1 in R1. rewrite M7 in R3.
  assert (Hlease : ∀ l x', s_leases s' !! l = Some x' → ∃ x, s_leases s0 !! l = Some x ∧ ls_owner x' = ls_owner x ∧ ls_closed x' = ls_closed x
    ∧ (ls_files x' = ∅ ∨ ls_files x' = ls_files x ∧ l ∉ ow_leases (s_owner s0))).
  { intros l x'. rewrite R5. case_bool_decide as Hin; [|intros Hx; exists x'; split_and!; auto]. destruct (s_leases s0 !! l) as [x|]; [|done]. cbn. intros [= <-]. exists x. cbn. split_and!; auto. }
  split; split; rewrite ?R2; cbn [released ow_state ow_qualification ow_targetPin ow_root ow_leases ow_volumeID ow_compatibility ow_target pinned_state mounted_state]; try done.
  - split; rewrite ?R1, ?R2; cbn [released ow_qualification ow_leases]; [done| |].
    + rewrite M6. intros l Hl. destruct (L2 l Hl) as (x & Hx & ? & ?). exists (mkLease (ls_owner x) (ls_generation x) (ls_closed x) ∅). split; [|done].
      by rewrite R5, bool_decide_eq_true_2, Hx by done.
    + rewrite M6. intros l x' (x & Hx & Ho & Hc & Hf)%Hlease Hid Hn. assert (Hid' : ls_owner x = s_id s0) by congruence. destruct (L3 l x Hx Hid' Hn) as [? ?]. split; [congruence|]. destruct Hf as [?|[? ?]]; congruence.
  - by right; right.
  - intros _ l x' (x & Hx & Ho & Hc & [Hf|[Hf Hn]])%Hlease Hid; [done|]. rewrite R1 in Hid. assert (Hid' : ls_owner x = s_id s0) by congruence. destruct (L3 l x Hx Hid' Hn). congruence.
  - intros t. destruct (token_of s0) as [[t' q]|] eqn:E; [|left; by rewrite R4]. destruct Htok as [Hq Hin]. destruct (decide (t = t')) as [->|Hne]; [right|left; by rewrite R4, lookup_insert_ne].
    exists q, (spend q false true). rewrite R4, lookup_insert_eq. split_and!; auto.
  - intros l. destruct (s_leases s0 !! l) as [x|] eqn:Hx; [|left; rewrite R5, Hx; by case_bool_decide].
    destruct (decide (l ∈ ow_leases (s_owner s0))) as [Hin|Hn]; [right|left; by rewrite R5, bool_decide_eq_false_2].
    destruct (L2 l Hin) as (x0 & Hx0 & Ho & _). exists (mkLease (ls_owner x) (ls_generation x) (ls_closed x) ∅). rewrite R5, bool_decide_eq_true_2, Hx by done.
    split_and!; [done|cbn; congruence|intros ? [= <-]; congruence].
  - by exists cs.
  - intros Hs. rewrite R3, (Hrev Hs), app_nil_r. done.
Qed.

Lemma reject_spec token s : ow_root (s_owner s) = false → let s' := (rejectQualification token s).1 in
  s_id s' = s_id s ∧ s_owner s' = released StateRejected (s_owner s) ∧ calls (s_trace s') = calls (s_trace s) ∧ s_leases s' = s_leases s
  ∧ s_tokens s' = match token with
                  | Some t => match s_tokens s !! t with Some q => if q_sourceRoot q then <[t := spend q false true]> (s_tokens s) else s_tokens s | None => s_tokens s end
                  | None => s_tokens s
                  end.
Proof.
  intros Hroot. cbn zeta. unfold rejectQualification. cbn [fst]. set (s1 := with_owner _ s). set (s2 := match token with Some _ => _ | None => s1 end).
  assert (H2 : s_id s2 = s_id s ∧ s_owner s2 = s_owner s1 ∧ calls (s_trace s2) = calls (s_trace s) ∧ s_leases s2 = s_leases s
    ∧ s_tokens s2 = match token with
                    | Some t => match s_tokens s !! t with Some q => if q_sourceRoot q then <[t := spend q false true]> (s_tokens s) else s_tokens s | None => s_tokens s end
                    | None => s_tokens s
                    end).
  { subst s2 s1. destruct token as [t|]; [|done]. cbn [with_owner s_tokens]. destruct (s_tokens s !! t) as [q|]; [|done]. destruct (q_sourceRoot q); [|done]. cbn. by rewrite calls_app, app_nil_r. }
  destruct H2 as (A1 & A2 & A3 & A4 & A5). destruct (close_target s2) as (C1 & C2 & C3 & C4 & C5). cbn [with_owner s_id s_owner s_trace s_leases s_tokens].
  rewrite C1, C2, C3, C4, C5, A1, A2, A3, A4, A5. split_and!; try done. subst s1. destruct s as [? [] ? ? ?]. cbn in *. by rewrite Hroot.
Qed.
(** what the token of a refused request may be *)
Definition refusable (s : sys) (token : option nat) : Prop :=
  match token with
  | None => ow_qualification (s_owner s) = None
  | Some t => ∃ q, s_tokens s !! t = Some q ∧ (ow_qualification (s_owner s) = None ∧ q_consumed q = false ∨ ow_qualification (s_owner s) = Some t)
  end.
Lemma rejected s0 s1 token : linked s0 → midway s0 s1 [] → ow_root (s_owner s1) = false → ow_leases (s_owner s0) = ∅ → refusable s0 token →
  mounted_state (ow_state (s_owner s0)) = false → ow_state (s_owner s0) ≠ StateReviewRequired → good_step s0 (rejectQualification token s1).1.
Proof.
  intros [L1 L2 L3] [M1 M2 M3 M4 M5 M6 M7] Hroot Hempty Htok Hm Hnr. pose proof (reject_spec token s1 Hroot) as (R1 & R2 & R3 & R4 & R5).
  set (s' := (rejectQualification token s1).1) in *. rewrite M1 in R1. rewrite M7, app_nil_r in R3. rewrite M4 in R4. rewrite M3 in R5.
  split; split; rewrite ?R2; cbn [released ow_state ow_qualification ow_targetPin ow_root ow_leases ow_volumeID ow_compatibility ow_target pinned_state mounted_state]; try done.
  - split; rewrite ?R1, ?R2, ?R4; cbn [released ow_qualification ow_leases]; rewrite ?M6; done.
  - left. by rewrite M6.
  - intros t. destruct token as [t'|]; [|left; by rewrite R5]. destruct Htok as (q & Hq & Hcase). rewrite Hq in R5. destruct (q_sourceRoot q); [|left; by rewrite R5].
    destruct (decide (t = t')) as [->|Hne]; [right|left; by rewrite R5, lookup_insert_ne]. exists q, (spend q false true). rewrite R5, lookup_insert_eq. split_and!; try done. naive_solver.
  - intros l. left. by rewrite R4.
  - exists []. rewrite app_nil_r. split; [done|]. left. rewrite R2. cbn. done.
Qed.

(** ** The operations *)
Lemma midway_refl s : midway s s [].
Proof. split; try done. by rewrite app_nil_r. Qed.
Lemma midway_emit s0 s1 cs e : is_call e = false → midway s0 s1 cs → midway s0 (emit e s1) cs.
Proof. intros He []. split; try done. cbn [emit s_trace]. rewrite calls_app. unfold calls at 2. rewrite filter_cons_False by (by rewrite He). by rewrite app_nil_r. Qed.
Lemma midway_call s0 s1 e : is_call e = true → midway s0 s1 [] → midway s0 (emit e s1) [e].
Proof. intros He []. split; try done. cbn [emit s_trace]. rewrite calls_app, mw_calls0, app_nil_r. unfold calls at 2. by rewrite filter_cons_True. Qed.
Lemma midway_owner s0 s1 cs f : (∀ o, ow_target (f o) = ow_target o ∧ ow_qualification (f o) = ow_qualification o ∧ ow_leases (f o) = ow_leases o) →
  midway s0 s1 cs → midway s0 (with_owner f s1) cs.
Proof. intros Hf []. destruct (Hf (s_owner s1)) as (? & ? & ?). split; cbn [with_owner s_id s_owner s_tokens s_leases s_trace]; congruence. Qed.
Create HintDb mount.
#[local] Hint Resolve midway_refl midway_emit midway_owner midway_call : mount.

Lemma idle_state s : sys_ok s → mounted_state (ow_state (s_owner s)) = false → ow_state (s_owner s) ≠ StateReviewRequired → ow_leases (s_owner s) = ∅.
Proof. intros H Hm Hr. destruct (so_leases _ H) as [|[|]]; congruence. Qed.

(** the outermost test of an operation *)
Ltac head_if H :=
  match goal with
  | |- good_step _ (if ?c then _ else _).1 => destruct c eqn:H
  | |- _ (if ?c then _ else _) => destruct c eqn:H
  end.

(** a change of the owner alone *)
Lemma moved s f : sys_ok s → (∀ o, ow_target (f o) = ow_target o ∧ ow_qualification (f o) = ow_qualification o ∧ ow_leases (f o) = ow_leases o) →
  mounted_state (ow_state (f (s_owner s))) = mounted_state (ow_state (s_owner s)) → ow_state (s_owner s) ≠ StateReviewRequired →
  sys_ok (with_owner f s) → good_step s (with_owner f s).
Proof.
  intros Hok Hf Hm Hr Hok'. destruct (Hf (s_owner s)) as (H1 & H2 & H3). split; [done|].
  split; cbn [with_owner s_id s_owner s_tokens s_leases s_trace]; try done; [by left| |by left|].
  - intros t. rewrite H2. by left.
  - exists []. rewrite app_nil_r. split; [done|]. by left.
Qed.

Lemma Qualify_ok token e s : sys_ok s → good_step s (Qualify token e s).1.
Proof.
  intros Hok. unfold Qualify. destruct (_ && _) eqn:Hst; [by apply unchanged_ok|].
  assert (Hs : (ow_state (s_owner s) = StateAbsent ∨ ow_state (s_owner s) = StateUnavailable)).
  { rewrite andb_false_iff, !negb_false_iff, !bool_decide_eq_true in Hst. done. }
  assert (Hm : mounted_state (ow_state (s_owner s)) = false) by (destruct Hs as [->| ->]; done).
  assert (Hr : ow_state (s_owner s) ≠ StateReviewRequired) by (destruct Hs as [->| ->]; done).
  assert (Hq : ow_qualification (s_owner s) = None) by (pose proof (so_token _ Hok) as Ht; destruct Hs as [E|E]; rewrite E in Ht; done).
  assert (Hroot : ow_root (s_owner s) = false) by (rewrite (so_root _ Hok); done).
  pose proof (idle_state s Hok Hm Hr) as Hl. pose proof (so_linked _ Hok) as HL. set (s1 := with_owner (set_state StateDiscovered) s).
  assert (Hmid : midway s s1 []) by (by apply midway_owner, midway_refl).
  destruct token as [t|]; [|by apply rejected]. change (s_tokens s1) with (s_tokens s). destruct (s_tokens s !! t) as [q|] eqn:Ht; [|by apply rejected].
  destruct (q_consumed q) eqn:Hc.
  { cbn [fst]. change (with_owner (set_state StateRejected) s1) with (with_owner (set_state StateRejected) s). apply moved; try done.
    pose proof (so_volume _ Hok) as Hv. rewrite Hm in Hv. pose proof (so_pin _ Hok) as Hp. destruct Hok. split; cbn; try done; [by destruct so_linked0|by destruct Hs as [E|E]; rewrite E in Hp|auto]. }
  assert (Hrej : ∀ s2, midway s s2 [] → ow_root (s_owner s2) = false → good_step s (rejectQualification (Some t) s2).1).
  { intros s2 H2 Hr2. apply rejected; try done. exists q. split; [done|]. by left. }
  head_if Hv; [by apply Hrej|]. rewrite !orb_false_iff, !negb_false_iff in Hv.
  destruct Hv as ((((((Hv1 & Hv2) & _) & _) & Hv3) & Hv4) & _). apply bool_decide_eq_true in Hv2.
  head_if Hx1; [by apply Hrej|]. head_if Hx2; [by apply Hrej|].
  destruct (te_observed (qe_target e)) as [target|]; [|by apply Hrej]. head_if Hx3; [by apply Hrej|]. head_if Hpin.
  { apply Hrej; [|by destruct (qe_pin e)]. destruct (qe_pin e); [|done]. by apply midway_emit, midway_emit. }
  set (s2 := emit PinOpen _). assert (Hmid2 : midway s s2 []) by (apply midway_emit; [done|]; by apply midway_owner).
  head_if Hx4; [by apply Hrej|]. head_if Hx5; [by apply Hrej|]. cbn [fst].
  split; split; cbn [with_owner set_token s2 emit s1 s_id s_owner s_tokens s_leases s_trace set_state set_before set_qualification set_pin
      ow_state ow_qualification ow_targetPin ow_root ow_leases ow_volumeID ow_compatibility ow_target ow_expected pinned_state mounted_state]; try done.
  - destruct HL as [L1 L2 L3]. split; cbn; try done. intros t' [= <-]. exists (spend q (q_sourceRoot q) true). by rewrite lookup_insert_eq.
  - exists t, (spend q (q_sourceRoot q) true). by rewrite lookup_insert_eq.
  - by left.
  - pose proof (so_volume _ Hok) as Hvol. by rewrite Hm in Hvol.
  - intros t'. destruct (decide (t' = t)) as [->|Hne]; [right|left; by rewrite lookup_insert_ne]. exists q, (spend q (q_sourceRoot q) true).
    cbn. rewrite lookup_insert_eq. split_and!; try done. by right.
  - intros t' [= <-]. right. by exists q.
  - intros l. by left.
  - exists []. rewrite calls_app, !app_nil_r. split; [done|]. left. cbn. done.
Qed.

(** Going into review from any good state. *)
Lemma review_ok s : sys_ok s → good_step s (reviewLocked s).1.
Proof. intros H. apply (reviewed s s []); [apply (so_linked _ H)|apply midway_refl| |done]. right. by rewrite (proj1 (proj2 (review_spec s))). Qed.
Lemma verify_ok e s : sys_ok s → good_step s (verifyMountedLocked e s).1 ∧ ((verifyMountedLocked e s).2 = Ok tt → (verifyMountedLocked e s).1 = s ∧ ow_root (s_owner s) = true
  ∧ ve_root e = true ∧ unchanged (ow_expected (s_owner s)) (ve_mount e) = true).
Proof.
  intros H. unfold verifyMountedLocked. destruct (_ || _) eqn:Hc; [split; [by apply review_ok|done]|]. split; [by apply unchanged_ok|]. intros _.
  rewrite !orb_false_iff, !negb_false_iff in Hc. split; [done|]. tauto.
Qed.
Lemma verify_cases e s : sys_ok s →
  (verifyMountedLocked e s = (s, Ok tt) ∧ ve_root e = true ∧ unchanged (ow_expected (s_owner s)) (ve_mount e) = true)
  ∨ verifyMountedLocked e s = ((reviewLocked s).1, Err ErrReview).
Proof.
  intros H. unfold verifyMountedLocked. destruct (_ || _) eqn:Hc; [by right|left]. rewrite !orb_false_iff, !negb_false_iff in Hc. tauto.
Qed.

Lemma Mount_ok e s : sys_ok s → good_step s (Mount e s).1.
Proof.
  intros Hok. pose proof (so_linked _ Hok) as HL. pose proof (token_of_linked s HL) as Htok. unfold Mount.
  destruct (ow_state (s_owner s)) eqn:Hst; try (by apply unchanged_ok). destruct (token_of s) as [[t q]|]; [|by apply unchanged_ok]. destruct Htok as [Hq Ht].
  pose proof (so_token _ Hok) as Hqt. rewrite Hst in Hqt. destruct Hqt as (t' & q' & Hq' & Ht' & Hsrc & Hv1 & Hv2 & Hv3). rewrite Hq in Hq'. injection Hq' as <-.
  rewrite Ht in Ht'. injection Ht' as <-. assert (Hroot : ow_root (s_owner s) = false) by (by rewrite (so_root _ Hok), Hst).
  assert (Hl : ow_leases (s_owner s) = ∅) by (apply idle_state; [done|by rewrite Hst..]).
  assert (Hrej : good_step s (rejectQualification (Some t) s).1).
  { apply rejected; try done; [apply midway_refl| |by rewrite Hst|by rewrite Hst]. exists q. split; [done|]. by right. }
  head_if Hx1; [by apply unchanged_ok|]. head_if Hx2; [done|]. head_if Hx3; [done|]. cbn zeta. set (s1 := emit (MountBind t) _).
  assert (Hmid : midway s s1 [MountBind t]) by (apply midway_call; [done|]; by apply midway_owner, midway_refl).
  assert (Hrev : ∀ s2, midway s s2 [MountBind t] → good_step s (reviewLocked s2).1).
  { intros s2 H2. apply (reviewed s s2 [MountBind t]); try done; [|by rewrite Hst]. destruct (review_spec s2) as (_ & E & _). cbn [lifecycle]. rewrite E. cbn. split_and!; auto. }
  head_if Hx4; [by apply Hrev|]. destruct (me_observed e) as [observed|]; [|by apply Hrev]. head_if Hx5; [by apply Hrev|]. apply negb_false_iff in Hx5.
  head_if Hx6; [by apply Hrev|]. head_if Hx7; [by apply Hrev, midway_emit, midway_emit|]. head_if Hx8; [by apply Hrev, midway_emit, midway_emit|].
  cbn [fst]. destruct HL as [L1 L2 L3]. unfold sameMountedFilesystem, same_object in Hx5. rewrite !andb_true_iff, !negb_true_iff, !Z.eqb_eq, !Z.eqb_neq in Hx5.
  split; split; cbn [with_owner set_token emit s1 s_id s_owner s_tokens s_leases s_trace set_state set_mounted
      ow_state ow_qualification ow_targetPin ow_root ow_leases ow_volumeID ow_compatibility ow_target ow_expected pinned_state mounted_state]; try done.
  - by rewrite (so_pin _ Hok), Hst.
  - by left.
  - split_and!; try done. unfold validExpected in *. cbn [xe_MountID xe_RootInode xe_FilesystemType xe_DeviceMajor xe_FilesystemUUID].
    rewrite !andb_true_iff, !negb_true_iff, !Z.eqb_neq in Hv3 |- *. destruct Hx5 as ((? & ?) & (((((-> & ->) & _) & ->) & _) & _)). tauto.
  - intros t'. destruct (decide (t' = t)) as [->|Hne]; [right|left; by rewrite lookup_insert_ne]. exists q, (spend q false (q_consumed q)). cbn. rewrite lookup_insert_eq.
    destruct (L1 t Hq) as (q2 & Hq2 & Hc2). rewrite Ht in Hq2. injection Hq2 as <-. split_and!; try done. by left.
  - intros l. by left.
  - exists [MountBind t]. rewrite !calls_app, <- !app_assoc. split; [done|]. cbn. split_and!; auto.
  - by rewrite Hst.
Qed.

Lemma fresh_lease s : s_leases s !! fresh (dom (s_leases s)) = None.
Proof. apply not_elem_of_dom, is_fresh. Qed.
Lemma acquire_ok ctx e s : sys_ok s → good_step s (acquireLocked ctx e s).1.
Proof.
  intros Hok. unfold acquireLocked. head_if Hc; [by apply unchanged_ok|]. head_if Hst; [by apply unchanged_ok|]. apply negb_false_iff, bool_decide_eq_true in Hst.
  destruct (verify_cases e s Hok) as [[-> _]| ->]; [|by apply review_ok]. cbn [fst]. set (l := fresh _). pose proof (fresh_lease s) as Hf. fold l in Hf.
  pose proof Hok as [HL _ Hp Hr Hq _ _ Hv]. rewrite Hst in *. destruct HL as [L1 L2 L3].
  split; split; cbn [with_owner set_lease s_id s_owner s_tokens s_leases s_trace set_leases ow_state ow_qualification ow_targetPin ow_root ow_leases ow_volumeID ow_compatibility ow_target ow_expected];
    rewrite ?Hst; try done.
  - split; cbn; [done| |].
    + intros k [->%elem_of_singleton|Hk]%elem_of_union; [rewrite lookup_insert_eq; by eexists|]. destruct (L2 k Hk) as (x & Hx & ?). exists x. split; [|done].
      rewrite lookup_insert_ne; [done|]. intros <-. congruence.
    + intros k x Hx Hid [Hn1 Hn2]%not_elem_of_union. rewrite not_elem_of_singleton in Hn1. rewrite lookup_insert_ne in Hx by done. by apply (L3 k).
  - by right; left.
  - intros t. by left.
  - intros t. by left.
  - intros k. destruct (decide (k = l)) as [->|Hne]; [right|left; by rewrite lookup_insert_ne]. eexists. rewrite lookup_insert_eq. split_and!; try done. intros x. by rewrite Hf.
  - exists []. rewrite app_nil_r. split; [done|]. left. cbn. by rewrite Hst.
Qed.
Lemma Verify_ok e s : sys_ok s → good_step s (Verify e s).1.
Proof. intros Hok. unfold Verify. head_if Hc; [by apply unchanged_ok|]. by apply verify_ok. Qed.
Lemma Drain_ok e s : sys_ok s → good_step s (Drain e s).1.
Proof.
  intros Hok. unfold Drain. head_if Hst; [by apply unchanged_ok|]. apply negb_false_iff, bool_decide_eq_true in Hst.
  destruct (verify_cases e s Hok) as [[-> _]| ->]; [|by apply review_ok]. cbn [fst]. apply moved; try done; [by rewrite Hst..|].
  pose proof Hok as [HL _ Hp Hr Hq _ _ Hv]. rewrite Hst in *. split; cbn; try done; [by destruct HL|by right; left].
Qed.
Lemma Unmount_ok e s : sys_ok s → good_step s (Owner_Unmount e s).1.
Proof.
  intros Hok. unfold Owner_Unmount. destruct (ow_state (s_owner s)) eqn:Hst; try (by apply unchanged_ok). head_if Hl; [by apply unchanged_ok|].
  apply negb_false_iff, bool_decide_eq_true in Hl. head_if Hc; [by apply unchanged_ok|].
  destruct (verify_cases (ue_verify e) s Hok) as [[-> _]| ->]; [|by apply review_ok]. head_if Hrc; [by apply review_ok|]. cbn zeta.
  pose proof Hok as [HL _ Hp Hr Hq _ _ Hv]. rewrite Hst in *. destruct (close_root s) as (A1 & A2 & A3 & A4 & A5). set (s1 := emit Unmount (closeRoot s)).
  assert (Hmid : midway s s1 [Unmount]). { apply midway_call; [done|]. split; rewrite ?A1, ?A2, ?A3, ?A4, ?A5, ?app_nil_r; done. }
  assert (Hrev : ∀ s2, midway s s2 [Unmount] → good_step s (reviewLocked s2).1).
  { intros s2 H2. apply (reviewed s s2 [Unmount]); try done; [|by rewrite Hst]. destruct (review_spec s2) as (_ & E & _). cbn [lifecycle]. rewrite E. cbn. split_and!; auto. }
  head_if H1; [by apply Hrev|]. head_if H2; [by apply Hrev|]. head_if H3; [by apply Hrev|]. head_if H4; [by apply Hrev|]. head_if H5; [by apply Hrev|].
  destruct (close_target s1) as (C1 & C2 & C3 & C4 & C5). set (s2 := closeTargetLocked s1) in *. pose proof Hmid as [M1 M2 M3 M4 M5 M6 M7].
  head_if H6; [apply Hrev; split; rewrite ?C1, ?C2, ?C3, ?C4, ?C5; done|]. cbn [fst].
  assert (Ho : s_owner s1 = set_root false (s_owner s)) by (subst s1; cbn; by rewrite A2).
  split; split; cbn [with_owner s_id s_owner s_tokens s_leases s_trace]; rewrite ?C1, ?C2, ?C3, ?C4, ?C5, ?Ho;
    cbn [set_state set_volume set_pin set_root ow_state ow_qualification ow_targetPin ow_root ow_leases ow_volumeID ow_compatibility ow_target ow_expected pinned_state mounted_state]; try done.
  - destruct HL as [L1 L2 L3]. split; cbn; rewrite ?C1, ?C2, ?C3, ?C4, ?Ho, ?M1, ?M3, ?M4; cbn; done.
  - by left.
  - intros t. left. by rewrite M3.
  - intros t. rewrite Hq. done.
  - intros l. left. by rewrite M4.
  - exists [Unmount]. split; [done|]. cbn. split_and!; auto.
  - by rewrite Hst.
Qed.
(** closing an owner that has nothing mounted *)
Definition close_idle (s : sys) : sys := closeTargetLocked (closeRoot (closeLeasedFilesLocked (closeQualificationLocked s))).
Lemma close_idle_spec s : sys_ok s → mounted_state (ow_state (s_owner s)) = false → let s' := close_idle s in
  s_id s' = s_id s ∧ s_owner s' = set_pin false (set_root false (set_qualification None (s_owner s))) ∧ s_leases s' = s_leases s ∧ calls (s_trace s') = calls (s_trace s)
  ∧ s_tokens s' = match token_of s with Some (t, q) => <[t := spend q false true]> (s_tokens s) | None => s_tokens s end.
Proof.
  intros [HL _ _ _ _ Hl Hf _] Hm. cbn zeta. unfold close_idle. set (s1 := closeQualificationLocked s). destruct (close_qualification s) as (A1 & A2 & A3 & A4 & A5). fold s1 in A1, A2, A3, A4, A5.
  set (s2 := closeLeasedFilesLocked s1). destruct (close_files_fold (elements (ow_leases (s_owner s1))) s1) as (B1 & B2 & B3 & B4 & B5).
  change (foldr closeFilesLocked s1 (elements (ow_leases (s_owner s1)))) with s2 in B1, B2, B3, B4, B5.
  set (s3 := closeRoot s2). destruct (close_root s2) as (C1 & C2 & C3 & C4 & C5). fold s3 in C1, C2, C3, C4, C5.
  destruct (close_target s3) as (D1 & D2 & D3 & D4 & D5). split_and!; [congruence|by rewrite D2, C2, B2, A2| |congruence|congruence].
  rewrite D4, C4. apply map_eq. intros l. rewrite B5, A3. case_bool_decide as Hin; [|done]. apply elem_of_elements in Hin. rewrite A2 in Hin. cbn in Hin.
  destruct Hl as [Hl|[Hl|Hl]]; [by rewrite Hl in Hin|congruence|]. destruct (s_leases s !! l) as [x|] eqn:Hx; [|done]. cbn. f_equal.
  destruct (lk_active _ HL l Hin) as (x' & Hx' & Hid & _). rewrite Hx in Hx'. injection Hx' as <-. pose proof (Hf Hl l x Hx Hid). destruct x; cbn in *; congruence.
Qed.
Lemma close_idle_ok s st' : sys_ok s → mounted_state (ow_state (s_owner s)) = false →
  (st' = StateUnavailable ∧ ow_state (s_owner s) ≠ StateReviewRequired ∨ st' = StateReviewRequired ∧ ow_state (s_owner s) = StateReviewRequired) →
  good_step s (with_owner (set_state st') (close_idle s)).
Proof.
  intros Hok Hm Hst'. destruct (close_idle_spec s Hok Hm) as (Hid & Howner & Hleases & Htr & Htok). set (s4 := close_idle s) in *. pose proof Hok as [HL [Hd1 Hd2] Hp Hr Hq Hl Hf Hv].
  pose proof (token_of_linked s HL) as Htk. rewrite Hm in Hv.
  split; split; cbn [with_owner s_id s_owner s_tokens s_leases s_trace]; rewrite ?Hid, ?Howner, ?Hleases;
    cbn [set_state set_pin set_root set_qualification ow_state ow_qualification ow_targetPin ow_root ow_leases ow_volumeID ow_compatibility ow_target ow_expected];
    try done; try (destruct Hst' as [[-> ?]|[-> ?]]; done).
  - destruct HL as [L1 L2 L3]. split; cbn; rewrite ?Hid, ?Howner, ?Hleases; done.
  - destruct Hst' as [[-> ?]|[-> ?]]; [left|by right; right]. destruct Hl as [|[|]]; [done|congruence..].
  - destruct Hst' as [[-> ?]|[-> Hs]]; [done|]. intros _. by apply Hf.
  - intros t. rewrite Htok. destruct (token_of s) as [[t' q]|]; [|by left]. destruct Htk as [Hq' Ht']. destruct (decide (t = t')) as [->|Hne]; [right|left; by rewrite lookup_insert_ne].
    exists q, (spend q false true). cbn. rewrite Htok, lookup_insert_eq. split_and!; auto.
  - intros l. by left.
  - exists []. rewrite app_nil_r. split; [done|]. cbn. destruct Hst' as [[-> ?]|[-> ?]]; [left; by rewrite Hm|by right].
Qed.
Lemma Close_ok s : sys_ok s → good_step s (Close s).1.
Proof.
  intros Hok. destruct (mounted_state (ow_state (s_owner s))) eqn:Hm.
  { assert ((Close s).1 = (reviewLocked s).1) as -> by (unfold Close; by destruct (ow_state (s_owner s))). by apply review_ok. }
  pose proof (so_state _ Hok) as [_ Hd]. destruct (close_idle_spec s Hok Hm) as (_ & Howner & _).
  assert ((Close s).1 = with_owner (set_state (if ow_state (s_owner s) != StateReviewRequired then StateUnavailable else StateReviewRequired)) (close_idle s)) as ->.
  { unfold Close. fold (close_idle s). rewrite Howner. cbn [set_pin set_root set_qualification ow_state].
    destruct (ow_state (s_owner s)) eqn:Hst; try done. cbn [fst]. rewrite bool_decide_eq_true_2 by done. cbn [negb].
    destruct (close_idle s) as [i o t l tr]. unfold with_owner. cbn [s_owner s_id s_tokens s_leases s_trace] in *. subst o. f_equal. unfold set_pin, set_root, set_qualification, set_state. cbn. by rewrite Hst. }
  apply close_idle_ok; [done..|]. case_bool_decide; cbn; auto.
Qed.
Lemma observe_ok e s : sys_ok s → good_step s (observeMountedVolumeLocked e s).1.
Proof.
  intros Hok. unfold observeMountedVolumeLocked. head_if Hst; [by apply unchanged_ok|].
  destruct (verify_cases e s Hok) as [[-> _]| ->]; [|by apply review_ok]. head_if Hx; [by apply review_ok|by apply unchanged_ok].
Qed.
(** a change to one lease of the owner *)
Lemma OpenDirectory_ok l e s : sys_ok s → (∀ x, s_leases s !! l = Some x → ls_owner x = s_id s) → good_step s (OpenDirectory l e s).1.
Proof.
  intros Hok Hown. unfold OpenDirectory. destruct (s_leases s !! l) as [x|] eqn:Hx; [|by apply unchanged_ok]. head_if H1; [by apply unchanged_ok|]. head_if Hst; [by apply unchanged_ok|].
  rewrite !orb_false_iff, !negb_false_iff, bool_decide_eq_true in H1. destruct H1 as [[Hcl Hg] Hin]. apply negb_false_iff, bool_decide_eq_true in Hst.
  destruct (verify_cases (oe_before e) s Hok) as [[-> _]| ->]; [|by apply review_ok].
  destruct (verify_cases (oe_after e) s Hok) as [[-> _]| ->]; [|destruct (oe_file e); by apply review_ok].
  destruct (oe_file e) as [f|]; [|by apply unchanged_ok]. cbn [fst]. pose proof Hok as [[L1 L2 L3] _ Hp Hr Hq _ _ Hv]. specialize (Hown x eq_refl).
  split; split; cbn [emit set_lease s_id s_owner s_tokens s_leases s_trace]; rewrite ?Hst in *; try done.
  - split; cbn; [done| |].
    + intros k Hk. destruct (decide (k = l)) as [->|Hne]; [rewrite lookup_insert_eq; by eexists|]. rewrite lookup_insert_ne by done. by apply L2.
    + intros k y Hy Hid Hn. rewrite lookup_insert_ne in Hy by (intros ->; done). by apply (L3 k).
  - by right; left.
  - intros t. by left.
  - intros t. by left.
  - intros k. destruct (decide (k = l)) as [->|Hne]; [right|left; by rewrite lookup_insert_ne]. eexists. rewrite lookup_insert_eq. split_and!; [done|done|]. intros y. rewrite Hx. by intros [= <-].
  - exists []. rewrite calls_app. split; [done|]. left. done.
Qed.
Lemma closeLocked_ok l ok s : sys_ok s → (∀ x, s_leases s !! l = Some x → ls_owner x = s_id s) → good_step s (closeLocked l ok s).1.
Proof.
  intros Hok Hown. unfold closeLocked. destruct (s_leases s !! l) as [x|] eqn:Hx; [|by apply unchanged_ok]. head_if Hc; [by apply unchanged_ok|]. cbn [fst].
  destruct (close_files_fold [l] s) as (A1 & A2 & A3 & A4 & A5). cbn [foldr] in A1, A2, A3, A4, A5. set (s1 := closeFilesLocked l s) in *. specialize (Hown x eq_refl).
  pose proof Hok as [[L1 L2 L3] Hst Hp Hr Hq Hl Hf Hv].
  assert (Hother : ∀ k, k ≠ l → s_leases s1 !! k = s_leases s !! k) by (intros k Hk; rewrite A5, bool_decide_eq_false_2; [done|set_solver]).
  split; split; cbn [with_owner set_lease s_id s_owner s_tokens s_leases s_trace]; rewrite ?A1, ?A2, ?A3, ?A4; cbn [set_leases ow_state ow_qualification ow_targetPin ow_root ow_leases ow_volumeID ow_compatibility ow_target ow_expected]; try done.
  - split; cbn; rewrite ?A1, ?A2, ?A3; cbn; [done| |].
    + intros k [Hk Hn]%elem_of_difference. rewrite not_elem_of_singleton in Hn. rewrite lookup_insert_ne, Hother by done. by apply L2.
    + intros k y Hy Hid Hn. destruct (decide (k = l)) as [->|Hne]; [rewrite lookup_insert_eq in Hy; by injection Hy as <-|].
      rewrite lookup_insert_ne, Hother in Hy by done. apply (L3 k y Hy Hid). set_solver.
  - destruct Hl as [->|Hl]; [left; set_solver|by right].
  - intros Hs k y Hy Hid. destruct (decide (k = l)) as [->|Hne]; [rewrite lookup_insert_eq in Hy; by injection Hy as <-|].
    rewrite lookup_insert_ne, Hother in Hy by done. by apply (Hf Hs k).
  - intros t. by left.
  - intros t. by left.
  - intros k. destruct (decide (k = l)) as [->|Hne]; [right|left; by rewrite lookup_insert_ne, Hother]. eexists. rewrite lookup_insert_eq. split_and!; [done|done|]. intros y. rewrite Hx. by intros [= <-].
  - exists []. rewrite app_nil_r. split; [done|]. cbn. rewrite A2. by left.
Qed.

(** ** Several owners that share tokens *)
Inductive op :=
| OpQualify (token : option nat) (e : qualify_env) | OpMount (e : mount_env) | OpAcquire (ctx : bool) (e : verify_env) | OpVerify (e : verify_env)
| OpDrain (e : verify_env) | OpUnmount (e : unmount_env) | OpClose | OpObserve (e : verify_env) | OpOpen (l : nat) (e : open_env) | OpRelease (l : nat) (ok : bool) | OpReview.
Definition run_op (o : op) (s : sys) : sys :=
  match o with
  | OpQualify token e => (Qualify token e s).1
  | OpMount e => (Mount e s).1
  | OpAcquire ctx e => (acquireLocked ctx e s).1
  | OpVerify e => (Verify e s).1
  | OpDrain e => (Drain e s).1
  | OpUnmount e => (Owner_Unmount e s).1
  | OpClose => (Close s).1
  | OpObserve e => (observeMountedVolumeLocked e s).1
  | OpOpen l e => (OpenDirectory l e s).1
  | OpRelease l ok => (closeLocked l ok s).1
  | OpReview => (reviewLocked s).1
  end.
(** a method of a lease runs on the owner of the lease *)
Definition on_owner (leases : gmap nat Lease) (i : nat) (o : op) : Prop :=
  match o with
  | OpOpen l _ | OpRelease l _ => ∀ x, leases !! l = Some x → ls_owner x = i
  | _ => True
  end.
Record world := mkWorld { w_owners : gmap nat Owner; w_tokens : gmap nat Qualification; w_leases : gmap nat Lease; w_trace : list (nat * event) }.
Definition view (w : world) (i : nat) (o : Owner) : sys := mkSys i o (w_tokens w) (w_leases w) [].
Definition after (w : world) (i : nat) (s : sys) : world :=
  mkWorld (<[i := s_owner s]> (w_owners w)) (s_tokens s) (s_leases s) (w_trace w ++ (pair i <$> s_trace s)).
Inductive step (w : world) : world → Prop :=
| step_op i o x : w_owners w !! i = Some x → on_owner (w_leases w) i o → step w (after w i (run_op o (view w i x))).

Lemma run_op_ok o s : sys_ok s → on_owner (s_leases s) (s_id s) o → good_step s (run_op o s).
Proof.
  intros Hok Hown. destruct o; cbn [run_op]; [by apply Qualify_ok|by apply Mount_ok|by apply acquire_ok|by apply Verify_ok|by apply Drain_ok|by apply Unmount_ok|by apply Close_ok|by apply observe_ok
    |by apply OpenDirectory_ok|by apply closeLocked_ok|by apply review_ok].
Qed.

(** the calls of one owner, and the tokens that were mounted *)
Definition calls_of (i : nat) (l : list (nat * event)) : list event := calls (omap (λ p, if p.1 =? i then Some p.2 else None)%nat l).
Definition bound (l : list (nat * event)) : list nat := omap (λ p, match p.2 with MountBind t => Some t | _ => None end) l.
(** mounts and unmounts take turns, starting with a mount; the state at the end *)
Fixpoint turns (mounted : bool) (l : list event) : option bool :=
  match l with
  | [] => Some mounted
  | MountBind _ :: l' => if mounted then None else turns true l'
  | Unmount :: l' => if mounted then turns false l' else None
  | _ :: l' => turns mounted l'
  end.
Lemma turns_app b l k : turns b (l ++ k) = turns b l ≫= λ b', turns b' k.
Proof. revert b. induction l as [|[] l IH]; intros b; cbn; auto; destruct b; cbn; auto. Qed.

Record world_ok (w : world) : Prop := {
  wo_owners : ∀ i o, w_owners w !! i = Some o → sys_ok (view w i o);
  wo_apart : ∀ i j o p t, i ≠ j → w_owners w !! i = Some o → w_owners w !! j = Some p → ow_qualification o = Some t → ow_qualification p ≠ Some t;
  wo_bound : ∀ t, t ∈ bound (w_trace w) → (∃ q, w_tokens w !! t = Some q ∧ q_consumed q = true) ∧ ∀ i o, w_owners w !! i = Some o → ow_qualification o ≠ Some t;
  wo_once : NoDup (bound (w_trace w));
  wo_turns : ∀ i o, w_owners w !! i = Some o → ∃ m, turns false (calls_of i (w_trace w)) = Some m
               ∧ (ow_state o ≠ StateReviewRequired → m = mounted_state (ow_state o));
  wo_leases : ∀ l x, w_leases w !! l = Some x → is_Some (w_owners w !! ls_owner x) }.

Lemma omap_fmap_pair {B} (g : nat * event → option B) i (l : list event) : omap g (pair i <$> l) = omap (λ e, g (i, e)) l.
Proof. induction l as [|e l IH]; [done|]. cbn. by rewrite IH. Qed.
Lemma omap_Some_id (l : list event) : omap Some l = l.
Proof. induction l as [|e l IH]; [done|]. cbn. by rewrite IH. Qed.
Lemma calls_of_after i j l tr : calls_of j (l ++ (pair i <$> tr)) = calls_of j l ++ (if (i =? j)%nat then calls tr else []).
Proof.
  unfold calls_of. rewrite omap_app, omap_fmap_pair, calls_app. f_equal. cbn [fst snd]. destruct (i =? j)%nat.
  - change (omap (λ e, Some e) tr) with (omap Some tr). by rewrite omap_Some_id.
  - replace (omap _ tr) with (@nil event); [done|]. induction tr; done.
Qed.
Definition token_bound (e : event) : option nat := match e with MountBind t => Some t | _ => None end.
Lemma bound_calls tr : omap token_bound tr = omap token_bound (calls tr).
Proof. induction tr as [|e tr IH]; [done|]. unfold calls. rewrite filter_cons. destruct e; cbn; fold (calls tr); by rewrite IH. Qed.
Lemma bound_after i l tr : bound (l ++ (pair i <$> tr)) = bound l ++ omap token_bound (calls tr).
Proof. unfold bound. rewrite omap_app, omap_fmap_pair. f_equal. cbn [snd]. rewrite <- bound_calls. done. Qed.

Lemma sys_ok_trace s tr : sys_ok s → sys_ok (mkSys (s_id s) (s_owner s) (s_tokens s) (s_leases s) tr).
Proof. intros [[] ? ? ? ? ? ? ?]. by split. Qed.
(** what one owner does leaves the others alone *)
Section frame.
Context (w : world) (i : nat) (x : Owner) (s' : sys) (Hw : world_ok w) (Hx : w_owners w !! i = Some x) (Hgood : good_step (view w i x) s').
Let s := view w i x.
Lemma acting_linked t : ow_qualification x = Some t → ∃ q, w_tokens w !! t = Some q ∧ q_consumed q = true.
Proof. apply (lk_token _ (so_linked _ (wo_owners _ Hw i x Hx))). Qed.
Lemma held_token j p t : w_owners w !! j = Some p → j ≠ i → ow_qualification p = Some t → s_tokens s' !! t = w_tokens w !! t.
Proof.
  intros Hp Hj Ht. destruct (fo_tokens _ _ (proj2 Hgood) t) as [|(q & q' & Hq & _ & _ & [Hh|Hc])]; [done| |].
  - exfalso. by apply (wo_apart _ Hw j i p x t Hj Hp Hx Ht).
  - destruct (lk_token _ (so_linked _ (wo_owners _ Hw j p Hp)) t Ht) as (q0 & Hq0 & Hc0). cbn in *. congruence.
Qed.
Lemma spent_stays t : (∃ q, w_tokens w !! t = Some q ∧ q_consumed q = true) → ∃ q, s_tokens s' !! t = Some q ∧ q_consumed q = true.
Proof. intros (q & Hq & Hc). destruct (fo_tokens _ _ (proj2 Hgood) t) as [->|(? & q' & _ & Hq' & Hc' & _)]; [by exists q|by exists q']. Qed.
Lemma foreign_lease l y j : j ≠ i → s_leases s' !! l = Some y → ls_owner y = j → w_leases w !! l = Some y.
Proof. intros Hj Hy Ho. destruct (fo_leases _ _ (proj2 Hgood) l) as [He|(y' & Hy' & Ho' & _)]; cbn in *; congruence. Qed.
Lemma foreign_lease_stays l y j : j ≠ i → w_leases w !! l = Some y → ls_owner y = j → s_leases s' !! l = Some y.
Proof. intros Hj Hy Ho. destruct (fo_leases _ _ (proj2 Hgood) l) as [He|(y' & Hy' & _ & Hold)]; cbn in *; [congruence|]. specialize (Hold y Hy). congruence. Qed.
Lemma other_ok j p : w_owners w !! j = Some p → j ≠ i → sys_ok (view (after w i s') j p).
Proof.
  intros Hp Hj. destruct (wo_owners _ Hw j p Hp) as [[L1 L2 L3] H2 H3 H4 H5 H6 H7 H8]. split; try done.
  - split; cbn in *.
    + intros t Ht. by apply spent_stays, L1.
    + intros l Hl. destruct (L2 l Hl) as (y & Hy & Ho & Hc). exists y. split; [|done]. by apply (foreign_lease_stays l y j).
    + intros l y Hy Ho Hn. apply (L3 l y); [by apply (foreign_lease l y j)|done..].
  - cbn in *. destruct (ow_state p); try done. destruct H5 as (t & q & Ht & Hq & ?). exists t, q. split; [done|]. by rewrite (held_token j p t).
  - intros Hs l y Hy Ho. apply (H7 Hs l y); [by apply (foreign_lease l y j)|done].
Qed.
Lemma acting_holds t : ow_qualification (s_owner s') = Some t → ow_qualification x = Some t ∨ ∃ q, w_tokens w !! t = Some q ∧ q_consumed q = false.
Proof. apply (fo_holds _ _ (proj2 Hgood)). Qed.
Lemma after_lookup j p : w_owners (after w i s') !! j = Some p → j = i ∧ p = s_owner s' ∨ j ≠ i ∧ w_owners w !! j = Some p.
Proof. cbn. destruct (decide (j = i)) as [->|]; [rewrite lookup_insert_eq; intros [= <-]; auto|rewrite lookup_insert_ne by done; auto]. Qed.
Lemma after_apart : ∀ j k o p t, j ≠ k → w_owners (after w i s') !! j = Some o → w_owners (after w i s') !! k = Some p → ow_qualification o = Some t → ow_qualification p ≠ Some t.
Proof.
  assert (Hnew : ∀ k p t, k ≠ i → w_owners w !! k = Some p → ow_qualification (s_owner s') = Some t → ow_qualification p ≠ Some t).
  { intros k p t Hk Hp Ht Hpt. destruct (acting_holds t Ht) as [Hxt|(q & Hq & Hc)]; [by apply (wo_apart _ Hw k i p x t Hk Hp Hx Hpt)|].
    destruct (lk_token _ (so_linked _ (wo_owners _ Hw k p Hp)) t Hpt) as (q0 & Hq0 & Hc0). cbn in *. congruence. }
  intros j k o p t Hjk [[-> ->]|[Hj Ho]]%after_lookup [[-> ->]|[Hk Hp]]%after_lookup Ht; [done|by apply (Hnew k)| |by apply (wo_apart _ Hw j k o)].
  intros Ht'. by apply (Hnew j o t Hj Ho Ht').
Qed.
Lemma after_calls : ∃ cs, calls (s_trace s') = cs ∧ lifecycle s s' cs.
Proof. destruct (fo_calls _ _ (proj2 Hgood)) as (cs & Hc & Hl). exists cs. by rewrite Hc. Qed.
Lemma after_bound : (∀ t, t ∈ bound (w_trace (after w i s')) → (∃ q, s_tokens s' !! t = Some q ∧ q_consumed q = true) ∧ ∀ j o, w_owners (after w i s') !! j = Some o → ow_qualification o ≠ Some t)
  ∧ NoDup (bound (w_trace (after w i s'))).
Proof.
  destruct after_calls as (cs & Hcs & Hlife). cbn [after w_trace]. rewrite bound_after, Hcs.
  assert (Hold : ∀ t, t ∈ bound (w_trace w) → (∃ q, s_tokens s' !! t = Some q ∧ q_consumed q = true) ∧ ∀ j o, w_owners (after w i s') !! j = Some o → ow_qualification o ≠ Some t).
  { intros t Ht. destruct (wo_bound _ Hw t Ht) as [Hq Hno]. split; [by apply spent_stays|]. intros j o [[-> ->]|[Hj Ho]]%after_lookup; [|by apply (Hno j)].
    intros Hh. destruct (acting_holds t Hh) as [Hxt|(q & Hq' & Hc)]; [by apply (Hno i x)|]. destruct Hq as (q0 & Hq0 & Hc0). congruence. }
  destruct cs as [|[t| | | | | | | | ] [|? ?]]; try (by destruct Hlife); cbn [omap list_omap token_bound]; rewrite ?app_nil_r; try (split; [done|apply (wo_once _ Hw)]).
  destruct Hlife as (_ & Hxt & Hn & _). cbn in Hxt. split.
  - intros t' [Ht'|Ht'%list_elem_of_singleton]%elem_of_app; [by apply Hold|subst t']. split; [by apply spent_stays, acting_linked|].
    intros j o [[-> ->]|[Hj Ho]]%after_lookup; [by rewrite Hn|]. intros Ho'. by apply (wo_apart _ Hw j i o x t Hj Ho Hx Ho').
  - apply NoDup_app. split_and!; [apply (wo_once _ Hw)| |apply NoDup_singleton]. intros t' Ht' ->%list_elem_of_singleton. by apply (proj2 (wo_bound _ Hw t Ht') i x).
Qed.
Lemma after_turns : ∀ j o, w_owners (after w i s') !! j = Some o → ∃ m, turns false (calls_of j (w_trace (after w i s'))) = Some m ∧ (ow_state o ≠ StateReviewRequired → m = mounted_state (ow_state o)).
Proof.
  intros j o. cbn [after w_trace]. rewrite calls_of_after. destruct after_calls as (cs & Hcs & Hlife). rewrite Hcs. intros [[-> ->]|[Hj Ho]]%after_lookup.
  - rewrite Nat.eqb_refl, turns_app. destruct (wo_turns _ Hw i x Hx) as (m & -> & Hm). cbn [mbind option_bind].
    pose proof (fo_review _ _ (proj2 Hgood)) as Hrev. cbn [s view s_owner s_trace] in Hrev. rewrite Hcs in Hrev.
    destruct cs as [|[t| | | | | | | | ] [|? ?]]; try (by destruct Hlife); cbn [lifecycle s view s_owner] in Hlife.
    + exists m. split; [done|]. intros Hn. destruct Hlife as [->|]; [|done]. apply Hm. intros Hr. by destruct (Hrev Hr).
    + destruct Hlife as (Hst & _ & _ & Hs'). rewrite Hm by (by rewrite Hst). rewrite Hst. cbn [mounted_state turns]. exists true. split; [done|]. destruct Hs' as [-> | ->]; done.
    + destruct Hlife as (Hst & _ & Hs'). rewrite Hm by (by rewrite Hst). rewrite Hst. cbn [mounted_state turns]. exists false. split; [done|]. destruct Hs' as [-> | ->]; done.
  - rewrite (proj2 (Nat.eqb_neq i j)), app_nil_r by done. by apply (wo_turns _ Hw).
Qed.
Lemma after_ok : world_ok (after w i s').
Proof.
  destruct after_bound as [Hb HN]. split; [|exact after_apart|exact Hb|exact HN|exact after_turns|].
  - intros j o [[-> ->]|[Hj Ho]]%after_lookup; [|by apply other_ok]. pose proof (fo_id _ _ (proj2 Hgood)) as Hid. cbn in Hid. rewrite <- Hid at 2. apply (sys_ok_trace s' []), Hgood.
  - cbn [after w_leases w_owners]. intros l y Hy. destruct (decide (ls_owner y = i)) as [->|Hne]; [by rewrite lookup_insert_eq|].
    rewrite lookup_insert_ne by done. apply (wo_leases _ Hw l). by apply (foreign_lease l y (ls_owner y)).
Qed.
End frame.
Lemma step_ok w w' : world_ok w → step w w' → world_ok w'.
Proof. intros Hw [i o x Hx Hown]. apply (after_ok w i x); [done..|]. apply run_op_ok; [by apply (wo_owners _ Hw)|done]. Qed.
Lemma steps_ok w w' : world_ok w → rtc step w w' → world_ok w'.
Proof. intros Hw Hs. induction Hs as [|w w1 w2 H1 _ IH]; [done|]. apply IH. by apply (step_ok w). Qed.

(** ** Runs *)
(** before the first operation: new owners, tokens nobody holds, no lease *)
Record start (w : world) : Prop := {
  st_owners : ∀ i o, w_owners w !! i = Some o → newOwner (ow_target o) = Ok o;
  st_leases : w_leases w = ∅;
  st_trace : w_trace w = [] }.
Lemma newOwner_Ok target o : newOwner target = Ok o → o = mkOwner target StateAbsent None zero_target false zero_expected false ∅ 0 "" "" ∧ validAbsolute target = true.
Proof. unfold newOwner. rewrite refuse_Ok, negb_false_iff. by intros [? [= <-]]. Qed.
Lemma start_ok w : start w → world_ok w.
Proof.
  intros [Ho Hl Ht]. assert (Hnew : ∀ i o, w_owners w !! i = Some o → o = mkOwner (ow_target o) StateAbsent None zero_target false zero_expected false ∅ 0 "" "")
    by (intros i o Hi; by apply newOwner_Ok, (Ho i)).
  split; rewrite ?Ht, ?Hl; try done.
  - intros i o Hi. rewrite (Hnew i o Hi). split; try done; [|by left]. split; cbn; [done|set_solver|]. rewrite Hl. by intros ? ? ?%lookup_empty_Some.
  - intros i j o p t _ Hi _. by rewrite (Hnew i o Hi).
  - by intros t ?%elem_of_nil.
  - apply NoDup_nil_2.
  - intros i o Hi. exists false. split; [done|]. by rewrite (Hnew i o Hi).
Qed.

(** what an owner holds, by its state *)
Record holds_exactly (w : world) (i : nat) (o : Owner) : Prop := {
  he_settled : ow_state o ≠ StateDiscovered ∧ ow_state o ≠ StateMounting;
  he_pin : ow_targetPin o = true ↔ ow_state o = StateQualified ∨ ow_state o = StateMounted ∨ ow_state o = StateDraining;
  he_root : ow_root o = true ↔ ow_state o = StateMounted ∨ ow_state o = StateDraining;
  he_token : ow_state o = StateQualified ↔ is_Some (ow_qualification o);
  he_volume : ow_volumeID o ≠ "" ↔ ow_state o = StateMounted ∨ ow_state o = StateDraining;
  he_files : (∃ l x, w_leases w !! l = Some x ∧ ls_owner x = i ∧ ls_files x ≠ ∅) → ow_state o = StateMounted ∨ ow_state o = StateDraining }.
Lemma validVolumeID_nonempty id : validVolumeID id = true → id ≠ "".
Proof. by intros H ->. Qed.
Lemma sys_ok_holds w i o : sys_ok (view w i o) → holds_exactly w i o.
Proof.
  intros [[L1 L2 L3] H2 H3 H4 H5 H6 H7 H8]. cbn [view s_owner s_id s_tokens s_leases] in *. split; [done| | | | |].
  - rewrite H3. destruct (ow_state o); cbn; naive_solver.
  - rewrite H4. destruct (ow_state o); cbn; naive_solver.
  - destruct (ow_state o); try (rewrite H5; split; [done|by intros [? ?]]). destruct H5 as (t & q & -> & _). split; [by eexists|done].
  - destruct (ow_state o); cbn in H8; destruct H8 as [HV1 HV2]; (split; [intros HX; try done; auto|intros [HX|HX]; try done; by apply validVolumeID_nonempty]).
  - intros (l & x & Hl & Hx & Hf). destruct (decide (l ∈ ow_leases o)) as [Hin|Hn]; [|by destruct (L3 l x Hl Hx Hn)].
    destruct H6 as [He|[Hm|Hr]]; [set_solver| |by destruct (Hf (H7 Hr l x Hl Hx))]. destruct (ow_state o); cbn in Hm; naive_solver.
Qed.

(** C5: Whatever the owners of one process do, in any order and whatever the kernel answers, each keeps its directory pinned exactly while its mount is
    prepared or up, keeps the mounted root open and names a volume exactly while it is mounted or draining, and an open file of
    one of its leases is left only then; no qualification is mounted twice, by one owner or by two; and the mounts and unmounts that an owner asks of the kernel take turns, in step with its
    state unless that is the quarantine. *)
Theorem owners_hold_exactly w0 w : start w0 → rtc step w0 w →
  (∀ i o, w_owners w !! i = Some o → holds_exactly w i o)
  ∧ NoDup (bound (w_trace w))
  ∧ (∀ i o, w_owners w !! i = Some o → ∃ m, turns false (calls_of i (w_trace w)) = Some m
       ∧ (ow_state o ≠ StateReviewRequired → m = true ↔ ow_state o = StateMounted ∨ ow_state o = StateDraining)).
Proof.
  intros H0 Hs. pose proof (steps_ok w0 w (start_ok w0 H0) Hs) as [W1 _ _ W4 W5 _]. split_and!; [|done|].
  - intros i o Hi. by apply sys_ok_holds, W1.
  - intros i o Hi. destruct (W5 i o Hi) as (m & Hm & He). exists m. split; [done|]. intros Hn. rewrite (He Hn). destruct (ow_state o); cbn; naive_solver.
Qed.

(** the quarantine is final *)
Lemma step_review w w' i o : world_ok w → w_owners w !! i = Some o → ow_state o = StateReviewRequired → step w w' →
  ∃ o', w_owners w' !! i = Some o' ∧ ow_state o' = StateReviewRequired ∧ calls_of i (w_trace w') = calls_of i (w_trace w).
Proof.
  intros Hw Hi Hr [j p x Hx Hown]. cbn [after w_owners w_trace]. rewrite calls_of_after. destruct (decide (j = i)) as [->|Hne].
  - rewrite Hi in Hx. injection Hx as ->. rewrite lookup_insert_eq, Nat.eqb_refl. eexists. split; [reflexivity|].
    destruct (run_op_ok p (view w i x) (wo_owners _ Hw i x Hi) Hown) as [_ Hf]. destruct (fo_review _ _ Hf Hr) as [-> ->]. by rewrite app_nil_r.
  - rewrite lookup_insert_ne, (proj2 (Nat.eqb_neq j i)), app_nil_r by done. by exists o.
Qed.
Lemma steps_review w w' i o : world_ok w → w_owners w !! i = Some o → ow_state o = StateReviewRequired → rtc step w w' →
  ∃ o', w_owners w' !! i = Some o' ∧ ow_state o' = StateReviewRequired ∧ calls_of i (w_trace w') = calls_of i (w_trace w).
Proof.
  intros Hw Hi Hr Hs. revert o Hw Hi Hr. induction Hs as [w|w w1 w2 H1 _ IH]; intros o Hw Hi Hr; [by exists o|].
  destruct (step_review w w1 i o Hw Hi Hr H1) as (o1 & Hi1 & Hr1 & <-). apply (IH o1); [by apply (step_ok w)|done..].
Qed.

(** An owner whose mount once became uncertain stays in the quarantine whatever is called afterwards: it asks the kernel for no mount or unmount again,
    holds neither its directory nor its root, names no volume, and no lease on it holds an open file. *)
Theorem mount_quarantine_final w0 w w' i o : start w0 → rtc step w0 w → w_owners w !! i = Some o → ow_state o = StateReviewRequired → rtc step w w' →
  ∃ o', w_owners w' !! i = Some o' ∧ ow_state o' = StateReviewRequired ∧ calls_of i (w_trace w') = calls_of i (w_trace w)
        ∧ ow_targetPin o' = false ∧ ow_root o' = false ∧ ow_qualification o' = None ∧ ow_volumeID o' = ""
        ∧ ∀ l x, w_leases w' !! l = Some x → ls_owner x = i → ls_files x = ∅.
Proof.
  intros H0 Hs Hi Hr Hs'. pose proof (steps_ok w0 w (start_ok w0 H0) Hs) as Hw. destruct (steps_review w w' i o Hw Hi Hr Hs') as (o' & Hi' & Hr' & Hc).
  exists o'. destruct (wo_owners _ (steps_ok w w' Hw Hs') i o' Hi') as [_ _ H3 H4 H5 _ H7 H8]. cbn [view s_owner s_id s_leases] in *. rewrite Hr' in *. split_and!; try done; [apply H8|by apply H7].
Qed.

(** ** What a mount can end in *)
(** the checks between the bind and the commit *)
Record confirmed (e : mount_env) (q : Qualification) (observed : Expected) : Prop := {
  cf_bind : me_bind e = true ∧ me_ctx_after e = true;
  cf_observed : me_observed e = Some observed;
  cf_new : xe_MountID observed ≠ 0 ∧ xe_MountID observed ≠ xe_MountID (q_expected q);
  cf_root : xe_RootInode observed = xe_RootInode (q_expected q);
  cf_device : xe_DeviceMajor observed = xe_DeviceMajor (q_expected q) ∧ xe_DeviceMinor observed = xe_DeviceMinor (q_expected q);
  cf_type : xe_FilesystemType observed = xe_FilesystemType (q_expected q);
  cf_writable : xe_RequireWritable observed = xe_RequireWritable (q_expected q);
  cf_guards : me_verify_source e = true ∧ me_verify_root e = true;
  cf_again : ∃ x, me_again e = Some x ∧ xe_MountID x = xe_MountID observed ∧ xe_DeviceMajor x = xe_DeviceMajor observed ∧ xe_DeviceMinor x = xe_DeviceMinor observed }.
Definition mount_outcome (e : mount_env) (s : sys) (t : nat) (q : Qualification) (out : sys * res error unit) : Prop :=
  let o' := s_owner out.1 in
  match out.2 with
  | Ok _ => ow_state o' = StateMounted ∧ calls (s_trace out.1) = calls (s_trace s) ++ [MountBind t] ∧ targetUnchangedAndEmpty (s_owner s) (me_target e) = true
            ∧ ∃ x, confirmed e q x
              ∧ evidence_of o' = mkEvidence (q_volumeID q) (xe_FilesystemUUID (q_expected q)) (ow_target (s_owner s)) (q_compatibility q)
                                   (u64_add (ow_generation (s_owner s)) 1) (xe_MountID x) (xe_DeviceMajor x) (xe_DeviceMinor x) (negb (xe_RequireWritable (q_expected q)))
  | Err ErrUnavailable => out.1 = s ∧ me_ctx e = false
  | Err ErrRejected => ow_state o' = StateRejected ∧ calls (s_trace out.1) = calls (s_trace s)
  | Err ErrReview => ow_state o' = StateReviewRequired ∧ calls (s_trace out.1) = calls (s_trace s) ++ [MountBind t]
  | Err _ => False
  end.
Lemma review_outcome e s t q s2 : calls (s_trace s2) = calls (s_trace s) ++ [MountBind t] → mount_outcome e s t q (reviewLocked s2).
Proof. intros Hc. destruct (review_spec s2) as (_ & Ho & Ht & _). change (reviewLocked s2) with ((reviewLocked s2).1, @Err error unit ErrReview). cbn [mount_outcome fst snd]. by rewrite Ho, Ht. Qed.
Lemma unchanged_true x observed : unchanged x observed = true → ∃ y, observed = Some y ∧ xe_MountID y = xe_MountID x ∧ xe_DeviceMajor y = xe_DeviceMajor x ∧ xe_DeviceMinor y = xe_DeviceMinor x.
Proof.
  unfold unchanged, sameKernelMount, same_object. destruct observed as [y|]; [|done]. rewrite !andb_true_iff, !Z.eqb_eq. intros (? & ((((? & ?) & ?) & _) & _) & _). by exists y.
Qed.

(** C24: A mount of a qualified owner ends in one of four ways: cancelled, with nothing changed; refused, before the kernel was asked; in the quarantine,
    after it was asked once; or mounted, and then the directory was the pinned one and empty, what the kernel shows there is a new mount of the very root,
    device and type that was qualified with the same writability, seen a second time on the same mount, and the owner testifies to that volume, filesystem
    and mount under a new generation. *)
Theorem Mount_outcomes e s t q : sys_ok s → ow_state (s_owner s) = StateQualified → ow_qualification (s_owner s) = Some t → s_tokens s !! t = Some q →
  mount_outcome e s t q (Mount e s).
Proof.
  intros Hok Hst Hq Ht. assert (Htok : token_of s = Some (t, q)) by (unfold token_of; rewrite Hq; cbn; by rewrite Ht).
  assert (Hroot : ow_root (s_owner s) = false) by (by rewrite (so_root _ Hok), Hst). unfold Mount. rewrite Hst, Htok.
  destruct (reject_spec (Some t) s Hroot) as (_ & Ro & Rc & _).
  assert (Hrej : mount_outcome e s t q (rejectQualification (Some t) s)).
  { change (rejectQualification (Some t) s) with ((rejectQualification (Some t) s).1, @Err error unit ErrRejected). cbn [mount_outcome fst snd]. by rewrite Ro, Rc. }
  head_if Hx1; [split; [done|by apply negb_true_iff]|]. head_if Hx2; [done|]. head_if Hx3; [done|]. cbn zeta. set (s1 := emit (MountBind t) _).
  assert (Hc1 : calls (s_trace s1) = calls (s_trace s) ++ [MountBind t]) by (subst s1; cbn; by rewrite calls_app).
  assert (Hc2 : ∀ a, is_call a = false → calls (s_trace (emit a s1)) = calls (s_trace s) ++ [MountBind t]).
  { intros a Ha. cbn. rewrite calls_app. unfold calls at 2. rewrite filter_cons, Ha, app_nil_r. done. }
  assert (Hc3 : ∀ a b, is_call a = false → is_call b = false → calls (s_trace (emit b (emit a s1))) = calls (s_trace s) ++ [MountBind t]).
  { intros a b Ha Hb. cbn [emit s_trace]. rewrite calls_app. unfold calls at 2. rewrite filter_cons, Hb, app_nil_r. by apply (Hc2 a). }
  head_if Hx4; [by apply review_outcome|]. destruct (me_observed e) as [x|] eqn:Hobs; [|by apply review_outcome]. head_if Hx5; [by apply review_outcome|].
  head_if Hx6; [by apply review_outcome|]. head_if Hx7; [by apply review_outcome, Hc3|]. head_if Hx8; [by apply review_outcome, Hc3|].
  unfold sameMountedFilesystem, same_object in Hx5. rewrite !orb_false_iff, !negb_false_iff in *. rewrite !andb_true_iff, !negb_true_iff, !Z.eqb_eq, !Z.eqb_neq in Hx5.
  destruct Hx5 as ((? & ?) & (((((? & ?) & ?) & ?) & Hw%Bool.eqb_prop) & _)). destruct Hx7 as [? Hag]. apply unchanged_true in Hag as (y & ? & ? & ? & ?).
  split_and!; [done|by apply Hc3|tauto|]. exists x. split; [|done]. split; try tauto. by exists y.
Qed.

(** ** A run *)
Definition sample_expected : Expected := mkExpected 40 2 8 1 61267 "11111111-2222-3333-4444-555555555555" true.
Definition sample_mounted : Expected := mkExpected 41 2 8 1 61267 "" true.
Definition sample_target : TargetIdentity := mkTarget 20 9 8 2 61267 false true.
Definition sample_path : string := "/srv/phantowd/volumes/bulk".
Definition sample_view : target_env := mkTargetEnv (Some sample_target) (Some sample_target) (Some true).
Definition sample_owner : Owner := mkOwner sample_path StateAbsent None zero_target false zero_expected false ∅ 0 "" "".
Definition sample_world : world :=
  mkWorld {[0%nat := sample_owner]} {[0%nat := mkQualification "bulk" qualifiedCompatibility "/run/source" sample_expected true false]} ∅ [].
Definition sample_qualify : op := OpQualify (Some 0%nat) (mkQualifyEnv true (Some sample_expected) sample_view false true).
Definition sample_mount (bind : bool) : mount_env :=
  mkMountEnv true true sample_view false true true bind true true (Some sample_mounted) true true true (Some sample_mounted) true.
Definition go (w : world) (o : op) : world := match w_owners w !! 0%nat with Some x => after w 0 (run_op o (view w 0 x)) | None => w end.
Lemma go_step w o : is_Some (w_owners w !! 0%nat) → on_owner (w_leases w) 0 o → step w (go w o).
Proof. intros [x Hx] Ho. unfold go. rewrite Hx. by apply step_op. Qed.
Lemma go_keeps w o : is_Some (w_owners w !! 0%nat) → is_Some (w_owners (go w o) !! 0%nat).
Proof. intros [x Hx]. unfold go. rewrite Hx. cbn [after w_owners]. by rewrite lookup_insert_eq. Qed.
Definition sample_run (bind : bool) : world := go (go sample_world sample_qualify) (OpMount (sample_mount bind)).
Lemma sample_start : start sample_world.
Proof. split; [|done|done]. cbn [sample_world w_owners]. intros i o [<- <-]%lookup_singleton_Some. reflexivity. Qed.
Lemma sample_steps bind : rtc step sample_world (sample_run bind).
Proof. eapply rtc_l; [apply (go_step _ sample_qualify); [by eexists|done]|]. eapply rtc_l; [apply (go_step _ (OpMount (sample_mount bind))); [apply go_keeps; by eexists|exact I]|]. apply rtc_refl. Qed.
Definition state_at (w : world) (i : nat) : option State := ow_state <$> w_owners w !! i.

Lemma owners_hold_exactly_witness : state_at (sample_run true) 0 = Some StateMounted ∧ w_trace (sample_run true) = pair 0%nat <$> [PinOpen; MountBind 0; RootOpen; SourceClose 0]
  ∧ NoDup (bound (w_trace (sample_run true))).
Proof.
  split; [vm_compute; reflexivity|]. split; [vm_compute; reflexivity|]. destruct (owners_hold_exactly sample_world (sample_run true) sample_start (sample_steps true)) as (_ & H & _). exact H.
Defined.
Lemma mount_quarantine_final_witness : state_at (sample_run false) 0 = Some StateReviewRequired
  ∧ state_at (go (sample_run false) OpClose) 0 = Some StateReviewRequired.
Proof.
  split; [vm_compute; reflexivity|]. destruct (w_owners (sample_run false) !! 0%nat) as [o|] eqn:Ho; [|vm_compute in Ho; discriminate].
  destruct (mount_quarantine_final sample_world (sample_run false) (go (sample_run false) OpClose) 0 o sample_start (sample_steps false) Ho) as (o' & Ho' & Hr & _).
  - vm_compute in Ho. injection Ho as <-. reflexivity.
  - eapply rtc_l; [apply (go_step _ OpClose); [by exists o|exact I]|]. apply rtc_refl.
  - unfold state_at. rewrite Ho'. cbn. by rewrite Hr.
Defined.
Lemma Mount_outcomes_witness : ∃ o q, w_owners (go sample_world sample_qualify) !! 0%nat = Some o ∧ w_tokens (go sample_world sample_qualify) !! 0%nat = Some q
  ∧ mount_outcome (sample_mount true) (view (go sample_world sample_qualify) 0 o) 0 q (Mount (sample_mount true) (view (go sample_world sample_qualify) 0 o)).
Proof.
  set (w := go sample_world sample_qualify). destruct (w_owners w !! 0%nat) as [o|] eqn:Ho; [|vm_compute in Ho; discriminate].
  destruct (w_tokens w !! 0%nat) as [q|] eqn:Hq; [|vm_compute in Hq; discriminate]. exists o, q. split; [reflexivity|]. split; [reflexivity|].
  apply (Mount_outcomes (sample_mount true) (view w 0 o) 0 q); [| | |exact Hq].
  - apply (wo_owners w); [|exact Ho]. apply (step_ok sample_world); [apply start_ok, sample_start|]. apply (go_step _ sample_qualify); [by eexists|exact I].
  - vm_compute in Ho. injection Ho as <-. reflexivity.
  - vm_compute in Ho. injection Ho as <-. reflexivity.
Defined.
End MountOwner.
