(* ===== verification/MountedSet.v ===== *)
(** * The set of mounted volumes

    [internal/mountowner/set_linux.go], [lease_linux.go] and [root_pin_linux.go]: a
    fixed roster of the owners of [MountOwner.v], observed and leased together while
    every owner is locked.  An operation runs with all locks held, so it is one
    function on the world; the answers of the kernel are arguments. *)

From S2P Require Import Prelude GoStrings Shares GoPath NfsConfig HashInput MountOwner.

Module MountedSet.
Import GoPath HashInput MountOwner.

(** ** Data *)
Record mountedVolumeMember := mkMember { mb_volumeID : string; mb_owner : nat }.
Record MountedVolumeSet := mkSet { ms_members : list mountedVolumeMember; ms_lockOrder : list nat; ms_generation : Z; ms_fingerprint : list Z }.
Record MountedVolumeSetEvidence := mkSetEvidence { se_complete : bool; se_generation : Z; se_fingerprint : list Z; se_volumes : slice MountedVolumeEvidence }.
Definition zero_digest : list Z := replicate 32 0.
Definition Complete (e : MountedVolumeSetEvidence) : bool :=
  se_complete e && negb (se_generation e =? 0) && (se_fingerprint e != zero_digest) && negb (is_nil (se_volumes e)).

(** ** [newMountedVolumeSet] *)
Definition wanted_step (wanted : gset string) (id : string) : res error (gset string) :=
  refuse negb (validVolumeID id) || (id ∈? wanted) => ErrInvalid ;; Ok ({[id]} ∪ wanted).
Record roster := mkRoster { ro_owners : gset nat; ro_targets : gset string; ro_members : list mountedVolumeMember }.
(** [owner]: a pointer, nil when [None]; the scan of [wanted] ends with the one ID whose anchor is the target, or fails *)
Definition roster_step (owners : gmap nat Owner) (wanted : gset string) (seen : roster) (owner : option nat) : res error roster :=
  match owner ≫= λ i, pair i <$> owners !! i with
  | None => Err ErrInvalid
  | Some (i, o) =>
    refuse (i ∈? ro_owners seen) || (ow_target o ∈? ro_targets seen) => ErrInvalid ;;
    match filter (λ id, ow_target o = Join ShareConfig.VolumeMountRoot id) (elements wanted) with
    | [id] => Ok (mkRoster ({[i]} ∪ ro_owners seen) ({[ow_target o]} ∪ ro_targets seen) (ro_members seen ++ [mkMember id i]))
    | _ => Err ErrInvalid
    end
  end.
Definition target_at (owners : gmap nat Owner) (i : nat) : string := default "" (ow_target <$> owners !! i).
Definition newMountedVolumeSet (owners : gmap nat Owner) (volumeIDs : slice string) (roster : slice (option nat)) : res error MountedVolumeSet :=
  refuse is_nil volumeIDs || is_nil roster || (slen volumeIDs =? 0) || negb (slen volumeIDs =? slen roster)
         || (ShareConfig.MaxVolumes <? slen volumeIDs) => ErrInvalid ;;
  wanted ← for_range (λ _, wanted_step) 0 ∅ (elems volumeIDs);
  seen ← for_range (λ _, roster_step owners wanted) 0 (mkRoster ∅ ∅ []) (elems roster);
  refuse negb (len (ro_members seen) =? Z.of_nat (size wanted)) => ErrInvalid ;;
  let members := sort_by mb_volumeID (ro_members seen) in
  Ok (mkSet members (sort_by (target_at owners) (mb_owner <$> members)) 0 zero_digest).

(** ** Observing the roster *)
(** a call on one owner of the world *)
Definition on {A} (w : world) (i : nat) (f : sys → sys * res error A) : world * res error A :=
  match w_owners w !! i with
  | Some o => let '(s, r) := f (view w i o) in (after w i s, r)
  | None => (w, Err ErrInvalid)
  end.
Record volumes_seen := mkSeen { sn_UUIDs : gset string; sn_Mounts : gset Z; sn_Devices : gset (Z * Z) }.
Definition seen_volume (seen : volumes_seen) (v : MountedVolumeEvidence) : volumes_seen :=
  mkSeen ({[ev_filesystemUUID v]} ∪ sn_UUIDs seen) ({[ev_mountID v]} ∪ sn_Mounts seen) ({[(ev_deviceMajor v, ev_deviceMinor v)]} ∪ sn_Devices seen).
Definition refused_volume (member : mountedVolumeMember) (seen : volumes_seen) (v : MountedVolumeEvidence) : bool :=
  (ev_volumeID v != mb_volumeID member) || (ev_mountPath v != Join ShareConfig.VolumeMountRoot (mb_volumeID member))
  || (ev_compatibility v != qualifiedCompatibility) || (ev_generation v =? 0) || (ev_mountID v =? 0) || (ev_deviceMajor v =? 0)
  || (ev_filesystemUUID v ∈? sn_UUIDs seen) || (ev_mountID v ∈? sn_Mounts seen) || ((ev_deviceMajor v, ev_deviceMinor v) ∈? sn_Devices seen).
(** the loop of [observeLocked]; [env] answers for the member at an index *)
Fixpoint observe_members (env : nat → verify_env) (members : list mountedVolumeMember) (seen : volumes_seen) (w : world) : world * res error (list MountedVolumeEvidence) :=
  match members with
  | [] => (w, Ok [])
  | member :: rest =>
    match on w (mb_owner member) (observeMountedVolumeLocked (env 0%nat)) with
    | (w, Err e) => (w, Err e)
    | (w, Ok observed) =>
      if refused_volume member seen observed then (w, Err ErrReview)
      else match observe_members (λ n, env (S n)) rest (seen_volume seen observed) w with
           | (w, Err e) => (w, Err e)
           | (w, Ok volumes) => (w, Ok (observed :: volumes))
           end
    end
  end.
(** the bytes that [fingerprintMountedVolumeSet] hashes *)
Definition put_evidence (v : MountedVolumeEvidence) : list Z :=
  put_string (ev_volumeID v) ++ put_string (ev_filesystemUUID v) ++ put_string (ev_mountPath v) ++ put_string (ev_compatibility v)
  ++ put_uint64 (ev_generation v) ++ put_uint64 (ev_mountID v) ++ put_uint64 (ev_deviceMajor v) ++ put_uint64 (ev_deviceMinor v) ++ put_bool (ev_readOnly v).
Definition set_bytes (volumes : list MountedVolumeEvidence) : list Z := mjoin (put_evidence <$> volumes).

Section sha256.
Context (sha256 : list Z → list Z).
Definition fingerprintMountedVolumeSet (volumes : list MountedVolumeEvidence) : list Z := sha256 (set_bytes volumes).
(** the generation of the set after an observation *)
Definition next_generation (m : MountedVolumeSet) (fingerprint : list Z) : res error Z :=
  if ms_generation m =? 0 then Ok 1
  else if fingerprint == ms_fingerprint m then Ok (ms_generation m)
  else refuse ms_generation m =? max_uint64 => ErrReview ;; Ok (u64_add (ms_generation m) 1).
Definition observeLocked (env : nat → verify_env) (m : MountedVolumeSet) (w : world) : world * MountedVolumeSet * res error MountedVolumeSetEvidence :=
  match observe_members env (ms_members m) (mkSeen ∅ ∅ ∅) w with
  | (w, Err e) => (w, m, Err e)
  | (w, Ok volumes) =>
    let fingerprint := fingerprintMountedVolumeSet volumes in
    match next_generation m fingerprint with
    | Err e => (w, m, Err e)
    | Ok generation =>
      (w, mkSet (ms_members m) (ms_lockOrder m) generation fingerprint, Ok (mkSetEvidence true generation fingerprint (Some volumes)))
    end
  end.

(** ** Leases on the whole set *)

(** [ordered]: a child is nil after [Close]; [rootPins]: the pins by their keys *)
Record MountedVolumeSetLease := mkSetLease {
  sl_closed : bool; sl_evidence : MountedVolumeSetEvidence; sl_leases : gmap string nat; sl_ordered : list (option nat); sl_rootPins : gset nat }.

(** [child.closeLocked] followed by the quarantine of its owner when it fails; [ok] answers for the descriptors *)
Definition close_child (ok : bool) (child : nat) (w : world) : world * bool :=
  match w_leases w !! child with
  | None => (w, false)
  | Some x =>
    match on w (ls_owner x) (closeLocked child ok) with
    | (w, Ok _) => (w, false)
    | (w, Err _) => ((on w (ls_owner x) reviewLocked).1, true)
    end
  end.
(** [rollbackLocked]: from the last child to the first; whether any failed *)
Fixpoint close_children (oks : nat → bool) (children : list nat) (w : world) : world * bool :=
  match children with
  | [] => (w, false)
  | child :: rest =>
    let '(w, failed) := close_child (oks 0%nat) child w in
    let '(w, failed') := close_children (λ n, oks (S n)) rest w in (w, failed || failed')
  end.
Definition rollbackLocked (oks : nat → bool) (ordered : list nat) (w : world) : world * bool := close_children oks (reverse ordered) w.

(** the loop of [Acquire]: the children so far, in order; [env n]: the context before the call, the context the call sees, what it observes *)
Fixpoint acquire_members (env : nat → bool * bool * verify_env) (members : list mountedVolumeMember) (acquired : list (string * nat)) (w : world) :
    world * list (string * nat) * res error unit :=
  match members with
  | [] => (w, acquired, Ok tt)
  | member :: rest =>
    let '(ctx, inner, e) := env 0%nat in
    if negb ctx then (w, acquired, Err ErrUnavailable)
    else match on w (mb_owner member) (acquireLocked inner e) with
         | (w, Ok child) => acquire_members (λ n, env (S n)) rest (acquired ++ [(mb_volumeID member, child)]) w
         | (w, Err err) => (w, acquired, Err err)
         end
  end.
(** joined errors, in order *)
Definition Acquire (ctx : bool) (observe : nat → verify_env) (env : nat → bool * bool * verify_env) (oks : nat → bool) (m : MountedVolumeSet) (w : world) :
    world * MountedVolumeSet * res (list error) MountedVolumeSetLease :=
  if negb ctx then (w, m, Err [ErrUnavailable])
  else match observeLocked observe m w with
  | (w, m, Err e) => (w, m, Err [e])
  | (w, m, Ok evidence) =>
    match acquire_members env (ms_members m) [] w with
    | (w, acquired, Ok _) => (w, m, Ok (mkSetLease false evidence (list_to_map acquired) (Some <$> acquired.*2) ∅))
    | (w, acquired, Err e) =>
      let '(w, failed) := rollbackLocked oks acquired.*2 w in
      (w, m, Err (e :: if failed then [ErrReview] else []))
    end
  end.

(** [child.closed] and the membership of the child in its owner's leases *)
Definition child_gone (w : world) (l : MountedVolumeSetLease) (member : mountedVolumeMember) : bool :=
  match sl_leases l !! mb_volumeID member ≫= λ child, pair child <$> w_leases w !! child with
  | None => true
  | Some (child, x) => ls_closed x || negb (default false ((λ o, child ∈? ow_leases o) <$> w_owners w !! mb_owner member))
  end.
Definition verifyOwnersLocked (env : nat → verify_env) (l : MountedVolumeSetLease) (m : MountedVolumeSet) (w : world) :
    world * MountedVolumeSet * res error MountedVolumeSetEvidence :=
  match observeLocked env m w with
  | (w, m, Err e) => (w, m, Err e)
  | (w, m, Ok evidence) =>
    (w, m,
     refuse negb (se_generation evidence =? se_generation (sl_evidence l)) || (se_fingerprint evidence != se_fingerprint (sl_evidence l))
            || negb (len (sl_ordered l) =? len (ms_members m)) => ErrReview ;;
     refuse existsb (child_gone w l) (ms_members m) => ErrUnavailable ;;
     Ok evidence)
  end.
Definition Lease_Verify (env : nat → verify_env) (l : MountedVolumeSetLease) (m : MountedVolumeSet) (w : world) :
    world * MountedVolumeSet * res error MountedVolumeSetEvidence :=
  if sl_closed l then (w, m, Err ErrUnavailable) else verifyOwnersLocked env l m w.
Definition Lease_OpenDirectory (volumeID : string) (e : open_env) (l : MountedVolumeSetLease) (w : world) : world * res error nat :=
  if sl_closed l then (w, Err ErrUnavailable)
  else match sl_leases l !! volumeID ≫= λ child, pair child <$> w_leases w !! child with
       | None => (w, Err ErrInvalid)
       | Some (child, x) => on w (ls_owner x) (OpenDirectory child e)
       end.
Definition Lease_Close (oks : nat → bool) (l : MountedVolumeSetLease) (w : world) : world * MountedVolumeSetLease * res error unit :=
  if sl_closed l then (w, l, Ok tt)
  else if sl_rootPins l != ∅ then (w, l, Err ErrBusy)
  else
    let '(w, failed) := close_children oks (omap (λ x, x) (sl_ordered l)) w in
    (w, mkSetLease true (sl_evidence l) ∅ ((λ _, None) <$> sl_ordered l) (sl_rootPins l), if failed then Err ErrReview else Ok tt).

(** ** Pins of one volume's root *)
Record VolumeRootPin := mkPin { pn_volumeID : string; pn_closed : bool; pn_review : bool; pn_uncertain : bool }.
Definition set_pins (pins : gset nat) (l : MountedVolumeSetLease) : MountedVolumeSetLease :=
  mkSetLease (sl_closed l) (sl_evidence l) (sl_leases l) (sl_ordered l) pins.
Definition review_pin (p : VolumeRootPin) : VolumeRootPin := mkPin (pn_volumeID p) (pn_closed p) true (pn_uncertain p).
(** one lease, its set and its pins *)
Record group := mkGroup { g_world : world; g_set : MountedVolumeSet; g_lease : MountedVolumeSetLease; g_pins : gmap nat VolumeRootPin }.
Definition set_pin_at (k : nat) (p : VolumeRootPin) (g : group) : group := mkGroup (g_world g) (g_set g) (g_lease g) (<[k := p]> (g_pins g)).
Definition verify_group (env : nat → verify_env) (g : group) : group * res error MountedVolumeSetEvidence :=
  let '(w, m, r) := verifyOwnersLocked env (g_lease g) (g_set g) (g_world g) in (mkGroup w m (g_lease g) (g_pins g), r).
Definition PinVolumeRoot (volumeID : string) (env : nat → verify_env) (g : group) : group * res error nat :=
  if negb (validVolumeID volumeID) then (g, Err ErrInvalid)
  else if sl_closed (g_lease g) then (g, Err ErrUnavailable)
  else if negb (bool_decide (is_Some (sl_leases (g_lease g) !! volumeID))) then (g, Err ErrInvalid)
  else match verify_group env g with
  | (g, Err e) => (g, Err e)
  | (g, Ok _) =>
    let k := fresh (dom (g_pins g)) in
    (mkGroup (g_world g) (g_set g) (set_pins ({[k]} ∪ sl_rootPins (g_lease g)) (g_lease g)) (<[k := mkPin volumeID false false false]> (g_pins g)), Ok k)
  end.
Definition availableLocked (k : nat) (p : VolumeRootPin) (g : group) : group * res error unit :=
  if pn_closed p then (g, Err ErrUnavailable)
  else if pn_review p then (g, Err ErrReview)
  else if negb (k ∈? sl_rootPins (g_lease g)) || sl_closed (g_lease g) then (set_pin_at k (review_pin p) g, Err ErrReview)
  else (g, Ok tt).
Definition Pin_Verify (k : nat) (env : nat → verify_env) (g : group) : group * res error unit :=
  match g_pins g !! k with
  | None => (g, Err ErrUnavailable)
  | Some p =>
    match availableLocked k p g with
    | (g, Err e) => (g, Err e)
    | (g, Ok _) =>
      match verify_group env g with
      | (g, Err _) => (set_pin_at k (review_pin p) g, Err ErrReview)
      | (g, Ok _) => (g, Ok tt)
      end
    end
  end.
(** [file]: the descriptor that the guard opens, if any; [err]: whether it reports an error; [close]: whether closing it succeeds *)
Record pin_open_env := mkPinOpen { po_before : nat → verify_env; po_file : option nat; po_err : bool; po_close : bool; po_after : nat → verify_env }.
Definition Pin_OpenDirectory (k : nat) (relative : string) (e : pin_open_env) (g : group) : group * res error nat :=
  match g_pins g !! k with
  | None => (g, Err ErrUnavailable)
  | Some p =>
    if negb (ValidPath relative) || (1024 <? slength relative) || contains_any relative (String "\" (String (Ascii.ascii_of_nat 0) "")) then (g, Err ErrInvalid)
    else match availableLocked k p g with
    | (g, Err err) => (g, Err err)
    | (g, Ok _) =>
      match verify_group (po_before e) g with
      | (g, Err _) => (set_pin_at k (review_pin p) g, Err ErrReview)
      | (g, Ok _) =>
        match sl_leases (g_lease g) !! pn_volumeID p ≫= λ child, w_leases (g_world g) !! child ≫= λ x, w_owners (g_world g) !! ls_owner x with
        | Some o =>
          if negb (ow_root o) then (set_pin_at k (review_pin p) g, Err ErrReview)
          else
            let '(g, verified) := verify_group (po_after e) g in
            match po_err e, po_file e, is_ok verified with
            | false, Some f, true => (g, Ok f)
            | _, file, _ =>
              (set_pin_at k (mkPin (pn_volumeID p) (pn_closed p) true (pn_uncertain p || (match file with Some _ => negb (po_close e) | None => false end))) g, Err ErrReview)
            end
        | None => (set_pin_at k (review_pin p) g, Err ErrReview)
        end
      end
    end
  end.
Definition Release (k : nat) (g : group) : group * res error unit :=
  match g_pins g !! k with
  | None => (g, Ok tt)
  | Some p =>
    if pn_closed p then (g, Ok tt)
    else if pn_uncertain p then (g, Err ErrReview)
    else if negb (k ∈? sl_rootPins (g_lease g)) || sl_closed (g_lease g) then (set_pin_at k (review_pin p) g, Err ErrReview)
    else (mkGroup (g_world g) (g_set g) (set_pins (sl_rootPins (g_lease g) ∖ {[k]}) (g_lease g)) (<[k := mkPin (pn_volumeID p) true (pn_review p) (pn_uncertain p)]> (g_pins g)), Ok tt)
  end.
Definition Group_Close (oks : nat → bool) (g : group) : group * res error unit :=
  let '(w, l, r) := Lease_Close oks (g_lease g) (g_world g) in (mkGroup w (g_set g) l (g_pins g), r).
End sha256.

(** ** The roster *)
Lemma volume_id_identifier id : validVolumeID id = ShareConfig.identifier id.
Proof.
  unfold validVolumeID, ShareConfig.identifier. destruct (_ || _) eqn:Hh; [done|]. destruct id as [|c rest]; [done|]. go_bool.
  assert (Hp : ∀ r, 128 ≤ r → ShareConfig.identifier_char r = false) by (intros r Hr; unfold ShareConfig.identifier_char, is_lower, is_digit; lia).
  change (forallb _ (runes rest)) with (forallb ShareConfig.identifier_char (runes rest)). rewrite !(forallb_runes _ _ Hp). cbn [codes forallb].
  change (codes (String c rest)) with (code c :: codes rest). cbn [forallb]. unfold byte_at in Hh. cbn in Hh.
  enough (ShareConfig.identifier_char (code c) = true) as -> by done. unfold ShareConfig.identifier_char, is_lower. lia.
Qed.
Lemma anchor_inj a b : validVolumeID a = true → validVolumeID b = true → Join ShareConfig.VolumeMountRoot a = Join ShareConfig.VolumeMountRoot b → a = b.
Proof.
  rewrite !volume_id_identifier. intros Ha Hb. change ShareConfig.VolumeMountRoot with NfsConfig.VolumeRoot.
  rewrite (proj1 (NfsConfig.mount_path a Ha)), (proj1 (NfsConfig.mount_path b Hb)). intros He. injection He. done.
Qed.
Abbreviation anchor := (Join ShareConfig.VolumeMountRoot).
Lemma filter_single {A} (P : A → Prop) `{∀ x, Decision (P x)} l x : NoDup l → x ∈ l → P x → (∀ y, y ∈ l → P y → y = x) → filter P l = [x].
Proof.
  intros HN Hx HP Hu. apply Permutation_singleton_r. apply NoDup_Permutation; [by apply NoDup_filter|apply NoDup_singleton|]. intros y.
  rewrite list_elem_of_filter, list_elem_of_singleton. naive_solver.
Qed.
(** the requests that are accepted: the targets of the owners are the anchors of the volumes *)
Record roster_fits (owners : gmap nat Owner) (ids : list string) (seats : list nat) : Prop := {
  rf_size : 0 < len ids ≤ ShareConfig.MaxVolumes;
  rf_ids : Forall (λ id, validVolumeID id = true) ids ∧ NoDup ids;
  rf_owners : NoDup seats;
  rf_targets : ((λ i, ow_target <$> owners !! i) <$> seats) ≡ₚ ((λ id, Some (anchor id)) <$> ids) }.
Definition seated (owners : gmap nat Owner) (m : mountedVolumeMember) : Prop := ow_target <$> owners !! mb_owner m = Some (anchor (mb_volumeID m)).
Record roster_set (owners : gmap nat Owner) (ids : list string) (seats : list nat) (m : MountedVolumeSet) : Prop := {
  rs_ids : (mb_volumeID <$> ms_members m) = sort_by (λ id, id) ids;
  rs_seated : Forall (seated owners) (ms_members m);
  rs_owners : (mb_owner <$> ms_members m) ≡ₚ seats;
  rs_locks : ms_lockOrder m = sort_by (target_at owners) seats;
  rs_new : ms_generation m = 0 }.

Section roster.
Context (owners : gmap nat Owner) (ids : list string) (Hids : Forall (λ id, validVolumeID id = true) ids).
Let wanted : gset string := list_to_set ids.
Definition anchor_id (target : string) : string := default "" (head (filter (λ id, target = anchor id) (elements wanted))).
Lemma anchored target id : id ∈ ids → target = anchor id → filter (λ id, target = anchor id) (elements wanted) = [id].
Proof.
  intros Hin ->. rewrite Forall_forall in Hids. apply filter_single; [apply NoDup_elements|by apply elem_of_elements, elem_of_list_to_set|done|].
  intros y Hy%elem_of_elements%elem_of_list_to_set He. symmetry. apply anchor_inj; auto.
Qed.
Definition seat (o : option nat) : mountedVolumeMember := mkMember (anchor_id (target_at owners (default 0%nat o))) (default 0%nat o).
Definition add_seat (seen : roster) (o : option nat) : roster :=
  mkRoster ({[default 0%nat o]} ∪ ro_owners seen) ({[target_at owners (default 0%nat o)]} ∪ ro_targets seen) (ro_members seen ++ [seat o]).
Definition seatable (o : option nat) : Prop := ∃ i id, o = Some i ∧ id ∈ ids ∧ ow_target <$> owners !! i = Some (anchor id).
Lemma roster_step_Ok j seen o seen' : (λ _ : Z, roster_step owners wanted) j seen o = Ok seen' ↔
  seatable o ∧ (default 0%nat o ∉ ro_owners seen ∧ target_at owners (default 0%nat o) ∉ ro_targets seen) ∧ seen' = add_seat seen o.
Proof.
  unfold roster_step, seatable, add_seat, seat. destruct o as [i|]; [|split; [done|by intros ((? & ? & ? & _) & _)]].
  change (default 0%nat (Some i)) with i. cbn [mbind option_bind]. unfold target_at, anchor_id.
  destruct (owners !! i) as [x|] eqn:Hi; [|split; [done|intros ((? & ? & [= <-] & _ & Ht) & _); by rewrite Hi in Ht]].
  change (default "" (ow_target <$> Some x)) with (ow_target x). change (pair i <$> Some x) with (Some (i, x)). cbn iota beta.
  rewrite refuse_Ok, orb_false_iff, !bool_decide_eq_false. split.
  - intros [Hf Hm]. destruct (filter _ _) as [|id [|? ?]] eqn:Hfl; try done. injection Hm as <-.
    assert (Hid : id ∈ filter (λ id, ow_target x = anchor id) (elements wanted)) by (rewrite Hfl; set_solver).
    apply list_elem_of_filter in Hid as [Ht Hid%elem_of_elements%elem_of_list_to_set]. split; [exists i, id; rewrite Hi; cbn; by rewrite Ht|done].
  - intros ((i' & id & [= <-] & Hin & Ht) & Hf & ->). rewrite Hi in Ht. injection Ht as Ht. split; [done|]. by rewrite (anchored (ow_target x) id).
Qed.
Lemma roster_Ok l seen : for_range (λ _, roster_step owners wanted) 0 (mkRoster ∅ ∅ []) l = Ok seen ↔
  Forall seatable l ∧ NoDup (default 0%nat <$> l) ∧ NoDup ((λ o, target_at owners (default 0%nat o)) <$> l) ∧ seen = fold_left add_seat l (mkRoster ∅ ∅ []).
Proof.
  rewrite (for_range_chain add_seat _ seatable _ _ _ _ _ (roster_step_Ok)), chain_and, (chain_key _ ro_owners (default 0%nat)),
    (chain_key _ ro_targets (λ o, target_at owners (default 0%nat o))) by done. cbn [ro_owners ro_targets].
  pose proof (not_elem_of_empty_all (default 0%nat) l). pose proof (not_elem_of_empty_all (λ o, target_at owners (default 0%nat o)) l). tauto.
Qed.
End roster.
Lemma wanted_Ok ids wanted : for_range (λ _, wanted_step) 0 ∅ ids = Ok wanted ↔ Forall (λ id, validVolumeID id = true) ids ∧ NoDup ids ∧ wanted = list_to_set ids.
Proof.
  rewrite (for_range_chain (λ (s : gset string) x, {[x]} ∪ s) _ (λ id, validVolumeID id = true) (λ s x, x ∉ s)).
  - rewrite (chain_key _ (λ s, s) (λ x, x)), (fold_key _ (λ s, s) (λ x, x)) by done. rewrite list_fmap_id, union_empty_r_L. set_solver.
  - intros j st x st'. unfold wanted_step. rewrite refuse_Ok, orb_false_iff, negb_false_iff, bool_decide_eq_false. naive_solver.
Qed.
Lemma subset_perm {A} (l k : list A) : NoDup l → l ⊆ k → (length k ≤ length l)%nat → l ≡ₚ k.
Proof. intros HN Hs Hl. apply submseteq_length_Permutation; [by apply NoDup_submseteq|done]. Qed.
Lemma target_at_eq owners i t : ow_target <$> owners !! i = Some t → target_at owners i = t.
Proof. unfold target_at. by intros ->. Qed.
Lemma anchors_NoDup ids : Forall (λ id, validVolumeID id = true) ids → NoDup ids → NoDup ((λ id, Some (anchor id)) <$> ids).
Proof.
  intros HF HN. rewrite Forall_forall in HF. apply NoDup_fmap_2_strong; [|done]. intros x y Hx Hy [= He]. apply anchor_inj; auto.
Qed.

Section accepted.
Context (owners : gmap nat Owner) (ids : list string) (l : list (option nat)).
Context (Hids : Forall (λ id, validVolumeID id = true) ids) (HN : NoDup ids) (Hlen : length ids = length l).
Context (Hseat : Forall (seatable owners ids) l) (Howners : NoDup (default 0%nat <$> l)) (Htargets : NoDup ((λ o, target_at owners (default 0%nat o)) <$> l)).
Let seats := default 0%nat <$> l.
Lemma seats_some : l = Some <$> seats.
Proof.
  subst seats. rewrite <- list_fmap_compose. rewrite <- (list_fmap_id l) at 1. apply list_fmap_ext. intros k o Ho.
  rewrite Forall_forall in Hseat. destruct (Hseat o) as (i & _ & -> & _); [by eapply list_elem_of_lookup_2|]. done.
Qed.
Lemma seat_seated o : o ∈ l → seated owners (seat owners ids o) ∧ mb_volumeID (seat owners ids o) ∈ ids.
Proof.
  intros Ho. rewrite Forall_forall in Hseat. destruct (Hseat o Ho) as (i & id & -> & Hin & Ht). unfold seated, seat, anchor_id. change (default 0%nat (Some i)) with i.
  cbn [mb_owner mb_volumeID]. rewrite (target_at_eq owners i (anchor id) Ht), (anchored ids Hids (anchor id) id) by done. done.
Qed.
Lemma seats_targets : ((λ i, ow_target <$> owners !! i) <$> seats) ≡ₚ ((λ id, Some (anchor id)) <$> ids).
Proof.
  assert (Heq : ((λ i, ow_target <$> owners !! i) <$> seats) = (Some <$> ((λ o, target_at owners (default 0%nat o)) <$> l))).
  { subst seats. rewrite <- !list_fmap_compose. apply list_fmap_ext. intros k o Ho. rewrite Forall_forall in Hseat.
    destruct (Hseat o) as (i & id & -> & _ & Ht); [by eapply list_elem_of_lookup_2|]. cbn. unfold Datatypes.id. rewrite Ht. by rewrite (target_at_eq owners i _ Ht). }
  apply subset_perm; [rewrite Heq; by apply (NoDup_fmap_2 Some)| |subst seats; rewrite !length_fmap; lia].
  intros t (i & -> & (o & -> & Ho)%list_elem_of_fmap)%list_elem_of_fmap. rewrite Forall_forall in Hseat. destruct (Hseat o Ho) as (i & id & -> & Hin & Ht).
  change (default 0%nat (Some i)) with i. rewrite Ht. by apply (list_elem_of_fmap_2 (λ id, Some (anchor id))).
Qed.
Lemma seat_ids : (mb_volumeID <$> (seat owners ids <$> l)) ≡ₚ ids.
Proof.
  apply subset_perm; [|intros id (m & -> & (o & -> & Ho)%list_elem_of_fmap)%list_elem_of_fmap; by apply seat_seated|rewrite !length_fmap; lia].
  apply (NoDup_fmap_1 anchor). replace (anchor <$> _) with ((λ o, target_at owners (default 0%nat o)) <$> l); [done|].
  rewrite <- !list_fmap_compose. apply list_fmap_ext. intros k o Ho. destruct (seat_seated o) as [Hs _]; [by eapply list_elem_of_lookup_2|]. by apply target_at_eq.
Qed.
End accepted.

Lemma newMountedVolumeSet_Ok owners volumeIDs roster m : newMountedVolumeSet owners volumeIDs roster = Ok m →
  ∃ ids seats, volumeIDs = Some ids ∧ roster = Some (Some <$> seats) ∧ roster_fits owners ids seats ∧ roster_set owners ids seats m.
Proof.
  unfold newMountedVolumeSet. rewrite refuse_Ok, !orb_false_iff. intros [((((Hn1 & Hn2) & Hz) & Hl) & Hmax) Hrest]. revert Hrest. destruct volumeIDs as [ids|]; [|done]. destruct roster as [l|]; [|done].
  rewrite negb_false_iff, Z.eqb_eq in Hl. rewrite Z.eqb_neq in Hz. rewrite Z.ltb_ge in Hmax. change (slen (Some ids)) with (len ids) in *. change (slen (Some l)) with (len l) in *.
  change (elems (Some ids)) with ids. change (elems (Some l)) with l.
  rewrite res_bind_Ok. intros (wanted & (Hv & HN & ->)%wanted_Ok & Hr). apply res_bind_Ok in Hr as (seen & (Hs & Ho & Ht & ->)%(roster_Ok _ _ Hv) & Hr).
  apply refuse_Ok in Hr as [_ [= <-]]. rewrite (fold_snoc (add_seat owners ids) ro_members (seat owners ids)) by done. cbn [ro_members app].
  assert (Hlen : length ids = length l) by (unfold len in Hl; lia). set (members := seat owners ids <$> l).
  pose proof (seat_ids owners ids l Hv Hlen Hs Ht) as Hmi. fold members in Hmi.
  exists ids, (default 0%nat <$> l). split_and!; [done|by rewrite <- (seats_some owners ids l Hs)| |].
  - split; [unfold len in *; lia|done|done|]. by apply seats_targets.
  - assert (Hmo : (mb_owner <$> members) = (default 0%nat <$> l)) by (subst members; by rewrite <- list_fmap_compose).
    split; cbn [ms_members ms_lockOrder ms_generation].
    + rewrite <- (sort_by_fmap (λ id, id) mb_volumeID) by (by rewrite list_fmap_id, Hmi). by apply sort_by_unique; [rewrite list_fmap_id, Hmi|].
    + apply Forall_forall. intros x Hx%sort_by_elem. apply list_elem_of_fmap in Hx as (o & -> & Hin). by destruct (seat_seated owners ids l Hv Hs o Hin).
    + by rewrite sort_by_perm, Hmo.
    + apply sort_by_unique; [|by rewrite sort_by_perm, Hmo]. rewrite sort_by_perm, Hmo, <- list_fmap_compose. done.
    + done.
Qed.
Lemma newMountedVolumeSet_total owners ids seats : roster_fits owners ids seats → is_ok (newMountedVolumeSet owners (Some ids) (Some (Some <$> seats))) = true.
Proof.
  intros [Hsz [Hv HN] Ho Ht]. pose proof (Permutation_length Ht) as Hlen. rewrite !length_fmap in Hlen. unfold newMountedVolumeSet.
  change (slen (Some ids)) with (len ids). change (elems (Some ids)) with ids. change (elems (Some (Some <$> seats))) with (Some <$> seats).
  assert (slen (Some (Some <$> seats)) = len ids) as -> by (unfold slen, len; cbn; rewrite length_fmap; lia). cbn [is_nil orb].
  rewrite Z.eqb_refl, (proj2 (Z.eqb_neq (len ids) 0)), (proj2 (Z.ltb_ge _ _)) by lia. cbn [negb orb].
  rewrite (proj2 (wanted_Ok ids (list_to_set ids))) by done. cbn [mbind res_bind].
  assert (Hd : (default 0%nat <$> (Some <$> seats)) = seats) by (rewrite <- list_fmap_compose; apply list_fmap_id).
  assert (Hin : ∀ i, i ∈ seats → ∃ id, id ∈ ids ∧ ow_target <$> owners !! i = Some (anchor id)).
  { intros i Hi. assert (Hm : ow_target <$> owners !! i ∈ (λ id, Some (anchor id)) <$> ids) by (rewrite <- Ht; by apply (list_elem_of_fmap_2 (λ i, ow_target <$> owners !! i))).
    apply list_elem_of_fmap in Hm as (id & He & Hid). by exists id. }
  rewrite (proj2 (roster_Ok owners ids Hv (Some <$> seats) (fold_left (add_seat owners ids) (Some <$> seats) (mkRoster ∅ ∅ [])))); cbn [mbind res_bind].
  - rewrite (fold_snoc (add_seat owners ids) ro_members (seat owners ids)) by done. cbn [ro_members app]. unfold len. rewrite !length_fmap, size_list_to_set by done.
    rewrite Hlen, Z.eqb_refl. done.
  - split_and!; [|by rewrite Hd| |done].
    + apply Forall_forall. intros o (i & -> & Hi)%list_elem_of_fmap. destruct (Hin i Hi) as (id & ? & ?). by exists i, id.
    + apply (NoDup_fmap_1 Some). pose proof (anchors_NoDup ids Hv HN) as HA. rewrite <- Ht in HA.
      replace (Some <$> _) with ((λ i, ow_target <$> owners !! i) <$> seats); [done|]. rewrite <- !list_fmap_compose. apply list_fmap_ext. intros k i Hi. cbn. unfold Datatypes.id.
      destruct (Hin i) as (id & _ & Hid); [by eapply list_elem_of_lookup_2|]. rewrite Hid. by rewrite (target_at_eq owners i _ Hid).
Qed.

(** ** Observations *)
(** the evidence of a mounted owner that its set accepts *)
Definition testifies (w : world) (m : mountedVolumeMember) (v : MountedVolumeEvidence) : Prop :=
  ∃ o, w_owners w !! mb_owner m = Some o ∧ ow_state o = StateMounted ∧ v = evidence_of o ∧ validExpected (ow_expected o) = true
       ∧ ev_volumeID v = mb_volumeID m ∧ ev_mountPath v = anchor (mb_volumeID m) ∧ ev_compatibility v = qualifiedCompatibility
       ∧ ev_generation v ≠ 0 ∧ ev_mountID v ≠ 0 ∧ ev_deviceMajor v ≠ 0.
Lemma observe_owner_Ok e s s' v : observeMountedVolumeLocked e s = (s', Ok v) →
  s' = s ∧ v = evidence_of (s_owner s) ∧ ow_state (s_owner s) = StateMounted ∧ validExpected (ow_expected (s_owner s)) = true.
Proof.
  unfold observeMountedVolumeLocked. destruct (ow_state (s_owner s) != StateMounted) eqn:Hst; [done|]. apply negb_false_iff, bool_decide_eq_true in Hst.
  unfold verifyMountedLocked. destruct (_ || _); [done|]. destruct (_ || _) eqn:Hc; [done|]. rewrite !orb_false_iff, !negb_false_iff in Hc. intros [= <- <-]. tauto.
Qed.
Lemma after_same w i o : w_owners w !! i = Some o → after w i (view w i o) = w.
Proof. intros Hi. unfold after, view. cbn. rewrite insert_id, app_nil_r by done. by destruct w. Qed.
Lemma on_observe_Ok w i e w' v : on w i (observeMountedVolumeLocked e) = (w', Ok v) →
  w' = w ∧ ∃ o, w_owners w !! i = Some o ∧ v = evidence_of o ∧ ow_state o = StateMounted ∧ validExpected (ow_expected o) = true.
Proof.
  unfold on. destruct (w_owners w !! i) as [o|] eqn:Hi; [|done]. destruct (observeMountedVolumeLocked e (view w i o)) as [s r] eqn:Ho. intros [= <- ->].
  apply observe_owner_Ok in Ho as (-> & Hv & Hst & He). split; [by apply after_same|]. by exists o.
Qed.
Definition apart (seen : volumes_seen) (vs : list MountedVolumeEvidence) : Prop :=
  NoDup (ev_filesystemUUID <$> vs) ∧ NoDup (ev_mountID <$> vs) ∧ NoDup ((λ v, (ev_deviceMajor v, ev_deviceMinor v)) <$> vs)
  ∧ ∀ v, v ∈ vs → ev_filesystemUUID v ∉ sn_UUIDs seen ∧ ev_mountID v ∉ sn_Mounts seen ∧ (ev_deviceMajor v, ev_deviceMinor v) ∉ sn_Devices seen.
Lemma fresh_cons {K} `{Countable K} (k : MountedVolumeEvidence → K) (seen : gset K) v vs : NoDup (k <$> vs) → (∀ x, x ∈ vs → k x ∉ {[k v]} ∪ seen) → NoDup (k <$> v :: vs).
Proof. intros HN Hs. cbn [fmap list_fmap]. apply NoDup_cons. split; [|done]. intros (x & Hk & Hx)%list_elem_of_fmap. apply (Hs x Hx). rewrite Hk. apply elem_of_union_l, elem_of_singleton. done. Qed.
Lemma apart_cons seen v vs : ev_filesystemUUID v ∉ sn_UUIDs seen → ev_mountID v ∉ sn_Mounts seen → (ev_deviceMajor v, ev_deviceMinor v) ∉ sn_Devices seen →
  apart (seen_volume seen v) vs → apart seen (v :: vs).
Proof.
  intros F1 F2 F3 (HU & HM & HD & Hs). cbn [seen_volume sn_UUIDs sn_Mounts sn_Devices] in Hs. split_and!.
  - apply (fresh_cons _ (sn_UUIDs seen)); [done|]. intros x Hx. by apply Hs.
  - apply (fresh_cons _ (sn_Mounts seen)); [done|]. intros x Hx. by apply Hs.
  - apply (fresh_cons (λ v, (ev_deviceMajor v, ev_deviceMinor v)) (sn_Devices seen)); [done|]. intros x Hx. by apply Hs.
  - intros x [->|Hx]%elem_of_cons; [done|]. destruct (Hs x Hx) as (A & B & C). apply not_elem_of_union in A as [_ A]. apply not_elem_of_union in B as [_ B]. by apply not_elem_of_union in C as [_ C].
Qed.
Lemma observe_members_Ok env ms seen w w' vs : observe_members env ms seen w = (w', Ok vs) → w' = w ∧ Forall2 (testifies w) ms vs ∧ apart seen vs.
Proof.
  revert env seen vs. induction ms as [|m ms IH]; intros env seen vs; cbn [observe_members].
  - intros [= <- <-]. split_and!; [done|constructor|]. split_and!; [apply NoDup_nil_2..|]. by intros v ?%elem_of_nil.
  - destruct (on w (mb_owner m) _) as [w1 [v|e]] eqn:Hon; [|done]. apply on_observe_Ok in Hon as (-> & o & Hi & -> & Hst & He).
    destruct (refused_volume m seen _) eqn:Hr; [done|]. destruct (observe_members _ ms _ w) as [w2 [vs'|e]] eqn:Hrest; [|done]. intros [= <- <-].
    apply IH in Hrest as (-> & HF & Hap). unfold refused_volume in Hr. rewrite !orb_false_iff, !negb_false_iff, !Z.eqb_neq, !bool_decide_eq_true, !bool_decide_eq_false in Hr.
    destruct Hr as ((((((((R1 & R2) & R3) & R4) & R5) & R6) & R7) & R8) & R9). split; [done|]. split; [constructor; [|done]; by exists o|]. by apply apart_cons.
Qed.

(** the machine types of the fields *)
Record typed_evidence (v : MountedVolumeEvidence) : Prop := {
  te_strings : slength (ev_volumeID v) < 2 ^ 64 ∧ slength (ev_filesystemUUID v) < 2 ^ 64 ∧ slength (ev_mountPath v) < 2 ^ 64 ∧ slength (ev_compatibility v) < 2 ^ 64;
  te_numbers : 0 ≤ ev_generation v < 2 ^ 64 ∧ 0 ≤ ev_mountID v < 2 ^ 64 ∧ 0 ≤ ev_deviceMajor v < 2 ^ 32 ∧ 0 ≤ ev_deviceMinor v < 2 ^ 32 }.
Lemma evidence_code : prefix_code typed_evidence put_evidence.
Proof.
  intros v w l l' [(? & ? & ? & ?) (? & ? & ? & ?)] [(? & ? & ? & ?) (? & ? & ? & ?)]. unfold put_evidence. rewrite <- !app_assoc.
  intros [E1 Hx]%string_code; [|done..]. apply string_code in Hx as [E2 Hx]; [|done..]. apply string_code in Hx as [E3 Hx]; [|done..].
  apply string_code in Hx as [E4 Hx]; [|done..]. apply uint64_code in Hx as [E5 Hx]; [|done..]. apply uint64_code in Hx as [E6 Hx]; [|done..].
  apply uint64_code in Hx as [E7 Hx]; [|lia..]. apply uint64_code in Hx as [E8 Hx]; [|lia..]. apply bool_code in Hx as [E9 Hx]; [|done..]. destruct v, w; cbn in *. by subst.
Qed.
(** the volumes have no count before them, and need none *)
Lemma set_bytes_inj xs ys : Forall typed_evidence xs → Forall typed_evidence ys → set_bytes xs = set_bytes ys → xs = ys.
Proof.
  intros HF. revert ys. induction HF as [|x xs Hx HF IH]; intros [|y ys] HG; cbn [set_bytes fmap list_fmap mjoin list_join]; try done.
  inv HG. intros [-> He]%evidence_code; [|done..]. f_equal. by apply IH.
Qed.

(** ** Generations *)
Section generations.
Context (sha256 : list Z → list Z).
Abbreviation observeLocked := (observeLocked sha256).
Definition volumes_of (e : MountedVolumeSetEvidence) : list MountedVolumeEvidence := elems (se_volumes e).
(** the observations of one set, in order; the owners may change in between *)
Inductive observations : MountedVolumeSet → list MountedVolumeSetEvidence → Prop :=
| obs_start m : ms_generation m = 0 → observations m []
| obs_next m h env w w' m' r : observations m h → observeLocked env m w = (w', m', r) → observations m' (h ++ match r with Ok e => [e] | Err _ => [] end).

Lemma observeLocked_Ok env m w w' m' e : observeLocked env m w = (w', m', Ok e) →
  w' = w ∧ (∃ vs, e = mkSetEvidence true (ms_generation m') (fingerprintMountedVolumeSet sha256 vs) (Some vs) ∧ Forall2 (testifies w) (ms_members m) vs ∧ apart (mkSeen ∅ ∅ ∅) vs)
  ∧ next_generation m (se_fingerprint e) = Ok (ms_generation m') ∧ ms_fingerprint m' = se_fingerprint e ∧ ms_members m' = ms_members m ∧ ms_lockOrder m' = ms_lockOrder m.
Proof.
  unfold MountedSet.observeLocked. destruct (observe_members _ _ _ w) as [w1 [vs|err]] eqn:Ho; [|done]. apply observe_members_Ok in Ho as (-> & HF & Hap).
  destruct (next_generation _ _) as [g|err] eqn:Hg; [|done]. intros [= <- <- <-]. cbn. split; [done|]. split; [by exists vs|done].
Qed.
Lemma observeLocked_Err env m w w' m' err : observeLocked env m w = (w', m', Err err) → m' = m.
Proof.
  unfold MountedSet.observeLocked. destruct (observe_members _ _ _ w) as [w1 [vs|e]]; [|by intros [= _ <- _]]. destruct (next_generation _ _) as [g|e]; [done|]. by intros [= _ <- _].
Qed.
Lemma next_generation_Ok m f g : 0 ≤ ms_generation m ≤ max_uint64 → next_generation m f = Ok g →
  0 < g ≤ max_uint64 ∧ g = (if ms_generation m =? 0 then 1 else if f == ms_fingerprint m then ms_generation m else ms_generation m + 1).
Proof.
  intros Hb. unfold next_generation. destruct (Z.eqb_spec (ms_generation m) 0) as [|Hz]; [intros [= <-]; unfold max_uint64; lia|].
  destruct (f == ms_fingerprint m); [intros [= <-]; lia|]. rewrite refuse_Ok, Z.eqb_neq. intros [Hm [= <-]]. unfold u64_add, wrap, max_uint64 in *. rewrite Z.mod_small; lia.
Qed.

(** what the history says of the set *)
Record history (m : MountedVolumeSet) (h : list MountedVolumeSetEvidence) : Prop := {
  hi_bound : 0 ≤ ms_generation m ≤ max_uint64;
  hi_past : ∀ e, e ∈ h → 0 < se_generation e ≤ ms_generation m ∧ se_fingerprint e = fingerprintMountedVolumeSet sha256 (volumes_of e)
              ∧ (se_generation e = ms_generation m → se_fingerprint e = ms_fingerprint m);
  hi_same : ∀ a b, a ∈ h → b ∈ h → se_generation a = se_generation b → se_fingerprint a = se_fingerprint b;
  hi_order : StronglySorted (λ a b, se_generation a ≤ se_generation b) h }.
Lemma observations_history m h : observations m h → history m h.
Proof.
  induction 1 as [m Hm|m h env w w' m' r _ IH Hobs].
  { split; [rewrite Hm; by vm_compute|by intros e ?%elem_of_nil|by intros a b ?%elem_of_nil|constructor]. }
  destruct r as [e|err]; [|by rewrite (observeLocked_Err _ _ _ _ _ _ Hobs), app_nil_r].
  apply observeLocked_Ok in Hobs as (-> & (vs & -> & _ & _) & Hg & Hf & _ & _). destruct IH as [I1 I2 I3 I4]. cbn [se_fingerprint] in *.
  apply next_generation_Ok in Hg as [Hb Hg]; [|done]. set (f := fingerprintMountedVolumeSet sha256 vs) in *.
  assert (Hle : ms_generation m ≤ ms_generation m') by (rewrite Hg; destruct (Z.eqb_spec (ms_generation m) 0), (f == ms_fingerprint m); lia).
  assert (Hold : ∀ x, x ∈ h → se_generation x = ms_generation m' → se_fingerprint x = f).
  { intros x Hx He. destruct (I2 x Hx) as (Hx1 & _ & Hx2). rewrite Hx2 by lia. rewrite Hg in He. destruct (Z.eqb_spec (ms_generation m) 0); [lia|].
    destruct (bool_decide_reflect (f = ms_fingerprint m)) as [Hfe|]; [by rewrite Hfe|lia]. }
  split; [lia| | |].
  - intros x [Hx| ->%list_elem_of_singleton]%elem_of_app; [|rewrite Hf; cbn; split_and!; (lia || done)]. destruct (I2 x Hx) as (? & ? & _). rewrite Hf. split_and!; [lia..|done|by apply Hold].
  - intros a b [Ha| ->%list_elem_of_singleton]%elem_of_app [Hb'| ->%list_elem_of_singleton]%elem_of_app; cbn; [by apply I3|by apply Hold| |done]. intros He. symmetry. by apply Hold.
  - apply StronglySorted_app. split_and!; [|done|repeat constructor]. intros a b Ha ->%list_elem_of_singleton. cbn. destruct (I2 a Ha). lia.
Qed.

(** C15: The observations that one set hands out carry generations that never decrease and never wrap; two of them with one generation show the same volumes,
    mounts and owner generations, or else two different inputs of SHA-256 with one digest have been found. *)
Theorem generation_identifies m h : observations m h →
  StronglySorted (λ a b, se_generation a ≤ se_generation b) h
  ∧ Forall (λ e, 0 < se_generation e ≤ max_uint64) h
  ∧ ∀ a b, a ∈ h → b ∈ h → Forall typed_evidence (volumes_of a) → Forall typed_evidence (volumes_of b) → se_generation a = se_generation b →
      volumes_of a = volumes_of b ∨ set_bytes (volumes_of a) ≠ set_bytes (volumes_of b) ∧ sha256 (set_bytes (volumes_of a)) = sha256 (set_bytes (volumes_of b)).
Proof.
  intros [H1 H2 H3 H4]%observations_history. split_and!; [done| |].
  - apply Forall_forall. intros e He. destruct (H2 e He). lia.
  - intros a b Ha Hb Ta Tb Hg. destruct (decide (set_bytes (volumes_of a) = set_bytes (volumes_of b))) as [He|Hne]; [left; by apply set_bytes_inj|right].
    split; [done|]. pose proof (H3 a b Ha Hb Hg) as He. destruct (H2 a Ha) as (_ & -> & _) in He. by destruct (H2 b Hb) as (_ & -> & _) in He.
Qed.
End generations.

(** ** A set of one volume *)
Definition sample_hash (l : list Z) : list Z := take 32 (l ++ replicate 32 0).
Definition sample_env (n : nat) : verify_env := mkVerifyEnv true (Some sample_mounted).
Definition sample_set : res error MountedVolumeSet := newMountedVolumeSet (w_owners (sample_run true)) (Some ["bulk"]) (Some [Some 0%nat]).
Lemma generation_identifies_witness : ∃ m w m' e, sample_set = Ok m ∧ observeLocked sample_hash sample_env m (sample_run true) = (w, m', Ok e)
  ∧ Forall (λ e, 0 < se_generation e ≤ max_uint64) [e].
Proof.
  destruct sample_set as [m|] eqn:Hm; [|vm_compute in Hm; discriminate].
  destruct (observeLocked sample_hash sample_env m (sample_run true)) as [[w m'] [e|]] eqn:Ho.
  - exists m, w, m', e. split; [reflexivity|]. split; [exact Ho|].
    refine (proj1 (proj2 (generation_identifies sample_hash m' [e] _))).
    apply (obs_next sample_hash m [] sample_env (sample_run true) w m' (Ok e)); [|exact Ho]. apply obs_start. vm_compute in Hm. injection Hm as <-. reflexivity.
  - exfalso. vm_compute in Hm. injection Hm as <-. vm_compute in Ho. discriminate.
Defined.
End MountedSet.
