(* ===== verification/SetLeases.v ===== *)
(** * Leases on the set of mounted volumes

    The leases and root pins of [MountedSet.v] over runs: acquiring a set leases every
    member or none, and while the lease is open no member is unmounted. *)

From S2P Require Import Prelude GoStrings Shares GoPath HashInput MountOwner MountedSet.

Module SetLeases.
Import GoPath HashInput MountOwner MountedSet.

(** ** Which leases are open *)
(** the owner of each lease and whether it is closed *)
Definition tag (x : Lease) : nat * bool := (ls_owner x, ls_closed x).
Definition tags (m : gmap nat Lease) : gmap nat (nat * bool) := tag <$> m.
Lemma tags_insert l x m : tags (<[l := x]> m) = <[l := tag x]> (tags m).
Proof. apply fmap_insert. Qed.
Lemma tags_same l x y m : m !! l = Some x → tag y = tag x → tags (<[l := y]> m) = tags m.
Proof. intros Hl Ht. rewrite tags_insert, Ht. apply insert_id. unfold tags. by rewrite lookup_fmap, Hl. Qed.
Abbreviation stags s := (tags (s_leases s)).

Lemma tags_closeFiles l s : stags (closeFilesLocked l s) = stags s.
Proof. unfold closeFilesLocked. destruct (s_leases s !! l) as [x|] eqn:Hl; [|done]. destruct (ls_files x == ∅); [done|]. cbn. by apply (tags_same l x). Qed.
Lemma tags_closeTarget s : stags (closeTargetLocked s) = stags s.
Proof. unfold closeTargetLocked. by destruct (ow_targetPin _). Qed.
Lemma tags_closeRoot s : stags (closeRoot s) = stags s.
Proof. unfold closeRoot. by destruct (ow_root _). Qed.
Lemma tags_closeQualification s : stags (closeQualificationLocked s) = stags s.
Proof. unfold closeQualificationLocked. destruct (token_of s) as [[t q]|]; [|done]. by destruct (q_sourceRoot q). Qed.
Lemma tags_closeLeased s : stags (closeLeasedFilesLocked s) = stags s.
Proof. unfold closeLeasedFilesLocked. induction (elements _) as [|l ls IH]; [done|]. cbn [foldr]. by rewrite tags_closeFiles. Qed.
Lemma tags_with f s : stags (with_owner f s) = stags s.
Proof. done. Qed.
Lemma tags_emit e s : stags (emit e s) = stags s.
Proof. done. Qed.
Lemma tags_token t q s : stags (set_token t q s) = stags s.
Proof. done. Qed.
Create Rewrite HintDb tags.
#[local] Hint Rewrite tags_closeFiles tags_closeTarget tags_closeRoot tags_closeQualification tags_closeLeased tags_with tags_emit tags_token : tags.
Lemma tags_review s : stags (reviewLocked s).1 = stags s.
Proof. unfold reviewLocked. cbn [fst]. by autorewrite with tags. Qed.
Lemma tags_reject t s : stags (rejectQualification t s).1 = stags s.
Proof.
  unfold rejectQualification. cbn [fst]. autorewrite with tags. destruct t as [t|]; [|done]. cbn [with_owner s_tokens]. destruct (s_tokens s !! t) as [q|]; [|done]. by destruct (q_sourceRoot q).
Qed.
#[local] Hint Rewrite tags_review tags_reject : tags.
Lemma tags_verify e s : stags (verifyMountedLocked e s).1 = stags s.
Proof. unfold verifyMountedLocked. destruct (_ || _); [apply tags_review|done]. Qed.

Lemma tags_Qualify t e s : stags (Qualify t e s).1 = stags s.
Proof.
  unfold Qualify. destruct (_ && _); [done|]. destruct t as [t|]; [|by autorewrite with tags]. cbn zeta. cbn [with_owner s_tokens].
  destruct (s_tokens s !! t) as [q|]; [|by autorewrite with tags]. destruct (q_consumed q); [done|]. destruct (_ || _); [by autorewrite with tags|].
  destruct (negb _); [by autorewrite with tags|]. destruct (negb _); [by autorewrite with tags|]. destruct (te_observed _) as [target|]; [|by autorewrite with tags].
  destruct (_ || _); [by autorewrite with tags|]. destruct (_ || _); [destruct (qe_pin e); by autorewrite with tags|]. destruct (_ != _); [by autorewrite with tags|].
  destruct (_ != _); by autorewrite with tags.
Qed.
Lemma tags_Mount e s : stags (Mount e s).1 = stags s.
Proof.
  unfold Mount. destruct (ow_state _); try done. destruct (token_of s) as [[t q]|]; [|done]. destruct (negb _); [done|]. do 2 (destruct (_ || _); [by autorewrite with tags|]).
  cbn zeta. destruct (_ || _); [by autorewrite with tags|]. destruct (me_observed e) as [x|]; [|by autorewrite with tags]. do 2 (destruct (negb _); [by autorewrite with tags|]).
  destruct (_ || _); [by autorewrite with tags|]. destruct (negb _); by autorewrite with tags.
Qed.
Lemma tags_Verify e s : stags (Verify e s).1 = stags s.
Proof. unfold Verify. destruct (_ && _); [done|]. apply tags_verify. Qed.
Lemma tags_verify_pair e s s' r : verifyMountedLocked e s = (s', r) → stags s' = stags s.
Proof. intros H. pose proof (tags_verify e s) as Ht. by rewrite H in Ht. Qed.
Lemma tags_Drain e s : stags (Drain e s).1 = stags s.
Proof. unfold Drain. destruct (_ != _); [done|]. destruct (verifyMountedLocked e s) as [s' [u|err]] eqn:Hv; by apply tags_verify_pair in Hv. Qed.
Lemma tags_Unmount e s : stags (Owner_Unmount e s).1 = stags s.
Proof.
  unfold Owner_Unmount. destruct (ow_state _); try done. destruct (_ != _); [done|]. destruct (negb _); [done|].
  destruct (verifyMountedLocked _ s) as [s' [u|err]] eqn:Hv; apply tags_verify_pair in Hv; [|done]. rewrite <- Hv. clear Hv. destruct (_ && _); [by autorewrite with tags|].
  cbn zeta. destruct (_ || _); [by autorewrite with tags|]. destruct (_ != _); [by autorewrite with tags|]. destruct (negb _); [by autorewrite with tags|].
  do 2 (destruct (_ != _); [by autorewrite with tags|]). destruct (negb _); cbn [fst]; by autorewrite with tags.
Qed.
Lemma tags_Close s : stags (Close s).1 = stags s.
Proof. unfold Close. destruct (ow_state (s_owner s)); cbn [fst]; try (by autorewrite with tags); cbn zeta; destruct (_ != _); by autorewrite with tags. Qed.
Lemma tags_observe e s : stags (observeMountedVolumeLocked e s).1 = stags s.
Proof.
  unfold observeMountedVolumeLocked. destruct (_ != _); [done|]. destruct (verifyMountedLocked e s) as [s' [u|err]] eqn:Hv; apply tags_verify_pair in Hv; [|done]. rewrite <- Hv. clear Hv.
  cbn zeta. destruct (_ || _); cbn [fst]; by autorewrite with tags.
Qed.
Lemma tags_Open l e s : stags (OpenDirectory l e s).1 = stags s.
Proof.
  unfold OpenDirectory. destruct (s_leases s !! l) as [x|] eqn:Hl; [|done]. destruct (_ || _); [done|]. destruct (_ != _); [done|].
  destruct (verifyMountedLocked _ s) as [s1 [u|err]] eqn:Hv; [|by apply tags_verify_pair in Hv].
  assert (Hl1 : s1 = s). { unfold verifyMountedLocked in Hv. destruct (_ || _) in Hv; [done|]. by injection Hv. } subst s1.
  destruct (verifyMountedLocked (oe_after e) s) as [s2 [u2|err]] eqn:Hv2; [|destruct (oe_file e); by apply tags_verify_pair in Hv2].
  assert (Hl2 : s2 = s). { unfold verifyMountedLocked in Hv2. destruct (_ || _) in Hv2; [done|]. by injection Hv2. } subst s2.
  destruct (oe_file e); [|done]. cbn. by apply (tags_same l x).
Qed.
Lemma tags_acquire ctx e s : match acquireLocked ctx e s with
  | (s', Ok l) => s_leases s !! l = None ∧ stags s' = <[l := (s_id s, false)]> (stags s)
  | (s', Err _) => stags s' = stags s
  end.
Proof.
  unfold acquireLocked. destruct (negb ctx); [done|]. destruct (_ != _); [done|]. destruct (verifyMountedLocked e s) as [s' [u|err]] eqn:Hv; [|by apply tags_verify_pair in Hv].
  assert (s' = s) as ->. { unfold verifyMountedLocked in Hv. destruct (_ || _) in Hv; [done|]. by injection Hv. }
  split; [apply fresh_lease|]. cbn. by rewrite tags_insert.
Qed.
Lemma tags_release l ok s : stags (closeLocked l ok s).1 = match s_leases s !! l with Some x => <[l := (ls_owner x, true)]> (stags s) | None => stags s end.
Proof.
  unfold closeLocked. destruct (s_leases s !! l) as [x|] eqn:Hl; [|done]. destruct (ls_closed x) eqn:Hc.
  - cbn [fst]. symmetry. apply insert_id. unfold tags. rewrite lookup_fmap, Hl. cbn. unfold tag. by rewrite Hc.
  - cbn [fst with_owner set_lease s_leases]. by rewrite tags_insert, tags_closeFiles.
Qed.

(** ** Calls on one owner of the world *)
Abbreviation wtags w := (tags (w_leases w)).
Lemma on_tags {A} w i (f : sys → sys * res error A) : (∀ s, stags (f s).1 = stags s) → wtags (on w i f).1 = wtags w.
Proof. intros Hf. unfold on. destruct (w_owners w !! i) as [o|]; [|done]. specialize (Hf (view w i o)). by destruct (f (view w i o)). Qed.
(** a step that releases none of the leases in [cs] *)
Definition quiet (cs : gset nat) (w w' : world) : Prop :=
  ∃ i o x, w_owners w !! i = Some x ∧ on_owner (w_leases w) i o ∧ (∀ c ok, o = OpRelease c ok → c ∉ cs) ∧ w' = after w i (run_op o (view w i x)).
Lemma quiet_step cs w w' : quiet cs w w' → step w w'.
Proof. intros (i & o & x & Hx & Hown & _ & ->). by apply step_op. Qed.
Lemma quiet_steps cs w w' : rtc (quiet cs) w w' → rtc step w w'.
Proof. apply rtc_subrel. intros ??. apply quiet_step. Qed.
Lemma on_quiet {A} cs w i (f : sys → sys * res error A) o : (∀ s, (f s).1 = run_op o s) → on_owner (w_leases w) i o → (∀ c ok, o = OpRelease c ok → c ∉ cs) →
  rtc (quiet cs) w (on w i f).1.
Proof.
  intros Hf Hown Hq. unfold on. destruct (w_owners w !! i) as [x|] eqn:Hx; [|apply rtc_refl]. specialize (Hf (view w i x)). destruct (f (view w i x)) as [s r]. cbn in *. subst s.
  apply rtc_once. by exists i, o, x.
Qed.

(** ** Observing keeps the leases *)
Lemma observe_members_tags env ms seen w : wtags (observe_members env ms seen w).1 = wtags w.
Proof.
  revert env seen w. induction ms as [|m ms IH]; intros env seen w; [done|]. cbn [observe_members].
  pose proof (on_tags w (mb_owner m) (observeMountedVolumeLocked (env 0%nat)) (tags_observe _)) as Ht. destruct (on w _ _) as [w1 [v|e]]; [|done]. cbn [fst] in Ht.
  destruct (refused_volume _ _ _); [done|]. specialize (IH (λ n, env (S n)) (seen_volume seen v) w1). destruct (observe_members _ ms _ w1) as [w2 [vs|e]]; cbn [fst] in *; congruence.
Qed.
Lemma observe_members_quiet cs env ms seen w : rtc (quiet cs) w (observe_members env ms seen w).1.
Proof.
  revert env seen w. induction ms as [|m ms IH]; intros env seen w; [apply rtc_refl|]. cbn [observe_members].
  pose proof (on_quiet cs w (mb_owner m) (observeMountedVolumeLocked (env 0%nat)) (OpObserve (env 0%nat)) (λ s, eq_refl) I ltac:(done)) as Hq.
  destruct (on w _ _) as [w1 [v|e]]; [|done]. cbn [fst] in Hq. destruct (refused_volume _ _ _); [done|].
  specialize (IH (λ n, env (S n)) (seen_volume seen v) w1). destruct (observe_members _ ms _ w1) as [w2 [vs|e]]; cbn [fst] in *; by etrans.
Qed.
Section sha256.
Context (sha256 : list Z → list Z).
Abbreviation observeLocked := (observeLocked sha256).
Lemma observeLocked_tags env m w : wtags (observeLocked env m w).1.1 = wtags w.
Proof.
  unfold MountedSet.observeLocked. pose proof (observe_members_tags env (ms_members m) (mkSeen ∅ ∅ ∅) w) as H.
  destruct (observe_members _ _ _ w) as [w1 [vs|e]]; [|done]. by destruct (next_generation _ _).
Qed.
Lemma observeLocked_quiet cs env m w : rtc (quiet cs) w (observeLocked env m w).1.1.
Proof.
  unfold MountedSet.observeLocked. pose proof (observe_members_quiet cs env (ms_members m) (mkSeen ∅ ∅ ∅) w) as H.
  destruct (observe_members _ _ _ w) as [w1 [vs|e]]; [|done]. by destruct (next_generation _ _).
Qed.
Lemma observeLocked_members env m w : ms_members (observeLocked env m w).1.2 = ms_members m.
Proof. unfold MountedSet.observeLocked. destruct (observe_members _ _ _ w) as [w1 [vs|e]]; [|done]. by destruct (next_generation _ _). Qed.

(** ** The loop of [Acquire] *)
(** the children with the members they lease *)
Definition opened (new : list (mountedVolumeMember * nat)) : gmap nat (nat * bool) := list_to_map ((λ p, (p.2, (mb_owner p.1, false))) <$> new).
Definition filed (new : list (mountedVolumeMember * nat)) : list (string * nat) := (λ p, (mb_volumeID p.1, p.2)) <$> new.
Lemma empty_acquire w i ctx e c x : w_leases w !! c = Some x → ls_files x = ∅ → ∃ x', w_leases (on w i (acquireLocked ctx e)).1 !! c = Some x' ∧ ls_files x' = ∅.
Proof.
  intros Hc Hf. unfold on. destruct (w_owners w !! i) as [o|]; [|by exists x]. unfold acquireLocked. destruct (negb ctx); [by exists x|]. destruct (_ != _); [by exists x|].
  unfold verifyMountedLocked. destruct (_ || _).
  - pose proof (review_spec (view w i o)) as (_ & _ & _ & _ & Hl). destruct (reviewLocked (view w i o)) as [s1 r] eqn:Hr. assert (r = Err ErrReview) as -> by (by injection Hr).
    cbn [fst after w_leases] in *. rewrite Hl. cbn [view s_leases]. rewrite Hc. case_bool_decide; cbn; by eexists.
  - cbn. rewrite lookup_insert_ne; [by exists x|]. intros He. pose proof (fresh_lease (view w i o)) as Hn. cbn in Hn. rewrite He in Hn. congruence.
Qed.
(** what the loop has done when it stops *)
Definition acquired_some (ms : list mountedVolumeMember) (acc acc' : list (string * nat)) (w w' : world) (r : res error unit) : Prop :=
  ∃ new, acc' = acc ++ filed new ∧ new.*1 `prefix_of` ms ∧ (r = Ok tt → new.*1 = ms) ∧ NoDup new.*2 ∧ (∀ c, c ∈ new.*2 → w_leases w !! c = None)
    ∧ wtags w' = opened new ∪ wtags w ∧ (∀ c, c ∈ new.*2 → ∃ x, w_leases w' !! c = Some x ∧ ls_files x = ∅)
    ∧ (∀ c x, w_leases w !! c = Some x → ls_files x = ∅ → ∃ x', w_leases w' !! c = Some x' ∧ ls_files x' = ∅) ∧ ∀ cs, rtc (quiet cs) w w'.
Lemma acquired_none ms acc w w' r : (r = Ok tt → ms = []) → wtags w' = wtags w →
  (∀ c x, w_leases w !! c = Some x → ls_files x = ∅ → ∃ x', w_leases w' !! c = Some x' ∧ ls_files x' = ∅) → (∀ cs, rtc (quiet cs) w w') → acquired_some ms acc acc w w' r.
Proof.
  intros Hr Ht Hk Hq. exists []. unfold opened, filed. cbn [fmap list_fmap list_to_map foldr]. rewrite app_nil_r, map_empty_union.
  split; [done|]. split; [apply prefix_nil|]. split; [intros H; by rewrite (Hr H)|]. split; [apply NoDup_nil_2|]. split; [by intros c ?%elem_of_nil|]. split; [done|].
  split; [by intros c ?%elem_of_nil|]. done.
Qed.
Lemma acquire_members_spec env ms acc w w' acc' r : acquire_members env ms acc w = (w', acc', r) → acquired_some ms acc acc' w w' r.
Proof.
  revert env acc w. induction ms as [|m ms IH]; intros env acc w; cbn [acquire_members].
  - intros [= <- <- <-]. apply acquired_none; [done|done|by eauto|by intros; apply rtc_refl].
  - destruct (env 0%nat) as [[ctx inner] e]. destruct (negb ctx); [intros [= <- <- <-]; apply acquired_none; [done|done|by eauto|by intros; apply rtc_refl]|].
    pose proof (λ cs, on_quiet cs w (mb_owner m) (acquireLocked inner e) (OpAcquire inner e) (λ s, eq_refl) I ltac:(done)) as Hq.
    pose proof (empty_acquire w (mb_owner m) inner e) as Hemp. unfold on in Hq, Hemp |- *. destruct (w_owners w !! mb_owner m) as [o|] eqn:Ho; [|intros [= <- <- <-]; by apply acquired_none].
    pose proof (tags_acquire inner e (view w (mb_owner m) o)) as Ht. destruct (acquireLocked inner e (view w (mb_owner m) o)) as [s1 [c|err]] eqn:Hacq; cbn [fst] in Hq, Hemp.
    + destruct Ht as [Hnone Ht]. set (w1 := after w (mb_owner m) s1) in *. intros Hrest. apply IH in Hrest as (new & -> & Hp & Hok & HN & Hfr & Htags & Hne & Hke & Hq').
      assert (Hc1 : ∃ x, w_leases w1 !! c = Some x ∧ ls_files x = ∅).
      { unfold acquireLocked in Hacq. destruct (negb inner); [done|]. destruct (_ != _); [done|]. destruct (verifyMountedLocked e _) as [s2 [u|]] eqn:Hv; [|done].
        injection Hacq as <- <-. cbn. rewrite lookup_insert_eq. by eexists. }
      exists ((m, c) :: new). cbn [filed fmap list_fmap fst snd]. assert (Hcn : c ∉ new.*2). { intros Hin. destruct Hc1 as (x & Hx & _). rewrite (Hfr c Hin) in Hx. done. }
      assert (Htw : wtags w1 = <[c := (mb_owner m, false)]> (wtags w)) by apply Ht.
      split_and!; [by rewrite <- app_assoc|by apply prefix_cons|by intros Hr; rewrite (Hok Hr)|by apply NoDup_cons| | | | |].
      * intros c' [->|Hin]%elem_of_cons; [apply Hnone|]. apply Hfr in Hin. apply eq_None_not_Some. intros [x Hx].
        assert (Hw : wtags w1 !! c' = None) by (unfold tags; by rewrite lookup_fmap, Hin). rewrite Htw in Hw. apply lookup_insert_None in Hw as [Hw _]. unfold tags in Hw. by rewrite lookup_fmap, Hx in Hw.
      * rewrite Htags, Htw. unfold opened. cbn [fmap list_fmap list_to_map fst snd foldr uncurry]. rewrite <- insert_union_l. symmetry. apply insert_union_r. apply not_elem_of_list_to_map_1.
        rewrite <- list_fmap_compose. by change (fst ∘ λ p, (p.2, (mb_owner p.1, false))) with (@snd mountedVolumeMember nat).
      * intros c' [->|Hin]%elem_of_cons; [|by apply Hne]. destruct Hc1 as (x & Hx & Hxe). by apply (Hke c x).
      * intros c' x Hx Hxe. destruct (Hemp c' x Hx Hxe) as (x1 & Hx1 & Hxe1). by apply (Hke c' x1).
      * intros cs. by transitivity w1.
    + intros [= <- <- <-]. by apply acquired_none.
Qed.

(** ** Closing children *)
Definition shut (t : option (nat * bool)) : option (nat * bool) := (λ p, (p.1, true)) <$> t.
Lemma shut_shut t : shut (shut t) = shut t.
Proof. by destruct t. Qed.
Lemma on_step {A} w i (f : sys → sys * res error A) o : (∀ s, (f s).1 = run_op o s) → on_owner (w_leases w) i o → rtc step w (on w i f).1.
Proof.
  intros Hf Hown. apply (quiet_steps ∅). apply (on_quiet ∅ w i f o Hf Hown). set_solver.
Qed.
Lemma close_child_spec ok c w : world_ok w → let '(w', failed) := close_child ok c w in
  rtc step w w' ∧ (∀ d, wtags w' !! d = if bool_decide (d = c) then shut (wtags w !! d) else wtags w !! d)
  ∧ ((∀ x, w_leases w !! c = Some x → ls_files x = ∅) → failed = false
      ∧ ∀ d x, w_leases w !! d = Some x → ls_files x = ∅ → ∃ x', w_leases w' !! d = Some x' ∧ ls_files x' = ∅).
Proof.
  intros Hw. unfold close_child. destruct (w_leases w !! c) as [x|] eqn:Hc.
  2: { split; [apply rtc_refl|]. split; [|by eauto]. intros d. case_bool_decide as Hd; [subst d|done]. unfold tags. by rewrite lookup_fmap, Hc. }
  destruct (wo_leases _ Hw c x Hc) as [o Ho]. assert (Hown : on_owner (w_leases w) (ls_owner x) (OpRelease c ok)) by (intros y Hy; congruence).
  pose proof (on_step w (ls_owner x) (closeLocked c ok) (OpRelease c ok) (λ s, eq_refl) Hown) as Hs. pose proof (tags_release c ok (view w (ls_owner x) o)) as Ht.
  assert (Hsh : ∀ d, <[c := (ls_owner x, true)]> (wtags w) !! d = if bool_decide (d = c) then shut (wtags w !! d) else wtags w !! d).
  { intros d. case_bool_decide as Hd; [subst d; rewrite lookup_insert_eq; unfold tags; by rewrite lookup_fmap, Hc|by rewrite lookup_insert_ne]. }
  assert (Hres : ls_files x = ∅ → (closeLocked c ok (view w (ls_owner x) o)).2 = Ok tt
    ∧ ∀ d y, w_leases w !! d = Some y → ls_files y = ∅ → ∃ y', s_leases (closeLocked c ok (view w (ls_owner x) o)).1 !! d = Some y' ∧ ls_files y' = ∅).
  { intros Hf. unfold closeLocked, closeFilesLocked. cbn [view s_leases]. rewrite Hc. destruct (ls_closed x); [split; [done|by eauto]|]. rewrite Hf, bool_decide_eq_true_2 by done.
    split; [done|]. intros d y Hd Hy. cbn. destruct (decide (d = c)) as [->|Hne]; [rewrite lookup_insert_eq; by eexists|rewrite lookup_insert_ne by done; by exists y]. }
  unfold on in Hs |- *. rewrite Ho in Hs |- *. cbn [view s_leases] in Ht. rewrite Hc in Ht.
  destruct (closeLocked c ok (view w (ls_owner x) o)) as [s1 [u|err]]; cbn [fst snd] in *.
  - split; [done|]. split; [intros d; cbn [after w_leases]; by rewrite Ht, Hsh|]. intros Hf. split; [done|]. by apply Hres, Hf.
  - pose proof (on_step (after w (ls_owner x) s1) (ls_owner x) reviewLocked OpReview (λ s, eq_refl) I) as Hs2. unfold on in Hs2 |- *. cbn [after w_owners] in Hs2 |- *. rewrite lookup_insert_eq in Hs2 |- *.
    pose proof (tags_review (view (after w (ls_owner x) s1) (ls_owner x) (s_owner s1))) as Htr. destruct (reviewLocked _) as [s2 r]. cbn [fst snd after w_leases] in *.
    split; [by etrans|]. split; [intros d; by rewrite Htr; cbn [view s_leases after w_leases]; rewrite Ht, Hsh|]. intros Hf. by destruct (Hres (Hf x eq_refl)).
Qed.
Lemma close_children_spec oks cs w : world_ok w → let '(w', failed) := close_children oks cs w in
  rtc step w w' ∧ (∀ d, wtags w' !! d = if bool_decide (d ∈ cs) then shut (wtags w !! d) else wtags w !! d)
  ∧ ((∀ c x, c ∈ cs → w_leases w !! c = Some x → ls_files x = ∅) → failed = false).
Proof.
  revert oks w. induction cs as [|c cs IH]; intros oks w Hw; cbn [close_children].
  - split; [apply rtc_refl|]. split; [|done]. intros d. by rewrite bool_decide_eq_false_2 by set_solver.
  - pose proof (close_child_spec (oks 0%nat) c w Hw) as H1. destruct (close_child (oks 0%nat) c w) as [w1 f1]. destruct H1 as (Hs1 & Ht1 & He1).
    specialize (IH (λ n, oks (S n)) w1 (steps_ok w w1 Hw Hs1)). destruct (close_children _ cs w1) as [w2 f2]. destruct IH as (Hs2 & Ht2 & He2).
    split; [by etrans|]. split.
    + intros d. rewrite Ht2, Ht1. destruct (decide (d = c)) as [->|Hd].
      * rewrite (bool_decide_eq_true_2 (c = c)), (bool_decide_eq_true_2 (c ∈ c :: cs)) by (done || apply list_elem_of_here). case_bool_decide; [apply shut_shut|done].
      * rewrite (bool_decide_eq_false_2 (d = c)) by done. by rewrite (bool_decide_ext (d ∈ c :: cs) (d ∈ cs)) by (rewrite elem_of_cons; naive_solver).
    + intros Hall. destruct He1 as [-> Hk]; [intros x Hx; apply (Hall c x); [apply list_elem_of_here|done]|]. cbn [orb]. apply He2. intros d x Hin Hx.
      destruct (w_leases w !! d) as [y|] eqn:Hy.
      * destruct (Hk d y Hy) as (x' & Hx' & Hf); [apply (Hall d y); [by apply list_elem_of_further|done]|]. congruence.
      * exfalso. specialize (Ht1 d). unfold tags in Ht1. rewrite !lookup_fmap, Hy, Hx in Ht1. by case_bool_decide.
Qed.

(** ** All or none *)
(** the leases of an owner are the open ones that name it *)
Lemma active_open w i o c : world_ok w → w_owners w !! i = Some o → c ∈ ow_leases o ↔ wtags w !! c = Some (i, false).
Proof.
  intros Hw Hi. destruct (so_linked _ (wo_owners _ Hw i o Hi)) as [_ L2 L3]. cbn [view s_owner s_leases s_id] in *. unfold tags. rewrite lookup_fmap. split.
  - intros Hc. destruct (L2 c Hc) as (x & -> & Ho & Hcl). cbn. unfold tag. by rewrite Ho, Hcl.
  - destruct (w_leases w !! c) as [x|] eqn:Hx; [|done]. cbn. unfold tag. intros [= Ho Hcl]. destruct (decide (c ∈ ow_leases o)) as [|Hn]; [done|]. destruct (L3 c x Hx Ho Hn). congruence.
Qed.
Lemma steps_owners w w' i : rtc step w w' → is_Some (w_owners w' !! i) ↔ is_Some (w_owners w !! i).
Proof.
  induction 1 as [|w w1 w2 [j o x Hx _] _ IH]; [done|]. rewrite IH. cbn [after w_owners]. destruct (decide (i = j)) as [->|Hne]; [rewrite lookup_insert_eq, Hx; by split; intros; eexists|by rewrite lookup_insert_ne].
Qed.
Lemma opened_lookup new c t : NoDup new.*2 → opened new !! c = Some t ↔ ∃ mb, (mb, c) ∈ new ∧ t = (mb_owner mb, false).
Proof.
  intros HN. unfold opened. rewrite <- elem_of_list_to_map.
  - rewrite list_elem_of_fmap. split; [intros ([mb c'] & [= -> ->] & Hin); by exists mb|]. intros (mb & Hin & ->). by exists (mb, c).
  - rewrite <- list_fmap_compose. by change (fst ∘ λ p, (p.2, (mb_owner p.1, false))) with (@snd mountedVolumeMember nat).
Qed.
(** sets made by [newMountedVolumeSet] *)
Definition made (m : MountedVolumeSet) : Prop := ∃ owners ids roster m0, newMountedVolumeSet owners ids roster = Ok m0 ∧ ms_members m = ms_members m0.
Lemma made_distinct m : made m → NoDup (mb_volumeID <$> ms_members m) ∧ NoDup (mb_owner <$> ms_members m).
Proof.
  intros (owners & volumeIDs & roster & m0 & Hm & ->). apply newMountedVolumeSet_Ok in Hm as (ids & seats & _ & _ & [_ [_ HN] HO _] & [Hi _ Ho _ _]).
  rewrite Hi, Ho, sort_by_perm. done.
Qed.
Lemma made_roster m : made m → Forall (λ mb, validVolumeID (mb_volumeID mb) = true) (ms_members m) ∧ 0 < len (ms_members m) ≤ ShareConfig.MaxVolumes.
Proof.
  intros (owners & volumeIDs & roster & m0 & Hm & ->). apply newMountedVolumeSet_Ok in Hm as (ids & seats & _ & _ & [Hs [HF _] _ _] & [Hi _ _ _ _]). split.
  - assert (HV : Forall (λ id, validVolumeID id = true) (mb_volumeID <$> ms_members m0)) by (by rewrite Hi, sort_by_perm). by apply Forall_fmap in HV.
  - pose proof (Permutation_length (sort_by_perm (λ id, id) ids)) as Hp. rewrite <- Hi, length_fmap in Hp. unfold len in *. lia.
Qed.

Record leased (w w' : world) (m : MountedVolumeSet) (l : MountedVolumeSetLease) (children : list nat) : Prop := {
  ld_open : sl_closed l = false ∧ sl_rootPins l = ∅;
  ld_evidence : ∃ vs, se_volumes (sl_evidence l) = Some vs ∧ Forall2 (testifies w) (ms_members m) vs;
  ld_children : sl_ordered l = Some <$> children ∧ NoDup children;
  ld_members : Forall2 (λ mb c, sl_leases l !! mb_volumeID mb = Some c ∧ w_leases w !! c = None
                 ∧ ∃ o, w_owners w' !! mb_owner mb = Some o ∧ c ∈ ow_leases o) (ms_members m) children;
  ld_rest : ∀ i o o' c, w_owners w !! i = Some o → w_owners w' !! i = Some o' → c ∉ children → c ∈ ow_leases o' ↔ c ∈ ow_leases o }.
Lemma Acquire_Ok ctx observe env oks m w w' m' l : world_ok w → made m → Acquire sha256 ctx observe env oks m w = (w', m', Ok l) →
  rtc step w w' ∧ ms_members m' = ms_members m ∧ ∃ children, leased w w' m l children.
Proof.
  intros Hw [HNi _]%made_distinct. unfold Acquire. destruct (negb ctx); [done|].
  destruct (observeLocked observe m w) as [[w1 m1] [ev|e]] eqn:Hobs; [|done]. apply observeLocked_Ok in Hobs as (-> & (vs & -> & HF & _) & _ & _ & Hm & _).
  destruct (acquire_members env (ms_members m1) [] w) as [[w2 acc] r] eqn:Ha. apply acquire_members_spec in Ha as (new & -> & _ & Hok & HN & Hfr & Htags & _ & _ & Hq). rewrite Hm in Hok.
  destruct r as [[]|e]; [|by destruct (rollbackLocked _ _ _)]. intros [= <- <- <-]. specialize (Hok eq_refl). rewrite <- Hok in HNi.
  pose proof (quiet_steps ∅ w w2 (Hq ∅)) as Hs. pose proof (steps_ok w w2 Hw Hs) as Hw2. split; [done|]. split; [done|]. exists new.*2.
  assert (Hf2 : (filed new).*2 = new.*2) by (unfold filed; by rewrite <- list_fmap_compose).
  split; cbn [sl_closed sl_rootPins sl_evidence sl_ordered sl_leases se_volumes app]; [done|by exists vs|by rewrite Hf2| |].
  - rewrite <- Hok. apply Forall2_fmap, Forall_Forall2_diag, Forall_forall. intros [mb c] Hin. cbn [fst snd].
    assert (Hc : c ∈ new.*2) by (by apply (list_elem_of_fmap_2 snd _ (mb, c))). split; [|split; [by apply Hfr|]].
    + apply elem_of_list_to_map; [unfold filed; rewrite <- list_fmap_compose; rewrite <- list_fmap_compose in HNi; done|].
      apply (list_elem_of_fmap_2 (λ p, (mb_volumeID p.1, p.2)) _ (mb, c)). done.
    + assert (Ht : wtags w2 !! c = Some (mb_owner mb, false)) by (rewrite Htags; apply lookup_union_Some_l, opened_lookup; [done|by exists mb]).
      assert (Hx : ∃ x, w_leases w2 !! c = Some x ∧ ls_owner x = mb_owner mb).
      { unfold tags in Ht. rewrite lookup_fmap in Ht. destruct (w_leases w2 !! c) as [x|]; [|done]. injection Ht as ? _. by exists x. }
      destruct Hx as (x & Hx & Ho). destruct (wo_leases _ Hw2 c x Hx) as [o Hi]. rewrite Ho in Hi. exists o. split; [done|]. by apply (active_open w2 (mb_owner mb) o c Hw2 Hi).
  - intros i o o' c Hi Hi' Hn. rewrite (active_open w2 i o' c Hw2 Hi'), (active_open w i o c Hw Hi), Htags, lookup_union_r; [done|].
    apply eq_None_not_Some. intros [t (mb & Hin & _)%opened_lookup]; [|done]. apply Hn. by apply (list_elem_of_fmap_2 snd _ (mb, c)).
Qed.
Lemma Acquire_Err ctx observe env oks m w w' m' es : world_ok w → Acquire sha256 ctx observe env oks m w = (w', m', Err es) →
  rtc step w w' ∧ (∃ e, es = [e]) ∧ ∀ i o o', w_owners w !! i = Some o → w_owners w' !! i = Some o' → ow_leases o' = ow_leases o.
Proof.
  intros Hw HA. enough (rtc step w w' ∧ (∃ e, es = [e]) ∧ ∀ c i, wtags w' !! c = Some (i, false) ↔ wtags w !! c = Some (i, false)) as (Hs & He & Ht).
  { split; [done|]. split; [done|]. intros i o o' Hi Hi'. apply set_eq. intros c. rewrite (active_open w' i o' c (steps_ok w w' Hw Hs) Hi'), (active_open w i o c Hw Hi). apply Ht. }
  revert HA. unfold Acquire. destruct (negb ctx); [intros [= <- <- <-]; split; [apply rtc_refl|by eauto]|].
  pose proof (observeLocked_tags observe m w) as Hto. pose proof (observeLocked_quiet ∅ observe m w) as Hqo.
  destruct (observeLocked observe m w) as [[w1 m1] [ev|e]] eqn:Hobs; cbn [fst] in *.
  2: { intros [= <- <- <-]. split; [by apply (quiet_steps ∅)|]. split; [by eauto|]. by rewrite Hto. }
  apply observeLocked_Ok in Hobs as (-> & _). destruct (acquire_members env (ms_members m1) [] w) as [[w2 acc] r] eqn:Ha.
  apply acquire_members_spec in Ha as (new & -> & _ & _ & HN & Hfr & Htags & Hne & _ & Hq). destruct r as [u|e]; [done|].
  pose proof (quiet_steps ∅ w w2 (Hq ∅)) as Hs. assert (Hf2 : ([] ++ filed new).*2 = new.*2) by (unfold filed; by rewrite app_nil_l, <- list_fmap_compose).
  unfold rollbackLocked. rewrite Hf2. pose proof (close_children_spec oks (reverse new.*2) w2 (steps_ok w w2 Hw Hs)) as Hc. destruct (close_children oks _ w2) as [w3 failed].
  destruct Hc as (Hs3 & Ht3 & Hf). rewrite Hf by (intros c x Hin Hx; rewrite elem_of_reverse in Hin; destruct (Hne c Hin) as (y & Hy & Hye); congruence).
  intros [= <- <- <-]. split; [by etrans|]. split; [by eauto|]. intros c i. rewrite Ht3. case_bool_decide as Hin; rewrite elem_of_reverse in Hin.
  - rewrite Htags. assert (Hwc : wtags w !! c = None) by (unfold tags; by rewrite lookup_fmap, (Hfr c Hin)). rewrite lookup_union_l, Hwc by done. split; [|done].
    by destruct (opened new !! c) as [[]|].
  - rewrite Htags, lookup_union_r; [done|]. apply eq_None_not_Some. intros [t (mb & Hm & _)%opened_lookup]; [|done]. apply Hin. by apply (list_elem_of_fmap_2 snd _ (mb, c)).
Qed.

(** C13: Acquiring a set of mounted volumes leases all of it or nothing: on success every member has one new lease of its own, taken while the evidence of
    the lease was true of that member, and the other leases are as before; on any failure, wherever it strikes, every owner has exactly the leases that it
    had, and giving back the ones already taken never adds a second error. *)
Theorem acquire_all_or_none ctx observe env oks w0 w w' m m' r : start w0 → rtc step w0 w → made m → Acquire sha256 ctx observe env oks m w = (w', m', r) →
  rtc step w0 w' ∧
  match r with
  | Ok l => ∃ children, leased w w' m l children
  | Err es => (∃ e, es = [e]) ∧ ∀ i o o', w_owners w !! i = Some o → w_owners w' !! i = Some o' → ow_leases o' = ow_leases o
  end.
Proof.
  intros H0 Hs Hm HA. pose proof (steps_ok w0 w (start_ok w0 H0) Hs) as Hw. destruct r as [l|es].
  - apply Acquire_Ok in HA as (Hs' & _ & Hl); [|done..]. split; [by etrans|done].
  - apply Acquire_Err in HA as (Hs' & He & Hl); [|done]. split; [by etrans|done].
Qed.

(** ** What is held while the lease is open *)
Lemma run_op_tags o s c t : stags s !! c = Some t → (∀ ok, o ≠ OpRelease c ok) → stags (run_op o s) !! c = Some t.
Proof.
  intros Hc Hr. destruct o as [t'|e|ctx e|e|e|e| |e|l e|l ok|]; cbn [run_op]; rewrite ?tags_Qualify, ?tags_Mount, ?tags_Verify, ?tags_Drain, ?tags_Unmount, ?tags_Close, ?tags_observe, ?tags_Open, ?tags_review; try done.
  - pose proof (tags_acquire ctx e s) as Ht. destruct (acquireLocked ctx e s) as [s' [l|err]]; cbn [fst]; [|by rewrite Ht]. destruct Ht as [Hn ->].
    rewrite lookup_insert_ne; [done|]. intros ->. unfold tags in Hc. by rewrite lookup_fmap, Hn in Hc.
  - rewrite tags_release. destruct (s_leases s !! l); [|done]. rewrite lookup_insert_ne; [done|]. intros ->. by apply (Hr ok).
Qed.
Definition held (cs : list (mountedVolumeMember * nat)) (w : world) : Prop := ∀ mb c, (mb, c) ∈ cs → wtags w !! c = Some (mb_owner mb, false).
(** the calls since [w] ask for no unmount of a member *)
Definition no_unmount (cs : list (mountedVolumeMember * nat)) (w w' : world) : Prop :=
  ∀ mb c, (mb, c) ∈ cs → ∃ ks, calls_of (mb_owner mb) (w_trace w') = calls_of (mb_owner mb) (w_trace w) ++ ks ∧ Unmount ∉ ks.
Lemma no_unmount_refl cs w : no_unmount cs w w.
Proof. intros mb c _. exists []. rewrite app_nil_r. split; [done|]. apply not_elem_of_nil. Qed.
Lemma no_unmount_trans cs w1 w2 w3 : no_unmount cs w1 w2 → no_unmount cs w2 w3 → no_unmount cs w1 w3.
Proof.
  intros H1 H2 mb c Hin. destruct (H1 mb c Hin) as (k1 & E1 & N1). destruct (H2 mb c Hin) as (k2 & E2 & N2). exists (k1 ++ k2). rewrite E2, E1, app_assoc. split; [done|].
  rewrite elem_of_app. tauto.
Qed.
Definition cset (cs : list (mountedVolumeMember * nat)) : gset nat := list_to_set cs.*2.
Lemma quiet_held cs w w' : world_ok w → held cs w → quiet (cset cs) w w' → held cs w' ∧ no_unmount cs w w'.
Proof.
  intros Hw Hh (i & o & x & Hx & Hown & Hq & ->). split.
  - intros mb c Hin. cbn [after w_leases]. apply run_op_tags; [by apply Hh|]. intros ok ->. apply (Hq c ok eq_refl). unfold cset. apply elem_of_list_to_set. by apply (list_elem_of_fmap_2 snd _ (mb, c)).
  - intros mb c Hin. cbn [after w_trace]. rewrite calls_of_after. destruct (Nat.eqb_spec i (mb_owner mb)) as [->|Hne]; [|exists []; split; [done|apply not_elem_of_nil]].
    eexists. split; [reflexivity|]. destruct (run_op_ok o (view w (mb_owner mb) x) (wo_owners _ Hw _ x Hx) Hown) as [_ Hf]. destruct (fo_calls _ _ Hf) as (ks & -> & Hl). cbn [view s_trace calls]. cbn [app].
    intros Hu. assert (Hc : c ∈ ow_leases x) by (apply (active_open w (mb_owner mb) x c Hw Hx); by apply Hh).
    destruct ks as [|[] [|]]; cbn in Hu; try (by destruct Hl); repeat (apply elem_of_cons in Hu as [Hu|Hu]; [try done|]); try (by apply elem_of_nil in Hu).
    destruct Hl as (_ & Hl & _). cbn [view s_owner] in Hl. rewrite Hl in Hc. by apply not_elem_of_empty in Hc.
Qed.
Lemma quiet_held_rtc cs w w' : world_ok w → held cs w → rtc (quiet (cset cs)) w w' → held cs w' ∧ no_unmount cs w w'.
Proof.
  intros Hw Hh Hs. induction Hs as [w|w w1 w2 H1 _ IH]; [split; [done|apply no_unmount_refl]|].
  destruct (quiet_held cs w w1 Hw Hh H1) as [Hh1 Hn1]. destruct IH as [Hh2 Hn2]; [by apply (step_ok w); [|eapply quiet_step]|done|]. split; [done|]. by apply (no_unmount_trans cs w w1).
Qed.

(** ** Runs of a lease *)
(** any owner may be used meanwhile; only the lease releases its children *)
Inductive gstep (g : group) : group → Prop :=
| g_owner i o x : w_owners (g_world g) !! i = Some x → on_owner (w_leases (g_world g)) i o → (∀ c ok, o = OpRelease c ok → Some c ∉ sl_ordered (g_lease g)) →
    gstep g (mkGroup (after (g_world g) i (run_op o (view (g_world g) i x))) (g_set g) (g_lease g) (g_pins g))
| g_verify env w m r : Lease_Verify sha256 env (g_lease g) (g_set g) (g_world g) = (w, m, r) → gstep g (mkGroup w m (g_lease g) (g_pins g))
| g_open id e w r : Lease_OpenDirectory id e (g_lease g) (g_world g) = (w, r) → gstep g (mkGroup w (g_set g) (g_lease g) (g_pins g))
| g_pin id env : gstep g (PinVolumeRoot sha256 id env g).1
| g_pin_verify k env : gstep g (Pin_Verify sha256 k env g).1
| g_pin_open k relative e : gstep g (Pin_OpenDirectory sha256 k relative e g).1
| g_release k : gstep g (Release k g).1
| g_close oks : gstep g (Group_Close oks g).1.

Record group_ok (base : world) (cs : list (mountedVolumeMember * nat)) (g : group) : Prop := {
  go_world : world_ok (g_world g);
  go_pins : ∀ k, k ∈ sl_rootPins (g_lease g) ↔ ∃ p, g_pins g !! k = Some p ∧ pn_closed p = false;
  go_closed : sl_closed (g_lease g) = true → sl_rootPins (g_lease g) = ∅;
  go_ordered : sl_closed (g_lease g) = false → sl_ordered (g_lease g) = Some <$> cs.*2;
  go_held : sl_closed (g_lease g) = false → held cs (g_world g) ∧ no_unmount cs base (g_world g) }.
(** the owners alone moved *)
Lemma group_quiet base cs g w m : group_ok base cs g → rtc (quiet (cset cs)) (g_world g) w → group_ok base cs (mkGroup w m (g_lease g) (g_pins g)).
Proof.
  intros [G1 G2 G3 G4 G5] Hq. split; try done; cbn [g_world g_lease g_pins]; [by apply (steps_ok (g_world g)), (quiet_steps (cset cs))|].
  intros Hc. destruct (G5 Hc) as [Hh Hn]. destruct (quiet_held_rtc cs (g_world g) w G1 Hh Hq) as [Hh' Hn']. split; [done|]. by apply (no_unmount_trans cs base (g_world g)).
Qed.
(** a pin changed without being released *)
Lemma group_pin base cs g k p p' : group_ok base cs g → g_pins g !! k = Some p → pn_closed p' = pn_closed p → group_ok base cs (set_pin_at k p' g).
Proof.
  intros [G1 G2 G3 G4 G5] Hk Hc. split; try done. intros j. cbn [set_pin_at g_lease g_pins]. rewrite G2. destruct (decide (j = k)) as [->|Hne].
  - rewrite lookup_insert_eq, Hk. split; intros (q & [= <-] & Hq); eexists; (split; [reflexivity|congruence]).
  - by rewrite lookup_insert_ne by done.
Qed.
Lemma verify_group_ok base cs env g : group_ok base cs g → group_ok base cs (verify_group sha256 env g).1 ∧ g_pins (verify_group sha256 env g).1 = g_pins g
  ∧ g_lease (verify_group sha256 env g).1 = g_lease g.
Proof.
  intros Hg. unfold verify_group, verifyOwnersLocked. pose proof (observeLocked_quiet (cset cs) env (g_set g) (g_world g)) as Hq.
  destruct (observeLocked env (g_set g) (g_world g)) as [[w m] [ev|e]]; cbn [fst] in *; (split; [by apply group_quiet|done]).
Qed.
Lemma available_cases base cs k p g : group_ok base cs g → g_pins g !! k = Some p →
  availableLocked k p g = (g, Err (if pn_closed p then ErrUnavailable else ErrReview)) ∧ (pn_closed p = true ∨ pn_review p = true)
  ∨ availableLocked k p g = (g, Ok tt) ∧ pn_closed p = false ∧ pn_review p = false ∧ k ∈ sl_rootPins (g_lease g) ∧ sl_closed (g_lease g) = false.
Proof.
  intros Hg Hk. unfold availableLocked. destruct (pn_closed p) eqn:Hc; [by left; eauto|]. destruct (pn_review p) eqn:Hr; [by left; eauto|]. right.
  assert (Hin : k ∈ sl_rootPins (g_lease g)) by (apply (go_pins _ _ _ Hg); by exists p). rewrite (bool_decide_eq_true_2 _ Hin). cbn [negb orb].
  destruct (sl_closed (g_lease g)) eqn:Hcl; [|done]. rewrite (go_closed _ _ _ Hg Hcl) in Hin. by apply not_elem_of_empty in Hin.
Qed.
Lemma Pin_Verify_ok base cs k env g : group_ok base cs g → group_ok base cs (Pin_Verify sha256 k env g).1.
Proof.
  intros Hg. unfold Pin_Verify. destruct (g_pins g !! k) as [p|] eqn:Hk; [|done]. destruct (available_cases base cs k p g Hg Hk) as [[-> _]|[-> _]]; [done|].
  destruct (verify_group_ok base cs env g Hg) as (Hg' & Hp & _). destruct (verify_group sha256 env g) as [g1 [ev|e]]; cbn [fst] in *; [done|]. apply (group_pin base cs g1 k p); [done|by rewrite Hp|done].
Qed.
Lemma Pin_OpenDirectory_ok base cs k relative e g : group_ok base cs g → group_ok base cs (Pin_OpenDirectory sha256 k relative e g).1.
Proof.
  intros Hg. unfold Pin_OpenDirectory. destruct (g_pins g !! k) as [p|] eqn:Hk; [|done]. destruct (_ || _); [done|].
  destruct (available_cases base cs k p g Hg Hk) as [[-> _]|[-> _]]; [done|].
  destruct (verify_group_ok base cs (po_before e) g Hg) as (Hg1 & Hp1 & _). destruct (verify_group sha256 (po_before e) g) as [g1 [ev|err]]; cbn [fst] in *; [|apply (group_pin base cs g1 k p); [done|by rewrite Hp1|done]].
  destruct (_ ≫= _) as [o|]; [|apply (group_pin base cs g1 k p); [done|by rewrite Hp1|done]]. destruct (negb _); [apply (group_pin base cs g1 k p); [done|by rewrite Hp1|done]|].
  destruct (verify_group_ok base cs (po_after e) g1 Hg1) as (Hg2 & Hp2 & _). destruct (verify_group sha256 (po_after e) g1) as [g2 r]; cbn [fst] in *.
  assert (Hpin : ∀ u, group_ok base cs (set_pin_at k (mkPin (pn_volumeID p) (pn_closed p) true u) g2)) by (intros u; apply (group_pin base cs g2 k p); [done|by rewrite Hp2, Hp1|done]).
  destruct (po_err e), (po_file e), (is_ok r); apply Hpin || done.
Qed.
Lemma PinVolumeRoot_ok base cs id env g : group_ok base cs g → group_ok base cs (PinVolumeRoot sha256 id env g).1.
Proof.
  intros Hg. unfold PinVolumeRoot. destruct (negb _); [done|]. destruct (sl_closed (g_lease g)) eqn:Hc; [done|]. destruct (negb _); [done|].
  destruct (verify_group_ok base cs env g Hg) as (Hg1 & Hp1 & Hl1). destruct (verify_group sha256 env g) as [g1 [ev|e]]; cbn [fst] in *; [|done]. rewrite <- Hl1 in Hc.
  destruct Hg1 as [G1 G2 G3 G4 G5]. assert (Hfr : g_pins g1 !! fresh (dom (g_pins g1)) = None) by (apply not_elem_of_dom, is_fresh). set (k := fresh (dom (g_pins g1))) in *.
  split; cbn [g_world g_lease g_pins set_pins sl_closed sl_rootPins sl_ordered]; try done; [|congruence].
  intros j. rewrite elem_of_union, elem_of_singleton, G2. destruct (decide (j = k)) as [->|Hne]; [rewrite lookup_insert_eq; split; [intros _; by eexists|by left]|].
  rewrite lookup_insert_ne by done. naive_solver.
Qed.
Lemma Release_ok base cs k g : group_ok base cs g → group_ok base cs (Release k g).1.
Proof.
  intros Hg. unfold Release. destruct (g_pins g !! k) as [p|] eqn:Hk; [|done]. destruct (pn_closed p) eqn:Hpc; [done|]. destruct (pn_uncertain p); [done|].
  destruct (_ || _) eqn:Hc; [by apply (group_pin base cs g k p)|]. rewrite orb_false_iff, negb_false_iff, bool_decide_eq_true in Hc. destruct Hc as [Hin Hcl]. destruct Hg as [G1 G2 G3 G4 G5].
  split; cbn [fst g_world g_lease g_pins set_pins sl_closed sl_rootPins sl_ordered]; try done; [|congruence].
  intros j. rewrite elem_of_difference, elem_of_singleton, G2. destruct (decide (j = k)) as [->|Hne]; [rewrite lookup_insert_eq; split; [by intros [_ ?]|intros (q & [= <-] & ?); done]|].
  rewrite lookup_insert_ne by done. naive_solver.
Qed.
Lemma Group_Close_ok base cs oks g : group_ok base cs g → group_ok base cs (Group_Close oks g).1.
Proof.
  intros Hg. unfold Group_Close, Lease_Close. destruct (sl_closed (g_lease g)) eqn:Hc; [by destruct g|]. destruct (sl_rootPins (g_lease g) != ∅) eqn:Hp; [by destruct g|].
  apply negb_false_iff, bool_decide_eq_true in Hp. pose proof (close_children_spec oks (omap (λ x, x) (sl_ordered (g_lease g))) (g_world g) (go_world _ _ _ Hg)) as Hs.
  destruct (close_children _ _ _) as [w failed]. destruct Hs as (Hs & _). destruct Hg as [G1 G2 G3 G4 G5].
  split; cbn [fst g_world g_lease g_pins sl_closed sl_rootPins sl_ordered]; try done. by apply (steps_ok (g_world g)).
Qed.
Lemma gstep_ok base cs g g' : group_ok base cs g → gstep g g' → group_ok base cs g'.
Proof.
  intros Hg [i o x Hx Hown Hrel|env w m r Hv|id e w r Ho|id env|k env|k rel e|k|oks].
  - destruct (sl_closed (g_lease g)) eqn:Hc.
    + destruct Hg as [G1 G2 G3 G4 G5]. split; cbn [g_world g_lease g_pins]; try done; [|congruence..]. apply (step_ok (g_world g)); [done|by apply step_op].
    + apply group_quiet; [done|]. apply rtc_once. exists i, o, x. split_and!; try done. intros c ok He Hin. apply (Hrel c ok He). rewrite (go_ordered _ _ _ Hg Hc).
      apply list_elem_of_fmap_2. unfold cset in Hin. by apply elem_of_list_to_set in Hin.
  - unfold Lease_Verify in Hv. destruct (sl_closed (g_lease g)); [injection Hv as <- <- _; by apply group_quiet; [|apply rtc_refl]|].
    pose proof (verify_group_ok base cs env g Hg) as [Hg' _]. unfold verify_group in Hg'. by rewrite Hv in Hg'.
  - apply group_quiet; [done|]. unfold Lease_OpenDirectory in Ho. destruct (sl_closed _); [injection Ho as <- _; apply rtc_refl|].
    destruct (sl_leases (g_lease g) !! id) as [child|]; cbn [mbind option_bind] in Ho; [|injection Ho as <- _; apply rtc_refl].
    destruct (w_leases (g_world g) !! child) as [y|] eqn:Hy; cbn [fmap option_fmap option_map] in Ho; [|injection Ho as <- _; apply rtc_refl].
    assert (Hown : on_owner (w_leases (g_world g)) (ls_owner y) (OpOpen child e)) by (intros z Hz; congruence).
    pose proof (on_quiet (cset cs) (g_world g) (ls_owner y) (OpenDirectory child e) (OpOpen child e) (λ s, eq_refl) Hown ltac:(done)) as Hq. by rewrite Ho in Hq.
  - by apply PinVolumeRoot_ok.
  - by apply Pin_Verify_ok.
  - by apply Pin_OpenDirectory_ok.
  - by apply Release_ok.
  - by apply Group_Close_ok.
Qed.
Lemma gsteps_ok base cs g g' : group_ok base cs g → rtc gstep g g' → group_ok base cs g'.
Proof. intros Hg Hs. induction Hs as [|g g1 g2 H1 _ IH]; [done|]. apply IH. by apply (gstep_ok base cs g). Qed.

(** after [Acquire] *)
Lemma acquired_group ctx observe env oks m w w1 m1 l : world_ok w → made m → Acquire sha256 ctx observe env oks m w = (w1, m1, Ok l) →
  ∃ cs, cs.*1 = ms_members m ∧ group_ok w1 cs (mkGroup w1 m1 l ∅).
Proof.
  intros Hw Hm HA. apply Acquire_Ok in HA as (Hs & _ & children & [[Hc Hp] _ [Ho _] HF _]); [|done..]. exists (zip (ms_members m) children). pose proof (Forall2_length _ _ _ HF) as Hlen.
  assert (H2 : (zip (ms_members m) children).*2 = children) by (apply snd_zip; lia). split; [apply fst_zip; lia|].
  pose proof (steps_ok w w1 Hw Hs) as Hw1. split; cbn [g_world g_lease g_pins]; try done.
  - intros k. rewrite Hp. split; [by intros ?%not_elem_of_empty|]. by intros (p & ?%lookup_empty_Some & _).
  - by rewrite H2.
  - intros _. split; [|apply no_unmount_refl]. intros mb c (i & Hi)%list_elem_of_lookup. apply lookup_zip_Some in Hi as [Hi1 Hi2].
    destruct (Forall2_lookup_lr _ _ _ _ _ _ HF Hi1 Hi2) as (_ & _ & o & Ho1 & Ho2). by apply (active_open w1 (mb_owner mb) o c Hw1 Ho1).
Qed.

(** C6: While a lease on the set is open, nothing that is done with the set, its pins or any owner unmounts a member: each stays mounted, draining or
    quarantined with its lease, and its owner asks the kernel for no unmount since the lease was taken; and the lease cannot be closed while a pin of a
    volume's root is unreleased. *)
Theorem leased_never_unmounted ctx observe env oks w0 w w1 m m1 l g :
  start w0 → rtc step w0 w → made m → Acquire sha256 ctx observe env oks m w = (w1, m1, Ok l) → rtc gstep (mkGroup w1 m1 l ∅) g →
  (∀ k p, g_pins g !! k = Some p → pn_closed p = false → sl_closed (g_lease g) = false)
  ∧ (sl_closed (g_lease g) = false → ∀ mb, mb ∈ ms_members m → ∃ o ks, w_owners (g_world g) !! mb_owner mb = Some o
       ∧ (ow_state o = StateMounted ∨ ow_state o = StateDraining ∨ ow_state o = StateReviewRequired)
       ∧ calls_of (mb_owner mb) (w_trace (g_world g)) = calls_of (mb_owner mb) (w_trace w1) ++ ks ∧ Unmount ∉ ks).
Proof.
  intros H0 Hs Hm HA Hg. pose proof (steps_ok w0 w (start_ok w0 H0) Hs) as Hw. destruct (acquired_group _ _ _ _ _ _ _ _ _ Hw Hm HA) as (cs & Hcs & Hok).
  apply (gsteps_ok w1 cs _ g Hok) in Hg. destruct Hg as [G1 G2 G3 G4 G5]. split.
  - intros k p Hk Hp. destruct (sl_closed (g_lease g)) eqn:Hc; [|done]. exfalso. assert (Hin : k ∈ sl_rootPins (g_lease g)) by (apply G2; by exists p). rewrite (G3 eq_refl) in Hin. by apply not_elem_of_empty in Hin.
  - intros Hc mb Hmb. destruct (G5 Hc) as [Hh Hn]. rewrite <- Hcs in Hmb. apply list_elem_of_fmap in Hmb as ([mb' c] & -> & Hin). cbn [fst].
    pose proof (Hh _ _ Hin) as Ht. destruct (Hn _ _ Hin) as (ks & Hks & Hnk). unfold tags in Ht. rewrite lookup_fmap in Ht. destruct (w_leases (g_world g) !! c) as [x|] eqn:Hx; [|done].
    injection Ht as Hxo Hxc. destruct (wo_leases _ G1 c x Hx) as [o Ho]. rewrite Hxo in Ho. exists o, ks. split_and!; try done.
    assert (Hact : c ∈ ow_leases o) by (apply (active_open _ (mb_owner mb') o c G1 Ho); by apply Hh). pose proof (so_leases _ (wo_owners _ G1 _ o Ho)) as Hl. cbn [view s_owner] in Hl.
    destruct Hl as [He|[Hms|Hr]]; [rewrite He in Hact; by apply not_elem_of_empty in Hact| |auto]. destruct (ow_state o); cbn in Hms; auto; done.
Qed.
End sha256.

(** ** A lease on the set of one volume *)
Definition sample_acquire (m : MountedVolumeSet) : world * MountedVolumeSet * res (list error) MountedVolumeSetLease :=
  Acquire sample_hash true sample_env (λ n, (true, true, sample_env n)) (λ _, true) m (sample_run true).
Lemma sample_made m : sample_set = Ok m → made m.
Proof. intros Hm. exists (w_owners (sample_run true)), (Some ["bulk"]), (Some [Some 0%nat]), m. split; [exact Hm|reflexivity]. Qed.
Lemma acquire_all_or_none_witness : ∃ m w m' l children, sample_set = Ok m ∧ sample_acquire m = (w, m', Ok l) ∧ leased (sample_run true) w m l children.
Proof.
  destruct sample_set as [m|] eqn:Hm; [|vm_compute in Hm; discriminate]. destruct (sample_acquire m) as [[w m'] [l|es]] eqn:Ha.
  - destruct (acquire_all_or_none sample_hash _ _ _ _ sample_world (sample_run true) w m m' (Ok l) sample_start (sample_steps true) (sample_made m Hm) Ha) as (_ & children & Hl).
    exists m, w, m', l, children. split; [reflexivity|]. split; [exact Ha|exact Hl].
  - exfalso. vm_compute in Hm. injection Hm as <-. vm_compute in Ha. discriminate.
Defined.
Lemma leased_never_unmounted_witness : ∃ m w m' l g, sample_set = Ok m ∧ sample_acquire m = (w, m', Ok l)
  ∧ PinVolumeRoot sample_hash "bulk" sample_env (mkGroup w m' l ∅) = (g, Ok 0%nat) ∧ sl_closed (g_lease g) = false.
Proof.
  destruct sample_set as [m|] eqn:Hm; [|vm_compute in Hm; discriminate]. destruct (sample_acquire m) as [[w m'] [l|es]] eqn:Ha.
  - destruct (PinVolumeRoot sample_hash "bulk" sample_env (mkGroup w m' l ∅)) as [g r] eqn:Hp.
    assert (Hr : r = Ok 0%nat ∧ pn_closed <$> (g_pins g !! 0%nat) = Some false).
    { vm_compute in Hm. injection Hm as <-. vm_compute in Ha. injection Ha as <- <- <-. vm_compute in Hp. injection Hp as <- <-. split; reflexivity. }
    exists m, w, m', l, g. split; [reflexivity|]. split; [exact Ha|]. split; [by rewrite Hp, (proj1 Hr)|].
    destruct (leased_never_unmounted sample_hash _ _ _ _ sample_world (sample_run true) w m m' l g sample_start (sample_steps true) (sample_made m Hm) Ha) as [Hpin _].
    + pose proof (g_pin sample_hash (mkGroup w m' l ∅) "bulk" sample_env) as Hgs. rewrite Hp in Hgs. exact (rtc_once _ _ Hgs).
    + destruct Hr as [_ Hr]. destruct (g_pins g !! 0%nat) as [p|] eqn:Hk; [|discriminate]. apply (Hpin 0%nat p Hk). by injection Hr.
  - exfalso. vm_compute in Hm. injection Hm as <-. vm_compute in Ha. discriminate.
Defined.
End SetLeases.
