(* ===== verification/OwnerEvidence.v ===== *)
(** * The evidence of the identity owner

    [identityowner/]: what the owner of the native identities reads under its lock
    ([owner_linux.go]: [scanSnapshot] without recovery, [native_lookup_linux.go],
    [fileservice_snapshot_linux.go]), and the adapters of
    [internal/fileserviceplan/] that turn the evidence of both owners into a plan
    ([identity_from_owner_linux.go], [storage_from_owner_linux.go],
    [owners_linux.go], [samba_enrollment_linux.go]).  What the directories, the
    stores, the local files, Samba's database and the context answer are
    arguments; the digest of the evidence is a parameter. *)

From S2P Require Import Prelude GoStrings Shares GoPath NfsConfig SmbConfig FileService Accounts Unix Store Register NativeJournal SambaJournal HashInput SambaNss FilePlan MountOwner MountedSet SetLeases.

Module OwnerEvidence.
Import GoPath ServiceAccounts SambaNss FilePlan.
Import IdentityProvision(Journal, jn_Account, jn_Phase, jn_Revision, jn_RegistryRevision, Journal_Validate, UnixConfirmed).
Import SmbProvision(SmbJournal, sj_Account, sj_Phase, sj_NativeRevision, SmbJournal_Validate, Observation, ob_Present, ob_Name, ob_UID, ob_GID, ob_SID, ob_Disabled, mkObservation, ValidateObservation).

Inductive owner_error := ErrUnavailable | ErrBusy | ErrPending | ErrConflict | ErrReview | ErrInvalid.
#[export] Instance owner_error_eq_dec : EqDecision owner_error. Proof. solve_decision. Defined.

#[export] Instance Observation_eq_dec : EqDecision Observation. Proof. solve_decision. Defined.

(** ** [scanSnapshot(false)] *)
(** the Samba directory of an account: its parent cannot be trusted, it does not exist (while the owner remembers it or not), or it is there:
    private and on the device, its store open with the same inode, and what that loads *)
Inductive child_env := ChildLost | ChildAbsent (remembered : bool) | ChildPresent (private store : bool) (load : option SmbJournal).
Definition loadSMBForAccount (e : child_env) (account : Account) (native : Journal) : res unit (option SmbJournal) :=
  match e with
  | ChildLost => Err tt
  | ChildAbsent remembered => refuse remembered => tt ;; Ok None
  | ChildPresent private store load =>
    refuse negb private || (jn_Phase native != UnixConfirmed) || negb store => tt ;;
    match load with
    | None => Err tt
    | Some j => refuse negb (sameAccountIdentity (sj_Account j) account) || negb (sj_NativeRevision j =? jn_Revision native) => tt ;; Ok (Some j)
    end
  end.
(** an account's directory is private, its journal store open with the same inode, and what that loads *)
Record account_env := mkAccountEnv { ae_private : bool; ae_store : bool; ae_load : option Journal; ae_child : child_env }.
Record scan_state := mkScan { sc_native : list Journal; sc_samba : list SmbJournal; sc_active : Z; sc_prior : Z }.
Definition scan_step (env : Z → account_env) (known : gset string) (r : Registry) (i : Z) (st : scan_state) (a : Account) : res unit scan_state :=
  refuse negb (acc_ID a ∈? known) || ((acc_State a != Disabled) && (acc_State a != Enabled)) => tt ;;
  refuse negb (ae_private (env i)) || negb (ae_store (env i)) => tt ;;
  match ae_load (env i) with
  | None => Err tt
  | Some j =>
    refuse negb (sameAccountIdentity (jn_Account j) a) || (jn_RegistryRevision j <? i + 2) || (reg_Revision r <? jn_RegistryRevision j)
           || ((0 <? i) && (jn_RegistryRevision j <=? sc_prior st)) => tt ;;
    child ← loadSMBForAccount (ae_child (env i)) a j;
    let smb := sc_samba st ++ option_list child in
    if jn_Phase j != UnixConfirmed
    then refuse negb (jn_RegistryRevision j =? reg_Revision r) || (1 <? sc_active st + 1) => tt ;;
         Ok (mkScan (sc_native st ++ [j]) smb (sc_active st + 1) (jn_RegistryRevision j))
    else Ok (mkScan (sc_native st ++ [j]) smb (sc_active st) (jn_RegistryRevision j))
  end.
(** [entries]: the names in the directory, when reading and closing it succeeded *)
Record scan_env := mkScanEnv { sv_registry : option Registry; sv_entries : option (list string); sv_accounts : Z → account_env }.
Definition scanSnapshot (e : scan_env) : res unit (Registry * list Journal * list SmbJournal) :=
  match sv_registry e, sv_entries e with
  | Some r, Some entries =>
    refuse negb (len entries =? slen (reg_Accounts r)) || (reg_Revision r <? slen (reg_Accounts r) + 1) => tt ;;
    st ← for_range (scan_step (sv_accounts e) (list_to_set entries) r) 0 (mkScan [] [] 0 0) (elems (reg_Accounts r));
    Ok (r, sc_native st, sc_samba st)
  | _, _ => Err tt
  end.

(** ** [nativeEvidenceLocked] *)
Definition stable_step (seen : gset string) (j : SmbJournal) : res owner_error (gset string) :=
  refuse negb (SmbJournal_Validate j) || (acc_ID (sj_Account j) ∈? seen) => ErrUnavailable ;;
  refuse SmbProvision.is_intent_phase (sj_Phase j) || (sj_Phase j == SmbProvision.ReviewRequired) => ErrReview ;;
  Ok ({[acc_ID (sj_Account j)]} ∪ seen).
(** [live]: whether the context is live at the start, before an account and at the end *)
Record native_env := mkNativeEnv { nv_start : bool; nv_account : Z → bool; nv_end : bool; nv_local : option UnixIdentity.Snapshot }.
Definition confirmed_step (e : native_env) (local : UnixIdentity.Snapshot) (i : Z) (_ : unit) (p : Account * Journal) : res owner_error unit :=
  let '(account, journal) := p in
  refuse negb (nv_account e i) => ErrUnavailable ;;
  refuse negb (Journal_Validate journal) || (jn_Phase journal != UnixConfirmed) || negb (sameAccountIdentity (jn_Account journal) account)
    => (if jn_Phase journal == IdentityProvision.ReviewRequired then ErrReview else ErrPending) ;;
  match UnixIdentity.Snapshot_Assess local account with
  | Err _ => Err ErrUnavailable
  | Ok status => refuse status != UnixIdentity.Observed => ErrReview ;; Ok tt
  end.
Definition observeConfirmedNativeLocked (e : native_env) (r : Registry) (native : list Journal) : res owner_error Reservations :=
  refuse negb (nv_start e) => ErrUnavailable ;;
  match nv_local e with
  | None => Err ErrUnavailable
  | Some local =>
    match UnixIdentity.Snapshot_Reservations local with
    | Err _ => Err ErrUnavailable
    | Ok reserved =>
      refuse is_nil (rsv_UIDs reserved) || is_nil (rsv_GIDs reserved) || is_nil (rsv_Names reserved) || (65536 <? slen (rsv_UIDs reserved))
             || (65536 <? slen (rsv_GIDs reserved)) || (65536 <? slen (rsv_Names reserved)) || negb (len native =? slen (reg_Accounts r)) => ErrUnavailable ;;
      _ ← for_range (confirmed_step e local) 0 tt (zip (elems (reg_Accounts r)) native);
      refuse negb (nv_end e) => ErrUnavailable ;;
      Ok reserved
    end
  end.
(** whether the owner has failed for good, with the evidence *)
Definition nativeEvidenceLocked (s : scan_env) (e : native_env) (failed : bool) : bool * res owner_error (Registry * list Journal * list SmbJournal * Reservations) :=
  match scanSnapshot s with
  | Err _ => (true, Err ErrUnavailable)
  | Ok (r, native, samba) =>
    (failed, _ ← for_range (λ _, stable_step) 0 ∅ samba;
             reserved ← observeConfirmedNativeLocked e r native;
             Ok (r, native, samba, reserved))
  end.

(** ** [fileServiceSnapshotLocked] *)
Record FileServiceSamba := mkFSSamba { fm_Journal : SmbJournal; fm_Observation : Observation }.
Record FileServicePassdb := mkFSPassdb { fp_AccountID : string; fp_Observation : Observation }.
Record FileServiceSnapshot := mkFSSnapshot {
  fs_Registry : Registry; fs_Native : slice Journal; fs_UIDs : slice Z; fs_GIDs : slice Z; fs_Names : slice string;
  fs_Samba : slice FileServiceSamba; fs_Passdb : slice FileServicePassdb; fs_Fingerprint : list Z }.
(** the batch observer's answer, if there is one and it succeeds with a live context; the context before each account and at the end *)
Record passdb_env := mkPassdbEnv { pe_observations : option (list Observation); pe_account : Z → bool; pe_end : bool }.
Definition smb_journals (l : list SmbJournal) : gmap string SmbJournal := fold_left (λ m j, <[acc_ID (sj_Account j) := j]> m) l ∅.
Definition blank (o : Observation) : bool :=
  negb (ob_Present o || (ob_Name o != "") || negb (ob_UID o =? 0) || negb (ob_GID o =? 0) || (ob_SID o != "") || ob_Disabled o).
Definition observation_error (e : SmbProvision.smb_error) : owner_error :=
  match e with SmbProvision.ErrReview _ | SmbProvision.ErrReviewOnly | SmbProvision.ErrObservation => ErrReview | _ => ErrUnavailable end.
Definition passdb_step (e : passdb_env) (sambaByID : gmap string SmbJournal) (i : Z) (samba : list FileServiceSamba) (p : Account * Observation) : res owner_error (list FileServiceSamba) :=
  let '(account, observed) := p in
  refuse negb (pe_account e i) => ErrUnavailable ;;
  match sambaByID !! acc_ID account with
  | None => refuse negb (blank observed) => ErrReview ;; Ok samba
  | Some journal =>
    match ValidateObservation journal observed with
    | Err err => Err (observation_error err)
    | Ok _ => Ok (samba ++ [mkFSSamba journal observed])
    end
  end.
Section digest.
Context (digest : Registry → list Journal → Reservations → list FileServiceSamba → list FileServicePassdb → list Z).
Definition fileServiceSnapshotLocked (s : scan_env) (n : native_env) (e : passdb_env) (failed : bool) : bool * res owner_error FileServiceSnapshot :=
  let '(failed, evidence) := nativeEvidenceLocked s n failed in
  (failed,
   '(r, native, sambaJournals, reservations) ← evidence;
   let accounts := elems (reg_Accounts r) in
   observations ← (if 0 <? len accounts
                   then match pe_observations e with
                        | Some l => refuse negb (len l =? len accounts) => ErrUnavailable ;; Ok l
                        | None => Err ErrUnavailable
                        end
                   else Ok []);
   samba ← for_range (passdb_step e (smb_journals sambaJournals)) 0 [] (zip accounts observations);
   refuse negb (pe_end e) => ErrUnavailable ;;
   let passdb := zip_with (λ a o, mkFSPassdb (acc_ID a) o) accounts observations in
   Ok (mkFSSnapshot r (Some native) (rsv_UIDs reservations) (rsv_GIDs reservations) (rsv_Names reservations) (Some samba) (Some passdb)
         (digest r native reservations samba passdb))).
End digest.

(** ** The adapters of the planner *)
Definition zero_observation : Observation := mkObservation false "" 0 0 "" false.
Definition validOwnerObservation (account : Account) (o : Observation) : bool :=
  if negb (ob_Present o) then o == zero_observation
  else (ob_Name o == acc_Name account) && (ob_UID o =? acc_UID account) && (ob_GID o =? acc_GID account) && (ob_SID o != "").
Definition owner_step (_ : Z) (_ : unit) (p : Account * (Journal * FileServicePassdb)) : res plan_error unit :=
  let '(account, (journal, passdb)) := p in
  refuse negb (Journal_Validate journal) || (jn_Phase journal != UnixConfirmed) || negb (sameAccountIdentity (jn_Account journal) account)
         || (fp_AccountID passdb != acc_ID account) || negb (validOwnerObservation account (fp_Observation passdb)) => ErrInvalidEvidence ;;
  Ok tt.
Definition identityFromOwnerEvidence (ev : FileServiceSnapshot) : res plan_error IdentitySnapshot :=
  refuse negb (is_ok (Registry_Validate (fs_Registry ev))) || (fs_Fingerprint ev == zero_fingerprint) || is_nil (fs_Native ev) || is_nil (fs_UIDs ev)
         || is_nil (fs_GIDs ev) || is_nil (fs_Names ev) || is_nil (fs_Samba ev) || is_nil (fs_Passdb ev)
         || negb (slen (fs_Native ev) =? slen (reg_Accounts (fs_Registry ev))) || negb (slen (fs_Passdb ev) =? slen (reg_Accounts (fs_Registry ev))) => ErrNotReady ;;
  _ ← for_range owner_step 0 tt (zip (elems (reg_Accounts (fs_Registry ev))) (zip (elems (fs_Native ev)) (elems (fs_Passdb ev))));
  Ok (mkIdentities true (reg_Revision (fs_Registry ev)) (fs_Fingerprint ev) (fs_Registry ev) (fs_UIDs ev) (fs_GIDs ev)
        (Some ((λ m, mkSambaIdentity (fm_Journal m) (fm_Observation m)) <$> elems (fs_Samba ev))) false).

Definition owner_volume (v : MountOwner.MountedVolumeEvidence) : ObservedVolume :=
  mkObserved (MountOwner.ev_volumeID v) (MountOwner.ev_filesystemUUID v) (MountOwner.ev_mountPath v) (MountOwner.ev_compatibility v)
    (MountOwner.ev_mountID v) (MountOwner.ev_deviceMajor v) (MountOwner.ev_deviceMinor v) (MountOwner.ev_readOnly v).
Definition bad_owner_volume (v : MountOwner.MountedVolumeEvidence) : bool :=
  (MountOwner.ev_compatibility v != CompatibilityQualified) || (MountOwner.ev_mountPath v != Join ShareConfig.VolumeMountRoot (MountOwner.ev_volumeID v))
  || (MountOwner.ev_generation v =? 0) || (MountOwner.ev_mountID v =? 0) || (MountOwner.ev_deviceMajor v =? 0)
  || negb (validateLogicalVolume (MountOwner.ev_volumeID v) (MountOwner.ev_filesystemUUID v)).
Definition StorageFromMountedOwnerSet (ev : MountedSet.MountedVolumeSetEvidence) : res plan_error StorageSnapshot :=
  let observed := MountedSet.se_volumes ev in
  refuse negb (MountedSet.Complete ev) || (MountedSet.se_generation ev =? 0) || (MountedSet.se_fingerprint ev == MountedSet.zero_digest) || is_nil observed
         || (slen observed =? 0) || (MaxObservedVolumes <? slen observed) => ErrNotReady ;;
  _ ← for_range (λ _ _ v, refuse bad_owner_volume v => ErrInvalidEvidence ;; Ok tt) 0 tt (elems observed);
  let snapshot := mkStorage true (MountedSet.se_generation ev) (MountedSet.se_fingerprint ev) (Some (owner_volume <$> elems observed)) in
  _ ← validateStorageSnapshot snapshot (Some ((λ v, ShareConfig.mkVolume (MountOwner.ev_volumeID v) (MountOwner.ev_filesystemUUID v)) <$> elems observed));
  Ok snapshot.

(** [buildFromLockedOwners]: the storage is observed first, then the identities, each callback under its owner's lock; [ctx] at the start, in each callback *)
Inductive build_error := Planner (e : plan_error) | Storage (e : MountOwner.error) | Identity (e : owner_error).
Definition lift {E A} (f : E → build_error) (r : res E A) : res build_error A := match r with Ok a => Ok a | Err e => Err (f e) end.
Definition buildFromLockedOwners (sha256 : list Z → list Z) (order : gset string → list string) (ctx : bool * bool * bool) (config : FileService.Config) (activeRevision : Z)
    (* the outcomes of the two observations, with the locks held *) (storage : res MountOwner.error MountedSet.MountedVolumeSetEvidence) (identity : res owner_error FileServiceSnapshot) (ctxAfter : bool) : res build_error Plan :=
  let '(ctx0, ctx1, ctx2) := ctx in
  refuse negb ctx0 => Planner ErrNotReady ;;
  storageEvidence ← lift Storage storage;
  refuse negb ctx1 => Planner ErrNotReady ;;
  storageSnapshot ← lift Planner (StorageFromMountedOwnerSet storageEvidence);
  identityEvidence ← lift Identity identity;
  refuse negb ctx2 => Planner ErrNotReady ;;
  identitySnapshot ← lift Planner (identityFromOwnerEvidence identityEvidence);
  candidate ← lift Planner (Build sha256 order config activeRevision identitySnapshot storageSnapshot);
  refuse negb ctxAfter => Identity ErrUnavailable ;;
  Ok candidate.

(** ** The storage that the owners show *)
(** the two checks of a filesystem's identifier differ on the all-zero one only *)
Definition zero_uuid : string := "00000000-0000-0000-0000-000000000000".
Fixpoint zero_codes (i : Z) (n : nat) : list Z :=
  match n with O => [] | S n' => (if ShareConfig.hyphen_position i then 45 else 48) :: zero_codes (i + 1) n' end.
Lemma uuid_checks_loop bs i k nonzero :
  forallb (λ e : Z * Z * nat, let '(index, char, _) := e in
      if (index =? 8) || (index =? 13) || (index =? 18) || (index =? 23) then char =? 45 else is_digit char || ((97 <=? char) && (char <=? 102))) (range_from 0 i bs) = true →
  ∃ b, for_range (E := unit) (λ _ nonzero '(i, ch, _),
           if ShareConfig.hyphen_position i
           then (refuse negb (ch =? 45) => tt ;; Ok nonzero)
           else (refuse negb (is_lower_hex ch) => tt ;; Ok (nonzero || negb (ch =? 48)))) k nonzero (range_from 0 i bs) = Ok b
    ∧ (b = false ↔ nonzero = false ∧ bs = zero_codes i (length bs)).
Proof.
  revert i k nonzero. induction bs as [|c bs IH]; intros i k nonzero; [intros _; exists nonzero; cbn; naive_solver|].
  destruct (decide (c < 128)) as [Hc|Hc].
  - cbn [range_from]. unfold decode_rune. rewrite (proj2 (Z.ltb_lt c 128)) by lia. cbn [pred forallb for_range]. intros [Hv HF]%andb_true_iff.
    change ((i =? 8) || (i =? 13) || (i =? 18) || (i =? 23)) with (ShareConfig.hyphen_position i) in Hv. cbn [length zero_codes].
    destruct (ShareConfig.hyphen_position i).
    + rewrite Hv. cbn [negb]. destruct (IH (i + 1) (k + 1) nonzero HF) as (b & Hb & He). exists b. split; [exact Hb|]. rewrite He. apply Z.eqb_eq in Hv. subst c.
      split; intros [E1 E2]; (split; [done|congruence]).
    + assert (Hh : is_lower_hex c = true) by (unfold is_lower_hex, is_digit in *; lia). rewrite Hh. cbn [negb].
      destruct (IH (i + 1) (k + 1) (nonzero || negb (c =? 48)) HF) as (b & Hb & He). exists b. split; [exact Hb|]. rewrite He, orb_false_iff, negb_false_iff, Z.eqb_eq.
      split; [intros [[-> ->] <-]; by split|intros [-> [= -> <-]]; by split_and!].
  - pose proof (decode_rune_high c bs ltac:(lia)) as Hr. cbn [range_from]. destruct (decode_rune (c :: bs)) as [r n]. cbn [forallb]. intros [Hv _]%andb_true_iff.
    exfalso. cbn in Hr. unfold is_digit in Hv. destruct (_ || _) in Hv; lia.
Qed.
Lemma valid_uuid u : MountOwner.validUUID u = true → ShareConfig.filesystemUUID u = true ↔ u ≠ zero_uuid.
Proof.
  unfold MountOwner.validUUID, ShareConfig.filesystemUUID. destruct (negb (slength u =? 36)) eqn:Hlen; [done|]. apply negb_false_iff, Z.eqb_eq in Hlen. intros HF.
  destruct (uuid_checks_loop (codes u) 0 0 false HF) as (b & Hb & He). unfold range_string. rewrite Hb. rewrite <- not_false_iff_true, He. apply not_iff_compat.
  replace (length (codes u)) with 36%nat by (rewrite length_codes; unfold slength in Hlen; lia). change (zero_codes 0 36) with (codes zero_uuid). split; [intros [_ H]; by apply codes_inj|by intros ->].
Qed.
Definition named_uuid (v : MountOwner.MountedVolumeEvidence) : Prop := MountOwner.ev_filesystemUUID v ≠ zero_uuid.
Lemma testified_uuid w m v : MountedSet.testifies w m v → ShareConfig.filesystemUUID (MountOwner.ev_filesystemUUID v) = true ↔ named_uuid v.
Proof.
  intros (o & _ & _ & -> & He & _). apply valid_uuid. unfold MountOwner.validExpected in He. rewrite !andb_true_iff in He. apply He.
Qed.
Lemma bad_owner_volume_false w m v : MountedSet.testifies w m v → MountOwner.validVolumeID (MountedSet.mb_volumeID m) = true → bad_owner_volume v = false ↔ named_uuid v.
Proof.
  intros Ht Hv. rewrite <- (testified_uuid w m v Ht). destruct Ht as (o & _ & _ & _ & _ & Hid & Hp & Hc & Hg & Hm & Hd). rewrite MountedSet.volume_id_identifier in Hv. unfold bad_owner_volume.
  rewrite Hc, Hp, Hid, (proj2 (Z.eqb_neq _ _) Hg), (proj2 (Z.eqb_neq _ _) Hm), (proj2 (Z.eqb_neq _ _) Hd).
  rewrite (bool_decide_eq_true_2 (MountOwner.qualifiedCompatibility = CompatibilityQualified)) by done. rewrite bool_decide_eq_true_2 by done. cbn [negb orb].
  rewrite negb_false_iff, logical_volume. naive_solver.
Qed.
Section shown.
Context (w : MountOwner.world) (ms : list MountedSet.mountedVolumeMember) (vs : list MountOwner.MountedVolumeEvidence).
Context (HF : Forall2 (MountedSet.testifies w) ms vs) (Hids : Forall (λ mb, MountOwner.validVolumeID (MountedSet.mb_volumeID mb) = true) ms).
Lemma shown_ids : (MountOwner.ev_volumeID <$> vs) = (MountedSet.mb_volumeID <$> ms).
Proof.
  generalize HF. clear. induction 1 as [|m v ms' vs' (o & _ & _ & _ & _ & Hid & _) _ IH]; [done|]. rewrite !fmap_cons, Hid. f_equal. by apply IH.
Qed.
Lemma shown_elem v : v ∈ vs → ∃ m, m ∈ ms ∧ MountedSet.testifies w m v ∧ MountOwner.validVolumeID (MountedSet.mb_volumeID m) = true.
Proof.
  intros [i Hi]%list_elem_of_lookup. destruct (Forall2_lookup_r _ _ _ _ _ HF Hi) as (m & Hm & Ht). exists m. apply list_elem_of_lookup_2 in Hm as Hin. split; [done|]. split; [done|].
  rewrite Forall_forall in Hids. by apply Hids.
Qed.
Lemma shown_good known v : v ∈ vs → (∀ id, id ∈ MountOwner.ev_volumeID <$> vs → id ∈ known) → named_uuid v → good_observed known (owner_volume v).
Proof.
  intros Hin Hk Hu. destruct (shown_elem v Hin) as (m & _ & Ht & Hv). apply (testified_uuid w m v Ht) in Hu. destruct Ht as (o & _ & _ & _ & _ & Hid & Hp & Hc & Hg & Hm & Hd). rewrite MountedSet.volume_id_identifier in Hv.
  split; cbn [owner_volume ov_VolumeID ov_MountID ov_DeviceMajor ov_MountPath ov_Compatibility ov_FilesystemUUID]; [by apply Hk, list_elem_of_fmap_2|done|by rewrite Hid|by left|by rewrite Hid].
Qed.
End shown.

(** C23: The planner accepts what a set of mounted volumes shows of itself: an observation with a digest other than zero becomes storage evidence exactly when
    no filesystem has the all-zero identifier, which the mount owner does not exclude, and the evidence is then complete, of the set's generation, passes the planner's
    own checks, and has every volume of the roster under its own name. *)
Theorem owner_storage_planned sha256 env m h w w' m' ev : SetLeases.made m → MountedSet.observations sha256 m h →
  MountedSet.observeLocked sha256 env m w = (w', m', Ok ev) → MountedSet.se_fingerprint ev ≠ MountedSet.zero_digest →
  (is_ok (StorageFromMountedOwnerSet ev) = true ↔ Forall (λ v, MountOwner.ev_filesystemUUID v ≠ "00000000-0000-0000-0000-000000000000") (MountedSet.volumes_of ev))
  ∧ ∀ st, StorageFromMountedOwnerSet ev = Ok st →
      storage_ok (list_to_set (MountedSet.mb_volumeID <$> MountedSet.ms_members m)) st ∧ st_Generation st = MountedSet.se_generation ev
      ∧ (ov_VolumeID <$> elems (st_Volumes st)) = (MountedSet.mb_volumeID <$> MountedSet.ms_members m).
Proof.
  intros Hm [Hb _ _ _]%MountedSet.observations_history Hobs Hz. destruct (SetLeases.made_roster m Hm) as [Hids Hsz]. destruct (SetLeases.made_distinct m Hm) as [HNi _].
  apply MountedSet.observeLocked_Ok in Hobs as (-> & (vs & -> & HF & (HU & HM & HD & _)) & Hg & _). apply MountedSet.next_generation_Ok in Hg as [Hg _]; [|done].
  cbn [MountedSet.volumes_of MountedSet.se_volumes MountedSet.se_fingerprint MountedSet.se_generation] in *. change (elems (Some vs)) with vs.
  set (f := MountedSet.fingerprintMountedVolumeSet sha256 vs) in *. set (g := MountedSet.ms_generation m') in *.
  pose proof (Forall2_length _ _ _ HF) as Hlen. pose proof (shown_ids w _ vs HF) as Hnames.
  set (snapshot := mkStorage true g f (Some (owner_volume <$> vs))).
  assert (Hknown : list_to_set (C := gset string) (ShareConfig.vol_ID <$> ((λ v, ShareConfig.mkVolume (MountOwner.ev_volumeID v) (MountOwner.ev_filesystemUUID v)) <$> vs))
    = list_to_set (MountedSet.mb_volumeID <$> MountedSet.ms_members m)) by (rewrite <- list_fmap_compose; by rewrite <- Hnames).
  assert (Hok : Forall named_uuid vs → storage_ok (list_to_set (MountedSet.mb_volumeID <$> MountedSet.ms_members m)) snapshot).
  { intros Hn. rewrite Forall_forall in Hn. split; cbn [snapshot st_Complete st_Generation st_Volumes is_nil]; unfold slen; change (elems (Some (owner_volume <$> vs))) with (owner_volume <$> vs);
      rewrite <- ?list_fmap_compose; try done.
    - split_and!; [done|lia|done].
    - unfold len in *. rewrite length_fmap, <- Hlen. unfold MaxObservedVolumes. lia.
    - apply Forall_fmap, Forall_forall. intros v Hin. apply (shown_good w (MountedSet.ms_members m) vs HF Hids); [done| |by apply Hn]. intros id Hid. rewrite <- Hnames. by apply elem_of_list_to_set.
    - change (ov_VolumeID ∘ owner_volume) with MountOwner.ev_volumeID. by rewrite Hnames. }
  assert (Hcheck : ∀ st, StorageFromMountedOwnerSet (MountedSet.mkSetEvidence true g f (Some vs)) = Ok st ↔ Forall named_uuid vs ∧ st = snapshot).
  { intros st. unfold StorageFromMountedOwnerSet, MountedSet.Complete. cbn [MountedSet.se_volumes MountedSet.se_complete MountedSet.se_generation MountedSet.se_fingerprint is_nil]. unfold slen.
    change (elems (Some vs)) with vs. rewrite (bool_decide_eq_false_2 (f = _)), (proj2 (Z.eqb_neq g 0)) by (done || lia). cbn [negb andb orb].
    rewrite (proj2 (Z.eqb_neq (len vs) 0)), (proj2 (Z.ltb_ge MaxObservedVolumes (len vs))) by (unfold MaxObservedVolumes, len in *; lia). cbn [orb]. fold snapshot.
    assert (Hall : for_range (λ _ (_ : unit) v, refuse bad_owner_volume v => ErrInvalidEvidence ;; Ok tt) 0 tt vs = Ok tt ↔ Forall named_uuid vs).
    { rewrite check_Ok, Forall_forall. apply forall_proper. intros v. split; intros H Hin; destruct (shown_elem w _ vs HF Hids v Hin) as (mb & _ & Ht & Hv); by apply (bad_owner_volume_false w mb v Ht Hv), H. }
    rewrite res_bind_Ok. split.
    - intros ([] & HA%Hall & Hr). apply res_bind_Ok in Hr as (_ & _ & [= <-]). done.
    - intros [HA ->]. exists tt. split; [by apply Hall|]. apply res_bind_Ok. exists tt. split; [|done]. apply storage_Ok. change (elems (Some ?l)) with l. rewrite Hknown. by apply Hok. }
  split.
  - rewrite is_ok_true. setoid_rewrite Hcheck. naive_solver.
  - intros st [HA ->]%Hcheck. split; [by apply Hok|]. split; [done|]. cbn [snapshot st_Volumes]. change (elems (Some (owner_volume <$> vs))) with (owner_volume <$> vs). rewrite <- list_fmap_compose. exact Hnames.
Qed.

(** ** The identities that the owner shows *)
Lemma for_range_each {E A} (body : Z → unit → A → res E unit) (P : A → Prop) i l : (∀ j x, body j tt x = Ok tt → P x) → for_range body i tt l = Ok tt → Forall P l.
Proof.
  intros Hb. revert i. induction l as [|x l IH]; intros i; [constructor|]. rewrite for_range_cons_Ok. intros ([] & H1 & H2). constructor; [by eapply Hb|by eapply IH].
Qed.
Lemma scan_samba e r native samba : scanSnapshot e = Ok (r, native, samba) →
  sv_registry e = Some r ∧ Forall (λ j, ∃ a, a ∈ elems (reg_Accounts r) ∧ same_identity (sj_Account j) a) samba.
Proof.
  unfold scanSnapshot. destruct (sv_registry e) as [r'|]; [|done]. destruct (sv_entries e) as [entries|]; [|done]. rewrite refuse_Ok. intros [_ (st & Hst & [= <- <- <-])%res_bind_Ok]. split; [done|].
  revert Hst. apply (for_range_inv _ (λ st, Forall (λ j, ∃ a, a ∈ elems (reg_Accounts r') ∧ same_identity (sj_Account j) a) (sc_samba st))); [|constructor].
  intros i s0 a s1 Hin HI. unfold scan_step. rewrite !refuse_Ok. intros (_ & _ & Hs). destruct (ae_load _) as [j|]; [|done]. apply refuse_Ok in Hs as [_ (child & Hc & Hs)%res_bind_Ok].
  assert (HF : Forall (λ j, ∃ a, a ∈ elems (reg_Accounts r') ∧ same_identity (sj_Account j) a) (sc_samba s0 ++ option_list child)).
  { apply Forall_app. split; [done|]. destruct child as [k|]; [|constructor]. apply Forall_singleton. exists a. split; [done|]. unfold loadSMBForAccount in Hc.
    destruct (ae_child _) as [|rem|pr sr l]; [done|by destruct rem|]. apply refuse_Ok in Hc as [_ Hc]. destruct l as [k'|]; [|done]. apply refuse_Ok in Hc as [Hk [= <-]].
    rewrite orb_false_iff, negb_false_iff in Hk. by apply sameAccountIdentity_true, Hk. }
  destruct (jn_Phase j != UnixConfirmed); [apply refuse_Ok in Hs as [_ [= <-]]|injection Hs as <-]; exact HF.
Qed.
Definition stable (j : SmbJournal) : Prop := SmbJournal_Validate j = true ∧ SmbProvision.is_intent_phase (sj_Phase j) = false ∧ sj_Phase j ≠ SmbProvision.ReviewRequired.
Abbreviation journal_id j := (acc_ID (sj_Account j)).
Lemma stable_Ok l seen : for_range (λ _, stable_step) 0 ∅ l = Ok seen → Forall stable l ∧ NoDup ((λ j, journal_id j) <$> l).
Proof.
  rewrite (for_range_chain (λ (s : gset string) j, {[journal_id j]} ∪ s) _ stable (λ s j, journal_id j ∉ s)).
  - rewrite (chain_key _ (λ s, s) (λ j, journal_id j)) by done. tauto.
  - intros i st j st'. unfold stable_step, stable. rewrite !refuse_Ok, !orb_false_iff, negb_false_iff, !bool_decide_eq_false. naive_solver.
Qed.
(** an account that its journal and the local files confirm *)
Definition confirmed (local : UnixIdentity.Snapshot) (p : Account * Journal) : Prop :=
  Journal_Validate p.2 = true ∧ jn_Phase p.2 = UnixConfirmed ∧ sameAccountIdentity (jn_Account p.2) p.1 = true ∧ UnixIdentity.Snapshot_Assess local p.1 = Ok UnixIdentity.Observed.
Lemma observe_native_Ok e r native rsv : observeConfirmedNativeLocked e r native = Ok rsv →
  ∃ local, UnixIdentity.Snapshot_Reservations local = Ok rsv ∧ length native = length (elems (reg_Accounts r)) ∧ Forall (confirmed local) (zip (elems (reg_Accounts r)) native).
Proof.
  unfold observeConfirmedNativeLocked. rewrite refuse_Ok. intros [_ H]. destruct (nv_local e) as [local|]; [|done]. destruct (UnixIdentity.Snapshot_Reservations local) as [rsv'|] eqn:Hr; [|done].
  apply refuse_Ok in H as [Hc H]. apply res_bind_Ok in H as ([] & Hl & H). apply refuse_Ok in H as [_ [= <-]]. exists local. split; [done|].
  rewrite !orb_false_iff, negb_false_iff, Z.eqb_eq in Hc. split; [destruct Hc as [_ Hc]; unfold slen, len in Hc; lia|]. revert Hl. apply for_range_each. intros j [a k]. unfold confirmed_step, confirmed. cbn [fst snd].
  rewrite !refuse_Ok, !orb_false_iff, !negb_false_iff, bool_decide_eq_true. intros (_ & ((Q1 & Q2) & Q3) & Hs). destruct (UnixIdentity.Snapshot_Assess local a) as [status|]; [|done].
  apply refuse_Ok in Hs as [Hs _]. rewrite negb_false_iff, bool_decide_eq_true in Hs. by subst.
Qed.
(** the entries of Samba's database that belong to a journal *)
Definition entry (m : gmap string SmbJournal) (p : Account * Observation) : option FileServiceSamba := (λ j, mkFSSamba j p.2) <$> m !! acc_ID p.1.
Definition entry_ok (m : gmap string SmbJournal) (p : Account * Observation) : Prop :=
  match m !! acc_ID p.1 with Some j => ValidateObservation j p.2 = Ok tt | None => blank p.2 = true end.
Lemma passdb_Ok e m i acc l out : for_range (passdb_step e m) i acc l = Ok out → out = acc ++ omap (entry m) l ∧ Forall (entry_ok m) l.
Proof.
  revert i acc. induction l as [|[a o] l IH]; intros i acc; cbn [omap list_omap].
  - intros [= <-]. rewrite app_nil_r. split; [done|constructor].
  - rewrite for_range_cons_Ok. intros (acc1 & H1 & H2). apply IH in H2 as [-> HF]. unfold passdb_step in H1. apply refuse_Ok in H1 as [_ H1]. rewrite Forall_cons.
    assert (He : entry m (a, o) = (λ j, mkFSSamba j o) <$> m !! acc_ID a) by done. destruct (m !! acc_ID a) as [j|] eqn:Hj; rewrite He.
    + destruct (ValidateObservation j o) as [[]|] eqn:Hv; [|done]. injection H1 as <-. rewrite <- app_assoc. split; [done|]. split; [|done]. unfold entry_ok. cbn [fst snd]. by rewrite Hj.
    + apply refuse_Ok in H1 as [Hb [= <-]]. apply negb_false_iff in Hb. split; [done|]. split; [|done]. unfold entry_ok. cbn [fst snd]. by rewrite Hj.
Qed.
Lemma smb_journals_lookup l id j : NoDup ((λ j, journal_id j) <$> l) → smb_journals l !! id = Some j ↔ j ∈ l ∧ journal_id j = id.
Proof. intros HN. unfold smb_journals. rewrite (fold_insert_lookup (λ j, journal_id j) (λ j, j)) by done. rewrite lookup_empty. naive_solver. Qed.
Lemma omap_sublist {A B C} (g : A → option B) (f : B → C) (h : A → C) l : (∀ x y, g x = Some y → f y = h x) → (f <$> omap g l) `sublist_of` (h <$> l).
Proof.
  intros Hg. induction l as [|x l IH]; [constructor|]. cbn. destruct (g x) as [y|] eqn:Hx; cbn; [rewrite (Hg x y Hx); by constructor|by constructor].
Qed.

(** ** The evidence as a whole *)
Record shows (ev : FileServiceSnapshot) (r : Registry) (local : UnixIdentity.Snapshot) (native : list Journal) (samba : list SmbJournal) (obs : list Observation) : Prop := {
  sh_registry : fs_Registry ev = r;
  sh_native : fs_Native ev = Some native ∧ length native = length (elems (reg_Accounts r)) ∧ Forall (confirmed local) (zip (elems (reg_Accounts r)) native);
  sh_unix : ∃ rsv, UnixIdentity.Snapshot_Reservations local = Ok rsv ∧ fs_UIDs ev = rsv_UIDs rsv ∧ fs_GIDs ev = rsv_GIDs rsv ∧ fs_Names ev = rsv_Names rsv;
  sh_journals : Forall stable samba ∧ NoDup ((λ j, journal_id j) <$> samba) ∧ Forall (λ j, ∃ a, a ∈ elems (reg_Accounts r) ∧ same_identity (sj_Account j) a) samba;
  sh_obs : length obs = length (elems (reg_Accounts r)) ∧ Forall (entry_ok (smb_journals samba)) (zip (elems (reg_Accounts r)) obs);
  sh_samba : fs_Samba ev = Some (omap (entry (smb_journals samba)) (zip (elems (reg_Accounts r)) obs));
  sh_passdb : fs_Passdb ev = Some (zip_with (λ a o, mkFSPassdb (acc_ID a) o) (elems (reg_Accounts r)) obs) }.
Lemma snapshot_shows digest s n e f f' ev : fileServiceSnapshotLocked digest s n e f = (f', Ok ev) →
  ∃ r local native samba obs, sv_registry s = Some r ∧ shows ev r local native samba obs.
Proof.
  unfold fileServiceSnapshotLocked, nativeEvidenceLocked. destruct (scanSnapshot s) as [[[r native] samba]|] eqn:Hscan; [|done]. apply scan_samba in Hscan as [Hr HS].
  intros [= <- H]. apply res_bind_Ok in H as ([[[r' native'] samba'] rsv] & He & H). apply res_bind_Ok in He as (seen & Hst & He). apply res_bind_Ok in He as (rsv' & Hn & [= <- <- <- <-]).
  apply stable_Ok in Hst as [Hst HN]. apply observe_native_Ok in Hn as (local & Hl & Hlen & HC). apply res_bind_Ok in H as (obs & Ho & H). apply res_bind_Ok in H as (out & Hp & H).
  apply refuse_Ok in H as [_ [= <-]]. apply passdb_Ok in Hp as [-> HF]. exists r, local, native, samba, obs. split; [done|].
  assert (Hol : length obs = length (elems (reg_Accounts r))).
  { destruct (Z.ltb_spec 0 (len (elems (reg_Accounts r)))) as [Hp|Hp].
    - destruct (pe_observations e) as [l|]; [|done]. apply refuse_Ok in Ho as [Hc [= <-]]. rewrite negb_false_iff, Z.eqb_eq in Hc. unfold len in Hc. lia.
    - injection Ho as <-. unfold len in Hp. cbn. lia. }
  split; cbn [fs_Registry fs_Native fs_UIDs fs_GIDs fs_Names fs_Samba fs_Passdb]; try done. by exists rsv'.
Qed.

Lemma assessed_unix local rsv a first last : UnixIdentity.Snapshot_Reservations local = Ok rsv → good_account first last a → 1000 ≤ first → last ≤ 60000 →
  UnixIdentity.Snapshot_Assess local a = Ok UnixIdentity.Observed → acc_UID a ∈ elems (rsv_UIDs rsv) ∧ acc_GID a ∈ elems (rsv_GIDs rsv).
Proof.
  intros (Hv & [Hu Hg _ _ _ _] & _)%UnixIdentity.Snapshot_Reservations_Ok [G1 G2 G3 G4 G5] Hf Hl. unfold UnixIdentity.Snapshot_Assess. rewrite res_bind_Ok.
  rewrite UnixIdentity.Snapshot_Inspect_scan by (done || (unfold UnixIdentity.inspectable; split_and!; try done; lia)). intros (d & [= <-] & [= Hd]).
  destruct (existsb (UnixIdentity.user_bad a) _) eqn:Hb; [done|]. destruct (existsb (UnixIdentity.group_bad a) _); [done|]. cbn [orb UnixIdentity.as_Status] in Hd.
  destruct (existsb (λ u, equal_fold _ _) _) eqn:He; [|cbn [andb orb] in Hd; by destruct (existsb (UnixIdentity.own_group a) _)]. apply existsb_True in He as (u & Hin & Hfold). rewrite existsb_False in Hb. specialize (Hb u Hin).
  unfold UnixIdentity.user_bad in Hb. rewrite Hfold in Hb. go_bool in Hb. split; [apply Hu|apply Hg; left]; exists u; (split; [done|]); tauto.
Qed.
Section shown.
Context (ev : FileServiceSnapshot) (r : Registry) (local : UnixIdentity.Snapshot) (native : list Journal) (samba : list SmbJournal) (obs : list Observation).
Context (Hs : shows ev r local native samba obs) (Hr : wf_registry r).
Abbreviation accounts := (elems (reg_Accounts r)).
Lemma journal_of a j : a ∈ accounts → smb_journals samba !! acc_ID a = Some j → j ∈ samba ∧ same_identity (sj_Account j) a ∧ stable j.
Proof.
  intros Ha Hj. destruct (sh_journals _ _ _ _ _ _ Hs) as (HS & HN & HA). apply smb_journals_lookup in Hj as [Hin Hid]; [|done]. rewrite Forall_forall in HS, HA.
  split; [done|]. split; [|by apply HS]. destruct (HA j Hin) as (a' & Ha' & Hsame). replace a with a'; [done|]. apply (NoDup_fmap_inj acc_ID accounts); [apply (wr_ids _ Hr)|done..|]. destruct Hsame. congruence.
Qed.
Lemma zip_in {B} a (b : B) (l : list B) : (a, b) ∈ zip accounts l → a ∈ accounts.
Proof. intros H. by apply elem_of_zip_l in H. Qed.
Lemma observation_valid a o : (a, o) ∈ zip accounts obs → validOwnerObservation a o = true.
Proof.
  intros Hin. pose proof (zip_in _ _ _ Hin) as Ha. destruct (sh_obs _ _ _ _ _ _ Hs) as [_ HF]. rewrite Forall_forall in HF. specialize (HF _ Hin). unfold entry_ok in HF. cbn [fst snd] in HF.
  unfold validOwnerObservation. destruct (smb_journals samba !! acc_ID a) as [j|] eqn:Hj.
  - destruct (journal_of a j Ha Hj) as (_ & (_ & Hn & Hu & Hg) & _). unfold ValidateObservation in HF. apply refuse_Ok in HF as [Hv _]. rewrite orb_false_iff, !negb_false_iff in Hv. destruct Hv as [_ Hv].
    destruct (ob_Present o) eqn:Hp; cbn [negb].
    + apply SmbProvision.validateFor_present in Hv as (-> & -> & -> & Hsid & _); [|done]. rewrite Hn, Hu, Hg, !Z.eqb_refl, bool_decide_eq_true_2 by done. cbn [andb].
      apply negb_true_iff, bool_decide_eq_false. intros He. by rewrite He in Hsid.
    + apply bool_decide_eq_true. unfold SmbProvision.validateFor in Hv. rewrite Hp in Hv. cbn [negb] in Hv. destruct o. cbn in *. go_bool in Hv. destruct Hv as ((((-> & ->) & ->) & ->) & ->). by subst.
  - unfold blank in HF. destruct o as [p nm u g sd d]. cbn in *. go_bool in HF. destruct HF as (((((-> & ->) & ->) & ->) & ->) & ->). by cbn.
Qed.
Lemma owner_checks : for_range owner_step 0 tt (zip accounts (zip native (zip_with (λ a o, mkFSPassdb (acc_ID a) o) accounts obs))) = Ok tt.
Proof.
  apply (for_range_all (owner_step 0 tt)). intros [a [j p]] (i & Hi)%list_elem_of_lookup. apply lookup_zip_Some in Hi as [Ha Hi]. apply lookup_zip_Some in Hi as [Hj Hp].
  apply lookup_zip_with_Some in Hp as (a' & o & -> & Ha' & Ho). assert (a' = a) as -> by congruence.
  destruct (sh_native _ _ _ _ _ _ Hs) as (_ & _ & HC). rewrite Forall_forall in HC. destruct (HC (a, j)) as (Hv & Hph & Hsame & _); [apply list_elem_of_lookup; exists i; by apply lookup_zip_Some|]. cbn [fst snd] in *.
  unfold owner_step. cbn [fp_AccountID fp_Observation]. rewrite Hv, Hph, Hsame, !bool_decide_eq_true_2 by done. cbn [negb orb].
  rewrite observation_valid; [done|]. apply list_elem_of_lookup. exists i. by apply lookup_zip_Some.
Qed.
Lemma entry_ids : ((λ m, journal_id (fm_Journal m)) <$> omap (entry (smb_journals samba)) (zip accounts obs)) `sublist_of` (acc_ID <$> accounts).
Proof.
  assert (Hz : (acc_ID <$> accounts) = ((λ p : Account * Observation, acc_ID p.1) <$> zip accounts obs)).
  { rewrite <- (fst_zip accounts obs) at 1 by (destruct (sh_obs _ _ _ _ _ _ Hs) as [-> _]; done). by rewrite <- list_fmap_compose. }
  rewrite Hz. apply omap_sublist. intros [a o] m. unfold entry. cbn [fst snd]. destruct (smb_journals samba !! acc_ID a) as [j|] eqn:Hj; [|done]. intros [= <-]. cbn.
  destruct (sh_journals _ _ _ _ _ _ Hs) as (_ & HN & _). by apply smb_journals_lookup in Hj as [_ ?].
Qed.
Lemma samba_entries m : m ∈ elems (fs_Samba ev) ↔ ∃ a o, (a, o) ∈ zip accounts obs ∧ smb_journals samba !! acc_ID a = Some (fm_Journal m) ∧ fm_Observation m = o.
Proof.
  rewrite (sh_samba _ _ _ _ _ _ Hs). change (elems (Some ?l)) with l. rewrite list_elem_of_omap. split.
  - intros ([a o] & Hin & He). exists a, o. unfold entry in He. cbn [fst snd] in He. destruct (smb_journals samba !! acc_ID a); [|done]. by injection He as <-.
  - intros (a & o & Hin & Hj & Ho). exists (a, o). split; [done|]. unfold entry. cbn [fst snd]. rewrite Hj. cbn. subst o. by destruct m.
Qed.
Definition planned_identities : IdentitySnapshot :=
  mkIdentities true (reg_Revision r) (fs_Fingerprint ev) r (fs_UIDs ev) (fs_GIDs ev) (Some ((λ m, mkSambaIdentity (fm_Journal m) (fm_Observation m)) <$> elems (fs_Samba ev))) false.
Lemma planned_from_owner : fs_Fingerprint ev ≠ zero_fingerprint → identityFromOwnerEvidence ev = Ok planned_identities.
Proof.
  intros Hz. destruct Hs as [Hreg (Hn & Hlen & _) (rsv & Hrsv & Hu & Hg & Hnm) _ [Ho _] Hsm Hp]. apply UnixIdentity.Snapshot_Reservations_Ok in Hrsv as (_ & [_ _ _ (P1 & P2 & P3) _ _] & _).
  unfold identityFromOwnerEvidence, planned_identities. rewrite Hreg, Hn, Hu, Hg, Hnm, Hsm, Hp, P1, P2, P3, bool_decide_eq_false_2 by done.
  rewrite (proj2 (Registry_Validate_ok r) Hr). cbn [is_nil negb orb]. unfold slen, len. change (elems (Some ?l)) with l. rewrite Hlen, length_zip_with, Ho, Nat.min_id, Z.eqb_refl. cbn [negb orb].
  by rewrite owner_checks.
Qed.
Lemma planned_ok : fs_Fingerprint ev ≠ zero_fingerprint → slen (fs_UIDs ev) ≤ MaxUnixIdentities → slen (fs_GIDs ev) ≤ MaxUnixIdentities → identities_ok planned_identities.
Proof.
  intros Hz HU HG. destruct (sh_unix _ _ _ _ _ _ Hs) as (rsv & Hrsv & Eu & Eg & _). apply UnixIdentity.Snapshot_Reservations_Ok in Hrsv as (_ & [_ _ _ (P1 & P2 & _) _ (N1 & N2 & _)] & _).
  pose proof entry_ids as Hsub.
  split; cbn [planned_identities id_Complete id_Generation id_Fingerprint id_Registry id_UnixUIDs id_UnixGIDs id_Samba]; try done.
  - split_and!; [done|apply (wr_revision _ Hr)|done].
  - rewrite Eu, Eg. done.
  - split_and!; [done..|]. apply sublist_length in Hsub. rewrite !length_fmap in Hsub. pose proof (wr_records _ Hr) as Hrec. rewrite (sh_samba _ _ _ _ _ _ Hs). unfold slen, len in *.
    change (elems (Some ?l)) with l. change (elems (Some ?l)) with l. rewrite length_fmap. lia.
  - rewrite Eu, Eg. done.
  - change (elems (Some ?l)) with l. apply Forall_fmap, Forall_forall. intros m (a & o & Hin & Hj & _)%samba_entries. cbn. destruct (journal_of a _ (zip_in _ _ _ Hin) Hj) as (_ & Hsame & [Hv _]).
    split; [done|]. exists a. split; [by eapply zip_in|done].
  - change (elems (Some ?l)) with l. rewrite <- list_fmap_compose, (sh_samba _ _ _ _ _ _ Hs). change (elems (Some ?l)) with l. eapply sublist_NoDup; [apply (wr_ids _ Hr)|exact Hsub].
Qed.
Lemma planned_enabled a : a ∈ accounts →
  enabled_account planned_identities a ↔ ∃ m, m ∈ elems (fs_Samba ev) ∧ journal_id (fm_Journal m) = acc_ID a ∧ sj_Phase (fm_Journal m) = SmbProvision.Enabled.
Proof.
  intros Ha. split.
  - intros [_ (i & Hi & Hsame & Hph & _)]. cbn [planned_identities id_Samba] in Hi. change (elems (Some ?l)) with l in Hi. apply list_elem_of_fmap in Hi as (m & -> & Hm). exists m. split; [done|]. split; [apply Hsame|done].
  - intros (m & Hm & Hid & Hph). pose proof Hm as (a' & o & Hin & Hj & Ho)%samba_entries. destruct (journal_of a' _ (zip_in _ _ _ Hin) Hj) as (_ & Hsame & _).
    assert (a' = a) as -> by (apply (NoDup_fmap_inj acc_ID accounts); [apply (wr_ids _ Hr)|by eapply zip_in|done|]; destruct Hsame; congruence).
    destruct (sh_obs _ _ _ _ _ _ Hs) as [_ HF]. rewrite Forall_forall in HF. specialize (HF _ Hin). unfold entry_ok in HF. cbn [fst snd] in HF. rewrite Hj in HF.
    unfold ValidateObservation in HF. apply refuse_Ok in HF as [Hv HF]. rewrite orb_false_iff, !negb_false_iff in Hv. destruct Hv as [_ Hv]. rewrite Hph in HF. cbn in HF.
    apply refuse_Ok in HF as [Hc _]. rewrite !orb_false_iff, !negb_false_iff, bool_decide_eq_true in Hc. destruct Hc as ((Hpr & Hdis) & Hsid).
    apply SmbProvision.validateFor_present in Hv as (V1 & V2 & V3 & V4 & _); [|done]. destruct Hsame as (S1 & S2 & S3 & S4).
    destruct (sh_native _ _ _ _ _ _ Hs) as (_ & Hlen & HC). destruct (sh_unix _ _ _ _ _ _ Hs) as (rsv & Hrsv & Eu & Eg & _).
    apply list_elem_of_lookup in Ha as [i Hi]. destruct (lookup_lt_is_Some_2 native i) as [jn Hjn]; [apply lookup_lt_Some in Hi; lia|].
    rewrite Forall_forall in HC. destruct (HC (a, jn)) as (_ & _ & _ & Has); [apply list_elem_of_lookup; exists i; by apply lookup_zip_Some|].
    pose proof (wr_accounts _ Hr) as HGA. rewrite Forall_forall in HGA. pose proof (wr_window _ Hr) as (W1 & W2 & W3).
    split; [cbn; rewrite Eu, Eg; apply (assessed_unix local rsv a _ _ Hrsv (HGA a (list_elem_of_lookup_2 _ _ _ Hi))); done|].
    exists (mkSambaIdentity (fm_Journal m) (fm_Observation m)). split; [cbn [planned_identities id_Samba]; change (elems (Some ?l)) with l; by apply (list_elem_of_fmap_2 (λ m, mkSambaIdentity (fm_Journal m) (fm_Observation m)))|].
    cbn [si_Journal si_Observation]. split; [by split_and!|]. split; [done|]. rewrite Ho. cbn zeta. split_and!; try congruence. intros He. by rewrite He in V4.
Qed.
End shown.

(** C16: The planner accepts what the identity owner shows: evidence with a digest other than zero and at most 4096 users and groups becomes an identity
    snapshot that passes the planner's own checks, under the registry's revision; and an account then counts as enabled for a plan exactly when its Samba journal
    says so, because the owner has already confirmed it against the local files and against Samba's database. *)
Theorem owner_evidence_planned digest s n e f f' ev : fileServiceSnapshotLocked digest s n e f = (f', Ok ev) →
  is_ok (Registry_Validate (fs_Registry ev)) = true → fs_Fingerprint ev ≠ zero_fingerprint → slen (fs_UIDs ev) ≤ MaxUnixIdentities → slen (fs_GIDs ev) ≤ MaxUnixIdentities →
  ∃ ids, identityFromOwnerEvidence ev = Ok ids ∧ validateIdentitySnapshot ids = Ok tt ∧ id_Generation ids = reg_Revision (fs_Registry ev) ∧ id_Registry ids = fs_Registry ev
    ∧ ∀ a, a ∈ elems (reg_Accounts (fs_Registry ev)) →
        enabled_account ids a ↔ ∃ m, m ∈ elems (fs_Samba ev) ∧ journal_id (fm_Journal m) = acc_ID a ∧ sj_Phase (fm_Journal m) = SmbProvision.Enabled.
Proof.
  intros (r & local & native & samba & obs & _ & Hs)%snapshot_shows Hv Hz HU HG. rewrite (sh_registry _ _ _ _ _ _ Hs) in *. apply Registry_Validate_ok in Hv.
  exists (planned_identities ev r). split; [by apply (planned_from_owner ev r local native samba obs)|]. split; [by apply identities_Ok, (planned_ok ev r local native samba obs)|].
  split; [done|]. split; [done|]. intros a Ha. by apply (planned_enabled ev r local native samba obs).
Qed.

(** ** Evidence of one account and one volume *)
Definition sample_native : Journal := IdentityProvision.mkJournal IdentityProvision.JournalFormat 1 5 2 (mkAccount "writer" "alice" 1001 1001 Disabled) UnixConfirmed.
Definition sample_account_env (_ : Z) : account_env := mkAccountEnv true true (Some sample_native) (ChildPresent true true (Some sample_journal)).
Definition sample_scan : scan_env := mkScanEnv (Some (id_Registry sample_identities)) (Some ["writer"]) sample_account_env.
Definition sample_local : UnixIdentity.Snapshot :=
  UnixIdentity.mkSnapshot true [UnixIdentity.mkUnixUser "root" 0 0; UnixIdentity.mkUnixUser "alice" 1001 1001] [UnixIdentity.mkUnixGroup "root" 0 []; UnixIdentity.mkUnixGroup "alice" 1001 []].
Definition sample_native_env : native_env := mkNativeEnv true (λ _, true) true (Some sample_local).
Definition sample_passdb : passdb_env := mkPassdbEnv (Some [mkObservation true "alice" 1001 1001 sample_sid false]) (λ _, true) true.
Definition sample_digest (_ : Registry) (_ : list Journal) (_ : Reservations) (_ : list FileServiceSamba) (_ : list FileServicePassdb) : list Z := replicate 32 7.
Lemma owner_evidence_planned_witness : ∃ ev ids, fileServiceSnapshotLocked sample_digest sample_scan sample_native_env sample_passdb false = (false, Ok ev)
  ∧ identityFromOwnerEvidence ev = Ok ids ∧ validateIdentitySnapshot ids = Ok tt.
Proof.
  destruct (fileServiceSnapshotLocked sample_digest sample_scan sample_native_env sample_passdb false) as [f' [ev|]] eqn:He; [|vm_compute in He; discriminate].
  destruct (owner_evidence_planned sample_digest sample_scan sample_native_env sample_passdb false f' ev He) as (ids & H1 & H2 & _).
  - vm_compute in He. injection He as <- <-. vm_compute. reflexivity.
  - vm_compute in He. injection He as <- <-. vm_compute. discriminate.
  - vm_compute in He. injection He as <- <-. vm_compute. discriminate.
  - vm_compute in He. injection He as <- <-. vm_compute. discriminate.
  - exists ev, ids. split; [|split; [exact H1|exact H2]]. vm_compute in He. injection He as <- <-. reflexivity.
Defined.
Lemma owner_storage_planned_witness : ∃ m w m' ev, MountedSet.sample_set = Ok m
  ∧ MountedSet.observeLocked MountedSet.sample_hash MountedSet.sample_env m (MountOwner.sample_run true) = (w, m', Ok ev) ∧ is_ok (StorageFromMountedOwnerSet ev) = true.
Proof.
  destruct MountedSet.sample_set as [m|] eqn:Hm; [|vm_compute in Hm; discriminate].
  destruct (MountedSet.observeLocked MountedSet.sample_hash MountedSet.sample_env m (MountOwner.sample_run true)) as [[w m'] [ev|]] eqn:Ho.
  - exists m, w, m', ev. split; [reflexivity|]. split; [exact Ho|].
    apply (proj1 (owner_storage_planned MountedSet.sample_hash MountedSet.sample_env m [] (MountOwner.sample_run true) w m' ev (SetLeases.sample_made m Hm)
      (MountedSet.obs_start _ m ltac:(vm_compute in Hm; injection Hm as <-; reflexivity)) Ho ltac:(vm_compute in Hm; injection Hm as <-; vm_compute in Ho; injection Ho as <- <- <-; vm_compute; discriminate))).
    vm_compute in Hm. injection Hm as <-. vm_compute in Ho. injection Ho as <- <- <-. constructor; [vm_compute; discriminate|constructor].
  - exfalso. vm_compute in Hm. injection Hm as <-. vm_compute in Ho. discriminate.
Defined.
End OwnerEvidence.
