(* ===== verification/OwnerLeases.v ===== *)
(** * Leases on the identity evidence

    [identityowner/fileservice_lease_linux.go] and [fileservice_disable_linux.go]: a
    consumer retains the evidence of [OwnerEvidence.v] by its digest, the owner stays
    open as long as it does, and disabling one Samba account hands the lease over.
    [Close] of [owner_linux.go] is here too; the enrolment lookup of
    [internal/fileserviceplan/samba_enrollment_linux.go] is the other consumer.  The
    observations are those of [OwnerEvidence.v]; what the stores, the context and
    Samba answer are arguments. *)

From S2P Require Import Prelude GoStrings Shares GoPath Accounts Unix Store Register NativeJournal SambaJournal HashInput SambaNss FilePlan OwnerEvidence.

Module OwnerLeases.
Import GoPath ServiceAccounts SambaNss FilePlan OwnerEvidence.
Import IdentityProvision(Journal, jn_Account, jn_Phase, jn_Revision, jn_RegistryRevision, Journal_Validate, UnixConfirmed).
Import SmbProvision(SmbJournal, mkSmbJournal, sj_Format, sj_SchemaVersion, sj_Revision, sj_SID, sj_Account, sj_Phase, sj_NativeRevision, SmbJournal_Validate, Observation, ob_Present, ob_Name, ob_UID, ob_GID, ob_SID, ob_Disabled, mkObservation).

(** ** [onlySMBDisableChanged] *)
#[local] Existing Instance IdentityProvision.Journal_eq_dec.
#[local] Existing Instance SmbProvision.SmbJournal_eq_dec.
#[export] Instance FileServiceSamba_eq_dec : EqDecision FileServiceSamba. Proof. solve_decision. Defined.
#[export] Instance FileServicePassdb_eq_dec : EqDecision FileServicePassdb. Proof. solve_decision. Defined.
Definition disable_journal (j : SmbJournal) : SmbJournal :=
  mkSmbJournal (sj_Format j) (sj_SchemaVersion j) (u64_add (sj_Revision j) 2) (sj_NativeRevision j) (sj_Account j) (sj_SID j) SmbProvision.Disabled.
Definition disable_observation (o : Observation) : Observation := mkObservation (ob_Present o) (ob_Name o) (ob_UID o) (ob_GID o) (ob_SID o) true.
Definition samba_change (id : string) (st : bool * list FileServiceSamba) (m : FileServiceSamba) : res unit (bool * list FileServiceSamba) :=
  if acc_ID (sj_Account (fm_Journal m)) != id then Ok (st.1, st.2 ++ [m])
  else refuse st.1 || (sj_Phase (fm_Journal m) != SmbProvision.Enabled) || ob_Disabled (fm_Observation m) || (max_uint64 - 2 <? sj_Revision (fm_Journal m)) => tt ;;
       Ok (true, st.2 ++ [mkFSSamba (disable_journal (fm_Journal m)) (disable_observation (fm_Observation m))]).
Definition passdb_change (id : string) (st : bool * list FileServicePassdb) (p : FileServicePassdb) : res unit (bool * list FileServicePassdb) :=
  if fp_AccountID p != id then Ok (st.1, st.2 ++ [p])
  else refuse st.1 || negb (ob_Present (fp_Observation p)) || ob_Disabled (fp_Observation p) => tt ;;
       Ok (true, st.2 ++ [mkFSPassdb (fp_AccountID p) (disable_observation (fp_Observation p))]).
(** [append([]T(nil), l...)] is nil when [l] is empty *)
Definition appended {A} (l : list A) : slice A := match l with [] => None | _ => Some l end.
Definition onlySMBDisableChanged (before after : FileServiceSnapshot) (id : string) : bool :=
  match for_range (λ _, samba_change id) 0 (false, []) (elems (fs_Samba before)), for_range (λ _, passdb_change id) 0 (false, []) (elems (fs_Passdb before)) with
  | Ok (journalFound, samba), Ok (passdbFound, passdb) =>
    if negb journalFound || negb passdbFound || (fs_Fingerprint before == fs_Fingerprint after) || (fs_Fingerprint after == zero_fingerprint) then false
    else (fs_Registry before == fs_Registry after) && (fs_Native before == fs_Native after) && (fs_UIDs before == fs_UIDs after) && (fs_GIDs before == fs_GIDs after)
         && (fs_Names before == fs_Names after) && (appended samba == fs_Samba after) && (appended passdb == fs_Passdb after)
  | _, _ => false
  end.


Section digest.
Context (digest : Registry → list Journal → Reservations → list FileServiceSamba → list FileServicePassdb → list Z).

End digest.

(** ** The enrolment lookup *)
Record NativeLookupSnapshot := mkNativeLookup {
  nl_Registry : Registry; nl_Native : slice Journal; nl_Samba : slice SmbJournal; nl_UIDs : slice Z; nl_GIDs : slice Z; nl_Names : slice string; nl_Fingerprint : list Z }.
(** [WithNativeLookupSnapshot], up to its callback *)
Definition nativeLookup (digest : Registry → list Journal → list SmbJournal → Reservations → list Z) (s : scan_env) (n : native_env) (live failed : bool) :
    bool * res owner_error NativeLookupSnapshot :=
  let '(failed, r) := nativeEvidenceLocked s n failed in
  (failed, '(registry, native, samba, reserved) ← r;
           refuse negb live => ErrUnavailable ;;
           Ok (mkNativeLookup registry (Some native) (Some samba) (rsv_UIDs reserved) (rsv_GIDs reserved) (rsv_Names reserved) (digest registry native samba reserved))).
Record SambaEnrollmentLookup := mkEnrollment { sl_files : lookupDocuments; sl_fingerprint : list Z }.
Definition enrolled_step (ev : NativeLookupSnapshot) (native : gmap string Journal) (p : Account * Journal) : res plan_error (gmap string Journal) :=
  let '(account, journal) := p in
  refuse (acc_State account == Retired) || negb (Journal_Validate journal) || (jn_Phase journal != UnixConfirmed) || negb (sameAccountIdentity (jn_Account journal) account)
         || negb (acc_UID account ∈? elems (nl_UIDs ev)) || negb (acc_GID account ∈? elems (nl_GIDs ev)) || negb (acc_Name account ∈? elems (nl_Names ev)) => ErrInvalidEvidence ;;
  Ok (<[acc_ID account := journal]> native).
Definition stable_phase (phase : string) : bool :=
  (phase == SmbProvision.Reserved) || (phase == SmbProvision.DisabledNoPassword) || (phase == SmbProvision.CredentialSetDisabled) || (phase == SmbProvision.Enabled) || (phase == SmbProvision.Disabled).
Definition journal_step (native : gmap string Journal) (seen : gset string) (j : SmbJournal) : res plan_error (gset string) :=
  match native !! acc_ID (sj_Account j) with
  | None => Err ErrInvalidEvidence
  | Some confirmed =>
    refuse (acc_ID (sj_Account j) ∈? seen) || negb (SmbJournal_Validate j) || negb (sameAccountIdentity (sj_Account j) (jn_Account confirmed))
           || negb (sj_NativeRevision j =? jn_Revision confirmed) => ErrInvalidEvidence ;;
    refuse negb (stable_phase (sj_Phase j)) => ErrNotReady ;;
    Ok ({[acc_ID (sj_Account j)]} ∪ seen)
  end.
Definition sambaEnrollmentFromEvidence (ev : NativeLookupSnapshot) : res plan_error SambaEnrollmentLookup :=
  let accounts := reg_Accounts (nl_Registry ev) in
  refuse negb (is_ok (Registry_Validate (nl_Registry ev))) || (nl_Fingerprint ev == zero_fingerprint) || is_nil (nl_Native ev) || is_nil (nl_Samba ev) || is_nil (nl_UIDs ev)
         || is_nil (nl_GIDs ev) || is_nil (nl_Names ev) || negb (slen (nl_Native ev) =? slen accounts) || (MaxLive <? slen accounts)
         || (65536 <? slen (nl_UIDs ev)) || (65536 <? slen (nl_GIDs ev)) || (65536 <? slen (nl_Names ev)) => ErrNotReady ;;
  native ← for_range (λ _, enrolled_step ev) 0 ∅ (zip (elems accounts) (elems (nl_Native ev)));
  _ ← for_range (λ _, journal_step native) 0 ∅ (elems (nl_Samba ev));
  '(passwd, group, nss) ← renderNativeSambaNSS accounts;
  Ok (mkEnrollment (mkLookup passwd group nss) (nl_Fingerprint ev)).
Definition LookupDocuments (l : SambaEnrollmentLookup) : res plan_error lookupDocuments :=
  refuse (sl_fingerprint l == zero_fingerprint) || (lk_passwd (sl_files l) == "") || (lk_group (sl_files l) == "") || (lk_nss (sl_files l) == "") => ErrNotReady ;;
  Ok (sl_files l).

(** ** One change and nothing else *)
Section change.
Context {A : Type} (mine bad : A → bool) (f : A → A).
Definition change (st : bool * list A) (x : A) : res unit (bool * list A) :=
  if negb (mine x) then Ok (st.1, st.2 ++ [x]) else refuse st.1 || bad x => tt ;; Ok (true, st.2 ++ [f x]).
(** [k] is [l] with its only element of this kind changed *)
Definition one_changed (l k : list A) : Prop :=
  ∃ l1 x l2, l = l1 ++ x :: l2 ∧ Forall (λ y, mine y = false) (l1 ++ l2) ∧ mine x = true ∧ bad x = false ∧ k = l1 ++ f x :: l2.
Lemma change_loop i b acc l found out : for_range (λ _, change) i (b, acc) l = Ok (found, out) ↔
  (Forall (λ y, mine y = false) l ∧ found = b ∧ out = acc ++ l) ∨ (b = false ∧ found = true ∧ ∃ k, one_changed l k ∧ out = acc ++ k).
Proof.
  revert i b acc. induction l as [|x l IH]; intros i b acc.
  - cbn. split; [intros [= <- <-]; left; rewrite app_nil_r; done|]. intros [(_ & -> & ->)|(_ & _ & k & (l1 & y & l2 & He & _) & _)]; [by rewrite app_nil_r|]. by destruct l1.
  - rewrite for_range_cons_Ok. unfold change at 1. cbn [fst snd]. destruct (mine x) eqn:Hm; cbn [negb].
    + split.
      * intros (s1 & [Hb [= <-]]%refuse_Ok & Hl). apply orb_false_iff in Hb as [-> Hb]. apply IH in Hl as [(HF & -> & ->)|(? & _)]; [|done]. right. split; [done|]. split; [done|].
        exists (f x :: l). split; [exists [], x, l; done|by rewrite <- app_assoc].
      * intros [(HF & _)|(-> & -> & k & (l1 & y & l2 & He & HF & Hy & Hb & ->) & ->)]; [by inv HF; congruence|].
        destruct l1 as [|z l1]; injection He as <- ->; [|cbn in HF; inv HF; congruence].
        exists (true, acc ++ [f x]). rewrite Hb. cbn [orb]. split; [done|]. apply IH. left. cbn in HF. by rewrite <- app_assoc.
    + split.
      * intros (s1 & [= <-] & Hl). apply IH in Hl as [(HF & -> & ->)|(-> & -> & k & (l1 & y & l2 & -> & HF & Hy & Hb & ->) & ->)].
        -- left. rewrite <- app_assoc. split; [by constructor|done].
        -- right. split; [done|]. split; [done|]. exists (x :: l1 ++ f y :: l2). split; [|by rewrite <- app_assoc]. exists (x :: l1), y, l2. split_and!; try done. cbn. by constructor.
      * intros H. exists (b, acc ++ [x]). split; [done|]. apply IH. destruct H as [(HF & -> & ->)|(-> & -> & k & (l1 & y & l2 & He & HF & Hy & Hb & ->) & ->)].
        -- left. inv HF. by rewrite <- app_assoc.
        -- right. split; [done|]. split; [done|]. destruct l1 as [|z l1]; injection He as <- ->; [congruence|]. cbn in HF. inv HF. exists (l1 ++ f y :: l2). split; [by exists l1, y, l2|by rewrite <- app_assoc].
Qed.
Lemma change_found l out : for_range (λ _, change) 0 (false, []) l = Ok (true, out) ↔ one_changed l out.
Proof. rewrite change_loop. split; [intros [(_ & ? & _)|(_ & _ & k & Hk & ->)]; done|]. intros H. right. by eauto. Qed.
End change.
Definition samba_mine (id : string) (m : FileServiceSamba) : bool := acc_ID (sj_Account (fm_Journal m)) == id.
Definition samba_bad (m : FileServiceSamba) : bool :=
  (sj_Phase (fm_Journal m) != SmbProvision.Enabled) || ob_Disabled (fm_Observation m) || (max_uint64 - 2 <? sj_Revision (fm_Journal m)).
Definition samba_disabled (m : FileServiceSamba) : FileServiceSamba := mkFSSamba (disable_journal (fm_Journal m)) (disable_observation (fm_Observation m)).
Definition passdb_mine (id : string) (p : FileServicePassdb) : bool := fp_AccountID p == id.
Definition passdb_bad (p : FileServicePassdb) : bool := negb (ob_Present (fp_Observation p)) || ob_Disabled (fp_Observation p).
Definition passdb_disabled (p : FileServicePassdb) : FileServicePassdb := mkFSPassdb (fp_AccountID p) (disable_observation (fp_Observation p)).
Record disabled_only (before after : FileServiceSnapshot) (id : string) : Prop := {
  do_same : fs_Registry after = fs_Registry before ∧ fs_Native after = fs_Native before ∧ fs_UIDs after = fs_UIDs before ∧ fs_GIDs after = fs_GIDs before ∧ fs_Names after = fs_Names before;
  do_samba : ∃ k, fs_Samba after = Some k ∧ one_changed (samba_mine id) samba_bad samba_disabled (elems (fs_Samba before)) k;
  do_passdb : ∃ k, fs_Passdb after = Some k ∧ one_changed (passdb_mine id) passdb_bad passdb_disabled (elems (fs_Passdb before)) k;
  do_digest : fs_Fingerprint after ≠ fs_Fingerprint before ∧ fs_Fingerprint after ≠ zero_fingerprint }.
Lemma samba_loop id st l : for_range (λ _, samba_change id) 0 st l = for_range (λ _, change (samba_mine id) samba_bad samba_disabled) 0 st l.
Proof. apply for_range_ext. intros j s x _. unfold samba_change, change, samba_bad, samba_mine, samba_disabled. by rewrite !orb_assoc. Qed.
Lemma passdb_loop id st l : for_range (λ _, passdb_change id) 0 st l = for_range (λ _, change (passdb_mine id) passdb_bad passdb_disabled) 0 st l.
Proof. apply for_range_ext. intros j s x _. unfold passdb_change, change, passdb_bad, passdb_mine, passdb_disabled. by rewrite !orb_assoc. Qed.
Lemma one_changed_appended {A} mine bad (f : A → A) l k : one_changed mine bad f l k → appended k = Some k.
Proof. intros (l1 & x & l2 & _ & _ & _ & _ & ->). by destruct l1. Qed.

(** C22: The check that follows the disabling of one Samba account accepts the new evidence exactly when it is the old one with this account disabled: its one
    journal moved from enabled to disabled with its revision two higher, its one entry of Samba's database disabled, and everything else, the order of the lists
    included, as it was; only the digest has to differ. *)
Theorem disable_changes_only before after id : onlySMBDisableChanged before after id = true ↔ disabled_only before after id.
Proof.
  unfold onlySMBDisableChanged. rewrite samba_loop, passdb_loop. split.
  - destruct (for_range _ 0 _ (elems (fs_Samba before))) as [[jf samba]|] eqn:Hs; [|done]. destruct (for_range _ 0 _ (elems (fs_Passdb before))) as [[pf passdb]|] eqn:Hp; [|done].
    destruct (_ || _) eqn:Hc; [done|]. rewrite !orb_false_iff, !negb_false_iff, !bool_decide_eq_false in Hc. destruct Hc as (((-> & ->) & Hd) & Hz).
    apply change_found in Hs, Hp. rewrite (one_changed_appended _ _ _ _ _ Hs), (one_changed_appended _ _ _ _ _ Hp), !andb_true_iff, !bool_decide_eq_true.
    intros ((((((E1 & E2) & E3) & E4) & E5) & E6) & E7). split; [by rewrite E1, E2, E3, E4, E5|by exists samba|by exists passdb|]. split; [|done]. intros He. by apply Hd.
  - intros [(E1 & E2 & E3 & E4 & E5) (ks & Es & Hs) (kp & Ep & Hp) [Hd Hz]]. pose proof (one_changed_appended _ _ _ _ _ Hs) as As. pose proof (one_changed_appended _ _ _ _ _ Hp) as Ap.
    apply change_found in Hs, Hp. rewrite Hs, Hp. cbn [negb orb]. rewrite (bool_decide_eq_false_2 (_ = fs_Fingerprint after)), (bool_decide_eq_false_2 (fs_Fingerprint after = _)) by (done || (intros He; by apply Hd)).
    cbn [orb]. by rewrite As, Ap, E1, E2, E3, E4, E5, Es, Ep, !bool_decide_eq_true_2.
Qed.

(** ** Runs of the leases *)
Section runs.
Context (digest : Registry → list Journal → Reservations → list FileServiceSamba → list FileServicePassdb → list Z).



End runs.


(** ** What the enrolment lookup lists *)
Lemma enrolled_loop ev i m l out : for_range (λ _, enrolled_step ev) i m l = Ok out →
  Forall (λ p : Account * Journal, acc_State p.1 ≠ Retired ∧ jn_Phase p.2 = UnixConfirmed ∧ same_identity (jn_Account p.2) p.1) l.
Proof.
  revert i m. induction l as [|[a j] l IH]; intros i m; [constructor|]. rewrite for_range_cons_Ok. intros (m1 & H1 & H2). constructor; [|by eapply IH].
  unfold enrolled_step in H1. apply refuse_Ok in H1 as [Hc _]. rewrite !orb_false_iff, !negb_false_iff, bool_decide_eq_false, sameAccountIdentity_true, bool_decide_eq_true in Hc. cbn [fst snd]. tauto.
Qed.
(** the files of an enrolment name exactly the accounts of the registry, each of which has a confirmed native identity *)
Lemma enrollment_lists ev l : sambaEnrollmentFromEvidence ev = Ok l →
  UnixIdentity.Parse (file (lk_passwd (sl_files l))) (file (lk_group (sl_files l))) = Ok (lookup_snapshot (elems (reg_Accounts (nl_Registry ev))))
  ∧ ∀ a, a ∈ elems (reg_Accounts (nl_Registry ev)) → acc_State a ≠ Retired ∧ ∃ j, j ∈ elems (nl_Native ev) ∧ jn_Phase j = UnixConfirmed ∧ same_identity (jn_Account j) a.
Proof.
  unfold sambaEnrollmentFromEvidence. rewrite refuse_Ok. intros [Hc H]. apply res_bind_Ok in H as (native & Hn & H). apply res_bind_Ok in H as (seen & _ & H). apply res_bind_Ok in H as ([[passwd grp] nss] & Hr & [= <-]).
  apply render_Ok in Hr as [Hl He]. cbn [sl_files lk_passwd lk_group]. injection He as -> -> _. split; [by apply files_parse|].
  apply enrolled_loop in Hn. intros a [i Hi]%list_elem_of_lookup. rewrite !orb_false_iff, !negb_false_iff, Z.eqb_eq in Hc. assert (Hlen : length (elems (nl_Native ev)) = length (elems (reg_Accounts (nl_Registry ev)))) by (unfold slen, len in Hc; lia).
  destruct (lookup_lt_is_Some_2 (elems (nl_Native ev)) i) as [j Hj]; [apply lookup_lt_Some in Hi; lia|]. rewrite Forall_forall in Hn.
  destruct (Hn (a, j)) as (Hs & Hp & Hsame); [apply list_elem_of_lookup; exists i; by apply lookup_zip_Some|]. cbn [fst snd] in *. split; [done|]. exists j. split; [by eapply list_elem_of_lookup_2|done].
Qed.
End OwnerLeases.
