(* ===== verification/ServiceRuntime.v ===== *)
(** * Services on a storage handoff

    [internal/mountowner/service_linux.go]: one fixed set of processes around one
    storage handoff.  The handoff and the processes are interfaces there; what they
    answer is an argument here, and every call is an event of the trace. *)

From S2P Require Import Prelude GoStrings Shares GoPath MountOwner.

Module ServiceRuntime.
Import GoPath.

(** ** Data *)
Inductive runtime_error := ErrServiceRuntimeInvalid | ErrServiceRuntimeUnavailable | ErrServiceRuntimeReview | ErrCause.
#[export] Instance runtime_error_eq_dec : EqDecision runtime_error. Proof. solve_decision. Defined.
Inductive ServiceRuntimeState := RuntimePrepared | RuntimeStarting | RuntimeReady | RuntimeStopping | RuntimeReview | RuntimeStopped.
#[export] Instance ServiceRuntimeState_eq_dec : EqDecision ServiceRuntimeState. Proof. solve_decision. Defined.
(** the states of [processowner.Set] that matter here *)
Inductive process_state := StateReady | StateStopped | StateReviewRequired | StateOther.
#[export] Instance process_state_eq_dec : EqDecision process_state. Proof. solve_decision. Defined.
(** a failed call of the processes: needs review, or not *)
Inductive process_error := ProcessReview | ProcessError.
#[export] Instance process_error_eq_dec : EqDecision process_error. Proof. solve_decision. Defined.
Record ServicePathBinding := mkPathBinding {
  pb_ShareID : string; pb_VolumeID : string; pb_FilesystemUUID : string; pb_SourcePath : string; pb_SourceMountID : Z; pb_DeviceMajor : Z; pb_DeviceMinor : Z;
  pb_RelativePath : string; pb_ReadOnly : bool; pb_Path : string }.
(** calls: what the processes answer to [Start], and whether [Stop] confirms that all are stopped *)
Inductive event := HandoffMount | HandoffBindings | HandoffVerify | ProcessStart (running : bool) | ProcessObserve | ProcessStop (stopped : bool) | HandoffClose.
Record ServiceRuntime := mkRuntime {
  sr_state : ServiceRuntimeState; sr_processesStarted : bool; sr_stopAttempted : bool; sr_closeAttempted : bool; sr_trace : list event }.

(** ** [validServiceBindings] *)
Definition Base (path : string) : string :=
  if path == "" then "." else default "/" (last (filter (λ w, w ≠ "") (split_on "/" path))).
Definition validHandoffShareID (value : string) : bool :=
  if (slength value =? 0) || (64 <? slength value) || (byte_at value 0 <? 97) || (122 <? byte_at value 0) then false
  else forallb (λ c, is_lower c || is_digit c || (c =? 45)) (tail (codes value)).
Definition validHandoffRelativePath (value : string) : bool :=
  if (slength value =? 0) || (1024 <? slength value) || (value == ".") || negb (utf8_valid value) || negb (ValidPath value)
     || contains_any value "\:" || (0 ∈? runes value) then false
  else forallb (λ c, negb ((c <? 32) || (c =? 127))) (runes value).
Definition bad_binding (b : ServicePathBinding) : bool :=
  negb (validHandoffShareID (pb_ShareID b)) || negb (MountOwner.validVolumeID (pb_VolumeID b)) || negb (validHandoffRelativePath (pb_RelativePath b)) || negb (IsAbs (pb_Path b))
  || (Clean (pb_Path b) != pb_Path b) || (Base (pb_Path b) != pb_ShareID b) || (pb_SourceMountID b =? 0) || (pb_DeviceMajor b =? 0).
Fixpoint adjacent (ids : list string) : bool :=
  match ids with
  | a :: ((b :: _) as rest) => (a == b) || adjacent rest
  | _ => false
  end.
Definition binding_step (st : gset string * list string) (b : ServicePathBinding) : res unit (gset string * list string) :=
  refuse bad_binding b || (pb_Path b ∈? st.1) => tt ;; Ok ({[pb_Path b]} ∪ st.1, st.2 ++ [pb_ShareID b]).
Definition validServiceBindings (bindings : list ServicePathBinding) : bool :=
  if len bindings =? 0 then false
  else match for_range (λ _, binding_step) 0 (∅, []) bindings with
       | Ok (_, ids) => negb (adjacent (sort_by (λ id, id) ids))
       | Err _ => false
       end.

(** ** Operations *)
Definition call (e : event) (r : ServiceRuntime) : ServiceRuntime := mkRuntime (sr_state r) (sr_processesStarted r) (sr_stopAttempted r) (sr_closeAttempted r) (sr_trace r ++ [e]).
Definition set_state (s : ServiceRuntimeState) (r : ServiceRuntime) : ServiceRuntime := mkRuntime s (sr_processesStarted r) (sr_stopAttempted r) (sr_closeAttempted r) (sr_trace r).
Definition set_started (b : bool) (r : ServiceRuntime) : ServiceRuntime := mkRuntime (sr_state r) b (sr_stopAttempted r) (sr_closeAttempted r) (sr_trace r).
Definition set_stop (r : ServiceRuntime) : ServiceRuntime := mkRuntime (sr_state r) (sr_processesStarted r) true (sr_closeAttempted r) (sr_trace r).
Definition set_close (r : ServiceRuntime) : ServiceRuntime := mkRuntime (sr_state r) (sr_processesStarted r) (sr_stopAttempted r) true (sr_trace r).

(** [newServiceRuntime] *)
Definition newServiceRuntime : ServiceRuntime := mkRuntime RuntimePrepared false false false [].
(** [NewServiceRuntime]: [members] when every process runs as a user other than root in the handoff's group; whether the handoff is claimed, before and after *)
Definition NewServiceRuntime (members claimed : bool) : bool * res runtime_error ServiceRuntime :=
  if negb members then (claimed, Err ErrServiceRuntimeInvalid)
  else if claimed then (true, Err ErrServiceRuntimeInvalid)
  else (true, Ok newServiceRuntime).

Definition stateErrorLocked (r : ServiceRuntime) : runtime_error := if sr_state r == RuntimeReview then ErrServiceRuntimeReview else ErrServiceRuntimeUnavailable.
(** [close]: whether the handoff closes *)
Definition closeHandoffOnceLocked (close : bool) (r : ServiceRuntime) : ServiceRuntime * bool :=
  if sr_closeAttempted r then (r, false) else (call HandoffClose (set_close r), close).
Definition finishUnstartedLocked (close : bool) (cause : runtime_error) (r : ServiceRuntime) : ServiceRuntime * res runtime_error unit :=
  let '(r, ok) := closeHandoffOnceLocked close r in
  if negb ok then (set_state RuntimeReview r, Err ErrServiceRuntimeReview) else (set_state RuntimeStopped r, Err cause).
(** the answer to [Stop]: an error, or the state of the set *)
Record stop_env := mkStop { se_answer : res process_error process_state; se_close : bool }.
Definition stopped (e : stop_env) : bool := match se_answer e with Ok s => s == StateStopped | Err _ => false end.
Definition stopForReviewLocked (e : stop_env) (r : ServiceRuntime) : ServiceRuntime * res runtime_error unit :=
  if sr_stopAttempted r then (set_state RuntimeReview r, Err ErrServiceRuntimeReview)
  else
    let finish r := let '(r, _) := closeHandoffOnceLocked (se_close e) (set_stop r) in (set_state RuntimeReview r, Err ErrServiceRuntimeReview) in
    if sr_processesStarted r then
      let r := call (ProcessStop (stopped e)) (set_stop r) in
      if negb (stopped e) then (set_state RuntimeReview r, Err ErrServiceRuntimeReview) else finish (set_started false r)
    else finish r.

Definition stopAndCloseLocked (e : stop_env) (r : ServiceRuntime) : ServiceRuntime * res runtime_error unit :=
  let finish r := let '(r, ok) := closeHandoffOnceLocked (se_close e) (set_stop r) in
                  if negb ok then (set_state RuntimeReview r, Err ErrServiceRuntimeReview) else (set_state RuntimeStopped r, Ok tt) in
  if sr_processesStarted r then
    if sr_stopAttempted r then (set_state RuntimeReview r, Err ErrServiceRuntimeReview)
    else
      let r := call (ProcessStop (stopped e)) (set_stop r) in
      if negb (stopped e) then (set_state RuntimeReview r, Err ErrServiceRuntimeReview) else finish (set_started false r)
  else finish r.

(** [bindings]: what [Bindings] returns; [start]: the error of [Start], if any, with the state of the set *)
Record start_env := mkStart {
  st_mount : bool; st_bindings : option (list ServicePathBinding); st_verify : bool; st_start : option process_error * process_state; st_again : bool; st_stop : stop_env }.
(** the processes may be running after [Start] *)
Definition may_run_after (start : option process_error * process_state) : bool :=
  match start with (Some ProcessError, StateStopped) => false | _ => true end.
Definition Start (e : start_env) (r : ServiceRuntime) : ServiceRuntime * res runtime_error unit :=
  if sr_state r != RuntimePrepared then (r, Err (stateErrorLocked r))
  else
    let close := se_close (st_stop e) in
    let r := call HandoffMount (set_state RuntimeStarting r) in
    if negb (st_mount e) then finishUnstartedLocked close ErrCause r
    else
      let r := call HandoffBindings r in
      match st_bindings e with
      | None => finishUnstartedLocked close ErrCause r
      | Some bindings =>
        if negb (validServiceBindings bindings) then finishUnstartedLocked close ErrServiceRuntimeInvalid r
        else
          let r := call HandoffVerify r in
          if negb (st_verify e) then finishUnstartedLocked close ErrCause r
          else
            let r := call (ProcessStart (may_run_after (st_start e))) r in
            match st_start e with
            | (Some err, s) => if (s == StateStopped) && (err == ProcessError) then finishUnstartedLocked close ErrCause r
                               else (set_state RuntimeReview r, Err ErrServiceRuntimeReview)
            | (None, s) =>
              let r := set_started true r in
              if s != StateReady then stopForReviewLocked (st_stop e) r
              else let r := call HandoffVerify r in
                   if negb (st_again e) then stopForReviewLocked (st_stop e) r else (set_state RuntimeReady r, Ok tt)
            end
      end.
Record observe_env := mkObserve { ov_verify : bool; ov_observe : option process_error * process_state; ov_stop : stop_env }.
Definition Observe (e : observe_env) (r : ServiceRuntime) : ServiceRuntime * res runtime_error unit :=
  if sr_state r != RuntimeReady then (r, Err (stateErrorLocked r))
  else
    let r := call HandoffVerify r in
    if negb (ov_verify e) then stopForReviewLocked (ov_stop e) r
    else
      let r := call ProcessObserve r in
      let '(err, s) := ov_observe e in
      if (err == Some ProcessReview) || (s == StateReviewRequired) then stopForReviewLocked (ov_stop e) r
      else match err with
           | Some _ => (r, Err ErrCause)
           | None => if s != StateReady then stopForReviewLocked (ov_stop e) r else (r, Ok tt)
           end.
Definition Stop (e : stop_env) (r : ServiceRuntime) : ServiceRuntime * res runtime_error unit :=
  match sr_state r with
  | RuntimeStopped => (r, Ok tt)
  | RuntimeReview => (r, Err ErrServiceRuntimeReview)
  | RuntimePrepared | RuntimeReady => stopAndCloseLocked e (set_state RuntimeStopping r)
  | _ => (r, Err ErrServiceRuntimeUnavailable)
  end.

(** ** What a trace says *)
(** some process may be running *)
Definition running_from (b : bool) (l : list event) : bool := fold_left (λ b e, match e with ProcessStart r => r | ProcessStop true => false | _ => b end) l b.
Definition running (l : list event) : bool := running_from false l.
(** the handoff is closed only when no process can be running *)
Fixpoint closed_idle (b : bool) (l : list event) : Prop :=
  match l with
  | [] => True
  | HandoffClose :: l' => b = false ∧ closed_idle b l'
  | ProcessStart r :: l' => closed_idle r l'
  | ProcessStop true :: l' => closed_idle false l'
  | _ :: l' => closed_idle b l'
  end.
Definition count (P : event → bool) (l : list event) : nat := length (List.filter P l).
Definition is_mount (e : event) : bool := match e with HandoffMount => true | _ => false end.
Definition is_start (e : event) : bool := match e with ProcessStart _ => true | _ => false end.
Definition is_stop (e : event) : bool := match e with ProcessStop _ => true | _ => false end.
Definition is_close (e : event) : bool := match e with HandoffClose => true | _ => false end.
Inductive rstep (r : ServiceRuntime) : ServiceRuntime → Prop :=
| r_start e : rstep r (Start e r).1
| r_observe e : rstep r (Observe e r).1
| r_stop e : rstep r (Stop e r).1.

Lemma running_app b l k : running_from b (l ++ k) = running_from (running_from b l) k.
Proof. apply fold_left_app. Qed.
Lemma closed_idle_app b l k : closed_idle b (l ++ k) ↔ closed_idle b l ∧ closed_idle (running_from b l) k.
Proof. revert b. induction l as [|[] l IH]; intros b; cbn; try rewrite IH; try tauto. destruct stopped0; rewrite IH; cbn; tauto. Qed.
Lemma count_events_app P l k : count P (l ++ k) = (count P l + count P k)%nat.
Proof. unfold count. by rewrite List.filter_app, length_app. Qed.

(** by its state: what the runtime has asked for *)
Record runtime_ok (r : ServiceRuntime) : Prop := {
  ro_once : (count is_mount (sr_trace r) ≤ 1)%nat ∧ (count is_start (sr_trace r) ≤ 1)%nat ∧ (count is_stop (sr_trace r) ≤ 1)%nat ∧ (count is_close (sr_trace r) ≤ 1)%nat;
  ro_idle : closed_idle false (sr_trace r);
  ro_state : match sr_state r with
             | RuntimePrepared => sr_trace r = [] ∧ sr_processesStarted r = false ∧ sr_stopAttempted r = false ∧ sr_closeAttempted r = false
             | RuntimeReady => sr_processesStarted r = true ∧ sr_stopAttempted r = false ∧ sr_closeAttempted r = false ∧ running (sr_trace r) = true
                               ∧ count is_stop (sr_trace r) = 0%nat ∧ count is_close (sr_trace r) = 0%nat
             | RuntimeStopped => running (sr_trace r) = false ∧ count is_close (sr_trace r) = 1%nat
             | RuntimeReview => True
             | _ => False
             end }.
(** the runtime moved on from a settled state with these calls *)
Lemma extend_ok r r' k : sr_state r = RuntimeReady → runtime_ok r → sr_trace r' = sr_trace r ++ k →
  count is_mount k = 0%nat → count is_start k = 0%nat → (count is_stop k ≤ 1)%nat → (count is_close k ≤ 1)%nat → closed_idle true k →
  match sr_state r' with
  | RuntimeReady => sr_processesStarted r' = true ∧ sr_stopAttempted r' = false ∧ sr_closeAttempted r' = false ∧ running_from true k = true ∧ count is_stop k = 0%nat ∧ count is_close k = 0%nat
  | RuntimeStopped => running_from true k = false ∧ count is_close k = 1%nat
  | RuntimeReview => True
  | _ => False
  end → runtime_ok r'.
Proof.
  intros Hst [(O1 & O2 & O3 & O4) Hi Hs] Ht K1 K2 K3 K4 Hk Hs'. rewrite Hst in Hs. destruct Hs as (_ & _ & _ & Hr & N1 & N2). unfold running in Hr.
  split; rewrite Ht, ?count_events_app, ?closed_idle_app; unfold running; rewrite ?running_app, ?Hr; [lia|done|]. destruct (sr_state r'); try done; rewrite ?N1, ?N2; cbn; tauto.
Qed.
(** before anything was stopped or closed *)
Record untouched (t : list event) : Prop := {
  un_mount : (count is_mount t ≤ 1)%nat; un_start : (count is_start t ≤ 1)%nat; un_stop : count is_stop t = 0%nat; un_close : count is_close t = 0%nat;
  un_idle : closed_idle false t }.
Lemma finish_ok close cause st t : untouched t → running t = false → runtime_ok (finishUnstartedLocked close cause (mkRuntime st false false false t)).1.
Proof.
  intros [U1 U2 U3 U4 U5] Hr. unfold finishUnstartedLocked, closeHandoffOnceLocked. cbn [sr_closeAttempted]. unfold running in Hr.
  destruct close; split; cbn [negb fst set_state call set_close sr_trace sr_state]; unfold running; rewrite ?count_events_app, ?closed_idle_app, ?running_app, ?Hr, ?U3, ?U4; cbn; try done; lia.
Qed.
Lemma stop_review_ok e st t : untouched t → runtime_ok (stopForReviewLocked e (mkRuntime st true false false t)).1.
Proof.
  intros [U1 U2 U3 U4 U5]. unfold stopForReviewLocked, closeHandoffOnceLocked. cbn [sr_stopAttempted sr_processesStarted set_stop call set_started sr_closeAttempted].
  destruct (stopped e); split; cbn [negb fst set_state call set_close set_stop set_started sr_trace sr_state]; rewrite ?count_events_app, ?closed_idle_app, ?running_app, ?U3, ?U4; cbn; try done; lia.
Qed.
Lemma ready_untouched r : sr_state r = RuntimeReady → runtime_ok r → untouched (sr_trace r).
Proof. intros Hst [(O1 & O2 & O3 & O4) Hi Hs]. rewrite Hst in Hs. split; tauto. Qed.
Lemma untouched_app t k : untouched t → count is_mount k = 0%nat → count is_start k = 0%nat → count is_stop k = 0%nat → count is_close k = 0%nat → closed_idle (running t) k → untouched (t ++ k).
Proof. intros [U1 U2 U3 U4 U5] K1 K2 K3 K4 K5. split; rewrite ?count_events_app, ?closed_idle_app; try lia. done. Qed.
Ltac plain := apply finish_ok || apply stop_review_ok; [split; unfold count; cbn; first [done|lia|tauto]|..]; try done.
Ltac direct := split; unfold count; cbn; split_and?; first [done|lia].
Lemma Start_ok e r : runtime_ok r → runtime_ok (Start e r).1.
Proof.
  intros Hok. unfold Start. destruct (sr_state r != RuntimePrepared) eqn:Hst; [done|]. apply negb_false_iff, bool_decide_eq_true in Hst. pose proof (ro_state _ Hok) as Hs. rewrite Hst in Hs.
  destruct Hs as (Ht & Hp & Hsa & Hca). destruct r as [state started stop close trace]. cbn in Ht, Hp, Hsa, Hca. subst. cbn [call set_state sr_state sr_processesStarted sr_stopAttempted sr_closeAttempted sr_trace app].
  destruct (negb (st_mount e)); [plain|]. cbn [call sr_state sr_processesStarted sr_stopAttempted sr_closeAttempted sr_trace app]. destruct (st_bindings e) as [bs|]; [|plain].
  destruct (negb (validServiceBindings bs)); [plain|]. cbn [call sr_state sr_processesStarted sr_stopAttempted sr_closeAttempted sr_trace app]. destruct (negb (st_verify e)); [plain|].
  destruct (st_start e) as [[err|] s0]; cbn [call set_started sr_state sr_processesStarted sr_stopAttempted sr_closeAttempted sr_trace app].
  - destruct ((s0 == StateStopped) && (err == ProcessError)) eqn:Hc; [|destruct err, s0; direct].
    apply andb_true_iff in Hc as [->%bool_decide_eq_true ->%bool_decide_eq_true]. plain.
  - destruct (s0 != StateReady); [plain|]. destruct (negb (st_again e)); [plain|]. direct.
Qed.
Lemma Observe_ok e r : runtime_ok r → runtime_ok (Observe e r).1.
Proof.
  intros Hok. unfold Observe. destruct (sr_state r != RuntimeReady) eqn:Hst; [done|]. apply negb_false_iff, bool_decide_eq_true in Hst. pose proof (ro_state _ Hok) as Hs. rewrite Hst in Hs.
  pose proof (ready_untouched r Hst Hok) as Hun. destruct Hs as (Hp & Hsa & Hca & _). assert (Hr1 : ∀ ev k, call ev (mkRuntime RuntimeReady true false false (sr_trace r ++ k)) = mkRuntime RuntimeReady true false false (sr_trace r ++ (k ++ [ev])))
    by (intros; unfold call; cbn; by rewrite app_assoc).
  assert (Hr0 : call HandoffVerify r = mkRuntime RuntimeReady true false false (sr_trace r ++ [HandoffVerify])) by (destruct r; cbn in *; subst; done). rewrite Hr0. cbn zeta.
  destruct (negb (ov_verify e)); [by apply stop_review_ok, untouched_app|]. rewrite Hr1. cbn [app]. destruct (ov_observe e) as [err st].
  destruct (_ || _); [by apply stop_review_ok, untouched_app|].
  assert (Hsame : runtime_ok (mkRuntime RuntimeReady true false false (sr_trace r ++ [HandoffVerify; ProcessObserve]))) by (by apply (extend_ok r _ [HandoffVerify; ProcessObserve] Hst Hok); cbn; try lia).
  destruct err; [done|]. destruct (st != StateReady); [|done]. by apply stop_review_ok, untouched_app.
Qed.
Lemma Stop_ok e r : runtime_ok r → runtime_ok (Stop e r).1.
Proof.
  intros Hok. unfold Stop. destruct (sr_state r) eqn:Hst; try done; pose proof (ro_state _ Hok) as Hs; rewrite Hst in Hs; unfold stopAndCloseLocked, closeHandoffOnceLocked.
  - destruct Hs as (Ht & Hp & Hsa & Hca). destruct r. cbn in *. subst. cbn. destruct (se_close e); direct.
  - destruct Hs as (Hp & Hsa & Hca & _). cbn [set_state sr_processesStarted sr_stopAttempted]. rewrite Hp, Hsa. cbn zeta. destruct (stopped e); cbn [negb].
    + cbn [set_stop set_started call set_state sr_closeAttempted]. rewrite Hca. destruct (se_close e); cbn [negb fst]; apply (extend_ok r _ [ProcessStop true; HandoffClose] Hst Hok); cbn; try lia; try done; by rewrite <- app_assoc.
    + apply (extend_ok r _ [ProcessStop false] Hst Hok); cbn; try lia; done.
Qed.
Lemma rstep_ok r r' : runtime_ok r → rstep r r' → runtime_ok r'.
Proof. intros Hok [e|e|e]; [by apply Start_ok|by apply Observe_ok|by apply Stop_ok]. Qed.
Lemma rsteps_ok r r' : runtime_ok r → rtc rstep r r' → runtime_ok r'.
Proof. intros Hok Hs. induction Hs as [|r r1 r2 H1 _ IH]; [done|]. apply IH. by apply (rstep_ok r). Qed.
Definition final (s : ServiceRuntimeState) : Prop := s = RuntimeReview ∨ s = RuntimeStopped.
Lemma rstep_final r r' : final (sr_state r) → rstep r r' → r' = r.
Proof. intros Hf [e|e|e]; unfold Start, Observe, Stop; destruct Hf as [Hs|Hs]; rewrite Hs; done. Qed.
Lemma rsteps_final r r' : final (sr_state r) → rtc rstep r r' → r' = r.
Proof. intros Hf Hs. induction Hs as [|r r1 r2 H1 _ IH]; [done|]. pose proof (rstep_final r r1 Hf H1) as ->. by apply IH. Qed.

(** C7: Whatever is started, observed and stopped, and whatever the handoff and the processes answer: the handoff is closed only when no process can be running
    any more, that is when the start failed with everything stopped or a stop has confirmed it; it is mounted and closed, and the processes started and stopped, at
    most once; ready means that they run on a handoff that is not closed, stopped that none runs and the handoff was closed; and once stopped or in review the
    runtime makes no call again. *)
Theorem handoff_outlives_processes r r' : rtc rstep newServiceRuntime r → rtc rstep r r' →
  (∀ l1 l2, sr_trace r = l1 ++ HandoffClose :: l2 → running l1 = false)
  ∧ (count is_mount (sr_trace r) ≤ 1)%nat ∧ (count is_start (sr_trace r) ≤ 1)%nat ∧ (count is_stop (sr_trace r) ≤ 1)%nat ∧ (count is_close (sr_trace r) ≤ 1)%nat
  ∧ match sr_state r with
    | RuntimePrepared => sr_trace r = []
    | RuntimeReady => running (sr_trace r) = true ∧ count is_close (sr_trace r) = 0%nat
    | RuntimeStopped => running (sr_trace r) = false ∧ count is_close (sr_trace r) = 1%nat ∧ r' = r
    | RuntimeReview => r' = r
    | RuntimeStarting | RuntimeStopping => False
    end.
Proof.
  intros Hs Hs'. assert (H0 : runtime_ok newServiceRuntime) by direct. destruct (rsteps_ok _ r H0 Hs) as [Ho Hi Hst]. split; [|split_and!; [apply Ho..|]].
  - intros l1 l2 He. rewrite He in Hi. apply closed_idle_app in Hi as [_ [Hr _]]. exact Hr.
  - destruct (sr_state r) eqn:Hr; try tauto; [apply rsteps_final; [by left|done]|]. split_and!; [apply Hst..|]. apply rsteps_final; [by right|done].
Qed.

(** ** Bindings *)
Lemma adjacent_NoDup ids : StronglySorted (key_le (λ id, id)) ids → adjacent ids = false → NoDup ids.
Proof.
  induction 1 as [|x l Hl IH HF]; [constructor|]. destruct l as [|y l]; [repeat constructor; set_solver|]. intros H. change (adjacent (x :: y :: l)) with ((x == y) || adjacent (y :: l)) in H.
  apply orb_false_iff in H as [Hxy Ha]. apply bool_decide_eq_false in Hxy. apply NoDup_cons. split; [|by apply IH]. intros [->|Hin]%elem_of_cons; [done|].
  inv Hl. rewrite Forall_forall in HF, H2. apply Hxy. apply codes_inj, bytes_leb_antisym; [apply HF; left|by apply H2].
Qed.
Lemma NoDup_adjacent ids : NoDup ids → adjacent ids = false.
Proof.
  induction 1 as [|x l Hx Hl IH]; [done|]. destruct l as [|y l]; [done|]. change (adjacent (x :: y :: l)) with ((x == y) || adjacent (y :: l)). rewrite IH, bool_decide_eq_false_2; [done|]. set_solver.
Qed.
(** the bindings that a start accepts: each well formed, no path and no share twice *)
Lemma bindings_exact bs : validServiceBindings bs = true ↔ bs ≠ [] ∧ Forall (λ b, bad_binding b = false) bs ∧ NoDup (pb_Path <$> bs) ∧ NoDup (pb_ShareID <$> bs).
Proof.
  unfold validServiceBindings. destruct (Z.eqb_spec (len bs) 0) as [H0|H0]; [destruct bs; [naive_solver|done]|].
  set (add := λ (st : gset string * list string) b, ({[pb_Path b]} ∪ st.1, st.2 ++ [pb_ShareID b])).
  assert (Hl : ∀ st, for_range (λ _, binding_step) 0 (∅, []) bs = Ok st ↔ Forall (λ b, bad_binding b = false) bs ∧ NoDup (pb_Path <$> bs) ∧ st = fold_left add bs (∅, [])).
  { intros st. rewrite (for_range_chain add _ (λ b, bad_binding b = false) (λ st b, pb_Path b ∉ st.1)).
    - rewrite (chain_key _ fst pb_Path) by done. cbn [fst]. pose proof (not_elem_of_empty_all pb_Path bs). tauto.
    - intros j s b s'. unfold binding_step. rewrite refuse_Ok, orb_false_iff, bool_decide_eq_false. naive_solver. }
  assert (Hids : (fold_left add bs (∅, [])).2 = (pb_ShareID <$> bs)) by (by rewrite (fold_snoc add snd pb_ShareID)).
  assert (Hsort : negb (adjacent (sort_by (λ id, id) (pb_ShareID <$> bs))) = true ↔ NoDup (pb_ShareID <$> bs)).
  { rewrite negb_true_iff. split; [intros H%adjacent_NoDup; [by rewrite sort_by_perm in H|apply sort_by_sorted]|]. intros H. apply NoDup_adjacent. by rewrite sort_by_perm. }
  assert (Hne : bs ≠ []) by (intros ->; done). destruct (for_range _ 0 _ bs) as [[s ids]|] eqn:He.
  - destruct (proj1 (Hl (s, ids)) eq_refl) as (HF & HN & Hs). assert (ids = (pb_ShareID <$> bs)) as -> by (by rewrite <- Hids, <- Hs). rewrite Hsort. tauto.
  - split; [done|]. intros (_ & HF & HN & _). by assert (Hx := proj2 (Hl _) (conj HF (conj HN eq_refl))).
Qed.

(** ** A run *)
Definition sample_binding : ServicePathBinding := mkPathBinding "books" "bulk" "11111111-2222-3333-4444-555555555555" "/srv/phantowd/volumes/bulk" 41 8 1 "my/books" false "/run/phantowd/books".
Definition sample_stop : stop_env := mkStop (Ok StateStopped) true.
Definition sample_start : start_env := mkStart true (Some [sample_binding]) true (None, StateReady) true sample_stop.
Definition sample_ready : ServiceRuntime := (Start sample_start newServiceRuntime).1.
Definition sample_stopped : ServiceRuntime := (Stop sample_stop sample_ready).1.
Lemma handoff_outlives_processes_witness : sr_state sample_ready = RuntimeReady
  ∧ sr_trace sample_stopped = [HandoffMount; HandoffBindings; HandoffVerify; ProcessStart true; HandoffVerify; ProcessStop true; HandoffClose]
  ∧ running [HandoffMount; HandoffBindings; HandoffVerify; ProcessStart true; HandoffVerify; ProcessStop true] = false.
Proof.
  split; [vm_compute; reflexivity|]. split; [vm_compute; reflexivity|].
  destruct (handoff_outlives_processes sample_stopped sample_stopped) as [H _]; [eapply rtc_l; [apply (r_start _ sample_start)|]; eapply rtc_l; [apply (r_stop _ sample_stop)|]; apply rtc_refl|apply rtc_refl|].
  apply (H _ []). vm_compute. reflexivity.
Defined.
End ServiceRuntime.
